(* ===== verification/_CoqProject ===== *)
-Q . S2P
Prelude.v
HashChain.v
MfsComm.v
FreeInodes.v
AppendRes.v
Changelog.v
DataPack.v
LinHash.v
LinHashProps.v
PosixRanges.v
PosixLocks.v
PosixReplay.v
FlockLocks.v
LockSessions.v
OpenFiles.v
FsNodes.v
PosixAcl.v
FsAccess.v
AclFacts.v
AclProps.v
AclImages.v
StorageClass.v
FsTree.v
FsOps.v
FsStats.v
FsTreeInv.v
FsTreeEdges.v
FsTreeLink.v
FsTreeNodes.v
FsTreeOps.v
FsWalks.v
FsTreeUnlink.v
FsTreeFiles.v
FsRequests.v
FsNames.v
FsMoves.v
FsPaths.v
FsStart.v
FsSystem.v
FsReplay.v
FsProps.v
LockSystem.v
LockImages.v
PosixProps.v
FlockProps.v
LockProps.v
Listings.v
GlobEngine.v
GlobFacts.v
GlobMatch.v
GlobProps.v
PatternTable.v
PatternFacts.v
PatternImage.v
PatternProps.v
LabelParser.v
LabelGrammar.v
LabelFacts.v
LabelCode.v
LabelPrint.v
LabelRound.v
LabelEnds.v
LabelProps.v
Crc.v
CrcProps.v
IntervalTree.v
Topology.v
TopologyProps.v
ChangelogText.v
ChangelogProps.v
MapSum.v
Xattr.v
XattrProps.v
ChunkFiles.v
ChunkLists.v
ChunkInv.v
ChunkProps.v
ChunkImages.v
