(* ===== verification/Prelude.v ===== *)
(** * The MooseFS master: a verification development

    The master of MooseFS keeps the metadata of a distributed file system in memory: the
    tree of files, the open files and locks of its clients, access control lists,
    storage classes, and which chunk servers have which chunks.  Every change is written
    to a changelog, which followers (metaloggers, and the master itself when it starts
    from an image) replay.  This development models parts of the master from the source
    under [src/mfsmaster] and [src/mfscommon] and proves what makes them correct.

    ** How the code is modelled

    - Functions of the code are functions here, under the names of the code; the static
      variables of a file are a record that is passed on.  A [uintN_t] is a [Z] and the
      wrap-around is written ([u8], [u16], [u32], [u64]) where the code can meet it.
    - [option] is for what the code must not do: a failed [massert] or [passert], an
      access through a freed record or to the wrong member of a union, an index past an
      array, a recursion that does not end.  Statuses ([MFS_ERROR_...]) are values.
      Memory exhaustion is not modelled.
    - What a function writes to the changelog is part of its result, as a value
      ([centry] for locks, [id_entry], [fs_entry], [tree_entry], [patchange]).
    - Messages and images are lists of bytes.  Calls into parts of the master that are
      not modelled and that give nothing back are listed ([t_calls]); those that give
      something back are parameters ([of_isfileopen] of the tree: which files are open).
    - Time stamps and configuration values are arguments.

    ** Files

    Shared: [Prelude] (notation, widths, tactics, lists), [HashChain] (chained tables of
    fixed size), [MfsComm] (constants of MFSCommunication.h), [Changelog], [DataPack]
    (datapack.h: integers in messages, in its three builds), [MapSum] (sums over tables).

    Hash tables (hash_begin.h): [LinHash] has the table that grows while it is used, and
    its instances for nodes, edges, chunks and access lists; [LinHashProps] proves that
    any sequence of operations gives the results of a finite map.  The other files use
    finite maps for these tables.

    Open files and locks (openfiles.c, posixlocks.c, flocklocks.c): [PosixRanges],
    [PosixLocks], [PosixReplay], [FlockLocks], [LockSessions], [OpenFiles], the system of
    the three with the packets of the clients [LockSystem] (matoclserv.c), their images
    [LockImages], the listings for administrators [Listings].  [PosixProps], [FlockProps]
    and [LockProps] have the theorems: mutual exclusion in all reachable states, the
    effect of each command on every branch, replay, images, no lost waiting request,
    and behaviours that are flaws.

    Nodes and rights (filesystem.c, posixacl.c): [FsNodes], [PosixAcl], [FsAccess] (rights,
    attributes, access lists), [AclFacts], [AclImages], [AclProps] (the access check is
    POSIX.1e's, replay, who may change what, confinement of sessions to their directory).

    The tree of files (filesystem.c, appendres.c, storageclass.c, patterns.c):
    - [FreeInodes]: inode numbers, the mask of those in use and the list of freed ones;
      [AppendRes]: reservations of space by appends; [StorageClass]: what the tree asks
      of classes, and the patterns for new names.
    - [FsTree]: nodes, edges and the functions [fsnodes_...] that change them: statistics
      of directories, archive mode, links, new nodes, removal, trash, lengths, classes,
      quota tests.  [FsOps]: the handlers [fs_univ_...], which serve and replay, and
      their callers.
    - [FsStats]: statistics as sums modulo the width of their fields, with an equivalence
      [≡] and its [Proper] instances; [FsTreeInv]: the invariant [tree_inv]; that each
      function keeps it: [FsTreeEdges], [FsTreeLink], [FsTreeNodes], [FsTreeOps],
      [FsWalks] (walks to the root end), [FsTreeUnlink], [FsTreeFiles], [FsPaths].
    - [FsRequests], [FsMoves]: the effect of each request; [FsNames]: the abstract view
      of a tree, a map from directory and name to inode, and what the effects are on it.
    - [FsStart], [FsSystem]: the first state and the states requests lead to;
      [FsReplay]: the replay of their changelog; [FsProps]: the theorems.

    Wildcards and patterns (globengine.c, patterns.c): [GlobEngine] compiles and matches
    a pattern and has the cache of compiled ones; [GlobFacts], [GlobMatch] and
    [GlobProps] prove that it matches what the manual page says, and where it does not.
    [PatternTable] is the sorted table of rules for new names, with its requests, replay,
    list and image; [PatternFacts], [PatternImage] and [PatternProps]: the search finds
    the rule of the highest priority, what each request does, replay, image.  The sort of
    the C library is a parameter with its law ([SortsPatterns]).  [tree_patterns] is what
    the tree sees of the table.

    Label expressions (labelparser.c): [LabelParser] has the parser, the compiler to byte
    code, its evaluation and printing.  [LabelGrammar] has the grammar of the header file
    and the meaning of an expression; [LabelFacts] proves that the parser accepts that
    grammar, [LabelCode] that the byte code of a tree computes its value on any stack
    machine, of which [LabelPrint] has the two instances, evaluation and printing;
    [LabelRound] is the round trip of a class, [LabelEnds] that every text is answered,
    [LabelProps] the theorems.

    The text of the changelog (changelog.c, restore.c): [ChangelogText] writes the entries
    of all modelled parts as lines, with the escaping of names and its two shared
    buffers, and reads lines back; [ChangelogProps] has the round trip, its composition
    with the replay of the tree, and the entry that is too long for its buffer.

    Extended attributes (xattr.c, dictionary.c, filesystem.c): [Xattr] has the attributes
    of nodes, the dictionary that counts the uses of their names and values, the buffers
    and the image, the requests and their replay; [XattrProps] the invariant that the
    counts are right, the effect of a request on every branch, and the round trips.

    Files of chunks (chunks.c, storageclass.c): [ChunkFiles] has the chunks with the count
    of their files by storage class - a number, or a list of cells in one array -, the
    counters of the classes, the calls of the tree and of the replay, and the image.
    [ChunkLists] proves what the walks over cells do to the lists in memory, [ChunkInv]
    that each call keeps the invariant [chunks_ok] and what it does to the number of
    files [files_of], [ChunkImages] is the round trip through the image; [ChunkProps]:
    the counts refine functions from classes to numbers, a write never changes data that
    another file has, no call fails an assertion, and the test whether a class is in use
    is right.

    Network topology (topology.c, itree.c): [IntervalTree] is the tree of address ranges,
    with its refinement of a map; [Topology] the names of locations, the parser and
    loader of the file and the distance of two addresses; [TopologyProps] proves them to
    be what the manual page of the file says.

    Checksums (crc.c): [Crc], for every byte order, compiler and alignment; [CrcProps]:
    the tables compute the CRC bit by bit, combination, and what damage is seen.

    ** The theorems of the tree

    [tree_inv] says that edges, the lists of parents and of children and the table of
    names agree; directories but the root have one parent and there is no cycle; links
    and elements are counted; files without a name are those of the trash and the
    sustained ones, in the right bucket; the counters of nodes, space and classes, and
    the mask of inode numbers are right; the statistics of a directory are the sum over
    its entries.  [FsProps] proves it for all reachable states ([request_ok] lists what
    requests are assumed to keep to), that every request is answered, that the requests
    refine operations on the map of names, what unlink and setlength do on every branch,
    that the statistics are the totals of a walk, the paths of files in the trash, the
    quota test, and that a follower that replays the changelog has the same tree.

    ** Fuel

    The walks to the root take [climb_fuel], two more than the number of nodes: a walk
    passes no directory twice ([FsWalks.upward_ind]).  The walk down that defines the
    totals of a directory takes one more than the number of nodes.  Other recursions are
    on lists, or are loops whose bound is the width of a word or the size of a table; for
    each there is a theorem that it ends with a result.

    ** What is assumed

    [request_ok]: the session is not one that replays; a new node finds a free number and
    a group; the length is set on a file ([fs_try_setlength] tested that); and for a
    rename [move_ok]: the two names differ and a directory is not moved into itself
    (without that the program fails, see [rename_into_itself_faults] and
    [rename_onto_itself_faults]), and a node with several links has the storage ratio of
    its class (else the statistics of the directories of the other links go wrong).
    [agrees] lists in which cases the replay needs more: patterns that do not depend on
    the user or on groups the entry does not have.  [glob_match_exact] is for
    patterns whose middle pieces are as long as the first; [GlobProps] shows what happens
    to others.  For chunks: a call names a class the chunk has a file of ([op_allowed]),
    and cells and numbers of chunks do not run out ([room]).

    ** Not modelled

    Of filesystem.c: snapshots, undelete and the emptying of the trash, directory
    listings, requests for quotas, trash times, classes and extra attributes, writing of
    chunks, the periodic tests, attribute records of answers, and the image of nodes and
    edges.  Of chunks.c: the copies of chunks on servers, the queues of replications and
    deletions and the jobs that look after them, and with them the branches of
    [chunk_univ_multi_modify] and its kin that talk to chunk servers (the replay of these
    is modelled); the definition of storage classes; sessions and exports; the files of the
    changelog and their rotation, and the entries of parts that are not modelled.  The
    chunk server, the mount client, the tools and the sockets are input and output around
    these. *)

From Stdlib Require Export ZArith Lia.
From stdpp Require Export prelude sorting gmap.

#[global] Open Scope Z_scope.
#[export] Set Warnings "-clear-no-such-hyp".

(** ** Machine integers

    A [uintN_t] is a [Z]; the wrap-around of an arithmetic operation is written
    where the code computes one. *)

Declare Scope mfs_scope.
Delimit Scope mfs_scope with mfs.

Definition u8 (z : Z) : Z := z `mod` 2 ^ 8.
Definition u16 (z : Z) : Z := z `mod` 2 ^ 16.
Definition u32 (z : Z) : Z := z `mod` 2 ^ 32.
Definition u64 (z : Z) : Z := z `mod` 2 ^ 64.

Definition is_u8 (z : Z) : Prop := 0 ≤ z < 2 ^ 8.
Definition is_u16 (z : Z) : Prop := 0 ≤ z < 2 ^ 16.
Definition is_u32 (z : Z) : Prop := 0 ≤ z < 2 ^ 32.
Definition is_u64 (z : Z) : Prop := 0 ≤ z < 2 ^ 64.

Definition UINT32_MAX : Z := 2 ^ 32 - 1.
Definition UINT64_MAX : Z := 2 ^ 64 - 1.

Create HintDb mfs.

(** A value fits a word when it has no bits above. *)
Lemma is_u32_bits z : is_u32 z ↔ 0 ≤ z ∧ ∀ i, 32 ≤ i → Z.testbit z i = false.
Proof.
  unfold is_u32. split.
  - intros [H0 H1]. split; [done|]. intros i Hi. destruct (Z.eq_dec z 0) as [->|]; [apply Z.bits_0|].
    apply Z.bits_above_log2; [done|]. apply Z.log2_lt_pow2; [lia|]. eapply Z.lt_le_trans; [done|]. apply Z.pow_le_mono_r; lia.
  - intros [H0 Hb]. split; [done|]. destruct (Z.eq_dec z 0) as [->|]; [lia|].
    apply Z.log2_lt_pow2; [lia|]. destruct (Z_lt_le_dec (Z.log2 z) 32) as [|Hle]; [done|].
    specialize (Hb _ Hle). rewrite Z.bit_log2 in Hb by lia. done.
Qed.


(** ** Automation *)

(** Turns boolean tests on integers in the context into propositions. *)
Ltac zbool :=
  repeat match goal with
  | H : (_ && _)%bool = true |- _ => apply andb_prop in H as [? ?]
  | H : (_ || _)%bool = false |- _ => apply orb_false_elim in H as [? ?]
  | H : (_ && _)%bool = false |- _ => apply andb_false_iff in H
  | H : (_ || _)%bool = true |- _ => apply orb_true_iff in H
  | H : negb _ = true |- _ => apply negb_true_iff in H
  | H : negb _ = false |- _ => apply negb_false_iff in H
  | H : bool_decide _ = true |- _ => apply bool_decide_eq_true in H
  | H : bool_decide _ = false |- _ => apply bool_decide_eq_false in H
  | H : (_ =? _) = true |- _ => apply Z.eqb_eq in H
  | H : (_ =? _) = false |- _ => apply Z.eqb_neq in H
  | H : (_ <? _) = true |- _ => apply Z.ltb_lt in H
  | H : (_ <? _) = false |- _ => apply Z.ltb_ge in H
  | H : (_ <=? _) = true |- _ => apply Z.leb_le in H
  | H : (_ <=? _) = false |- _ => apply Z.leb_gt in H
  end.

(** Case analysis on the test of an [if] in the goal, the outcome as propositions. *)
Ltac case_if :=
  match goal with
  | |- context [if ?b then _ else _] =>
      lazymatch type of b with
      | bool => let E := fresh "E" in destruct b eqn:E; zbool
      end
  end.

(** The same on a hypothesis. *)
Ltac case_if_in H :=
  match type of H with
  | context [if ?b then _ else _] =>
      lazymatch type of b with
      | bool => let E := fresh "E" in destruct b eqn:E; zbool
      end
  end.

(** ** Bits *)

Lemma low_lor a b n : 0 ≤ n → 0 ≤ a < 2 ^ n → Z.lor a (Z.shiftl b n) = a + b * 2 ^ n.
Proof.
  intros Hn Ha. rewrite <-Z.add_nocarry_lor; [by rewrite Z.shiftl_mul_pow2|]. apply Z.bits_inj'. intros k Hk.
  rewrite Z.land_spec, Z.bits_0. destruct (Z.lt_ge_cases k n).
  - rewrite Z.shiftl_spec_low by done. apply andb_false_r.
  - by rewrite <-(Z.mod_small a (2 ^ n)), Z.mod_pow2_bits_high by lia.
Qed.

(** ** Lists *)

Section lists.
Context {A : Type}.

Lemma Forall_sublist (P : A → Prop) (l k : list A) :
  l `sublist_of` k → Forall P k → Forall P l.
Proof. induction 1; intros HF; [done| |]; inversion HF; auto. Qed.

Lemma Forall_filter_keep (P Q : A → Prop) `{∀ x, Decision (Q x)} (l : list A) :
  Forall P l → Forall P (filter Q l).
Proof. apply Forall_sublist, sublist_filter. Qed.

End lists.
