(* ===== verification/HashChain.v ===== *)
(** * Fixed-size chained hash tables

    [posixlocks.c] and [flocklocks.c] keep their records in an array of singly
    linked chains of a fixed number of buckets.  The array is a list of chains;
    a chain is a list whose head is the element the bucket points to.  The
    operations below are those the two files write out by hand: a linear search
    of the chain, insertion at its head, removal of every record with the key,
    and the update in place of the record a search returned.

    The class [HashKeyed] is what a client promises about its records; the
    theorems show that, for well-formed tables, the operations are those of a
    finite map from keys to records. *)

From S2P Require Import Prelude.

(** What a record type gives the table: its key, the bucket of a key, the
    number of buckets. *)
Class HashKeyed (E : Type) := {
  hk_key : E → Z;
  hk_hash : Z → Z;
  hk_size : Z;
  hk_hash_range : ∀ k, 0 ≤ hk_hash k < hk_size
}.

Section table.
Context {E : Type} `{HK : HashKeyed E}.

Definition bucket (k : Z) : nat := Z.to_nat (hk_hash k).

(** The chain a key belongs to. *)
Definition chain_of (k : Z) (t : list (list E)) : list E := default [] (t !! bucket k).

Definition tab_empty : list (list E) := replicate (Z.to_nat hk_size) [].

Fixpoint chain_find (k : Z) (l : list E) : option E :=
  match l with
  | [] => None
  | e :: rest => if hk_key e =? k then Some e else chain_find k rest
  end.

Definition tab_find (k : Z) (t : list (list E)) : option E := chain_find k (chain_of k t).

Definition tab_add (e : E) (t : list (list E)) : list (list E) :=
  <[bucket (hk_key e) := e :: chain_of (hk_key e) t]> t.

Fixpoint chain_remove (k : Z) (l : list E) : list E :=
  match l with
  | [] => []
  | e :: rest => if hk_key e =? k then chain_remove k rest else e :: chain_remove k rest
  end.

Definition tab_remove (k : Z) (t : list (list E)) : list (list E) :=
  <[bucket k := chain_remove k (chain_of k t)]> t.

(** Update in place of the record a search for [k] returns. *)
Fixpoint chain_set (k : Z) (e' : E) (l : list E) : list E :=
  match l with
  | [] => []
  | e :: rest => if hk_key e =? k then e' :: rest else e :: chain_set k e' rest
  end.

Definition tab_set (k : Z) (e' : E) (t : list (list E)) : list (list E) :=
  <[bucket k := chain_set k e' (chain_of k t)]> t.

(** All records, in the order of the loops [for (h=0 ; h<SIZE ; h++) for (e=tab[h] ; e ; e=e->next)]. *)
Definition tab_all (t : list (list E)) : list E := concat t.

(** A loop over all records that updates each in place. *)
Definition tab_map (f : E → E) (t : list (list E)) : list (list E) := map (map f) t.

(** ** Well-formedness *)

Definition chain_wf (i : nat) (l : list E) : Prop :=
  NoDup (hk_key <$> l) ∧ Forall (λ e, bucket (hk_key e) = i) l.

Record tab_wf (t : list (list E)) : Prop := {
  tab_wf_size : length t = Z.to_nat hk_size;
  tab_wf_chain : ∀ i l, t !! i = Some l → chain_wf i l
}.

Lemma bucket_lt k t : tab_wf t → (bucket k < length t)%nat.
Proof. intros [-> _]. unfold bucket. pose proof (hk_hash_range k). lia. Qed.

Lemma chain_of_wf k t : tab_wf t → chain_wf (bucket k) (chain_of k t).
Proof.
  intros Hwf. destruct (lookup_lt_is_Some_2 t (bucket k)) as [l Hl];
    [by apply bucket_lt|].
  unfold chain_of. rewrite Hl. by apply Hwf.
Qed.

Lemma chain_of_insert_eq k l t :
  tab_wf t → chain_of k (<[bucket k := l]> t) = l.
Proof.
  intros Hwf. unfold chain_of. by rewrite list_lookup_insert_eq by by apply bucket_lt.
Qed.

Lemma chain_of_insert_ne k i l (t : list (list E)) :
  bucket k ≠ i → chain_of k (<[i := l]> t) = chain_of k t.
Proof. intros Hne. unfold chain_of. by rewrite list_lookup_insert_ne. Qed.

Lemma tab_wf_insert i l t : tab_wf t → chain_wf i l → tab_wf (<[i := l]> t).
Proof.
  intros [Hsz Hch] Hl. split; [by rewrite length_insert|].
  intros j l' [(-> & <- & _)|[_ Hj]]%list_lookup_insert_Some; eauto.
Qed.

Lemma tab_empty_wf : tab_wf tab_empty.
Proof.
  split; [apply length_replicate|].
  intros i l [-> _]%lookup_replicate. split; constructor.
Qed.

Lemma tab_find_empty k : tab_find k tab_empty = None.
Proof.
  unfold tab_find, chain_of, tab_empty.
  destruct (_ !! _) eqn:Hl; [|done]. by apply lookup_replicate in Hl as [-> _].
Qed.

(** ** Search *)

Lemma chain_find_Some k e l : chain_find k l = Some e → e ∈ l ∧ hk_key e = k.
Proof.
  induction l as [|e' l IH]; simpl; [done|]. case_if.
  - intros [= <-]. split; [constructor|done].
  - intros [? ?]%IH. split; [by constructor|done].
Qed.

Lemma chain_find_elem k e l :
  NoDup (hk_key <$> l) → e ∈ l → hk_key e = k → chain_find k l = Some e.
Proof.
  induction l as [|e' l IH]; csimpl; intros Hnd Hin Hk; [by apply elem_of_nil in Hin|].
  apply NoDup_cons in Hnd as [Hni Hnd].
  apply elem_of_cons in Hin as [->|Hin]; [by rewrite Hk, Z.eqb_refl|].
  case_if; [|auto]. exfalso. apply Hni. apply list_elem_of_fmap. exists e. split; congruence.
Qed.

Lemma chain_find_None k l : chain_find k l = None ↔ k ∉ hk_key <$> l.
Proof.
  induction l as [|e l IH]; csimpl.
  - split; [|done]. intros _ ?%elem_of_nil. done.
  - rewrite not_elem_of_cons, <-IH. case_if; split; [done|intros []; congruence|auto|intros []; done].
Qed.

Lemma tab_find_key k e t : tab_find k t = Some e → hk_key e = k.
Proof. by intros [_ ?]%chain_find_Some. Qed.

Lemma tab_find_all k e t :
  tab_wf t → tab_find k t = Some e ↔ e ∈ tab_all t ∧ hk_key e = k.
Proof.
  intros Hwf. unfold tab_all. split.
  - intros [Hin Hk]%chain_find_Some. split; [|done].
    apply list_elem_of_In, in_concat. unfold chain_of in Hin.
    destruct (t !! bucket k) as [l|] eqn:Hl; simpl in Hin; [|by apply elem_of_nil in Hin].
    exists l. split; apply list_elem_of_In; [|done]. by eapply list_elem_of_lookup_2.
  - intros [(l & Hl & Hin)%list_elem_of_In%in_concat Hk].
    apply list_elem_of_In, list_elem_of_lookup in Hl as [i Hi]. apply list_elem_of_In in Hin.
    pose proof (tab_wf_chain _ Hwf _ _ Hi) as [Hnd Hb].
    rewrite Forall_forall in Hb. specialize (Hb _ Hin). unfold tab_find, chain_of.
    rewrite <-Hk, Hb, Hi. simpl. by apply chain_find_elem.
Qed.

(** ** Insertion, removal and update are those of a finite map *)

Lemma tab_find_add k e t :
  tab_wf t → tab_find k (tab_add e t) = if hk_key e =? k then Some e else tab_find k t.
Proof.
  intros Hwf. unfold tab_find, tab_add. case_if.
  - subst k. rewrite chain_of_insert_eq by done. simpl. by rewrite Z.eqb_refl.
  - destruct (decide (bucket k = bucket (hk_key e))) as [Hb|Hb].
    + rewrite <-Hb, chain_of_insert_eq by done. simpl. case_if; [congruence|].
      unfold chain_of. by rewrite Hb.
    + by rewrite chain_of_insert_ne.
Qed.

Lemma tab_wf_add e t : tab_wf t → tab_find (hk_key e) t = None → tab_wf (tab_add e t).
Proof.
  intros Hwf Hno. apply tab_wf_insert; [done|].
  destruct (chain_of_wf (hk_key e) t Hwf) as [Hnd Hb].
  split; [|by constructor]. simpl. apply NoDup_cons. split; [|done].
  by apply chain_find_None.
Qed.

Lemma chain_find_remove k k' l :
  chain_find k (chain_remove k' l) = if k' =? k then None else chain_find k l.
Proof.
  induction l as [|e l IH]; simpl; [by case_if|].
  destruct (Z.eqb_spec (hk_key e) k'); simpl; rewrite IH; repeat case_if; congruence.
Qed.

Lemma chain_remove_sublist k l : chain_remove k l `sublist_of` l.
Proof. induction l; simpl; [done|]. case_if; by constructor. Qed.

Lemma tab_find_remove k k' t :
  tab_wf t → tab_find k (tab_remove k' t) = if k' =? k then None else tab_find k t.
Proof.
  intros Hwf. unfold tab_find, tab_remove.
  destruct (decide (bucket k = bucket k')) as [Hb|Hb].
  - rewrite <-Hb, chain_of_insert_eq by done. rewrite chain_find_remove.
    unfold chain_of. by rewrite Hb.
  - rewrite chain_of_insert_ne by done. case_if; [congruence|done].
Qed.

Lemma tab_wf_remove k t : tab_wf t → tab_wf (tab_remove k t).
Proof.
  intros Hwf. apply tab_wf_insert; [done|].
  destruct (chain_of_wf k t Hwf) as [Hnd Hb]. split.
  - eapply sublist_NoDup; [done|]. apply fmap_sublist, chain_remove_sublist.
  - eapply Forall_sublist; [|done]. apply chain_remove_sublist.
Qed.

Lemma chain_set_keys k e' l :
  hk_key e' = k → hk_key <$> chain_set k e' l = hk_key <$> l.
Proof.
  intros Hk. induction l as [|e l IH]; csimpl; [done|].
  case_if; csimpl; [congruence|by rewrite IH].
Qed.

Lemma chain_find_set k k' e' l :
  hk_key e' = k' →
  chain_find k (chain_set k' e' l) =
  if k' =? k then ((λ _, e') <$> chain_find k l) else chain_find k l.
Proof.
  intros Hk. induction l as [|e l IH]; simpl; [by case_if|].
  destruct (Z.eqb_spec (hk_key e) k'); simpl; [|rewrite IH]; repeat (case_if; simpl); congruence.
Qed.

Lemma tab_find_set k k' e' t :
  tab_wf t → hk_key e' = k' →
  tab_find k (tab_set k' e' t) =
  if k' =? k then ((λ _, e') <$> tab_find k t) else tab_find k t.
Proof.
  intros Hwf Hk. unfold tab_find, tab_set.
  destruct (decide (bucket k = bucket k')) as [Hb|Hb].
  - rewrite <-Hb, chain_of_insert_eq by done. rewrite chain_find_set by done.
    unfold chain_of. by rewrite Hb.
  - rewrite chain_of_insert_ne by done. case_if; [congruence|done].
Qed.

Lemma tab_wf_set k e' t : tab_wf t → hk_key e' = k → tab_wf (tab_set k e' t).
Proof.
  intros Hwf Hk. apply tab_wf_insert; [done|].
  destruct (chain_of_wf k t Hwf) as [Hnd Hb]. split; [by rewrite chain_set_keys|].
  rewrite Forall_forall in Hb |- *.
  assert (Forall (λ z, Z.to_nat (hk_hash z) = bucket k) (hk_key <$> chain_of k t)) as Hf.
  { apply Forall_fmap, Forall_forall. exact Hb. }
  rewrite <-(chain_set_keys k e') in Hf by done.
  rewrite Forall_fmap, Forall_forall in Hf. exact Hf.
Qed.

Lemma chain_find_map k f l :
  (∀ e, hk_key (f e) = hk_key e) → chain_find k (map f l) = f <$> chain_find k l.
Proof. intros Hf. induction l as [|e l IH]; simpl; [done|]. rewrite Hf. by case_if. Qed.

Lemma tab_find_map k f t :
  (∀ e, hk_key (f e) = hk_key e) → tab_find k (tab_map f t) = f <$> tab_find k t.
Proof.
  intros Hf. unfold tab_find, tab_map, chain_of. rewrite list_lookup_fmap.
  destruct (t !! bucket k); simpl; [by apply chain_find_map|done].
Qed.

Lemma tab_wf_map f t : (∀ e, hk_key (f e) = hk_key e) → tab_wf t → tab_wf (tab_map f t).
Proof.
  intros Hf [Hsz Hch]. split; [by rewrite <-Hsz; apply length_map|].
  intros i l (l0 & -> & Hl0)%list_lookup_fmap_Some. destruct (Hch _ _ Hl0) as [Hnd Hb]. split.
  - assert (hk_key <$> map f l0 = hk_key <$> l0) as ->; [|done].
    change (map f l0) with (f <$> l0). rewrite <-list_fmap_compose.
    apply list_fmap_ext. intros ? e _. apply Hf.
  - change (map f l0) with (f <$> l0). apply Forall_fmap. eapply Forall_impl; [done|].
    intros e He. simpl. by rewrite Hf.
Qed.

(** ** The table as a list of records *)

Lemma tab_all_find k t : tab_wf t → chain_find k (tab_all t) = tab_find k t.
Proof.
  intros Hwf. destruct (tab_find k t) as [e|] eqn:Hf.
  - destruct (chain_find k (tab_all t)) as [e'|] eqn:Hf'.
    + apply chain_find_Some in Hf' as Hin. apply tab_find_all in Hin; [|done]. congruence.
    + apply tab_find_all in Hf as [Hin Hk]; [|done]. apply chain_find_None in Hf' as [].
      apply list_elem_of_fmap. by exists e.
  - destruct (chain_find k (tab_all t)) as [e'|] eqn:Hf'; [|done].
    apply chain_find_Some in Hf' as Hin. apply tab_find_all in Hin; [|done]. congruence.
Qed.

Lemma NoDup_concat_keys (t : list (list E)) n :
  (∀ i l, t !! i = Some l → NoDup (hk_key <$> l) ∧ Forall (λ e, bucket (hk_key e) = n + i)%nat l) →
  NoDup (hk_key <$> concat t).
Proof.
  revert n. induction t as [|l t IH]; intros n Ht; simpl; [constructor|].
  destruct (Ht 0%nat l eq_refl) as [Hnd Hb]. rewrite fmap_app. apply NoDup_app. split; [done|]. split.
  - intros k (e & -> & Hin)%list_elem_of_fmap (e' & Hk & Hin')%list_elem_of_fmap.
    apply list_elem_of_In, in_concat in Hin' as (l' & Hl'%list_elem_of_In & Hin'%list_elem_of_In).
    apply list_elem_of_lookup in Hl' as [i Hi]. destruct (Ht (S i) l' Hi) as [_ Hb'].
    rewrite Forall_forall in Hb, Hb'. apply Hb in Hin. apply Hb' in Hin'. rewrite <-Hk in Hin'. lia.
  - apply (IH (S n)). intros i l' Hi. destruct (Ht (S i) l' Hi) as [? Hb']. split; [done|].
    eapply Forall_impl; [exact Hb'|]. simpl. intros; lia.
Qed.

Lemma tab_all_nodup t : tab_wf t → NoDup (hk_key <$> tab_all t).
Proof. intros [_ Hch]. apply (NoDup_concat_keys t 0). exact Hch. Qed.

End table.

#[export] Hint Resolve tab_empty_wf tab_wf_add tab_wf_remove tab_wf_set tab_wf_map : mfs.
Arguments tab_find : simpl never.
Arguments tab_add : simpl never.
Arguments tab_set : simpl never.
Arguments tab_remove : simpl never.
