(* ===== verification/MfsComm.v ===== *)
(** * Constants of the protocol header

    The values [mfscommon/MFSCommunication.h] gives to the status codes, the lock
    commands and types and the access bits the modelled files use. *)

From S2P Require Import Prelude.

(** Status codes. *)
Definition MFS_STATUS_OK : Z := 0.
Definition MFS_ERROR_EINVAL : Z := 6.
Definition MFS_ERROR_NOTOPENED : Z := 17.
Definition MFS_ERROR_MISMATCH : Z := 32.
Definition MFS_ERROR_WAITING : Z := 44.
Definition MFS_ERROR_EAGAIN : Z := 45.
Definition MFS_ERROR_EINTR : Z := 46.
Definition MFS_ERROR_ECANCELED : Z := 47.

(** [flock] commands. *)
Definition FLOCK_UNLOCK : Z := 0.
Definition FLOCK_TRY_SHARED : Z := 1.
Definition FLOCK_LOCK_SHARED : Z := 2.
Definition FLOCK_TRY_EXCLUSIVE : Z := 3.
Definition FLOCK_LOCK_EXCLUSIVE : Z := 4.
Definition FLOCK_INTERRUPT : Z := 5.
Definition FLOCK_RELEASE : Z := 6.

(** POSIX lock commands and types. *)
Definition POSIX_LOCK_CMD_GET : Z := 0.
Definition POSIX_LOCK_CMD_SET : Z := 1.
Definition POSIX_LOCK_CMD_TRY : Z := 2.
Definition POSIX_LOCK_CMD_INT : Z := 3.
Definition POSIX_LOCK_UNLCK : Z := 0.
Definition POSIX_LOCK_RDLCK : Z := 1.
Definition POSIX_LOCK_WRLCK : Z := 2.

(** Lock types in the listing sent to the administrator's tools. *)
Definition MFS_LOCK_TYPE_UNKNOWN : Z := 0.
Definition MFS_LOCK_TYPE_SHARED : Z := 1.
Definition MFS_LOCK_TYPE_EXCLUSIVE : Z := 2.

(** Types of the packets that answer lock requests. *)
Definition PROTO_BASE : Z := 0.
Definition MATOCL_FUSE_FLOCK : Z := PROTO_BASE + 493.
Definition MATOCL_FUSE_POSIX_LOCK : Z := PROTO_BASE + 495.
Definition MATOCL_LIST_OPEN_FILES : Z := PROTO_BASE + 533.
Definition MATOCL_LIST_ACQUIRED_LOCKS : Z := PROTO_BASE + 535.

(** Status codes of the file system operations. *)
Definition MFS_ERROR_EPERM : Z := 1.
Definition MFS_ERROR_ENOTDIR : Z := 2.
Definition MFS_ERROR_ENOENT : Z := 3.
Definition MFS_ERROR_EACCES : Z := 4.
Definition MFS_ERROR_EROFS : Z := 33.
Definition MFS_ERROR_ENOATTR : Z := 38.

Definition MFS_ROOT_ID : Z := 1.

(** Types of nodes. *)
Definition TYPE_FILE : Z := 1.
Definition TYPE_DIRECTORY : Z := 2.
Definition TYPE_SYMLINK : Z := 3.
Definition TYPE_TRASH : Z := 8.
Definition TYPE_SUSTAINED : Z := 9.

(** Attribute bits of nodes, flags of sessions, requested access. *)
Definition WINATTR_READ_ONLY : Z := 1.
Definition EATTR_NOOWNER : Z := 0x01.
Definition EATTR_IMMUTABLE : Z := 0x80.
Definition SESFLAG_READONLY : Z := 0x01.
Definition SESFLAG_IGNOREGID : Z := 0x04.
Definition SESFLAG_MAPALL : Z := 0x10.
Definition SESFLAG_METARESTORE : Z := 0x80.
Definition MODE_MASK_R : Z := 4.
Definition MODE_MASK_W : Z := 2.
Definition MODE_MASK_X : Z := 1.
Definition MODE_TO_ACCMODE : list Z := [0x01; 0x03; 0x05; 0x0F; 0x11; 0x33; 0x55; 0xFF].

(** Kinds of access control lists. *)
Definition POSIX_ACL_ACCESS : Z := 1.
Definition POSIX_ACL_DEFAULT : Z := 2.

(** The fields a request sets, and the ways of clearing the set-id bits. *)
Definition SET_WINATTR_FLAG : Z := 0x01.
Definition SET_MODE_FLAG : Z := 0x02.
Definition SET_UID_FLAG : Z := 0x04.
Definition SET_GID_FLAG : Z := 0x08.
Definition SET_MTIME_NOW_FLAG : Z := 0x10.
Definition SET_MTIME_FLAG : Z := 0x20.
Definition SET_ATIME_FLAG : Z := 0x40.
Definition SET_ATIME_NOW_FLAG : Z := 0x80.
Definition SUGID_CLEAR_MODE_NEVER : Z := 0.
Definition SUGID_CLEAR_MODE_ALWAYS : Z := 1.
Definition SUGID_CLEAR_MODE_OSX : Z := 2.
Definition SUGID_CLEAR_MODE_BSD : Z := 3.
Definition SUGID_CLEAR_MODE_EXT : Z := 4.
Definition SUGID_CLEAR_MODE_XFS : Z := 5.

(** Nodes, edges and chunks. *)
Definition MFS_ERROR_EEXIST : Z := 5.
Definition MFS_ERROR_ENOTEMPTY : Z := 7.
Definition MFS_ERROR_CANTCREATEPATH : Z := 31.
Definition MFS_ERROR_QUOTA : Z := 34.
Definition MFS_ERROR_EMLINK : Z := 59.
Definition TYPE_FIFO : Z := 4.
Definition TYPE_BLOCKDEV : Z := 5.
Definition TYPE_CHARDEV : Z := 6.
Definition TYPE_SOCKET : Z := 7.
Definition EATTR_NOECACHE : Z := 0x04.
Definition EATTR_SNAPSHOT : Z := 0x10.
Definition EATTR_UNDELETABLE : Z := 0x20.
Definition EATTR_APPENDONLY : Z := 0x40.
Definition MFSCHUNKSIZE : Z := 0x04000000.
Definition MFSCHUNKMASK : Z := 0x03FFFFFF.
Definition MFSCHUNKBITS : Z := 26.
Definition MFSBLOCKSIZE : Z := 0x10000.
Definition MFSBLOCKNEGMASK : Z := 0x7FFF0000.
Definition MFSHDRSIZE : Z := 0x2000.
Definition MFS_SYMLINK_MAX : Z := 4096.
Definition MFS_PATH_MAX : Z := 1024.
Definition EDGEID_MAX : Z := 0x7FFFFFFFFFFFFFFF.
Definition TRASH_BUCKETS : Z := 4096.
Definition SUSTAINED_BUCKETS : Z := 256.
Definition MFS_RENAME_STD : Z := 0.
Definition MFS_RENAME_EXCHANGE : Z := 1.
Definition MFS_RENAME_NOREPLACE : Z := 2.
Definition SCLASS_ARCH_MODE_CTIME : Z := 0x01.
Definition SCLASS_ARCH_MODE_MTIME : Z := 0x02.
Definition SCLASS_ARCH_MODE_ATIME : Z := 0x04.
Definition SCLASS_ARCH_MODE_REVERSIBLE : Z := 0x08.
Definition PATTERN_EUGID_ANY : Z := 0xFFFFFFFF.
Definition PATTERN_OMASK_SCLASS : Z := 0x01.
Definition PATTERN_OMASK_TRASHRETENTION : Z := 0x02.
Definition PATTERN_OMASK_EATTR : Z := 0x04.
Definition QUOTA_FLAG_SINODES : Z := 0x01.
Definition QUOTA_FLAG_SLENGTH : Z := 0x02.
Definition QUOTA_FLAG_SSIZE : Z := 0x04.
Definition QUOTA_FLAG_SREALSIZE : Z := 0x08.
Definition QUOTA_FLAG_HINODES : Z := 0x10.
Definition QUOTA_FLAG_HLENGTH : Z := 0x20.
Definition QUOTA_FLAG_HSIZE : Z := 0x40.
Definition QUOTA_FLAG_HREALSIZE : Z := 0x80.

(** Types of nodes as letters, and the flags of a change of the length. *)
Definition DISP_TYPE_FILE : Z := 102.
Definition DISP_TYPE_DIRECTORY : Z := 100.
Definition DISP_TYPE_SYMLINK : Z := 108.
Definition DISP_TYPE_FIFO : Z := 113.
Definition DISP_TYPE_BLOCKDEV : Z := 98.
Definition DISP_TYPE_CHARDEV : Z := 99.
Definition DISP_TYPE_SOCKET : Z := 115.
Definition DISP_TYPE_TRASH : Z := 116.
Definition DISP_TYPE_SUSTAINED : Z := 114.
Definition TRUNCATE_FLAG_OPENED : Z := 0x01.
Definition TRUNCATE_FLAG_UPDATE : Z := 0x02.
Definition TRUNCATE_FLAG_TIMEFIX : Z := 0x04.
Definition TRUNCATE_FLAG_RESERVE : Z := 0x08.

(** Storage classes and patterns. *)
Definition MFS_ERROR_NOSUCHCLASS : Z := 52.
Definition MFS_ERROR_PATTERNEXISTS : Z := 55.
Definition MFS_ERROR_PATLIMITREACHED : Z := 56.
Definition MFS_ERROR_NOSUCHPATTERN : Z := 57.

(** Label expressions: operations of one byte. *)
Definition SCLASS_EXPR_MAX_SIZE : Z := 128.
Definition MAXLABELSCNT : Z := 9.
Definition SCLASS_EXPR_TYPE_MASK : Z := 0xC0.
Definition SCLASS_EXPR_VALUE_MASK : Z := 0x3F.
Definition SCLASS_EXPR_SYMBOL : Z := 0xC0.
Definition SCLASS_EXPR_SYMBOL_ANY : Z := 0xFF.
Definition SCLASS_EXPR_OP_AND : Z := 0x80.
Definition SCLASS_EXPR_OP_OR : Z := 0x40.
Definition SCLASS_EXPR_OP_ONE : Z := 0x00.
Definition SCLASS_EXPR_OP_NOT : Z := 0x01.
Definition UNIQ_MASK_IP : Z := Z.shiftl 1 26.
Definition UNIQ_MASK_RACK : Z := Z.shiftl 1 27.
Definition LABELS_MODE_LOOSE : Z := 0.
Definition LABELS_MODE_STD : Z := 1.
Definition LABELS_MODE_STRICT : Z := 2.
Definition LABELS_MODE_GLOBAL : Z := 0xFF.

(** Extended attributes. *)
Definition MFS_ERROR_ERANGE : Z := 40.
Definition MFS_XATTR_CREATE_OR_REPLACE : Z := 0.
Definition MFS_XATTR_CREATE_ONLY : Z := 1.
Definition MFS_XATTR_REPLACE_ONLY : Z := 2.
Definition MFS_XATTR_REMOVE : Z := 3.
Definition MFS_XATTR_NAME_MAX : Z := 255.
Definition MFS_XATTR_SIZE_MAX : Z := 65536.
Definition MFS_XATTR_LIST_MAX : Z := 65536.
Definition MAXSCLASS : Z := 256.
Definition MFS_ERROR_CHUNKLOST : Z := 8.
Definition MFS_ERROR_LOCKED : Z := 11.
Definition MFS_ERROR_NOCHUNK : Z := 13.
Definition MFS_ERROR_CHUNKBUSY : Z := 14.
Definition MFS_ERROR_NOTDONE : Z := 16.
Definition MFS_ERROR_WRONGVERSION : Z := 19.
Definition MFS_ERROR_CHUNKEXIST : Z := 20.
Definition MFS_ERROR_ACTIVE : Z := 42.
