(* ===== verification/FreeInodes.v ===== *)
(** * Inode numbers (filesystem.c)

    The bit mask of the inode numbers in use, and the list of the numbers freed a
    short time ago, which are kept from use until [InodeReuseDelay] has passed and no
    client has the file open.  [freebitmask] is an array of 32-bit words;
    [bitmasksize] is its length. *)

From S2P Require Import Prelude MfsComm.

Record idpool := mk_idpool {
  freebitmask : list Z; searchpos : nat; freelist : list (Z * Z); freelastts : Z; maxnodeid : Z }.

(** What the functions write to the changelog. *)
Inductive id_entry := FREEINODES (ts inodereusedelay freeinodes sustainedinodes inode_chksum : Z).

(** ** Allocation *)

(** The loop that skips the full words. *)
Fixpoint skip_full (words : list Z) (pos : nat) : nat :=
  match words with
  | [] => pos
  | w :: words => if w =? 0xFFFFFFFF then skip_full words (S pos) else pos
  end.

(** The loop [while (mask&1)]; a word that is not full has 32 bits to try at most. *)
Fixpoint first_zero (fuel : nat) (mask i : Z) : Z :=
  match fuel with
  | O => i
  | S fuel => if Z.land mask 1 =? 0 then i else first_zero fuel (Z.shiftr mask 1) (i + 1)
  end.

Definition fsnodes_get_next_id (p : idpool) : option (Z * idpool) :=
  let pos := skip_full (drop (searchpos p) (freebitmask p)) (searchpos p) in
  let words := if (pos =? length (freebitmask p))%nat then freebitmask p ++ replicate 0x80 0 else freebitmask p in
  w ← words !! pos;
  let i := first_zero 32 w 0 in
  let words := <[pos := Z.lor w (u32 (Z.shiftl 1 i))]> words in
  let i := u32 (i + u32 (Z.shiftl (Z.of_nat pos) 5)) in
  Some (i, mk_idpool words pos (freelist p) (freelastts p) (if maxnodeid p <? i then i else maxnodeid p)).

(** ** Freed numbers *)

Definition fsnodes_free_fixts (ts : Z) (p : idpool) : idpool :=
  mk_idpool (freebitmask p) (searchpos p) ((λ n, (n.1, if ts <? n.2 then ts else n.2)) <$> freelist p) ts (maxnodeid p).

Definition fsnodes_free_id (inode ts : Z) (p : idpool) : idpool :=
  let p := if ts <? freelastts p then fsnodes_free_fixts ts p else p in
  mk_idpool (freebitmask p) (searchpos p) (freelist p ++ [(inode, ts)]) ts (maxnodeid p).

Section freeinodes.
Variable of_isfileopen : Z → bool.

(** The variables of the loop: the numbers found to be still open, the counters, the
    sum of control, and the mask. *)
Record free_state := mk_free_state {
  sn : list (Z * Z); fi : Z; si : Z; ics : Z; fbm : list Z; fpos : nat }.

(** One turn of the loop; [test] tells that the open files are looked at. *)
Definition free_turn (ts : Z) (test : bool) (inode : Z) (st : free_state) : option free_state :=
  let ics := Z.lxor (ics st) inode in
  if test && of_isfileopen inode then
    Some (mk_free_state (sn st ++ [(inode, ts)]) (fi st) (u32 (si st + 1)) ics (fbm st) (fpos st))
  else
    let pos := Z.to_nat (Z.shiftr inode 5) in
    let mask := u32 (Z.shiftl 1 (Z.land inode 0x1F)) in
    w ← fbm st !! pos;
    Some (mk_free_state (sn st) (u32 (fi st + 1)) (si st) ics (<[pos := Z.ldiff w mask]> (fbm st))
            (if (pos <? fpos st)%nat then pos else fpos st)).

(** The loop: the rest of the list and the variables. *)
Fixpoint free_loop (ts delay : Z) (test : bool) (n : list (Z * Z)) (st : free_state)
    : option (list (Z * Z) * free_state) :=
  match n with
  | [] => Some ([], st)
  | (inode, ftime) :: rest =>
      if u32 (ftime + delay) <? ts then
        st ← free_turn ts test inode st; free_loop ts delay test rest st
      else Some (n, st)
  end.

Definition fs_univ_freeinodes (ts sesflags delay freeinodes sustainedinodes inode_chksum : Z) (p : idpool)
    : option (Z * idpool * option id_entry) :=
  let live := Z.land sesflags SESFLAG_METARESTORE =? 0 in
  (* the time stamps are mended in place, so the loop sees the mended ones *)
  let p := if ts <? freelastts p then fsnodes_free_fixts ts p else p in
  '(rest, st) ← free_loop ts delay (live || (0 <? sustainedinodes)) (freelist p)
                  (mk_free_state [] 0 0 0 (freebitmask p) (searchpos p));
  let lastts := match rest with [] => 0 | _ => freelastts p end in
  let lastts := match sn st with [] => lastts | _ => ts end in
  let p := mk_idpool (fbm st) (fpos st) (rest ++ sn st) lastts (maxnodeid p) in
  if live then
    Some (MFS_STATUS_OK, p,
          if (0 <? fi st) || (0 <? si st) then Some (FREEINODES ts delay (fi st) (si st) (ics st)) else None)
  else if negb (freeinodes =? fi st) || negb (sustainedinodes =? si st)
          || (negb (inode_chksum =? 0) && negb (inode_chksum =? ics st))
       then Some (MFS_ERROR_MISMATCH, p, None)
       else Some (MFS_STATUS_OK, p, None).

Definition fsnodes_freeinodes (now inodereusedelay : Z) (p : idpool) : option (Z * idpool * option id_entry) :=
  fs_univ_freeinodes now 0 inodereusedelay 0 0 0 p.

Definition fs_mr_freeinodes (e : id_entry) (p : idpool) : option (Z * idpool * option id_entry) :=
  let '(FREEINODES ts delay fi si ics) := e in fs_univ_freeinodes ts SESFLAG_METARESTORE delay fi si ics p.

End freeinodes.

(** ** Building the mask *)

Definition fsnodes_init_freebitmask (maxid : Z) : idpool :=
  let size := 0x100 + Z.land (Z.shiftr maxid 5) 0xFFFFFF80 in
  mk_idpool (1 :: replicate (Z.to_nat size - 1) 0) 0 [] 0 maxid.

(** The word is read before the size is checked; reading past the array is a fault. *)
Definition fsnodes_used_inode (inode : Z) (p : idpool) : option idpool :=
  let pos := Z.to_nat (Z.shiftr inode 5) in
  let mask := u32 (Z.shiftl 1 (Z.land inode 0x1F)) in
  w ← freebitmask p !! pos;
  Some (mk_idpool (<[pos := Z.lor w mask]> (freebitmask p)) (searchpos p) (freelist p) (freelastts p) (maxnodeid p)).

(** ** What the mask says *)

(** The bit of a number in an array of words. *)
Definition bit_used (words : list Z) (i : Z) : Prop :=
  ∃ w, words !! Z.to_nat (i / 32) = Some w ∧ Z.testbit w (i `mod` 32) = true.

Definition used (p : idpool) (i : Z) : Prop := bit_used (freebitmask p) i.

(** The words have 32 bits, and the words before [searchpos] are full. *)
Record pool_ok (p : idpool) : Prop := {
  pool_words : Forall is_u32 (freebitmask p);
  pool_pos : (searchpos p ≤ length (freebitmask p))%nat;
  pool_full k : (k < searchpos p)%nat → freebitmask p !! k = Some 0xFFFFFFFF;
  pool_zero : used p 0 }.

(** Some number is free. *)
Definition room (p : idpool) : Prop := ∃ i, 0 ≤ i < 2 ^ 32 ∧ ¬ used p i.

(** ** Bits of the words *)

Lemma u32_bit b : 0 ≤ b < 32 → u32 (Z.shiftl 1 b) = 2 ^ b.
Proof.
  intros Hb. unfold u32. rewrite Z.shiftl_mul_pow2 by lia. rewrite Z.mul_1_l. apply Z.mod_small.
  split; [lia|]. apply Z.pow_lt_mono_r; lia.
Qed.

Lemma is_u32_lor a b : is_u32 a → is_u32 b → is_u32 (Z.lor a b).
Proof.
  rewrite !is_u32_bits. intros [Ha Ha'] [Hb Hb']. split; [apply Z.lor_nonneg; lia|].
  intros i Hi. by rewrite Z.lor_spec, Ha', Hb'.
Qed.

Lemma is_u32_ldiff a b : is_u32 a → is_u32 (Z.ldiff a b).
Proof.
  rewrite !is_u32_bits. intros [Ha Ha']. split; [apply Z.ldiff_nonneg; by left|].
  intros i Hi. by rewrite Z.ldiff_spec, Ha'.
Qed.

Lemma is_u32_pow2 b : 0 ≤ b < 32 → is_u32 (2 ^ b).
Proof. intros Hb. split; [lia|]. apply Z.pow_lt_mono_r; lia. Qed.

(** A word that is not full has a bit that is not set. *)
Lemma word_full w : is_u32 w → (∀ b, 0 ≤ b < 32 → Z.testbit w b = true) → w = 0xFFFFFFFF.
Proof.
  intros Hw%is_u32_bits Hb. destruct Hw as [H0 Hhi]. apply Z.bits_inj'. intros n Hn.
  change 0xFFFFFFFF with (Z.ones 32). rewrite Z.testbit_ones_nonneg by lia.
  destruct (Z.ltb_spec n 32); [by apply Hb|by apply Hhi].
Qed.

Lemma full_bits b : 0 ≤ b < 32 → Z.testbit 0xFFFFFFFF b = true.
Proof. intros Hb. change 0xFFFFFFFF with (Z.ones 32). rewrite Z.testbit_ones_nonneg by lia. apply Z.ltb_lt. lia. Qed.

Lemma land1_testbit z i : 0 ≤ i → (Z.land (Z.shiftr z i) 1 =? 0) = negb (Z.testbit z i).
Proof.
  intros Hi. change 1 with (Z.ones 1). rewrite Z.land_ones by lia. change (2 ^ 1) with 2.
  rewrite <- Z.bit0_mod, Z.shiftr_spec by lia. rewrite Z.add_0_l. by destruct (Z.testbit z i).
Qed.

(** The loop finds the first bit that is not set. *)
Lemma first_zero_spec w fuel i :
  0 ≤ i → (∀ b, 0 ≤ b < i → Z.testbit w b = true) → (∃ b, i ≤ b < i + Z.of_nat fuel ∧ Z.testbit w b = false) →
  let r := first_zero fuel (Z.shiftr w i) i in
  i ≤ r < i + Z.of_nat fuel ∧ Z.testbit w r = false ∧ ∀ b, 0 ≤ b < r → Z.testbit w b = true.
Proof.
  revert i. induction fuel as [|fuel IH]; intros i Hi Hlow (b & Hb & Hbit); [lia|].
  cbn [first_zero]. rewrite land1_testbit by done. destruct (Z.testbit w i) eqn:Hwi; cbn [negb].
  - rewrite Z.shiftr_shiftr by lia. destruct (IH (i + 1)) as (Hr & Hz & Hl); [lia| | |].
    + intros b' Hb'. destruct (Z.eq_dec b' i) as [->|]; [done|]. apply Hlow. lia.
    + exists b. split; [|done]. assert (b ≠ i) by congruence. lia.
    + split; [lia|done].
  - split; [lia|done].
Qed.

Lemma skip_full_spec words k :
  let pos := skip_full words k in
  (k ≤ pos ≤ k + length words)%nat ∧ (∀ j, (k ≤ j < pos)%nat → words !! (j - k)%nat = Some 0xFFFFFFFF) ∧
  (pos = (k + length words)%nat ∨ ∃ w, words !! (pos - k)%nat = Some w ∧ w ≠ 0xFFFFFFFF).
Proof.
  revert k. induction words as [|w words IH]; intros k; cbn [skip_full length].
  { split; [lia|]. split; [lia|]. left. lia. }
  destruct (Z.eqb_spec w 0xFFFFFFFF) as [->|Hw].
  - destruct (IH (S k)) as (Hr & Hf & Hend). split; [lia|]. split.
    + intros j Hj. destruct (decide (j = k)) as [->|]; [by rewrite Nat.sub_diag|].
      replace (j - k)%nat with (S (j - S k)) by lia. apply Hf. lia.
    + destruct Hend as [Heq|(w' & Hw' & Hne)]; [left; lia|]. right. exists w'. split; [|done].
      by replace (skip_full words (S k) - k)%nat with (S (skip_full words (S k) - S k)) by lia.
  - split; [lia|]. split; [lia|]. right. exists w. by rewrite Nat.sub_diag.
Qed.

(** ** Changes of one bit *)

(** The word and the bit of a number. *)
Lemma number_split (pos : nat) b i :
  0 ≤ b < 32 → 0 ≤ i → i = 32 * Z.of_nat pos + b ↔ Z.to_nat (i / 32) = pos ∧ i `mod` 32 = b.
Proof.
  intros Hb Hi. pose proof (Z.div_mod i 32). pose proof (Z.mod_pos_bound i 32). pose proof (Z.div_pos i 32). split.
  - intros ->. rewrite <- (Z.div_unique _ 32 (Z.of_nat pos) b), <- (Z.mod_unique _ 32 (Z.of_nat pos) b) by lia. lia.
  - intros [<- <-]. lia.
Qed.

Lemma number_mod i : 0 ≤ i → 0 ≤ i `mod` 32 < 32.
Proof. intros _. apply Z.mod_pos_bound. lia. Qed.

Lemma bit_used_set words (pos : nat) w b i :
  words !! pos = Some w → 0 ≤ b < 32 → 0 ≤ i →
  bit_used (<[pos := Z.lor w (2 ^ b)]> words) i ↔ i = 32 * Z.of_nat pos + b ∨ bit_used words i.
Proof.
  intros Hw Hb Hi. rewrite (number_split pos b i Hb Hi). unfold bit_used. pose proof (number_mod i Hi).
  destruct (decide (Z.to_nat (i / 32) = pos)) as [->|Hne].
  - rewrite list_lookup_insert_eq by (by eapply lookup_lt_Some). setoid_rewrite Hw. split.
    + intros (w' & [= <-] & Hbit). rewrite Z.lor_spec, Z.pow2_bits_eqb in Hbit by lia.
      apply orb_true_iff in Hbit as [Hbit|Hbit]; [by right; exists w|left; zbool; done].
    + intros [[_ Heq]|(w' & [= <-] & Hbit)]; (eexists; split; [done|]); rewrite Z.lor_spec, Z.pow2_bits_eqb by lia.
      * rewrite Heq, Z.eqb_refl. apply orb_true_r.
      * by rewrite Hbit.
  - rewrite list_lookup_insert_ne by done. naive_solver.
Qed.

Lemma bit_used_clear words (pos : nat) w b i :
  words !! pos = Some w → 0 ≤ b < 32 → 0 ≤ i →
  bit_used (<[pos := Z.ldiff w (2 ^ b)]> words) i ↔ i ≠ 32 * Z.of_nat pos + b ∧ bit_used words i.
Proof.
  intros Hw Hb Hi. rewrite (number_split pos b i Hb Hi). unfold bit_used. pose proof (number_mod i Hi).
  destruct (decide (Z.to_nat (i / 32) = pos)) as [->|Hne].
  - rewrite list_lookup_insert_eq by (by eapply lookup_lt_Some). setoid_rewrite Hw. split.
    + intros (w' & [= <-] & Hbit). rewrite Z.ldiff_spec, Z.pow2_bits_eqb in Hbit by lia.
      apply andb_true_iff in Hbit as [Hbit Hn]. zbool. split; [intros [_ ?]; congruence|by exists w].
    + intros (Hn & w' & [= <-] & Hbit). eexists. split; [done|]. rewrite Z.ldiff_spec, Z.pow2_bits_eqb, Hbit by lia.
      apply negb_true_iff, Z.eqb_neq. naive_solver.
  - rewrite list_lookup_insert_ne by done. naive_solver.
Qed.

Lemma bit_used_zeros words n i : bit_used (words ++ replicate n 0) i ↔ bit_used words i.
Proof.
  unfold bit_used. split; intros (w & Hw & Hb).
  - apply lookup_app_Some in Hw as [Hw|[_ Hw]]; [by exists w|].
    apply lookup_replicate in Hw as [-> _]. by rewrite Z.bits_0 in Hb.
  - exists w. split; [|done]. by apply lookup_app_l_Some.
Qed.

(** A word that is not full has a free number. *)
Lemma full_used words (k : nat) b : words !! k = Some 0xFFFFFFFF → 0 ≤ b < 32 → bit_used words (32 * Z.of_nat k + b).
Proof.
  intros Hk Hb. destruct (proj1 (number_split k b (32 * Z.of_nat k + b) Hb ltac:(lia)) eq_refl) as [Heq Hmod].
  exists 0xFFFFFFFF. by rewrite Heq, Hmod, full_bits.
Qed.

(** ** Allocation *)

(** The number given is the lowest free one; it is used from now on. *)
Lemma get_next_id_spec p :
  pool_ok p → room p →
  ∃ i p', fsnodes_get_next_id p = Some (i, p') ∧ pool_ok p' ∧ 0 < i < 2 ^ 32 ∧ ¬ used p i ∧
    (∀ j, 0 ≤ j < i → used p j) ∧ (∀ j, 0 ≤ j → used p' j ↔ j = i ∨ used p j) ∧
    freelist p' = freelist p ∧ freelastts p' = freelastts p.
Proof.
  intros [Hw Hpos Hfull H0] (i0 & Hi0 & Hfree0). unfold fsnodes_get_next_id.
  destruct (skip_full_spec (drop (searchpos p) (freebitmask p)) (searchpos p)) as (Hr & Hf & Hend).
  set (pos := skip_full _ _) in *. rewrite length_drop in Hr, Hend.
  assert (∀ k, (k < pos)%nat → freebitmask p !! k = Some 0xFFFFFFFF) as Hbefore.
  { intros k Hk. destruct (decide (k < searchpos p)%nat); [by apply Hfull|]. rewrite <- (Hf k) by lia.
    rewrite lookup_drop. f_equal. lia. }
  set (words := if (pos =? length (freebitmask p))%nat then _ else _).
  assert (Forall is_u32 words) as Hwords.
  { unfold words. case_if; [|done]. apply Forall_app. split; [done|]. apply Forall_replicate. unfold is_u32. lia. }
  assert (∀ j, bit_used words j ↔ used p j) as Hsame.
  { intros j. unfold words. case_if; [apply bit_used_zeros|done]. }
  assert (∀ k, (k < pos)%nat → words !! k = Some 0xFFFFFFFF) as Hbefore'.
  { intros k Hk. unfold words. case_if; [apply lookup_app_l_Some|]; by apply Hbefore. }
  assert (∃ w, words !! pos = Some w ∧ w ≠ 0xFFFFFFFF) as (w & Hwpos & Hnf).
  { unfold words. destruct (pos =? length (freebitmask p))%nat eqn:E.
    - apply Nat.eqb_eq in E. exists 0. split; [|done]. rewrite lookup_app_r by lia. rewrite E, Nat.sub_diag. done.
    - apply Nat.eqb_neq in E. destruct Hend as [Hend|(w & Hlw & Hne)]; [lia|]. exists w. split; [|done].
      rewrite lookup_drop in Hlw. rewrite <- Hlw. f_equal. lia. }
  rewrite Hwpos. cbn [mbind option_bind].
  assert (is_u32 w) as Hwu by (by apply (Forall_lookup_1 _ _ _ _ Hwords Hwpos)).
  destruct (first_zero_spec w 32 0) as (Hrange & Hzero & Hlow); [done|lia| |].
  { destruct (decide (Exists (λ b, Z.testbit w b = false) (Z.of_nat <$> seq 0 32))) as [(b & Hin & Hb)%Exists_exists|Hno].
    - exists b. split; [|done]. apply list_elem_of_fmap in Hin as (k & -> & Hk%elem_of_seq). lia.
    - exfalso. apply Hnf, word_full; [done|]. intros b Hb. destruct (Z.testbit w b) eqn:Hbit; [done|]. exfalso. apply Hno.
      apply Exists_exists. exists b. split; [|done]. apply list_elem_of_fmap. exists (Z.to_nat b). rewrite elem_of_seq. lia. }
  rewrite Z.shiftr_0_r in *. set (b := first_zero 32 w 0) in *. simpl in Hrange.
  (* the number is below 2 ^ 32, since the free number is not in a full word *)
  assert (pos ≤ Z.to_nat (i0 / 32))%nat as Hle.
  { destruct (decide (pos ≤ Z.to_nat (i0 / 32))%nat) as [|Hlt]; [done|]. exfalso. apply Hfree0, Hsame.
    pose proof (full_used words (Z.to_nat (i0 / 32)) (i0 `mod` 32) (Hbefore' (Z.to_nat (i0 / 32)) ltac:(lia)) (number_mod i0 ltac:(lia))) as Hu.
    rewrite Z2Nat.id in Hu by (apply Z.div_pos; lia). by rewrite <- Z.div_mod in Hu by lia. }
  assert (Z.of_nat pos < 2 ^ 27) as Hpos27.
  { assert (i0 / 32 < 2 ^ 27) by (apply Z.div_lt_upper_bound; [done|]; change (32 * 2 ^ 27) with (2 ^ 32); lia).
    pose proof (Z.div_pos i0 32). lia. }
  rewrite u32_bit by lia. rewrite Z.shiftl_mul_pow2 by lia. change (2 ^ 5) with 32.
  assert (u32 (b + u32 (Z.of_nat pos * 32)) = 32 * Z.of_nat pos + b) as ->.
  { unfold u32. change (2 ^ 32) with (32 * 2 ^ 27). rewrite (Z.mod_small (Z.of_nat pos * 32)), Z.mod_small by lia. lia. }
  assert (Hnew : ¬ used p (32 * Z.of_nat pos + b)).
  { rewrite <- Hsame. intros (w' & Hw' & Hb').
    destruct (proj1 (number_split pos b (32 * Z.of_nat pos + b) ltac:(lia) ltac:(lia)) eq_refl) as [Hq Hm]. rewrite Hq, Hwpos in Hw'.
    injection Hw' as <-. rewrite Hm in Hb'. congruence. }
  assert (Hset : ∀ j, 0 ≤ j → bit_used (<[pos := Z.lor w (2 ^ b)]> words) j ↔ j = 32 * Z.of_nat pos + b ∨ used p j).
  { intros j Hj. rewrite (bit_used_set words pos w b j Hwpos) by lia. by rewrite Hsame. }
  eexists _, _. split; [done|]. split; [split; simpl|split_and!; try done].
  - apply Forall_insert; [done|]. apply is_u32_lor; [done|]. by apply is_u32_pow2.
  - rewrite length_insert. apply lookup_lt_Some in Hwpos. lia.
  - intros k Hk. rewrite list_lookup_insert_ne by lia. by apply Hbefore'.
  - apply Hset; [lia|by right].
  - assert (32 * Z.of_nat pos + b ≠ 0) by (intros Heq; rewrite Heq in Hnew; done). lia.
  - change (2 ^ 32) with (32 * 2 ^ 27). lia.
  - intros j Hj. rewrite <- Hsame. pose proof (number_mod j ltac:(lia)).
    assert (j / 32 < Z.of_nat pos + 1) by (apply Z.div_lt_upper_bound; lia).
    pose proof (Z.div_pos j 32 ltac:(lia) ltac:(lia)).
    destruct (Z.eq_dec (j / 32) (Z.of_nat pos)) as [Heq|Hne].
    + exists w. rewrite Heq, Nat2Z.id. split; [done|]. apply Hlow. pose proof (Z.div_mod j 32). lia.
    + pose proof (full_used words (Z.to_nat (j / 32)) (j `mod` 32) (Hbefore' (Z.to_nat (j / 32)) ltac:(lia)) ltac:(lia)) as Hu.
      rewrite Z2Nat.id in Hu by lia. by rewrite <- Z.div_mod in Hu by lia.
Qed.

(** ** The numbers in use *)

(** [live] are the inodes of the nodes that exist: the numbers in use are 0, these and
    the ones freed a short time ago. *)
Record pool_inv (live : Z → Prop) (p : idpool) : Prop := {
  inv_ok : pool_ok p;
  inv_used i : 0 ≤ i → used p i ↔ i = 0 ∨ live i ∨ i ∈ (freelist p).*1;
  inv_range i : live i ∨ i ∈ (freelist p).*1 → 0 < i < 2 ^ 32;
  inv_disjoint i : live i → i ∉ (freelist p).*1;
  inv_nodup : NoDup (freelist p).*1 }.

Lemma pool_inv_ext (live live' : Z → Prop) p : (∀ i, live i ↔ live' i) → pool_inv live p → pool_inv live' p.
Proof.
  intros Heq [Hok Hu Hr Hd Hn]. split; try done; intros i.
  - intros Hi. rewrite Hu by done. by rewrite Heq.
  - rewrite <- Heq. apply Hr.
  - rewrite <- Heq. apply Hd.
Qed.

Lemma pool_inv_alloc live p :
  pool_inv live p → room p →
  ∃ i p', fsnodes_get_next_id p = Some (i, p') ∧ pool_inv (λ j, j = i ∨ live j) p' ∧ 0 < i < 2 ^ 32 ∧
    ¬ live i ∧ (i ∉ (freelist p).*1) ∧ freelist p' = freelist p.
Proof.
  intros [Hok Hu Hr Hd Hn] Hroom. destruct (get_next_id_spec p Hok Hroom) as (i & p' & Heq & Hok' & Hi & Hfree & _ & Hu' & Hfl & _).
  exists i, p'. rewrite Hu in Hfree by lia.
  assert (¬ live i) by tauto. assert (i ∉ (freelist p).*1) by tauto.
  split_and!; [done| |lia|lia|done|done|done]. split; rewrite ?Hfl; [done| | | |done].
  - intros j Hj. rewrite Hu', Hu by done. tauto.
  - intros j [[->|Hj]|Hj]; [done|apply Hr; by left|apply Hr; by right].
  - intros j [->|Hj]; [done|by apply Hd].
Qed.

Lemma freelist_fixts ts p : (freelist (fsnodes_free_fixts ts p)).*1 = (freelist p).*1.
Proof. unfold fsnodes_free_fixts. simpl. rewrite <- list_fmap_compose. by apply list_fmap_ext. Qed.

Lemma pool_inv_fixts live ts p : pool_inv live p → pool_inv live (fsnodes_free_fixts ts p).
Proof.
  intros [[] Hu Hr Hd Hn]. by split; rewrite ?freelist_fixts; [split|..].
Qed.

(** The number of a node that is removed goes to the list. *)
Lemma pool_inv_free live inode ts p :
  pool_inv live p → live inode → pool_inv (λ j, live j ∧ j ≠ inode) (fsnodes_free_id inode ts p).
Proof.
  intros Hinv Hlive. unfold fsnodes_free_id.
  assert (pool_inv live (if ts <? freelastts p then fsnodes_free_fixts ts p else p)) as [Hok Hu Hr Hd Hn]
    by (case_if; [by apply pool_inv_fixts|done]).
  set (q := if _ : bool then _ else _) in *. clearbody q. split; simpl; [by destruct Hok; split| | | |];
    rewrite fmap_app; simpl.
  - intros i Hi. rewrite elem_of_app, list_elem_of_singleton. fold (used q i). 
    change (used (mk_idpool (freebitmask q) (searchpos q) (freelist q ++ [(inode, ts)]) ts (maxnodeid q)) i) with (used q i).
    rewrite Hu by done. destruct (decide (i = inode)) as [->|]; naive_solver.
  - intros i. rewrite elem_of_app, list_elem_of_singleton. naive_solver.
  - intros i. rewrite elem_of_app, list_elem_of_singleton. naive_solver.
  - apply NoDup_app. split; [done|]. split; [|apply NoDup_singleton].
    intros i Hi ->%list_elem_of_singleton. by apply (Hd inode).
Qed.

(** ** Releasing the numbers *)

Section releasing.
Variable of_isfileopen : Z → bool.
Variable live : Z → Prop.

(** What the loop keeps: the numbers still listed are [rest] and [sn]. *)
Record loop_inv (rest : list (Z * Z)) (st : free_state) : Prop := {
  li_words : Forall is_u32 (fbm st);
  li_pos : (fpos st ≤ length (fbm st))%nat;
  li_full k : (k < fpos st)%nat → fbm st !! k = Some 0xFFFFFFFF;
  li_used i : 0 ≤ i → bit_used (fbm st) i ↔ i = 0 ∨ live i ∨ i ∈ rest.*1 ∨ i ∈ (sn st).*1;
  li_range i : i ∈ rest.*1 ∨ i ∈ (sn st).*1 → 0 < i < 2 ^ 32;
  li_disjoint i : live i → (i ∉ rest.*1) ∧ (i ∉ (sn st).*1);
  li_nodup : NoDup (rest.*1 ++ (sn st).*1) }.

(** A turn on the number at the head of the list: it is kept, or its bit is cleared. *)
Lemma free_turn_ok ts test inode ftime rest st :
  loop_inv ((inode, ftime) :: rest) st →
  ∃ st', free_turn of_isfileopen ts test inode st = Some st' ∧ loop_inv rest st' ∧
    sn st' = (if test && of_isfileopen inode then sn st ++ [(inode, ts)] else sn st) ∧
    length (fbm st') = length (fbm st).
Proof.
  intros [Hw Hp Hf Hu Hr Hd Hn]. simpl in Hu, Hr, Hd, Hn. unfold free_turn.
  apply NoDup_cons in Hn as [Hnin Hn]. rewrite elem_of_app in Hnin.
  destruct (test && of_isfileopen inode).
  - eexists. split; [done|]. split; [|done]. split; simpl; try done; rewrite ?fmap_app; simpl.
    + intros i Hi. rewrite Hu by done. rewrite elem_of_cons, elem_of_app, list_elem_of_singleton. tauto.
    + intros i. rewrite elem_of_app, list_elem_of_singleton. intros Hi. apply Hr. rewrite elem_of_cons. tauto.
    + intros i Hi. destruct (Hd i Hi) as [H1 H2]. rewrite elem_of_cons in H1.
      rewrite elem_of_app, list_elem_of_singleton. tauto.
    + rewrite app_assoc. apply NoDup_app. split; [done|]. split; [|apply NoDup_singleton].
      intros i Hi ->%list_elem_of_singleton. rewrite elem_of_app in Hi. tauto.
  - assert (0 < inode < 2 ^ 32) as Hi0 by (apply Hr; left; by left).
    assert (bit_used (fbm st) inode) as (w & Hword & Hbit) by (apply Hu; [lia|]; right; right; left; by left).
    rewrite Z.shiftr_div_pow2 by lia. change (2 ^ 5) with 32. rewrite Hword. cbn [mbind option_bind].
    change 0x1F with (Z.ones 5). rewrite Z.land_ones by lia. change (2 ^ 5) with 32.
    pose proof (number_mod inode ltac:(lia)) as Hm. rewrite u32_bit by done.
    assert (∀ j, 0 ≤ j → bit_used (<[Z.to_nat (inode / 32) := Z.ldiff w (2 ^ (inode `mod` 32))]> (fbm st)) j ↔
      j ≠ inode ∧ bit_used (fbm st) j) as Hclear.
    { intros j Hj. rewrite (bit_used_clear _ _ _ _ j Hword Hm Hj). rewrite Z2Nat.id by (apply Z.div_pos; lia).
      rewrite <- Z.div_mod by lia. done. }
    eexists. split; [done|]. split; [|simpl; by rewrite length_insert]. split; simpl; try done.
    + apply Forall_insert; [done|]. apply is_u32_ldiff. by apply (Forall_lookup_1 _ _ _ _ Hw Hword).
    + rewrite length_insert. case_if; [|done]. apply lookup_lt_Some in Hword. lia.
    + intros k. case_if; intros Hk.
      * apply Nat.ltb_lt in E. rewrite list_lookup_insert_ne by lia. apply Hf. lia.
      * apply Nat.ltb_ge in E. rewrite list_lookup_insert_ne by lia. by apply Hf.
    + intros j Hj. rewrite Hclear, Hu by done. rewrite elem_of_cons. split; [|tauto || intros Hj'].
      * intros [Hne [?|[?|[[?|?]|?]]]]; tauto.
      * split; [|tauto]. intros ->. destruct Hj' as [?|[Hl|Hj']]; [lia| |tauto].
        apply (Hd inode) in Hl as [Hl _]. apply Hl. by left.
    + intros j Hj. apply Hr. rewrite elem_of_cons. tauto.
    + intros j Hj. destruct (Hd j Hj) as [H1 H2]. rewrite elem_of_cons in H1. tauto.
Qed.

(** Whether the loop takes a number of the list. *)
Definition expired (ts delay : Z) (n : Z * Z) : bool := u32 (n.2 + delay) <? ts.

(** The prefix the loop takes, and the numbers of it that are kept because they are
    open. *)
Fixpoint taken (ts delay : Z) (n : list (Z * Z)) : list (Z * Z) :=
  match n with
  | [] => []
  | x :: rest => if expired ts delay x then x :: taken ts delay rest else []
  end.
Definition kept (test : bool) (n : list (Z * Z)) : list Z := filter (λ i, test && of_isfileopen i = true) n.*1.

Lemma kept_cons test x n :
  kept test (x :: n) = if test && of_isfileopen x.1 then x.1 :: kept test n else kept test n.
Proof.
  unfold kept. cbn [fmap list_fmap]. rewrite filter_cons. destruct (test && of_isfileopen x.1) eqn:E.
  - by rewrite decide_True.
  - by rewrite decide_False.
Qed.

Lemma free_loop_ok ts delay test n st :
  loop_inv n st →
  ∃ rest st', free_loop of_isfileopen ts delay test n st = Some (rest, st') ∧ loop_inv rest st' ∧
    n = taken ts delay n ++ rest ∧
    sn st' = sn st ++ ((λ i, (i, ts)) <$> kept test (taken ts delay n)).
Proof.
  revert st. induction n as [|[inode ftime] n IH]; intros st Hinv; cbn [free_loop taken].
  { exists [], st. unfold kept. simpl. by rewrite app_nil_r. }
  unfold expired. simpl. destruct (u32 (ftime + delay) <? ts).
  - destruct (free_turn_ok ts test inode ftime n st Hinv) as (st1 & -> & Hinv1 & Hsn1 & _). cbn [mbind option_bind].
    destruct (IH st1 Hinv1) as (rest & st' & -> & Hinv' & Hn & Hsn). exists rest, st'. split; [done|]. split; [done|].
    split; [simpl; by rewrite <- Hn|]. rewrite Hsn, Hsn1, kept_cons. simpl.
    destruct (test && of_isfileopen inode); [|done]. simpl. by rewrite <- app_assoc.
  - exists ((inode, ftime) :: n), st. unfold kept. simpl. by rewrite app_nil_r.
Qed.

End releasing.

(** The list as the loop sees it, its time stamps mended. *)
Definition mended (ts : Z) (p : idpool) : list (Z * Z) :=
  freelist (if ts <? freelastts p then fsnodes_free_fixts ts p else p).

Lemma loop_inv_start live ts p :
  pool_inv live p → loop_inv live (mended ts p) (mk_free_state [] 0 0 0 (freebitmask p) (searchpos p)).
Proof.
  intros Hinv. assert (pool_inv live (if ts <? freelastts p then fsnodes_free_fixts ts p else p)) as [[Hw Hp Hf H0] Hu Hr Hd Hn]
    by (case_if; [by apply pool_inv_fixts|done]).
  assert (freebitmask (if ts <? freelastts p then fsnodes_free_fixts ts p else p) = freebitmask p ∧
    searchpos (if ts <? freelastts p then fsnodes_free_fixts ts p else p) = searchpos p) as [Heq1 Heq2] by (by case_if).
  rewrite Heq1, Heq2 in *. unfold used in *. rewrite Heq1 in *. fold (mended ts p) in *.
  split; simpl; try done.
  - intros i Hi. rewrite Hu by done. set_solver.
  - intros i. set_unfold. intros [Hi|[]]. apply Hr. by right.
  - intros i Hi. split; [by apply Hd|]. set_solver.
  - by rewrite app_nil_r.
Qed.

Lemma loop_inv_end live rest st lastts maxid :
  loop_inv live rest st → (∀ i, live i → 0 < i < 2 ^ 32) → bit_used (fbm st) 0 →
  pool_inv live (mk_idpool (fbm st) (fpos st) (rest ++ sn st) lastts maxid).
Proof.
  intros [Hw Hp Hf Hu Hr Hd Hn] Hlive H0. split; simpl; rewrite ?fmap_app; [by split| | | |done].
  - intros i Hi. unfold used. simpl. rewrite Hu by done. by rewrite elem_of_app.
  - intros i. rewrite elem_of_app. intros [Hi|Hi]; [by apply Hlive|by apply Hr].
  - intros i Hi. rewrite elem_of_app. destruct (Hd i Hi). tauto.
Qed.

Section freeinodes_facts.
Variable of_isfileopen : Z → bool.

(** The loop counts the numbers it takes, and the ones of them it keeps. *)
Lemma free_loop_si ts delay test n st rest st' :
  free_loop of_isfileopen ts delay test n st = Some (rest, st') →
  si st' = u32 (si st + Z.of_nat (length (kept of_isfileopen test (taken ts delay n)))) ∨
  (si st' = si st ∧ kept of_isfileopen test (taken ts delay n) = []).
Proof.
  revert st. induction n as [|[inode ftime] n IH]; intros st; cbn [free_loop taken].
  { intros [= <- <-]. by right. }
  unfold expired. simpl. destruct (u32 (ftime + delay) <? ts); [|intros [= <- <-]; by right].
  destruct (free_turn _ _ _ _ _) as [st1|] eqn:Hturn; [|done]. cbn [mbind option_bind]. intros Hloop%IH.
  rewrite kept_cons. simpl. unfold free_turn in Hturn. destruct (test && of_isfileopen inode).
  - injection Hturn as <-. left. simpl in *. destruct Hloop as [->|[-> ->]]; simpl; [|done].
    unfold u32. rewrite Zplus_mod_idemp_l. f_equal. lia.
  - destruct (fbm st !! _); [|done]. by injection Hturn as <-.
Qed.

(** If no number is kept, the loop does the same without the test. *)
Lemma free_loop_none_open ts delay n st :
  kept of_isfileopen true (taken ts delay n) = [] →
  free_loop of_isfileopen ts delay false n st = free_loop of_isfileopen ts delay true n st.
Proof.
  revert st. induction n as [|[inode ftime] n IH]; intros st; cbn [free_loop taken]; [done|].
  unfold expired. simpl. destruct (u32 (ftime + delay) <? ts); [|done].
  rewrite kept_cons. simpl. destruct (of_isfileopen inode) eqn:E; [done|]. intros Hk. unfold free_turn. rewrite E. simpl.
  destruct (fbm st !! _); [|done]. cbn [mbind option_bind]. by apply IH.
Qed.

End freeinodes_facts.

(** A list of different numbers below [2 ^ 32] has fewer than [2 ^ 32]. *)
Lemma NoDup_range (l : list Z) n : NoDup l → (∀ i, i ∈ l → 0 < i < n) → 0 < n → Z.of_nat (length l) < n.
Proof.
  intros Hnd Hr Hn. assert (l ⊆+ seqZ 1 (n - 1)) as Hsub.
  { apply NoDup_submseteq; [done|]. intros i Hi%Hr. apply elem_of_seqZ. lia. }
  apply submseteq_length in Hsub. rewrite length_seqZ in Hsub. lia.
Qed.

Lemma kept_length of_isfileopen test ts delay live n st :
  loop_inv live n st → Z.of_nat (length (kept of_isfileopen test (taken ts delay n))) < 2 ^ 32.
Proof.
  intros Hinv. apply NoDup_range; [| |lia].
  - unfold kept. apply NoDup_filter. pose proof (li_nodup _ _ _ Hinv) as Hn. apply NoDup_app in Hn as [Hn _].
    destruct (free_loop_ok of_isfileopen live ts delay test n st Hinv) as (rest & st' & _ & _ & Heq & _).
    rewrite Heq, fmap_app in Hn. by apply NoDup_app in Hn as [Hn _].
  - unfold kept. intros i Hi. apply list_elem_of_filter in Hi as [_ Hi]. apply (li_range _ _ _ Hinv). left.
    destruct (free_loop_ok of_isfileopen live ts delay test n st Hinv) as (rest & st' & _ & _ & Heq & _).
    rewrite Heq, fmap_app, elem_of_app. by left.
Qed.

(** ** Theorems *)

(** The number given to a new node is the lowest number that neither a node
    nor a node removed a short time ago has; it is not 0 and fits 32 bits. *)
Theorem get_next_id_fresh live p :
  pool_inv live p → room p →
  ∃ i p', fsnodes_get_next_id p = Some (i, p') ∧ pool_inv (λ j, j = i ∨ live j) p' ∧
    0 < i < 2 ^ 32 ∧ ¬ live i ∧ (i ∉ (freelist p).*1) ∧
    (∀ j, 0 < j < i → live j ∨ j ∈ (freelist p).*1).
Proof.
  intros Hinv Hroom. destruct (pool_inv_alloc live p Hinv Hroom) as (i & p' & Heq & Hinv' & Hi & Hlive & Hfl & _).
  exists i, p'. split_and!; try done; try lia. intros j Hj.
  destruct (get_next_id_spec p (inv_ok _ _ Hinv) Hroom) as (i' & p'' & Heq' & _ & _ & _ & Hlow & _).
  rewrite Heq in Heq'. injection Heq' as <- <-. specialize (Hlow j ltac:(lia)).
  apply (inv_used _ _ Hinv) in Hlow; [|lia]. destruct Hlow as [?|?]; [lia|done].
Qed.

(** Releasing the freed numbers ends without a fault: the numbers whose
    delay is over leave the list and can be used again, save those of files still
    open, which start a new delay; no other number changes. *)
Theorem freeinodes_spec of_isfileopen live ts sesflags delay freeinodes sustainedinodes chksum p :
  pool_inv live p →
  let test := (Z.land sesflags SESFLAG_METARESTORE =? 0) || (0 <? sustainedinodes) in
  let t := taken ts delay (mended ts p) in
  ∃ status p' e, fs_univ_freeinodes of_isfileopen ts sesflags delay freeinodes sustainedinodes chksum p = Some (status, p', e) ∧
    pool_inv live p' ∧
    freelist p' = drop (length t) (mended ts p) ++ ((λ i, (i, ts)) <$> kept of_isfileopen test t) ∧
    (∀ i, 0 ≤ i → used p' i ↔ used p i ∧ (i ∈ t.*1 → test && of_isfileopen i = true)).
Proof.
  intros Hinv test t. pose proof (loop_inv_start live ts p Hinv) as Hstart.
  destruct (free_loop_ok of_isfileopen live ts delay test _ _ Hstart) as (rest & st & Hloop & Hend & Hsplit & Hsn).
  unfold fs_univ_freeinodes. fold (mended ts p). fold test.
  assert (searchpos (if ts <? freelastts p then fsnodes_free_fixts ts p else p) = searchpos p) as -> by (by case_if).
  assert (freebitmask (if ts <? freelastts p then fsnodes_free_fixts ts p else p) = freebitmask p) as -> by (by case_if).
  rewrite Hloop. cbn [mbind option_bind]. simpl in Hsn.
  assert (bit_used (fbm st) 0) as H0 by (apply (li_used _ _ _ Hend); [done|by left]).
  assert (∀ i, live i → 0 < i < 2 ^ 32) as Hlive by (intros i Hi; apply (inv_range _ _ Hinv); by left).
  assert (∀ lastts maxid, pool_inv live (mk_idpool (fbm st) (fpos st) (rest ++ sn st) lastts maxid)) as Hnew
    by (intros; by apply loop_inv_end).
  assert (rest = drop (length t) (mended ts p)) as Hrest by (by rewrite Hsplit at 1; rewrite drop_app_length).
  assert (∀ q lastts maxid, q = mk_idpool (fbm st) (fpos st) (rest ++ sn st) lastts maxid →
    pool_inv live q ∧ freelist q = drop (length t) (mended ts p) ++ ((λ i, (i, ts)) <$> kept of_isfileopen test t) ∧
    (∀ i, 0 ≤ i → used q i ↔ used p i ∧ (i ∈ t.*1 → test && of_isfileopen i = true))) as Hall.
  { intros q lastts maxid ->. split; [done|]. split; [simpl; by rewrite <- Hrest, Hsn|]. intros i Hi.
    rewrite (inv_used _ _ (Hnew lastts maxid)) by done. simpl.
    pose proof (li_used _ _ _ Hstart i Hi) as Hu. simpl in Hu.
    unfold used. rewrite Hu, Hsplit, !fmap_app, !elem_of_app, Hsn, <- list_fmap_compose, list_fmap_id.
    fold t. unfold kept. rewrite list_elem_of_filter.
    assert (i ∈ rest.*1 → i ∉ t.*1).
    { pose proof (li_nodup _ _ _ Hstart) as Hn. simpl in Hn. rewrite app_nil_r, Hsplit, fmap_app in Hn.
      apply NoDup_app in Hn as (_ & Hn & _). intros Hr Ht. by apply (Hn i). }
    assert (i = 0 ∨ live i → i ∉ t.*1).
    { intros Hor Ht. assert (i ∈ (mended ts p).*1) as Hm by (rewrite Hsplit, fmap_app, elem_of_app; by left).
      destruct Hor as [->|Hl]; [specialize (li_range _ _ _ Hstart 0 (or_introl Hm)); lia|].
      by apply (li_disjoint _ _ _ Hstart) in Hl as [Hl _]. }
    rewrite elem_of_nil. destruct (decide (i ∈ t.*1)); tauto. }
  destruct (_ =? 0); [|case_if]; (eexists _, _, _; split; [done|by eapply Hall]).
Qed.

(** Replaying a FREEINODES entry gives the numbers the master has, provided the
    same files are open: the counters and the sum of control it carries agree. *)
Theorem freeinodes_replay of_isfileopen live now delay p status p' e :
  pool_inv live p →
  fsnodes_freeinodes of_isfileopen now delay p = Some (status, p', Some e) →
  fs_mr_freeinodes of_isfileopen e p = Some (MFS_STATUS_OK, p', None).
Proof.
  intros Hinv. pose proof (loop_inv_start live now p Hinv) as Hstart.
  unfold fsnodes_freeinodes, fs_univ_freeinodes. fold (mended now p).
  assert (searchpos (if now <? freelastts p then fsnodes_free_fixts now p else p) = searchpos p) as Hsp by (by case_if).
  assert (freebitmask (if now <? freelastts p then fsnodes_free_fixts now p else p) = freebitmask p) as Hbm by (by case_if).
  rewrite Hsp, Hbm. change (Z.land 0 SESFLAG_METARESTORE =? 0) with true. cbn [orb].
  destruct (free_loop _ _ _ _ _ _) as [[rest st]|] eqn:Hloop; [|done]. cbn [mbind option_bind].
  intros [= _ <- He]. case_if_in He; [|done]. injection He as <-. cbn [fs_mr_freeinodes].
  unfold fs_univ_freeinodes. fold (mended now p). rewrite Hsp, Hbm.
  change (Z.land SESFLAG_METARESTORE SESFLAG_METARESTORE =? 0) with false. cbn [orb].
  assert (free_loop of_isfileopen now delay (0 <? si st) (mended now p)
    (mk_free_state [] 0 0 0 (freebitmask p) (searchpos p)) = Some (rest, st)) as ->.
  { destruct (Z.ltb_spec 0 (si st)); [done|]. rewrite free_loop_none_open; [done|].
    pose proof (kept_length of_isfileopen true now delay live _ _ Hstart) as Hlen.
    destruct (free_loop_si _ _ _ _ _ _ _ _ Hloop) as [Hsi|[_ Hk]]; [|done]. simpl in Hsi.
    unfold u32 in Hsi. rewrite Z.mod_small in Hsi by lia. destruct (kept _ _ _); [done|simpl in Hsi; lia]. }
  cbn [mbind option_bind]. rewrite !Z.eqb_refl. cbn [negb orb andb]. by rewrite andb_false_r.
Qed.

(** ** A small pool *)

(** Numbers 1 to 3 are nodes; 4 was freed at time 100 and 5, which is open, at 110. *)
Definition ex_pool : idpool := mk_idpool [0x3F; 0] 0 [(4, 100); (5, 110)] 110 5.
Definition ex_live (i : Z) : Prop := 1 ≤ i ≤ 3.
Definition ex_isopen (i : Z) : bool := i =? 5.

Lemma ex_pool_inv : pool_inv ex_live ex_pool.
Proof.
  assert (∀ i, 0 ≤ i → used ex_pool i ↔ i < 6) as Hused.
  { intros i Hi. unfold used, bit_used. destruct (Z_lt_le_dec i 6) as [Hlt|Hge].
    - split; [done|]. intros _. assert (i = 0 ∨ i = 1 ∨ i = 2 ∨ i = 3 ∨ i = 4 ∨ i = 5) as Hcase by lia.
      destruct Hcase as [->|[->|[->|[->|[->| ->]]]]]; by exists 0x3F.
    - split; [|lia]. intros (w & Hw & Hb). exfalso. simpl in Hw.
      destruct (Z_lt_le_dec i 32) as [H32|H32].
      + rewrite Z.div_small in Hw by lia. injection Hw as <-. rewrite Z.mod_small in Hb by lia.
        change 0x3F with (Z.ones 6) in Hb. rewrite Z.testbit_ones_nonneg in Hb by lia. zbool. lia.
      + assert (1 ≤ i / 32) by (apply Z.div_le_lower_bound; lia).
        destruct (Z.to_nat (i / 32)) as [|[|]] eqn:E; [lia| |done]. injection Hw as <-. by rewrite Z.bits_0 in Hb. }
  split; [split| | | |].
  - repeat constructor; unfold is_u32; lia.
  - simpl. lia.
  - simpl. lia.
  - by apply Hused.
  - intros i Hi. rewrite Hused by done. unfold ex_live. simpl. set_unfold. lia.
  - intros i. unfold ex_live. simpl. set_unfold. lia.
  - intros i. unfold ex_live. simpl. set_unfold. lia.
  - simpl. repeat constructor; set_solver.
Qed.

Lemma ex_room : room ex_pool.
Proof. exists 33. split; [lia|]. intros (w & Hw & Hb). change (Z.to_nat (33 / 32)) with 1%nat in Hw. by injection Hw as <-. Qed.

Lemma get_next_id_fresh_witness :
  ∃ i p', fsnodes_get_next_id ex_pool = Some (i, p') ∧ i = 6 ∧ ¬ ex_live i.
Proof.
  destruct (get_next_id_fresh ex_live ex_pool ex_pool_inv ex_room) as (i & p' & Heq & _ & _ & Hl & _).
  exists i, p'. split; [exact Heq|]. split; [|exact Hl].
  change (fsnodes_get_next_id ex_pool) with (Some (6, mk_idpool [0x7F; 0] 0 [(4, 100); (5, 110)] 110 6)) in Heq.
  by injection Heq.
Defined.

Lemma freeinodes_spec_witness :
  ∃ status p' e, fs_univ_freeinodes ex_isopen 1000 0 60 0 0 0 ex_pool = Some (status, p', e) ∧
    freelist p' = [(5, 1000)] ∧ ¬ used p' 4.
Proof.
  destruct (freeinodes_spec ex_isopen ex_live 1000 0 60 0 0 0 ex_pool ex_pool_inv) as (st & p' & e & Heq & _ & Hfl & Hu).
  exists st, p', e. split; [exact Heq|]. split; [rewrite Hfl; reflexivity|].
  rewrite (Hu 4) by done. intros [_ H]. assert (4 ∈ (taken 1000 60 (mended 1000 ex_pool)).*1) as Hin by (vm_compute; left).
  specialize (H Hin). vm_compute in H. discriminate H.
Defined.

Lemma freeinodes_replay_witness :
  ∃ p' e, fsnodes_freeinodes ex_isopen 1000 60 ex_pool = Some (MFS_STATUS_OK, p', Some e) ∧
    e = FREEINODES 1000 60 1 1 1 ∧ fs_mr_freeinodes ex_isopen e ex_pool = Some (MFS_STATUS_OK, p', None).
Proof.
  eexists _, _. split; [reflexivity|]. split; [reflexivity|].
  apply (freeinodes_replay ex_isopen ex_live 1000 60 ex_pool MFS_STATUS_OK _ _ ex_pool_inv). reflexivity.
Defined.
