(* ===== verification/AppendRes.v ===== *)
(** * Reservations of space by writers that append (appendres.c)

    A client that appends to a file asks for space first: the master keeps the length
    the file will have (the virtual length) until the real length has reached it.  The
    table is an array of 1024 chains; the theorem at the end shows that it is a finite
    map, whatever the order of the calls. *)

From S2P Require Import Prelude HashChain.

Definition APPENDRES_HASHSIZE : Z := 1024.

Record appendreservation := mk_appendreservation { ar_inode : Z; ar_vlength : Z }.

#[export] Program Instance appendreservation_keyed : HashKeyed appendreservation := {|
  hk_key := ar_inode;
  hk_hash := λ inode, inode `mod` APPENDRES_HASHSIZE;
  hk_size := APPENDRES_HASHSIZE
|}.
Next Obligation. intros k. apply Z.mod_pos_bound. done. Qed.

(** [appendreshash] *)
Abbreviation restab := (list (list appendreservation)).

Definition appendres_getvleng (inode : Z) (t : restab) : Z :=
  match tab_find inode t with Some ar => ar_vlength ar | None => 0 end.

Definition appendres_setvleng (inode vlength : Z) (t : restab) : restab :=
  match tab_find inode t with
  | Some _ => tab_set inode (mk_appendreservation inode vlength) t
  | None => tab_add (mk_appendreservation inode vlength) t
  end.

(** The walk that takes the first record of the inode out of its chain when the test
    [drop] says so. *)
Fixpoint chain_take (inode : Z) (drop : appendreservation → bool) (l : list appendreservation) : list appendreservation :=
  match l with
  | [] => []
  | ar :: l => if ar_inode ar =? inode then (if drop ar then l else ar :: l) else ar :: chain_take inode drop l
  end.

Definition tab_take (inode : Z) (drop : appendreservation → bool) (t : restab) : restab :=
  <[bucket inode := chain_take inode drop (chain_of inode t)]> t.

Definition appendres_setrleng (inode rlength : Z) (t : restab) : restab :=
  tab_take inode (λ ar, ar_vlength ar <=? rlength) t.

Definition appendres_clear (inode : Z) (t : restab) : restab := tab_take inode (λ _, true) t.

Definition appendres_cleanall (t : restab) : restab := (λ _, []) <$> t.

Definition appendres_init : restab := tab_empty.

(** ** The table is a map *)

Definition represents (t : restab) (m : gmap Z Z) : Prop := tab_wf t ∧ ∀ i, ar_vlength <$> tab_find i t = m !! i.

Lemma chain_take_keys inode drop l :
  hk_key <$> chain_take inode drop l `sublist_of` hk_key <$> l.
Proof. induction l as [|ar l IH]; csimpl; [done|]. repeat case_if; csimpl; by repeat constructor. Qed.

Lemma chain_take_sublist inode drop l : chain_take inode drop l `sublist_of` l.
Proof. induction l as [|ar l IH]; simpl; [done|]. repeat case_if; by repeat constructor. Qed.

Lemma chain_find_take k inode drop l :
  NoDup (hk_key <$> l) →
  chain_find k (chain_take inode drop l)
  = if inode =? k then (ar ← chain_find k l; if (drop ar : bool) then None else Some ar) else chain_find k l.
Proof.
  induction l as [|ar l IH]; csimpl; intros Hnd; [by case_if|]. apply NoDup_cons in Hnd as [Hni Hnd].
  destruct (Z.eqb_spec (ar_inode ar) inode) as [Hi|Hi].
  - destruct (Z.eqb_spec inode k) as [Hk|Hk].
    + rewrite (proj2 (Z.eqb_eq _ _)) by congruence. cbn [mbind option_bind]. destruct (drop ar).
      * apply chain_find_None. rewrite <- Hk, <- Hi. exact Hni.
      * simpl. by rewrite (proj2 (Z.eqb_eq _ _)) by congruence.
    + rewrite (proj2 (Z.eqb_neq _ _)) by congruence. destruct (drop ar); [done|]. simpl. by rewrite (proj2 (Z.eqb_neq _ _)) by congruence.
  - simpl. rewrite IH by done. destruct (Z.eqb_spec inode k) as [Hk|Hk]; [|done]. by rewrite (proj2 (Z.eqb_neq _ _)) by congruence.
Qed.

Lemma represents_take inode drop t m :
  represents t m →
  represents (tab_take inode (λ ar, drop (ar_vlength ar)) t)
    (match m !! inode with Some v => if (drop v : bool) then delete inode m else m | None => m end).
Proof.
  intros [Hwf Hm]. destruct (chain_of_wf inode t Hwf) as [Hnd Hb]. split.
  - apply tab_wf_insert; [done|]. split; [by eapply sublist_NoDup; [|apply chain_take_keys]|].
    by eapply Forall_sublist; [apply chain_take_sublist|].
  - intros i. unfold tab_find, tab_take. destruct (decide (bucket i = bucket inode)) as [Hbk|Hbk].
    + replace (chain_of i _) with (chain_of inode (<[bucket inode := chain_take inode (λ ar, drop (ar_vlength ar)) (chain_of inode t)]> t))
        by (unfold chain_of; by rewrite Hbk).
      rewrite chain_of_insert_eq, chain_find_take by done.
      assert (chain_find i (chain_of inode t) = tab_find i t) as -> by (unfold tab_find, chain_of; by rewrite Hbk).
      destruct (Z.eqb_spec inode i) as [<-|Hne].
      * rewrite <- (Hm inode). destruct (tab_find inode t) as [ar|] eqn:Hf; simpl; [|by rewrite <- Hm, Hf].
        destruct (drop _); [by rewrite lookup_delete_eq|]. by rewrite <- Hm, Hf.
      * rewrite Hm. destruct (m !! inode) as [v|]; [|done]. destruct (drop v); [|done]. by rewrite lookup_delete_ne.
    + rewrite chain_of_insert_ne by done. fold (tab_find i t). rewrite Hm. destruct (m !! inode) as [v|]; [|done].
      destruct (drop v); [|done]. rewrite lookup_delete_ne; [done|]. by intros ->.
Qed.

(** The calls of a run, and the same calls on a map. *)
Inductive res_op := RGet (inode : Z) | RSetV (inode vlength : Z) | RSetR (inode rlength : Z) | RClear (inode : Z) | RCleanall.

Definition res_step (op : res_op) (t : restab) : restab * option Z :=
  match op with
  | RGet inode => (t, Some (appendres_getvleng inode t))
  | RSetV inode v => (appendres_setvleng inode v t, None)
  | RSetR inode r => (appendres_setrleng inode r t, None)
  | RClear inode => (appendres_clear inode t, None)
  | RCleanall => (appendres_cleanall t, None)
  end.

Definition res_map_step (op : res_op) (m : gmap Z Z) : gmap Z Z * option Z :=
  match op with
  | RGet inode => (m, Some (default 0 (m !! inode)))
  | RSetV inode v => (<[inode := v]> m, None)
  | RSetR inode r => (match m !! inode with Some v => if v <=? r then delete inode m else m | None => m end, None)
  | RClear inode => (delete inode m, None)
  | RCleanall => (∅, None)
  end.

Fixpoint run {S} (step : res_op → S → S * option Z) (ops : list res_op) (s : S) : list (option Z) :=
  match ops with [] => [] | op :: ops => let '(s, r) := step op s in r :: run step ops s end.

Lemma res_step_refines op t m :
  represents t m → represents (res_step op t).1 (res_map_step op m).1 ∧ (res_step op t).2 = (res_map_step op m).2.
Proof.
  intros Hrep. destruct op as [i|i v|i r|i|]; simpl.
  - split; [done|]. unfold appendres_getvleng. destruct Hrep as [_ Hm]. rewrite <- Hm. by destruct (tab_find i t).
  - split; [|done]. destruct Hrep as [Hwf Hm]. unfold appendres_setvleng. destruct (tab_find i t) as [ar|] eqn:Hf; split; auto with mfs.
    + intros j. rewrite tab_find_set by done. destruct (Z.eqb_spec i j) as [<-|Hne]; [by rewrite Hf, lookup_insert_eq|].
      by rewrite lookup_insert_ne.
    + intros j. rewrite tab_find_add by done. simpl. destruct (Z.eqb_spec i j) as [<-|Hne]; [by rewrite lookup_insert_eq|].
      by rewrite lookup_insert_ne.
  - split; [|done]. by apply (represents_take i (λ v, v <=? r)).
  - split; [|done]. pose proof (represents_take i (λ _, true) t m Hrep) as Ht. destruct (m !! i) eqn:Hi; [done|].
    by rewrite delete_id.
  - split; [|done]. destruct Hrep as [Hwf Hm]. unfold appendres_cleanall. split.
    + destruct Hwf as [Hsz _]. split; [by rewrite length_fmap|]. intros j l (? & -> & _)%list_lookup_fmap_Some. split; constructor.
    + intros j. rewrite lookup_empty. unfold tab_find, chain_of. rewrite list_lookup_fmap. by destruct (t !! bucket j).
Qed.

(** The table of reservations is a finite map from inodes to virtual
    lengths: any sequence of calls from the initial table answers what the map answers,
    so a reservation is found until it is cleared or the real length has reached it. *)
Theorem appendres_refines_map (ops : list res_op) : run res_step ops appendres_init = run res_map_step ops (∅ : gmap Z Z).
Proof.
  assert (∀ t m, represents t m → run res_step ops t = run res_map_step ops m) as Hrun.
  { induction ops as [|op ops IH]; intros t m Hrep; [done|]. cbn [run]. destruct (res_step_refines op t m Hrep) as [Hrep' Hr].
    destruct (res_step op t) as [t' r], (res_map_step op m) as [m' r']. simpl in *. by rewrite Hr, (IH t' m'). }
  apply Hrun. split; [apply tab_empty_wf|]. intros i. unfold appendres_init. by rewrite tab_find_empty.
Qed.
