(* ===== verification/Changelog.v ===== *)
(** * Outputs of the master's lock modules

    What the modelled handlers emit besides their result: entries of the
    metadata changelog (the calls of [changelog(...)], one constructor per entry
    type, its fields in the order of the format string, the time stamp first)
    the increments of the metadata version made when an entry is replayed,
    and the answers sent to clients that were waiting for a lock. *)

From Stdlib Require Export Ascii.
From S2P Require Import Prelude.

Inductive centry :=
| POSIXLOCK (ts inode sessionid owner : Z) (cmd : ascii) (start end_ pid : Z)
| FLOCK (ts inode sessionid owner : Z) (cmd : ascii)
| ACQUIRE (ts sessionid inode : Z)
| RELEASE (ts sessionid inode : Z).

Inductive event :=
| Log (c : centry)
| MetaVersionInc
| PosixWakeUp (connptr msgid status : Z)
| FlockWakeUp (connptr msgid status : Z).

(** The changelog part of a list of outputs. *)
Fixpoint changelog_of (evs : list event) : list centry :=
  match evs with
  | [] => []
  | Log c :: rest => c :: changelog_of rest
  | _ :: rest => changelog_of rest
  end.

Lemma changelog_of_app evs evs' :
  changelog_of (evs ++ evs') = changelog_of evs ++ changelog_of evs'.
Proof. induction evs as [|[] evs IH]; simpl; try done. by rewrite IH. Qed.
