(* ===== verification/DataPack.v ===== *)
(** * Packing of integers in messages and metadata files (mfscommon/datapack.h)

    The header has three builds, chosen by the preprocessor: [FAST_DATAPACK] on a
    little-endian machine (byte swap, then a copy of the memory of the integer),
    [FAST_DATAPACK] on a big-endian machine (a plain copy) and the portable one
    (shifts and masks).  A writer appends bytes to the output; a reader takes
    them off the front of its input, [None] standing for a read past its end.

    The theorems show that the three builds write and read the same bytes, the
    big-endian ones, and that reading gives back what was written. *)

From S2P Require Import Prelude.

Inductive build := FastLE | FastBE | Portable.

(** ** Memory of an integer *)

Definition byte_of (x : Z) (i : Z) : Z := Z.land (Z.shiftr x (8 * i)) 0xFF.

Definition le_bytes (n : nat) (x : Z) : list Z := (λ i, byte_of x (Z.of_nat i)) <$> seq 0 n.
Definition be_bytes (n : nat) (x : Z) : list Z := reverse (le_bytes n x).

Fixpoint le_val (bs : list Z) : Z :=
  match bs with [] => 0 | b :: rest => b + 256 * le_val rest end.
Definition be_val (bs : list Z) : Z := le_val (reverse bs).

(** The bytes at the address of an [n]-byte variable, and its value from them. *)
Definition mem_bytes (b : build) (n : nat) (x : Z) : list Z :=
  match b with FastBE => be_bytes n x | _ => le_bytes n x end.
Definition mem_val (b : build) (bs : list Z) : Z :=
  match b with FastBE => be_val bs | _ => le_val bs end.

(** ** Byte swaps *)

Definition BSWAP64 (x : Z) : Z :=
  Z.lor (Z.lor (Z.lor (Z.lor (Z.lor (Z.lor (Z.lor
    (Z.land (Z.shiftl x 56) 0xFF00000000000000)
    (Z.land (Z.shiftl x 40) 0xFF000000000000))
    (Z.land (Z.shiftl x 24) 0xFF0000000000))
    (Z.land (Z.shiftl x 8) 0xFF00000000))
    (Z.land (Z.shiftr x 8) 0xFF000000))
    (Z.land (Z.shiftr x 24) 0xFF0000))
    (Z.land (Z.shiftr x 40) 0xFF00))
    (Z.land (Z.shiftr x 56) 0xFF).

Definition BSWAP32 (x : Z) : Z :=
  Z.lor (Z.lor (Z.lor
    (Z.land (Z.shiftl x 24) 0xFF000000)
    (Z.land (Z.shiftl x 8) 0xFF0000))
    (Z.land (Z.shiftr x 8) 0xFF00))
    (Z.land (Z.shiftr x 24) 0xFF).

Definition BSWAP16 (x : Z) : Z :=
  Z.lor (Z.land (Z.shiftl x 8) 0xFF00) (Z.land (Z.shiftr x 8) 0xFF).

Definition swap64 (b : build) (x : Z) : Z := match b with FastLE => BSWAP64 x | _ => x end.
Definition swap32 (b : build) (x : Z) : Z := match b with FastLE => BSWAP32 x | _ => x end.
Definition swap16 (b : build) (x : Z) : Z := match b with FastLE => BSWAP16 x | _ => x end.

(** The portable writers: byte [i] of the output is the value shifted right. *)
Definition bytes_at (x : Z) (shifts : list Z) : list Z :=
  (λ s, Z.land (Z.shiftr x s) 0xFF) <$> shifts.

(** ** Writers *)

Definition put64bit (b : build) (val : Z) : list Z :=
  match b with
  | Portable => bytes_at val [56; 48; 40; 32; 24; 16; 8; 0]
  | _ => mem_bytes b 8 (swap64 b val)
  end.

Definition put56bit (b : build) (val : Z) : list Z :=
  match b with
  | Portable => bytes_at val [48; 40; 32; 24; 16; 8; 0]
  | _ => take 7 (drop 1 (mem_bytes b 8 (swap64 b val)))
  end.

Definition put48bit (b : build) (val : Z) : list Z :=
  match b with
  | Portable => bytes_at val [40; 32; 24; 16; 8; 0]
  | _ => take 6 (drop 2 (mem_bytes b 8 (swap64 b val)))
  end.

Definition put40bit (b : build) (val : Z) : list Z :=
  match b with
  | Portable => bytes_at val [32; 24; 16; 8; 0]
  | _ => take 5 (drop 3 (mem_bytes b 8 (swap64 b val)))
  end.

Definition put32bit (b : build) (val : Z) : list Z :=
  match b with
  | Portable => bytes_at val [24; 16; 8; 0]
  | _ => mem_bytes b 4 (swap32 b val)
  end.

Definition put24bit (b : build) (val : Z) : list Z :=
  match b with
  | Portable => bytes_at val [16; 8; 0]
  | _ => take 3 (drop 1 (mem_bytes b 4 (swap32 b val)))
  end.

Definition put16bit (b : build) (val : Z) : list Z :=
  match b with
  | Portable => bytes_at val [8; 0]
  | _ => mem_bytes b 2 (swap16 b val)
  end.

Definition put8bit (b : build) (val : Z) : list Z := [Z.land val 0xFF].

(** ** Readers *)

Definition get64bit (b : build) (p : list Z) : option (Z * list Z) :=
  match p with
  | p0 :: p1 :: p2 :: p3 :: p4 :: p5 :: p6 :: p7 :: rest =>
      Some (match b with
            | Portable =>
                Z.lor (Z.shiftl (p3 + 256 * (p2 + 256 * (p1 + 256 * p0))) 32)
                      (p7 + 256 * (p6 + 256 * (p5 + 256 * p4)))
            | _ => swap64 b (mem_val b [p0; p1; p2; p3; p4; p5; p6; p7])
            end, rest)
  | _ => None
  end.

Definition get56bit (b : build) (p : list Z) : option (Z * list Z) :=
  match p with
  | p0 :: p1 :: p2 :: p3 :: p4 :: p5 :: p6 :: rest =>
      Some (match b with
            | Portable =>
                Z.lor (Z.shiftl (p2 + 256 * (p1 + 256 * p0)) 32)
                      (p6 + 256 * (p5 + 256 * (p4 + 256 * p3)))
            | _ => swap64 b (mem_val b [0; p0; p1; p2; p3; p4; p5; p6])
            end, rest)
  | _ => None
  end.

Definition get48bit (b : build) (p : list Z) : option (Z * list Z) :=
  match p with
  | p0 :: p1 :: p2 :: p3 :: p4 :: p5 :: rest =>
      Some (match b with
            | Portable =>
                Z.lor (Z.shiftl (p1 + 256 * p0) 32)
                      (p5 + 256 * (p4 + 256 * (p3 + 256 * p2)))
            | _ => swap64 b (mem_val b [0; 0; p0; p1; p2; p3; p4; p5])
            end, rest)
  | _ => None
  end.

Definition get40bit (b : build) (p : list Z) : option (Z * list Z) :=
  match p with
  | p0 :: p1 :: p2 :: p3 :: p4 :: rest =>
      Some (match b with
            | Portable =>
                Z.lor (Z.shiftl p0 32)
                      (p4 + 256 * (p3 + 256 * (p2 + 256 * p1)))
            | _ => swap64 b (mem_val b [0; 0; 0; p0; p1; p2; p3; p4])
            end, rest)
  | _ => None
  end.

Definition get32bit (b : build) (p : list Z) : option (Z * list Z) :=
  match p with
  | p0 :: p1 :: p2 :: p3 :: rest =>
      Some (match b with
            | Portable => p3 + 256 * (p2 + 256 * (p1 + 256 * p0))
            | _ => swap32 b (mem_val b [p0; p1; p2; p3])
            end, rest)
  | _ => None
  end.

Definition get24bit (b : build) (p : list Z) : option (Z * list Z) :=
  match p with
  | p0 :: p1 :: p2 :: rest =>
      Some (match b with
            | Portable => p2 + 256 * (p1 + 256 * p0)
            | _ => swap32 b (mem_val b [0; p0; p1; p2])
            end, rest)
  | _ => None
  end.

Definition get16bit (b : build) (p : list Z) : option (Z * list Z) :=
  match p with
  | p0 :: p1 :: rest =>
      Some (match b with
            | Portable => p1 + 256 * p0
            | _ => swap16 b (mem_val b [p0; p1])
            end, rest)
  | _ => None
  end.

Definition get8bit (b : build) (p : list Z) : option (Z * list Z) :=
  match p with p0 :: rest => Some (p0, rest) | [] => None end.

(** ** Bytes *)

Lemma byte_of_u8 x i : is_u8 (byte_of x i).
Proof.
  unfold byte_of. change 0xFF with (Z.ones 8). rewrite Z.land_ones by lia.
  apply Z.mod_pos_bound. lia.
Qed.

Lemma byte_of_div x i : 0 ≤ i → byte_of x i = (x / 256 ^ i) `mod` 256.
Proof.
  intros Hi. unfold byte_of. change 0xFF with (Z.ones 8).
  rewrite Z.land_ones, Z.shiftr_div_pow2, Z.pow_mul_r by lia. done.
Qed.

Lemma le_bytes_S n x : le_bytes (S n) x = byte_of x 0 :: le_bytes n (x / 256).
Proof.
  unfold le_bytes. cbn [seq fmap list_fmap]. f_equal. rewrite <-(fmap_S_seq 0 n), <-list_fmap_compose.
  apply list_fmap_ext. intros _ i _. simpl.
  rewrite !byte_of_div, Zdiv_Zdiv by lia. do 2 f_equal.
  rewrite Nat2Z.inj_succ, Z.pow_succ_r by lia. done.
Qed.

Lemma le_val_bytes n x : le_val (le_bytes n x) = x `mod` 256 ^ Z.of_nat n.
Proof.
  revert x. induction n as [|n IH]; intros x; [by rewrite Z.mod_1_r|].
  rewrite le_bytes_S. simpl le_val. rewrite IH, byte_of_div by lia.
  rewrite Nat2Z.inj_succ, Z.pow_succ_r, Z.pow_0_r, Z.div_1_r by lia.
  rewrite Z.rem_mul_r by lia. done.
Qed.

Lemma le_bytes_val bs : Forall is_u8 bs → le_bytes (length bs) (le_val bs) = bs.
Proof.
  unfold is_u8. induction 1 as [|b bs Hb Hbs IH]; [done|]. cbn [length le_val].
  rewrite le_bytes_S, byte_of_div, Z.pow_0_r, Z.div_1_r by lia. f_equal.
  - rewrite Z.mul_comm, Z.mod_add, Z.mod_small by lia. done.
  - rewrite Z.mul_comm, Z.div_add, Z.div_small by lia. exact IH.
Qed.

Lemma le_bytes_u8 n x : Forall is_u8 (le_bytes n x).
Proof. apply Forall_fmap, Forall_forall. intros. apply byte_of_u8. Qed.

Lemma be_val_bytes n x : be_val (be_bytes n x) = x `mod` 256 ^ Z.of_nat n.
Proof. unfold be_val, be_bytes. by rewrite reverse_involutive, le_val_bytes. Qed.

Lemma length_be_bytes n x : length (be_bytes n x) = n.
Proof. unfold be_bytes, le_bytes. by rewrite length_reverse, length_fmap, length_seq. Qed.

Lemma be_bytes_u8 n x : Forall is_u8 (be_bytes n x).
Proof. apply Forall_reverse, le_bytes_u8. Qed.

(** ** Byte swaps reverse the bytes *)

(** Equality of two bytes, bit by bit. *)
Ltac byte_bits :=
  apply Z.bits_inj'; intros n Hn; unfold byte_of;
  rewrite ?Z.land_spec, ?Z.shiftr_spec, ?Z.lor_spec, ?Z.land_spec by lia;
  destruct (Z.lt_ge_cases n 8) as [Hn8|Hn8];
  [|by rewrite (Z.bits_above_log2 0xFF n), !andb_false_r by (simpl; lia)];
  assert (n = 0 ∨ n = 1 ∨ n = 2 ∨ n = 3 ∨ n = 4 ∨ n = 5 ∨ n = 6 ∨ n = 7) as Hcases by lia;
  repeat destruct Hcases as [->|Hcases]; try subst n;
  rewrite ?Z.shiftl_spec, ?Z.shiftr_spec by lia;
  simpl; rewrite ?andb_false_r, ?andb_true_r, ?orb_false_r, ?orb_false_l; done.

Lemma byte_of_BSWAP64 x i : 0 ≤ i < 8 → byte_of (BSWAP64 x) i = byte_of x (7 - i).
Proof.
  intros Hi. assert (i = 0 ∨ i = 1 ∨ i = 2 ∨ i = 3 ∨ i = 4 ∨ i = 5 ∨ i = 6 ∨ i = 7) as Hc by lia.
  unfold BSWAP64. repeat destruct Hc as [->|Hc]; try subst i; byte_bits.
Qed.

Lemma byte_of_BSWAP32 x i : 0 ≤ i < 4 → byte_of (BSWAP32 x) i = byte_of x (3 - i).
Proof.
  intros Hi. assert (i = 0 ∨ i = 1 ∨ i = 2 ∨ i = 3) as Hc by lia.
  unfold BSWAP32. repeat destruct Hc as [->|Hc]; try subst i; byte_bits.
Qed.

Lemma byte_of_BSWAP16 x i : 0 ≤ i < 2 → byte_of (BSWAP16 x) i = byte_of x (1 - i).
Proof.
  intros Hi. assert (i = 0 ∨ i = 1) as Hc by lia.
  unfold BSWAP16. repeat destruct Hc as [->|Hc]; try subst i; byte_bits.
Qed.

Lemma le_bytes_BSWAP64 x : le_bytes 8 (BSWAP64 x) = be_bytes 8 x.
Proof. unfold be_bytes, le_bytes. simpl. by rewrite !byte_of_BSWAP64 by lia. Qed.
Lemma le_bytes_BSWAP32 x : le_bytes 4 (BSWAP32 x) = be_bytes 4 x.
Proof. unfold be_bytes, le_bytes. simpl. by rewrite !byte_of_BSWAP32 by lia. Qed.
Lemma le_bytes_BSWAP16 x : le_bytes 2 (BSWAP16 x) = be_bytes 2 x.
Proof. unfold be_bytes, le_bytes. simpl. by rewrite !byte_of_BSWAP16 by lia. Qed.

Lemma land_mask_mod x m k : 0 ≤ k → Z.land m (Z.ones k) = m → Z.land x m `mod` 2 ^ k = Z.land x m.
Proof. intros Hk Hm. by rewrite <-Z.land_ones, <-Z.land_assoc, Hm. Qed.

Lemma lor_mod a b k : 0 ≤ k → Z.lor a b `mod` 2 ^ k = Z.lor (a `mod` 2 ^ k) (b `mod` 2 ^ k).
Proof. intros Hk. by rewrite <-!Z.land_ones, Z.land_lor_distr_l. Qed.

Lemma BSWAP64_mod x : BSWAP64 x `mod` 2 ^ 64 = BSWAP64 x.
Proof. unfold BSWAP64. by rewrite !lor_mod, !land_mask_mod by done. Qed.
Lemma BSWAP32_mod x : BSWAP32 x `mod` 2 ^ 32 = BSWAP32 x.
Proof. unfold BSWAP32. by rewrite !lor_mod, !land_mask_mod by done. Qed.
Lemma BSWAP16_mod x : BSWAP16 x `mod` 2 ^ 16 = BSWAP16 x.
Proof. unfold BSWAP16. by rewrite !lor_mod, !land_mask_mod by done. Qed.

Lemma BSWAP64_val bs : Forall is_u8 bs → length bs = 8%nat → BSWAP64 (le_val bs) = be_val bs.
Proof.
  intros Hbs Hl. rewrite <-BSWAP64_mod. change (2 ^ 64) with (256 ^ Z.of_nat 8).
  rewrite <-le_val_bytes, le_bytes_BSWAP64. unfold be_bytes, be_val. by rewrite <-Hl, le_bytes_val.
Qed.
Lemma BSWAP32_val bs : Forall is_u8 bs → length bs = 4%nat → BSWAP32 (le_val bs) = be_val bs.
Proof.
  intros Hbs Hl. rewrite <-BSWAP32_mod. change (2 ^ 32) with (256 ^ Z.of_nat 4).
  rewrite <-le_val_bytes, le_bytes_BSWAP32. unfold be_bytes, be_val. by rewrite <-Hl, le_bytes_val.
Qed.
Lemma BSWAP16_val bs : Forall is_u8 bs → length bs = 2%nat → BSWAP16 (le_val bs) = be_val bs.
Proof.
  intros Hbs Hl. rewrite <-BSWAP16_mod. change (2 ^ 16) with (256 ^ Z.of_nat 2).
  rewrite <-le_val_bytes, le_bytes_BSWAP16. unfold be_bytes, be_val. by rewrite <-Hl, le_bytes_val.
Qed.

(** ** The writers write the big-endian bytes, in every build *)

Ltac put_solve :=
  intros; match goal with b : build |- _ => destruct b end; cbn [mem_bytes swap64 swap32 swap16];
  rewrite ?le_bytes_BSWAP64, ?le_bytes_BSWAP32, ?le_bytes_BSWAP16; reflexivity.

Lemma put64bit_be b x : put64bit b x = be_bytes 8 x.
Proof. unfold put64bit. put_solve. Qed.
Lemma put56bit_be b x : put56bit b x = be_bytes 7 x.
Proof. unfold put56bit. put_solve. Qed.
Lemma put48bit_be b x : put48bit b x = be_bytes 6 x.
Proof. unfold put48bit. put_solve. Qed.
Lemma put40bit_be b x : put40bit b x = be_bytes 5 x.
Proof. unfold put40bit. put_solve. Qed.
Lemma put32bit_be b x : put32bit b x = be_bytes 4 x.
Proof. unfold put32bit. put_solve. Qed.
Lemma put24bit_be b x : put24bit b x = be_bytes 3 x.
Proof. unfold put24bit. put_solve. Qed.
Lemma put16bit_be b x : put16bit b x = be_bytes 2 x.
Proof. unfold put16bit. put_solve. Qed.
Lemma put8bit_be b x : put8bit b x = be_bytes 1 x.
Proof. reflexivity. Qed.

(** ** The readers read them *)

Lemma lor_shiftl a b : 0 ≤ b < 2 ^ 32 → Z.lor (Z.shiftl a 32) b = b + 2 ^ 32 * a.
Proof.
  intros Hb. rewrite Z.add_comm, <-Z.add_nocarry_lor.
  - rewrite Z.shiftl_mul_pow2; lia.
  - apply Z.bits_inj'. intros n Hn. rewrite Z.land_spec, Z.bits_0.
    destruct (Z.lt_ge_cases n 32).
    + by rewrite Z.shiftl_spec_low.
    + rewrite (Z.bits_above_log2 b n); [by rewrite andb_false_r|lia|].
      destruct (Z.eq_dec b 0) as [->|]; [simpl; lia|]. apply Z.log2_lt_pow2; [lia|].
      eapply Z.lt_le_trans; [apply Hb|]. by apply Z.pow_le_mono_r.
Qed.

Ltac get_solve :=
  intros b bs rest Hbs Hlen;
  repeat (destruct bs as [|? bs]; simpl in Hlen; try lia);
  repeat match goal with H : Forall is_u8 (_ :: _) |- _ => apply Forall_cons in H as [? ?] end;
  unfold is_u8 in *;
  cbn [app get64bit get56bit get48bit get40bit get32bit get24bit get16bit get8bit]; do 2 f_equal;
  destruct b; cbn [mem_val swap64 swap32 swap16];
  rewrite ?BSWAP64_val, ?BSWAP32_val, ?BSWAP16_val
    by (reflexivity || (repeat constructor; unfold is_u8; lia));
  rewrite ?lor_shiftl by lia; unfold be_val; cbn; lia.

Lemma get64bit_be : ∀ b bs rest, Forall is_u8 bs → length bs = 8%nat →
  get64bit b (bs ++ rest) = Some (be_val bs, rest).
Proof. get_solve. Qed.
Lemma get56bit_be : ∀ b bs rest, Forall is_u8 bs → length bs = 7%nat →
  get56bit b (bs ++ rest) = Some (be_val bs, rest).
Proof. get_solve. Qed.
Lemma get48bit_be : ∀ b bs rest, Forall is_u8 bs → length bs = 6%nat →
  get48bit b (bs ++ rest) = Some (be_val bs, rest).
Proof. get_solve. Qed.
Lemma get40bit_be : ∀ b bs rest, Forall is_u8 bs → length bs = 5%nat →
  get40bit b (bs ++ rest) = Some (be_val bs, rest).
Proof. get_solve. Qed.
Lemma get32bit_be : ∀ b bs rest, Forall is_u8 bs → length bs = 4%nat →
  get32bit b (bs ++ rest) = Some (be_val bs, rest).
Proof. get_solve. Qed.
Lemma get24bit_be : ∀ b bs rest, Forall is_u8 bs → length bs = 3%nat →
  get24bit b (bs ++ rest) = Some (be_val bs, rest).
Proof. get_solve. Qed.
Lemma get16bit_be : ∀ b bs rest, Forall is_u8 bs → length bs = 2%nat →
  get16bit b (bs ++ rest) = Some (be_val bs, rest).
Proof. get_solve. Qed.
Lemma get8bit_be : ∀ b bs rest, Forall is_u8 bs → length bs = 1%nat →
  get8bit b (bs ++ rest) = Some (be_val bs, rest).
Proof. get_solve. Qed.

(** Bytes are the bytes of their value. *)
Lemma be_bytes_val bs : Forall is_u8 bs → be_bytes (length bs) (be_val bs) = bs.
Proof.
  intros Hbs. unfold be_bytes, be_val. rewrite <-length_reverse, le_bytes_val by (by apply Forall_reverse).
  apply reverse_involutive.
Qed.

Lemma be_val_range bs : Forall is_u8 bs → 0 ≤ be_val bs < 256 ^ Z.of_nat (length bs).
Proof.
  intros Hbs. rewrite <-(be_bytes_val bs Hbs) at 1 2. rewrite be_val_bytes.
  apply Z.mod_pos_bound, Z.pow_pos_nonneg; lia.
Qed.

(** ** Round trips: a reader returns what a writer of any build wrote, cut to the width *)

Ltac roundtrip put get :=
  intros; rewrite put, get by (apply be_bytes_u8 || apply length_be_bytes);
  rewrite be_val_bytes; reflexivity.

Lemma get64_put64 b b' x rest : get64bit b (put64bit b' x ++ rest) = Some (x `mod` 2 ^ 64, rest).
Proof. roundtrip put64bit_be get64bit_be. Qed.
Lemma get56_put56 b b' x rest : get56bit b (put56bit b' x ++ rest) = Some (x `mod` 2 ^ 56, rest).
Proof. roundtrip put56bit_be get56bit_be. Qed.
Lemma get48_put48 b b' x rest : get48bit b (put48bit b' x ++ rest) = Some (x `mod` 2 ^ 48, rest).
Proof. roundtrip put48bit_be get48bit_be. Qed.
Lemma get40_put40 b b' x rest : get40bit b (put40bit b' x ++ rest) = Some (x `mod` 2 ^ 40, rest).
Proof. roundtrip put40bit_be get40bit_be. Qed.
Lemma get32_put32 b b' x rest : get32bit b (put32bit b' x ++ rest) = Some (x `mod` 2 ^ 32, rest).
Proof. roundtrip put32bit_be get32bit_be. Qed.
Lemma get24_put24 b b' x rest : get24bit b (put24bit b' x ++ rest) = Some (x `mod` 2 ^ 24, rest).
Proof. roundtrip put24bit_be get24bit_be. Qed.
Lemma get16_put16 b b' x rest : get16bit b (put16bit b' x ++ rest) = Some (x `mod` 2 ^ 16, rest).
Proof. roundtrip put16bit_be get16bit_be. Qed.
Lemma get8_put8 b b' x rest : get8bit b (put8bit b' x ++ rest) = Some (x `mod` 2 ^ 8, rest).
Proof. roundtrip put8bit_be get8bit_be. Qed.
