(* ===== verification/LinHash.v ===== *)
(** * Incrementally grown hash tables (mfscommon/hash_begin.h)

    The master keeps its nodes, its edges, its chunks and its access control lists
    in hash tables that double without stopping: the size is doubled at once, and
    every later operation moves a few chains of the lower half to the upper half,
    [rehashpos] being the first chain not yet moved.  The same algorithm is written
    in [hash_begin.h] and, by hand, in [filesystem.c] and [chunks.c].

    The array of arrays of the source is one array here, at the positions
    [(page << LOBITS) | index].  A position the program has never written is absent;
    reading it is a fault, and the functions then return [None].  An element has an
    address, by which it is unlinked.

    The theorems show that no operation faults, and that the operations are those of
    a finite map from keys to elements, whatever the state of the move. *)

From S2P Require Import Prelude.

(** What a table needs to know of its elements. *)
Class Hashed (E K : Type) := {
  lh_addr : E → positive;
  lh_key : E → K;
  lh_hash : K → Z;
  lh_hash_range k : is_u32 (lh_hash k);
  lh_key_dec : EqDecision K
}.
#[export] Existing Instance lh_key_dec.

Record lhtab (E : Type) := mk_lhtab {
  hashtab : gmap Z (list E); rehashpos : Z; hashsize : Z; hashelem : Z }.
Arguments mk_lhtab {E} _ _ _ _.
Arguments hashtab {E} _. Arguments rehashpos {E} _. Arguments hashsize {E} _. Arguments hashelem {E} _.

Section linhash.
Context {E K : Type} `{HH : Hashed E K}.
(** [HASHTAB_LOBITS], [HASHTAB_MOVEFACTOR] and the number of elements the table is
    sized for when it gets its first one ([HASHTAB_SIZEHINT]). *)
Variable LOBITS MOVEFACTOR sizehint : Z.

Definition LOSIZE : Z := Z.shiftl 1 LOBITS.
Definition HISIZE : Z := Z.shiftr 0x80000000 LOBITS.

Definition ehash (e : E) : Z := lh_hash (lh_key e).

(** [_cmp]. *)
Definition cmp (e : E) (k : K) : bool := bool_decide (lh_key e = k).

(** The loop over the bits of a 32-bit number, which has at most 32 turns. *)
Fixpoint calc_hash_size_loop (fuel : nat) (elements res : Z) : option Z :=
  match fuel with
  | O => None
  | S fuel =>
      if elements =? 0 then Some res
      else calc_hash_size_loop fuel (Z.shiftr elements 1) (u32 (Z.shiftl res 1))
  end.

Definition calc_hash_size (elements : Z) : option Z :=
  res ← calc_hash_size_loop 33 elements 1;
  let res := if res =? 0 then 0x80000000 else res in
  Some (if res <? LOSIZE then LOSIZE else res).

Definition hash_init : lhtab E := mk_lhtab ∅ 0 0 0.

(** The walk along a chain of the lower half: the elements that stay and those that
    are appended to the chain of the upper half. *)
Fixpoint move_chain (mask pos : Z) (chain : list E) : list E * list E :=
  match chain with
  | [] => ([], [])
  | e :: rest =>
      let '(stay, moved) := move_chain mask pos rest in
      if Z.land (ehash e) mask =? pos then (stay, e :: moved) else (e :: stay, moved)
  end.

(** The [do ... while] loop, [fuel] bounding the number of chains left to move. *)
Fixpoint hash_move_loop (fuel : nat) (moved : Z) (t : lhtab E) : option (lhtab E) :=
  match fuel with
  | O => None
  | S fuel =>
      if hashsize t <=? rehashpos t then
        Some (mk_lhtab (hashtab t) (hashsize t) (hashsize t) (hashelem t))
      else
        let pos := rehashpos t in
        let lo := pos - hashsize t / 2 in
        chain ← hashtab t !! lo;
        let '(stay, up) := move_chain (hashsize t - 1) pos chain in
        let t := mk_lhtab (<[pos := up]> (<[lo := stay]> (hashtab t))) (pos + 1) (hashsize t) (hashelem t) in
        let moved := u32 (moved + Z.of_nat (length chain)) in
        if moved <? MOVEFACTOR then hash_move_loop fuel moved t else Some t
  end.

Definition hash_move (t : lhtab E) : option (lhtab E) :=
  hash_move_loop (S (Z.to_nat (hashsize t - rehashpos t))) 0 t.

(** The common start of the operations: some chains are moved, and the position of
    the hash value is found. *)
Definition locate (hashval : Z) (t : lhtab E) : option (lhtab E * Z) :=
  let hash := Z.land hashval (hashsize t - 1) in
  if rehashpos t <? hashsize t then
    t' ← hash_move t;
    Some (t', if rehashpos t' <=? hash then hash - hashsize t' / 2 else hash)
  else Some (t, hash).

Definition hash_find (k : K) (t : lhtab E) : option (lhtab E * option E) :=
  if hashsize t =? 0 then Some (t, None)
  else
    '(t, hash) ← locate (lh_hash k) t;
    chain ← hashtab t !! hash;
    Some (t, List.find (λ e, cmp e k) chain).

Fixpoint unlink (a : positive) (chain : list E) : option (list E) :=
  match chain with
  | [] => None
  | e :: rest =>
      if bool_decide (lh_addr e = a) then Some rest
      else rest' ← unlink a rest; Some (e :: rest')
  end.

Definition hash_delete (e : E) (t : lhtab E) : option (lhtab E * bool) :=
  if hashsize t =? 0 then Some (t, false)
  else
    '(t, hash) ← locate (ehash e) t;
    chain ← hashtab t !! hash;
    match unlink (lh_addr e) chain with
    | Some chain' =>
        Some (mk_lhtab (<[hash := chain']> (hashtab t)) (rehashpos t) (hashsize t) (u32 (hashelem t - 1)), true)
    | None => Some (t, false)
    end.

(** The size doubles; the chains of the upper half are filled by the moves to come. *)
Definition hash_rehash (t : lhtab E) : lhtab E :=
  mk_lhtab (hashtab t) (hashsize t) (u32 (hashsize t * 2)) (hashelem t).

(** The positions [0 .. size-1], empty. *)
Definition fresh_slots (size : Z) : gmap Z (list E) :=
  list_to_map ((λ i, (Z.of_nat i, [])) <$> seq 0 (Z.to_nat size)).

(** The end of an insertion. *)
Definition add_at (e : E) (hash : Z) (t : lhtab E) : option (lhtab E) :=
  chain ← hashtab t !! hash;
  Some (mk_lhtab (<[hash := e :: chain]> (hashtab t)) (rehashpos t) (hashsize t) (u32 (hashelem t + 1))).

Definition hash_add (e : E) (t : lhtab E) : option (lhtab E) :=
  t ← (if hashsize t =? 0 then
         size ← calc_hash_size sizehint;
         Some (mk_lhtab (fresh_slots size) size size 0)
       else Some t);
  if rehashpos t <? hashsize t then
    '(t, hash) ← locate (ehash e) t; add_at e hash t
  else
    t ← add_at e (Z.land (ehash e) (hashsize t - 1)) t;
    if (hashsize t <? hashelem t) && (Z.shiftr (hashsize t) LOBITS <? HISIZE)
    then Some (hash_rehash t)
    else Some t.

(** [_hash_cleanup] stops the program when an element is left. *)
Definition hash_cleanup (t : lhtab E) : option (lhtab E) :=
  if forallb (λ slot, match slot.2 with [] => true | _ => false end) (map_to_list (hashtab t))
  then Some hash_init else None.

(** ** The invariant *)

Hypothesis HLO : 0 ≤ LOBITS ≤ 31.

(** The position of a hash value, chains from [rehashpos] on being still in the
    lower half. *)
Definition place (t : lhtab E) (h : Z) : Z :=
  let hash := Z.land h (hashsize t - 1) in
  if rehashpos t <=? hash then hash - hashsize t / 2 else hash.

(** The elements of a table. *)
Definition has (t : lhtab E) (e : E) : Prop := ∃ p chain, hashtab t !! p = Some chain ∧ e ∈ chain.

Record lh_ok (t : lhtab E) : Prop := {
  lh_pow : ∃ k, LOBITS ≤ k ≤ 31 ∧ hashsize t = 2 ^ k;
  lh_pos : hashsize t / 2 ≤ rehashpos t ≤ hashsize t;
  lh_two : rehashpos t < hashsize t → 2 ≤ hashsize t;
  lh_dom : ∀ p, is_Some (hashtab t !! p) ↔ 0 ≤ p < rehashpos t;
  lh_place : ∀ p chain e, hashtab t !! p = Some chain → e ∈ chain → place t (ehash e) = p;
  lh_nodup : ∀ p chain, hashtab t !! p = Some chain → NoDup (lh_key <$> chain);
  lh_addrs : ∀ e e', has t e → has t e' → lh_addr e = lh_addr e' → e = e' }.

(** A table is not allocated yet, or well formed. *)
Definition lh_inv (t : lhtab E) : Prop := (hashsize t = 0 ∧ hashtab t = ∅) ∨ lh_ok t.

Lemma hashsize_half t : lh_ok t → rehashpos t < hashsize t → hashsize t = 2 * (hashsize t / 2) ∧ 0 < hashsize t / 2.
Proof.
  intros Hok Hlt. pose proof (lh_two _ Hok Hlt) as Htwo.
  destruct (lh_pow _ Hok) as (k' & Hk' & Heq). rewrite Heq in Htwo |- *.
  destruct (Z.eq_dec k' 0) as [->|]; [lia|].
  replace k' with (Z.succ (k' - 1)) by lia. rewrite Z.pow_succ_r by lia.
  rewrite (Z.mul_comm 2), Z.div_mul by lia. split; [lia|]. apply Z.pow_pos_nonneg; lia.
Qed.

Lemma hash_range t h : lh_ok t → 0 ≤ Z.land h (hashsize t - 1) < hashsize t.
Proof.
  intros Hok. destruct (lh_pow _ Hok) as (k & Hk & ->).
  replace (2 ^ k - 1) with (Z.ones k) by (rewrite Z.ones_equiv; lia).
  rewrite Z.land_ones by lia. apply Z.mod_pos_bound. apply Z.pow_pos_nonneg; lia.
Qed.

Lemma place_range t h : lh_ok t → 0 ≤ place t h < rehashpos t.
Proof.
  intros Hok. pose proof (hash_range t h Hok). pose proof (lh_pos _ Hok). unfold place. cbv zeta. case_if; [|lia].
  destruct (hashsize_half t Hok); lia.
Qed.

Lemma place_Some t h : lh_ok t → ∃ chain, hashtab t !! place t h = Some chain.
Proof. intros Hok. apply (lh_dom _ Hok). by apply place_range. Qed.

Lemma has_place t e : lh_ok t → has t e ↔ ∃ chain, hashtab t !! place t (ehash e) = Some chain ∧ e ∈ chain.
Proof.
  intros Hok. split; [|intros (c & ? & ?); by exists (place t (ehash e)), c].
  intros (p & c & Hc & He). exists c. by rewrite (lh_place _ Hok _ _ _ Hc He).
Qed.

(** ** Moving *)

Lemma move_chain_spec mask pos chain :
  let '(stay, moved) := move_chain mask pos chain in
  stay `sublist_of` chain ∧ moved `sublist_of` chain ∧
  (∀ e, e ∈ chain ↔ e ∈ stay ∨ e ∈ moved) ∧
  (∀ e, e ∈ stay → Z.land (ehash e) mask ≠ pos) ∧ (∀ e, e ∈ moved → Z.land (ehash e) mask = pos).
Proof.
  induction chain as [|e chain IH]; simpl.
  { split; [done|]. split; [done|]. split; [|split]; intros e; rewrite ?elem_of_nil; tauto. }
  destruct (move_chain mask pos chain) as [stay moved]. destruct IH as (Hs & Hm & Hall & Hst & Hmo).
  case_if; (split; [by constructor|]; split; [by constructor|]; split; [|split]; intros e');
    rewrite ?elem_of_cons, ?Hall; naive_solver.
Qed.

(** One turn of the loop. *)
Lemma move_step t chain stay up :
  lh_ok t → rehashpos t < hashsize t →
  hashtab t !! (rehashpos t - hashsize t / 2) = Some chain →
  move_chain (hashsize t - 1) (rehashpos t) chain = (stay, up) →
  let t' := mk_lhtab (<[rehashpos t := up]> (<[rehashpos t - hashsize t / 2 := stay]> (hashtab t)))
              (rehashpos t + 1) (hashsize t) (hashelem t) in
  lh_ok t' ∧ ∀ e, has t' e ↔ has t e.
Proof.
  intros Hok Hlt Hc Hm t'. pose proof (move_chain_spec (hashsize t - 1) (rehashpos t) chain) as Hspec.
  rewrite Hm in Hspec. destruct Hspec as (Hstay & Hup & Hall & Hst & Hmo).
  destruct (hashsize_half t Hok Hlt) as [Hsz Hh]. pose proof (lh_pos _ Hok) as Hpos.
  set (pos := rehashpos t) in *. set (lo := pos - hashsize t / 2) in *.
  assert (∀ p, hashtab t' !! p = if decide (p = pos) then Some up else if decide (p = lo) then Some stay else hashtab t !! p) as Hlk.
  { intros p. subst t'; cbn [hashtab]. destruct (decide (p = pos)) as [->|]; [by rewrite lookup_insert_eq|].
    rewrite lookup_insert_ne by done. destruct (decide (p = lo)) as [->|]; [by rewrite lookup_insert_eq|].
    by rewrite lookup_insert_ne. }
  assert (hashtab t !! pos = None) as Hnone.
  { apply eq_None_not_Some. rewrite (lh_dom _ Hok). fold pos. lia. }
  assert (∀ p c e, hashtab t' !! p = Some c → e ∈ c → has t e ∧ place t' (ehash e) = p) as Hel.
  { intros p c e Hp He. rewrite Hlk in Hp. unfold place. subst t'; cbn [rehashpos hashsize].
    assert (place t (ehash e) = lo → e ∈ chain → Z.land (ehash e) (hashsize t - 1) = lo ∨ Z.land (ehash e) (hashsize t - 1) = pos) as Hcase.
    { unfold place. fold pos. case_if; intros; lia. }
    repeat case_decide.
    - injection Hp as <-. subst p. assert (e ∈ chain) as Hin by (apply Hall; by right).
      split; [by exists lo, chain|]. rewrite (Hmo _ He). case_if; lia.
    - injection Hp as <-. subst p. assert (e ∈ chain) as Hin by (apply Hall; by left).
      split; [by exists lo, chain|]. destruct (Hcase (lh_place _ Hok _ _ _ Hc Hin) Hin) as [Heq|Heq].
      + rewrite Heq. case_if; lia.
      + by destruct (Hst _ He).
    - split; [by exists p, c|]. pose proof (lh_place _ Hok _ _ _ Hp He) as Hpl. unfold place in Hpl. fold pos in Hpl.
      revert Hpl. repeat case_if; intros; lia. }
  assert (∀ e, has t' e ↔ has t e) as Hhas.
  { intros e. split; [intros (p & c & Hp & He); by eapply Hel|]. intros (p & c & Hp & He).
    destruct (decide (p = lo)) as [->|Hne].
    - rewrite Hc in Hp. injection Hp as <-. apply Hall in He as [He|He].
      + exists lo, stay. rewrite Hlk, decide_False, decide_True by lia. done.
      + exists pos, up. by rewrite Hlk, decide_True.
    - exists p, c. rewrite Hlk, decide_False, decide_False by congruence. done. }
  split; [|exact Hhas]. split.
  - apply Hok.
  - subst t'; cbn. fold pos. lia.
  - intros _. subst t'; cbn. lia.
  - intros p. rewrite Hlk. subst t'; cbn [rehashpos]. fold pos. repeat case_decide; [split; [lia|eauto]|split; [lia|eauto]|].
    rewrite (lh_dom _ Hok). fold pos. lia.
  - intros p c e Hp He. by eapply Hel.
  - intros p c Hp. rewrite Hlk in Hp. repeat case_decide; [injection Hp as <-..|by eapply (lh_nodup _ Hok)].
    + eapply sublist_NoDup; [by eapply (lh_nodup _ Hok)|]. by apply fmap_sublist.
    + eapply sublist_NoDup; [by eapply (lh_nodup _ Hok)|]. by apply fmap_sublist.
  - intros e e' He%Hhas He'%Hhas. by apply (lh_addrs _ Hok).
Qed.

(** What the moving of chains keeps. *)
Definition same_elements (t t' : lhtab E) : Prop :=
  hashsize t' = hashsize t ∧ hashelem t' = hashelem t ∧ ∀ e, has t' e ↔ has t e.

Lemma hash_move_loop_ok fuel moved t :
  lh_ok t → hashsize t - rehashpos t < Z.of_nat fuel →
  ∃ t', hash_move_loop fuel moved t = Some t' ∧ lh_ok t' ∧ same_elements t t'.
Proof.
  revert moved t. induction fuel as [|fuel IH]; intros moved t Hok Hfuel.
  { pose proof (lh_pos _ Hok). lia. }
  cbn [hash_move_loop]. case_if.
  - pose proof (lh_pos _ Hok). destruct t as [tab pos size elem]; cbn [hashtab rehashpos hashsize hashelem] in *.
    assert (size = pos) as -> by lia. by eexists.
  - destruct (hashsize_half t Hok) as [Hsz Hh]; [done|]. pose proof (lh_pos _ Hok).
    assert (is_Some (hashtab t !! (rehashpos t - hashsize t / 2))) as [chain Hc] by (apply (lh_dom _ Hok); lia).
    rewrite Hc. cbn [mbind option_bind]. destruct (move_chain _ _ chain) as [stay up] eqn:Hm.
    destruct (move_step t chain stay up Hok ltac:(done) Hc Hm) as [Hok' Hhas]. set (t' := mk_lhtab _ _ _ _) in *.
    case_if; [|by exists t'].
    destruct (IH (u32 (moved + Z.of_nat (length chain))) t' Hok') as (t2 & -> & Hok2 & Hs & He & Hh2); [simpl; lia|].
    exists t2. split; [done|]. split; [done|]. split; [by rewrite Hs|]. split; [by rewrite He|].
    intros e. by rewrite Hh2, Hhas.
Qed.

Lemma locate_ok h t :
  lh_ok t → ∃ t', locate h t = Some (t', place t' h) ∧ lh_ok t' ∧ same_elements t t'.
Proof.
  intros Hok. unfold locate. case_if.
  - unfold hash_move. destruct (hash_move_loop_ok (S (Z.to_nat (hashsize t - rehashpos t))) 0 t Hok)
      as (t' & -> & Hok' & Hsame); [lia|]. exists t'. split; [|done]. cbn [mbind option_bind].
    unfold place. by rewrite (proj1 Hsame).
  - exists t. split; [|done]. unfold place. pose proof (hash_range t h Hok). case_if; [lia|done].
Qed.

(** ** The size of a new table *)

(** The number of bits of a number. *)
Definition bits (n : Z) : Z := if n =? 0 then 0 else Z.log2 n + 1.

Lemma bits_shift n : 0 < n → bits n = bits (Z.shiftr n 1) + 1.
Proof.
  intros Hn. unfold bits. destruct (Z.eqb_spec n 0); [lia|]. rewrite Z.log2_shiftr by lia.
  pose proof (Z.log2_nonneg n). rewrite Z.shiftr_div_pow2, Z.pow_1_r by lia.
  destruct (Z.eqb_spec (n / 2) 0) as [H0|H0].
  - assert (n = 1) as -> by (Z.to_euclidean_division_equations; lia). done.
  - destruct (Z.eq_dec (Z.log2 n) 0) as [Hl|]; [|lia]. exfalso.
    assert (n < 2) by (apply Z.log2_lt_cancel; simpl; lia). assert (n = 1) as -> by lia. done.
Qed.

Lemma calc_loop_ok fuel n res :
  0 ≤ n → bits n < Z.of_nat fuel →
  calc_hash_size_loop fuel n res = Some (if n =? 0 then res else u32 (res * 2 ^ bits n)).
Proof.
  revert n res. induction fuel as [|fuel IH]; intros n res Hn Hfuel.
  { unfold bits in Hfuel. case_if_in Hfuel; [lia|]. pose proof (Z.log2_nonneg n). lia. }
  cbn [calc_hash_size_loop]. destruct (Z.eqb_spec n 0); [done|].
  rewrite bits_shift in Hfuel |- * by lia. assert (0 ≤ Z.shiftr n 1) as Hs by (by apply Z.shiftr_nonneg).
  rewrite IH by lia. f_equal. rewrite Z.shiftl_mul_pow2 by lia.
  assert (0 ≤ bits (Z.shiftr n 1)) by (unfold bits; case_if; [lia|]; pose proof (Z.log2_nonneg (Z.shiftr n 1)); lia).
  rewrite Z.pow_add_r, Z.pow_1_r by lia. unfold u32.
  destruct (Z.eqb_spec (Z.shiftr n 1) 0) as [->|]; [by rewrite Z.mul_1_l|].
  rewrite Z.mul_mod_idemp_l by lia. f_equal. lia.
Qed.

Lemma bits_u32 n : is_u32 n → 0 ≤ bits n ≤ 32.
Proof.
  intros Hn. unfold is_u32 in Hn. unfold bits. case_if; [lia|]. pose proof (Z.log2_nonneg n).
  assert (Z.log2 n < 32) by (apply Z.log2_lt_pow2; lia). lia.
Qed.

(** The loop ends, and the size is the next power of two, between the size of a page
    and [2^31]. *)
Lemma calc_hash_size_ok n :
  is_u32 n → calc_hash_size n = Some (Z.max (2 ^ LOBITS) (2 ^ Z.min 31 (bits n))).
Proof.
  intros Hn. pose proof (bits_u32 n Hn) as Hb. unfold calc_hash_size.
  rewrite calc_loop_ok by (unfold is_u32 in Hn; lia). cbn [mbind option_bind]. unfold LOSIZE. rewrite Z.shiftl_1_l.
  assert ((if (if n =? 0 then 1 else u32 (1 * 2 ^ bits n)) =? 0 then 2147483648
           else if n =? 0 then 1 else u32 (1 * 2 ^ bits n)) = 2 ^ Z.min 31 (bits n)) as ->.
  { destruct (Z.eqb_spec n 0) as [->|Hn0]; [done|]. rewrite Z.mul_1_l. unfold u32.
    destruct (Z.eq_dec (bits n) 32) as [->|]; [done|].
    assert (2 ^ bits n < 2 ^ 32) by (apply Z.pow_lt_mono_r; lia). assert (0 < 2 ^ bits n) by (apply Z.pow_pos_nonneg; lia).
    rewrite Z.mod_small by lia. rewrite Z.min_r by lia. case_if; lia. }
  f_equal. case_if; lia.
Qed.

(** ** Search, insertion and removal *)

Lemma find_elem chain e :
  NoDup (lh_key <$> chain) → e ∈ chain → List.find (λ e', cmp e' (lh_key e)) chain = Some e.
Proof.
  unfold cmp. induction chain as [|e' chain IH]; csimpl; intros Hnd Hin; [by apply elem_of_nil in Hin|].
  apply NoDup_cons in Hnd as [Hni Hnd]. apply elem_of_cons in Hin as [->|Hin]; [by rewrite bool_decide_eq_true_2|].
  rewrite bool_decide_eq_false_2; [auto|]. intros Heq. apply Hni. apply list_elem_of_fmap. by exists e.
Qed.

Lemma same_elements_refl t : same_elements t t.
Proof. done. Qed.

(** Elements of equal keys are one. *)
Lemma has_key t e e' : lh_ok t → has t e → has t e' → lh_key e = lh_key e' → e = e'.
Proof.
  intros Hok He He' Hk. apply (has_place t e Hok) in He as (c & Hc & Hin).
  apply (has_place t e' Hok) in He' as (c' & Hc' & Hin'). unfold ehash in *. rewrite Hk, Hc' in Hc. injection Hc as ->.
  pose proof (find_elem c e (lh_nodup _ Hok _ _ Hc') Hin) as H1. rewrite Hk in H1.
  rewrite (find_elem c e' (lh_nodup _ Hok _ _ Hc') Hin') in H1. congruence.
Qed.

Lemma find_ok k t :
  lh_inv t →
  ∃ t' r, hash_find k t = Some (t', r) ∧ lh_inv t' ∧ same_elements t t' ∧
    ∀ e, r = Some e ↔ has t e ∧ lh_key e = k.
Proof.
  intros [[Hz Hemp]|Hok]; unfold hash_find.
  - rewrite Hz. simpl. exists t, None. split; [done|]. split; [by left|]. split; [done|].
    intros e. split; [done|]. intros ((p & c & Hp & _) & _). by rewrite Hemp, lookup_empty in Hp.
  - assert (hashsize t ≠ 0) as Hnz.
    { destruct (lh_pow _ Hok) as (j & Hj & ->). pose proof (Z.pow_pos_nonneg 2 j). lia. }
    destruct (Z.eqb_spec (hashsize t) 0); [done|].
    destruct (locate_ok (lh_hash k) t Hok) as (t' & -> & Hok' & Hsame). cbn [mbind option_bind].
    destruct (place_Some t' (lh_hash k) Hok') as [chain Hc]. rewrite Hc. cbn [mbind option_bind].
    eexists _, _. split; [done|]. split; [by right|]. split; [done|]. intros e.
    rewrite <-(proj2 (proj2 Hsame)), (has_place t' e Hok'). split.
    + intros [Hin Hcmp]%find_some. apply bool_decide_eq_true in Hcmp. split; [|done]. exists chain.
      unfold ehash. rewrite Hcmp. split; [done|]. by apply list_elem_of_In.
    + intros ((c & Hc' & Hin) & Hk). unfold ehash in Hc'. rewrite Hk, Hc in Hc'. injection Hc' as ->.
      subst k. apply find_elem; [|done]. by eapply (lh_nodup _ Hok').
Qed.

Lemma has_insert t p chain elem e0 :
  hashtab t !! p = Some chain →
  (∀ e, has (mk_lhtab (<[p := e0]> (hashtab t)) (rehashpos t) (hashsize t) elem) e ↔
     e ∈ e0 ∨ ∃ p' c, p' ≠ p ∧ hashtab t !! p' = Some c ∧ e ∈ c).
Proof.
  intros Hp e. unfold has. cbn [hashtab]. split.
  - intros (p' & c & Hc & He). apply lookup_insert_Some in Hc as [[<- <-]|[? Hc]]; [by left|right; eauto].
  - intros [He|(p' & c & Hne & Hc & He)]; [exists p, e0|exists p', c]; (split; [|done]).
    + by rewrite lookup_insert_eq.
    + by rewrite lookup_insert_ne.
Qed.

(** Replacing the chain at one position by one whose elements belong there. *)
Lemma lh_ok_replace t p chain chain' elem :
  lh_ok t → hashtab t !! p = Some chain →
  (∀ e, e ∈ chain' → place t (ehash e) = p) → NoDup (lh_key <$> chain') →
  let t' := mk_lhtab (<[p := chain']> (hashtab t)) (rehashpos t) (hashsize t) elem in
  (∀ e e', has t' e → has t' e' → lh_addr e = lh_addr e' → e = e') → lh_ok t'.
Proof.
  intros Hok Hp Hpl Hnd t' Haddr. split; try apply Hok; try done.
  - intros q. subst t'; cbn [hashtab rehashpos]. rewrite <-(lh_dom _ Hok q).
    destruct (decide (q = p)) as [->|]; [|by rewrite lookup_insert_ne].
    rewrite lookup_insert_eq, Hp. by split; eauto.
  - intros q c e Hq He. subst t'; cbn [hashtab] in Hq. change (place t (ehash e) = q).
    apply lookup_insert_Some in Hq as [[<- <-]|[_ Hq]]; [auto|by eapply (lh_place _ Hok)].
  - intros q c Hq. subst t'; cbn [hashtab] in Hq.
    apply lookup_insert_Some in Hq as [[_ <-]|[_ Hq]]; [done|by eapply (lh_nodup _ Hok)].
Qed.

Lemma unlink_spec a chain :
  match unlink a chain with
  | Some chain' => ∃ l e r, chain = l ++ e :: r ∧ chain' = l ++ r ∧ lh_addr e = a
  | None => ∀ e, e ∈ chain → lh_addr e ≠ a
  end.
Proof.
  induction chain as [|e chain IH]; simpl; [by intros ? ?%elem_of_nil|]. case_if; [by exists [], e, chain|].
  destruct (unlink a chain) as [c|]; simpl.
  - destruct IH as (l & e' & r & -> & -> & ?). by exists (e :: l), e', r.
  - intros e' [->|?]%elem_of_cons; auto.
Qed.

Lemma delete_ok e t :
  lh_inv t → has t e →
  ∃ t', hash_delete e t = Some (t', true) ∧ lh_inv t' ∧ ∀ e', has t' e' ↔ has t e' ∧ e' ≠ e.
Proof.
  intros [[Hz Hemp]|Hok] He.
  { destruct He as (p & c & Hp & _). by rewrite Hemp, lookup_empty in Hp. }
  unfold hash_delete. destruct (Z.eqb_spec (hashsize t) 0) as [Hz|_].
  { destruct (lh_pow _ Hok) as (j & Hj & Heq). pose proof (Z.pow_pos_nonneg 2 j). lia. }
  destruct (locate_ok (ehash e) t Hok) as (t1 & -> & Hok1 & (_ & _ & Hsame)). cbn [mbind option_bind].
  apply Hsame in He as He1. destruct (proj1 (has_place t1 e Hok1) He1) as (chain & Hc & Hin).
  rewrite Hc. cbn [mbind option_bind]. pose proof (unlink_spec (lh_addr e) chain) as Hun.
  destruct (unlink (lh_addr e) chain) as [chain'|]; [|by destruct (Hun e)].
  destruct Hun as (l & e' & r & -> & -> & Ha).
  assert (e' = e) as ->.
  { apply (lh_addrs _ Hok1); [|done|done]. eexists _, _. split; [exact Hc|]. apply elem_of_app. right. constructor. }
  eexists. split; [done|]. set (t2 := mk_lhtab _ _ _ _). pose proof (lh_nodup _ Hok1 _ _ Hc) as Hnd.
  assert (∀ e', has t2 e' ↔ has t e' ∧ e' ≠ e) as Hhas.
  { intros e'. unfold t2. rewrite (has_insert t1 _ _ _ _ Hc), <-Hsame. unfold has. split.
    - intros [Hin'|(p & c & Hne & Hp & Hin')].
      + split; [exists (place t1 (ehash e)), (l ++ e :: r); split; [done|]|].
        * rewrite elem_of_app in *. rewrite elem_of_cons. tauto.
        * intros ->. rewrite fmap_app, fmap_cons in Hnd. apply NoDup_app in Hnd as (_ & Hdis & Hnd).
          apply NoDup_cons in Hnd as [Hni _]. apply elem_of_app in Hin' as [Hin'|Hin'].
          -- apply (Hdis (lh_key e)); [by apply list_elem_of_fmap_2|constructor].
          -- apply Hni. by apply list_elem_of_fmap_2.
      + split; [by exists p, c|]. intros ->. apply Hne. symmetry. by eapply (lh_place _ Hok1).
    - intros [(p & c & Hp & Hin') Hne]. destruct (decide (p = place t1 (ehash e))) as [->|]; [left|right; by exists p, c].
      rewrite Hc in Hp. injection Hp as <-. rewrite elem_of_app, elem_of_cons in Hin'. rewrite elem_of_app. naive_solver. }
  split; [|exact Hhas]. right. apply lh_ok_replace with (l ++ e :: r); [done|done|..].
  - intros e' Hin'. eapply (lh_place _ Hok1); [exact Hc|]. rewrite elem_of_app in *. rewrite elem_of_cons. tauto.
  - eapply sublist_NoDup; [exact Hnd|]. apply fmap_sublist. by apply sublist_app, sublist_cons.
  - intros e1 e2 [H1%Hsame _]%Hhas [H2%Hsame _]%Hhas. by apply (lh_addrs _ Hok1).
Qed.

Lemma add_at_ok e t :
  lh_ok t → (∀ e', has t e' → lh_key e' ≠ lh_key e ∧ lh_addr e' ≠ lh_addr e) →
  ∃ t', add_at e (place t (ehash e)) t = Some t' ∧ lh_ok t' ∧ (∀ e', has t' e' ↔ e' = e ∨ has t e') ∧
    hashsize t' = hashsize t ∧ rehashpos t' = rehashpos t.
Proof.
  intros Hok Hnew. unfold add_at. destruct (place_Some t (ehash e) Hok) as [chain Hc]. rewrite Hc.
  cbn [mbind option_bind]. eexists. split; [done|]. set (t' := mk_lhtab _ _ _ _).
  assert (∀ e', has t' e' ↔ e' = e ∨ has t e') as Hhas.
  { intros e'. unfold t'. rewrite (has_insert t _ _ _ _ Hc), elem_of_cons. unfold has. split.
    - intros [[?|?]|(p & c & _ & ? & ?)]; [by left|right; eauto..].
    - intros [?|(p & c & Hp & He)]; [by left; left|]. destruct (decide (p = place t (ehash e))) as [->|].
      + rewrite Hc in Hp. injection Hp as <-. left. by right.
      + right. by exists p, c. }
  split; [|done]. apply lh_ok_replace with chain; [done|done|..].
  - intros e' [->|Hin]%elem_of_cons; [done|]. by eapply (lh_place _ Hok).
  - csimpl. apply NoDup_cons. split; [|by eapply (lh_nodup _ Hok)].
    intros (e' & Hk & Hin)%list_elem_of_fmap. destruct (Hnew e') as [Hne _]; [by eexists _, _|congruence].
  - intros e1 e2 [->|H1]%Hhas [->|H2]%Hhas Ha; [done|by destruct (Hnew e2 H2)|by destruct (Hnew e1 H1)|].
    by apply (lh_addrs _ Hok).
Qed.

Lemma fresh_lookup size p : 0 ≤ size → fresh_slots size !! p = if decide (0 ≤ p < size) then Some [] else None.
Proof.
  intros Hs. unfold fresh_slots. case_decide as Hp.
  - apply elem_of_list_to_map_1.
    + rewrite <-list_fmap_compose. apply NoDup_fmap_2; [intros ?? H; simpl in H; lia|apply NoDup_seq].
    + apply list_elem_of_fmap. exists (Z.to_nat p). split; [f_equal; lia|]. apply elem_of_seq. lia.
  - apply not_elem_of_list_to_map_1. rewrite <-list_fmap_compose. intros (i & -> & Hi%elem_of_seq)%list_elem_of_fmap.
    simpl in Hp. lia.
Qed.

Lemma fresh_ok size k elem :
  LOBITS ≤ k ≤ 31 → size = 2 ^ k →
  lh_ok (mk_lhtab (fresh_slots size) size size elem) ∧ ∀ e, ¬ has (mk_lhtab (fresh_slots size) size size elem) e.
Proof.
  intros Hk Hs. assert (0 < size) as Hpos by (subst; apply Z.pow_pos_nonneg; lia).
  assert (∀ p c, fresh_slots size !! p = Some c → c = []) as Hnil.
  { intros p c. rewrite fresh_lookup by lia. case_decide; congruence. }
  assert (∀ e, ¬ has (mk_lhtab (fresh_slots size) size size elem) e) as Hno.
  { intros e (p & c & ->%Hnil & Hin). by apply elem_of_nil in Hin. }
  split; [|done]. split; cbn [hashtab rehashpos hashsize].
  - by exists k.
  - split; [|done]. apply Z.div_le_upper_bound; lia.
  - lia.
  - intros p. rewrite fresh_lookup by lia. case_decide; split; try done; intros []; done || lia.
  - intros p c e ->%Hnil Hin. by apply elem_of_nil in Hin.
  - intros p c ->%Hnil. constructor.
  - intros e e' He. by apply Hno in He.
Qed.

Lemma land_pow2 h k : 0 ≤ k → Z.land h (2 ^ k - 1) = h `mod` 2 ^ k.
Proof. intros Hk. replace (2 ^ k - 1) with (Z.ones k) by (rewrite Z.ones_equiv; lia). by apply Z.land_ones. Qed.

(** Doubling: every chain is now one that has not been moved yet. *)
Lemma double_ok t :
  lh_ok t → rehashpos t = hashsize t → Z.shiftr (hashsize t) LOBITS < HISIZE →
  let t' := mk_lhtab (hashtab t) (hashsize t) (u32 (hashsize t * 2)) (hashelem t) in
  lh_ok t' ∧ ∀ e, has t' e ↔ has t e.
Proof.
  intros Hok Hpos Hhi t'. destruct (lh_pow _ Hok) as (k & Hk & Hs). split; [|done].
  assert (k ≠ 31) as Hk31.
  { intros ->. rewrite Hs in Hhi. unfold HISIZE in Hhi. change (2 ^ 31) with 0x80000000 in Hhi. lia. }
  assert (u32 (hashsize t * 2) = 2 ^ (k + 1)) as Hd.
  { unfold u32. rewrite Hs, Z.pow_add_r, Z.pow_1_r by lia. apply Z.mod_small.
    assert (2 ^ k < 2 ^ 31) by (apply Z.pow_lt_mono_r; lia). assert (0 < 2 ^ k) by (apply Z.pow_pos_nonneg; lia). lia. }
  assert (0 < 2 ^ k) as Hp by (apply Z.pow_pos_nonneg; lia).
  assert (2 ^ (k + 1) = 2 ^ k * 2) as Hpow by (rewrite Z.pow_add_r, Z.pow_1_r by lia; done).
  split; subst t'; cbn [hashtab rehashpos hashsize].
  - exists (k + 1). split; [lia|done].
  - rewrite Hd, Hs, Hpow, Z.div_mul by lia. lia.
  - rewrite Hd, Hs, Hpow. lia.
  - intros p. rewrite (lh_dom _ Hok), Hpos. done.
  - intros p c e Hc He. rewrite <-(lh_place _ Hok _ _ _ Hc He). unfold place. cbn [hashsize rehashpos].
    rewrite Hd, Hpos, Hs, Hpow, Z.div_mul by lia. rewrite <-Hpow, !land_pow2, Hpow, Z.rem_mul_r by lia.
    pose proof (Z.mod_pos_bound (ehash e) (2 ^ k) Hp). pose proof (Z.mod_pos_bound (ehash e / 2 ^ k) 2).
    assert ((ehash e / 2 ^ k) `mod` 2 = 0 ∨ (ehash e / 2 ^ k) `mod` 2 = 1) as [Hm|Hm] by lia; rewrite Hm;
      repeat case_if; lia.
  - apply Hok.
  - intros e e' He He'. by apply (lh_addrs _ Hok).
Qed.

Lemma add_ok e t :
  is_u32 sizehint → lh_inv t → (∀ e', has t e' → lh_key e' ≠ lh_key e ∧ lh_addr e' ≠ lh_addr e) →
  ∃ t', hash_add e t = Some t' ∧ lh_inv t' ∧ ∀ e', has t' e' ↔ e' = e ∨ has t e'.
Proof.
  intros Hh Hinv Hnew. unfold hash_add.
  assert (∃ t0, (if hashsize t =? 0 then size ← calc_hash_size sizehint; Some (mk_lhtab (fresh_slots size) size size 0)
    else Some t) = Some t0 ∧ lh_ok t0 ∧ ∀ e', has t0 e' ↔ has t e') as (t0 & -> & Hok & Hsame).
  { destruct Hinv as [[Hz Hemp]|Hok].
    - rewrite Hz. cbn [Z.eqb]. rewrite calc_hash_size_ok by done. cbn [mbind option_bind].
      pose proof (bits_u32 _ Hh).
      destruct (fresh_ok (Z.max (2 ^ LOBITS) (2 ^ Z.min 31 (bits sizehint))) (Z.max LOBITS (Z.min 31 (bits sizehint))) 0)
        as [Hok Hno]; [lia| |].
      { symmetry. destruct (Z.max_spec LOBITS (Z.min 31 (bits sizehint))) as [[? ->]|[? ->]].
        - rewrite Z.max_r; [done|]. apply Z.pow_le_mono_r; lia.
        - rewrite Z.max_l; [done|]. apply Z.pow_le_mono_r; lia. }
      eexists. split; [done|]. split; [done|]. intros e'. split; [by intros ?%Hno|].
      intros (p & c & Hp & _). by rewrite Hemp, lookup_empty in Hp.
    - destruct (Z.eqb_spec (hashsize t) 0) as [Hz|_]; [|by exists t].
      destruct (lh_pow _ Hok) as (j & Hj & Heq). pose proof (Z.pow_pos_nonneg 2 j). lia. }
  cbn [mbind option_bind]. assert (∀ e', has t0 e' → lh_key e' ≠ lh_key e ∧ lh_addr e' ≠ lh_addr e) as Hnew0
    by (intros e' ?%Hsame; auto).
  case_if.
  - destruct (locate_ok (ehash e) t0 Hok) as (t1 & -> & Hok1 & (_ & _ & Hsame1)). cbn [mbind option_bind].
    destruct (add_at_ok e t1 Hok1) as (t2 & -> & Hok2 & Hhas & _); [intros e' ?%Hsame1; auto|].
    exists t2. split; [done|]. split; [by right|]. intros e'. by rewrite Hhas, Hsame1, Hsame.
  - pose proof (lh_pos _ Hok). assert (rehashpos t0 = hashsize t0) as Hpos by lia.
    assert (Z.land (ehash e) (hashsize t0 - 1) = place t0 (ehash e)) as ->.
    { pose proof (hash_range t0 (ehash e) Hok). unfold place. case_if; [lia|done]. }
    destruct (add_at_ok e t0 Hok Hnew0) as (t1 & -> & Hok1 & Hhas & Hs1 & Hp1). cbn [mbind option_bind].
    case_if; [|exists t1; split; [done|]; split; [by right|]; intros e'; by rewrite Hhas, Hsame].
    destruct (double_ok t1 Hok1) as [Hok2 Hhas2]; [congruence|done|].
    eexists. split; [done|]. split; [by right|]. intros e'. by rewrite Hhas2, Hhas, Hsame.
Qed.

Lemma hash_init_inv : lh_inv hash_init ∧ ∀ e, ¬ has hash_init e.
Proof. split; [by left|]. intros e (p & c & Hp & _). cbn in Hp. by rewrite lookup_empty in Hp. Qed.

(** ** The abstract table *)

(** The table represents a finite map from keys to elements. *)
Definition represents `{!Countable K} (t : lhtab E) (m : gmap K E) : Prop :=
  lh_inv t ∧ ∀ k e, m !! k = Some e ↔ has t e ∧ lh_key e = k.

Lemma represents_find `{!Countable K} k t m :
  represents t m → ∃ t', hash_find k t = Some (t', m !! k) ∧ represents t' m.
Proof.
  intros [Hinv Hm]. destruct (find_ok k t Hinv) as (t' & r & Hf & Hinv' & (_ & _ & Hsame) & Hr).
  exists t'. rewrite Hf. split.
  - do 2 f_equal. destruct r as [e|].
    + symmetry. apply Hm, Hr. done.
    + destruct (m !! k) as [e|] eqn:Hk; [|done]. apply Hm, Hr in Hk. done.
  - split; [done|]. intros k' e. by rewrite Hm, Hsame.
Qed.

Lemma represents_add `{!Countable K} e t m :
  is_u32 sizehint → represents t m → m !! lh_key e = None → (∀ e', has t e' → lh_addr e' ≠ lh_addr e) →
  ∃ t', hash_add e t = Some t' ∧ represents t' (<[lh_key e := e]> m).
Proof.
  intros Hh [Hinv Hm] Hno Haddr. destruct (add_ok e t Hh Hinv) as (t' & Ha & Hinv' & Hhas).
  { intros e' He'. split; [|auto]. intros Hk. assert (m !! lh_key e = Some e') by (apply Hm; auto). congruence. }
  exists t'. split; [done|]. split; [done|]. intros k e'. rewrite lookup_insert_Some, Hm, Hhas.
  split; [naive_solver|]. intros [[->|He'] <-]; [by left|right]. split; [|done].
  intros Hk. assert (m !! lh_key e = Some e') by (apply Hm; auto). congruence.
Qed.

Lemma represents_delete `{!Countable K} e t m :
  represents t m → m !! lh_key e = Some e →
  ∃ t', hash_delete e t = Some (t', true) ∧ represents t' (base.delete (lh_key e) m).
Proof.
  intros [Hinv Hm] Hlk. pose proof Hlk as [He _]%Hm. destruct (delete_ok e t Hinv He) as (t' & Hd & Hinv' & Hhas).
  exists t'. split; [done|]. split; [done|]. intros k e'. rewrite lookup_delete_Some, Hm, Hhas. split.
  - intros (Hk & He' & Hk'). split; [|done]. split; [done|]. by intros ->.
  - intros [[He' Hne] Hk']. split; [|done]. intros Hk. apply Hne.
    assert (m !! lh_key e = Some e') by (apply Hm; split; [done|congruence]). congruence.
Qed.

End linhash.

(** ** The instances

    Each table of the program, with the page size, the move factor and the size hint
    it is compiled with. *)

(** [hash32] of [hashfn.h]. *)
Definition hash32 (key : Z) : Z :=
  let key := u32 (u32 (Z.lnot key) + u32 (Z.shiftl key 15)) in
  let key := Z.lxor key (Z.shiftr key 12) in
  let key := u32 (key + u32 (Z.shiftl key 2)) in
  let key := Z.lxor key (Z.shiftr key 4) in
  let key := u32 (key * 2057) in
  Z.lxor key (Z.shiftr key 16).

Lemma lxor_shift_u32 x n : is_u32 x → 0 ≤ n → is_u32 (Z.lxor x (Z.shiftr x n)).
Proof.
  unfold is_u32. intros Hx Hn. assert (0 ≤ Z.shiftr x n ≤ x) as Hs.
  { rewrite Z.shiftr_div_pow2 by lia. split; [apply Z.div_pos; [lia|apply Z.pow_pos_nonneg; lia]|].
    apply Z.div_le_upper_bound; [apply Z.pow_pos_nonneg; lia|]. assert (0 < 2 ^ n) by (apply Z.pow_pos_nonneg; lia). nia. }
  assert (0 ≤ Z.lxor x (Z.shiftr x n)) by (apply Z.lxor_nonneg; lia). split; [done|].
  destruct (Z.eq_dec (Z.lxor x (Z.shiftr x n)) 0) as [->|]; [lia|].
  apply Z.log2_lt_pow2; [lia|]. eapply Z.le_lt_trans; [apply Z.log2_lxor; lia|].
  destruct (Z.eq_dec x 0) as [->|]; [rewrite Z.shiftr_0_l; simpl; lia|].
  apply Z.max_lub_lt; [apply Z.log2_lt_pow2; lia|].
  eapply Z.le_lt_trans; [apply Z.log2_le_mono, Hs|]. apply Z.log2_lt_pow2; lia.
Qed.

Lemma u32_range x : is_u32 (u32 x).
Proof. unfold is_u32, u32. apply Z.mod_pos_bound. lia. Qed.

Lemma hash32_range k : is_u32 (hash32 k).
Proof.
  unfold hash32. cbv zeta. apply (lxor_shift_u32 (u32 _) 16); [apply u32_range|lia].
Qed.

(** Nodes ([filesystem.c], [fsnodes_node_*]): the part of an [fsnode] the table uses. *)
Record fsnode_ref := mk_fsnode_ref { fsn_addr : positive; fsn_inode : Z }.

#[export] Program Instance fsnode_hashed : Hashed fsnode_ref Z := {|
  lh_addr := fsn_addr; lh_key := fsn_inode; lh_hash := hash32 |}.
Next Obligation. apply hash32_range. Qed.

Definition FS_LOBITS : Z := 24.
Definition FS_MOVEFACTOR : Z := 5.

Section fsnodes.
(** [hashelements], set from the configuration before the metadata are loaded. *)
Variable hashelements : Z.

Definition fsnodes_calc_hash_size : Z → option Z := calc_hash_size FS_LOBITS.
Definition fsnodes_node_hash_init : lhtab fsnode_ref := hash_init.
Definition fsnodes_node_hash_cleanup (t : lhtab fsnode_ref) : lhtab fsnode_ref := hash_init.
Definition fsnodes_node_hash_rehash : lhtab fsnode_ref → lhtab fsnode_ref := hash_rehash.
Definition fsnodes_node_hash_move : lhtab fsnode_ref → option (lhtab fsnode_ref) := hash_move FS_MOVEFACTOR.
Definition fsnodes_node_find (inode : Z) (t : lhtab fsnode_ref) : option (lhtab fsnode_ref * option fsnode_ref) :=
  hash_find FS_MOVEFACTOR inode t.
Definition fsnodes_node_delete (p : fsnode_ref) (t : lhtab fsnode_ref) : option (lhtab fsnode_ref) :=
  fst <$> hash_delete FS_MOVEFACTOR p t.
Definition fsnodes_node_add (p : fsnode_ref) (t : lhtab fsnode_ref) : option (lhtab fsnode_ref) :=
  hash_add FS_LOBITS FS_MOVEFACTOR hashelements p t.

End fsnodes.

(** Edges ([fsnodes_edge_*]): the key of an edge is its parent and its name. *)
Definition fsnodes_hash (parentid : Z) (name : list Z) : Z :=
  fold_left (λ hash c, u32 (hash * 33 + c)) name (u32 (u32 (parentid * 0x5F2318BD) + Z.of_nat (length name))).

Lemma fold_u32_range name h : is_u32 h → is_u32 (fold_left (λ hash c, u32 (hash * 33 + c)) name h).
Proof. revert h. induction name as [|c name IH]; intros h Hh; [done|]. apply IH, u32_range. Qed.

Lemma fsnodes_hash_range k : is_u32 (fsnodes_hash k.1 k.2).
Proof. apply fold_u32_range, u32_range. Qed.

Record fsedge_ref := mk_fsedge_ref { fse_addr : positive; fse_parent : Z; fse_name : list Z }.

#[export] Program Instance fsedge_hashed : Hashed fsedge_ref (Z * list Z) := {|
  lh_addr := fse_addr; lh_key e := (fse_parent e, fse_name e); lh_hash k := fsnodes_hash k.1 k.2 |}.
Next Obligation. intros k. apply fsnodes_hash_range. Qed.

Section fsedges.
Variable hashelements : Z.

Definition fsnodes_edge_hash_init : lhtab fsedge_ref := hash_init.
Definition fsnodes_edge_hash_cleanup (t : lhtab fsedge_ref) : lhtab fsedge_ref := hash_init.
Definition fsnodes_edge_hash_rehash : lhtab fsedge_ref → lhtab fsedge_ref := hash_rehash.
Definition fsnodes_edge_hash_move : lhtab fsedge_ref → option (lhtab fsedge_ref) := hash_move FS_MOVEFACTOR.
Definition fsnodes_edge_find (parent : Z) (name : list Z) (t : lhtab fsedge_ref)
    : option (lhtab fsedge_ref * option fsedge_ref) := hash_find FS_MOVEFACTOR (parent, name) t.
Definition fsnodes_edge_delete (e : fsedge_ref) (t : lhtab fsedge_ref) : option (lhtab fsedge_ref) :=
  fst <$> hash_delete FS_MOVEFACTOR e t.
Definition fsnodes_edge_add (e : fsedge_ref) (t : lhtab fsedge_ref) : option (lhtab fsedge_ref) :=
  hash_add FS_LOBITS FS_MOVEFACTOR hashelements e t.

End fsedges.

(** Chunks ([chunks.c], [chunk_hash_*]). *)
Record chunk_ref := mk_chunk_ref { ch_addr : positive; ch_chunkid : Z }.

#[export] Program Instance chunk_hashed : Hashed chunk_ref Z := {|
  lh_addr := ch_addr; lh_key := ch_chunkid; lh_hash id := hash32 (u32 id) |}.
Next Obligation. intros k. apply hash32_range. Qed.

Definition CHUNKHASH_MOVEFACTOR : Z := 5.

Definition chunk_hash_init : lhtab chunk_ref := hash_init.
Definition chunk_hash_cleanup (t : lhtab chunk_ref) : lhtab chunk_ref := hash_init.
Definition chunk_hash_rehash : lhtab chunk_ref → lhtab chunk_ref := hash_rehash.
Definition chunk_hash_move : lhtab chunk_ref → option (lhtab chunk_ref) := hash_move CHUNKHASH_MOVEFACTOR.
Definition chunk_hash_find (chunkid : Z) (t : lhtab chunk_ref) : option (lhtab chunk_ref * option chunk_ref) :=
  hash_find CHUNKHASH_MOVEFACTOR chunkid t.
Definition chunk_hash_delete (c : chunk_ref) (t : lhtab chunk_ref) : option (lhtab chunk_ref) :=
  fst <$> hash_delete CHUNKHASH_MOVEFACTOR c t.
(** The size of a new table is one page: the hint is 0. *)
Definition chunk_hash_add (c : chunk_ref) (t : lhtab chunk_ref) : option (lhtab chunk_ref) :=
  hash_add FS_LOBITS CHUNKHASH_MOVEFACTOR 0 c t.

(** Access control lists ([posixacl.c]): the table of [hash_begin.h] itself, with
    pages of [2^20] chains. *)
Record acl_ref := mk_acl_ref { ar_addr : positive; ar_inode : Z; ar_acltype : Z }.

Definition posix_acl_xxx_hash (k : Z * Z) : Z := u32 (u32 (k.1 * 0x56BF7623) + k.2).

#[export] Program Instance acl_hashed : Hashed acl_ref (Z * Z) := {|
  lh_addr := ar_addr; lh_key e := (ar_inode e, ar_acltype e); lh_hash := posix_acl_xxx_hash |}.
Next Obligation. intros k. apply u32_range. Qed.

Definition ACL_LOBITS : Z := 20.
Definition HASHTAB_MOVEFACTOR : Z := 5.

Definition posix_acl_xxx_find (inode acltype : Z) (t : lhtab acl_ref) : option (lhtab acl_ref * option acl_ref) :=
  hash_find HASHTAB_MOVEFACTOR (inode, acltype) t.
Definition posix_acl_xxx_delete (e : acl_ref) (t : lhtab acl_ref) : option (lhtab acl_ref) :=
  fst <$> hash_delete HASHTAB_MOVEFACTOR e t.
Definition posix_acl_xxx_add (e : acl_ref) (t : lhtab acl_ref) : option (lhtab acl_ref) :=
  hash_add ACL_LOBITS HASHTAB_MOVEFACTOR 0 e t.
