(* ===== verification/LinHashProps.v ===== *)
(** * The properties of the hash tables

    The tables of the nodes, the edges, the chunks and the access control lists are
    finite maps: any sequence of searches, insertions and removals, run from an empty
    table, gives the results a finite map gives, whatever chains the incremental
    doubling has still to move. *)

From S2P Require Import Prelude LinHash.

(** The three operations of a table. *)
Record table_ops (E K : Type) := mk_table_ops {
  op_find : K → lhtab E → option (lhtab E * option E);
  op_delete : E → lhtab E → option (lhtab E);
  op_add : E → lhtab E → option (lhtab E) }.
Arguments mk_table_ops {E K} _ _ _.
Arguments op_find {E K} _. Arguments op_delete {E K} _. Arguments op_add {E K} _.

Inductive table_op (E K : Type) :=
  | TFind (k : K)
  | TDelete (e : E)
  | TAdd (e : E).
Arguments TFind {E K} _. Arguments TDelete {E K} _. Arguments TAdd {E K} _.

Section run.
Context {E K : Type} `{HH : Hashed E K} `{!Countable K}.

Definition table_step (ops : table_ops E K) (op : table_op E K) (t : lhtab E) : option (lhtab E * option E) :=
  match op with
  | TFind k => op_find ops k t
  | TDelete e => t ← op_delete ops e t; Some (t, None)
  | TAdd e => t ← op_add ops e t; Some (t, None)
  end.

Fixpoint table_run (ops : table_ops E K) (l : list (table_op E K)) (t : lhtab E) : option (lhtab E * list (option E)) :=
  match l with
  | [] => Some (t, [])
  | op :: l => '(t, r) ← table_step ops op t; '(t, rs) ← table_run ops l t; Some (t, r :: rs)
  end.

(** The same operations on a map, within the rules the program follows: an element is
    added when its key is free and it is not the element of another key, and it is
    removed when it is there. *)
Definition map_step (op : table_op E K) (m : gmap K E) : option (gmap K E * option E) :=
  match op with
  | TFind k => Some (m, m !! k)
  | TDelete e =>
      e' ← m !! lh_key e;
      if bool_decide (lh_addr e' = lh_addr e) then Some (base.delete (lh_key e) m, None) else None
  | TAdd e =>
      match m !! lh_key e with
      | Some _ => None
      | None =>
          if forallb (λ x, negb (bool_decide (lh_addr x.2 = lh_addr e))) (map_to_list m)
          then Some (<[lh_key e := e]> m, None) else None
      end
  end.

Fixpoint map_run (l : list (table_op E K)) (m : gmap K E) : option (gmap K E * list (option E)) :=
  match l with
  | [] => Some (m, [])
  | op :: l => '(m, r) ← map_step op m; '(m, rs) ← map_run l m; Some (m, r :: rs)
  end.

(** A table is a finite map. *)
Definition refines_map (ops : table_ops E K) : Prop :=
  ∀ l m rs, map_run l ∅ = Some (m, rs) → ∃ t, table_run ops l hash_init = Some (t, rs).

End run.

(** ** The simulation *)

Section simulation.
Context {E K : Type} `{HH : Hashed E K} `{!Countable K}.
Variable LOBITS MOVEFACTOR sizehint : Z.
Hypothesis HLO : 0 ≤ LOBITS ≤ 31.
Hypothesis Hhint : is_u32 sizehint.

(** The operations of a table of pages of [2^LOBITS] chains. *)
Definition lin_ops : table_ops E K :=
  mk_table_ops (hash_find MOVEFACTOR) (λ e t, fst <$> hash_delete MOVEFACTOR e t) (hash_add LOBITS MOVEFACTOR sizehint).

(** A removal looks at the key and the address of an element only. *)
Lemma hash_delete_ext e e' t :
  lh_key e = lh_key e' → lh_addr e = lh_addr e' → hash_delete MOVEFACTOR e t = hash_delete MOVEFACTOR e' t.
Proof. intros Hk Ha. unfold hash_delete, ehash. by rewrite Hk, Ha. Qed.

Lemma step_refines op t m m' r :
  represents LOBITS t m → map_step op m = Some (m', r) →
  ∃ t', table_step lin_ops op t = Some (t', r) ∧ represents LOBITS t' m'.
Proof.
  intros Hrep Hstep. destruct op as [k|e|e]; cbn [table_step lin_ops op_find op_delete op_add]; cbn [map_step] in Hstep.
  - simplify_eq. eapply represents_find; eauto.
  - apply bind_Some in Hstep as (e' & He' & Hb). case_bool_decide as Ha; simplify_eq.
    assert (lh_key e' = lh_key e) as Hk by (by apply Hrep in He' as [_ ?]).
    rewrite (hash_delete_ext e e') by done. rewrite <-Hk in He' |- *.
    destruct (represents_delete LOBITS MOVEFACTOR HLO e' t m Hrep He') as (t' & -> & Hrep'). by exists t'.
  - destruct (m !! lh_key e) eqn:Hno; [done|]. destruct (forallb _ _) eqn:Hall; [|done]. simplify_eq.
    destruct (represents_add LOBITS MOVEFACTOR sizehint HLO e t m) as (t' & -> & Hrep'); [done..| |by exists t'].
    intros e' He'. assert (m !! lh_key e' = Some e') as Hl by (by apply Hrep).
    rewrite forallb_forall in Hall. specialize (Hall (lh_key e', e')).
    rewrite <-list_elem_of_In, elem_of_map_to_list in Hall. specialize (Hall Hl). cbn in Hall.
    by rewrite negb_true_iff, bool_decide_eq_false in Hall.
Qed.

Lemma run_refines l t m m' rs :
  represents LOBITS t m → map_run l m = Some (m', rs) →
  ∃ t', table_run lin_ops l t = Some (t', rs) ∧ represents LOBITS t' m'.
Proof.
  revert t m rs. induction l as [|op l IH]; intros t m rs Hrep Hrun; cbn [map_run table_run] in *.
  { simplify_eq. by exists t. }
  apply bind_Some in Hrun as ([m1 r] & Hstep & Hrun). cbn beta iota in Hrun.
  apply bind_Some in Hrun as ([m2 rs'] & Hrun & Heq). simplify_eq.
  destruct (step_refines _ _ _ _ _ Hrep Hstep) as (t1 & -> & Hrep1). cbn [mbind option_bind].
  destruct (IH _ _ _ Hrep1 Hrun) as (t2 & -> & Hrep2). by exists t2.
Qed.

Lemma lin_refines : refines_map lin_ops.
Proof.
  intros l m rs Hrun. destruct (run_refines l hash_init ∅ m rs) as (t & Ht & _); [|done|by exists t].
  destruct (hash_init_inv (E := E) LOBITS) as [Hinv Hno].
  split; [done|]. intros k e. rewrite lookup_empty. split; [done|]. by intros [?%Hno _].
Qed.

End simulation.

(** ** The tables of the program *)

Definition node_ops (hashelements : Z) : table_ops fsnode_ref Z :=
  mk_table_ops fsnodes_node_find fsnodes_node_delete (fsnodes_node_add hashelements).
Definition edge_ops (hashelements : Z) : table_ops fsedge_ref (Z * list Z) :=
  mk_table_ops (λ k, fsnodes_edge_find k.1 k.2) fsnodes_edge_delete (fsnodes_edge_add hashelements).
Definition chunk_ops : table_ops chunk_ref Z := mk_table_ops chunk_hash_find chunk_hash_delete chunk_hash_add.
Definition acl_ops : table_ops acl_ref (Z * Z) :=
  mk_table_ops (λ k, posix_acl_xxx_find k.1 k.2) posix_acl_xxx_delete posix_acl_xxx_add.

(** Operations that agree run alike. *)
Lemma refines_ext {E K : Type} `{HH : Hashed E K} `{!Countable K} (ops ops' : table_ops E K) :
  (∀ op t, table_step ops op t = table_step ops' op t) → refines_map ops' → refines_map ops.
Proof.
  intros Hext Href l m rs Hrun. destruct (Href l m rs Hrun) as (t & Ht). exists t. rewrite <-Ht. clear -Hext.
  generalize (hash_init : lhtab E). induction l as [|op l IH]; intros t0; cbn [table_run]; [done|].
  rewrite Hext. destruct (table_step ops' op t0) as [[t1 r]|]; [|done]. cbn [mbind option_bind]. by rewrite IH.
Qed.

(** C17: the hash tables of the master are finite maps. Any sequence of searches,
    removals and insertions that a finite map allows runs on a table, from the empty
    one, without touching memory that is not there, and every search gives what the map
    holds; so nothing is lost, hidden or found twice while a table doubles, one
    operation after the other moving a few chains.  This holds for the nodes and the
    edges ([filesystem.c], for every configured [hashelements]), the chunks
    ([chunks.c]) and the access control lists ([hash_begin.h]). *)
Theorem tables_refine_maps hashelements :
  is_u32 hashelements →
  refines_map (node_ops hashelements) ∧ refines_map (edge_ops hashelements) ∧
  refines_map chunk_ops ∧ refines_map acl_ops.
Proof.
  intros Hh. assert (0 ≤ FS_LOBITS ≤ 31 ∧ 0 ≤ ACL_LOBITS ≤ 31 ∧ is_u32 0) as (? & ? & ?).
  { unfold FS_LOBITS, ACL_LOBITS, is_u32. lia. }
  split_and!.
  - by apply (lin_refines FS_LOBITS FS_MOVEFACTOR hashelements).
  - apply (refines_ext _ (lin_ops FS_LOBITS FS_MOVEFACTOR hashelements)); [|by apply lin_refines].
    by intros [[]|?|?] t.
  - by apply (lin_refines FS_LOBITS CHUNKHASH_MOVEFACTOR 0).
  - apply (refines_ext _ (lin_ops ACL_LOBITS HASHTAB_MOVEFACTOR 0)); [|by apply lin_refines].
    by intros [[]|?|?] t.
Qed.

(** Two nodes are added, one is found and removed, and is not found again. *)
Lemma tables_refine_maps_witness :
  let p := mk_fsnode_ref 1 7 in
  let q := mk_fsnode_ref 2 9 in
  is_u32 100 ∧ ∃ t, table_run (node_ops 100) [TAdd p; TAdd q; TFind 7; TDelete p; TFind 7; TFind 9] hash_init =
    Some (t, [None; None; Some p; None; None; Some q]).
Proof.
  cbv zeta. assert (is_u32 100) as Hu by (unfold is_u32; lia). split; [exact Hu|].
  eapply (proj1 (tables_refine_maps 100 Hu)). vm_compute. reflexivity.
Defined.

(** The size computed for a new table is a power of two that fits the array
    of pages: at least one page, at most [2^31], larger than the number of elements it
    is meant for when that is below [2^31], and then, when it is more than one page, no
    more than twice that number. *)
Theorem calc_hash_size_spec elements :
  is_u32 elements →
  ∃ k, fsnodes_calc_hash_size elements = Some (2 ^ k) ∧ FS_LOBITS ≤ k ≤ 31 ∧
    (elements < 2 ^ 31 → elements < 2 ^ k) ∧ (k ≠ FS_LOBITS → 2 ^ k ≤ 2 * elements).
Proof.
  intros Hu. unfold fsnodes_calc_hash_size. rewrite (calc_hash_size_ok FS_LOBITS) by done.
  pose proof (bits_u32 _ Hu) as Hb. exists (Z.max FS_LOBITS (Z.min 31 (bits elements))).
  unfold FS_LOBITS in *. split; [|split; [lia|]].
  - destruct (Z.max_spec 24 (Z.min 31 (bits elements))) as [[? ->]|[? ->]]; f_equal.
    + apply Z.max_r, Z.pow_le_mono_r; lia.
    + apply Z.max_l, Z.pow_le_mono_r; lia.
  - unfold bits in *. destruct (Z.eqb_spec elements 0) as [->|Hn0]; [split; lia|]. unfold is_u32 in Hu.
    destruct (Z.log2_spec elements) as [Hl1 Hl2]; [lia|]. split.
    + intros Hlt. assert (Z.log2 elements < 31) by (apply Z.log2_lt_pow2; lia).
      eapply Z.lt_le_trans; [exact Hl2|]. apply Z.pow_le_mono_r; lia.
    + intros Hk. apply Z.le_trans with (2 ^ Z.succ (Z.log2 elements)); [apply Z.pow_le_mono_r; lia|].
      rewrite Z.pow_succ_r by apply Z.log2_nonneg. lia.
Qed.

Lemma calc_hash_size_spec_witness :
  is_u32 100000000 ∧ ∃ k, fsnodes_calc_hash_size 100000000 = Some (2 ^ k) ∧ 2 ^ k ≤ 2 * 100000000.
Proof.
  assert (is_u32 100000000) as Hu by (unfold is_u32; lia). split; [exact Hu|].
  destruct (calc_hash_size_spec 100000000 Hu) as (k & Hk & _ & _ & Hle). exists k. split; [exact Hk|].
  apply Hle. intros ->. vm_compute in Hk. discriminate.
Defined.
