(* ===== verification/PosixRanges.v ===== *)
(** * Byte ranges of one lock owner (mfsmaster/posixlocks.c, first part)

    An owner's locks on a file are a list of closed-open ranges, each with its
    type.  [posix_lock_apply_range] sets one range to a type, splitting, merging
    and dropping ranges of the list as it goes; [posix_lock_test_wlock] looks for
    a range that conflicts with a request.

    The abstract view of a list is the function that gives each byte its lock
    type.  The theorems show that the update is a pointwise update of that
    function, that it keeps the list sorted, disjoint and coalesced, and that the
    coalesced list of a function is unique. *)

From S2P Require Import Prelude MfsComm.

Record range := mk_range { r_start : Z; r_end : Z; r_type : Z }.

(** The search for an offending range: the out-parameters [*type], [*start] and
    [*end] receive the fields of the range that is returned. *)
Fixpoint posix_lock_test_wlock (r : list range) (type start end_ : Z) : option range :=
  match r with
  | [] => None
  | r0 :: rest =>
      if (type =? POSIX_LOCK_WRLCK) || (r_type r0 =? POSIX_LOCK_WRLCK) then
        if (r_start r0 <? end_) && (start <? r_end r0) then Some r0
        else posix_lock_test_wlock rest type start end_
      else posix_lock_test_wlock rest type start end_
  end.

(** The cases are those of the source, in its order; the recursive call is the
    next turn of the loop, which ends where the source sets [added]. *)
Fixpoint posix_lock_apply_range (rs : list range) (type start end_ : Z) : list range :=
  match rs with
  | [] => if type =? POSIX_LOCK_UNLCK then [] else [mk_range start end_ type]
  | r :: rest =>
      if r_end r <? start then
        r :: posix_lock_apply_range rest type start end_
      else if end_ <? r_start r then
        if negb (type =? POSIX_LOCK_UNLCK) then mk_range start end_ type :: r :: rest
        else r :: rest
      else if (start <=? r_start r) && (r_end r <=? end_) then
        posix_lock_apply_range rest type start end_
      else if (r_start r <? start) && (r_end r <=? end_) then
        if r_type r =? type then
          posix_lock_apply_range rest type (r_start r) end_
        else
          mk_range (r_start r) start (r_type r) :: posix_lock_apply_range rest type start end_
      else if (start <=? r_start r) && (end_ <? r_end r) then
        if r_type r =? type then
          mk_range start (r_end r) (r_type r) :: rest
        else
          let r' := mk_range end_ (r_end r) (r_type r) in
          if negb (type =? POSIX_LOCK_UNLCK) then mk_range start end_ type :: r' :: rest
          else r' :: rest
      else
        if negb (r_type r =? type) then
          let nr := mk_range end_ (r_end r) (r_type r) in
          if negb (type =? POSIX_LOCK_UNLCK) then
            mk_range (r_start r) start (r_type r) :: mk_range start end_ type :: nr :: rest
          else
            mk_range (r_start r) start (r_type r) :: nr :: rest
        else r :: rest
  end.

(** ** The abstract view: the lock type of each byte *)

Definition in_range (x : Z) (r : range) : bool := (r_start r <=? x) && (x <? r_end r).

Fixpoint type_at (rs : list range) (x : Z) : Z :=
  match rs with
  | [] => POSIX_LOCK_UNLCK
  | r :: rest => if in_range x r then r_type r else type_at rest x
  end.

(** ** The representation invariant *)

Definition lock_type (t : Z) : Prop := t = POSIX_LOCK_RDLCK ∨ t = POSIX_LOCK_WRLCK.

(** A list all of whose ranges lie at or after [lo]; a range starting exactly at
    [lo] must not have the type [lt] of the range that ends there. *)
Fixpoint ranges_from (lo lt : Z) (rs : list range) : Prop :=
  match rs with
  | [] => True
  | r :: rest =>
      lo ≤ r_start r ∧ (lo = r_start r → lt ≠ r_type r) ∧
      r_start r < r_end r ∧ lock_type (r_type r) ∧
      ranges_from (r_end r) (r_type r) rest
  end.

(** Sorted, disjoint, non-empty, coalesced. *)
Definition ranges_wf (rs : list range) : Prop := ranges_from (-1) POSIX_LOCK_UNLCK rs.

Ltac lock_unfold :=
  unfold lock_type, POSIX_LOCK_UNLCK, POSIX_LOCK_RDLCK, POSIX_LOCK_WRLCK, in_range in *; simpl in *.

(** Goals about tests on integers and bounded cases. *)
Ltac lock_solve :=
  lock_unfold; repeat (case_if; simpl in * ); repeat split; intros; zbool; subst; lock_unfold;
  try done; try lia.

Lemma ranges_from_weaken lo lt lo' lt' rs :
  ranges_from lo lt rs → lo' < lo ∨ (lo' ≤ lo ∧ lt' = lt) ∨ (lo' ≤ lo ∧ lt' = POSIX_LOCK_UNLCK) →
  ranges_from lo' lt' rs.
Proof.
  destruct rs as [|r rs]; simpl; [done|]. intros (? & Hne & ? & Ht & ?) Hlo.
  repeat split; try done; [lia|]. intros. lock_unfold. destruct Hlo as [?|[[? ->]|[? ->]]]; lia.
Qed.

Lemma type_at_before lo lt rs x : ranges_from lo lt rs → x < lo → type_at rs x = POSIX_LOCK_UNLCK.
Proof.
  revert lo lt; induction rs as [|r rs IH]; simpl; intros lo lt; [done|].
  intros (? & _ & ? & _ & Hrs) ?. case_if; [lock_solve|]. eapply IH; [done|lia].
Qed.

Lemma type_at_valid lo lt rs x :
  ranges_from lo lt rs → type_at rs x = POSIX_LOCK_UNLCK ∨ lock_type (type_at rs x).
Proof.
  revert lo lt; induction rs as [|r rs IH]; simpl; intros lo lt; [by left|].
  intros (_ & _ & _ & Ht & Hrs). case_if; [by right|eauto].
Qed.

(** ** The update is pointwise and keeps the invariant *)

Definition valid_update (type start end_ : Z) : Prop :=
  (type = POSIX_LOCK_UNLCK ∨ lock_type type) ∧ start < end_.

Lemma apply_range_from lo lt rs type start end_ :
  ranges_from lo lt rs → valid_update type start end_ →
  lo ≤ start → (lo = start → lt ≠ type) →
  ranges_from lo lt (posix_lock_apply_range rs type start end_).
Proof.
  intros Hrs [Htype Hse]. revert lo lt start Hrs Hse.
  induction rs as [|r rs IH]; simpl; intros lo lt start Hrs Hse Hlo Hne.
  - lock_solve.
  - destruct Hrs as (Hlr & Hne' & Hr & Ht & Hrs).
    repeat case_if; simpl; repeat split; try done; try lia;
      try (apply IH; [done|lia..]);
      try (apply IH; [eapply ranges_from_weaken; [done|lia]|lia|lia|intros; try lia]);
      try (eapply ranges_from_weaken; [done|lia]); lock_unfold; try lia.
Qed.

Lemma apply_range_type_at lo lt rs type start end_ x :
  ranges_from lo lt rs → start < end_ →
  type_at (posix_lock_apply_range rs type start end_) x =
  if (start <=? x) && (x <? end_) then type else type_at rs x.
Proof.
  revert lo lt start. induction rs as [|r rs IH]; simpl; intros lo lt start Hrs Hse.
  { lock_solve. }
  destruct Hrs as (Hlr & _ & Hr & _ & Hrs).
  pose proof (type_at_before _ _ _ x Hrs) as Hbefore.
  unfold in_range. repeat (case_if; simpl); try rewrite (IH _ _ _ Hrs) by lia.
  all: lock_solve.
Qed.

(** Unlocking a span that covers every range empties the list. *)
Lemma apply_range_unlock_all rs start end_ :
  Forall (λ r, start ≤ r_start r ∧ r_start r < r_end r ∧ r_end r ≤ end_) rs →
  posix_lock_apply_range rs POSIX_LOCK_UNLCK start end_ = [].
Proof. induction 1 as [|r rs]; simpl; [done|]. do 3 (case_if; try lia). done. Qed.

(** ** The coalesced list of a lock function is unique *)

Lemma type_at_lo lo lt rs : ranges_from lo lt rs → lock_type lt → type_at rs lo ≠ lt.
Proof.
  destruct rs as [|r rs]; simpl; [intros _; lock_solve|].
  intros (? & Hne & ? & ? & Hrs) Hlt. case_if; [unfold in_range in *; zbool; intros ?; apply Hne; lia|].
  rewrite (type_at_before _ _ _ _ Hrs); lock_solve.
Qed.

Lemma type_at_hd lo lt r rs :
  ranges_from lo lt (r :: rs) → type_at (r :: rs) (r_start r) = r_type r.
Proof. simpl. intros (? & _ & ? & _). lock_solve. Qed.

Lemma ranges_from_hd lo lt r rs :
  ranges_from lo lt (r :: rs) → ranges_from (r_start r) POSIX_LOCK_UNLCK (r :: rs).
Proof. simpl. intros (_ & _ & ? & Ht & ?). repeat split; try done. lock_solve. Qed.

Lemma type_at_start_le lo lt rs r' rs' lo' lt' :
  ranges_from lo lt rs → ranges_from lo' lt' (r' :: rs') →
  (∀ x, type_at rs x = type_at (r' :: rs') x) →
  ∃ r rs0, rs = r :: rs0 ∧ r_start r ≤ r_start r'.
Proof.
  intros Hrs Hrs' Heq. pose proof (type_at_hd _ _ _ _ Hrs') as Hhd.
  destruct Hrs' as (_ & _ & _ & Ht & _). destruct rs as [|r rs].
  - specialize (Heq (r_start r')). rewrite Hhd in Heq. lock_solve.
  - exists r, rs. split; [done|]. destruct (Z.le_gt_cases (r_start r) (r_start r')); [done|].
    rewrite <-Heq, (type_at_before _ _ _ _ (ranges_from_hd _ _ _ _ Hrs)) in Hhd by lia.
    lock_solve.
Qed.

Lemma type_at_end_le lo lt r rs lo' lt' r' rs' :
  ranges_from lo lt (r :: rs) → ranges_from lo' lt' (r' :: rs') →
  r_start r = r_start r' → r_type r = r_type r' →
  (∀ x, type_at (r :: rs) x = type_at (r' :: rs') x) → r_end r' ≤ r_end r.
Proof.
  intros (_ & _ & Hr & Ht & Hrs) (_ & _ & Hr' & _ & _) Hs Hty Heq.
  destruct (Z.le_gt_cases (r_end r') (r_end r)) as [|Hlt]; [done|exfalso].
  apply (type_at_lo _ _ _ Hrs Ht). specialize (Heq (r_end r)). simpl in Heq.
  unfold in_range in Heq. repeat case_if_in Heq; zbool; try lia; congruence.
Qed.

Lemma ranges_canonical lo lt rs lo' lt' rs' :
  ranges_from lo lt rs → ranges_from lo' lt' rs' →
  (∀ x, type_at rs x = type_at rs' x) → rs = rs'.
Proof.
  revert lo lt rs' lo' lt'.
  induction rs as [|r rs IH]; intros lo lt rs' lo' lt' Hrs Hrs' Heq.
  - destruct rs' as [|r' rs']; [done|].
    by destruct (type_at_start_le _ _ _ _ _ _ _ Hrs Hrs' Heq) as (? & ? & ? & _).
  - destruct (type_at_start_le _ _ _ _ _ _ _ Hrs' Hrs) as (r' & rs0 & -> & Hle); [done|].
    destruct (type_at_start_le _ _ _ _ _ _ _ Hrs Hrs' Heq) as (? & ? & [= <- <-] & Hle').
    assert (r_start r = r_start r') as Hs by lia.
    assert (r_type r = r_type r') as Ht.
    { rewrite <-(type_at_hd _ _ _ _ Hrs), <-(type_at_hd _ _ _ _ Hrs'), Heq. by rewrite Hs. }
    assert (r_end r = r_end r') as He.
    { apply Z.le_antisymm; [eapply (type_at_end_le _ _ r' rs0 _ _ r rs)|eapply (type_at_end_le _ _ r rs _ _ r' rs0)]; eauto. }
    assert (r = r') as <- by (destruct r, r'; simpl in *; congruence). f_equal.
    destruct Hrs as (_ & _ & _ & _ & Hrs), Hrs' as (_ & _ & _ & _ & Hrs').
    eapply IH; [done..|]. intros x. specialize (Heq x). simpl in Heq. case_if_in Heq; [|done].
    rewrite (type_at_before _ _ _ _ Hrs), (type_at_before _ _ _ _ Hrs'); lock_solve.
Qed.

(** ** Conflicts *)

(** Two lock types that may not be held on one byte by two owners. *)
Definition conflict (t t' : Z) : Prop :=
  lock_type t ∧ lock_type t' ∧ (t = POSIX_LOCK_WRLCK ∨ t' = POSIX_LOCK_WRLCK).

Lemma conflict_sym t t' : conflict t t' → conflict t' t.
Proof. unfold conflict. intros (? & ? & [?|?]); auto. Qed.

Lemma type_at_elem lo lt rs r x :
  ranges_from lo lt rs → r ∈ rs → in_range x r = true → type_at rs x = r_type r.
Proof.
  revert lo lt. induction rs as [|r' rs IH]; intros lo lt Hrs Hin Hx; [by apply elem_of_nil in Hin|].
  destruct Hrs as (? & _ & ? & _ & Hrs). simpl.
  apply elem_of_cons in Hin as [->|Hin]; [by rewrite Hx|].
  case_if; [|eauto]. exfalso. specialize (IH _ _ Hrs Hin Hx).
  assert (lock_type (r_type r)) as Ht.
  { clear -Hrs Hin. revert Hrs. generalize (r_end r') (r_type r').
    induction Hin; simpl; intros ??; [tauto|]. intros (_ & _ & _ & _ & ?). eauto. }
  rewrite (type_at_before _ _ _ _ Hrs) in IH; lock_solve.
Qed.

Lemma type_at_inv rs x :
  type_at rs x ≠ POSIX_LOCK_UNLCK → ∃ r, r ∈ rs ∧ in_range x r = true ∧ r_type r = type_at rs x.
Proof.
  induction rs as [|r rs IH]; simpl; [done|]. case_if; intros Hne.
  - exists r. split; [constructor|done].
  - destruct (IH Hne) as (r0 & ? & ? & ?). exists r0. split; [by constructor|done].
Qed.

Lemma test_wlock_Some rs type start end_ r :
  posix_lock_test_wlock rs type start end_ = Some r →
  r ∈ rs ∧ (type = POSIX_LOCK_WRLCK ∨ r_type r = POSIX_LOCK_WRLCK) ∧ r_start r < end_ ∧ start < r_end r.
Proof.
  induction rs as [|r0 rs IH]; simpl; [done|]. repeat case_if; intros Heq;
    try (destruct (IH Heq) as (? & ? & ?); split; [by constructor|done]).
  injection Heq as <-. repeat split; try lia; constructor.
Qed.

Lemma test_wlock_None_elem rs type start end_ r :
  posix_lock_test_wlock rs type start end_ = None → r ∈ rs →
  type = POSIX_LOCK_WRLCK ∨ r_type r = POSIX_LOCK_WRLCK → r_end r ≤ start ∨ end_ ≤ r_start r.
Proof.
  induction rs as [|r0 rs IH]; simpl; intros Hn Hin Ht; [by apply elem_of_nil in Hin|].
  repeat case_if_in Hn; try done; apply elem_of_cons in Hin as [->|Hin]; auto; lia.
Qed.

Lemma ranges_elem lo lt rs r :
  ranges_from lo lt rs → r ∈ rs → lo ≤ r_start r ∧ r_start r < r_end r ∧ lock_type (r_type r).
Proof.
  revert lo lt. induction rs as [|r0 rs IH]; simpl; intros lo lt Hrs Hin; [by apply elem_of_nil in Hin|].
  destruct Hrs as (? & ? & ? & ? & Hrs). apply elem_of_cons in Hin as [->|Hin]; [done|].
  destruct (IH _ _ Hrs Hin) as (? & ? & ?). split; [lia|done].
Qed.

(** The search finds a range exactly when some byte of the request conflicts. *)
Lemma test_wlock_None rs type start end_ :
  ranges_wf rs → lock_type type → start < end_ →
  posix_lock_test_wlock rs type start end_ = None ↔
  ∀ x, start ≤ x < end_ → ¬ conflict type (type_at rs x).
Proof.
  intros Hwf Ht Hse. split.
  - intros Hn x Hx (_ & Ht' & Hc). destruct (type_at_inv rs x) as (r & Hin & Hr & Heq); [lock_solve|].
    rewrite <-Heq in Hc. destruct (test_wlock_None_elem _ _ _ _ _ Hn Hin Hc); unfold in_range in *; zbool; lia.
  - intros Hall. destruct (posix_lock_test_wlock _ _ _ _) as [r|] eqn:Hs; [exfalso|done].
    apply test_wlock_Some in Hs as (Hin & Hc & ? & ?).
    destruct (ranges_elem _ _ _ _ Hwf Hin) as (_ & ? & Ht').
    apply (Hall (Z.max start (r_start r))); [lia|].
    rewrite (type_at_elem _ _ _ _ _ Hwf Hin); [done|unfold in_range; lia].
Qed.

(** ** Ranges of 64-bit offsets *)

Definition range_u64 (r : range) : Prop := 0 ≤ r_start r ∧ r_end r ≤ UINT64_MAX.

Lemma apply_range_u64 rs type start end_ :
  Forall range_u64 rs → 0 ≤ start → end_ ≤ UINT64_MAX →
  Forall range_u64 (posix_lock_apply_range rs type start end_).
Proof.
  intros Hrs. revert start. induction Hrs as [|r rs Hr Hrs IH]; simpl; intros start Hs He.
  { repeat case_if; repeat constructor; simpl; lia. }
  destruct Hr as [Hr1 Hr2].
  repeat case_if; repeat apply Forall_cons_2; try apply IH; try done; split; simpl; lia.
Qed.
