(* ===== verification/PosixLocks.v ===== *)
(** * POSIX byte-range locks of the master (mfsmaster/posixlocks.c)

    State: the hash table [inodehash] of [inodelocks] records; each holds the
    active locks of an inode, one [alock] per owner, and the queue of waiting
    requests (head first: the C list with its [waiting_tail] pointer).

    A failed [massert] kills the master: the functions that contain one return
    [None] in that case. *)

From S2P Require Import Prelude MfsComm HashChain Changelog PosixRanges.

Record alock := mk_alock {
  al_owner : Z; al_sessionid : Z; al_pid : Z; al_ranges : list range }.

Record wlock := mk_wlock {
  wl_owner : Z; wl_connptr : Z; wl_sessionid : Z; wl_pid : Z; wl_msgid : Z; wl_reqid : Z;
  wl_start : Z; wl_end : Z; wl_type : Z }.

Record inodelocks := mk_inodelocks {
  il_inode : Z; il_active : list alock; il_waiting : list wlock }.

Definition POSIX_LOCK_INODE_HASHSIZE : Z := 1024.

Definition POSIX_LOCK_INODE_HASH (inode : Z) : Z :=
  u32 (inode * 0x738A2379) `mod` POSIX_LOCK_INODE_HASHSIZE.

#[export] Program Instance inodelocks_keyed : HashKeyed inodelocks := {|
  hk_key := il_inode;
  hk_hash := POSIX_LOCK_INODE_HASH;
  hk_size := POSIX_LOCK_INODE_HASHSIZE |}.
Next Obligation. intros k. apply Z.mod_pos_bound. done. Qed.

Abbreviation posix_tab := (list (list inodelocks)).

Definition posix_lock_inode_find (inode : Z) (t : posix_tab) : option inodelocks :=
  tab_find inode t.

Definition posix_lock_inode_new (inode : Z) (t : posix_tab) : inodelocks * posix_tab :=
  let il := mk_inodelocks inode [] [] in (il, tab_add il t).

Definition il_empty (il : inodelocks) : bool :=
  match il_active il, il_waiting il with [], [] => true | _, _ => false end.

(** Removal asserts that every record it unlinks is empty. *)
Definition posix_lock_inode_remove (inode : Z) (t : posix_tab) : option posix_tab :=
  if forallb (λ il, negb (il_inode il =? inode) || il_empty il) (chain_of inode t)
  then Some (tab_remove inode t) else None.

Fixpoint posix_lock_get_offensive_lock (active : list alock)
    (sessionid owner type start end_ : Z) : option (range * Z) :=
  match active with
  | [] => None
  | al :: rest =>
      if negb (al_owner al =? owner) || negb (al_sessionid al =? sessionid) then
        match posix_lock_test_wlock (al_ranges al) type start end_ with
        | Some r => Some (r, if sessionid =? al_sessionid al then al_pid al else 0)
        | None => posix_lock_get_offensive_lock rest sessionid owner type start end_
        end
      else posix_lock_get_offensive_lock rest sessionid owner type start end_
  end.

Fixpoint posix_lock_find_offensive_lock (active : list alock)
    (sessionid owner type start end_ : Z) : bool :=
  match active with
  | [] => false
  | al :: rest =>
      if negb (al_owner al =? owner) || negb (al_sessionid al =? sessionid) then
        match posix_lock_test_wlock (al_ranges al) type start end_ with
        | Some _ => true
        | None => posix_lock_find_offensive_lock rest sessionid owner type start end_
        end
      else posix_lock_find_offensive_lock rest sessionid owner type start end_
  end.

Fixpoint posix_lock_do_apply_lock (active : list alock)
    (sessionid owner type start end_ pid : Z) : list alock :=
  match active with
  | [] =>
      if type =? POSIX_LOCK_UNLCK then []
      else [mk_alock owner sessionid pid (posix_lock_apply_range [] type start end_)]
  | al :: rest =>
      if (al_owner al =? owner) && (al_sessionid al =? sessionid) then
        match posix_lock_apply_range (al_ranges al) type start end_ with
        | [] => rest
        | rs => mk_alock (al_owner al) (al_sessionid al) (al_pid al) rs :: rest
        end
      else al :: posix_lock_do_apply_lock rest sessionid owner type start end_ pid
  end.

Definition lock_char (type : Z) : ascii :=
  if type =? POSIX_LOCK_RDLCK then "R"%char
  else if type =? POSIX_LOCK_WRLCK then "W"%char else "U"%char.

(** [now] is [main_time()]. *)
Definition posix_lock_apply_lock (now inode : Z) (active : list alock)
    (sessionid owner type start end_ pid : Z) : list alock * list event :=
  (posix_lock_do_apply_lock active sessionid owner type start end_ pid,
   [Log (POSIXLOCK now inode sessionid owner (lock_char type) start end_ pid)]).

Definition posix_lock_append_lock (il : inodelocks)
    (connptr sessionid msgid reqid owner type start end_ pid : Z) : inodelocks :=
  mk_inodelocks (il_inode il) (il_active il)
    (il_waiting il ++ [mk_wlock owner connptr sessionid pid msgid reqid start end_ type]).

(** The first waiting request of the connection with the request id is answered
    [EINTR] and removed. *)
Fixpoint interrupt_waiting (wls : list wlock) (connptr reqid : Z) : list wlock * list event :=
  match wls with
  | [] => ([], [])
  | wl :: rest =>
      if (wl_connptr wl =? connptr) && (wl_reqid wl =? reqid) then
        (rest, [PosixWakeUp connptr (wl_msgid wl) MFS_ERROR_EINTR])
      else let '(ws, evs) := interrupt_waiting rest connptr reqid in (wl :: ws, evs)
  end.

Definition posix_lock_interrupt (il : inodelocks) (connptr reqid : Z) : inodelocks * list event :=
  let '(ws, evs) := interrupt_waiting (il_waiting il) connptr reqid in
  (mk_inodelocks (il_inode il) (il_active il) ws, evs).

(** One pass over the queue: the active locks it leaves, the requests still
    waiting, the outputs. *)
Fixpoint grant_waiting (now inode : Z) (active : list alock) (wls : list wlock)
    : list alock * list wlock * list event :=
  match wls with
  | [] => (active, [], [])
  | wl :: rest =>
      if posix_lock_find_offensive_lock active (wl_sessionid wl) (wl_owner wl)
           (wl_type wl) (wl_start wl) (wl_end wl)
      then let '(a, ws, evs) := grant_waiting now inode active rest in (a, wl :: ws, evs)
      else
        let '(active', ev) := posix_lock_apply_lock now inode active (wl_sessionid wl) (wl_owner wl)
                                (wl_type wl) (wl_start wl) (wl_end wl) (wl_pid wl) in
        let '(a, ws, evs) := grant_waiting now inode active' rest in
        (a, ws, ev ++ PosixWakeUp (wl_connptr wl) (wl_msgid wl) MFS_STATUS_OK :: evs)
  end.

(** [il] is the record of the table: it has been stored there. *)
Definition posix_lock_check_waiting (now : Z) (il : inodelocks) (t : posix_tab)
    : option (posix_tab * list event) :=
  if il_empty il then
    t' ← posix_lock_inode_remove (il_inode il) t; Some (t', [])
  else
    let '(a, ws, evs) := grant_waiting now (il_inode il) (il_active il) (il_waiting il) in
    Some (tab_set (il_inode il) (mk_inodelocks (il_inode il) a ws) t, evs).

Definition posix_lock_disconnected (connptr : Z) (t : posix_tab) : posix_tab :=
  tab_map (λ il, mk_inodelocks (il_inode il) (il_active il)
                   (filter (λ wl, wl_connptr wl ≠ connptr) (il_waiting il))) t.

(** The pair of calls that grants a request: apply it, then look at the queue. *)
Definition apply_and_check (now inode : Z) (il : inodelocks)
    (sessionid owner type start end_ pid : Z) (t : posix_tab) : option (posix_tab * list event) :=
  let '(a, ev) := posix_lock_apply_lock now inode (il_active il) sessionid owner type start end_ pid in
  let il' := mk_inodelocks inode a (il_waiting il) in
  '(t', evs) ← posix_lock_check_waiting now il' (tab_set inode il' t);
  Some (t', ev ++ evs).

(** The status a command returns and its out-parameters. *)
Record posix_reply := mk_reply {
  rp_status : Z; rp_type : Z; rp_start : Z; rp_end : Z; rp_pid : Z }.

(** [of_checknode] is the function of [openfiles.c]. *)
Definition posix_lock_cmd (of_checknode : Z → Z → bool) (now : Z)
    (connptr sessionid msgid reqid inode owner op type start end_ pid : Z) (t : posix_tab)
    : option (posix_tab * posix_reply * list event) :=
  let reply status := mk_reply status type start end_ pid in
  if ((op =? POSIX_LOCK_CMD_SET) || (op =? POSIX_LOCK_CMD_TRY)) && negb (type =? POSIX_LOCK_UNLCK)
     && negb (of_checknode sessionid inode) then
    Some (t, reply MFS_ERROR_NOTOPENED, [])
  else
  let il := posix_lock_inode_find inode t in
  if op =? POSIX_LOCK_CMD_INT then
    match il with
    | None => Some (t, reply MFS_STATUS_OK, [])
    | Some il =>
        let '(il', evs) := posix_lock_interrupt il connptr reqid in
        Some (tab_set inode il' t, reply MFS_STATUS_OK, evs)
    end
  else if op =? POSIX_LOCK_CMD_GET then
    let offensive :=
      match il with
      | Some il =>
          if negb (type =? POSIX_LOCK_UNLCK)
          then posix_lock_get_offensive_lock (il_active il) sessionid owner type start end_
          else None
      | None => None
      end in
    match offensive with
    | Some (r, pid') =>
        Some (t, mk_reply MFS_STATUS_OK (r_type r) (r_start r) (r_end r) pid', [])
    | None => Some (t, mk_reply MFS_STATUS_OK POSIX_LOCK_UNLCK 0 0 0, [])
    end
  else
  let append il t :=
    Some (tab_set inode (posix_lock_append_lock il connptr sessionid msgid reqid owner type start end_ pid) t,
          reply MFS_ERROR_WAITING, []) in
  let apply il t :=
    '(t', evs) ← apply_and_check now inode il sessionid owner type start end_ pid t;
    Some (t', reply MFS_STATUS_OK, evs) in
  let offended il :=
    posix_lock_find_offensive_lock (il_active il) sessionid owner type start end_ in
  match il with
  | Some il =>
      if negb (type =? POSIX_LOCK_UNLCK) && offended il then
        if op =? POSIX_LOCK_CMD_TRY then Some (t, reply MFS_ERROR_EAGAIN, []) else append il t
      else if type =? POSIX_LOCK_UNLCK then apply il t
      else if offended il then append il t else apply il t
  | None =>
      if type =? POSIX_LOCK_UNLCK then Some (t, reply MFS_STATUS_OK, [])
      else
        let '(il, t) := posix_lock_inode_new inode t in
        if offended il then append il t else apply il t
  end.

(** The active locks of the closing session are unlocked on the whole file, which
    must leave them no range, and unlinked; the flag tells whether there were any. *)
Fixpoint close_active (sessionid : Z) (active : list alock) : option (list alock * bool) :=
  match active with
  | [] => Some ([], false)
  | al :: rest =>
      if al_sessionid al =? sessionid then
        match posix_lock_apply_range (al_ranges al) POSIX_LOCK_UNLCK 0 UINT64_MAX with
        | [] => '(a, _) ← close_active sessionid rest; Some (a, true)
        | _ => None
        end
      else '(a, changed) ← close_active sessionid rest; Some (al :: a, changed)
  end.

Definition posix_lock_file_closed (now sessionid inode : Z) (t : posix_tab)
    : option (posix_tab * list event) :=
  match posix_lock_inode_find inode t with
  | None => Some (t, [])
  | Some il =>
      let ws := filter (λ wl, wl_sessionid wl ≠ sessionid) (il_waiting il) in
      '(a, changed) ← close_active sessionid (il_active il);
      let il' := mk_inodelocks inode a ws in
      let t' := tab_set inode il' t in
      if changed : bool then posix_lock_check_waiting now il' t'
      else if il_empty il' then t'' ← posix_lock_inode_remove inode t'; Some (t'', [])
      else Some (t', [])
  end.

(** The lock type a changelog entry's command character stands for. *)
Definition char_type (cmd : ascii) : option Z :=
  if (cmd =? "U")%char || (cmd =? "u")%char then Some POSIX_LOCK_UNLCK
  else if (cmd =? "R")%char || (cmd =? "r")%char || (cmd =? "S")%char || (cmd =? "s")%char
  then Some POSIX_LOCK_RDLCK
  else if (cmd =? "W")%char || (cmd =? "w")%char || (cmd =? "E")%char || (cmd =? "e")%char
  then Some POSIX_LOCK_WRLCK
  else None.

(** Replay of a changelog entry: the status, and whether the metadata version was
    incremented ([meta_version_inc]). *)
Definition posix_lock_mr_change (inode sessionid owner : Z) (cmd : ascii) (start end_ pid : Z)
    (t : posix_tab) : option (posix_tab * Z * list event) :=
  match char_type cmd with
  | None => Some (t, MFS_ERROR_EINVAL, [])
  | Some type =>
      let found :=
        match posix_lock_inode_find inode t with
        | Some il => Some (il, t)
        | None =>
            if type =? POSIX_LOCK_UNLCK then None else Some (posix_lock_inode_new inode t)
        end in
      match found with
      | None => Some (t, MFS_ERROR_MISMATCH, [])
      | Some (il, t) =>
          if negb (type =? POSIX_LOCK_UNLCK) &&
             posix_lock_find_offensive_lock (il_active il) sessionid owner type start end_
          then Some (t, MFS_ERROR_MISMATCH, [])
          else
            let a := posix_lock_do_apply_lock (il_active il) sessionid owner type start end_ pid in
            let il' := mk_inodelocks inode a (il_waiting il) in
            let t' := tab_set inode il' t in
            if il_empty il' then t'' ← posix_lock_inode_remove inode t'; Some (t'', MFS_STATUS_OK, [MetaVersionInc])
            else Some (t', MFS_STATUS_OK, [MetaVersionInc])
      end
  end.

(** ** The abstract view of the active locks

    The lock table of an inode is, abstractly, a function that gives each owner
    (a session and an owner id) the type of the lock it holds on each byte. *)

Definition al_key (al : alock) : Z * Z := (al_sessionid al, al_owner al).

Fixpoint held (active : list alock) (k : Z * Z) (x : Z) : Z :=
  match active with
  | [] => POSIX_LOCK_UNLCK
  | al :: rest => if decide (al_key al = k) then type_at (al_ranges al) x else held rest k x
  end.

(** No two owners hold conflicting locks on one byte. *)
Definition exclusion (active : list alock) : Prop :=
  ∀ k k' x, k ≠ k' → ¬ conflict (held active k x) (held active k' x).

Definition alock_wf (al : alock) : Prop :=
  ranges_wf (al_ranges al) ∧ Forall range_u64 (al_ranges al) ∧ al_ranges al ≠ [].

Definition alocks_wf (active : list alock) : Prop :=
  NoDup (al_key <$> active) ∧ Forall alock_wf active.

(** A range a client may name: non-empty, its ends 64-bit integers. *)
Definition valid_span (start end_ : Z) : Prop := 0 ≤ start ∧ start < end_ ∧ end_ ≤ UINT64_MAX.

Lemma key_test s o al :
  ((al_owner al =? o) && (al_sessionid al =? s))%bool = bool_decide (al_key al = (s, o)).
Proof.
  unfold al_key. destruct (Z.eqb_spec (al_owner al) o), (Z.eqb_spec (al_sessionid al) s); simpl;
    symmetry; first [apply bool_decide_eq_true_2 | apply bool_decide_eq_false_2]; congruence.
Qed.

Lemma key_test_neg s o al :
  (negb (al_owner al =? o) || negb (al_sessionid al =? s))%bool = negb (bool_decide (al_key al = (s, o))).
Proof. rewrite <-key_test. by destruct (_ =? _), (_ =? _). Qed.

Lemma al_key_mk al rs :
  al_key (mk_alock (al_owner al) (al_sessionid al) (al_pid al) rs) = al_key al.
Proof. done. Qed.

Lemma held_notin active k x : k ∉ al_key <$> active → held active k x = POSIX_LOCK_UNLCK.
Proof.
  induction active as [|al active IH]; csimpl; [done|]. rewrite not_elem_of_cons. intros [? ?].
  case_decide; [congruence|auto].
Qed.

Lemma alocks_wf_cons al active :
  alocks_wf (al :: active) ↔ (al_key al ∉ al_key <$> active) ∧ alock_wf al ∧ alocks_wf active.
Proof. unfold alocks_wf. csimpl. rewrite NoDup_cons, Forall_cons. tauto. Qed.

Lemma held_valid active k x :
  alocks_wf active → held active k x = POSIX_LOCK_UNLCK ∨ lock_type (held active k x).
Proof.
  induction active as [|al active IH]; simpl; [by left|].
  intros (_ & (Hwf & _) & Ha)%alocks_wf_cons. case_decide; [by eapply type_at_valid|auto].
Qed.

(** ** Applying a lock is a pointwise update *)

Lemma held_apply active s o type start end_ pid k x :
  alocks_wf active → valid_update type start end_ →
  held (posix_lock_do_apply_lock active s o type start end_ pid) k x =
  if bool_decide (k = (s, o)) && ((start <=? x) && (x <? end_)) then type else held active k x.
Proof.
  intros Hwf [Hv Hse]. induction active as [|al active IH]; cbn [held posix_lock_do_apply_lock].
  - pose proof (apply_range_type_at (-1) 0 [] type start end_ x I Hse) as Hr. case_if.
    + simpl. case_if; [congruence|done].
    + cbn [held al_key al_ranges al_sessionid al_owner]. rewrite Hr.
      case_decide; repeat case_if; try done; destruct_or?; zbool; unfold al_key in *; simpl in *; first [congruence|lia].
  - apply alocks_wf_cons in Hwf as (Hni & (Hrs & _) & Hwf). specialize (IH Hwf).
    pose proof (apply_range_type_at _ _ _ type start end_ x Hrs Hse) as Hr.
    rewrite key_test. case_if.
    + rewrite E in Hni. destruct (posix_lock_apply_range _ _ _ _) as [|r rs] eqn:Hap;
        cbn [held al_ranges]; rewrite ?al_key_mk, ?E;
        (destruct (decide ((s, o) = k)) as [Hk|Hk];
         [|by rewrite bool_decide_eq_false_2 by congruence]);
        subst k; rewrite bool_decide_eq_true_2 by done; [|exact Hr].
      rewrite held_notin by done. exact Hr.
    + cbn [held]. destruct (decide (al_key al = k)) as [Hk|Hk]; [|done].
      subst k. by rewrite bool_decide_eq_false_2 by done.
Qed.

Lemma apply_keys active s o type start end_ pid k :
  k ∈ al_key <$> posix_lock_do_apply_lock active s o type start end_ pid →
  k = (s, o) ∨ k ∈ al_key <$> active.
Proof.
  induction active as [|al active IH]; cbn [posix_lock_do_apply_lock].
  - case_if; [by right|]. csimpl. rewrite elem_of_cons. tauto.
  - rewrite key_test. csimpl. rewrite elem_of_cons. case_if.
    + destruct (posix_lock_apply_range _ _ _ _); [by right; right|].
      csimpl. rewrite al_key_mk, elem_of_cons. tauto.
    + csimpl. rewrite elem_of_cons. tauto.
Qed.

Lemma alocks_wf_apply active s o type start end_ pid :
  alocks_wf active → valid_update type start end_ → valid_span start end_ →
  alocks_wf (posix_lock_do_apply_lock active s o type start end_ pid).
Proof.
  intros Hwf Hv (Hs & Hse & He). induction active as [|al active IH]; cbn [posix_lock_do_apply_lock].
  - case_if; [done|]. apply alocks_wf_cons. split; [by apply not_elem_of_nil|]. split; [|done].
    split; [by apply apply_range_from; [..|lia|lia]|]. split; [by apply apply_range_u64|].
    simpl. by case_if.
  - apply alocks_wf_cons in Hwf as (Hni & (Hrs & Hu & Hne) & Hwf). rewrite key_test. case_if.
    + pose proof (apply_range_from _ _ _ _ _ _ Hrs Hv) as Hrs'.
      pose proof (apply_range_u64 _ type start end_ Hu Hs He) as Hu'.
      destruct (posix_lock_apply_range _ _ _ _) as [|r rs] eqn:Hap; [done|].
      apply alocks_wf_cons. split; [done|]. split; [|done]. split; [apply Hrs'; lia|done].
    + apply alocks_wf_cons. split; [|by split; [|apply IH]].
      intros [?|?]%apply_keys; congruence.
Qed.

(** ** The conflict search *)

Lemma find_offensive_false active s o type start end_ :
  alocks_wf active → lock_type type → start < end_ →
  posix_lock_find_offensive_lock active s o type start end_ = false ↔
  ∀ k x, k ≠ (s, o) → start ≤ x < end_ → ¬ conflict type (held active k x).
Proof.
  intros Hwf Ht Hse. induction active as [|al active IH]; simpl.
  - split; [|done]. intros _ k x _ _ (_ & Hc & _). lock_solve.
  - apply alocks_wf_cons in Hwf as (Hni & (Hrs & _) & Hwf). specialize (IH Hwf).
    pose proof (test_wlock_None _ type start end_ Hrs Ht Hse) as Htest.
    rewrite key_test_neg. destruct (bool_decide (al_key al = (s, o))) eqn:Hk; zbool; simpl.
    + rewrite IH. rewrite Hk in Hni |- *. split; intros Hall k x Hne Hx.
      * rewrite decide_False by congruence. auto.
      * specialize (Hall k x Hne Hx). by rewrite decide_False in Hall by congruence.
    + destruct (posix_lock_test_wlock _ _ _ _) as [r|].
      * split; [done|]. intros Hall. exfalso. cut (Some r = None); [done|].
        apply Htest. intros x Hx. specialize (Hall _ x Hk Hx). by rewrite decide_True in Hall.
      * rewrite IH. split; intros Hall k x Hne Hx.
        -- destruct (decide (al_key al = k)); [by apply Htest|auto].
        -- specialize (Hall k x Hne Hx). destruct (decide (al_key al = k)); [|done].
           subst k. rewrite held_notin by done. intros (_ & Hc & _). lock_solve.
Qed.

Lemma get_offensive_find active s o type start end_ :
  is_Some (posix_lock_get_offensive_lock active s o type start end_) ↔
  posix_lock_find_offensive_lock active s o type start end_ = true.
Proof.
  induction active as [|al active IH]; simpl; [split; [by intros []|done]|].
  case_if; [|done]. destruct (posix_lock_test_wlock _ _ _ _); [|done]. split; [done|eauto].
Qed.

(** ** Mutual exclusion *)

Lemma exclusion_apply active s o type start end_ pid :
  alocks_wf active → exclusion active → valid_update type start end_ →
  type = POSIX_LOCK_UNLCK ∨ posix_lock_find_offensive_lock active s o type start end_ = false →
  exclusion (posix_lock_do_apply_lock active s o type start end_ pid).
Proof.
  intros Hwf Hex Hv Hfree k k' x Hne. rewrite !held_apply by done.
  assert (∀ k0, k0 ≠ (s, o) → start ≤ x < end_ → ¬ conflict type (held active k0 x)) as Hno.
  { intros k0 Hk0 Hx. destruct Hv as [Hv Hse], Hfree as [->|Hfree].
    - intros (Hc & _). lock_solve.
    - intros Hc. pose proof Hc as (Ht & _). revert Hc. by apply (find_offensive_false _ s o type start end_). }
  repeat case_if; try (by apply Hex); try (by apply Hno; [congruence|lia]); [congruence|].
  intros Hc%conflict_sym. revert Hc. apply Hno; [congruence|lia].
Qed.

(** ** The invariant of the table *)

Definition wlock_ok (wl : wlock) : Prop :=
  lock_type (wl_type wl) ∧ valid_span (wl_start wl) (wl_end wl).

(** What holds of a record at all times. *)
Record il_pre (il : inodelocks) : Prop := {
  il_pre_wf : alocks_wf (il_active il);
  il_pre_excl : exclusion (il_active il);
  il_pre_waiting : Forall wlock_ok (il_waiting il) }.

(** Between commands a record also holds at least one active lock. *)
Definition il_ok (il : inodelocks) : Prop := il_pre il ∧ il_active il ≠ [].

Definition posix_inv (t : posix_tab) : Prop :=
  tab_wf t ∧ ∀ inode il, tab_find inode t = Some il → il_ok il.

Lemma posix_inv_empty : posix_inv tab_empty.
Proof. split; [apply tab_empty_wf|]. intros inode il. by rewrite tab_find_empty. Qed.

Lemma valid_update_wlock wl : wlock_ok wl → valid_update (wl_type wl) (wl_start wl) (wl_end wl).
Proof. intros [Ht (? & ? & ?)]. split; [by right|done]. Qed.

Lemma apply_nonempty active s o type start end_ pid :
  alocks_wf active → lock_type type → start < end_ →
  posix_lock_do_apply_lock active s o type start end_ pid ≠ [].
Proof.
  intros Hwf Ht Hse Heq.
  pose proof (held_apply active s o type start end_ pid (s, o) start Hwf) as Hh.
  rewrite Heq, bool_decide_eq_true_2 in Hh by done. simpl in Hh.
  specialize (Hh (conj (or_intror Ht) Hse)). case_if_in Hh; lock_solve.
Qed.

Lemma grant_waiting_ok now inode active ws a' ws' evs :
  alocks_wf active → exclusion active → Forall wlock_ok ws →
  grant_waiting now inode active ws = (a', ws', evs) →
  alocks_wf a' ∧ exclusion a' ∧ Forall wlock_ok ws' ∧ (active ≠ [] ∨ ws ≠ [] → a' ≠ []).
Proof.
  intros Hwf Hex Hws. revert active a' ws' evs Hwf Hex.
  induction Hws as [|wl ws Hwl Hws IH]; simpl; intros active a' ws' evs Hwf Hex.
  { intros [= <- <- <-]. repeat split; [apply Hwf|apply Hwf|done|done|tauto]. }
  pose proof (valid_update_wlock _ Hwl) as Hv. destruct Hwl as [Ht Hsp].
  destruct (posix_lock_find_offensive_lock _ _ _ _ _ _) eqn:Hoff.
  - destruct (grant_waiting _ _ active ws) as [[a1 ws1] evs1] eqn:Hg. intros [= <- <- <-].
    destruct (IH _ _ _ _ Hwf Hex Hg) as (? & ? & ? & Hne).
    repeat split; try apply H; try done; [by constructor|].
    intros _. apply Hne. left. intros ->. done.
  - set (active' := posix_lock_do_apply_lock _ _ _ _ _ _ _).
    destruct (grant_waiting _ _ active' ws) as [[a1 ws1] evs1] eqn:Hg. intros [= <- <- <-].
    edestruct (IH active') as (? & ? & ? & Hne); [..|exact Hg|].
    + by apply alocks_wf_apply.
    + apply exclusion_apply; auto.
    + repeat split; try apply H; try done. intros _. apply Hne. left.
      apply apply_nonempty; [done|done|apply Hv].
Qed.

Lemma inode_remove_ok inode il t :
  tab_wf t → tab_find inode t = Some il → il_empty il = true →
  posix_lock_inode_remove inode t = Some (tab_remove inode t).
Proof.
  intros Hwf Hf He. unfold posix_lock_inode_remove.
  assert (forallb (λ il, negb (il_inode il =? inode) || il_empty il) (chain_of inode t) = true) as ->; [|done].
  apply forallb_forall. intros il' Hin%list_elem_of_In.
  destruct (Z.eqb_spec (il_inode il') inode) as [Hi|]; [simpl|done].
  destruct (chain_of_wf inode t Hwf) as [Hnd _].
  assert (tab_find inode t = Some il') as Hf' by (by apply chain_find_elem). congruence.
Qed.

(** The record [posix_lock_check_waiting] leaves for the inode. *)
Definition checked (now : Z) (il : inodelocks) : option inodelocks :=
  if il_empty il then None
  else let '(a, ws, _) := grant_waiting now (il_inode il) (il_active il) (il_waiting il) in
       Some (mk_inodelocks (il_inode il) a ws).

Definition checked_events (now : Z) (il : inodelocks) : list event :=
  (grant_waiting now (il_inode il) (il_active il) (il_waiting il)).2.

Lemma check_waiting_spec now il t :
  tab_wf t → tab_find (il_inode il) t = Some il →
  ∃ t', posix_lock_check_waiting now il t = Some (t', checked_events now il) ∧ tab_wf t' ∧
    ∀ j, tab_find j t' = if il_inode il =? j then checked now il else tab_find j t.
Proof.
  intros Hwf Hf. unfold posix_lock_check_waiting, checked, checked_events. case_if.
  - rewrite (inode_remove_ok _ il) by done. simpl. eexists. split; [|split].
    + unfold il_empty in E. destruct (il_active il), (il_waiting il); done.
    + by apply tab_wf_remove.
    + intros j. by rewrite tab_find_remove.
  - destruct (grant_waiting _ _ _ _) as [[a ws] evs]. eexists. split; [done|]. split.
    + by apply tab_wf_set.
    + intros j. rewrite tab_find_set by done. case_if; [|done]. subst j. by rewrite Hf.
Qed.

Lemma checked_ok now il il' : il_pre il → checked now il = Some il' → il_ok il'.
Proof.
  intros [Hwf Hex Hws]. unfold checked. case_if; [done|].
  destruct (grant_waiting _ _ _ _) as [[a ws] evs] eqn:Hg. intros [= <-].
  destruct (grant_waiting_ok _ _ _ _ _ _ _ Hwf Hex Hws Hg) as (? & ? & ? & Hne).
  split; [by split|]. simpl. apply Hne. unfold il_empty in E.
  destruct (il_active il), (il_waiting il); [done|by right|by left|by left].
Qed.

Lemma tab_find_inode inode (t : posix_tab) il : tab_find inode t = Some il → il_inode il = inode.
Proof. exact (tab_find_key inode il t). Qed.

Lemma apply_and_check_spec now inode il s o type start end_ pid t :
  tab_wf t → tab_find inode t = Some il →
  let il' := mk_inodelocks inode (posix_lock_do_apply_lock (il_active il) s o type start end_ pid) (il_waiting il) in
  ∃ t', apply_and_check now inode il s o type start end_ pid t =
          Some (t', Log (POSIXLOCK now inode s o (lock_char type) start end_ pid) :: checked_events now il') ∧
    tab_wf t' ∧ ∀ j, tab_find j t' = if inode =? j then checked now il' else tab_find j t.
Proof.
  intros Hwf Hf il'. unfold apply_and_check, posix_lock_apply_lock. fold il'.
  destruct (check_waiting_spec now il' (tab_set inode il' t)) as (t' & Heq & Hwf' & Hj).
  - by apply tab_wf_set.
  - rewrite tab_find_set by done. simpl. by rewrite Z.eqb_refl, Hf.
  - exists t'. rewrite Heq. split; [done|]. split; [done|]. intros j. rewrite Hj. simpl.
    case_if; [done|]. rewrite tab_find_set by done. by case_if.
Qed.

Lemma il_pre_apply inode il s o type start end_ pid :
  il_pre il → valid_update type start end_ → valid_span start end_ →
  type = POSIX_LOCK_UNLCK ∨ posix_lock_find_offensive_lock (il_active il) s o type start end_ = false →
  il_pre (mk_inodelocks inode (posix_lock_do_apply_lock (il_active il) s o type start end_ pid) (il_waiting il)).
Proof.
  intros [Hwf Hex Hws] Hv Hsp Hfree. split; simpl; [by apply alocks_wf_apply| |done].
  by apply exclusion_apply.
Qed.

Lemma posix_inv_set inode il t :
  posix_inv t → il_ok il → il_inode il = inode → posix_inv (tab_set inode il t).
Proof.
  intros [Hwf Hall] Hil Hi. split; [by apply tab_wf_set|]. intros j il'.
  rewrite tab_find_set by done. case_if; [|apply Hall].
  destruct (tab_find j t); [|done]. by intros [= <-].
Qed.

Lemma apply_and_check_inv now inode il s o type start end_ pid t :
  tab_wf t → tab_find inode t = Some il → il_pre il →
  (∀ j il', j ≠ inode → tab_find j t = Some il' → il_ok il') →
  valid_update type start end_ → valid_span start end_ →
  type = POSIX_LOCK_UNLCK ∨ posix_lock_find_offensive_lock (il_active il) s o type start end_ = false →
  ∃ t' evs, apply_and_check now inode il s o type start end_ pid t = Some (t', evs) ∧ posix_inv t'.
Proof.
  intros Hwf Hf Hil Hothers Hv Hsp Hfree.
  destruct (apply_and_check_spec now inode il s o type start end_ pid t Hwf Hf) as (t' & Heq & Hwf' & Hj).
  eexists _, _. split; [exact Heq|]. split; [done|]. intros j il'. rewrite Hj. case_if; [|eauto].
  apply checked_ok. by apply il_pre_apply.
Qed.

Lemma interrupt_waiting_sublist wls connptr reqid :
  (interrupt_waiting wls connptr reqid).1 `sublist_of` wls.
Proof.
  induction wls as [|wl wls IH]; simpl; [done|]. case_if; [by constructor|].
  destruct (interrupt_waiting wls connptr reqid). by constructor.
Qed.

Lemma il_ok_waiting il ws :
  il_ok il → Forall wlock_ok ws → il_ok (mk_inodelocks (il_inode il) (il_active il) ws).
Proof. intros [[Hwf Hex _] Hne] Hws. split; [by split|done]. Qed.

Definition cmd_args_ok (type start end_ : Z) : Prop :=
  (type = POSIX_LOCK_UNLCK ∨ lock_type type) ∧ valid_span start end_.

(** A command never fails an assertion and keeps the invariant. *)
Lemma cmd_inv ofc now connptr s msgid reqid inode o op type start end_ pid t :
  posix_inv t → cmd_args_ok type start end_ →
  ∃ t' rp evs, posix_lock_cmd ofc now connptr s msgid reqid inode o op type start end_ pid t
               = Some (t', rp, evs) ∧ posix_inv t'.
Proof.
  intros Hinv [Ht Hsp]. pose proof Hinv as [Hwf Hall]. unfold posix_lock_cmd, posix_lock_inode_find.
  assert (valid_update type start end_) as Hv by (split; [done|apply Hsp]).
  case_if; [by eauto|]. case_if.
  { destruct (tab_find inode t) as [il|] eqn:Hf; [|by eauto]. unfold posix_lock_interrupt.
    pose proof (interrupt_waiting_sublist (il_waiting il) connptr reqid) as Hsub.
    destruct (interrupt_waiting _ _ _) as [ws evs]. eexists _, _, _. split; [done|].
    apply posix_inv_set; [done| |exact (tab_find_inode _ _ _ Hf)]. apply il_ok_waiting; [by eauto|].
    eapply Forall_sublist; [exact Hsub|]. apply (Hall _ _ Hf). }
  case_if.
  { destruct (tab_find inode t) as [il|]; [|by eauto]. case_if; [|by eauto].
    destruct (posix_lock_get_offensive_lock _ _ _ _ _ _) as [[r pid']|]; eauto. }
  destruct (tab_find inode t) as [il|] eqn:Hf.
  - assert (il_ok il) as [Hpre Hne] by eauto.
    assert (∀ ap, (type = POSIX_LOCK_UNLCK ∨ posix_lock_find_offensive_lock (il_active il) s o type start end_ = false) →
      ap = apply_and_check now inode il s o type start end_ pid t →
      ∃ t' rp evs, ('(t', evs) ← ap; Some (t', mk_reply MFS_STATUS_OK type start end_ pid, evs)) = Some (t', rp, evs) ∧ posix_inv t') as Happly.
    { intros ap Hfree ->. destruct (apply_and_check_inv now inode il s o type start end_ pid t)
        as (t' & evs & -> & Hinv'); eauto. }
    assert (il_ok (posix_lock_append_lock il connptr s msgid reqid o type start end_ pid) ∨ type = POSIX_LOCK_UNLCK) as Happ.
    { destruct Ht as [->|Ht]; [by right|left]. apply il_ok_waiting; [done|].
      apply Forall_app. split; [apply Hpre|]. apply Forall_singleton. by split. }
    repeat case_if; eauto; (destruct Happ as [Happ|]; [|done]); eexists _, _, _;
      (split; [done|]); apply posix_inv_set; eauto; exact (tab_find_inode _ _ _ Hf).
  - case_if; [by eauto|]. simpl.
    destruct (apply_and_check_inv now inode (mk_inodelocks inode [] []) s o type start end_ pid
                (tab_add (mk_inodelocks inode [] []) t)) as (t' & evs & Heq & Hinv'); eauto.
    + by apply tab_wf_add.
    + rewrite tab_find_add by done. simpl. by rewrite Z.eqb_refl.
    + split; simpl; [by split; constructor| |done]. intros k k' x _ (Hc & _). lock_solve.
    + intros j il' Hj. rewrite tab_find_add by done. simpl. case_if; [congruence|]. apply Hall.
    + rewrite Heq. eauto.
Qed.

(** ** Closing a file *)

Lemma alock_unlock_all al :
  alock_wf al → posix_lock_apply_range (al_ranges al) POSIX_LOCK_UNLCK 0 UINT64_MAX = [].
Proof.
  intros (Hrs & Hu & _). apply apply_range_unlock_all, Forall_forall. intros r Hin.
  destruct (ranges_elem _ _ _ _ Hrs Hin) as (_ & ? & _).
  rewrite Forall_forall in Hu. destruct (Hu _ Hin). lia.
Qed.

Lemma close_active_spec s active :
  Forall alock_wf active →
  close_active s active = Some (filter (λ al, al_sessionid al ≠ s) active,
                                existsb (λ al, al_sessionid al =? s) active).
Proof.
  induction 1 as [|al active Hal _ IH]; simpl; [done|]. rewrite IH. rewrite filter_cons.
  destruct (Z.eqb_spec (al_sessionid al) s).
  - by rewrite alock_unlock_all, decide_False by (done || tauto).
  - by rewrite decide_True.
Qed.

Lemma held_filter s active k x :
  held (filter (λ al, al_sessionid al ≠ s) active) k x =
  if k.1 =? s then POSIX_LOCK_UNLCK else held active k x.
Proof.
  induction active as [|al active IH]; simpl; [by case_if|]. rewrite filter_cons.
  case_decide as Hs; simpl; rewrite IH; repeat case_decide; repeat case_if; subst; simpl in *; try done; tauto.
Qed.

Lemma il_pre_close s inode il :
  il_pre il →
  il_pre (mk_inodelocks inode (filter (λ al, al_sessionid al ≠ s) (il_active il))
                              (filter (λ wl, wl_sessionid wl ≠ s) (il_waiting il))).
Proof.
  intros [[Hnd Hwf] Hex Hws]. split; simpl.
  - split; [|by apply Forall_filter_keep].
    eapply sublist_NoDup; [exact Hnd|]. apply fmap_sublist, sublist_filter.
  - intros k k' x Hne. rewrite !held_filter. repeat case_if; try (by apply Hex);
      intros (Hc & Hc' & _); lock_solve.
  - by apply Forall_filter_keep.
Qed.

(** The active locks of a closed session are gone; without any, nothing changes
    but the queue. *)
Lemma file_closed_spec now s inode t :
  posix_inv t →
  ∃ t' evs, posix_lock_file_closed now s inode t = Some (t', evs) ∧ posix_inv t' ∧
    (∀ j, j ≠ inode → tab_find j t' = tab_find j t).
Proof.
  intros Hinv. pose proof Hinv as [Hwf Hall]. unfold posix_lock_file_closed, posix_lock_inode_find.
  destruct (tab_find inode t) as [il|] eqn:Hf; [|by eauto].
  destruct (Hall _ _ Hf) as [Hpre Hne].
  rewrite close_active_spec by apply Hpre. simpl.
  pose proof (il_pre_close s inode _ Hpre) as Hpre'.
  set (il' := mk_inodelocks inode _ _) in *.
  assert (∀ j, j ≠ inode → tab_find j (tab_set inode il' t) = tab_find j t) as Hfr.
  { intros j Hj. rewrite tab_find_set by done. by case_if. }
  destruct (existsb _ _) eqn:Hex.
  - destruct (check_waiting_spec now il' (tab_set inode il' t)) as (t' & Heq & Hwf' & Hj).
    + by apply tab_wf_set.
    + rewrite tab_find_set by done. simpl. by rewrite Z.eqb_refl, Hf.
    + eexists _, _. split; [exact Heq|]. split; [split; [done|]|].
      * intros j il0. rewrite Hj. simpl. case_if; [by apply checked_ok|]. rewrite Hfr by congruence. apply Hall.
      * intros j Hj0. rewrite Hj. simpl. case_if; [congruence|auto].
  - assert (il_active il' = il_active il) as Hact.
    { simpl. clear -Hex. induction (il_active il) as [|al a IH]; [done|]. simpl in Hex. zbool.
      rewrite filter_cons, decide_True, IH by done. done. }
    assert (il_empty il' = false) as ->.
    { unfold il_empty. rewrite Hact. by destruct (il_active il). }
    eexists _, _. split; [done|]. split; [|done].
    apply posix_inv_set; [done| |done]. split; [done|]. by rewrite Hact.
Qed.

Lemma disconnected_inv connptr t : posix_inv t → posix_inv (posix_lock_disconnected connptr t).
Proof.
  intros [Hwf Hall]. split; [by apply tab_wf_map|]. intros inode il.
  unfold posix_lock_disconnected. rewrite tab_find_map by done.
  destruct (tab_find inode t) as [il0|] eqn:Hf; simpl; [|done]. intros [= <-].
  apply il_ok_waiting; [by eauto|]. apply Forall_filter_keep, (Hall _ _ Hf).
Qed.

(** ** Waking the queue

    One pass over the queue leaves only requests that are still blocked, provided
    no request in it is a downgrade: a read request of an owner that holds, or
    waits for, a write lock. *)

Definition wl_key (wl : wlock) : Z * Z := (wl_sessionid wl, wl_owner wl).

Definition no_downgrade (active : list alock) (ws : list wlock) : Prop :=
  ∀ wl, wl ∈ ws → wl_type wl = POSIX_LOCK_RDLCK →
    (∀ x, held active (wl_key wl) x ≠ POSIX_LOCK_WRLCK) ∧
    (∀ wl', wl' ∈ ws → wl_key wl' = wl_key wl → wl_type wl' ≠ POSIX_LOCK_WRLCK).

(** Every conflict with [a] is a conflict with [a']. *)
Definition stronger (a a' : list alock) : Prop :=
  ∀ k x t, conflict t (held a k x) → conflict t (held a' k x).

Definition blocked (a : list alock) (wl : wlock) : Prop :=
  posix_lock_find_offensive_lock a (wl_sessionid wl) (wl_owner wl) (wl_type wl) (wl_start wl) (wl_end wl) = true.

Lemma blocked_stronger a a' wl :
  alocks_wf a → alocks_wf a' → wlock_ok wl → stronger a a' → blocked a wl → blocked a' wl.
Proof.
  intros Hwf Hwf' [Ht (_ & Hse & _)] Hst Hb. unfold blocked in *.
  apply not_false_iff_true. intros Hf. apply (eq_true_false_abs _ Hb).
  apply find_offensive_false; [done..|]. intros k x Hk Hx Hc. apply Hst in Hc.
  revert k x Hk Hx Hc. by apply find_offensive_false.
Qed.

Lemma stronger_apply a wl :
  alocks_wf a → wlock_ok wl →
  (wl_type wl = POSIX_LOCK_RDLCK → ∀ x, held a (wl_key wl) x ≠ POSIX_LOCK_WRLCK) →
  stronger a (posix_lock_do_apply_lock a (wl_sessionid wl) (wl_owner wl) (wl_type wl) (wl_start wl) (wl_end wl) (wl_pid wl)).
Proof.
  intros Hwf Hwl Hno k x t Hc. rewrite held_apply by (done || by apply valid_update_wlock).
  case_if; [|done]. subst k. destruct Hc as (Ht & Ht' & Hc), Hwl as [Hty _].
  split; [done|]. split; [done|]. destruct Hty as [Hty|Hty]; [|by right].
  destruct Hc as [?|Hc]; [by left|]. by apply Hno in Hc.
Qed.

Lemma no_downgrade_apply a wl ws :
  alocks_wf a → wlock_ok wl → no_downgrade a (wl :: ws) →
  no_downgrade (posix_lock_do_apply_lock a (wl_sessionid wl) (wl_owner wl) (wl_type wl) (wl_start wl) (wl_end wl) (wl_pid wl)) ws.
Proof.
  intros Hwf Hwl Hnd wl' Hin Hrd. destruct (Hnd wl') as [Hh Hq]; [by constructor|done|]. split.
  - intros x. rewrite held_apply by (done || by apply valid_update_wlock). case_if; [|apply Hh].
    apply Hq; [constructor|]. by symmetry.
  - intros wl'' Hin'. apply Hq. by constructor.
Qed.

Lemma grant_waiting_stronger now inode a ws a' ws' evs :
  alocks_wf a → Forall wlock_ok ws → no_downgrade a ws →
  grant_waiting now inode a ws = (a', ws', evs) → stronger a a' ∧ Forall (blocked a') ws' ∧ alocks_wf a'.
Proof.
  intros Hwf Hws. revert a a' ws' evs Hwf.
  induction Hws as [|wl ws Hwl Hws IH]; simpl; intros a a' ws' evs Hwf Hnd.
  { intros [= <- <- <-]. split; [|by split; [constructor|]]. by intros ???. }
  destruct (posix_lock_find_offensive_lock _ _ _ _ _ _) eqn:Hoff.
  - destruct (grant_waiting _ _ a ws) as [[a1 ws1] evs1] eqn:Hg. intros [= <- <- <-].
    destruct (IH a a1 ws1 evs1) as (Hst & Hb & Hwf1); [done| |done|].
    { intros w Hin Hrd. destruct (Hnd w) as [? Hq]; [by constructor|done|]. split; [done|].
      intros w' Hin'. apply Hq. by constructor. }
    split; [done|]. split; [|done]. constructor; [|done]. by apply (blocked_stronger a).
  - destruct (grant_waiting _ _ _ ws) as [[a1 ws1] evs1] eqn:Hg. intros [= <- <- <-].
    pose proof (valid_update_wlock _ Hwl) as Hv. pose proof Hwl as [Ht Hsp].
    edestruct IH as (Hst & Hb & Hwf1); [| |exact Hg|].
    + by apply alocks_wf_apply.
    + by apply no_downgrade_apply.
    + split; [|done]. intros k x t Hc. apply Hst. apply stronger_apply; [done|done| |done].
      intros Hrd. apply (Hnd wl); [constructor|done].
Qed.
