(* ===== verification/PosixReplay.v ===== *)
(** * Replaying the changelog of POSIX locks

    A master that follows another one, or [mfsmetarestore], rebuilds the lock
    table by replaying the [POSIXLOCK] entries of the changelog with
    [posix_lock_mr_change].  The theorems relate the table of the running master,
    with its queues, to the table of the follower, which has none: every command
    leaves the two with the same active locks, and every entry is accepted. *)

From S2P Require Import Prelude MfsComm HashChain Changelog PosixRanges PosixLocks.

(** The active locks of an inode. *)
Definition active_of (t : posix_tab) (inode : Z) : list alock :=
  match tab_find inode t with Some il => il_active il | None => [] end.

(** The lock part of [restore.c]: one entry, [None] when it is refused. *)
Definition replay_posixlock (c : centry) (t : posix_tab) : option posix_tab :=
  match c with
  | POSIXLOCK _ inode sessionid owner cmd start end_ pid =>
      '(t', status, _) ← posix_lock_mr_change inode sessionid owner cmd start end_ pid t;
      if status =? MFS_STATUS_OK then Some t' else None
  | _ => None
  end.

Fixpoint replay_posixlocks (cs : list centry) (t : posix_tab) : option posix_tab :=
  match cs with
  | [] => Some t
  | c :: rest => t' ← replay_posixlock c t; replay_posixlocks rest t'
  end.

(** A follower: the invariant, and no queues. *)
Definition follower (r : posix_tab) : Prop :=
  posix_inv r ∧ ∀ inode il, tab_find inode r = Some il → il_waiting il = [].

Definition same_active (t r : posix_tab) : Prop := ∀ inode, active_of t inode = active_of r inode.

Lemma char_type_lock_char type :
  type = POSIX_LOCK_UNLCK ∨ lock_type type → char_type (lock_char type) = Some type.
Proof. by intros [->|[->| ->]]. Qed.

Lemma active_of_nil t inode : posix_inv t → active_of t inode = [] → tab_find inode t = None.
Proof.
  intros [_ Hall]. unfold active_of. destruct (tab_find inode t) as [il|] eqn:Hf; [|done].
  intros Hnil. by destruct (Hall _ _ Hf).
Qed.

(** ** One entry *)

Lemma il_pre_new inode : il_pre (mk_inodelocks inode [] []).
Proof. split; simpl; [by split; constructor| |done]. intros k k' x _ (Hc & _). lock_solve. Qed.

(** The record an entry is applied to, and the table that holds it. *)
Lemma mr_record r inode type :
  follower r → (type = POSIX_LOCK_UNLCK → active_of r inode ≠ []) →
  ∃ il r0,
    match tab_find inode r with
    | Some il => Some (il, r)
    | None => if type =? POSIX_LOCK_UNLCK then None else Some (posix_lock_inode_new inode r)
    end = Some (il, r0) ∧ tab_wf r0 ∧ tab_find inode r0 = Some il ∧ il_pre il ∧ il_waiting il = [] ∧
    il_active il = active_of r inode ∧ (∀ j, j ≠ inode → tab_find j r0 = tab_find j r).
Proof.
  intros [[Hwf Hall] Hnw] Hun. unfold active_of in *.
  destruct (tab_find inode r) as [il|] eqn:Hf.
  - exists il, r. destruct (Hall _ _ Hf). do 6 (split; [by eauto|]). done.
  - case_if; [by destruct Hun|]. eexists _, _. split; [done|].
    split; [by apply tab_wf_add|]. split.
    { rewrite tab_find_add by done. simpl. by rewrite Z.eqb_refl. }
    split; [apply il_pre_new|]. do 2 (split; [done|]).
    intros j Hj. rewrite tab_find_add by done. simpl. by case_if.
Qed.

(** Storing the new record, or unlinking it when it is empty. *)
Lemma mr_store r inode il0 il' :
  tab_wf r → tab_find inode r = Some il0 → il_inode il' = inode →
  ∃ r', (if il_empty il'
         then t'' ← posix_lock_inode_remove inode (tab_set inode il' r); Some (t'', MFS_STATUS_OK, [MetaVersionInc])
         else Some (tab_set inode il' r, MFS_STATUS_OK, [MetaVersionInc]))
        = Some (r', MFS_STATUS_OK, [MetaVersionInc]) ∧ tab_wf r' ∧
    ∀ j, tab_find j r' =
      if inode =? j then (if il_empty il' then None else Some il') else tab_find j r.
Proof.
  intros Hwf Hf Hi. assert (tab_wf (tab_set inode il' r)) as Hwf' by (by apply tab_wf_set).
  assert (∀ j, tab_find j (tab_set inode il' r) = if inode =? j then Some il' else tab_find j r) as Hset.
  { intros j. rewrite tab_find_set by done. case_if; [subst; by rewrite Hf|done]. }
  destruct (il_empty il') eqn:He; [|by eauto].
  rewrite (inode_remove_ok _ il') by (try done; rewrite Hset, Z.eqb_refl; done). simpl.
  eexists. split; [done|]. split; [by apply tab_wf_remove|].
  intros j. rewrite tab_find_remove by done. case_if; [done|]. rewrite Hset. by case_if.
Qed.

Lemma mr_change_spec r inode s o type start end_ pid :
  follower r → (type = POSIX_LOCK_UNLCK ∨ lock_type type) → valid_span start end_ →
  (type = POSIX_LOCK_UNLCK → active_of r inode ≠ []) →
  (lock_type type → posix_lock_find_offensive_lock (active_of r inode) s o type start end_ = false) →
  ∃ r', posix_lock_mr_change inode s o (lock_char type) start end_ pid r
        = Some (r', MFS_STATUS_OK, [MetaVersionInc]) ∧ follower r' ∧
    ∀ j, active_of r' j = if inode =? j
      then posix_lock_do_apply_lock (active_of r inode) s o type start end_ pid else active_of r j.
Proof.
  intros Hfol Ht Hsp Hun Hfree. pose proof Hfol as [[_ Hall] Hnw].
  unfold posix_lock_mr_change, posix_lock_inode_find. rewrite char_type_lock_char by done.
  destruct (mr_record r inode type Hfol Hun) as (il & r0 & -> & Hwf0 & Hf0 & Hpre & Hw & Ha & Hfr).
  rewrite <-Ha in Hfree |- *.
  assert ((negb (type =? POSIX_LOCK_UNLCK) &&
    posix_lock_find_offensive_lock (il_active il) s o type start end_)%bool = false) as ->.
  { destruct Ht as [->|Ht]; [done|]. rewrite Hfree by done. apply andb_false_r. }
  pose proof (il_pre_apply inode il s o type start end_ pid Hpre
    (conj Ht (proj1 (proj2 Hsp))) Hsp) as Hpre'.
  set (il' := mk_inodelocks inode _ _) in *.
  destruct (mr_store r0 inode il il') as (r' & Heq & Hwf' & Hfind); [done..|].
  exists r'. split; [exact Heq|].
  assert (il_empty il' = true ↔ il_active il' = []) as Hemp.
  { unfold il_empty. replace (il_waiting il') with (@nil wlock) by done. by destruct (il_active il'). }
  split; [split; [split; [done|]|]|]; intros j.
  - intros il1. rewrite Hfind. repeat case_if; [done|..].
    + intros [= <-]. split; [apply Hpre'; destruct Ht; auto|]. intros Hnil%Hemp. congruence.
    + rewrite Hfr by done. apply Hall.
  - intros il1. rewrite Hfind. repeat case_if; [done|by intros [= <-]|]. rewrite Hfr by done. apply Hnw.
  - unfold active_of. rewrite Hfind. repeat case_if; [symmetry; by apply Hemp|done|by rewrite Hfr by done].
Qed.

(** ** The entries of one command *)

Lemma replay_one r ts inode s o type start end_ pid cs :
  follower r → (type = POSIX_LOCK_UNLCK ∨ lock_type type) → valid_span start end_ →
  (type = POSIX_LOCK_UNLCK → active_of r inode ≠ []) →
  (lock_type type → posix_lock_find_offensive_lock (active_of r inode) s o type start end_ = false) →
  ∃ r', replay_posixlocks (POSIXLOCK ts inode s o (lock_char type) start end_ pid :: cs) r
        = replay_posixlocks cs r' ∧ follower r' ∧
    ∀ j, active_of r' j = if inode =? j
      then posix_lock_do_apply_lock (active_of r inode) s o type start end_ pid else active_of r j.
Proof.
  intros Hfol Ht Hsp Hun Hfree.
  destruct (mr_change_spec r inode s o type start end_ pid) as (r' & Heq & ? & ?); [done..|].
  exists r'. simpl. by rewrite Heq.
Qed.

Lemma replay_grants now inode active ws a' ws' evs r :
  follower r → active_of r inode = active → Forall wlock_ok ws →
  grant_waiting now inode active ws = (a', ws', evs) →
  ∃ r', replay_posixlocks (changelog_of evs) r = Some r' ∧ follower r' ∧
    ∀ j, active_of r' j = if inode =? j then a' else active_of r j.
Proof.
  intros Hfol Hact Hws. revert active r a' ws' evs Hfol Hact.
  induction Hws as [|wl ws Hwl Hws IH]; simpl; intros active r a' ws' evs Hfol Hact.
  { intros [= <- <- <-]. exists r. split; [done|]. split; [done|]. intros j. case_if; congruence. }
  destruct Hwl as [Ht Hsp]. destruct (posix_lock_find_offensive_lock _ _ _ _ _ _) eqn:Hoff.
  - destruct (grant_waiting _ _ active ws) as [[a1 ws1] evs1] eqn:Hg. intros [= <- <- <-]. eauto.
  - set (active' := posix_lock_do_apply_lock _ _ _ _ _ _ _).
    destruct (grant_waiting _ _ active' ws) as [[a1 ws1] evs1] eqn:Hg. intros [= <- <- <-].
    destruct (replay_one r now inode (wl_sessionid wl) (wl_owner wl) (wl_type wl) (wl_start wl)
                (wl_end wl) (wl_pid wl) (changelog_of evs1)) as (r1 & Heq & Hfol1 & Hact1);
      [done|by right|done|intros; lock_solve|by rewrite Hact|].
    destruct (IH active' r1 a1 ws1 evs1 Hfol1) as (r2 & Heq2 & Hfol2 & Hact2); [|done|].
    { by rewrite Hact1, Z.eqb_refl, Hact. }
    exists r2. cbn [changelog_of app]. rewrite Heq, Heq2. split; [done|]. split; [done|].
    intros j. rewrite Hact2, Hact1. by case_if.
Qed.

Lemma active_of_find t inode il : tab_find inode t = Some il → active_of t inode = il_active il.
Proof. unfold active_of. by intros ->. Qed.

Lemma replay_apply now inode il s o type start end_ pid t t' evs r :
  tab_wf t → tab_find inode t = Some il → il_pre il → follower r →
  (∀ j, active_of r j = active_of t j) →
  (type = POSIX_LOCK_UNLCK ∨ lock_type type) → valid_span start end_ →
  (type = POSIX_LOCK_UNLCK → il_active il ≠ []) →
  (lock_type type → posix_lock_find_offensive_lock (il_active il) s o type start end_ = false) →
  apply_and_check now inode il s o type start end_ pid t = Some (t', evs) →
  ∃ r', replay_posixlocks (changelog_of evs) r = Some r' ∧ follower r' ∧ same_active t' r'.
Proof.
  intros Hwf Hf Hpre Hfol Hsame Ht Hsp Hun Hfree Hcmd.
  destruct (apply_and_check_spec now inode il s o type start end_ pid t Hwf Hf) as (t1 & Heq & _ & Hfind).
  rewrite Heq in Hcmd. injection Hcmd as <- <-.
  set (il' := mk_inodelocks inode _ _) in *.
  assert (active_of r inode = il_active il) as Hact by (by rewrite Hsame; apply active_of_find).
  cbn [changelog_of].
  destruct (replay_one r now inode s o type start end_ pid (changelog_of (checked_events now il')))
    as (r1 & -> & Hfol1 & Hact1); [done..|by rewrite Hact|by rewrite Hact|].
  destruct (grant_waiting now inode (il_active il') (il_waiting il')) as [[a ws] evs] eqn:Hg.
  destruct (replay_grants now inode (il_active il') (il_waiting il') a ws evs r1)
    as (r2 & Heq2 & Hfol2 & Hact2); [done| |apply Hpre|done|].
  { by rewrite Hact1, Z.eqb_refl, Hact. }
  exists r2. unfold checked_events. change (il_inode il') with inode. rewrite Hg. simpl.
  split; [done|]. split; [done|]. intros j. rewrite Hact2. unfold active_of at 1. rewrite Hfind.
  case_if; [|by rewrite Hact1; case_if; [|rewrite Hsame]].
  unfold checked. change (il_inode il') with inode. rewrite Hg. destruct (il_empty il') eqn:He; [|done].
  unfold il_empty in He. destruct (il_active il'), (il_waiting il'); simpl in Hg; congruence.
Qed.

Lemma interrupt_no_log wls connptr reqid :
  changelog_of (interrupt_waiting wls connptr reqid).2 = [].
Proof.
  induction wls as [|wl wls IH]; simpl; [done|]. case_if; [done|].
  by destruct (interrupt_waiting wls connptr reqid).
Qed.

(** A change of the queue only. *)
Lemma same_active_queue inode il ws t r :
  tab_wf t → tab_find inode t = Some il → same_active t r →
  same_active (tab_set inode (mk_inodelocks (il_inode il) (il_active il) ws) t) r.
Proof.
  intros Hwf Hf Hsame j. rewrite <-Hsame. unfold active_of.
  rewrite tab_find_set by (done || exact (tab_find_inode _ _ _ Hf)).
  case_if; [|done]. subst j. by rewrite Hf.
Qed.

(** One command. *)
Lemma cmd_replay ofc now connptr s msgid reqid inode o op type start end_ pid t t' rp evs r :
  posix_inv t → follower r → same_active t r → cmd_args_ok type start end_ →
  posix_lock_cmd ofc now connptr s msgid reqid inode o op type start end_ pid t = Some (t', rp, evs) →
  ∃ r', replay_posixlocks (changelog_of evs) r = Some r' ∧ follower r' ∧ same_active t' r'.
Proof.
  intros Hinv Hfol Hsame [Ht Hsp]. pose proof Hinv as [Hwf Hall].
  assert (∀ t1 evs1, same_active t1 r → changelog_of evs1 = [] →
    ∃ r', replay_posixlocks (changelog_of evs1) r = Some r' ∧ follower r' ∧ same_active t1 r') as Hquiet.
  { intros t1 evs1 ? ->. by exists r. }
  unfold posix_lock_cmd, posix_lock_inode_find.
  case_if; [intros [= <- <- <-]; auto|]. case_if.
  { destruct (tab_find inode t) as [il|] eqn:Hf; [|intros [= <- <- <-]; auto].
    unfold posix_lock_interrupt. pose proof (interrupt_no_log (il_waiting il) connptr reqid) as Hlog.
    destruct (interrupt_waiting _ _ _) as [ws evs0]. intros [= <- <- <-].
    apply Hquiet; [by apply same_active_queue|done]. }
  case_if; [destruct (match tab_find inode t with Some _ => _ | None => _ end) as [[]|]; intros [= <- <- <-]; auto|].
  destruct (tab_find inode t) as [il|] eqn:Hf.
  - destruct (Hall _ _ Hf) as [Hpre Hne].
    repeat case_if; try (intros [= <- <- <-]; apply Hquiet; [done || by apply same_active_queue|done]);
      (destruct (apply_and_check _ _ _ _ _ _ _ _ _ _) as [[t1 evs1]|] eqn:Happ; [|done]);
      intros [= <- <- <-]; eapply (replay_apply now inode il s o type start end_ pid t); eauto;
      intros; lock_solve.
  - case_if; [intros [= <- <- <-]; auto|]. simpl.
    destruct (apply_and_check _ _ _ _ _ _ _ _ _ _) as [[t1 evs1]|] eqn:Happ; [|done].
    intros [= <- <- <-].
    eapply (replay_apply now inode (mk_inodelocks inode [] []) s o type start end_ pid
              (tab_add (mk_inodelocks inode [] []) t)); eauto.
    + by apply tab_wf_add.
    + rewrite tab_find_add by done. simpl. by rewrite Z.eqb_refl.
    + apply il_pre_new.
    + intros j. rewrite <-Hsame. unfold active_of. rewrite tab_find_add by done. simpl.
      case_if; [subst; by rewrite Hf|done].
Qed.

(** ** A run of the master *)

(** A command with the session's answer of [of_checknode] and the time it came. *)
Record posix_cmd := mk_posix_cmd {
  pc_open : bool; pc_now : Z; pc_connptr : Z; pc_sessionid : Z; pc_msgid : Z; pc_reqid : Z; pc_inode : Z;
  pc_owner : Z; pc_op : Z; pc_type : Z; pc_start : Z; pc_end : Z; pc_pid : Z }.

Definition run_cmd (c : posix_cmd) (t : posix_tab) : option (posix_tab * posix_reply * list event) :=
  posix_lock_cmd (λ _ _, pc_open c) (pc_now c) (pc_connptr c) (pc_sessionid c) (pc_msgid c) (pc_reqid c)
    (pc_inode c) (pc_owner c) (pc_op c) (pc_type c) (pc_start c) (pc_end c) (pc_pid c) t.

Fixpoint run_cmds (cs : list posix_cmd) (t : posix_tab) : option (posix_tab * list event) :=
  match cs with
  | [] => Some (t, [])
  | c :: rest =>
      '(t, _, evs) ← run_cmd c t;
      '(t, evs') ← run_cmds rest t;
      Some (t, evs ++ evs')
  end.

Lemma replay_app cs cs' t :
  replay_posixlocks (cs ++ cs') t = t' ← replay_posixlocks cs t; replay_posixlocks cs' t'.
Proof. revert t. induction cs as [|c cs IH]; intros t; simpl; [done|]. destruct (replay_posixlock c t); simpl; [apply IH|done]. Qed.

Lemma run_cmds_replay cs t r :
  posix_inv t → follower r → same_active t r →
  Forall (λ c, cmd_args_ok (pc_type c) (pc_start c) (pc_end c)) cs →
  ∃ t' evs r', run_cmds cs t = Some (t', evs) ∧ replay_posixlocks (changelog_of evs) r = Some r' ∧
    posix_inv t' ∧ follower r' ∧ same_active t' r'.
Proof.
  intros Hinv Hfol Hsame Hcs. revert t r Hinv Hfol Hsame.
  induction Hcs as [|c cs Hc Hcs IH]; intros t r Hinv Hfol Hsame; simpl.
  { by exists t, [], r. }
  destruct (cmd_inv (λ _ _, pc_open c) (pc_now c) (pc_connptr c) (pc_sessionid c) (pc_msgid c) (pc_reqid c)
    (pc_inode c) (pc_owner c) (pc_op c) (pc_type c) (pc_start c) (pc_end c) (pc_pid c) t Hinv Hc)
    as (t1 & rp & evs & Hcmd & Hinv1).
  destruct (cmd_replay _ _ _ _ _ _ _ _ _ _ _ _ _ _ _ _ _ r Hinv Hfol Hsame Hc Hcmd) as (r1 & Hr1 & Hfol1 & Hsame1).
  unfold run_cmd. rewrite Hcmd. cbn [mbind option_bind].
  destruct (IH t1 r1 Hinv1 Hfol1 Hsame1) as (t' & evs' & r' & -> & Hr' & ? & ? & ?).
  exists t', (evs ++ evs'), r'. split; [done|]. rewrite changelog_of_app, replay_app, Hr1. done.
Qed.


(** Session 1 locks bytes 0..99 for writing, session 2 waits for bytes 50..149,
    session 1 unlocks bytes 40..99, which grants the request. *)
Definition ex_cmds : list posix_cmd :=
  [mk_posix_cmd true 100 1 1 1 1 7 10 POSIX_LOCK_CMD_SET POSIX_LOCK_WRLCK 0 100 0;
   mk_posix_cmd true 101 2 2 1 1 7 20 POSIX_LOCK_CMD_SET POSIX_LOCK_WRLCK 50 150 0;
   mk_posix_cmd true 102 1 1 2 2 7 10 POSIX_LOCK_CMD_SET POSIX_LOCK_UNLCK 40 100 0].

