(* ===== verification/FlockLocks.v ===== *)
(** * Whole-file locks of the master (mfsmaster/flocklocks.c)

    State: the hash table [inodehash] of [inodelocks] records; each holds the
    active locks of an inode (newest first) and the queue of waiting locks
    (oldest first: the C list with its [waiting_tail] pointer).  A waiting lock
    carries the list of the client requests that wait for it. *)

From S2P Require Import Prelude MfsComm HashChain Changelog.

Definition MODE_CORRECT : Z := 0.
Definition MODE_BSD : Z := 1.
Definition MODE_LINUX : Z := 2.

Definition STATE_WAITING : Z := 0.
Definition STATE_ACTIVE : Z := 1.

Definition LTYPE_READER : Z := 0.
Definition LTYPE_WRITER : Z := 1.

Record instance := mk_instance { i_msgid : Z; i_reqid : Z }.

Record lock := mk_lock {
  l_owner : Z; l_connptr : Z; l_sessionid : Z; l_state : Z; l_ltype : Z;
  l_instances : list instance }.

Record flocks := mk_flocks {
  fl_inode : Z; fl_active : list lock; fl_waiting : list lock }.

Definition FLOCK_INODE_HASHSIZE : Z := 1024.

Definition FLOCK_INODE_HASH (inode : Z) : Z :=
  u32 (inode * 0x738A2379) `mod` FLOCK_INODE_HASHSIZE.

#[export] Program Instance flocks_keyed : HashKeyed flocks := {|
  hk_key := fl_inode;
  hk_hash := FLOCK_INODE_HASH;
  hk_size := FLOCK_INODE_HASHSIZE |}.
Next Obligation. intros k. apply Z.mod_pos_bound. done. Qed.

Abbreviation flock_tab := (list (list flocks)).

Definition flock_inode_find (inode : Z) (t : flock_tab) : option flocks := tab_find inode t.

Definition flock_inode_new (inode : Z) (t : flock_tab) : flocks * flock_tab :=
  let il := mk_flocks inode [] [] in (il, tab_add il t).

Definition fl_empty (il : flocks) : bool :=
  match fl_active il, fl_waiting il with [], [] => true | _, _ => false end.

Definition flock_inode_remove (inode : Z) (t : flock_tab) : option flock_tab :=
  if forallb (λ il, negb (fl_inode il =? inode) || fl_empty il) (chain_of inode t)
  then Some (tab_remove inode t) else None.

(** Field updates. *)
Definition set_state (st : Z) (l : lock) : lock :=
  mk_lock (l_owner l) (l_connptr l) (l_sessionid l) st (l_ltype l) (l_instances l).
Definition set_ltype (ty : Z) (l : lock) : lock :=
  mk_lock (l_owner l) (l_connptr l) (l_sessionid l) (l_state l) ty (l_instances l).
Definition set_instances (insts : list instance) (l : lock) : lock :=
  mk_lock (l_owner l) (l_connptr l) (l_sessionid l) (l_state l) (l_ltype l) insts.
Definition set_active (a : list lock) (il : flocks) : flocks :=
  mk_flocks (fl_inode il) a (fl_waiting il).
Definition set_waiting (w : list lock) (il : flocks) : flocks :=
  mk_flocks (fl_inode il) (fl_active il) w.

(** Waiting locks go to the tail of the queue, active ones to the head of their list. *)
Definition flock_do_lock_inode_attach (l : lock) (il : flocks) : flocks :=
  if l_state l =? STATE_WAITING then set_waiting (fl_waiting il ++ [l]) il
  else set_active (l :: fl_active il) il.

Definition flock_lock_inode_attach (now : Z) (l : lock) (il : flocks) : flocks * list event :=
  (flock_do_lock_inode_attach l il,
   if l_state l =? STATE_ACTIVE
   then [Log (FLOCK now (fl_inode il) (l_sessionid l) (l_owner l)
                (if l_ltype l =? LTYPE_READER then "R"%char else "W"%char))]
   else []).

(** Every instance with the request id is answered and dropped. *)
Definition flock_lock_wake_up_one (l : lock) (reqid status : Z) : lock * list event :=
  (set_instances (filter (λ i, i_reqid i ≠ reqid) (l_instances l)) l,
   (λ i, FlockWakeUp (l_connptr l) (i_msgid i) status)
     <$> filter (λ i, i_reqid i = reqid) (l_instances l)).

Definition flock_lock_wake_up_all (l : lock) (status : Z) : lock * list event :=
  (set_instances [] l, (λ i, FlockWakeUp (l_connptr l) (i_msgid i) status) <$> l_instances l).

Fixpoint replace_req (insts : list instance) (msgid reqid : Z) : option (list instance) :=
  match insts with
  | [] => None
  | i :: rest =>
      if i_reqid i =? reqid then Some (mk_instance msgid (i_reqid i) :: rest)
      else rest' ← replace_req rest msgid reqid; Some (i :: rest')
  end.

Definition flock_lock_append_req (l : lock) (msgid reqid : Z) : lock :=
  match replace_req (l_instances l) msgid reqid with
  | Some insts => set_instances insts l
  | None => set_instances (mk_instance msgid reqid :: l_instances l) l
  end.

(** The changelog entry of the removal of an active lock. *)
Definition remove_log (now inode : Z) (l : lock) : list event :=
  if l_state l =? STATE_ACTIVE
  then [Log (FLOCK now inode (l_sessionid l) (l_owner l) "U"%char)] else [].

Definition head_is (ty : Z) (ls : list lock) : bool :=
  match ls with l :: _ => l_ltype l =? ty | [] => false end.

Definition is_nil {A} (l : list A) : bool := match l with [] => true | _ => false end.

Section mode.
(** The configured [FlocksMode]. *)
Variable FlocksMode : Z.

Definition flock_check (il : flocks) (ltype : Z) : bool :=
  if ltype =? LTYPE_READER then
    if head_is LTYPE_WRITER (fl_active il) then true
    else if FlocksMode =? MODE_CORRECT then negb (is_nil (fl_waiting il)) else false
  else negb (is_nil (fl_active il)).

Definition flock_lock_new (now : Z) (il : flocks) (ltype connptr sessionid msgid reqid owner : Z)
    : flocks * Z * list event :=
  let l := mk_lock owner connptr sessionid STATE_ACTIVE ltype [] in
  if flock_check il ltype then
    let l := flock_lock_append_req (set_state STATE_WAITING l) msgid reqid in
    let '(il, evs) := flock_lock_inode_attach now l il in (il, MFS_ERROR_WAITING, evs)
  else
    let '(il, evs) := flock_lock_inode_attach now l il in (il, MFS_STATUS_OK, evs).

(** A lock that has been taken off the queue becomes active and its clients are told. *)
Definition activate (now : Z) (l : lock) (il : flocks) : flocks * list event :=
  let '(l', wakes) := flock_lock_wake_up_all (set_state STATE_ACTIVE l) MFS_STATUS_OK in
  let '(il', evs) := flock_lock_inode_attach now l' il in (il', evs ++ wakes).

(** [MODE_LINUX]: every reader of the queue. *)
Fixpoint wake_readers_all (now : Z) (il : flocks) (q : list lock) : flocks * list event :=
  match q with
  | [] => (set_waiting [] il, [])
  | l :: rest =>
      if l_ltype l =? LTYPE_READER then
        let '(il, evs) := activate now l il in
        let '(il, evs') := wake_readers_all now il rest in (il, evs ++ evs')
      else
        let '(il, evs) := wake_readers_all now il rest in (set_waiting (l :: fl_waiting il) il, evs)
  end.

(** Other modes: the readers at the head of the queue. *)
Fixpoint wake_readers_head (now : Z) (il : flocks) (q : list lock) : flocks * list event :=
  match q with
  | l :: rest =>
      if l_ltype l =? LTYPE_READER then
        let '(il, evs) := activate now l il in
        let '(il, evs') := wake_readers_head now il rest in (il, evs ++ evs')
      else (set_waiting q il, [])
  | [] => (set_waiting [] il, [])
  end.

Definition flock_lock_check_waiting (now : Z) (il : flocks) : flocks * list event :=
  match fl_waiting il with
  | [] => (il, [])
  | l :: rest =>
      let '(il1, evs1) :=
        if is_nil (fl_active il) && (l_ltype l =? LTYPE_WRITER)
        then activate now l (set_waiting rest il) else (il, []) in
      if is_nil (fl_active il1) || head_is LTYPE_READER (fl_active il1) then
        let '(il2, evs2) :=
          if FlocksMode =? MODE_LINUX then wake_readers_all now il1 (fl_waiting il1)
          else wake_readers_head now il1 (fl_waiting il1) in
        (il2, evs1 ++ evs2)
      else (il1, evs1)
  end.

(** Unlocking an active lock: [rest] is the active list without it. *)
Definition flock_lock_unlock (now : Z) (il : flocks) (l : lock) (rest : list lock)
    : flocks * list event :=
  let il1 := set_active rest il in
  let evs := remove_log now (fl_inode il) l in
  if is_nil rest && negb (is_nil (fl_waiting il)) then
    let '(il2, evs2) := flock_lock_check_waiting now il1 in (il2, evs ++ evs2)
  else (il1, evs).

(** The first lock of a list that satisfies a test, with what is before and after it. *)
Fixpoint split_first (p : lock → bool) (ls : list lock) : option (list lock * lock * list lock) :=
  match ls with
  | [] => None
  | l :: rest =>
      if p l then Some ([], l, rest)
      else '(pre, x, post) ← split_first p rest; Some (l :: pre, x, post)
  end.

Fixpoint interrupt_queue (now inode : Z) (q : list lock) (connptr sessionid reqid owner : Z)
    : list lock * list event :=
  match q with
  | [] => ([], [])
  | l :: rest =>
      let '(q', evs') := interrupt_queue now inode rest connptr sessionid reqid owner in
      if (l_connptr l =? connptr) && ((l_sessionid l =? sessionid) && (l_owner l =? owner)) then
        let '(l', evs) := flock_lock_wake_up_one l reqid MFS_ERROR_EINTR in
        if is_nil (l_instances l') then (q', evs ++ remove_log now inode l' ++ evs') else (l' :: q', evs ++ evs')
      else (l :: q', evs')
  end.

(** A command that met a lock the owner already holds. *)
Definition cmd_on_active (now connptr sessionid msgid reqid owner op : Z)
    (il : flocks) (pre : list lock) (l : lock) (post : list lock) (t : flock_tab)
    : option (flock_tab * Z * list event) :=
  let inode := fl_inode il in
  let keep il status evs := Some (tab_set inode il t, status, evs) in
  let others := pre ++ post in
  if (op =? FLOCK_UNLOCK) || (op =? FLOCK_RELEASE) then
    let '(il', evs) := flock_lock_unlock now il l others in
    let t' := tab_set inode il' t in
    if fl_empty il' then t'' ← flock_inode_remove inode t'; Some (t'', MFS_STATUS_OK, evs)
    else Some (t', MFS_STATUS_OK, evs)
  else if op =? FLOCK_TRY_SHARED then
    if l_ltype l =? LTYPE_READER then keep il MFS_STATUS_OK []
    else
      let '(il', evs) := flock_lock_check_waiting now
                           (set_active (pre ++ set_ltype LTYPE_READER l :: post) il) in
      keep il' MFS_STATUS_OK evs
  else if op =? FLOCK_LOCK_SHARED then
    if l_ltype l =? LTYPE_READER then keep il MFS_STATUS_OK []
    else
      let '(il1, evs1) := flock_lock_unlock now il l others in
      let '(il2, status, evs2) :=
        flock_lock_new now il1 LTYPE_READER connptr sessionid msgid reqid owner in
      keep il2 status (evs1 ++ evs2)
  else if op =? FLOCK_TRY_EXCLUSIVE then
    if l_ltype l =? LTYPE_WRITER then keep il MFS_STATUS_OK []
    else if is_nil others then
      keep (set_active (pre ++ set_ltype LTYPE_WRITER l :: post) il) MFS_STATUS_OK []
    else keep il MFS_ERROR_EAGAIN []
  else if op =? FLOCK_LOCK_EXCLUSIVE then
    if l_ltype l =? LTYPE_WRITER then keep il MFS_STATUS_OK []
    else
      let '(il1, evs1) := flock_lock_unlock now il l others in
      let '(il2, status, evs2) :=
        flock_lock_new now il1 LTYPE_WRITER connptr sessionid msgid reqid owner in
      keep il2 status (evs1 ++ evs2)
  else keep il MFS_ERROR_EINVAL [].

(** A command that met a lock of the same client in the queue. *)
Definition cmd_on_waiting (now msgid reqid op : Z)
    (il : flocks) (pre : list lock) (l : lock) (post : list lock) (t : flock_tab)
    : option (flock_tab * Z * list event) :=
  let inode := fl_inode il in
  let keep il status evs := Some (tab_set inode il t, status, evs) in
  let '(l0, cancels) := flock_lock_wake_up_all l MFS_ERROR_ECANCELED in
  let removed := set_waiting (pre ++ post) il in
  let replaced l := set_waiting (pre ++ l :: post) il in
  let request ltype :=
    if l_ltype l =? ltype then
      keep (replaced (flock_lock_append_req l msgid reqid)) MFS_ERROR_WAITING []
    else
      keep (replaced (flock_lock_append_req (set_ltype ltype l0) msgid reqid)) MFS_ERROR_WAITING cancels in
  if op =? FLOCK_RELEASE then
    keep removed MFS_STATUS_OK (cancels ++ remove_log now inode l)
  else if op =? FLOCK_UNLOCK then
    if FlocksMode =? MODE_CORRECT then
      keep removed MFS_STATUS_OK (cancels ++ remove_log now inode l)
    else keep il MFS_STATUS_OK []
  else if (op =? FLOCK_TRY_SHARED) || (op =? FLOCK_TRY_EXCLUSIVE) then keep il MFS_ERROR_EAGAIN []
  else if op =? FLOCK_LOCK_SHARED then request LTYPE_READER
  else if op =? FLOCK_LOCK_EXCLUSIVE then request LTYPE_WRITER
  else keep il MFS_ERROR_EINVAL [].

(** The part of a command that looks for a lock of the owner in the record of the
    inode: an active one, one of the queue, or none, when a new lock is made. *)
Definition cmd_on_record (now connptr sessionid msgid reqid owner op : Z) (il : flocks) (t : flock_tab)
    : option (flock_tab * Z * list event) :=
  match split_first (λ l, (l_sessionid l =? sessionid) && (l_owner l =? owner)) (fl_active il) with
  | Some (pre, l, post) => cmd_on_active now connptr sessionid msgid reqid owner op il pre l post t
  | None =>
      match split_first (λ l, (l_connptr l =? connptr) &&
                           ((l_sessionid l =? sessionid) && (l_owner l =? owner))) (fl_waiting il) with
      | Some (pre, l, post) => cmd_on_waiting now msgid reqid op il pre l post t
      | None =>
          if (op =? FLOCK_UNLOCK) || (op =? FLOCK_RELEASE) then Some (t, MFS_STATUS_OK, [])
          else
            let ltype := if (op =? FLOCK_TRY_SHARED) || (op =? FLOCK_LOCK_SHARED)
                         then LTYPE_READER else LTYPE_WRITER in
            if ((op =? FLOCK_TRY_SHARED) || (op =? FLOCK_TRY_EXCLUSIVE)) && flock_check il ltype
            then Some (t, MFS_ERROR_EAGAIN, [])
            else
              let '(il', status, evs) :=
                flock_lock_new now il ltype connptr sessionid msgid reqid owner in
              Some (tab_set (fl_inode il) il' t, status, evs)
      end
  end.

Definition flock_locks_cmd (of_checknode : Z → Z → bool) (now : Z)
    (connptr sessionid msgid reqid inode owner op : Z) (t : flock_tab)
    : option (flock_tab * Z * list event) :=
  if negb (op =? FLOCK_INTERRUPT) && (negb (op =? FLOCK_RELEASE) && negb (of_checknode sessionid inode)) then
    Some (t, MFS_ERROR_NOTOPENED, [])
  else
  let found :=
    match flock_inode_find inode t with
    | Some il => Some (il, t)
    | None =>
        if (op =? FLOCK_UNLOCK) || ((op =? FLOCK_INTERRUPT) || (op =? FLOCK_RELEASE)) then None
        else Some (flock_inode_new inode t)
    end in
  match found with
  | None => Some (t, MFS_STATUS_OK, [])
  | Some (il, t) =>
      if op =? FLOCK_INTERRUPT then
        let '(q, evs) := interrupt_queue now inode (fl_waiting il) connptr sessionid reqid owner in
        Some (tab_set inode (set_waiting q il) t, MFS_STATUS_OK, evs)
      else
      cmd_on_record now connptr sessionid msgid reqid owner op il t
  end.

(** The active locks of a session, unlocked one after the other; [pre] are the
    locks already passed over.  When the list runs empty the queue is woken, and
    there is nothing left to visit. *)
Fixpoint close_flocks (now sessionid : Z) (il : flocks) (pre rest : list lock) : flocks * list event :=
  match rest with
  | [] => (set_active pre il, [])
  | l :: rest' =>
      if l_sessionid l =? sessionid then
        let '(il1, evs) := flock_lock_unlock now il l (pre ++ rest') in
        if is_nil (pre ++ rest') then (il1, evs)
        else let '(il2, evs2) := close_flocks now sessionid il pre rest' in (il2, evs ++ evs2)
      else close_flocks now sessionid il (pre ++ [l]) rest'
  end.

Definition flock_file_closed (now sessionid inode : Z) (t : flock_tab)
    : option (flock_tab * list event) :=
  match flock_inode_find inode t with
  | None => Some (t, [])
  | Some il =>
      let il1 := set_waiting (filter (λ l, l_sessionid l ≠ sessionid) (fl_waiting il)) il in
      let evs0 := concat (remove_log now inode <$> filter (λ l, l_sessionid l = sessionid) (fl_waiting il)) in
      let '(il2, evs) := close_flocks now sessionid il1 [] (fl_active il1) in
      let t' := tab_set inode il2 t in
      if fl_empty il2 then t'' ← flock_inode_remove inode t'; Some (t'', evs0 ++ evs)
      else Some (t', evs0 ++ evs)
  end.

End mode.

Definition flock_disconnected (connptr : Z) (t : flock_tab) : flock_tab :=
  tab_map (λ il, set_waiting (filter (λ l, l_connptr l ≠ connptr) (fl_waiting il)) il) t.

(** Replay of a changelog entry.  The connection of a replayed lock is not set by
    the source; active locks never use it, and it is 0 here. *)
Definition flock_char_ltype (cmd : ascii) : option Z :=
  if (cmd =? "R")%char || ((cmd =? "r")%char || ((cmd =? "S")%char || (cmd =? "s")%char))
  then Some LTYPE_READER
  else if (cmd =? "W")%char || ((cmd =? "w")%char || ((cmd =? "E")%char || (cmd =? "e")%char))
  then Some LTYPE_WRITER
  else None.

Definition flock_mr_change (inode sessionid owner : Z) (cmd : ascii) (t : flock_tab)
    : option (flock_tab * Z * list event) :=
  if (cmd =? "U")%char || (cmd =? "u")%char then
    match flock_inode_find inode t with
    | None => Some (t, MFS_ERROR_MISMATCH, [])
    | Some il =>
        let gone l := l_sessionid l = sessionid ∧ l_owner l = owner in
        let il' := set_active (filter (λ l, ¬ gone l) (fl_active il)) il in
        let evs := (λ _, MetaVersionInc) <$> filter gone (fl_active il) in
        let t' := tab_set inode il' t in
        if fl_empty il' then t'' ← flock_inode_remove inode t'; Some (t'', MFS_STATUS_OK, evs)
        else Some (t', MFS_STATUS_OK, evs)
    end
  else
  match flock_char_ltype cmd with
  | None => Some (t, MFS_ERROR_EINVAL, [])
  | Some ltype =>
      let '(il, t) := match flock_inode_find inode t with
                      | Some il => (il, t) | None => flock_inode_new inode t end in
      if negb (is_nil (fl_active il)) && (head_is LTYPE_WRITER (fl_active il) || (ltype =? LTYPE_WRITER))
      then Some (t, MFS_ERROR_MISMATCH, [])
      else
        let l := mk_lock owner 0 sessionid STATE_ACTIVE ltype [] in
        Some (tab_set inode (flock_do_lock_inode_attach l il) t, MFS_STATUS_OK, [MetaVersionInc])
  end.

(** ** The invariant *)

Definition valid_ltype (ty : Z) : Prop := ty = LTYPE_READER ∨ ty = LTYPE_WRITER.
Definition reader (l : lock) : Prop := l_ltype l = LTYPE_READER.

Definition lock_active (l : lock) : Prop :=
  l_state l = STATE_ACTIVE ∧ l_instances l = [] ∧ valid_ltype (l_ltype l).
Definition lock_waiting (l : lock) : Prop :=
  l_state l = STATE_WAITING ∧ l_instances l ≠ [] ∧ valid_ltype (l_ltype l).

(** Readers share; a writer is alone. *)
Definition shared_or_single (a : list lock) : Prop := Forall reader a ∨ ∃ l, a = [l].

Record fl_pre (il : flocks) : Prop := {
  fl_pre_excl : shared_or_single (fl_active il);
  fl_pre_active : Forall lock_active (fl_active il);
  fl_pre_waiting : Forall lock_waiting (fl_waiting il) }.

(** Between commands a record holds at least one active lock: nobody waits for an
    unlocked file. *)
Definition fl_ok (il : flocks) : Prop := fl_pre il ∧ fl_active il ≠ [].

Definition flock_inv (t : flock_tab) : Prop :=
  tab_wf t ∧ ∀ inode il, tab_find inode t = Some il → fl_ok il.

(** ** Waking the queue *)

Definition activated (l : lock) : lock := set_instances [] (set_state STATE_ACTIVE l).

Lemma activate_spec now l il :
  ∃ evs, activate now l il = (set_active (activated l :: fl_active il) il, evs).
Proof. eexists. reflexivity. Qed.

Lemma activated_active l : lock_waiting l → lock_active (activated l).
Proof. by intros (_ & _ & ?). Qed.

(** What a pass over the queue does to a record: new active readers in front, a
    sublist of the queue left. *)
Definition woken (il : flocks) (q : list lock) (il' : flocks) : Prop :=
  ∃ k, fl_active il' = k ++ fl_active il ∧ Forall reader k ∧ Forall lock_active k ∧
    fl_waiting il' `sublist_of` q ∧ fl_inode il' = fl_inode il ∧
    (head_is LTYPE_READER q = true → k ≠ []).

Lemma woken_cons now il l q il1 evs il' :
  reader l → lock_waiting l → activate now l il = (il1, evs) → woken il1 q il' → woken il (l :: q) il'.
Proof.
  intros Hr Hl. destruct (activate_spec now l il) as [evs0 ->]. intros [= <- <-].
  intros (k & Ha & Hk & Hk' & Hs & Hi & _). exists (k ++ [activated l]).
  rewrite Ha. simpl. rewrite <-app_assoc. split; [done|].
  split; [apply Forall_app; by split; [|constructor]|].
  split; [apply Forall_app; split; [done|by apply Forall_singleton, activated_active]|].
  split; [by apply sublist_cons|]. split; [done|]. intros _. by destruct k.
Qed.

Lemma wake_readers_all_woken now il q :
  Forall lock_waiting q → woken il q (wake_readers_all now il q).1.
Proof.
  intros Hq. revert il. induction Hq as [|l q Hl Hq IH]; intros il; cbn [wake_readers_all].
  { exists []. by repeat split. }
  case_if.
  - destruct (activate now l il) as [il1 evs] eqn:Ha. specialize (IH il1).
    destruct (wake_readers_all now il1 q) as [il2 evs2]. by eapply woken_cons.
  - specialize (IH il). destruct (wake_readers_all now il q) as [il2 evs2].
    destruct IH as (k & ? & ? & ? & ? & ? & _). exists k. simpl.
    do 3 (split; [done|]). split; [by apply sublist_skip|]. split; [done|]. intros ?. zbool. congruence.
Qed.

Lemma wake_readers_head_woken now il q :
  Forall lock_waiting q → woken il q (wake_readers_head now il q).1.
Proof.
  intros Hq. revert il. induction Hq as [|l q Hl Hq IH]; intros il; cbn [wake_readers_head].
  { exists []. by repeat split. }
  case_if.
  - destruct (activate now l il) as [il1 evs] eqn:Ha. specialize (IH il1).
    destruct (wake_readers_head now il1 q) as [il2 evs2]. by eapply woken_cons.
  - exists []. simpl. do 5 (split; [done|]). intros ?. zbool. congruence.
Qed.

Lemma shared_head a : shared_or_single a → head_is LTYPE_READER a = true → Forall reader a.
Proof. intros [?|[l ->]]; [done|]. simpl. intros ?%Z.eqb_eq. by constructor. Qed.

Lemma check_waiting_ok mode now il :
  fl_pre il →
  let il' := (flock_lock_check_waiting mode now il).1 in
  fl_pre il' ∧ fl_inode il' = fl_inode il ∧ (fl_active il ≠ [] ∨ fl_waiting il ≠ [] → fl_active il' ≠ []) ∧
  fl_waiting il' `sublist_of` fl_waiting il.
Proof.
  intros [Hex Ha Hw]. unfold flock_lock_check_waiting.
  destruct (fl_waiting il) as [|l rest] eqn:Hq; simpl.
  { split; [split; [done|done|by rewrite Hq]|]. split; [done|]. by split; [intros [|]|rewrite Hq]. }
  inversion Hw as [|? ? Hl Hrest]; subst.
  destruct (is_nil (fl_active il) && (l_ltype l =? LTYPE_WRITER))%bool eqn:Hwr;
    [apply andb_prop in Hwr as [Hn Hwt]; apply Z.eqb_eq in Hwt|zbool].
  - (* the head of the queue is a writer and takes the file *)
    destruct (activate_spec now l (set_waiting rest il)) as [evs ->]. simpl.
    destruct (fl_active il) eqn:Hact; [|done].
    replace (l_ltype l) with LTYPE_WRITER by done. simpl.
    split; [split; simpl; [by right; eexists|by apply Forall_singleton, activated_active|done]|].
    split; [done|]. split; [done|]. by apply sublist_cons.
  - destruct (is_nil (fl_active il) || head_is LTYPE_READER (fl_active il))%bool eqn:Hrd.
    2:{ simpl. zbool. split; [split; [done|done|by rewrite Hq]|]. split; [done|].
        split; [|by rewrite Hq]. intros _. by destruct (fl_active il). }
    assert (Forall reader (fl_active il)) as Hread.
    { apply orb_true_iff in Hrd as [Hn|Hh]; [by destruct (fl_active il)|by apply shared_head]. }
    assert (woken il (l :: rest) (if mode =? MODE_LINUX then wake_readers_all now il (fl_waiting il)
      else wake_readers_head now il (fl_waiting il)).1) as (k & Hk & Hk1 & Hk2 & Hs & Hi & Hh).
    { rewrite Hq. case_if; [by apply wake_readers_all_woken|by apply wake_readers_head_woken]. }
    destruct (if mode =? MODE_LINUX then _ else _) as [il2 evs2]. simpl in *.
    split; [split|].
    + left. rewrite Hk. by apply Forall_app.
    + rewrite Hk. by apply Forall_app.
    + by eapply Forall_sublist.
    + split; [done|]. split; [|done]. intros _. rewrite Hk. intros [-> Hn]%app_eq_nil.
      apply Hh; [|done]. rewrite Hn in Hwr. simpl in Hwr. destruct Hl as (_ & _ & [->|Ht]); [done|].
      rewrite Ht in Hwr. destruct Hwr; done.
Qed.

Lemma shared_sublist a a' : a' `sublist_of` a → shared_or_single a → shared_or_single a'.
Proof.
  intros Hs [Hr|[l ->]]; [left; by eapply Forall_sublist|].
  apply sublist_cons_r in Hs as [->%sublist_nil_r|(k & -> & ->%sublist_nil_r)];
    [left; constructor|by right; exists l].
Qed.

Lemma fl_pre_set_active a il :
  a `sublist_of` fl_active il → fl_pre il → fl_pre (set_active a il).
Proof.
  intros Hs [Hex Ha Hw]. split; simpl; [by eapply shared_sublist|by eapply Forall_sublist|done].
Qed.

Lemma fl_pre_set_waiting w il : Forall lock_waiting w → fl_pre il → fl_pre (set_waiting w il).
Proof. intros Hw [Hex Ha _]. by split. Qed.

Lemma unlock_ok mode now il l rest :
  fl_pre il → rest `sublist_of` fl_active il →
  let il' := (flock_lock_unlock mode now il l rest).1 in
  fl_pre il' ∧ fl_inode il' = fl_inode il ∧ (rest ≠ [] ∨ fl_waiting il ≠ [] → fl_active il' ≠ []) ∧
  fl_waiting il' `sublist_of` fl_waiting il.
Proof.
  intros Hpre Hs. pose proof (fl_pre_set_active _ _ Hs Hpre) as Hpre'. unfold flock_lock_unlock.
  pose proof (check_waiting_ok mode now _ Hpre') as Hck.
  destruct (is_nil rest && negb (is_nil (fl_waiting il)))%bool eqn:Hc.
  - destruct (flock_lock_check_waiting mode now _) as [il2 evs2]. simpl in *. done.
  - simpl. split; [done|]. split; [done|]. split; [|done].
    destruct rest; [|done]. destruct (fl_waiting il); [|done]. by intros [].
Qed.

Lemma append_req_waiting l msgid reqid :
  l_state l = STATE_WAITING → valid_ltype (l_ltype l) → lock_waiting (flock_lock_append_req l msgid reqid).
Proof.
  intros Hst Ht. unfold flock_lock_append_req.
  destruct (replace_req _ _ _) as [insts|] eqn:Hr; [|done]. split; [done|]. split; [|done]. simpl.
  destruct (l_instances l) as [|i is']; simpl in Hr; [done|]. case_if_in Hr; [by injection Hr as <-|].
  destruct (replace_req is' msgid reqid); simpl in Hr; [|done]. by injection Hr as <-.
Qed.

Lemma lock_new_ok mode now il ltype connptr s msgid reqid o :
  fl_pre il → valid_ltype ltype → (fl_waiting il ≠ [] → fl_active il ≠ []) →
  let il' := (flock_lock_new mode now il ltype connptr s msgid reqid o).1.1 in
  fl_ok il' ∧ fl_inode il' = fl_inode il.
Proof.
  intros [Hex Ha Hw] Ht Hne. unfold flock_lock_new, flock_lock_inode_attach, flock_check.
  assert (∀ w, flock_do_lock_inode_attach
    (flock_lock_append_req (set_state STATE_WAITING (mk_lock o connptr s STATE_ACTIVE ltype [])) msgid reqid) il = w →
    fl_active il ≠ [] → fl_ok w ∧ fl_inode w = fl_inode il) as Hwait.
  { intros w <- Hact. simpl. unfold flock_do_lock_inode_attach. simpl. split; [|done]. split; [|done].
    split; simpl; [done|done|]. apply Forall_app. split; [done|]. by apply Forall_singleton. }
  assert (Forall reader (fl_active il) ∧ ltype = LTYPE_READER ∨ fl_active il = [] →
    fl_ok (set_active (mk_lock o connptr s STATE_ACTIVE ltype [] :: fl_active il) il)) as Hnew.
  { intros Hr. split; [|done]. split; simpl; [|by constructor|done].
    destruct Hr as [[Hr ->]| ->]; [left; by constructor|right; by eexists]. }
  destruct Ht as [->| ->]; simpl.
  - destruct (head_is LTYPE_WRITER (fl_active il)) eqn:Hh.
    { apply (Hwait _ eq_refl). by destruct (fl_active il). }
    assert (Forall reader (fl_active il)) as Hr.
    { destruct Hex as [|[l Hl]]; [done|]. rewrite Hl in Hh, Ha |- *. simpl in Hh.
      inversion Ha as [|? ? (_ & _ & [?|Hlt]) _]; subst; [by constructor|]. by rewrite Hlt in Hh. }
    assert (fl_ok (set_active (mk_lock o connptr s STATE_ACTIVE LTYPE_READER [] :: fl_active il) il))
      as Hok by (apply Hnew; by left).
    destruct (mode =? MODE_CORRECT); [|done]. destruct (is_nil (fl_waiting il)) eqn:Hn; [done|].
    apply (Hwait _ eq_refl), Hne. by destruct (fl_waiting il).
  - destruct (is_nil (fl_active il)) eqn:Hn.
    + split; [|done]. apply Hnew. right. by destruct (fl_active il).
    + apply (Hwait _ eq_refl). by destruct (fl_active il).
Qed.

(** ** Commands keep the invariant *)

Lemma flock_find_inode inode (t : flock_tab) il : tab_find inode t = Some il → fl_inode il = inode.
Proof. exact (tab_find_key inode il t). Qed.

Lemma flock_inode_remove_ok inode il t :
  tab_wf t → tab_find inode t = Some il → fl_empty il = true →
  flock_inode_remove inode t = Some (tab_remove inode t).
Proof.
  intros Hwf Hf He. unfold flock_inode_remove.
  assert (forallb (λ il, negb (fl_inode il =? inode) || fl_empty il) (chain_of inode t) = true) as ->; [|done].
  apply forallb_forall. intros il' Hin%list_elem_of_In.
  destruct (Z.eqb_spec (fl_inode il') inode) as [Hi|]; [simpl|done].
  destruct (chain_of_wf inode t Hwf) as [Hnd _].
  assert (tab_find inode t = Some il') as Hf' by (by apply chain_find_elem). congruence.
Qed.

(** The table of a command: the invariant but for the record of the inode. *)
Definition inv_but (inode : Z) (t : flock_tab) : Prop :=
  tab_wf t ∧ is_Some (tab_find inode t) ∧ ∀ j il, j ≠ inode → tab_find j t = Some il → fl_ok il.

Lemma inv_but_set inode il t :
  inv_but inode t → fl_ok il → fl_inode il = inode → flock_inv (tab_set inode il t).
Proof.
  intros (Hwf & [il0 Hf] & Hall) Hil Hi. split; [by apply tab_wf_set|]. intros j il'.
  rewrite tab_find_set by done. case_if; [|by apply Hall]. subst j. rewrite Hf. by intros [= <-].
Qed.

Lemma inv_but_store {B} (k : flock_tab → B) inode il t :
  inv_but inode t → fl_pre il → fl_inode il = inode → (fl_waiting il ≠ [] → fl_active il ≠ []) →
  ∃ t', (if fl_empty il then t'' ← flock_inode_remove inode (tab_set inode il t); Some (k t'')
         else Some (k (tab_set inode il t))) = Some (k t') ∧ flock_inv t'.
Proof.
  intros Hinv Hpre Hi Hne. pose proof Hinv as (Hwf & [il0 Hf] & Hall).
  destruct (fl_empty il) eqn:He.
  - assert (tab_wf (tab_set inode il t)) as Hwf' by (by apply tab_wf_set).
    assert (tab_find inode (tab_set inode il t) = Some il) as Hf'.
    { rewrite tab_find_set by done. by rewrite Z.eqb_refl, Hf. }
    rewrite (flock_inode_remove_ok _ il) by done. simpl. eexists. split; [done|].
    split; [by apply tab_wf_remove|]. intros j il'. rewrite tab_find_remove by done.
    case_if; [done|]. rewrite tab_find_set by done. case_if; [done|]. by apply Hall.
  - eexists. split; [done|]. apply inv_but_set; [done| |done]. split; [done|].
    unfold fl_empty in He. destruct (fl_active il); [|done]. destruct (fl_waiting il); [done|]. by apply Hne.
Qed.

Lemma flock_inv_but inode il t : flock_inv t → tab_find inode t = Some il → inv_but inode t.
Proof. intros [Hwf Hall] Hf. split; [done|]. split; [eauto|]. eauto. Qed.

Lemma inv_but_new inode t :
  flock_inv t → tab_find inode t = None → inv_but inode (tab_add (mk_flocks inode [] []) t).
Proof.
  intros [Hwf Hall] Hf. split; [by apply tab_wf_add|]. split.
  - exists (mk_flocks inode [] []). rewrite tab_find_add by done. simpl. by rewrite Z.eqb_refl.
  - intros j il Hj. rewrite tab_find_add by done. simpl. case_if; [congruence|]. apply Hall.
Qed.

Lemma split_first_spec p ls pre l post :
  split_first p ls = Some (pre, l, post) → ls = pre ++ l :: post ∧ p l = true.
Proof.
  revert pre. induction ls as [|x ls IH]; simpl; intros pre; [done|]. case_if.
  - by intros [= <- <- <-].
  - destruct (split_first p ls) as [[[pre0 l0] post0]|] eqn:Hs; simpl; [|done].
    intros [= <- <- <-]. by destruct (IH _ eq_refl) as [-> ?].
Qed.

Lemma middle_sublist {A} (pre post : list A) x : pre ++ post `sublist_of` pre ++ x :: post.
Proof. by apply sublist_app, sublist_cons. Qed.

Lemma Forall_middle {A} (P : A → Prop) pre x y post :
  Forall P (pre ++ x :: post) → P y → Forall P (pre ++ y :: post).
Proof. rewrite !Forall_app, !Forall_cons. tauto. Qed.

Lemma middle_single {A} (pre post : list A) x y : pre ++ x :: post = [y] → pre = [] ∧ post = [] ∧ x = y.
Proof. destruct pre as [|? [|]]; simpl; intros [=]; by subst. Qed.

(** The result of a command that did not fail an assertion and kept the invariant. *)
Definition ok_result (x : option (flock_tab * Z * list event)) : Prop :=
  ∃ t' st evs, x = Some (t', st, evs) ∧ flock_inv t'.

Lemma ok_set inode il t st evs :
  inv_but inode t → fl_ok il → fl_inode il = inode → ok_result (Some (tab_set inode il t, st, evs)).
Proof. intros. eexists _, _, _. split; [done|]. by apply inv_but_set. Qed.

Lemma sublist_nonnil {A} (l k : list A) : l `sublist_of` k → l ≠ [] → k ≠ [].
Proof. intros Hs Hl ->. by apply sublist_nil_r in Hs. Qed.

(** Unlock, then ask again with another type. *)
Lemma relock_ok mode now il l rest ltype connptr s msgid reqid o t :
  inv_but (fl_inode il) t → fl_pre il → rest `sublist_of` fl_active il → valid_ltype ltype →
  ok_result (let '(il1, evs1) := flock_lock_unlock mode now il l rest in
             let '(il2, status, evs2) := flock_lock_new mode now il1 ltype connptr s msgid reqid o in
             Some (tab_set (fl_inode il) il2 t, status, evs1 ++ evs2)).
Proof.
  intros Hinv Hpre Hsub Hty. pose proof (unlock_ok mode now il l rest Hpre Hsub) as Hun.
  destruct (flock_lock_unlock _ _ _ _ _) as [il1 evs1]. simpl in Hun. destruct Hun as (Hp1 & Hi1 & Hn1 & Hs1).
  pose proof (lock_new_ok mode now il1 ltype connptr s msgid reqid o Hp1 Hty) as Hnew.
  destruct (flock_lock_new _ _ _ _ _ _ _ _ _) as [[il2 st2] evs2]. simpl in Hnew.
  destruct Hnew as [Hok Hi2]; [intros Hw; apply Hn1; right; by eapply sublist_nonnil|].
  apply ok_set; [done|done|congruence].
Qed.

Lemma set_ltype_active ty l : lock_active l → valid_ltype ty → lock_active (set_ltype ty l).
Proof. intros (? & ? & _) ?. by repeat split. Qed.

(** A request on an active lock. *)
Lemma cmd_on_active_ok mode now connptr s msgid reqid o op il pre l post t :
  inv_but (fl_inode il) t → fl_ok il → fl_active il = pre ++ l :: post →
  ok_result (cmd_on_active mode now connptr s msgid reqid o op il pre l post t).
Proof.
  intros Hinv [Hpre Hne] Hact. pose proof Hpre as [Hex Ha Hw].
  assert (pre ++ post `sublist_of` fl_active il) as Hsub by (rewrite Hact; apply middle_sublist).
  assert (∀ st evs, ok_result (Some (tab_set (fl_inode il) il t, st, evs))) as Hkeep
    by (intros; by apply ok_set).
  assert (lock_active l) as Hl by (rewrite Hact, Forall_app, Forall_cons in Ha; tauto).
  unfold cmd_on_active. case_if.
  { pose proof (unlock_ok mode now il l _ Hpre Hsub) as Hun.
    destruct (flock_lock_unlock _ _ _ _ _) as [il' evs]. simpl in Hun. destruct Hun as (Hp1 & Hi1 & Hn1 & Hs1).
    destruct (inv_but_store (λ t, (t, MFS_STATUS_OK, evs)) (fl_inode il) il' t) as (t' & Heq & Hinv');
      [done|done|done|intros; apply Hn1; right; by eapply sublist_nonnil|].
    by eexists _, _, _. }
  case_if.
  { case_if; [done|]. set (il' := set_active _ il).
    assert (fl_pre il') as Hpre'.
    { destruct Hex as [Hr|[l' Hl']].
      - rewrite Hact, Forall_app, Forall_cons in Hr. destruct Hr as (_ & Hr & _). done.
      - rewrite Hact in Hl'. destruct (middle_single _ _ _ _ Hl') as (-> & -> & ->).
        split; simpl; [by right; eexists| |done]. apply Forall_singleton.
        apply set_ltype_active; [done|by left]. }
    pose proof (check_waiting_ok mode now il' Hpre') as Hck.
    destruct (flock_lock_check_waiting _ _ _) as [il2 evs]. simpl in Hck. destruct Hck as (? & ? & Hn & _).
    apply ok_set; [done| |done]. split; [done|]. apply Hn. left. by destruct pre. }
  case_if; [case_if; [done|]; apply relock_ok; try done; by left|].
  case_if.
  { case_if; [done|]. case_if; [|done]. apply ok_set; [done| |done].
    assert (pre = [] ∧ post = []) as [-> ->] by (apply app_nil; by destruct (pre ++ post)).
    split; [|done]. split; simpl; [by right; eexists| |done]. apply Forall_singleton.
    apply set_ltype_active; [done|by right]. }
  case_if; [case_if; [done|]; apply relock_ok; try done; by right|]. done.
Qed.

Lemma fl_ok_waiting w il : fl_ok il → Forall lock_waiting w → fl_ok (set_waiting w il).
Proof. intros [Hpre Hne] Hw. split; [by apply fl_pre_set_waiting|done]. Qed.

(** A request on a waiting lock. *)
Lemma cmd_on_waiting_ok mode now msgid reqid op il pre l post t :
  inv_but (fl_inode il) t → fl_ok il → fl_waiting il = pre ++ l :: post →
  ok_result (cmd_on_waiting mode now msgid reqid op il pre l post t).
Proof.
  intros Hinv Hok Hq. pose proof Hok as [[_ _ Hw] _]. rewrite Hq in Hw.
  assert (lock_waiting l) as (Hst & Hin & Hty) by (rewrite Forall_app, Forall_cons in Hw; tauto).
  assert (∀ st evs, ok_result (Some (tab_set (fl_inode il) il t, st, evs))) as Hkeep
    by (intros; by apply ok_set).
  assert (∀ st evs, ok_result (Some (tab_set (fl_inode il) (set_waiting (pre ++ post) il) t, st, evs))) as Hrm.
  { intros. apply ok_set; [done| |done]. apply fl_ok_waiting; [done|].
    eapply Forall_sublist; [apply middle_sublist|done]. }
  assert (∀ l' st evs, lock_waiting l' →
    ok_result (Some (tab_set (fl_inode il) (set_waiting (pre ++ l' :: post) il) t, st, evs))) as Hrep.
  { intros. apply ok_set; [done| |done]. apply fl_ok_waiting; [done|]. by eapply Forall_middle. }
  unfold cmd_on_waiting. simpl.
  repeat case_if; try done; apply Hrep, append_req_waiting; try done; by (left + right).
Qed.

Lemma interrupt_queue_waiting now inode q connptr s reqid o :
  Forall lock_waiting q → Forall lock_waiting (interrupt_queue now inode q connptr s reqid o).1.
Proof.
  induction 1 as [|l q Hl Hq IH]; simpl; [constructor|].
  destruct (interrupt_queue now inode q connptr s reqid o) as [q' evs']. simpl in IH.
  case_if; [|by constructor]. simpl. destruct (is_nil _) eqn:Hn; [done|]. simpl. constructor; [|done].
  destruct Hl as (? & _ & ?). split; [done|]. split; [|done]. simpl. by destruct (filter _ _).
Qed.

Lemma fl_pre_new inode : fl_pre (mk_flocks inode [] []).
Proof. split; simpl; [by left|done|done]. Qed.

Lemma flock_check_new mode inode ty : flock_check mode (mk_flocks inode [] []) ty = false.
Proof. unfold flock_check. simpl. by repeat case_if. Qed.

(** A command never fails an assertion and keeps the invariant, in every mode and
    for every operation code. *)
Lemma flock_cmd_ok mode ofc now connptr s msgid reqid inode o op t :
  flock_inv t → ok_result (flock_locks_cmd mode ofc now connptr s msgid reqid inode o op t).
Proof.
  intros Hinv. pose proof Hinv as [Hwf Hall]. unfold flock_locks_cmd, cmd_on_record, flock_inode_find.
  assert (∀ st evs, ok_result (Some (t, st, evs))) as Hsame by (intros; by eexists _, _, _).
  case_if; [done|].
  assert (∀ ltype il t0, inv_but inode t0 → fl_pre il → (fl_waiting il ≠ [] → fl_active il ≠ []) →
    fl_inode il = inode → valid_ltype ltype →
    ok_result (let '(il', status, evs) := flock_lock_new mode now il ltype connptr s msgid reqid o in
               Some (tab_set inode il' t0, status, evs))) as Hnew.
  { intros ltype il t0 Hb Hpre Hne Hi Hty.
    pose proof (lock_new_ok mode now il ltype connptr s msgid reqid o Hpre Hty Hne) as Hl.
    destruct (flock_lock_new _ _ _ _ _ _ _ _ _) as [[il' st] evs]. simpl in Hl. destruct Hl.
    apply ok_set; [done|done|congruence]. }
  assert (valid_ltype (if ((op =? FLOCK_TRY_SHARED) || (op =? FLOCK_LOCK_SHARED))%bool
                       then LTYPE_READER else LTYPE_WRITER)) as Hty by (case_if; [by left|by right]).
  destruct (tab_find inode t) as [il|] eqn:Hf.
  - assert (fl_ok il) as Hok by eauto. pose proof (flock_inv_but _ _ _ Hinv Hf) as Hb.
    pose proof (flock_find_inode _ _ _ Hf) as Hi. case_if.
    { pose proof (interrupt_queue_waiting now inode (fl_waiting il) connptr s reqid o) as Hq.
      destruct (interrupt_queue _ _ _ _ _ _ _) as [q evs]. apply ok_set; [done| |done].
      apply fl_ok_waiting; [done|]. apply Hq, Hok. }
    destruct (split_first _ (fl_active il)) as [[[pre l] post]|] eqn:Hs.
    { apply cmd_on_active_ok; [by rewrite Hi|done|]. by apply split_first_spec in Hs as [? _]. }
    destruct (split_first _ (fl_waiting il)) as [[[pre l] post]|] eqn:Hs'.
    { apply cmd_on_waiting_ok; [by rewrite Hi|done|]. by apply split_first_spec in Hs' as [? _]. }
    case_if; [done|]. case_if; [done|]. rewrite Hi. apply Hnew; [done|apply Hok|intros _; apply Hok|done|done].
  - case_if; [done|]. simpl. do 2 (case_if; [lia|]).
    rewrite flock_check_new, andb_false_r. apply Hnew; [by apply inv_but_new|apply fl_pre_new|done|done|done].
Qed.

(** ** Closing a file *)

Lemma close_flocks_ok mode now s il pre rest :
  fl_pre il → pre ++ rest `sublist_of` fl_active il →
  let il' := (close_flocks mode now s il pre rest).1 in
  fl_pre il' ∧ fl_inode il' = fl_inode il ∧
  (pre ++ rest ≠ [] → fl_waiting il ≠ [] → fl_active il' ≠ []) ∧
  fl_waiting il' `sublist_of` fl_waiting il.
Proof.
  intros Hpre. revert pre. induction rest as [|l rest IH]; cbn [close_flocks]; intros pre Hsub.
  { rewrite app_nil_r in *. split; [by apply fl_pre_set_active|]. by repeat split. }
  assert (pre ++ rest `sublist_of` fl_active il) as Hsub'
    by (etrans; [apply middle_sublist|exact Hsub]).
  case_if.
  - pose proof (unlock_ok mode now il l _ Hpre Hsub') as Hun.
    destruct (flock_lock_unlock _ _ _ _ _) as [il1 evs]. simpl in Hun. destruct Hun as (? & ? & Hn & ?).
    destruct (is_nil (pre ++ rest)) eqn:Hnil; [simpl; repeat split; try apply H; auto|].
    specialize (IH pre Hsub'). destruct (close_flocks mode now s il pre rest) as [il2 evs2]. simpl in *.
    destruct IH as (? & ? & Hn' & ?). repeat split; try apply H2; auto.
    intros _. apply Hn'. by destruct (pre ++ rest).
  - specialize (IH (pre ++ [l])). rewrite <-app_assoc in IH. exact (IH Hsub).
Qed.

Lemma flock_file_closed_ok mode now s inode t :
  flock_inv t → ∃ t' evs, flock_file_closed mode now s inode t = Some (t', evs) ∧ flock_inv t'.
Proof.
  intros Hinv. unfold flock_file_closed, flock_inode_find.
  destruct (tab_find inode t) as [il|] eqn:Hf; [|by eauto].
  destruct (proj2 Hinv _ _ Hf) as [Hpre Hne]. pose proof (flock_find_inode _ _ _ Hf) as Hi.
  set (il1 := set_waiting _ il).
  assert (fl_pre il1) as Hpre1 by (apply fl_pre_set_waiting; [apply Forall_filter_keep, Hpre|done]).
  pose proof (close_flocks_ok mode now s il1 [] (fl_active il1) Hpre1 (reflexivity _)) as Hcl.
  destruct (close_flocks _ _ _ _ _ _) as [il2 evs]. simpl in Hcl. destruct Hcl as (Hp2 & Hi2 & Hn2 & Hs2).
  set (evs0 := concat _).
  destruct (inv_but_store (λ t, (t, evs0 ++ evs)) inode il2 t) as (t' & Heq & Hinv');
    [by eapply flock_inv_but|done|congruence| |by eauto].
  intros Hw. apply Hn2; [done|]. by eapply sublist_nonnil.
Qed.

Lemma flock_disconnected_inv connptr t : flock_inv t → flock_inv (flock_disconnected connptr t).
Proof.
  intros [Hwf Hall]. split; [by apply tab_wf_map|]. intros inode il.
  unfold flock_disconnected. rewrite tab_find_map by done.
  destruct (tab_find inode t) as [il0|] eqn:Hf; simpl; [|done]. intros [= <-].
  apply fl_ok_waiting; [by eauto|]. apply Forall_filter_keep, (Hall _ _ Hf).
Qed.
