(* ===== verification/LockSessions.v ===== *)
(** * The sessions that hold or wait for locks

    For each operation of the two lock modules, where the sessions of the locks it
    leaves come from.  Locks are granted only from a request or from the queue of
    the same inode, and closing a file leaves no lock of the session behind. *)

From S2P Require Import Prelude MfsComm HashChain Changelog FlockLocks PosixRanges PosixLocks.

(** ** POSIX locks *)

Definition il_has (il : inodelocks) (s : Z) : Prop :=
  (∃ al, al ∈ il_active il ∧ al_sessionid al = s) ∨ (∃ wl, wl ∈ il_waiting il ∧ wl_sessionid wl = s).

(** Session [s] holds or waits for a lock of the inode. *)
Definition posix_has (t : posix_tab) (inode s : Z) : Prop :=
  ∃ il, tab_find inode t = Some il ∧ il_has il s.

Lemma do_apply_sessions active s o type start end_ pid al :
  al ∈ posix_lock_do_apply_lock active s o type start end_ pid →
  (al_sessionid al = s ∧ type ≠ POSIX_LOCK_UNLCK) ∨ ∃ al', al' ∈ active ∧ al_sessionid al' = al_sessionid al.
Proof.
  induction active as [|al0 active IH]; cbn [posix_lock_do_apply_lock].
  - case_if; [by intros ?%elem_of_nil|]. intros ->%list_elem_of_singleton. by left.
  - intros Hin. case_if_in Hin.
    + right. destruct (posix_lock_apply_range _ _ _ _); [by exists al; split; [constructor|]|].
      apply elem_of_cons in Hin as [->|Hin]; [exists al0; by split; [constructor|]|].
      exists al. by split; [by constructor|].
    + apply elem_of_cons in Hin as [->|Hin]; [right; exists al0; by split; [constructor|]|].
      destruct (IH Hin) as [?|(al' & ? & ?)]; [by left|]. right. exists al'. by split; [by constructor|].
Qed.

Lemma grant_sessions now inode active ws a' ws' evs s :
  grant_waiting now inode active ws = (a', ws', evs) →
  il_has (mk_inodelocks inode a' ws') s → il_has (mk_inodelocks inode active ws) s.
Proof.
  revert active a' ws' evs. induction ws as [|wl ws IH]; simpl; intros active a' ws' evs.
  { by intros [= <- <- <-]. }
  destruct (posix_lock_find_offensive_lock _ _ _ _ _ _).
  - destruct (grant_waiting now inode active ws) as [[a1 ws1] evs1] eqn:Hg. intros [= <- <- <-].
    intros [?|(w & Hin & Hs)]; simpl in *.
    + destruct (IH _ _ _ _ Hg (or_introl H)) as [?|(w & ? & ?)]; [by left|].
      right. exists w. split; [by constructor|done].
    + apply elem_of_cons in Hin as [->|Hin]; [right; exists wl; split; [constructor|done]|].
      destruct (IH _ _ _ _ Hg) as [?|(w' & ? & ?)]; [right; by exists w|by left|].
      right. exists w'. split; [by constructor|done].
  - destruct (grant_waiting _ _ _ ws) as [[a1 ws1] evs1] eqn:Hg. intros [= <- <- <-] Hhas.
    destruct (IH _ _ _ _ Hg Hhas) as [(al & Hin & Hs)|(w' & ? & ?)]; simpl in *.
    + apply do_apply_sessions in Hin as [[? _]|(al' & ? & ?)].
      * right. exists wl. split; [constructor|simpl; congruence].
      * left. exists al'. split; [done|congruence].
    + right. exists w'. split; [by constructor|done].
Qed.

Lemma checked_sessions now il il' s : checked now il = Some il' → il_has il' s → il_has il s.
Proof.
  unfold checked. case_if; [done|]. destruct (grant_waiting _ _ _ _) as [[a ws] evs] eqn:Hg.
  intros [= <-] Hhas. destruct il. by eapply grant_sessions.
Qed.

Lemma posix_has_set inode il il' t j s :
  tab_wf t → tab_find inode t = Some il → il_inode il' = inode →
  posix_has (tab_set inode il' t) j s → (j = inode ∧ il_has il' s) ∨ posix_has t j s.
Proof.
  intros Hwf Hf Hi (il0 & Hf0 & Hhas). rewrite tab_find_set in Hf0 by done.
  case_if_in Hf0; [|right; by exists il0]. subst j. rewrite Hf in Hf0. injection Hf0 as <-. by left.
Qed.

Lemma apply_and_check_sessions now inode il s o type start end_ pid t t' evs j s' :
  tab_wf t → tab_find inode t = Some il →
  apply_and_check now inode il s o type start end_ pid t = Some (t', evs) →
  posix_has t' j s' → posix_has t j s' ∨ (j = inode ∧ s' = s ∧ type ≠ POSIX_LOCK_UNLCK).
Proof.
  intros Hwf Hf Heq (il1 & Hf1 & Hhas).
  destruct (apply_and_check_spec now inode il s o type start end_ pid t Hwf Hf) as (t1 & Heq1 & _ & Hj).
  rewrite Heq1 in Heq. injection Heq as <- <-. rewrite Hj in Hf1.
  case_if_in Hf1; [subst j|left; by exists il1].
  eapply checked_sessions in Hhas; [|exact Hf1]. destruct Hhas as [(al & Hin & Hs)|(wl & Hin & Hs)]; simpl in Hin.
  - apply do_apply_sessions in Hin as [[? ?]|(al' & ? & ?)]; [right; by subst|].
    left. exists il. split; [done|]. left. exists al'. split; [done|congruence].
  - left. exists il. split; [done|]. right. by exists wl.
Qed.

Lemma posix_has_add inode t j s :
  tab_wf t → posix_has (tab_add (mk_inodelocks inode [] []) t) j s → posix_has t j s.
Proof.
  intros Hwf (il & Hf & Hhas). rewrite tab_find_add in Hf by done. simpl in Hf. case_if_in Hf; [|by exists il].
  injection Hf as <-. by destruct Hhas as [(? & ?%elem_of_nil & _)|(? & ?%elem_of_nil & _)].
Qed.

Lemma il_has_sub il ws s :
  ws `sublist_of` il_waiting il → il_has (mk_inodelocks (il_inode il) (il_active il) ws) s → il_has il s.
Proof.
  intros Hsub [?|(wl & Hin & ?)]; [by left|]. right. exists wl. split; [|done].
  by eapply (sublist_subseteq _ _ Hsub).
Qed.

Definition known_cmd (op : Z) : Prop :=
  op = POSIX_LOCK_CMD_GET ∨ op = POSIX_LOCK_CMD_SET ∨ op = POSIX_LOCK_CMD_TRY ∨ op = POSIX_LOCK_CMD_INT.

(** A command adds locks of its own session only, and only if the file is open. *)
Lemma cmd_sessions ofc now connptr s msgid reqid inode o op type start end_ pid t t' rp evs j s' :
  tab_wf t → known_cmd op →
  posix_lock_cmd ofc now connptr s msgid reqid inode o op type start end_ pid t = Some (t', rp, evs) →
  posix_has t' j s' → posix_has t j s' ∨ (j = inode ∧ s' = s ∧ ofc s inode = true).
Proof.
  intros Hwf Hop. unfold posix_lock_cmd, posix_lock_inode_find.
  case_if; [intros [= <- <- <-]; by left|]. case_if.
  { destruct (tab_find inode t) as [il|] eqn:Hf; [|intros [= <- <- <-]; by left].
    unfold posix_lock_interrupt. pose proof (interrupt_waiting_sublist (il_waiting il) connptr reqid) as Hsub.
    destruct (interrupt_waiting _ _ _) as [ws evs0]. intros [= <- <- <-] Hhas.
    eapply (posix_has_set _ il) in Hhas; [|done|done|exact (tab_find_inode _ _ _ Hf)].
    destruct Hhas as [[-> Hhas]|?]; [|by left]. left. exists il. split; [done|]. by eapply il_has_sub. }
  case_if; [destruct (match tab_find inode t with Some _ => _ | None => _ end) as [[]|]; intros [= <- <- <-]; by left|].
  assert (type ≠ POSIX_LOCK_UNLCK → ofc s inode = true) as Hopen.
  { intros Ht. destruct (ofc s inode); [done|]. exfalso. clear -Ht Hop E E0 E1.
    destruct Hop as [->|[->|[->| ->]]]; repeat (destruct_or?; zbool); done. }
  destruct (tab_find inode t) as [il|] eqn:Hf.
  - assert (∀ t1 evs1, ('(t', evs) ← apply_and_check now inode il s o type start end_ pid t;
        Some (t', mk_reply MFS_STATUS_OK type start end_ pid, evs)) = Some (t1, rp, evs1) →
      posix_has t1 j s' → posix_has t j s' ∨ (j = inode ∧ s' = s ∧ ofc s inode = true)) as Happly.
    { intros t1 evs1. destruct (apply_and_check _ _ _ _ _ _ _ _ _ _) as [[t2 evs2]|] eqn:Ha; simpl; [|done].
      intros [= <- _ _] Hhas. eapply apply_and_check_sessions in Hhas; [|done|done|exact Ha].
      destruct Hhas as [?|(? & ? & ?)]; [by left|right]. auto. }
    assert (type ≠ POSIX_LOCK_UNLCK →
      posix_has (tab_set inode (posix_lock_append_lock il connptr s msgid reqid o type start end_ pid) t) j s' →
      posix_has t j s' ∨ (j = inode ∧ s' = s ∧ ofc s inode = true)) as Happend.
    { intros Ht Hhas. eapply (posix_has_set _ il) in Hhas; [|done|done|exact (tab_find_inode _ _ _ Hf)].
      destruct Hhas as [[-> [?|(wl & Hin & Hs)]]|?]; [left; exists il; by split; [|left]| |by left].
      simpl in Hin. apply elem_of_app in Hin as [Hin| ->%list_elem_of_singleton].
      - left. exists il. split; [done|]. right. by exists wl.
      - right. simpl in Hs. auto. }
    repeat case_if; eauto; intros [= <- <- <-]; auto.
  - case_if; [intros [= <- <- <-]; by left|]. simpl.
    destruct (apply_and_check _ _ _ _ _ _ _ _ _ _) as [[t1 evs1]|] eqn:Ha; simpl; [|done].
    intros [= <- <- <-] Hhas.
    eapply apply_and_check_sessions in Hhas; [|..|exact Ha]; [|by apply tab_wf_add|].
    + destruct Hhas as [Hhas|(? & ? & ?)]; [left; by eapply posix_has_add|right; auto].
    + rewrite tab_find_add by done. simpl. by rewrite Z.eqb_refl.
Qed.

Lemma close_active_sessions s active a changed :
  close_active s active = Some (a, changed) → a = filter (λ al, al_sessionid al ≠ s) active.
Proof.
  revert a changed. induction active as [|al active IH]; simpl; intros a changed; [by intros [= <- <-]|].
  rewrite filter_cons. case_if.
  - destruct (posix_lock_apply_range _ _ _ _); [|done].
    destruct (close_active s active) as [[a0 c0]|] eqn:Hc; simpl; [|done]. intros [= <- <-].
    rewrite decide_False by tauto. by eapply IH.
  - destruct (close_active s active) as [[a0 c0]|] eqn:Hc; simpl; [|done]. intros [= <- <-].
    rewrite decide_True by done. f_equal. by eapply IH.
Qed.

(** Closing a file drops the locks of the session, and adds none. *)
Lemma file_closed_sessions now s inode t t' evs j s' :
  tab_wf t → posix_lock_file_closed now s inode t = Some (t', evs) →
  posix_has t' j s' → posix_has t j s' ∧ (j ≠ inode ∨ s' ≠ s).
Proof.
  intros Hwf. unfold posix_lock_file_closed, posix_lock_inode_find.
  destruct (tab_find inode t) as [il|] eqn:Hf.
  2:{ intros [= <- <-] (il & Hf' & Hhas). split; [by exists il|]. left. intros ->. congruence. }
  destruct (close_active s (il_active il)) as [[a changed]|] eqn:Hc; simpl; [|done].
  apply close_active_sessions in Hc as ->. set (il' := mk_inodelocks inode _ _).
  assert (tab_wf (tab_set inode il' t)) as Hwf' by (by apply tab_wf_set).
  assert (∀ j, tab_find j (tab_set inode il' t) = if inode =? j then Some il' else tab_find j t) as Hset.
  { intros k. rewrite tab_find_set by done. case_if; [subst; by rewrite Hf|done]. }
  assert (il_has il' s' → il_has il s' ∧ s' ≠ s) as Hil'.
  { intros [(al & [? ?]%list_elem_of_filter & <-)|(wl & [? ?]%list_elem_of_filter & <-)];
      (split; [|done]); [left|right]; eauto. }
  assert (∀ il0, tab_find j (tab_set inode il' t) = Some il0 → il_has il0 s' →
    posix_has t j s' ∧ (j ≠ inode ∨ s' ≠ s)) as Hkeep.
  { intros il0. rewrite Hset. case_if; [subst j; intros [= <-] [? ?]%Hil'; split; [by exists il|by right]|].
    intros ??. split; [by exists il0|by left]. }
  destruct changed.
  - destruct (check_waiting_spec now il' (tab_set inode il' t)) as (t1 & -> & _ & Hj); [done| |].
    { by rewrite Hset, Z.eqb_refl. }
    intros [= <- <-] (il0 & Hf0 & Hhas). rewrite Hj in Hf0. change (il_inode il') with inode in Hf0.
    destruct (Z.eqb_spec inode j) as [<-|]; [|by eapply Hkeep].
    eapply checked_sessions in Hhas; [|done]. eapply Hkeep; [|done]. by rewrite Hset, Z.eqb_refl.
  - case_if.
    + destruct (posix_lock_inode_remove _ _) as [t1|] eqn:Hr; simpl; [|done]. intros [= <- <-] (il0 & Hf0 & Hhas).
      unfold posix_lock_inode_remove in Hr. case_if_in Hr; [|done]. injection Hr as <-.
      rewrite tab_find_remove in Hf0 by done. case_if_in Hf0; [done|]. by eapply Hkeep.
    + intros [= <- <-] (il0 & Hf0 & Hhas). by eapply Hkeep.
Qed.

Lemma disconnected_sessions connptr t j s :
  posix_has (posix_lock_disconnected connptr t) j s → posix_has t j s.
Proof.
  intros (il & Hf & Hhas). unfold posix_lock_disconnected in Hf. rewrite tab_find_map in Hf by done.
  destruct (tab_find j t) as [il0|] eqn:Hf0; simpl in Hf; [|done]. injection Hf as <-.
  exists il0. split; [done|]. eapply il_has_sub; [|exact Hhas]. apply sublist_filter.
Qed.

(** ** Whole-file locks *)

Definition fl_has (il : flocks) (s : Z) : Prop :=
  ∃ l, (l ∈ fl_active il ∨ l ∈ fl_waiting il) ∧ l_sessionid l = s.

Definition flock_has (t : flock_tab) (inode s : Z) : Prop :=
  ∃ il, tab_find inode t = Some il ∧ fl_has il s.

(** Every session of [il'] is one of [il]. *)
Definition fl_le (il' il : flocks) : Prop := ∀ s, fl_has il' s → fl_has il s.

Lemma fl_has_set_waiting q il s :
  fl_has (set_waiting q il) s ↔ (∃ l, (l ∈ fl_active il ∨ l ∈ q) ∧ l_sessionid l = s).
Proof. done. Qed.

Lemma activate_sessions now l il q s :
  fl_has (set_waiting q (activate now l il).1) s → fl_has (set_waiting (l :: q) il) s.
Proof.
  destruct (activate_spec now l il) as [evs ->]. simpl. intros (l' & [Hin|Hin] & <-); simpl in Hin.
  - apply elem_of_cons in Hin as [->|Hin]; [exists l|exists l']; simpl; rewrite elem_of_cons; auto.
  - exists l'. simpl. rewrite elem_of_cons. auto.
Qed.

Lemma wake_readers_all_sessions now il q s :
  fl_has (wake_readers_all now il q).1 s → fl_has (set_waiting q il) s.
Proof.
  revert il. induction q as [|l q IH]; intros il; cbn [wake_readers_all]; [done|]. case_if.
  - pose proof (activate_sessions now l il q s) as Ha. destruct (activate now l il) as [il1 evs].
    specialize (IH il1). destruct (wake_readers_all now il1 q). auto.
  - specialize (IH il). destruct (wake_readers_all now il q) as [il2 evs2]. simpl in *.
    intros (l' & [Hin|[->|Hin]%elem_of_cons] & <-).
    + destruct IH as (l'' & [?|?] & ?); [by exists l'; split; [left|]|..]; exists l''; simpl in *;
        rewrite elem_of_cons; auto.
    + exists l. simpl. rewrite elem_of_cons. auto.
    + destruct IH as (l'' & [?|?] & ?); [by exists l'; split; [right|]|..]; exists l''; simpl in *;
        rewrite elem_of_cons; auto.
Qed.

Lemma wake_readers_head_sessions now il q s :
  fl_has (wake_readers_head now il q).1 s → fl_has (set_waiting q il) s.
Proof.
  revert il. induction q as [|l q IH]; intros il; cbn [wake_readers_head]; [done|]. case_if; [|done].
  pose proof (activate_sessions now l il q s) as Ha. destruct (activate now l il) as [il1 evs].
  specialize (IH il1). destruct (wake_readers_head now il1 q). auto.
Qed.

Lemma set_waiting_same il : set_waiting (fl_waiting il) il = il.
Proof. by destruct il. Qed.

Lemma check_waiting_sessions mode now il : fl_le (flock_lock_check_waiting mode now il).1 il.
Proof.
  intros s. unfold flock_lock_check_waiting. destruct (fl_waiting il) as [|l rest] eqn:Hq; [done|].
  assert (∀ il1, fl_le il1 il → fl_has (if is_nil (fl_active il1) || head_is LTYPE_READER (fl_active il1)
    then (if mode =? MODE_LINUX then wake_readers_all now il1 (fl_waiting il1)
          else wake_readers_head now il1 (fl_waiting il1)).1 else il1) s → fl_has il s) as Hrest.
  { intros il1 Hle Hhas. apply Hle. case_if_in Hhas; [|done]. rewrite <-(set_waiting_same il1).
    case_if_in Hhas; [by eapply wake_readers_all_sessions|by eapply wake_readers_head_sessions]. }
  assert (∃ il1 evs1, (if is_nil (fl_active il) && (l_ltype l =? LTYPE_WRITER)
    then activate now l (set_waiting rest il) else (il, [])) = (il1, evs1) ∧ fl_le il1 il) as (il1 & evs1 & -> & Hle).
  { case_if.
    - eexists _, _. split; [apply surjective_pairing|]. intros s' Hs'.
      rewrite <-(set_waiting_same il), Hq. destruct (activate_spec now l (set_waiting rest il)) as [evs Ha].
      pose proof (activate_sessions now l (set_waiting rest il) rest s') as Hact. rewrite Ha in Hact, Hs'. auto.
    - eexists _, _. split; [done|]. by intros s'. }
  intros Hhas. apply (Hrest il1 Hle). revert Hhas. destruct (is_nil (fl_active il1) || _)%bool; [|done].
  by destruct (if mode =? MODE_LINUX then _ else _).
Qed.

Lemma unlock_sessions mode now il l rest :
  rest ⊆ fl_active il → fl_le (flock_lock_unlock mode now il l rest).1 il.
Proof.
  intros Hsub s. assert (fl_le (set_active rest il) il) as Hle.
  { intros s' (l' & [Hin|Hin] & <-); exists l'; auto. }
  unfold flock_lock_unlock. case_if; [|apply Hle].
  pose proof (check_waiting_sessions mode now (set_active rest il) s) as Hck.
  destruct (flock_lock_check_waiting _ _ _). simpl in *. auto.
Qed.

Lemma append_req_sessionid l msgid reqid : l_sessionid (flock_lock_append_req l msgid reqid) = l_sessionid l.
Proof. unfold flock_lock_append_req. by destruct (replace_req _ _ _). Qed.

Lemma lock_new_sessions mode now il ltype connptr s msgid reqid o s' :
  fl_has (flock_lock_new mode now il ltype connptr s msgid reqid o).1.1 s' → s' = s ∨ fl_has il s'.
Proof.
  unfold flock_lock_new, flock_lock_inode_attach, flock_do_lock_inode_attach.
  destruct (flock_check mode il ltype); simpl; [|intros (l' & Hin & <-); simpl in Hin].
  - intros (l' & Hin & <-); simpl in Hin. rewrite elem_of_app, list_elem_of_singleton in Hin.
    destruct Hin as [?|[?| ->]]; [right; exists l'; auto..|by left].
  - rewrite elem_of_cons in Hin. destruct Hin as [[->|?]|?]; [by left|right; exists l'; auto..].
Qed.

(** ** Commands and closed files *)

Lemma flock_has_set inode il il' t j s :
  tab_wf t → tab_find inode t = Some il → fl_inode il' = inode →
  flock_has (tab_set inode il' t) j s → (j = inode ∧ fl_has il' s) ∨ flock_has t j s.
Proof.
  intros Hwf Hf Hi (il0 & Hf0 & Hhas). rewrite tab_find_set in Hf0 by done.
  case_if_in Hf0; [|right; by exists il0]. subst j. rewrite Hf in Hf0. injection Hf0 as <-. by left.
Qed.

Lemma flock_has_remove inode t t' j s :
  tab_wf t → flock_inode_remove inode t = Some t' → flock_has t' j s → flock_has t j s.
Proof.
  intros Hwf Hr (il & Hf & Hhas). unfold flock_inode_remove in Hr. case_if_in Hr; [|done].
  injection Hr as <-. rewrite tab_find_remove in Hf by done. case_if_in Hf; [done|]. by exists il.
Qed.

(** A change of one record whose sessions are those of the old one and, if the
    file is open, the session of the command. *)
Definition new_sessions (P : Prop) (s : Z) (il il' : flocks) : Prop :=
  ∀ s', fl_has il' s' → fl_has il s' ∨ (s' = s ∧ P).

Lemma new_sessions_set (P : Prop) inode s il il' t j s' :
  tab_wf t → tab_find inode t = Some il → fl_inode il' = inode → new_sessions P s il il' →
  flock_has (tab_set inode il' t) j s' → flock_has t j s' ∨ (j = inode ∧ s' = s ∧ P).
Proof.
  intros Hwf Hf Hi Hnew Hhas. eapply flock_has_set in Hhas; [|done..].
  destruct Hhas as [[-> [?|[? ?]]%Hnew]|?]; [left; by exists il|by right|by left].
Qed.

Lemma new_sessions_sub (P : Prop) s il il' : fl_le il' il → new_sessions P s il il'.
Proof. intros Hle s' Hs'. left. by apply Hle. Qed.

Lemma lock_new_inode mode now il ltype connptr s msgid reqid o :
  fl_inode (flock_lock_new mode now il ltype connptr s msgid reqid o).1.1 = fl_inode il.
Proof.
  unfold flock_lock_new, flock_lock_inode_attach, flock_do_lock_inode_attach.
  case_if; simpl; [|done]. done.
Qed.

Lemma activate_inode now l il : fl_inode (activate now l il).1 = fl_inode il.
Proof. by destruct (activate_spec now l il) as [evs ->]. Qed.

Lemma wake_readers_all_inode now il q : fl_inode (wake_readers_all now il q).1 = fl_inode il.
Proof.
  revert il. induction q as [|l q IH]; intros il; cbn [wake_readers_all]; [done|]. case_if.
  - pose proof (activate_inode now l il) as Ha. destruct (activate now l il) as [il1 evs].
    specialize (IH il1). destruct (wake_readers_all now il1 q). simpl in *. congruence.
  - specialize (IH il). by destruct (wake_readers_all now il q).
Qed.

Lemma wake_readers_head_inode now il q : fl_inode (wake_readers_head now il q).1 = fl_inode il.
Proof.
  revert il. induction q as [|l q IH]; intros il; cbn [wake_readers_head]; [done|]. case_if; [|done].
  pose proof (activate_inode now l il) as Ha. destruct (activate now l il) as [il1 evs].
  specialize (IH il1). destruct (wake_readers_head now il1 q). simpl in *. congruence.
Qed.

Lemma check_waiting_inode mode now il : fl_inode (flock_lock_check_waiting mode now il).1 = fl_inode il.
Proof.
  unfold flock_lock_check_waiting. destruct (fl_waiting il) as [|l rest]; [done|].
  assert (∃ il1 evs1, (if is_nil (fl_active il) && (l_ltype l =? LTYPE_WRITER)
    then activate now l (set_waiting rest il) else (il, [])) = (il1, evs1) ∧ fl_inode il1 = fl_inode il)
    as (il1 & evs1 & -> & <-).
  { case_if; [|by eauto]. pose proof (activate_inode now l (set_waiting rest il)) as Ha.
    destruct (activate _ _ _). eauto. }
  case_if; [|done]. pose proof (wake_readers_all_inode now il1 (fl_waiting il1)) as H1.
  pose proof (wake_readers_head_inode now il1 (fl_waiting il1)) as H2.
  case_if; [by destruct (wake_readers_all _ _ _)|by destruct (wake_readers_head _ _ _)].
Qed.

Lemma unlock_inode mode now il l rest : fl_inode (flock_lock_unlock mode now il l rest).1 = fl_inode il.
Proof.
  unfold flock_lock_unlock. case_if; [|done]. pose proof (check_waiting_inode mode now (set_active rest il)) as Hck.
  by destruct (flock_lock_check_waiting _ _ _).
Qed.

Section flock_cmd.
Context (mode : Z) (P : Prop) (inode s : Z) (il : flocks) (t : flock_tab).
Context (Hwf : tab_wf t) (Hf : tab_find inode t = Some il).

(** The outcome of a command on the record [il]. *)
Definition cmd_outcome (x : option (flock_tab * Z * list event)) : Prop :=
  ∀ t' st evs j s', x = Some (t', st, evs) → flock_has t' j s' →
    flock_has t j s' ∨ (j = inode ∧ s' = s ∧ P).

Lemma outcome_set il' st evs :
  fl_inode il' = inode → new_sessions P s il il' → cmd_outcome (Some (tab_set inode il' t, st, evs)).
Proof. intros Hi Hnew t' st' evs' j s' [= <- <- <-]. by apply (new_sessions_set _ _ _ il). Qed.

Lemma il_inode_eq : fl_inode il = inode.
Proof. exact (flock_find_inode _ _ _ Hf). Qed.

Lemma new_sessions_same : new_sessions P s il il.
Proof. intros s' ?. by left. Qed.

Lemma relock_outcome now l rest ltype connptr msgid reqid o :
  P → rest ⊆ fl_active il →
  cmd_outcome (let '(il1, evs1) := flock_lock_unlock mode now il l rest in
               let '(il2, status, evs2) := flock_lock_new mode now il1 ltype connptr s msgid reqid o in
               Some (tab_set inode il2 t, status, evs1 ++ evs2)).
Proof.
  intros HP Hsub. pose proof (unlock_sessions mode now il l rest Hsub) as Hle.
  pose proof (unlock_inode mode now il l rest) as Hi1.
  destruct (flock_lock_unlock _ _ _ _ _) as [il1 evs1].
  pose proof (lock_new_sessions mode now il1 ltype connptr s msgid reqid o) as Hnew.
  pose proof (lock_new_inode mode now il1 ltype connptr s msgid reqid o) as Hi2.
  destruct (flock_lock_new _ _ _ _ _ _ _ _ _) as [[il2 st2] evs2]. simpl in *. apply outcome_set.
  - rewrite Hi2, Hi1. apply il_inode_eq.
  - intros s' [->|?%Hle]%Hnew; auto.
Qed.

Lemma cmd_on_active_sessions now connptr msgid reqid o op pre l post :
  (op ≠ FLOCK_RELEASE → P) → fl_active il = pre ++ l :: post →
  cmd_outcome (cmd_on_active mode now connptr s msgid reqid o op il pre l post t).
Proof.
  intros HP Hact. pose proof il_inode_eq as Hi.
  assert (pre ++ post ⊆ fl_active il) as Hsub by (rewrite Hact; apply sublist_subseteq, middle_sublist).
  assert (∀ st evs, cmd_outcome (Some (tab_set inode il t, st, evs))) as Hkeep
    by (intros; apply outcome_set; [done|apply new_sessions_same]).
  assert (∀ ty, fl_le (set_active (pre ++ set_ltype ty l :: post) il) il) as Hty.
  { intros ty s' (l' & Hin & <-). simpl in Hin. rewrite elem_of_app, elem_of_cons in Hin.
    destruct Hin as [[?|[->|?]]|?]; [exists l'|exists l|exists l'|exists l']; split; try done;
      rewrite Hact, ?elem_of_app, ?elem_of_cons; auto. }
  unfold cmd_on_active. rewrite Hi. case_if.
  { pose proof (unlock_sessions mode now il l _ Hsub) as Hle. pose proof (unlock_inode mode now il l (pre ++ post)) as Hi1.
    destruct (flock_lock_unlock _ _ _ _ _) as [il' evs]. simpl in *.
    assert (cmd_outcome (Some (tab_set inode il' t, MFS_STATUS_OK, evs))) as Hset
      by (apply outcome_set; [congruence|by apply new_sessions_sub]).
    case_if; [|done]. destruct (flock_inode_remove _ _) as [t1|] eqn:Hr; [|done].
    intros t' st' evs' j s' [= <- <- <-] Hhas. eapply (Hset _ _ _ j s' eq_refl).
    eapply flock_has_remove; [|done|done]. apply tab_wf_set; [done|]. simpl. congruence. }
  assert P as HP' by (apply HP; destruct_or?; tauto).
  case_if.
  { case_if; [done|]. pose proof (check_waiting_sessions mode now (set_active (pre ++ set_ltype LTYPE_READER l :: post) il)) as Hle.
    pose proof (check_waiting_inode mode now (set_active (pre ++ set_ltype LTYPE_READER l :: post) il)) as Hi1.
    destruct (flock_lock_check_waiting _ _ _) as [il' evs]. simpl in *. apply outcome_set; [congruence|].
    apply new_sessions_sub. intros s' ?%Hle. by eapply Hty. }
  case_if; [case_if; [done|]; by apply relock_outcome|].
  case_if; [case_if; [done|]; case_if; [|done]; apply outcome_set; [done|apply new_sessions_sub, Hty]|].
  case_if; [case_if; [done|]; by apply relock_outcome|]. done.
Qed.

Lemma cmd_on_waiting_sessions now msgid reqid op pre l post :
  fl_waiting il = pre ++ l :: post →
  cmd_outcome (cmd_on_waiting mode now msgid reqid op il pre l post t).
Proof.
  intros Hq. pose proof il_inode_eq as Hi.
  assert (∀ st evs, cmd_outcome (Some (tab_set inode il t, st, evs))) as Hkeep
    by (intros; apply outcome_set; [done|apply new_sessions_same]).
  assert (∀ st evs, cmd_outcome (Some (tab_set inode (set_waiting (pre ++ post) il) t, st, evs))) as Hrm.
  { intros. apply outcome_set; [done|]. apply new_sessions_sub. intros s' (l' & Hin & <-). exists l'.
    split; [|done]. rewrite Hq. simpl in Hin. rewrite elem_of_app in *. rewrite elem_of_cons. tauto. }
  assert (∀ l' st evs, l_sessionid l' = l_sessionid l →
    cmd_outcome (Some (tab_set inode (set_waiting (pre ++ l' :: post) il) t, st, evs))) as Hrep.
  { intros l' st evs Hl'. apply outcome_set; [done|]. apply new_sessions_sub. intros s' (x & Hin & <-).
    simpl in Hin. rewrite elem_of_app, elem_of_cons in Hin.
    destruct Hin as [?|[?|[->|?]]]; [exists x|exists x|exists l|exists x]; split; try done;
      rewrite Hq, ?elem_of_app, ?elem_of_cons; auto. }
  unfold cmd_on_waiting. simpl. rewrite Hi.
  repeat case_if; try done; apply Hrep; by rewrite append_req_sessionid.
Qed.

End flock_cmd.

Lemma interrupt_queue_sessions now inode q connptr s reqid o l' :
  l' ∈ (interrupt_queue now inode q connptr s reqid o).1 → ∃ l, l ∈ q ∧ l_sessionid l = l_sessionid l'.
Proof.
  induction q as [|l q IH]; simpl; [by intros ?%elem_of_nil|].
  destruct (interrupt_queue now inode q connptr s reqid o) as [q' evs']. simpl in IH.
  assert (l' ∈ q' → ∃ l0, l0 ∈ l :: q ∧ l_sessionid l0 = l_sessionid l') as IH'.
  { intros Hin. destruct (IH Hin) as (l0 & ? & ?). exists l0. split; [by constructor|done]. }
  case_if; simpl; [case_if; simpl; [done|]|];
    (intros [->|?]%elem_of_cons; [exists l; split; [constructor|done]|auto]).
Qed.

Lemma flock_has_add inode t j s :
  tab_wf t → flock_has (tab_add (mk_flocks inode [] []) t) j s → flock_has t j s.
Proof.
  intros Hwf (il & Hf & Hhas). rewrite tab_find_add in Hf by done. simpl in Hf. case_if_in Hf; [|by exists il].
  injection Hf as <-. by destruct Hhas as (l & [?%elem_of_nil|?%elem_of_nil] & _).
Qed.

Lemma cmd_on_record_sessions mode (P : Prop) now connptr s msgid reqid inode o op il t :
  tab_wf t → tab_find inode t = Some il → (op ≠ FLOCK_RELEASE → P) →
  cmd_outcome P inode s t (cmd_on_record mode now connptr s msgid reqid o op il t).
Proof.
  intros Hwf Hf HP. pose proof (flock_find_inode _ t _ Hf) as Hil. unfold cmd_on_record.
  destruct (split_first _ (fl_active il)) as [[[pre l] post]|] eqn:Hs.
  { apply split_first_spec in Hs as [Hact _]. by eapply cmd_on_active_sessions. }
  destruct (split_first _ (fl_waiting il)) as [[[pre l] post]|] eqn:Hs'.
  { apply split_first_spec in Hs' as [Hq _]. by eapply cmd_on_waiting_sessions. }
  assert (∀ st evs, cmd_outcome P inode s t (Some (t, st, evs))) as Hsame.
  { intros st evs t' st' evs' j s' [= <- <- <-]. by left. }
  case_if; [done|]. set (ltype := if ((op =? FLOCK_TRY_SHARED) || (op =? FLOCK_LOCK_SHARED))%bool then LTYPE_READER else LTYPE_WRITER). cbv zeta. case_if; [done|].
  pose proof (lock_new_sessions mode now il ltype connptr s msgid reqid o) as Hn.
  pose proof (lock_new_inode mode now il ltype connptr s msgid reqid o) as Hi.
  destruct (flock_lock_new _ _ _ _ _ _ _ _ _) as [[il' st'] evs']. simpl in *. rewrite Hil.
  eapply outcome_set; [done|done|congruence|]. intros s0 [->|?]%Hn; [right|by left]. auto.
Qed.

(** A command adds locks of its own session only, and only if the file is open. *)
Lemma flock_cmd_sessions mode ofc now connptr s msgid reqid inode o op t t' st evs j s' :
  tab_wf t →
  flock_locks_cmd mode ofc now connptr s msgid reqid inode o op t = Some (t', st, evs) →
  flock_has t' j s' → flock_has t j s' ∨ (j = inode ∧ s' = s ∧ ofc s inode = true).
Proof.
  intros Hwf. unfold flock_locks_cmd, flock_inode_find. case_if; [intros [= <- <- <-]; by left|].
  assert (op ≠ FLOCK_INTERRUPT → op ≠ FLOCK_RELEASE → ofc s inode = true) as Hopen.
  { intros ??. destruct (ofc s inode); [done|]. repeat (destruct_or?; zbool); done. }
  destruct (tab_find inode t) as [il|] eqn:Hf.
  - case_if; [|intros Heq Hhas; eapply (cmd_on_record_sessions mode (ofc s inode = true) now connptr s msgid reqid inode o op) in Hhas;
                 [exact Hhas|done|done|by auto|exact Heq]].
    pose proof (interrupt_queue_sessions now inode (fl_waiting il) connptr s reqid o) as Hq.
    destruct (interrupt_queue _ _ _ _ _ _ _) as [q evs0]. intros [= <- <- <-] Hhas.
    eapply (new_sessions_set (ofc s inode = true) inode s il) in Hhas;
      [exact Hhas|done|done|exact (flock_find_inode _ t _ Hf)|].
    apply new_sessions_sub. intros s0 (l & [?|Hin] & <-); [exists l; auto|].
    destruct (Hq _ Hin) as (l0 & ? & ?). exists l0. auto.
  - destruct (_ || (_ || _))%bool eqn:Hop; [intros [= <- <- <-]; by left|]. simpl.
    zbool. case_if; [done|]. intros Heq Hhas. assert (tab_wf (tab_add (mk_flocks inode [] []) t)) by (by apply tab_wf_add).
    eapply (cmd_on_record_sessions mode (ofc s inode = true) now connptr s msgid reqid inode o op) in Hhas; [|done| |by auto|exact Heq].
    + destruct Hhas as [?|?]; [left; by eapply flock_has_add|by right].
    + rewrite tab_find_add by done. simpl. by rewrite Z.eqb_refl.
Qed.

(** Closing a file drops the locks of the session, and adds none. *)
Lemma close_flocks_sessions mode now s il pre rest s' :
  Forall (λ l, l_sessionid l ≠ s) pre → Forall (λ l, l_sessionid l ≠ s) (fl_waiting il) →
  (∀ l, l ∈ pre ++ rest → l ∈ fl_active il) →
  fl_has (close_flocks mode now s il pre rest).1 s' → fl_has il s' ∧ s' ≠ s.
Proof.
  revert pre. induction rest as [|l rest IH]; cbn [close_flocks]; intros pre Hpre Hw Hsub.
  { intros (l & [Hin|Hin] & <-); simpl in Hin.
    - rewrite Forall_forall in Hpre. split; [|by apply Hpre]. exists l. rewrite app_nil_r in Hsub. auto.
    - rewrite Forall_forall in Hw. split; [|by apply Hw]. exists l. auto. }
  assert (∀ l0, l0 ∈ pre ++ rest → l0 ∈ fl_active il) as Hsub'.
  { intros l0. rewrite elem_of_app. intros Hl0. apply Hsub. rewrite elem_of_app, elem_of_cons. tauto. }
  case_if.
  - destruct (is_nil (pre ++ rest)) eqn:Hn.
    + destruct (pre ++ rest) eqn:Hnil; [|done]. unfold flock_lock_unlock. simpl.
      assert (fl_has (set_active [] il) s' → fl_has il s' ∧ s' ≠ s) as Hend.
      { intros (l0 & [?%elem_of_nil|Hin] & <-); [done|]. simpl in Hin. rewrite Forall_forall in Hw.
        split; [|by apply Hw]. exists l0. auto. }
      case_if; [|done].
      pose proof (check_waiting_sessions mode now (set_active [] il) s') as Hle.
      destruct (flock_lock_check_waiting _ _ _). simpl in *. auto.
    + destruct (flock_lock_unlock _ _ _ _ _). specialize (IH pre Hpre Hw Hsub').
      by destruct (close_flocks mode now s il pre rest).
  - apply IH; [by apply Forall_app; split; [|constructor]|done|].
    intros l0. rewrite <-app_assoc. apply Hsub.
Qed.

Lemma close_flocks_inode mode now s il pre rest :
  fl_inode (close_flocks mode now s il pre rest).1 = fl_inode il.
Proof.
  revert pre. induction rest as [|l rest IH]; cbn [close_flocks]; intros pre; [done|]. case_if; [|done].
  pose proof (unlock_inode mode now il l (pre ++ rest)) as Hu. destruct (flock_lock_unlock _ _ _ _ _).
  case_if; [done|]. specialize (IH pre). by destruct (close_flocks mode now s il pre rest).
Qed.

Lemma flock_file_closed_sessions mode now s inode t t' evs j s' :
  tab_wf t → flock_file_closed mode now s inode t = Some (t', evs) →
  flock_has t' j s' → flock_has t j s' ∧ (j ≠ inode ∨ s' ≠ s).
Proof.
  intros Hwf. unfold flock_file_closed, flock_inode_find.
  destruct (tab_find inode t) as [il|] eqn:Hf.
  2:{ intros [= <- <-] (il & Hf' & Hhas). split; [by exists il|]. left. intros ->. congruence. }
  pose proof (flock_find_inode _ t _ Hf) as Hi.
  set (il1 := set_waiting _ il). set (evs0 := concat _).
  pose proof (close_flocks_sessions mode now s il1 [] (fl_active il1) s') as Hcl.
  pose proof (close_flocks_inode mode now s il1 [] (fl_active il1)) as Hi2.
  destruct (close_flocks _ _ _ _ _ _) as [il2 evs2]. simpl in Hcl, Hi2.
  assert (fl_has il2 s' → fl_has il s' ∧ s' ≠ s) as Hil2.
  { intros Hhas. destruct Hcl as [(l & Hin & Hl) Hne]; [done| |by auto|done|].
    - apply Forall_forall. by intros l [? _]%list_elem_of_filter.
    - split; [|done]. exists l. split; [|done]. destruct Hin as [?|[_ ?]%list_elem_of_filter]; auto. }
  assert (flock_has (tab_set inode il2 t) j s' → flock_has t j s' ∧ (j ≠ inode ∨ s' ≠ s)) as Hset.
  { intros (il0 & Hf0 & Hhas). rewrite tab_find_set in Hf0 by (done || (simpl; congruence)).
    case_if_in Hf0; [subst j; rewrite Hf in Hf0; injection Hf0 as <-|split; [by exists il0|by left]].
    apply Hil2 in Hhas as [? ?]. split; [by exists il|by right]. }
  case_if.
  - destruct (flock_inode_remove _ _) as [t1|] eqn:Hr; [|done]. intros [= <- <-] Hhas. apply Hset.
    eapply flock_has_remove; [|done|done]. apply tab_wf_set; [done|]. simpl. congruence.
  - by intros [= <- <-].
Qed.

Lemma flock_disconnected_sessions connptr t j s :
  flock_has (flock_disconnected connptr t) j s → flock_has t j s.
Proof.
  intros (il & Hf & Hhas). unfold flock_disconnected in Hf. rewrite tab_find_map in Hf by done.
  destruct (tab_find j t) as [il0|] eqn:Hf0; simpl in Hf; [|done]. injection Hf as <-.
  exists il0. split; [done|]. destruct Hhas as (l & [?|Hin] & <-); exists l; [auto|].
  simpl in Hin. apply list_elem_of_filter in Hin as [_ ?]. auto.
Qed.
