(* ===== verification/OpenFiles.v ===== *)
(** * Open files of the master (mfsmaster/openfiles.c)

    State: the relations (session, inode) of open files, each an [ofrelation]
    allocated once and linked in two hash tables, by session and by inode.  A
    relation has an address, because two relations of one session and inode are
    possible and a deletion unlinks one of them.

    [of_delnode] closes the locks of the file first, so the state of the two lock
    modules is part of the state here. *)

From S2P Require Import Prelude MfsComm HashChain Changelog FlockLocks PosixRanges PosixLocks.

Definition OF_INODE_HASHSIZE : Z := 65536.
Definition OF_SESSION_HASHSIZE : Z := 4096.
Definition OF_INODE_HASH (inode : Z) : Z := inode `mod` OF_INODE_HASHSIZE.
Definition OF_SESSION_HASH (sessionid : Z) : Z := sessionid `mod` OF_SESSION_HASHSIZE.

Record ofrelation := mk_ofr { ofr_addr : positive; ofr_sessionid : Z; ofr_inode : Z }.

#[export] Instance ofrelation_eq_dec : EqDecision ofrelation.
Proof. solve_decision. Defined.

(** The statics of the file, the next address [malloc] returns, and the state of
    the lock modules. *)
Record master := mk_master {
  sessionhash : list (list ofrelation);
  inodehash : list (list ofrelation);
  of_next : positive;
  bitmasksize : Z;
  m_flocks : flock_tab;
  m_posix : posix_tab }.

Definition chain_at (h : Z) (t : list (list ofrelation)) : list ofrelation :=
  default [] (t !! Z.to_nat h).

Definition chain_push (h : Z) (r : ofrelation) (t : list (list ofrelation)) : list (list ofrelation) :=
  <[Z.to_nat h := r :: chain_at h t]> t.

(** Unlinking a relation: its address is in one chain of each table. *)
Definition chain_unlink (h : Z) (r : ofrelation) (t : list (list ofrelation)) : list (list ofrelation) :=
  <[Z.to_nat h := filter (λ r', ofr_addr r' ≠ ofr_addr r) (chain_at h t)]> t.

Definition of_newnode (sessionid inode : Z) (m : master) : master :=
  let ofr := mk_ofr (of_next m) sessionid inode in
  mk_master (chain_push (OF_SESSION_HASH sessionid) ofr (sessionhash m))
            (chain_push (OF_INODE_HASH inode) ofr (inodehash m))
            (Pos.succ (of_next m)) (bitmasksize m) (m_flocks m) (m_posix m).

Definition of_checknode (m : master) (sessionid inode : Z) : bool :=
  existsb (λ ofr, (ofr_sessionid ofr =? sessionid) && (ofr_inode ofr =? inode))
    (chain_at (OF_INODE_HASH inode) (inodehash m)).

(** ** Binary search

    [None] is a read outside of the array or a sum that does not fit [int32_t]. *)

Definition int32 (z : Z) : option Z := if (-2 ^ 31 <=? z) && (z <? 2 ^ 31) then Some z else None.

Fixpoint of_bisearch_loop (fuel : nat) (search : Z) (array : list Z) (first last middle : Z) : option Z :=
  match fuel with
  | O => None
  | S fuel =>
      if first <=? last then
        a ← (if 0 <=? middle then array !! Z.to_nat middle else None);
        if a <? search then
          first' ← int32 (middle + 1); sum ← int32 (first' + last);
          of_bisearch_loop fuel search array first' last (Z.quot sum 2)
        else if search <? a then
          last' ← int32 (middle - 1); sum ← int32 (first + last');
          of_bisearch_loop fuel search array first last' (Z.quot sum 2)
        else Some middle
      else Some (-1)
  end.

Definition of_bisearch (search : Z) (array : list Z) (n : Z) : option Z :=
  last ← int32 (n - 1); sum ← int32 (0 + last);
  of_bisearch_loop (S (length array)) search array 0 last (Z.quot sum 2).

(** The comparison given to [qsort].  Inodes that compare equal are equal numbers, so
    every sort by it gives the same array: [qsort] is a merge sort here. *)
Definition of_inodecmp (aa bb : Z) : Z :=
  if aa <? bb then -1 else if bb <? aa then 1 else 0.

Definition of_inode_le (a b : Z) : Prop := of_inodecmp a b ≤ 0.
#[export] Instance of_inode_le_dec : RelDecision of_inode_le.
Proof. intros a b. unfold of_inode_le. apply _. Defined.

Definition qsort_inodes (inodes : list Z) : list Z := merge_sort of_inode_le inodes.

(** ** The bit mask of the synchronisation *)

Definition bit_set (bm : list Z) (i : Z) : option (list Z) :=
  let w := Z.to_nat (Z.shiftr i 5) in
  v ← bm !! w; Some (<[w := Z.lor v (Z.shiftl 1 (Z.land i 0x1F))]> bm).

Definition bit_clear_at (bm : list Z) (i : Z) : option bool :=
  v ← bm !! Z.to_nat (Z.shiftr i 5); Some (Z.land v (Z.shiftl 1 (Z.land i 0x1F)) =? 0).

Section mode.
Variable FlocksMode : Z.

Definition of_delnode (now : Z) (ofr : ofrelation) (m : master) : option (master * list event) :=
  '(fl, evs1) ← flock_file_closed FlocksMode now (ofr_sessionid ofr) (ofr_inode ofr) (m_flocks m);
  '(px, evs2) ← posix_lock_file_closed now (ofr_sessionid ofr) (ofr_inode ofr) (m_posix m);
  Some (mk_master (chain_unlink (OF_SESSION_HASH (ofr_sessionid ofr)) ofr (sessionhash m))
                  (chain_unlink (OF_INODE_HASH (ofr_inode ofr)) ofr (inodehash m))
                  (of_next m) (bitmasksize m) fl px,
        evs1 ++ evs2).

(** The loop over the chain of the session, which is read before the body changes it. *)
Fixpoint sync_close (now sessionid : Z) (inodes : list Z) (inodecnt : Z) (chain : list ofrelation)
    (m : master) (bm : list Z) : option (master * list Z * list event) :=
  match chain with
  | [] => Some (m, bm, [])
  | ofr :: rest =>
      if ofr_sessionid ofr =? sessionid then
        ipos ← of_bisearch (ofr_inode ofr) inodes inodecnt;
        if ipos <? 0 then
          '(m, evs) ← of_delnode now ofr m;
          '(m, bm, evs') ← sync_close now sessionid inodes inodecnt rest m bm;
          Some (m, bm, evs ++ Log (RELEASE now sessionid (ofr_inode ofr)) :: evs')
        else
          bm ← bit_set bm ipos;
          sync_close now sessionid inodes inodecnt rest m bm
      else sync_close now sessionid inodes inodecnt rest m bm
  end.

(** The loop over the array, from position [i]. *)
Fixpoint sync_open (now sessionid i : Z) (inodes : list Z) (bm : list Z) (m : master)
    : option (master * list event) :=
  match inodes with
  | [] => Some (m, [])
  | inode :: rest =>
      clear ← bit_clear_at bm i;
      if clear : bool then
        '(m, evs) ← sync_open now sessionid (i + 1) rest bm (of_newnode sessionid inode m);
        Some (m, Log (ACQUIRE now sessionid inode) :: evs)
      else sync_open now sessionid (i + 1) rest bm m
  end.

Definition of_sync (now sessionid : Z) (inodes : list Z) (m : master) : option (master * list event) :=
  let inodecnt := Z.of_nat (length inodes) in
  let size :=
    if (u32 (bitmasksize m * 32) <? inodecnt) || (bitmasksize m =? 0)
    then u32 (u32 (inodecnt + 31) / 32 + 10) else bitmasksize m in
  let m := mk_master (sessionhash m) (inodehash m) (of_next m) size (m_flocks m) (m_posix m) in
  let bm := replicate (Z.to_nat size) 0 in
  let inodes := qsort_inodes inodes in
  '(m, bm, evs1) ← sync_close now sessionid inodes inodecnt
                     (chain_at (OF_SESSION_HASH sessionid) (sessionhash m)) m bm;
  '(m, evs2) ← sync_open now sessionid 0 inodes bm m;
  Some (m, evs1 ++ evs2).

Definition of_openfile (now sessionid inode : Z) (m : master) : master * list event :=
  if negb (of_checknode m sessionid inode)
  then (of_newnode sessionid inode m, [Log (ACQUIRE now sessionid inode)])
  else (m, []).

Fixpoint remove_loop (now sessionid : Z) (chain : list ofrelation) (m : master)
    : option (master * list event) :=
  match chain with
  | [] => Some (m, [])
  | ofr :: rest =>
      if ofr_sessionid ofr =? sessionid then
        '(m, evs) ← of_delnode now ofr m;
        '(m, evs') ← remove_loop now sessionid rest m; Some (m, evs ++ evs')
      else remove_loop now sessionid rest m
  end.

Definition of_session_removed (now sessionid : Z) (m : master) : option (master * list event) :=
  remove_loop now sessionid (chain_at (OF_SESSION_HASH sessionid) (sessionhash m)) m.

(** ** Queries *)

Definition sessions_of_inode (inode : Z) (m : master) : list Z :=
  ofr_sessionid <$> filter (λ ofr, ofr_inode ofr = inode) (chain_at (OF_INODE_HASH inode) (inodehash m)).

Definition of_isfileopen (m : master) (inode : Z) : bool :=
  existsb (λ ofr, ofr_inode ofr =? inode) (chain_at (OF_INODE_HASH inode) (inodehash m)).

Definition of_isfileopened_by_session (m : master) (inode sessionid : Z) : bool :=
  existsb (λ ofr, (ofr_inode ofr =? inode) && (ofr_sessionid ofr =? sessionid))
    (chain_at (OF_INODE_HASH inode) (inodehash m)).

Definition of_noofopenedfiles (m : master) (sessionid : Z) : Z :=
  u32 (Z.of_nat (length (filter (λ ofr, ofr_sessionid ofr = sessionid)
    (chain_at (OF_SESSION_HASH sessionid) (sessionhash m))))).

(** ** Replay *)

Definition of_mr_acquire (sessionid inode : Z) (m : master) : master * Z * list event :=
  if of_checknode m sessionid inode then (m, MFS_ERROR_MISMATCH, [])
  else (of_newnode sessionid inode m, MFS_STATUS_OK, [MetaVersionInc]).

Definition of_mr_release (now sessionid inode : Z) (m : master) : option (master * Z * list event) :=
  match List.find (λ ofr, (ofr_sessionid ofr =? sessionid) && (ofr_inode ofr =? inode))
          (chain_at (OF_INODE_HASH inode) (inodehash m)) with
  | Some ofr =>
      '(m, evs) ← of_delnode now ofr m; Some (m, MFS_STATUS_OK, evs ++ [MetaVersionInc])
  | None => Some (m, MFS_ERROR_MISMATCH, [])
  end.

End mode.

Definition of_init : master :=
  mk_master (replicate (Z.to_nat OF_SESSION_HASHSIZE) []) (replicate (Z.to_nat OF_INODE_HASHSIZE) [])
    1 0 tab_empty tab_empty.

(** ** The relations of the two tables *)

Definition in_s (m : master) (r : ofrelation) : Prop :=
  r ∈ chain_at (OF_SESSION_HASH (ofr_sessionid r)) (sessionhash m).
Definition in_i (m : master) (r : ofrelation) : Prop :=
  r ∈ chain_at (OF_INODE_HASH (ofr_inode r)) (inodehash m).

(** Each relation is in the chains of its keys and in no other, both tables hold
    the same relations, and an address belongs to one of them. *)
Record of_wf (m : master) : Prop := {
  of_wf_slen : length (sessionhash m) = Z.to_nat OF_SESSION_HASHSIZE;
  of_wf_ilen : length (inodehash m) = Z.to_nat OF_INODE_HASHSIZE;
  of_wf_splace : ∀ h r, 0 ≤ h → r ∈ chain_at h (sessionhash m) → OF_SESSION_HASH (ofr_sessionid r) = h;
  of_wf_iplace : ∀ h r, 0 ≤ h → r ∈ chain_at h (inodehash m) → OF_INODE_HASH (ofr_inode r) = h;
  of_wf_snodup : ∀ h, NoDup (chain_at h (sessionhash m));
  of_wf_same : ∀ r, in_s m r ↔ in_i m r;
  of_wf_addr : ∀ r r', in_i m r → in_i m r' → ofr_addr r = ofr_addr r' → r = r';
  of_wf_next : ∀ r, in_i m r → (ofr_addr r < of_next m)%positive }.

(** The abstract state: the pairs of a session and an inode it has open. *)
Definition is_open (m : master) (sessionid inode : Z) : Prop :=
  ∃ r, in_i m r ∧ ofr_sessionid r = sessionid ∧ ofr_inode r = inode.

Lemma session_hash_range s : 0 ≤ OF_SESSION_HASH s < OF_SESSION_HASHSIZE.
Proof. by apply Z.mod_pos_bound. Qed.
Lemma inode_hash_range i : 0 ≤ OF_INODE_HASH i < OF_INODE_HASHSIZE.
Proof. by apply Z.mod_pos_bound. Qed.

Lemma checknode_spec m s i : of_wf m → of_checknode m s i = true ↔ is_open m s i.
Proof.
  intros Hwf. unfold of_checknode. rewrite existsb_exists. split.
  - intros (r & Hin%list_elem_of_In & Hr). zbool. exists r. unfold in_i. by subst.
  - intros (r & Hin & <- & <-). exists r. split; [by apply list_elem_of_In|]. by rewrite !Z.eqb_refl.
Qed.

Lemma isfileopen_spec m i : of_wf m → of_isfileopen m i = true ↔ ∃ s, is_open m s i.
Proof.
  intros Hwf. unfold of_isfileopen. rewrite existsb_exists. split.
  - intros (r & Hin%list_elem_of_In & Hr). zbool. exists (ofr_sessionid r), r. unfold in_i. by subst.
  - intros (s & r & Hin & <- & <-). exists r. split; [by apply list_elem_of_In|]. by rewrite !Z.eqb_refl.
Qed.

Lemma isfileopened_by_session_checknode m s i : of_isfileopened_by_session m i s = of_checknode m s i.
Proof.
  unfold of_isfileopened_by_session, of_checknode. induction (chain_at _ _) as [|r l IH]; simpl; [done|].
  by rewrite IH, (andb_comm (ofr_inode r =? i)).
Qed.

(** ** Updates of a chain *)

Lemma chain_at_insert h h' (l : list ofrelation) t size :
  0 ≤ h < size → 0 ≤ h' → length t = Z.to_nat size →
  chain_at h' (<[Z.to_nat h := l]> t) = if h =? h' then l else chain_at h' t.
Proof.
  intros Hh Hh' Hlen. unfold chain_at. case_if.
  - subst h'. by rewrite list_lookup_insert_eq by lia.
  - by rewrite list_lookup_insert_ne by lia.
Qed.

Lemma elem_push h h' r r' t size :
  0 ≤ h < size → 0 ≤ h' → length t = Z.to_nat size →
  r' ∈ chain_at h' (chain_push h r t) ↔ (h = h' ∧ r' = r) ∨ r' ∈ chain_at h' t.
Proof.
  intros Hh Hh' Hlen. unfold chain_push. rewrite (chain_at_insert _ _ _ _ size) by done. case_if.
  - subst h'. rewrite elem_of_cons. tauto.
  - split; [by right|]. intros [[? _]|?]; done.
Qed.

Lemma elem_unlink h h' r r' t size :
  0 ≤ h < size → 0 ≤ h' → length t = Z.to_nat size →
  r' ∈ chain_at h' (chain_unlink h r t) ↔ r' ∈ chain_at h' t ∧ (h = h' → ofr_addr r' ≠ ofr_addr r).
Proof.
  intros Hh Hh' Hlen. unfold chain_unlink. rewrite (chain_at_insert _ _ _ _ size) by done. case_if.
  - subst h'. rewrite list_elem_of_filter. tauto.
  - split; [by intros; split|]. tauto.
Qed.

(** ** New and deleted relations *)

Lemma newnode_in m s i r :
  of_wf m →
  (in_i (of_newnode s i m) r ↔ r = mk_ofr (of_next m) s i ∨ in_i m r) ∧
  (in_s (of_newnode s i m) r ↔ r = mk_ofr (of_next m) s i ∨ in_s m r).
Proof.
  intros Hwf. unfold in_i, in_s. simpl.
  rewrite (elem_push _ _ _ _ _ OF_INODE_HASHSIZE), (elem_push _ _ _ _ _ OF_SESSION_HASHSIZE)
    by (apply inode_hash_range || apply session_hash_range || apply Hwf).
  split; (split; [tauto|]; intros [->|?]; [by left|by right]).
Qed.

Lemma newnode_wf m s i : of_wf m → of_wf (of_newnode s i m).
Proof.
  intros Hwf. pose proof Hwf as [Hsl Hil Hsp Hip Hsnd Hsame Haddr Hnext].
  pose proof (λ r, newnode_in m s i r Hwf) as Hin.
  split.
  - simpl. unfold chain_push. by rewrite length_insert.
  - simpl. unfold chain_push. by rewrite length_insert.
  - intros h r Hh. simpl. rewrite (elem_push _ _ _ _ _ OF_SESSION_HASHSIZE) by (apply session_hash_range || done).
    intros [[<- ->]|?]; [done|auto].
  - intros h r Hh. simpl. rewrite (elem_push _ _ _ _ _ OF_INODE_HASHSIZE) by (apply inode_hash_range || done).
    intros [[<- ->]|?]; [done|auto].
  - intros h. unfold of_newnode, chain_push. simpl.
    set (h0 := OF_SESSION_HASH s). unfold chain_at at 1.
    destruct (decide (Z.to_nat h0 = Z.to_nat h)) as [Heq|Hne].
    + rewrite Heq, list_lookup_insert_eq by (rewrite <-Heq, Hsl; pose proof (session_hash_range s); unfold h0; lia).
      simpl. apply NoDup_cons. split; [|by apply Hsnd]. intros Hr.
      assert (in_s m (mk_ofr (of_next m) s i)) as Hr'%Hsame%Hnext by exact Hr. simpl in Hr'. lia.
    + rewrite list_lookup_insert_ne by done. apply Hsnd.
  - intros r. destruct (Hin r) as [-> ->]. by rewrite Hsame.
  - intros r r' [->|Hr]%Hin [->|Hr']%Hin; simpl; [done|..]; intros Heq.
    + apply Hnext in Hr'. rewrite <-Heq in Hr'. by apply Pos.lt_irrefl in Hr'.
    + apply Hnext in Hr. rewrite Heq in Hr. by apply Pos.lt_irrefl in Hr.
    + by apply Haddr.
  - intros r [->|Hr%Hnext]%Hin; simpl; lia.
Qed.

Lemma newnode_open m s i s' i' :
  of_wf m → is_open (of_newnode s i m) s' i' ↔ (s' = s ∧ i' = i) ∨ is_open m s' i'.
Proof.
  intros Hwf. split.
  - intros (r & [->|Hr]%newnode_in & <- & <-); [by left|right; by exists r|done].
  - intros [[-> ->]|(r & Hr & ? & ?)].
    + eexists. split; [apply newnode_in; [done|by left]|done].
    + exists r. split; [apply newnode_in; auto|done].
Qed.

(** The tables after [of_delnode]. *)
Definition unlinked (r : ofrelation) (m m' : master) : Prop :=
  sessionhash m' = chain_unlink (OF_SESSION_HASH (ofr_sessionid r)) r (sessionhash m) ∧
  inodehash m' = chain_unlink (OF_INODE_HASH (ofr_inode r)) r (inodehash m) ∧
  of_next m' = of_next m ∧ bitmasksize m' = bitmasksize m.

Lemma unlinked_in r m m' r' :
  of_wf m → in_i m r → unlinked r m m' →
  (in_i m' r' ↔ in_i m r' ∧ r' ≠ r) ∧ (in_s m' r' ↔ in_s m r' ∧ r' ≠ r).
Proof.
  intros Hwf Hr (Hs & Hi & _). unfold in_i, in_s. rewrite Hs, Hi.
  rewrite (elem_unlink _ _ _ _ _ OF_INODE_HASHSIZE), (elem_unlink _ _ _ _ _ OF_SESSION_HASHSIZE)
    by (apply inode_hash_range || apply session_hash_range || apply Hwf).
  split; (split; intros [Hin Hne]; split; [done|..|done|]).
  - intros ->. by apply Hne.
  - intros _ Heq. apply Hne. by apply (of_wf_addr _ Hwf).
  - intros ->. by apply Hne.
  - intros _ Heq. apply Hne. apply (of_wf_addr _ Hwf); [|done|done]. by apply (of_wf_same _ Hwf).
Qed.

Lemma unlinked_wf r m m' : of_wf m → in_i m r → unlinked r m m' → of_wf m'.
Proof.
  intros Hwf Hr Hun. pose proof Hun as (Hs & Hi & Hn & _).
  pose proof (λ r', unlinked_in r m m' r' Hwf Hr Hun) as Hin.
  pose proof Hwf as [Hsl Hil Hsp Hip Hsnd Hsame Haddr Hnext]. split.
  - rewrite Hs. unfold chain_unlink. by rewrite length_insert.
  - rewrite Hi. unfold chain_unlink. by rewrite length_insert.
  - intros h r' Hh. rewrite Hs, (elem_unlink _ _ _ _ _ OF_SESSION_HASHSIZE) by (apply session_hash_range || done).
    intros [? _]. auto.
  - intros h r' Hh. rewrite Hi, (elem_unlink _ _ _ _ _ OF_INODE_HASHSIZE) by (apply inode_hash_range || done).
    intros [? _]. auto.
  - intros h. rewrite Hs. unfold chain_unlink. unfold chain_at at 1.
    destruct (_ !! Z.to_nat h) as [l|] eqn:Hl; [|constructor]. simpl.
    apply list_lookup_insert_Some in Hl as [(_ & <- & _)|[_ Hl]]; [by apply NoDup_filter|].
    specialize (Hsnd h). unfold chain_at in Hsnd. by rewrite Hl in Hsnd.
  - intros r'. destruct (Hin r') as [-> ->]. by rewrite Hsame.
  - intros r1 r2 [? _]%Hin [? _]%Hin. auto.
  - intros r' [? _]%Hin. rewrite Hn. auto.
Qed.

Lemma of_init_wf : of_wf of_init.
Proof.
  assert (∀ h n, chain_at h (replicate n []) = []) as Hnil.
  { intros h n. unfold chain_at. destruct (_ !! _) eqn:Hl; [|done]. by apply lookup_replicate in Hl as [-> _]. }
  split; unfold in_s, in_i; cbn [of_init sessionhash inodehash]; [apply length_replicate..| | | | | |]; intros;
    repeat match goal with H : context [chain_at _ (replicate _ [])] |- _ => rewrite Hnil in H end;
    rewrite ?Hnil; try (by exfalso; eapply not_elem_of_nil); [constructor|].
  by rewrite !elem_of_nil.
Qed.

(** ** The binary search *)

Lemma int32_Some z : -2 ^ 31 ≤ z < 2 ^ 31 → int32 z = Some z.
Proof. intros Hz. unfold int32. by case_if; [|lia]. Qed.

(** A found position, or [-1] when the value is not there. *)
Definition search_result (search : Z) (array : list Z) (p : Z) : Prop :=
  (p = -1 ∧ search ∉ array) ∨ (0 ≤ p ∧ array !! Z.to_nat p = Some search).

Lemma sorted_lookup (array : list Z) i j x y :
  StronglySorted Z.le array → array !! i = Some x → array !! j = Some y → (i ≤ j)%nat → x ≤ y.
Proof.
  intros Hs. revert i j. induction Hs as [|a l Hs IH Ha]; intros i j; [done|].
  rewrite Forall_forall in Ha. destruct i as [|i], j as [|j]; simpl; intros Hx Hy Hij; try lia.
  - injection Hx as <-. injection Hy as <-. lia.
  - injection Hx as <-. apply Ha. by eapply list_elem_of_lookup_2.
  - eapply IH; [done..|lia].
Qed.

Lemma bisearch_loop_spec fuel search array first last :
  StronglySorted Z.le array → Z.of_nat (length array) ≤ 2 ^ 30 →
  0 ≤ first → first ≤ last + 1 → last < Z.of_nat (length array) → last - first + 1 < Z.of_nat fuel →
  (∀ i x, array !! i = Some x → Z.of_nat i < first → x < search) →
  (∀ i x, array !! i = Some x → last < Z.of_nat i → search < x) →
  ∃ p, of_bisearch_loop fuel search array first last (Z.quot (first + last) 2) = Some p ∧
    search_result search array p.
Proof.
  intros Hs Hlen. revert first last.
  induction fuel as [|fuel IH]; intros first last Hf Hfl Hl Hfuel Hlo Hhi; [lia|].
  cbn [of_bisearch_loop]. case_if.
  - assert (0 ≤ first + last) as Hsum by lia. rewrite Z.quot_div_nonneg by lia.
    pose proof (Z.div_mod (first + last) 2) as Hdm. pose proof (Z.mod_pos_bound (first + last) 2) as Hb.
    set (mid := (first + last) / 2) in *.
    destruct (Z.leb_spec 0 mid); [|lia].
    destruct (lookup_lt_is_Some_2 array (Z.to_nat mid)) as [a Ha]; [lia|]. rewrite Ha. cbn [mbind option_bind].
    case_if; [|case_if].
    + do 2 (rewrite int32_Some by lia; cbn [mbind option_bind]). apply IH; try lia; [|done].
      intros i x Hx Hi. eapply Z.le_lt_trans; [|done]. eapply sorted_lookup; [done|done|exact Ha|lia].
    + do 2 (rewrite int32_Some by lia; cbn [mbind option_bind]). apply IH; try lia; [done|].
      intros i x Hx Hi. eapply Z.lt_le_trans; [done|]. eapply sorted_lookup; [done|exact Ha|done|lia].
    + eexists. split; [done|]. right. split; [done|]. rewrite Ha. f_equal. lia.
  - eexists. split; [done|]. left. split; [done|]. intros (i & Hi)%list_elem_of_lookup.
    destruct (Z.lt_ge_cases (Z.of_nat i) first) as [Hlt|Hge].
    + specialize (Hlo _ _ Hi Hlt). lia.
    + specialize (Hhi _ _ Hi ltac:(lia)). lia.
Qed.

Lemma bisearch_spec search array :
  StronglySorted Z.le array → Z.of_nat (length array) ≤ 2 ^ 30 →
  ∃ p, of_bisearch search array (Z.of_nat (length array)) = Some p ∧ search_result search array p.
Proof.
  intros Hs Hlen. unfold of_bisearch. do 2 (rewrite int32_Some by lia; cbn [mbind option_bind]).
  apply bisearch_loop_spec; try done; try lia; intros i x Hx%lookup_lt_Some Hi; lia.
Qed.

(** ** The sort *)

Lemma of_inode_le_le a b : of_inode_le a b ↔ a ≤ b.
Proof. unfold of_inode_le, of_inodecmp. repeat case_if; lia. Qed.

Lemma qsort_sorted l : StronglySorted Z.le (qsort_inodes l).
Proof.
  assert (StronglySorted of_inode_le (qsort_inodes l)) as Hs.
  { apply StronglySorted_merge_sort.
    - intros a b c. rewrite !of_inode_le_le. lia.
    - intros a b. rewrite !of_inode_le_le. lia. }
  induction Hs; constructor; [done|]. eapply Forall_impl; [done|]. intros x. apply of_inode_le_le.
Qed.

Lemma qsort_perm l : qsort_inodes l ≡ₚ l.
Proof. apply merge_sort_Permutation. Qed.

(** ** The bit mask *)

Definition mask_bit (bm : list Z) (i : Z) : bool :=
  match bm !! Z.to_nat (Z.shiftr i 5) with Some v => Z.testbit v (Z.land i 0x1F) | None => false end.

Definition mask_fits (bm : list Z) (n : Z) : Prop :=
  n ≤ 32 * Z.of_nat (length bm) ∧ Forall (λ v, 0 ≤ v) bm.

Lemma pos_split i : 0 ≤ i → i = 32 * Z.shiftr i 5 + Z.land i 0x1F ∧ 0 ≤ Z.land i 0x1F < 32 ∧ 0 ≤ Z.shiftr i 5.
Proof.
  intros Hi. change 0x1F with (Z.ones 5). rewrite Z.land_ones, Z.shiftr_div_pow2 by lia.
  pose proof (Z.div_mod i (2 ^ 5)). pose proof (Z.mod_pos_bound i (2 ^ 5)).
  pose proof (Z.div_pos i (2 ^ 5)). lia.
Qed.

Lemma bit_set_spec bm n i :
  mask_fits bm n → 0 ≤ i < n →
  ∃ bm', bit_set bm i = Some bm' ∧ mask_fits bm' n ∧
    ∀ j, 0 ≤ j < n → mask_bit bm' j = (i =? j) || mask_bit bm j.
Proof.
  intros [Hlen Hpos] Hi. destruct (pos_split i ltac:(lia)) as (Hsi & Hli & Hwi).
  unfold bit_set. destruct (lookup_lt_is_Some_2 bm (Z.to_nat (Z.shiftr i 5))) as [v Hv]; [lia|].
  rewrite Hv. cbn [mbind option_bind]. eexists. split; [done|]. split; [split|].
  - by rewrite length_insert.
  - apply Forall_insert; [done|]. apply Z.lor_nonneg. split.
    + rewrite Forall_forall in Hpos. apply Hpos. by eapply list_elem_of_lookup_2.
    + rewrite Z.shiftl_nonneg. lia.
  - intros j Hj. destruct (pos_split j ltac:(lia)) as (Hsj & Hlj & Hwj). unfold mask_bit.
    destruct (decide (Z.shiftr i 5 = Z.shiftr j 5)) as [Heq|Hne].
    + rewrite Heq in Hv |- *. rewrite list_lookup_insert_eq by (by eapply lookup_lt_Some). rewrite Hv.
      rewrite Z.lor_spec, orb_comm, Z.shiftl_spec by lia. f_equal.
      destruct (Z.eqb_spec i j) as [<-|Hij].
      * by rewrite Z.sub_diag.
      * destruct (Z.lt_ge_cases (Z.land j 31 - Z.land i 31) 0); [by rewrite Z.testbit_neg_r|].
        rewrite (Z.bits_above_log2 1); [done|lia|simpl; lia].
    + rewrite list_lookup_insert_ne by lia. destruct (Z.eqb_spec i j) as [->|]; done.
Qed.

Lemma bit_clear_spec bm n i :
  mask_fits bm n → 0 ≤ i < n → bit_clear_at bm i = Some (negb (mask_bit bm i)).
Proof.
  intros [Hlen _] Hi. destruct (pos_split i ltac:(lia)) as (Hsi & Hli & Hwi).
  unfold bit_clear_at, mask_bit. destruct (lookup_lt_is_Some_2 bm (Z.to_nat (Z.shiftr i 5))) as [v ->]; [lia|].
  cbn [mbind option_bind]. f_equal. rewrite Z.shiftl_1_l.
  destruct (Z.testbit v (Z.land i 31)) eqn:Hb; simpl.
  - apply Z.eqb_neq. intros Hz. apply (f_equal (λ z, Z.testbit z (Z.land i 31))) in Hz.
    rewrite Z.land_spec, Hb, Z.pow2_bits_true, Z.bits_0 in Hz by lia. done.
  - apply Z.eqb_eq, Z.bits_inj'. intros k Hk. rewrite Z.land_spec, Z.bits_0, Z.pow2_bits_eqb by lia.
    destruct (Z.eqb_spec (Z.land i 31) k) as [<-|]; [by rewrite Hb|apply andb_false_r].
Qed.
