(* ===== verification/FsNodes.v ===== *)
(** * Nodes (filesystem.c)

    The part of an [fsnode] that decides who may do what: its type, owner, mode, time
    stamps and flags, and the edges that lead to it.  The nodes of the master are a
    finite map from inode numbers, which is what the hash table of [LinHash.v] stands
    for.  The access control lists of [posixacl.c] are beside them, since the two
    files call each other. *)

From S2P Require Import Prelude MfsComm.

(** [p->mode] is a bit field of 12 bits. *)
Definition u12 (z : Z) : Z := z `mod` 2 ^ 12.

(** [fn_parents] is the list [parents] of the edges to the node: the inode of the
    parent, or nothing for the edge of a node of the trash. *)
Record fsnode := mk_fsnode {
  fn_ctime : Z; fn_mtime : Z; fn_atime : Z; fn_uid : Z; fn_gid : Z;
  fn_aclpermflag : bool; fn_acldefflag : bool; fn_type : Z; fn_mode : Z;
  fn_eattr : Z; fn_winattr : Z; fn_parents : list (option Z) }.

#[export] Instance fsnode_eq_dec : EqDecision fsnode.
Proof. solve_decision. Defined.

Record acl_entry := mk_acl_entry { ae_id : Z; ae_perm : Z }.

Record acl_node := mk_acl_node {
  acl_userperm : Z; acl_groupperm : Z; acl_otherperm : Z; acl_mask : Z;
  acl_namedusers : Z; acl_namedgroups : Z; acl_acltab : list acl_entry }.

#[export] Instance acl_entry_eq_dec : EqDecision acl_entry.
Proof. solve_decision. Defined.
#[export] Instance acl_node_eq_dec : EqDecision acl_node.
Proof. solve_decision. Defined.


(** [fs_acls] has the access control lists, by inode and kind. *)
Record fs := mk_fs { fs_nodes : gmap Z fsnode; fs_acls : gmap (Z * Z) acl_node }.

(** Assignments to the fields of a node. *)
Definition set_mode (mode : Z) (p : fsnode) : fsnode :=
  mk_fsnode (fn_ctime p) (fn_mtime p) (fn_atime p) (fn_uid p) (fn_gid p) (fn_aclpermflag p) (fn_acldefflag p)
    (fn_type p) (u12 mode) (fn_eattr p) (fn_winattr p) (fn_parents p).
Definition set_ctime (ts : Z) (p : fsnode) : fsnode :=
  mk_fsnode ts (fn_mtime p) (fn_atime p) (fn_uid p) (fn_gid p) (fn_aclpermflag p) (fn_acldefflag p)
    (fn_type p) (fn_mode p) (fn_eattr p) (fn_winattr p) (fn_parents p).
Definition set_aclpermflag (b : bool) (p : fsnode) : fsnode :=
  mk_fsnode (fn_ctime p) (fn_mtime p) (fn_atime p) (fn_uid p) (fn_gid p) b (fn_acldefflag p)
    (fn_type p) (fn_mode p) (fn_eattr p) (fn_winattr p) (fn_parents p).
Definition set_acldefflag (b : bool) (p : fsnode) : fsnode :=
  mk_fsnode (fn_ctime p) (fn_mtime p) (fn_atime p) (fn_uid p) (fn_gid p) (fn_aclpermflag p) b
    (fn_type p) (fn_mode p) (fn_eattr p) (fn_winattr p) (fn_parents p).

(** The flag of a kind of list. *)
Definition acl_flag (acltype : Z) (p : fsnode) : bool :=
  if acltype =? POSIX_ACL_ACCESS then fn_aclpermflag p
  else if acltype =? POSIX_ACL_DEFAULT then fn_acldefflag p else false.
Definition set_acl_flag (acltype : Z) (b : bool) (p : fsnode) : fsnode :=
  if acltype =? POSIX_ACL_ACCESS then set_aclpermflag b p
  else if acltype =? POSIX_ACL_DEFAULT then set_acldefflag b p else p.

Definition put_node (inode : Z) (p : fsnode) (s : fs) : fs := mk_fs (<[inode := p]> (fs_nodes s)) (fs_acls s).
Definition put_acls (acls : gmap (Z * Z) acl_node) (s : fs) : fs := mk_fs (fs_nodes s) acls.

Definition fs_check_inode (inode : Z) (s : fs) : bool := bool_decide (is_Some (fs_nodes s !! inode)).

Definition fs_set_aclflag (inode acltype : Z) (s : fs) : fs :=
  match fs_nodes s !! inode with Some p => put_node inode (set_acl_flag acltype true p) s | None => s end.
Definition fs_del_aclflag (inode acltype : Z) (s : fs) : fs :=
  match fs_nodes s !! inode with Some p => put_node inode (set_acl_flag acltype false p) s | None => s end.

Definition fs_get_mode (inode : Z) (s : fs) : Z :=
  match fs_nodes s !! inode with Some p => fn_mode p | None => 0 end.

(** ** Ancestors *)

(** The loop [while (p)] that climbs from a directory to the root: a directory with
    more than one parent fails an assertion. *)
Fixpoint climb (fuel : nat) (nodes : gmap Z fsnode) (f : Z) (p : option Z) : option bool :=
  match fuel with
  | O => None
  | S fuel =>
      match p with
      | None => Some false
      | Some p =>
          if f =? p then Some true
          else
            node ← nodes !! p;
            match fn_parents node with
            | [] => Some false
            | [q] => climb fuel nodes f q
            | _ => None
            end
      end
  end.

(** The loop over the edges to [p]. *)
Fixpoint any_parent (nodes : gmap Z fsnode) (f : Z) (parents : list (option Z)) : option bool :=
  match parents with
  | [] => Some false
  | q :: rest =>
      found ← climb (S (S (size nodes))) nodes f q;
      if (found : bool) then Some true else any_parent nodes f rest
  end.

Definition fsnodes_isancestor (nodes : gmap Z fsnode) (f p : Z) : option bool :=
  fnode ← nodes !! f;
  node ← nodes !! p;
  if (fn_type node =? TYPE_TRASH) || (fn_type node =? TYPE_SUSTAINED) || negb (fn_type fnode =? TYPE_DIRECTORY)
  then Some false
  else any_parent nodes f (fn_parents node).

(** The outer option is a failed assertion, the inner one the answer: the inode as the
    whole tree knows it. *)
Definition fsnodes_node_find_ext (nodes : gmap Z fsnode) (rootinode sesflags inode : Z) (skipancestor : bool)
    : option (option Z) :=
  if negb (Z.land sesflags SESFLAG_METARESTORE =? 0) || (rootinode =? MFS_ROOT_ID) then
    Some (match nodes !! inode with Some _ => Some inode | None => None end)
  else if rootinode =? 0 then
    Some (match nodes !! inode with
          | Some p => if (fn_type p =? TYPE_TRASH) || (fn_type p =? TYPE_SUSTAINED) then Some inode else None
          | None => None
          end)
  else
    match nodes !! rootinode with
    | None => Some None
    | Some rn =>
        if negb (fn_type rn =? TYPE_DIRECTORY) then Some None
        else if inode =? MFS_ROOT_ID then Some (Some rootinode)
        else
          match nodes !! inode with
          | None => Some None
          | Some _ =>
              if skipancestor then Some (Some inode)
              else
                anc ← fsnodes_isancestor nodes rootinode inode;
                Some (if (anc : bool) then Some inode else None)
          end
    end.

(** ** Facts *)

Lemma lookup_put_node inode p s i :
  fs_nodes (put_node inode p s) !! i = if decide (i = inode) then Some p else fs_nodes s !! i.
Proof. simpl. case_decide; subst; [by rewrite lookup_insert_eq|by rewrite lookup_insert_ne]. Qed.

(** [q] is the parent of [p]. *)
Definition parent_of (nodes : gmap Z fsnode) (p q : Z) : Prop :=
  ∃ node, nodes !! p = Some node ∧ Some q ∈ fn_parents node.

(** [f] is reached from [p] by going up at least once. *)
Definition ancestor (nodes : gmap Z fsnode) (p f : Z) : Prop := tc (parent_of nodes) p f.

(** The shape of the tree: a parent exists and is a directory, a directory has one
    parent at most, and no directory is below itself. *)
Record tree_ok (nodes : gmap Z fsnode) : Prop := {
  tree_dir p q : parent_of nodes p q → ∃ node, nodes !! q = Some node ∧ fn_type node = TYPE_DIRECTORY;
  tree_one p node : nodes !! p = Some node → fn_type node = TYPE_DIRECTORY → (length (fn_parents node) ≤ 1)%nat;
  tree_acyclic p : ¬ ancestor nodes p p }.

Lemma tc_inv_l {A} (R : relation A) x y : tc R x y → R x y ∨ ∃ z, R x z ∧ tc R z y.
Proof. intros [|]; eauto. Qed.

Section climbing.
Variable nodes : gmap Z fsnode.
Hypothesis Htree : tree_ok nodes.
Variable f : Z.

(** A node with one parent. *)
Lemma ancestor_one p node q :
  nodes !! p = Some node → fn_parents node = [q] → ∀ x, ancestor nodes p x ↔ ∃ q', q = Some q' ∧ (x = q' ∨ ancestor nodes q' x).
Proof.
  intros Hp Hq x. assert (∀ y, parent_of nodes p y ↔ q = Some y) as Hpar.
  { intros y. split.
    - intros (n & Hn & Hin). assert (n = node) as -> by congruence. rewrite Hq in Hin.
      by apply list_elem_of_singleton in Hin.
    - intros ->. exists node. split; [done|]. rewrite Hq. by left. }
  split.
  - intros [Ha|(z & Ha & Hz)]%tc_inv_l; apply Hpar in Ha; eauto.
  - intros (q' & Hq' & [->|Ha]); [by apply tc_once, Hpar|]. eapply tc_l; [by apply Hpar|done].
Qed.

(** The directories passed on the way up are all different. *)
Lemma climb_ok fuel p node (seen : gset Z) :
  nodes !! p = Some node → fn_type node = TYPE_DIRECTORY →
  (∀ x, x ∈ seen → ancestor nodes x p) → seen ⊆ dom nodes → (S (size nodes) < size seen + fuel)%nat →
  ∃ b : bool, climb fuel nodes f (Some p) = Some b ∧ (b = true ↔ f = p ∨ ancestor nodes p f).
Proof.
  revert p node seen. induction fuel as [|fuel IH]; intros p node seen Hp Htype Hseen Hdom Hsize.
  { exfalso. pose proof (subseteq_size _ _ Hdom) as Hle. rewrite size_dom in Hle. lia. }
  cbn [climb]. destruct (Z.eqb_spec f p) as [->|Hne].
  { exists true. split; [done|]. naive_solver. }
  rewrite Hp. cbn [mbind option_bind]. pose proof (tree_one _ Htree p node Hp Htype) as Hone.
  assert (p ∉ seen) as Hnew by (intros Hin%Hseen; by apply (tree_acyclic _ Htree) in Hin).
  assert ({[p]} ∪ seen ⊆ dom nodes) as Hdom'.
  { apply union_subseteq. split; [|done]. apply singleton_subseteq_l, elem_of_dom. eauto. }
  pose proof (subseteq_size _ _ Hdom') as Hle. rewrite size_dom, size_union, size_singleton in Hle by set_solver.
  destruct (fn_parents node) as [|q rest] eqn:Hpars.
  { exists false. split; [done|]. split; [done|]. intros [?|Ha]; [done|].
    apply tc_inv_l in Ha as [Ha|(z & Ha & _)]; destruct Ha as (n & Hn & Hin);
      assert (n = node) as -> by congruence; rewrite Hpars in Hin; by apply elem_of_nil in Hin. }
  destruct rest; [|simpl in Hone; lia]. setoid_rewrite (ancestor_one p node q Hp Hpars f). destruct q as [q|].
  - destruct (tree_dir _ Htree p q) as (nq & Hnq & Hqt); [exists node; split; [done|]; rewrite Hpars; by left|].
    destruct (IH q nq ({[p]} ∪ seen) Hnq Hqt) as (b & Hb & Hiff); [|done| |].
    + assert (parent_of nodes p q) as Hpq by (exists node; split; [done|]; rewrite Hpars; by left).
      intros x [->%elem_of_singleton|Hx%Hseen]%elem_of_union; [by apply tc_once|]. by eapply tc_r.
    + rewrite size_union, size_singleton by set_solver. lia.
    + exists b. split; [done|]. rewrite Hiff. naive_solver.
  - exists false. split; [destruct fuel; [lia|done]|]. naive_solver.
Qed.

Lemma any_parent_ok parents :
  (∀ q, Some q ∈ parents → ∃ node, nodes !! q = Some node ∧ fn_type node = TYPE_DIRECTORY) →
  ∃ b : bool, any_parent nodes f parents = Some b ∧
    (b = true ↔ ∃ q, Some q ∈ parents ∧ (f = q ∨ ancestor nodes q f)).
Proof.
  induction parents as [|q parents IH]; intros Hdirs; cbn [any_parent].
  { exists false. split; [done|]. split; [done|]. by intros (q & Hin%elem_of_nil & _). }
  destruct IH as (b' & Hb' & Hiff'); [intros q' Hq'; apply Hdirs; by right|].
  assert (∃ b : bool, climb (S (S (size nodes))) nodes f q = Some b ∧
    (b = true ↔ ∃ q', q = Some q' ∧ (f = q' ∨ ancestor nodes q' f))) as (b & -> & Hiff).
  { destruct q as [q|]; [|exists false; naive_solver]. destruct (Hdirs q) as (n & Hn & Ht); [by left|].
    destruct (climb_ok (S (S (size nodes))) q n ∅ Hn Ht) as (b & Hb & Hiff); [set_solver|set_solver| |].
    { rewrite size_empty. lia. }
    exists b. split; [done|]. rewrite Hiff. naive_solver. }
  cbn [mbind option_bind]. setoid_rewrite elem_of_cons. destruct b.
  - exists true. split; [done|]. naive_solver.
  - exists b'. split; [done|]. rewrite Hiff'. split; [naive_solver|]. intros (q' & [Heq|Hin] & Hq'); [|by exists q'].
    assert (false = true) by (apply Hiff; eauto). done.
Qed.

End climbing.

(** [fsnodes_isancestor] ends and decides the relation. *)
Lemma isancestor_ok nodes f p fnode node :
  tree_ok nodes → nodes !! f = Some fnode → nodes !! p = Some node →
  fn_type node ≠ TYPE_TRASH → fn_type node ≠ TYPE_SUSTAINED → fn_type fnode = TYPE_DIRECTORY →
  ∃ b : bool, fsnodes_isancestor nodes f p = Some b ∧ (b = true ↔ ancestor nodes p f).
Proof.
  intros Htree Hf Hp Ht Hs Hd. unfold fsnodes_isancestor. rewrite Hf, Hp. cbn [mbind option_bind].
  rewrite Hd, Z.eqb_refl. destruct (Z.eqb_spec (fn_type node) TYPE_TRASH); [done|].
  destruct (Z.eqb_spec (fn_type node) TYPE_SUSTAINED); [done|]. cbn [orb negb].
  assert (∀ q, Some q ∈ fn_parents node ↔ parent_of nodes p q) as Hpar.
  { intros q. split; [by exists node|]. intros (n' & Hn' & Hin). congruence. }
  destruct (any_parent_ok nodes Htree f (fn_parents node)) as (b & Hb & Hiff).
  { intros q Hq. apply (tree_dir _ Htree p). by apply Hpar. }
  exists b. split; [done|]. rewrite Hiff. split.
  - intros (q & Hq%Hpar & [->|Ha]); [by apply tc_once|by eapply tc_l].
  - intros [Ha|(q & Hq & Ha)]%tc_inv_l; [exists f|exists q]; rewrite Hpar; auto.
Qed.
