(* ===== verification/PosixAcl.v ===== *)
(** * Access control lists (posixacl.c)

    The list of a node of one kind ([POSIX_ACL_ACCESS] or [POSIX_ACL_DEFAULT]) has the
    rights of the owner, of the group and of the others, a mask, and a table of named
    users followed by named groups.  The hash table of the lists ([hash_begin.h],
    [LinHash.v]) is a finite map here.  Reading past a table, or through the null
    pointer a search returned, is a fault: the functions return [None]. *)

From S2P Require Import Prelude MfsComm DataPack FsNodes.

(** [x &= 0xFFF8; x |= v & 7]. *)
Definition set_low3 (x v : Z) : Z := Z.lor (Z.land x 0xFFF8) (Z.land v 7).

(** [modetoaccmode[perm & 7]]. *)
Definition modetoaccmode (perm : Z) : Z := MODE_TO_ACCMODE !!! Z.to_nat (Z.land perm 7).

Definition acls_count (n : acl_node) : nat := Z.to_nat (acl_namedusers n + acl_namedgroups n).

(** The entries [from .. from+n-1] of a table. *)
Fixpoint read_entries (tab : list acl_entry) (from n : nat) : option (list acl_entry) :=
  match n with
  | O => Some []
  | S n => e ← tab !! from; rest ← read_entries tab (S from) n; Some (e :: rest)
  end.

Definition posix_acl_find (inode acltype : Z) (acls : gmap (Z * Z) acl_node) : option acl_node := acls !! (inode, acltype).

Definition posix_acl_create (inode acltype : Z) (acls : gmap (Z * Z) acl_node) : gmap (Z * Z) acl_node :=
  <[(inode, acltype) := mk_acl_node 0 0 0 0 0 0 []]> acls.

Definition posix_acl_getmode (inode : Z) (acls : gmap (Z * Z) acl_node) : option Z :=
  acn ← posix_acl_find inode POSIX_ACL_ACCESS acls;
  Some (Z.lor (Z.lor (Z.shiftl (Z.land (acl_userperm acn) 7) 6) (Z.shiftl (Z.land (acl_mask acn) 7) 3))
          (Z.land (acl_otherperm acn) 7)).

Definition posix_acl_setmode (inode mode : Z) (acls : gmap (Z * Z) acl_node) : gmap (Z * Z) acl_node :=
  match posix_acl_find inode POSIX_ACL_ACCESS acls with
  | None => acls
  | Some acn =>
      <[(inode, POSIX_ACL_ACCESS) :=
          mk_acl_node (set_low3 (acl_userperm acn) (Z.shiftr mode 6)) (acl_groupperm acn)
            (set_low3 (acl_otherperm acn) mode) (set_low3 (acl_mask acn) (Z.shiftr mode 3))
            (acl_namedusers acn) (acl_namedgroups acn) (acl_acltab acn)]> acls
  end.

(** The loop over the named users: the rights of the first entry of [auid]. *)
Fixpoint find_named_user (auid : Z) (tab : list acl_entry) (i n : nat) : option (option Z) :=
  match n with
  | O => Some None
  | S n =>
      e ← tab !! i;
      if auid =? ae_id e then Some (Some (ae_perm e)) else find_named_user auid tab (S i) n
  end.

(** The loop over the groups of the caller: one group of the list, of rights [perm]. *)
Definition or_group (agid : list Z) (id perm : Z) (acc : Z * bool) : Z * bool :=
  fold_left (λ acc g, if g =? id then (Z.lor (fst acc) (modetoaccmode perm), true) else acc) agid acc.

(** The loop over the named groups. *)
Fixpoint or_named_groups (agid : list Z) (mask : Z) (tab : list acl_entry) (i n : nat) (acc : Z * bool)
    : option (Z * bool) :=
  match n with
  | O => Some acc
  | S n =>
      e ← tab !! i;
      or_named_groups agid mask tab (S i) n (or_group agid (ae_id e) (Z.land (ae_perm e) mask) acc)
  end.

Definition posix_acl_accmode (inode auid : Z) (agid : list Z) (fuid fgid : Z) (acls : gmap (Z * Z) acl_node) : option Z :=
  if auid =? 0 then Some (modetoaccmode 7)
  else
    match posix_acl_find inode POSIX_ACL_ACCESS acls with
    | None => Some (modetoaccmode 0)
    | Some acn =>
        if auid =? fuid then Some (modetoaccmode (acl_userperm acn))
        else
          named ← find_named_user auid (acl_acltab acn) 0 (Z.to_nat (acl_namedusers acn));
          match named with
          | Some perm => Some (modetoaccmode (Z.land perm (acl_mask acn)))
          | None =>
              let acc := or_group agid fgid (Z.land (acl_groupperm acn) (acl_mask acn)) (0, false) in
              '(modemask, f) ← or_named_groups agid (acl_mask acn) (acl_acltab acn)
                                 (Z.to_nat (acl_namedusers acn)) (Z.to_nat (acl_namedgroups acn)) acc;
              Some (if (f : bool) then modemask else modetoaccmode (acl_otherperm acn))
          end
    end.

(** The list with its rights given and the table of [src]. *)
Definition copy_table (src : acl_node) (userperm groupperm otherperm mask : Z) : option acl_node :=
  tab ← read_entries (acl_acltab src) 0 (acls_count src);
  Some (mk_acl_node userperm groupperm otherperm mask (acl_namedusers src) (acl_namedgroups src) tab).

(** The first result is the pair of bits [ret], the second [*mode]. *)
Definition posix_acl_copydefaults (parent inode : Z) (directory : bool) (mode : Z) (acls : gmap (Z * Z) acl_node)
    : option (Z * Z * gmap (Z * Z) acl_node) :=
  match posix_acl_find parent POSIX_ACL_DEFAULT acls with
  | None => Some (0, mode, acls)
  | Some pacn =>
      '(ret, mode, acls) ←
        (if (acls_count pacn =? 0)%nat && (acl_userperm pacn <=? 7) && (acl_groupperm pacn <=? 7)
            && (acl_otherperm pacn <=? 7) && (acl_mask pacn =? 0xFFFF) then
           Some (0, Z.land mode (Z.lor (Z.lor (Z.lor 0xFE00 (Z.shiftl (acl_userperm pacn) 6))
                                          (Z.shiftl (acl_groupperm pacn) 3)) (acl_otherperm pacn)), acls)
         else
           let '(ret, acn) := match posix_acl_find inode POSIX_ACL_ACCESS acls with
                              | Some acn => (0, acn)
                              | None => (1, mk_acl_node 0 0 0 0 0 0 [])
                              end in
           let userperm := Z.land (set_low3 (acl_userperm acn) (Z.shiftr mode 6)) (acl_userperm pacn) in
           let groupperm := acl_groupperm pacn in
           let otherperm := Z.land (set_low3 (acl_otherperm acn) mode) (acl_otherperm pacn) in
           let mask := Z.land (set_low3 (acl_mask acn) (Z.shiftr mode 3)) (acl_mask pacn) in
           acn ← copy_table pacn userperm groupperm otherperm mask;
           Some (ret,
                 Z.lor (Z.lor (Z.lor (Z.land mode 0xFE00) (Z.shiftl (Z.land userperm 7) 6))
                          (Z.shiftl (Z.land groupperm 7) 3)) (Z.land otherperm 7),
                 <[(inode, POSIX_ACL_ACCESS) := acn]> acls));
      if directory then
        let ret' := match posix_acl_find inode POSIX_ACL_DEFAULT acls with Some _ => 0 | None => 2 end in
        acn ← copy_table pacn (acl_userperm pacn) (acl_groupperm pacn) (acl_otherperm pacn) (acl_mask pacn);
        Some (Z.lor ret ret', mode, <[(inode, POSIX_ACL_DEFAULT) := acn]> acls)
      else Some (ret, mode, acls)
  end.

Definition posix_acl_remove (inode acltype : Z) (acls : gmap (Z * Z) acl_node) : gmap (Z * Z) acl_node := delete (inode, acltype) acls.

(** The rights given by a request or an image. *)
Record acl_rights := mk_acl_rights {
  ar_userperm : Z; ar_groupperm : Z; ar_otherperm : Z; ar_mask : Z; ar_namedusers : Z; ar_namedgroups : Z }.

Definition node_rights (n : acl_node) : acl_rights :=
  mk_acl_rights (acl_userperm n) (acl_groupperm n) (acl_otherperm n) (acl_mask n) (acl_namedusers n) (acl_namedgroups n).
Definition rights_count (r : acl_rights) : nat := Z.to_nat (ar_namedusers r + ar_namedgroups r).
Definition make_node (r : acl_rights) (tab : list acl_entry) : acl_node :=
  mk_acl_node (ar_userperm r) (ar_groupperm r) (ar_otherperm r) (ar_mask r) (ar_namedusers r) (ar_namedgroups r) tab.

Section blobs.
Variable bld : build.

(** [n] entries of the blob. *)
Fixpoint get_entries (n : nat) (p : list Z) : option (list acl_entry * list Z) :=
  match n with
  | O => Some ([], p)
  | S n =>
      '(id, p) ← get32bit bld p; '(perm, p) ← get16bit bld p;
      '(rest, p) ← get_entries n p;
      Some (mk_acl_entry id perm :: rest, p)
  end.

Definition put_entry (e : acl_entry) : list Z := put32bit bld (ae_id e) ++ put16bit bld (ae_perm e).

Definition posix_acl_set (inode acltype : Z) (r : acl_rights) (aclblob : list Z) (s : fs) : option fs :=
  if (acltype =? POSIX_ACL_ACCESS) && (Z.lor (ar_namedusers r) (ar_namedgroups r) =? 0) && (ar_userperm r <=? 7)
     && (ar_groupperm r <=? 7) && (ar_otherperm r <=? 7) && (ar_mask r =? 0xFFFF)
  then Some (fs_del_aclflag inode acltype (put_acls (posix_acl_remove inode acltype (fs_acls s)) s))
  else
    let s := match posix_acl_find inode acltype (fs_acls s) with
             | Some _ => s
             | None => fs_set_aclflag inode acltype (put_acls (posix_acl_create inode acltype (fs_acls s)) s)
             end in
    '(tab, _) ← get_entries (rights_count r) aclblob;
    Some (put_acls (<[(inode, acltype) := make_node r tab]> (fs_acls s)) s).

(** The size of the blob and the node, which the caller keeps for [posix_acl_get_data]. *)
Definition posix_acl_get_blobsize (inode acltype : Z) (acls : gmap (Z * Z) acl_node) : Z * option acl_node :=
  match posix_acl_find inode acltype acls with
  | None => (-1, None)
  | Some acn => ((acl_namedusers acn + acl_namedgroups acn) * 6, Some acn)
  end.

Definition posix_acl_get_data (acn : acl_node) : option (acl_rights * list Z) :=
  tab ← read_entries (acl_acltab acn) 0 (acls_count acn);
  Some (node_rights acn, concat (put_entry <$> tab)).

(** The six fields, as the image and the listing have them. *)
Definition put_rights (r : acl_rights) : list Z :=
  put16bit bld (ar_userperm r) ++ put16bit bld (ar_groupperm r) ++ put16bit bld (ar_otherperm r) ++
  put16bit bld (ar_mask r) ++ put16bit bld (ar_namedusers r) ++ put16bit bld (ar_namedgroups r).

(** The length, and the bytes written when there is a buffer. *)
Definition posix_acl_getall (inode acltype : Z) (dbuff : bool) (acls : gmap (Z * Z) acl_node) : option (Z * list Z) :=
  match posix_acl_find inode acltype acls with
  | None => Some (0, [])
  | Some acn =>
      bytes ← (if dbuff then
                 tab ← read_entries (acl_acltab acn) 0 (acls_count acn);
                 Some (put_rights (node_rights acn) ++ concat (put_entry <$> tab))
               else Some []);
      Some ((acl_namedusers acn + acl_namedgroups acn) * 6 + 12, bytes)
  end.

(** The inner loop of the comparison: the entries that are equal to [e]. *)
Fixpoint count_equal (e : acl_entry) (tab : list acl_entry) (j n : nat) (checkcnt : Z) : option Z :=
  match n with
  | O => Some checkcnt
  | S n =>
      e' ← tab !! j;
      count_equal e tab (S j) n (if (ae_id e' =? ae_id e) && (ae_perm e' =? ae_perm e) then u16 (checkcnt + 1) else checkcnt)
  end.

(** The outer loop, over [todo] entries of the blob. *)
Fixpoint check_entries (todo : nat) (p : list Z) (tab : list acl_entry) (j n : nat) (checkcnt : Z)
    : option (Z * list Z) :=
  match todo with
  | O => Some (checkcnt, p)
  | S todo =>
      '(id, p) ← get32bit bld p; '(perm, p) ← get16bit bld p;
      checkcnt ← count_equal (mk_acl_entry id perm) tab j n checkcnt;
      check_entries todo p tab j n checkcnt
  end.

Definition posix_acl_check (inode acltype : Z) (r : acl_rights) (aclblob : list Z) (acls : gmap (Z * Z) acl_node) : option Z :=
  match posix_acl_find inode acltype acls with
  | None => Some 0
  | Some acn =>
      if negb (ar_userperm r =? acl_userperm acn) || negb (ar_groupperm r =? acl_groupperm acn)
         || negb (ar_otherperm r =? acl_otherperm acn) || negb (ar_mask r =? acl_mask acn)
         || negb (ar_namedusers r =? acl_namedusers acn) || negb (ar_namedgroups r =? acl_namedgroups acn)
      then Some 0
      else
        let users := Z.to_nat (ar_namedusers r) in
        let groups := Z.to_nat (ar_namedgroups r) in
        '(checkcnt, p) ← check_entries users aclblob (acl_acltab acn) 0 users 0;
        '(checkcnt, _) ← check_entries groups p (acl_acltab acn) users groups checkcnt;
        Some (if checkcnt =? ar_namedusers r + ar_namedgroups r then 1 else 0)
  end.

End blobs.

(** A list is not copied onto itself: its table would be read after it is freed. *)
Definition posix_acl_copy (srcinode dstinode acltype : Z) (acls : gmap (Z * Z) acl_node) : option (Z * gmap (Z * Z) acl_node) :=
  sacn ← posix_acl_find srcinode acltype acls;
  if (srcinode =? dstinode) && negb (acls_count sacn =? 0)%nat then None
  else
    tab ← read_entries (acl_acltab sacn) 0 (acls_count sacn);
    Some (1, <[(dstinode, acltype) := make_node (node_rights sacn) tab]> acls).

Definition posix_acl_cleanup (acls : gmap (Z * Z) acl_node) : gmap (Z * Z) acl_node := ∅.
