(* ===== verification/FsAccess.v ===== *)
(** * Access rights, attributes and access control lists of nodes (filesystem.c)

    The test of the rights of a user on a node, the two requests that change them
    ([fs_setattr], [fs_setfacl]), what they write to the changelog, and the functions
    that replay these entries ([fs_mr_attr], [fs_mr_setacl]).

    The node found by [fsnodes_node_find_ext] is addressed by its inode.  The requests
    also fill the attribute record of the answer and call [fsnodes_checkarchmode],
    which looks at the time stamps and changes the archive state of the chunks; neither
    touches what is modelled here.  The octal constants of the source are written in
    hexadecimal. *)

From S2P Require Import Prelude MfsComm DataPack FsNodes PosixAcl.

(** The entries of the changelog. *)
Inductive fs_entry :=
| ATTR (ts inode mode uid gid atime mtime winattr aclmode : Z)
| SETACL (ts inode mode : Z) (chg : bool) (acltype : Z) (r : acl_rights) (aclblob : list Z).

(** ** Rights *)

Definition flag (x bit : Z) : bool := negb (Z.land x bit =? 0).

Definition fsnodes_accessmode (acls : gmap (Z * Z) acl_node) (inode : Z) (node : fsnode) (uid : Z) (gid : list Z) (sesflags : Z)
    : option Z :=
  if uid =? 0 then Some (modetoaccmode 7)
  else
    let modemask := if (fn_type node =? TYPE_FILE) && flag (fn_winattr node) WINATTR_READ_ONLY then 0x33 else 0xFF in
    if fn_aclpermflag node then
      accmode ← posix_acl_accmode inode uid gid (fn_uid node) (fn_gid node) acls;
      Some (Z.land modemask accmode)
    else if (uid =? fn_uid node) || flag (fn_eattr node) EATTR_NOOWNER then
      Some (Z.land modemask (modetoaccmode (Z.shiftr (fn_mode node) 6)))
    else if flag sesflags SESFLAG_IGNOREGID then
      Some (Z.land modemask (modetoaccmode (Z.lor (Z.shiftr (fn_mode node) 3) (fn_mode node))))
    else if existsb (λ g, g =? fn_gid node) (reverse gid) then
      Some (Z.land modemask (modetoaccmode (Z.shiftr (fn_mode node) 3)))
    else Some (Z.land modemask (modetoaccmode (Z.land (fn_mode node) 7))).

Definition fsnodes_access_ext (acls : gmap (Z * Z) acl_node) (inode : Z) (node : fsnode) (uid : Z) (gid : list Z)
    (modemask sesflags : Z) : option bool :=
  accmode ← fsnodes_accessmode acls inode node uid gid sesflags;
  Some (flag accmode (Z.shiftl 1 (Z.land modemask 7))).

Definition fsnodes_sticky_access (parent node : fsnode) (uid : Z) : bool :=
  if (uid =? 0) || (Z.land (fn_mode parent) 0x200 =? 0) then true
  else (uid =? fn_uid parent) || flag (fn_eattr parent) EATTR_NOOWNER || (uid =? fn_uid node)
       || flag (fn_eattr node) EATTR_NOOWNER.

(** ** Access control lists *)

(** The result of a request: status, state, entry logged. *)
Definition outcome : Type := Z * fs * option fs_entry.

(** All the rights [0xFFFF] and no name: the request removes the list. *)
Definition is_remove (r : acl_rights) : bool :=
  (Z.land (Z.land (Z.land (ar_userperm r) (ar_groupperm r)) (ar_otherperm r)) (ar_mask r) =? 0xFFFF)
  && (Z.lor (ar_namedusers r) (ar_namedgroups r) =? 0).

(** The rights given as [0xFFFF] are those of the mode. *)
Definition fill_rights (mode : Z) (r : acl_rights) : acl_rights :=
  mk_acl_rights
    (if ar_userperm r =? 0xFFFF then Z.land (Z.shiftr mode 6) 7 else ar_userperm r)
    (if ar_groupperm r =? 0xFFFF then Z.land (Z.shiftr mode 3) 7 else ar_groupperm r)
    (if ar_otherperm r =? 0xFFFF then Z.land mode 7 else ar_otherperm r)
    (ar_mask r) (ar_namedusers r) (ar_namedgroups r).

(** [p->mode] after a list of kind [ACCESS] has been set. *)
Definition acl_mode (mode : Z) (r : acl_rights) : Z :=
  Z.lor (Z.land mode 0xE00)
    (Z.lor (Z.lor (Z.shiftl (Z.land (ar_userperm r) 7) 6) (Z.shiftl (Z.land (ar_groupperm r) 7) 3))
       (Z.land (ar_otherperm r) 7)).

(** The list is removed, and the flag of the node cleared. *)
Definition remove_acl (inode acltype : Z) (s : fs) : fs :=
  let s := put_acls (posix_acl_remove inode acltype (fs_acls s)) s in
  fs_del_aclflag inode acltype s.

(** A change of the node in the state. *)
Definition update_node (inode : Z) (f : fsnode → fsnode) (s : fs) : fs :=
  match fs_nodes s !! inode with Some p => put_node inode (f p) s | None => s end.

Section requests.
Variable bld : build.

Definition fs_setfacl (ts rootinode sesflags inode uid acltype : Z) (r : acl_rights) (aclblob : list Z) (s : fs)
    : option outcome :=
  if flag sesflags SESFLAG_READONLY then Some (MFS_ERROR_EROFS, s, None)
  else
    found ← fsnodes_node_find_ext (fs_nodes s) rootinode sesflags inode false;
    match found with
    | None => Some (MFS_ERROR_ENOENT, s, None)
    | Some inode =>
        p ← fs_nodes s !! inode;
        if negb (flag (fn_eattr p) EATTR_NOOWNER) && negb (uid =? 0) && negb (uid =? fn_uid p)
        then Some (MFS_ERROR_EPERM, s, None)
        else if flag (fn_eattr p) EATTR_IMMUTABLE then Some (MFS_ERROR_EPERM, s, None)
        else if negb (acltype =? POSIX_ACL_ACCESS) && negb (acltype =? POSIX_ACL_DEFAULT)
        then Some (MFS_ERROR_EINVAL, s, None)
        else if is_remove r then
          Some (MFS_STATUS_OK, remove_acl inode acltype s, Some (SETACL ts inode (fn_mode p) false acltype r aclblob))
        else if (acltype =? POSIX_ACL_DEFAULT) && negb (fn_type p =? TYPE_DIRECTORY)
        then Some (MFS_ERROR_EACCES, s, None)
        else
          let r := fill_rights (fn_mode p) r in
          s ← posix_acl_set bld inode acltype r aclblob s;
          let mode := if acltype =? POSIX_ACL_ACCESS then u12 (acl_mode (fn_mode p) r) else fn_mode p in
          let chg := negb (mode =? fn_mode p) in
          let s := update_node inode (λ p, let p := set_mode mode p in if chg then set_ctime ts p else p) s in
          Some (MFS_STATUS_OK, s, Some (SETACL ts inode mode chg acltype r aclblob))
    end.

Definition fs_mr_setacl (ts inode mode : Z) (changectime : bool) (acltype : Z) (r : acl_rights) (aclblob : list Z)
    (s : fs) : option (Z * fs) :=
  match fs_nodes s !! inode with
  | None => Some (MFS_ERROR_ENOENT, s)
  | Some p =>
      if negb (acltype =? POSIX_ACL_ACCESS) && negb (acltype =? POSIX_ACL_DEFAULT) then Some (MFS_ERROR_EINVAL, s)
      else if is_remove r then Some (MFS_STATUS_OK, remove_acl inode acltype s)
      else
        s ← posix_acl_set bld inode acltype r aclblob s;
        Some (MFS_STATUS_OK,
              update_node inode (λ p, let p := set_mode mode p in if changectime then set_ctime ts p else p) s)
  end.

(** Status, size of the blob and the node kept for [fs_getfacl_data]. *)
Definition fs_getfacl_size (rootinode sesflags inode acltype : Z) (s : fs) : option (Z * Z * option acl_node) :=
  found ← fsnodes_node_find_ext (fs_nodes s) rootinode sesflags inode false;
  match found with
  | None => Some (MFS_ERROR_ENOENT, 0, None)
  | Some inode =>
      p ← fs_nodes s !! inode;
      if ((acltype =? POSIX_ACL_ACCESS) && negb (fn_aclpermflag p))
         || ((acltype =? POSIX_ACL_DEFAULT) && negb (fn_acldefflag p))
      then Some (MFS_ERROR_ENOATTR, 0, None)
      else
        let '(bsize, custom) := posix_acl_get_blobsize inode acltype (fs_acls s) in
        if bsize <? 0 then Some (MFS_ERROR_ENOATTR, 0, custom) else Some (MFS_STATUS_OK, bsize, custom)
  end.

Definition fs_getfacl_data (custom : acl_node) : option (acl_rights * list Z) := posix_acl_get_data bld custom.

End requests.

(** ** Attributes *)

(** The [switch] on the way of clearing the set-id bits: the mask for [p->mode] and
    [attrmode]. *)
Definition sugid_mask (sugidclearmode uid setmask attrgid : Z) (p : fsnode) : Z :=
  if sugidclearmode =? SUGID_CLEAR_MODE_ALWAYS then 0x3FF
  else if sugidclearmode =? SUGID_CLEAR_MODE_OSX then if negb (uid =? 0) then 0x3FF else 0xFFFF
  else if sugidclearmode =? SUGID_CLEAR_MODE_BSD then
    if negb (uid =? 0) && flag setmask SET_GID_FLAG && negb (fn_gid p =? attrgid) then 0x3FF else 0xFFFF
  else if sugidclearmode =? SUGID_CLEAR_MODE_EXT then
    if negb (fn_type p =? TYPE_DIRECTORY) then if flag (fn_mode p) 0x8 then 0x3FF else 0x7FF else 0xFFFF
  else if sugidclearmode =? SUGID_CLEAR_MODE_XFS then
    if negb (fn_type p =? TYPE_DIRECTORY) then if flag (fn_mode p) 0x8 then 0x3FF else 0x7FF
    else if negb (uid =? 0) then 0x3FF else 0xFFFF
  else 0xFFFF.

(** The permission tests: the error, if one is returned. *)
Definition setattr_denied (acls : gmap (Z * Z) acl_node) (inode : Z) (p : fsnode) (sesflags uid : Z) (gid : list Z)
    (setmask attrmode attruid attrgid : Z) : option (option Z) :=
  if negb (uid =? 0) && (setmask =? SET_MODE_FLAG) && (attrmode =? Z.land (fn_mode p) 0x3FF)
     && negb (Z.land (fn_mode p) 0xC00 =? 0)
  then Some None
  else if negb (uid =? 0) && flag sesflags SESFLAG_MAPALL && flag setmask (Z.lor SET_UID_FLAG SET_GID_FLAG)
  then Some (Some MFS_ERROR_EPERM)
  else
    denied ←
      (if negb (flag (fn_eattr p) EATTR_NOOWNER) then
         if negb (uid =? 0) && negb (uid =? fn_uid p)
            && flag setmask (Z.lor (Z.lor (Z.lor (Z.lor SET_MODE_FLAG SET_UID_FLAG) SET_GID_FLAG) SET_ATIME_FLAG) SET_MTIME_FLAG)
         then Some (Some MFS_ERROR_EPERM)
         else if negb (uid =? 0) && negb (uid =? fn_uid p) && flag setmask (Z.lor SET_ATIME_NOW_FLAG SET_MTIME_NOW_FLAG)
         then
           ok ← fsnodes_access_ext acls inode p uid gid MODE_MASK_W sesflags;
           Some (if (ok : bool) then None else Some MFS_ERROR_EACCES)
         else Some None
       else Some None);
    match denied with
    | Some e => Some (Some e)
    | None =>
        if negb (uid =? 0) && negb (uid =? attruid) && flag setmask SET_UID_FLAG then Some (Some MFS_ERROR_EPERM)
        else if negb (flag sesflags SESFLAG_IGNOREGID) && negb (uid =? 0) && flag setmask SET_GID_FLAG
                && negb (existsb (λ g, g =? attrgid) gid)
        then Some (Some MFS_ERROR_EPERM)
        else Some None
    end.

(** The bits of the mode after the chown part: [p->mode] and [attrmode]. *)
Definition clear_sugid (sugidclearmode uid setmask attrmode attrgid : Z) (p : fsnode) : Z * Z :=
  let attrmode :=
    if flag setmask (Z.lor SET_UID_FLAG SET_GID_FLAG) && flag setmask SET_MODE_FLAG
    then Z.lor attrmode (Z.land (fn_mode p) 0xC00) else attrmode in
  if negb (Z.land (fn_mode p) 0xC00 =? 0) && flag setmask (Z.lor SET_UID_FLAG SET_GID_FLAG) then
    let m := sugid_mask sugidclearmode uid setmask attrgid p in
    (Z.land (fn_mode p) m, Z.land attrmode m)
  else (fn_mode p, attrmode).

(** [attrmode] without the set-gid bit when the caller is not of the group. *)
Definition clear_sgid (uid attrmode pgid : Z) (gid : list Z) : Z :=
  if negb (uid =? 0) && negb (Z.land attrmode 0x400 =? 0) && negb (existsb (λ g, g =? pgid) gid)
  then Z.land attrmode 0xBFF else attrmode.

Definition fs_setattr (ts rootinode sesflags inode : Z) (opened : bool) (uid : Z) (gid : list Z)
    (setmask attrmode attruid attrgid attratime attrmtime winattr sugidclearmode : Z) (s : fs) : option outcome :=
  if flag sesflags SESFLAG_READONLY then Some (MFS_ERROR_EROFS, s, None)
  else
    found ← fsnodes_node_find_ext (fs_nodes s) rootinode sesflags inode opened;
    match found with
    | None => Some (MFS_ERROR_ENOENT, s, None)
    | Some inode =>
        p ← fs_nodes s !! inode;
        if flag (fn_eattr p) EATTR_IMMUTABLE then Some (MFS_ERROR_EPERM, s, None)
        else
          denied ← setattr_denied (fs_acls s) inode p sesflags uid gid setmask attrmode attruid attrgid;
          match denied with
          | Some e => Some (e, s, None)
          | None =>
              let '(mode, attrmode) := clear_sugid sugidclearmode uid setmask attrmode attrgid p in
              let puid := if flag setmask SET_UID_FLAG then attruid else fn_uid p in
              let pgid := if flag setmask SET_GID_FLAG then attrgid else fn_gid p in
              let attrmode := clear_sgid uid attrmode pgid gid in
              let '(mode, acls) :=
                if flag setmask SET_MODE_FLAG then
                  if fn_aclpermflag p then
                    (Z.lor (Z.land mode 0x38) (Z.land attrmode 0xFC7), posix_acl_setmode inode attrmode (fs_acls s))
                  else (attrmode, fs_acls s)
                else (mode, fs_acls s) in
              let atime := if flag setmask SET_ATIME_FLAG then attratime else fn_atime p in
              let mtime := if flag setmask SET_MTIME_FLAG then attrmtime else fn_mtime p in
              let atime := if flag setmask SET_ATIME_NOW_FLAG then ts else atime in
              let mtime := if flag setmask SET_MTIME_NOW_FLAG then ts else mtime in
              let winattr := if flag setmask SET_WINATTR_FLAG then winattr else fn_winattr p in
              let mode := u12 mode in
              aclmode ← (if fn_aclpermflag p then
                           m ← posix_acl_getmode inode acls; Some (u16 (Z.land m 0xFFF + Z.shiftl 1 12))
                         else Some 0);
              let p := mk_fsnode ts mtime atime puid pgid (fn_aclpermflag p) (fn_acldefflag p) (fn_type p) mode
                         (fn_eattr p) winattr (fn_parents p) in
              Some (MFS_STATUS_OK, put_node inode p (put_acls acls s),
                    Some (ATTR ts inode mode puid pgid atime mtime winattr aclmode))
          end
    end.

Definition fs_mr_attr (ts inode mode uid gid atime mtime winattr aclmode : Z) (s : fs) : Z * fs :=
  match fs_nodes s !! inode with
  | None => (MFS_ERROR_ENOENT, s)
  | Some p =>
      if 0xFFF <? mode then (MFS_ERROR_EINVAL, s)
      else
        let acls :=
          if fn_aclpermflag p then
            let aclmode := if Z.land aclmode (Z.shiftl 1 12) =? 0
                           then Z.lor (Z.land mode 0x1C7) 0x38 else aclmode in
            posix_acl_setmode inode aclmode (fs_acls s)
          else fs_acls s in
        let p := mk_fsnode ts mtime atime uid gid (fn_aclpermflag p) (fn_acldefflag p) (fn_type p) (u12 mode)
                   (fn_eattr p) winattr (fn_parents p) in
        (MFS_STATUS_OK, put_node inode p (put_acls acls s))
  end.
