(* ===== verification/AclFacts.v ===== *)
(** * Facts about access control lists

    The well-formedness of a list and of the file system state that holds it, and what
    the loops of [posixacl.c] compute on well-formed lists. *)

From S2P Require Import Prelude MfsComm DataPack FsNodes PosixAcl FsAccess.

(** ** Bits *)

Lemma u12_idem x : u12 (u12 x) = u12 x.
Proof. unfold u12. by rewrite Z.mod_mod by lia. Qed.

Lemma u12_range x : 0 ≤ u12 x ≤ 0xFFF.
Proof. unfold u12. pose proof (Z.mod_pos_bound x (2 ^ 12)). lia. Qed.

Lemma testbit_u16 x n : is_u16 x → 16 ≤ n → Z.testbit x n = false.
Proof.
  intros Hx Hn. unfold is_u16 in Hx. rewrite <-(Z.mod_small x (2 ^ 16)) by lia.
  by apply Z.mod_pow2_bits_high.
Qed.

(** Bit by bit. *)
Lemma testbit_ones k n : 0 ≤ k → 0 ≤ n → Z.testbit (Z.ones k) n = (n <? k).
Proof.
  intros Hk Hn. destruct (Z.ltb_spec n k); [apply Z.ones_spec_low|apply Z.ones_spec_high]; lia.
Qed.

Lemma testbit_7 n : 0 ≤ n → Z.testbit 7 n = (n <? 3).
Proof. intros Hn. by apply (testbit_ones 3). Qed.

Lemma testbit_FFF8 n : 0 ≤ n → Z.testbit 0xFFF8 n = (3 <=? n) && (n <? 16).
Proof.
  intros Hn. change 0xFFF8 with (Z.shiftl (Z.ones 13) 3). rewrite Z.shiftl_spec by done.
  destruct (Z.leb_spec 3 n); cbn [andb].
  - rewrite testbit_ones by lia. destruct (Z.ltb_spec (n - 3) 13), (Z.ltb_spec n 16); lia || done.
  - by apply Z.testbit_neg_r; lia.
Qed.

Lemma set_low3_spec x v n : is_u16 x → 0 ≤ n → Z.testbit (set_low3 x v) n = if n <? 3 then Z.testbit v n else Z.testbit x n.
Proof.
  intros Hx Hn. unfold set_low3. rewrite Z.lor_spec, !Z.land_spec, testbit_FFF8, testbit_7 by done.
  destruct (Z.ltb_spec n 3), (Z.leb_spec 3 n); try lia; cbn [andb].
  - by rewrite andb_false_r, andb_true_r.
  - rewrite andb_false_r, orb_false_r. destruct (Z.ltb_spec n 16); [by rewrite andb_true_r|].
    by rewrite testbit_u16.
Qed.

(** Only the three low bits of the new value count. *)
Lemma set_low3_ext x v w : is_u16 x → Z.land v 7 = Z.land w 7 → set_low3 x v = set_low3 x w.
Proof. intros _ H. unfold set_low3. by rewrite H. Qed.

Lemma set_low3_same x v : is_u16 x → Z.land v 7 = Z.land x 7 → set_low3 x v = x.
Proof.
  intros Hx H. rewrite (set_low3_ext x v x Hx H). apply Z.bits_inj'. intros n Hn.
  rewrite set_low3_spec by done. by destruct (n <? 3).
Qed.

Lemma set_low3_low x v : is_u16 x → Z.land (set_low3 x v) 7 = Z.land v 7.
Proof.
  intros Hx. apply Z.bits_inj'. intros n Hn. rewrite !Z.land_spec, set_low3_spec, testbit_7 by done.
  destruct (n <? 3); [done|]. by rewrite !andb_false_r.
Qed.

Lemma is_u16_bits x : 0 ≤ x → (∀ n, 16 ≤ n → Z.testbit x n = false) → is_u16 x.
Proof.
  intros Hx Hb. split; [done|]. destruct (Z.eq_dec x 0) as [->|Hne]; [lia|].
  apply Z.log2_lt_pow2; [lia|]. apply Z.nle_gt. intros Hle.
  specialize (Hb _ Hle). rewrite Z.bit_log2 in Hb by lia. done.
Qed.

Lemma set_low3_u16 x v : is_u16 x → is_u16 (set_low3 x v).
Proof.
  intros Hx. apply is_u16_bits.
  - unfold set_low3. apply Z.lor_nonneg. rewrite !Z.land_nonneg. lia.
  - intros n Hn. rewrite set_low3_spec by (done || lia). destruct (Z.ltb_spec n 3); [lia|]. by apply testbit_u16.
Qed.

(** ** Well-formed lists *)

Definition rights_ok (r : acl_rights) : Prop :=
  is_u16 (ar_userperm r) ∧ is_u16 (ar_groupperm r) ∧ is_u16 (ar_otherperm r) ∧ is_u16 (ar_mask r) ∧
  is_u16 (ar_namedusers r) ∧ is_u16 (ar_namedgroups r).

Definition entry_ok (e : acl_entry) : Prop := is_u32 (ae_id e) ∧ is_u16 (ae_perm e).

(** The counts are those of the table. *)
Record acl_ok (n : acl_node) : Prop := {
  acl_ok_rights : rights_ok (node_rights n);
  acl_ok_count : length (acl_acltab n) = acls_count n;
  acl_ok_entries : Forall entry_ok (acl_acltab n) }.

(** The lists of the state: each is well formed and of a kind the program knows, and a
    node has a list of a kind exactly when its flag says so. *)
Record acl_inv (s : fs) : Prop := {
  acl_inv_ok i t n : fs_acls s !! (i, t) = Some n → acl_ok n ∧ (t = POSIX_ACL_ACCESS ∨ t = POSIX_ACL_DEFAULT);
  acl_inv_flag i t n : fs_acls s !! (i, t) = Some n → ∃ p, fs_nodes s !! i = Some p ∧ acl_flag t p = true;
  acl_inv_list i t p : fs_nodes s !! i = Some p → acl_flag t p = true → is_Some (fs_acls s !! (i, t)) }.

(** ** The loops *)

Lemma read_entries_ok tab from n :
  (from + n ≤ length tab)%nat → read_entries tab from n = Some (take n (drop from tab)).
Proof.
  revert from. induction n as [|n IH]; intros from Hle; cbn [read_entries]; [done|].
  destruct (lookup_lt_is_Some_2 tab from) as [e He]; [lia|]. rewrite He. cbn [mbind option_bind].
  rewrite IH by lia. cbn [mbind option_bind]. by rewrite (drop_S _ _ _ He).
Qed.

Lemma read_all tab n : length tab = n → read_entries tab 0 n = Some tab.
Proof. intros <-. rewrite read_entries_ok by lia. by rewrite drop_0, firstn_all. Qed.

Lemma copy_table_ok src u g o m :
  acl_ok src →
  copy_table src u g o m = Some (mk_acl_node u g o m (acl_namedusers src) (acl_namedgroups src) (acl_acltab src)).
Proof. intros Hok. unfold copy_table. by rewrite read_all by apply Hok. Qed.

Section blob_facts.
Variable bld : build.

Lemma length_put_entry e : length (put_entry bld e) = 6%nat.
Proof. unfold put_entry. by rewrite length_app, put32bit_be, put16bit_be, !length_be_bytes. Qed.

Lemma get_put_entry (b : build) {A} e p (k : Z → Z → list Z → option A) :
  entry_ok e →
  ('(id, p) ← get32bit b (put_entry bld e ++ p); '(perm, p) ← get16bit b p; k id perm p) = k (ae_id e) (ae_perm e) p.
Proof.
  intros [H1 H2]. unfold is_u32, is_u16 in *. unfold put_entry. rewrite <-app_assoc, get32_put32. cbn [mbind option_bind].
  rewrite get16_put16. cbn [mbind option_bind]. by rewrite !Z.mod_small by lia.
Qed.

(** Reading what was written. *)
Lemma get_put_entries (b : build) tab p :
  Forall entry_ok tab → get_entries b (length tab) (concat (put_entry bld <$> tab) ++ p) = Some (tab, p).
Proof.
  induction 1 as [|e tab Hok _ IH]; [done|]. cbn [length get_entries fmap list_fmap concat].
  rewrite <-app_assoc, get_put_entry by done. setoid_rewrite IH. cbn [mbind option_bind]. by destruct e.
Qed.

(** A blob of bytes that is long enough starts with entries. *)
Lemma entries_of_blob n blob :
  Forall is_u8 blob → (6 * n ≤ length blob)%nat →
  ∃ tab p, blob = concat (put_entry bld <$> tab) ++ p ∧ length tab = n ∧ Forall entry_ok tab.
Proof.
  revert blob. induction n as [|n IH]; intros blob Hb Hlen; [by exists [], blob|].
  destruct (IH (drop 2 (drop 4 blob))) as (tab & p & Heq & Hl & Hok).
  { by do 2 apply Forall_drop. } { rewrite !length_drop. lia. }
  pose proof (Forall_take _ 4 _ Hb) as H4. pose proof (Forall_take _ 2 _ (Forall_drop _ 4 _ Hb)) as H2.
  assert (length (take 4 blob) = 4%nat) as L4 by (rewrite length_take; lia).
  assert (length (take 2 (drop 4 blob)) = 2%nat) as L2 by (rewrite length_take, length_drop; lia).
  exists (mk_acl_entry (be_val (take 4 blob)) (be_val (take 2 (drop 4 blob))) :: tab), p.
  rewrite fmap_cons. cbn [concat length]. split; [|split; [lia|]].
  - unfold put_entry at 1. cbn [ae_id ae_perm]. rewrite put32bit_be, put16bit_be.
    pose proof (be_bytes_val _ H4) as E4. pose proof (be_bytes_val _ H2) as E2. rewrite L4 in E4. rewrite L2 in E2.
    rewrite E4, E2. rewrite <-!app_assoc, <-Heq, take_drop. by rewrite take_drop.
  - constructor; [|done]. split; cbn; [pose proof (be_val_range _ H4) as Hr|pose proof (be_val_range _ H2) as Hr];
      rewrite ?L4, ?L2 in Hr; exact Hr.
Qed.

End blob_facts.

(** ** Installing and removing a list *)

(** The state with the list [n] for the node, and the flag set. *)
Definition install (inode acltype : Z) (n : acl_node) (s : fs) : fs :=
  put_acls (<[(inode, acltype) := n]> (fs_acls s)) (update_node inode (set_acl_flag acltype true) s).

(** The list that says no more than the mode does. *)
Definition is_simple (acltype : Z) (r : acl_rights) : bool :=
  (acltype =? POSIX_ACL_ACCESS) && (Z.lor (ar_namedusers r) (ar_namedgroups r) =? 0) && (ar_userperm r <=? 7)
  && (ar_groupperm r <=? 7) && (ar_otherperm r <=? 7) && (ar_mask r =? 0xFFFF).

Definition known_type (t : Z) : Prop := t = POSIX_ACL_ACCESS ∨ t = POSIX_ACL_DEFAULT.

Lemma set_acl_flag_same t b p : acl_flag t p = b → set_acl_flag t b p = p.
Proof.
  unfold acl_flag, set_acl_flag. intros <-. destruct (t =? POSIX_ACL_ACCESS); [by destruct p|].
  destruct (t =? POSIX_ACL_DEFAULT); [by destruct p|done].
Qed.

Lemma acl_flag_set t t' b p :
  known_type t → acl_flag t' (set_acl_flag t b p) = if decide (t' = t) then b else acl_flag t' p.
Proof.
  unfold acl_flag, set_acl_flag. intros [->| ->]; cbn; case_decide as Ht; subst; cbn; try done.
  - destruct (Z.eqb_spec t' POSIX_ACL_ACCESS); [done|]. by destruct (t' =? POSIX_ACL_DEFAULT).
  - destruct (t' =? POSIX_ACL_ACCESS); [done|]. by destruct (Z.eqb_spec t' POSIX_ACL_DEFAULT).
Qed.

Lemma update_node_lookup inode f s i :
  fs_nodes (update_node inode f s) !! i = if decide (i = inode) then f <$> fs_nodes s !! i else fs_nodes s !! i.
Proof.
  unfold update_node. case_decide as Hi.
  - subst. destruct (fs_nodes s !! inode) eqn:Hp; simpl; [by rewrite lookup_insert_eq|by rewrite Hp].
  - destruct (fs_nodes s !! inode); simpl; [|done]. by rewrite lookup_insert_ne.
Qed.

Lemma update_node_acls inode f s : fs_acls (update_node inode f s) = fs_acls s.
Proof. unfold update_node. by destruct (fs_nodes s !! inode). Qed.

Lemma update_node_id inode f s p : fs_nodes s !! inode = Some p → f p = p → update_node inode f s = s.
Proof.
  intros Hp Hf. unfold update_node. rewrite Hp, Hf. unfold put_node. rewrite insert_id by done. by destruct s.
Qed.

(** What [posix_acl_set] does on a blob of the entries [tab]. *)
Lemma posix_acl_set_eq bld inode t r tab rest s :
  acl_inv s → length tab = rights_count r → Forall entry_ok tab →
  posix_acl_set bld inode t r (concat (put_entry bld <$> tab) ++ rest) s =
    Some (if is_simple t r then remove_acl inode t s else install inode t (make_node r tab) s).
Proof.
  intros Hinv Hlen Hok. unfold posix_acl_set. fold (is_simple t r). destruct (is_simple t r); [done|].
  rewrite <-Hlen, get_put_entries by done. cbn [mbind option_bind]. f_equal. unfold install, posix_acl_find.
  destruct (fs_acls s !! (inode, t)) as [n|] eqn:Hn.
  - destruct (acl_inv_flag _ Hinv _ _ _ Hn) as (p & Hp & Hflag).
    by rewrite (update_node_id inode _ s p) by (done || by apply set_acl_flag_same).
  - unfold fs_set_aclflag, update_node, posix_acl_create. cbn [fs_nodes put_acls].
    destruct (fs_nodes s !! inode); unfold put_acls; simpl; by rewrite insert_insert_eq.
Qed.

Lemma install_inv inode t n s :
  acl_inv s → acl_ok n → known_type t → is_Some (fs_nodes s !! inode) → acl_inv (install inode t n s).
Proof.
  intros Hinv Hn Ht [p Hp]. unfold install. split; cbn [fs_acls put_acls].
  - intros i t' n' [[[= <- <-] <-]|[_ H]]%lookup_insert_Some; [done|by eapply (acl_inv_ok _ Hinv)].
  - intros i t' n' H. setoid_rewrite update_node_lookup. cbn [fs_nodes].
    apply lookup_insert_Some in H as [[[= <- <-] <-]|[Hne H]].
    + exists (set_acl_flag t true p). rewrite decide_True, Hp by done. split; [done|].
      rewrite acl_flag_set by done. by rewrite decide_True.
    + destruct (acl_inv_flag _ Hinv _ _ _ H) as (p' & Hp' & Hf). case_decide; [subst i|by exists p'].
      assert (p' = p) as -> by congruence. exists (set_acl_flag t true p). rewrite Hp. split; [done|].
      rewrite acl_flag_set by done. by case_decide.
  - intros i t' p' Hp' Hf. rewrite lookup_insert. case_decide as Heq; [done|].
    change (fs_nodes _ !! i) with (fs_nodes (update_node inode (set_acl_flag t true) s) !! i) in Hp'.
    rewrite update_node_lookup in Hp'. case_decide; [subst i|by apply (acl_inv_list _ Hinv i t' p')].
    rewrite Hp in Hp'. simplify_eq/=. rewrite acl_flag_set in Hf by done.
    case_decide; [congruence|]. by apply (acl_inv_list _ Hinv inode t' p).
Qed.

Lemma remove_acl_eq inode t s :
  remove_acl inode t s = put_acls (delete (inode, t) (fs_acls s)) (update_node inode (set_acl_flag t false) s).
Proof.
  unfold remove_acl, fs_del_aclflag, update_node, put_acls. cbn [fs_nodes fs_acls]. by destruct (fs_nodes s !! inode).
Qed.

Lemma remove_inv inode t s : acl_inv s → known_type t → acl_inv (remove_acl inode t s).
Proof.
  intros Hinv Ht. rewrite remove_acl_eq. split; cbn [fs_acls put_acls].
  - intros i t' n' [_ H]%lookup_delete_Some. by eapply (acl_inv_ok _ Hinv).
  - intros i t' n' [Hne H]%lookup_delete_Some.
    change (fs_nodes (put_acls _ ?x)) with (fs_nodes x). setoid_rewrite update_node_lookup.
    destruct (acl_inv_flag _ Hinv _ _ _ H) as (p' & Hp' & Hf). rewrite Hp'. case_decide; [subst i|by exists p'].
    exists (set_acl_flag t false p'). split; [done|]. rewrite acl_flag_set by done. case_decide; [congruence|done].
  - intros i t' p' Hp' Hf. change (fs_nodes (put_acls _ ?x)) with (fs_nodes x) in Hp'. rewrite update_node_lookup in Hp'.
    rewrite lookup_delete. case_decide as Hi.
    + subst i. destruct (fs_nodes s !! inode) as [p|] eqn:Hp; simplify_eq/=. rewrite acl_flag_set in Hf by done.
      case_decide; [done|]. rewrite decide_False by congruence. by apply (acl_inv_list _ Hinv inode t' p).
    + rewrite decide_False by congruence. by apply (acl_inv_list _ Hinv i t' p').
Qed.

(** A change of a node that keeps its flags. *)
Lemma update_node_inv inode f s :
  acl_inv s → (∀ t p, acl_flag t (f p) = acl_flag t p) → acl_inv (update_node inode f s).
Proof.
  intros Hinv Hf. split; rewrite update_node_acls.
  - by eapply (acl_inv_ok _ Hinv).
  - intros i t n H. rewrite update_node_lookup. destruct (acl_inv_flag _ Hinv _ _ _ H) as (p & Hp & Hfl).
    rewrite Hp. case_decide; [|by exists p]. exists (f p). by rewrite Hf.
  - intros i t p Hp Hfl. rewrite update_node_lookup in Hp. case_decide; [|by apply (acl_inv_list _ Hinv i t p)].
    destruct (fs_nodes s !! i) as [p0|] eqn:Hp0; simplify_eq/=. rewrite Hf in Hfl. by eapply (acl_inv_list _ Hinv).
Qed.

(** Changing the rights of a list. *)
Lemma put_acl_inv inode t n s :
  acl_inv s → acl_ok n → is_Some (fs_acls s !! (inode, t)) → acl_inv (put_acls (<[(inode, t) := n]> (fs_acls s)) s).
Proof.
  intros Hinv Hn [n0 Hn0]. split; cbn [fs_acls fs_nodes put_acls].
  - intros i t' n' [[[= <- <-] <-]|[_ H]]%lookup_insert_Some; [|by eapply (acl_inv_ok _ Hinv)].
    split; [done|]. by apply (acl_inv_ok _ Hinv) in Hn0 as [_ ?].
  - intros i t' n' [[[= <- <-] <-]|[_ H]]%lookup_insert_Some; by eapply (acl_inv_flag _ Hinv).
  - intros i t' p Hp Hfl. rewrite lookup_insert. case_decide; [done|]. by apply (acl_inv_list _ Hinv i t' p).
Qed.

(** ** The state of the file system *)

(** What the shape of the tree depends on. *)
Definition shape (p : fsnode) : Z * list (option Z) := (fn_type p, fn_parents p).

Lemma tree_ok_shape nodes nodes' :
  (∀ i, shape <$> nodes' !! i = shape <$> nodes !! i) → tree_ok nodes → tree_ok nodes'.
Proof.
  intros Hsh Hok.
  assert (∀ i p', nodes' !! i = Some p' → ∃ p, nodes !! i = Some p ∧ fn_type p = fn_type p' ∧ fn_parents p = fn_parents p') as Hback.
  { intros i p' Hp'. specialize (Hsh i). rewrite Hp' in Hsh. destruct (nodes !! i) as [p|]; [|done].
    exists p. unfold shape in Hsh. simpl in Hsh. split; [done|]. by simplify_eq. }
  assert (∀ i q, parent_of nodes' i q → parent_of nodes i q) as Hpar.
  { intros i q (p' & Hp' & Hin). destruct (Hback i p' Hp') as (p & Hp & _ & Heq). exists p. by rewrite Heq. }
  split.
  - intros i q Hq%Hpar. destruct (tree_dir _ Hok _ _ Hq) as (p & Hp & Ht). specialize (Hsh q). rewrite Hp in Hsh.
    destruct (nodes' !! q) as [p'|]; [|done]. exists p'. split; [done|]. unfold shape in Hsh. simpl in Hsh. simplify_eq. congruence.
  - intros i p' Hp' Ht. destruct (Hback i p' Hp') as (p & Hp & Ht' & Heq). rewrite <-Heq.
    apply (tree_one _ Hok i p); [done|congruence].
  - intros i Ha. apply (tree_acyclic _ Hok i). unfold ancestor in *.
    clear -Ha Hpar. revert Ha. generalize i at 2 4. intros j Ha.
    induction Ha as [x y Hxy|x y z Hxy _ IH]; [by apply tc_once, Hpar|eapply tc_l; [by apply Hpar|exact IH]].
Qed.

Definition modes_ok (nodes : gmap Z fsnode) : Prop := ∀ i p, nodes !! i = Some p → 0 ≤ fn_mode p ≤ 0xFFF.

Record fs_inv (s : fs) : Prop := {
  fs_tree : tree_ok (fs_nodes s);
  fs_modes : modes_ok (fs_nodes s);
  fs_lists : acl_inv s }.

(** The functions that change a node without moving it. *)
Lemma update_node_shape inode f s :
  (∀ p, shape (f p) = shape p) → ∀ i, shape <$> fs_nodes (update_node inode f s) !! i = shape <$> fs_nodes s !! i.
Proof.
  intros Hf i. rewrite update_node_lookup. case_decide; [|done]. destruct (fs_nodes s !! i); simpl; [by rewrite Hf|done].
Qed.

Lemma update_node_modes inode f s :
  modes_ok (fs_nodes s) → (∀ p, 0 ≤ fn_mode p ≤ 0xFFF → 0 ≤ fn_mode (f p) ≤ 0xFFF) → modes_ok (fs_nodes (update_node inode f s)).
Proof.
  intros Hm Hf i p. rewrite update_node_lookup. case_decide; [|apply Hm].
  destruct (fs_nodes s !! i) as [p0|] eqn:Hp0; [|done]. intros [= <-]. by apply Hf, (Hm i).
Qed.

Lemma set_acl_flag_shape t b p : shape (set_acl_flag t b p) = shape p.
Proof. unfold set_acl_flag. by repeat case_if. Qed.
Lemma set_acl_flag_mode t b p : fn_mode (set_acl_flag t b p) = fn_mode p.
Proof. unfold set_acl_flag. by repeat case_if. Qed.

Lemma update_fs_inv inode f s :
  fs_inv s → (∀ p, shape (f p) = shape p) → (∀ p, 0 ≤ fn_mode p ≤ 0xFFF → 0 ≤ fn_mode (f p) ≤ 0xFFF) →
  (∀ t p, acl_flag t (f p) = acl_flag t p) → fs_inv (update_node inode f s).
Proof.
  intros [Ht Hm Hl] H1 H2 H3. split; [|by apply update_node_modes|by apply update_node_inv].
  eapply tree_ok_shape; [by apply update_node_shape|done].
Qed.

Lemma install_fs_inv inode t n s :
  fs_inv s → acl_ok n → known_type t → is_Some (fs_nodes s !! inode) → fs_inv (install inode t n s).
Proof.
  intros [Htr Hm Hl] Hn Ht Hi. split; [| |by apply install_inv]; unfold install; cbn [fs_nodes put_acls].
  - eapply tree_ok_shape; [apply (update_node_shape inode (set_acl_flag t true)); intros; apply set_acl_flag_shape|done].
  - apply (update_node_modes inode (set_acl_flag t true)); [done|]. intros p. by rewrite set_acl_flag_mode.
Qed.

Lemma remove_fs_inv inode t s : fs_inv s → known_type t → fs_inv (remove_acl inode t s).
Proof.
  intros [Htr Hm Hl] Ht. split; [| |by apply remove_inv]; rewrite remove_acl_eq; cbn [fs_nodes put_acls].
  - eapply tree_ok_shape; [apply (update_node_shape inode (set_acl_flag t false)); intros; apply set_acl_flag_shape|done].
  - apply (update_node_modes inode (set_acl_flag t false)); [done|]. intros p. by rewrite set_acl_flag_mode.
Qed.

(** ** Finding a node *)

Lemma isancestor_total nodes f p :
  tree_ok nodes → is_Some (nodes !! f) → is_Some (nodes !! p) → ∃ b : bool, fsnodes_isancestor nodes f p = Some b.
Proof.
  intros Htree [fnode Hf] [node Hp].
  destruct (decide (fn_type node = TYPE_TRASH)) as [Ht|Ht];
    [|destruct (decide (fn_type node = TYPE_SUSTAINED)) as [Hs|Hs];
      [|destruct (decide (fn_type fnode = TYPE_DIRECTORY)) as [Hd|Hd]]].
  4: { exists false. unfold fsnodes_isancestor. rewrite Hf, Hp. cbn [mbind option_bind].
       destruct (Z.eqb_spec (fn_type fnode) TYPE_DIRECTORY); [done|]. by rewrite orb_true_r. }
  3: { destruct (isancestor_ok nodes f p fnode node) as (b & Hb & _); eauto. }
  all: exists false; unfold fsnodes_isancestor; rewrite Hf, Hp; cbn [mbind option_bind].
  - by rewrite Ht.
  - by rewrite Hs, orb_true_r.
Qed.

Lemma find_ext_ok nodes rootinode sesflags inode skip :
  tree_ok nodes →
  ∃ found, fsnodes_node_find_ext nodes rootinode sesflags inode skip = Some found ∧
    ∀ i, found = Some i → is_Some (nodes !! i).
Proof.
  intros Htree. unfold fsnodes_node_find_ext. case_if.
  { eexists. split; [done|]. intros i. destruct (nodes !! inode) eqn:Hi; [|done]. intros [= <-]. eauto. }
  case_if.
  { eexists. split; [done|]. intros i. destruct (nodes !! inode) eqn:Hi; [|done]. case_if; [|done]. intros [= <-]. eauto. }
  destruct (nodes !! rootinode) as [rn|] eqn:Hrn; [|by exists None]. case_if; [by exists None|].
  case_if; [eexists; split; [done|]; intros i [= <-]; eauto|].
  destruct (nodes !! inode) as [p|] eqn:Hp; [|by exists None]. destruct skip; [eexists; split; [done|]; intros i [= <-]; eauto|].
  destruct (isancestor_total nodes rootinode inode) as [b ->]; [done|eauto..|]. cbn [mbind option_bind].
  eexists. split; [done|]. intros i. destruct b; [|done]. intros [= <-]. eauto.
Qed.

(** ** The requests, case by case *)

(** A request has rights of 16 bits and a blob of as many entries as it announces
    ([matoclserv_fuse_setfacl] drops the connection otherwise). *)
Definition facl_request_ok (r : acl_rights) (aclblob : list Z) : Prop :=
  rights_ok r ∧ Forall is_u8 aclblob ∧ length aclblob = (6 * rights_count r)%nat.

Lemma fill_rights_ok mode r : rights_ok r → rights_ok (fill_rights mode r).
Proof.
  unfold rights_ok, fill_rights, is_u16. cbn. pose proof (land7 := λ x, Z.land_ones x 3 ltac:(lia)).
  change (Z.ones 3) with 7 in land7. intros H. rewrite !land7.
  pose proof (Z.mod_pos_bound (Z.shiftr mode 6) (2 ^ 3)). pose proof (Z.mod_pos_bound (Z.shiftr mode 3) (2 ^ 3)).
  pose proof (Z.mod_pos_bound mode (2 ^ 3)). repeat case_if; lia.
Qed.

(** A blob of the right length is read whole, by every build. *)
Lemma facl_blob r aclblob :
  facl_request_ok r aclblob →
  ∃ tab, length tab = rights_count r ∧ Forall entry_ok tab ∧ ∀ bld, aclblob = concat (put_entry bld <$> tab) ++ [].
Proof.
  intros (_ & Hb & Hlen). destruct (entries_of_blob Portable (rights_count r) aclblob Hb) as (tab & p & Heq & Hl & Hok); [lia|].
  exists tab. split; [done|]. split; [done|]. intros bld.
  assert (∀ bld', concat (put_entry bld' <$> tab) = concat (put_entry Portable <$> tab)) as Hput.
  { intros bld'. f_equal. apply list_fmap_ext. intros _ e _. unfold put_entry. by rewrite !put32bit_be, !put16bit_be. }
  rewrite Hput. rewrite Heq. f_equal. apply length_zero_iff_nil.
  assert (length (concat (put_entry Portable <$> tab)) = (6 * length tab)%nat) as Hc.
  { clear. induction tab as [|e tab IH]; [done|]. rewrite fmap_cons. cbn [concat]. rewrite length_app, length_put_entry, IH. simpl. lia. }
  rewrite Heq, length_app, Hc in Hlen. lia.
Qed.

Lemma make_node_ok r tab :
  rights_ok r → length tab = rights_count r → Forall entry_ok tab → acl_ok (make_node r tab).
Proof. intros. by split. Qed.

(** [fs_setfacl] ends, in one of three ways. *)
Inductive setfacl_case (find : option (option Z)) (ts acltype : Z) (r : acl_rights) (tab : list acl_entry) (aclblob : list Z) (s : fs) : outcome → Prop :=
| SetfaclError st : st ≠ MFS_STATUS_OK → setfacl_case find ts acltype r tab aclblob s (st, s, None)
| SetfaclRemove i p :
    find = Some (Some i) →
    fs_nodes s !! i = Some p → known_type acltype → is_remove r = true →
    setfacl_case find ts acltype r tab aclblob s
      (MFS_STATUS_OK, remove_acl i acltype s, Some (SETACL ts i (fn_mode p) false acltype r aclblob))
| SetfaclSet i p s1 mode :
    find = Some (Some i) →
    fs_nodes s !! i = Some p → known_type acltype → is_remove r = false →
    (acltype = POSIX_ACL_DEFAULT → fn_type p = TYPE_DIRECTORY) →
    let r' := fill_rights (fn_mode p) r in
    s1 = (if is_simple acltype r' then remove_acl i acltype s else install i acltype (make_node r' tab) s) →
    mode = (if acltype =? POSIX_ACL_ACCESS then u12 (acl_mode (fn_mode p) r') else fn_mode p) →
    let chg := negb (mode =? fn_mode p) in
    setfacl_case find ts acltype r tab aclblob s
      (MFS_STATUS_OK, update_node i (λ p, let p := set_mode mode p in if chg then set_ctime ts p else p) s1,
       Some (SETACL ts i mode chg acltype r' aclblob)).

Lemma setfacl_cases bld ts rootinode sesflags inode uid acltype r aclblob tab s :
  fs_inv s → aclblob = concat (put_entry bld <$> tab) ++ [] → length tab = rights_count r → Forall entry_ok tab →
  ∃ out, fs_setfacl bld ts rootinode sesflags inode uid acltype r aclblob s = Some out ∧
    setfacl_case (fsnodes_node_find_ext (fs_nodes s) rootinode sesflags inode false) ts acltype r tab aclblob s out.
Proof.
  intros [Htree Hmodes Hl] Hblob Hlen Hok. unfold fs_setfacl.
  case_if; [eexists; split; [done|]; by constructor|].
  destruct (find_ext_ok (fs_nodes s) rootinode sesflags inode false Htree) as (found & -> & Hfound). cbn [mbind option_bind].
  destruct found as [i|]; [|eexists; split; [done|]; by constructor].
  destruct (Hfound i eq_refl) as [p Hp]. rewrite Hp. cbn [mbind option_bind].
  case_if; [eexists; split; [done|]; by constructor|]. case_if; [eexists; split; [done|]; by constructor|].
  destruct (decide (known_type acltype)) as [Ht|Ht].
  2: { assert (negb (acltype =? POSIX_ACL_ACCESS) && negb (acltype =? POSIX_ACL_DEFAULT) = true) as ->.
       { unfold known_type in Ht. destruct (Z.eqb_spec acltype POSIX_ACL_ACCESS), (Z.eqb_spec acltype POSIX_ACL_DEFAULT); tauto. }
       eexists; split; [done|]; by constructor. }
  assert (negb (acltype =? POSIX_ACL_ACCESS) && negb (acltype =? POSIX_ACL_DEFAULT) = false) as -> by (by destruct Ht as [->| ->]).
  destruct (is_remove r) eqn:Hrem; [eexists; split; [done|]; by eapply SetfaclRemove|].
  destruct ((acltype =? POSIX_ACL_DEFAULT) && negb (fn_type p =? TYPE_DIRECTORY)) eqn:Hdir;
    [eexists; split; [done|]; by constructor|].
  cbv zeta. rewrite Hblob, posix_acl_set_eq; [|done..]. cbn [mbind option_bind].
  eexists. split; [done|]. rewrite <-Hblob. eapply SetfaclSet; [done..| |done|done].
  intros ->. rewrite Z.eqb_refl in Hdir. cbn [andb] in Hdir. by destruct (Z.eqb_spec (fn_type p) TYPE_DIRECTORY).
Qed.

(** The filled rights do not ask for a removal. *)
Lemma land_FFFF_le x y : is_u16 x → is_u16 y → Z.land x y = 0xFFFF → x = 0xFFFF ∧ y = 0xFFFF.
Proof.
  intros Hx Hy H. assert (∀ z, is_u16 z → (∀ n, 0 ≤ n < 16 → Z.testbit z n = true) → z = 0xFFFF) as Hall.
  { intros z Hz Hb. apply Z.bits_inj'. intros n Hn. change 0xFFFF with (Z.ones 16). rewrite testbit_ones by lia.
    destruct (Z.ltb_spec n 16); [apply Hb; lia|]. by apply testbit_u16. }
  assert (∀ n, 0 ≤ n < 16 → Z.testbit (Z.land x y) n = true) as Hb.
  { intros n Hn. rewrite H. change 0xFFFF with (Z.ones 16). rewrite testbit_ones by lia. apply Z.ltb_lt. lia. }
  split; apply Hall; try done; intros n Hn; specialize (Hb n Hn); rewrite Z.land_spec in Hb; by apply andb_prop in Hb as [? ?].
Qed.

Lemma land_u16 x y : is_u16 x → is_u16 y → is_u16 (Z.land x y).
Proof.
  intros [Hx0 Hx] Hy. apply is_u16_bits; [apply Z.land_nonneg; lia|]. intros n Hn.
  rewrite Z.land_spec, (testbit_u16 y n) by done. apply andb_false_r.
Qed.

Lemma is_remove_spec r :
  rights_ok r →
  is_remove r = true ↔ ar_userperm r = 0xFFFF ∧ ar_groupperm r = 0xFFFF ∧ ar_otherperm r = 0xFFFF ∧ ar_mask r = 0xFFFF ∧
    Z.lor (ar_namedusers r) (ar_namedgroups r) = 0.
Proof.
  intros (Hu & Hg & Ho & Hm & _). unfold is_remove. rewrite andb_true_iff, !Z.eqb_eq. split.
  - intros [H Hn]. apply land_FFFF_le in H as [H ->]; [|by repeat apply land_u16|done].
    apply land_FFFF_le in H as [H ->]; [|by apply land_u16|done]. by apply land_FFFF_le in H as [-> ->].
  - by intros (-> & -> & -> & -> & ->).
Qed.

Lemma fill_not_remove mode r : rights_ok r → is_remove r = false → is_remove (fill_rights mode r) = false.
Proof.
  intros Hr Hrem. apply not_true_iff_false. intros H. apply not_true_iff_false in Hrem. apply Hrem.
  apply is_remove_spec in H; [|by apply fill_rights_ok]. apply is_remove_spec; [done|].
  unfold fill_rights in H. cbn in H. destruct H as (Hu & Hg & Ho & Hm & Hn).
  assert (∀ x, Z.land x 7 ≠ 0xFFFF) as H7.
  { intros x. change 7 with (Z.ones 3). rewrite Z.land_ones by lia. pose proof (Z.mod_pos_bound x (2 ^ 3)). lia. }
  case_if_in Hu; [by apply H7 in Hu|]. case_if_in Hg; [by apply H7 in Hg|]. case_if_in Ho; [by apply H7 in Ho|]. done.
Qed.

(** Setting the mode, and the change time when asked, keeps the state well formed. *)
Lemma retouch_inv i mode (chg : bool) ts s :
  fs_inv s → fs_inv (update_node i (λ p, let p := set_mode mode p in if chg then set_ctime ts p else p) s).
Proof.
  intros Hinv. apply update_fs_inv; [done|intros p; by destruct chg| |intros t p; by destruct chg].
  intros p _. destruct chg; cbn; pose proof (u12_range mode); lia.
Qed.

Lemma setfacl_case_inv find ts acltype r tab aclblob s out :
  fs_inv s → rights_ok r → length tab = rights_count r → Forall entry_ok tab →
  setfacl_case find ts acltype r tab aclblob s out →
  fs_inv out.1.2 ∧ (out.1.1 ≠ MFS_STATUS_OK → out.1.2 = s ∧ out.2 = None).
Proof.
  intros Hinv Hr Hlen Hok Hcase. inversion Hcase as [st Hst Heq|i p _ Hp Ht Hrem Heq|i p s1 mode _ Hp Ht Hrem Hd r' Hs1 Hmode chg Heq];
    subst out; cbn [fst snd].
  - done.
  - split; [by apply remove_fs_inv|done].
  - split; [|done]. apply retouch_inv. rewrite Hs1. case_if; [by apply remove_fs_inv|].
    apply install_fs_inv; [done| |done|eauto]. apply make_node_ok; [by apply fill_rights_ok|done|done].
Qed.

(** ** Replay *)

(** An entry of the changelog is replayed. *)
Definition replay_fs (bld : build) (e : fs_entry) (s : fs) : option (Z * fs) :=
  match e with
  | ATTR ts inode mode uid gid atime mtime winattr aclmode =>
      Some (fs_mr_attr ts inode mode uid gid atime mtime winattr aclmode s)
  | SETACL ts inode mode chg acltype r aclblob => fs_mr_setacl bld ts inode mode chg acltype r aclblob s
  end.

Lemma setfacl_case_replay find bld ts acltype r tab aclblob s st s' e :
  fs_inv s → rights_ok r → aclblob = concat (put_entry bld <$> tab) ++ [] → length tab = rights_count r → Forall entry_ok tab →
  setfacl_case find ts acltype r tab aclblob s (st, s', Some e) → replay_fs bld e s = Some (MFS_STATUS_OK, s').
Proof.
  intros Hinv Hr Hblob Hlen Hok Hcase.
  inversion Hcase as [|i p _ Hp Ht Hrem|i p s1 mode _ Hp Ht Hrem Hd r' Hs1 Hmode chg]; subst st e; cbn [replay_fs];
    unfold fs_mr_setacl; rewrite Hp;
    (assert (negb (acltype =? POSIX_ACL_ACCESS) && negb (acltype =? POSIX_ACL_DEFAULT) = false) as -> by (by destruct Ht as [->| ->])).
  - by rewrite Hrem.
  - subst r'. rewrite fill_not_remove by done. rewrite Hblob, posix_acl_set_eq by (done || apply Hinv).
    cbn [mbind option_bind]. by rewrite <-Hs1.
Qed.

(** ** The mode kept in a list *)

Lemma land7_mod x : Z.land x 7 = x `mod` 8.
Proof. change 7 with (Z.ones 3). by rewrite Z.land_ones by lia. Qed.

Lemma mode_of_perms u k o :
  0 ≤ u < 8 → 0 ≤ k < 8 → 0 ≤ o < 8 → Z.lor (Z.lor (Z.shiftl u 6) (Z.shiftl k 3)) o = 64 * u + 8 * k + o.
Proof.
  intros Hu Hk Ho.
  assert (forallb (λ u, forallb (λ k, forallb (λ o, Z.lor (Z.lor (Z.shiftl (Z.of_nat u) 6) (Z.shiftl (Z.of_nat k) 3)) (Z.of_nat o) =?
    64 * Z.of_nat u + 8 * Z.of_nat k + Z.of_nat o) (seq 0 8)) (seq 0 8)) (seq 0 8) = true) as H by (vm_compute; reflexivity).
  rewrite forallb_forall in H. specialize (H (Z.to_nat u) ltac:(apply in_seq; lia)).
  rewrite forallb_forall in H. specialize (H (Z.to_nat k) ltac:(apply in_seq; lia)).
  rewrite forallb_forall in H. specialize (H (Z.to_nat o) ltac:(apply in_seq; lia)).
  apply Z.eqb_eq in H. by rewrite !Z2Nat.id in H by lia.
Qed.

(** The mode logged for a node with a list. *)
Definition logged_aclmode (m : Z) : Z := u16 (Z.land m 0xFFF + Z.shiftl 1 12).

Lemma getmode_value i acls n :
  acls !! (i, POSIX_ACL_ACCESS) = Some n →
  ∃ m, posix_acl_getmode i acls = Some m ∧ 0 ≤ m < 512 ∧
    Z.land (Z.shiftr (logged_aclmode m) 6) 7 = Z.land (acl_userperm n) 7 ∧
    Z.land (Z.shiftr (logged_aclmode m) 3) 7 = Z.land (acl_mask n) 7 ∧
    Z.land (logged_aclmode m) 7 = Z.land (acl_otherperm n) 7 ∧ Z.land (logged_aclmode m) (Z.shiftl 1 12) ≠ 0.
Proof.
  intros Hn. unfold posix_acl_getmode, posix_acl_find. rewrite Hn. cbn [mbind option_bind].
  assert (∀ x, 0 ≤ Z.land x 7 < 8) as H7 by (intros x; rewrite land7_mod; apply Z.mod_pos_bound; lia).
  pose proof (H7 (acl_userperm n)). pose proof (H7 (acl_mask n)). pose proof (H7 (acl_otherperm n)).
  rewrite mode_of_perms by done. set (u := Z.land (acl_userperm n) 7) in *. set (k := Z.land (acl_mask n) 7) in *.
  set (o := Z.land (acl_otherperm n) 7) in *. eexists. split; [done|]. split; [lia|].
  assert (logged_aclmode (64 * u + 8 * k + o) = 64 * u + 8 * k + o + 4096) as ->.
  { unfold logged_aclmode, u16. change 0xFFF with (Z.ones 12). rewrite Z.land_ones by lia.
    change (Z.shiftl 1 12) with 4096. rewrite (Z.mod_small _ (2 ^ 12)) by lia. apply Z.mod_small. lia. }
  rewrite !land7_mod, !Z.shiftr_div_pow2 by lia. change (2 ^ 6) with 64. change (2 ^ 3) with 8.
  split; [|split; [|split]]; [Z.to_euclidean_division_equations; lia..|].
  intros Hz. assert (Z.testbit (64 * u + 8 * k + o + 4096) 12 = true) as Hb.
  { apply Z.testbit_true; [lia|]. change (2 ^ 12) with 4096. Z.to_euclidean_division_equations; lia. }
  assert (Z.testbit (Z.land (64 * u + 8 * k + o + 4096) (Z.shiftl 1 12)) 12 = true) as Hb' by (by rewrite Z.land_spec, Hb).
  by rewrite Hz in Hb'.
Qed.

(** Setting the mode that was logged, on the list before, gives the list after. *)
Lemma setmode_logged i acls acls' n m :
  acls !! (i, POSIX_ACL_ACCESS) = Some n → acl_ok n →
  (acls' = acls ∨ ∃ mode, acls' = posix_acl_setmode i mode acls) → posix_acl_getmode i acls' = Some m →
  posix_acl_setmode i (logged_aclmode m) acls = acls'.
Proof.
  intros Hn [(Hu & _ & Ho & Hm & _) _ _] Hcase Hget. cbn in Hu, Ho, Hm. destruct Hcase as [->|[mode ->]].
  - destruct (getmode_value i acls n Hn) as (m' & Hm' & _ & H1 & H2 & H3 & _). assert (m' = m) as -> by congruence.
    unfold posix_acl_setmode, posix_acl_find. rewrite Hn. rewrite !set_low3_same by done. rewrite insert_id; [done|].
    by destruct n.
  - assert (posix_acl_setmode i mode acls !! (i, POSIX_ACL_ACCESS) = Some (mk_acl_node (set_low3 (acl_userperm n) (Z.shiftr mode 6)) (acl_groupperm n)
            (set_low3 (acl_otherperm n) mode) (set_low3 (acl_mask n) (Z.shiftr mode 3))
            (acl_namedusers n) (acl_namedgroups n) (acl_acltab n))) as Hn'.
    { unfold posix_acl_setmode, posix_acl_find. by rewrite Hn, lookup_insert_eq. }
    destruct (getmode_value i _ _ Hn') as (m' & Hm' & _ & H1 & H2 & H3 & _). assert (m' = m) as -> by congruence.
    cbn in H1, H2, H3. rewrite !set_low3_low in H1, H2, H3 by done.
    unfold posix_acl_setmode, posix_acl_find. rewrite Hn. do 2 f_equal; by apply set_low3_ext.
Qed.

Lemma setmode_ok i mode acls n :
  acls !! (i, POSIX_ACL_ACCESS) = Some n → acl_ok n →
  ∃ n', posix_acl_setmode i mode acls = <[(i, POSIX_ACL_ACCESS) := n']> acls ∧ acl_ok n'.
Proof.
  intros Hn [(Hu & Hg & Ho & Hm & Hnu & Hng) Hc He]. unfold posix_acl_setmode, posix_acl_find. rewrite Hn.
  eexists. split; [done|]. split; [|done|done]. unfold rights_ok. cbn in *. eauto 10 using set_low3_u16.
Qed.
