(* ===== verification/AclProps.v ===== *)
(** * The properties of access control lists and attributes

    The access test is the one of POSIX.1e; the two requests that change attributes and
    lists never fault, keep the state well formed, change nothing when they fail, and
    are replayed exactly from what they log. *)

From S2P Require Import Prelude MfsComm DataPack FsNodes PosixAcl FsAccess AclFacts.

(** ** The access test *)

(** The rights [perm] contain all of the access [m]. *)
Definition grants (perm m : Z) : bool := Z.land (Z.land m 7) perm =? Z.land m 7.

(** The rights of the groups of the list the caller belongs to. *)
Definition group_perms (acn : acl_node) (agid : list Z) (fgid : Z) : list Z :=
  (if bool_decide (fgid ∈ agid) then [acl_groupperm acn] else [])
  ++ (ae_perm <$> filter (λ e, ae_id e ∈ agid) (drop (Z.to_nat (acl_namedusers acn)) (acl_acltab acn))).

(** The algorithm of POSIX.1e: the owner; else the first entry of the user, masked; else
    one of the groups of the caller, masked; else the others. *)
Definition posix1e_check (acn : acl_node) (auid : Z) (agid : list Z) (fuid fgid m : Z) : bool :=
  if auid =? fuid then grants (acl_userperm acn) m
  else
    match list_find (λ e, ae_id e = auid) (take (Z.to_nat (acl_namedusers acn)) (acl_acltab acn)) with
    | Some (_, e) => grants (Z.land (ae_perm e) (acl_mask acn)) m
    | None =>
        match group_perms acn agid fgid with
        | [] => grants (acl_otherperm acn) m
        | perms => existsb (λ perm, grants (Z.land perm (acl_mask acn)) m) perms
        end
    end.

Lemma flag_bit x k : 0 ≤ k → flag x (Z.shiftl 1 k) = Z.testbit x k.
Proof.
  intros Hk. unfold flag. destruct (Z.testbit x k) eqn:Hb.
  - apply negb_true_iff, Z.eqb_neq. intros H0.
    assert (Z.testbit (Z.land x (Z.shiftl 1 k)) k = true) as Ht.
    { rewrite Z.land_spec, Hb, Z.shiftl_spec, Z.sub_diag by done. done. }
    by rewrite H0, Z.bits_0 in Ht.
  - apply negb_false_iff, Z.eqb_eq. apply Z.bits_inj'. intros n Hn. rewrite Z.land_spec, Z.bits_0, Z.shiftl_1_l.
    destruct (Z.eq_dec n k) as [->|Hne]; [by rewrite Hb|]. rewrite Z.pow2_bits_false by done. by rewrite andb_false_r.
Qed.

Lemma land7 m : 0 ≤ Z.land m 7 < 8.
Proof. change 7 with (Z.ones 3). rewrite Z.land_ones by lia. apply Z.mod_pos_bound. lia. Qed.

(** The table [MODE_TO_ACCMODE] has the bit of an access exactly for the rights that
    contain it. *)
Lemma accmode_bit perm m : flag (modetoaccmode perm) (Z.shiftl 1 (Z.land m 7)) = grants perm m.
Proof.
  unfold modetoaccmode, grants.
  replace (Z.land (Z.land m 7) perm) with (Z.land (Z.land m 7) (Z.land perm 7)).
  2: { rewrite (Z.land_comm perm 7), Z.land_assoc. f_equal. rewrite <-Z.land_assoc. f_equal. }
  pose proof (land7 m) as Hm. pose proof (land7 perm) as Hp. revert Hm Hp.
  generalize (Z.land m 7) (Z.land perm 7). intros a b Ha Hb.
  assert (forallb (λ a, forallb (λ b, eqb (flag (MODE_TO_ACCMODE !!! b) (Z.shiftl 1 (Z.of_nat a)))
    (Z.land (Z.of_nat a) (Z.of_nat b) =? Z.of_nat a)) (seq 0 8)) (seq 0 8) = true) as Hall by (vm_compute; reflexivity).
  rewrite forallb_forall in Hall. specialize (Hall (Z.to_nat a)).
  rewrite forallb_forall in Hall. specialize (Hall ltac:(apply in_seq; lia) (Z.to_nat b) ltac:(apply in_seq; lia)).
  apply eqb_prop in Hall. rewrite !Z2Nat.id in Hall by lia. exact Hall.
Qed.

Lemma accmode_testbit perm m : Z.testbit (modetoaccmode perm) (Z.land m 7) = grants perm m.
Proof. rewrite <-flag_bit by apply land7. apply accmode_bit. Qed.

Lemma find_named_user_ok auid tab i n :
  (i + n ≤ length tab)%nat →
  find_named_user auid tab i n = Some ((λ x, ae_perm x.2) <$> list_find (λ e, ae_id e = auid) (take n (drop i tab))).
Proof.
  revert i. induction n as [|n IH]; intros i Hle; cbn [find_named_user]; [done|].
  destruct (lookup_lt_is_Some_2 tab i) as [e He]; [lia|]. rewrite He, (drop_S _ _ _ He). cbn [mbind option_bind take list_find].
  destruct (Z.eqb_spec auid (ae_id e)) as [->|Hne]; [by rewrite decide_True|]. rewrite decide_False by done.
  rewrite IH by lia. by destruct (list_find _ _) as [[]|].
Qed.

(** The loop over the groups of the caller. *)
Lemma or_group_ok agid id perm acc m :
  (Z.testbit (or_group agid id perm acc).1 (Z.land m 7) =
     Z.testbit acc.1 (Z.land m 7) || (bool_decide (id ∈ agid) && grants perm m)) ∧
  (or_group agid id perm acc).2 = acc.2 || bool_decide (id ∈ agid).
Proof.
  unfold or_group. revert acc. induction agid as [|g agid IH]; intros acc; cbn [fold_left].
  { rewrite bool_decide_eq_false_2 by (apply not_elem_of_nil). by rewrite !orb_false_r. }
  destruct (IH (if g =? id then (Z.lor acc.1 (modetoaccmode perm), true) else acc)) as [-> ->].
  destruct (Z.eqb_spec g id) as [->|Hne]; cbn [fst snd].
  - rewrite (bool_decide_eq_true_2 (id ∈ id :: agid)) by (by left). rewrite Z.lor_spec, accmode_testbit.
    destruct (Z.testbit acc.1 _), (grants perm m), (bool_decide _), acc.2; done.
  - rewrite (bool_decide_ext (id ∈ g :: agid) (id ∈ agid)); [done|]. rewrite elem_of_cons. naive_solver.
Qed.

Lemma or_named_groups_ok agid mask tab i n acc m :
  (i + n ≤ length tab)%nat →
  let perms := ae_perm <$> filter (λ e, ae_id e ∈ agid) (take n (drop i tab)) in
  ∃ r, or_named_groups agid mask tab i n acc = Some r ∧
    Z.testbit r.1 (Z.land m 7) = Z.testbit acc.1 (Z.land m 7) || existsb (λ perm, grants (Z.land perm mask) m) perms ∧
    r.2 = acc.2 || existsb (λ _, true) perms.
Proof.
  revert i acc. induction n as [|n IH]; intros i acc Hle perms; cbn [or_named_groups].
  { exists acc. subst perms. cbn. by rewrite !orb_false_r. }
  destruct (lookup_lt_is_Some_2 tab i) as [e He]; [lia|]. subst perms. rewrite He, (drop_S _ _ _ He).
  cbn [mbind option_bind take].
  destruct (IH (S i) (or_group agid (ae_id e) (Z.land (ae_perm e) mask) acc)) as (r & Hr & H1 & H2); [lia|].
  exists r. rewrite Hr, H1, H2. split; [done|]. destruct (or_group_ok agid (ae_id e) (Z.land (ae_perm e) mask) acc m) as [-> ->].
  rewrite filter_cons. case_decide as Hin.
  - rewrite bool_decide_eq_true_2 by done. rewrite fmap_cons. cbn [existsb]. by rewrite !orb_assoc, orb_true_r.
  - rewrite bool_decide_eq_false_2 by done. by rewrite !orb_false_r.
Qed.

(** C19: the table of accesses [posix_acl_accmode] computes is the access check of
    POSIX.1e. For a list that is well formed, any caller other than the superuser, and
    any access [m] (a set of read, write and execute), the bit [m] of the result is set
    exactly when the algorithm grants it: the rights of the owner for the owner; else
    those of the first entry that names the user, masked; else, when the caller is of
    the owning group or a named one, those of one of these groups, masked (one entry has
    to grant the whole access); else those of the others. *)
Theorem posix_acl_accmode_spec inode auid agid fuid fgid acls acn :
  acls !! (inode, POSIX_ACL_ACCESS) = Some acn → acl_ok acn → auid ≠ 0 →
  ∃ accmode, posix_acl_accmode inode auid agid fuid fgid acls = Some accmode ∧
    ∀ m, flag accmode (Z.shiftl 1 (Z.land m 7)) = posix1e_check acn auid agid fuid fgid m.
Proof.
  intros Hacn Hok Hauid. unfold posix_acl_accmode, posix1e_check, posix_acl_find.
  destruct (Z.eqb_spec auid 0) as [|_]; [done|]. rewrite Hacn.
  destruct (auid =? fuid); [eexists; split; [done|]; apply accmode_bit|].
  destruct Hok as [(_ & _ & _ & _ & [Hu _] & [Hg _]) Hlen _]. cbn in Hu, Hg. unfold acls_count in Hlen.
  rewrite find_named_user_ok by lia. rewrite drop_0. cbn [mbind option_bind].
  destruct (list_find _ _) as [[k e]|]; cbn [fmap option_fmap option_map snd].
  { eexists. split; [done|]. apply accmode_bit. }
  set (acc := or_group agid fgid (Z.land (acl_groupperm acn) (acl_mask acn)) (0, false)).
  set (users := Z.to_nat (acl_namedusers acn)) in *. set (groups := Z.to_nat (acl_namedgroups acn)) in *.
  assert (take groups (drop users (acl_acltab acn)) = drop users (acl_acltab acn)) as Htake.
  { apply take_ge. rewrite length_drop. lia. }
  pose proof (or_named_groups_ok agid (acl_mask acn) (acl_acltab acn) users groups acc 0) as Hr.
  rewrite Htake in Hr. destruct Hr as ([am f] & Hr & _ & Hf); [lia|]. rewrite Hr. cbn [mbind option_bind].
  eexists. split; [done|]. intros m. rewrite flag_bit by apply land7. cbn in Hf. subst f. unfold group_perms.
  destruct (or_group_ok agid fgid (Z.land (acl_groupperm acn) (acl_mask acn)) (0, false) m) as [Hb1 Hb2].
  fold acc in Hb1, Hb2. cbn [fst snd orb] in Hb1, Hb2. rewrite Z.bits_0, orb_false_l in Hb1. rewrite Hb2.
  assert (Z.testbit am (Z.land m 7) = Z.testbit acc.1 (Z.land m 7) || existsb (λ perm, grants (Z.land perm (acl_mask acn)) m)
    (ae_perm <$> filter (λ e, ae_id e ∈ agid) (drop users (acl_acltab acn)))) as Ham.
  { pose proof (or_named_groups_ok agid (acl_mask acn) (acl_acltab acn) users groups acc m) as Hr'.
    rewrite Htake in Hr'. destruct Hr' as (r' & Hr' & Hb' & _); [lia|]. rewrite Hr in Hr'. by injection Hr' as <-. }
  destruct (bool_decide (fgid ∈ agid)); cbn [orb andb app existsb].
  - rewrite Ham, Hb1. done.
  - destruct (ae_perm <$> filter _ _) eqn:Hp; cbn [existsb orb]; [by rewrite accmode_testbit|]. rewrite Ham, Hb1. done.
Qed.

(** The user 7 is named with read and write, the mask leaves read. *)
Lemma posix_acl_accmode_spec_witness :
  let acn := mk_acl_node 7 5 0 4 1 1 [mk_acl_entry 7 6; mk_acl_entry 30 7] in
  let acls := {[(10, POSIX_ACL_ACCESS) := acn]} : gmap (Z * Z) acl_node in
  acl_ok acn ∧ ∃ accmode, posix_acl_accmode 10 7 [20] 1 20 acls = Some accmode ∧
    flag accmode (Z.shiftl 1 (Z.land MODE_MASK_R 7)) = true ∧ flag accmode (Z.shiftl 1 (Z.land MODE_MASK_W 7)) = false.
Proof.
  intros acn acls.
  assert (acl_ok acn) as Hok.
  { split; [|reflexivity|]; unfold rights_ok, entry_ok, is_u16, is_u32; cbn; [lia|].
    repeat constructor; cbn; unfold is_u16, is_u32; lia. }
  split; [exact Hok|].
  destruct (posix_acl_accmode_spec 10 7 [20] 1 20 acls acn) as (am & Ham & Hb); [reflexivity|exact Hok|lia|].
  exists am. split; [exact Ham|]. split; rewrite Hb; reflexivity.
Defined.

(** ** The tree a session sees *)

(** A session mounted at a directory is confined to what is below it. For a
    session whose root [r] is a directory other than the root of the file system, and
    that is not a session of the metadata tools, the search ends without a fault and
    finds exactly the nodes outside the trash that have [r] among their ancestors; the
    inode of the root stands for [r]. *)
Theorem node_find_ext_confined nodes r rnode sesflags inode :
  tree_ok nodes → nodes !! r = Some rnode → fn_type rnode = TYPE_DIRECTORY → r ≠ 0 → r ≠ MFS_ROOT_ID →
  Z.land sesflags SESFLAG_METARESTORE = 0 →
  ∃ found, fsnodes_node_find_ext nodes r sesflags inode false = Some found ∧
    ∀ i, found = Some i ↔
      (inode = MFS_ROOT_ID ∧ i = r) ∨
      (inode ≠ MFS_ROOT_ID ∧ i = inode ∧ ancestor nodes inode r ∧
       ∃ p, nodes !! inode = Some p ∧ fn_type p ≠ TYPE_TRASH ∧ fn_type p ≠ TYPE_SUSTAINED).
Proof.
  intros Htree Hr Hdir Hr0 Hr1 Hses. unfold fsnodes_node_find_ext. rewrite Hses, Hr, Hdir. cbn [Z.eqb negb orb].
  destruct (Z.eqb_spec r MFS_ROOT_ID); [done|]. destruct (Z.eqb_spec r 0); [done|]. rewrite Z.eqb_refl. cbn [negb].
  destruct (Z.eqb_spec inode MFS_ROOT_ID) as [->|Hi]; [eexists; split; [done|]; naive_solver|].
  destruct (nodes !! inode) as [p|] eqn:Hp; [|exists None; naive_solver].
  destruct (isancestor_total nodes r inode) as [b Hb]; [done|eauto..|]. rewrite Hb. cbn [mbind option_bind].
  eexists. split; [done|]. intros i.
  assert (b = true ↔ ancestor nodes inode r ∧ fn_type p ≠ TYPE_TRASH ∧ fn_type p ≠ TYPE_SUSTAINED) as Hiff.
  { destruct (decide (fn_type p = TYPE_TRASH)) as [Ht|Ht]; [|destruct (decide (fn_type p = TYPE_SUSTAINED)) as [Hs|Hs]].
    - unfold fsnodes_isancestor in Hb. rewrite Hr, Hp in Hb. cbn [mbind option_bind] in Hb. rewrite Ht in Hb. cbn in Hb. naive_solver.
    - unfold fsnodes_isancestor in Hb. rewrite Hr, Hp in Hb. cbn [mbind option_bind] in Hb. rewrite Hs, orb_true_r in Hb. cbn in Hb. naive_solver.
    - destruct (isancestor_ok nodes r inode rnode p) as (b' & Hb' & Hiff'); [done..|]. rewrite Hb in Hb'. naive_solver. }
  destruct b; naive_solver.
Qed.

(** The tree [1 -> 5 -> 6], with a file 7 below 6. *)
Definition example_dir (parents : list (option Z)) : fsnode :=
  mk_fsnode 0 0 0 0 0 false false TYPE_DIRECTORY 0x1FF 0 0 parents.
Definition example_file (parents : list (option Z)) : fsnode :=
  mk_fsnode 0 0 0 9 9 false false TYPE_FILE 0x1A4 0 0 parents.
Definition example_nodes : gmap Z fsnode :=
  list_to_map [(1, example_dir []); (5, example_dir [Some 1]); (6, example_dir [Some 5]); (7, example_file [Some 6])].

Lemma example_nodes_cases i p :
  example_nodes !! i = Some p →
  (i = 1 ∧ p = example_dir []) ∨ (i = 5 ∧ p = example_dir [Some 1]) ∨ (i = 6 ∧ p = example_dir [Some 5]) ∨
  (i = 7 ∧ p = example_file [Some 6]).
Proof.
  unfold example_nodes. cbn [list_to_map foldr uncurry fst snd].
  intros [[<- <-]|[_ [[<- <-]|[_ [[<- <-]|[_ [[<- <-]|[_ H]]%lookup_insert_Some]]%lookup_insert_Some]]%lookup_insert_Some]]%lookup_insert_Some;
    [tauto..|]. by rewrite lookup_empty in H.
Qed.

Lemma example_parent i q : parent_of example_nodes i q → q < i ∧ (q = 1 ∨ q = 5 ∨ q = 6).
Proof.
  intros (p & Hp & Hin). apply example_nodes_cases in Hp.
  repeat destruct Hp as [Hp|Hp]; destruct Hp as [-> ->]; cbn in Hin;
    rewrite ?list_elem_of_singleton in Hin; [by apply elem_of_nil in Hin|..]; injection Hin as ->; split; tauto || lia.
Qed.

Lemma example_tree : tree_ok example_nodes.
Proof.
  split.
  - intros i q Hq%example_parent. destruct Hq as [_ [->|[-> | ->]]]; by eexists.
  - intros i p Hp _. apply example_nodes_cases in Hp.
    repeat destruct Hp as [Hp|Hp]; destruct Hp as [-> ->]; simpl; lia.
  - intros i. assert (∀ x y, tc (parent_of example_nodes) x y → y < x) as Hlt.
    { induction 1 as [x y Hxy|x y z Hxy _ IH]; apply example_parent in Hxy; lia. }
    intros H%Hlt. lia.
Qed.

Lemma node_find_ext_confined_witness :
  ∃ found, fsnodes_node_find_ext example_nodes 5 0 7 false = Some found ∧ (found = Some 7 ↔ ancestor example_nodes 7 5).
Proof.
  destruct (node_find_ext_confined example_nodes 5 (example_dir [Some 1]) 0 7) as (found & Hf & Hiff);
    [exact example_tree|reflexivity|reflexivity|lia|unfold MFS_ROOT_ID; lia|reflexivity|].
  exists found. split; [exact Hf|]. rewrite Hiff. split.
  - intros [[Heq _]|(_ & _ & H & _)]; [discriminate|exact H].
  - intros H. right. split; [discriminate|]. split; [reflexivity|]. split; [exact H|].
    exists (example_file [Some 6]). repeat split; discriminate.
Defined.

(** From the root of the file system every node is found. *)
Lemma find_ext_root_Some nodes sesflags inode skip p :
  nodes !! inode = Some p → fsnodes_node_find_ext nodes MFS_ROOT_ID sesflags inode skip = Some (Some inode).
Proof. intros Hp. unfold fsnodes_node_find_ext. by rewrite Z.eqb_refl, orb_true_r, Hp. Qed.

Lemma find_ext_root nodes sesflags inode skip i found :
  found = Some i → fsnodes_node_find_ext nodes MFS_ROOT_ID sesflags inode skip = Some found → i = inode.
Proof.
  intros ->. unfold fsnodes_node_find_ext. rewrite Z.eqb_refl, orb_true_r. destruct (nodes !! inode); congruence.
Qed.

(** ** Setting a list *)

(** A request to set or remove a list is safe: on a well-formed state, and for
    every request whose blob has the entries it announces, [fs_setfacl] ends without a
    fault, the state it leaves is well formed (every list has as many entries as it
    says, every flag of a node says whether the list is there, modes fit their field,
    the tree keeps its shape), and a request that is refused changes nothing and logs
    nothing. *)
Theorem fs_setfacl_safe bld ts rootinode sesflags inode uid acltype r aclblob s :
  fs_inv s → facl_request_ok r aclblob →
  ∃ status s' e, fs_setfacl bld ts rootinode sesflags inode uid acltype r aclblob s = Some (status, s', e) ∧
    fs_inv s' ∧ (status ≠ MFS_STATUS_OK → s' = s ∧ e = None).
Proof.
  intros Hinv Hreq. destruct (facl_blob r aclblob Hreq) as (tab & Hlen & Hok & Hblob).
  destruct (setfacl_cases bld ts rootinode sesflags inode uid acltype r aclblob tab s) as (out & Hout & Hcase); [done..|].
  destruct (setfacl_case_inv _ _ _ _ _ _ _ _ Hinv (proj1 Hreq) Hlen Hok Hcase) as [H1 H2].
  destruct out as [[st s'] e]. by exists st, s', e.
Qed.

Lemma example_inv : fs_inv (mk_fs example_nodes ∅).
Proof.
  split; cbn [fs_nodes].
  - apply example_tree.
  - intros i p Hp. apply example_nodes_cases in Hp. repeat destruct Hp as [Hp|Hp]; destruct Hp as [-> ->]; simpl; lia.
  - split; cbn [fs_acls fs_nodes].
    + intros i t n H. by rewrite lookup_empty in H.
    + intros i t n H. by rewrite lookup_empty in H.
    + intros i t p Hp Hf. exfalso. unfold acl_flag in Hf. apply example_nodes_cases in Hp.
      repeat destruct Hp as [Hp|Hp]; destruct Hp as [-> ->]; simpl in Hf; repeat case_if_in Hf; discriminate.
Qed.

(** The owner of the file 7 names the user 30. *)
Definition example_rights : acl_rights := mk_acl_rights 6 4 0 7 1 0.
Definition example_blob : list Z := [0; 0; 0; 30; 0; 6].

Lemma example_request : facl_request_ok example_rights example_blob.
Proof.
  split; [unfold rights_ok, is_u16; cbn; lia|]. split; [|reflexivity].
  repeat constructor; unfold is_u8; lia.
Qed.

Lemma fs_setfacl_safe_witness :
  let run := fs_setfacl FastLE 100 1 0 7 9 POSIX_ACL_ACCESS example_rights example_blob (mk_fs example_nodes ∅) in
  match run with
  | Some (status, s', e) => status = MFS_STATUS_OK ∧ fs_acls s' !! (7, POSIX_ACL_ACCESS) = Some (make_node example_rights [mk_acl_entry 30 6]) ∧ fs_inv s'
  | None => False
  end.
Proof.
  intros run. subst run.
  destruct (fs_setfacl_safe FastLE 100 1 0 7 9 POSIX_ACL_ACCESS example_rights example_blob (mk_fs example_nodes ∅))
    as (st & s' & e & Hrun & Hinv & _); [exact example_inv|exact example_request|].
  rewrite Hrun. vm_compute in Hrun. injection Hrun as <- <- _. split; [reflexivity|]. split; [reflexivity|]. exact Hinv.
Defined.



(** A list that was set is read back. After a granted request that neither
    removes the list nor says no more than the mode does, reading the list of the node
    ([fs_getfacl_size], then [fs_getfacl_data]) gives the rights of the request, those
    given as [0xFFFF] taken from the mode, and the bytes of the blob. *)
Theorem fs_getfacl_setfacl bld bld' ts sesflags inode uid acltype r aclblob s status s' e p :
  fs_inv s → facl_request_ok r aclblob → fs_nodes s !! inode = Some p →
  fs_setfacl bld ts MFS_ROOT_ID sesflags inode uid acltype r aclblob s = Some (status, s', Some e) →
  is_remove r = false → is_simple acltype (fill_rights (fn_mode p) r) = false →
  ∃ size node, fs_getfacl_size MFS_ROOT_ID sesflags inode acltype s' = Some (MFS_STATUS_OK, size, Some node) ∧
    size = Z.of_nat (length aclblob) ∧ fs_getfacl_data bld' node = Some (fill_rights (fn_mode p) r, aclblob).
Proof.
  intros Hinv Hreq Hp Hrun Hrem Hsimple. destruct (facl_blob r aclblob Hreq) as (tab & Hlen & Hok & Hblob).
  pose proof Hreq as (Hr & _ & Hbl).
  destruct (setfacl_cases bld ts MFS_ROOT_ID sesflags inode uid acltype r aclblob tab s) as (out & Hout & Hcase); [done..|].
  rewrite Hrun in Hout. injection Hout as <-.
  inversion Hcase as [|i p' _ Hp' Ht Hrem'|i p' s1 mode Hfind Hp' Ht Hrem' Hd r' Hs1 Hmode chg]; [congruence|].
  assert (i = inode) as -> by (by eapply find_ext_root).
  assert (p' = p) as -> by congruence. subst r'. rewrite Hsimple in Hs1.
  set (s2 := update_node _ _ _). assert (fs_acls s2 !! (inode, acltype) = Some (make_node (fill_rights (fn_mode p) r) tab)) as Hl.
  { subst s2. rewrite update_node_acls, Hs1. cbn. by rewrite lookup_insert_eq. }
  assert (∃ p2, fs_nodes s2 !! inode = Some p2 ∧ acl_flag acltype p2 = true) as (p2 & Hp2 & Hf).
  { subst s2. rewrite update_node_lookup, decide_True, Hs1 by done. unfold install. cbn [put_acls fs_nodes].
    rewrite update_node_lookup, decide_True, Hp by done. eexists. split; [done|].
    assert (∀ q, acl_flag acltype (let p := set_mode mode q in if chg then set_ctime ts p else p) = acl_flag acltype q) as ->
      by (intros q; by destruct chg). rewrite acl_flag_set by done. by rewrite decide_True. }
  exists (Z.of_nat (length aclblob)), (make_node (fill_rights (fn_mode p) r) tab). split; [|split; [done|]].
  - unfold fs_getfacl_size. rewrite (find_ext_root_Some _ _ _ _ p2 Hp2). cbn [mbind option_bind]. rewrite Hp2. cbn [mbind option_bind].
    assert (((acltype =? POSIX_ACL_ACCESS) && negb (fn_aclpermflag p2)) || ((acltype =? POSIX_ACL_DEFAULT) && negb (fn_acldefflag p2)) = false) as ->.
    { destruct Ht as [-> | ->]; unfold acl_flag in Hf; simpl in Hf |- *; by rewrite Hf. }
    unfold posix_acl_get_blobsize, posix_acl_find. rewrite Hl. cbn [acl_namedusers acl_namedgroups make_node ar_namedusers ar_namedgroups fill_rights].
    destruct Hr as (_ & _ & _ & _ & [Hu _] & [Hg _]). unfold rights_count in Hbl. case_if; [lia|].
    do 3 f_equal. lia.
  - unfold fs_getfacl_data, posix_acl_get_data. cbn [make_node acl_acltab]. rewrite read_all by (by rewrite Hlen).
    cbn [mbind option_bind]. rewrite (Hblob bld'), app_nil_r. done.
Qed.

Lemma fs_getfacl_setfacl_witness :
  let s := mk_fs example_nodes ∅ in
  match fs_setfacl FastLE 100 1 0 7 9 POSIX_ACL_ACCESS example_rights example_blob s with
  | Some (_, s', Some e) =>
      ∃ size node, fs_getfacl_size 1 0 7 POSIX_ACL_ACCESS s' = Some (MFS_STATUS_OK, size, Some node) ∧
        fs_getfacl_data FastBE node = Some (example_rights, example_blob)
  | _ => False
  end.
Proof.
  intros s. destruct (fs_setfacl FastLE 100 1 0 7 9 POSIX_ACL_ACCESS example_rights example_blob s) as [[[st s'] [e|]]|] eqn:Hrun.
  - destruct (fs_getfacl_setfacl FastLE FastBE 100 0 7 9 POSIX_ACL_ACCESS example_rights example_blob s st s' e
      (example_file [Some 6]) example_inv example_request eq_refl Hrun eq_refl eq_refl) as (size & node & H1 & _ & H2).
    exists size, node. split; [exact H1|exact H2].
  - vm_compute in Hrun. discriminate.
  - vm_compute in Hrun. discriminate.
Defined.

(** ** Setting attributes *)

Lemma accmode_total inode uid gid fuid fgid acls :
  (∀ n, acls !! (inode, POSIX_ACL_ACCESS) = Some n → acl_ok n) →
  ∃ am, posix_acl_accmode inode uid gid fuid fgid acls = Some am.
Proof.
  intros Hok. unfold posix_acl_accmode, posix_acl_find. case_if; [eauto|].
  destruct (acls !! _) as [n|]; [|eauto]. case_if; [eauto|].
  destruct (Hok n eq_refl) as [(_ & _ & _ & _ & [Hu _] & [Hg _]) Hlen _]. cbn in Hu, Hg. unfold acls_count in Hlen.
  rewrite find_named_user_ok by lia. cbn [mbind option_bind]. destruct (list_find _ _) as [[]|]; cbn; [eauto|].
  match goal with |- context [or_named_groups _ _ _ ?i ?k ?acc] =>
    destruct (or_named_groups_ok gid (acl_mask n) (acl_acltab n) i k acc 0) as ([am f] & -> & _); [lia|cbn; eauto] end.
Qed.

Lemma access_total acls inode node uid gid m sesflags :
  (∀ n, acls !! (inode, POSIX_ACL_ACCESS) = Some n → acl_ok n) →
  ∃ b : bool, fsnodes_access_ext acls inode node uid gid m sesflags = Some b.
Proof.
  intros Hok. unfold fsnodes_access_ext, fsnodes_accessmode. case_if; [cbn; eauto|].
  destruct (accmode_total inode uid gid (fn_uid node) (fn_gid node) acls Hok) as [am ->].
  repeat (case_if; [cbn; eauto|]). cbn. eauto.
Qed.

Lemma denied_total acls inode p sesflags uid gid setmask attrmode attruid attrgid :
  (∀ n, acls !! (inode, POSIX_ACL_ACCESS) = Some n → acl_ok n) →
  ∃ d, setattr_denied acls inode p sesflags uid gid setmask attrmode attruid attrgid = Some d ∧
    ∀ e, d = Some e → e = MFS_ERROR_EPERM ∨ e = MFS_ERROR_EACCES.
Proof.
  intros Hok. unfold setattr_denied. case_if; [by eexists|]. case_if; [eexists; split; [done|]; intros e [= <-]; by left|].
  destruct (access_total acls inode p uid gid MODE_MASK_W sesflags Hok) as [b ->]. cbn [mbind option_bind].
  match goal with |- ∃ d, (?x ≫= _) = _ ∧ _ => assert (∃ o, x = Some o ∧ ∀ e, o = Some e → e = MFS_ERROR_EPERM ∨ e = MFS_ERROR_EACCES) as (o & -> & Ho) end.
  { repeat case_if; eexists; (split; [done|]); intros e; try (intros [= <-]); auto; done. }
  cbn [mbind option_bind]. destruct o as [e|]; [by eexists|]. repeat case_if; eexists; (split; [done|]); intros e; try done; intros [= <-]; by left.
Qed.

(** What a request for attributes leaves and logs. *)
Inductive setattr_case (find : option (option Z)) (ts : Z) (s : fs) : outcome → Prop :=
| SetattrError st : st ≠ MFS_STATUS_OK → setattr_case find ts s (st, s, None)
| SetattrOk i p mode puid pgid atime mtime winattr acls aclmode :
    find = Some (Some i) → fs_nodes s !! i = Some p →
    (acls = fs_acls s ∨ fn_aclpermflag p = true ∧ ∃ attrmode, acls = posix_acl_setmode i attrmode (fs_acls s)) →
    aclmode = (if fn_aclpermflag p then logged_aclmode (default 0 (posix_acl_getmode i acls)) else 0) →
    (fn_aclpermflag p = true → is_Some (posix_acl_getmode i acls)) →
    setattr_case find ts s
      (MFS_STATUS_OK,
       put_node i (mk_fsnode ts mtime atime puid pgid (fn_aclpermflag p) (fn_acldefflag p) (fn_type p) (u12 mode)
                     (fn_eattr p) winattr (fn_parents p)) (put_acls acls s),
       Some (ATTR ts i (u12 mode) puid pgid atime mtime winattr aclmode)).

Lemma perm_list s i p :
  fs_inv s → fs_nodes s !! i = Some p → fn_aclpermflag p = true →
  ∃ n, fs_acls s !! (i, POSIX_ACL_ACCESS) = Some n ∧ acl_ok n.
Proof.
  intros Hinv Hp Hf. destruct (acl_inv_list _ (fs_lists _ Hinv) i POSIX_ACL_ACCESS p Hp Hf) as [n Hn].
  exists n. split; [done|]. by apply (acl_inv_ok _ (fs_lists _ Hinv) _ _ _ Hn).
Qed.

Lemma setattr_cases ts rootinode sesflags inode opened uid gid setmask attrmode attruid attrgid attratime attrmtime winattr
    sugidclearmode s :
  fs_inv s →
  ∃ out, fs_setattr ts rootinode sesflags inode opened uid gid setmask attrmode attruid attrgid attratime attrmtime winattr
    sugidclearmode s = Some out ∧
    setattr_case (fsnodes_node_find_ext (fs_nodes s) rootinode sesflags inode opened) ts s out.
Proof.
  intros Hinv. unfold fs_setattr. case_if; [eexists; split; [done|]; by constructor|].
  destruct (find_ext_ok (fs_nodes s) rootinode sesflags inode opened) as (found & -> & Hfound); [apply Hinv|].
  cbn [mbind option_bind]. destruct found as [i|]; [|eexists; split; [done|]; by constructor].
  destruct (Hfound i eq_refl) as [p Hp]. rewrite Hp. cbn [mbind option_bind].
  case_if; [eexists; split; [done|]; by constructor|].
  destruct (denied_total (fs_acls s) i p sesflags uid gid setmask attrmode attruid attrgid) as (d & -> & Hd).
  { intros n Hn. by apply (acl_inv_ok _ (fs_lists _ Hinv) _ _ _ Hn). }
  cbn [mbind option_bind]. destruct d as [e|].
  { eexists. split; [done|]. constructor. destruct (Hd e eq_refl) as [->| ->]; done. }
  destruct (clear_sugid sugidclearmode uid setmask attrmode attrgid p) as [mode am].
  set (pgid := if flag setmask SET_GID_FLAG then attrgid else fn_gid p).
  set (am' := clear_sgid uid am pgid gid).
  match goal with |- ∃ out, (let '(_, _) := ?x in _) = _ ∧ _ => destruct x as [mode' acls] eqn:Hx end.
  assert (acls = fs_acls s ∨ fn_aclpermflag p = true ∧ ∃ attrmode, acls = posix_acl_setmode i attrmode (fs_acls s)) as Hacls.
  { repeat case_if_in Hx; injection Hx as <- <-; eauto. }
  assert (fn_aclpermflag p = true → is_Some (posix_acl_getmode i acls)) as Hget.
  { intros Hf. destruct (perm_list s i p Hinv Hp Hf) as (n & Hn & Hok). destruct Hacls as [->|(_ & m & ->)].
    - destruct (getmode_value i _ n Hn) as (m & -> & _). eauto.
    - destruct (setmode_ok i m (fs_acls s) n Hn Hok) as (n' & -> & _).
      destruct (getmode_value i (<[(i, POSIX_ACL_ACCESS) := n']> (fs_acls s)) n') as (m' & -> & _); [by rewrite lookup_insert_eq|eauto]. }
  destruct (fn_aclpermflag p) eqn:Hf.
  - destruct Hget as [m Hm]; [done|]. rewrite Hm. cbn [mbind option_bind]. eexists. split; [done|].
    rewrite <-Hf. eapply SetattrOk; rewrite ?Hf, ?Hm; eauto.
  - cbn [mbind option_bind]. eexists. split; [done|]. rewrite <-Hf. eapply SetattrOk; rewrite ?Hf; done.
Qed.

(** Replacing a node by one of the same flags and shape, and its list by a well-formed
    one. *)
Lemma put_fs_inv i p p' acls s :
  fs_inv s → fs_nodes s !! i = Some p → shape p' = shape p → (∀ t, acl_flag t p' = acl_flag t p) →
  0 ≤ fn_mode p' ≤ 0xFFF →
  (acls = fs_acls s ∨ fn_aclpermflag p = true ∧ ∃ m, acls = posix_acl_setmode i m (fs_acls s)) →
  fs_inv (put_node i p' (put_acls acls s)).
Proof.
  intros Hinv Hp Hsh Hfl Hm Hacls.
  assert (fs_inv (put_acls acls s)) as Hinv'.
  { destruct Hacls as [->|(Hf & m & ->)]; [by destruct s|]. destruct (perm_list s i p Hinv Hp Hf) as (n & Hn & Hok).
    destruct (setmode_ok i m _ n Hn Hok) as (n' & -> & Hok'). destruct Hinv as [H1 H2 H3].
    split; [done|done|]. apply put_acl_inv; eauto. }
  assert (put_node i p' (put_acls acls s) = update_node i (λ q, if decide (q = p) then p' else q) (put_acls acls s)) as ->.
  { unfold update_node. cbn [fs_nodes put_acls]. rewrite Hp. by rewrite decide_True. }
  apply update_fs_inv; [done|..]; intros; case_decide; subst; auto.
Qed.

(** A request to change attributes is safe: on a well-formed state
    [fs_setattr] ends without a fault, whatever it is asked, it leaves a well-formed
    state, and a request that is refused changes nothing and logs nothing. *)
Theorem fs_setattr_safe ts rootinode sesflags inode opened uid gid setmask attrmode attruid attrgid attratime attrmtime
    winattr sugidclearmode s :
  fs_inv s →
  ∃ status s' e, fs_setattr ts rootinode sesflags inode opened uid gid setmask attrmode attruid attrgid attratime attrmtime
      winattr sugidclearmode s = Some (status, s', e) ∧
    fs_inv s' ∧ (status ≠ MFS_STATUS_OK → s' = s ∧ e = None).
Proof.
  intros Hinv. destruct (setattr_cases ts rootinode sesflags inode opened uid gid setmask attrmode attruid attrgid attratime
    attrmtime winattr sugidclearmode s Hinv) as (out & -> & Hcase).
  inversion Hcase as [st Hst|i p mode puid pgid atime mtime wa acls aclmode _ Hp Hacls Haclmode Hget]; subst out.
  - by exists st, s, None.
  - do 3 eexists. split; [done|]. split; [|done]. eapply put_fs_inv; [done|done|done|done| |done].
    cbn [fn_mode]. pose proof (u12_range mode). lia.
Qed.

Lemma fs_setattr_safe_witness :
  let run := fs_setattr 100 1 0 7 false 9 [9] SET_MODE_FLAG 0x180 0 0 0 0 0 0 (mk_fs example_nodes ∅) in
  match run with
  | Some (status, s', e) => status = MFS_STATUS_OK ∧ fn_mode <$> fs_nodes s' !! 7 = Some 0x180 ∧ fs_inv s'
  | None => False
  end.
Proof.
  intros run. subst run.
  destruct (fs_setattr_safe 100 1 0 7 false 9 [9] SET_MODE_FLAG 0x180 0 0 0 0 0 0 (mk_fs example_nodes ∅) example_inv)
    as (st & s' & e & Hrun & Hinv & _).
  rewrite Hrun. vm_compute in Hrun. injection Hrun as <- <- _. split; [reflexivity|]. split; [reflexivity|exact Hinv].
Defined.

(** What [fs_setattr] logs is what it did: replaying the [ATTR] entry of
    a granted request on the state before it succeeds and gives the very state the
    request left, the rights in the access list of the node included. *)
Theorem fs_setattr_replay bld ts rootinode sesflags inode opened uid gid setmask attrmode attruid attrgid attratime attrmtime
    winattr sugidclearmode s status s' e :
  fs_inv s →
  fs_setattr ts rootinode sesflags inode opened uid gid setmask attrmode attruid attrgid attratime attrmtime winattr
    sugidclearmode s = Some (status, s', Some e) →
  replay_fs bld e s = Some (MFS_STATUS_OK, s').
Proof.
  intros Hinv Hrun. destruct (setattr_cases ts rootinode sesflags inode opened uid gid setmask attrmode attruid attrgid
    attratime attrmtime winattr sugidclearmode s Hinv) as (out & Hout & Hcase). rewrite Hrun in Hout. injection Hout as <-.
  inversion Hcase as [|i p mode puid pgid atime mtime wa acls aclmode _ Hp Hacls Haclmode Hget]; subst status s' e.
  cbn [replay_fs]. unfold fs_mr_attr. rewrite Hp. pose proof (u12_range mode).
  destruct (Z.ltb_spec 0xFFF (u12 mode)); [lia|]. rewrite u12_idem. do 4 f_equal.
  destruct (fn_aclpermflag p) eqn:Hf; [|naive_solver].
  destruct (perm_list s i p Hinv Hp Hf) as (n & Hn & Hok). destruct Hget as [m Hm]; [done|].
  rewrite Hm in Haclmode. change (default 0 (Some m)) with m in Haclmode. subst aclmode.
  assert (posix_acl_setmode i (logged_aclmode m) (fs_acls s) = acls) as Hset by (apply (setmode_logged i _ _ n); naive_solver).
  assert (∃ n', acls !! (i, POSIX_ACL_ACCESS) = Some n') as [n' Hn'].
  { rewrite <-Hset. destruct (setmode_ok i (logged_aclmode m) _ n Hn Hok) as (n' & -> & _). exists n'. by rewrite lookup_insert_eq. }
  destruct (getmode_value i acls n' Hn') as (m' & Hm' & _ & _ & _ & _ & Hbit). assert (m' = m) as -> by congruence.
  destruct (Z.eqb_spec (Z.land (logged_aclmode m) (Z.shiftl 1 12)) 0); [done|]. done.
Qed.

(** The owner of a file with a list takes the execute right from everybody. *)
Definition example_listed : fs :=
  mk_fs (<[7 := set_aclpermflag true (example_file [Some 6])]> example_nodes)
    {[(7, POSIX_ACL_ACCESS) := make_node example_rights [mk_acl_entry 30 6]]}.

Lemma example_listed_inv : fs_inv example_listed.
Proof.
  assert (fs_inv (install 7 POSIX_ACL_ACCESS (make_node example_rights [mk_acl_entry 30 6]) (mk_fs example_nodes ∅))) as H.
  { apply install_fs_inv; [exact example_inv| |by left|by eexists]. apply make_node_ok; [apply example_request|done|].
    repeat constructor; cbn; unfold is_u32, is_u16; lia. }
  exact H.
Qed.

Lemma fs_setattr_replay_witness :
  match fs_setattr 100 1 0 7 false 9 [9] SET_MODE_FLAG 0x1A4 0 0 0 0 0 0 example_listed with
  | Some (_, s', Some e) => replay_fs Portable e example_listed = Some (MFS_STATUS_OK, s')
  | _ => False
  end.
Proof.
  destruct (fs_setattr 100 1 0 7 false 9 [9] SET_MODE_FLAG 0x1A4 0 0 0 0 0 0 example_listed) as [[[st s'] [e|]]|] eqn:Hrun.
  - exact (fs_setattr_replay Portable 100 1 0 7 false 9 [9] SET_MODE_FLAG 0x1A4 0 0 0 0 0 0 example_listed st s' e
      example_listed_inv Hrun).
  - vm_compute in Hrun. discriminate.
  - vm_compute in Hrun. discriminate.
Defined.

(** Only the owner changes the owner's attributes. When a request of a
    user other than the superuser, on a node that has an owner of its own (no
    [EATTR_NOOWNER]) and of another user, is granted, it sets neither the mode, the
    owner, the group nor an explicit time, but for one case: a write that clears the
    set-id bits and changes nothing else of the mode.  And a user never gives a node
    away: whatever the node, a request that sets the owner is granted to an ordinary
    user for his own identifier only. *)
Theorem fs_setattr_owner_only ts sesflags inode opened uid gid setmask attrmode attruid attrgid attratime attrmtime
    winattr sugidclearmode s s' e p :
  fs_nodes s !! inode = Some p → uid ≠ 0 →
  fs_setattr ts MFS_ROOT_ID sesflags inode opened uid gid setmask attrmode attruid attrgid attratime attrmtime winattr
    sugidclearmode s = Some (MFS_STATUS_OK, s', e) →
  let clears_sugid := setmask = SET_MODE_FLAG ∧ attrmode = Z.land (fn_mode p) 0x3FF ∧ Z.land (fn_mode p) 0xC00 ≠ 0 in
  (uid ≠ fn_uid p → flag (fn_eattr p) EATTR_NOOWNER = false →
   flag setmask (Z.lor (Z.lor (Z.lor (Z.lor SET_MODE_FLAG SET_UID_FLAG) SET_GID_FLAG) SET_ATIME_FLAG) SET_MTIME_FLAG) = false
   ∨ clears_sugid) ∧
  (flag setmask SET_UID_FLAG = true → attruid = uid).
Proof.
  intros Hp Huid Hrun clears. unfold fs_setattr in Hrun. case_if_in Hrun; [discriminate|].
  rewrite (find_ext_root_Some _ _ _ _ p Hp) in Hrun. cbn [mbind option_bind] in Hrun. rewrite Hp in Hrun. cbn [mbind option_bind] in Hrun.
  case_if_in Hrun; [discriminate|]. destruct (setattr_denied _ _ _ _ _ _ _ _ _ _) as [[d|]|] eqn:Hd; [|clear Hrun|discriminate].
  { cbn in Hrun. injection Hrun as -> _ _. unfold setattr_denied in Hd.
    case_if_in Hd; [discriminate|]. case_if_in Hd; [discriminate|].
    apply bind_Some in Hd as (o & Ho & Hd). destruct o as [e'|].
    - repeat case_if_in Ho; try discriminate; try (injection Ho as <-; injection Hd as Hd; discriminate).
      apply bind_Some in Ho as (b & _ & Ho). destruct b; injection Ho; [discriminate|]. intros <-. injection Hd. discriminate.
    - repeat case_if_in Hd; discriminate. }
  unfold setattr_denied in Hd. destruct (Z.eqb_spec uid 0); [done|]. cbn [negb andb] in Hd.
  case_if_in Hd.
  { assert (clears) as Hc by (unfold clears; zbool; tauto). split; [by right|]. destruct Hc as (-> & _). discriminate. }
  case_if_in Hd; [discriminate|]. apply bind_Some in Hd as (o & Ho & Hd). split.
  - intros Hne Hno. left. rewrite Hno in Ho. cbn [negb] in Ho. destruct (Z.eqb_spec uid (fn_uid p)); [done|].
    cbn [negb andb] in Ho. case_if_in Ho; [|done]. injection Ho as <-. discriminate.
  - intros Hset. destruct o; [discriminate|]. rewrite Hset in Hd. destruct (Z.eqb_spec uid attruid); [done|]. discriminate.
Qed.

(** The user 8 sets the times of a directory of the superuser he can write in to the
    present. *)
Lemma fs_setattr_owner_only_witness :
  let s := mk_fs example_nodes ∅ in
  let setmask := Z.lor SET_ATIME_NOW_FLAG SET_MTIME_NOW_FLAG in
  ∃ s' e, fs_setattr 100 1 0 5 false 8 [8] setmask 0 0 0 0 0 0 0 s = Some (MFS_STATUS_OK, s', e) ∧
    (flag setmask (Z.lor (Z.lor (Z.lor (Z.lor SET_MODE_FLAG SET_UID_FLAG) SET_GID_FLAG) SET_ATIME_FLAG) SET_MTIME_FLAG) = false
     ∨ setmask = SET_MODE_FLAG ∧ 0 = Z.land 0x1FF 0x3FF ∧ Z.land 0x1FF 0xC00 ≠ 0).
Proof.
  intros s setmask. destruct (fs_setattr 100 1 0 5 false 8 [8] setmask 0 0 0 0 0 0 0 s) as [[[st s'] e]|] eqn:Hrun.
  - pose proof Hrun as Hrun'. vm_compute in Hrun'. assert (st = MFS_STATUS_OK) as -> by (injection Hrun' as <- _ _; reflexivity).
    exists s', e. split; [reflexivity|].
    refine (proj1 (fs_setattr_owner_only 100 0 5 false 8 [8] setmask 0 0 0 0 0 0 0 s s' e (example_dir [Some 1]) eq_refl _ Hrun) _ _);
      cbn; try lia; reflexivity.
  - vm_compute in Hrun. discriminate.
Defined.

(** ** Comparing a list with a request *)

Lemma count_equal_ok e tab j n c :
  (j + n ≤ length tab)%nat → NoDup (take n (drop j tab)) → 0 ≤ c < 0xFFFF →
  count_equal e tab j n c = Some (if decide (e ∈ take n (drop j tab)) then c + 1 else c).
Proof.
  revert j c. induction n as [|n IH]; intros j c Hle Hnd Hc; cbn [count_equal]; [done|].
  destruct (lookup_lt_is_Some_2 tab j) as [e' He']; [lia|]. rewrite He', (drop_S _ _ _ He') in *. cbn [mbind option_bind take] in *.
  apply NoDup_cons in Hnd as [Hni Hnd].
  assert ((ae_id e' =? ae_id e) && (ae_perm e' =? ae_perm e) = bool_decide (e' = e)) as ->.
  { destruct e as [i p], e' as [i' p']; cbn. destruct (Z.eqb_spec i' i), (Z.eqb_spec p' p); cbn; symmetry;
      rewrite ?bool_decide_eq_true, ?bool_decide_eq_false; congruence. }
  case_bool_decide as Heq.
  - subst e'. rewrite (decide_True (P := e ∈ e :: _)) by (by left). unfold u16. rewrite Z.mod_small by lia.
    assert (∀ j c', (j + n ≤ length tab)%nat → e ∉ take n (drop j tab) → count_equal e tab j n c' = Some c') as Hrest.
    { clear. induction n as [|n IH]; intros j c' Hle Hni; cbn [count_equal]; [done|].
      destruct (lookup_lt_is_Some_2 tab j) as [e' He']; [lia|]. rewrite He', (drop_S _ _ _ He') in *.
      cbn [mbind option_bind take] in *. apply not_elem_of_cons in Hni as [Hne Hni].
      destruct (Z.eqb_spec (ae_id e') (ae_id e)), (Z.eqb_spec (ae_perm e') (ae_perm e)); cbn [andb]; try (apply IH; [lia|done]).
      destruct e, e'; cbn in *; congruence. }
    apply Hrest; [lia|done].
  - rewrite IH by (done || lia). f_equal. apply decide_ext. rewrite elem_of_cons. naive_solver.
Qed.

Lemma check_entries_ok bld es rest tab j n c :
  Forall entry_ok es → (j + n ≤ length tab)%nat → NoDup (take n (drop j tab)) → 0 ≤ c → c + Z.of_nat (length es) < 2 ^ 16 →
  check_entries bld (length es) (concat (put_entry bld <$> es) ++ rest) tab j n c =
    Some (c + Z.of_nat (length (filter (λ e, e ∈ take n (drop j tab)) es)), rest).
Proof.
  intros Hok Hle Hnd. revert c. induction Hok as [|e es He _ IH]; intros c Hc Hsum.
  { cbn. by rewrite Z.add_0_r. }
  cbn [length check_entries]. rewrite fmap_cons. cbn [concat]. rewrite <-app_assoc, get_put_entry by done.
  cbn [length] in Hsum. rewrite count_equal_ok by (done || lia). cbn [mbind option_bind].
  assert (mk_acl_entry (ae_id e) (ae_perm e) = e) as -> by (by destruct e).
  rewrite IH by (case_decide; lia). rewrite filter_cons. case_decide; cbn [length]; do 2 f_equal; lia.
Qed.

(** All of [es] is in [seg], which is as long. *)
Lemma all_found es seg :
  NoDup es → length es = length seg → length (filter (λ e, e ∈ seg) es) = length es ↔ es ≡ₚ (seg : list acl_entry).
Proof.
  intros Hnd Hlen. split.
  - intros Hf. apply submseteq_length_Permutation; [|lia]. apply NoDup_submseteq; [done|]. intros e He.
    destruct (decide (e ∈ seg)) as [|Hni]; [done|].
    pose proof (length_filter_lt (λ e, e ∈ seg) es e He Hni). lia.
  - intros Hp. assert (∀ l : list acl_entry, (∀ e, e ∈ l → e ∈ seg) → filter (λ e, e ∈ seg) l = l) as Hall.
    { induction l as [|e l IH]; intros Hin; [done|]. rewrite filter_cons, decide_True by (apply Hin; by left).
      f_equal. apply IH. intros e' He'. apply Hin. by right. }
    f_equal. apply Hall. intros e He. by rewrite <-Hp.
Qed.

(** [posix_acl_check] decides whether a request asks for the list that is
    there, its entries in any order, when no entry is repeated. For a well-formed list,
    and a request with [users] and [groups] for entries, each without repetitions on
    both sides and fewer than 65536 in all, the answer is 1 exactly when the six fields
    are those of the list, the users are its users and the groups its groups up to
    order. *)
Theorem posix_acl_check_spec bld inode acltype r users groups acls acn :
  acls !! (inode, acltype) = Some acn → acl_ok acn →
  Forall entry_ok users → Forall entry_ok groups → rights_ok r →
  Z.of_nat (length users) = ar_namedusers r → Z.of_nat (length groups) = ar_namedgroups r →
  ar_namedusers r + ar_namedgroups r < 2 ^ 16 →
  NoDup users → NoDup groups →
  let tab_users := take (Z.to_nat (acl_namedusers acn)) (acl_acltab acn) in
  let tab_groups := drop (Z.to_nat (acl_namedusers acn)) (acl_acltab acn) in
  NoDup tab_users → NoDup tab_groups →
  ∃ res, posix_acl_check bld inode acltype r (concat (put_entry bld <$> users) ++ concat (put_entry bld <$> groups)) acls = Some res ∧
    (res = 1 ↔ r = node_rights acn ∧ users ≡ₚ tab_users ∧ groups ≡ₚ tab_groups).
Proof.
  intros Hacn [Hro Hcount _] Hu Hg Hr Hlu Hlg Hsum Hndu Hndg tab_users tab_groups Htu Htg.
  unfold posix_acl_check, posix_acl_find. rewrite Hacn.
  destruct (negb _ || negb _ || negb _ || negb _ || negb _ || negb _) eqn:Hne.
  { exists 0. split; [done|]. split; [done|]. intros (-> & _). cbn in Hne. by rewrite !Z.eqb_refl in Hne. }
  repeat (apply orb_false_elim in Hne as [Hne ?]). zbool.
  assert (r = node_rights acn) as Heq by (clear -Hne H H0 H1 H2 H3; destruct r; unfold node_rights; cbn in *; congruence). clear -Hcount Hro Heq Hu Hg Hlu Hlg Hsum Hndu Hndg Htu Htg.
  assert (ar_namedusers r = acl_namedusers acn ∧ ar_namedgroups r = acl_namedgroups acn) as [Hnu Hng] by (subst; done).
  assert (length users = Z.to_nat (ar_namedusers r) ∧ length groups = Z.to_nat (ar_namedgroups r)) as [Hlu' Hlg'] by lia.
  unfold acls_count in Hcount. destruct Hro as (_ & _ & _ & _ & [Hu0 _] & [Hg0 _]). cbn in Hu0, Hg0.
  assert (length tab_users = length users) as Hltu by (unfold tab_users; rewrite length_take; lia).
  assert (length tab_groups = length groups) as Hltg by (unfold tab_groups; rewrite length_drop; lia).
  assert (take (length users) (drop 0 (acl_acltab acn)) = tab_users) as Etu by (unfold tab_users; rewrite drop_0; f_equal; lia).
  assert (take (length groups) (drop (length users) (acl_acltab acn)) = tab_groups) as Etg.
  { unfold tab_groups. rewrite Hlu', Hnu. apply take_ge. rewrite length_drop. lia. }
  rewrite <-Hlu', <-Hlg'. rewrite check_entries_ok; [|done|lia|by rewrite Etu|lia|lia].
  rewrite Etu. cbn [mbind option_bind]. rewrite <-(app_nil_r (concat (put_entry bld <$> groups))).
  pose proof (length_filter (λ e, e ∈ tab_users) users) as Hfu. pose proof (length_filter (λ e, e ∈ tab_groups) groups) as Hfg.
  rewrite check_entries_ok; [|done|lia|by rewrite Etg|lia|lia]. rewrite Etg. cbn [mbind option_bind].
  eexists. split; [done|]. rewrite <-(all_found users tab_users) by done. rewrite <-(all_found groups tab_groups) by done.
  case_if; [|split; [done|lia]]. split; [|done]. intros _. split; [done|]. lia.
Qed.

Lemma posix_acl_check_spec_witness :
  let acn := mk_acl_node 6 4 0 7 2 0 [mk_acl_entry 30 6; mk_acl_entry 31 4] in
  ∃ res, posix_acl_check FastLE 7 POSIX_ACL_ACCESS (node_rights acn)
      (concat (put_entry FastLE <$> [mk_acl_entry 31 4; mk_acl_entry 30 6]) ++ concat (put_entry FastLE <$> []))
      {[(7, POSIX_ACL_ACCESS) := acn]} = Some res ∧ res = 1.
Proof.
  intros acn.
  destruct (posix_acl_check_spec FastLE 7 POSIX_ACL_ACCESS (node_rights acn) [mk_acl_entry 31 4; mk_acl_entry 30 6] []
    {[(7, POSIX_ACL_ACCESS) := acn]} acn) as (res & Hres & Hiff).
  - reflexivity.
  - split; [unfold rights_ok, is_u16; cbn; lia|reflexivity|]. repeat constructor; cbn; unfold is_u32, is_u16; lia.
  - repeat constructor; cbn; unfold is_u32, is_u16; lia.
  - constructor.
  - unfold rights_ok, is_u16; cbn; lia.
  - reflexivity.
  - reflexivity.
  - cbn; lia.
  - apply (bool_decide_unpack _). vm_compute. exact I.
  - constructor.
  - apply (bool_decide_unpack _). vm_compute. exact I.
  - constructor.
  - exists res. split; [exact Hres|]. apply Hiff. split; [reflexivity|]. split; [|reflexivity]. apply Permutation_swap.
Defined.

(** With repeated entries [posix_acl_check] takes different lists for
    equal. It adds up, over the entries of the request, how many entries of the list
    equal each: a list that names the user 30 twice and a request that names 30 and 31
    give two, the number of entries, so the request is taken for the list that is there,
    though the user 31 has no right in it. *)
Theorem posix_acl_check_repeated :
  let acn := mk_acl_node 6 4 0 7 2 0 [mk_acl_entry 30 6; mk_acl_entry 30 6] in
  acl_ok acn ∧
  posix_acl_check FastLE 7 POSIX_ACL_ACCESS (node_rights acn)
    (concat (put_entry FastLE <$> [mk_acl_entry 30 6; mk_acl_entry 31 4])) {[(7, POSIX_ACL_ACCESS) := acn]} = Some 1.
Proof.
  split; [|reflexivity]. split; [unfold rights_ok, is_u16; cbn; lia|reflexivity|].
  repeat constructor; cbn; unfold is_u32, is_u16; lia.
Qed.

(** ** Inherited lists *)

(** All triples of three-bit fields. *)
Lemma fields_ok (f : Z → Z → Z → bool) u g o :
  forallb (λ u, forallb (λ g, forallb (λ o, f (Z.of_nat u) (Z.of_nat g) (Z.of_nat o)) (seq 0 8)) (seq 0 8)) (seq 0 8) = true →
  0 ≤ u ≤ 7 → 0 ≤ g ≤ 7 → 0 ≤ o ≤ 7 → f u g o = true.
Proof.
  intros H Hu Hg Ho.
  rewrite forallb_forall in H. specialize (H (Z.to_nat u) ltac:(apply in_seq; lia)).
  rewrite forallb_forall in H. specialize (H (Z.to_nat g) ltac:(apply in_seq; lia)).
  rewrite forallb_forall in H. specialize (H (Z.to_nat o) ltac:(apply in_seq; lia)).
  by rewrite !Z2Nat.id in H by lia.
Qed.

(** The fields of a mode made of three fields, with the bits [x] above. *)
Definition three (x u g o : Z) : Z := Z.lor (Z.lor (Z.lor x (Z.shiftl u 6)) (Z.shiftl g 3)) o.

Definition fields_of (m : Z) : Z * Z * Z := (Z.land (Z.shiftr m 6) 7, Z.land (Z.shiftr m 3) 7, Z.land m 7).

Definition three_ok (x u g o : Z) : bool :=
  bool_decide (fields_of (three x u g o) = (u, g, o)) && (Z.land (three x u g o) 0xFE00 =? x).

Lemma three_fields x u g o :
  (x = 0 ∨ x = 0xFE00) → 0 ≤ u ≤ 7 → 0 ≤ g ≤ 7 → 0 ≤ o ≤ 7 →
  fields_of (three x u g o) = (u, g, o) ∧ Z.land (three x u g o) 0xFE00 = x.
Proof.
  intros Hx Hu Hg Ho.
  assert (three_ok x u g o = true) as H.
  { destruct Hx as [->| ->]; apply (fields_ok (three_ok _)); try done; vm_compute; reflexivity. }
  apply andb_prop in H as [H1 H2]. apply bool_decide_eq_true in H1. by apply Z.eqb_eq in H2.
Qed.

Lemma fields_range m : 0 ≤ Z.land m 7 ≤ 7.
Proof. pose proof (land7 m). lia. Qed.

(** The mode cut by a mask. *)
Lemma fields_land m k u g o :
  fields_of k = (u, g, o) →
  fields_of (Z.land m k) = (Z.land (Z.land (Z.shiftr m 6) 7) u, Z.land (Z.land (Z.shiftr m 3) 7) g, Z.land (Z.land m 7) o).
Proof.
  unfold fields_of. intros [= <- <- <-].
  assert (∀ x y, Z.land (Z.land x y) 7 = Z.land (Z.land x 7) (Z.land y 7)) as H.
  { intros x y. apply Z.bits_inj'. intros n _. rewrite !Z.land_spec. by destruct (Z.testbit x n), (Z.testbit y n), (Z.testbit 7 n). }
  by rewrite !Z.shiftr_land, !H.
Qed.

(** The mode with its low fields replaced. *)
Lemma fields_replace m u g o :
  0 ≤ u ≤ 7 → 0 ≤ g ≤ 7 → 0 ≤ o ≤ 7 →
  fields_of (three (Z.land m 0xFE00) u g o) = (u, g, o) ∧ Z.land (three (Z.land m 0xFE00) u g o) 0xFE00 = Z.land m 0xFE00.
Proof.
  intros Hu Hg Ho. destruct (three_fields 0 u g o (or_introl eq_refl) Hu Hg Ho) as [Hf H0].
  assert (three (Z.land m 0xFE00) u g o = Z.lor (Z.land m 0xFE00) (three 0 u g o)) as ->.
  { unfold three. rewrite Z.lor_0_l. by rewrite !Z.lor_assoc. }
  split.
  - rewrite <-Hf. unfold fields_of. rewrite !Z.shiftr_lor, !Z.land_lor_distr_l, !Z.shiftr_land, <-!Z.land_assoc.
    change (Z.land (Z.shiftr 0xFE00 6) 7) with 0. change (Z.land (Z.shiftr 0xFE00 3) 7) with 0. change (Z.land 0xFE00 7) with 0.
    by rewrite !Z.land_0_r, !Z.lor_0_l.
  - rewrite Z.land_lor_distr_l, H0, Z.lor_0_r, <-Z.land_assoc. done.
Qed.

(** The mode and the list of a new node, when the default of the parent is not simple. *)
Definition inherited (pacn : acl_node) (mode : Z) : acl_node :=
  mk_acl_node (Z.land (Z.land (Z.shiftr mode 6) 7) (acl_userperm pacn)) (acl_groupperm pacn)
    (Z.land (Z.land mode 7) (acl_otherperm pacn)) (Z.land (Z.land (Z.shiftr mode 3) 7) (acl_mask pacn))
    (acl_namedusers pacn) (acl_namedgroups pacn) (acl_acltab pacn).

(** A new node inherits the default list of its directory. For a node that has
    no list yet, [posix_acl_copydefaults] does not fault; when there is a default list,
    whatever the mode asked for, the owner and the others are given by the new mode
    exactly the rights that are both asked for and in the default list, and the bits
    above stay; a default that names nobody is folded into the mode, any other makes an
    access list with the entries of the default, the rights of the owner and the others
    cut as in the mode and the mask cut by the group bits asked for; a directory gets
    the default list itself; the result tells which lists were made. *)
Theorem posix_acl_copydefaults_spec parent inode directory mode acls pacn :
  acls !! (parent, POSIX_ACL_DEFAULT) = Some pacn → acl_ok pacn →
  acls !! (inode, POSIX_ACL_ACCESS) = None → acls !! (inode, POSIX_ACL_DEFAULT) = None →
  is_u16 mode →
  ∃ ret mode' acls', posix_acl_copydefaults parent inode directory mode acls = Some (ret, mode', acls') ∧
    Z.land (Z.shiftr mode' 6) 7 = Z.land (Z.land (Z.shiftr mode 6) 7) (acl_userperm pacn) ∧
    Z.land mode' 7 = Z.land (Z.land mode 7) (acl_otherperm pacn) ∧
    Z.land mode' 0xFE00 = Z.land mode 0xFE00 ∧
    ((acls_count pacn = 0%nat ∧ acls' !! (inode, POSIX_ACL_ACCESS) = None ∧ Z.land ret 1 = 0 ∧
      Z.land (Z.shiftr mode' 3) 7 = Z.land (Z.land (Z.shiftr mode 3) 7) (acl_groupperm pacn))
     ∨ (acls' !! (inode, POSIX_ACL_ACCESS) = Some (inherited pacn mode) ∧ Z.land ret 1 = 1)) ∧
    acls' !! (inode, POSIX_ACL_DEFAULT) = (if directory then Some pacn else None) ∧
    Z.land ret 2 = (if directory then 2 else 0) ∧
    (∀ i t, i ≠ inode → acls' !! (i, t) = acls !! (i, t)).
Proof.
  intros Hp Hok Ha Hd Hm. unfold posix_acl_copydefaults, posix_acl_find. rewrite Hp, Ha.
  assert (∀ (ret mode' : Z) (acls' : gmap (Z * Z) acl_node), acls' !! (inode, POSIX_ACL_DEFAULT) = None →
    (if directory then
       let ret' := match acls' !! (inode, POSIX_ACL_DEFAULT) with Some _ => 0 | None => 2 end in
       acn ← copy_table pacn (acl_userperm pacn) (acl_groupperm pacn) (acl_otherperm pacn) (acl_mask pacn);
       Some (Z.lor ret ret', mode', <[(inode, POSIX_ACL_DEFAULT) := acn]> acls')
     else Some (ret, mode', acls')) =
    Some (Z.lor ret (if directory then 2 else 0), mode',
          if directory then <[(inode, POSIX_ACL_DEFAULT) := pacn]> acls' else acls')) as Hdir.
  { intros ret mode' acls' Hn. rewrite Hn. destruct directory; [|by rewrite Z.lor_0_r]. rewrite copy_table_ok by done.
    cbn [mbind option_bind]. by destruct pacn. }
  assert (∀ acls' : gmap (Z * Z) acl_node, acls' !! (inode, POSIX_ACL_DEFAULT) = None →
    (if directory then <[(inode, POSIX_ACL_DEFAULT) := pacn]> acls' else acls') !! (inode, POSIX_ACL_DEFAULT) =
      (if directory then Some pacn else None)) as Hdef.
  { intros acls' Hn. destruct directory; [by rewrite lookup_insert_eq|done]. }
  assert (∀ (acls' : gmap (Z * Z) acl_node) k, k ≠ (inode, POSIX_ACL_DEFAULT) →
    (if directory then <[(inode, POSIX_ACL_DEFAULT) := pacn]> acls' else acls') !! k = acls' !! k) as Hoth.
  { intros acls' k Hk. destruct directory; [by rewrite lookup_insert_ne|done]. }
  pose proof Hok as [((Hu & _) & (Hg & _) & (Ho & _) & _) _ _]. cbn in Hu, Hg, Ho.
  destruct ((acls_count pacn =? 0)%nat && _ && _ && _ && _) eqn:Hsimple; cbn [mbind option_bind].
  - rewrite Hdir by done. repeat (apply andb_prop in Hsimple as [Hsimple ?]). zbool. apply Nat.eqb_eq in Hsimple.
    fold (three 0xFE00 (acl_userperm pacn) (acl_groupperm pacn) (acl_otherperm pacn)).
    destruct (three_fields 0xFE00 (acl_userperm pacn) (acl_groupperm pacn) (acl_otherperm pacn)) as [Hf Hh]; [by right|lia..|].
    pose proof (fields_land mode _ _ _ _ Hf) as Hf'. unfold fields_of in Hf'. injection Hf' as F1 F2 F3.
    do 3 eexists. split; [done|]. split; [exact F1|]. split; [exact F3|]. split; [by rewrite <-Z.land_assoc, Hh|].
    split; [left; rewrite Hoth by done; repeat split; [done..|by destruct directory|exact F2]|].
    split; [by apply Hdef|]. split; [by destruct directory|]. intros i t Hi. apply Hoth. congruence.
  - rewrite (copy_table_ok pacn (Z.land _ _)) by done. cbn [mbind option_bind acl_userperm acl_otherperm acl_mask]. rewrite Hdir by (by rewrite lookup_insert_ne).
    assert (∀ x, set_low3 0 x = Z.land x 7) as Hset by (intros x; unfold set_low3; by rewrite Z.land_0_l, Z.lor_0_l).
    rewrite !Hset. do 3 eexists. split; [done|].
    assert (∀ x y, Z.land (Z.land (Z.land x 7) y) 7 = Z.land (Z.land x 7) y) as H7.
    { intros x y. apply Z.bits_inj'. intros n _. rewrite !Z.land_spec. by destruct (Z.testbit x n), (Z.testbit y n), (Z.testbit 7 n). }
    rewrite !H7. fold (three (Z.land mode 0xFE00) (Z.land (Z.land (Z.shiftr mode 6) 7) (acl_userperm pacn))
      (Z.land (acl_groupperm pacn) 7) (Z.land (Z.land mode 7) (acl_otherperm pacn))).
    edestruct (fields_replace mode (Z.land (Z.land (Z.shiftr mode 6) 7) (acl_userperm pacn))
      (Z.land (acl_groupperm pacn) 7) (Z.land (Z.land mode 7) (acl_otherperm pacn))) as [Hf Hh];
      [rewrite <-H7; apply fields_range|apply fields_range|rewrite <-H7; apply fields_range|].
    unfold fields_of in Hf. injection Hf as F1 F2 F3.
    split; [exact F1|]. split; [exact F3|]. split; [exact Hh|].
    split; [right; rewrite Hoth, lookup_insert_eq by done; split; [done|by destruct directory]|].
    split; [apply Hdef; by rewrite lookup_insert_ne|]. split; [by destruct directory|].
    intros i t Hi. rewrite Hoth by congruence. by rewrite lookup_insert_ne by congruence.
Qed.

Lemma posix_acl_copydefaults_spec_witness :
  let pacn := mk_acl_node 7 5 0 7 0 1 [mk_acl_entry 30 6] in
  ∃ ret mode' acls', posix_acl_copydefaults 1 2 true 0x1ED {[(1, POSIX_ACL_DEFAULT) := pacn]} = Some (ret, mode', acls') ∧
    acls' !! (2, POSIX_ACL_DEFAULT) = Some pacn ∧ Z.land ret 2 = 2.
Proof.
  intros pacn.
  destruct (posix_acl_copydefaults_spec 1 2 true 0x1ED {[(1, POSIX_ACL_DEFAULT) := pacn]} pacn)
    as (ret & mode' & acls' & H & _ & _ & _ & _ & Hd & Hr & _).
  - reflexivity.
  - split; [unfold rights_ok, is_u16; cbn; lia|reflexivity|]. repeat constructor; cbn; unfold is_u32, is_u16; lia.
  - reflexivity.
  - reflexivity.
  - unfold is_u16; lia.
  - exists ret, mode', acls'. split; [exact H|]. split; [exact Hd|exact Hr].
Defined.

(** An access list hides [EATTR_NOOWNER]. A file with that attribute belongs to
    whoever uses it: any user reads a file of mode 0700. Once the file has an access
    list, only the rights of the list count, and the same user is refused. *)
Theorem acl_hides_noowner :
  let node := mk_fsnode 0 0 0 9 9 false false TYPE_FILE 0x1C0 EATTR_NOOWNER 0 [Some 1] in
  let acn := mk_acl_node 7 0 0 7 1 0 [mk_acl_entry 30 4] in
  let acls := {[(7, POSIX_ACL_ACCESS) := acn]} in
  fsnodes_access_ext acls 7 node 8 [8] MODE_MASK_R 0 = Some true ∧
  fsnodes_access_ext acls 7 (set_aclpermflag true node) 8 [8] MODE_MASK_R 0 = Some false.
Proof. split; reflexivity. Qed.
