(* ===== verification/AclImages.v ===== *)
(** * Access control lists in the metadata image (posixacl.c)

    [posix_acl_store] and [posix_acl_load].  The lists are stored in the order of the
    chains of the hash table, which is an argument here.  A section is a list of bytes;
    the entries of a list are read and written in blocks of 100, which leaves the bytes
    stored as they are. *)

From S2P Require Import Prelude MfsComm DataPack FsNodes PosixAcl FsAccess AclFacts.

Section image.
Variable bld : build.

Definition ACL_HDR_SIZE : nat := 17.

Definition acl_header (inode acltype : Z) (acn : acl_node) : list Z :=
  put32bit bld inode ++ put8bit bld acltype ++ put_rights bld (node_rights acn).

Definition store_list (inode acltype : Z) (acn : acl_node) : option (list Z) :=
  tab ← read_entries (acl_acltab acn) 0 (acls_count acn);
  Some (acl_header inode acltype acn ++ concat (put_entry bld <$> tab)).

Fixpoint store_lists (order : list ((Z * Z) * acl_node)) : option (list Z) :=
  match order with
  | [] => Some (replicate ACL_HDR_SIZE 0)
  | ((inode, acltype), acn) :: order =>
      bytes ← store_list inode acltype acn; rest ← store_lists order; Some (bytes ++ rest)
  end.

Definition posix_acl_store (order : list ((Z * Z) * acl_node)) : option (list Z) := store_lists order.

(** The loop over the entries of a list, by blocks; [None] is a short read. *)
Fixpoint load_blocks (fuel n : nat) (input : list Z) : option (list acl_entry * list Z) :=
  match fuel with
  | O => None
  | S fuel =>
      if (n =? 0)%nat then Some ([], input)
      else
        let acbcnt := Nat.min n 100 in
        if (length input <? 6 * acbcnt)%nat then None
        else
          '(es, _) ← get_entries bld acbcnt (take (6 * acbcnt) input);
          '(rest, input) ← load_blocks fuel (n - acbcnt) (drop (6 * acbcnt) input);
          Some (es ++ rest, input)
  end.

Definition get_header (p : list Z) : option (Z * Z * acl_rights) :=
  '(inode, p) ← get32bit bld p; '(acltype, p) ← get8bit bld p;
  '(userperm, p) ← get16bit bld p; '(groupperm, p) ← get16bit bld p; '(otherperm, p) ← get16bit bld p;
  '(mask, p) ← get16bit bld p; '(namedusers, p) ← get16bit bld p; '(namedgroups, _) ← get16bit bld p;
  Some (inode, acltype, mk_acl_rights userperm groupperm otherperm mask namedusers namedgroups).

(** The repair of the lists of an old version, which have no mask. *)
Definition emergency_mask (mver mode : Z) (r : acl_rights) : acl_rights :=
  if (mver =? 0x10) && (ar_mask r =? 0) then
    mk_acl_rights (set_low3 (ar_userperm r) (Z.shiftr mode 6)) (ar_groupperm r) (set_low3 (ar_otherperm r) mode) 7
      (ar_namedusers r) (ar_namedgroups r)
  else r.

(** The loop [while (1)]: status, state, rest of the input. *)
Fixpoint acl_load_loop (fuel : nat) (mver : Z) (ignoreflag : bool) (input : list Z) (s : fs)
    : option (Z * fs * list Z) :=
  match fuel with
  | O => None
  | S fuel =>
      if (length input <? ACL_HDR_SIZE)%nat then Some (-1, s, [])
      else
        '(inode, acltype, r) ← get_header (take ACL_HDR_SIZE input);
        let input := drop ACL_HDR_SIZE input in
        let acls := rights_count r in
        if inode =? 0 then Some (1, s, input)
        else if negb (fs_check_inode inode s) then
          acl_load_loop fuel mver ignoreflag (drop (6 * acls) input) s
        else if negb (acltype =? POSIX_ACL_ACCESS) && negb (acltype =? POSIX_ACL_DEFAULT) then
          if ignoreflag then acl_load_loop fuel mver ignoreflag (drop (6 * acls) input) s
          else Some (-1, s, input)
        else
          match posix_acl_find inode acltype (fs_acls s) with
          | Some _ =>
              if ignoreflag then acl_load_loop fuel mver ignoreflag (drop (6 * acls) input) s
              else Some (-1, s, input)
          | None =>
              let s := put_acls (posix_acl_create inode acltype (fs_acls s)) s in
              let s := fs_set_aclflag inode acltype s in
              let r := emergency_mask mver (fs_get_mode inode s) r in
              match load_blocks (S acls) acls input with
              | None => Some (-1, put_acls (posix_acl_remove inode acltype (fs_acls s)) s, [])
              | Some (tab, input) =>
                  acl_load_loop fuel mver ignoreflag input
                    (put_acls (<[(inode, acltype) := make_node r tab]> (fs_acls s)) s)
              end
          end
  end.

Definition posix_acl_load (mver : Z) (ignoreflag : bool) (input : list Z) (s : fs) : option (Z * fs * list Z) :=
  acl_load_loop (S (length input)) mver ignoreflag input s.

End image.

(** ** What a load reads *)

Section facts.
Variable bld bld' : build.

Lemma put_rights_be r :
  put_rights bld r = be_bytes 2 (ar_userperm r) ++ be_bytes 2 (ar_groupperm r) ++ be_bytes 2 (ar_otherperm r) ++
    be_bytes 2 (ar_mask r) ++ be_bytes 2 (ar_namedusers r) ++ be_bytes 2 (ar_namedgroups r).
Proof. unfold put_rights. by rewrite !put16bit_be. Qed.

Lemma length_acl_header i t n : length (acl_header bld i t n) = ACL_HDR_SIZE.
Proof.
  unfold acl_header. rewrite put_rights_be, put32bit_be, put8bit_be, !length_app, !length_be_bytes. done.
Qed.

Lemma get_put_header i t n :
  is_u32 i → is_u8 t → rights_ok (node_rights n) →
  get_header bld' (acl_header bld i t n) = Some (i, t, node_rights n).
Proof.
  unfold rights_ok, is_u32, is_u8, is_u16. intros Hi Ht (H1 & H2 & H3 & H4 & H5 & H6).
  unfold get_header, acl_header, put_rights.
  rewrite get32_put32. cbn [mbind option_bind]. rewrite get8_put8. cbn [mbind option_bind].
  do 5 (rewrite get16_put16; cbn [mbind option_bind]).
  rewrite <-(app_nil_r (put16bit bld (ar_namedgroups _))), get16_put16. cbn [mbind option_bind].
  rewrite !Z.mod_small by lia. done.
Qed.

Lemma length_entries tab : length (concat (put_entry bld <$> tab)) = (6 * length tab)%nat.
Proof.
  induction tab as [|e tab IH]; [done|]. rewrite fmap_cons. cbn [concat]. rewrite length_app, length_put_entry, IH. simpl. lia.
Qed.

Lemma load_blocks_ok fuel tab rest :
  Forall entry_ok tab → (length tab < fuel)%nat →
  load_blocks bld' fuel (length tab) (concat (put_entry bld <$> tab) ++ rest) = Some (tab, rest).
Proof.
  revert tab. induction fuel as [|fuel IH]; intros tab Hok Hlt; [lia|]. cbn [load_blocks].
  destruct tab as [|e tab0] eqn:Htab; [done|]. rewrite <-Htab in *.
  assert (length tab ≠ 0%nat) as Hne by (by rewrite Htab). destruct (Nat.eqb_spec (length tab) 0); [done|].
  set (b := Nat.min (length tab) 100). assert (b ≤ length tab ∧ 0 < b)%nat as [Hb Hb0] by lia.
  assert (concat (put_entry bld <$> tab) ++ rest =
    concat (put_entry bld <$> take b tab) ++ (concat (put_entry bld <$> drop b tab) ++ rest)) as Hsplit.
  { rewrite app_assoc, <-concat_app, <-fmap_app, take_drop. done. }
  rewrite Hsplit. pose proof (length_entries (take b tab)) as Hl. rewrite length_take, Nat.min_l in Hl by lia.
  rewrite (proj2 (Nat.ltb_ge _ _)) by (rewrite length_app, Hl; lia).
  rewrite take_app_length' by done. rewrite drop_app_length' by done.
  rewrite <-(app_nil_r (concat (put_entry bld <$> take b tab))).
  assert (length (take b tab) = b) as Hlb by (rewrite length_take; lia). rewrite <-Hlb at 1.
  rewrite get_put_entries by (by apply Forall_take). cbn [mbind option_bind].
  replace (length tab - b)%nat with (length (drop b tab)) by (by rewrite length_drop).
  rewrite IH by (try apply Forall_drop; rewrite ?length_drop; done || lia). cbn [mbind option_bind]. by rewrite take_drop.
Qed.

(** A list that is stored is one that can be loaded. *)
Definition storable (s : fs) (k : (Z * Z) * acl_node) : Prop :=
  is_u32 k.1.1 ∧ k.1.1 ≠ 0 ∧ known_type k.1.2 ∧ acl_ok k.2 ∧ is_Some (fs_nodes s !! k.1.1).

(** The lists installed one after the other. *)
Definition install_all (l : list ((Z * Z) * acl_node)) (s : fs) : fs :=
  foldl (λ s k, install k.1.1 k.1.2 k.2 s) s l.

Lemma install_nodes i t n s j : is_Some (fs_nodes (install i t n s) !! j) ↔ is_Some (fs_nodes s !! j).
Proof.
  unfold install. cbn [put_acls fs_nodes]. rewrite update_node_lookup. case_decide; [|done].
  subst. destruct (fs_nodes s !! i); simpl; split; intros []; try done; eauto.
Qed.

(** One turn of the loop. *)
Lemma load_turn fuel mver ignoreflag k rest s :
  storable s k → fs_acls s !! k.1 = None → mver ≠ 0x10 →
  ∃ bytes, store_list bld k.1.1 k.1.2 k.2 = Some bytes ∧
    acl_load_loop bld' (S fuel) mver ignoreflag (bytes ++ rest) s =
      acl_load_loop bld' fuel mver ignoreflag rest (install k.1.1 k.1.2 k.2 s).
Proof.
  destruct k as [[i t] n]. intros (Hi & Hi0 & Ht & Hok & [p Hp]) Hno Hver. cbn [fst snd] in *.
  unfold store_list. rewrite read_all by apply Hok. cbn [mbind option_bind]. eexists. split; [done|].
  cbn [acl_load_loop]. rewrite <-app_assoc.
  assert (length (acl_header bld i t n) = ACL_HDR_SIZE) as Hl by apply length_acl_header.
  rewrite (proj2 (Nat.ltb_ge _ _)) by (rewrite length_app, Hl; lia).
  rewrite take_app_length', drop_app_length' by done.
  assert (is_u8 t) as Ht8 by (destruct Ht as [->| ->]; unfold is_u8, POSIX_ACL_ACCESS, POSIX_ACL_DEFAULT; lia).
  rewrite get_put_header by (done || apply Hok). cbn [mbind option_bind].
  destruct (Z.eqb_spec i 0); [done|]. unfold fs_check_inode. rewrite Hp. rewrite bool_decide_eq_true_2 by eauto. cbn [negb].
  assert (negb (t =? POSIX_ACL_ACCESS) && negb (t =? POSIX_ACL_DEFAULT) = false) as -> by (by destruct Ht as [->| ->]).
  unfold posix_acl_find. rewrite Hno.
  assert (rights_count (node_rights n) = length (acl_acltab n)) as Hc by (symmetry; apply Hok).
  rewrite Hc, load_blocks_ok by (apply Hok || lia). f_equal.
  unfold emergency_mask. destruct (Z.eqb_spec mver 0x10); [done|]. cbn [andb].
  unfold install, fs_set_aclflag, update_node, posix_acl_create. cbn [fs_nodes put_acls]. rewrite Hp.
  unfold put_acls, put_node. cbn [fs_nodes fs_acls]. rewrite insert_insert_eq. by destruct n.
Qed.

Lemma load_all l : ∀ s,
  NoDup l.*1 → Forall (storable s) l → (∀ k, k ∈ l → fs_acls s !! k.1 = None) →
  ∃ bytes, posix_acl_store bld l = Some bytes ∧ (length l < length bytes)%nat ∧
    ∀ fuel mver ignoreflag rest, mver ≠ 0x10 → (length l < fuel)%nat →
      acl_load_loop bld' fuel mver ignoreflag (bytes ++ rest) s = Some (1, install_all l s, rest).
Proof.
  induction l as [|k l IH]; intros s Hnd Hst Hno.
  { eexists. split; [done|]. split; [cbn; lia|]. intros fuel mver ignoreflag rest _ Hfuel.
    destruct fuel; [cbn in Hfuel; lia|]. by destruct bld'. }
  rewrite fmap_cons in Hnd. apply NoDup_cons in Hnd as [Hni Hnd]. apply Forall_cons in Hst as [Hk Hst].
  destruct (IH (install k.1.1 k.1.2 k.2 s) Hnd) as (bytes' & Hb' & Hlen & Hl').
  { eapply Forall_impl; [exact Hst|]. intros k' (H1 & H2 & H3 & H4 & H5). by rewrite <-install_nodes in H5. }
  { intros k' Hin. unfold install. cbn [put_acls fs_acls]. rewrite lookup_insert_ne.
    - apply Hno. by right.
    - intros Heq. apply Hni. apply list_elem_of_fmap. exists k'. rewrite <-Heq. by destruct k as [[] ?]. }
  assert (fs_acls s !! k.1 = None) as Hk0 by (apply Hno; by left).
  destruct (store_list bld k.1.1 k.1.2 k.2) as [bytes|] eqn:Hb.
  2: { destruct (load_turn 0 0x11 true k [] s Hk Hk0) as (b & ? & _); [done|congruence]. }
  exists (bytes ++ bytes'). split; [|split].
  - destruct k as [[i t] n]. cbn [posix_acl_store store_lists fst snd] in *. unfold posix_acl_store in Hb' |- *.
    cbn [store_lists]. by rewrite Hb, Hb'.
  - unfold store_list in Hb. apply bind_Some in Hb as (tab & _ & [= <-]). rewrite !length_app, length_acl_header.
    unfold ACL_HDR_SIZE. cbn [length]. lia.
  - intros fuel mver ignoreflag rest Hver Hfuel. destruct fuel as [|fuel]; [cbn in Hfuel; lia|].
    destruct (load_turn fuel mver ignoreflag k (bytes' ++ rest) s Hk Hk0 Hver) as (b & Hb2 & Hl).
    assert (b = bytes) as -> by congruence. rewrite <-app_assoc, Hl. apply Hl'; [done|cbn in Hfuel; lia].
Qed.

End facts.

(** ** The state a load gives back *)

Definition clear_flags (p : fsnode) : fsnode := set_aclpermflag false (set_acldefflag false p).

(** The state before the lists are loaded: the nodes have been loaded, with no flag. *)
Definition unlisted (s : fs) : fs := mk_fs (clear_flags <$> fs_nodes s) ∅.

Lemma fsnode_eq p q :
  clear_flags p = clear_flags q → (∀ t, known_type t → acl_flag t p = acl_flag t q) → p = q.
Proof.
  intros H Hf. assert (fn_aclpermflag p = fn_aclpermflag q) as H1 by exact (Hf POSIX_ACL_ACCESS (or_introl eq_refl)).
  assert (fn_acldefflag p = fn_acldefflag q) as H2 by exact (Hf POSIX_ACL_DEFAULT (or_intror eq_refl)).
  destruct p, q. cbn in H1, H2. unfold clear_flags, set_aclpermflag, set_acldefflag in H. cbn in H. congruence.
Qed.

Lemma clear_set_flag t b p : clear_flags (set_acl_flag t b p) = clear_flags p.
Proof. unfold set_acl_flag. by repeat case_if. Qed.

Lemma install_all_acls l s k n :
  NoDup l.*1 →
  fs_acls (install_all l s) !! k = Some n ↔ ((k, n) ∈ l) ∨ ((k ∉ l.*1) ∧ fs_acls s !! k = Some n).
Proof.
  revert s. induction l as [|k0 l IH]; intros s Hnd; cbn [install_all foldl].
  { rewrite elem_of_nil. split; [intros; right; split; [apply not_elem_of_nil|done]|tauto]. }
  rewrite fmap_cons in Hnd |- *. apply NoDup_cons in Hnd as [Hni Hnd]. fold (install_all l (install k0.1.1 k0.1.2 k0.2 s)).
  rewrite IH by done. rewrite elem_of_cons, not_elem_of_cons. unfold install. cbn [put_acls fs_acls].
  destruct k0 as [[i t] n0]. cbn [fst snd] in *. rewrite lookup_insert_Some.
  split; [|intros [[[= -> ->]|Hin]|[[Hne Hnin] Hl]]].
  - intros [?|[? [[-> ->]|[? ?]]]]; [tauto|tauto|]. right. split; [|done]. split; [congruence|done].
  - right. split; [done|]. by left.
  - by left.
  - right. split; [done|]. right. split; [congruence|done].
Qed.

Lemma install_all_nodes l s i :
  Forall (λ k, known_type k.1.2) l →
  match fs_nodes s !! i, fs_nodes (install_all l s) !! i with
  | Some p, Some p' => clear_flags p' = clear_flags p ∧
      ∀ t, acl_flag t p' = true ↔ (i, t) ∈ l.*1 ∨ acl_flag t p = true
  | None, None => True
  | _, _ => False
  end.
Proof.
  revert s. induction l as [|k0 l IH]; intros s Hty.
  { cbn [install_all foldl]. destruct (fs_nodes s !! i); [|done]. split; [done|]. intros t. rewrite elem_of_nil. tauto. }
  apply Forall_cons in Hty as [Ht Hty]. specialize (IH (install k0.1.1 k0.1.2 k0.2 s) Hty).
  change (install_all (k0 :: l) s) with (install_all l (install k0.1.1 k0.1.2 k0.2 s)).
  destruct k0 as [[j t0] n0]. cbn [fst snd] in *. rewrite fmap_cons. cbn [fst].
  assert (fs_nodes (install j t0 n0 s) !! i = if decide (i = j) then set_acl_flag t0 true <$> fs_nodes s !! i else fs_nodes s !! i) as Hi
    by (unfold install; cbn [put_acls fs_nodes]; apply update_node_lookup).
  rewrite Hi in IH. destruct (fs_nodes s !! i) as [p|].
  2: { by case_decide. }
  case_decide as Hij; cbn in IH; destruct (fs_nodes (install_all _ _) !! i) as [p'|]; try done; destruct IH as [Hc Hf].
  - subst j. split; [by rewrite Hc, clear_set_flag|]. intros t. rewrite Hf, acl_flag_set, elem_of_cons by done.
    case_decide; [subst t; tauto|]. split; [tauto|]. intros [[[= ?]|?]|?]; [done|tauto|tauto].
  - split; [done|]. intros t. rewrite Hf, elem_of_cons. split; [tauto|]. intros [[[= ? ?]|?]|?]; [done|tauto|tauto].
Qed.

(** Installing every list of a well-formed state, in any order, gives the state. *)
Lemma install_all_unlisted s l :
  acl_inv s → l ≡ₚ map_to_list (fs_acls s) → install_all l (unlisted s) = s.
Proof.
  intros Hinv Hperm.
  assert (NoDup l.*1) as Hnd by (rewrite Hperm; apply NoDup_fst_map_to_list).
  assert (∀ k n, (k, n) ∈ l ↔ fs_acls s !! k = Some n) as Hin by (intros k n; by rewrite Hperm, elem_of_map_to_list).
  assert (Forall (λ k : Z * Z * acl_node, known_type k.1.2) l) as Hty.
  { apply Forall_forall. intros [[i t] n] H%Hin. by apply (acl_inv_ok _ Hinv) in H as [_ ?]. }
  assert (fs_acls (install_all l (unlisted s)) = fs_acls s) as Hacls.
  { apply map_eq. intros k. apply option_eq. intros n. rewrite install_all_acls by done. cbn [unlisted fs_acls].
    rewrite lookup_empty, Hin. naive_solver. }
  assert (fs_nodes (install_all l (unlisted s)) = fs_nodes s) as Hnodes.
  { apply map_eq. intros i. pose proof (install_all_nodes l (unlisted s) i Hty) as H.
    assert (fs_nodes (unlisted s) !! i = clear_flags <$> fs_nodes s !! i) as Hu by apply lookup_fmap. rewrite Hu in H.
    destruct (fs_nodes s !! i) as [p|] eqn:Hp, (fs_nodes (install_all l (unlisted s)) !! i) as [p'|] eqn:Hp'; try done.
    destruct H as [Hc Hf]. f_equal. apply fsnode_eq; [by rewrite Hc; destruct p|]. intros t Ht.
    assert (acl_flag t p' = true ↔ acl_flag t p = true) as Hiff; [|by destruct (acl_flag t p'), (acl_flag t p); naive_solver].
    rewrite Hf. assert (acl_flag t (clear_flags p) = false) as -> by (by destruct Ht as [->| ->]).
    rewrite list_elem_of_fmap. split.
    - intros [([k n] & Heq & Hkn%Hin)|?]; [|done]. cbn in Heq. subst k.
      destruct (acl_inv_flag _ Hinv _ _ _ Hkn) as (q & Hq & Hflag). congruence.
    - intros Hflag. destruct (acl_inv_list _ Hinv i t p Hp Hflag) as [n Hn]. left. exists ((i, t), n). split; [done|]. by apply Hin. }
  destruct (install_all l (unlisted s)), s; cbn in *; congruence.
Qed.

(** The inodes of the lists fit their field and are not 0. *)
Definition inodes_ok (s : fs) : Prop := ∀ i t n, fs_acls s !! (i, t) = Some n → is_u32 i ∧ i ≠ 0.

Lemma storable_unlisted s l :
  acl_inv s → inodes_ok s → l ≡ₚ map_to_list (fs_acls s) → Forall (storable (unlisted s)) l.
Proof.
  intros Hinv Hino Hperm. apply Forall_forall. intros [[i t] n] H. rewrite Hperm, elem_of_map_to_list in H.
  destruct (Hino _ _ _ H) as [Hi Hi0]. destruct (acl_inv_ok _ Hinv _ _ _ H) as [Hok Ht].
  destruct (acl_inv_flag _ Hinv _ _ _ H) as (p & Hp & _). unfold storable. cbn [fst snd unlisted fs_nodes].
  rewrite lookup_fmap, Hp. cbn. eauto.
Qed.

(** Access control lists survive the metadata image. The section
    [posix_acl_store] writes for a well-formed state, whatever the order the hash table
    has its lists in, is accepted by [posix_acl_load] of the version that wrote it, in a
    master of any build, and the load gives back the state: every list with its rights
    and entries, however many, and the flags of the nodes; the input is left after the
    section. *)
Theorem acl_image_roundtrip bld bld' s order mver ignoreflag rest :
  fs_inv s → inodes_ok s → order ≡ₚ map_to_list (fs_acls s) → mver ≠ 0x10 →
  ∃ bytes, posix_acl_store bld order = Some bytes ∧
    posix_acl_load bld' mver ignoreflag (bytes ++ rest) (unlisted s) = Some (1, s, rest).
Proof.
  intros Hinv Hino Hperm Hver. pose proof (fs_lists _ Hinv) as Hl.
  destruct (load_all bld bld' order (unlisted s)) as (bytes & Hb & Hlen & Hload).
  - rewrite Hperm. apply NoDup_fst_map_to_list.
  - by apply storable_unlisted.
  - intros k _. apply lookup_empty.
  - exists bytes. split; [done|]. unfold posix_acl_load. rewrite Hload by (done || (rewrite length_app; lia)).
    by rewrite install_all_unlisted.
Qed.

(** A directory with a default list that names a group is stored and loaded. *)
Definition stored_node : acl_node := mk_acl_node 7 5 0 7 0 1 [mk_acl_entry 30 6].
Definition stored_dir (flag : bool) : fsnode := mk_fsnode 0 0 0 0 0 false flag TYPE_DIRECTORY 0x1FF 0 0 [].
Definition stored_fs : fs := mk_fs {[1 := stored_dir true]} {[(1, POSIX_ACL_DEFAULT) := stored_node]}.

Lemma stored_inv : fs_inv stored_fs ∧ inodes_ok stored_fs.
Proof.
  assert (∀ i p, fs_nodes stored_fs !! i = Some p → i = 1 ∧ p = stored_dir true) as Hn.
  { intros i p H. cbn in H. apply lookup_singleton_Some in H as [<- <-]. done. }
  assert (∀ i t n, fs_acls stored_fs !! (i, t) = Some n → i = 1 ∧ t = POSIX_ACL_DEFAULT ∧ n = stored_node) as Ha.
  { intros i t n H. cbn in H. apply lookup_singleton_Some in H as [[= <- <-] <-]. done. }
  split; [split; [split| |split]|].
  - intros p q (n & Hp & Hin). apply Hn in Hp as [-> ->]. by apply elem_of_nil in Hin.
  - intros i p Hp _. apply Hn in Hp as [_ ->]. simpl. lia.
  - intros i H. apply tc_inv_l in H as [(n & Hp & Hin)|(z & (n & Hp & Hin) & _)]; apply Hn in Hp as [-> ->]; by apply elem_of_nil in Hin.
  - intros i p Hp. apply Hn in Hp as [_ ->]. simpl. lia.
  - intros i t n H. apply Ha in H as (-> & -> & ->). split; [|by right]. split; [|done|].
    + unfold rights_ok, is_u16. cbn. lia.
    + repeat constructor; cbn; unfold is_u32, is_u16; lia.
  - intros i t n H. apply Ha in H as (-> & -> & ->). exists (stored_dir true). by split.
  - intros i t p Hp Hf. apply Hn in Hp as [-> ->]. unfold acl_flag in Hf. cbn in Hf. case_if_in Hf; [done|].
    case_if_in Hf; [|done]. subst t. by exists stored_node.
  - intros i t n H. apply Ha in H as (-> & _). unfold is_u32. lia.
Qed.

Lemma acl_image_roundtrip_witness :
  ∃ bytes, posix_acl_store FastLE [((1, POSIX_ACL_DEFAULT), stored_node)] = Some bytes ∧
    posix_acl_load Portable 0x11 false (bytes ++ [42]) (unlisted stored_fs) = Some (1, stored_fs, [42]).
Proof.
  apply (acl_image_roundtrip FastLE Portable stored_fs [((1, POSIX_ACL_DEFAULT), stored_node)] 0x11 false [42]);
    [apply stored_inv|apply stored_inv|unfold stored_fs; cbn [fs_acls]; by rewrite map_to_list_singleton|lia].
Defined.
