(* ===== verification/StorageClass.v ===== *)
(** * Storage classes and patterns (storageclass.c, patterns.c)

    What the file system asks of a storage class: how much space a copy of a file
    takes, and when a file may become archived.  The label expressions, and the
    choice of servers by them, are not here.  [sclasstab] is the table of the classes
    by identifier, as it is during one request. *)

From S2P Require Import Prelude MfsComm.

Record storagemode := mk_storagemode { ec_data_chksum_parts : Z; labelscnt : Z }.

Record storageclass := mk_storageclass {
  sc_keep : storagemode; sc_arch : storagemode; sc_arch_mode : Z; sc_arch_delay : Z; sc_arch_min_size : Z }.

Section classes.
Variable sclasstab : Z → storageclass.
Variable MaxECRedundancyLevel : Z.

(** The storage a file takes, in eighths of its size.  The number of data parts is 4
    or 8 in every class that has parts: the requests that define classes check it. *)
Definition sclass_get_keeparch_storage_eights (sclassid : Z) (keepflag : bool) : Z :=
  let sc := sclasstab sclassid in
  if negb keepflag && ((0 <? labelscnt (sc_arch sc)) || negb (ec_data_chksum_parts (sc_arch sc) =? 0)) then
    if negb (ec_data_chksum_parts (sc_arch sc) =? 0) then
      let ec_data_parts := Z.shiftr (ec_data_chksum_parts (sc_arch sc)) 4 in
      let ec_chksum_parts := Z.land (ec_data_chksum_parts (sc_arch sc)) 0xF in
      if MaxECRedundancyLevel <? ec_chksum_parts then
        u8 ((MaxECRedundancyLevel + ec_data_parts) * 8 / ec_data_parts)
      else u8 ((ec_chksum_parts + ec_data_parts) * 8 / ec_data_parts)
    else u8 (labelscnt (sc_arch sc) * 8)
  else u8 (labelscnt (sc_keep sc) * 8).

Definition sclass_get_keeparch_maxstorage_eights (sclassid : Z) : Z :=
  let sc := sclasstab sclassid in
  let res :=
    if negb (ec_data_chksum_parts (sc_arch sc) =? 0) then
      let ec_data_parts := Z.shiftr (ec_data_chksum_parts (sc_arch sc)) 4 in
      let ec_chksum_parts := Z.land (ec_data_chksum_parts (sc_arch sc)) 0xF in
      let res := if MaxECRedundancyLevel <? ec_chksum_parts then u8 (MaxECRedundancyLevel + ec_data_parts)
                 else u8 (ec_data_parts + ec_chksum_parts) in
      u8 (u8 (res * 8) / ec_data_parts)
    else u8 (labelscnt (sc_arch sc) * 8) in
  if res <? labelscnt (sc_keep sc) * 8 then u8 (labelscnt (sc_keep sc) * 8) else res.

Definition sclass_get_arch_mode (sclassid : Z) : Z := sc_arch_mode (sclasstab sclassid).
Definition sclass_get_arch_delay (sclassid : Z) : Z := sc_arch_delay (sclasstab sclassid).
Definition sclass_get_arch_min_size (sclassid : Z) : Z := sc_arch_min_size (sclasstab sclassid).

End classes.

(** ** Patterns

    The rules that give new and renamed files a storage class, a trash time or
    attributes.  [pt_glob] is the set of names the compiled pattern matches
    ([globengine.c] compiles and matches it). *)

Record pattern := mk_pattern {
  pt_glob : list Z → bool; pt_euid : Z; pt_egid : Z; pt_omask : Z; pt_scid : Z;
  pt_trashretention : Z; pt_seteattr : Z; pt_clreattr : Z }.

Definition pattern_check_ugids (p : pattern) (uid : Z) (gid : list Z) : bool :=
  if negb (pt_euid p =? PATTERN_EUGID_ANY) && negb (pt_euid p =? uid) then false
  else if pt_egid p =? PATTERN_EUGID_ANY then true
  else existsb (λ g, pt_egid p =? g) gid.

(** The first [validpatterns] entries of the table, in the order of the table. *)
Definition patterns_find_matching (patterntab : list pattern) (uid : Z) (gid : list Z) (name : list Z) : option pattern :=
  List.find (λ p, pattern_check_ugids p uid gid && pt_glob p name) patterntab.
