(* ===== verification/FsTree.v ===== *)
(** * The tree of files (filesystem.c)

    Nodes, the edges between them, the statistics kept in every directory, the trash,
    and the functions that change them.

    A node is addressed by its inode, which is what the hash table of nodes is for
    ([LinHash.v] proves that table a map); an edge by the address [fsedge_malloc]
    gives it, which is not used again.  [None] is a fault: an access through a freed
    edge, the wrong member of the union of a node, a failed assertion, or a recursion
    without end.

    The hash table of edges is the map [t_names] from the inode of the parent and the
    name.  The calls to other parts of the master that return nothing the tree uses
    ([chunk_delete_file], [xattr_removeinode], ...) are listed in [t_calls], in order.
    The counters of nodes in storage classes are [v_sclass]. *)

From S2P Require Import Prelude MfsComm FreeInodes StorageClass DataPack FsNodes PosixAcl FsAccess.

(** ** Data *)

Record fsedge := mk_fsedge { e_child : Z; e_parent : option Z; e_edgeid : Z; e_name : list Z }.

Record statsrecord := mk_sr {
  sr_inodes : Z; sr_dirs : Z; sr_files : Z; sr_chunks : Z; sr_length : Z; sr_size : Z; sr_realsize : Z }.

Record quotanode := mk_quotanode {
  q_graceperiod : Z; q_exceeded : bool; q_flags : Z; q_stimestamp : Z;
  q_sinodes : Z; q_hinodes : Z; q_slength : Z; q_hlength : Z; q_ssize : Z; q_hsize : Z;
  q_srealsize : Z; q_hrealsize : Z }.

(** The union [data].  [pleng] and [chunks] are the lengths of [path] and
    [chunktab]. *)
Inductive ndata :=
| ddata (children : list positive) (nlink elements : Z) (stats : statsrecord) (quota : option quotanode)
| sdata (path : list Z) (nlink : Z)
| devdata (rdev nlink : Z)
| fdata (length : Z) (chunktab : list Z) (nlink realsize_ratio : Z)
| odata (nlink : Z).

Record node := mk_node {
  n_ctime : Z; n_mtime : Z; n_atime : Z; n_uid : Z; n_gid : Z;
  n_xattrflag : bool; n_aclpermflag : bool; n_acldefflag : bool; n_keepmode : bool;
  n_type : Z; n_mode : Z; n_sclassid : Z; n_eattr : Z; n_winattr : Z; n_trashretention : Z;
  n_parents : list positive; n_data : ndata }.

(** Calls to other parts of the master. *)
Inductive call :=
| ChunkDeleteFile (chunkid sclassid : Z)
| ChunkChangeFile (chunkid prevsclassid nextsclassid : Z)
| ChunkSetArchflag (chunkid : Z) (archflag : bool)
| ChunkSetTrashflag (chunkid : Z) (trashflag : bool)
| XattrRemoveinode (inode : Z)
| DcmModify (inode sessionid : Z).

Record vars := mk_vars {
  nextedgeid : Z; trashspace : Z; sustainedspace : Z; trashnodes : Z; sustainednodes : Z;
  filenodes : Z; dirnodes : Z; nodes : Z; v_sclass : gmap Z (Z * Z) }.

(** [t_edgeids] are the two arrays [edgeid_id_hashtab] and [edgeid_ptr_hashtab];
    [t_edgenext] is the address of the next edge. *)
Record tree := mk_tree {
  t_nodes : gmap Z node; t_edges : gmap positive fsedge; t_edgenext : positive;
  t_names : gmap (Z * list Z) positive; t_edgeids : gmap Z (Z * option positive);
  t_trash : gmap Z (list positive); t_sustained : gmap Z (list positive);
  t_ids : idpool; t_acls : gmap (Z * Z) acl_node; t_vars : vars; t_calls : list call }.

(** Assignments. *)
Definition with_nodes (m : gmap Z node) (t : tree) : tree :=
  mk_tree m (t_edges t) (t_edgenext t) (t_names t) (t_edgeids t) (t_trash t) (t_sustained t) (t_ids t) (t_acls t)
    (t_vars t) (t_calls t).
Definition with_edges (m : gmap positive fsedge) (t : tree) : tree :=
  mk_tree (t_nodes t) m (t_edgenext t) (t_names t) (t_edgeids t) (t_trash t) (t_sustained t) (t_ids t) (t_acls t)
    (t_vars t) (t_calls t).
Definition with_names (m : gmap (Z * list Z) positive) (t : tree) : tree :=
  mk_tree (t_nodes t) (t_edges t) (t_edgenext t) m (t_edgeids t) (t_trash t) (t_sustained t) (t_ids t) (t_acls t)
    (t_vars t) (t_calls t).
Definition with_edgeids (m : gmap Z (Z * option positive)) (t : tree) : tree :=
  mk_tree (t_nodes t) (t_edges t) (t_edgenext t) (t_names t) m (t_trash t) (t_sustained t) (t_ids t) (t_acls t)
    (t_vars t) (t_calls t).
Definition with_detached (tr su : gmap Z (list positive)) (t : tree) : tree :=
  mk_tree (t_nodes t) (t_edges t) (t_edgenext t) (t_names t) (t_edgeids t) tr su (t_ids t) (t_acls t)
    (t_vars t) (t_calls t).
Definition with_ids (p : idpool) (t : tree) : tree :=
  mk_tree (t_nodes t) (t_edges t) (t_edgenext t) (t_names t) (t_edgeids t) (t_trash t) (t_sustained t) p (t_acls t)
    (t_vars t) (t_calls t).
Definition with_acls (m : gmap (Z * Z) acl_node) (t : tree) : tree :=
  mk_tree (t_nodes t) (t_edges t) (t_edgenext t) (t_names t) (t_edgeids t) (t_trash t) (t_sustained t) (t_ids t) m
    (t_vars t) (t_calls t).
Definition with_vars (v : vars) (t : tree) : tree :=
  mk_tree (t_nodes t) (t_edges t) (t_edgenext t) (t_names t) (t_edgeids t) (t_trash t) (t_sustained t) (t_ids t)
    (t_acls t) v (t_calls t).
Definition emit (cs : list call) (t : tree) : tree :=
  mk_tree (t_nodes t) (t_edges t) (t_edgenext t) (t_names t) (t_edgeids t) (t_trash t) (t_sustained t) (t_ids t)
    (t_acls t) (t_vars t) (t_calls t ++ cs).

Definition put (i : Z) (n : node) (t : tree) : tree := with_nodes (<[i := n]> (t_nodes t)) t.

Definition with_type (ty : Z) (n : node) : node :=
  mk_node (n_ctime n) (n_mtime n) (n_atime n) (n_uid n) (n_gid n) (n_xattrflag n) (n_aclpermflag n) (n_acldefflag n)
    (n_keepmode n) ty (n_mode n) (n_sclassid n) (n_eattr n) (n_winattr n) (n_trashretention n) (n_parents n) (n_data n).
Definition with_times (ct mt at_ : Z) (n : node) : node :=
  mk_node ct mt at_ (n_uid n) (n_gid n) (n_xattrflag n) (n_aclpermflag n) (n_acldefflag n)
    (n_keepmode n) (n_type n) (n_mode n) (n_sclassid n) (n_eattr n) (n_winattr n) (n_trashretention n) (n_parents n) (n_data n).
Definition with_flags (pf df km : bool) (n : node) : node :=
  mk_node (n_ctime n) (n_mtime n) (n_atime n) (n_uid n) (n_gid n) (n_xattrflag n) pf df km
    (n_type n) (n_mode n) (n_sclassid n) (n_eattr n) (n_winattr n) (n_trashretention n) (n_parents n) (n_data n).
Definition with_class (sc ea tr : Z) (n : node) : node :=
  mk_node (n_ctime n) (n_mtime n) (n_atime n) (n_uid n) (n_gid n) (n_xattrflag n) (n_aclpermflag n) (n_acldefflag n)
    (n_keepmode n) (n_type n) (n_mode n) sc ea (n_winattr n) tr (n_parents n) (n_data n).
Definition with_parents (ps : list positive) (n : node) : node :=
  mk_node (n_ctime n) (n_mtime n) (n_atime n) (n_uid n) (n_gid n) (n_xattrflag n) (n_aclpermflag n) (n_acldefflag n)
    (n_keepmode n) (n_type n) (n_mode n) (n_sclassid n) (n_eattr n) (n_winattr n) (n_trashretention n) ps (n_data n).
Definition with_data (d : ndata) (n : node) : node :=
  mk_node (n_ctime n) (n_mtime n) (n_atime n) (n_uid n) (n_gid n) (n_xattrflag n) (n_aclpermflag n) (n_acldefflag n)
    (n_keepmode n) (n_type n) (n_mode n) (n_sclassid n) (n_eattr n) (n_winattr n) (n_trashretention n) (n_parents n) d.

Definition with_ctime (ts : Z) (n : node) : node := with_times ts (n_mtime n) (n_atime n) n.
Definition with_eattr (ea : Z) (n : node) : node := with_class (n_sclassid n) ea (n_trashretention n) n.

(** The first loop of a list that may fail. *)
Fixpoint fold_opt {A S} (f : A → S → option S) (l : list A) (s : S) : option S :=
  match l with [] => Some s | x :: l => s ← f x s; fold_opt f l s end.

Definition is_file (n : node) : bool :=
  (n_type n =? TYPE_FILE) || (n_type n =? TYPE_TRASH) || (n_type n =? TYPE_SUSTAINED).

(** The node as the tests of rights see it. *)
Definition node_view (t : tree) (n : node) : fsnode :=
  mk_fsnode (n_ctime n) (n_mtime n) (n_atime n) (n_uid n) (n_gid n) (n_aclpermflag n) (n_acldefflag n) (n_type n)
    (n_mode n) (n_eattr n) (n_winattr n) ((λ e, ed ← t_edges t !! e; e_parent ed) <$> n_parents n).
Definition view (t : tree) : gmap Z fsnode := node_view t <$> t_nodes t.

(** ** Statistics *)

(** The last chunk of a file of a length, and the size of that chunk. *)
Definition lastchunk (length : Z) : Z := if 0 <? length then u32 (Z.shiftr (length - 1) MFSCHUNKBITS) else 0.
Definition lastchunksize (length : Z) : Z :=
  if 0 <? length then
    Z.land (Z.land (length - 1) MFSCHUNKMASK + MFSBLOCKSIZE) MFSBLOCKNEGMASK + MFSHDRSIZE
  else MFSHDRSIZE.

(** The loop over the chunks: size and number. *)
Fixpoint count_chunks (last lastsize i : Z) (chunktab : list Z) (size chunks : Z) : Z * Z :=
  match chunktab with
  | [] => (size, chunks)
  | c :: chunktab =>
      if 0 <? c then
        count_chunks last lastsize (i + 1) chunktab
          (if i <? last then u64 (size + (MFSCHUNKSIZE + MFSHDRSIZE)) else if i =? last then u64 (size + lastsize) else size)
          (u32 (chunks + 1))
      else count_chunks last lastsize (i + 1) chunktab size chunks
  end.

Definition realsize (size ratio : Z) : Z := u64 (size * ratio) / 16.

(** [fsnodes_get_stats(node,sr,0)]. *)
Definition node_stats (n : node) : option statsrecord :=
  if n_type n =? TYPE_DIRECTORY then
    match n_data n with
    | ddata _ _ _ st _ =>
        Some (mk_sr (u32 (sr_inodes st + 1)) (u32 (sr_dirs st + 1)) (sr_files st) (sr_chunks st) (sr_length st)
                (sr_size st) (sr_realsize st))
    | _ => None
    end
  else if is_file n then
    match n_data n with
    | fdata len chunktab _ ratio =>
        let '(size, chunks) := count_chunks (lastchunk len) (lastchunksize len) 0 chunktab 0 0 in
        Some (mk_sr 1 0 1 chunks len size (realsize size ratio))
    | _ => None
    end
  else if n_type n =? TYPE_SYMLINK then
    match n_data n with
    | sdata path _ => Some (mk_sr 1 0 0 0 (Z.of_nat (length path)) 0 0)
    | _ => None
    end
  else Some (mk_sr 1 0 0 0 0 0 0).

Definition sr_add (s d : statsrecord) : statsrecord :=
  mk_sr (u32 (sr_inodes s + sr_inodes d)) (u32 (sr_dirs s + sr_dirs d)) (u32 (sr_files s + sr_files d))
    (u32 (sr_chunks s + sr_chunks d)) (u64 (sr_length s + sr_length d)) (u64 (sr_size s + sr_size d))
    (u64 (sr_realsize s + sr_realsize d)).
Definition sr_sub (s d : statsrecord) : statsrecord :=
  mk_sr (u32 (sr_inodes s - sr_inodes d)) (u32 (sr_dirs s - sr_dirs d)) (u32 (sr_files s - sr_files d))
    (u32 (sr_chunks s - sr_chunks d)) (u64 (sr_length s - sr_length d)) (u64 (sr_size s - sr_size d))
    (u64 (sr_realsize s - sr_realsize d)).
Definition sr_add_realsize (s : statsrecord) (d : Z) : statsrecord :=
  mk_sr (sr_inodes s) (sr_dirs s) (sr_files s) (sr_chunks s) (sr_length s) (sr_size s) (u64 (sr_realsize s + d)).

(** A change of the statistics of a directory. *)
Definition change_stats (f : statsrecord → statsrecord) (n : node) : option node :=
  match n_data n with
  | ddata cs nl el st q => Some (with_data (ddata cs nl el (f st) q) n)
  | _ => None
  end.

(** The recursion of [fsnodes_sub_stats], [fsnodes_add_stats] and
    [fsnodes_fix_realsize]: the change [f] is made in the parent and, unless it is the
    root, in all nodes above it. *)
Fixpoint climb_stats (fuel : nat) (f : statsrecord → statsrecord) (parent : option Z) (t : tree) : option tree :=
  match fuel with
  | O => None
  | S fuel =>
      match parent with
      | None => Some t
      | Some p =>
          n ← t_nodes t !! p;
          n' ← change_stats f n;
          let t := put p n' t in
          if p =? MFS_ROOT_ID then Some t
          else fold_opt (λ e t, ed ← t_edges t !! e; climb_stats fuel f (e_parent ed) t) (n_parents n) t
      end
  end.

(** A node is passed once at most on the way to the root. *)
Definition climb_fuel (t : tree) : nat := S (S (size (t_nodes t))).

Definition fsnodes_sub_stats (parent : option Z) (sr : statsrecord) (t : tree) : option tree :=
  climb_stats (climb_fuel t) (λ s, sr_sub s sr) parent t.
Definition fsnodes_add_stats (parent : option Z) (sr : statsrecord) (t : tree) : option tree :=
  climb_stats (climb_fuel t) (λ s, sr_add s sr) parent t.
Definition fsnodes_add_sub_stats (parent : option Z) (newsr prevsr : statsrecord) (t : tree) : option tree :=
  fsnodes_add_stats parent (sr_sub newsr prevsr) t.
Definition fsnodes_fix_realsize (parent : option Z) (diff : Z) (t : tree) : option tree :=
  climb_stats (climb_fuel t) (λ s, sr_add_realsize s diff) parent t.

(** The loop over the parents of a node. *)
Definition each_parent (i : Z) (f : option Z → tree → option tree) (t : tree) : option tree :=
  n ← t_nodes t !! i;
  fold_opt (λ e t, ed ← t_edges t !! e; f (e_parent ed) t) (n_parents n) t.

Section with_classes.
Variable sclasstab : Z → storageclass.
Variable MaxECRedundancyLevel : Z.

Definition current_ratio (n : node) : Z :=
  u8 (sclass_get_keeparch_storage_eights sclasstab MaxECRedundancyLevel (n_sclassid n) (n_keepmode n) * 2).

Definition set_ratio (ratio : Z) (n : node) : node :=
  match n_data n with
  | fdata len chunktab nl _ => with_data (fdata len chunktab nl ratio) n
  | _ => n
  end.

(** [fix_realsize_ratio] is 0, 1 or 2. *)
Definition fsnodes_get_stats (i : Z) (fix_realsize_ratio : Z) (t : tree) : option (statsrecord * tree) :=
  n ← t_nodes t !! i;
  t ← (if is_file n && negb (fix_realsize_ratio =? 0) then
         match n_data n with
         | fdata len chunktab _ ratio =>
             let size := (count_chunks (lastchunk len) (lastchunksize len) 0 chunktab 0 0).1 in
             let new := current_ratio n in
             if fix_realsize_ratio =? 2 then
               if new =? ratio then Some t
               else
                 t ← each_parent i (λ p t, fsnodes_fix_realsize p (u64 (realsize size new - realsize size ratio)) t) t;
                 n ← t_nodes t !! i;
                 Some (put i (set_ratio new n) t)
             else Some (put i (set_ratio new n) t)
         | _ => None
         end
       else Some t);
  n ← t_nodes t !! i;
  sr ← node_stats n;
  Some (sr, t).

Definition fsnodes_check_realsize (i : Z) (t : tree) : option tree :=
  n ← t_nodes t !! i;
  if is_file n then
    match n_data n with
    | fdata len chunktab _ ratio =>
        let new := current_ratio n in
        if new =? ratio then Some t
        else
          let size := (count_chunks (lastchunk len) (lastchunksize len) 0 chunktab 0 0).1 in
          t ← each_parent i (λ p t, fsnodes_fix_realsize p (u64 (realsize size new - realsize size ratio)) t) t;
          n ← t_nodes t !! i;
          Some (put i (set_ratio new n) t)
    | _ => None
    end
  else Some t.

(** ** Archive mode *)

Definition arch_reftime (arch_mode : Z) (n : node) : Z :=
  let r := 0 in
  let r := if flag arch_mode SCLASS_ARCH_MODE_CTIME then (if r <? n_ctime n then n_ctime n else r) else r in
  let r := if flag arch_mode SCLASS_ARCH_MODE_MTIME then (if r <? n_mtime n then n_mtime n else r) else r in
  if flag arch_mode SCLASS_ARCH_MODE_ATIME then (if r <? n_atime n then n_atime n else r) else r.

(** Whether the file leaves the archive: [keepmode] is set. *)
Definition leaves_archive (n : node) (len ts fields_to_check : Z) : bool :=
  let arch_mode := sclass_get_arch_mode sclasstab (n_sclassid n) in
  let arch_delay := sclass_get_arch_delay sclasstab (n_sclassid n) in
  let arch_min_size := sclass_get_arch_min_size sclasstab (n_sclassid n) in
  negb (n_keepmode n) && flag arch_mode SCLASS_ARCH_MODE_REVERSIBLE
  && (((0 <? arch_delay) || (0 <? arch_min_size)) && flag arch_mode fields_to_check)
  && (if len <? arch_min_size then true
      else
        let reftime := arch_reftime arch_mode n in
        let arch_chk_time := u32 (reftime + u32 (arch_delay * 3600)) in
        negb ((arch_chk_time <? ts) && (reftime <=? arch_chk_time))).

Definition fsnodes_checkarchmode (i ts fields_to_check : Z) (t : tree) : option tree :=
  n ← t_nodes t !! i;
  if is_file n then
    match n_data n with
    | fdata len chunktab _ _ =>
        if leaves_archive n len ts fields_to_check then
          Some (emit ((λ c, ChunkSetArchflag c false) <$> filter (λ c, 0 < c) chunktab)
                  (put i (with_flags (n_aclpermflag n) (n_acldefflag n) true n) t))
        else Some t
    | _ => None
    end
  else Some t.

(** ** Edges *)

Definition bucket (b : Z) (m : gmap Z (list positive)) : list positive := default [] (m !! b).

Definition EDGEID_HASHSIZE : Z := 65536.

Definition fsnodes_edgeid_insert (e : positive) (t : tree) : option tree :=
  ed ← t_edges t !! e;
  Some (with_edgeids (<[e_edgeid ed `mod` EDGEID_HASHSIZE := (e_edgeid ed, Some e)]> (t_edgeids t)) t).

Definition fsnodes_edgeid_find (edgeid : Z) (t : tree) : option positive :=
  match t_edgeids t !! (edgeid `mod` EDGEID_HASHSIZE) with
  | Some (id, ptr) => if id =? edgeid then ptr else None
  | None => None
  end.

Definition fsnodes_edgeid_remove (ed : fsedge) (t : tree) : tree :=
  let h := e_edgeid ed `mod` EDGEID_HASHSIZE in
  match t_edgeids t !! h with
  | Some (id, _) => if id =? e_edgeid ed then with_edgeids (<[h := (id, None)]> (t_edgeids t)) t else t
  | None => t
  end.

(** The hash table of edges. *)
Definition fsnodes_edge_find (parent : Z) (name : list Z) (t : tree) : option positive := t_names t !! (parent, name).
Definition fsnodes_edge_delete (parent : Z) (name : list Z) (e : positive) (t : tree) : tree :=
  if bool_decide (t_names t !! (parent, name) = Some e) then with_names (delete (parent, name) (t_names t)) t else t.
Definition fsnodes_edge_add (parent : Z) (name : list Z) (e : positive) (t : tree) : tree :=
  with_names (<[(parent, name) := e]> (t_names t)) t.

Definition fsnodes_nameisused (parent : Z) (name : list Z) (t : tree) : bool :=
  bool_decide (is_Some (fsnodes_edge_find parent name t)).
Definition fsnodes_lookup (parent : Z) (name : list Z) (t : tree) : option (option positive) :=
  n ← t_nodes t !! parent;
  Some (if negb (n_type n =? TYPE_DIRECTORY) then None else fsnodes_edge_find parent name t).

(** [nlink] of a node that is not a directory. *)
Definition add_nlink (d : Z) (n : node) : option node :=
  if is_file n then
    match n_data n with fdata len ct nl r => Some (with_data (fdata len ct (u16 (nl + d)) r) n) | _ => None end
  else if n_type n =? TYPE_SYMLINK then
    match n_data n with sdata path nl => Some (with_data (sdata path (u16 (nl + d))) n) | _ => None end
  else if (n_type n =? TYPE_BLOCKDEV) || (n_type n =? TYPE_CHARDEV) then
    match n_data n with devdata rdev nl => Some (with_data (devdata rdev (u16 (nl + d))) n) | _ => None end
  else
    match n_data n with odata nl => Some (with_data (odata (u16 (nl + d))) n) | _ => None end.

(** The switch on the type of the child of [fsnodes_link] and [fsnodes_remove_edge]:
    a directory counts in its parent. *)
Definition count_link (d p c : Z) (t : tree) : option tree :=
  cn ← t_nodes t !! c;
  if n_type cn =? TYPE_DIRECTORY then
    pn ← t_nodes t !! p;
    match n_data pn with
    | ddata cs nl el st q => Some (put p (with_data (ddata cs (u32 (nl + d)) el st q) pn) t)
    | _ => None
    end
  else
    cn ← add_nlink d cn; Some (put c cn t).

(** [elements] and [children] of a directory. *)
Definition change_dir (f : list positive → list positive) (d : Z) (n : node) : option node :=
  match n_data n with
  | ddata cs nl el st q => Some (with_data (ddata (f cs) nl (u32 (el + d)) st q) n)
  | _ => None
  end.

Definition remove_id (e : positive) (l : list positive) : list positive := filter (λ x, x ≠ e) l.

(** [*(e->prevchild) = e->nextchild]: the edge leaves the list it is in, the children
    of its parent or a bucket. *)
Definition unlink_child (e : positive) (ed : fsedge) (t : tree) : option tree :=
  match e_parent ed with
  | Some p =>
      n ← t_nodes t !! p;
      n ← change_dir (remove_id e) 0 n;
      Some (put p n t)
  | None =>
      let bt := e_child ed `mod` TRASH_BUCKETS in
      let bs := e_child ed `mod` SUSTAINED_BUCKETS in
      Some (with_detached (<[bt := remove_id e (bucket bt (t_trash t))]> (t_trash t))
              (<[bs := remove_id e (bucket bs (t_sustained t))]> (t_sustained t)) t)
  end.

(** [*(e->prevparent) = e->nextparent] *)
Definition unlink_parent (e : positive) (ed : fsedge) (t : tree) : option tree :=
  n ← t_nodes t !! e_child ed;
  Some (put (e_child ed) (with_parents (remove_id e (n_parents n)) n) t).

Definition clear_snapshot (n : node) : node := with_eattr (Z.land (n_eattr n) (Z.lnot EATTR_SNAPSHOT)) n.

(** [remove_edge] up to the parts that concern the parent. *)
Definition leave_parent (ts : Z) (ed : fsedge) (p : Z) (t : tree) : option tree :=
  let t := fsnodes_edgeid_remove ed t in
  '(sr, t) ← fsnodes_get_stats (e_child ed) 0 t;
  t ← fsnodes_sub_stats (Some p) sr t;
  n ← t_nodes t !! p;
  n ← change_dir id (-1) (with_times ts ts (n_atime n) n);
  t ← count_link (-1) p (e_child ed) (put p n t);
  n ← t_nodes t !! p;
  Some (put p (clear_snapshot n) t).

Definition fsnodes_remove_edge (ts : Z) (e : positive) (t : tree) : option tree :=
  ed ← t_edges t !! e;
  t ← (match e_parent ed with Some p => leave_parent ts ed p t | None => Some t end);
  t ← (if 0 <? ts then
         n ← t_nodes t !! e_child ed;
         fsnodes_checkarchmode (e_child ed) ts SCLASS_ARCH_MODE_CTIME (put (e_child ed) (with_ctime ts n) t)
       else Some t);
  t ← unlink_child e ed t;
  t ← unlink_parent e ed t;
  let t := match e_parent ed with Some p => fsnodes_edge_delete p (e_name ed) e t | None => t end in
  Some (with_edges (delete e (t_edges t)) t).

(** A new edge, with the next number: its address and the state. *)
Definition fsedge_new (child : Z) (parent : option Z) (name : list Z) (t : tree) : positive * tree :=
  let v := t_vars t in
  let e := t_edgenext t in
  let edgeid := if nextedgeid v <? EDGEID_MAX then nextedgeid v else 0 in
  let next := if nextedgeid v <? EDGEID_MAX then u64 (nextedgeid v - 1) else nextedgeid v in
  (e, mk_tree (t_nodes t) (<[e := mk_fsedge child parent edgeid name]> (t_edges t)) (Pos.succ e) (t_names t)
        (t_edgeids t) (t_trash t) (t_sustained t) (t_ids t) (t_acls t)
        (mk_vars next (trashspace v) (sustainedspace v) (trashnodes v) (sustainednodes v) (filenodes v) (dirnodes v)
           (nodes v) (v_sclass v))
        (t_calls t)).

Definition push_parent (e : positive) (i : Z) (t : tree) : option tree :=
  n ← t_nodes t !! i; Some (put i (with_parents (e :: n_parents n) n) t).

Definition fsnodes_link (ts parent child : Z) (name : list Z) (t : tree) : option tree :=
  let '(e, t) := fsedge_new child (Some parent) name t in
  pn ← t_nodes t !! parent;
  pn ← change_dir (cons e) 1 pn;
  t ← push_parent e child (put parent pn t);
  let t := fsnodes_edge_add parent name e t in
  t ← count_link 1 parent child t;
  pn ← t_nodes t !! parent;
  '(sr, t) ← fsnodes_get_stats child 1 (put parent (clear_snapshot pn) t);
  t ← fsnodes_add_stats (Some parent) sr t;
  if 0 <? ts then
    pn ← t_nodes t !! parent;
    let t := put parent (with_times ts ts (n_atime pn) pn) t in
    cn ← t_nodes t !! child;
    fsnodes_checkarchmode child ts SCLASS_ARCH_MODE_CTIME (put child (with_ctime ts cn) t)
  else Some t.

(** ** Counters *)

Definition with_counters (ts ss tn sn fn dn nn : Z) (t : tree) : tree :=
  with_vars (mk_vars (nextedgeid (t_vars t)) ts ss tn sn fn dn nn (v_sclass (t_vars t))) t.
Definition add_trash (space number : Z) (t : tree) : tree :=
  let v := t_vars t in
  with_counters (u64 (trashspace v + space)) (sustainedspace v) (u32 (trashnodes v + number)) (sustainednodes v)
    (filenodes v) (dirnodes v) (nodes v) t.
Definition add_sustained (space number : Z) (t : tree) : tree :=
  let v := t_vars t in
  with_counters (trashspace v) (u64 (sustainedspace v + space)) (trashnodes v) (u32 (sustainednodes v + number))
    (filenodes v) (dirnodes v) (nodes v) t.
Definition add_nodes (files dirs number : Z) (t : tree) : tree :=
  let v := t_vars t in
  with_counters (trashspace v) (sustainedspace v) (trashnodes v) (sustainednodes v)
    (u32 (filenodes v + files)) (u32 (dirnodes v + dirs)) (u32 (nodes v + number)) t.

(** [sclass_incref] and [sclass_decref]: [d] is 1 or -1; the counters are the fields
    [files] and [directories] of the class. *)
Definition sclass_ref (d sclassid type : Z) (t : tree) : tree :=
  let v := t_vars t in
  let '(files, dirs) := default (0, 0) (v_sclass v !! sclassid) in
  let fd := if type =? TYPE_DIRECTORY then (files, u32 (dirs + d))
            else if (type =? TYPE_FILE) || (type =? TYPE_TRASH) || (type =? TYPE_SUSTAINED) then (u32 (files + d), dirs)
            else (files, dirs) in
  with_vars (mk_vars (nextedgeid v) (trashspace v) (sustainedspace v) (trashnodes v) (sustainednodes v) (filenodes v)
               (dirnodes v) (nodes v) (<[sclassid := fd]> (v_sclass v))) t.
Definition sclass_incref : Z → Z → tree → tree := sclass_ref 1.
Definition sclass_decref : Z → Z → tree → tree := sclass_ref (-1).

(** ** Nodes *)

(** [data] of a new node; [realsize_ratio] is not set there, [fsnodes_link] sets it
    before it is read. *)
Definition new_data (type : Z) : ndata :=
  if type =? TYPE_DIRECTORY then ddata [] 2 0 (mk_sr 0 0 0 0 0 0 0) None
  else if (type =? TYPE_TRASH) || (type =? TYPE_SUSTAINED) || (type =? TYPE_FILE) then fdata 0 [] 0 0
  else if type =? TYPE_SYMLINK then sdata [] 0
  else if (type =? TYPE_BLOCKDEV) || (type =? TYPE_CHARDEV) then devdata 0 0
  else odata 0.

Definition DEFAULT_TRASHTIME : Z := 24.

(** The extra attributes a new node does not take from its directory. *)
Definition inherited_eattr (type eattr : Z) : Z :=
  let no := Z.lor EATTR_SNAPSHOT (Z.lor EATTR_UNDELETABLE (Z.lor EATTR_APPENDONLY EATTR_IMMUTABLE)) in
  Z.land eattr (Z.lnot (if type =? TYPE_DIRECTORY then no else Z.lor EATTR_NOECACHE no)).

(** The record of a new node. *)
Definition new_node (ts : Z) (dir : node) (type mode uid gid : Z) (copysgid : bool) : node :=
  let inherits := (type =? TYPE_DIRECTORY) || (type =? TYPE_FILE) in
  let setgid := Z.land (n_mode dir) 0x400 =? 0x400 in
  mk_node ts ts ts uid (if setgid then n_gid dir else gid) false false false false type
    (if setgid && copysgid && (type =? TYPE_DIRECTORY) then Z.lor (u12 mode) 0x400 else u12 mode)
    (if inherits then n_sclassid dir else 0) (inherited_eattr type (n_eattr dir)) 0
    (if inherits then n_trashretention dir else DEFAULT_TRASHTIME) [] (new_data type).

Definition fsnodes_create_node (ts parent : Z) (name : list Z) (type mode cumask uid gid : Z) (copysgid : bool) (t : tree)
    : option (Z * tree) :=
  let t := add_nodes (if type =? TYPE_FILE then 1 else 0) (if type =? TYPE_DIRECTORY then 1 else 0) 1 t in
  '(inode, ids) ← fsnodes_get_next_id (t_ids t);
  let t := with_ids ids t in
  dir ← t_nodes t !! parent;
  let t := sclass_incref (if (type =? TYPE_DIRECTORY) || (type =? TYPE_FILE) then n_sclassid dir else 0) type t in
  '(aclcopied, mode, acls) ←
    (if n_acldefflag dir then posix_acl_copydefaults parent inode (type =? TYPE_DIRECTORY) mode (t_acls t)
     else Some (0, Z.land mode (Z.lnot cumask), t_acls t));
  let t := put inode (new_node ts dir type mode uid gid copysgid) (with_acls acls t) in
  t ← fsnodes_link ts parent inode name t;
  n ← t_nodes t !! inode;
  Some (inode, put inode (with_flags (flag aclcopied 1) (flag aclcopied 2) (n_keepmode n) n) t).

(** Removal: the chunks lose a file, the inode number is freed, the attributes and
    access lists go.  A node that still has a parent stays. *)
Definition fsnodes_remove_node (ts i : Z) (t : tree) : option tree :=
  n ← t_nodes t !! i;
  match n_parents n with
  | _ :: _ => Some t
  | [] =>
      let t := with_nodes (delete i (t_nodes t)) t in
      let t := add_nodes (if is_file n then -1 else 0) (if n_type n =? TYPE_DIRECTORY then -1 else 0) (-1) t in
      t ← (if is_file n then
             match n_data n with
             | fdata _ chunktab _ _ => Some (emit ((λ c, ChunkDeleteFile c (n_sclassid n)) <$> filter (λ c, 0 < c) chunktab) t)
             | _ => None
             end
           else Some t);
      let t := sclass_decref (n_sclassid n) (n_type n) t in
      let t := with_ids (fsnodes_free_id i ts (t_ids t)) t in
      let t := if n_xattrflag n then emit [XattrRemoveinode i] t else t in
      let t := if n_aclpermflag n then with_acls (posix_acl_remove i POSIX_ACL_ACCESS (t_acls t)) t else t in
      let t := if n_acldefflag n then with_acls (posix_acl_remove i POSIX_ACL_DEFAULT (t_acls t)) t else t in
      Some (emit [DcmModify i 0] t)
  end.

(** ** Paths *)

(** The names from an edge up to the root, by the first parents. *)
Fixpoint path_names (fuel : nat) (t : tree) (parent : option Z) : option (list (list Z)) :=
  match fuel with
  | O => None
  | S fuel =>
      p ← parent;
      if p =? MFS_ROOT_ID then Some []
      else
        n ← t_nodes t !! p;
        match n_parents n with
        | [] => Some []
        | e :: _ => ed ← t_edges t !! e; names ← path_names fuel t (e_parent ed); Some (e_name ed :: names)
        end
  end.

(** The buffer is filled from its end: [size] bytes are left in front of [acc]. *)
Fixpoint fill_path (size : nat) (names : list (list Z)) (acc : list Z) : list Z :=
  match names with
  | [] => acc
  | name :: names =>
      let '(size, acc) :=
        if (length name <=? size)%nat then ((size - length name)%nat, name ++ acc)
        else (0%nat, drop (length name - size) name ++ acc) in
      match size with
      | O => fill_path O names acc
      | S size => fill_path size names (47 :: acc)
      end
  end.

Definition fsnodes_getpath (e : positive) (t : tree) : option (list Z) :=
  ed ← t_edges t !! e;
  names ← path_names (climb_fuel t) t (e_parent ed);
  let size := (length (e_name ed) + sum_list ((λ n, S (length n)) <$> names))%nat in
  let size := Nat.min size (Z.to_nat MFS_PATH_MAX) in
  let size := (size - length (e_name ed))%nat in
  match size with
  | O => Some (e_name ed)
  | S size => Some (fill_path size names (47 :: e_name ed))
  end.

(** ** Removal and return of files *)

Definition file_length (n : node) : option Z := match n_data n with fdata len _ _ _ => Some len | _ => None end.

(** A file that has lost its last link goes to a bucket of the trash or of the
    sustained files, under an edge without a parent. *)
Definition detach (trash : bool) (i : Z) (path : list Z) (t : tree) : option tree :=
  let '(e, t) := fsedge_new i None path t in
  let bt := i `mod` TRASH_BUCKETS in
  let bs := i `mod` SUSTAINED_BUCKETS in
  let t := if trash then with_detached (<[bt := e :: bucket bt (t_trash t)]> (t_trash t)) (t_sustained t) t
           else with_detached (t_trash t) (<[bs := e :: bucket bs (t_sustained t)]> (t_sustained t)) t in
  n ← t_nodes t !! i;
  Some (put i (with_parents [e] n) t).

Variable of_isfileopen : Z → bool.
Variable KeepEmptyFilesInTrash : bool.

(** Whether the file goes to the trash when its last link is removed. *)
Definition gototrash (i : Z) (n : node) : option bool :=
  if (n_type n =? TYPE_FILE) && (0 <? n_trashretention n) then
    len ← file_length n;
    Some ((0 <? len) || ((len =? 0) && (KeepEmptyFilesInTrash || of_isfileopen i)))
  else Some false.

Definition fsnodes_unlink (ts : Z) (e : positive) (t : tree) : option tree :=
  ed ← t_edges t !! e;
  let child := e_child ed in
  n ← t_nodes t !! child;
  totrash ← gototrash child n;
  path ← (match n_parents n with
          | [_] => if (n_type n =? TYPE_FILE) && ((totrash : bool) || of_isfileopen child) then fsnodes_getpath e t else Some []
          | [] => None
          | _ => Some []
          end);
  t ← fsnodes_remove_edge ts e t;
  n ← t_nodes t !! child;
  match n_parents n with
  | _ :: _ => Some t
  | [] =>
      if n_type n =? TYPE_FILE then
        len ← file_length n;
        if (totrash : bool) then
          t ← fsnodes_checkarchmode child ts SCLASS_ARCH_MODE_CTIME (put child (with_ctime ts (with_type TYPE_TRASH n)) t);
          t ← detach true child path t;
          Some (add_trash len 1 t)
        else if of_isfileopen child then
          t ← detach false child path (put child (with_type TYPE_SUSTAINED n) t);
          Some (add_sustained len 1 t)
        else fsnodes_remove_node ts child t
      else fsnodes_remove_node ts child t
  end.

(** The result is 0 (the file is kept as sustained), 1 (removed) or -1. *)
Definition fsnodes_purge (ts i : Z) (t : tree) : option (Z * tree) :=
  n ← t_nodes t !! i;
  if n_type n =? TYPE_TRASH then
    e ← head (n_parents n);
    len ← file_length n;
    let t := add_trash (- len) (-1) t in
    if of_isfileopen i then
      let t := add_sustained len 1 (put i (with_type TYPE_SUSTAINED n) t) in
      let bt := i `mod` TRASH_BUCKETS in
      let bs := i `mod` SUSTAINED_BUCKETS in
      Some (0, with_detached (<[bt := remove_id e (bucket bt (t_trash t))]> (t_trash t))
                 (<[bs := e :: bucket bs (t_sustained t)]> (t_sustained t)) t)
    else
      t ← fsnodes_remove_edge ts e t; t ← fsnodes_remove_node ts i t; Some (1, t)
  else if n_type n =? TYPE_SUSTAINED then
    e ← head (n_parents n);
    len ← file_length n;
    let t := add_sustained (- len) (-1) t in
    t ← fsnodes_remove_edge ts e t; t ← fsnodes_remove_node ts i t; Some (1, t)
  else Some (-1, t).

(** ** Content of files *)

(** The loop over the chunks from [from] on: they lose a file and are cleared. *)
Definition cut_chunks (from : nat) (sclassid : Z) (chunktab : list Z) : list call :=
  (λ c, ChunkDeleteFile c sclassid) <$> filter (λ c, 0 < c) (drop from chunktab).

Definition fsnodes_setlength (i len : Z) (t : tree) : option tree :=
  '(psr, t) ← fsnodes_get_stats i 0 t;
  n ← t_nodes t !! i;
  match n_data n with
  | fdata oldlen chunktab nl ratio =>
      let t := if n_type n =? TYPE_TRASH then add_trash (len - oldlen) 0 t
               else if n_type n =? TYPE_SUSTAINED then add_sustained (len - oldlen) 0 t else t in
      let chunks := Z.to_nat (if 0 <? len then u32 (Z.shiftr (len - 1) MFSCHUNKBITS + 1) else 0) in
      let t := emit (cut_chunks chunks (n_sclassid n) chunktab) t in
      let t := put i (with_data (fdata len (take chunks chunktab) nl ratio) n) t in
      '(nsr, t) ← fsnodes_get_stats i 1 t;
      t ← each_parent i (λ p t, fsnodes_add_sub_stats p nsr psr t) t;
      n ← t_nodes t !! i;
      Some (put i (clear_snapshot n) t)
  | _ => None
  end.

Definition fsnodes_changefilesclassid (i sclassid : Z) (t : tree) : option tree :=
  '(psr, t) ← fsnodes_get_stats i 0 t;
  n ← t_nodes t !! i;
  match n_data n with
  | fdata _ chunktab _ _ =>
      let t := emit ((λ c, ChunkChangeFile c (n_sclassid n) sclassid) <$> filter (λ c, 0 < c) chunktab) t in
      let t := sclass_decref (n_sclassid n) (n_type n) t in
      let t := put i (with_class sclassid (n_eattr n) (n_trashretention n) n) t in
      let t := sclass_incref sclassid (n_type n) t in
      '(nsr, t) ← fsnodes_get_stats i 1 t;
      each_parent i (λ p t, fsnodes_add_sub_stats p nsr psr t) t
  | _ => None
  end.

(** ** Quotas *)

(** One limit: asked for something, the limit is set, and it would be passed. *)
Definition over (flags bit want have limit width : Z) : bool :=
  (0 <? want) && flag flags bit && (limit <? (have + want) `mod` 2 ^ width).

Definition fsnodes_test_quota_noparents (n : node) (inodes length size realsize : Z) : bool :=
  match n_data n with
  | ddata _ _ _ psr (Some qn) =>
      (n_type n =? TYPE_DIRECTORY)
      && (over (q_flags qn) QUOTA_FLAG_HINODES inodes (sr_inodes psr) (q_hinodes qn) 32
          || over (q_flags qn) QUOTA_FLAG_HLENGTH length (sr_length psr) (q_hlength qn) 64
          || over (q_flags qn) QUOTA_FLAG_HSIZE size (sr_size psr) (q_hsize qn) 64
          || over (q_flags qn) QUOTA_FLAG_HREALSIZE realsize (sr_realsize psr) (q_hrealsize qn) 64
          || (q_exceeded qn
              && (over (q_flags qn) QUOTA_FLAG_SINODES inodes (sr_inodes psr) (q_sinodes qn) 32
                  || over (q_flags qn) QUOTA_FLAG_SLENGTH length (sr_length psr) (q_slength qn) 64
                  || over (q_flags qn) QUOTA_FLAG_SSIZE size (sr_size psr) (q_ssize qn) 64
                  || over (q_flags qn) QUOTA_FLAG_SREALSIZE realsize (sr_realsize psr) (q_srealsize qn) 64)))
  | _ => false
  end.

(** The loop over the parents stops at the first that refuses. *)
Fixpoint any_opt {A} (f : A → option bool) (l : list A) : option bool :=
  match l with
  | [] => Some false
  | x :: l => b ← f x; if (b : bool) then Some true else any_opt f l
  end.

Fixpoint test_quota_loop (fuel : nat) (t : tree) (inode : option Z) (inodes length size realsize : Z) : option bool :=
  match fuel with
  | O => None
  | S fuel =>
      match inode with
      | None => Some false
      | Some i =>
          n ← t_nodes t !! i;
          if fsnodes_test_quota_noparents n inodes length size realsize then Some true
          else if i =? MFS_ROOT_ID then Some false
          else any_opt (λ e, ed ← t_edges t !! e; test_quota_loop fuel t (e_parent ed) inodes length size realsize) (n_parents n)
      end
  end.

Definition fsnodes_test_quota (i inodes length size realsize : Z) (t : tree) : option bool :=
  test_quota_loop (climb_fuel t) t (Some i) inodes length size realsize.

(** The directories with a quota from a directory up to the root, the highest first. *)
Fixpoint quota_nodes (fuel : nat) (t : tree) (i : Z) (acc : list Z) : option (list Z) :=
  match fuel with
  | O => None
  | S fuel =>
      n ← t_nodes t !! i;
      match n_data n with
      | ddata _ _ _ _ q =>
          let acc := match q with Some _ => i :: acc | None => acc end in
          match n_parents n with
          | [] => Some acc
          | [e] => ed ← t_edges t !! e; match e_parent ed with Some p => quota_nodes fuel t p acc | None => Some acc end
          | _ => None
          end
      | _ => None
      end
  end.

Fixpoint skip_common (dhead shead : list Z) : list Z :=
  match dhead, shead with
  | d :: dhead', s :: shead' => if d =? s then skip_common dhead' shead' else dhead
  | _, _ => dhead
  end.

(** All the remaining nodes are tested, whatever the first answers. *)
Fixpoint test_all (t : tree) (l : list Z) (inodes length size realsize : Z) (ret : bool) : option bool :=
  match l with
  | [] => Some ret
  | i :: l =>
      b ← fsnodes_test_quota i inodes length size realsize t;
      test_all t l inodes length size realsize ((b : bool) || ret)
  end.

Definition fsnodes_test_quota_for_uncommon_nodes (dstnode srcnode inodes length size realsize : Z) (t : tree) : option bool :=
  if dstnode =? srcnode then Some false
  else
    dhead ← quota_nodes (climb_fuel t) t dstnode [];
    shead ← quota_nodes (climb_fuel t) t srcnode [];
    test_all t (skip_common dhead shead) inodes length size realsize false.

End with_classes.
