(* ===== verification/FsOps.v ===== *)
(** * Requests that change the tree of files (filesystem.c)

    The handlers [fs_univ_*], which serve a client's request and replay a line of the
    changelog alike: with the flag [SESFLAG_METARESTORE] they replay.  The result is the
    status, the inode of the answer, the state and the entry logged.

    A name is a list of bytes.  A node found by [fsnodes_node_find_ext] is addressed by
    its inode.  The attribute record of the answer ([fsnodes_fill_attr]) and the counters
    for the charts are not modelled. *)

From S2P Require Import Prelude HashChain MfsComm FreeInodes AppendRes StorageClass DataPack FsNodes PosixAcl FsAccess FsTree.

(** The entries of the changelog. *)
Inductive tree_entry :=
| SYMLINK (ts parent : Z) (name path : list Z) (uid gid inode : Z)
| CREATE (ts parent : Z) (name : list Z) (type mode cumask uid gid rdev inode : Z)
| UNLINK (ts parent : Z) (name : list Z) (inode : Z)
| MOVE (ts parent_src : Z) (name_src : list Z) (parent_dst : Z) (name_dst : list Z) (rmode inode : Z)
| LINK (ts inode_src parent_dst : Z) (name_dst : list Z)
| LENGTH (ts inode length : Z) (canmodmtime : bool)
| TRASH_REMOVE (ts inode : Z)
| PURGE (ts inode : Z)
| SETPATH (ts inode : Z) (path : list Z).

Definition answer : Type := Z * Z * tree * option tree_entry.
Definition refuse (status : Z) (t : tree) : option answer := Some (status, 0, t, None).

Definition MAXFNAMELENG : Z := 255.

(** [fsnodes_namecheck] does not return -1. *)
Definition fsnodes_namecheck (name : list Z) : bool :=
  (0 <? Z.of_nat (length name)) && (Z.of_nat (length name) <=? MAXFNAMELENG)
  && negb (bool_decide (name = [46])) && negb (bool_decide (name = [46; 46]))
  && forallb (λ c, negb (c =? 0) && negb (c =? 47)) name.

Definition fsnodes_type_convert (type : Z) : Z :=
  if type =? DISP_TYPE_FILE then TYPE_FILE
  else if type =? DISP_TYPE_DIRECTORY then TYPE_DIRECTORY
  else if type =? DISP_TYPE_SYMLINK then TYPE_SYMLINK
  else if type =? DISP_TYPE_FIFO then TYPE_FIFO
  else if type =? DISP_TYPE_BLOCKDEV then TYPE_BLOCKDEV
  else if type =? DISP_TYPE_CHARDEV then TYPE_CHARDEV
  else if type =? DISP_TYPE_SOCKET then TYPE_SOCKET
  else if type =? DISP_TYPE_TRASH then TYPE_TRASH
  else if type =? DISP_TYPE_SUSTAINED then TYPE_SUSTAINED
  else 0.

(** The session replays the changelog. *)
Definition replays (sesflags : Z) : bool := flag sesflags SESFLAG_METARESTORE.
Definition is_dir (n : node) : bool := n_type n =? TYPE_DIRECTORY.
Definition has_children (n : node) : bool :=
  match n_data n with ddata (_ :: _) _ _ _ _ => true | _ => false end.

(** ** The empty tree *)

Definition DEFAULT_SCLASS : Z := 1.

Definition fs_new (ts : Z) : option tree :=
  let ids := fsnodes_init_freebitmask MFS_ROOT_ID in
  let root := mk_node ts ts ts 0 0 false false false false TYPE_DIRECTORY 0x1FF DEFAULT_SCLASS 0 0 DEFAULT_TRASHTIME []
                (ddata [] 2 0 (mk_sr 0 0 0 0 0 0 0) None) in
  let t := mk_tree ∅ ∅ 1 ∅ ∅ ∅ ∅ ids ∅ (mk_vars (EDGEID_MAX - 1) 0 0 0 0 0 0 0 ∅) [] in
  let t := put MFS_ROOT_ID root (sclass_incref DEFAULT_SCLASS TYPE_DIRECTORY t) in
  ids ← fsnodes_used_inode MFS_ROOT_ID (t_ids t);
  let v := t_vars t in
  Some (with_counters (trashspace v) (sustainedspace v) (trashnodes v) (sustainednodes v) 0 1 1 (with_ids ids t)).

Section with_classes.
Variable sclasstab : Z → storageclass.
Variable MaxECRedundancyLevel : Z.
Variable of_isfileopen : Z → bool.
Variable KeepEmptyFilesInTrash : bool.
Variable patterntab : list pattern.
Variable MaxAllowedHardLinks : Z.
Abbreviation fsnodes_get_stats := (fsnodes_get_stats sclasstab MaxECRedundancyLevel).
Abbreviation fsnodes_create_node := (fsnodes_create_node sclasstab MaxECRedundancyLevel).
Abbreviation fsnodes_link := (fsnodes_link sclasstab MaxECRedundancyLevel).
Abbreviation fsnodes_remove_edge := (fsnodes_remove_edge sclasstab MaxECRedundancyLevel).
Abbreviation fsnodes_unlink := (fsnodes_unlink sclasstab MaxECRedundancyLevel of_isfileopen KeepEmptyFilesInTrash).
Abbreviation fsnodes_purge := (fsnodes_purge sclasstab MaxECRedundancyLevel of_isfileopen).
Abbreviation fsnodes_setlength := (fsnodes_setlength sclasstab MaxECRedundancyLevel).
Abbreviation fsnodes_changefilesclassid := (fsnodes_changefilesclassid sclasstab MaxECRedundancyLevel).
Abbreviation fsnodes_checkarchmode := (fsnodes_checkarchmode sclasstab).

(** A replay skips the test of the rights. *)
Definition may (sesflags : Z) (inode : Z) (n : node) (uid : Z) (gid : list Z) (modemask : Z) (t : tree) : option bool :=
  if replays sesflags then Some true
  else fsnodes_access_ext (t_acls t) inode (node_view t n) uid gid modemask sesflags.
Definition quota_refuses (sesflags : Z) (wd inodes length size realsize : Z) (t : tree) : option bool :=
  if replays sesflags then Some false else fsnodes_test_quota wd inodes length size realsize t.

(** ** New nodes *)

Definition fs_univ_symlink (ts rootinode sesflags parent : Z) (name path : list Z) (uid : Z) (gid : list Z) (t : tree)
    : option answer :=
  let mr := replays sesflags in
  let pleng := Z.of_nat (length path) in
  if negb mr && flag sesflags SESFLAG_READONLY then refuse MFS_ERROR_EROFS t
  else if (pleng =? 0) || (MFS_SYMLINK_MAX <? pleng) then refuse MFS_ERROR_EINVAL t
  else if existsb (λ c, c =? 0) path then refuse MFS_ERROR_EINVAL t
  else
    found ← fsnodes_node_find_ext (view t) rootinode sesflags parent false;
    match found with
    | None => refuse MFS_ERROR_ENOENT t
    | Some parent =>
        wd ← t_nodes t !! parent;
        if negb (is_dir wd) then refuse MFS_ERROR_ENOTDIR t
        else if negb mr && flag (n_eattr wd) EATTR_IMMUTABLE then refuse MFS_ERROR_EPERM t
        else
          ok ← may sesflags parent wd uid gid (Z.lor MODE_MASK_W MODE_MASK_X) t;
          if negb ok then refuse MFS_ERROR_EACCES t
          else if negb (fsnodes_namecheck name) then refuse MFS_ERROR_EINVAL t
          else if fsnodes_nameisused parent name t then refuse MFS_ERROR_EEXIST t
          else
            full ← quota_refuses sesflags parent 1 pleng 0 0 t;
            if (full : bool) then refuse MFS_ERROR_QUOTA t
            else
              gid0 ← head gid;
              '(inode, t) ← fsnodes_create_node ts parent name TYPE_SYMLINK 0x1FF 0 uid gid0 false t;
              p ← t_nodes t !! inode;
              p ← (match n_data p with sdata _ nl => Some (with_data (sdata path nl) p) | _ => None end);
              t ← fsnodes_add_stats (Some parent) (mk_sr 0 0 0 0 pleng 0 0) (put inode p t);
              Some (MFS_STATUS_OK, inode, t, if mr then None else Some (SYMLINK ts parent name path uid gid0 inode))
    end.

Definition fs_mr_symlink (ts parent : Z) (name path : list Z) (uid gid inode : Z) (t : tree) : option answer :=
  '(status, rinode, t, e) ← fs_univ_symlink ts 0 SESFLAG_METARESTORE parent name path uid [gid] t;
  if negb (status =? MFS_STATUS_OK) then Some (status, 0, t, e)
  else if negb (rinode =? inode) then Some (MFS_ERROR_MISMATCH, 0, t, e)
  else Some (MFS_STATUS_OK, 0, t, e).

(** What the pattern gives a node: class, trash time and attributes. *)
Definition pattern_class (pt : option pattern) (n : node) : Z :=
  match pt with
  | Some pt => if (is_dir n || (n_type n =? TYPE_FILE)) && flag (pt_omask pt) PATTERN_OMASK_SCLASS then pt_scid pt else n_sclassid n
  | None => n_sclassid n
  end.
Definition pattern_retention (pt : option pattern) (n : node) : Z :=
  match pt with
  | Some pt => if (is_dir n || (n_type n =? TYPE_FILE)) && flag (pt_omask pt) PATTERN_OMASK_TRASHRETENTION then pt_trashretention pt
               else n_trashretention n
  | None => n_trashretention n
  end.
Definition pattern_eattr (pt : option pattern) (n : node) : Z :=
  match pt with
  | Some pt =>
      if flag (pt_omask pt) PATTERN_OMASK_EATTR then
        let set := if is_dir n then pt_seteattr pt else Z.land (pt_seteattr pt) (Z.lnot EATTR_NOECACHE) in
        Z.land (Z.lor (n_eattr n) set) (Z.lnot (pt_clreattr pt))
      else n_eattr n
  | None => n_eattr n
  end.

(** The class of a node that is not changed in its chunks. *)
Definition change_class (inode sclassid : Z) (t : tree) : option tree :=
  p ← t_nodes t !! inode;
  if sclassid =? n_sclassid p then Some t
  else
    let t := sclass_decref (n_sclassid p) (n_type p) t in
    Some (sclass_incref sclassid (n_type p) (put inode (with_class sclassid (n_eattr p) (n_trashretention p) p) t)).

Definition fs_univ_create (ts rootinode sesflags parent : Z) (name : list Z) (type mode cumask uid : Z) (gid : list Z)
    (rdev : Z) (copysgid : bool) (t : tree) : option answer :=
  let mr := replays sesflags in
  if negb mr && flag sesflags SESFLAG_READONLY then refuse MFS_ERROR_EROFS t
  else if negb ((type =? TYPE_FILE) || (type =? TYPE_SOCKET) || (type =? TYPE_FIFO) || (type =? TYPE_BLOCKDEV)
                || (type =? TYPE_CHARDEV) || (type =? TYPE_DIRECTORY)) then refuse MFS_ERROR_EINVAL t
  else if ((type =? TYPE_BLOCKDEV) || (type =? TYPE_CHARDEV)) && negb (uid =? 0) then refuse MFS_ERROR_EPERM t
  else
    found ← fsnodes_node_find_ext (view t) rootinode sesflags parent false;
    match found with
    | None => refuse MFS_ERROR_ENOENT t
    | Some parent =>
        wd ← t_nodes t !! parent;
        if negb (is_dir wd) then refuse MFS_ERROR_ENOTDIR t
        else if negb mr && flag (n_eattr wd) EATTR_IMMUTABLE then refuse MFS_ERROR_EPERM t
        else
          ok ← may sesflags parent wd uid gid (Z.lor MODE_MASK_W MODE_MASK_X) t;
          if negb ok then refuse MFS_ERROR_EACCES t
          else if negb (fsnodes_namecheck name) then refuse MFS_ERROR_EINVAL t
          else if fsnodes_nameisused parent name t then refuse MFS_ERROR_EEXIST t
          else
            full ← quota_refuses sesflags parent 1 0 0 0 t;
            if (full : bool) then refuse MFS_ERROR_QUOTA t
            else
              gid0 ← head gid;
              '(inode, t) ← fsnodes_create_node ts parent name type mode cumask uid gid0 copysgid t;
              p ← t_nodes t !! inode;
              let pt := patterns_find_matching patterntab uid gid name in
              t ← change_class inode (pattern_class pt p) t;
              p ← t_nodes t !! inode;
              let p := with_class (n_sclassid p) (pattern_eattr pt p) (pattern_retention pt p) p in
              p ← (if (type =? TYPE_BLOCKDEV) || (type =? TYPE_CHARDEV) then
                     match n_data p with devdata _ nl => Some (with_data (devdata rdev nl) p) | _ => None end
                   else Some p);
              let chlogmode := if copysgid && (type =? TYPE_DIRECTORY) then Z.lor (Z.land mode 0xFBFF) (Z.land (n_mode p) 0x400)
                               else mode in
              Some (MFS_STATUS_OK, inode, put inode p t,
                    if mr then None else Some (CREATE ts parent name type chlogmode cumask (n_uid p) (n_gid p) rdev inode))
    end.

Definition fs_mknod (ts rootinode sesflags parent : Z) (name : list Z) (type mode cumask uid : Z) (gid : list Z) (rdev : Z)
    (t : tree) : option answer :=
  let type := if 15 <? type then fsnodes_type_convert type else type in
  fs_univ_create ts rootinode sesflags parent name type mode cumask uid gid rdev false t.

Definition fs_mkdir (ts rootinode sesflags parent : Z) (name : list Z) (mode cumask uid : Z) (gid : list Z) (copysgid : bool)
    (t : tree) : option answer :=
  fs_univ_create ts rootinode sesflags parent name TYPE_DIRECTORY mode cumask uid gid 0 copysgid t.

Definition fs_mr_create (ts parent : Z) (name : list Z) (type mode cumask uid gid rdev inode : Z) (t : tree) : option answer :=
  let type := if 15 <? type then fsnodes_type_convert type else type in
  '(status, rinode, t, e) ← fs_univ_create ts 0 SESFLAG_METARESTORE parent name type mode cumask uid [gid] rdev false t;
  if negb (status =? MFS_STATUS_OK) then Some (status, 0, t, e)
  else if negb (rinode =? inode) then Some (MFS_ERROR_MISMATCH, 0, t, e)
  else Some (MFS_STATUS_OK, 0, t, e).

(** ** Removal of a name *)

(** What a removal of [child] from [wd] answers; [None] when it may go. *)
Definition unlink_refused (sesflags : Z) (wd child : node) (uid : Z) (dirmode : bool) (t : tree) : option Z :=
  if replays sesflags then
    if is_dir child && has_children child then Some MFS_ERROR_ENOTEMPTY else None
  else if negb (fsnodes_sticky_access (node_view t wd) (node_view t child) uid) then Some MFS_ERROR_EPERM
  else if flag (n_eattr child) (Z.lor EATTR_UNDELETABLE (Z.lor EATTR_IMMUTABLE EATTR_APPENDONLY)) then Some MFS_ERROR_EPERM
  else if negb dirmode then (if is_dir child then Some MFS_ERROR_EPERM else None)
  else if negb (is_dir child) then Some MFS_ERROR_ENOTDIR
  else if has_children child then Some MFS_ERROR_ENOTEMPTY else None.

Definition fs_univ_unlink (ts rootinode sesflags parent : Z) (name : list Z) (uid : Z) (gid : list Z) (dirmode : bool) (t : tree)
    : option answer :=
  let mr := replays sesflags in
  if negb mr && flag sesflags SESFLAG_READONLY then refuse MFS_ERROR_EROFS t
  else
    found ← fsnodes_node_find_ext (view t) rootinode sesflags parent false;
    match found with
    | None => refuse MFS_ERROR_ENOENT t
    | Some parent =>
        wd ← t_nodes t !! parent;
        if negb (is_dir wd) then refuse MFS_ERROR_ENOTDIR t
        else if negb mr && flag (n_eattr wd) (Z.lor EATTR_IMMUTABLE EATTR_APPENDONLY) then refuse MFS_ERROR_EPERM t
        else
          ok ← may sesflags parent wd uid gid (Z.lor MODE_MASK_W MODE_MASK_X) t;
          if negb ok then refuse MFS_ERROR_EACCES t
          else if negb (fsnodes_namecheck name) then refuse MFS_ERROR_EINVAL t
          else
            e ← fsnodes_lookup parent name t;
            match e with
            | None => refuse MFS_ERROR_ENOENT t
            | Some e =>
                ed ← t_edges t !! e;
                child ← t_nodes t !! e_child ed;
                match unlink_refused sesflags wd child uid dirmode t with
                | Some status => refuse status t
                | None =>
                    t ← fsnodes_unlink ts e t;
                    Some (MFS_STATUS_OK, e_child ed, t, if mr then None else Some (UNLINK ts parent name (e_child ed)))
                end
            end
    end.

Definition fs_unlink (ts rootinode sesflags parent : Z) (name : list Z) (uid : Z) (gid : list Z) (t : tree) : option answer :=
  fs_univ_unlink ts rootinode sesflags parent name uid gid false t.
Definition fs_rmdir (ts rootinode sesflags parent : Z) (name : list Z) (uid : Z) (gid : list Z) (t : tree) : option answer :=
  fs_univ_unlink ts rootinode sesflags parent name uid gid true t.

Definition fs_mr_unlink (ts parent : Z) (name : list Z) (inode : Z) (t : tree) : option answer :=
  '(status, rinode, t, e) ← fs_univ_unlink ts 0 SESFLAG_METARESTORE parent name 0 [] false t;
  if negb (status =? MFS_STATUS_OK) then Some (status, 0, t, e)
  else if negb (rinode =? inode) then Some (MFS_ERROR_MISMATCH, 0, t, e)
  else Some (MFS_STATUS_OK, 0, t, e).

(** ** Move *)

(** The first of two tests that refuses: [Some (Some status)]. *)
Definition check (a b : option (option Z)) : option (option Z) :=
  s ← a; match s with Some st => Some (Some st) | None => b end.
(** A test of one condition. *)
Definition refuse_if (b : bool) (status : Z) : option (option Z) := Some (if b then Some status else None).
Definition refuse_unless (b : option bool) (status : Z) : option (option Z) := ok ← b; refuse_if (negb ok) status.

Definition pos_diff (a b : Z) : Z := if b <? a then a - b else 0.

(** The tests up to the name in the source directory. *)
Definition move_refused_swd (sesflags parent_src : Z) (swd : node) (name_src : list Z) (uid : Z) (gid : list Z) (t : tree)
    : option (option Z) :=
  check (refuse_if (negb (is_dir swd)) MFS_ERROR_ENOTDIR)
  (check (refuse_if (negb (replays sesflags) && flag (n_eattr swd) (Z.lor EATTR_IMMUTABLE EATTR_APPENDONLY)) MFS_ERROR_EPERM)
  (check (refuse_unless (may sesflags parent_src swd uid gid (Z.lor MODE_MASK_W MODE_MASK_X) t) MFS_ERROR_EACCES)
         (refuse_if (negb (fsnodes_namecheck name_src)) MFS_ERROR_EINVAL))).

(** A directory does not go below itself; its own rights change with its parent. *)
Definition move_refused_dir (sesflags : Z) (inode : Z) (n : node) (wd parent_src parent_dst uid : Z) (gid : list Z) (t : tree)
    : option (option Z) :=
  if is_dir n then
    anc ← fsnodes_isancestor (view t) inode wd;
    if (anc : bool) then Some (Some MFS_ERROR_EINVAL)
    else if negb (parent_src =? parent_dst) then refuse_unless (may sesflags inode n uid gid MODE_MASK_W t) MFS_ERROR_EACCES
    else Some None
  else Some None.

(** The tests of the node that moves and the directory it moves to. *)
Definition move_refused_dwd (sesflags parent_src parent_dst : Z) (swd dwd : node) (srcnode : Z) (src : node)
    (name_dst : list Z) (uid : Z) (gid : list Z) (t : tree) : option (option Z) :=
  let mr := replays sesflags in
  check (refuse_if (negb mr && negb (fsnodes_sticky_access (node_view t swd) (node_view t src) uid)) MFS_ERROR_EPERM)
  (check (refuse_if (negb (is_dir dwd)) MFS_ERROR_ENOTDIR)
  (check (refuse_if (negb mr && flag (n_eattr dwd) EATTR_IMMUTABLE) MFS_ERROR_EPERM)
  (check (refuse_unless (may sesflags parent_dst dwd uid gid (Z.lor MODE_MASK_W MODE_MASK_X) t) MFS_ERROR_EACCES)
  (check (refuse_if (negb mr && flag (n_eattr src) EATTR_IMMUTABLE) MFS_ERROR_EPERM)
  (check (move_refused_dir sesflags srcnode src parent_dst parent_src parent_dst uid gid t)
         (refuse_if (negb (fsnodes_namecheck name_dst)) MFS_ERROR_EINVAL)))))).

(** The tests of the node that has the new name. *)
Definition move_refused_dst (sesflags parent_src parent_dst : Z) (dwd : node) (dstnode : Z) (dst : node) (uid : Z)
    (gid : list Z) (rmode delflags : Z) (t : tree) : option (option Z) :=
  let mr := replays sesflags in
  check (refuse_if (rmode =? MFS_RENAME_NOREPLACE) MFS_ERROR_EEXIST)
  (check (refuse_if (negb mr && flag (n_eattr dwd) EATTR_APPENDONLY) MFS_ERROR_EPERM)
  (check (refuse_if (negb mr && negb (fsnodes_sticky_access (node_view t dwd) (node_view t dst) uid)) MFS_ERROR_EPERM)
  (if rmode =? MFS_RENAME_EXCHANGE then
     check (refuse_if (negb mr && flag (n_eattr dst) EATTR_IMMUTABLE) MFS_ERROR_EPERM)
       (move_refused_dir sesflags dstnode dst parent_src parent_src parent_dst uid gid t)
   else
     check (refuse_if (flag delflags 1 && negb (is_dir dst)) MFS_ERROR_EPERM)
     (check (refuse_if (flag delflags 2 && is_dir dst) MFS_ERROR_EPERM)
            (refuse_if (is_dir dst && has_children dst) MFS_ERROR_ENOTEMPTY))))).

(** The quotas: what one directory would get more than it loses. *)
Definition quota_for_difference (dwd swd : Z) (ssr dsr : statsrecord) (t : tree) : option bool :=
  fsnodes_test_quota_for_uncommon_nodes dwd swd (pos_diff (sr_inodes ssr) (sr_inodes dsr)) (pos_diff (sr_length ssr) (sr_length dsr))
    (pos_diff (sr_size ssr) (sr_size dsr)) (pos_diff (sr_realsize ssr) (sr_realsize dsr)) t.

Definition move_quota (rmode dwd swd srcnode : Z) (dstnode : option Z) (t : tree) : option (bool * tree) :=
  '(ssr, t) ← fsnodes_get_stats srcnode 2 t;
  match dstnode with
  | Some dstnode =>
      '(dsr, t) ← fsnodes_get_stats dstnode 2 t;
      full ← quota_for_difference dwd swd ssr dsr t;
      if (full : bool) then Some (true, t)
      else if rmode =? MFS_RENAME_EXCHANGE then
        full ← quota_for_difference swd dwd dsr ssr t;
        Some (full, t)
      else Some (false, t)
  | None =>
      full ← fsnodes_test_quota_for_uncommon_nodes dwd swd (sr_inodes ssr) (sr_length ssr) (sr_size ssr) (sr_realsize ssr) t;
      Some (full, t)
  end.

(** What the pattern of the new name changes in the node. *)
Definition move_pattern (srcnode uid : Z) (gid : list Z) (name_dst : list Z) (t : tree) : option tree :=
  src ← t_nodes t !! srcnode;
  let pt := patterns_find_matching patterntab uid gid name_dst in
  t ← (if pattern_class pt src =? n_sclassid src then Some t
       else if n_type src =? TYPE_FILE then fsnodes_changefilesclassid srcnode (pattern_class pt src) t
       else change_class srcnode (pattern_class pt src) t);
  src ← t_nodes t !! srcnode;
  Some (put srcnode (with_class (n_sclassid src) (pattern_eattr pt src) (pattern_retention pt src) src) t).

(** The move itself. *)
Definition move_edges (ts rmode : Z) (se : positive) (de : option positive) (swd dwd srcnode : Z) (name_src name_dst : list Z)
    (uid : Z) (gid : list Z) (t : tree) : option tree :=
  if rmode =? MFS_RENAME_EXCHANGE then
    de ← de; ded ← t_edges t !! de;
    let dstnode := e_child ded in
    t ← fsnodes_remove_edge ts se t;
    t ← fsnodes_remove_edge ts de t;
    t ← fsnodes_link ts dwd srcnode name_dst t;
    fsnodes_link ts swd dstnode name_src t
  else
    t ← (match de with Some de => fsnodes_unlink ts de t | None => Some t end);
    t ← fsnodes_remove_edge ts se t;
    t ← fsnodes_link ts dwd srcnode name_dst t;
    move_pattern srcnode uid gid name_dst t.

Definition fs_univ_move (ts rootinode sesflags parent_src : Z) (name_src : list Z) (parent_dst : Z) (name_dst : list Z) (uid : Z)
    (gid : list Z) (rmode delflags : Z) (t : tree) : option answer :=
  let mr := replays sesflags in
  if negb mr && flag sesflags SESFLAG_READONLY then refuse MFS_ERROR_EROFS t
  else
    found_src ← fsnodes_node_find_ext (view t) rootinode sesflags parent_src false;
    found_dst ← fsnodes_node_find_ext (view t) rootinode sesflags parent_dst false;
    match found_src, found_dst with
    | Some parent_src, Some parent_dst =>
        swd ← t_nodes t !! parent_src;
        dwd ← t_nodes t !! parent_dst;
        status ← move_refused_swd sesflags parent_src swd name_src uid gid t;
        match status with
        | Some status => refuse status t
        | None =>
            se ← fsnodes_lookup parent_src name_src t;
            match se with
            | None => refuse MFS_ERROR_ENOENT t
            | Some se =>
                sed ← t_edges t !! se;
                let srcnode := e_child sed in
                src ← t_nodes t !! srcnode;
                status ← move_refused_dwd sesflags parent_src parent_dst swd dwd srcnode src name_dst uid gid t;
                match status with
                | Some status => refuse status t
                | None =>
                    de ← fsnodes_lookup parent_dst name_dst t;
                    '(status, dstnode) ←
                      (match de with
                       | Some de =>
                           ded ← t_edges t !! de;
                           dst ← t_nodes t !! e_child ded;
                           status ← move_refused_dst sesflags parent_src parent_dst dwd (e_child ded) dst uid gid rmode delflags t;
                           Some (status, Some (e_child ded))
                       | None => Some (if rmode =? MFS_RENAME_EXCHANGE then Some MFS_ERROR_ENOENT else None, None)
                       end);
                    match status with
                    | Some status => refuse status t
                    | None =>
                        '(full, t) ← (if mr then Some (false, t) else move_quota rmode parent_dst parent_src srcnode dstnode t);
                        if (full : bool) then refuse MFS_ERROR_QUOTA t
                        else
                          t ← move_edges ts rmode se de parent_src parent_dst srcnode name_src name_dst uid gid t;
                          let inode := if rmode =? MFS_RENAME_EXCHANGE then 0 else srcnode in
                          Some (MFS_STATUS_OK, inode, t,
                                if mr then None else Some (MOVE ts parent_src name_src parent_dst name_dst rmode inode))
                    end
                end
            end
        end
    | _, _ => refuse MFS_ERROR_ENOENT t
    end.

Definition fs_rename := fs_univ_move.

Definition fs_mr_move (ts parent_src : Z) (name_src : list Z) (parent_dst : Z) (name_dst : list Z) (rmode inode : Z) (t : tree)
    : option answer :=
  '(status, rinode, t, e) ← fs_univ_move ts 0 SESFLAG_METARESTORE parent_src name_src parent_dst name_dst 0 [] rmode 0 t;
  if negb (status =? MFS_STATUS_OK) then Some (status, 0, t, e)
  else if negb (rinode =? inode) then Some (MFS_ERROR_MISMATCH, 0, t, e)
  else Some (MFS_STATUS_OK, 0, t, e).

(** ** Hard links *)

(** [nlink] of a node that may get another link. *)
Definition nlink_of (n : node) : option Z :=
  match n_data n with fdata _ _ nl _ => Some nl | odata nl => Some nl | devdata _ nl => Some nl | sdata _ nl => Some nl | ddata _ _ _ _ _ => None end.

Definition fs_univ_link (ts rootinode sesflags inode_src parent_dst : Z) (name_dst : list Z) (uid : Z) (gid : list Z) (t : tree)
    : option answer :=
  let mr := replays sesflags in
  if negb mr && flag sesflags SESFLAG_READONLY then refuse MFS_ERROR_EROFS t
  else
    found_src ← fsnodes_node_find_ext (view t) rootinode sesflags inode_src false;
    found_dst ← fsnodes_node_find_ext (view t) rootinode sesflags parent_dst false;
    match found_src, found_dst with
    | Some inode_src, Some parent_dst =>
        sp ← t_nodes t !! inode_src;
        dwd ← t_nodes t !! parent_dst;
        if negb mr && flag (n_eattr sp) EATTR_IMMUTABLE then refuse MFS_ERROR_EPERM t
        else if (n_type sp =? TYPE_TRASH) || (n_type sp =? TYPE_SUSTAINED) then refuse MFS_ERROR_ENOENT t
        else if is_dir sp then refuse MFS_ERROR_EPERM t
        else
          nlink ← nlink_of sp;
          if negb mr && (MaxAllowedHardLinks <=? nlink) then refuse MFS_ERROR_EMLINK t
          else if negb (is_dir dwd) then refuse MFS_ERROR_ENOTDIR t
          else if negb mr && flag (n_eattr dwd) EATTR_IMMUTABLE then refuse MFS_ERROR_EPERM t
          else
            ok ← may sesflags parent_dst dwd uid gid (Z.lor MODE_MASK_W MODE_MASK_X) t;
            if negb ok then refuse MFS_ERROR_EACCES t
            else if negb (fsnodes_namecheck name_dst) then refuse MFS_ERROR_EINVAL t
            else if fsnodes_nameisused parent_dst name_dst t then refuse MFS_ERROR_EEXIST t
            else
              '(full, t) ← (if mr then Some (false, t)
                            else
                              '(sr, t) ← fsnodes_get_stats inode_src 2 t;
                              full ← fsnodes_test_quota parent_dst (sr_inodes sr) (sr_length sr) (sr_size sr) (sr_realsize sr) t;
                              Some (full, t));
              if (full : bool) then refuse MFS_ERROR_QUOTA t
              else
                t ← fsnodes_link ts parent_dst inode_src name_dst t;
                Some (MFS_STATUS_OK, inode_src, t, if mr then None else Some (LINK ts inode_src parent_dst name_dst))
    | _, _ => refuse MFS_ERROR_ENOENT t
    end.

Definition fs_link := fs_univ_link.

Definition fs_mr_link (ts inode_src parent_dst : Z) (name_dst : list Z) (t : tree) : option answer :=
  '(status, rinode, t, e) ← fs_univ_link ts 0 SESFLAG_METARESTORE inode_src parent_dst name_dst 0 [] t;
  if negb (status =? MFS_STATUS_OK) then Some (status, 0, t, e)
  else if negb (rinode =? inode_src) then Some (MFS_ERROR_MISMATCH, 0, t, e)
  else Some (MFS_STATUS_OK, 0, t, e).

(** ** Trash *)

Definition fs_univ_trash_remove (ts sesflags inode uid : Z) (t : tree) : option answer :=
  let mr := replays sesflags in
  if negb mr && flag sesflags SESFLAG_READONLY then refuse MFS_ERROR_EROFS t
  else
    match t_nodes t !! inode with
    | None => refuse MFS_ERROR_ENOENT t
    | Some sp =>
        if negb (uid =? 0) && negb (n_uid sp =? uid) then refuse MFS_ERROR_EPERM t
        else if negb (n_type sp =? TYPE_TRASH) then refuse MFS_ERROR_ENOENT t
        else
          '(_, t) ← fsnodes_purge ts inode t;
          Some (MFS_STATUS_OK, 0, t, if mr then None else Some (TRASH_REMOVE ts inode))
    end.

Definition fs_trash_remove := fs_univ_trash_remove.
Definition fs_mr_trash_remove (ts inode : Z) (t : tree) : option answer :=
  fs_univ_trash_remove ts SESFLAG_METARESTORE inode 0 t.

Definition fs_univ_purge (ts rootinode sesflags inode : Z) (t : tree) : option answer :=
  let mr := replays sesflags in
  if negb (rootinode =? 0) then refuse MFS_ERROR_EPERM t
  else if negb mr && flag sesflags SESFLAG_READONLY then refuse MFS_ERROR_EROFS t
  else
    match t_nodes t !! inode with
    | None => refuse MFS_ERROR_ENOENT t
    | Some p =>
        if negb (n_type p =? TYPE_TRASH) then refuse MFS_ERROR_ENOENT t
        else
          '(_, t) ← fsnodes_purge ts inode t;
          Some (MFS_STATUS_OK, 0, t, if mr then None else Some (PURGE ts inode))
    end.

Definition fs_purge := fs_univ_purge.
Definition fs_mr_purge (ts inode : Z) (t : tree) : option answer := fs_univ_purge ts 0 SESFLAG_METARESTORE inode t.

(** The path of a file in the trash: status and path. *)
Definition fs_gettrashpath (rootinode inode : Z) (t : tree) : option (Z * list Z) :=
  if negb (rootinode =? 0) then Some (MFS_ERROR_EPERM, [])
  else
    match t_nodes t !! inode with
    | None => Some (MFS_ERROR_ENOENT, [])
    | Some p =>
        if negb (n_type p =? TYPE_TRASH) then Some (MFS_ERROR_ENOENT, [])
        else e ← head (n_parents p); ed ← t_edges t !! e; Some (MFS_STATUS_OK, e_name ed)
    end.

Definition fs_univ_setpath (ts rootinode sesflags inode : Z) (path : list Z) (t : tree) : option answer :=
  let mr := replays sesflags in
  let pleng := Z.of_nat (length path) in
  if negb (rootinode =? 0) then refuse MFS_ERROR_EPERM t
  else if negb mr && flag sesflags SESFLAG_READONLY then refuse MFS_ERROR_EROFS t
  else if (pleng =? 0) || (MFS_PATH_MAX <? pleng) then refuse MFS_ERROR_EINVAL t
  else if existsb (λ c, c =? 0) path then refuse MFS_ERROR_EINVAL t
  else
    match t_nodes t !! inode with
    | None => refuse MFS_ERROR_ENOENT t
    | Some p =>
        if negb (n_type p =? TYPE_TRASH) then refuse MFS_ERROR_ENOENT t
        else
          e ← head (n_parents p);
          t ← fsnodes_remove_edge 0 e t;
          t ← detach true inode path t;
          Some (MFS_STATUS_OK, 0, t, if mr then None else Some (SETPATH ts inode path))
    end.

Definition fs_settrashpath := fs_univ_setpath.

(** A path of the changelog ends at its first zero. *)
Fixpoint c_string (path : list Z) : list Z :=
  match path with [] => [] | c :: path => if c =? 0 then [] else c :: c_string path end.
Definition fs_mr_setpath (inode : Z) (path : list Z) (t : tree) : option answer :=
  fs_univ_setpath 0 0 SESFLAG_METARESTORE inode (c_string path) t.

(** ** Length *)

(** The change of the length and of the times that goes with it. *)
Definition set_length_and_times (ts inode length : Z) (chtime : bool) (t : tree) : option tree :=
  t ← fsnodes_setlength inode length t;
  if chtime then
    p ← t_nodes t !! inode;
    fsnodes_checkarchmode inode ts (Z.lor SCLASS_ARCH_MODE_CTIME SCLASS_ARCH_MODE_MTIME) (put inode (with_times ts ts (n_atime p) p) t)
  else fsnodes_checkarchmode inode ts 0 t.

(** The result is the status, the length before, the state and the entry. *)
Definition fs_do_setlength (ts rootinode sesflags inode flags length : Z) (ar : restab) (t : tree)
    : option (Z * Z * tree * restab * option tree_entry) :=
  found ← fsnodes_node_find_ext (view t) rootinode sesflags inode (flag flags TRUNCATE_FLAG_OPENED);
  match found with
  | None => Some (MFS_ERROR_ENOENT, 0, t, ar, None)
  | Some inode =>
      p ← t_nodes t !! inode;
      oldlen ← file_length p;
      if flag flags TRUNCATE_FLAG_RESERVE then
        let vleng := appendres_getvleng inode ar in
        let vleng := if vleng <? oldlen then oldlen else vleng in
        Some (MFS_STATUS_OK, vleng, t, appendres_setvleng inode (u64 (length + vleng)) ar, None)
      else
        '(t, e) ←
          (if flag flags TRUNCATE_FLAG_UPDATE then
             if oldlen <? length then
               t ← set_length_and_times ts inode length false t; Some (t, Some (LENGTH ts inode length false))
             else Some (t, None)
           else
             let chtime := negb ((length =? oldlen) && flag flags TRUNCATE_FLAG_TIMEFIX) in
             t ← set_length_and_times ts inode length chtime t; Some (t, Some (LENGTH ts inode length chtime)));
        Some (MFS_STATUS_OK, oldlen, t, appendres_clear inode ar, e)
  end.

Definition fs_mr_length (ts inode length : Z) (canmodmtime : bool) (t : tree) : option answer :=
  match t_nodes t !! inode with
  | None => refuse MFS_ERROR_ENOENT t
  | Some p =>
      if negb (is_file p) then refuse MFS_ERROR_EINVAL t
      else
        t ← set_length_and_times ts inode length canmodmtime t;
        Some (MFS_STATUS_OK, 0, t, None)
  end.

End with_classes.
