(* ===== verification/FsStats.v ===== *)
(** * Statistics of directories

    The statistics of a directory are the sum of the statistics of its children.
    The records are compared modulo the width of their fields, an equivalence the sums
    respect; [climb_stats] is proved to restore the sum along the way to the root. *)

From S2P Require Import Prelude MfsComm FreeInodes StorageClass DataPack FsNodes PosixAcl FsAccess FsTree.

(** ** Records modulo their widths *)

Definition cong (m x y : Z) : Prop := x `mod` m = y `mod` m.

#[export] Instance cong_equiv m : Equivalence (cong m).
Proof. unfold cong. split; red; congruence. Qed.

#[export] Instance cong_add m : Proper (cong m ==> cong m ==> cong m) Z.add.
Proof. intros x x' Hx y y' Hy. unfold cong in *. rewrite (Zplus_mod x y), (Zplus_mod x' y'). by rewrite Hx, Hy. Qed.

#[export] Instance cong_mul m : Proper (cong m ==> cong m ==> cong m) Z.mul.
Proof. intros x x' Hx y y' Hy. unfold cong in *. rewrite (Zmult_mod x y), (Zmult_mod x' y'). by rewrite Hx, Hy. Qed.

Lemma cong_mod m x : cong m (x `mod` m) x.
Proof. unfold cong. apply Zmod_mod. Qed.

Lemma cong_u32 x : cong (2 ^ 32) (u32 x) x.
Proof. apply cong_mod. Qed.

Lemma sr_cong_comm m x y z : cong m (x + y + z) (x + z + y).
Proof. by replace (x + y + z) with (x + z + y) by lia. Qed.

Lemma cong_eq m x y : 0 ≤ x < m → 0 ≤ y < m → cong m x y → x = y.
Proof. unfold cong. intros Hx Hy. by rewrite !Z.mod_small. Qed.

#[export] Instance sr_equiv : Equiv statsrecord := λ a b,
  cong (2 ^ 32) (sr_inodes a) (sr_inodes b) ∧ cong (2 ^ 32) (sr_dirs a) (sr_dirs b) ∧
  cong (2 ^ 32) (sr_files a) (sr_files b) ∧ cong (2 ^ 32) (sr_chunks a) (sr_chunks b) ∧
  cong (2 ^ 64) (sr_length a) (sr_length b) ∧ cong (2 ^ 64) (sr_size a) (sr_size b) ∧
  cong (2 ^ 64) (sr_realsize a) (sr_realsize b).

#[export] Instance sr_equivalence : Equivalence (≡@{statsrecord}).
Proof.
  split; [intros a|intros a b|intros a b c]; unfold equiv, sr_equiv, cong; [by split_and!|naive_solver|].
  intros (?&?&?&?&?&?&?) (?&?&?&?&?&?&?). split_and!; congruence.
Qed.

Lemma sr_of_eq (a b : statsrecord) : a = b → a ≡ b.
Proof. by intros ->. Qed.

Definition sr_zero : statsrecord := mk_sr 0 0 0 0 0 0 0.

(** Sum and multiple without wrap-around. *)
Definition sr_plus (a b : statsrecord) : statsrecord :=
  mk_sr (sr_inodes a + sr_inodes b) (sr_dirs a + sr_dirs b) (sr_files a + sr_files b) (sr_chunks a + sr_chunks b)
    (sr_length a + sr_length b) (sr_size a + sr_size b) (sr_realsize a + sr_realsize b).
Definition sr_times (k : Z) (a : statsrecord) : statsrecord :=
  mk_sr (k * sr_inodes a) (k * sr_dirs a) (k * sr_files a) (k * sr_chunks a) (k * sr_length a) (k * sr_size a)
    (k * sr_realsize a).

#[export] Instance sr_plus_proper : Proper ((≡) ==> (≡) ==> (≡)) sr_plus.
Proof.
  intros a a' (?&?&?&?&?&?&?) b b' (?&?&?&?&?&?&?). unfold equiv, sr_equiv, sr_plus; simpl.
  split_and!; by apply cong_add.
Qed.

#[export] Instance sr_times_proper k : Proper ((≡) ==> (≡)) (sr_times k).
Proof.
  intros a a' (?&?&?&?&?&?&?). unfold equiv, sr_equiv, sr_times; simpl. split_and!; by apply cong_mul.
Qed.

(** Proves an equation of sums and multiples of records. *)
Ltac sr_ring :=
  repeat match goal with s : statsrecord |- _ => destruct s end;
  unfold sr_plus, sr_times, sr_zero; simpl; f_equal; lia.

Lemma sr_plus_comm a b : sr_plus a b = sr_plus b a.
Proof. sr_ring. Qed.
Lemma sr_plus_assoc a b c : sr_plus a (sr_plus b c) = sr_plus (sr_plus a b) c.
Proof. sr_ring. Qed.
Lemma sr_plus_zero_l a : sr_plus sr_zero a = a.
Proof. sr_ring. Qed.
Lemma sr_plus_zero_r a : sr_plus a sr_zero = a.
Proof. sr_ring. Qed.
Lemma sr_times_0 a : sr_times 0 a = sr_zero.
Proof. sr_ring. Qed.
Lemma sr_times_1 a : sr_times 1 a = a.
Proof. sr_ring. Qed.
Lemma sr_times_plus k l a : sr_times (k + l) a = sr_plus (sr_times k a) (sr_times l a).
Proof. sr_ring. Qed.

(** The operations of the code are these, modulo the widths. *)
Lemma sr_add_equiv a b : sr_add a b ≡ sr_plus a b.
Proof. unfold equiv, sr_equiv, sr_add, sr_plus; simpl. split_and!; apply cong_mod. Qed.

Lemma sr_sub_equiv a b : sr_sub a b ≡ sr_plus a (sr_times (-1) b).
Proof.
  unfold equiv, sr_equiv, sr_sub, sr_plus, sr_times; simpl.
  split_and!; (etransitivity; [apply cong_mod|]; unfold cong; f_equal; lia).
Qed.

Definition sr_only_realsize (d : Z) : statsrecord := mk_sr 0 0 0 0 0 0 d.

Lemma sr_add_realsize_equiv a d : sr_add_realsize a d ≡ sr_plus a (sr_only_realsize d).
Proof.
  unfold equiv, sr_equiv, sr_add_realsize, sr_plus, sr_only_realsize; simpl.
  split_and!; rewrite ?Z.add_0_r; try reflexivity. apply cong_mod.
Qed.

(** From [a ≡ b] conclude [b + (-1) a ≡ 0] and the like. *)
Lemma sr_move a b d : sr_plus a d ≡ b ↔ a ≡ sr_plus b (sr_times (-1) d).
Proof.
  split; [intros <-|intros ->].
  - assert (sr_plus (sr_plus a d) (sr_times (-1) d) = a) as -> by sr_ring. done.
  - assert (sr_plus (sr_plus b (sr_times (-1) d)) d = b) as -> by sr_ring. done.
Qed.

(** ** The sum over the children *)

Definition st_of (t : tree) (i : Z) : statsrecord :=
  match t_nodes t !! i with Some n => default sr_zero (node_stats n) | None => sr_zero end.
Definition edge_stats (t : tree) (e : positive) : statsrecord :=
  match t_edges t !! e with Some ed => st_of t (e_child ed) | None => sr_zero end.
Definition dir_sum (t : tree) (cs : list positive) : statsrecord := foldr (λ e s, sr_plus (edge_stats t e) s) sr_zero cs.

Definition children (n : node) : list positive := match n_data n with ddata cs _ _ _ _ => cs | _ => [] end.
Definition dir_stats (n : node) : option statsrecord := match n_data n with ddata _ _ _ st _ => Some st | _ => None end.

(** How often [i] is in a list. *)
Definition occurs (i : Z) (l : list Z) : Z := Z.of_nat (length (filter (λ x, x = i) l)).

Lemma occurs_app i l k : occurs i (l ++ k) = occurs i l + occurs i k.
Proof. unfold occurs. rewrite filter_app, length_app. lia. Qed.
Lemma occurs_cons i x l : occurs i (x :: l) = (if decide (x = i) then 1 else 0) + occurs i l.
Proof. unfold occurs. rewrite filter_cons. case_decide; simpl; lia. Qed.
Lemma occurs_nil i : occurs i [] = 0.
Proof. done. Qed.

(** In every directory [i] the statistics miss [g i]. *)
Definition gapped (g : Z → statsrecord) (t : tree) : Prop :=
  ∀ i n st, t_nodes t !! i = Some n → n_type n = TYPE_DIRECTORY → dir_stats n = Some st →
    sr_plus st (g i) ≡ dir_sum t (children n).

Lemma gapped_ext g g' t : (∀ i, g i ≡ g' i) → gapped g t → gapped g' t.
Proof. intros Heq H i n st Hn Ht Hs. rewrite <- (Heq i). by apply H. Qed.

(** They miss [g], and [d] in the directories of [L], once for each time they are
    there. *)
Definition pending (g : Z → statsrecord) (L : list Z) (d : statsrecord) : tree → Prop :=
  gapped (λ i, sr_plus (g i) (sr_times (occurs i L) d)).

Definition stats_ok : tree → Prop := gapped (λ _, sr_zero).

Lemma pending_nil g d t : pending g [] d t ↔ gapped g t.
Proof. split; apply gapped_ext; intros i; rewrite occurs_nil, sr_times_0, sr_plus_zero_r; done. Qed.

(** ** The edges of the tree *)

(** The type of a node fits the member of its union. *)
Definition shape_ok (n : node) : Prop :=
  match n_data n with
  | ddata _ _ _ _ _ => n_type n = TYPE_DIRECTORY
  | fdata _ _ _ _ => is_file n = true
  | sdata _ _ => n_type n = TYPE_SYMLINK
  | devdata _ _ => n_type n = TYPE_BLOCKDEV ∨ n_type n = TYPE_CHARDEV
  | odata _ => n_type n = TYPE_FIFO ∨ n_type n = TYPE_SOCKET
  end.

(** Edges, lists of parents, lists of children and the table of names agree. *)
Record coherent (t : tree) : Prop := {
  co_child e ed : t_edges t !! e = Some ed → ∃ n, t_nodes t !! e_child ed = Some n ∧ e ∈ n_parents n;
  co_parents i n e : t_nodes t !! i = Some n → e ∈ n_parents n → ∃ ed, t_edges t !! e = Some ed ∧ e_child ed = i;
  co_parents_nodup i n : t_nodes t !! i = Some n → NoDup (n_parents n);
  co_parent e ed p : t_edges t !! e = Some ed → e_parent ed = Some p →
    ∃ n, t_nodes t !! p = Some n ∧ n_type n = TYPE_DIRECTORY ∧ e ∈ children n;
  co_children i n e : t_nodes t !! i = Some n → e ∈ children n → ∃ ed, t_edges t !! e = Some ed ∧ e_parent ed = Some i;
  co_children_nodup i n : t_nodes t !! i = Some n → NoDup (children n);
  co_shape i n : t_nodes t !! i = Some n → shape_ok n;
  co_fresh e ed : t_edges t !! e = Some ed → (e < t_edgenext t)%positive;
  co_names p name e : t_names t !! (p, name) = Some e ↔
    ∃ ed, t_edges t !! e = Some ed ∧ e_parent ed = Some p ∧ e_name ed = name;
  co_root : ∃ n, t_nodes t !! MFS_ROOT_ID = Some n ∧ n_type n = TYPE_DIRECTORY ∧ n_parents n = [] }.

(** What coherence looks at in a node. *)
Inductive tag := TagDir | TagSymlink | TagDev | TagFile | TagOther.
Definition data_tag (d : ndata) : tag :=
  match d with ddata _ _ _ _ _ => TagDir | sdata _ _ => TagSymlink | devdata _ _ => TagDev | fdata _ _ _ _ => TagFile | odata _ => TagOther end.
Definition skel (n : node) : Z * list positive * list positive * tag := (n_type n, n_parents n, children n, data_tag (n_data n)).

(** Two states with the same edges and the same shape of nodes. *)
Definition same_shape (t t' : tree) : Prop :=
  skel <$> t_nodes t' = skel <$> t_nodes t ∧ t_edges t' = t_edges t ∧ t_edgenext t' = t_edgenext t ∧ t_names t' = t_names t.

#[export] Instance same_shape_equiv : Equivalence same_shape.
Proof.
  unfold same_shape. split; red; [done|naive_solver|]. intros t1 t2 t3 (?&?&?&?) (?&?&?&?). split_and!; congruence.
Qed.

Lemma same_shape_lookup t t' i n' :
  same_shape t t' → t_nodes t' !! i = Some n' → ∃ n, t_nodes t !! i = Some n ∧ skel n' = skel n.
Proof.
  intros (Hm & _) Hn'. assert ((skel <$> t_nodes t') !! i = (skel <$> t_nodes t) !! i) as Heq by (by rewrite Hm).
  rewrite !lookup_fmap, Hn' in Heq. destruct (t_nodes t !! i) as [n|]; [|done]. exists n. split; [done|]. simpl in Heq. congruence.
Qed.

Lemma same_shape_put t i n n' : t_nodes t !! i = Some n → skel n' = skel n → same_shape t (put i n' t).
Proof.
  intros Hn Hs. split_and!; try done. simpl. rewrite fmap_insert. apply map_eq. intros j.
  destruct (decide (i = j)) as [->|]; [|by rewrite lookup_insert_ne].
  by rewrite lookup_insert_eq, lookup_fmap, Hn, Hs.
Qed.

Lemma skel_inv n n' : skel n' = skel n →
  n_type n' = n_type n ∧ n_parents n' = n_parents n ∧ children n' = children n ∧ data_tag (n_data n') = data_tag (n_data n).
Proof. unfold skel. intros [= -> -> -> ->]. done. Qed.

Lemma shape_ok_skel n n' : skel n' = skel n → shape_ok n → shape_ok n'.
Proof.
  intros (Ht & _ & _ & Hd)%skel_inv. unfold shape_ok, is_file. rewrite Ht.
  destruct (n_data n), (n_data n'); done.
Qed.

Lemma coherent_shape t t' : same_shape t t' → coherent t → coherent t'.
Proof.
  intros Hs [H1 H2 H3 H4 H5 H6 H7 H8 H9 H10]. assert (same_shape t' t) as Hs' by (by symmetry).
  pose proof Hs as (_ & He & Hf & Hnm). rewrite <- He, <- Hf, <- Hnm in *.
  split.
  - intros e ed Hed. destruct (H1 e ed Hed) as (n & Hn & Hin).
    destruct (same_shape_lookup _ _ _ _ Hs' Hn) as (n' & Hn' & (_ & Hp & _)%skel_inv). exists n'. by rewrite <- Hp.
  - intros i n' e Hn' Hin. destruct (same_shape_lookup _ _ _ _ Hs Hn') as (n & Hn & (_ & Hp & _)%skel_inv).
    rewrite Hp in Hin. by eapply H2.
  - intros i n' Hn'. destruct (same_shape_lookup _ _ _ _ Hs Hn') as (n & Hn & (_ & -> & _)%skel_inv). by eapply H3.
  - intros e ed p Hed Hp. destruct (H4 e ed p Hed Hp) as (n & Hn & Ht & Hc).
    destruct (same_shape_lookup _ _ _ _ Hs' Hn) as (n' & Hn' & (Ht' & _ & Hc' & _)%skel_inv). exists n'.
    by rewrite <- Hc', <- Ht'.
  - intros i n' e Hn' Hin. destruct (same_shape_lookup _ _ _ _ Hs Hn') as (n & Hn & (_ & _ & Hc & _)%skel_inv).
    rewrite Hc in Hin. by eapply H5.
  - intros i n' Hn'. destruct (same_shape_lookup _ _ _ _ Hs Hn') as (n & Hn & (_ & _ & -> & _)%skel_inv). by eapply H6.
  - intros i n' Hn'. destruct (same_shape_lookup _ _ _ _ Hs Hn') as (n & Hn & Hsk). eapply shape_ok_skel; [done|]. by eapply H7.
  - done.
  - done.
  - destruct H10 as (n & Hn & Ht & Hp). destruct (same_shape_lookup _ _ _ _ Hs' Hn) as (n' & Hn' & (Ht' & Hp' & _)%skel_inv).
    exists n'. by rewrite <- Ht', <- Hp'.
Qed.

(** ** A change of one node *)

Definition edge_parent (t : tree) (e : positive) : option Z := ed ← t_edges t !! e; e_parent ed.
(** The directories a node is in, once for each link. *)
Definition parent_dirs (t : tree) (es : list positive) : list Z := omap (edge_parent t) es.
Definition parents_of (t : tree) (i : Z) : list Z :=
  match t_nodes t !! i with Some n => parent_dirs t (n_parents n) | None => [] end.

(** Whether the child of an edge is [c]. *)
Definition leads_to (t : tree) (c : Z) (e : positive) : bool :=
  match t_edges t !! e with Some ed => e_child ed =? c | None => false end.

Lemma occurs_parent_dirs t i es :
  occurs i (parent_dirs t es) = Z.of_nat (length (filter (λ e, edge_parent t e = Some i) es)).
Proof.
  induction es as [|e es IH]; [done|]. unfold parent_dirs in *. cbn [omap list_omap]. rewrite filter_cons.
  destruct (edge_parent t e) as [p|] eqn:Hp.
  - rewrite occurs_cons, IH. destruct (decide (p = i)) as [->|Hne].
    + rewrite decide_True by done. simpl. lia.
    + rewrite decide_False by congruence. lia.
  - rewrite IH, decide_False by done. done.
Qed.

(** The edges from a directory to a node, seen from both ends. *)
Lemma links_count t i ni c nc :
  coherent t → t_nodes t !! i = Some ni → t_nodes t !! c = Some nc →
  Z.of_nat (length (filter (λ e, leads_to t c e = true) (children ni))) = occurs i (parents_of t c).
Proof.
  intros Hco Hi Hc. unfold parents_of. rewrite Hc, occurs_parent_dirs. f_equal. apply Permutation_length, NoDup_Permutation.
  - apply NoDup_filter. by eapply co_children_nodup.
  - apply NoDup_filter. by eapply co_parents_nodup.
  - intros e. rewrite !list_elem_of_filter. unfold leads_to, edge_parent. split.
    + intros (Hl & Hin). destruct (co_children t Hco i ni e Hi Hin) as (ed & Hed & Hp). rewrite Hed in *. zbool. subst c.
      split; [done|]. destruct (co_child t Hco e ed Hed) as (n & Hn & Hin'). congruence.
    + intros (Hp & Hin). destruct (co_parents t Hco c nc e Hc Hin) as (ed & Hed & <-). rewrite Hed in *. simpl in Hp.
      split; [apply Z.eqb_refl|]. destruct (co_parent t Hco e ed i Hed Hp) as (n & Hn & _ & Hch). congruence.
Qed.

Lemma st_of_put i j n t : st_of (put i n t) j = if decide (i = j) then default sr_zero (node_stats n) else st_of t j.
Proof. unfold st_of, put. simpl. case_decide; subst; [by rewrite lookup_insert_eq|by rewrite lookup_insert_ne]. Qed.

Lemma edge_stats_put c n' d t e :
  default sr_zero (node_stats n') ≡ sr_plus (st_of t c) d →
  edge_stats (put c n' t) e ≡ sr_plus (edge_stats t e) (if leads_to t c e then d else sr_zero).
Proof.
  intros Hd. unfold edge_stats, leads_to. simpl. destruct (t_edges t !! e) as [ed|]; [|by rewrite sr_plus_zero_r].
  rewrite st_of_put. destruct (Z.eqb_spec (e_child ed) c) as [->|Hne].
  - by rewrite decide_True.
  - rewrite decide_False by congruence. by rewrite sr_plus_zero_r.
Qed.

(** The sum of a directory moves by [d] for each link to the changed node. *)
Lemma dir_sum_put c n' d t cs :
  default sr_zero (node_stats n') ≡ sr_plus (st_of t c) d →
  dir_sum (put c n' t) cs ≡ sr_plus (dir_sum t cs) (sr_times (Z.of_nat (length (filter (λ e, leads_to t c e = true) cs))) d).
Proof.
  intros Hd. induction cs as [|e cs IH].
  { cbn [dir_sum foldr filter list_filter length]. by rewrite sr_times_0, sr_plus_zero_r. }
  cbn [dir_sum foldr]. fold (dir_sum (put c n' t) cs) (dir_sum t cs). rewrite IH, (edge_stats_put c n' d t e Hd), filter_cons.
  destruct (leads_to t c e).
  - rewrite decide_True by done. cbn [length]. rewrite Nat2Z.inj_succ, <- Z.add_1_l, sr_times_plus, sr_times_1.
    apply sr_of_eq. sr_ring.
  - rewrite decide_False by done. apply sr_of_eq. sr_ring.
Qed.

Lemma st_of_node t i n : t_nodes t !! i = Some n → st_of t i = default sr_zero (node_stats n).
Proof. unfold st_of. by intros ->. Qed.

(** A node changes by [d]; what is kept in it, if it is a directory, by [a]. *)
Lemma gapped_put g c n n' a d t :
  coherent t → t_nodes t !! c = Some n → skel n' = skel n →
  (∀ st, dir_stats n = Some st → ∃ st', dir_stats n' = Some st' ∧ st' ≡ sr_plus st a) →
  default sr_zero (node_stats n') ≡ sr_plus (st_of t c) d →
  gapped g t →
  gapped (λ i, sr_plus (g i) (sr_plus (sr_times (occurs i (parents_of t c)) d)
                                (if decide (i = c) then sr_times (-1) a else sr_zero))) (put c n' t).
Proof.
  intros Hco Hc Hsk Hst Hd Hg i ni st Hi Ht Hs. pose proof (skel_inv _ _ Hsk) as (Htype & _ & Hch & Htag).
  simpl in Hi. rewrite (dir_sum_put c n' d t _ Hd). destruct (decide (i = c)) as [->|Hne].
  - rewrite lookup_insert_eq in Hi. injection Hi as <-. rewrite Hch, (links_count t c n c n Hco Hc Hc).
    assert (∃ st0, dir_stats n = Some st0) as (st0 & Hs0).
    { unfold dir_stats in *. destruct (n_data n), (n_data n'); try done. eauto. }
    destruct (Hst st0 Hs0) as (st' & Hs' & Heq). assert (st' = st) as -> by congruence.
    rewrite Htype in Ht. rewrite <- (Hg c n st0 Hc Ht Hs0), Heq. apply sr_of_eq. generalize (g c). intros. sr_ring.
  - rewrite lookup_insert_ne in Hi by done. rewrite (links_count t i ni c n Hco Hi Hc).
    rewrite <- (Hg i ni st Hi Ht Hs). apply sr_of_eq. generalize (g i). intros. sr_ring.
Qed.

(** The statistics of a node change by [d], but not what it keeps for its children:
    the directories it is in have to follow. *)
Lemma pending_start g c n n' d t :
  coherent t → t_nodes t !! c = Some n → skel n' = skel n → dir_stats n' = dir_stats n →
  default sr_zero (node_stats n') ≡ sr_plus (st_of t c) d →
  gapped g t → pending g (parents_of t c) d (put c n' t).
Proof.
  intros Hco Hc Hsk Hdir Hd Hok.
  eapply gapped_ext; [|apply (gapped_put g c n n' sr_zero d t Hco Hc Hsk); [|done|exact Hok]].
  - intros i. simpl. apply sr_of_eq. case_decide; sr_ring.
  - intros st Hs. exists st. split; [congruence|]. by rewrite sr_plus_zero_r.
Qed.

(** One directory of the list is mended: those it is in take its place. *)
Lemma pending_step g p L d f n n' t :
  coherent t → t_nodes t !! p = Some n → n_type n = TYPE_DIRECTORY → change_stats f n = Some n' →
  (∀ s, f s ≡ sr_plus s d) → pending g (p :: L) d t → pending g (parents_of t p ++ L) d (put p n' t).
Proof.
  intros Hco Hp Ht Hch Hf Hpend.
  unfold change_stats in Hch. destruct (n_data n) as [cs nl el st q| | | |] eqn:Hdata; [|done..]. injection Hch as <-.
  eapply gapped_ext; [|apply (gapped_put (λ i, sr_plus (g i) (sr_times (occurs i (p :: L)) d)) p n
                                (with_data (ddata cs nl el (f st) q) n) d d t Hco Hp); [|..|exact Hpend]].
  - intros i. simpl. rewrite occurs_cons, occurs_app. apply sr_of_eq.
    destruct (decide (p = i)) as [->|]; [rewrite decide_True by done|rewrite decide_False by done];
      generalize (g i); intros; sr_ring.
  - unfold skel, children. simpl. by rewrite Hdata.
  - intros st0. unfold dir_stats. rewrite Hdata. intros [= <-]. exists (f st). by split.
  - rewrite (st_of_node t p n Hp). unfold node_stats. simpl. rewrite Ht, Hdata. simpl.
    destruct (Hf st) as (?&?&?&?&?&?&?). unfold equiv, sr_equiv; simpl in *.
    split_and!; try done; rewrite !cong_u32; (etransitivity; [apply cong_add; [done|reflexivity]|apply sr_cong_comm]).
Qed.

(** ** Climbing to the root *)

(** Nothing but statistics of directories changes. *)
Definition erase (n : node) : node :=
  match n_data n with ddata cs nl el _ q => with_data (ddata cs nl el sr_zero q) n | _ => n end.
Definition stats_only (t t' : tree) : Prop :=
  t' = with_nodes (t_nodes t') t ∧ erase <$> t_nodes t' = erase <$> t_nodes t.

Lemma stats_only_refl t : stats_only t t.
Proof. split; [|done]. by destruct t. Qed.

Lemma stats_only_trans t1 t2 t3 : stats_only t1 t2 → stats_only t2 t3 → stats_only t1 t3.
Proof. intros [H1 H1'] [H2 H2']. split; [|congruence]. rewrite H2, H1. done. Qed.

Lemma skel_erase n : skel (erase n) = skel n.
Proof. unfold erase, skel, children. by destruct n as [???????????????? []]. Qed.

Lemma stats_only_shape t t' : stats_only t t' → same_shape t t'.
Proof.
  intros [Heq Her]. split_and!; [|by rewrite Heq..].
  assert (∀ m : gmap Z node, skel <$> m = skel <$> (erase <$> m)) as Hm.
  { intros m. rewrite <- map_fmap_compose. apply map_fmap_ext. intros i n _. simpl. by rewrite skel_erase. }
  by rewrite (Hm (t_nodes t')), Her, <- Hm.
Qed.

Lemma stats_only_lookup t t' i n' :
  stats_only t t' → t_nodes t' !! i = Some n' → ∃ n, t_nodes t !! i = Some n ∧ erase n' = erase n.
Proof.
  intros [_ Hm] Hn'. assert ((erase <$> t_nodes t') !! i = (erase <$> t_nodes t) !! i) as Heq by (by rewrite Hm).
  rewrite !lookup_fmap, Hn' in Heq. destruct (t_nodes t !! i) as [n|]; [|done]. exists n. split; [done|]. by injection Heq.
Qed.

Lemma stats_only_put t p n n' f :
  t_nodes t !! p = Some n → change_stats f n = Some n' → stats_only t (put p n' t).
Proof.
  intros Hp Hch. split; [done|]. simpl. rewrite fmap_insert. apply map_eq. intros j.
  destruct (decide (p = j)) as [->|]; [|by rewrite lookup_insert_ne].
  rewrite lookup_insert_eq, lookup_fmap, Hp. simpl. f_equal.
  unfold change_stats in Hch. unfold erase. destruct (n_data n); [|done..]. by injection Hch as <-.
Qed.

Lemma change_stats_dir f n n' : shape_ok n → change_stats f n = Some n' → n_type n = TYPE_DIRECTORY.
Proof. unfold shape_ok, change_stats. by destruct (n_data n). Qed.

Lemma parent_dirs_edges t t' es : t_edges t' = t_edges t → parent_dirs t' es = parent_dirs t es.
Proof. intros Heq. unfold parent_dirs, edge_parent. by rewrite Heq. Qed.

Lemma climb_pending g fuel f parent d L t t' :
  coherent t → (∀ s, f s ≡ sr_plus s d) → climb_stats fuel f parent t = Some t' →
  pending g (option_list parent ++ L) d t → stats_only t t' ∧ pending g L d t'.
Proof.
  intros Hco Hf. revert parent L t t' Hco. induction fuel as [|fuel IH]; intros parent L t t' Hco; cbn [climb_stats]; [done|].
  destruct parent as [p|]; [|intros [= <-]; split; [apply stats_only_refl|done]].
  destruct (t_nodes t !! p) as [n|] eqn:Hp; [|done]. cbn [mbind option_bind].
  destruct (change_stats f n) as [n'|] eqn:Hch; [|done]. cbn [mbind option_bind]. intros Hclimb Hpend.
  pose proof (change_stats_dir f n n' (co_shape t Hco p n Hp) Hch) as Ht.
  pose proof (pending_step g p L d f n n' t Hco Hp Ht Hch Hf Hpend) as Hpend'.
  pose proof (stats_only_put t p n n' f Hp Hch) as Hso.
  pose proof (coherent_shape _ _ (stats_only_shape _ _ Hso) Hco) as Hco'.
  assert (parents_of t p = parent_dirs (put p n' t) (n_parents n)) as Hpar by (unfold parents_of; by rewrite Hp).
  destruct (Z.eqb_spec p MFS_ROOT_ID) as [->|Hne].
  { injection Hclimb as <-. split; [done|]. destruct (co_root t Hco) as (r & Hr & _ & Hrp).
    unfold parents_of in Hpend'. rewrite Hr, Hrp in Hpend'. done. }
  rewrite Hpar in Hpend'. clear Hpar. revert Hclimb Hpend' Hso Hco'. generalize (put p n' t) as t1. clear Hpend.
  assert (∀ es t1, fold_opt (λ e t, ed ← t_edges t !! e; climb_stats fuel f (e_parent ed) t) es t1 = Some t' →
    pending g (parent_dirs t1 es ++ L) d t1 → stats_only t t1 → coherent t1 → stats_only t t' ∧ pending g L d t') as Hfold; [|by apply Hfold].
  intros es. induction es as [|e es IHes]; intros t1 Hfold Hpend1 Hso1 Hco1; cbn [fold_opt] in Hfold.
  { injection Hfold as <-. done. }
  destruct (t_edges t1 !! e) as [ed|] eqn:Hed; [|done]. cbn [mbind option_bind] in Hfold.
  destruct (climb_stats fuel f (e_parent ed) t1) as [t2|] eqn:Hc; [|done].
  destruct (IH (e_parent ed) (parent_dirs t1 es ++ L) t1 t2 Hco1 Hc) as [Hso2 Hpend2].
  { unfold parent_dirs, edge_parent in Hpend1. cbn [omap list_omap] in Hpend1. rewrite Hed in Hpend1. simpl in Hpend1.
    by destruct (e_parent ed). }
  pose proof (stats_only_shape _ _ Hso2) as Hsh2.
  apply (IHes t2); [done| |by eapply stats_only_trans|by eapply coherent_shape].
  rewrite (parent_dirs_edges t1 t2); [done|]. apply Hsh2.
Qed.

(** *** The climb ends *)

Lemma view_put t p n n' : t_nodes t !! p = Some n → node_view t n' = node_view t n → view (put p n' t) = view t.
Proof.
  intros Hp Hv. unfold view. simpl. rewrite fmap_insert. apply map_eq. intros j.
  destruct (decide (p = j)) as [->|]; [|by rewrite lookup_insert_ne].
  rewrite lookup_insert_eq, lookup_fmap, Hp. simpl. by f_equal.
Qed.

Lemma view_lookup t i n : t_nodes t !! i = Some n → view t !! i = Some (node_view t n).
Proof. intros Hn. unfold view. by rewrite lookup_fmap, Hn. Qed.

Lemma view_edge_parent t i n e ed q :
  t_nodes t !! i = Some n → e ∈ n_parents n → t_edges t !! e = Some ed → e_parent ed = Some q → parent_of (view t) i q.
Proof.
  intros Hn He Hed Hq. exists (node_view t n). split; [by apply view_lookup|]. unfold node_view. simpl.
  apply list_elem_of_fmap. exists e. split; [|done]. by rewrite Hed.
Qed.

Lemma climb_total fuel f p n t (seen : gset Z) :
  coherent t → tree_ok (view t) → t_nodes t !! p = Some n → n_type n = TYPE_DIRECTORY →
  (∀ x, x ∈ seen → ancestor (view t) x p) → seen ⊆ dom (t_nodes t) → (S (size (t_nodes t)) < size seen + fuel)%nat →
  ∃ t', climb_stats fuel f (Some p) t = Some t'.
Proof.
  revert p n t seen. induction fuel as [|fuel IH]; intros p n t seen Hco Htree Hp Ht Hseen Hdom Hsize.
  { exfalso. pose proof (subseteq_size _ _ Hdom) as Hle. rewrite size_dom in Hle. lia. }
  cbn [climb_stats]. rewrite Hp. cbn [mbind option_bind].
  assert (∃ n', change_stats f n = Some n' ∧ node_view t n' = node_view t n ∧ skel n' = skel n) as (n' & Hch & Hview & Hsk).
  { pose proof (co_shape t Hco p n Hp) as Hsh. unfold shape_ok in Hsh. unfold change_stats, skel, children.
    destruct (n_data n) as [cs nl el st q| | | |] eqn:Hd; [by eexists|exfalso..].
    - by rewrite Ht in Hsh.
    - rewrite Ht in Hsh. by destruct Hsh.
    - unfold is_file in Hsh. by rewrite Ht in Hsh.
    - rewrite Ht in Hsh. by destruct Hsh. }
  rewrite Hch. cbn [mbind option_bind]. destruct (p =? MFS_ROOT_ID); [by eexists|].
  pose proof (tree_one _ Htree p (node_view t n) (view_lookup t p n Hp) Ht) as Hone. unfold node_view in Hone. simpl in Hone.
  rewrite length_fmap in Hone.
  destruct (n_parents n) as [|e [|]] eqn:Hpar; [by eexists| |simpl in Hone; lia]. cbn [fold_opt].
  destruct (co_parents t Hco p n e Hp) as (ed & Hed & Hchild); [rewrite Hpar; by left|]. simpl. rewrite Hed.
  cbn [mbind option_bind].
  assert (∃ t', climb_stats fuel f (e_parent ed) (put p n' t) = Some t') as (t' & ->); [|by eexists].
  assert (p ∉ seen) as Hnew by (intros Hin%Hseen; by apply (tree_acyclic _ Htree) in Hin).
  assert ({[p]} ∪ seen ⊆ dom (t_nodes t)) as Hdom'.
  { apply union_subseteq. split; [|done]. apply singleton_subseteq_l, elem_of_dom. eauto. }
  pose proof (subseteq_size _ _ Hdom') as Hle. rewrite size_dom, size_union, size_singleton in Hle by set_solver.
  destruct (e_parent ed) as [q|] eqn:Hq.
  - destruct (co_parent t Hco e ed q Hed Hq) as (nq & Hnq & Htq & _).
    assert (parent_of (view t) p q) as Hpq by (eapply view_edge_parent; [done| |done|done]; rewrite Hpar; by left).
    assert (∃ nq', t_nodes (put p n' t) !! q = Some nq' ∧ n_type nq' = TYPE_DIRECTORY) as (nq' & Hnq' & Htq').
    { simpl. destruct (decide (p = q)) as [->|]; [|rewrite lookup_insert_ne by done; by exists nq].
      rewrite lookup_insert_eq. exists n'. split; [done|]. by apply skel_inv in Hsk as (-> & _). }
    eapply (IH q nq' _ ({[p]} ∪ seen)); [|by erewrite view_put|done|done|..].
    + eapply coherent_shape; [|done]. by eapply same_shape_put.
    + erewrite view_put by done. intros x [->%elem_of_singleton|Hx%Hseen]%elem_of_union; [by apply tc_once|]. by eapply tc_r.
    + simpl. rewrite dom_insert_L. set_solver.
    + simpl. rewrite map_size_insert_Some by eauto. rewrite size_union, size_singleton by set_solver. lia.
  - destruct fuel; [lia|]. by eexists.
Qed.

Lemma climb_ok_top f p n t :
  coherent t → tree_ok (view t) → t_nodes t !! p = Some n → n_type n = TYPE_DIRECTORY →
  ∃ t', climb_stats (climb_fuel t) f (Some p) t = Some t'.
Proof.
  intros. eapply (climb_total _ f p n t ∅); try done.
  unfold climb_fuel. rewrite size_empty. lia.
Qed.

Lemma stats_only_view t t' : stats_only t t' → view t' = view t.
Proof.
  intros [Heq Hm]. apply map_eq. intros i. unfold view.
  assert ((erase <$> t_nodes t') !! i = (erase <$> t_nodes t) !! i) as He by (by rewrite Hm).
  rewrite !lookup_fmap in *. rewrite Heq. simpl.
  destruct (t_nodes t' !! i) as [n'|], (t_nodes t !! i) as [n|]; simpl in *; try done.
  f_equal. injection He as He.
  assert (∀ m, node_view t m = node_view t (erase m)) as Hv by (intros m; unfold erase; by destruct (n_data m)).
  rewrite (Hv n), <- He, <- Hv. done.
Qed.

Lemma climb_stats_only fuel f parent t t' : coherent t → climb_stats fuel f parent t = Some t' → stats_only t t'.
Proof.
  revert parent t t'. induction fuel as [|fuel IH]; intros parent t t' Hco; cbn [climb_stats]; [done|].
  destruct parent as [p|]; [|intros [= <-]; apply stats_only_refl].
  destruct (t_nodes t !! p) as [n|] eqn:Hp; [|done]. cbn [mbind option_bind].
  destruct (change_stats f n) as [n'|] eqn:Hch; [|done]. cbn [mbind option_bind]. intros Hclimb.
  pose proof (stats_only_put t p n n' f Hp Hch) as Hso. destruct (p =? MFS_ROOT_ID); [by injection Hclimb as <-|].
  revert Hclimb Hso. generalize (put p n' t). intros t1 Hfold Hso. revert t1 Hfold Hso.
  induction (n_parents n) as [|e es IHes]; intros t1 Hfold Hso; cbn [fold_opt] in Hfold; [by injection Hfold as <-|].
  destruct (t_edges t1 !! e) as [ed|]; [|done]. cbn [mbind option_bind] in Hfold.
  destruct (climb_stats fuel f (e_parent ed) t1) as [t2|] eqn:Hc; [|done]. cbn [mbind option_bind] in Hfold.
  apply (IHes t2 Hfold). eapply stats_only_trans; [done|]. eapply IH; [|exact Hc].
  by apply (coherent_shape _ _ (stats_only_shape _ _ Hso)).
Qed.

(** The climb changes the parent and the nodes above it only. *)
Lemma climb_frame fuel f parent t t' :
  coherent t → climb_stats fuel f parent t = Some t' →
  ∀ j, (∀ p, parent = Some p → j ≠ p ∧ ¬ ancestor (view t) p j) → t_nodes t' !! j = t_nodes t !! j.
Proof.
  revert parent t t'. induction fuel as [|fuel IH]; intros parent t t' Hco; cbn [climb_stats]; [done|].
  destruct parent as [p|]; [|by intros [= <-]].
  destruct (t_nodes t !! p) as [n|] eqn:Hp; [|done]. cbn [mbind option_bind].
  destruct (change_stats f n) as [n'|] eqn:Hch; [|done]. cbn [mbind option_bind]. intros Hclimb j Hj.
  destruct (Hj p eq_refl) as [Hjp Hanc].
  assert (t_nodes (put p n' t) !! j = t_nodes t !! j) as <- by (simpl; by rewrite lookup_insert_ne).
  destruct (p =? MFS_ROOT_ID); [by injection Hclimb as <-|].
  pose proof (stats_only_put t p n n' f Hp Hch) as Hso. revert Hclimb. generalize (put p n' t), Hso. clear Hso.
  assert (∀ e, e ∈ n_parents n → e ∈ n_parents n) as Hsub by done. revert Hsub. generalize (n_parents n) at 1 3.
  intros es. induction es as [|e es IHes]; intros Hsub t1 Hso Hfold; cbn [fold_opt] in Hfold; [by injection Hfold as <-|].
  destruct (t_edges t1 !! e) as [ed|] eqn:Hed; [|done]. cbn [mbind option_bind] in Hfold.
  destruct (climb_stats fuel f (e_parent ed) t1) as [t2|] eqn:Hc; [|done]. cbn [mbind option_bind] in Hfold.
  pose proof (coherent_shape _ _ (stats_only_shape _ _ Hso) Hco) as Hco1.
  assert (view t1 = view t) as Hview by (by apply stats_only_view).
  assert (t_edges t !! e = Some ed) as Hed' by (destruct (stats_only_shape _ _ Hso) as (_ & <- & _); done).
  rewrite <- (IH (e_parent ed) t1 t2 Hco1 Hc j).
  - apply IHes; [intros e' He'; apply Hsub; by right| |done]. eapply stats_only_trans; [done|].
    eapply climb_stats_only; [done|exact Hc].
  - intros q Hq. rewrite Hview. assert (parent_of (view t) p q) as Hpq.
    { eapply view_edge_parent; [done| |done|done]. apply Hsub. by left. }
    split; [intros ->; by apply Hanc, tc_once|]. intros Ha. apply Hanc. by eapply tc_l.
Qed.

(** ** The functions that use the climb *)

Lemma stats_only_size t t' : stats_only t t' → size (t_nodes t') = size (t_nodes t).
Proof. intros [_ Hm]. rewrite <- (map_size_fmap erase (t_nodes t)), <- Hm. by rewrite map_size_fmap. Qed.

Lemma stats_only_coherent t t' : stats_only t t' → coherent t → coherent t'.
Proof. intros Hso%stats_only_shape. by apply coherent_shape. Qed.

(** The directory given is one, if there is any. *)
Definition dir_or_none (t : tree) (parent : option Z) : Prop :=
  ∀ p, parent = Some p → ∃ n, t_nodes t !! p = Some n ∧ n_type n = TYPE_DIRECTORY.

Lemma climb_spec g f parent d L t :
  coherent t → tree_ok (view t) → (∀ s, f s ≡ sr_plus s d) → dir_or_none t parent →
  pending g (option_list parent ++ L) d t →
  ∃ t', climb_stats (climb_fuel t) f parent t = Some t' ∧ stats_only t t' ∧ pending g L d t'.
Proof.
  intros Hco Htree Hf Hdir Hpend.
  assert (∃ t', climb_stats (climb_fuel t) f parent t = Some t') as (t' & Hc).
  { destruct parent as [p|]; [|by eexists]. destruct (Hdir p eq_refl) as (n & Hn & Ht). by eapply climb_ok_top. }
  exists t'. split; [done|]. by eapply climb_pending.
Qed.

Lemma edge_parent_dir t e ed : coherent t → t_edges t !! e = Some ed → dir_or_none t (e_parent ed).
Proof. intros Hco He p Hp. destruct (co_parent t Hco e ed p He Hp) as (n & Hn & Ht & _). eauto. Qed.

Lemma fold_parents_spec g h d L es t :
  (∀ p t1, stats_only t t1 → dir_or_none t1 p → ∀ L', pending g (option_list p ++ L') d t1 →
     ∃ t2, h p t1 = Some t2 ∧ stats_only t1 t2 ∧ pending g L' d t2) →
  coherent t → (∀ e, e ∈ es → is_Some (t_edges t !! e)) → pending g (parent_dirs t es ++ L) d t →
  ∃ t', fold_opt (λ e t, ed ← t_edges t !! e; h (e_parent ed) t) es t = Some t' ∧ stats_only t t' ∧ pending g L d t'.
Proof.
  intros Hh. assert (∀ t1, stats_only t t1 → coherent t1 → (∀ e, e ∈ es → is_Some (t_edges t1 !! e)) →
    pending g (parent_dirs t1 es ++ L) d t1 →
    ∃ t', fold_opt (λ e t, ed ← t_edges t !! e; h (e_parent ed) t) es t1 = Some t' ∧ stats_only t t' ∧ pending g L d t') as Hgen.
  { induction es as [|e es IH]; intros t1 Hso Hco Hes Hpend; cbn [fold_opt]; [by exists t1|].
    destruct (Hes e) as [ed Hed]; [by left|]. rewrite Hed. cbn [mbind option_bind].
    destruct (Hh (e_parent ed) t1 Hso (edge_parent_dir t1 e ed Hco Hed) (parent_dirs t1 es ++ L)) as (t2 & -> & Hso2 & Hp2).
    { unfold parent_dirs, edge_parent in Hpend. cbn [omap list_omap] in Hpend. rewrite Hed in Hpend. simpl in Hpend.
      by destruct (e_parent ed). }
    cbn [mbind option_bind]. pose proof (stats_only_shape _ _ Hso2) as (_ & Hedges & _).
    apply IH; [by eapply stats_only_trans|by eapply stats_only_coherent| |].
    - rewrite Hedges. intros e' He'. apply Hes. by right.
    - by rewrite (parent_dirs_edges t1 t2). }
  intros Hco Hes Hpend. by apply (Hgen t (stats_only_refl t)).
Qed.

Lemma each_parent_spec g h d L i t :
  (∀ p t1, stats_only t t1 → dir_or_none t1 p → ∀ L', pending g (option_list p ++ L') d t1 →
     ∃ t2, h p t1 = Some t2 ∧ stats_only t1 t2 ∧ pending g L' d t2) →
  coherent t → is_Some (t_nodes t !! i) → pending g (parents_of t i ++ L) d t →
  ∃ t', each_parent i h t = Some t' ∧ stats_only t t' ∧ pending g L d t'.
Proof.
  intros Hh Hco [n Hn] Hpend. unfold each_parent. rewrite Hn. cbn [mbind option_bind].
  unfold parents_of in Hpend. rewrite Hn in Hpend. apply (fold_parents_spec g h d L); [done|done| |done].
  intros e He. destruct (co_parents t Hco i n e Hn He) as (ed & Hed & _). by rewrite Hed.
Qed.

(** The three functions satisfy the condition on [h]. *)
Lemma climb_fun_ok g f d t :
  coherent t → tree_ok (view t) → (∀ s, f s ≡ sr_plus s d) →
  ∀ p t1, stats_only t t1 → dir_or_none t1 p → ∀ L', pending g (option_list p ++ L') d t1 →
    ∃ t2, climb_stats (climb_fuel t1) f p t1 = Some t2 ∧ stats_only t1 t2 ∧ pending g L' d t2.
Proof.
  intros Hco Htree Hf p t1 Hso Hdir L' Hpend. apply climb_spec; [by eapply stats_only_coherent| |done|done|done].
  by rewrite (stats_only_view _ _ Hso).
Qed.

(** *** Statistics of a node *)

Lemma node_stats_some n : shape_ok n → ∃ sr, node_stats n = Some sr.
Proof.
  unfold shape_ok, node_stats, is_file. destruct (n_data n) as [cs nl el st q|path nl|rdev nl|len ct nl r|nl].
  - intros ->. rewrite Z.eqb_refl. eauto.
  - intros ->. simpl. eauto.
  - intros [->| ->]; simpl; eauto.
  - intros H. destruct (n_type n =? TYPE_DIRECTORY) eqn:E.
    + apply Z.eqb_eq in E. rewrite E in H. done.
    + rewrite H. destruct (count_chunks _ _ _ _ _ _). eauto.
  - intros [->| ->]; simpl; eauto.
Qed.

Section with_classes.
Variable sclasstab : Z → storageclass.
Variable MaxECRedundancyLevel : Z.
Abbreviation fsnodes_get_stats := (fsnodes_get_stats sclasstab MaxECRedundancyLevel).
Abbreviation current_ratio := (current_ratio sclasstab MaxECRedundancyLevel).

Lemma get_stats_0 i n t :
  coherent t → t_nodes t !! i = Some n → ∃ sr, node_stats n = Some sr ∧ fsnodes_get_stats i 0 t = Some (sr, t).
Proof.
  intros Hco Hn. destruct (node_stats_some n) as [sr Hsr]; [by eapply co_shape|]. exists sr. split; [done|].
  unfold FsTree.fsnodes_get_stats. rewrite Hn. cbn [mbind option_bind]. rewrite andb_false_r. simpl. rewrite Hn. simpl. by rewrite Hsr.
Qed.

(** The node with the ratio of its class. *)
Definition fix_ratio (n : node) : node := if is_file n then set_ratio (current_ratio n) n else n.

Lemma skel_fix_ratio n : skel (fix_ratio n) = skel n.
Proof. unfold fix_ratio, set_ratio, skel, children. case_if; [|done]. by destruct (n_data n) eqn:Hd; simpl; rewrite ?Hd. Qed.

Lemma get_stats_1 i n t :
  shape_ok n → t_nodes t !! i = Some n →
  ∃ sr, node_stats (fix_ratio n) = Some sr ∧ fsnodes_get_stats i 1 t = Some (sr, put i (fix_ratio n) t).
Proof.
  intros Hsh Hn. destruct (node_stats_some (fix_ratio n)) as [sr Hsr].
  { eapply shape_ok_skel; [apply skel_fix_ratio|done]. }
  exists sr. split; [done|]. unfold FsTree.fsnodes_get_stats. rewrite Hn. cbn [mbind option_bind].
  unfold fix_ratio in *. destruct (is_file n) eqn:E; simpl.
  - unfold shape_ok in Hsh. unfold is_file in E.
    destruct (n_data n) eqn:Hd; simpl.
    + rewrite Hsh in E. done.
    + rewrite Hsh in E. done.
    + destruct Hsh as [Hsh|Hsh]; rewrite Hsh in E; done.
    + rewrite lookup_insert_eq. simpl. by rewrite Hsr.
    + destruct Hsh as [Hsh|Hsh]; rewrite Hsh in E; done.
  - rewrite Hn. simpl. rewrite Hsr. simpl. f_equal. f_equal. unfold put. rewrite insert_id by done. by destruct t.
Qed.

End with_classes.
