(* ===== verification/FsTreeInv.v ===== *)
(** * The invariant of the tree of files

    What holds between any two requests: edges, parents, children and names agree,
    directories have one parent and no cycle, the statistics of a directory are the
    sum over its children, links and elements are counted, the trash and the sustained
    files are exactly the files without a name, the counters are right, and the inode
    numbers in use are those of the nodes.  This file states it and has the effect of
    the removal of an edge, [fsnodes_remove_edge], on each node. *)

From S2P Require Import Prelude MfsComm FreeInodes StorageClass DataPack FsNodes PosixAcl FsAccess AclFacts FsTree FsStats.

(** ** Parts of a node *)

(** The data of a node without what its edges decide. *)
Definition content (d : ndata) : ndata :=
  match d with
  | ddata _ _ _ st q => ddata [] 0 0 st q
  | sdata path _ => sdata path 0
  | devdata rdev _ => devdata rdev 0
  | fdata len ct _ r => fdata len ct 0 r
  | odata _ => odata 0
  end.

(** A node without its edges, its times, its extra attributes and [keepmode]. *)
Definition core (n : node) : node :=
  mk_node 0 0 0 (n_uid n) (n_gid n) (n_xattrflag n) (n_aclpermflag n) (n_acldefflag n) false
    (n_type n) (n_mode n) (n_sclassid n) 0 (n_winattr n) (n_trashretention n) [] (content (n_data n)).

Definition links (n : node) : Z :=
  match n_data n with
  | ddata _ nl _ _ _ => nl | sdata _ nl => nl | devdata _ nl => nl | fdata _ _ nl _ => nl | odata nl => nl
  end.
Definition elems (n : node) : Z := match n_data n with ddata _ _ el _ _ => el | _ => 0 end.

(** All but times, extra attributes and [keepmode]. *)
Definition summary (n : node) : node * list positive * list positive * Z * Z :=
  (core n, n_parents n, children n, links n, elems n).

Lemma summary_inv n n' : summary n' = summary n →
  core n' = core n ∧ n_parents n' = n_parents n ∧ children n' = children n ∧ links n' = links n ∧ elems n' = elems n.
Proof. unfold summary. intros H. apply pair_equal_spec in H as [H ?]. apply pair_equal_spec in H as [H ?].
  apply pair_equal_spec in H as [H ?]. by apply pair_equal_spec in H as [H ?]. Qed.

Lemma core_inv n n' : core n' = core n →
  n_type n' = n_type n ∧ n_mode n' = n_mode n ∧ n_xattrflag n' = n_xattrflag n ∧ n_aclpermflag n' = n_aclpermflag n ∧
  n_acldefflag n' = n_acldefflag n ∧ n_sclassid n' = n_sclassid n ∧ content (n_data n') = content (n_data n).
Proof. unfold core. intros H. injection H. intros. by split_and!. Qed.

Lemma core_tag n n' : core n' = core n → data_tag (n_data n') = data_tag (n_data n).
Proof. intros (_&_&_&_&_&_&H)%core_inv. by destruct (n_data n), (n_data n'). Qed.

Lemma core_stats n n' : core n' = core n → node_stats n' = node_stats n ∧ dir_stats n' = dir_stats n.
Proof.
  intros (Ht&_&_&_&_&_&H)%core_inv. unfold node_stats, dir_stats, is_file. rewrite Ht.
  destruct (n_data n), (n_data n'); simpl in H; simplify_eq; done.
Qed.

Lemma core_shape n n' : core n' = core n → shape_ok n → shape_ok n'.
Proof.
  intros H Hs. pose proof (core_tag _ _ H) as Htag. apply core_inv in H as (Ht & _). unfold shape_ok, is_file in *. rewrite Ht.
  by destruct (n_data n), (n_data n').
Qed.

Lemma core_file_length n n' : core n' = core n → file_length n' = file_length n.
Proof.
  intros (_&_&_&_&_&_&H)%core_inv. unfold file_length. destruct (n_data n), (n_data n'); simpl in H; simplify_eq; done.
Qed.

Lemma summary_skel n n' : summary n' = summary n → skel n' = skel n.
Proof.
  intros (Hc & Hp & Hch & _)%summary_inv. unfold skel. rewrite Hp, Hch, (core_tag _ _ Hc).
  by apply core_inv in Hc as (-> & _).
Qed.

(** ** Counts *)

(** A link with a name. *)
Definition has_dir (t : tree) (e : positive) : bool := match edge_parent t e with Some _ => true | None => false end.
(** A link to a directory. *)
Definition to_dir (t : tree) (e : positive) : bool :=
  match t_edges t !! e with
  | Some ed => match t_nodes t !! e_child ed with Some n => n_type n =? TYPE_DIRECTORY | None => false end
  | None => false
  end.

Definition count {A} (f : A → bool) (l : list A) : Z := Z.of_nat (length (filter (λ x, f x = true) l)).

Definition counts_ok (t : tree) : Prop := ∀ i n, t_nodes t !! i = Some n →
  if n_type n =? TYPE_DIRECTORY then
    elems n = u32 (Z.of_nat (length (children n))) ∧ links n = u32 (2 + count (to_dir t) (children n))
  else links n = u16 (count (has_dir t) (n_parents n)).

(** ** Files without a name *)

Record detached_ok (X : list Z) (t : tree) : Prop := {
  de_edge e ed : t_edges t !! e = Some ed → e_parent ed = None →
    ∃ n, t_nodes t !! e_child ed = Some n ∧
      ((n_type n = TYPE_TRASH ∧ e ∈ bucket (e_child ed `mod` TRASH_BUCKETS) (t_trash t)) ∨
       (n_type n = TYPE_SUSTAINED ∧ e ∈ bucket (e_child ed `mod` SUSTAINED_BUCKETS) (t_sustained t)));
  de_trash b e : e ∈ bucket b (t_trash t) → ∃ ed n, t_edges t !! e = Some ed ∧ e_parent ed = None ∧
    t_nodes t !! e_child ed = Some n ∧ n_type n = TYPE_TRASH ∧ e_child ed `mod` TRASH_BUCKETS = b;
  de_sustained b e : e ∈ bucket b (t_sustained t) → ∃ ed n, t_edges t !! e = Some ed ∧ e_parent ed = None ∧
    t_nodes t !! e_child ed = Some n ∧ n_type n = TYPE_SUSTAINED ∧ e_child ed `mod` SUSTAINED_BUCKETS = b;
  de_nodup b : NoDup (bucket b (t_trash t)) ∧ NoDup (bucket b (t_sustained t));
  de_node i n : t_nodes t !! i = Some n → n_type n = TYPE_TRASH ∨ n_type n = TYPE_SUSTAINED → i ∉ X →
    ∃ e ed, n_parents n = [e] ∧ t_edges t !! e = Some ed ∧ e_parent ed = None }.

(** Every node but the root (and those of [X]) has a link. *)
Definition linked_ok (X : list Z) (t : tree) : Prop :=
  ∀ i n, t_nodes t !! i = Some n → i ≠ MFS_ROOT_ID → i ∉ X → n_parents n ≠ [].

(** ** Counters *)

(** Sum over the nodes. *)
Definition sum_nodes (f : node → Z) (m : gmap Z node) : Z := map_fold (λ _ n s, f n + s) 0 m.

Lemma sum_nodes_insert_None f m i n : m !! i = None → sum_nodes f (<[i := n]> m) = f n + sum_nodes f m.
Proof. intros Hi. unfold sum_nodes. rewrite map_fold_insert_L; [done| |done]. intros; lia. Qed.

Lemma sum_nodes_delete f m i n : m !! i = Some n → sum_nodes f m = f n + sum_nodes f (delete i m).
Proof. intros Hi. unfold sum_nodes. rewrite (map_fold_delete_L _ _ i n m); [done| |done]. intros; lia. Qed.

Lemma sum_nodes_insert f m i n n' : m !! i = Some n → sum_nodes f (<[i := n']> m) = sum_nodes f m - f n + f n'.
Proof.
  intros Hi. rewrite <- insert_delete_eq, sum_nodes_insert_None by (apply lookup_delete_eq).
  rewrite (sum_nodes_delete f m i n Hi). lia.
Qed.

(** Two maps whose nodes weigh the same. *)
Lemma sum_nodes_ext f m m' : f <$> m' = f <$> m → sum_nodes f m' = sum_nodes f m.
Proof.
  intros Heq. assert (∀ k : gmap Z node, sum_nodes f k = map_fold (λ _ x s, x + s) 0 (f <$> k)) as Hk.
  { intros k. unfold sum_nodes. by rewrite map_fold_fmap. }
  by rewrite !Hk, Heq.
Qed.

(** What a node adds to each counter. *)
Definition of_type (ty : Z) (n : node) : Z := if n_type n =? ty then 1 else 0.
Definition space_of_type (ty : Z) (n : node) : Z := if n_type n =? ty then default 0 (file_length n) else 0.
Definition weight_files (n : node) : Z := if is_file n then 1 else 0.
Definition weight_class_files (sc : Z) (n : node) : Z := if is_file n && (n_sclassid n =? sc) then 1 else 0.
Definition weight_class_dirs (sc : Z) (n : node) : Z :=
  if (n_type n =? TYPE_DIRECTORY) && (n_sclassid n =? sc) then 1 else 0.

Record counters_ok (m : gmap Z node) (v : vars) : Prop := {
  ct_trashspace : trashspace v = u64 (sum_nodes (space_of_type TYPE_TRASH) m);
  ct_sustainedspace : sustainedspace v = u64 (sum_nodes (space_of_type TYPE_SUSTAINED) m);
  ct_trashnodes : trashnodes v = u32 (sum_nodes (of_type TYPE_TRASH) m);
  ct_sustainednodes : sustainednodes v = u32 (sum_nodes (of_type TYPE_SUSTAINED) m);
  ct_filenodes : filenodes v = u32 (sum_nodes weight_files m);
  ct_dirnodes : dirnodes v = u32 (sum_nodes (of_type TYPE_DIRECTORY) m);
  ct_nodes : nodes v = u32 (sum_nodes (λ _, 1) m);
  ct_class sc : default (0, 0) (v_sclass v !! sc) =
    (u32 (sum_nodes (weight_class_files sc) m), u32 (sum_nodes (weight_class_dirs sc) m)) }.

(** ** The invariant *)

(** The state as the access tests see it. *)
Definition tree_fs (t : tree) : fs := mk_fs (view t) (t_acls t).

(** The array of the edges listed last: no pointer to a freed edge. *)
Definition edgeids_ok (t : tree) : Prop := ∀ h id e, t_edgeids t !! h = Some (id, Some e) →
  id `mod` EDGEID_HASHSIZE = h ∧ ∃ ed p, t_edges t !! e = Some ed ∧ e_edgeid ed = id ∧ e_parent ed = Some p.

(** All but the statistics.  [X] are nodes that are being moved: they may lack a link
    for a moment. *)
Record struct_inv (X : list Z) (t : tree) : Prop := {
  ti_coherent : coherent t;
  ti_fs : fs_inv (tree_fs t);
  ti_counts : counts_ok t;
  ti_detached : detached_ok X t;
  ti_linked : linked_ok X t;
  ti_pool : pool_inv (λ i, is_Some (t_nodes t !! i)) (t_ids t);
  ti_counters : counters_ok (t_nodes t) (t_vars t);
  ti_edgeids : edgeids_ok t }.

Record tree_inv (X : list Z) (t : tree) : Prop := {
  ti_struct :> struct_inv X t;
  ti_stats : stats_ok t }.

(** ** Effect of the changes of an edge *)

(** How the nodes of two states correspond. *)
Definition nodes_rel (R : Z → node → node → Prop) (t t' : tree) : Prop :=
  ∀ i, option_Forall2 (R i) (t_nodes t !! i) (t_nodes t' !! i).

Lemma nodes_rel_l R t t' i n :
  nodes_rel R t t' → t_nodes t !! i = Some n → ∃ n', t_nodes t' !! i = Some n' ∧ R i n n'.
Proof. intros H Hn. specialize (H i). rewrite Hn in H. inversion H; subst. eauto. Qed.

Lemma nodes_rel_r R t t' i n' :
  nodes_rel R t t' → t_nodes t' !! i = Some n' → ∃ n, t_nodes t !! i = Some n ∧ R i n n'.
Proof. intros H Hn. specialize (H i). rewrite Hn in H. inversion H; subst. eauto. Qed.

(** The edge [e] leaves its node and its directory; [cdir] tells whether it led to a
    directory. *)
Record removed_node (e : positive) (ed : fsedge) (cdir : bool) (i : Z) (n n' : node) : Prop := {
  rm_core : core n' = core n;
  rm_parents : n_parents n' = remove_id e (n_parents n);
  rm_children : children n' = remove_id e (children n);
  rm_elems : elems n' = (if bool_decide (e_parent ed = Some i) then u32 (elems n - 1) else elems n);
  rm_links : links n' =
    (if cdir then (if bool_decide (e_parent ed = Some i) then u32 (links n - 1) else links n)
     else if (i =? e_child ed) && bool_decide (is_Some (e_parent ed)) then u16 (links n - 1) else links n) }.

(** The edge [e] is put in front of the parents of its node and the children of its
    directory. *)
Record linked_node (e : positive) (p c : Z) (cdir : bool) (i : Z) (n n' : node) : Prop := {
  ln_core : core n' = core n;
  ln_parents : n_parents n' = if i =? c then e :: n_parents n else n_parents n;
  ln_children : children n' = if i =? p then e :: children n else children n;
  ln_elems : elems n' = (if i =? p then u32 (elems n + 1) else elems n);
  ln_links : links n' =
    (if cdir then (if i =? p then u32 (links n + 1) else links n)
     else if i =? c then u16 (links n + 1) else links n) }.

Lemma remove_id_notin e l : e ∉ l → remove_id e l = l.
Proof.
  intros Hin. induction l as [|x l IH]; [done|]. apply not_elem_of_cons in Hin as [Hne Hin].
  unfold remove_id in *. rewrite filter_cons, decide_True by done. by f_equal; apply IH.
Qed.

Lemma elem_of_remove_id e x l : x ∈ remove_id e l ↔ x ≠ e ∧ x ∈ l.
Proof. unfold remove_id. by rewrite list_elem_of_filter. Qed.

Lemma is_file_dir n : n_type n = TYPE_DIRECTORY → is_file n = false.
Proof. unfold is_file. by intros ->. Qed.

Lemma links_with_data_nlink d n n' :
  shape_ok n → n_type n ≠ TYPE_DIRECTORY → add_nlink d n = Some n' →
  core n' = core n ∧ n_parents n' = n_parents n ∧ children n' = children n ∧ elems n' = elems n ∧
  links n' = u16 (links n + d) ∧ n_type n' = n_type n ∧ n_keepmode n' = n_keepmode n.
Proof.
  unfold shape_ok, add_nlink, is_file. intros Hsh Ht.
  destruct (n_data n) as [cs nl el st q|path nl|rdev nl|len ct nl r|nl] eqn:Hd; simpl in Hsh; intros Hadd;
    repeat case_if_in Hadd; simplify_eq; unfold core, children, elems, links; simpl; rewrite ?Hd; try done.
Qed.

Lemma add_nlink_some d n : shape_ok n → n_type n ≠ TYPE_DIRECTORY → is_Some (add_nlink d n).
Proof.
  unfold shape_ok, add_nlink. intros Hsh Ht.
  destruct (n_data n) as [cs nl el st q|path nl|rdev nl|len ct nl r|nl] eqn:Hd.
  - done.
  - unfold is_file. rewrite Hsh. simpl. eauto.
  - unfold is_file. destruct Hsh as [-> | ->]; simpl; eauto.
  - rewrite Hsh. eauto.
  - unfold is_file. destruct Hsh as [-> | ->]; simpl; eauto.
Qed.

Section with_classes.
Variable sclasstab : Z → storageclass.
Variable MaxECRedundancyLevel : Z.

(** The check of the archive mode may set [keepmode] and tell the chunks. *)
Lemma checkarchmode_effect i n ts fields t :
  shape_ok n → t_nodes t !! i = Some n →
  ∃ n' cs, fsnodes_checkarchmode sclasstab i ts fields t = Some (emit cs (put i n' t)) ∧ summary n' = summary n.
Proof.
  intros Hsh Hn. unfold fsnodes_checkarchmode. rewrite Hn. cbn [mbind option_bind].
  assert (∃ n' cs, Some t = Some (emit cs (put i n' t)) ∧ summary n' = summary n) as Hsame.
  { exists n, []. split; [|done]. unfold emit, put, with_nodes. simpl. rewrite insert_id, app_nil_r by done. by destruct t. }
  destruct (is_file n) eqn:Hf; [|done]. unfold shape_ok, is_file in *.
  destruct (n_data n) as [| | |len ct nl r|] eqn:Hd.
  - rewrite Hsh in Hf. done.
  - rewrite Hsh in Hf. done.
  - destruct Hsh as [Hsh|Hsh]; rewrite Hsh in Hf; done.
  - case_if; [|done]. eexists _, _. split; [done|]. done.
  - destruct Hsh as [Hsh|Hsh]; rewrite Hsh in Hf; done.
Qed.


Lemma edgeid_remove_nodes ed t : ∃ m, fsnodes_edgeid_remove ed t = with_edgeids m t.
Proof.
  unfold fsnodes_edgeid_remove. destruct (t_edgeids t !! _) as [[id ptr]|]; [case_if; [by eexists|]|];
    exists (t_edgeids t); by destruct t.
Qed.

Lemma change_dir_some f d n :
  shape_ok n → n_type n = TYPE_DIRECTORY →
  ∃ n', change_dir f d n = Some n' ∧ core n' = core n ∧ n_parents n' = n_parents n ∧ children n' = f (children n) ∧
    elems n' = u32 (elems n + d) ∧ links n' = links n ∧ n_type n' = TYPE_DIRECTORY.
Proof.
  unfold shape_ok, change_dir, children, elems, links, core. intros Hsh Ht.
  destruct (n_data n) as [cs nl el st q| | | |] eqn:Hd.
  - eexists. split; [done|]. by split_and!.
  - by rewrite Ht in Hsh.
  - rewrite Ht in Hsh. by destruct Hsh.
  - by rewrite (is_file_dir _ Ht) in Hsh.
  - rewrite Ht in Hsh. by destruct Hsh.
Qed.

Lemma no_self_link t e ed p : coherent t → tree_ok (view t) → t_edges t !! e = Some ed → e_parent ed = Some p → e_child ed ≠ p.
Proof.
  intros Hco Htree Hed Hp Heq. destruct (co_child t Hco e ed Hed) as (n & Hn & Hin).
  apply (tree_acyclic _ Htree p), tc_once. rewrite <- Heq at 1. by eapply view_edge_parent.
Qed.

(** Reads the assignments to a node. *)
Ltac look :=
  simpl; repeat first [rewrite lookup_insert_eq | rewrite lookup_insert_ne by congruence]; cbn [mbind option_bind].

Lemma lookup_put i j n t : t_nodes (put i n t) !! j = if decide (i = j) then Some n else t_nodes t !! j.
Proof. simpl. case_decide; subst; [apply lookup_insert_eq|by apply lookup_insert_ne]. Qed.
Lemma emit_nodes cs t : t_nodes (emit cs t) = t_nodes t.
Proof. done. Qed.
Lemma put_id i n t : t_nodes t !! i = Some n → put i n t = t.
Proof. intros Hn. unfold put, with_nodes. rewrite insert_id by done. by destruct t. Qed.
Lemma put_put i n n' t : put i n' (put i n t) = put i n' t.
Proof. unfold put, with_nodes. simpl. by rewrite insert_insert_eq. Qed.
Lemma put_comm i j n n' t : i ≠ j → put i n (put j n' t) = put j n' (put i n t).
Proof. intros Hne. unfold put, with_nodes. simpl. by rewrite insert_insert_ne. Qed.

(** The switch on the type of the child changes one of the two nodes. *)
Lemma count_link_spec d p c pn cn t :
  p ≠ c → t_nodes t !! p = Some pn → t_nodes t !! c = Some cn → shape_ok pn → n_type pn = TYPE_DIRECTORY → shape_ok cn →
  let cdir := n_type cn =? TYPE_DIRECTORY in
  ∃ pn' cn', count_link d p c t = Some (put c cn' (put p pn' t)) ∧
    core pn' = core pn ∧ n_parents pn' = n_parents pn ∧ children pn' = children pn ∧ elems pn' = elems pn ∧
    links pn' = (if cdir then u32 (links pn + d) else links pn) ∧
    core cn' = core cn ∧ n_parents cn' = n_parents cn ∧ children cn' = children cn ∧ elems cn' = elems cn ∧
    links cn' = (if cdir then links cn else u16 (links cn + d)) ∧ n_keepmode cn' = n_keepmode cn.
Proof.
  clear sclasstab MaxECRedundancyLevel. intros Hne Hp Hc Hshp Htp Hshc. unfold count_link. rewrite Hc. cbn [mbind option_bind].
  destruct (Z.eqb_spec (n_type cn) TYPE_DIRECTORY) as [Hd|Hd].
  - rewrite Hp. cbn [mbind option_bind]. unfold shape_ok in Hshp. destruct (n_data pn) as [cs nl el st q| | | |] eqn:Hdata.
    2-5: exfalso; unfold is_file in Hshp; rewrite Htp in Hshp; naive_solver.
    eexists _, cn. split; [by rewrite (put_id c cn) by (rewrite lookup_put; by rewrite decide_False)|].
    unfold core, children, elems, links. simpl. by rewrite Hdata.
  - destruct (add_nlink_some d cn Hshc Hd) as [cn' Hadd]. rewrite Hadd. cbn [mbind option_bind].
    destruct (links_with_data_nlink d cn cn' Hshc Hd Hadd) as (?&?&?&?&?&?&?).
    exists pn, cn'. by rewrite (put_id p pn) by done.
Qed.

(** The part of the function that concerns the parent. *)
Lemma leave_parent_effect X ts e ed p t :
  tree_inv X t → t_edges t !! e = Some ed → e_parent ed = Some p →
  ∃ t1 t2 cn pn, t_nodes t !! e_child ed = Some cn ∧ t_nodes t !! p = Some pn ∧
    leave_parent sclasstab MaxECRedundancyLevel ts ed p t = Some t2 ∧
    stats_only (fsnodes_edgeid_remove ed t) t1 ∧
    gapped (λ i, if decide (i = p) then st_of t (e_child ed) else sr_zero) t1 ∧
    st_of t1 (e_child ed) = st_of t (e_child ed) ∧
    ∃ cn1 pn1 cn2 pn2, t_nodes t1 !! e_child ed = Some cn1 ∧ t_nodes t1 !! p = Some pn1 ∧
      t2 = put (e_child ed) cn2 (put p pn2 t1) ∧
      core cn2 = core cn1 ∧ core pn2 = core pn1 ∧ n_parents cn2 = n_parents cn1 ∧ n_parents pn2 = n_parents pn1 ∧
      children cn2 = children cn1 ∧ children pn2 = children pn1 ∧ elems cn2 = elems cn1 ∧ elems pn2 = u32 (elems pn1 - 1) ∧
      links pn2 = (if n_type cn =? TYPE_DIRECTORY then u32 (links pn1 - 1) else links pn1) ∧
      links cn2 = (if n_type cn =? TYPE_DIRECTORY then links cn1 else u16 (links cn1 - 1)).
Proof.
  intros [[Hco [Htree _ _] _ _ _ _ _ _] Hst] Hed Hp. simpl in Htree.
  destruct (co_child t Hco e ed Hed) as (cn & Hcn & Hcin). destruct (co_parent t Hco e ed p Hed Hp) as (pn & Hpn & Hpt & Hpch).
  pose proof (no_self_link t e ed p Hco Htree Hed Hp) as Hne.
  destruct (edgeid_remove_nodes ed t) as [m Hm]. unfold leave_parent. rewrite Hm.
  set (t0 := with_edgeids m t).
  assert (coherent t0) as Hco0 by (by apply (coherent_shape t)).
  destruct (get_stats_0 sclasstab MaxECRedundancyLevel (e_child ed) cn t0 Hco0 Hcn) as (sr & Hsr & ->). cbn [mbind option_bind].
  assert (st_of t (e_child ed) = sr) as Hstc by (unfold st_of; by rewrite Hcn, Hsr).
  destruct (climb_spec (λ i, if decide (i = p) then sr else sr_zero) (λ s, sr_sub s sr) (Some p) (sr_times (-1) sr) [] t0)
    as (t1 & Hclimb & Hso & Hpend).
  { done. } { done. } { intros s. apply sr_sub_equiv. } { intros q [= <-]. by exists pn. }
  { eapply gapped_ext; [|exact Hst]. intros i. simpl. rewrite occurs_cons, occurs_nil. apply sr_of_eq.
    destruct (decide (i = p)) as [->|]; [rewrite decide_True by done|rewrite decide_False by done]; sr_ring. }
  assert (t_nodes t1 !! e_child ed = t_nodes t !! e_child ed) as Hframe.
  { rewrite (climb_frame _ _ _ _ _ Hco0 Hclimb); [done|]. intros q [= <-]. split; [done|]. intros Ha.
    apply (tree_acyclic _ Htree p). eapply tc_r; [exact Ha|]. by eapply view_edge_parent. }
  unfold fsnodes_sub_stats. rewrite Hclimb. cbn [mbind option_bind]. apply pending_nil in Hpend.
  pose proof (stats_only_coherent _ _ Hso Hco0) as Hco1.
  destruct (same_shape_lookup t1 t0 _ _ (symmetry (stats_only_shape _ _ Hso)) Hcn) as (cn1 & Hcn1 & Hsk).
  destruct (same_shape_lookup t1 t0 _ _ (symmetry (stats_only_shape _ _ Hso)) Hpn) as (pn1 & Hpn1 & Hskp).
  apply skel_inv in Hsk as (Htc & _). apply skel_inv in Hskp as (Htp & _).
  exists t1. rewrite Hpn1. cbn [mbind option_bind].
  destruct (change_dir_some id (-1) (with_times ts ts (n_atime pn1) pn1)) as (pn2 & -> & Hcore2 & Hpar2 & Hch2 & Hel2 & Hln2 & Ht2).
  { exact (co_shape t1 Hco1 p pn1 Hpn1). } { cbn. congruence. }
  cbn [mbind option_bind].
  destruct (count_link_spec (-1) p (e_child ed) pn2 cn1 (put p pn2 t1))
    as (pn3 & cn3 & -> & Hpc & Hpp & Hpch' & Hpe & Hpl & Hcc & Hcp & Hcch & Hce & Hcl & _); [done|apply lookup_insert_eq| | |done|by eapply co_shape|].
  { simpl. by rewrite lookup_insert_ne. }
  { apply (core_shape (with_times ts ts (n_atime pn1) pn1)); [done|]. exact (co_shape t1 Hco1 p pn1 Hpn1). }
  cbn [mbind option_bind]. rewrite put_put, lookup_put, decide_False, lookup_put, decide_True by done. cbn [mbind option_bind].
  rewrite Hstc. eexists _, cn, pn. split_and!; [done..| |].
  { unfold st_of in *. by rewrite Hframe. }
  exists cn1, pn1, cn3, (clear_snapshot pn3).
  rewrite Htc. split_and!; try done.
  { rewrite (put_comm p) by done. by rewrite put_put. }
  - transitivity (core pn3); [done|]. by rewrite Hpc, Hcore2.
  - transitivity (n_parents pn3); [done|]. by rewrite Hpp, Hpar2.
  - transitivity (children pn3); [done|]. by rewrite Hpch', Hch2.
  - transitivity (elems pn3); [done|]. by rewrite Hpe, Hel2.
  - transitivity (links pn3); [done|]. by rewrite Hpl, Hln2.
Qed.


(** The new change time of the child. *)
Lemma touch_effect ts c n t :
  t_nodes t !! c = Some n → shape_ok n →
  ∃ n' cs, (if 0 <? ts then
              n ← t_nodes t !! c; fsnodes_checkarchmode sclasstab c ts SCLASS_ARCH_MODE_CTIME (put c (with_ctime ts n) t)
            else Some t) = Some (emit cs (put c n' t)) ∧ summary n' = summary n.
Proof.
  intros Hn Hsh. case_if.
  - rewrite Hn. cbn [mbind option_bind].
    destruct (checkarchmode_effect c (with_ctime ts n) ts SCLASS_ARCH_MODE_CTIME (put c (with_ctime ts n) t))
      as (n' & cs & -> & Hs); [exact Hsh|by rewrite lookup_put, decide_True|]. exists n', cs. by rewrite put_put.
  - exists n, []. split; [|done]. rewrite (put_id c n t Hn). unfold emit. rewrite app_nil_r. by destruct t.
Qed.

(** [summary] decides what [removed_node] looks at. *)
Lemma removed_node_summary e ed cdir i n n1 n' : summary n1 = summary n' → removed_node e ed cdir i n n1 → removed_node e ed cdir i n n'.
Proof. intros (H1 & H2 & H3 & H4 & H5)%summary_inv []. split; congruence. Qed.

Lemma remove_id_parents_other t e ed i n :
  coherent t → t_edges t !! e = Some ed → t_nodes t !! i = Some n → i ≠ e_child ed → remove_id e (n_parents n) = n_parents n.
Proof.
  intros Hco Hed Hn Hc. apply remove_id_notin. intros Hin. destruct (co_parents t Hco i n e Hn Hin) as (ed' & ? & ?). congruence.
Qed.

Lemma remove_id_children_other t e ed i n :
  coherent t → t_edges t !! e = Some ed → t_nodes t !! i = Some n → e_parent ed ≠ Some i → remove_id e (children n) = children n.
Proof.
  intros Hco Hed Hn Hc. apply remove_id_notin. intros Hin. destruct (co_children t Hco i n e Hn Hin) as (ed' & ? & ?). congruence.
Qed.

(** What is left of the state when an edge is removed, but for the nodes. *)
Definition drop_edge (e : positive) (ed : fsedge) (m : gmap Z node) (cs : list call) (t : tree) : tree :=
  let bt := e_child ed `mod` TRASH_BUCKETS in
  let bs := e_child ed `mod` SUSTAINED_BUCKETS in
  mk_tree m (delete e (t_edges t)) (t_edgenext t)
    (match e_parent ed with Some p => delete (p, e_name ed) (t_names t) | None => t_names t end)
    (match e_parent ed with Some _ => t_edgeids (fsnodes_edgeid_remove ed t) | None => t_edgeids t end)
    (match e_parent ed with Some _ => t_trash t | None => <[bt := remove_id e (bucket bt (t_trash t))]> (t_trash t) end)
    (match e_parent ed with Some _ => t_sustained t | None => <[bs := remove_id e (bucket bs (t_sustained t))]> (t_sustained t) end)
    (t_ids t) (t_acls t) (t_vars t) (t_calls t ++ cs).

Lemma remove_edge_named X ts e ed p t :
  tree_inv X t → t_edges t !! e = Some ed → e_parent ed = Some p →
  ∃ t1 t' cn cs, t_nodes t !! e_child ed = Some cn ∧
    fsnodes_remove_edge sclasstab MaxECRedundancyLevel ts e t = Some t' ∧
    stats_only (fsnodes_edgeid_remove ed t) t1 ∧
    gapped (λ i, if decide (e_parent ed = Some i) then st_of t (e_child ed) else sr_zero) t1 ∧
    st_of t1 (e_child ed) = st_of t (e_child ed) ∧
    nodes_rel (removed_node e ed (n_type cn =? TYPE_DIRECTORY)) t1 t' ∧
    t' = drop_edge e ed (t_nodes t') cs t.
Proof.
  intros Hinv Hed Hp. pose proof (ti_coherent _ _ Hinv) as Hco. pose proof (fs_tree _ (ti_fs _ _ Hinv)) as Htree. simpl in Htree.
  pose proof (no_self_link t e ed p Hco Htree Hed Hp) as Hne. unfold fsnodes_remove_edge. rewrite Hed. cbn [mbind option_bind]. rewrite Hp.
  destruct (leave_parent_effect X ts e ed p t Hinv Hed Hp) as (t1 & t2 & cn & pn & Hcn & Hpn & -> & Hso & Hgap & Hstc & Hrest).
  destruct Hrest as (cn1 & pn1 & cn2 & pn2 & Hcn1 & Hpn1 & -> & Hcc & Hpc & Hcp & Hpp & Hcch & Hpch & Hce & Hpe & Hpl & Hcl).
  cbn [mbind option_bind].
  assert (coherent t1) as Hco1.
  { eapply stats_only_coherent; [done|]. destruct (edgeid_remove_nodes ed t) as [m ->]. by apply (coherent_shape t). }
  assert (t_edges t1 !! e = Some ed ∧ t1 = with_nodes (t_nodes t1) (fsnodes_edgeid_remove ed t)) as [Hed1 Ht1].
  { destruct Hso as [Heq _]. split; [|done]. rewrite Heq. by destruct (edgeid_remove_nodes ed t) as [m ->]. }
  destruct (touch_effect ts (e_child ed) cn2 (put (e_child ed) cn2 (put p pn2 t1))) as (cn3 & cs & -> & Hs3).
  { by rewrite lookup_put, decide_True. } { apply (core_shape cn1); [done|]. by eapply co_shape. }
  cbn [mbind option_bind]. rewrite put_put. apply summary_inv in Hs3 as (Hc3 & Hp3 & Hch3 & Hl3 & He3).
  unfold unlink_child. rewrite Hp. rewrite emit_nodes.
  rewrite lookup_put, decide_False, lookup_put, decide_True by done. cbn [mbind option_bind].
  destruct (co_parent t1 Hco1 e ed p Hed1 Hp) as (pn1' & Hpn1' & Hpt1 & _). assert (pn1' = pn1) as -> by congruence.
  destruct (change_dir_some (remove_id e) 0 pn2) as (pn3 & -> & Hpc3 & Hpp3 & Hpch3 & Hpe3 & Hpl3 & _).
  { apply (core_shape pn1); [done|]. by eapply co_shape. } { apply core_inv in Hpc as (-> & _). done. }
  cbn [mbind option_bind]. unfold unlink_parent.
  rewrite lookup_put, decide_False by done. rewrite emit_nodes, lookup_put, decide_True by done.
  cbn [mbind option_bind].
  eexists t1, _, cn, cs. split; [done|]. split; [done|]. split; [done|]. split.
  { eapply gapped_ext; [|exact Hgap]. intros i. simpl. apply sr_of_eq. repeat case_decide; congruence. }
  split; [done|].
  set (tt := put _ _ _). assert (fsnodes_edge_delete p (e_name ed) e tt =
    with_names (delete (p, e_name ed) (t_names t)) tt) as ->.
  { unfold fsnodes_edge_delete. assert (t_names tt = t_names t) as ->.
    { unfold tt. simpl. rewrite Ht1. simpl. by destruct (edgeid_remove_nodes ed t) as [m ->]. }
    rewrite bool_decide_true; [done|]. apply (co_names t Hco). by exists ed. }
  split.
  - intros i. unfold with_edges, with_names. cbn [t_nodes]. unfold tt. rewrite lookup_put. case_decide as Hi; [subst i|].
    { rewrite Hcn1. constructor. split; simpl.
      - transitivity (core cn3); [done|]. congruence.
      - rewrite Hp3, Hcp. done.
      - transitivity (children cn3); [done|]. rewrite Hch3, Hcch. symmetry. eapply remove_id_children_other; [exact Hco1|done|done|congruence].
      - transitivity (elems cn3); [done|]. rewrite bool_decide_false by congruence. congruence.
      - transitivity (links cn3); [done|]. rewrite Hl3, Hcl. rewrite Z.eqb_refl, (bool_decide_false (e_parent ed = _)) by congruence.
        by rewrite bool_decide_true by (rewrite Hp; eauto). }
    rewrite lookup_put. case_decide as Hi'; [subst i|].
    { rewrite Hpn1. constructor. split; simpl.
      - congruence.
      - rewrite Hpp3, Hpp. symmetry. by eapply remove_id_parents_other.
      - by rewrite Hpch3, Hpch.
      - rewrite Hpe3, Hpe, bool_decide_true by done. unfold u32. rewrite Z.add_0_r. apply Zmod_mod.
      - rewrite Hpl3, Hpl, bool_decide_true by done. destruct (Z.eqb_spec p (e_child ed)); [congruence|]. done. }
    rewrite emit_nodes, !lookup_put, !decide_False by done.
    destruct (t_nodes t1 !! i) as [n|] eqn:Hn; constructor. split; try done.
    + symmetry. by eapply remove_id_parents_other.
    + symmetry. eapply remove_id_children_other; [done..|]. congruence.
    + by rewrite bool_decide_false by congruence.
    + rewrite bool_decide_false by congruence. destruct (Z.eqb_spec i (e_child ed)); [congruence|]. by destruct (_ =? _).
  - unfold drop_edge. rewrite Hp. unfold tt. rewrite Ht1. simpl. by destruct (edgeid_remove_nodes ed t) as [m ->].
Qed.

(** The same for an edge of the trash, or of a sustained file. *)
Lemma remove_edge_detached X ts e ed t :
  tree_inv X t → t_edges t !! e = Some ed → e_parent ed = None →
  ∃ t' cn cs, t_nodes t !! e_child ed = Some cn ∧
    fsnodes_remove_edge sclasstab MaxECRedundancyLevel ts e t = Some t' ∧
    nodes_rel (removed_node e ed (n_type cn =? TYPE_DIRECTORY)) t t' ∧
    t' = drop_edge e ed (t_nodes t') cs t.
Proof.
  intros Hinv Hed Hp. pose proof (ti_coherent _ _ Hinv) as Hco.
  destruct (co_child t Hco e ed Hed) as (cn & Hcn & Hcin).
  unfold fsnodes_remove_edge. rewrite Hed. cbn [mbind option_bind]. rewrite Hp. cbn [mbind option_bind].
  destruct (touch_effect ts (e_child ed) cn t) as (cn1 & cs & -> & Hs); [done|by eapply co_shape|]. cbn [mbind option_bind].
  unfold unlink_child. rewrite Hp. cbn [mbind option_bind]. unfold unlink_parent.
  set (tt := with_detached _ _ _). assert (t_nodes tt !! e_child ed = Some cn1) as ->.
  { unfold tt. simpl. apply lookup_insert_eq. }
  cbn [mbind option_bind]. eexists _, cn, cs. split; [done|]. split; [done|]. apply summary_inv in Hs as (H1 & H2 & H3 & H4 & H5).
  split.
  - intros i. unfold with_edges. cbn [t_nodes]. rewrite lookup_put. case_decide as Hi; [subst i|].
    + rewrite Hcn. constructor. split; simpl.
      * transitivity (core cn1); done.
      * by rewrite H2.
      * transitivity (children cn1); [done|]. rewrite H3. symmetry. eapply remove_id_children_other; [done..|]. congruence.
      * rewrite bool_decide_false by congruence. done.
      * transitivity (links cn1); [done|]. rewrite H4. rewrite !bool_decide_false by (rewrite ?Hp; by (congruence || intros [])).
        rewrite andb_false_r. by destruct (_ =? _).
    + unfold tt. cbn [t_nodes with_detached]. rewrite emit_nodes, lookup_put, decide_False by done.
      destruct (t_nodes t !! i) as [n|] eqn:Hn; constructor. split; try done.
      * symmetry. by eapply remove_id_parents_other.
      * symmetry. eapply remove_id_children_other; [done..|]. congruence.
      * by rewrite bool_decide_false by congruence.
      * rewrite bool_decide_false by congruence. destruct (Z.eqb_spec i (e_child ed)); [congruence|]. by destruct (_ =? _).
  - unfold drop_edge. rewrite Hp. done.
Qed.

(** Both cases in one: [t1] is the state after the statistics have been changed. *)
Lemma remove_edge_effect X ts e ed t :
  tree_inv X t → t_edges t !! e = Some ed →
  ∃ m t1 t' cn cs, t_nodes t !! e_child ed = Some cn ∧
    fsnodes_remove_edge sclasstab MaxECRedundancyLevel ts e t = Some t' ∧
    stats_only (with_edgeids m t) t1 ∧
    gapped (λ i, if decide (e_parent ed = Some i) then st_of t (e_child ed) else sr_zero) t1 ∧
    st_of t1 (e_child ed) = st_of t (e_child ed) ∧
    nodes_rel (removed_node e ed (n_type cn =? TYPE_DIRECTORY)) t1 t' ∧
    t' = drop_edge e ed (t_nodes t') cs t.
Proof.
  intros Hinv Hed. destruct (e_parent ed) as [p|] eqn:Hp.
  - destruct (remove_edge_named X ts e ed p t Hinv Hed Hp) as (t1 & t' & cn & cs & Hcn & Hrm & Hso & Hgap & Hstc & Hrel & Hform).
    rewrite Hp in Hgap. destruct (edgeid_remove_nodes ed t) as [m Hm]. rewrite Hm in Hso. by exists m, t1, t', cn, cs.
  - destruct (remove_edge_detached X ts e ed t Hinv Hed Hp) as (t' & cn & cs & Hcn & Hrm & Hrel & Hform).
    exists (t_edgeids t), t, t', cn, cs. split_and!; try done.
    + assert (with_edgeids (t_edgeids t) t = t) as -> by (by destruct t). apply stats_only_refl.
    + eapply gapped_ext; [|exact (ti_stats _ _ Hinv)]. done.
Qed.

End with_classes.

(** ** What a removal keeps *)

(** A node but for its statistics. *)
Definition frozen (n : node) : node := core (erase n).

Lemma frozen_core n n' : core n' = core n → frozen n' = frozen n.
Proof.
  unfold frozen, core, erase. destruct n as [???????????????? d], n' as [???????????????? d']. simpl. intros H.
  injection H. intros. subst. destruct d, d'; simpl in *; simplify_eq; done.
Qed.

Lemma frozen_erase n n' : erase n' = erase n → frozen n' = frozen n.
Proof. unfold frozen. by intros ->. Qed.

Lemma frozen_inv n n' : frozen n' = frozen n →
  n_type n' = n_type n ∧ n_mode n' = n_mode n ∧ n_aclpermflag n' = n_aclpermflag n ∧ n_acldefflag n' = n_acldefflag n ∧
  n_sclassid n' = n_sclassid n ∧ data_tag (n_data n') = data_tag (n_data n) ∧ file_length n' = file_length n.
Proof.
  unfold frozen, core, erase, file_length. destruct n as [???????????????? d], n' as [???????????????? d']. simpl. intros H.
  destruct d, d'; simpl in *; injection H; intros; subst; by split_and!.
Qed.

Lemma frozen_shape n n' : frozen n' = frozen n → shape_ok n → shape_ok n'.
Proof.
  intros (Ht & _ & _ & _ & _ & Htag & _)%frozen_inv. unfold shape_ok, is_file. rewrite Ht.
  by destruct (n_data n), (n_data n').
Qed.

Lemma erase_inv n n' : erase n' = erase n → n_parents n' = n_parents n ∧ children n' = children n ∧ elems n' = elems n ∧ links n' = links n.
Proof.
  unfold erase, children, elems, links. intros H.
  destruct n as [???????????????? d], n' as [???????????????? d']. simpl in *.
  destruct d, d'; simpl in *; injection H; intros; subst; by split_and!.
Qed.

(** [removed_node] from the state before the statistics are changed. *)
Record removed_from (e : positive) (ed : fsedge) (cdir : bool) (i : Z) (n n' : node) : Prop := {
  rf_frozen : frozen n' = frozen n;
  rf_parents : n_parents n' = remove_id e (n_parents n);
  rf_children : children n' = remove_id e (children n);
  rf_elems : elems n' = (if bool_decide (e_parent ed = Some i) then u32 (elems n - 1) else elems n);
  rf_links : links n' =
    (if cdir then (if bool_decide (e_parent ed = Some i) then u32 (links n - 1) else links n)
     else if (i =? e_child ed) && bool_decide (is_Some (e_parent ed)) then u16 (links n - 1) else links n) }.

Lemma stats_only_rel t t' : stats_only t t' → nodes_rel (λ _ n n', erase n' = erase n) t t'.
Proof.
  intros [_ Hm] i. assert ((erase <$> t_nodes t') !! i = (erase <$> t_nodes t) !! i) as Heq by (by rewrite Hm).
  rewrite !lookup_fmap in Heq. destruct (t_nodes t !! i), (t_nodes t' !! i); try done; constructor.
  simpl in Heq. congruence.
Qed.

Lemma removed_from_ok e ed cdir m t t1 t' :
  stats_only (with_edgeids m t) t1 → nodes_rel (removed_node e ed cdir) t1 t' → nodes_rel (removed_from e ed cdir) t t'.
Proof.
  intros Hso Hrel i. pose proof (stats_only_rel _ _ Hso i) as H1. pose proof (Hrel i) as H2. simpl in H1.
  destruct H1 as [n n1 He|].
  - inversion H2 as [n1' n' Hr Hx|]; subst. constructor. apply erase_inv in He as He'. destruct He' as (Hp & Hc & Hel & Hl).
    destruct Hr as [Hcore Hpar Hch Helems Hlinks]. rewrite Hp in Hpar. rewrite Hc in Hch. rewrite Hel in Helems. rewrite Hl in Hlinks.
    split; try done. rewrite <- (frozen_erase _ _ He). by apply frozen_core.
  - inversion H2. constructor.
Qed.
