(* ===== verification/FsTreeEdges.v ===== *)
(** * Removal and insertion of an edge keep the invariant

    [fsnodes_remove_edge] and [fsnodes_link], the two functions all changes of the tree
    are made of, always return, and leave a state in which the invariant holds. *)

From S2P Require Import Prelude MfsComm FreeInodes StorageClass DataPack FsNodes PosixAcl FsAccess AclFacts FsTree FsStats FsTreeInv.

(** ** Parts of the invariant under changes of the nodes *)

Lemma nodes_rel_impl (R R' : Z → node → node → Prop) t t' :
  (∀ i n n', R i n n' → R' i n n') → nodes_rel R t t' → nodes_rel R' t t'.
Proof. intros Himp Hrel i. destruct (Hrel i); constructor; by apply Himp. Qed.

Lemma nodes_rel_dom R t t' i : nodes_rel R t t' → is_Some (t_nodes t' !! i) ↔ is_Some (t_nodes t !! i).
Proof. intros Hrel. destruct (Hrel i); split; eauto; intros []; done. Qed.

Lemma nodes_rel_fmap {B} (f : node → B) t t' :
  nodes_rel (λ _ n n', f n' = f n) t t' → f <$> t_nodes t' = f <$> t_nodes t.
Proof.
  intros Hrel. apply map_eq. intros i. rewrite !lookup_fmap. destruct (Hrel i) as [n n' Heq|]; simpl; congruence.
Qed.

Lemma parent_of_view t i q :
  parent_of (view t) i q ↔ ∃ n e, t_nodes t !! i = Some n ∧ e ∈ n_parents n ∧ edge_parent t e = Some q.
Proof.
  split.
  - intros (v & Hv & Hin). unfold view in Hv. rewrite lookup_fmap in Hv.
    destruct (t_nodes t !! i) as [n|] eqn:Hn; [|done]. injection Hv as <-. simpl in Hin.
    apply list_elem_of_fmap in Hin as (e & He & Hin). eauto.
  - intros (n & e & Hn & Hin & He). exists (node_view t n). split; [by apply view_lookup|].
    apply list_elem_of_fmap. eauto.
Qed.

(** No new way up, no new parents of a directory. *)
Lemma tree_ok_le t t' :
  nodes_rel (λ _ n n', n_type n' = n_type n ∧ (n_type n = TYPE_DIRECTORY → length (n_parents n') ≤ length (n_parents n))%nat) t t' →
  (∀ i q, parent_of (view t') i q → parent_of (view t) i q) → tree_ok (view t) → tree_ok (view t').
Proof.
  intros Hrel Hpar [Hd Ho Ha]. split.
  - intros i q Hq%Hpar. destruct (Hd i q Hq) as (v & Hv & Ht). unfold view in *. rewrite lookup_fmap in *.
    destruct (Hrel q) as [n n' [Heq _]|]; [|done]. injection Hv as <-. exists (node_view t' n'). split; [done|]. simpl in *. congruence.
  - intros i v Hv Ht. unfold view in *. rewrite lookup_fmap in *. specialize (Ho i). rewrite lookup_fmap in Ho.
    destruct (Hrel i) as [n n' [Heq Hlen]|]; [|done]. injection Hv as <-. simpl in *. rewrite length_fmap.
    specialize (Ho _ eq_refl). simpl in Ho. rewrite length_fmap in Ho. rewrite Heq in Ht. specialize (Hlen Ht). specialize (Ho Ht). lia.
  - intros i Hi. apply (Ha i). unfold ancestor in *. revert Hi. generalize i at 2 4. intros j Hi.
    induction Hi as [x y Hxy|x y z Hxy _ IH]; [by apply tc_once, Hpar|eapply tc_l; [by apply Hpar|exact IH]].
Qed.

Lemma lists_same t t' :
  nodes_rel (λ _ n n', n_mode n' = n_mode n ∧ n_aclpermflag n' = n_aclpermflag n ∧ n_acldefflag n' = n_acldefflag n) t t' →
  t_acls t' = t_acls t → tree_ok (view t') → fs_inv (tree_fs t) → fs_inv (tree_fs t').
Proof.
  intros Hrel Hacls Htree [_ Hm [H1 H2 H3]]. split; [done| |split].
  - intros i v Hv. specialize (Hm i). unfold tree_fs, view in *. simpl in *. rewrite lookup_fmap in *.
    destruct (Hrel i) as [n n' (Heq & _)|]; [|done]. injection Hv as <-. simpl. rewrite Heq. by apply (Hm (node_view t n)).
  - simpl. rewrite Hacls. exact H1.
  - intros i ty n Hn. simpl in *. rewrite Hacls in Hn. destruct (H2 i ty n Hn) as (v & Hv & Hf). unfold view in *.
    rewrite lookup_fmap in *. destruct (Hrel i) as [m m' (_ & Hp & Hd)|]; [|done]. injection Hv as <-. exists (node_view t' m').
    split; [done|]. unfold acl_flag in *. simpl in *. by rewrite Hp, Hd.
  - intros i ty v Hv Hf. simpl in *. rewrite Hacls. unfold view in *. rewrite lookup_fmap in Hv. specialize (H3 i ty).
    rewrite lookup_fmap in H3. destruct (Hrel i) as [m m' (_ & Hp & Hd)|]; [|done]. injection Hv as <-.
    apply (H3 _ eq_refl). unfold acl_flag in *. simpl in *. by rewrite <- Hp, <- Hd.
Qed.

(** What the counters look at. *)
Definition weight (n : node) : Z * Z * option Z := (n_type n, n_sclassid n, file_length n).

Lemma weight_sums n n' : weight n' = weight n →
  (∀ ty, of_type ty n' = of_type ty n) ∧ (∀ ty, space_of_type ty n' = space_of_type ty n) ∧ weight_files n' = weight_files n ∧
  (∀ sc, weight_class_files sc n' = weight_class_files sc n) ∧ (∀ sc, weight_class_dirs sc n' = weight_class_dirs sc n).
Proof.
  unfold weight. intros [= Ht Hs Hl]. unfold of_type, space_of_type, weight_files, weight_class_files, weight_class_dirs, is_file.
  rewrite Ht, Hs, Hl. done.
Qed.

Lemma frozen_weight n n' : frozen n' = frozen n → weight n' = weight n.
Proof. intros (Ht & _ & _ & _ & Hs & _ & Hl)%frozen_inv. unfold weight. by rewrite Ht, Hs, Hl. Qed.

Lemma counters_same t t' v :
  nodes_rel (λ _ n n', weight n' = weight n) t t' → counters_ok (t_nodes t) v → counters_ok (t_nodes t') v.
Proof.
  intros Hrel [H1 H2 H3 H4 H5 H6 H7 H8].
  assert (∀ f, (∀ n n', weight n' = weight n → f n' = f n) → sum_nodes f (t_nodes t') = sum_nodes f (t_nodes t)) as Hsum.
  { intros f Hf. apply sum_nodes_ext, nodes_rel_fmap. eapply nodes_rel_impl; [|exact Hrel]. intros i n n'. apply Hf. }
  split; [rewrite H1|rewrite H2|rewrite H3|rewrite H4|rewrite H5|rewrite H6|rewrite H7|intros sc; rewrite H8; f_equal];
    f_equal; symmetry; apply Hsum; intros n n' (W1 & W2 & W3 & W4 & W5)%weight_sums;
    first [done|apply W1|apply W2|apply W3|apply W4|apply W5].
Qed.

(** *** States that differ in times, extra attributes, [keepmode] and statistics *)

Definition static (n : node) : node * list positive * list positive * Z * Z :=
  (frozen n, n_parents n, children n, links n, elems n).
Definition rest (t : tree) :=
  (t_edges t, t_edgenext t, t_names t, t_edgeids t, t_trash t, t_sustained t, t_ids t, t_acls t, t_vars t).

Definition same_struct (t t' : tree) : Prop := nodes_rel (λ _ n n', static n' = static n) t t' ∧ rest t' = rest t.

Lemma static_inv n n' : static n' = static n →
  frozen n' = frozen n ∧ n_parents n' = n_parents n ∧ children n' = children n ∧ links n' = links n ∧ elems n' = elems n.
Proof. unfold static. intros H. apply pair_equal_spec in H as [H ?]. apply pair_equal_spec in H as [H ?].
  apply pair_equal_spec in H as [H ?]. by apply pair_equal_spec in H as [H ?]. Qed.

Lemma static_skel n n' : static n' = static n → skel n' = skel n.
Proof.
  intros (Hf & Hp & Hc & _)%static_inv. apply frozen_inv in Hf as (Ht & _ & _ & _ & _ & Htag & _).
  unfold skel. by rewrite Ht, Hp, Hc, Htag.
Qed.

Lemma summary_static n n' : summary n' = summary n → static n' = static n.
Proof. intros (Hc & Hp & Hch & Hl & He)%summary_inv. unfold static. by rewrite (frozen_core _ _ Hc), Hp, Hch, Hl, He. Qed.

Lemma erase_static n n' : erase n' = erase n → static n' = static n.
Proof. intros H. unfold static. destruct (erase_inv _ _ H) as (Hp & Hc & He & Hl). rewrite Hp, Hc, He, Hl. by rewrite (frozen_erase _ _ H). Qed.

Lemma rest_inv t t' : rest t' = rest t →
  t_edges t' = t_edges t ∧ t_edgenext t' = t_edgenext t ∧ t_names t' = t_names t ∧ t_edgeids t' = t_edgeids t ∧
  t_trash t' = t_trash t ∧ t_sustained t' = t_sustained t ∧ t_ids t' = t_ids t ∧ t_acls t' = t_acls t ∧ t_vars t' = t_vars t.
Proof.
  unfold rest. intros H. repeat apply pair_equal_spec in H as [H ?]. by split_and!.
Qed.

Lemma to_dir_same t t' e : t_edges t' = t_edges t → nodes_rel (λ _ n n', n_type n' = n_type n) t t' → to_dir t' e = to_dir t e.
Proof.
  intros He Hrel. unfold to_dir. rewrite He. destruct (t_edges t !! e) as [ed|]; [|done].
  destruct (Hrel (e_child ed)) as [n n' Heq|]; [by rewrite Heq|done].
Qed.

Lemma count_ext {A} (f g : A → bool) l : (∀ x, x ∈ l → f x = g x) → count f l = count g l.
Proof.
  intros Heq. unfold count. induction l as [|x l IH]; [done|]. rewrite !filter_cons, (Heq x) by (by left).
  assert (Z.of_nat (length (filter (λ x, f x = true) l)) = Z.of_nat (length (filter (λ x, g x = true) l))) as Hl.
  { apply IH. intros y Hy. apply Heq. by right. }
  case_decide; simpl; lia.
Qed.

(** What the edges look at in a node. *)
Definition bones (n : node) : Z * tag * list positive * list positive * Z * Z :=
  (n_type n, data_tag (n_data n), n_parents n, children n, links n, elems n).

Lemma bones_inv n n' : bones n' = bones n →
  skel n' = skel n ∧ n_type n' = n_type n ∧ n_parents n' = n_parents n ∧ children n' = children n ∧
  links n' = links n ∧ elems n' = elems n.
Proof. unfold bones, skel. intros [= H1 H2 H3 H4 H5 H6]. by rewrite H1, H2, H3, H4, H5, H6. Qed.

(** All but the nodes, the access lists and the counters. *)
Definition rest_tree (t : tree) :=
  (t_edges t, t_edgenext t, t_names t, t_edgeids t, t_trash t, t_sustained t, t_ids t).

Lemma struct_bones X t t' :
  nodes_rel (λ _ n n', bones n' = bones n) t t' → rest_tree t' = rest_tree t → fs_inv (tree_fs t') →
  counters_ok (t_nodes t') (t_vars t') → struct_inv X t → struct_inv X t'.
Proof.
  intros Hrel Hrest Hfs' Hctr' [Hco Hfs Hcnt [D1 D2 D3 D4 D5] Hlink Hpool Hctr Hids].
  assert (t_edges t' = t_edges t ∧ t_edgenext t' = t_edgenext t ∧ t_names t' = t_names t ∧ t_edgeids t' = t_edgeids t ∧
    t_trash t' = t_trash t ∧ t_sustained t' = t_sustained t ∧ t_ids t' = t_ids t)
    as (He & Hnx & Hnm & Hei & Htr & Hsu & Hid).
  { unfold rest_tree in Hrest. repeat apply pair_equal_spec in Hrest as [Hrest ?]. by split_and!. }
  assert (same_shape t t') as Hsh.
  { split_and!; [|done..]. apply nodes_rel_fmap. eapply nodes_rel_impl; [|exact Hrel]. by intros i n n' (? & _)%bones_inv. }
  assert (nodes_rel (λ _ n n', n_type n' = n_type n) t t') as Hty.
  { eapply nodes_rel_impl; [|exact Hrel]. by intros i n n' (_ & ? & _)%bones_inv. }
  assert (∀ i n, t_nodes t !! i = Some n → ∃ n', t_nodes t' !! i = Some n' ∧ n_type n' = n_type n) as Hfwdt.
  { intros i n Hn. by apply (nodes_rel_l _ _ _ _ _ Hty). }
  assert (∀ e, edge_parent t' e = edge_parent t e) as Hep by (intros e; unfold edge_parent; by rewrite He).
  split.
  - by apply (coherent_shape t).
  - done.
  - intros i n' Hn'. destruct (nodes_rel_r _ _ _ _ _ Hrel Hn') as (n & Hn & (_ & Ht & Hp & Hc & Hl & Hel)%bones_inv).
    specialize (Hcnt i n Hn). rewrite Ht, Hp, Hc, Hl, Hel.
    rewrite (count_ext (to_dir t') (to_dir t)) by (intros; by apply to_dir_same).
    rewrite (count_ext (has_dir t') (has_dir t)) by (intros e _; unfold has_dir; by rewrite Hep). done.
  - split.
    + intros e ed Hed Hp. rewrite He in Hed. destruct (D1 e ed Hed Hp) as (n & Hn & Hor).
      destruct (Hfwdt _ _ Hn) as (n' & Hn' & Ht). exists n'. rewrite Ht, Htr, Hsu. done.
    + intros b e Hb. rewrite Htr in Hb. destruct (D2 b e Hb) as (ed & n & Hed & Hp & Hn & Ht & Hm).
      destruct (Hfwdt _ _ Hn) as (n' & Hn' & Ht'). exists ed, n'. rewrite He, Ht'. done.
    + intros b e Hb. rewrite Hsu in Hb. destruct (D3 b e Hb) as (ed & n & Hed & Hp & Hn & Ht & Hm).
      destruct (Hfwdt _ _ Hn) as (n' & Hn' & Ht'). exists ed, n'. rewrite He, Ht'. done.
    + rewrite Htr, Hsu. done.
    + intros i n' Hn' Ht Hx. destruct (nodes_rel_r _ _ _ _ _ Hrel Hn') as (n & Hn & (_ & Ht' & Hp & _)%bones_inv).
      rewrite Ht' in Ht. rewrite Hp, He. by apply (D5 i n).
  - intros i n' Hn' Hr Hx. destruct (nodes_rel_r _ _ _ _ _ Hrel Hn') as (n & Hn & (_ & _ & Hp & _)%bones_inv). rewrite Hp.
    by apply (Hlink i n).
  - rewrite Hid. eapply pool_inv_ext; [|exact Hpool]. intros i. symmetry. by eapply nodes_rel_dom.
  - done.
  - intros h id e. rewrite Hei, He. apply Hids.
Qed.

(** The part the access rights and lists have no place in. *)
Definition fixed (n : node) := (weight n, bones n).

Lemma static_fixed n n' : static n' = static n → fixed n' = fixed n.
Proof.
  intros (Hf & Hp & Hc & Hl & He)%static_inv. unfold fixed, bones. rewrite (frozen_weight _ _ Hf), Hp, Hc, Hl, He.
  by apply frozen_inv in Hf as (-> & _ & _ & _ & _ & -> & _).
Qed.

Lemma struct_fixed X t t' :
  nodes_rel (λ _ n n', fixed n' = fixed n) t t' → rest_tree t' = rest_tree t → t_vars t' = t_vars t → fs_inv (tree_fs t') →
  struct_inv X t → struct_inv X t'.
Proof.
  intros Hrel Hrest Hv Hfs' Hinv. apply (struct_bones X t); try done.
  - eapply nodes_rel_impl; [|exact Hrel]. by intros i n n' (_ & ?)%pair_equal_spec.
  - rewrite Hv. eapply counters_same; [|apply (ti_counters _ _ Hinv)]. eapply nodes_rel_impl; [|exact Hrel].
    by intros i n n' (? & _)%pair_equal_spec.
Qed.

Lemma struct_same X t t' : same_struct t t' → struct_inv X t → struct_inv X t'.
Proof.
  intros [Hrel Hrest] Hinv. apply rest_inv in Hrest as (He & Hnx & Hnm & Hei & Htr & Hsu & Hid & Hac & Hv).
  assert (∀ e, edge_parent t' e = edge_parent t e) as Hep by (intros e; unfold edge_parent; by rewrite He).
  eapply struct_fixed; [|unfold rest_tree; by rewrite He, Hnx, Hnm, Hei, Htr, Hsu, Hid|done| |exact Hinv].
  - eapply nodes_rel_impl; [|exact Hrel]. intros. by apply static_fixed.
  - apply (lists_same t); [|done| |apply (ti_fs _ _ Hinv)].
    + eapply nodes_rel_impl; [|exact Hrel]. intros i n n' (Hf & _)%static_inv. by apply frozen_inv in Hf as (_ & ? & ? & ? & _).
    + apply (tree_ok_le t); [| |apply (fs_tree _ (ti_fs _ _ Hinv))].
      * eapply nodes_rel_impl; [|exact Hrel]. intros i n n' (Hf & -> & _)%static_inv. by apply frozen_inv in Hf as (? & _).
      * intros i q (n' & e & Hn' & Hin & Hq)%parent_of_view. apply parent_of_view.
        destruct (nodes_rel_r _ _ _ _ _ Hrel Hn') as (n & Hn & (_ & Hp & _)%static_inv).
        exists n, e. rewrite <- Hp, <- Hep. done.
Qed.

(** *** Statistics *)

Lemma st_of_same t t' i : nodes_rel (λ _ n n', node_stats n' = node_stats n) t t' → st_of t' i = st_of t i.
Proof. intros Hrel. unfold st_of. destruct (Hrel i) as [n n' Heq|]; [by rewrite Heq|done]. Qed.

Lemma dir_sum_ext t t' cs : (∀ e, e ∈ cs → edge_stats t' e = edge_stats t e) → dir_sum t' cs = dir_sum t cs.
Proof.
  intros Heq. unfold dir_sum. induction cs as [|e cs IH]; [done|]. simpl. rewrite Heq by (by left). f_equal. apply IH.
  intros e' He'. apply Heq. by right.
Qed.

Lemma stats_same t t' :
  nodes_rel (λ _ n n', summary n' = summary n) t t' → t_edges t' = t_edges t → stats_ok t → stats_ok t'.
Proof.
  intros Hrel He Hst i n' st Hn' Ht Hs.
  destruct (nodes_rel_r _ _ _ _ _ Hrel Hn') as (n & Hn & (Hc & _ & Hch & _)%summary_inv).
  destruct (core_stats _ _ Hc) as [_ Hd]. apply core_inv in Hc as (Hty & _).
  rewrite (dir_sum_ext t t').
  - rewrite Hch. apply (Hst i n st); congruence.
  - intros e _. unfold edge_stats. rewrite He. destruct (t_edges t !! e); [|done]. apply st_of_same.
    eapply nodes_rel_impl; [|exact Hrel]. intros j m m' (Hm & _)%summary_inv. by apply core_stats.
Qed.

(** Two states alike but for times, extra attributes, [keepmode] and calls. *)
Definition same_inv (t t' : tree) : Prop := nodes_rel (λ _ n n', summary n' = summary n) t t' ∧ rest t' = rest t.

Lemma same_inv_refl t : same_inv t t.
Proof. split; [|done]. intros i. destruct (t_nodes t !! i); by constructor. Qed.

Lemma same_inv_trans t1 t2 t3 : same_inv t1 t2 → same_inv t2 t3 → same_inv t1 t3.
Proof.
  intros [H1 R1] [H2 R2]. split; [|congruence]. intros i. specialize (H1 i). specialize (H2 i).
  destruct H1; inversion H2; constructor. congruence.
Qed.

Lemma same_inv_put t i n n' cs : t_nodes t !! i = Some n → summary n' = summary n → same_inv t (emit cs (put i n' t)).
Proof.
  intros Hn Hs. split; [|done]. intros j. rewrite emit_nodes, lookup_put. case_decide; [subst; rewrite Hn; by constructor|].
  destruct (t_nodes t !! j); by constructor.
Qed.

Lemma inv_same X t t' : same_inv t t' → tree_inv X t → tree_inv X t'.
Proof.
  intros [Hrel Hrest] [Hs Hst]. split.
  - eapply struct_same; [|exact Hs]. split; [|done]. eapply nodes_rel_impl; [|exact Hrel]. intros. by apply summary_static.
  - eapply stats_same; [done| |done]. by apply rest_inv in Hrest as (? & _).
Qed.

Lemma struct_stats_only X t t' : stats_only t t' → struct_inv X t → struct_inv X t'.
Proof.
  intros Hso. apply struct_same. split; [|destruct Hso as [Heq _]; by rewrite Heq].
  eapply nodes_rel_impl; [|by apply stats_only_rel]. intros. by apply erase_static.
Qed.

Lemma rest_stats_only t t' : stats_only t t' → rest t' = rest t.
Proof. intros [Heq _]. by rewrite Heq. Qed.

(** ** Removal of an edge *)

Lemma count_remove_id f e l : e ∈ l → NoDup l → count f (remove_id e l) = count f l - (if f e then 1 else 0).
Proof.
  intros Hin Hnd. induction Hnd as [|x l Hx Hnd IH]; [by apply not_elem_of_nil in Hin|].
  unfold count, remove_id in *. rewrite !filter_cons. apply elem_of_cons in Hin as [->|Hin].
  - rewrite decide_False by tauto. pose proof (remove_id_notin x l Hx) as Hl. unfold remove_id in Hl. rewrite Hl.
    destruct (f x); [rewrite decide_True by done; simpl; lia|rewrite decide_False by done; simpl; lia].
  - specialize (IH Hin). rewrite decide_True by (intros ->; done). rewrite filter_cons.
    destruct (f x); [rewrite !decide_True by done; simpl; lia|rewrite !decide_False by done; lia].
Qed.

Lemma length_remove_id e l : e ∈ l → NoDup l → Z.of_nat (length (remove_id e l)) = Z.of_nat (length l) - 1.
Proof.
  intros Hin Hnd. pose proof (count_remove_id (λ _, true) e l Hin Hnd) as H. unfold count in H.
  assert (∀ k : list positive, filter (λ _, true = true) k = k) as Hk.
  { intros k. induction k as [|x k IH]; [done|]. rewrite filter_cons, decide_True by done. by f_equal. }
  by rewrite !Hk in H.
Qed.

Lemma NoDup_remove_id e l : NoDup l → NoDup (remove_id e l).
Proof. apply NoDup_filter. Qed.

Lemma u32_sub a d : u32 (u32 a + d) = u32 (a + d).
Proof. unfold u32. by rewrite Zplus_mod_idemp_l. Qed.
Lemma u16_sub a d : u16 (u16 a + d) = u16 (a + d).
Proof. unfold u16. by rewrite Zplus_mod_idemp_l. Qed.

Lemma dir_sum_remove t e l :
  e ∈ l → NoDup l → dir_sum t l = sr_plus (dir_sum t (remove_id e l)) (edge_stats t e).
Proof.
  intros Hin Hnd. unfold dir_sum. induction Hnd as [|x l Hx Hnd IH]; [by apply not_elem_of_nil in Hin|].
  unfold remove_id in *. rewrite filter_cons. cbn [foldr]. apply elem_of_cons in Hin as [->|Hin].
  - rewrite decide_False by tauto. pose proof (remove_id_notin x l Hx) as Hl. unfold remove_id in Hl. rewrite Hl. apply sr_plus_comm.
  - rewrite decide_True by (intros ->; done). cbn [foldr]. by rewrite IH, sr_plus_assoc.
Qed.

Section removal.
Variables (X : list Z) (t t' : tree) (e : positive) (ed : fsedge) (cn : node) (cs : list call).
Hypothesis Hinv : struct_inv X t.
Hypothesis Hed : t_edges t !! e = Some ed.
Hypothesis Hcn : t_nodes t !! e_child ed = Some cn.
Hypothesis Hrel : nodes_rel (removed_from e ed (n_type cn =? TYPE_DIRECTORY)) t t'.
Hypothesis Hform : t' = drop_edge e ed (t_nodes t') cs t.

#[local] Definition removal_co : coherent t := ti_coherent _ _ Hinv.

Lemma removal_edges : t_edges t' = delete e (t_edges t).
Proof. by rewrite Hform. Qed.

Lemma removal_edge e' ed' : t_edges t' !! e' = Some ed' ↔ e' ≠ e ∧ t_edges t !! e' = Some ed'.
Proof. rewrite removal_edges, lookup_delete_Some. naive_solver. Qed.

Lemma removal_fwd i n : t_nodes t !! i = Some n →
  ∃ n', t_nodes t' !! i = Some n' ∧ n_type n' = n_type n ∧ n_parents n' = remove_id e (n_parents n) ∧ children n' = remove_id e (children n).
Proof.
  intros Hn. destruct (nodes_rel_l _ _ _ _ _ Hrel Hn) as (n' & Hn' & [Hf Hp Hc _ _]). exists n'.
  apply frozen_inv in Hf as (? & _). done.
Qed.

Lemma removal_bwd i n' : t_nodes t' !! i = Some n' →
  ∃ n, t_nodes t !! i = Some n ∧ n_type n' = n_type n ∧ n_parents n' = remove_id e (n_parents n) ∧ children n' = remove_id e (children n).
Proof.
  intros Hn. destruct (nodes_rel_r _ _ _ _ _ Hrel Hn) as (n & Hn' & [Hf Hp Hc _ _]). exists n.
  apply frozen_inv in Hf as (? & _). done.
Qed.

Lemma removal_name p name : t_names t' !! (p, name) =
  (if bool_decide (e_parent ed = Some p ∧ e_name ed = name) then None else t_names t !! (p, name)).
Proof.
  rewrite Hform. unfold drop_edge. simpl. destruct (e_parent ed) as [q|].
  - rewrite lookup_delete. case_decide as Hd; [rewrite bool_decide_true by (by simplify_eq); done|].
    rewrite bool_decide_false; [done|]. intros [[= ->] <-]. done.
  - rewrite bool_decide_false; [done|]. by intros [].
Qed.

Lemma removal_coherent : coherent t'.
Proof.
  pose proof removal_co as [H1 H2 H3 H4 H5 H6 H7 H8 H9 H10]. split.
  - intros e' ed' (Hne & He')%removal_edge. destruct (H1 e' ed' He') as (n & Hn & Hin).
    destruct (removal_fwd _ _ Hn) as (n' & Hn' & _ & Hp & _). exists n'. rewrite Hp, elem_of_remove_id. done.
  - intros i n' e' Hn' Hin. destruct (removal_bwd _ _ Hn') as (n & Hn & _ & Hp & _). rewrite Hp, elem_of_remove_id in Hin.
    destruct Hin as [Hne Hin]. destruct (H2 i n e' Hn Hin) as (ed' & He' & Hc). exists ed'. by rewrite removal_edge.
  - intros i n' Hn'. destruct (removal_bwd _ _ Hn') as (n & Hn & _ & -> & _). by eapply NoDup_remove_id, H3.
  - intros e' ed' p (Hne & He')%removal_edge Hp. destruct (H4 e' ed' p He' Hp) as (n & Hn & Ht & Hin).
    destruct (removal_fwd _ _ Hn) as (n' & Hn' & Ht' & _ & Hc). exists n'. rewrite Hc, elem_of_remove_id. by rewrite Ht'.
  - intros i n' e' Hn' Hin. destruct (removal_bwd _ _ Hn') as (n & Hn & _ & _ & Hc). rewrite Hc, elem_of_remove_id in Hin.
    destruct Hin as [Hne Hin]. destruct (H5 i n e' Hn Hin) as (ed' & He' & Hp). exists ed'. by rewrite removal_edge.
  - intros i n' Hn'. destruct (removal_bwd _ _ Hn') as (n & Hn & _ & _ & ->). by eapply NoDup_remove_id, H6.
  - intros i n' Hn'. destruct (nodes_rel_r _ _ _ _ _ Hrel Hn') as (n & Hn & [Hf _ _ _ _]). eapply frozen_shape; [done|].
    by eapply H7.
  - intros e' ed' (Hne & He')%removal_edge. rewrite Hform. simpl. by eapply H8.
  - intros p name e'. rewrite removal_name. case_bool_decide as Hb.
    + split; [done|]. intros (ed' & (Hne & He')%removal_edge & Hp & Hname). exfalso. apply Hne. destruct Hb as [Hb1 Hb2].
      assert (t_names t !! (p, name) = Some e') as H by (apply H9; eauto).
      assert (t_names t !! (p, name) = Some e) as H' by (apply H9; eauto). congruence.
    + rewrite H9. split; intros (ed' & He' & Hp & Hname); exists ed'; rewrite removal_edge in *; [|naive_solver].
      split_and!; try done. intros ->. apply Hb. naive_solver.
  - destruct H10 as (r & Hr & Ht & Hp). destruct (removal_fwd _ _ Hr) as (r' & Hr' & Ht' & Hp' & _). exists r'.
    rewrite Hp', Hp. by rewrite Ht'.
Qed.

Lemma removal_edge_parent e' : e' ≠ e → edge_parent t' e' = edge_parent t e'.
Proof. intros Hne. unfold edge_parent. rewrite removal_edges, lookup_delete_ne by done. done. Qed.

Lemma removal_fs : fs_inv (tree_fs t').
Proof.
  apply (lists_same t); [|by rewrite Hform| |apply (ti_fs _ _ Hinv)].
  - eapply nodes_rel_impl; [|exact Hrel]. intros i n n' [Hf _ _ _ _]. by apply frozen_inv in Hf as (_ & ? & ? & ? & _).
  - apply (tree_ok_le t); [| |apply (fs_tree _ (ti_fs _ _ Hinv))].
    + eapply nodes_rel_impl; [|exact Hrel]. intros i n n' [Hf -> _ _ _]. apply frozen_inv in Hf as (? & _). split; [done|].
      intros _. apply length_filter.
    + intros i q (n' & e' & Hn' & Hin & Hq)%parent_of_view. apply parent_of_view.
      destruct (removal_bwd _ _ Hn') as (n & Hn & _ & Hp & _). rewrite Hp, elem_of_remove_id in Hin. destruct Hin as [Hne Hin].
      exists n, e'. by rewrite <- removal_edge_parent.
Qed.

Lemma removal_counts : counts_ok t'.
Proof.
  pose proof removal_co as Hco.
  intros i n' Hn'. destruct (nodes_rel_r _ _ _ _ _ Hrel Hn') as (n & Hn & [Hf Hp Hc Hel Hl]).
  apply frozen_inv in Hf as (Ht & _). pose proof (ti_counts _ _ Hinv i n Hn) as Hcnt. rewrite Ht, Hel, Hl, Hp, Hc.
  rewrite (count_ext (to_dir t') (to_dir t) (remove_id e (children n))).
  2: { intros e' [Hne Hin]%elem_of_remove_id. unfold to_dir. rewrite removal_edges, lookup_delete_ne by done.
       destruct (t_edges t !! e') as [ed'|]; [|done]. destruct (Hrel (e_child ed')) as [m m' [Hfm _ _ _ _]|]; [|done].
       by apply frozen_inv in Hfm as (-> & _). }
  rewrite (count_ext (has_dir t') (has_dir t) (remove_id e (n_parents n))).
  2: { intros e' [Hne Hin]%elem_of_remove_id. unfold has_dir. by rewrite removal_edge_parent. }
  assert (to_dir t e = (n_type cn =? TYPE_DIRECTORY)) as Htd by (unfold to_dir; by rewrite Hed, Hcn).
  assert (has_dir t e = bool_decide (is_Some (e_parent ed))) as Hhd.
  { unfold has_dir, edge_parent. rewrite Hed. simpl. by destruct (e_parent ed). }
  destruct (n_type n =? TYPE_DIRECTORY) eqn:Hdir.
  - destruct Hcnt as [He1 Hl1]. destruct (bool_decide (e_parent ed = Some i)) eqn:Hpar; zbool.
    + destruct (co_parent t Hco e ed i Hed Hpar) as (n0 & Hn0 & _ & Hin). assert (n0 = n) as -> by congruence.
      pose proof (co_children_nodup t Hco i n Hn) as Hnd. rewrite (length_remove_id e _ Hin Hnd), (count_remove_id _ e _ Hin Hnd), Htd.
      rewrite He1, Hl1, <- !Z.add_opp_r, !u32_sub. split; [done|]. pose proof (no_self_link t e ed i Hco (fs_tree _ (ti_fs _ _ Hinv)) Hed Hpar).
      destruct (n_type cn =? TYPE_DIRECTORY); [f_equal; lia|]. destruct (Z.eqb_spec i (e_child ed)); [congruence|]. simpl. f_equal. lia.
    + rewrite (remove_id_children_other t e ed i n Hco Hed Hn Hpar). split; [done|].
      destruct (n_type cn =? TYPE_DIRECTORY) eqn:E; [done|]. destruct (Z.eqb_spec i (e_child ed)) as [->|]; [|done].
      exfalso. zbool. congruence.
  - destruct (n_type cn =? TYPE_DIRECTORY) eqn:E.
    + rewrite bool_decide_false.
      2: { intros Hpar. destruct (co_parent t Hco e ed i Hed Hpar) as (n0 & Hn0 & Hd0 & _). zbool. congruence. }
      rewrite (remove_id_parents_other t e ed i n Hco Hed Hn); [done|]. intros ->. congruence.
    + destruct (Z.eqb_spec i (e_child ed)) as [->|Hne].
      * assert (n = cn) as -> by congruence. destruct (co_child t Hco e ed Hed) as (n0 & Hn0 & Hin). assert (n0 = cn) as -> by congruence.
        rewrite (count_remove_id _ e _ Hin (co_parents_nodup t Hco _ _ Hn)), Hhd, Hcnt. simpl.
        case_bool_decide; [by rewrite <- Z.add_opp_r, u16_sub|]. f_equal. lia.
      * rewrite (remove_id_parents_other t e ed i n Hco Hed Hn) by done. done.
Qed.

Lemma bucket_insert b b' l m : bucket b (<[b' := l]> m) = if decide (b = b') then l else bucket b m.
Proof. unfold bucket. case_decide; [subst; by rewrite lookup_insert_eq|by rewrite lookup_insert_ne]. Qed.

(** Only the bucket of the child can hold the edge. *)
Lemma removal_bucket b :
  bucket b (t_trash t') = remove_id e (bucket b (t_trash t)) ∧
  bucket b (t_sustained t') = remove_id e (bucket b (t_sustained t)).
Proof.
  destruct (ti_detached _ _ Hinv) as [_ D2 D3 _ _]. rewrite Hform. unfold drop_edge. simpl.
  destruct (e_parent ed) as [p|] eqn:Hp; [|rewrite !bucket_insert]; split; repeat case_decide; subst; try done;
    symmetry; apply remove_id_notin; intros Hin.
  - destruct (D2 b e Hin) as (ed' & n & ? & ? & _). congruence.
  - destruct (D3 b e Hin) as (ed' & n & ? & ? & _). congruence.
  - destruct (D2 b e Hin) as (ed' & n & ? & ? & ? & ? & ?). congruence.
  - destruct (D3 b e Hin) as (ed' & n & ? & ? & ? & ? & ?). congruence.
Qed.

Lemma removal_detached : detached_ok (e_child ed :: X) t'.
Proof.
  pose proof removal_co as Hco. destruct (ti_detached _ _ Hinv) as [D1 D2 D3 D4 D5]. split.
  - intros e' ed' (Hne & He')%removal_edge Hp. destruct (D1 e' ed' He' Hp) as (n & Hn & Hor).
    destruct (removal_fwd _ _ Hn) as (n' & Hn' & Ht & _). exists n'. rewrite Ht. split; [done|].
    destruct (removal_bucket (e_child ed' `mod` TRASH_BUCKETS)) as [-> _].
    destruct (removal_bucket (e_child ed' `mod` SUSTAINED_BUCKETS)) as [_ ->]. rewrite !elem_of_remove_id. naive_solver.
  - intros b e' Hin. destruct (removal_bucket b) as [Hb _]. rewrite Hb, elem_of_remove_id in Hin. destruct Hin as [Hne Hin].
    destruct (D2 b e' Hin) as (ed' & n & He' & Hp & Hn & Ht & Hm). destruct (removal_fwd _ _ Hn) as (n' & Hn' & Ht' & _).
    exists ed', n'. rewrite removal_edge, Ht'. done.
  - intros b e' Hin. destruct (removal_bucket b) as [_ Hb]. rewrite Hb, elem_of_remove_id in Hin. destruct Hin as [Hne Hin].
    destruct (D3 b e' Hin) as (ed' & n & He' & Hp & Hn & Ht & Hm). destruct (removal_fwd _ _ Hn) as (n' & Hn' & Ht' & _).
    exists ed', n'. rewrite removal_edge, Ht'. done.
  - intros b. destruct (removal_bucket b) as [-> ->]. destruct (D4 b). split; by apply NoDup_remove_id.
  - intros i n' Hn' Ht [Hic Hix]%not_elem_of_cons. destruct (removal_bwd _ _ Hn') as (n & Hn & Ht' & Hp & _).
    rewrite Ht' in Ht. destruct (D5 i n Hn Ht Hix) as (e' & ed' & Hpar & He' & Hpn). exists e', ed'.
    rewrite Hp, (remove_id_parents_other t e ed i n Hco Hed Hn Hic), removal_edge. split_and!; try done.
    intros ->. destruct (co_parents t Hco i n e Hn) as (ed0 & ? & ?); [rewrite Hpar; by left|]. congruence.
Qed.

Lemma removal_linked : linked_ok (e_child ed :: X) t'.
Proof.
  intros i n' Hn' Hr [Hic Hix]%not_elem_of_cons. destruct (removal_bwd _ _ Hn') as (n & Hn & _ & Hp & _).
  rewrite Hp, (remove_id_parents_other t e ed i n removal_co Hed Hn Hic). by apply (ti_linked _ _ Hinv i n).
Qed.

Lemma removal_edgeids : edgeids_ok t'.
Proof.
  pose proof (ti_edgeids _ _ Hinv) as Hids. intros h id e' Hh.
  assert (t_edgeids t !! h = Some (id, Some e') ∧ e' ≠ e) as [Hold Hne].
  { rewrite Hform in Hh. unfold drop_edge in Hh. simpl in Hh. destruct (e_parent ed) as [p|] eqn:Hp.
    - unfold fsnodes_edgeid_remove in Hh. destruct (t_edgeids t !! (e_edgeid ed `mod` EDGEID_HASHSIZE)) as [[id0 ptr]|] eqn:Hslot.
      + destruct (Z.eqb_spec id0 (e_edgeid ed)) as [->|Hid].
        * simpl in Hh. apply lookup_insert_Some in Hh as [[_ ?]|[Hk Hh]]; [done|]. split; [done|]. intros ->.
          destruct (Hids _ _ _ Hh) as (Hm & ed0 & p0 & ? & ? & ?). congruence.
        * split; [done|]. intros ->. destruct (Hids _ _ _ Hh) as (Hm & ed0 & p0 & ? & ? & ?). simplify_eq.
      + split; [done|]. intros ->. destruct (Hids _ _ _ Hh) as (Hm & ed0 & p0 & ? & ? & ?). simplify_eq.
    - split; [done|]. intros ->. destruct (Hids _ _ _ Hh) as (Hm & ed0 & p0 & ? & ? & ?). congruence. }
  destruct (Hids h id e' Hold) as (Hm & ed' & p' & He' & Hid & Hp'). split; [done|]. exists ed', p'. by rewrite removal_edge.
Qed.

Lemma removal_struct : struct_inv (e_child ed :: X) t'.
Proof.
  split; [apply removal_coherent|apply removal_fs|apply removal_counts|apply removal_detached|apply removal_linked| | |apply removal_edgeids].
  - assert (t_ids t' = t_ids t) as -> by (by rewrite Hform). eapply pool_inv_ext; [|apply (ti_pool _ _ Hinv)].
    intros i. symmetry. by eapply nodes_rel_dom.
  - assert (t_vars t' = t_vars t) as -> by (by rewrite Hform). eapply counters_same; [|apply (ti_counters _ _ Hinv)].
    eapply nodes_rel_impl; [|exact Hrel]. intros i n n' [Hf _ _ _ _]. by apply frozen_weight.
Qed.

(** The sum over the children of the parent loses what the child has. *)
Lemma removal_stats t1 m :
  stats_only (with_edgeids m t) t1 →
  gapped (λ i, if decide (e_parent ed = Some i) then st_of t (e_child ed) else sr_zero) t1 →
  st_of t1 (e_child ed) = st_of t (e_child ed) →
  nodes_rel (removed_node e ed (n_type cn =? TYPE_DIRECTORY)) t1 t' → stats_ok t'.
Proof.
  intros Hso Hgap Hstc Hrel1 i n' st Hn' Ht Hs.
  assert (t_edges t1 = t_edges t) as He1 by (destruct (stats_only_shape _ _ Hso) as (_ & -> & _); done).
  assert (coherent t1) as Hco1 by (apply (stats_only_coherent _ _ Hso), (coherent_shape t); [done|apply removal_co]).
  destruct (nodes_rel_r _ _ _ _ _ Hrel1 Hn') as (n & Hn & [Hc _ Hch _ _]).
  destruct (core_stats _ _ Hc) as [_ Hd]. apply core_inv in Hc as (Hty & _).
  assert (∀ e', e' ≠ e → edge_stats t' e' = edge_stats t1 e') as Hes.
  { intros e' Hne. unfold edge_stats. rewrite removal_edges, lookup_delete_ne, He1 by done. destruct (t_edges t !! e') as [ed'|]; [|done].
    apply st_of_same. eapply nodes_rel_impl; [|exact Hrel1]. intros j x x' [Hx _ _ _ _]. by apply core_stats. }
  rewrite Hch, (dir_sum_ext t1 t') by (intros e' [Hne _]%elem_of_remove_id; by apply Hes).
  specialize (Hgap i n st Hn). rewrite <- Hty, <- Hd in Hgap. specialize (Hgap Ht Hs).
  case_decide as Hp.
  - assert (t_edges t1 !! e = Some ed) as Hed1 by (by rewrite He1).
    destruct (co_parent t1 Hco1 e ed i Hed1 Hp) as (n0 & Hn0 & _ & Hin). assert (n0 = n) as -> by congruence.
    rewrite (dir_sum_remove t1 e _ Hin (co_children_nodup t1 Hco1 i n Hn)) in Hgap.
    assert (edge_stats t1 e = st_of t (e_child ed)) as Hes1 by (unfold edge_stats; by rewrite Hed1). rewrite Hes1 in Hgap.
    rewrite sr_plus_zero_r. apply sr_move in Hgap. rewrite Hgap. apply sr_of_eq.
    generalize (dir_sum t1 (remove_id e (children n))), (st_of t (e_child ed)). intros. sr_ring.
  - rewrite (remove_id_children_other t1 e ed i n Hco1); [done|by rewrite He1|done|done].
Qed.

End removal.

(** *** The removal as a whole *)

Section with_classes.
Variable sclasstab : Z → storageclass.
Variable MaxECRedundancyLevel : Z.

Lemma remove_edge_inv X ts e ed t :
  tree_inv X t → t_edges t !! e = Some ed →
  ∃ t' cn cs, t_nodes t !! e_child ed = Some cn ∧
    fsnodes_remove_edge sclasstab MaxECRedundancyLevel ts e t = Some t' ∧
    tree_inv (e_child ed :: X) t' ∧
    nodes_rel (removed_from e ed (n_type cn =? TYPE_DIRECTORY)) t t' ∧
    t' = drop_edge e ed (t_nodes t') cs t.
Proof.
  intros Hinv Hed.
  destruct (remove_edge_effect sclasstab MaxECRedundancyLevel X ts e ed t Hinv Hed)
    as (m & t1 & t' & cn & cs & Hcn & Hrm & Hso & Hgap & Hstc & Hrel1 & Hform).
  pose proof (removed_from_ok _ _ _ _ _ _ _ Hso Hrel1) as Hrel. exists t', cn, cs. split_and!; try done. split.
  - eapply removal_struct; try done. apply Hinv.
  - eapply removal_stats; try done. apply Hinv.
Qed.

End with_classes.

(** A node that has the links of its kind again needs no exception. *)
Lemma tree_inv_shrink c X t :
  tree_inv (c :: X) t →
  (∀ n, t_nodes t !! c = Some n → n_parents n ≠ [] ∧
     (n_type n = TYPE_TRASH ∨ n_type n = TYPE_SUSTAINED →
      ∃ e ed, n_parents n = [e] ∧ t_edges t !! e = Some ed ∧ e_parent ed = None)) → tree_inv X t.
Proof.
  intros [[H1 H2 H3 [D1 D2 D3 D4 D5] H5 H6 H7 H8] Hst] Hc. split; [split; try done|done].
  - split; try done. intros i n Hn Ht Hx. destruct (decide (i = c)) as [->|Hne]; [by apply Hc|].
    apply (D5 i n Hn Ht). by apply not_elem_of_cons.
  - intros i n Hn Hr Hx. destruct (decide (i = c)) as [->|Hne]; [by apply Hc|]. apply (H5 i n Hn Hr). by apply not_elem_of_cons.
Qed.

Lemma tree_inv_gone c X t : tree_inv (c :: X) t → t_nodes t !! c = None → tree_inv X t.
Proof. intros Hinv Hc. eapply tree_inv_shrink; [done|]. congruence. Qed.

Lemma tree_inv_grow c X t : tree_inv X t → tree_inv (c :: X) t.
Proof.
  intros [[H1 H2 H3 [D1 D2 D3 D4 D5] H5 H6 H7 H8] Hst]. split; [split; try done|done].
  - split; try done. intros i n Hn Ht [_ Hx]%not_elem_of_cons. eauto.
  - intros i n Hn Hr [_ Hx]%not_elem_of_cons. eauto.
Qed.
