(* ===== verification/FsTreeLink.v ===== *)
(** * Insertion of an edge

    A new edge, to a directory under a name or to the trash, keeps the invariant;
    [fsnodes_link] and [detach] are the two functions that make one. *)

From S2P Require Import Prelude MfsComm FreeInodes StorageClass DataPack FsNodes PosixAcl FsAccess AclFacts FsTree FsStats FsTreeInv FsTreeEdges.

(** What the structure looks at besides edges and counts. *)
Definition kind (n : node) : Z * Z * option Z * Z * bool * bool * tag :=
  (weight n, n_mode n, n_aclpermflag n, n_acldefflag n, data_tag (n_data n)).

Lemma kind_inv n n' : kind n' = kind n →
  n_type n' = n_type n ∧ weight n' = weight n ∧ n_mode n' = n_mode n ∧ n_aclpermflag n' = n_aclpermflag n ∧
  n_acldefflag n' = n_acldefflag n ∧ data_tag (n_data n') = data_tag (n_data n).
Proof. unfold kind, weight. intros [= -> -> -> -> -> -> ->]. done. Qed.

Lemma core_kind n n' : core n' = core n → kind n' = kind n.
Proof.
  intros Hc. pose proof (core_file_length _ _ Hc) as Hl. pose proof (core_tag _ _ Hc) as Ht.
  apply core_inv in Hc as (H1 & H2 & _ & H3 & H4 & H5 & _). unfold kind, weight. by rewrite H1, H2, H3, H4, H5, Hl, Ht.
Qed.

Lemma kind_shape n n' : kind n' = kind n → shape_ok n → shape_ok n'.
Proof.
  intros (Ht & _ & _ & _ & _ & Htag)%kind_inv. unfold shape_ok, is_file. rewrite Ht. by destruct (n_data n), (n_data n').
Qed.

Record inserted_node (e : positive) (ed : fsedge) (cdir : bool) (i : Z) (n n' : node) : Prop := {
  in_kind : kind n' = kind n;
  in_parents : n_parents n' = if i =? e_child ed then e :: n_parents n else n_parents n;
  in_children : children n' = if bool_decide (e_parent ed = Some i) then e :: children n else children n;
  in_elems : elems n' = if bool_decide (e_parent ed = Some i) then u32 (elems n + 1) else elems n;
  in_links : links n' =
    (if cdir then (if bool_decide (e_parent ed = Some i) then u32 (links n + 1) else links n)
     else if (i =? e_child ed) && bool_decide (is_Some (e_parent ed)) then u16 (links n + 1) else links n) }.

(** All the counters but the number of the next edge. *)
Definition counters (v : vars) :=
  (trashspace v, sustainedspace v, trashnodes v, sustainednodes v, filenodes v, dirnodes v, nodes v, v_sclass v).

Lemma counters_eq m v v' : counters v' = counters v → counters_ok m v → counters_ok m v'.
Proof.
  destruct v, v'. unfold counters. simpl. intros [= -> -> -> -> -> -> -> ->] []. by split.
Qed.

(** What the buckets get. *)
Definition inserted_buckets (e : positive) (ed : fsedge) (cn : node) (t t' : tree) : Prop :=
  let bt := e_child ed `mod` TRASH_BUCKETS in
  let bs := e_child ed `mod` SUSTAINED_BUCKETS in
  match e_parent ed with
  | Some _ => t_trash t' = t_trash t ∧ t_sustained t' = t_sustained t
  | None =>
      (n_type cn = TYPE_TRASH ∧ t_trash t' = <[bt := e :: bucket bt (t_trash t)]> (t_trash t) ∧ t_sustained t' = t_sustained t) ∨
      (n_type cn = TYPE_SUSTAINED ∧ t_trash t' = t_trash t ∧ t_sustained t' = <[bs := e :: bucket bs (t_sustained t)]> (t_sustained t))
  end.

(** Where a new edge may go. *)
Definition may_insert (ed : fsedge) (cn : node) (t : tree) : Prop :=
  match e_parent ed with
  | Some p =>
      (∃ pn, t_nodes t !! p = Some pn ∧ n_type pn = TYPE_DIRECTORY) ∧ t_names t !! (p, e_name ed) = None ∧
      p ≠ e_child ed ∧ n_type cn ≠ TYPE_TRASH ∧ n_type cn ≠ TYPE_SUSTAINED ∧
      (n_type cn = TYPE_DIRECTORY → n_parents cn = [] ∧ ¬ ancestor (view t) p (e_child ed))
  | None => n_parents cn = [] ∧ (n_type cn = TYPE_TRASH ∨ n_type cn = TYPE_SUSTAINED)
  end.

(** A relation with one more pair. *)
Lemma tc_add_pair {A} (R R' : relation A) c p x y :
  (∀ a b, R' a b → R a b ∨ (a = c ∧ b = p)) → tc R' x y → tc R x y ∨ (rtc R x c ∧ rtc R p y).
Proof.
  intros HR. induction 1 as [x y Hxy|x y z Hxy _ IH].
  - destruct (HR _ _ Hxy) as [?|[-> ->]]; [left; by apply tc_once|by right].
  - destruct (HR _ _ Hxy) as [Hr|[-> ->]].
    + destruct IH as [IH|[IH1 IH2]]; [left; by eapply tc_l|right]. split; [by eapply rtc_l|done].
    + right. split; [done|]. destruct IH as [IH|[_ IH2]]; [by apply tc_rtc|done].
Qed.

Lemma tc_last {A} (R : relation A) x y : tc R x y → ∃ z, R z y.
Proof. induction 1; eauto. Qed.

Section insertion.
Variables (X : list Z) (t t' : tree) (e : positive) (ed : fsedge) (cn : node).
Hypothesis Hinv : struct_inv X t.
Hypothesis Hnew : e = t_edgenext t.
Hypothesis Hcn : t_nodes t !! e_child ed = Some cn.
Hypothesis Hroot : e_child ed ≠ MFS_ROOT_ID.
Hypothesis Hmay : may_insert ed cn t.
Hypothesis Hrel : nodes_rel (inserted_node e ed (n_type cn =? TYPE_DIRECTORY)) t t'.
Hypothesis Hedges : t_edges t' = <[e := ed]> (t_edges t).
Hypothesis Hnext : t_edgenext t' = Pos.succ e.
Hypothesis Hnames : t_names t' = match e_parent ed with Some p => <[(p, e_name ed) := e]> (t_names t) | None => t_names t end.
Hypothesis Hbuckets : inserted_buckets e ed cn t t'.
Hypothesis Hedgeids : t_edgeids t' = t_edgeids t.
Hypothesis Hids : t_ids t' = t_ids t.
Hypothesis Hacls : t_acls t' = t_acls t.
Hypothesis Hvars : counters (t_vars t') = counters (t_vars t).

#[local] Definition insertion_co : coherent t := ti_coherent _ _ Hinv.

Lemma insertion_fresh : t_edges t !! e = None.
Proof using Hinv Hnew. destruct (t_edges t !! e) as [ed'|] eqn:H; [|done]. apply (co_fresh t insertion_co) in H. rewrite <- Hnew in H. by apply Pos.lt_irrefl in H. Qed.

Lemma insertion_edge e' ed' : t_edges t' !! e' = Some ed' ↔ (e' = e ∧ ed' = ed) ∨ (e' ≠ e ∧ t_edges t !! e' = Some ed').
Proof using Hedges. clear -Hedges. rewrite Hedges, lookup_insert_Some. naive_solver. Qed.

Lemma insertion_not_parent i n : t_nodes t !! i = Some n → e ∉ n_parents n.
Proof using Hinv Hnew. intros Hn Hin. destruct (co_parents t insertion_co i n e Hn Hin) as (ed' & He & _). by rewrite insertion_fresh in He. Qed.
Lemma insertion_not_child i n : t_nodes t !! i = Some n → e ∉ children n.
Proof using Hinv Hnew. intros Hn Hin. destruct (co_children t insertion_co i n e Hn Hin) as (ed' & He & _). by rewrite insertion_fresh in He. Qed.

Lemma insertion_edge_parent e' : e' ≠ e → edge_parent t' e' = edge_parent t e'.
Proof using Hedges. intros Hne. unfold edge_parent. by rewrite Hedges, lookup_insert_ne. Qed.
Lemma insertion_edge_parent_new : edge_parent t' e = e_parent ed.
Proof using Hedges. unfold edge_parent. by rewrite Hedges, lookup_insert_eq. Qed.

Lemma insertion_parent i n n' e' : inserted_node e ed (n_type cn =? TYPE_DIRECTORY) i n n' →
  e' ∈ n_parents n' ↔ (e' = e ∧ i = e_child ed) ∨ e' ∈ n_parents n.
Proof using.
  clear. intros [_ -> _ _ _]. destruct (Z.eqb_spec i (e_child ed)) as [->|Hne]; [rewrite elem_of_cons|]; naive_solver.
Qed.
Lemma insertion_child i n n' e' : inserted_node e ed (n_type cn =? TYPE_DIRECTORY) i n n' →
  e' ∈ children n' ↔ (e' = e ∧ e_parent ed = Some i) ∨ e' ∈ children n.
Proof using. clear. intros [_ _ -> _ _]. case_bool_decide; [rewrite elem_of_cons|]; naive_solver. Qed.

Lemma insertion_coherent : coherent t'.
Proof.
  pose proof insertion_co as [H1 H2 H3 H4 H5 H6 H7 H8 H9 H10]. split.
  - intros e' ed' [[-> ->]|[Hne He']]%insertion_edge.
    + destruct (nodes_rel_l _ _ _ _ _ Hrel Hcn) as (n' & Hn' & Hi). exists n'. split; [done|]. apply (insertion_parent _ _ _ _ Hi). tauto.
    + destruct (H1 e' ed' He') as (n & Hn & Hin). destruct (nodes_rel_l _ _ _ _ _ Hrel Hn) as (n' & Hn' & Hi). exists n'.
      split; [done|]. apply (insertion_parent _ _ _ _ Hi). tauto.
  - intros i n' e' Hn' Hin. destruct (nodes_rel_r _ _ _ _ _ Hrel Hn') as (n & Hn & Hi).
    destruct (proj1 (insertion_parent _ _ _ _ Hi) Hin) as [[Ea Eb]|Hin']; [exists ed; rewrite Ea, Eb, insertion_edge; tauto|].
    destruct (H2 i n e' Hn Hin') as (ed' & He' & Hc). exists ed'. split; [|done]. apply insertion_edge. right. split; [|done].
    intros ->. by apply (insertion_not_parent i n).
  - intros i n' Hn'. destruct (nodes_rel_r _ _ _ _ _ Hrel Hn') as (n & Hn & [_ -> _ _ _]). pose proof (H3 i n Hn).
    case_if; [|done]. constructor; [by eapply insertion_not_parent|done].
  - intros e' ed' p [[-> ->]|[Hne He']]%insertion_edge Hp.
    + unfold may_insert in Hmay. rewrite Hp in Hmay. destruct Hmay as ((pn & Hpn & Ht) & _).
      destruct (nodes_rel_l _ _ _ _ _ Hrel Hpn) as (n' & Hn' & Hi). exists n'. split; [done|]. split.
      * destruct Hi as [Hk _ _ _ _]. apply kind_inv in Hk as (-> & _). done.
      * apply (insertion_child _ _ _ _ Hi). tauto.
    + destruct (H4 e' ed' p He' Hp) as (n & Hn & Ht & Hin). destruct (nodes_rel_l _ _ _ _ _ Hrel Hn) as (n' & Hn' & Hi).
      exists n'. split; [done|]. split; [|apply (insertion_child _ _ _ _ Hi); tauto].
      destruct Hi as [Hk _ _ _ _]. apply kind_inv in Hk as (-> & _). done.
  - intros i n' e' Hn' Hin. destruct (nodes_rel_r _ _ _ _ _ Hrel Hn') as (n & Hn & Hi).
    destruct (proj1 (insertion_child _ _ _ _ Hi) Hin) as [[Ea Eb]|Hin']; [exists ed; rewrite Ea, insertion_edge; tauto|].
    destruct (H5 i n e' Hn Hin') as (ed' & He' & Hc). exists ed'. split; [|done]. apply insertion_edge. right. split; [|done].
    intros ->. by apply (insertion_not_child i n).
  - intros i n' Hn'. destruct (nodes_rel_r _ _ _ _ _ Hrel Hn') as (n & Hn & [_ _ -> _ _]). pose proof (H6 i n Hn).
    case_bool_decide; [|done]. constructor; [by eapply insertion_not_child|done].
  - intros i n' Hn'. destruct (nodes_rel_r _ _ _ _ _ Hrel Hn') as (n & Hn & [Hk _ _ _ _]). eapply kind_shape; [done|]. by eapply H7.
  - intros e' ed' [[-> ->]|[Hne He']]%insertion_edge; rewrite Hnext; [lia|]. specialize (H8 _ _ He'). lia.
  - intros p name e'. rewrite Hnames. unfold may_insert in Hmay. destruct (e_parent ed) as [q|] eqn:Hq.
    + destruct Hmay as (_ & Hfree & _). rewrite lookup_insert_Some, H9. split.
      * intros [[[= <- <-] <-]|[Hne (ed' & He' & Hp & Hnm)]]; [exists ed; split; [apply insertion_edge; tauto|done]|].
        exists ed'. split; [|done]. apply insertion_edge. right. split; [|done]. intros ->. by rewrite insertion_fresh in He'.
      * intros (ed' & [[-> ->]|[Hne He']]%insertion_edge & Hp & Hnm); [left; split; congruence|]. right. split; [|eauto].
        intros [= Eq Enm]. rewrite Eq, Enm in Hfree. assert (t_names t !! (p, name) = Some e') as Hx by (apply H9; eauto). congruence.
    + rewrite H9. split; intros (ed' & He' & Hp & Hnm); exists ed'; (split; [|done]).
      * apply insertion_edge. right. split; [|done]. intros ->. by rewrite insertion_fresh in He'.
      * apply insertion_edge in He' as [[-> ->]|[_ ?]]; [congruence|done].
  - destruct H10 as (r & Hr & Ht & Hp). destruct (nodes_rel_l _ _ _ _ _ Hrel Hr) as (r' & Hr' & [Hk Hpar _ _ _]).
    apply kind_inv in Hk as (Ht' & _). exists r'. rewrite Ht', Hpar. destruct (Z.eqb_spec MFS_ROOT_ID (e_child ed)); [congruence|]. done.
Qed.

Lemma insertion_parent_of i q : parent_of (view t') i q → parent_of (view t) i q ∨ (i = e_child ed ∧ e_parent ed = Some q).
Proof.
  intros (n' & e' & Hn' & Hin & Hq)%parent_of_view. destruct (nodes_rel_r _ _ _ _ _ Hrel Hn') as (n & Hn & Hi).
  destruct (proj1 (insertion_parent _ _ _ _ Hi) Hin) as [[Ea Eb]|Hin'].
  - right. rewrite Ea, insertion_edge_parent_new in Hq. done.
  - left. apply parent_of_view. exists n, e'. rewrite <- insertion_edge_parent; [done|]. intros ->. by apply (insertion_not_parent i n).
Qed.

Lemma insertion_tree : tree_ok (view t').
Proof.
  pose proof (fs_tree _ (ti_fs _ _ Hinv)) as [Hd Ho Ha]. simpl in *. unfold may_insert in Hmay. split.
  - intros i q Hq. enough (∃ n, t_nodes t !! q = Some n ∧ n_type n = TYPE_DIRECTORY) as (n & Hn & Ht).
    { destruct (nodes_rel_l _ _ _ _ _ Hrel Hn) as (n' & Hn' & [Hk _ _ _ _]). apply kind_inv in Hk as (Ht' & _).
      exists (node_view t' n'). split; [by apply view_lookup|]. simpl. congruence. }
    destruct (insertion_parent_of _ _ Hq) as [Hq'|[-> Hp]]; [|rewrite Hp in Hmay; by destruct Hmay as (? & _)].
    destruct (Hd i q Hq') as (v & Hv & Ht). unfold view in Hv. rewrite lookup_fmap in Hv.
    destruct (t_nodes t !! q) as [n|]; [|done]. injection Hv as <-. by exists n.
  - intros i v Hv Ht. unfold view in Hv. rewrite lookup_fmap in Hv. destruct (t_nodes t' !! i) as [n'|] eqn:Hn'; [|done].
    injection Hv as <-. simpl in *. rewrite length_fmap. destruct (nodes_rel_r _ _ _ _ _ Hrel Hn') as (n & Hn & [Hk -> _ _ _]).
    apply kind_inv in Hk as (Ht' & _). specialize (Ho i (node_view t n) (view_lookup _ _ _ Hn)). simpl in Ho.
    rewrite length_fmap in Ho. destruct (Z.eqb_spec i (e_child ed)) as [->|]; [|apply Ho; congruence].
    assert (n = cn) as -> by congruence. assert (n_parents cn = []) as ->; [|done].
    destruct (e_parent ed); [|tauto]. apply Hmay. congruence.
  - intros i Hi. unfold ancestor in *. destruct (e_parent ed) as [p|] eqn:Hp.
    + destruct Hmay as (_ & _ & Hne & _ & _ & Hdir).
      destruct (tc_add_pair (parent_of (view t)) (parent_of (view t')) (e_child ed) p i i) as [Hc|[Hc1 Hc2]]; [|done|by apply (Ha i)|].
      { intros a b [?|[-> ?]]%insertion_parent_of; [by left|right]. split; [done|]. congruence. }
      assert (rtc (parent_of (view t)) p (e_child ed)) as Hpc by (by etransitivity).
      assert (tc (parent_of (view t)) p (e_child ed)) as Htc by (apply rtc_tc in Hpc as [?|?]; done).
      destruct (tc_last _ _ _ Htc) as (z & Hz). destruct (Hd z _ Hz) as (v & Hv & Ht). rewrite (view_lookup t _ cn Hcn) in Hv.
      injection Hv as <-. by destruct (Hdir Ht).
    + apply (Ha i). revert Hi. generalize i at 2 4. intros j Hj.
      induction Hj as [x y Hxy|x y z Hxy _ IH].
      * apply tc_once. destruct (insertion_parent_of _ _ Hxy) as [?|[_ ?]]; [done|congruence].
      * eapply tc_l; [|exact IH]. destruct (insertion_parent_of _ _ Hxy) as [?|[_ ?]]; [done|congruence].
Qed.

Lemma insertion_fs : fs_inv (tree_fs t').
Proof.
  apply (lists_same t); [|done|apply insertion_tree|apply (ti_fs _ _ Hinv)].
  eapply nodes_rel_impl; [|exact Hrel]. intros i n n' [Hk _ _ _ _]. by apply kind_inv in Hk as (_ & _ & ? & ? & ? & _).
Qed.

Lemma insertion_types : nodes_rel (λ _ n n', n_type n' = n_type n) t t'.
Proof. eapply nodes_rel_impl; [|exact Hrel]. intros i n n' [Hk _ _ _ _]. by apply kind_inv in Hk as (? & _). Qed.

Lemma insertion_to_dir e' : e' ≠ e → to_dir t' e' = to_dir t e'.
Proof.
  intros Hne. unfold to_dir. rewrite Hedges, lookup_insert_ne by done. destruct (t_edges t !! e') as [ed'|]; [|done].
  by destruct (insertion_types (e_child ed')) as [m m' ->|].
Qed.
Lemma insertion_to_dir_new : to_dir t' e = (n_type cn =? TYPE_DIRECTORY).
Proof.
  unfold to_dir. rewrite Hedges, lookup_insert_eq. destruct (nodes_rel_l _ _ _ _ _ insertion_types Hcn) as (n' & -> & ->). done.
Qed.

Lemma count_cons {A} (f : A → bool) x l : count f (x :: l) = (if f x then 1 else 0) + count f l.
Proof.
  unfold count. rewrite filter_cons. destruct (f x); [rewrite decide_True by done|rewrite decide_False by done]; simpl; lia.
Qed.

Lemma insertion_counts : counts_ok t'.
Proof.
  pose proof insertion_co as Hco.
  intros i n' Hn'. destruct (nodes_rel_r _ _ _ _ _ Hrel Hn') as (n & Hn & [Hk Hp Hc Hel Hl]).
  apply kind_inv in Hk as (Ht & _). pose proof (ti_counts _ _ Hinv i n Hn) as Hcnt. rewrite Ht, Hel, Hl, Hp, Hc.
  assert (count (to_dir t') (children n) = count (to_dir t) (children n)) as Hcd.
  { apply count_ext. intros e' Hin. apply insertion_to_dir. intros ->. by apply (insertion_not_child i n). }
  assert (count (has_dir t') (n_parents n) = count (has_dir t) (n_parents n)) as Hcp.
  { apply count_ext. intros e' Hin. unfold has_dir. rewrite insertion_edge_parent; [done|]. intros ->. by apply (insertion_not_parent i n). }
  assert (has_dir t' e = bool_decide (is_Some (e_parent ed))) as Hhd.
  { unfold has_dir. rewrite insertion_edge_parent_new. by destruct (e_parent ed). }
  destruct (n_type n =? TYPE_DIRECTORY) eqn:Hdir.
  - destruct Hcnt as [He1 Hl1]. destruct (bool_decide (e_parent ed = Some i)) eqn:Hpar.
    + rewrite count_cons, insertion_to_dir_new, Hcd, He1. simpl. split; [rewrite u32_sub; f_equal; lia|].
      destruct (n_type cn =? TYPE_DIRECTORY); rewrite Hl1; [rewrite u32_sub; f_equal; lia|].
      assert (i ≠ e_child ed) as Hne; [|destruct (Z.eqb_spec i (e_child ed)); [done|]; simpl; f_equal; lia].
      zbool. unfold may_insert in Hmay. rewrite Hpar in Hmay. tauto.
    + rewrite Hcd. split; [done|]. destruct (n_type cn =? TYPE_DIRECTORY) eqn:E; [done|].
      destruct (Z.eqb_spec i (e_child ed)) as [->|]; [|done]. exfalso. congruence.
  - destruct (n_type cn =? TYPE_DIRECTORY) eqn:E.
    + rewrite bool_decide_false.
      2: { intros Hpar. unfold may_insert in Hmay. rewrite Hpar in Hmay. destruct Hmay as ((pn & Hpn & Htp) & _). zbool. congruence. }
      destruct (Z.eqb_spec i (e_child ed)) as [->|]; [congruence|]. by rewrite Hcp.
    + destruct (Z.eqb_spec i (e_child ed)) as [->|Hne]; [|by rewrite Hcp].
      rewrite count_cons, Hhd, Hcp, Hcnt. simpl. case_bool_decide; [rewrite u16_sub; f_equal; lia|done].
Qed.

Lemma insertion_detached : detached_ok X t'.
Proof.
  destruct (ti_detached _ _ Hinv) as [D1 D2 D3 D4 D5].
  assert (∀ i n, t_nodes t !! i = Some n → ∃ n', t_nodes t' !! i = Some n' ∧ n_type n' = n_type n) as Hfwd.
  { intros i n Hn. by apply (nodes_rel_l _ _ _ _ _ insertion_types). }
  assert (∀ b e', e' ∈ bucket b (t_trash t') ↔ e' ∈ bucket b (t_trash t) ∨
    (e' = e ∧ e_parent ed = None ∧ n_type cn = TYPE_TRASH ∧ e_child ed `mod` TRASH_BUCKETS = b)) as Htr.
  { intros b e'. unfold inserted_buckets in Hbuckets. destruct (e_parent ed); [destruct Hbuckets as [-> _]; naive_solver|].
    destruct Hbuckets as [(Ht & -> & _)|(Ht & -> & _)]; [|rewrite Ht; naive_solver].
    rewrite bucket_insert. case_decide as Hb; [rewrite elem_of_cons, Hb|]; naive_solver. }
  assert (∀ b e', e' ∈ bucket b (t_sustained t') ↔ e' ∈ bucket b (t_sustained t) ∨
    (e' = e ∧ e_parent ed = None ∧ n_type cn = TYPE_SUSTAINED ∧ e_child ed `mod` SUSTAINED_BUCKETS = b)) as Hsu.
  { intros b e'. unfold inserted_buckets in Hbuckets. destruct (e_parent ed); [destruct Hbuckets as [_ ->]; naive_solver|].
    destruct Hbuckets as [(Ht & _ & ->)|(Ht & _ & ->)]; [rewrite Ht; naive_solver|].
    rewrite bucket_insert. case_decide as Hb; [rewrite elem_of_cons, Hb|]; naive_solver. }
  assert (∀ e' ed', t_edges t !! e' = Some ed' → t_edges t' !! e' = Some ed') as Hold.
  { intros e' ed' He'. apply insertion_edge. right. split; [|done]. intros ->. by rewrite insertion_fresh in He'. }
  assert (t_edges t' !! e = Some ed) as Hee by (rewrite Hedges; apply lookup_insert_eq).
  split.
  - intros e' ed' [[-> ->]|[Hne He']]%insertion_edge Hp.
    + destruct (Hfwd _ _ Hcn) as (n' & Hn' & Ht). exists n'. split; [done|]. rewrite Ht, Htr, Hsu.
      unfold may_insert in Hmay. rewrite Hp in Hmay. tauto.
    + destruct (D1 e' ed' He' Hp) as (n & Hn & Hor). destruct (Hfwd _ _ Hn) as (n' & Hn' & Ht). exists n'. split; [done|].
      rewrite Ht, Htr, Hsu. tauto.
  - intros b e' [Hin|(-> & Hp & Ht & Hb)]%Htr.
    + destruct (D2 b e' Hin) as (ed' & n & He' & Hp & Hn & Ht & Hb). destruct (Hfwd _ _ Hn) as (n' & Hn' & Ht'). exists ed', n'.
      rewrite Ht'. auto.
    + destruct (Hfwd _ _ Hcn) as (n' & Hn' & Ht'). exists ed, n'. rewrite Ht'. auto.
  - intros b e' [Hin|(-> & Hp & Ht & Hb)]%Hsu.
    + destruct (D3 b e' Hin) as (ed' & n & He' & Hp & Hn & Ht & Hb). destruct (Hfwd _ _ Hn) as (n' & Hn' & Ht'). exists ed', n'.
      rewrite Ht'. auto.
    + destruct (Hfwd _ _ Hcn) as (n' & Hn' & Ht'). exists ed, n'. rewrite Ht'. auto.
  - intros b. destruct (D4 b) as [N1 N2].
    assert (∀ b', e ∉ bucket b' (t_trash t)) as F1 by (intros b' Hin; destruct (D2 b' e Hin) as (? & ? & He & _); by rewrite insertion_fresh in He).
    assert (∀ b', e ∉ bucket b' (t_sustained t)) as F2 by (intros b' Hin; destruct (D3 b' e Hin) as (? & ? & He & _); by rewrite insertion_fresh in He).
    unfold inserted_buckets in Hbuckets. destruct (e_parent ed); [destruct Hbuckets as [-> ->]; done|].
    destruct Hbuckets as [(_ & -> & ->)|(_ & -> & ->)]; rewrite bucket_insert; case_decide as Hb;
      (split; try done); rewrite <- Hb; by constructor.
  - intros i n' Hn' Ht Hx. destruct (nodes_rel_r _ _ _ _ _ Hrel Hn') as (n & Hn & [Hk Hp _ _ _]).
    apply kind_inv in Hk as (Ht' & _). rewrite Ht' in Ht. destruct (Z.eqb_spec i (e_child ed)) as [Hi|Hi].
    + rewrite Hi in Hn. assert (n = cn) as -> by congruence. unfold may_insert in Hmay. exists e, ed.
      destruct (e_parent ed); [tauto|]. destruct Hmay as [Hnil _]. by rewrite Hp, Hnil.
    + destruct (D5 i n Hn Ht Hx) as (e' & ed' & Hpar & He' & Hnone). exists e', ed'. rewrite Hp. auto.
Qed.

Lemma insertion_linked : linked_ok X t'.
Proof.
  intros i n' Hn' Hr Hx. destruct (nodes_rel_r _ _ _ _ _ Hrel Hn') as (n & Hn & [_ -> _ _ _]).
  case_if; [done|]. by apply (ti_linked _ _ Hinv i n).
Qed.

Lemma insertion_struct : struct_inv X t'.
Proof.
  split; [apply insertion_coherent|apply insertion_fs|apply insertion_counts|apply insertion_detached|apply insertion_linked| | |].
  - rewrite Hids. eapply pool_inv_ext; [|apply (ti_pool _ _ Hinv)]. intros i. symmetry. by eapply nodes_rel_dom.
  - apply (counters_eq _ (t_vars t)); [done|]. eapply counters_same; [|apply (ti_counters _ _ Hinv)].
    eapply nodes_rel_impl; [|exact Hrel]. intros i n n' [Hk _ _ _ _]. by apply kind_inv in Hk as (_ & ? & _).
  - intros h id e' Hh. rewrite Hedgeids in Hh. destruct (ti_edgeids _ _ Hinv h id e' Hh) as (Hm & ed' & p & He' & Hid & Hp).
    split; [done|]. exists ed', p. split; [|done]. apply insertion_edge. right. split; [|done]. intros ->.
    by rewrite insertion_fresh in He'.
Qed.

End insertion.

(** ** [fsnodes_link] *)

Section with_classes.
Variable sclasstab : Z → storageclass.
Variable MaxECRedundancyLevel : Z.
Abbreviation fix_ratio := (fix_ratio sclasstab MaxECRedundancyLevel).

Lemma fix_ratio_parts n :
  n_type (fix_ratio n) = n_type n ∧ n_parents (fix_ratio n) = n_parents n ∧ children (fix_ratio n) = children n ∧
  links (fix_ratio n) = links n ∧ elems (fix_ratio n) = elems n ∧ kind (fix_ratio n) = kind n ∧ n_keepmode (fix_ratio n) = n_keepmode n.
Proof.
  unfold FsStats.fix_ratio, set_ratio, kind, weight, file_length, children, links, elems.
  case_if; [|done]. destruct (n_data n) eqn:Hd; simpl; rewrite ?Hd; done.
Qed.

Lemma core_fix_ratio n n' : core n' = core n → n_keepmode n' = n_keepmode n → core (fix_ratio n') = core (fix_ratio n).
Proof.
  intros Hc Hk. pose proof Hc as (Ht & _ & _ & _ & _ & Hs & Hd)%core_inv.
  unfold FsStats.fix_ratio, set_ratio, current_ratio, is_file. rewrite Ht, Hs, Hk.
  case_if; [|done]. clear -Hc. destruct n as [???????????????? d], n' as [???????????????? d']. unfold core in *. simpl in *.
  injection Hc. intros. subst. destruct d, d'; simpl in *; simplify_eq; done.
Qed.

(** The same changes with the core of the nodes. *)
Record linked_core (e : positive) (ed : fsedge) (cdir : bool) (i : Z) (n n' : node) : Prop := {
  lc_inserted : inserted_node e ed cdir i n n';
  lc_core : core n' = core (if i =? e_child ed then fix_ratio n else n) }.

(** The state of [fsnodes_link] before the statistics are added. *)
Lemma link_start p c name t pn cn :
  coherent t → p ≠ c → t_nodes t !! p = Some pn → n_type pn = TYPE_DIRECTORY → t_nodes t !! c = Some cn →
  ∃ ed t0 sr, e_child ed = c ∧ e_parent ed = Some p ∧ e_name ed = name ∧ st_of t0 c = sr ∧
    nodes_rel (linked_core (t_edgenext t) ed (n_type cn =? TYPE_DIRECTORY)) t t0 ∧
    t_edges t0 = <[t_edgenext t := ed]> (t_edges t) ∧ t_edgenext t0 = Pos.succ (t_edgenext t) ∧
    t_names t0 = <[(p, name) := t_edgenext t]> (t_names t) ∧ t_trash t0 = t_trash t ∧ t_sustained t0 = t_sustained t ∧
    t_edgeids t0 = t_edgeids t ∧ t_ids t0 = t_ids t ∧ t_acls t0 = t_acls t ∧ counters (t_vars t0) = counters (t_vars t) ∧
    ∀ ts, fsnodes_link sclasstab MaxECRedundancyLevel ts p c name t =
      (t ← fsnodes_add_stats (Some p) sr t0;
       if 0 <? ts then
         pn ← t_nodes t !! p;
         let t := put p (with_times ts ts (n_atime pn) pn) t in
         cn ← t_nodes t !! c;
         fsnodes_checkarchmode sclasstab c ts SCLASS_ARCH_MODE_CTIME (put c (with_ctime ts cn) t)
       else Some t).
Proof.
  intros Hco Hne Hp Hpt Hc. set (e := t_edgenext t).
  assert (shape_ok pn) as Hshp by (by eapply co_shape). assert (shape_ok cn) as Hshc by (by eapply co_shape).
  destruct (change_dir_some (cons e) 1 pn Hshp Hpt) as (pn1 & Hpn1 & Hpc1 & Hpp1 & Hpch1 & Hpe1 & Hpl1 & Hpt1).
  assert (shape_ok pn1) as Hshp1 by (by apply (core_shape pn)).
  set (ta := (fsedge_new c (Some p) name t).2). set (ed := mk_fsedge c (Some p) (if nextedgeid (t_vars t) <? EDGEID_MAX then nextedgeid (t_vars t) else 0) name).
  set (cn1 := with_parents (e :: n_parents cn) cn).
  destruct (count_link_spec 1 p c pn1 cn1 (fsnodes_edge_add p name e (put c cn1 (put p pn1 ta))))
    as (pn2 & cn2 & Hcl & Hpc2 & Hpp2 & Hpch2 & Hpe2 & Hpl2 & Hcc2 & Hcp2 & Hcch2 & Hce2 & Hcl2 & Hck2).
  { done. } { cbn [fsnodes_edge_add with_names t_nodes]. rewrite !lookup_put, decide_False, decide_True by done. done. }
  { cbn [fsnodes_edge_add with_names t_nodes]. by rewrite lookup_put, decide_True. } { done. } { done. } { exact Hshc. }
  set (tb := put p (clear_snapshot pn2) (put c cn2 (put p pn2 (fsnodes_edge_add p name e (put c cn1 (put p pn1 ta)))))) in *.
  assert (shape_ok cn2) as Hshc2 by (apply (core_shape cn1); [done|exact Hshc]).
  destruct (get_stats_1 sclasstab MaxECRedundancyLevel c cn2 tb Hshc2) as (sr & Hsr & Hget).
  { unfold tb. rewrite lookup_put, decide_False, lookup_put, decide_True by done. done. }
  exists ed, (put c (fix_ratio cn2) tb), sr. do 3 (split; [done|]).
  split; [by rewrite (st_of_node _ _ (fix_ratio cn2)), Hsr by (by rewrite lookup_put, decide_True)|].
  split; [|do 9 (split; [done|])].
  - assert (n_type cn1 = n_type cn) as Hct by done.
    assert (core cn2 = core cn) as Hccn by done.
    destruct (fix_ratio_parts cn2) as (F1 & F2 & F3 & F4 & F5 & F6 & _).
    assert (core (clear_snapshot pn2) = core pn) as Hcpn by (transitivity (core pn2); [done|]; congruence).
    intros i. rewrite lookup_put. case_decide as Hi; [subst i|].
    { rewrite Hc. constructor. split; [split|].
      - rewrite F6. by apply core_kind.
      - rewrite F2, Hcp2. simpl. by rewrite Z.eqb_refl.
      - rewrite F3, Hcch2. rewrite bool_decide_false by (simpl; congruence). done.
      - rewrite F5, Hce2. rewrite bool_decide_false by (simpl; congruence). done.
      - rewrite F4, Hcl2. rewrite (bool_decide_false (e_parent ed = _)) by (simpl; congruence). simpl. by rewrite Z.eqb_refl.
      - simpl. rewrite Z.eqb_refl. by apply core_fix_ratio. }
    unfold tb. rewrite lookup_put. case_decide as Hi'; [subst i|].
    { rewrite Hp. constructor. split; [split|].
      - by apply core_kind.
      - simpl. destruct (Z.eqb_spec p c); [done|]. by rewrite Hpp2, Hpp1.
      - rewrite bool_decide_true by done. transitivity (children pn2); [done|]. by rewrite Hpch2, Hpch1.
      - rewrite bool_decide_true by done. transitivity (elems pn2); [done|]. by rewrite Hpe2, Hpe1.
      - rewrite (bool_decide_true (e_parent ed = _)) by done. transitivity (links pn2); [done|]. rewrite Hpl2, Hpl1. simpl.
        destruct (Z.eqb_spec p c); [done|]. done.
      - simpl. destruct (Z.eqb_spec p c); [done|]. done. }
    rewrite !lookup_put, !decide_False by done. cbn [fsnodes_edge_add with_names t_nodes]. rewrite !lookup_put, !decide_False by done.
    change (t_nodes ta) with (t_nodes t). destruct (t_nodes t !! i) as [n|]; constructor.
    assert ((i =? e_child ed) = false) as Hic by (by apply Z.eqb_neq).
    split; [split; [done|..]|by rewrite Hic]; rewrite ?Hic; simpl.
    + done.
    + rewrite bool_decide_false by congruence. done.
    + rewrite bool_decide_false by congruence. done.
    + rewrite bool_decide_false by congruence. by destruct (_ =? _).
  - intros ts. unfold fsnodes_link. fold e. change (fsedge_new c (Some p) name t) with (e, ta). cbv iota zeta beta.
    change (t_nodes ta) with (t_nodes t). rewrite Hp. cbn [mbind option_bind]. rewrite Hpn1. cbn [mbind option_bind].
    unfold push_parent. rewrite lookup_put, decide_False by done. change (t_nodes ta) with (t_nodes t). rewrite Hc.
    cbn [mbind option_bind]. fold cn1. rewrite Hcl. cbn [mbind option_bind].
    rewrite lookup_put, decide_False, lookup_put, decide_True by done. cbn [mbind option_bind]. fold tb. rewrite Hget. done.
Qed.

(** [linked_core] but for the statistics. *)
Record linked_from (e : positive) (ed : fsedge) (cdir : bool) (i : Z) (n n' : node) : Prop := {
  lf_inserted : inserted_node e ed cdir i n n';
  lf_frozen : frozen n' = frozen (if i =? e_child ed then fix_ratio n else n) }.

(** The state after a link: [t_calls] apart. *)
Record linked (ed : fsedge) (cdir : bool) (t t' : tree) : Prop := {
  lk_nodes : nodes_rel (linked_from (t_edgenext t) ed cdir) t t';
  lk_edges : t_edges t' = <[t_edgenext t := ed]> (t_edges t);
  lk_next : t_edgenext t' = Pos.succ (t_edgenext t);
  lk_names : t_names t' = match e_parent ed with Some p => <[(p, e_name ed) := t_edgenext t]> (t_names t) | None => t_names t end;
  lk_trash : t_trash t' = t_trash t;
  lk_sustained : t_sustained t' = t_sustained t;
  lk_edgeids : t_edgeids t' = t_edgeids t;
  lk_ids : t_ids t' = t_ids t;
  lk_acls : t_acls t' = t_acls t;
  lk_vars : counters (t_vars t') = counters (t_vars t) }.

Lemma frozen_kind n n' : frozen n' = frozen n → kind n' = kind n.
Proof.
  intros H. pose proof (frozen_weight _ _ H) as Hw. apply frozen_inv in H as (_ & Hm & Hp & Hd & _ & Ht & _).
  unfold kind. by rewrite Hw, Hm, Hp, Hd, Ht.
Qed.

Lemma linked_from_static e ed cdir i n n1 n' : static n' = static n1 → linked_from e ed cdir i n n1 → linked_from e ed cdir i n n'.
Proof.
  intros (Hf & Hp & Hc & Hl & He)%static_inv [[Hk H1 H2 H3 H4] H5]. pose proof (frozen_kind _ _ Hf). split; [split|]; congruence.
Qed.

Lemma linked_struct ed cdir t t1 t' : same_struct t1 t' → linked ed cdir t t1 → linked ed cdir t t'.
Proof.
  intros [Hrel Hrest] [H1 H2 H3 H4 H5 H6 H7 H8 H9 H10]. apply rest_inv in Hrest as (R1 & R2 & R3 & R4 & R5 & R6 & R7 & R8 & R9).
  split; try congruence. intros i. specialize (H1 i). specialize (Hrel i). destruct H1; inversion Hrel; constructor.
  by eapply linked_from_static.
Qed.

(** The gap the new link makes. *)
Lemma link_gap ed t t0 cn :
  coherent t → stats_ok t → t_nodes t !! e_child ed = Some cn → t_edges t !! t_edgenext t = None →
  (n_parents cn = [] ∨ node_stats (fix_ratio cn) = node_stats cn) →
  nodes_rel (linked_core (t_edgenext t) ed (n_type cn =? TYPE_DIRECTORY)) t t0 →
  t_edges t0 = <[t_edgenext t := ed]> (t_edges t) →
  gapped (λ i, if decide (e_parent ed = Some i) then st_of t0 (e_child ed) else sr_zero) t0.
Proof.
  intros Hco Hst Hcn Hfresh Hratio Hrel He.
  intros i n' st Hn' Ht Hs. destruct (nodes_rel_r _ _ _ _ _ Hrel Hn') as (n & Hn & [[Hk _ Hch _ _] Hc]).
  assert (n_type n' = n_type n ∧ dir_stats n' = dir_stats n) as [Hty Hd].
  { apply kind_inv in Hk as (Hk & _). split; [done|]. destruct (core_stats _ _ Hc) as [_ ->]. case_if; [|done].
    assert (is_file n = false) as Hf by (apply is_file_dir; congruence). unfold FsStats.fix_ratio. by rewrite Hf. }
  assert (dir_sum t0 (children n) = dir_sum t (children n)) as Hsum.
  { apply dir_sum_ext. intros e' Hin. destruct (co_children t Hco i n e' Hn Hin) as (ed' & He' & _).
    destruct (co_child t Hco e' ed' He') as (m & Hm & Hin1). destruct (nodes_rel_l _ _ _ _ _ Hrel Hm) as (m' & Hm' & [_ Hcm]).
    unfold edge_stats. rewrite He, lookup_insert_ne, He' by congruence. unfold st_of. rewrite Hm, Hm'.
    destruct (core_stats _ _ Hcm) as [-> _]. destruct (Z.eqb_spec (e_child ed') (e_child ed)) as [Heq|]; [|done].
    rewrite Heq in Hm. assert (m = cn) as -> by congruence.
    destruct Hratio as [Hnil| ->]; [|done]. rewrite Hnil in Hin1. by apply not_elem_of_nil in Hin1. }
  rewrite Hch. rewrite Hty in Ht. rewrite Hd in Hs. specialize (Hst i n st Hn Ht Hs). rewrite sr_plus_zero_r in Hst.
  case_bool_decide; [rewrite decide_True by done|by rewrite decide_False, sr_plus_zero_r, Hsum by done].
  change (dir_sum t0 (t_edgenext t :: children n)) with (sr_plus (edge_stats t0 (t_edgenext t)) (dir_sum t0 (children n))).
  rewrite Hsum, <- Hst, sr_plus_comm. apply sr_of_eq. f_equal.
  unfold edge_stats. by rewrite He, lookup_insert_eq.
Qed.

(** A link to a node always can be made, if the name is free. *)
Lemma link_inv X ts p c name t cn :
  tree_inv X t → t_nodes t !! c = Some cn → c ≠ MFS_ROOT_ID →
  may_insert (mk_fsedge c (Some p) 0 name) cn t →
  (n_parents cn = [] ∨ node_stats (fix_ratio cn) = node_stats cn) →
  ∃ ed t', e_child ed = c ∧ e_parent ed = Some p ∧ e_name ed = name ∧
    fsnodes_link sclasstab MaxECRedundancyLevel ts p c name t = Some t' ∧ tree_inv X t' ∧
    linked ed (n_type cn =? TYPE_DIRECTORY) t t'.
Proof.
  intros [Hinv Hst] Hcn Hroot Hmay Hratio. pose proof (ti_coherent _ _ Hinv) as Hco.
  pose proof Hmay as ((pn & Hpn & Hpt) & _ & Hne & _). simpl in Hne.
  destruct (link_start p c name t pn cn Hco Hne Hpn Hpt Hcn)
    as (ed & t0 & sr & Hec & Hep & Hen & Hsr & Hrel & He & Hnx & Hnm & Htr & Hsu & Hei & Hid & Hac & Hv & Heq).
  assert (may_insert ed cn t) as Hmay' by (unfold may_insert in *; rewrite Hep, Hec, Hen; done).
  assert (nodes_rel (inserted_node (t_edgenext t) ed (n_type cn =? TYPE_DIRECTORY)) t t0) as Hins.
  { eapply nodes_rel_impl; [|exact Hrel]. by intros i n n' []. }
  assert (struct_inv X t0) as Hinv0.
  { apply (insertion_struct X t t0 (t_edgenext t) ed cn); try done; try congruence.
    - by rewrite Hnm, Hep, Hen.
    - unfold inserted_buckets. by rewrite Hep. }
  assert (linked ed (n_type cn =? TYPE_DIRECTORY) t t0) as Hlk.
  { split; try done; [|by rewrite Hnm, Hep, Hen]. eapply nodes_rel_impl; [|exact Hrel]. intros i n n' [Hi Hc]. split; [done|].
    by apply frozen_core. }
  assert (t_edges t !! t_edgenext t = None) as Hfresh by (by eapply insertion_fresh).
  destruct (climb_spec (λ _, sr_zero) (λ s, sr_add s sr) (Some p) sr [] t0) as (t1 & Hclimb & Hso & Hpend).
  { apply (ti_coherent _ _ Hinv0). } { apply (fs_tree _ (ti_fs _ _ Hinv0)). } { intros s. apply sr_add_equiv. }
  { intros q [= <-]. destruct (nodes_rel_l _ _ _ _ _ Hins Hpn) as (pn' & Hpn' & [Hk _ _ _ _]).
    apply kind_inv in Hk as (Hk & _). exists pn'. split; [done|congruence]. }
  { eapply gapped_ext; [|apply (link_gap ed t t0 cn); try done; congruence]. intros i. simpl.
    rewrite occurs_cons, occurs_nil, Hep, Hec, Hsr. apply sr_of_eq.
    destruct (decide (p = i)); [rewrite decide_True by congruence|rewrite decide_False by congruence]; sr_ring. }
  apply pending_nil in Hpend.
  assert (tree_inv X t1) as Hinv1 by (split; [by eapply struct_stats_only|done]).
  assert (same_struct t0 t1) as Hss1.
  { split; [|by apply rest_stats_only]. eapply nodes_rel_impl; [|by apply stats_only_rel]. intros. by apply erase_static. }
  pose proof (linked_struct _ _ _ _ _ Hss1 Hlk) as Hlk1.
  assert (∃ t', (if 0 <? ts then
         pn ← t_nodes t1 !! p;
         let t := put p (with_times ts ts (n_atime pn) pn) t1 in
         cn ← t_nodes t !! c;
         fsnodes_checkarchmode sclasstab c ts SCLASS_ARCH_MODE_CTIME (put c (with_ctime ts cn) t)
       else Some t1) = Some t' ∧ same_inv t1 t') as (t' & Ht' & Hsame).
  { case_if; [|exists t1; split; [done|apply same_inv_refl]].
    destruct (nodes_rel_l _ _ _ _ _ (lk_nodes _ _ _ _ Hlk1) Hpn) as (pn1 & Hpn1 & _).
    destruct (nodes_rel_l _ _ _ _ _ (lk_nodes _ _ _ _ Hlk1) Hcn) as (cn1 & Hcn1 & _).
    rewrite Hpn1. cbn [mbind option_bind]. cbv zeta. rewrite lookup_put, decide_False, Hcn1 by done. cbn [mbind option_bind].
    set (t2 := put p _ t1). assert (t_nodes t2 !! c = Some cn1) as Hcn2 by (unfold t2; by rewrite lookup_put, decide_False).
    destruct (checkarchmode_effect sclasstab c (with_ctime ts cn1) ts SCLASS_ARCH_MODE_CTIME (put c (with_ctime ts cn1) t2))
      as (cn3 & cs & Heq3 & Hs3).
    { change (shape_ok cn1). eapply co_shape; [|exact Hcn1]. apply (ti_coherent _ _ Hinv1). }
    { by rewrite lookup_put, decide_True. }
    exists (emit cs (put c cn3 t2)). rewrite Heq3, put_put. split; [done|].
    eapply same_inv_trans; [|by apply (same_inv_put t2 c cn1 cn3 cs)].
    assert (t2 = emit [] t2) as -> by (unfold emit; rewrite app_nil_r; by destruct t2). by eapply same_inv_put. }
  exists ed, t'. split_and!; try done.
  - rewrite Heq. unfold fsnodes_add_stats. rewrite Hclimb. done.
  - by eapply inv_same.
  - eapply linked_struct; [|exact Hlk1]. destruct Hsame as [Hr ?]. split; [|done]. eapply nodes_rel_impl; [|exact Hr].
    intros. by apply summary_static.
Qed.

End with_classes.
