(* ===== verification/FsTreeNodes.v ===== *)
(** * Nodes come, go and change their kind

    [fsnodes_create_node] and [fsnodes_remove_node], the change of a file into one of
    the trash or a sustained one and back, and the changes of a file's length and
    storage class keep the invariant of the tree. *)

From S2P Require Import Prelude MfsComm FreeInodes StorageClass DataPack FsNodes PosixAcl FsAccess AclFacts FsTree FsStats FsTreeInv FsTreeEdges FsTreeLink.

(** ** Counters when one node changes *)

Definition weight_of (f : node → Z) (o : option node) : Z := from_option f 0 o.

Lemma sum_nodes_alter f m i o :
  sum_nodes f (partial_alter (λ _, o) i m) = sum_nodes f m + (weight_of f o - weight_of f (m !! i)).
Proof.
  destruct o as [n'|]; [change (partial_alter _ i m) with (<[i := n']> m)|change (partial_alter _ i m) with (delete i m)];
    destruct (m !! i) as [n|] eqn:Hi; simpl.
  - rewrite (sum_nodes_insert f m i n n' Hi). lia.
  - rewrite (sum_nodes_insert_None f m i n' Hi). lia.
  - rewrite (sum_nodes_delete f m i n Hi). lia.
  - rewrite delete_id by done. lia.
Qed.

(** A counter follows its sum. *)
Definition follows (w x x' d : Z) : Prop := x' = (x + d) `mod` 2 ^ w ∨ (x' = x ∧ d = 0).

Lemma follows_ok w x x' s d : follows w x x' d → x = s `mod` 2 ^ w → x' = (s + d) `mod` 2 ^ w.
Proof. intros [-> | [-> ->]] ->; [by rewrite Zplus_mod_idemp_l|by rewrite Z.add_0_r]. Qed.

Record counters_follow (o o' : option node) (v v' : vars) : Prop := {
  cf_trashspace : follows 64 (trashspace v) (trashspace v')
    (weight_of (space_of_type TYPE_TRASH) o' - weight_of (space_of_type TYPE_TRASH) o);
  cf_sustainedspace : follows 64 (sustainedspace v) (sustainedspace v')
    (weight_of (space_of_type TYPE_SUSTAINED) o' - weight_of (space_of_type TYPE_SUSTAINED) o);
  cf_trashnodes : follows 32 (trashnodes v) (trashnodes v') (weight_of (of_type TYPE_TRASH) o' - weight_of (of_type TYPE_TRASH) o);
  cf_sustainednodes : follows 32 (sustainednodes v) (sustainednodes v')
    (weight_of (of_type TYPE_SUSTAINED) o' - weight_of (of_type TYPE_SUSTAINED) o);
  cf_filenodes : follows 32 (filenodes v) (filenodes v') (weight_of weight_files o' - weight_of weight_files o);
  cf_dirnodes : follows 32 (dirnodes v) (dirnodes v') (weight_of (of_type TYPE_DIRECTORY) o' - weight_of (of_type TYPE_DIRECTORY) o);
  cf_nodes : follows 32 (nodes v) (nodes v') (weight_of (λ _, 1) o' - weight_of (λ _, 1) o);
  cf_class sc :
    follows 32 (default (0, 0) (v_sclass v !! sc)).1 (default (0, 0) (v_sclass v' !! sc)).1
      (weight_of (weight_class_files sc) o' - weight_of (weight_class_files sc) o) ∧
    follows 32 (default (0, 0) (v_sclass v !! sc)).2 (default (0, 0) (v_sclass v' !! sc)).2
      (weight_of (weight_class_dirs sc) o' - weight_of (weight_class_dirs sc) o) }.

Lemma counters_update m v v' i o :
  counters_ok m v → counters_follow (m !! i) o v v' → counters_ok (partial_alter (λ _, o) i m) v'.
Proof.
  intros [H1 H2 H3 H4 H5 H6 H7 H8] [F1 F2 F3 F4 F5 F6 F7 F8]. unfold u32, u64 in *.
  split; try (rewrite sum_nodes_alter; by eapply follows_ok).
  intros sc. destruct (F8 sc) as [Ff Fd]. rewrite H8 in Ff, Fd. simpl in Ff, Fd.
  rewrite (surjective_pairing (default _ (v_sclass v' !! sc))), !sum_nodes_alter. f_equal; by eapply follows_ok.
Qed.

(** ** A new node *)

(** What a node without links looks like. *)
Record blank (n : node) : Prop := {
  bl_shape : shape_ok n;
  bl_mode : 0 ≤ n_mode n ≤ 0xFFF;
  bl_flags : n_aclpermflag n = false ∧ n_acldefflag n = false;
  bl_parents : n_parents n = [];
  bl_children : children n = [];
  bl_elems : elems n = 0;
  bl_links : links n = if n_type n =? TYPE_DIRECTORY then 2 else 0;
  bl_stats : ∀ st, dir_stats n = Some st → st = sr_zero;
  bl_type : n_type n ≠ TYPE_TRASH ∧ n_type n ≠ TYPE_SUSTAINED }.

Lemma put_lookup_ne i j n t : i ≠ j → t_nodes (put i n t) !! j = t_nodes t !! j.
Proof. intros. rewrite lookup_put. by rewrite decide_False. Qed.

Section new_node.
Variables (X : list Z) (t : tree) (i : Z) (n : node) (v : vars) (ids : idpool).
Hypothesis Hinv : tree_inv X t.
Hypothesis Hfree : t_nodes t !! i = None.
Hypothesis Hblank : blank n.
Hypothesis Hpool : pool_inv (λ j, j = i ∨ is_Some (t_nodes t !! j)) ids.
Hypothesis Hvars : counters_follow None (Some n) (t_vars t) v.

Definition with_new : tree := put i n (with_ids ids (with_vars v t)).
#[local] Definition new_co : coherent t := ti_coherent _ _ (ti_struct _ _ Hinv).

Lemma new_lookup j : t_nodes with_new !! j = if decide (i = j) then Some n else t_nodes t !! j.
Proof. unfold with_new. rewrite lookup_put. done. Qed.

Lemma new_old j m : t_nodes t !! j = Some m → t_nodes with_new !! j = Some m.
Proof. intros Hm. rewrite new_lookup. case_decide; [congruence|done]. Qed.

Lemma new_cases j m : t_nodes with_new !! j = Some m → (j = i ∧ m = n) ∨ (j ≠ i ∧ t_nodes t !! j = Some m).
Proof. rewrite new_lookup. case_decide; [intros [= <-]; left; done|right; done]. Qed.

Lemma new_not_child e ed : t_edges t !! e = Some ed → e_child ed ≠ i.
Proof. intros He Hc. destruct (co_child t new_co e ed He) as (m & Hm & _). congruence. Qed.

Lemma new_coherent : coherent with_new.
Proof.
  pose proof new_co as [H1 H2 H3 H4 H5 H6 H7 H8 H9 H10]. split.
  - intros e ed He. destruct (H1 e ed He) as (m & Hm & Hin). exists m. split; [by apply new_old|done].
  - intros j m e [[-> ->]|[_ Hm]]%new_cases Hin; [|by eapply H2]. rewrite (bl_parents _ Hblank) in Hin. by apply not_elem_of_nil in Hin.
  - intros j m [[-> ->]|[_ Hm]]%new_cases; [|by eapply H3]. rewrite (bl_parents _ Hblank). constructor.
  - intros e ed p He Hp. destruct (H4 e ed p He Hp) as (m & Hm & ? & ?). exists m. split; [by apply new_old|done].
  - intros j m e [[-> ->]|[_ Hm]]%new_cases Hin; [|by eapply H5]. rewrite (bl_children _ Hblank) in Hin. by apply not_elem_of_nil in Hin.
  - intros j m [[-> ->]|[_ Hm]]%new_cases; [|by eapply H6]. rewrite (bl_children _ Hblank). constructor.
  - intros j m [[-> ->]|[_ Hm]]%new_cases; [apply Hblank|by eapply H7].
  - done.
  - done.
  - destruct H10 as (r & Hr & ? & ?). exists r. split; [by apply new_old|done].
Qed.

Lemma new_parent_of j q : parent_of (view with_new) j q → parent_of (view t) j q.
Proof.
  intros (m & e & [[-> ->]|[_ Hm]]%new_cases & Hin & Hq)%parent_of_view.
  - rewrite (bl_parents _ Hblank) in Hin. by apply not_elem_of_nil in Hin.
  - apply parent_of_view. by exists m, e.
Qed.

Lemma new_view_cases j w : view with_new !! j = Some w →
  (j = i ∧ w = node_view t n) ∨ (j ≠ i ∧ view t !! j = Some w).
Proof.
  unfold view. rewrite !lookup_fmap. destruct (t_nodes with_new !! j) as [m|] eqn:Hm; [|done]. intros [= <-].
  apply new_cases in Hm as [[-> ->]|[? Hm]]; [by left|]. right. by rewrite Hm.
Qed.

Lemma new_fs : fs_inv (tree_fs with_new).
Proof.
  destruct (ti_fs _ _ (ti_struct _ _ Hinv)) as [[Hd Ho Ha] Hm [L1 L2 L3]]. simpl in *.
  assert (∀ j w, view t !! j = Some w → view with_new !! j = Some w) as Hold.
  { intros j w. unfold view. rewrite !lookup_fmap. destruct (t_nodes t !! j) as [m|] eqn:Hmj; [|done]. intros [= <-].
    by rewrite (new_old _ _ Hmj). }
  split; [split|..|split].
  - intros j q Hq%new_parent_of. destruct (Hd j q Hq) as (w & Hw & Ht). eauto.
  - intros j w [[-> ->]|[_ Hw]]%new_view_cases Ht; [|by eapply Ho]. simpl. rewrite (bl_parents _ Hblank). simpl. lia.
  - intros j Hj. apply (Ha j). revert Hj. unfold ancestor. generalize j at 2 4. intros k Hk.
    induction Hk as [x y Hxy|x y z Hxy _ IH]; [by apply tc_once, new_parent_of|eapply tc_l; [by apply new_parent_of|exact IH]].
  - intros j w [[-> ->]|[_ Hw]]%new_view_cases; [apply (bl_mode _ Hblank)|by eapply Hm].
  - done.
  - intros j ty l Hl. destruct (L2 j ty l Hl) as (w & Hw & ?). exists w. split; [by apply Hold|done].
  - intros j ty w [[-> ->]|[_ Hw]]%new_view_cases Hf; [|by eapply L3]. destruct (bl_flags _ Hblank) as [F1 F2].
    unfold acl_flag in Hf. simpl in Hf. rewrite F1, F2 in Hf. by repeat case_if_in Hf.
Qed.

Lemma new_counts : counts_ok with_new.
Proof.
  intros j m [[-> ->]|[Hne Hm]]%new_cases.
  - rewrite (bl_links _ Hblank), (bl_elems _ Hblank), (bl_children _ Hblank), (bl_parents _ Hblank). by case_if.
  - assert (∀ e, to_dir with_new e = to_dir t e) as Htd.
    { intros e. unfold to_dir. simpl. destruct (t_edges t !! e) as [ed|] eqn:He; [|done].
      rewrite lookup_insert_ne; [done|]. intros Heq. by eapply (new_not_child e ed). }
    rewrite (count_ext _ (to_dir t)) by (intros; apply Htd).
    by apply (ti_counts _ _ (ti_struct _ _ Hinv) j m).
Qed.

Lemma new_stats : stats_ok with_new.
Proof.
  assert (∀ e, edge_stats with_new e = edge_stats t e) as Hes.
  { intros e. unfold edge_stats, st_of. simpl. destruct (t_edges t !! e) as [ed|] eqn:He; [|done].
    rewrite lookup_insert_ne; [done|]. intros Heq. by eapply (new_not_child e ed). }
  intros j m st [[-> ->]|[Hne Hm]]%new_cases Ht Hs.
  - rewrite (bl_children _ Hblank), (bl_stats _ Hblank st Hs). apply sr_of_eq. by rewrite sr_plus_zero_r.
  - rewrite (dir_sum_ext t) by (intros; apply Hes). by apply (ti_stats _ _ Hinv j m).
Qed.

Lemma new_detached : detached_ok (i :: X) with_new.
Proof.
  destruct (ti_detached _ _ (ti_struct _ _ Hinv)) as [D1 D2 D3 D4 D5]. split.
  - intros e ed He Hp. destruct (D1 e ed He Hp) as (m & Hm & ?). exists m. split; [by apply new_old|done].
  - intros b e Hin. destruct (D2 b e Hin) as (ed & m & ? & ? & Hm & ?). exists ed, m. split_and!; try done; [by apply new_old|naive_solver..].
  - intros b e Hin. destruct (D3 b e Hin) as (ed & m & ? & ? & Hm & ?). exists ed, m. split_and!; try done; [by apply new_old|naive_solver..].
  - exact D4.
  - intros j m [[-> ->]|[_ Hm]]%new_cases Ht [Hj Hx]%not_elem_of_cons; [done|]. by apply (D5 j m).
Qed.

Lemma new_node_inv : tree_inv (i :: X) with_new.
Proof.
  split; [split; [apply new_coherent|apply new_fs|apply new_counts|apply new_detached| | | |]|apply new_stats].
  - intros j m [[-> ->]|[_ Hm]]%new_cases Hr [Hj Hx]%not_elem_of_cons; [done|].
    by apply (ti_linked _ _ (ti_struct _ _ Hinv) j m).
  - eapply pool_inv_ext; [|exact Hpool]. intros j. rewrite new_lookup. case_decide; [subst; naive_solver|].
    split; [intros [->|?]; [done|done]|tauto].
  - apply (counters_update _ (t_vars t) v i (Some n)); [apply (ti_counters _ _ (ti_struct _ _ Hinv))|].
    assert (t_nodes (with_ids ids (with_vars v t)) !! i = None) as -> by done. done.
  - apply (ti_edgeids _ _ (ti_struct _ _ Hinv)).
Qed.

End new_node.

(** ** A node that goes *)

Section gone_node.
Variables (X : list Z) (t : tree) (i : Z) (n : node) (v : vars) (ids : idpool) (acls : gmap (Z * Z) acl_node) (cs : list call).
Hypothesis Hinv : tree_inv (i :: X) t.
Hypothesis Hn : t_nodes t !! i = Some n.
Hypothesis Hroot : i ≠ MFS_ROOT_ID.
Hypothesis Hparents : n_parents n = [].
Hypothesis Hchildren : children n = [].
Hypothesis Hpool : pool_inv (λ j, is_Some (t_nodes t !! j) ∧ j ≠ i) ids.
Hypothesis Hvars : counters_follow (Some n) None (t_vars t) v.
Hypothesis Hacls : ∀ k, acls !! k = if decide (k.1 = i) then None else t_acls t !! k.

Definition without : tree :=
  emit cs (with_acls acls (with_ids ids (with_vars v (with_nodes (delete i (t_nodes t)) t)))).
#[local] Definition gone_co : coherent t := ti_coherent _ _ (ti_struct _ _ Hinv).

Lemma gone_lookup j m : t_nodes without !! j = Some m ↔ j ≠ i ∧ t_nodes t !! j = Some m.
Proof using. clear. simpl. rewrite lookup_delete_Some. naive_solver. Qed.

Lemma gone_not_child e ed : t_edges t !! e = Some ed → e_child ed ≠ i.
Proof using Hinv Hn Hparents.
  intros He Hc. destruct (co_child t gone_co e ed He) as (m & Hm & Hin). assert (m = n) as -> by congruence.
  rewrite Hparents in Hin. by apply not_elem_of_nil in Hin.
Qed.
Lemma gone_not_parent e ed : t_edges t !! e = Some ed → e_parent ed ≠ Some i.
Proof using Hinv Hn Hchildren.
  intros He Hc. destruct (co_parent t gone_co e ed i He Hc) as (m & Hm & _ & Hin). assert (m = n) as -> by congruence.
  rewrite Hchildren in Hin. by apply not_elem_of_nil in Hin.
Qed.

Lemma gone_coherent : coherent without.
Proof.
  pose proof gone_co as [H1 H2 H3 H4 H5 H6 H7 H8 H9 H10]. split.
  - intros e ed He. destruct (H1 e ed He) as (m & Hm & Hin). exists m. rewrite gone_lookup. split_and!; try done.
    by eapply gone_not_child.
  - intros j m e [_ Hm]%gone_lookup. by apply H2.
  - intros j m [_ Hm]%gone_lookup. by eapply H3.
  - intros e ed p He Hp. destruct (H4 e ed p He Hp) as (m & Hm & ? & ?). exists m. rewrite gone_lookup. split_and!; try done.
    intros ->. by eapply gone_not_parent.
  - intros j m e [_ Hm]%gone_lookup. by apply H5.
  - intros j m [_ Hm]%gone_lookup. by eapply H6.
  - intros j m [_ Hm]%gone_lookup. by eapply H7.
  - done.
  - done.
  - destruct H10 as (r & Hr & ? & ?). exists r. by rewrite gone_lookup.
Qed.

Lemma gone_view j w : view without !! j = Some w ↔ j ≠ i ∧ view t !! j = Some w.
Proof.
  unfold view. rewrite !lookup_fmap. simpl. rewrite lookup_delete. case_decide; [subst; naive_solver|].
  destruct (t_nodes t !! j); naive_solver.
Qed.

Lemma gone_fs : fs_inv (tree_fs without).
Proof.
  destruct (ti_fs _ _ (ti_struct _ _ Hinv)) as [[Hd Ho Ha] Hm [L1 L2 L3]]. simpl in *.
  assert (∀ j q, parent_of (view without) j q → parent_of (view t) j q ∧ q ≠ i) as Hpar.
  { intros j q (m & e & [_ Hmj]%gone_lookup & Hin & Hq)%parent_of_view. split; [apply parent_of_view; by exists m, e|].
    unfold edge_parent in Hq. simpl in Hq. destruct (t_edges t !! e) as [ed|] eqn:He; [|done]. simpl in Hq. intros ->.
    by eapply gone_not_parent. }
  split; [split|..|split]; cbn [tree_fs fs_nodes fs_acls].
  - intros j q [Hq Hne]%Hpar. destruct (Hd j q Hq) as (w & Hw & Ht). exists w. by rewrite gone_view.
  - intros j w [_ Hw]%gone_view. intros Ht. by eapply Ho.
  - intros j Hj. apply (Ha j). revert Hj. unfold ancestor. generalize j at 2 4. intros k Hk.
    induction Hk as [x y Hxy|x y z Hxy _ IH]; [by apply tc_once, Hpar|eapply tc_l; [by apply Hpar|exact IH]].
  - intros j w [_ Hw]%gone_view. by eapply Hm.
  - intros j ty l. cbn. rewrite Hacls. case_decide; [done|]. apply L1.
  - intros j ty l. cbn. rewrite Hacls. case_decide as Hji; [done|]. intros Hl. destruct (L2 j ty l Hl) as (w & Hw & ?). exists w.
    by rewrite gone_view.
  - intros j ty w [Hne Hw]%gone_view Hf. cbn. rewrite Hacls. simpl. rewrite decide_False by done. by eapply L3.
Qed.

Lemma gone_counts : counts_ok without.
Proof.
  intros j m [Hne Hm]%gone_lookup. rewrite (count_ext (to_dir without) (to_dir t)).
  - by apply (ti_counts _ _ (ti_struct _ _ Hinv) j m).
  - intros e _. unfold to_dir. simpl. destruct (t_edges t !! e) as [ed|] eqn:He; [|done].
    rewrite lookup_delete_ne; [done|]. intros Heq. by eapply (gone_not_child e ed).
Qed.

Lemma gone_stats : stats_ok without.
Proof.
  intros j m st [Hne Hm]%gone_lookup Ht Hs. rewrite (dir_sum_ext t).
  - by apply (ti_stats _ _ Hinv j m).
  - intros e _. unfold edge_stats, st_of. simpl. destruct (t_edges t !! e) as [ed|] eqn:He; [|done].
    rewrite lookup_delete_ne; [done|]. intros Heq. by eapply (gone_not_child e ed).
Qed.

Lemma gone_detached : detached_ok X without.
Proof.
  destruct (ti_detached _ _ (ti_struct _ _ Hinv)) as [D1 D2 D3 D4 D5].
  assert (∀ e ed m, t_edges t !! e = Some ed → t_nodes t !! e_child ed = Some m → t_nodes without !! e_child ed = Some m) as Hch.
  { intros e ed m He Hm. rewrite gone_lookup. split; [by eapply gone_not_child|done]. }
  split.
  - intros e ed He Hp. destruct (D1 e ed He Hp) as (m & Hm & ?). exists m. split; [by eapply Hch|done].
  - intros b e Hin. destruct (D2 b e Hin) as (ed & m & ? & ? & Hm & ?). exists ed, m. split_and!; try done; [by eapply Hch|naive_solver..].
  - intros b e Hin. destruct (D3 b e Hin) as (ed & m & ? & ? & Hm & ?). exists ed, m. split_and!; try done; [by eapply Hch|naive_solver..].
  - exact D4.
  - intros j m [Hne Hm]%gone_lookup Ht Hx. apply (D5 j m Hm Ht). by apply not_elem_of_cons.
Qed.

Lemma gone_node_inv : tree_inv X without.
Proof.
  split; [split; [apply gone_coherent|apply gone_fs|apply gone_counts|apply gone_detached| | | |]|apply gone_stats].
  - intros j m [Hne Hm]%gone_lookup Hr Hx. apply (ti_linked _ _ (ti_struct _ _ Hinv) j m Hm Hr). by apply not_elem_of_cons.
  - eapply pool_inv_ext; [|exact Hpool]. intros j. simpl. rewrite lookup_delete. case_decide; [subst; split; [naive_solver|intros []; done]|].
    split; [naive_solver|]. intros ?. split; [done|congruence].
  - apply (counters_update _ (t_vars t) v i None); [apply (ti_counters _ _ (ti_struct _ _ Hinv))|]. by rewrite Hn.
  - apply (ti_edgeids _ _ (ti_struct _ _ Hinv)).
Qed.

End gone_node.

(** ** A file that changes *)

Lemma put_cases c n' t j m : t_nodes (put c n' t) !! j = Some m → (j = c ∧ m = n') ∨ (j ≠ c ∧ t_nodes t !! j = Some m).
Proof. rewrite lookup_put. case_decide; [intros [= <-]; left; done|right; done]. Qed.

Lemma file_data n : shape_ok n → is_file n = true → ∃ len ct nl r, n_data n = fdata len ct nl r.
Proof.
  unfold shape_ok, is_file. intros Hs Hf. destruct (n_data n) as [| | |len ct nl r|]; eauto; exfalso.
  - by rewrite Hs in Hf.
  - by rewrite Hs in Hf.
  - destruct Hs as [Hs|Hs]; by rewrite Hs in Hf.
  - destruct Hs as [Hs|Hs]; by rewrite Hs in Hf.
Qed.

Lemma file_children n : shape_ok n → is_file n = true → children n = [].
Proof. intros Hs Hf. destruct (file_data n Hs Hf) as (?&?&?&?&Hd). unfold children. by rewrite Hd. Qed.

Lemma file_not_dir n : is_file n = true → n_type n ≠ TYPE_DIRECTORY.
Proof. intros Hf Ht. by rewrite (is_file_dir _ Ht) in Hf. Qed.

Section file_change.
Variables (X : list Z) (t : tree) (c : Z) (n n' : node) (v : vars) (tr su : gmap Z (list positive)).
Hypothesis Hinv : struct_inv X t.
Hypothesis Hn : t_nodes t !! c = Some n.
Hypothesis Hfile : is_file n = true.
Hypothesis Hfile' : is_file n' = true.
Hypothesis Hparents : n_parents n' = n_parents n.
Hypothesis Hlinks : links n' = links n.
Hypothesis Hmode : n_mode n' = n_mode n.
Hypothesis Hflags : n_aclpermflag n' = n_aclpermflag n ∧ n_acldefflag n' = n_acldefflag n.
Hypothesis Hshape : shape_ok n'.
Hypothesis Hvars : counters_follow (Some n) (Some n') (t_vars t) v.

Definition changed : tree := put c n' (with_detached tr su (with_vars v t)).
#[local] Definition change_co : coherent t := ti_coherent _ _ Hinv.

Lemma change_cases j m : t_nodes changed !! j = Some m →
  ∃ m0, t_nodes t !! j = Some m0 ∧ n_parents m = n_parents m0 ∧ children m = children m0 ∧ links m = links m0 ∧ elems m = elems m0 ∧
    (n_type m = TYPE_DIRECTORY ↔ n_type m0 = TYPE_DIRECTORY) ∧ n_mode m = n_mode m0 ∧ n_aclpermflag m = n_aclpermflag m0 ∧
    n_acldefflag m = n_acldefflag m0 ∧ (shape_ok m0 → shape_ok m).
Proof.
  intros [[-> ->]|[Hne Hm]]%put_cases; [|by exists m]. exists n. assert (shape_ok n) as Hsh by (by eapply co_shape, Hn; apply change_co).
  pose proof (file_not_dir _ Hfile). pose proof (file_not_dir _ Hfile'). split_and!; try done; try tauto.
  - by rewrite !file_children.
  - destruct (file_data n Hsh Hfile) as (?&?&?&?&Hd). destruct (file_data n' Hshape Hfile') as (?&?&?&?&Hd').
    unfold elems. by rewrite Hd, Hd'.
Qed.

Lemma change_fwd j m0 : t_nodes t !! j = Some m0 → ∃ m, t_nodes changed !! j = Some m ∧ n_parents m = n_parents m0 ∧
  children m = children m0 ∧ (n_type m = TYPE_DIRECTORY ↔ n_type m0 = TYPE_DIRECTORY).
Proof.
  intros Hm. assert (∃ m, t_nodes changed !! j = Some m) as (m & Hm').
  { unfold changed. rewrite lookup_put. case_decide; [eauto|]. simpl. eauto. }
  exists m. destruct (change_cases j m Hm') as (m1 & Hm1 & ? & ? & _ & _ & ? & _). assert (m1 = m0) as -> by congruence. done.
Qed.

Lemma change_coherent : coherent changed.
Proof.
  pose proof change_co as [H1 H2 H3 H4 H5 H6 H7 H8 H9 H10]. split.
  - intros e ed He. destruct (H1 e ed He) as (m & Hm & Hin). destruct (change_fwd _ _ Hm) as (m' & Hm' & Hp & _). exists m'.
    by rewrite Hp.
  - intros j m e Hm Hin. destruct (change_cases j m Hm) as (m0 & Hm0 & Hp & _). rewrite Hp in Hin. by eapply H2.
  - intros j m Hm. destruct (change_cases j m Hm) as (m0 & Hm0 & -> & _). by eapply H3.
  - intros e ed p He Hp. destruct (H4 e ed p He Hp) as (m & Hm & Ht & Hin). destruct (change_fwd _ _ Hm) as (m' & Hm' & _ & Hc & Hd).
    exists m'. rewrite Hc. tauto.
  - intros j m e Hm Hin. destruct (change_cases j m Hm) as (m0 & Hm0 & _ & Hc & _). rewrite Hc in Hin. by eapply H5.
  - intros j m Hm. destruct (change_cases j m Hm) as (m0 & Hm0 & _ & -> & _). by eapply H6.
  - intros j m Hm. destruct (change_cases j m Hm) as (m0 & Hm0 & _ & _ & _ & _ & _ & _ & _ & _ & Hs). apply Hs. by eapply H7.
  - done.
  - done.
  - destruct H10 as (r & Hr & Ht & Hp). destruct (change_fwd _ _ Hr) as (r' & Hr' & Hp' & _ & Hd). exists r'. rewrite Hp'. tauto.
Qed.

Lemma change_rel : nodes_rel (λ _ m0 m, n_parents m = n_parents m0 ∧ children m = children m0 ∧ links m = links m0 ∧ elems m = elems m0 ∧
    (n_type m = TYPE_DIRECTORY ↔ n_type m0 = TYPE_DIRECTORY) ∧ n_mode m = n_mode m0 ∧ n_aclpermflag m = n_aclpermflag m0 ∧
    n_acldefflag m = n_acldefflag m0) t changed.
Proof.
  intros j. destruct (t_nodes changed !! j) as [m|] eqn:Hm.
  - destruct (change_cases j m Hm) as (m0 & -> & ? & ? & ? & ? & ? & ? & ? & ? & _). by constructor.
  - destruct (t_nodes t !! j) as [m0|] eqn:Hm0; [|constructor]. destruct (change_fwd _ _ Hm0) as (m & Hm' & _). congruence.
Qed.

Lemma change_fs : fs_inv (tree_fs changed).
Proof.
  destruct (fs_tree _ (ti_fs _ _ Hinv)) as [Hd Ho Ha]. simpl in *.
  assert (∀ j q, parent_of (view changed) j q → parent_of (view t) j q) as Hpar.
  { intros j q (m & e & Hm & Hin & Hq)%parent_of_view. destruct (change_cases j m Hm) as (m0 & Hm0 & Hp & _).
    apply parent_of_view. exists m0, e. by rewrite <- Hp. }
  apply (lists_same t); [|done| |apply (ti_fs _ _ Hinv)].
  - eapply nodes_rel_impl; [|exact change_rel]. by intros j m m' (_ & _ & _ & _ & _ & ? & ? & ?).
  - split.
    + intros j q Hq%Hpar. destruct (Hd j q Hq) as (w & Hw & Ht). unfold view in Hw. rewrite lookup_fmap in Hw.
      destruct (t_nodes t !! q) as [m|] eqn:Hm; [|done]. injection Hw as <-. destruct (change_fwd _ _ Hm) as (m' & Hm' & _ & _ & Htt).
      exists (node_view changed m'). split; [by apply view_lookup|]. simpl in *. tauto.
    + intros j w Hw Ht. unfold view in Hw. rewrite lookup_fmap in Hw. destruct (t_nodes changed !! j) as [m|] eqn:Hm; [|done].
      injection Hw as <-. destruct (change_cases j m Hm) as (m0 & Hm0 & Hp & _ & _ & _ & Htt & _). simpl in *. rewrite length_fmap, Hp.
      specialize (Ho j (node_view t m0) (view_lookup _ _ _ Hm0)). simpl in Ho. rewrite length_fmap in Ho. tauto.
    + intros j Hj. apply (Ha j). revert Hj. unfold ancestor. generalize j at 2 4. intros k Hk.
      induction Hk as [x y Hxy|x y z Hxy _ IH]; [by apply tc_once, Hpar|eapply tc_l; [by apply Hpar|exact IH]].
Qed.

Lemma change_counts : counts_ok changed.
Proof.
  intros j m Hm. destruct (change_cases j m Hm) as (m0 & Hm0 & -> & -> & -> & -> & Hd & _).
  pose proof (ti_counts _ _ Hinv j m0 Hm0) as Hcnt. rewrite (count_ext (to_dir changed) (to_dir t)).
  - destruct (Z.eqb_spec (n_type m0) TYPE_DIRECTORY), (Z.eqb_spec (n_type m) TYPE_DIRECTORY); tauto.
  - intros e _. unfold to_dir. change (t_edges changed) with (t_edges t). destruct (t_edges t !! e) as [ed|]; [|done].
    destruct (change_rel (e_child ed)) as [x y (_ & _ & _ & _ & Ht & _)|]; [|done].
    destruct (Z.eqb_spec (n_type x) TYPE_DIRECTORY), (Z.eqb_spec (n_type y) TYPE_DIRECTORY); tauto.
Qed.

Lemma file_change_struct : detached_ok X changed → struct_inv X changed.
Proof.
  intros Hdet. split; [apply change_coherent|apply change_fs|apply change_counts|done| | | |].
  - intros j m Hm Hr Hx. destruct (change_cases j m Hm) as (m0 & Hm0 & -> & _). by apply (ti_linked _ _ Hinv j m0).
  - eapply pool_inv_ext; [|exact (ti_pool _ _ Hinv)]. intros j. symmetry. by eapply nodes_rel_dom, change_rel.
  - apply (counters_update _ (t_vars t) v c (Some n')); [apply (ti_counters _ _ Hinv)|].
    assert (t_nodes (with_detached tr su (with_vars v t)) !! c = Some n) as -> by done. done.
  - apply (ti_edgeids _ _ Hinv).
Qed.

(** The statistics of the node stay. *)
Lemma file_change_inv : stats_ok t → node_stats n' = node_stats n → detached_ok X changed → tree_inv X changed.
Proof.
  intros Hst Heq Hdet. split; [by apply file_change_struct|].
  assert (∀ e, edge_stats changed e = edge_stats t e) as Hes.
  { intros e. unfold edge_stats, st_of. change (t_edges changed) with (t_edges t). destruct (t_edges t !! e) as [ed|]; [|done].
    unfold changed. rewrite lookup_put. case_decide as Hc; [|done]. rewrite <- Hc, Hn. by rewrite Heq. }
  intros j m st [[-> ->]|[Hne Hm]]%put_cases Ht Hs; [by destruct (file_not_dir _ Hfile')|].
  rewrite (dir_sum_ext t) by (intros; apply Hes). by apply (Hst j m).
Qed.

End file_change.
