(* ===== verification/FsTreeOps.v ===== *)
(** * Creation, removal and detachment of nodes keep the invariant

    [fsnodes_create_node], [fsnodes_remove_node], [fsnodes_unlink], [fsnodes_purge] and
    [fsnodes_setlength] as wholes: from a state that satisfies the invariant they
    return one that does. *)

From S2P Require Import Prelude MfsComm FreeInodes StorageClass DataPack FsNodes PosixAcl FsAccess AclFacts FsTree FsStats FsTreeInv FsTreeEdges FsTreeLink FsTreeNodes.

(** ** Parts of the state that take no part *)

(** A change of the state that the functions on edges and statistics do not see. *)
Class Frame (F : tree → tree) : Prop := {
  fr_nodes t : t_nodes (F t) = t_nodes t;
  fr_edges t : t_edges (F t) = t_edges t;
  fr_names t : t_names (F t) = t_names t;
  fr_edgeids t : t_edgeids (F t) = t_edgeids t;
  fr_trash t : t_trash (F t) = t_trash t;
  fr_sustained t : t_sustained (F t) = t_sustained t;
  fr_with_nodes m t : with_nodes m (F t) = F (with_nodes m t);
  fr_with_edges m t : with_edges m (F t) = F (with_edges m t);
  fr_with_names m t : with_names m (F t) = F (with_names m t);
  fr_with_edgeids m t : with_edgeids m (F t) = F (with_edgeids m t);
  fr_with_detached tr su t : with_detached tr su (F t) = F (with_detached tr su t);
  fr_emit cs t : emit cs (F t) = F (emit cs t) }.

#[export] Instance with_acls_frame a : Frame (with_acls a).
Proof. by split. Qed.
#[export] Instance with_vars_frame v : Frame (with_vars v).
Proof. by split. Qed.

Section frame.
Context (F : tree → tree) `{!Frame F}.

Lemma fr_put i n t : put i n (F t) = F (put i n t).
Proof. unfold put. by rewrite fr_nodes, fr_with_nodes. Qed.

(** Moves the frame outwards. *)
Ltac frame :=
  repeat progress rewrite ?fr_nodes, ?fr_edges, ?fr_names, ?fr_edgeids, ?fr_trash, ?fr_sustained, ?fr_put, ?fr_with_nodes,
    ?fr_with_edges, ?fr_with_names, ?fr_with_edgeids, ?fr_with_detached, ?fr_emit.

(** One step of a function: the option it reads is decided. *)
Ltac step :=
  match goal with
  | |- context [?o ≫= _] => destruct o; [|done]
  end; cbn [mbind option_bind].

Lemma climb_stats_frame fuel f p t : climb_stats fuel f p (F t) = F <$> climb_stats fuel f p t.
Proof.
  revert p t. induction fuel as [|fuel IH]; intros p t; cbn [climb_stats]; [done|]. destruct p as [p|]; [|done].
  frame. destruct (t_nodes t !! p) as [n|]; [|done]. cbn [mbind option_bind].
  destruct (change_stats f n) as [n'|]; [|done]. cbn [mbind option_bind]. frame.
  case_if; [done|]. generalize (put p n' t). clear -IH Frame0.
  induction (n_parents n) as [|e es IHes]; intros t; cbn [fold_opt]; [done|]. frame.
  destruct (t_edges t !! e) as [ed|]; [|done]. cbn [mbind option_bind]. rewrite IH.
  destruct (climb_stats fuel f (e_parent ed) t) as [t1|]; [|done]. apply IHes.
Qed.

Lemma climb_fuel_frame t : climb_fuel (F t) = climb_fuel t.
Proof. unfold climb_fuel. by frame. Qed.

Lemma count_link_frame d p c t : count_link d p c (F t) = F <$> count_link d p c t.
Proof.
  unfold count_link. frame. step. case_if; frame; step; [destruct (n_data _); try done|]; by frame.
Qed.

Lemma edgeid_remove_frame ed t : fsnodes_edgeid_remove ed (F t) = F (fsnodes_edgeid_remove ed t).
Proof. unfold fsnodes_edgeid_remove. frame. destruct (t_edgeids t !! _) as [[id ptr]|]; [|done]. case_if; by frame. Qed.

Lemma unlink_child_frame e ed t : unlink_child e ed (F t) = F <$> unlink_child e ed t.
Proof. unfold unlink_child. destruct (e_parent ed); frame; [|done]. step. step. by frame. Qed.

Lemma unlink_parent_frame e ed t : unlink_parent e ed (F t) = F <$> unlink_parent e ed t.
Proof. unfold unlink_parent. frame. step. by frame. Qed.

Lemma edge_delete_frame p name e t : fsnodes_edge_delete p name e (F t) = F (fsnodes_edge_delete p name e t).
Proof. unfold fsnodes_edge_delete. frame. case_if; by frame. Qed.

Section with_classes.
Variable sclasstab : Z → storageclass.
Variable MaxECRedundancyLevel : Z.

Lemma checkarchmode_frame i ts fields t :
  fsnodes_checkarchmode sclasstab i ts fields (F t) = F <$> fsnodes_checkarchmode sclasstab i ts fields t.
Proof.
  unfold fsnodes_checkarchmode. frame. step. case_if; [|done]. destruct (n_data _); try done. case_if; [by frame|done].
Qed.

Lemma get_stats_0_frame i t :
  fsnodes_get_stats sclasstab MaxECRedundancyLevel i 0 (F t) =
    (λ x, (x.1, F x.2)) <$> fsnodes_get_stats sclasstab MaxECRedundancyLevel i 0 t.
Proof. unfold fsnodes_get_stats. frame. step. rewrite andb_false_r. cbn [mbind option_bind]. frame. step. by step. Qed.

Lemma get_stats_1_frame i t :
  fsnodes_get_stats sclasstab MaxECRedundancyLevel i 1 (F t) =
    (λ x, (x.1, F x.2)) <$> fsnodes_get_stats sclasstab MaxECRedundancyLevel i 1 t.
Proof.
  unfold fsnodes_get_stats. frame. step. case_if.
  - destruct (n_data _); try done. simpl (1 =? 2). cbv iota zeta. cbn [mbind option_bind]. frame. step. by step.
  - cbn [mbind option_bind]. frame. step. by step.
Qed.

Lemma remove_edge_frame ts e t :
  fsnodes_remove_edge sclasstab MaxECRedundancyLevel ts e (F t) = F <$> fsnodes_remove_edge sclasstab MaxECRedundancyLevel ts e t.
Proof.
  unfold fsnodes_remove_edge. frame. destruct (t_edges t !! e) as [ed|]; [|done]. cbn [mbind option_bind].
  match goal with |- (?x ≫= _) = _ <$> (?y ≫= _) => assert (x = F <$> y) as -> end.
  { destruct (e_parent ed) as [p|]; [|done]. unfold leave_parent. rewrite edgeid_remove_frame, get_stats_0_frame.
    destruct (fsnodes_get_stats _ _ _ _ _) as [[sr t1]|]; [|done]. cbn [mbind option_bind fmap option_fmap option_map fst snd].
    unfold fsnodes_sub_stats. rewrite climb_fuel_frame, climb_stats_frame. destruct (climb_stats _ _ _ t1) as [t2|]; [|done].
    cbn [mbind option_bind fmap option_fmap option_map]. frame. step. step. frame. rewrite count_link_frame.
    destruct (count_link _ _ _ _) as [t3|]; [|done]. cbn [mbind option_bind fmap option_fmap option_map]. frame. step. by frame. }
  match goal with |- context [?y ≫= _] => destruct y as [t1|]; [|done] end.
  cbn [mbind option_bind fmap option_fmap option_map].
  match goal with |- (?x ≫= _) = _ <$> (?y ≫= _) => assert (x = F <$> y) as -> end.
  { case_if; [|done]. frame. step. frame. apply checkarchmode_frame. }
  match goal with |- context [?y ≫= _] => destruct y as [t2|]; [|done] end.
  cbn [mbind option_bind fmap option_fmap option_map]. rewrite unlink_child_frame.
  destruct (unlink_child e ed t2) as [t3|]; [|done]. cbn [mbind option_bind fmap option_fmap option_map]. rewrite unlink_parent_frame.
  destruct (unlink_parent e ed t3) as [t4|]; [|done]. cbn [mbind option_bind fmap option_fmap option_map].
  destruct (e_parent ed); rewrite ?edge_delete_frame; by frame.
Qed.

End with_classes.

End frame.

(** The numbers of new edges are among the counters, the access lists are not. *)
Lemma link_acls sclasstab MaxECRedundancyLevel ts p c name a t :
  fsnodes_link sclasstab MaxECRedundancyLevel ts p c name (with_acls a t) =
    with_acls a <$> fsnodes_link sclasstab MaxECRedundancyLevel ts p c name t.
Proof.
  unfold fsnodes_link. destruct (fsedge_new c (Some p) name t) as [e ta] eqn:Hnew.
  assert (fsedge_new c (Some p) name (with_acls a t) = (e, with_acls a ta)) as -> by (unfold fsedge_new in *; by injection Hnew as <- <-).
  rewrite fr_nodes. destruct (t_nodes ta !! p) as [pn|]; [|done]. cbn [mbind option_bind].
  destruct (change_dir (cons e) 1 pn) as [pn1|]; [|done]. cbn [mbind option_bind]. unfold push_parent.
  rewrite fr_put, fr_nodes by apply _. destruct (t_nodes (put p pn1 ta) !! c) as [cn|]; [|done]. cbn [mbind option_bind].
  rewrite fr_put by apply _. unfold fsnodes_edge_add. rewrite fr_names, fr_with_names, count_link_frame by apply _.
  destruct (count_link 1 p c _) as [tc|]; [|done]. cbn [mbind option_bind option_fmap option_map fmap].
  rewrite fr_nodes. destruct (t_nodes tc !! p) as [pn2|]; [|done]. cbn [mbind option_bind].
  rewrite fr_put, get_stats_1_frame by apply _.
  destruct (fsnodes_get_stats sclasstab MaxECRedundancyLevel c 1 _) as [[sr t1]|]; [|done].
  cbn [mbind option_bind fmap option_fmap option_map fst snd]. unfold fsnodes_add_stats.
  rewrite climb_fuel_frame, climb_stats_frame by apply _. destruct (climb_stats (climb_fuel t1) _ (Some p) t1) as [t2|]; [|done].
  cbn [mbind option_bind fmap option_fmap option_map]. case_if; [|done].
  rewrite fr_nodes. destruct (t_nodes t2 !! p) as [n|]; [|done]. cbn [mbind option_bind].
  rewrite fr_put, fr_nodes by apply _. destruct (t_nodes (put p _ t2) !! c) as [m|]; [|done]. cbn [mbind option_bind].
  rewrite fr_put by apply _. by apply checkarchmode_frame.
Qed.

(** ** The access lists of a new node *)

Lemma flag_lor x y b : flag (Z.lor x y) b = flag x b || flag y b.
Proof.
  unfold flag. rewrite Z.land_lor_distr_l. destruct (Z.eqb_spec (Z.land x b) 0) as [Hx|Hx], (Z.eqb_spec (Z.land y b) 0) as [Hy|Hy];
    simpl; apply negb_true_iff || apply negb_false_iff; [rewrite Hx, Hy; done|apply Z.eqb_neq; intros [? ?]%Z.lor_eq_0_iff; done..].
Qed.

Lemma acl_ok_copy n u g o m :
  acl_ok n → is_u16 u → is_u16 g → is_u16 o → is_u16 m →
  acl_ok (mk_acl_node u g o m (acl_namedusers n) (acl_namedgroups n) (acl_acltab n)).
Proof. intros [(_ & _ & _ & _ & ? & ?) Hl He]. split; [|done..]. by split_and!. Qed.

Lemma is_u16_land7 x y : is_u16 (Z.land (set_low3 0 x) y).
Proof.
  unfold set_low3. rewrite Z.land_0_l, Z.lor_0_l, <- Z.land_assoc, (Z.land_comm 7 y), Z.land_assoc. change 7 with (Z.ones 3).
  rewrite Z.land_ones by lia. pose proof (Z.mod_pos_bound (Z.land x y) (2 ^ 3)). unfold is_u16. lia.
Qed.

(** The lists a new node gets: they are well formed, the result tells which there are,
    and no other list changes. *)
Lemma copydefaults_lists p i directory mode acls :
  (∀ n, acls !! (p, POSIX_ACL_DEFAULT) = Some n → acl_ok n) → (∀ ty, acls !! (i, ty) = None) →
  ∃ ret mode' acls', posix_acl_copydefaults p i directory mode acls = Some (ret, mode', acls') ∧
    (∀ j ty, j ≠ i → acls' !! (j, ty) = acls !! (j, ty)) ∧
    (∀ ty n, acls' !! (i, ty) = Some n → acl_ok n ∧ (ty = POSIX_ACL_ACCESS ∨ ty = POSIX_ACL_DEFAULT)) ∧
    (flag ret 1 = true ↔ is_Some (acls' !! (i, POSIX_ACL_ACCESS))) ∧
    (flag ret 2 = true ↔ is_Some (acls' !! (i, POSIX_ACL_DEFAULT))).
Proof.
  intros Hok Hnone. unfold posix_acl_copydefaults, posix_acl_find. destruct (acls !! (p, POSIX_ACL_DEFAULT)) as [pacn|] eqn:Hp.
  2: { exists 0, mode, acls. split; [done|]. split; [done|]. split; [intros ty n Hn; by rewrite Hnone in Hn|].
       rewrite !Hnone. split; split; try done; by intros []. }
  specialize (Hok pacn eq_refl). pose proof Hok as [(Hu & Hg & Ho & Hm & _) _ _]. rewrite Hnone.
  match goal with |- ∃ r m' a', (?x ≫= _) = _ ∧ _ => assert (∃ ret mode' acls1, x = Some (ret, mode', acls1) ∧
    (∀ k, k ≠ (i, POSIX_ACL_ACCESS) → acls1 !! k = acls !! k) ∧
    (∀ n, acls1 !! (i, POSIX_ACL_ACCESS) = Some n → acl_ok n) ∧
    ((ret = 0 ∧ acls1 !! (i, POSIX_ACL_ACCESS) = None) ∨ (ret = 1 ∧ is_Some (acls1 !! (i, POSIX_ACL_ACCESS)))))
    as (ret & mode' & acls1 & -> & Hoth & Hok1 & Hret) end.
  { case_if.
    - do 3 eexists. split; [done|]. split; [done|]. rewrite Hnone. split; [done|]. by left.
    - rewrite copy_table_ok by done. cbn [mbind option_bind]. do 3 eexists. split; [done|]. split; [intros k Hk; by rewrite lookup_insert_ne|].
      rewrite lookup_insert_eq. split; [|by right]. intros n [= <-]. apply acl_ok_copy; [done|apply is_u16_land7|done|apply is_u16_land7..]. }
  cbn [mbind option_bind]. destruct directory.
  - rewrite Hoth, Hnone by done. rewrite copy_table_ok by done. cbn [mbind option_bind]. do 3 eexists. split; [done|].
    split; [intros j ty Hj; by rewrite lookup_insert_ne, Hoth by congruence|]. split.
    { intros ty n [[[= <-] <-]|[Hne Hn]]%lookup_insert_Some; [split; [by apply acl_ok_copy|by right]|].
      destruct (decide (ty = POSIX_ACL_ACCESS)) as [->|Hty]; [split; [by apply Hok1|by left]|]. rewrite Hoth, Hnone in Hn by congruence. done. }
    rewrite lookup_insert_eq, lookup_insert_ne by done. rewrite !flag_lor.
    destruct Hret as [[-> Hx]|[-> Hx]]; try rewrite Hx; cbn; split; split; try done; try (by intros []); by eexists.
  - do 3 eexists. split; [done|]. split; [intros j ty Hj; by rewrite Hoth by congruence|]. split.
    { intros ty n Hn. destruct (decide (ty = POSIX_ACL_ACCESS)) as [->|Hty]; [split; [by apply Hok1|by left]|].
      rewrite Hoth, Hnone in Hn by congruence. done. }
    rewrite (Hoth (i, POSIX_ACL_DEFAULT)), Hnone by done. destruct Hret as [[-> Hx]|[-> Hx]]; try rewrite Hx; cbn; split; split; try done; by intros [].
Qed.

(** The lists and the flags of a node that had none. *)
Lemma install_lists_inv X i n pf df acls t :
  tree_inv X t → t_nodes t !! i = Some n → n_aclpermflag n = false → n_acldefflag n = false →
  (∀ j ty, j ≠ i → acls !! (j, ty) = t_acls t !! (j, ty)) →
  (∀ ty l, acls !! (i, ty) = Some l → acl_ok l ∧ (ty = POSIX_ACL_ACCESS ∨ ty = POSIX_ACL_DEFAULT)) →
  (pf = true ↔ is_Some (acls !! (i, POSIX_ACL_ACCESS))) → (df = true ↔ is_Some (acls !! (i, POSIX_ACL_DEFAULT))) →
  tree_inv X (put i (with_flags pf df (n_keepmode n) n) (with_acls acls t)).
Proof.
  intros [Hinv Hst] Hn Hpf Hdf Hoth Hok Hp Hd. set (t' := put i _ _).
  assert (∀ j m, t_nodes t' !! j = Some m → ∃ m0, t_nodes t !! j = Some m0 ∧ fixed m = fixed m0 ∧ n_mode m = n_mode m0 ∧
    (j ≠ i → m = m0) ∧ (j = i → n_aclpermflag m = pf ∧ n_acldefflag m = df)) as Hback.
  { intros j m [[-> ->]|[Hne Hm]]%put_cases; [exists n|exists m]; by split_and!. }
  assert (nodes_rel (λ _ m0 m, summary m = summary m0 ∨ (fixed m = fixed m0 ∧ core m = core (with_flags pf df (n_keepmode n) m0))) t t') as Hrel.
  { intros j. unfold t'. rewrite lookup_put. case_decide; [subst; rewrite Hn; constructor; by right|]. simpl.
    destruct (t_nodes t !! j); constructor. by left. }
  assert (nodes_rel (λ _ m0 m, fixed m = fixed m0) t t') as Hfix.
  { eapply nodes_rel_impl; [|exact Hrel]. intros j m0 m [Hs|[? _]]; [|done]. by apply static_fixed, summary_static. }
  split.
  - eapply struct_fixed; [exact Hfix|done|done| |exact Hinv]. destruct (ti_fs _ _ Hinv) as [Htree Hmodes [L1 L2 L3]]. simpl in *.
    assert (∀ j w, view t' !! j = Some w → ∃ m0 m, t_nodes t !! j = Some m0 ∧ w = node_view t' m ∧ n_mode m = n_mode m0 ∧
      (j ≠ i → m = m0) ∧ (j = i → n_aclpermflag m = pf ∧ n_acldefflag m = df)) as Hv.
    { intros j w. unfold view. rewrite lookup_fmap. destruct (t_nodes t' !! j) as [m|] eqn:Hm; [|done]. intros [= <-].
      destruct (Hback j m Hm) as (m0 & ? & _ & ? & ? & ?). by exists m0, m. }
    split; [|intros j w Hw|split]; cbn [tree_fs fs_nodes fs_acls]; change (t_acls t') with acls.
    + apply (tree_ok_le t); [| |done].
      * eapply nodes_rel_impl; [|exact Hfix]. intros j m0 m [_ (_ & ? & -> & _)%bones_inv]%pair_equal_spec. done.
      * intros j q (m & e & Hm & Hin & Hq)%parent_of_view. destruct (Hback j m Hm) as (m0 & Hm0 & [_ (_ & _ & Hpar & _)%bones_inv]%pair_equal_spec & _).
        apply parent_of_view. exists m0, e. by rewrite <- Hpar.
    + destruct (Hv j w Hw) as (m0 & m & Hm0 & -> & Hmd & _). simpl. rewrite Hmd. apply (Hmodes j (node_view t m0)). by apply view_lookup.
    + intros j ty l. destruct (decide (j = i)) as [->|Hne]; [apply Hok|]. rewrite Hoth by done. apply L1.
    + intros j ty l Hl. destruct (decide (j = i)) as [->|Hne].
      * exists (node_view t' (with_flags pf df (n_keepmode n) n)). split; [apply view_lookup; unfold t'; by rewrite lookup_put, decide_True|].
        destruct (Hok _ _ Hl) as [_ [-> | ->]]; unfold acl_flag; simpl; [apply Hp|apply Hd]; by eexists.
      * rewrite Hoth in Hl by done. destruct (L2 j ty l Hl) as (w & Hw & Hf). unfold view in Hw. rewrite lookup_fmap in Hw.
        destruct (t_nodes t !! j) as [m|] eqn:Hm; [|done]. injection Hw as <-. exists (node_view t' m). split; [|done].
        apply view_lookup. unfold t'. by rewrite lookup_put, decide_False.
    + intros j ty w Hw Hf. destruct (Hv j w Hw) as (m0 & m & Hm0 & -> & _ & Hsame & Hnew). destruct (decide (j = i)) as [->|Hne].
      * destruct (Hnew eq_refl) as [E1 E2]. unfold acl_flag in Hf. simpl in Hf. rewrite E1, E2 in Hf.
        destruct (Z.eqb_spec ty POSIX_ACL_ACCESS) as [->|]; [by apply Hp|].
        destruct (Z.eqb_spec ty POSIX_ACL_DEFAULT) as [->|]; [by apply Hd|done].
      * rewrite Hoth by done. specialize (Hsame Hne). subst m. eapply L3; [by apply view_lookup|done].
  - assert (∀ j, st_of t' j = st_of t j) as Hstj.
    { intros j. apply st_of_same. intros k. unfold t'. rewrite lookup_put. case_decide; [subst; rewrite Hn; by constructor|].
      simpl. destruct (t_nodes t !! k); by constructor. }
    assert (∀ e, edge_stats t' e = edge_stats t e) as Hes.
    { intros e. unfold edge_stats. change (t_edges t') with (t_edges t). by destruct (t_edges t !! e). }
    intros j m st Hm Ht Hs. rewrite (dir_sum_ext t) by (intros; apply Hes).
    apply put_cases in Hm as [[-> ->]|[Hne Hm]]; [by apply (Hst i n)|by apply (Hst j m)].
Qed.

Section with_classes.
Variable sclasstab : Z → storageclass.
Variable MaxECRedundancyLevel : Z.
Abbreviation fsnodes_link := (fsnodes_link sclasstab MaxECRedundancyLevel).
Abbreviation fsnodes_remove_edge := (fsnodes_remove_edge sclasstab MaxECRedundancyLevel).
Abbreviation fsnodes_create_node := (fsnodes_create_node sclasstab MaxECRedundancyLevel).
Abbreviation fix_ratio := (fix_ratio sclasstab MaxECRedundancyLevel).

(** ** [fsnodes_create_node] *)

(** The kinds of nodes a request makes. *)
Definition creatable (ty : Z) : Prop :=
  ty = TYPE_FILE ∨ ty = TYPE_DIRECTORY ∨ ty = TYPE_SYMLINK ∨ ty = TYPE_FIFO ∨ ty = TYPE_SOCKET ∨ ty = TYPE_BLOCKDEV ∨ ty = TYPE_CHARDEV.

Lemma lor_bound n a b : 0 ≤ n → 0 ≤ a < 2 ^ n → 0 ≤ b < 2 ^ n → 0 ≤ Z.lor a b < 2 ^ n.
Proof.
  intros Hn Ha Hb. destruct (Z.eq_dec a 0) as [->|]; [by rewrite Z.lor_0_l|].
  destruct (Z.eq_dec b 0) as [->|]; [by rewrite Z.lor_0_r|].
  assert (0 ≤ Z.lor a b) by (apply Z.lor_nonneg; lia).
  assert (Z.lor a b ≠ 0) by (intros [? ?]%Z.lor_eq_0_iff; lia).
  split; [done|]. apply Z.log2_lt_pow2; [lia|]. rewrite Z.log2_lor by lia. apply Z.max_lub_lt; apply Z.log2_lt_pow2; lia.
Qed.

Lemma new_node_blank ts dir ty mode uid gid copysgid : creatable ty → blank (new_node ts dir ty mode uid gid copysgid).
Proof.
  intros Hty. assert (n_type (new_node ts dir ty mode uid gid copysgid) = ty) as Ht by done.
  assert (n_data (new_node ts dir ty mode uid gid copysgid) = new_data ty) as Hd by done.
  split; unfold children, elems, links, dir_stats, shape_ok, is_file; rewrite ?Ht, ?Hd; try done.
  - destruct Hty as [->|[->|[->|[->|[->|[->| ->]]]]]]; cbn; auto.
  - unfold new_node, u12. simpl. pose proof (Z.mod_pos_bound mode (2 ^ 12)).
    case_if; [|change (2 ^ 12) with 4096 in *; lia].
    assert (0 ≤ Z.lor (mode `mod` 2 ^ 12) 0x400 < 2 ^ 12); [|change (2 ^ 12) with 4096 in *; lia]. apply lor_bound; lia.
  - destruct Hty as [->|[->|[->|[->|[->|[->| ->]]]]]]; done.
  - destruct Hty as [->|[->|[->|[->|[->|[->| ->]]]]]]; done.
  - destruct Hty as [->|[->|[->|[->|[->|[->| ->]]]]]]; done.
  - destruct Hty as [->|[->|[->|[->|[->|[->| ->]]]]]]; cbn; intros st H; by simplify_eq.
  - destruct Hty as [->|[->|[->|[->|[->|[->| ->]]]]]]; done.
Qed.

(** The counters of a class. *)
Lemma sclass_ref_follows d sc ty t sc' :
  let n := t_vars t in let n' := t_vars (sclass_ref d sc ty t) in
  follows 32 (default (0, 0) (v_sclass n !! sc')).1 (default (0, 0) (v_sclass n' !! sc')).1
    (if ((ty =? TYPE_FILE) || (ty =? TYPE_TRASH) || (ty =? TYPE_SUSTAINED)) && (sc =? sc') then d else 0) ∧
  follows 32 (default (0, 0) (v_sclass n !! sc')).2 (default (0, 0) (v_sclass n' !! sc')).2
    (if (ty =? TYPE_DIRECTORY) && (sc =? sc') then d else 0).
Proof.
  cbv zeta. unfold sclass_ref. destruct (default (0, 0) (v_sclass (t_vars t) !! sc)) as [files dirs] eqn:Hfd. simpl.
  rewrite lookup_insert. destruct (Z.eqb_spec sc sc') as [<-|Hne]; [rewrite decide_True by done|rewrite decide_False by done; rewrite !andb_false_r; split; by right].
  rewrite Hfd, !andb_true_r. simpl. destruct (Z.eqb_spec ty TYPE_DIRECTORY) as [->|]; simpl; [split; [by right|by left]|].
  destruct (_ || _); simpl; split; (by left) || (by right).
Qed.

Lemma sclass_ref_vars d sc ty t : t_vars (sclass_ref d sc ty t) =
  mk_vars (nextedgeid (t_vars t)) (trashspace (t_vars t)) (sustainedspace (t_vars t)) (trashnodes (t_vars t)) (sustainednodes (t_vars t))
    (filenodes (t_vars t)) (dirnodes (t_vars t)) (nodes (t_vars t)) (v_sclass (t_vars (sclass_ref d sc ty t))) ∧
  sclass_ref d sc ty t = with_vars (t_vars (sclass_ref d sc ty t)) t.
Proof. unfold sclass_ref. by destruct (default _ _). Qed.

Lemma create_counters t n ty sc :
  creatable ty → n_type n = ty → n_sclassid n = sc →
  counters_follow None (Some n) (t_vars t)
    (t_vars (sclass_incref sc ty (add_nodes (if ty =? TYPE_FILE then 1 else 0) (if ty =? TYPE_DIRECTORY then 1 else 0) 1 t))).
Proof.
  intros Hty Ht Hsc. unfold sclass_incref. set (t1 := add_nodes _ _ _ t).
  destruct (sclass_ref_vars 1 sc ty t1) as [Hv _]. pose proof (sclass_ref_follows 1 sc ty t1) as Hf. cbv zeta in Hf.
  split; [rewrite Hv..|intros sc'; destruct (Hf sc') as [Hf1 Hf2]; split];
    unfold weight_of, space_of_type, of_type, weight_files, weight_class_files, weight_class_dirs, is_file; simpl;
    rewrite ?Ht, ?Hsc; try (destruct Hty as [->|[->|[->|[->|[->|[->| ->]]]]]]; simpl; (by right) || (by left)).
  - destruct Hty as [->|[->|[->|[->|[->|[->| ->]]]]]]; simpl in *; rewrite ?Z.sub_0_r; exact Hf1.
  - destruct Hty as [->|[->|[->|[->|[->|[->| ->]]]]]]; simpl in *; rewrite ?Z.sub_0_r; exact Hf2.
Qed.

Lemma frozen_with_flags pf df k k' n m : frozen n = frozen m → frozen (with_flags pf df k n) = frozen (with_flags pf df k' m).
Proof.
  destruct n as [???????????????? d], m as [???????????????? d']. unfold frozen, erase, core. simpl. intros H.
  destruct d, d'; simpl in *; injection H; intros; subst; done.
Qed.

(** The lists and the mode of the new node. *)
Lemma create_lists X p pn i ty mode cumask t :
  tree_inv X t → t_nodes t !! p = Some pn → t_nodes t !! i = None →
  ∃ ret mode' acls,
    (if n_acldefflag pn then posix_acl_copydefaults p i (ty =? TYPE_DIRECTORY) mode (t_acls t)
     else Some (0, Z.land mode (Z.lnot cumask), t_acls t)) = Some (ret, mode', acls) ∧
    (∀ j ty, j ≠ i → acls !! (j, ty) = t_acls t !! (j, ty)) ∧
    (∀ ty l, acls !! (i, ty) = Some l → acl_ok l ∧ (ty = POSIX_ACL_ACCESS ∨ ty = POSIX_ACL_DEFAULT)) ∧
    (flag ret 1 = true ↔ is_Some (acls !! (i, POSIX_ACL_ACCESS))) ∧ (flag ret 2 = true ↔ is_Some (acls !! (i, POSIX_ACL_DEFAULT))).
Proof.
  intros Hinv Hp Hi. destruct (ti_fs _ _ (ti_struct _ _ Hinv)) as [_ _ [L1 L2 L3]]. simpl in *.
  assert (∀ ty, t_acls t !! (i, ty) = None) as Hnone.
  { intros ty'. destruct (t_acls t !! (i, ty')) as [l|] eqn:Hl; [|done]. destruct (L2 i ty' l Hl) as (w & Hw & _).
    unfold view in Hw. by rewrite lookup_fmap, Hi in Hw. }
  destruct (n_acldefflag pn).
  - apply copydefaults_lists; [|done]. intros l Hl. by destruct (L1 _ _ _ Hl).
  - do 3 eexists. split; [done|]. split; [done|]. rewrite !Hnone. split; [intros ty' l Hl; by rewrite Hnone in Hl|].
    split; split; try done; by intros [].
Qed.

Lemma create_node_inv X ts p name ty mode cumask uid gid copysgid t pn :
  tree_inv X t → t_nodes t !! p = Some pn → n_type pn = TYPE_DIRECTORY → t_names t !! (p, name) = None →
  creatable ty → room (t_ids t) →
  ∃ i t' ed n mode', fsnodes_create_node ts p name ty mode cumask uid gid copysgid t = Some (i, t') ∧ tree_inv X t' ∧
    t_nodes t !! i = None ∧ e_child ed = i ∧ e_parent ed = Some p ∧ e_name ed = name ∧
    t_edges t' = <[t_edgenext t := ed]> (t_edges t) ∧ t_names t' = <[(p, name) := t_edgenext t]> (t_names t) ∧
    t_nodes t' !! i = Some n ∧ n_parents n = [t_edgenext t] ∧
    (∀ pf df, frozen (with_flags pf df true n) =
       frozen (with_flags pf df true (fix_ratio (new_node ts pn ty mode' uid gid copysgid)))) ∧
    nodes_rel (λ j m m', j ≠ i → frozen m' = frozen m) (put i n t) t'.
Proof.
  intros Hinv Hp Hpt Hname Hty Hroom.
  destruct (pool_inv_alloc _ _ (ti_pool _ _ (ti_struct _ _ Hinv)) Hroom) as (i & ids & Hget & Hpool & _ & Hlive & _).
  assert (t_nodes t !! i = None) as Hi by (destruct (t_nodes t !! i) eqn:E; [exfalso; apply Hlive; eauto|done]).
  destruct (create_lists X p pn i ty mode cumask t Hinv Hp Hi) as (ret & mode' & acls & Hlists & Hoth & Hok & Hr1 & Hr2).
  set (sc := if (ty =? TYPE_DIRECTORY) || (ty =? TYPE_FILE) then n_sclassid pn else 0).
  set (nn := new_node ts pn ty mode' uid gid copysgid).
  set (t0 := add_nodes (if ty =? TYPE_FILE then 1 else 0) (if ty =? TYPE_DIRECTORY then 1 else 0) 1 t).
  set (v := t_vars (sclass_incref sc ty t0)).
  assert (blank nn) as Hblank by (by apply new_node_blank).
  assert (tree_inv (i :: X) (with_new t i nn v ids)) as Hinv1.
  { apply new_node_inv; try done. by apply create_counters. }
  assert (i ≠ p) as Hne by congruence.
  destruct (link_inv sclasstab MaxECRedundancyLevel (i :: X) ts p i name (with_new t i nn v ids) nn)
    as (ed & t1 & Hec & Hep & Hen & Hlink & Hinv2 & Hlk).
  { done. } { unfold with_new. by rewrite lookup_put, decide_True. }
  { intros ->. destruct (co_root t (ti_coherent _ _ (ti_struct _ _ Hinv))) as (r & Hr & _). congruence. }
  { unfold may_insert. simpl. split; [|split; [done|]].
    - exists pn. by rewrite lookup_insert_ne.
    - split; [done|]. destruct (bl_type _ Hblank). split_and!; try done. intros Hd. split; [done|]. intros Ha.
      destruct (tc_last _ _ _ Ha) as (z & (x & e & Hx & _ & Hpar)%parent_of_view). unfold edge_parent in Hpar.
      destruct (t_edges (with_new t i nn v ids) !! e) as [ed|] eqn:He; [|done].
      destruct (co_parent _ (ti_coherent _ _ (ti_struct _ _ Hinv)) e ed i He Hpar) as (y & Hy & _). congruence. }
  { by left. }
  destruct Hlk as [Hnodes Hedges _ Hnames _ _ _ _ Hacls1 _]. rewrite Hep, Hen in Hnames.
  assert (t_nodes (with_new t i nn v ids) !! i = Some nn) as Hnn by (unfold with_new; by rewrite lookup_put, decide_True).
  destruct (nodes_rel_l _ _ _ _ _ Hnodes Hnn) as (n1 & Hn1 & [[Hk1 Hpar1 _ _ _] Hfr1]).
  rewrite Hec, Z.eqb_refl in Hfr1. rewrite Hec, Z.eqb_refl in Hpar1. rewrite (bl_parents _ Hblank) in Hpar1.
  assert (tree_inv X t1) as Hinv3.
  { eapply tree_inv_shrink; [exact Hinv2|]. intros n Hn. assert (n = n1) as -> by congruence. rewrite Hpar1.
    apply kind_inv in Hk1 as (-> & _). split; [done|]. by destruct (bl_type _ Hblank) as [? ?], 1. }
  assert (n_aclpermflag n1 = false ∧ n_acldefflag n1 = false) as [Hf1 Hf2].
  { apply kind_inv in Hk1 as (_ & _ & _ & -> & -> & _). apply (bl_flags _ Hblank). }
  exists i, (put i (with_flags (flag ret 1) (flag ret 2) (n_keepmode n1) n1) (with_acls acls t1)), ed,
    (with_flags (flag ret 1) (flag ret 2) (n_keepmode n1) n1), mode'. split_and!; try done.
  - unfold FsTree.fsnodes_create_node. fold t0. change (t_ids t0) with (t_ids t). rewrite Hget. cbn [mbind option_bind].
    change (t_nodes (with_ids ids t0)) with (t_nodes t). rewrite Hp. cbn [mbind option_bind]. fold sc.
    assert (sclass_incref sc ty (with_ids ids t0) = with_ids ids (with_vars v t)) as ->.
    { unfold sclass_incref. rewrite (proj2 (sclass_ref_vars 1 sc ty (with_ids ids t0))). unfold v, sclass_incref, sclass_ref.
      by destruct (default _ _). }
    change (t_acls (with_ids ids (with_vars v t))) with (t_acls t). rewrite Hlists. cbn [mbind option_bind]. fold nn.
    change (put i nn (with_acls acls (with_ids ids (with_vars v t)))) with (with_acls acls (with_new t i nn v ids)).
    rewrite link_acls, Hlink. cbn [mbind option_bind fmap option_fmap option_map].
    change (t_nodes (with_acls acls t1)) with (t_nodes t1). rewrite Hn1. done.
  - apply install_lists_inv; try done. intros j ty' Hj. rewrite Hacls1. by apply Hoth.
  - unfold put. simpl. apply lookup_insert_eq.
  - intros pf df. exact (frozen_with_flags pf df true true _ _ Hfr1).
  - intros j. specialize (Hnodes j). rewrite !lookup_put. case_decide as Hj; [by constructor|]. unfold with_new in Hnodes.
    rewrite lookup_put, decide_False in Hnodes by done. simpl in *. destruct Hnodes as [m m' [_ Hfr]|]; constructor. intros _.
    rewrite Hec in Hfr. destruct (Z.eqb_spec j i); congruence.
Qed.

End with_classes.

(** ** [fsnodes_remove_node] *)

Lemma emit_nil t : emit [] t = t.
Proof. unfold emit. rewrite app_nil_r. by destruct t. Qed.
Lemma emit_emit a b t : emit b (emit a t) = emit (a ++ b) t.
Proof. unfold emit. simpl. by rewrite app_assoc. Qed.
Lemma emit_ids p cs t : with_ids p (emit cs t) = emit cs (with_ids p t).
Proof. done. Qed.
Lemma emit_vars v cs t : with_vars v (emit cs t) = emit cs (with_vars v t).
Proof. done. Qed.
Lemma with_acls_acls a b t : with_acls a (with_acls b t) = with_acls a t.
Proof. done. Qed.
Lemma vars_add_nodes v a b c t : with_vars v (add_nodes a b c t) = with_vars v t.
Proof. done. Qed.
Lemma with_acls_id a t : t_acls t = a → t = with_acls a t.
Proof. intros <-. by destruct t. Qed.

(** The counters after it, when those of the trash and the sustained files have been
    changed before. *)
Lemma remove_counters v0 t n :
  follows 64 (trashspace v0) (trashspace (t_vars t)) (- space_of_type TYPE_TRASH n) →
  follows 64 (sustainedspace v0) (sustainedspace (t_vars t)) (- space_of_type TYPE_SUSTAINED n) →
  follows 32 (trashnodes v0) (trashnodes (t_vars t)) (- of_type TYPE_TRASH n) →
  follows 32 (sustainednodes v0) (sustainednodes (t_vars t)) (- of_type TYPE_SUSTAINED n) →
  filenodes (t_vars t) = filenodes v0 → dirnodes (t_vars t) = dirnodes v0 → nodes (t_vars t) = nodes v0 →
  v_sclass (t_vars t) = v_sclass v0 →
  counters_follow (Some n) None v0
    (t_vars (sclass_decref (n_sclassid n) (n_type n)
       (add_nodes (if is_file n then -1 else 0) (if n_type n =? TYPE_DIRECTORY then -1 else 0) (-1) t))).
Proof.
  intros F1 F2 F3 F4 E5 E6 E7 E8. unfold sclass_decref. set (t1 := add_nodes _ _ _ t). set (sc := n_sclassid n). set (ty := n_type n).
  destruct (sclass_ref_vars (-1) sc ty t1) as [Hv _]. pose proof (sclass_ref_follows (-1) sc ty t1) as Hf. cbv zeta in Hf.
  change (v_sclass (t_vars t1)) with (v_sclass (t_vars t)) in Hf. rewrite E8 in Hf.
  split; [rewrite Hv..|intros sc'; destruct (Hf sc') as [Hf1 Hf2]; split]; simpl; try done.
  - left. rewrite E5. unfold u32, weight_files. by destruct (is_file n).
  - left. rewrite E6. unfold u32, of_type. fold ty. by destruct (ty =? TYPE_DIRECTORY).
  - left. by rewrite E7.
  - unfold weight_class_files, is_file. fold ty sc. simpl in Hf1.
    destruct (((ty =? TYPE_FILE) || (ty =? TYPE_TRASH) || (ty =? TYPE_SUSTAINED)) && (sc =? sc')); exact Hf1.
  - unfold weight_class_dirs. fold ty sc. simpl in Hf2. destruct ((ty =? TYPE_DIRECTORY) && (sc =? sc')); exact Hf2.
Qed.

Lemma remove_node_inv X ts i n v0 t :
  tree_inv (i :: X) (with_vars v0 t) → t_nodes t !! i = Some n → i ≠ MFS_ROOT_ID → n_parents n = [] → children n = [] →
  counters_follow (Some n) None v0
    (t_vars (sclass_decref (n_sclassid n) (n_type n)
       (add_nodes (if is_file n then -1 else 0) (if n_type n =? TYPE_DIRECTORY then -1 else 0) (-1) t))) →
  ∃ v acls cs, fsnodes_remove_node ts i t = Some (without t i v (fsnodes_free_id i ts (t_ids t)) acls cs) ∧
    tree_inv X (without t i v (fsnodes_free_id i ts (t_ids t)) acls cs).
Proof.
  intros Hinv Hn Hroot Hpar Hch Hctr. destruct (ti_fs _ _ (ti_struct _ _ Hinv)) as [_ _ [L1 L2 L3]]. simpl in L1, L2, L3.
  set (t1 := add_nodes (if is_file n then -1 else 0) (if n_type n =? TYPE_DIRECTORY then -1 else 0) (-1) t).
  set (v := t_vars (sclass_decref (n_sclassid n) (n_type n) t1)).
  set (a1 := if n_aclpermflag n then posix_acl_remove i POSIX_ACL_ACCESS (t_acls t) else t_acls t).
  set (a2 := if n_acldefflag n then posix_acl_remove i POSIX_ACL_DEFAULT a1 else a1).
  set (c1 := if is_file n then match n_data n with fdata _ ct _ _ => (λ c, ChunkDeleteFile c (n_sclassid n)) <$> filter (λ c, 0 < c) ct | _ => [] end else []).
  set (c2 := if n_xattrflag n then [XattrRemoveinode i] else []).
  exists v, a2, (c1 ++ c2 ++ [DcmModify i 0]). split.
  - unfold fsnodes_remove_node. rewrite Hn. cbn [mbind option_bind]. rewrite Hpar.
    pose proof (co_shape _ (ti_coherent _ _ (ti_struct _ _ Hinv)) i n Hn) as Hsh.
    set (s1 := add_nodes _ _ _ (with_nodes (delete i (t_nodes t)) t)).
    match goal with |- (?x ≫= _) = _ => assert (x = Some (emit c1 s1)) as -> end.
    { unfold c1. destruct (is_file n) eqn:Hf; [destruct (file_data n Hsh Hf) as (?&?&?&?&->); done|].
      unfold emit. rewrite app_nil_r. by destruct s1. }
    cbn [mbind option_bind]. f_equal.
    assert (sclass_decref (n_sclassid n) (n_type n) (emit c1 s1) = with_vars v (emit c1 s1)) as ->.
    { unfold sclass_decref. rewrite (proj2 (sclass_ref_vars (-1) _ _ (emit c1 s1))). unfold v, sclass_decref, sclass_ref. by destruct (default _ _). }
    set (s2 := with_ids _ (with_vars v (emit c1 s1))).
    assert ((if n_xattrflag n then emit [XattrRemoveinode i] s2 else s2) = emit c2 s2) as -> by (unfold c2; case_if; [done|by rewrite emit_nil]).
    assert ((if n_aclpermflag n then with_acls (posix_acl_remove i POSIX_ACL_ACCESS (t_acls (emit c2 s2))) (emit c2 s2) else emit c2 s2) =
      with_acls a1 (emit c2 s2)) as -> by (unfold a1; case_if; [done|by apply with_acls_id]).
    set (s3 := with_acls a1 (emit c2 s2)).
    assert ((if n_acldefflag n then with_acls (posix_acl_remove i POSIX_ACL_DEFAULT (t_acls s3)) s3 else s3) =
      with_acls a2 s3) as -> by (unfold a2; case_if; [done|by apply with_acls_id]).
    unfold s3, s2, s1, without. rewrite with_acls_acls, emit_vars, vars_add_nodes, emit_ids, emit_emit.
    rewrite <- (fr_emit (F := with_acls a2)), emit_emit, <- app_assoc. done.
  - apply (gone_node_inv X (with_vars v0 t) i n); try done.
    + apply pool_inv_free; [|by eexists]. apply (ti_pool _ _ (ti_struct _ _ Hinv)).
    + intros [j ty]. simpl. assert (∀ ty', is_Some (t_acls t !! (i, ty')) →
        (ty' = POSIX_ACL_ACCESS ∧ n_aclpermflag n = true) ∨ (ty' = POSIX_ACL_DEFAULT ∧ n_acldefflag n = true)) as Hflags.
      { intros ty' [l Hl]. destruct (L1 _ _ _ Hl) as [_ Hty]. destruct (L2 _ _ _ Hl) as (w & Hw & Hf). unfold view in Hw.
        change (t_nodes (with_vars v0 t)) with (t_nodes t) in Hw. rewrite lookup_fmap, Hn in Hw. injection Hw as <-. unfold acl_flag in Hf. simpl in Hf. destruct Hty as [-> | ->]; simpl in Hf; tauto. }
      unfold a2, a1, posix_acl_remove. case_decide as Hj; [subst j|].
      * destruct (t_acls t !! (i, ty)) as [l|] eqn:Hl.
        -- destruct (Hflags ty) as [[-> ->]|[-> ->]]; [by eexists|..].
           ++ destruct (n_acldefflag n); rewrite ?lookup_delete_ne by done; apply lookup_delete_eq.
           ++ apply lookup_delete_eq.
        -- destruct (n_acldefflag n), (n_aclpermflag n); rewrite ?lookup_delete; repeat case_decide; done.
      * destruct (n_acldefflag n), (n_aclpermflag n); rewrite ?lookup_delete_ne by congruence; done.
Qed.
