(* ===== verification/FsWalks.v ===== *)
(** * Walks towards the root

    The walks that change nothing return: paths, the tests of quotas, the search for a
    node and the test of rights.  All of them go from a node to the directories it is
    in; [upward_ind] is the induction they share: no walk is longer than the number
    of nodes, for no directory is below itself. *)

From S2P Require Import Prelude MfsComm FreeInodes StorageClass DataPack FsNodes PosixAcl FsAccess AclFacts AclProps FsTree FsStats FsTreeInv FsTreeEdges FsOps.

(** A property of all nodes, with the fuel a walk from the node needs. *)
Lemma upward_ind (P : nat → Z → Prop) t :
  tree_ok (view t) →
  (∀ fuel p n, (0 < fuel)%nat → t_nodes t !! p = Some n → (∀ q, parent_of (view t) p q → P fuel q) → P (S fuel) p) →
  ∀ fuel p, is_Some (t_nodes t !! p) → (S (size (t_nodes t)) < fuel)%nat → P fuel p.
Proof.
  intros Htree Hstep.
  assert (∀ fuel p n (seen : gset Z), t_nodes t !! p = Some n → (∀ x, x ∈ seen → ancestor (view t) x p) →
    seen ⊆ dom (t_nodes t) → (S (size (t_nodes t)) < size seen + fuel)%nat → P fuel p) as Hall.
  2: { intros fuel p [n Hn] Hsize. apply (Hall fuel p n ∅ Hn); [set_solver|set_solver|]. rewrite size_empty. lia. }
  induction fuel as [|fuel IH]; intros p n seen Hp Hseen Hdom Hsize.
  { exfalso. pose proof (subseteq_size _ _ Hdom) as Hle. rewrite size_dom in Hle. lia. }
  assert (p ∉ seen) as Hnew by (intros Hin; by apply (tree_acyclic _ Htree p), Hseen).
  assert ({[p]} ∪ seen ⊆ dom (t_nodes t)) as Hdom'.
  { apply union_subseteq. split; [|done]. apply singleton_subseteq_l, elem_of_dom. eauto. }
  pose proof (subseteq_size _ _ Hdom') as Hle. rewrite size_dom, size_union, size_singleton in Hle by set_solver.
  apply (Hstep fuel p n); [lia|done|]. intros q Hpq.
  destruct (tree_dir _ Htree p q Hpq) as (v & Hv & _). unfold view in Hv. rewrite lookup_fmap in Hv.
  destruct (t_nodes t !! q) as [qn|] eqn:Hq; [|done].
  apply (IH q qn ({[p]} ∪ seen) Hq); [|done|].
  - intros x [->%elem_of_singleton|Hx]%elem_of_union; [by apply tc_once|]. eapply tc_r; [by apply Hseen|done].
  - rewrite size_union, size_singleton by set_solver. lia.
Qed.

Lemma upward_top (P : nat → Z → Prop) X t :
  struct_inv X t →
  (∀ fuel p n, (0 < fuel)%nat → t_nodes t !! p = Some n → (∀ q, parent_of (view t) p q → P fuel q) → P (S fuel) p) →
  ∀ p, is_Some (t_nodes t !! p) → P (climb_fuel t) p.
Proof.
  intros Hinv Hstep p Hp. apply (upward_ind P t (fs_tree _ (ti_fs _ _ Hinv)) Hstep); [done|]. unfold climb_fuel. lia.
Qed.

(** A link to a directory has a name: files without a name are not directories. *)
Lemma dir_edge_parent X t p n e ed :
  struct_inv X t → t_nodes t !! p = Some n → n_type n = TYPE_DIRECTORY → e ∈ n_parents n → t_edges t !! e = Some ed →
  ∃ q, e_parent ed = Some q ∧ parent_of (view t) p q.
Proof.
  intros Hinv Hp Ht Hin He. destruct (co_parents t (ti_coherent _ _ Hinv) p n e Hp Hin) as (ed' & He' & Hch).
  assert (ed' = ed) as -> by congruence. destruct (e_parent ed) as [q|] eqn:Hq.
  - exists q. split; [done|]. by eapply view_edge_parent.
  - exfalso. destruct (de_edge _ _ (ti_detached _ _ Hinv) e ed He Hq) as (m & Hm & Hor). rewrite Hch in Hm.
    assert (m = n) as -> by congruence. destruct Hor as [[Hty _]|[Hty _]]; by rewrite Ht in Hty.
Qed.

(** ** Paths *)

Lemma path_names_total X t p n :
  struct_inv X t → t_nodes t !! p = Some n → n_type n = TYPE_DIRECTORY →
  ∃ names, path_names (climb_fuel t) t (Some p) = Some names.
Proof.
  intros Hinv Hp Ht. pose proof (ti_coherent _ _ Hinv) as Hco.
  apply (upward_top (λ fuel p, ∀ n, t_nodes t !! p = Some n → n_type n = TYPE_DIRECTORY →
    ∃ names, path_names fuel t (Some p) = Some names) X t Hinv) with (n := n); [|by eexists|done|done].
  clear p n Hp Ht. intros fuel p n0 _ Hp0 IH n Hp Ht. cbn [path_names]. cbn [mbind option_bind].
  case_if; [by eexists|]. rewrite Hp. cbn [mbind option_bind].
  destruct (n_parents n) as [|e es] eqn:Hpar; [by eexists|].
  destruct (co_parents t Hco p n e Hp) as (ed & He & _); [rewrite Hpar; by left|]. rewrite He. cbn [mbind option_bind].
  destruct (dir_edge_parent X t p n e ed Hinv Hp Ht) as (q & -> & Hpq); [rewrite Hpar; by left|done|].
  destruct (tree_dir _ (fs_tree _ (ti_fs _ _ Hinv)) p q Hpq) as (v & Hv & Hvt). simpl in Hv. unfold view in Hv. rewrite lookup_fmap in Hv.
  destruct (t_nodes t !! q) as [qn|] eqn:Hq; [|done]. injection Hv as <-.
  destruct (IH q Hpq qn Hq Hvt) as (names & ->). by eexists.
Qed.

Lemma getpath_total X e ed p t : tree_inv X t → t_edges t !! e = Some ed → e_parent ed = Some p → is_Some (fsnodes_getpath e t).
Proof.
  intros Hinv He Hp. destruct (co_parent t (ti_coherent _ _ (ti_struct _ _ Hinv)) e ed p He Hp) as (n & Hn & Ht & _).
  unfold fsnodes_getpath. rewrite He. cbn [mbind option_bind]. rewrite Hp.
  destruct (path_names_total X t p n (ti_struct _ _ Hinv) Hn Ht) as (names & ->).
  cbn [mbind option_bind]. match goal with |- context [match ?x with O => _ | S _ => _ end] => destruct x end; by eexists.
Qed.

(** ** Quotas *)

Lemma any_opt_total {A} (f : A → option bool) l : (∀ x, x ∈ l → is_Some (f x)) → is_Some (any_opt f l).
Proof.
  induction l as [|x l IH]; intros Hf; cbn [any_opt]; [by eexists|]. destruct (Hf x) as [b ->]; [by left|]. cbn [mbind option_bind].
  destruct b; [by eexists|]. apply IH. intros y Hy. apply Hf. by right.
Qed.

Lemma test_quota_total X t p i l s r : struct_inv X t → is_Some (t_nodes t !! p) → is_Some (fsnodes_test_quota p i l s r t).
Proof.
  intros Hinv Hp. pose proof (ti_coherent _ _ Hinv) as Hco. unfold fsnodes_test_quota.
  apply (upward_top (λ fuel p, is_Some (test_quota_loop fuel t (Some p) i l s r)) X t Hinv); [|done].
  clear p Hp. intros fuel p n Hfuel Hp IH. cbn [test_quota_loop]. rewrite Hp. cbn [mbind option_bind].
  repeat (case_if; [by eexists|]). apply any_opt_total. intros e Hin.
  destruct (co_parents t Hco p n e Hp Hin) as (ed & He & _). rewrite He. cbn [mbind option_bind].
  destruct (e_parent ed) as [q|] eqn:Hq.
  - apply IH. by eapply view_edge_parent.
  - destruct fuel; [lia|]. by eexists.
Qed.

Lemma dir_data n : shape_ok n → n_type n = TYPE_DIRECTORY → ∃ cs nl el st q, n_data n = ddata cs nl el st q.
Proof.
  unfold shape_ok, is_file. intros Hs Ht. rewrite Ht in Hs. destruct (n_data n); [by eexists _, _, _, _, _| |destruct Hs|..|destruct Hs]; done.
Qed.

(** The nodes a walk for quotas passes. *)
Lemma quota_nodes_total X t p n :
  struct_inv X t → t_nodes t !! p = Some n → n_type n = TYPE_DIRECTORY →
  ∃ l, quota_nodes (climb_fuel t) t p [] = Some l ∧ ∀ i, i ∈ l → is_Some (t_nodes t !! i).
Proof.
  intros Hinv Hp Ht. pose proof (ti_coherent _ _ Hinv) as Hco.
  assert (∀ i : Z, i ∈ @nil Z → is_Some (t_nodes t !! i)) as Hnil by (by intros i ?%not_elem_of_nil).
  revert Hnil. generalize (@nil Z) as acc.
  apply (upward_top (λ fuel p, ∀ n, t_nodes t !! p = Some n → n_type n = TYPE_DIRECTORY → ∀ acc : list Z,
    (∀ i, i ∈ acc → is_Some (t_nodes t !! i)) → ∃ l, quota_nodes fuel t p acc = Some l ∧ ∀ i, i ∈ l → is_Some (t_nodes t !! i))
    X t Hinv) with (n := n); [|by eexists|done|done].
  clear p n Hp Ht. intros fuel p n0 _ Hp0 IH n Hp Ht acc Hacc. cbn [quota_nodes]. rewrite Hp. cbn [mbind option_bind].
  destruct (dir_data n (co_shape t Hco p n Hp) Ht) as (cs & nl & el & st & q & ->).
  set (acc' := match q with Some _ => p :: acc | None => acc end).
  assert (∀ i, i ∈ acc' → is_Some (t_nodes t !! i)) as Hacc'.
  { unfold acc'. destruct q; [|done]. intros i [->|?]%elem_of_cons; [by eexists|auto]. }
  pose proof (tree_one _ (fs_tree _ (ti_fs _ _ Hinv)) p (node_view t n) (view_lookup t p n Hp) Ht) as Hone. unfold node_view in Hone.
  simpl in Hone. rewrite length_fmap in Hone.
  destruct (n_parents n) as [|e [|]] eqn:Hpar; [by eexists| |simpl in Hone; lia].
  destruct (co_parents t Hco p n e Hp) as (ed & He & _); [rewrite Hpar; by left|]. rewrite He. cbn [mbind option_bind].
  destruct (dir_edge_parent X t p n e ed Hinv Hp Ht) as (q' & -> & Hpq); [rewrite Hpar; by left|done|].
  destruct (tree_dir _ (fs_tree _ (ti_fs _ _ Hinv)) p q' Hpq) as (v & Hv & Hvt). simpl in Hv. unfold view in Hv. rewrite lookup_fmap in Hv.
  destruct (t_nodes t !! q') as [qn|] eqn:Hq; [|done]. injection Hv as <-. by apply (IH q' Hpq qn).
Qed.

Lemma skip_common_elem i d s : i ∈ skip_common d s → i ∈ d.
Proof.
  revert s. induction d as [|x d IH]; intros [|y s]; cbn [skip_common]; try done. case_if; [|done]. intros Hi. right. by eapply IH.
Qed.

Lemma test_all_total X t l i len s r ret :
  struct_inv X t → (∀ x, x ∈ l → is_Some (t_nodes t !! x)) → is_Some (test_all t l i len s r ret).
Proof.
  intros Hinv. revert ret. induction l as [|x l IH]; intros ret Hl; cbn [test_all]; [by eexists|].
  destruct (test_quota_total X t x i len s r Hinv) as [b ->]; [apply Hl; by left|]. cbn [mbind option_bind]. apply IH. intros y Hy. apply Hl. by right.
Qed.

Lemma uncommon_total X t d s dn sn i len sz r :
  struct_inv X t → t_nodes t !! d = Some dn → n_type dn = TYPE_DIRECTORY → t_nodes t !! s = Some sn → n_type sn = TYPE_DIRECTORY →
  is_Some (fsnodes_test_quota_for_uncommon_nodes d s i len sz r t).
Proof.
  intros Hinv Hd Hdt Hs Hst. unfold fsnodes_test_quota_for_uncommon_nodes. case_if; [by eexists|].
  destruct (quota_nodes_total X t d dn Hinv Hd Hdt) as (ld & -> & Hld). cbn [mbind option_bind].
  destruct (quota_nodes_total X t s sn Hinv Hs Hst) as (ls & -> & _). cbn [mbind option_bind].
  apply (test_all_total X); [done|]. intros x Hx. by eapply Hld, skip_common_elem.
Qed.

(** ** Rights and the search for a node *)

Lemma may_total X t sesflags i n uid gid m : struct_inv X t → is_Some (may sesflags i n uid gid m t).
Proof.
  intros Hinv. unfold may. case_if; [by eexists|].
  destruct (access_total (t_acls t) i (node_view t n) uid gid m sesflags) as [b ->]; [|by eexists].
  intros l Hl. by apply (acl_inv_ok _ (fs_lists _ (ti_fs _ _ Hinv)) i POSIX_ACL_ACCESS l).
Qed.

Lemma find_total X t rootinode sesflags i skip :
  struct_inv X t → ∃ found, fsnodes_node_find_ext (view t) rootinode sesflags i skip = Some found ∧
    ∀ j, found = Some j → ∃ n, t_nodes t !! j = Some n.
Proof.
  intros Hinv. destruct (find_ext_ok (view t) rootinode sesflags i skip (fs_tree _ (ti_fs _ _ Hinv))) as (found & -> & Hf).
  exists found. split; [done|]. intros j Hj. destruct (Hf j Hj) as [v Hv]. unfold view in Hv. rewrite lookup_fmap in Hv.
  destruct (t_nodes t !! j); [by eexists|done].
Qed.
