(* ===== verification/FsTreeUnlink.v ===== *)
(** * Removal of links

    [fsnodes_unlink] and [fsnodes_purge] return, and keep the invariant: a file that
    loses its last name is removed, goes to the trash or is kept for those who have it
    open. *)

From S2P Require Import Prelude MfsComm FreeInodes StorageClass DataPack FsNodes PosixAcl FsAccess AclFacts FsTree FsStats FsTreeInv FsTreeEdges FsTreeLink FsTreeNodes FsTreeOps FsWalks.

(** ** Detachment *)

Lemma detach_inv X trash c path t n :
  tree_inv (c :: X) t → t_nodes t !! c = Some n → n_parents n = [] → c ≠ MFS_ROOT_ID →
  n_type n = (if trash : bool then TYPE_TRASH else TYPE_SUSTAINED) →
  ∃ t', detach trash c path t = Some t' ∧ tree_inv X t' ∧ t_nodes t' = <[c := with_parents [t_edgenext t] n]> (t_nodes t) ∧
    t_names t' = t_names t ∧
    ∃ ed, t_edges t' = <[t_edgenext t := ed]> (t_edges t) ∧ e_child ed = c ∧ e_parent ed = None ∧ e_name ed = path.
Proof.
  intros Hinv Hn Hpar Hroot Hty. pose proof (ti_coherent _ _ (ti_struct _ _ Hinv)) as Hco.
  set (e := t_edgenext t).
  set (ed := mk_fsedge c None (if nextedgeid (t_vars t) <? EDGEID_MAX then nextedgeid (t_vars t) else 0) path).
  set (ta := (fsedge_new c None path t).2).
  set (tb := if trash then with_detached (<[c `mod` TRASH_BUCKETS := e :: bucket (c `mod` TRASH_BUCKETS) (t_trash ta)]> (t_trash ta)) (t_sustained ta) ta
             else with_detached (t_trash ta) (<[c `mod` SUSTAINED_BUCKETS := e :: bucket (c `mod` SUSTAINED_BUCKETS) (t_sustained ta)]> (t_sustained ta)) ta).
  assert (t_nodes tb = t_nodes t) as Hnb by (unfold tb; by destruct trash).
  assert (t_edges tb = <[e := ed]> (t_edges t)) as Heb by (unfold tb; by destruct trash).
  assert (t_names tb = t_names t) as Hnmb by (unfold tb; by destruct trash).
  set (t' := put c (with_parents [e] n) tb).
  assert (nodes_rel (inserted_node e ed (n_type n =? TYPE_DIRECTORY)) t t') as Hrel.
  { intros j. unfold t'. rewrite lookup_put, Hnb. case_decide as Hj; [subst j; rewrite Hn; constructor|destruct (t_nodes t !! j) as [m|]; constructor].
    - split; simpl; rewrite ?Z.eqb_refl, ?Hpar; try done. by destruct (_ =? _).
    - assert ((j =? e_child ed) = false) as Hf by (apply Z.eqb_neq; simpl; congruence).
      split; rewrite ?Hf; try done. rewrite bool_decide_false by done. by destruct (n_type n =? TYPE_DIRECTORY). }
  assert (struct_inv (c :: X) t') as Hst'.
  { apply (insertion_struct (c :: X) t t' e ed n); try done; try (unfold t', tb; by destruct trash).
    - apply Hinv.
    - unfold may_insert. simpl. split; [done|]. rewrite Hty. destruct trash; [by left|by right].
    - unfold inserted_buckets. simpl. rewrite Hty. unfold t', tb. destruct trash; [left|right]; done. }
  assert (t_edges t !! e = None) as Hfresh by (eapply insertion_fresh; [apply Hinv|done]).
  exists t'. split; [|split; [|split; [|split; [|by exists ed]]]].
  - unfold detach. change (fsedge_new c None path t) with (e, ta). cbv iota zeta beta. fold tb. rewrite Hnb, Hn. done.
  - apply (tree_inv_shrink c).
    + split; [done|]. assert (∀ j, st_of t' j = st_of t j) as Hsts.
      { intros j. apply st_of_same. intros k. unfold t'. rewrite lookup_put, Hnb. case_decide; [subst k; rewrite Hn; by constructor|].
        destruct (t_nodes t !! k); by constructor. }
      intros j m st Hm Ht Hs. unfold t' in Hm. apply put_cases in Hm as [[-> ->]|[Hne Hm]].
      { simpl in Ht. rewrite Ht in Hty. by destruct trash. }
      rewrite Hnb in Hm. rewrite (dir_sum_ext t).
      * by apply (ti_stats _ _ Hinv j m).
      * intros e' Hin. destruct (co_children t Hco j m e' Hm Hin) as (ed' & He' & _). unfold edge_stats.
        change (t_edges t') with (t_edges tb). rewrite Heb, lookup_insert_ne, He' by congruence. apply Hsts.
    + intros m Hm. unfold t' in Hm. rewrite lookup_put, decide_True in Hm by done. injection Hm as <-. split; [done|]. intros _.
      exists e, ed. change (t_edges t') with (t_edges tb). rewrite Heb. split; [done|]. split; [apply lookup_insert_eq|done].
  - unfold t'. cbn [put with_nodes t_nodes]. by rewrite Hnb.
  - done.
Qed.

(** The counters of files without a name. *)
Definition retired (trash : bool) (len number : Z) : tree → tree := if trash then add_trash len number else add_sustained len number.
Definition retired_type (trash : bool) : Z := if trash then TYPE_TRASH else TYPE_SUSTAINED.

Lemma detach_retired trash tr len number c path t :
  detach tr c path (retired trash len number t) = retired trash len number <$> detach tr c path t.
Proof. unfold detach, retired. destruct trash, tr; simpl; by destruct (t_nodes t !! c). Qed.

Lemma retired_vars trash len number t : retired trash len number t = with_vars (t_vars (retired trash len number t)) t.
Proof. by destruct trash. Qed.

Lemma type_file_is_file n : n_type n = TYPE_FILE → is_file n = true.
Proof. unfold is_file. by intros ->. Qed.

(** A file without links becomes one of the trash or a sustained one. *)
Lemma retire_inv X trash c n n3 len cs path t :
  tree_inv (c :: X) t → t_nodes t !! c = Some n → n_type n = TYPE_FILE → n_parents n = [] → c ≠ MFS_ROOT_ID →
  file_length n = Some len → summary n3 = summary (with_type (retired_type trash) n) →
  ∃ t', detach trash c path (emit cs (put c n3 t)) = Some t' ∧ tree_inv X (retired trash len 1 t') ∧
    t_nodes t' = <[c := with_parents [t_edgenext t] n3]> (t_nodes t) ∧ t_names t' = t_names t ∧
    ∃ ed, t_edges t' = <[t_edgenext t := ed]> (t_edges t) ∧ e_parent ed = None.
Proof.
  intros Hinv Hn Hty Hpar Hroot Hlen Hsum. pose proof (ti_coherent _ _ (ti_struct _ _ Hinv)) as Hco.
  set (v := t_vars (retired trash len 1 t)). set (n2 := with_type (retired_type trash) n).
  assert (is_file n = true) as Hf by (by apply type_file_is_file).
  assert (is_file n2 = true) as Hf2 by (unfold n2, is_file; by destruct trash).
  assert (shape_ok n) as Hsh by (by eapply co_shape).
  assert (∀ e ed, t_edges t !! e = Some ed → e_child ed ≠ c) as Hnone.
  { intros e ed He Hc. destruct (co_child t Hco e ed He) as (m & Hm & Hin). assert (m = n) as -> by congruence.
    rewrite Hpar in Hin. by apply not_elem_of_nil in Hin. }
  assert (tree_inv (c :: X) (changed t c n2 v (t_trash t) (t_sustained t))) as Hinv2.
  { apply (file_change_inv (c :: X) t c n); try done.
    - apply Hinv.
    - destruct (file_data n Hsh Hf) as (?&?&?&?&Hd). unfold shape_ok. unfold n2. simpl. by rewrite Hd.
    - unfold n2, v, file_length in *. split; unfold weight_of, space_of_type, of_type, weight_files, weight_class_files, weight_class_dirs, is_file, file_length;
        simpl; rewrite ?Hty; destruct trash; simpl; rewrite ?Hlen; simpl; rewrite ?Z.sub_0_r; try (by left); try (by right);
        intros sc'; split; right; split; try done; destruct (n_sclassid n =? sc'); done.
    - apply Hinv.
    - unfold node_stats. rewrite Hf, Hf2. unfold n2. simpl. rewrite Hty. by destruct trash.
    - destruct (ti_detached _ _ (ti_struct _ _ Hinv)) as [D1 D2 D3 D4 D5].
      assert (∀ e ed m, t_edges t !! e = Some ed → t_nodes t !! e_child ed = Some m →
        t_nodes (changed t c n2 v (t_trash t) (t_sustained t)) !! e_child ed = Some m) as Hold.
      { intros e ed m He Hm. unfold changed. rewrite put_lookup_ne; [done|]. intros Hc. by apply (Hnone e ed). }
      split.
      + intros e ed He Hp. destruct (D1 e ed He Hp) as (m & Hm & ?). exists m. split; [by eapply Hold|done].
      + intros b e Hin. destruct (D2 b e Hin) as (ed & m & ? & ? & Hm & ? & ?). exists ed, m. split_and!; try done. by eapply Hold.
      + intros b e Hin. destruct (D3 b e Hin) as (ed & m & ? & ? & Hm & ? & ?). exists ed, m. split_and!; try done. by eapply Hold.
      + exact D4.
      + intros i m [[-> ->]|[Hne Hm]]%put_cases Ht Hx; [exfalso; apply Hx; by left|]. by apply (D5 i m). }
  set (T := emit cs (put c n3 (with_vars v t))).
  assert (tree_inv (c :: X) T) as HinvT.
  { eapply inv_same; [|exact Hinv2]. replace T with (emit cs (put c n3 (changed t c n2 v (t_trash t) (t_sustained t)))).
    - apply same_inv_put with (n := n2); [|done]. unfold changed. by rewrite lookup_put, decide_True.
    - unfold changed. by rewrite put_put. }
  destruct (detach_inv X trash c path T n3) as (t' & Hdet & Hinv' & Hnodes & Hnames & ed & Hedges & _ & Hep & _); try done.
  { unfold T. rewrite emit_nodes, lookup_put, decide_True by done. done. }
  { apply summary_inv in Hsum as (_ & -> & _). done. }
  { apply summary_inv in Hsum as ((-> & _)%core_inv & _). done. }
  assert (T = retired trash len 1 (emit cs (put c n3 t))) as HT by (unfold T, v; by destruct trash).
  rewrite HT, detach_retired in Hdet. destruct (detach trash c path (emit cs (put c n3 t))) as [t1|]; [|done].
  injection Hdet as <-. exists t1. split; [done|]. split; [done|].
  assert (t_nodes (retired trash len 1 t1) = t_nodes t1) as Hn1 by (by destruct trash).
  assert (t_names (retired trash len 1 t1) = t_names t1) as Hnm1 by (by destruct trash).
  assert (t_edges (retired trash len 1 t1) = t_edges t1) as He1 by (by destruct trash).
  rewrite Hn1 in Hnodes. rewrite Hnm1 in Hnames. rewrite He1 in Hedges. rewrite Hnodes, Hnames. split; [unfold T; simpl; by rewrite insert_insert_eq|].
  split; [done|]. by exists ed.
Qed.

(** The edges with a name are those of before but the ones that are gone. *)
Definition named_but (gone : positive → Prop) (t t' : tree) : Prop :=
  ∀ e ed, is_Some (e_parent ed) → t_edges t' !! e = Some ed ↔ ¬ gone e ∧ t_edges t !! e = Some ed.

Lemma named_but_delete e t t' : t_edges t' = delete e (t_edges t) → named_but (eq e) t t'.
Proof. intros Heq e' ed' _. rewrite Heq, lookup_delete_Some. naive_solver. Qed.

(** An edge without a name comes. *)
Lemma named_but_insert gone t t1 t' e ed :
  coherent t1 → named_but gone t t1 → t_edges t' = <[e := ed]> (t_edges t1) → e = t_edgenext t1 → e_parent ed = None → named_but gone t t'.
Proof.
  intros Hco Hbut Hedges He Hp e' ed' Hsome. pose proof (Hbut e' ed' Hsome) as Hiff. rewrite Hedges, lookup_insert_Some, <- Hiff.
  split; [intros [[_ Hed]|[_ ?]]; [|done]|].
  - exfalso. rewrite <- Hed, Hp in Hsome. by destruct Hsome.
  - intros Hold. right. split; [|done]. intros Heq. apply (co_fresh t1 Hco) in Hold. rewrite <- Heq, He in Hold. lia.
Qed.

(** ** [fsnodes_unlink] *)

(** A node under a name is not in the trash, and not the root. *)
Lemma named_child t e ed p cn :
  tree_inv [] t → t_edges t !! e = Some ed → e_parent ed = Some p → t_nodes t !! e_child ed = Some cn →
  e ∈ n_parents cn ∧ e_child ed ≠ MFS_ROOT_ID ∧ n_type cn ≠ TYPE_TRASH ∧ n_type cn ≠ TYPE_SUSTAINED.
Proof.
  intros Hinv He Hp Hcn. pose proof (ti_coherent _ _ (ti_struct _ _ Hinv)) as Hco.
  destruct (co_child t Hco e ed He) as (m & Hm & Hin). assert (m = cn) as -> by congruence. split; [done|]. split.
  - intros Hr. destruct (co_root t Hco) as (r & Hr' & _ & Hnil). rewrite Hr in Hcn. assert (r = cn) as -> by congruence.
    rewrite Hnil in Hin. by apply not_elem_of_nil in Hin.
  - assert (n_type cn = TYPE_TRASH ∨ n_type cn = TYPE_SUSTAINED → False) as Hno; [|tauto]. intros Ht.
    destruct (de_node _ _ (ti_detached _ _ (ti_struct _ _ Hinv)) _ cn Hcn Ht) as (e' & ed' & Hpar & He' & Hn'); [by apply not_elem_of_nil|].
    rewrite Hpar in Hin. apply list_elem_of_singleton in Hin. congruence.
Qed.

Section with_classes.
Variable sclasstab : Z → storageclass.
Variable MaxECRedundancyLevel : Z.
Variable of_isfileopen : Z → bool.
Variable KeepEmptyFilesInTrash : bool.
Abbreviation fsnodes_remove_edge := (fsnodes_remove_edge sclasstab MaxECRedundancyLevel).
Abbreviation fsnodes_unlink := (fsnodes_unlink sclasstab MaxECRedundancyLevel of_isfileopen KeepEmptyFilesInTrash).
Abbreviation gototrash := (gototrash of_isfileopen KeepEmptyFilesInTrash).

Lemma file_length_some n : shape_ok n → is_file n = true → is_Some (file_length n).
Proof. intros Hs Hf. destruct (file_data n Hs Hf) as (?&?&?&?&Hd). unfold file_length. rewrite Hd. by eexists. Qed.

Lemma gototrash_some i n : shape_ok n → ∃ b, gototrash i n = Some b ∧ (b = true → n_type n = TYPE_FILE).
Proof.
  intros Hs. unfold FsTree.gototrash. case_if; [|by exists false].
  destruct (file_length_some n Hs) as [len ->]; [by apply type_file_is_file|]. cbn [mbind option_bind]. by eexists.
Qed.

(** What is left of the names. *)
Definition unlinked (e : positive) (ed : fsedge) (t t' : tree) : Prop :=
  t_names t' = match e_parent ed with Some p => delete (p, e_name ed) (t_names t) | None => t_names t end ∧
  named_but (eq e) t t' ∧
  ∀ i, i ≠ e_child ed → option_Forall2 (λ n n', frozen n' = frozen n ∧ n_parents n' = n_parents n) (t_nodes t !! i) (t_nodes t' !! i).

(** What becomes of the node: it keeps its other links, goes to the trash, is kept for
    those who have it open, or is removed. *)
Definition fate (e : positive) (i : Z) (n : node) (o : option node) : Prop :=
  match remove_id e (n_parents n) with
  | _ :: _ => ∃ n', o = Some n' ∧ frozen n' = frozen n ∧ n_parents n' = remove_id e (n_parents n)
  | [] => if bool_decide (gototrash i n = Some true) then ∃ n', o = Some n' ∧ n_type n' = TYPE_TRASH
          else if (n_type n =? TYPE_FILE) && of_isfileopen i then ∃ n', o = Some n' ∧ n_type n' = TYPE_SUSTAINED
          else o = None
  end.

Lemma unlink_inv ts e ed p cn t :
  tree_inv [] t → t_edges t !! e = Some ed → e_parent ed = Some p → t_nodes t !! e_child ed = Some cn → children cn = [] →
  ∃ t', fsnodes_unlink ts e t = Some t' ∧ tree_inv [] t' ∧ unlinked e ed t t' ∧ fate e (e_child ed) cn (t_nodes t' !! e_child ed).
Proof.
  intros Hinv He Hp Hcn Hch. destruct (named_child t e ed p cn Hinv He Hp Hcn) as (Hin & Hroot & Hnt & Hns).
  pose proof (ti_coherent _ _ (ti_struct _ _ Hinv)) as Hco. assert (shape_ok cn) as Hsh by (by eapply co_shape).
  unfold FsTree.fsnodes_unlink. rewrite He. cbn [mbind option_bind]. rewrite Hcn. cbn [mbind option_bind].
  destruct (gototrash_some (e_child ed) cn Hsh) as (totrash & Hgo & Htot). unfold fate. rewrite Hgo. cbn [mbind option_bind].
  destruct (getpath_total [] e ed p t Hinv He Hp) as [path Hpath].
  match goal with |- ∃ t', (?x ≫= _) = _ ∧ _ => assert (is_Some x) as [path' ->] end.
  { destruct (n_parents cn) as [|e1 [|]]; [by apply not_elem_of_nil in Hin| |by eexists]. case_if; [by rewrite Hpath|by eexists]. }
  cbn [mbind option_bind].
  destruct (remove_edge_inv sclasstab MaxECRedundancyLevel [] ts e ed t Hinv He) as (t1 & cn0 & cs & Hcn0 & -> & Hinv1 & Hrel & Hform).
  assert (cn0 = cn) as -> by congruence. cbn [mbind option_bind].
  destruct (nodes_rel_l _ _ _ _ _ Hrel Hcn) as (cn1 & Hcn1 & [Hfr Hpar1 Hch1 _ _]). rewrite Hcn1. cbn [mbind option_bind].
  assert (t_names t1 = delete (p, e_name ed) (t_names t)) as Hnm1 by (rewrite Hform; unfold drop_edge; by rewrite Hp).
  assert (∀ i, i ≠ e_child ed → option_Forall2 (λ n n', frozen n' = frozen n ∧ n_parents n' = n_parents n) (t_nodes t !! i) (t_nodes t1 !! i)) as Hdom.
  { intros i Hi. specialize (Hrel i). destruct (t_nodes t !! i) as [m|] eqn:Hm; inversion Hrel as [x m' [Hf Hpm _ _ _]|]; subst; constructor.
    split; [done|]. rewrite Hpm. by apply (remove_id_parents_other t e ed i). }
  assert (named_but (eq e) t t1) as Hbut by (apply named_but_delete; by rewrite Hform).
  pose proof (frozen_inv _ _ Hfr) as (Hty1 & _ & _ & _ & _ & _ & Hlen1). rewrite Hch in Hch1. simpl in Hch1.
  assert (shape_ok cn1) as Hsh1 by (eapply co_shape; [apply (ti_coherent _ _ (ti_struct _ _ Hinv1))|done]).
  unfold unlinked. rewrite Hp, <- Hpar1. destruct (n_parents cn1) as [|e2 es2] eqn:Hpar2.
  2: { exists t1. split; [done|]. split; [|split; [by split|by exists cn1]]. apply (tree_inv_shrink (e_child ed)); [done|]. intros m Hm.
       assert (m = cn1) as -> by congruence. rewrite Hpar2, Hty1. split; [done|]. by intros [?|?]. }
  assert (∃ t', fsnodes_remove_node ts (e_child ed) t1 = Some t' ∧ tree_inv [] t' ∧ unlinked e ed t t' ∧ t_nodes t' !! e_child ed = None) as Hremove.
  { destruct (remove_node_inv [] ts (e_child ed) cn1 (t_vars t1) t1) as (v & acls & cs' & Heq & Hinv'); try done.
    { by destruct t1. }
    { apply remove_counters; try done; right; split; try done; unfold space_of_type, of_type; rewrite Hty1;
        destruct (Z.eqb_spec (n_type cn) TYPE_TRASH), (Z.eqb_spec (n_type cn) TYPE_SUSTAINED); done. }
    eexists. split; [done|]. split; [done|]. unfold unlinked. rewrite Hp. split; [|simpl; apply lookup_delete_eq]. split; [done|].
    split; [exact Hbut|]. intros i Hi. simpl. rewrite lookup_delete_ne by done. by apply Hdom. }
  unfold unlinked in Hremove. rewrite Hp in Hremove. rewrite Hty1. destruct (Z.eqb_spec (n_type cn) TYPE_FILE) as [Htf|Htf].
  2: { destruct totrash; [by destruct Htf; apply Htot|]. rewrite bool_decide_false by done. done. }
  assert (n_type cn1 = TYPE_FILE) as E by congruence.
  destruct (file_length_some cn1 Hsh1) as [len Hlen]; [by apply type_file_is_file|]. rewrite Hlen. cbn [mbind option_bind].
  assert (∀ trash t' n3, t_nodes t' = <[e_child ed := with_parents [t_edgenext t1] n3]> (t_nodes t1) → t_names t' = t_names t1 →
    n_type n3 = retired_type trash → (∃ ed', t_edges t' = <[t_edgenext t1 := ed']> (t_edges t1) ∧ e_parent ed' = None) →
    (t_names (retired trash len 1 t') = delete (p, e_name ed) (t_names t) ∧ named_but (eq e) t (retired trash len 1 t') ∧
     ∀ i, i ≠ e_child ed → option_Forall2 (λ n n', frozen n' = frozen n ∧ n_parents n' = n_parents n) (t_nodes t !! i) (t_nodes (retired trash len 1 t') !! i)) ∧
    ∃ n', t_nodes (retired trash len 1 t') !! e_child ed = Some n' ∧ n_type n' = retired_type trash) as Hfinal.
  { intros trash t' n3 Hn3 Hnm3 Ht3 (ed' & He3 & Hp3).
    assert (t_names (retired trash len 1 t') = t_names t' ∧ t_nodes (retired trash len 1 t') = t_nodes t') as [-> ->] by (by destruct trash).
    rewrite Hnm3, Hn3. split; [split; [done|split]|].
    - eapply (named_but_insert _ t t1 _ (t_edgenext t1) ed'); try done. { apply (ti_coherent _ _ (ti_struct _ _ Hinv1)). } by destruct trash.
    - intros i Hi. rewrite lookup_insert_ne by done. by apply Hdom.
    - rewrite lookup_insert_eq. by eexists. }
  destruct totrash.
  - rewrite bool_decide_true by done.
    destruct (checkarchmode_effect sclasstab (e_child ed) (with_ctime ts (with_type TYPE_TRASH cn1)) ts SCLASS_ARCH_MODE_CTIME
      (put (e_child ed) (with_ctime ts (with_type TYPE_TRASH cn1)) t1)) as (n3 & cs3 & -> & Hs3).
    { destruct (file_data cn1 Hsh1) as (?&?&?&?&Hd); [by apply type_file_is_file|]. unfold shape_ok. simpl. by rewrite Hd. }
    { by rewrite lookup_put, decide_True. }
    cbn [mbind option_bind]. rewrite put_put.
    destruct (retire_inv [] true (e_child ed) cn1 n3 len cs3 path' t1) as (t' & -> & Hinv' & Hn' & Hnm' & Hed'); try done.
    eexists. split; [done|]. split; [done|]. apply (Hfinal true t' n3); try done.
    apply summary_inv in Hs3 as (Hs3 & _). by apply core_inv in Hs3 as (-> & _).
  - rewrite bool_decide_false by done. simpl (_ && _). destruct (of_isfileopen (e_child ed)); [|done].
    destruct (retire_inv [] false (e_child ed) cn1 (with_type TYPE_SUSTAINED cn1) len [] path' t1) as (t' & Hdet & Hinv' & Hn' & Hnm' & Hed'); try done.
    rewrite emit_nil in Hdet. rewrite Hdet. eexists. split; [done|]. split; [done|]. by apply (Hfinal false t' (with_type TYPE_SUSTAINED cn1)).
Qed.

(** ** [fsnodes_purge] *)

(** A file without a name that nobody has open is removed. *)
Lemma drop_retired_inv ts i n e len trash t :
  tree_inv [] t → t_nodes t !! i = Some n → n_type n = retired_type trash → n_parents n = [e] → file_length n = Some len →
  ∃ t1 t2, fsnodes_remove_edge ts e (retired trash (- len) (-1) t) = Some t1 ∧ fsnodes_remove_node ts i t1 = Some t2 ∧
    tree_inv [] t2 ∧ t_names t2 = t_names t ∧ named_but (λ _, False) t t2 ∧ ∀ j, is_Some (t_nodes t2 !! j) ↔ j ≠ i ∧ is_Some (t_nodes t !! j).
Proof.
  intros Hinv Hn Hty Hpar Hlen. pose proof (ti_coherent _ _ (ti_struct _ _ Hinv)) as Hco.
  destruct (co_parents t Hco i n e Hn) as (ed & He & Hc); [rewrite Hpar; by left|].
  assert (e_parent ed = None) as Hnone.
  { destruct (de_node _ _ (ti_detached _ _ (ti_struct _ _ Hinv)) i n Hn) as (e' & ed' & Hp' & He' & Hn'); [destruct trash; auto|by apply not_elem_of_nil|].
    rewrite Hpar in Hp'. injection Hp' as <-. congruence. }
  destruct (remove_edge_inv sclasstab MaxECRedundancyLevel [] ts e ed t Hinv He) as (t1 & n0 & cs & Hn0 & Hrm & Hinv1 & Hrel & Hform).
  rewrite Hc in Hn0, Hinv1. assert (n0 = n) as -> by congruence.
  destruct (nodes_rel_l _ _ _ _ _ Hrel Hn) as (n1 & Hn1 & [Hfr Hpar1 Hch1 _ _]).
  pose proof (frozen_inv _ _ Hfr) as (Hty1 & _ & _ & _ & _ & _ & Hlen1).
  assert (is_file n1 = true) as Hf1 by (unfold is_file; rewrite Hty1, Hty; by destruct trash).
  set (v := t_vars (retired trash (- len) (-1) t)). exists (with_vars v t1).
  rewrite retired_vars, remove_edge_frame, Hrm by apply _. fold v.
  assert (t_vars t1 = t_vars t) as Hv1 by (by rewrite Hform).
  destruct (remove_node_inv [] ts i n1 (t_vars t) (with_vars v t1)) as (v' & acls & cs' & Heq & Hinv'); try done.
  { change (with_vars (t_vars t) (with_vars v t1)) with (with_vars (t_vars t) t1). rewrite <- Hv1. by destruct t1. }
  { intros ->. destruct (co_root t Hco) as (r & Hr & _ & Hnil). assert (r = n) as -> by congruence. by rewrite Hpar in Hnil. }
  { rewrite Hpar1, Hpar. unfold remove_id. rewrite filter_cons, decide_False by tauto. done. }
  { apply file_children; [|done]. eapply co_shape; [apply (ti_coherent _ _ (ti_struct _ _ Hinv1))|done]. }
  { unfold v. apply remove_counters; unfold space_of_type, of_type; rewrite ?Hty1, ?Hty, ?Hlen1, ?Hlen; destruct trash; simpl;
      rewrite ?Z.opp_0; (by left) || (by right) || done. }
  eexists. split; [done|]. split; [exact Heq|]. split; [done|]. split.
  - simpl. rewrite Hform. unfold drop_edge. by rewrite Hnone.
  - split. { intros e' ed' Hsome. simpl. rewrite Hform. simpl. rewrite lookup_delete_Some. split; [intros [_ ?]; split; [tauto|done]|].
      intros [_ He']. split; [|done]. intros <-. assert (ed' = ed) as -> by congruence. rewrite Hnone in Hsome. by destruct Hsome. }
    intros j. simpl. rewrite lookup_delete. case_decide; [subst; split; [by intros []|naive_solver]|].
    rewrite (nodes_rel_dom _ _ _ j Hrel). naive_solver.
Qed.

(** An open file leaves the trash and is kept. *)
Lemma sustain_inv i n e len t :
  tree_inv [] t → t_nodes t !! i = Some n → n_type n = TYPE_TRASH → n_parents n = [e] → file_length n = Some len →
  let t1 := add_sustained len 1 (put i (with_type TYPE_SUSTAINED n) (add_trash (- len) (-1) t)) in
  let bt := i `mod` TRASH_BUCKETS in
  let bs := i `mod` SUSTAINED_BUCKETS in
  tree_inv [] (with_detached (<[bt := remove_id e (bucket bt (t_trash t1))]> (t_trash t1))
                 (<[bs := e :: bucket bs (t_sustained t1)]> (t_sustained t1)) t1).
Proof.
  intros Hinv Hn Hty Hpar Hlen. cbv zeta. pose proof (ti_coherent _ _ (ti_struct _ _ Hinv)) as Hco.
  set (n2 := with_type TYPE_SUSTAINED n). set (v := t_vars (add_sustained len 1 (add_trash (- len) (-1) t))).
  set (bt := i `mod` TRASH_BUCKETS). set (bs := i `mod` SUSTAINED_BUCKETS).
  set (tr := <[bt := remove_id e (bucket bt (t_trash t))]> (t_trash t)). set (su := <[bs := e :: bucket bs (t_sustained t)]> (t_sustained t)).
  change (tree_inv [] (changed t i n2 v tr su)).
  assert (is_file n = true) as Hf by (unfold is_file; by rewrite Hty). assert (is_file n2 = true) as Hf2 by done.
  assert (shape_ok n) as Hsh by (by eapply co_shape).
  destruct (co_parents t Hco i n e Hn) as (ed & He & Hc); [rewrite Hpar; by left|].
  destruct (ti_detached _ _ (ti_struct _ _ Hinv)) as [D1 D2 D3 D4 D5].
  assert (e_parent ed = None) as Hnone.
  { destruct (D5 i n Hn) as (e' & ed' & Hp' & He' & Hn'); [by left|by apply not_elem_of_nil|]. rewrite Hpar in Hp'. injection Hp' as <-. congruence. }
  assert (∀ e' ed', t_edges t !! e' = Some ed' → e_child ed' = i → e' = e) as Honly.
  { intros e' ed' He' Hc'. destruct (co_child t Hco e' ed' He') as (m & Hm & Hin). rewrite Hc' in Hm. assert (m = n) as -> by congruence.
    rewrite Hpar in Hin. by apply list_elem_of_singleton in Hin. }
  assert (∀ e' ed' m, t_edges t !! e' = Some ed' → e' ≠ e → t_nodes t !! e_child ed' = Some m → t_nodes (changed t i n2 v tr su) !! e_child ed' = Some m) as Hold.
  { intros e' ed' m He' Hne Hm. unfold changed. rewrite put_lookup_ne; [done|]. intros Hi. by apply Hne, (Honly e' ed'). }
  assert (t_nodes (changed t i n2 v tr su) !! i = Some n2) as Hi by (unfold changed; by rewrite lookup_put, decide_True).
  assert (∀ b e', e' ∈ bucket b tr ↔ e' ≠ e ∧ e' ∈ bucket b (t_trash t)) as Htr.
  { intros b e'. unfold tr. rewrite bucket_insert. case_decide as Hb; [subst b; apply elem_of_remove_id|]. split; [|naive_solver].
    intros Hin. split; [|done]. intros ->. destruct (D2 b e Hin) as (ed' & m & He' & _ & _ & _ & Hb'). assert (ed' = ed) as -> by congruence.
    rewrite Hc in Hb'. done. }
  assert (∀ b e', e' ∈ bucket b su ↔ (e' = e ∧ b = bs) ∨ e' ∈ bucket b (t_sustained t)) as Hsu.
  { intros b e'. unfold su. rewrite bucket_insert. case_decide as Hb; [subst b; rewrite elem_of_cons|]; naive_solver. }
  assert (∀ b, e ∉ bucket b (t_sustained t)) as Hnsu.
  { intros b Hin. destruct (D3 b e Hin) as (ed' & m & He' & _ & Hm & Ht & _). assert (ed' = ed) as -> by congruence. rewrite Hc in Hm. assert (m = n) as -> by congruence. by rewrite Hty in Ht. }
  apply (file_change_inv [] t i n n2 v tr su); try done.
  - apply Hinv.
  - destruct (file_data n Hsh Hf) as (?&?&?&?&Hd). unfold shape_ok, n2. simpl. by rewrite Hd.
  - unfold n2, v, file_length in *. split; unfold weight_of, space_of_type, of_type, weight_files, weight_class_files, weight_class_dirs, is_file, file_length;
      simpl; rewrite ?Hty; simpl; rewrite ?Hlen; simpl; rewrite ?Z.sub_0_r; try (by left); try (by right);
      intros sc'; split; right; split; try done; destruct (n_sclassid n =? sc'); done.
  - apply Hinv.
  - unfold node_stats. rewrite Hf, Hf2. unfold n2. simpl. by rewrite Hty.
  - split.
    + intros e' ed' He' Hp. destruct (decide (e' = e)) as [->|Hne].
      * change (t_edges t !! e = Some ed') in He'. assert (ed' = ed) as -> by congruence. rewrite Hc. exists n2. split; [done|]. right.
        split; [done|]. apply Hsu. by left.
      * destruct (D1 e' ed' He' Hp) as (m & Hm & Hor). exists m. split; [by eapply Hold|].
        change (t_trash (changed t i n2 v tr su)) with tr. change (t_sustained (changed t i n2 v tr su)) with su. rewrite Htr, Hsu. tauto.
    + intros b e' [Hne Hin]%Htr. destruct (D2 b e' Hin) as (ed' & m & He' & ? & Hm & ? & ?). exists ed', m. split_and!; try done. by eapply Hold.
    + intros b e' [[-> ->]|Hin]%Hsu; [by exists ed, n2; rewrite Hc|].
      destruct (D3 b e' Hin) as (ed' & m & He' & ? & Hm & ? & ?). exists ed', m. split_and!; try done. eapply Hold; [done| |done].
      intros ->. by apply (Hnsu b).
    + intros b. destruct (D4 b) as [N1 N2]. change (t_trash (changed t i n2 v tr su)) with tr. change (t_sustained (changed t i n2 v tr su)) with su.
      unfold tr, su. rewrite !bucket_insert. split; case_decide as Hb; try done; rewrite <- Hb; [by apply NoDup_remove_id|]. by constructor.
    + intros j m [[-> ->]|[Hne Hm]]%put_cases Ht Hx; [by exists e, ed|]. by apply (D5 j m).
Qed.

Lemma purge_inv ts i n t :
  tree_inv [] t → t_nodes t !! i = Some n →
  ∃ r t', fsnodes_purge sclasstab MaxECRedundancyLevel of_isfileopen ts i t = Some (r, t') ∧ tree_inv [] t' ∧
    t_names t' = t_names t ∧ named_but (λ _, False) t t' ∧
    (if (n_type n =? TYPE_TRASH) && of_isfileopen i then r = 0 ∧ ∀ j, is_Some (t_nodes t' !! j) ↔ is_Some (t_nodes t !! j)
     else if (n_type n =? TYPE_TRASH) || (n_type n =? TYPE_SUSTAINED) then
       r = 1 ∧ ∀ j, is_Some (t_nodes t' !! j) ↔ j ≠ i ∧ is_Some (t_nodes t !! j)
     else r = -1 ∧ t' = t).
Proof.
  intros Hinv Hn. pose proof (ti_coherent _ _ (ti_struct _ _ Hinv)) as Hco. assert (shape_ok n) as Hsh by (by eapply co_shape).
  unfold fsnodes_purge. rewrite Hn. cbn [mbind option_bind].
  assert (n_type n = TYPE_TRASH ∨ n_type n = TYPE_SUSTAINED →
    ∃ e len, n_parents n = [e] ∧ file_length n = Some len) as Hret.
  { intros Ht. destruct (de_node _ _ (ti_detached _ _ (ti_struct _ _ Hinv)) i n Hn Ht) as (e & ed & Hpar & _); [by apply not_elem_of_nil|].
    destruct (file_length_some n Hsh) as [len Hlen]; [unfold is_file; by destruct Ht as [-> | ->]|]. by exists e, len. }
  destruct (Z.eqb_spec (n_type n) TYPE_TRASH) as [Ht|Ht]; [|destruct (Z.eqb_spec (n_type n) TYPE_SUSTAINED) as [Hs|Hs]].
  - destruct Hret as (e & len & Hpar & Hlen); [by left|]. rewrite Hpar, Hlen. cbn [mbind option_bind head]. destruct (of_isfileopen i); simpl.
    + eexists _, _. split; [done|]. split; [by apply (sustain_inv i n e len t)|]. split; [done|]. split; [intros e' ed' _; simpl; tauto|].
      split; [done|]. intros j. simpl.
      destruct (decide (i = j)) as [->|]; [rewrite lookup_insert_eq, Hn|by rewrite lookup_insert_ne]. split; by eexists.
    + destruct (drop_retired_inv ts i n e len true t) as (t1 & t2 & Hr1 & Hr2 & Hinv2 & Hnm & Hbut & Hd); try done. simpl in Hr1.
      rewrite Hr1. cbn [mbind option_bind]. rewrite Hr2. cbn [mbind option_bind]. by eexists _, _.
  - destruct Hret as (e & len & Hpar & Hlen); [by right|]. rewrite Hpar, Hlen. cbn [mbind option_bind head]. simpl.
    destruct (drop_retired_inv ts i n e len false t) as (t1 & t2 & Hr1 & Hr2 & Hinv2 & Hnm & Hbut & Hd); try done. simpl in Hr1.
    rewrite Hr1. cbn [mbind option_bind]. rewrite Hr2. cbn [mbind option_bind]. by eexists _, _.
  - eexists _, _. split; [done|]. split; [done|]. split; [done|]. split; [intros e' ed' _; tauto|done].
Qed.

End with_classes.
