(* ===== verification/FsTreeFiles.v ===== *)
(** * Changes of a file

    The length and the storage class of a file, and the size its class makes of it:
    [fsnodes_setlength], [fsnodes_changefilesclassid], [fsnodes_get_stats] with the
    ratio brought up to date and [fsnodes_check_realsize].  The directories the file
    is in get the difference. *)

From S2P Require Import Prelude MfsComm FreeInodes StorageClass DataPack FsNodes PosixAcl FsAccess AclFacts FsTree FsStats FsTreeInv FsTreeEdges FsTreeLink FsTreeNodes FsTreeOps FsTreeUnlink.

Section with_classes.
Variable sclasstab : Z → storageclass.
Variable MaxECRedundancyLevel : Z.
Abbreviation fsnodes_get_stats := (fsnodes_get_stats sclasstab MaxECRedundancyLevel).
Abbreviation fsnodes_setlength := (fsnodes_setlength sclasstab MaxECRedundancyLevel).
Abbreviation fsnodes_changefilesclassid := (fsnodes_changefilesclassid sclasstab MaxECRedundancyLevel).
Abbreviation fix_ratio := (fix_ratio sclasstab MaxECRedundancyLevel).

(** What a change of one file leaves as it is. *)
Definition kin (n : node) := (n_type n, n_parents n, children n, links n, elems n, n_mode n, n_aclpermflag n, n_acldefflag n).

Record file_changed (i : Z) (n' : node) (t t' : tree) : Prop := {
  fch_node : ∃ m, t_nodes t' !! i = Some m ∧ frozen m = frozen n';
  fch_nodes : nodes_rel (λ j m m', kin m' = kin m ∧ (j ≠ i → frozen m' = frozen m)) t t';
  fch_edges : t_edges t' = t_edges t;
  fch_names : t_names t' = t_names t;
  fch_ids : t_ids t' = t_ids t }.

Lemma kin_erase n n' : erase n' = erase n → kin n' = kin n.
Proof.
  intros He. destruct (erase_inv _ _ He) as (H1 & H2 & H3 & H4). unfold kin. rewrite H1, H2, H3, H4.
  apply frozen_erase, frozen_inv in He as (-> & -> & -> & -> & _). done.
Qed.

Lemma nodes_rel_trans (R : Z → node → node → Prop) t1 t2 t3 :
  (∀ i a b c, R i a b → R i b c → R i a c) → nodes_rel R t1 t2 → nodes_rel R t2 t3 → nodes_rel R t1 t3.
Proof. intros HR H1 H2 i. specialize (H1 i). specialize (H2 i). destruct H1; inversion H2; constructor. eauto. Qed.

Lemma gapped_nodes g t t' : t_nodes t' = t_nodes t → t_edges t' = t_edges t → gapped g t → gapped g t'.
Proof.
  intros Hn He Hg i n st Hi Ht Hs. rewrite Hn in Hi. rewrite (dir_sum_ext t); [by apply (Hg i n st)|].
  intros e _. unfold edge_stats, st_of. by rewrite He, Hn.
Qed.

Lemma file_erase n : is_file n = true → shape_ok n → erase n = n.
Proof. intros Hf Hs. destruct (file_data n Hs Hf) as (?&?&?&?&Hd). unfold erase. by rewrite Hd. Qed.

(** A file that changes its statistics: the directories it is in follow. *)
Lemma file_follow X t c n n' v cs psr nsr :
  tree_inv X t → t_nodes t !! c = Some n → is_file n = true → is_file n' = true → kin n' = kin n → shape_ok n' →
  counters_follow (Some n) (Some n') (t_vars t) v → node_stats n = Some psr → node_stats n' = Some nsr →
  ∃ t', each_parent c (λ p t, fsnodes_add_sub_stats p nsr psr t) (emit cs (put c n' (with_vars v t))) = Some t' ∧
    tree_inv X t' ∧ file_changed c n' t t'.
Proof.
  intros [Hinv Hst] Hn Hf Hf' Hkin Hsh' Hv Hpsr Hnsr. pose proof (ti_coherent _ _ Hinv) as Hco.
  unfold kin in Hkin. injection Hkin as K1 K2 K3 K4 K5 K6 K7 K8.
  set (t0 := changed t c n' v (t_trash t) (t_sustained t)).
  assert (struct_inv X t0) as Hinv0.
  { apply (file_change_struct X t c n); try done. destruct (ti_detached _ _ Hinv) as [D1 D2 D3 D4 D5].
    assert (∀ j m, t_nodes t !! j = Some m → ∃ m', t_nodes t0 !! j = Some m' ∧ n_type m' = n_type m ∧ n_parents m' = n_parents m) as Hfwd.
    { intros j m Hm. unfold t0, changed. rewrite lookup_put. case_decide; [subst j; exists n'|exists m]; split_and!; try done; congruence. }
    split.
    - intros e ed He Hp. destruct (D1 e ed He Hp) as (m & Hm & Hor). destruct (Hfwd _ _ Hm) as (m' & Hm' & Ht & _). exists m'. by rewrite Ht.
    - intros b e Hin. destruct (D2 b e Hin) as (ed & m & ? & ? & Hm & ? & ?). destruct (Hfwd _ _ Hm) as (m' & Hm' & Ht & _). exists ed, m'. by rewrite Ht.
    - intros b e Hin. destruct (D3 b e Hin) as (ed & m & ? & ? & Hm & ? & ?). destruct (Hfwd _ _ Hm) as (m' & Hm' & Ht & _). exists ed, m'. by rewrite Ht.
    - exact D4.
    - intros j m Hm Ht Hx. unfold t0 in Hm. apply put_cases in Hm as [[-> ->]|[_ Hm]]; [|by apply (D5 j m)].
      rewrite K1 in Ht. rewrite K2. by apply (D5 c n). }
  assert (emit cs (put c n' (with_vars v t)) = emit cs t0) as -> by done.
  assert (struct_inv X (emit cs t0)) as Hinv1.
  { eapply struct_same; [|exact Hinv0]. split; [|done]. intros j. rewrite emit_nodes. destruct (t_nodes t0 !! j); by constructor. }
  pose proof (ti_coherent _ _ Hinv1) as Hco1.
  assert (pending (λ _, sr_zero) (parents_of t c) (sr_sub nsr psr) (emit cs t0)) as Hpend.
  { apply (gapped_nodes _ (put c n' t)); [done|done|]. apply (pending_start (λ _, sr_zero) c n n'); try done.
    - unfold skel. rewrite K1, K2, K3. destruct (file_data n (co_shape t Hco c n Hn) Hf) as (?&?&?&?&Hd).
      destruct (file_data n' Hsh' Hf') as (?&?&?&?&Hd'). by rewrite Hd, Hd'.
    - unfold dir_stats. destruct (file_data n (co_shape t Hco c n Hn) Hf) as (?&?&?&?&Hd).
      destruct (file_data n' Hsh' Hf') as (?&?&?&?&Hd'). by rewrite Hd, Hd'.
    - rewrite Hnsr, (st_of_node _ _ n Hn), Hpsr. simpl. rewrite sr_sub_equiv. apply sr_of_eq. sr_ring. }
  assert (t_nodes (emit cs t0) !! c = Some n') as Hn' by (rewrite emit_nodes; unfold t0, changed; by rewrite lookup_put, decide_True).
  destruct (each_parent_spec (λ _, sr_zero) (λ p t, fsnodes_add_sub_stats p nsr psr t) (sr_sub nsr psr) [] c (emit cs t0))
    as (t' & Heach & Hso & Hpend').
  { intros p t1 Hso1. unfold fsnodes_add_sub_stats, fsnodes_add_stats. apply (climb_fun_ok _ _ _ _ Hco1); [|intros s; apply sr_add_equiv|done].
    apply (fs_tree _ (ti_fs _ _ Hinv1)). }
  { done. } { by eexists. }
  { rewrite app_nil_r. replace (parents_of (emit cs t0) c) with (parents_of t c); [done|]. unfold parents_of. rewrite Hn, Hn', K2. done. }
  exists t'. split; [exact Heach|]. apply pending_nil in Hpend'. split; [split; [by eapply struct_stats_only|done]|].
  pose proof (rest_inv _ _ (rest_stats_only _ _ Hso)) as (R1 & R2 & R3 & R4 & R5 & R6 & R7 & R8 & R9). split; try done.
  - destruct (nodes_rel_l _ _ _ _ _ (stats_only_rel _ _ Hso) Hn') as (m & Hm & He). exists m. split; [done|]. by apply frozen_erase.
  - apply (nodes_rel_trans _ _ (emit cs t0)); [intros j a b d [] []; split; [congruence|intros; transitivity (frozen b); auto]| |].
    + intros j. rewrite emit_nodes. unfold t0, changed. rewrite lookup_put. case_decide; [subst j; rewrite Hn; constructor|].
      * split; [unfold kin; congruence|done].
      * simpl. destruct (t_nodes t !! j); by constructor.
    + eapply nodes_rel_impl; [|by apply stats_only_rel]. intros. split; [by apply kin_erase|]. intros _. by apply frozen_erase.
Qed.

(** The parts of a file. *)
Lemma file_with_data n len ct nl r len' ct' r' :
  n_data n = fdata len ct nl r → is_file n = true →
  is_file (with_data (fdata len' ct' nl r') n) = true ∧ kin (with_data (fdata len' ct' nl r') n) = kin n ∧
  shape_ok (with_data (fdata len' ct' nl r') n).
Proof. intros Hd Hf. unfold kin, children, links, elems, shape_ok. simpl. by rewrite Hd. Qed.

Lemma fix_ratio_file n : is_file n = true → shape_ok n →
  is_file (fix_ratio n) = true ∧ kin (fix_ratio n) = kin n ∧ shape_ok (fix_ratio n) ∧ weight (fix_ratio n) = weight n ∧
  n_sclassid (fix_ratio n) = n_sclassid n.
Proof.
  intros Hf Hs. destruct (file_data n Hs Hf) as (?&?&?&?&Hd). unfold FsStats.fix_ratio, set_ratio. rewrite Hf, Hd.
  unfold kin, children, links, elems, shape_ok, weight, file_length. simpl. by rewrite Hd.
Qed.

Lemma clear_snapshot_inv X i n t : tree_inv X t → t_nodes t !! i = Some n → tree_inv X (put i (clear_snapshot n) t).
Proof.
  intros Hinv Hn. eapply inv_same; [|exact Hinv]. rewrite <- (emit_nil (put i (clear_snapshot n) t)). by apply (same_inv_put t i n).
Qed.

(** ** [fsnodes_setlength] *)

Lemma setlength_counters n n' len t :
  file_length n' = Some len → n_type n' = n_type n → n_sclassid n' = n_sclassid n → ∀ oldlen, file_length n = Some oldlen →
  counters_follow (Some n) (Some n') (t_vars t)
    (t_vars (if n_type n =? TYPE_TRASH then add_trash (len - oldlen) 0 t
             else if n_type n =? TYPE_SUSTAINED then add_sustained (len - oldlen) 0 t else t)).
Proof.
  intros Hl Ht Hs oldlen Ho.
  assert (∀ sc', weight_class_files sc' n' = weight_class_files sc' n ∧ weight_class_dirs sc' n' = weight_class_dirs sc' n) as Hc.
  { intros sc'. unfold weight_class_files, weight_class_dirs, is_file. by rewrite Ht, Hs. }
  assert (weight_files n' = weight_files n) as Hwf by (unfold weight_files, is_file; by rewrite Ht).
  assert (∀ w x d, d = 0 → follows w x x d) as Hsame by (intros w x d ->; by right).
  split; simpl; rewrite ?Hwf; unfold space_of_type, of_type; rewrite ?Ht, ?Hl, ?Ho; simpl;
    try (intros sc'; destruct (Hc sc') as [-> ->]);
    destruct (Z.eqb_spec (n_type n) TYPE_TRASH) as [E|E]; try (rewrite E; simpl);
    try (destruct (Z.eqb_spec (n_type n) TYPE_SUSTAINED) as [E'|E']); simpl;
    first [by left|by left; rewrite Z.add_0_r|split; apply Hsame; lia|apply Hsame; lia].
Qed.

(** The number of chunks a file of a length keeps. *)
Definition kept_chunks (len : Z) : nat := Z.to_nat (if 0 <? len then u32 (Z.shiftr (len - 1) MFSCHUNKBITS + 1) else 0).

Lemma setlength_inv X i n len t :
  tree_inv X t → t_nodes t !! i = Some n → is_file n = true →
  ∃ t' n' oldlen ct nl r, n_data n = fdata oldlen ct nl r ∧ fsnodes_setlength i len t = Some t' ∧ tree_inv X t' ∧
    file_changed i n' t t' ∧ file_length n' = Some len ∧ weight n' = (n_type n, n_sclassid n, Some len) ∧
    n_data n' = fdata len (take (kept_chunks len) ct) nl (current_ratio sclasstab MaxECRedundancyLevel n).
Proof.
  intros Hinv Hn Hf. pose proof (ti_coherent _ _ (ti_struct _ _ Hinv)) as Hco. assert (shape_ok n) as Hs by (by eapply co_shape).
  destruct (file_data n Hs Hf) as (oldlen & ct & nl & r & Hd).
  destruct (get_stats_0 sclasstab MaxECRedundancyLevel i n t Hco Hn) as (psr & Hpsr & Hget0).
  unfold FsTree.fsnodes_setlength. rewrite Hget0. cbn [mbind option_bind]. rewrite Hn. cbn [mbind option_bind]. rewrite Hd.
  fold (kept_chunks len). set (nd := with_data (fdata len (take (kept_chunks len) ct) nl r) n).
  destruct (file_with_data n oldlen ct nl r len (take (kept_chunks len) ct) r Hd Hf) as (Hfd & Hkd & Hsd). fold nd in Hfd, Hkd, Hsd.
  destruct (fix_ratio_file nd Hfd Hsd) as (Hf' & Hk' & Hs' & Hw' & Hsc').
  set (v := t_vars (if n_type n =? TYPE_TRASH then add_trash (len - oldlen) 0 t
                    else if n_type n =? TYPE_SUSTAINED then add_sustained (len - oldlen) 0 t else t)).
  assert ((if n_type n =? TYPE_TRASH then add_trash (len - oldlen) 0 t
           else if n_type n =? TYPE_SUSTAINED then add_sustained (len - oldlen) 0 t else t) = with_vars v t) as ->.
  { unfold v. case_if; [done|]. case_if; [done|]. by destruct t. }
  set (cs := cut_chunks _ _ _). rewrite (fr_emit (F := with_vars v)).
  destruct (get_stats_1 sclasstab MaxECRedundancyLevel i nd (put i nd (with_vars v (emit cs t))) Hsd) as (nsr & Hnsr & Hget1).
  { by rewrite lookup_put, decide_True. }
  rewrite Hget1. cbn [mbind option_bind]. rewrite put_put.
  destruct (file_follow X t i n (fix_ratio nd) v cs psr nsr) as (t' & Heach & Hinv' & Hch); try done.
  { by rewrite Hk'. }
  { apply (setlength_counters n (fix_ratio nd) len t) with (oldlen := oldlen).
    - transitivity (file_length nd); [|done]. by injection Hw'.
    - transitivity (n_type nd); [|done]. by injection Hw'.
    - done.
    - unfold file_length. by rewrite Hd. }
  change (put i (fix_ratio nd) (with_vars v (emit cs t))) with (emit cs (put i (fix_ratio nd) (with_vars v t))).
  rewrite Heach. cbn [mbind option_bind]. destruct Hch as [(m & Hm & Hfm) Hrel Hed Hnm Hid]. rewrite Hm. cbn [mbind option_bind].
  exists (put i (clear_snapshot m) t'), (fix_ratio nd), oldlen, ct, nl, r. split; [done|]. split; [done|].
  split; [by apply clear_snapshot_inv|]. split; [|split; [|split]].
  - split; try done.
    + exists (clear_snapshot m). rewrite lookup_put, decide_True by done. split; [done|]. transitivity (frozen m); [by apply frozen_core|done].
    + intros j. rewrite lookup_put. specialize (Hrel j). case_decide; [|done]. subst j. rewrite Hm in Hrel.
      inversion Hrel as [x y [Hk _] Hx|]; subst. constructor. by split.
  - transitivity (file_length nd); [|done]. by injection Hw'.
  - rewrite Hw'. done.
  - unfold FsStats.fix_ratio, set_ratio. rewrite Hfd. done.
Qed.

(** ** The storage class *)

Lemma changeclass_counters n n' sc t :
  weight n' = (n_type n, sc, file_length n) →
  counters_follow (Some n) (Some n') (t_vars t)
    (t_vars (sclass_incref sc (n_type n) (sclass_decref (n_sclassid n) (n_type n) t))).
Proof.
  intros Hw. unfold weight in Hw. injection Hw as Ht Hs Hl. unfold sclass_incref, sclass_decref. set (t1 := sclass_ref (-1) _ _ t).
  assert (∀ w x d, d = 0 → follows w x x d) as Hsame by (intros w x d ->; by right).
  destruct (sclass_ref_vars 1 sc (n_type n) t1) as [Hv _]. destruct (sclass_ref_vars (-1) (n_sclassid n) (n_type n) t) as [Hv0 _]. fold t1 in Hv0.
  split; [rewrite Hv, Hv0; simpl; unfold space_of_type, of_type, weight_files, is_file; rewrite ?Ht, ?Hl; apply Hsame; lia..|].
  intros sc'. destruct (sclass_ref_follows (-1) (n_sclassid n) (n_type n) t sc') as [A1 A2]. fold t1 in A1, A2.
  destruct (sclass_ref_follows 1 sc (n_type n) t1 sc') as [B1 B2]. cbv zeta in *.
  assert (∀ w x y z d1 d2, follows w x y d1 → follows w y z d2 → follows w x z (d1 + d2)) as Htrans.
  { intros w x y z d1 d2 [-> | [-> ->]] [-> | [-> ->]].
    - left. rewrite Zplus_mod_idemp_l. f_equal. lia.
    - left. by rewrite Z.add_0_r.
    - by left.
    - by right. }
  unfold weight_of. simpl. unfold weight_class_files, weight_class_dirs, is_file. rewrite Ht, Hs.
  split.
  - pose proof (Htrans _ _ _ _ _ _ A1 B1) as Hx.
    match goal with |- follows _ _ _ ?d => match type of Hx with follows _ _ _ ?d' => replace d with d' end end; [done|].
    destruct (_ || _), (n_sclassid n =? sc'), (sc =? sc'); done.
  - pose proof (Htrans _ _ _ _ _ _ A2 B2) as Hx.
    match goal with |- follows _ _ _ ?d => match type of Hx with follows _ _ _ ?d' => replace d with d' end end; [done|].
    destruct (n_type n =? TYPE_DIRECTORY), (n_sclassid n =? sc'), (sc =? sc'); done.
Qed.

Lemma changefilesclassid_inv X i n sc t :
  tree_inv X t → t_nodes t !! i = Some n → is_file n = true →
  ∃ t' n', fsnodes_changefilesclassid i sc t = Some t' ∧ tree_inv X t' ∧ file_changed i n' t t' ∧
    weight n' = (n_type n, sc, file_length n).
Proof.
  intros Hinv Hn Hf. pose proof (ti_coherent _ _ (ti_struct _ _ Hinv)) as Hco. assert (shape_ok n) as Hs by (by eapply co_shape).
  destruct (file_data n Hs Hf) as (oldlen & ct & nl & r & Hd).
  destruct (get_stats_0 sclasstab MaxECRedundancyLevel i n t Hco Hn) as (psr & Hpsr & Hget0).
  unfold FsTree.fsnodes_changefilesclassid. rewrite Hget0. cbn [mbind option_bind]. rewrite Hn. cbn [mbind option_bind]. rewrite Hd.
  set (cs := _ <$> filter _ ct). set (nd := with_class sc (n_eattr n) (n_trashretention n) n).
  assert (shape_ok nd) as Hsd by exact Hs. assert (is_file nd = true) as Hfd by exact Hf.
  destruct (fix_ratio_file nd Hfd Hsd) as (Hf' & Hk' & Hs' & Hw' & Hsc').
  set (v := t_vars (sclass_incref sc (n_type n) (sclass_decref (n_sclassid n) (n_type n) t))).
  assert (sclass_incref sc (n_type n) (put i nd (sclass_decref (n_sclassid n) (n_type n) (emit cs t))) = put i nd (with_vars v (emit cs t))) as ->.
  { unfold v, sclass_incref, sclass_decref, sclass_ref. simpl.
    destruct (default (0, 0) (v_sclass (t_vars t) !! n_sclassid n)) as [f d]. simpl. by destruct (default (0, 0) _) as [f' d']. }
  destruct (get_stats_1 sclasstab MaxECRedundancyLevel i nd (put i nd (with_vars v (emit cs t))) Hsd) as (nsr & Hnsr & Hget1).
  { by rewrite lookup_put, decide_True. }
  rewrite Hget1. cbn [mbind option_bind]. rewrite put_put.
  destruct (file_follow X t i n (fix_ratio nd) v cs psr nsr) as (t' & Heach & Hinv' & Hch); try done.
  { by apply changeclass_counters. }
  exists t', (fix_ratio nd). split; [exact Heach|]. done.
Qed.

(** ** The ratio of the class *)

(** The parents first, the node after them. *)
Definition mend_ratio (i : Z) (n : node) (t : tree) : option tree :=
  match n_data n with
  | fdata len chunktab _ ratio =>
      let size := (count_chunks (lastchunk len) (lastchunksize len) 0 chunktab 0 0).1 in
      let new := current_ratio sclasstab MaxECRedundancyLevel n in
      t ← each_parent i (λ p t, fsnodes_fix_realsize p (u64 (realsize size new - realsize size ratio)) t) t;
      n ← t_nodes t !! i;
      Some (put i (set_ratio new n) t)
  | _ => None
  end.

Lemma mend_ratio_inv X i n t :
  tree_inv X t → t_nodes t !! i = Some n → is_file n = true →
  ∃ t', mend_ratio i n t = Some t' ∧ tree_inv X t' ∧ file_changed i (fix_ratio n) t t' ∧ t_nodes t' !! i = Some (fix_ratio n).
Proof.
  intros [Hinv Hst] Hn Hf. pose proof (ti_coherent _ _ Hinv) as Hco. assert (shape_ok n) as Hs by (by eapply co_shape).
  destruct (file_data n Hs Hf) as (len & ct & nl & r & Hd). unfold mend_ratio. rewrite Hd.
  set (size := (count_chunks _ _ _ _ _ _).1). set (new := current_ratio _ _ n). set (d := u64 (realsize size new - realsize size r)).
  assert (fix_ratio n = with_data (fdata len ct nl new) n) as Hfix by (unfold FsStats.fix_ratio, set_ratio; by rewrite Hf, Hd).
  destruct (fix_ratio_file n Hf Hs) as (Hf' & Hk' & Hs' & Hw' & Hsc').
  set (dd := sr_only_realsize d).
  set (g := λ j, sr_times (- occurs j (parents_of t i)) dd).
  destruct (each_parent_spec g (λ p t, fsnodes_fix_realsize p d t) dd [] i t) as (t1 & -> & Hso & Hpend).
  { intros p t1 Hso1. unfold fsnodes_fix_realsize. apply (climb_fun_ok _ _ _ _ Hco); [|intros s; apply sr_add_realsize_equiv|done].
    apply (fs_tree _ (ti_fs _ _ Hinv)). }
  { done. } { by eexists. }
  { rewrite app_nil_r. eapply gapped_ext; [|exact Hst]. intros j. apply sr_of_eq. unfold g. generalize (occurs j (parents_of t i)). intros k. sr_ring. }
  apply pending_nil in Hpend. cbn [mbind option_bind].
  assert (t_nodes t1 !! i = Some n) as Hn1.
  { destruct (nodes_rel_l _ _ _ _ _ (stats_only_rel _ _ Hso) Hn) as (m & Hm & He). rewrite Hm. f_equal.
    rewrite <- (file_erase n Hf Hs), <- He. symmetry. apply file_erase.
    - unfold is_file in *. apply frozen_erase, frozen_inv in He as (-> & _). done.
    - eapply frozen_shape; [by apply frozen_erase|done]. }
  rewrite Hn1. cbn [mbind option_bind]. assert (set_ratio new n = fix_ratio n) as -> by (unfold FsStats.fix_ratio; by rewrite Hf).
  pose proof (struct_stats_only X t t1 Hso Hinv) as Hinv1. pose proof (ti_coherent _ _ Hinv1) as Hco1.
  assert (node_stats n = Some (mk_sr 1 0 1 (count_chunks (lastchunk len) (lastchunksize len) 0 ct 0 0).2 len size (realsize size r)) ∧
    node_stats (fix_ratio n) = Some (mk_sr 1 0 1 (count_chunks (lastchunk len) (lastchunksize len) 0 ct 0 0).2 len size (realsize size new))) as [Hst1 Hst2].
  { unfold node_stats. rewrite Hf, Hf', Hfix. simpl. pose proof (file_not_dir n Hf) as Hnd.
    destruct (Z.eqb_spec (n_type n) TYPE_DIRECTORY); [done|]. rewrite Hd. unfold size. by destruct (count_chunks _ _ _ _ _ _). }
  eexists. split; [done|]. pose proof (rest_inv _ _ (rest_stats_only _ _ Hso)) as (R1 & R2 & R3 & R4 & R5 & R6 & R7 & R8 & R9).
  split; [split|split].
  - eapply struct_fixed; [| | | |exact Hinv1]; [|done|done|].
    + intros j. rewrite lookup_put. case_decide; [subst j; rewrite Hn1; constructor|destruct (t_nodes t1 !! j); by constructor].
      unfold fixed, bones. rewrite Hw'. unfold kin in Hk'. injection Hk' as K1 K2 K3 K4 K5 K6 K7 K8. by rewrite K1, K2, K3, K4, K5, Hfix, Hd.
    + apply (lists_same t1); [|done| |apply (ti_fs _ _ Hinv1)].
      * intros j. rewrite lookup_put. case_decide; [subst j; rewrite Hn1; constructor|destruct (t_nodes t1 !! j); by constructor].
        by rewrite Hfix.
      * rewrite (view_put t1 i n); [apply (fs_tree _ (ti_fs _ _ Hinv1))|done|by rewrite Hfix].
  - eapply gapped_ext; [|apply (pending_start g i n (fix_ratio n) dd t1 Hco1 Hn1); [| | |exact Hpend]].
    + intros j. assert (parents_of t1 i = parents_of t i) as ->.
      { unfold parents_of. rewrite Hn, Hn1. by apply parent_dirs_edges. }
      unfold g. apply sr_of_eq. generalize (occurs j (parents_of t i)). intros k. unfold dd. sr_ring.
    + unfold skel. unfold kin in Hk'. injection Hk' as K1 K2 K3 _. by rewrite K1, K2, K3, Hfix, Hd.
    + unfold dir_stats. by rewrite Hfix, Hd.
    + rewrite Hst2, (st_of_node _ _ n Hn1), Hst1. unfold dd, d. simpl. unfold equiv, sr_equiv, sr_plus, sr_only_realsize; simpl.
      rewrite !Z.add_0_r. split_and!; try reflexivity. unfold cong, u64. rewrite Zplus_mod_idemp_r. f_equal. lia.
  - split; try done.
    + exists (fix_ratio n). by rewrite lookup_put, decide_True.
    + intros j. rewrite lookup_put. pose proof (stats_only_rel _ _ Hso j) as Hj. case_decide; [subst j; rewrite Hn; by constructor|].
      destruct Hj; constructor. split; [by apply kin_erase|]. intros _. by apply frozen_erase.
  - by rewrite lookup_put, decide_True.
Qed.

Lemma fix_ratio_current n : is_file n = true → shape_ok n → current_ratio sclasstab MaxECRedundancyLevel (fix_ratio n) = current_ratio sclasstab MaxECRedundancyLevel n.
Proof.
  intros Hf Hs. destruct (file_data n Hs Hf) as (?&?&?&?&Hd). unfold FsStats.fix_ratio, set_ratio. by rewrite Hf, Hd.
Qed.

Lemma fix_ratio_id n len ct nl r :
  n_data n = fdata len ct nl r → is_file n = true → current_ratio sclasstab MaxECRedundancyLevel n = r → fix_ratio n = n.
Proof. intros Hd Hf Hr. unfold FsStats.fix_ratio, set_ratio. rewrite Hf, Hd, Hr, <- Hd. by destruct n. Qed.

Lemma fix_ratio_idem n : shape_ok n → fix_ratio (fix_ratio n) = fix_ratio n.
Proof.
  intros Hs. destruct (is_file n) eqn:Hf.
  - destruct (file_data n Hs Hf) as (?&?&?&?&Hd). unfold FsStats.fix_ratio, set_ratio. rewrite Hf, Hd. simpl.
    unfold is_file in *. simpl. by rewrite Hf.
  - unfold FsStats.fix_ratio. by rewrite !Hf.
Qed.

Lemma file_changed_refl i n t : t_nodes t !! i = Some n → file_changed i n t t.
Proof. intros Hn. split; try done; [by exists n|]. intros j. destruct (t_nodes t !! j); by constructor. Qed.

(** The statistics of a node with the ratio and the parents brought up to date. *)
Lemma get_stats_2_inv X i n t :
  tree_inv X t → t_nodes t !! i = Some n →
  ∃ sr t', fsnodes_get_stats i 2 t = Some (sr, t') ∧ tree_inv X t' ∧ file_changed i (fix_ratio n) t t' ∧
    t_nodes t' !! i = Some (fix_ratio n) ∧ node_stats (fix_ratio n) = Some sr.
Proof.
  intros Hinv Hn. pose proof (ti_coherent _ _ (ti_struct _ _ Hinv)) as Hco. assert (shape_ok n) as Hs by (by eapply co_shape).
  unfold FsTree.fsnodes_get_stats. rewrite Hn. cbn [mbind option_bind]. destruct (is_file n) eqn:Hf; simpl (_ && _).
  - destruct (file_data n Hs Hf) as (len & ct & nl & r & Hd).
    destruct (mend_ratio_inv X i n t Hinv Hn Hf) as (t1 & Hm & Hinv1 & Hch & Hn1). unfold mend_ratio in Hm. rewrite Hd in *.
    destruct (fix_ratio_file n Hf Hs) as (_ & _ & Hs' & _). destruct (node_stats_some _ Hs') as [sr Hsr].
    cbn [negb andb]. destruct (Z.eqb_spec 2 0); [done|]. destruct (Z.eqb_spec 2 2); [|done]. cbv zeta. cbn [negb].
    destruct (Z.eqb_spec (current_ratio sclasstab MaxECRedundancyLevel n) r) as [Heq|Hne].
    + assert (fix_ratio n = n) as Hid by (by eapply fix_ratio_id). cbn [mbind option_bind]. rewrite Hn. cbn [mbind option_bind].
      rewrite Hid in *. rewrite Hsr. cbn [mbind option_bind]. exists sr, t. split_and!; try done. by apply file_changed_refl.
    + rewrite Hm. cbn [mbind option_bind]. rewrite Hn1. cbn [mbind option_bind]. rewrite Hsr. cbn [mbind option_bind]. by exists sr, t1.
  - assert (fix_ratio n = n) as Hid by (unfold FsStats.fix_ratio; by rewrite Hf). rewrite Hid.
    destruct (node_stats_some _ Hs) as [sr Hsr]. cbn [mbind option_bind]. rewrite Hn. cbn [mbind option_bind]. rewrite Hsr.
    exists sr, t. split_and!; try done. by apply file_changed_refl.
Qed.

Lemma check_realsize_inv X i n t :
  tree_inv X t → t_nodes t !! i = Some n →
  ∃ t', fsnodes_check_realsize sclasstab MaxECRedundancyLevel i t = Some t' ∧ tree_inv X t' ∧ file_changed i (fix_ratio n) t t' ∧
    t_nodes t' !! i = Some (fix_ratio n).
Proof.
  intros Hinv Hn. pose proof (ti_coherent _ _ (ti_struct _ _ Hinv)) as Hco. assert (shape_ok n) as Hs by (by eapply co_shape).
  unfold fsnodes_check_realsize. rewrite Hn. cbn [mbind option_bind]. destruct (is_file n) eqn:Hf.
  - destruct (file_data n Hs Hf) as (len & ct & nl & r & Hd).
    destruct (mend_ratio_inv X i n t Hinv Hn Hf) as (t1 & Hm & Hinv1 & Hch & Hn1). unfold mend_ratio in Hm. rewrite Hd in *.
    case_if; [|by exists t1]. assert (fix_ratio n = n) as -> by (by eapply fix_ratio_id). exists t. split_and!; try done.
    by apply file_changed_refl.
  - assert (fix_ratio n = n) as -> by (unfold FsStats.fix_ratio; by rewrite Hf). exists t. split_and!; try done. by apply file_changed_refl.
Qed.

End with_classes.
