(* ===== verification/FsRequests.v ===== *)
(** * Requests keep the invariant

    Each request of [FsOps.v] returns, and leaves a state with the invariant of the
    tree: the requests that make, remove and add names, and those for the files of the
    trash and the length of files.  [FsMoves.v] has the move. *)

From S2P Require Import Prelude HashChain MfsComm FreeInodes AppendRes StorageClass DataPack FsNodes PosixAcl FsAccess AclFacts FsTree FsOps FsStats FsTreeInv FsTreeEdges FsTreeLink FsTreeNodes FsTreeOps FsWalks FsTreeUnlink FsTreeFiles.

(** ** Changes of one node that no edge sees *)

Lemma with_vars_id t : with_vars (t_vars t) t = t.
Proof. by destruct t. Qed.

Lemma follows_none o v : counters_follow o o v v.
Proof. split; [right; split; [done|lia]..|]. intros sc. split; right; (split; [done|lia]). Qed.

Lemma put_struct X t i n n' v :
  struct_inv X t → t_nodes t !! i = Some n → bones n' = bones n → n_mode n' = n_mode n → n_aclpermflag n' = n_aclpermflag n →
  n_acldefflag n' = n_acldefflag n → counters_follow (Some n) (Some n') (t_vars t) v → struct_inv X (put i n' (with_vars v t)).
Proof.
  intros Hinv Hn Hb Hm Hpf Hdf Hv. set (t' := put i n' (with_vars v t)).
  assert (nodes_rel (λ _ m m', bones m' = bones m ∧ n_mode m' = n_mode m ∧ n_aclpermflag m' = n_aclpermflag m ∧ n_acldefflag m' = n_acldefflag m) t t') as Hrel.
  { intros j. unfold t'. rewrite lookup_put. case_decide; [subst j; rewrite Hn; by constructor|]. simpl. destruct (t_nodes t !! j); by constructor. }
  apply (struct_bones X t); try done.
  - eapply nodes_rel_impl; [|exact Hrel]. naive_solver.
  - apply (lists_same t); [|done| |apply (ti_fs _ _ Hinv)].
    + eapply nodes_rel_impl; [|exact Hrel]. naive_solver.
    + apply (tree_ok_le t); [| |apply (fs_tree _ (ti_fs _ _ Hinv))].
      * eapply nodes_rel_impl; [|exact Hrel]. intros j m m' [(_ & ? & -> & _)%bones_inv _]. done.
      * intros j q (m & e & Hm' & Hin & Hq)%parent_of_view. apply parent_of_view.
        destruct (nodes_rel_r _ _ _ _ _ Hrel Hm') as (m0 & Hm0 & [(_ & _ & Hp & _)%bones_inv _]). exists m0, e. by rewrite <- Hp.
  - apply (counters_update _ (t_vars t) v i (Some n')); [apply (ti_counters _ _ Hinv)|]. simpl. by rewrite Hn.
Qed.

Lemma put_inv X t i n n' v :
  tree_inv X t → t_nodes t !! i = Some n → bones n' = bones n → n_mode n' = n_mode n → n_aclpermflag n' = n_aclpermflag n →
  n_acldefflag n' = n_acldefflag n → counters_follow (Some n) (Some n') (t_vars t) v →
  node_stats n' = node_stats n → dir_stats n' = dir_stats n → tree_inv X (put i n' (with_vars v t)).
Proof.
  intros [Hinv Hst] Hn Hb Hm Hpf Hdf Hv Hs Hd. split; [by apply (put_struct X t i n)|].
  assert (∀ e, edge_stats (put i n' (with_vars v t)) e = edge_stats t e) as Hes.
  { intros e. unfold edge_stats, st_of. change (t_edges (put i n' (with_vars v t))) with (t_edges t). destruct (t_edges t !! e) as [ed|]; [|done].
    rewrite lookup_put. case_decide as Hc; [|done]. by rewrite <- Hc, Hn, Hs. }
  intros j m st Hj Ht Hst'. rewrite (dir_sum_ext t) by (intros; apply Hes).
  apply bones_inv in Hb as (_ & Hty & _ & Hc & _).
  apply put_cases in Hj as [[-> ->]|[Hne Hj]]; [rewrite Hc; apply (Hst i n); congruence|by apply (Hst j m)].
Qed.

Lemma put_inv_plain X t i n n' :
  tree_inv X t → t_nodes t !! i = Some n → weight n' = weight n → bones n' = bones n → n_mode n' = n_mode n →
  n_aclpermflag n' = n_aclpermflag n → n_acldefflag n' = n_acldefflag n →
  node_stats n' = node_stats n → dir_stats n' = dir_stats n → tree_inv X (put i n' t).
Proof.
  intros Hinv Hn Hw Hb Hm Hpf Hdf Hs Hd. rewrite <- (with_vars_id t). apply (put_inv X t i n); try done.
  destruct (weight_sums _ _ Hw) as (W1 & W2 & W3 & W4 & W5).
  split; simpl; rewrite ?W1, ?W2, ?W3; [right; split; [done|lia]..|]. intros sc. rewrite W4, W5. split; right; (split; [done|lia]).
Qed.

(** *** The class of a node *)

Lemma change_class_inv X t i n sc :
  tree_inv X t → t_nodes t !! i = Some n →
  ∃ t' v n', change_class i sc t = Some t' ∧ t' = put i n' (with_vars v t) ∧ tree_inv X t' ∧ n' = with_class sc (n_eattr n) (n_trashretention n) n.
Proof.
  intros Hinv Hn. unfold change_class. rewrite Hn. cbn [mbind option_bind]. destruct (Z.eqb_spec sc (n_sclassid n)) as [->|Hne].
  { exists t, (t_vars t), n. assert (with_class (n_sclassid n) (n_eattr n) (n_trashretention n) n = n) as -> by (by destruct n).
    by rewrite with_vars_id, put_id. }
  set (n' := with_class sc (n_eattr n) (n_trashretention n) n).
  set (v := t_vars (sclass_incref sc (n_type n) (sclass_decref (n_sclassid n) (n_type n) t))).
  assert (sclass_incref sc (n_type n) (put i n' (sclass_decref (n_sclassid n) (n_type n) t)) = put i n' (with_vars v t)) as Heq.
  { unfold v, sclass_incref, sclass_decref, sclass_ref. simpl. destruct (default (0, 0) (v_sclass (t_vars t) !! n_sclassid n)) as [f d].
    simpl. by destruct (default (0, 0) _) as [f' d']. }
  exists (put i n' (with_vars v t)), v, n'. split; [by rewrite <- Heq|]. split; [done|]. split; [|done].
  apply (put_inv X t i n); try done. by apply changeclass_counters.
Qed.

(** ** What a request may leave *)

(** Names, edges and the shape of the nodes are kept; sizes and the ratio may have been
    brought up to date. *)
Record kept (t t' : tree) : Prop := {
  kp_inv : tree_inv [] t';
  kp_names : t_names t' = t_names t;
  kp_edges : t_edges t' = t_edges t;
  kp_nodes : nodes_rel (λ _ n n', kin n' = kin n) t t' }.

(** The request is refused, or done with the effect [done]. *)
Definition served (t : tree) (r : option answer) (effect : Z → tree → option tree_entry → Prop) : Prop :=
  (∃ status t', status ≠ MFS_STATUS_OK ∧ r = refuse status t' ∧ kept t t') ∨
  (∃ i t' e, r = Some (MFS_STATUS_OK, i, t', e) ∧ tree_inv [] t' ∧ effect i t' e).

Lemma kept_refl t : tree_inv [] t → kept t t.
Proof. intros Hinv. split; try done. intros j. destruct (t_nodes t !! j); by constructor. Qed.

Lemma kept_trans t1 t2 t3 : kept t1 t2 → kept t2 t3 → kept t1 t3.
Proof.
  intros [H1 H2 H3 H4] [K1 K2 K3 K4]. split; [done|congruence..|]. eapply nodes_rel_trans; [|exact H4|exact K4].
  intros i a b c. simpl. congruence.
Qed.

Lemma kept_changed i n t t' : tree_inv [] t' → file_changed i n t t' → kept t t'.
Proof. intros Hinv [_ Hrel He Hn _]. split; try done. eapply nodes_rel_impl; [|exact Hrel]. by intros j m m' [? _]. Qed.

Lemma served_kept t t' status effect : kept t t' → status ≠ MFS_STATUS_OK → served t (refuse status t') effect.
Proof. intros Hk Hst. left. by exists status, t'. Qed.

Lemma served_refuse t status effect : tree_inv [] t → status ≠ MFS_STATUS_OK → served t (refuse status t) effect.
Proof. intros Hinv. by apply served_kept, kept_refl. Qed.

(** The next test of a request: it refuses, or the request goes on. *)
Ltac test_refuses := case_if; [by apply served_refuse|].

Lemma lookup_edge X t p pn name :
  struct_inv X t → t_nodes t !! p = Some pn → n_type pn = TYPE_DIRECTORY →
  fsnodes_lookup p name t = Some (t_names t !! (p, name)).
Proof. intros Hinv Hp Ht. unfold fsnodes_lookup. rewrite Hp. cbn [mbind option_bind]. rewrite Ht. done. Qed.

Lemma name_unused p name t : fsnodes_nameisused p name t = false → t_names t !! (p, name) = None.
Proof.
  unfold fsnodes_nameisused, fsnodes_edge_find. destruct (t_names t !! (p, name)); [|done]. rewrite bool_decide_true by (by eexists). done.
Qed.

(** An edge of the table of names. *)
Lemma name_edge X t p name e :
  struct_inv X t → t_names t !! (p, name) = Some e →
  ∃ ed cn, t_edges t !! e = Some ed ∧ e_parent ed = Some p ∧ e_name ed = name ∧ t_nodes t !! e_child ed = Some cn ∧
    e ∈ n_parents cn ∧ e_child ed ≠ MFS_ROOT_ID.
Proof.
  intros Hinv He. pose proof (ti_coherent _ _ Hinv) as Hco. apply (co_names t Hco) in He as (ed & He & Hp & Hn).
  destruct (co_child t Hco e ed He) as (cn & Hcn & Hin). exists ed, cn. split_and!; try done. intros Hroot.
  destruct (co_root t Hco) as (r & Hr & _ & Hnil). rewrite Hroot in Hcn. assert (cn = r) as -> by congruence. rewrite Hnil in Hin.
  by apply not_elem_of_nil in Hin.
Qed.

Lemma children_dir_or_none n : shape_ok n → (n_type n =? TYPE_DIRECTORY) && has_children n = false → children n = [].
Proof.
  unfold shape_ok, has_children, children. destruct (n_data n) as [[|e cs] nl el st q| | | |]; try done. intros ->. done.
Qed.

Lemma is_dir_spec n : is_dir n = (n_type n =? TYPE_DIRECTORY).
Proof. done. Qed.

Section with_classes.
Variable sclasstab : Z → storageclass.
Variable MaxECRedundancyLevel : Z.
Variable of_isfileopen : Z → bool.
Variable KeepEmptyFilesInTrash : bool.
Variable patterntab : list pattern.
Variable MaxAllowedHardLinks : Z.
Abbreviation fsnodes_get_stats := (fsnodes_get_stats sclasstab MaxECRedundancyLevel).
Abbreviation fsnodes_link := (fsnodes_link sclasstab MaxECRedundancyLevel).
Abbreviation fsnodes_unlink := (fsnodes_unlink sclasstab MaxECRedundancyLevel of_isfileopen KeepEmptyFilesInTrash).
Abbreviation fate := (fate of_isfileopen KeepEmptyFilesInTrash).
Abbreviation fix_ratio := (fix_ratio sclasstab MaxECRedundancyLevel).

(** ** Removal of a name *)

(** The effect of the removal of a name. *)
Definition removes (p : Z) (name : list Z) (i : Z) (t t' : tree) : Prop :=
  ∃ e ed cn, t_names t !! (p, name) = Some e ∧ t_edges t !! e = Some ed ∧ e_child ed = i ∧ t_nodes t !! i = Some cn ∧
    e_parent ed = Some p ∧ t_names t' = delete (p, name) (t_names t) ∧ named_but (eq e) t t' ∧
    (∀ j, j ≠ i → is_Some (t_nodes t' !! j) ↔ is_Some (t_nodes t !! j)) ∧ fate e i cn (t_nodes t' !! i).

Lemma unlink_refused_ok sesflags wd cn uid dirmode t status :
  unlink_refused sesflags wd cn uid dirmode t = Some status → status ≠ MFS_STATUS_OK.
Proof. unfold unlink_refused. repeat case_if; intros [= <-]; done. Qed.

Lemma unlink_allowed sesflags wd cn uid dirmode t :
  shape_ok cn → unlink_refused sesflags wd cn uid dirmode t = None → children cn = [].
Proof.
  intros Hsh Hno. apply children_dir_or_none; [done|]. unfold unlink_refused in Hno. rewrite is_dir_spec in Hno.
  destruct (replays sesflags); [by destruct (_ && _)|]. repeat (destruct (negb _) in Hno; try done);
    repeat (destruct (flag _ _) in Hno; try done); destruct (n_type cn =? TYPE_DIRECTORY), (has_children cn); done.
Qed.

Lemma univ_unlink_served ts rootinode sesflags parent name uid gid dirmode t :
  tree_inv [] t →
  served t (fs_univ_unlink sclasstab MaxECRedundancyLevel of_isfileopen KeepEmptyFilesInTrash ts rootinode sesflags parent name uid gid dirmode t)
    (λ i t' e, ∃ p, fsnodes_node_find_ext (view t) rootinode sesflags parent false = Some (Some p) ∧ removes p name i t t' ∧
       e = if replays sesflags then None else Some (UNLINK ts p name i)).
Proof.
  intros Hinv. pose proof (ti_struct _ _ Hinv) as Hs. pose proof (ti_coherent _ _ Hs) as Hco. unfold fs_univ_unlink. test_refuses.
  destruct (find_total [] t rootinode sesflags parent false Hinv) as (found & Hfound & Hf). rewrite Hfound. cbn [mbind option_bind].
  destruct found as [p|]; [|by apply served_refuse]. destruct (Hf p eq_refl) as [wd Hwd]. rewrite Hwd. cbn [mbind option_bind].
  rewrite is_dir_spec. destruct (Z.eqb_spec (n_type wd) TYPE_DIRECTORY) as [Hdir|]; [simpl negb; cbv iota|by apply served_refuse].
  test_refuses. destruct (may_total [] t sesflags p wd uid gid (Z.lor MODE_MASK_W MODE_MASK_X) Hinv) as [ok ->]. cbn [mbind option_bind].
  test_refuses. test_refuses. rewrite (lookup_edge [] t p wd) by done. cbn [mbind option_bind].
  destruct (t_names t !! (p, name)) as [e|] eqn:Hname; [|by apply served_refuse].
  destruct (name_edge [] t p name e Hinv Hname) as (ed & cn & He & Hp & Hn & Hcn & Hin & Hroot).
  rewrite He. cbn [mbind option_bind]. rewrite Hcn. cbn [mbind option_bind].
  destruct (unlink_refused sesflags wd cn uid dirmode t) as [status|] eqn:Href.
  { apply served_refuse; [done|]. by eapply unlink_refused_ok. }
  destruct (unlink_inv sclasstab MaxECRedundancyLevel of_isfileopen KeepEmptyFilesInTrash ts e ed p cn t Hinv He Hp Hcn)
    as (t' & -> & Hinv' & (Hnm & Hbut & Hdom) & Hfate); [eapply unlink_allowed, Href; by eapply co_shape|].
  cbn [mbind option_bind]. right. do 3 eexists. split; [done|]. split; [done|]. exists p. split; [done|]. split; [|done].
  exists e, ed, cn. rewrite Hp, Hn in Hnm. split_and!; try done. intros j Hj. by destruct (Hdom j Hj).
Qed.

(** ** New nodes *)

(** The effect of a request that makes a node. *)
Definition makes (p : Z) (name : list Z) (ty uid i : Z) (t t' : tree) : Prop :=
  t_names t !! (p, name) = None ∧ t_nodes t !! i = None ∧
  ∃ e ed n, t_names t' = <[(p, name) := e]> (t_names t) ∧ t_edges t' = <[e := ed]> (t_edges t) ∧ t_edges t !! e = None ∧
    e_child ed = i ∧ e_parent ed = Some p ∧ e_name ed = name ∧
    t_nodes t' !! i = Some n ∧ n_type n = ty ∧ n_uid n = uid ∧ n_parents n = [e] ∧
    ∀ j, j ≠ i → is_Some (t_nodes t' !! j) ↔ is_Some (t_nodes t !! j).

(** A change of the new node, or of the statistics of the directories above it. *)
Lemma makes_rel p name ty uid i t t1 t2 :
  makes p name ty uid i t t1 → t_names t2 = t_names t1 → t_edges t2 = t_edges t1 →
  nodes_rel (λ _ n n', n_type n' = n_type n ∧ n_uid n' = n_uid n ∧ n_parents n' = n_parents n) t1 t2 → makes p name ty uid i t t2.
Proof.
  intros (H1 & H2 & e & ed & n & H3 & H4 & H5 & H6 & H7 & H8 & H9 & H10 & H11 & H12 & H13) Hnm Hed Hrel. split; [done|]. split; [done|].
  destruct (nodes_rel_l _ _ _ _ _ Hrel H9) as (n' & Hn' & Ht & Hu & Hp). exists e, ed, n'. rewrite Hnm, Hed, Ht, Hu, Hp.
  split_and!; try done. intros j Hj. rewrite <- (H13 j Hj). by eapply nodes_rel_dom.
Qed.

Lemma frozen_uid n n' : frozen n' = frozen n → n_uid n' = n_uid n.
Proof.
  intros H. apply (f_equal n_uid) in H. unfold frozen, core, erase in H. simpl in H. by destruct (n_data n), (n_data n').
Qed.

Lemma create_makes ts p name ty mode cumask uid gid copysgid t pn :
  tree_inv [] t → t_nodes t !! p = Some pn → n_type pn = TYPE_DIRECTORY → t_names t !! (p, name) = None → creatable ty → room (t_ids t) →
  ∃ i t', fsnodes_create_node sclasstab MaxECRedundancyLevel ts p name ty mode cumask uid gid copysgid t = Some (i, t') ∧ tree_inv [] t' ∧
    makes p name ty uid i t t' ∧ i ≠ p ∧
    (ty = TYPE_SYMLINK → ∃ n nl, t_nodes t' !! i = Some n ∧ n_data n = sdata [] nl).
Proof.
  intros Hinv Hp Hpt Hname Hty Hroom.
  destruct (create_node_inv sclasstab MaxECRedundancyLevel [] ts p name ty mode cumask uid gid copysgid t pn Hinv Hp Hpt Hname Hty Hroom)
    as (i & t' & ed & n & mode' & Hc & Hinv' & Hi & Hec & Hep & Hen & Hedges & Hnames & Hn & Hpar & Hfr & Hrel).
  exists i, t'. split; [done|]. split; [done|]. assert (i ≠ p) as Hne by congruence. split; [|split; [done|]].
  2: { intros ->. specialize (Hfr false false). apply (f_equal n_data) in Hfr. unfold frozen, core, erase in Hfr. simpl in Hfr.
       destruct (n_data n) as [|path nl| | |] eqn:Hd; cbn [n_data with_flags with_data] in Hfr; rewrite ?Hd in Hfr; try done.
       exists n, nl. split; [done|]. rewrite Hd. simpl in Hfr. congruence. }
  split; [done|]. split; [done|].
  assert (n_type n = ty ∧ n_uid n = uid) as [Ht Hu].
  { specialize (Hfr false false). pose proof (frozen_uid _ _ Hfr) as Hu. apply frozen_inv in Hfr as (Ht & _). simpl in Ht, Hu. rewrite Ht, Hu.
    unfold FsStats.fix_ratio, set_ratio. case_if; [|done]. by destruct (n_data _). }
  exists (t_edgenext t), ed, n. split_and!; try done.
  - destruct (t_edges t !! t_edgenext t) as [ed'|] eqn:He; [|done]. apply (co_fresh t (ti_coherent _ _ (ti_struct _ _ Hinv))) in He. lia.
  - intros j Hj. rewrite (nodes_rel_dom _ _ _ j Hrel), lookup_put, decide_False by done. done.
Qed.

Lemma quota_refuses_total X t sesflags p pn i l s r :
  struct_inv X t → t_nodes t !! p = Some pn → is_Some (quota_refuses sesflags p i l s r t).
Proof. intros Hinv Hp. unfold quota_refuses. case_if; [by eexists|]. eapply test_quota_total; [done|by eexists]. Qed.

Lemma univ_create_served ts rootinode sesflags parent name ty mode cumask uid gid rdev copysgid t :
  tree_inv [] t → room (t_ids t) → gid ≠ [] →
  served t (fs_univ_create sclasstab MaxECRedundancyLevel patterntab ts rootinode sesflags parent name ty mode cumask uid gid rdev copysgid t)
    (λ i t' e, ∃ p, fsnodes_node_find_ext (view t) rootinode sesflags parent false = Some (Some p) ∧ makes p name ty uid i t t').
Proof.
  intros Hinv Hroom Hgid. pose proof (ti_struct _ _ Hinv) as Hs. pose proof (ti_coherent _ _ Hs) as Hco. unfold fs_univ_create. test_refuses.
  destruct ((ty =? TYPE_FILE) || (ty =? TYPE_SOCKET) || (ty =? TYPE_FIFO) || (ty =? TYPE_BLOCKDEV) || (ty =? TYPE_CHARDEV)
            || (ty =? TYPE_DIRECTORY)) eqn:Hkind; [simpl negb; cbv iota|by apply served_refuse].
  assert (creatable ty) as Hty. { clear -Hkind. unfold creatable. rewrite !orb_true_iff, !Z.eqb_eq in Hkind. tauto. }
  test_refuses.
  destruct (find_total [] t rootinode sesflags parent false Hs) as (found & Hfound & Hf). rewrite Hfound. cbn [mbind option_bind].
  destruct found as [p|]; [|by apply served_refuse]. destruct (Hf p eq_refl) as [wd Hwd]. rewrite Hwd. cbn [mbind option_bind].
  rewrite is_dir_spec. destruct (Z.eqb_spec (n_type wd) TYPE_DIRECTORY) as [Hdir|]; [simpl negb; cbv iota|by apply served_refuse].
  test_refuses. destruct (may_total [] t sesflags p wd uid gid (Z.lor MODE_MASK_W MODE_MASK_X) Hs) as [ok ->]. cbn [mbind option_bind].
  test_refuses. test_refuses. destruct (fsnodes_nameisused p name t) eqn:Hused; [by apply served_refuse|].
  pose proof (name_unused p name t Hused) as Hname.
  destruct (quota_refuses_total [] t sesflags p wd 1 0 0 0 Hs Hwd) as [full ->]. cbn [mbind option_bind]. test_refuses.
  destruct gid as [|gid0 gids]; [done|]. cbn [head mbind option_bind].
  destruct (create_makes ts p name ty mode cumask uid gid0 copysgid t wd Hinv Hwd Hdir Hname Hty Hroom) as (i & t1 & -> & Hinv1 & Hmk & Hne & _).
  cbn [mbind option_bind]. pose proof Hmk as (_ & _ & e & ed & n & _ & _ & _ & _ & _ & _ & Hn & Hnt & _). rewrite Hn. cbn [mbind option_bind].
  set (pt := patterns_find_matching patterntab uid (gid0 :: gids) name).
  destruct (change_class_inv [] t1 i n (pattern_class pt n) Hinv1 Hn) as (t2 & v & n2 & -> & Ht2 & Hinv2 & Hn2eq). cbn [mbind option_bind].
  assert (t_nodes t2 !! i = Some n2) as Hn2 by (rewrite Ht2, lookup_put; by rewrite decide_True). rewrite Hn2. cbn [mbind option_bind].
  set (n3 := with_class (n_sclassid n2) (pattern_eattr pt n2) (pattern_retention pt n2) n2).
  assert (∃ n4, (if (ty =? TYPE_BLOCKDEV) || (ty =? TYPE_CHARDEV) then
                   match n_data n3 with devdata _ nl => Some (with_data (devdata rdev nl) n3) | _ => None end
                 else Some n3) = Some n4 ∧ tree_inv [] (put i n4 t2) ∧ n_type n4 = n_type n ∧ n_uid n4 = n_uid n ∧ n_parents n4 = n_parents n)
    as (n4 & Hn4 & Hinv4 & Ht4 & Hu4 & Hp4).
  { pose proof (co_shape _ (ti_coherent _ _ (ti_struct _ _ Hinv2)) i n2 Hn2) as Hsh. assert (n_type n2 = ty) as Hnt2 by (by rewrite Hn2eq).
    destruct ((ty =? TYPE_BLOCKDEV) || (ty =? TYPE_CHARDEV)) eqn:Hdev.
    - assert (∃ rd nl, n_data n2 = devdata rd nl) as (rd & nl & Hd).
      { unfold shape_ok, is_file in Hsh. rewrite Hnt2 in Hsh.
        assert (ty = TYPE_BLOCKDEV ∨ ty = TYPE_CHARDEV) as Hor by (by rewrite orb_true_iff, !Z.eqb_eq in Hdev). clear -Hsh Hor.
        destruct (n_data n2) as [| |rd nl| |]; [| |by exists rd, nl|..]; exfalso; destruct Hor as [-> | ->]; try done; by destruct Hsh. }
      unfold n3 at 1. cbn [n_data with_class]. rewrite Hd. eexists. split; [done|]. split; [|unfold n3; by rewrite Hn2eq].
      apply (put_inv_plain [] t2 i n2); try done; unfold weight, bones, file_length, children, links, elems, node_stats, dir_stats, n3; simpl; rewrite Hd; try done.
    - exists n3. split; [done|]. split; [|unfold n3; by rewrite Hn2eq]. by apply (put_inv_plain [] t2 i n2). }
  rewrite Hn4. cbn [mbind option_bind]. right. do 3 eexists. split; [done|]. split; [done|]. exists p. split; [done|].
  apply (makes_rel p name ty uid i t t1); [done|by rewrite Ht2..|]. intros j. rewrite lookup_put, Ht2, lookup_put.
  case_decide as Hj; [subst j; rewrite Hn; by constructor|]. simpl. destruct (t_nodes t1 !! j); by constructor.
Qed.

(** A symbolic link gets its path after it was linked; the directories above it get the
    length. *)
Lemma path_inv t p pn i e ed n nl path :
  tree_inv [] t → t_nodes t !! p = Some pn → n_type pn = TYPE_DIRECTORY → t_nodes t !! i = Some n → n_type n = TYPE_SYMLINK →
  n_data n = sdata [] nl → n_parents n = [e] → t_edges t !! e = Some ed → e_parent ed = Some p →
  ∃ t', fsnodes_add_stats (Some p) (mk_sr 0 0 0 0 (Z.of_nat (length path)) 0 0) (put i (with_data (sdata path nl) n) t) = Some t' ∧
    tree_inv [] t' ∧ stats_only (put i (with_data (sdata path nl) n) t) t'.
Proof.
  intros [Hs Hst] Hp Hpt Hi Hty Hd Hpar He Hep. pose proof (ti_coherent _ _ Hs) as Hco. set (n' := with_data (sdata path nl) n).
  set (d := mk_sr 0 0 0 0 (Z.of_nat (length path)) 0 0).
  assert (struct_inv [] (put i n' t)) as Hs1.
  { rewrite <- (with_vars_id t). apply (put_struct [] t i n); try done.
    - unfold bones, children, links, elems, n'. simpl. by rewrite Hd.
    - assert (weight n' = weight n) as Hw by (unfold weight, file_length, n'; simpl; by rewrite Hd).
      destruct (weight_sums _ _ Hw) as (W1 & W2 & W3 & W4 & W5).
      split; simpl; rewrite ?W1, ?W2, ?W3; [right; split; [done|lia]..|]. intros sc. rewrite W4, W5. split; right; (split; [done|lia]). }
  pose proof (ti_coherent _ _ Hs1) as Hco1.
  assert (pending (λ _, sr_zero) (parents_of t i) d (put i n' t)) as Hpend.
  { apply (pending_start (λ _, sr_zero) i n n' d t Hco Hi); [| | |exact Hst].
    - unfold skel, children, n'. simpl. by rewrite Hd.
    - unfold dir_stats, n'. simpl. by rewrite Hd.
    - rewrite (st_of_node _ _ n Hi). unfold node_stats, is_file, n'. simpl. rewrite Hty, Hd. simpl. apply sr_of_eq. unfold d. sr_ring. }
  unfold parents_of in Hpend. rewrite Hi, Hpar in Hpend. unfold parent_dirs, edge_parent in Hpend. cbn [omap list_omap] in Hpend.
  rewrite He in Hpend. simpl in Hpend. rewrite Hep in Hpend.
  destruct (climb_spec (λ _, sr_zero) (λ s, sr_add s d) (Some p) d [] (put i n' t) Hco1 (fs_tree _ (ti_fs _ _ Hs1)))
    as (t' & Hc & Hso & Hpend'); [intros s; apply sr_add_equiv| |done|].
  { intros q [= <-]. destruct (decide (i = p)) as [->|Hne]; [by rewrite Hp in Hi; injection Hi as <-; rewrite Hty in Hpt|].
    exists pn. by rewrite lookup_put, decide_False. }
  exists t'. split; [exact Hc|]. split; [|done]. apply pending_nil in Hpend'. split; [by eapply struct_stats_only|done].
Qed.

Lemma univ_symlink_served ts rootinode sesflags parent name path uid gid t :
  tree_inv [] t → room (t_ids t) → gid ≠ [] →
  served t (fs_univ_symlink sclasstab MaxECRedundancyLevel ts rootinode sesflags parent name path uid gid t)
    (λ i t' e, ∃ p gid0, fsnodes_node_find_ext (view t) rootinode sesflags parent false = Some (Some p) ∧ head gid = Some gid0 ∧
       makes p name TYPE_SYMLINK uid i t t' ∧ (∃ n nl, t_nodes t' !! i = Some n ∧ n_data n = sdata path nl) ∧
       e = if replays sesflags then None else Some (SYMLINK ts p name path uid gid0 i)).
Proof.
  intros Hinv Hroom Hgid. pose proof (ti_struct _ _ Hinv) as Hs. unfold fs_univ_symlink. do 3 test_refuses.
  destruct (find_total [] t rootinode sesflags parent false Hs) as (found & Hfound & Hf). rewrite Hfound. cbn [mbind option_bind].
  destruct found as [p|]; [|by apply served_refuse]. destruct (Hf p eq_refl) as [wd Hwd]. rewrite Hwd. cbn [mbind option_bind].
  rewrite is_dir_spec. destruct (Z.eqb_spec (n_type wd) TYPE_DIRECTORY) as [Hdir|]; [simpl negb; cbv iota|by apply served_refuse].
  test_refuses. destruct (may_total [] t sesflags p wd uid gid (Z.lor MODE_MASK_W MODE_MASK_X) Hs) as [ok ->]. cbn [mbind option_bind].
  test_refuses. test_refuses. destruct (fsnodes_nameisused p name t) eqn:Hused; [by apply served_refuse|].
  pose proof (name_unused p name t Hused) as Hname.
  destruct (quota_refuses_total [] t sesflags p wd 1 (Z.of_nat (length path)) 0 0 Hs Hwd) as [full ->]. cbn [mbind option_bind]. test_refuses.
  destruct gid as [|gid0 gids]; [done|]. cbn [head mbind option_bind].
  destruct (create_makes ts p name TYPE_SYMLINK 0x1FF 0 uid gid0 false t wd Hinv Hwd Hdir Hname) as (i & t1 & -> & Hinv1 & Hmk & Hne & Hdat);
    [unfold creatable; tauto|done|].
  cbn [mbind option_bind]. destruct (Hdat eq_refl) as (n & nl & Hn & Hd). rewrite Hn. cbn [mbind option_bind]. rewrite Hd. cbn [mbind option_bind].
  pose proof Hmk as (_ & _ & e & ed & n' & _ & Hedges & _ & _ & Hep & _ & Hn' & Hnt & _ & Hpar & Hdom). assert (n' = n) as -> by congruence.
  assert (∃ pn, t_nodes t1 !! p = Some pn ∧ n_type pn = TYPE_DIRECTORY) as (pn & Hpn & Hpt).
  { assert (t_edges t1 !! e = Some ed) as He by (rewrite Hedges; apply lookup_insert_eq).
    destruct (co_parent t1 (ti_coherent _ _ (ti_struct _ _ Hinv1)) e ed p He Hep) as (pn & ? & ? & _). by exists pn. }
  destruct (path_inv t1 p pn i e ed n nl path) as (t2 & -> & Hinv2 & Hso); try done. { rewrite Hedges. apply lookup_insert_eq. }
  cbn [mbind option_bind]. right. do 3 eexists. split; [done|]. split; [done|]. exists p, gid0. split; [done|]. split; [done|].
  pose proof (rest_inv _ _ (rest_stats_only _ _ Hso)) as (R1 & _ & R3 & _). split; [|split; [|done]].
  - apply (makes_rel p name TYPE_SYMLINK uid i t t1); [done|by rewrite R3|by rewrite R1|]. intros j.
    pose proof (stats_only_rel _ _ Hso j) as Hj. rewrite lookup_put in Hj.
    assert (∀ a b : node, erase b = erase a → n_type b = n_type a ∧ n_uid b = n_uid a ∧ n_parents b = n_parents a) as Her.
    { intros a b Hab. destruct (erase_inv _ _ Hab) as (-> & _). apply frozen_erase in Hab. rewrite (frozen_uid _ _ Hab).
      by apply frozen_inv in Hab as (-> & _). }
    case_decide as Hij; [subst j; rewrite Hn; inversion Hj as [a b Hab|]; subst; constructor; by apply Her in Hab|].
    destruct Hj as [a b Hab|]; constructor. by apply Her.
  - destruct (nodes_rel_l _ _ _ i (with_data (sdata path nl) n) (stats_only_rel _ _ Hso)) as (m & Hm & He).
    { by rewrite lookup_put, decide_True. }
    exists m, nl. split; [done|]. unfold erase in He. simpl in He. destruct (n_data m) eqn:Hdm; apply (f_equal n_data) in He; simpl in He; congruence.
Qed.

(** ** Hard links *)

(** The effect of a request that gives a node another name. *)
Definition adds_name (p : Z) (name : list Z) (i : Z) (t t' : tree) : Prop :=
  t_names t !! (p, name) = None ∧
  ∃ e ed n n', t_names t' = <[(p, name) := e]> (t_names t) ∧ t_edges t' = <[e := ed]> (t_edges t) ∧ t_edges t !! e = None ∧
    e_child ed = i ∧ e_parent ed = Some p ∧ e_name ed = name ∧
    t_nodes t !! i = Some n ∧ t_nodes t' !! i = Some n' ∧ n_parents n' = e :: n_parents n ∧ links n' = u16 (links n + 1) ∧
    nodes_rel (λ j m m', n_type m' = n_type m ∧ (j ≠ i → n_parents m' = n_parents m)) t t'.

(** The size the node has is the one its class gives it. *)
Definition size_current (n : node) : Prop := node_stats (fix_ratio n) = node_stats n.

Lemma link_adds ts p c name t pn cn :
  tree_inv [] t → t_nodes t !! c = Some cn → n_type cn ≠ TYPE_DIRECTORY → n_type cn ≠ TYPE_TRASH → n_type cn ≠ TYPE_SUSTAINED →
  t_nodes t !! p = Some pn → n_type pn = TYPE_DIRECTORY → t_names t !! (p, name) = None → size_current cn →
  ∃ t', fsnodes_link ts p c name t = Some t' ∧ tree_inv [] t' ∧ adds_name p name c t t'.
Proof.
  intros Hinv Hc Hd Htr Hsu Hp Hpt Hname Hsize. pose proof (ti_coherent _ _ (ti_struct _ _ Hinv)) as Hco.
  destruct (link_inv sclasstab MaxECRedundancyLevel [] ts p c name t cn Hinv Hc) as (ed & t' & Hec & Hep & Hen & Hlink & Hinv' & Hlk).
  { intros ->. destruct (co_root t Hco) as (r & Hr & Hrt & _). congruence. }
  { unfold may_insert. simpl. split; [by exists pn|]. split; [done|]. split; [intros ->; congruence|]. done. }
  { by right. }
  exists t'. split; [done|]. split; [done|]. split; [done|]. destruct Hlk as [Hrel Hedges _ Hnames _ _ _ _ _ _]. rewrite Hep, Hen in Hnames.
  destruct (nodes_rel_l _ _ _ _ _ Hrel Hc) as (n' & Hn' & [[_ Hpar _ _ Hlinks] _]). rewrite Hec, Z.eqb_refl in Hpar. rewrite Hec, Z.eqb_refl, Hep in Hlinks.
  rewrite (proj2 (Z.eqb_neq _ _) Hd) in Hlinks. simpl in Hlinks.
  exists (t_edgenext t), ed, cn, n'. split_and!; try done.
  - destruct (t_edges t !! t_edgenext t) as [ed'|] eqn:He; [|done]. apply (co_fresh t Hco) in He. lia.
  - eapply nodes_rel_impl; [|exact Hrel]. intros j m m' [[Hk Hpm _ _ _] _]. apply kind_inv in Hk as (Ht & _). split; [done|].
    intros Hj. rewrite Hpm, Hec. by rewrite (proj2 (Z.eqb_neq _ _)).
Qed.

(** A change of sizes before it does not matter. *)
Lemma adds_name_kept p name i t t1 t2 : kept t t1 → adds_name p name i t1 t2 → adds_name p name i t t2.
Proof.
  intros [_ Hnm Hed Hk] (H1 & e & ed & n & n' & H2 & H3 & H4 & H5 & H6 & H7 & H8 & H9 & H10 & H11 & H12).
  rewrite Hnm in H1, H2. rewrite Hed in H3, H4. split; [done|].
  destruct (nodes_rel_r _ _ _ _ _ Hk H8) as (m & Hm & Hkin). unfold kin in Hkin. injection Hkin as K1 K2 K3 K4 K5 K6 K7 K8.
  exists e, ed, m, n'. rewrite <- K2, <- K4. split_and!; try done.
  intros j. specialize (Hk j). specialize (H12 j). destruct Hk as [a b Hab|]; inversion H12 as [b' c [Ht Hp]|]; subst; constructor.
  unfold kin in Hab. injection Hab as A1 A2 _. split; [congruence|]. intros Hj. rewrite Hp by done. done.
Qed.

Lemma nlink_of_some n : shape_ok n → n_type n ≠ TYPE_DIRECTORY → ∃ k, nlink_of n = Some k.
Proof. unfold shape_ok, nlink_of. destruct (n_data n); try done; by eexists. Qed.

Lemma univ_link_served ts rootinode sesflags inode_src parent_dst name uid gid t :
  tree_inv [] t → (replays sesflags = true → ∀ n, t_nodes t !! inode_src = Some n → size_current n) →
  served t (fs_univ_link sclasstab MaxECRedundancyLevel MaxAllowedHardLinks ts rootinode sesflags inode_src parent_dst name uid gid t)
    (λ i t' e, ∃ p, fsnodes_node_find_ext (view t) rootinode sesflags inode_src false = Some (Some i) ∧
       fsnodes_node_find_ext (view t) rootinode sesflags parent_dst false = Some (Some p) ∧
       adds_name p name i t t' ∧ e = if replays sesflags then None else Some (LINK ts i p name)).
Proof.
  intros Hinv Hmr. pose proof (ti_struct _ _ Hinv) as Hs. pose proof (ti_coherent _ _ Hs) as Hco. unfold fs_univ_link. test_refuses.
  destruct (find_total [] t rootinode sesflags inode_src false Hs) as (fsrc & Hfs & Hfs'). rewrite Hfs. cbn [mbind option_bind].
  destruct (find_total [] t rootinode sesflags parent_dst false Hs) as (fdst & Hfd & Hfd'). rewrite Hfd. cbn [mbind option_bind].
  destruct fsrc as [i|]; [|by apply served_refuse]. destruct fdst as [p|]; [|by apply served_refuse].
  destruct (Hfs' i eq_refl) as [sp Hsp]. destruct (Hfd' p eq_refl) as [dwd Hdwd]. rewrite Hsp, Hdwd. cbn [mbind option_bind].
  test_refuses. destruct (Z.eqb_spec (n_type sp) TYPE_TRASH); [by apply served_refuse|].
  destruct (Z.eqb_spec (n_type sp) TYPE_SUSTAINED); [by apply served_refuse|]. simpl (false || false). cbv iota.
  rewrite is_dir_spec. destruct (Z.eqb_spec (n_type sp) TYPE_DIRECTORY); [by apply served_refuse|].
  destruct (nlink_of_some sp (co_shape t Hco i sp Hsp)) as [nl ->]; [done|]. cbn [mbind option_bind]. test_refuses.
  rewrite is_dir_spec. destruct (Z.eqb_spec (n_type dwd) TYPE_DIRECTORY) as [Hdir|]; [simpl negb; cbv iota|by apply served_refuse].
  test_refuses. destruct (may_total [] t sesflags p dwd uid gid (Z.lor MODE_MASK_W MODE_MASK_X) Hs) as [ok ->]. cbn [mbind option_bind].
  test_refuses. test_refuses. destruct (fsnodes_nameisused p name t) eqn:Hused; [by apply served_refuse|].
  pose proof (name_unused p name t Hused) as Hname.
  assert (∀ sp1 t1, t_nodes t1 !! i = Some sp1 → kept t t1 → size_current sp1 →
    ∃ t', fsnodes_link ts p i name t1 = Some t' ∧ tree_inv [] t' ∧ adds_name p name i t t') as Hlink.
  { intros sp1 t1 Hsp1 Hk Hsz. pose proof Hk as [Hinv1 Hnm1 _ Hrel1].
    destruct (nodes_rel_r _ _ _ _ _ Hrel1 Hsp1) as (sp0 & Hsp0 & Hkin). assert (sp0 = sp) as -> by congruence.
    destruct (nodes_rel_l _ _ _ _ _ Hrel1 Hdwd) as (dwd1 & Hdwd1 & Hkin').
    unfold kin in Hkin, Hkin'. injection Hkin as K1 _. injection Hkin' as K1' _.
    destruct (link_adds ts p i name t1 dwd1 sp1) as (t' & Hl & Hinv' & Hadds); try congruence.
    exists t'. split; [done|]. split; [done|]. by eapply adds_name_kept. }
  destruct (replays sesflags) eqn:Hrep; cbn [mbind option_bind].
  - destruct (Hlink sp t) as (t' & -> & Hinv' & Hadds); [done|by apply kept_refl|..].
    { apply Hmr; [done|]. assert (Some inode_src = Some i) as [= <-]; [|done].
      unfold fsnodes_node_find_ext in Hfs. unfold replays, flag in Hrep. rewrite Hrep in Hfs. simpl in Hfs.
      destruct (view t !! inode_src); [congruence|done]. }
    cbn [mbind option_bind]. right. do 3 eexists. split; [done|]. split; [done|]. by exists p.
  - destruct (get_stats_2_inv sclasstab MaxECRedundancyLevel [] i sp t Hinv Hsp) as (sr & t1 & -> & Hinv1 & Hch & Hn1 & Hsr).
    cbn [mbind option_bind]. pose proof (kept_changed _ _ _ _ Hinv1 Hch) as Hk.
    destruct (nodes_rel_l _ _ _ _ _ (kp_nodes _ _ Hk) Hdwd) as (dwd1 & Hdwd1 & _).
    destruct (test_quota_total [] t1 p (sr_inodes sr) (sr_length sr) (sr_size sr) (sr_realsize sr) (ti_struct _ _ Hinv1)) as [full ->]; [by eexists|].
    cbn [mbind option_bind]. case_if; [by apply served_kept|].
    destruct (Hlink (fix_ratio sp) t1) as (t' & -> & Hinv' & Hadds); [done|done|..].
    { unfold size_current. rewrite fix_ratio_idem; [done|]. by eapply co_shape. }
    cbn [mbind option_bind]. right. do 3 eexists. split; [done|]. split; [done|]. by exists p.
Qed.

(** ** Trash *)

(** The effect of a purge: the file is removed, or kept for those who have it open. *)
Definition purges (i : Z) (t t' : tree) : Prop :=
  t_names t' = t_names t ∧ named_but (λ _, False) t t' ∧
  ∀ j, is_Some (t_nodes t' !! j) ↔ (j ≠ i ∨ of_isfileopen i = true) ∧ is_Some (t_nodes t !! j).

Lemma purge_trash ts i n t :
  tree_inv [] t → t_nodes t !! i = Some n → n_type n = TYPE_TRASH →
  ∃ r t', fsnodes_purge sclasstab MaxECRedundancyLevel of_isfileopen ts i t = Some (r, t') ∧ tree_inv [] t' ∧ purges i t t'.
Proof.
  intros Hinv Hn Ht. destruct (purge_inv sclasstab MaxECRedundancyLevel of_isfileopen ts i n t Hinv Hn) as (r & t' & Hp & Hinv' & Hnm & Hbut & Hd).
  exists r, t'. split; [done|]. split; [done|]. split; [done|]. split; [done|]. intros j. rewrite Ht in Hd. simpl in Hd.
  destruct (of_isfileopen i) eqn:Ho; destruct Hd as [_ Hd]; rewrite Hd; [tauto|]. split; [tauto|]. intros [[?|?] ?]; [done|congruence].
Qed.

Lemma univ_trash_remove_served ts sesflags i uid t :
  tree_inv [] t →
  served t (fs_univ_trash_remove sclasstab MaxECRedundancyLevel of_isfileopen ts sesflags i uid t)
    (λ _ t' e, purges i t t' ∧ e = if replays sesflags then None else Some (TRASH_REMOVE ts i)).
Proof.
  intros Hinv. unfold fs_univ_trash_remove. test_refuses. destruct (t_nodes t !! i) as [n|] eqn:Hn; [|by apply served_refuse].
  test_refuses. destruct (Z.eqb_spec (n_type n) TYPE_TRASH) as [Ht|]; [simpl negb; cbv iota|by apply served_refuse].
  destruct (purge_trash ts i n t Hinv Hn Ht) as (r & t' & -> & Hinv' & Hp). cbn [mbind option_bind]. right. by do 3 eexists.
Qed.

Lemma univ_purge_served ts rootinode sesflags i t :
  tree_inv [] t →
  served t (fs_univ_purge sclasstab MaxECRedundancyLevel of_isfileopen ts rootinode sesflags i t)
    (λ _ t' e, purges i t t' ∧ e = if replays sesflags then None else Some (PURGE ts i)).
Proof.
  intros Hinv. unfold fs_univ_purge. do 2 test_refuses. destruct (t_nodes t !! i) as [n|] eqn:Hn; [|by apply served_refuse].
  destruct (Z.eqb_spec (n_type n) TYPE_TRASH) as [Ht|]; [simpl negb; cbv iota|by apply served_refuse].
  destruct (purge_trash ts i n t Hinv Hn Ht) as (r & t' & -> & Hinv' & Hp). cbn [mbind option_bind]. right. by do 3 eexists.
Qed.

(** A file of the trash has one edge, which has no parent. *)
Lemma trash_edge t i n :
  tree_inv [] t → t_nodes t !! i = Some n → n_type n = TYPE_TRASH ∨ n_type n = TYPE_SUSTAINED →
  ∃ e ed, n_parents n = [e] ∧ t_edges t !! e = Some ed ∧ e_parent ed = None ∧ e_child ed = i.
Proof.
  intros Hinv Hn Ht. destruct (de_node _ _ (ti_detached _ _ (ti_struct _ _ Hinv)) i n Hn Ht) as (e & ed & Hp & He & Hnone); [by apply not_elem_of_nil|].
  destruct (co_parents t (ti_coherent _ _ (ti_struct _ _ Hinv)) i n e Hn) as (ed' & He' & Hc); [rewrite Hp; by left|].
  exists e, ed. split_and!; try done. congruence.
Qed.

(** The path of a file in the trash is replaced. *)
Definition sets_path (i : Z) (path : list Z) (t t' : tree) : Prop :=
  t_names t' = t_names t ∧ named_but (λ _, False) t t' ∧ (∀ j, is_Some (t_nodes t' !! j) ↔ is_Some (t_nodes t !! j)) ∧
  fs_gettrashpath 0 i t' = Some (MFS_STATUS_OK, path).

Lemma univ_setpath_served ts rootinode sesflags i path t :
  tree_inv [] t →
  served t (fs_univ_setpath sclasstab MaxECRedundancyLevel ts rootinode sesflags i path t)
    (λ _ t' e, sets_path i path t t' ∧ e = if replays sesflags then None else Some (SETPATH ts i path)).
Proof.
  intros Hinv. unfold fs_univ_setpath. do 4 test_refuses. destruct (t_nodes t !! i) as [n|] eqn:Hn; [|by apply served_refuse].
  destruct (Z.eqb_spec (n_type n) TYPE_TRASH) as [Ht|]; [simpl negb; cbv iota|by apply served_refuse].
  destruct (trash_edge t i n Hinv Hn) as (e & ed & Hpar & He & Hnone & Hc); [by left|]. rewrite Hpar. cbn [head mbind option_bind].
  destruct (remove_edge_inv sclasstab MaxECRedundancyLevel [] 0 e ed t Hinv He) as (t1 & n0 & cs & Hn0 & -> & Hinv1 & Hrel & Hform).
  rewrite Hc in Hn0, Hinv1. assert (n0 = n) as -> by congruence. cbn [mbind option_bind].
  destruct (nodes_rel_l _ _ _ _ _ Hrel Hn) as (n1 & Hn1 & [Hfr Hpar1 _ _ _]). apply frozen_inv in Hfr as (Hty1 & _).
  rewrite Hpar in Hpar1. unfold remove_id in Hpar1. rewrite filter_cons, decide_False in Hpar1 by tauto. simpl in Hpar1.
  destruct (detach_inv [] true i path t1 n1 Hinv1 Hn1 Hpar1) as (t2 & -> & Hinv2 & Hnodes2 & Hnm2 & ed2 & He2 & Hc2 & Hp2 & Hname2).
  { intros ->. destruct (co_root t (ti_coherent _ _ (ti_struct _ _ Hinv))) as (r & Hr & _ & Hnil). congruence. }
  { congruence. }
  cbn [mbind option_bind]. right. do 3 eexists. split; [done|]. split; [done|]. split; [|done]. split; [|split; [|split]].
  - rewrite Hnm2, Hform. unfold drop_edge. by rewrite Hnone.
  - apply (named_but_insert _ t t1 t2 (t_edgenext t1) ed2); try done; [apply (ti_coherent _ _ (ti_struct _ _ Hinv1))|].
    intros e' ed' Hsome. rewrite Hform. simpl. rewrite lookup_delete_Some. split; [tauto|]. intros [_ He']. split; [|done]. intros <-.
    assert (ed' = ed) as -> by congruence. rewrite Hnone in Hsome. by destruct Hsome.
  - intros j. rewrite Hnodes2, <- (nodes_rel_dom _ _ _ j Hrel). destruct (decide (j = i)) as [->|]; [rewrite lookup_insert_eq, Hn1|by rewrite lookup_insert_ne].
    split; by eexists.
  - unfold fs_gettrashpath. simpl. rewrite Hnodes2, lookup_insert_eq. simpl. rewrite Hty1, Ht. simpl. rewrite He2, lookup_insert_eq. simpl. by rewrite Hname2.
Qed.

(** ** Length *)

(** The effect of a change of length: the file keeps the chunks of its new length. *)
Definition sets_length (i len : Z) (t t' : tree) : Prop :=
  t_names t' = t_names t ∧ t_edges t' = t_edges t ∧ nodes_rel (λ _ n n', kin n' = kin n) t t' ∧
  ∃ oldlen ct nl r nl' r', (n_data <$> t_nodes t !! i) = Some (fdata oldlen ct nl r) ∧
    (n_data <$> t_nodes t' !! i) = Some (fdata len (take (kept_chunks len) ct) nl' r').

Lemma frozen_file n n' len ct nl r :
  frozen n' = frozen n → n_data n = fdata len ct nl r → ∃ nl', n_data n' = fdata len ct nl' r.
Proof.
  intros Hf Hd. apply (f_equal n_data) in Hf. unfold frozen, core, erase in Hf. rewrite Hd in Hf. simpl in Hf. rewrite Hd in Hf. simpl in Hf.
  destruct (n_data n') as [| | |len' ct' nl' r'|] eqn:Hd'; simpl in Hf; rewrite ?Hd' in Hf; simpl in Hf; try done. exists nl'. congruence.
Qed.

Lemma summary_kin n n' : summary n' = summary n → kin n' = kin n.
Proof.
  intros (Hc & Hp & Hch & Hl & He)%summary_inv. apply core_inv in Hc as (H1 & H2 & _ & H3 & H4 & _). unfold kin. congruence.
Qed.

Lemma set_length_inv ts i n len chtime t :
  tree_inv [] t → t_nodes t !! i = Some n → is_file n = true →
  ∃ t', set_length_and_times sclasstab MaxECRedundancyLevel ts i len chtime t = Some t' ∧ tree_inv [] t' ∧ sets_length i len t t'.
Proof.
  intros Hinv Hn Hf.
  destruct (setlength_inv sclasstab MaxECRedundancyLevel [] i n len t Hinv Hn Hf)
    as (t1 & n' & oldlen & ct & nl & r & Hd & Hset & Hinv1 & [(m & Hm & Hfm) Hrel He Hnm _] & _ & _ & Hd').
  unfold set_length_and_times. rewrite Hset. cbn [mbind option_bind].
  destruct (frozen_file _ _ _ _ _ _ Hfm Hd') as (nl' & Hdm).
  assert (∀ fields m1, summary m1 = summary m → ∃ t', fsnodes_checkarchmode sclasstab i ts fields (put i m1 t1) = Some t' ∧ tree_inv [] t' ∧ sets_length i len t t') as Harch.
  { intros fields m1 Hs1. pose proof (same_inv_put t1 i m m1 [] Hm Hs1) as Hsame. rewrite emit_nil in Hsame.
    pose proof (inv_same [] _ _ Hsame Hinv1) as Hinv2. assert (t_nodes (put i m1 t1) !! i = Some m1) as Hm1 by (by rewrite lookup_put, decide_True).
    destruct (checkarchmode_effect sclasstab i m1 ts fields (put i m1 t1)) as (m2 & cs & -> & Hs2); [|done|].
    { eapply co_shape; [apply (ti_coherent _ _ (ti_struct _ _ Hinv2))|done]. }
    rewrite put_put. assert (same_inv t1 (emit cs (put i m2 t1))) as Hsame2 by (apply (same_inv_put t1 i m); congruence).
    eexists. split; [done|]. split; [by eapply inv_same|]. split; [done|]. split; [done|]. split.
    - apply (nodes_rel_trans _ _ t1); [congruence|eapply nodes_rel_impl; [|exact Hrel]; by intros ??? []|]. destruct Hsame2 as [Hr _]. eapply nodes_rel_impl; [|exact Hr]. intros j a b. apply summary_kin.
    - exists oldlen, ct, nl, r. rewrite emit_nodes, lookup_put, decide_True, Hn by done. simpl. rewrite Hd.
      assert (frozen m2 = frozen n') as Hf2.
      { rewrite <- Hfm. apply frozen_core. rewrite Hs1 in Hs2. by apply summary_inv in Hs2 as (-> & _). }
      destruct (frozen_file _ _ _ _ _ _ Hf2 Hd') as (nl2 & ->). by eexists _, _. }
  destruct chtime; [rewrite Hm; cbn [mbind option_bind]; by apply Harch|].
  destruct (Harch 0 m eq_refl) as (t' & Hc & ?). rewrite (put_id i m t1 Hm) in Hc. by exists t'.
Qed.

Lemma mr_length_served ts i len canmodmtime t :
  tree_inv [] t →
  served t (fs_mr_length sclasstab MaxECRedundancyLevel ts i len canmodmtime t) (λ _ t' e, sets_length i len t t' ∧ e = None).
Proof.
  intros Hinv. unfold fs_mr_length. destruct (t_nodes t !! i) as [n|] eqn:Hn; [|by apply served_refuse].
  destruct (is_file n) eqn:Hf; [simpl negb; cbv iota|by apply served_refuse].
  destruct (set_length_inv ts i n len canmodmtime t Hinv Hn Hf) as (t' & -> & Hinv' & Hs). cbn [mbind option_bind]. right. by do 3 eexists.
Qed.

End with_classes.
