(* ===== verification/FsNames.v ===== *)
(** * What the tree is for its clients

    A client sees the tree as a map: the inode of a directory and a name in it give the
    inode of a node.  [names] is that map; the lemmas say what the requests do to it. *)

From S2P Require Import Prelude HashChain MfsComm FreeInodes AppendRes StorageClass DataPack FsNodes PosixAcl FsAccess AclFacts FsTree FsOps FsStats FsTreeInv FsTreeEdges FsTreeLink FsTreeNodes FsTreeOps FsWalks FsTreeUnlink FsTreeFiles FsRequests.

Definition names_of (M : gmap (Z * list Z) positive) (E : gmap positive fsedge) : gmap (Z * list Z) Z :=
  omap (λ e, e_child <$> E !! e) M.
Definition names (t : tree) : gmap (Z * list Z) Z := names_of (t_names t) (t_edges t).

Lemma names_of_lookup M E k : names_of M E !! k = (e ← M !! k; e_child <$> E !! e).
Proof. unfold names_of. by rewrite lookup_omap. Qed.

Lemma names_spec X t p name i :
  struct_inv X t → names t !! (p, name) = Some i ↔
    ∃ e ed, t_edges t !! e = Some ed ∧ e_parent ed = Some p ∧ e_name ed = name ∧ e_child ed = i.
Proof.
  intros Hinv. unfold names. rewrite names_of_lookup. pose proof (co_names t (ti_coherent _ _ Hinv) p name) as Hco. split.
  - destruct (t_names t !! (p, name)) as [e|] eqn:He; [|done]. cbn [mbind option_bind]. destruct (proj1 (Hco e) eq_refl) as (ed & Hed & Hp & Hn).
    rewrite Hed. intros [= <-]. by exists e, ed.
  - intros (e & ed & He & Hp & Hn & Hc). rewrite (proj2 (Hco e)) by (by exists ed). cbn [mbind option_bind]. by rewrite He, <- Hc.
Qed.

(** A name of the table is the name of one edge. *)
Lemma names_inj X t k k' e : struct_inv X t → t_names t !! k = Some e → t_names t !! k' = Some e → k = k'.
Proof.
  intros Hinv. destruct k as [p n], k' as [p' n']. intros (ed & He & Hp & Hn)%(co_names t (ti_coherent _ _ Hinv))
    (ed' & He' & Hp' & Hn')%(co_names t (ti_coherent _ _ Hinv)). congruence.
Qed.

Lemma names_of_insert M E k e ed : (∀ k', M !! k' = Some e → k' = k) → names_of (<[k := e]> M) (<[e := ed]> E) = <[k := e_child ed]> (names_of M E).
Proof.
  intros Hfresh. apply map_eq. intros k'. rewrite names_of_lookup. destruct (decide (k' = k)) as [->|Hk].
  - rewrite !lookup_insert_eq. simpl. by rewrite lookup_insert_eq.
  - rewrite !lookup_insert_ne, names_of_lookup by done. destruct (M !! k') as [e'|] eqn:He; [|done]. simpl.
    destruct (decide (e = e')) as [<-|Hne]; [by destruct Hk; apply Hfresh|]. by rewrite lookup_insert_ne.
Qed.

Lemma names_of_delete M E k e : (∀ k', M !! k' = Some e → k' = k) → names_of (delete k M) (delete e E) = delete k (names_of M E).
Proof.
  intros Honly. apply map_eq. intros k'. rewrite names_of_lookup. destruct (decide (k' = k)) as [->|Hk]; [by rewrite !lookup_delete_eq|].
  rewrite !lookup_delete_ne, names_of_lookup by done. destruct (M !! k') as [e'|] eqn:He; [|done]. simpl.
  destruct (decide (e = e')) as [<-|Hne]; [by destruct Hk; apply Honly|]. by rewrite lookup_delete_ne.
Qed.

(** A new edge. *)
Lemma names_insert X t t' k e ed :
  struct_inv X t → t_edges t !! e = None → t_names t' = <[k := e]> (t_names t) → t_edges t' = <[e := ed]> (t_edges t) →
  names t' = <[k := e_child ed]> (names t).
Proof.
  intros Hinv Hfresh Hn He. unfold names. rewrite Hn, He. apply names_of_insert. intros [p name] (ed' & He' & _)%(co_names t (ti_coherent _ _ Hinv)).
  congruence.
Qed.

(** One edge goes. *)
Lemma names_delete X t t' k e :
  struct_inv X t → t_names t !! k = Some e → t_names t' = delete k (t_names t) → named_but (eq e) t t' → names t' = delete k (names t).
Proof.
  intros Hinv Hk Hn Hbut. apply map_eq. intros k'. unfold names. rewrite names_of_lookup, Hn. destruct (decide (k' = k)) as [->|Hne].
  - by rewrite !lookup_delete_eq.
  - rewrite !lookup_delete_ne, names_of_lookup by done. destruct (t_names t !! k') as [e'|] eqn:He; [|done]. simpl.
    destruct k' as [p name]. pose proof He as (ed & Hed & Hp & _)%(co_names t (ti_coherent _ _ Hinv)). rewrite Hed.
    rewrite (proj2 (Hbut e' ed ltac:(by eexists))); [done|]. split; [|done]. intros <-. by apply Hne, (names_inj X t _ _ e).
Qed.

Lemma names_same X t t' : struct_inv X t → t_names t' = t_names t → named_but (λ _, False) t t' → names t' = names t.
Proof.
  intros Hinv Hn Hbut. apply map_eq. intros [p name]. unfold names. rewrite !names_of_lookup, Hn.
  destruct (t_names t !! (p, name)) as [e|] eqn:He; [|done]. simpl. apply (co_names t (ti_coherent _ _ Hinv)) in He as (ed & Hed & Hp & _).
  rewrite Hed. rewrite (proj2 (Hbut e ed ltac:(by eexists))); [done|]. tauto.
Qed.

Lemma names_edges t t' : t_names t' = t_names t → t_edges t' = t_edges t → names t' = names t.
Proof. intros Hn He. unfold names. by rewrite Hn, He. Qed.

(** ** The requests *)

Lemma kept_named t t' : kept t t' → names t' = names t.
Proof. intros [_ Hn He _]. by apply names_edges. Qed.

Section with_classes.
Variable of_isfileopen : Z → bool.
Variable KeepEmptyFilesInTrash : bool.

Lemma removes_names p name i t t' : tree_inv [] t → removes of_isfileopen KeepEmptyFilesInTrash p name i t t' →
  names t !! (p, name) = Some i ∧ names t' = delete (p, name) (names t).
Proof.
  intros Hinv (e & ed & cn & Hk & He & Hc & _ & Hp & Hn & Hbut & _). split; [|eapply names_delete; [apply Hinv|done..]].
  unfold names. rewrite names_of_lookup, Hk. simpl. by rewrite He, <- Hc.
Qed.

Lemma makes_names p name ty uid i t t' : tree_inv [] t → makes p name ty uid i t t' →
  names t !! (p, name) = None ∧ names t' = <[(p, name) := i]> (names t).
Proof.
  intros Hinv (Hno & _ & e & ed & n & Hn & He & Hfresh & <- & _). split; [unfold names; by rewrite names_of_lookup, Hno|eapply names_insert; [apply Hinv|done..]].
Qed.

Lemma adds_names p name i t t' : tree_inv [] t → adds_name p name i t t' →
  names t !! (p, name) = None ∧ names t' = <[(p, name) := i]> (names t).
Proof.
  intros Hinv (Hno & e & ed & n & n' & Hn & He & Hfresh & <- & _). split; [unfold names; by rewrite names_of_lookup, Hno|eapply names_insert; [apply Hinv|done..]].
Qed.

Lemma purges_names i t t' : tree_inv [] t → purges of_isfileopen i t t' → names t' = names t.
Proof. intros Hinv (Hn & Hbut & _). eapply names_same; [apply Hinv|done..]. Qed.

Lemma sets_path_names i path t t' : tree_inv [] t → sets_path i path t t' → names t' = names t.
Proof. intros Hinv (Hn & Hbut & _). eapply names_same; [apply Hinv|done..]. Qed.

Lemma sets_length_names i len t t' : sets_length i len t t' → names t' = names t.
Proof. intros (Hn & He & _). by apply names_edges. Qed.

End with_classes.
