(* ===== verification/FsMoves.v ===== *)
(** * The move

    [fs_univ_move] removes a link and makes another, with a removal of what had the new
    name before, or does this for two nodes at once.  It returns and keeps the
    invariant of the tree for all requests but three kinds: a directory moved into
    itself, a name moved to itself, and a node with several links whose storage class
    stores the files of the archive in another size (there [fsnodes_link] corrects the
    size for the new directory only). *)

From S2P Require Import Prelude HashChain MfsComm FreeInodes AppendRes StorageClass DataPack FsNodes PosixAcl FsAccess AclFacts FsTree FsOps FsStats FsTreeInv FsTreeEdges FsTreeLink FsTreeNodes FsTreeOps FsWalks FsTreeUnlink FsTreeFiles FsRequests FsNames.

(** ** States with fewer links *)

Definition below (t t' : tree) : Prop := ∀ i q, parent_of (view t') i q → parent_of (view t) i q.

Lemma below_refl t : below t t.
Proof. by intros i q. Qed.

Lemma below_trans t1 t2 t3 : below t1 t2 → below t2 t3 → below t1 t3.
Proof. intros H1 H2 i q Hq. by apply H1, H2. Qed.

Lemma below_named gone t t' : coherent t → coherent t' → named_but gone t t' → below t t'.
Proof.
  intros Hco Hco' Hbut i q (n' & e & Hn' & Hin & Hq)%parent_of_view. apply parent_of_view.
  destruct (co_parents t' Hco' i n' e Hn' Hin) as (ed & He & Hc). unfold edge_parent in *. rewrite He in Hq. simpl in Hq.
  apply Hbut in He as [_ He]; [|by eexists]. destruct (co_child t Hco e ed He) as (n & Hn & Hin0). rewrite Hc in Hn.
  exists n, e. rewrite He. done.
Qed.

Lemma below_ancestor t t' i q : below t t' → ancestor (view t') i q → ancestor (view t) i q.
Proof. intros Hb. induction 1 as [x y Hxy|x y z Hxy _ IH]; [by apply tc_once, Hb|eapply tc_l; [by apply Hb|done]]. Qed.

Lemma named_but_trans g1 g2 t1 t2 t3 : named_but g1 t1 t2 → named_but g2 t2 t3 → named_but (λ e, g1 e ∨ g2 e) t1 t3.
Proof. intros H1 H2 e ed Hs. rewrite (H2 e ed Hs), (H1 e ed Hs). tauto. Qed.

(** Who is in the way of a new name. *)
Lemma edge_name_at X t e ed p : struct_inv X t → t_edges t !! e = Some ed → e_parent ed = Some p → t_names t !! (p, e_name ed) = Some e.
Proof. intros Hinv He Hp. apply (co_names t (ti_coherent _ _ Hinv)). by exists ed. Qed.

Section with_classes.
Variable sclasstab : Z → storageclass.
Variable MaxECRedundancyLevel : Z.
Variable of_isfileopen : Z → bool.
Variable KeepEmptyFilesInTrash : bool.
Variable patterntab : list pattern.
Abbreviation fsnodes_link := (fsnodes_link sclasstab MaxECRedundancyLevel).
Abbreviation fsnodes_remove_edge := (fsnodes_remove_edge sclasstab MaxECRedundancyLevel).
Abbreviation fsnodes_unlink := (fsnodes_unlink sclasstab MaxECRedundancyLevel of_isfileopen KeepEmptyFilesInTrash).
Abbreviation fix_ratio := (fix_ratio sclasstab MaxECRedundancyLevel).

(** ** Nodes whose size does not depend on the archive *)

(** The ratio of the node is the one of its class, in the archive and out of it. *)
Definition settled (n : node) : Prop :=
  match n_data n with
  | fdata _ _ _ r => ∀ keep, u8 (sclass_get_keeparch_storage_eights sclasstab MaxECRedundancyLevel (n_sclassid n) keep * 2) = r
  | _ => True
  end.

Lemma settled_frozen n n' : frozen n' = frozen n → settled n → settled n'.
Proof.
  intros Hf Hs. unfold settled in *. destruct (n_data n') as [| | |len ct nl r|] eqn:Hd'; try done.
  destruct (frozen_file n' n len ct nl r (eq_sym Hf) Hd') as (nl' & Hd). rewrite Hd in Hs.
  apply frozen_inv in Hf as (_ & _ & _ & _ & Hsc & _). by rewrite Hsc.
Qed.

Lemma settled_ratio n : settled n → fix_ratio n = n.
Proof.
  intros Hs. unfold FsStats.fix_ratio. destruct (is_file n) eqn:Hf; [|done]. unfold set_ratio, settled in *.
  destruct (n_data n) eqn:Hd; try done. unfold current_ratio. rewrite Hs, <- Hd. by destruct n.
Qed.

(** A node that may lose a link and get another at once. *)
Definition movable (n : node) : Prop := (∃ e, n_parents n = [e]) ∨ settled n.

(** ** A link for another *)

(** What is left of the names of other nodes: the types. *)
Definition same_types (t t' : tree) : Prop := nodes_rel (λ _ n n', n_type n' = n_type n) t t'.

Lemma same_types_trans t1 t2 t3 : same_types t1 t2 → same_types t2 t3 → same_types t1 t3.
Proof. apply nodes_rel_trans. intros i a b c. congruence. Qed.

(** The node after the removal of one of its links. *)
Lemma take_off X ts e ed n t :
  tree_inv X t → t_edges t !! e = Some ed → t_nodes t !! e_child ed = Some n →
  ∃ t' n', fsnodes_remove_edge ts e t = Some t' ∧ tree_inv (e_child ed :: X) t' ∧ t_nodes t' !! e_child ed = Some n' ∧
    frozen n' = frozen n ∧ n_parents n' = remove_id e (n_parents n) ∧ t_edges t' = delete e (t_edges t) ∧
    t_names t' = match e_parent ed with Some p => delete (p, e_name ed) (t_names t) | None => t_names t end ∧
    nodes_rel (λ j m m', frozen m' = frozen m ∧ (j ≠ e_child ed → n_parents m' = n_parents m)) t t'.
Proof.
  intros Hinv He Hn. pose proof (ti_coherent _ _ (ti_struct _ _ Hinv)) as Hco.
  destruct (remove_edge_inv sclasstab MaxECRedundancyLevel X ts e ed t Hinv He) as (t' & n0 & cs & Hn0 & Hrm & Hinv' & Hrel & Hform).
  assert (n0 = n) as -> by congruence. destruct (nodes_rel_l _ _ _ _ _ Hrel Hn) as (n' & Hn' & [Hf Hp _ _ _]).
  exists t', n'. split_and!; try done; try (by rewrite Hform).
  intros j. specialize (Hrel j). destruct (t_nodes t !! j) as [m|] eqn:Hm; inversion Hrel as [x m' [Hfm Hpm _ _ _]|]; subst; constructor.
  split; [done|]. intros Hj. rewrite Hpm. by apply (remove_id_parents_other t e ed j).
Qed.

(** A link for a node that has just lost one. *)
Lemma put_back X ts p pn name c n t :
  tree_inv X t → t_nodes t !! c = Some n → c ≠ MFS_ROOT_ID → t_nodes t !! p = Some pn → n_type pn = TYPE_DIRECTORY → p ≠ c →
  t_names t !! (p, name) = None → n_type n ≠ TYPE_TRASH → n_type n ≠ TYPE_SUSTAINED →
  (n_type n = TYPE_DIRECTORY → n_parents n = [] ∧ ¬ ancestor (view t) p c) → (n_parents n = [] ∨ settled n) →
  ∃ t' e ed n', fsnodes_link ts p c name t = Some t' ∧ tree_inv X t' ∧ e = t_edgenext t ∧ t_edges t !! e = None ∧
    e_child ed = c ∧ e_parent ed = Some p ∧ e_name ed = name ∧
    t_edges t' = <[e := ed]> (t_edges t) ∧ t_names t' = <[(p, name) := e]> (t_names t) ∧
    t_nodes t' !! c = Some n' ∧ n_parents n' = e :: n_parents n ∧ (settled n → settled n') ∧
    nodes_rel (λ j m m', n_type m' = n_type m ∧ (j ≠ c → frozen m' = frozen m ∧ n_parents m' = n_parents m)) t t'.
Proof.
  intros Hinv Hc Hroot Hp Hpt Hne Hname Htr Hsu Hdir Hratio. pose proof (ti_coherent _ _ (ti_struct _ _ Hinv)) as Hco.
  destruct (link_inv sclasstab MaxECRedundancyLevel X ts p c name t n Hinv Hc Hroot) as (ed & t' & Hec & Hep & Hen & Hlink & Hinv' & Hlk).
  { unfold may_insert. simpl. split; [by exists pn|]. done. }
  { destruct Hratio as [?|Hs]; [by left|right]. by rewrite settled_ratio. }
  destruct Hlk as [Hrel Hedges _ Hnames _ _ _ _ _ _]. rewrite Hep, Hen in Hnames.
  destruct (nodes_rel_l _ _ _ _ _ Hrel Hc) as (n' & Hn' & [[_ Hpar _ _ _] Hfr]). rewrite Hec, Z.eqb_refl in Hpar, Hfr.
  exists t', (t_edgenext t), ed, n'. split_and!; try done.
  - destruct (t_edges t !! t_edgenext t) as [ed'|] eqn:He; [|done]. apply (co_fresh t Hco) in He. lia.
  - intros Hs. eapply settled_frozen; [exact Hfr|]. by rewrite settled_ratio.
  - eapply nodes_rel_impl; [|exact Hrel]. intros j m m' [[Hk Hpm _ _ _] Hf]. apply kind_inv in Hk as (Ht & _). split; [done|].
    intros Hj. rewrite Hec in Hf, Hpm. by rewrite (proj2 (Z.eqb_neq j c)) in Hf, Hpm.
Qed.

(** The node is linked again: nothing is missing any more. *)
Lemma linked_again X t c n : tree_inv (c :: X) t → t_nodes t !! c = Some n → n_parents n ≠ [] →
  n_type n ≠ TYPE_TRASH → n_type n ≠ TYPE_SUSTAINED → tree_inv X t.
Proof.
  intros Hinv Hn Hp Ht Hs. apply (tree_inv_shrink c); [done|]. intros m Hm. assert (m = n) as -> by congruence.
  split; [done|]. by intros [?|?].
Qed.

Lemma movable_off e n n' :
  frozen n' = frozen n → n_parents n' = remove_id e (n_parents n) → e ∈ n_parents n → movable n → n_parents n' = [] ∨ settled n'.
Proof.
  intros Hf Hp Hin [[e' He]|Hs]; [left|right; by eapply settled_frozen]. rewrite He in Hin. apply list_elem_of_singleton in Hin as ->.
  rewrite Hp, He. unfold remove_id. by rewrite filter_cons, decide_False by tauto.
Qed.

(** A directory that has lost its link has none. *)
Lemma dir_off X t e ed n n' :
  struct_inv X t → t_edges t !! e = Some ed → t_nodes t !! e_child ed = Some n → n_type n = TYPE_DIRECTORY →
  n_parents n' = remove_id e (n_parents n) → n_parents n' = [].
Proof.
  intros Hinv He Hn Ht Hp. pose proof (tree_one _ (fs_tree _ (ti_fs _ _ Hinv)) _ (node_view t n) (view_lookup t _ n Hn) Ht) as Hone.
  simpl in Hone. rewrite length_fmap in Hone. destruct (co_child t (ti_coherent _ _ Hinv) e ed He) as (m & Hm & Hin).
  assert (m = n) as -> by congruence. rewrite Hp. destruct (n_parents n) as [|e1 [|]]; [done| |simpl in Hone; lia].
  apply list_elem_of_singleton in Hin as ->. unfold remove_id. by rewrite filter_cons, decide_False by tauto.
Qed.

(** ** The plain move *)

Lemma relocate ts se sed swd c n p pn name t :
  tree_inv [] t → t_edges t !! se = Some sed → e_parent sed = Some swd → e_child sed = c → t_nodes t !! c = Some n →
  t_nodes t !! p = Some pn → n_type pn = TYPE_DIRECTORY → p ≠ c → t_names t !! (p, name) = None →
  (n_type n = TYPE_DIRECTORY → ¬ ancestor (view t) p c) → movable n →
  ∃ t1 t2 n', fsnodes_remove_edge ts se t = Some t1 ∧ fsnodes_link ts p c name t1 = Some t2 ∧ tree_inv [] t2 ∧
    names t2 = <[(p, name) := c]> (delete (swd, e_name sed) (names t)) ∧ t_nodes t2 !! c = Some n'.
Proof.
  intros Hinv He Hep Hec Hn Hp Hpt Hne Hname Hdir Hmov. subst c. pose proof (ti_coherent _ _ (ti_struct _ _ Hinv)) as Hco.
  destruct (named_child t se sed swd n Hinv He Hep Hn) as (Hin & Hroot & Htr & Hsu).
  destruct (take_off [] ts se sed n t Hinv He Hn) as (t1 & n1 & Hrm & Hinv1 & Hn1 & Hf1 & Hp1 & He1 & Hnm1 & Hrel1). rewrite Hep in Hnm1.
  destruct (nodes_rel_l _ _ _ _ _ Hrel1 Hp) as (pn1 & Hpn1 & [Hfp _]).
  pose proof (frozen_inv _ _ Hf1) as (Ht1 & _). pose proof (frozen_inv _ _ Hfp) as (Htp & _).
  assert (below t t1) as Hb by (eapply below_named; [done|apply (ti_coherent _ _ (ti_struct _ _ Hinv1))|by apply named_but_delete]).
  destruct (put_back [e_child sed] ts p pn1 name (e_child sed) n1 t1 Hinv1 Hn1 Hroot Hpn1)
    as (t2 & e & ed & n' & Hlink & Hinv2 & _ & Hfresh & Hec & Hep2 & Hen & He2 & Hnm2 & Hn' & Hpar' & _ & Hrel2); try congruence.
  { rewrite Hnm1, lookup_delete_None. by right. }
  { intros Ht. split; [|intros Ha; apply Hdir; [congruence|by eapply below_ancestor]].
    eapply (dir_off [] t se sed n n1); [apply Hinv|done|done|congruence|done]. }
  { by apply (movable_off se n). }
  destruct (nodes_rel_l _ _ _ _ _ Hrel2 Hn1) as (n'' & Hn'' & [Ht2 _]). assert (n'' = n') as -> by congruence.
  exists t1, t2, n'. split_and!; try done.
  - apply (linked_again [] t2 (e_child sed) n'); try done; [by rewrite Hpar'|congruence..].
  - rewrite (names_insert _ t1 t2 (p, name) e ed (ti_struct _ _ Hinv1)), Hec by done. f_equal.
    by apply (names_delete [] t t1 _ se (ti_struct _ _ Hinv)); [apply (edge_name_at [] t); [apply Hinv|..]|..|apply named_but_delete].
Qed.

(** ** The exchange *)

Lemma one_link_off se n (l : list positive) :
  (∃ e, n_parents n = [e]) → se ∈ n_parents n → (∀ x, x ∈ l → x ≠ se ∧ x ∈ n_parents n) → l = [].
Proof.
  intros [e He] Hin Hl. rewrite He in *. apply list_elem_of_singleton in Hin as ->. destruct l as [|x l]; [done|].
  destruct (Hl x) as [Hx Hx']; [by left|]. by apply list_elem_of_singleton in Hx'.
Qed.

Lemma dir_single X t i n e : struct_inv X t → t_nodes t !! i = Some n → n_type n = TYPE_DIRECTORY → e ∈ n_parents n → ∃ e', n_parents n = [e'].
Proof.
  intros Hinv Hn Ht Hin. pose proof (tree_one _ (fs_tree _ (ti_fs _ _ Hinv)) _ (node_view t n) (view_lookup t _ n Hn) Ht) as Hone.
  simpl in Hone. rewrite length_fmap in Hone. destruct (n_parents n) as [|e1 [|]]; [by apply not_elem_of_nil in Hin|by eexists|simpl in Hone; lia].
Qed.

Lemma one_link_same t i n e e' : coherent t → (∃ x, n_parents n = [x]) → t_nodes t !! i = Some n → e ∈ n_parents n → e' ∈ n_parents n → e = e'.
Proof. intros Hco [x Hx] Hn. rewrite Hx, !list_elem_of_singleton. congruence. Qed.

(** A link more. *)
Lemma parent_of_linked t t' e ed p :
  coherent t → coherent t' → t_edges t' = <[e := ed]> (t_edges t) → e_parent ed = Some p →
  ∀ a b, parent_of (view t') a b → parent_of (view t) a b ∨ (a = e_child ed ∧ b = p).
Proof.
  intros Hco Hco' Hedges Hp a b (n' & x & Hn' & Hin & Hq)%parent_of_view. destruct (co_parents t' Hco' a n' x Hn' Hin) as (xd & Hx & Hc).
  unfold edge_parent in Hq. rewrite Hx in Hq. simpl in Hq. rewrite Hedges, lookup_insert_Some in Hx.
  destruct Hx as [[<- <-]|[_ Hx]]; [right; split; congruence|left]. apply parent_of_view. destruct (co_child t Hco x xd Hx) as (n & Hn & Hin0).
  exists n, x. unfold edge_parent. rewrite Hx, <- Hc. done.
Qed.

(** Both nodes lose a link. *)
Lemma both_off ts se sed swd de ded dwd n m t :
  tree_inv [] t → t_edges t !! se = Some sed → e_parent sed = Some swd → t_nodes t !! e_child sed = Some n →
  t_edges t !! de = Some ded → e_parent ded = Some dwd → t_nodes t !! e_child ded = Some m → se ≠ de →
  ∃ t1 t2 n2 m2, fsnodes_remove_edge ts se t = Some t1 ∧ fsnodes_remove_edge ts de t1 = Some t2 ∧
    tree_inv [e_child ded; e_child sed] t2 ∧ below t t2 ∧ same_types t t2 ∧
    t_nodes t2 !! e_child sed = Some n2 ∧ t_nodes t2 !! e_child ded = Some m2 ∧ frozen n2 = frozen n ∧ frozen m2 = frozen m ∧
    (∀ x, x ∈ n_parents n2 → x ≠ se ∧ x ∈ n_parents n) ∧ (∀ x, x ∈ n_parents m2 → x ≠ de ∧ x ∈ n_parents m) ∧
    t_names t2 = delete (dwd, e_name ded) (delete (swd, e_name sed) (t_names t)) ∧
    names t2 = delete (dwd, e_name ded) (delete (swd, e_name sed) (names t)).
Proof.
  intros Hinv He Hep Hn Hd Hdp Hm Hne. pose proof (ti_coherent _ _ (ti_struct _ _ Hinv)) as Hco.
  destruct (take_off [] ts se sed n t Hinv He Hn) as (t1 & n1 & Hrm1 & Hinv1 & Hn1 & Hf1 & Hp1 & He1 & Hnm1 & Hrel1). rewrite Hep in Hnm1.
  destruct (nodes_rel_l _ _ _ _ _ Hrel1 Hm) as (m1 & Hm1 & [Hfm1 Hpm1]).
  assert (t_edges t1 !! de = Some ded) as Hd1 by (by rewrite He1, lookup_delete_ne).
  destruct (take_off [e_child sed] ts de ded m1 t1 Hinv1 Hd1 Hm1) as (t2 & m2 & Hrm2 & Hinv2 & Hm2 & Hf2 & Hp2 & He2 & Hnm2 & Hrel2). rewrite Hdp in Hnm2.
  destruct (nodes_rel_l _ _ _ _ _ Hrel2 Hn1) as (n2 & Hn2 & [Hfn2 Hpn2]).
  assert (coherent t1 ∧ coherent t2) as [Hco1 Hco2] by (split; [apply (ti_coherent _ _ (ti_struct _ _ Hinv1))|apply (ti_coherent _ _ (ti_struct _ _ Hinv2))]).
  exists t1, t2, n2, m2. split_and!; try done; try congruence.
  - eapply below_trans; [eapply below_named; [exact Hco|exact Hco1|by apply named_but_delete]|eapply below_named; [exact Hco1|exact Hco2|by apply named_but_delete]].
  - apply (same_types_trans _ t1); [eapply nodes_rel_impl; [|exact Hrel1]|eapply nodes_rel_impl; [|exact Hrel2]]; by intros j a b [(? & _)%frozen_inv _].
  - intros x Hx. destruct (decide (e_child sed = e_child ded)) as [Heq|Hneq].
    + assert (n2 = m2) as -> by congruence. rewrite Hp2, elem_of_remove_id in Hx. assert (m1 = n1) as -> by congruence.
      rewrite Hp1, elem_of_remove_id in Hx. tauto.
    + rewrite Hpn2, Hp1, elem_of_remove_id in Hx by done. done.
  - intros x Hx. rewrite Hp2, elem_of_remove_id in Hx. destruct Hx as [Hx Hx']. split; [done|].
    destruct (decide (e_child ded = e_child sed)) as [Heq|Hneq]; [|by rewrite <- Hpm1].
    assert (m1 = n1) as -> by congruence. assert (m = n) as -> by congruence. rewrite Hp1, elem_of_remove_id in Hx'. tauto.
  - rewrite (names_delete _ t1 t2 (dwd, e_name ded) de (ti_struct _ _ Hinv1)); [f_equal| |done|by apply named_but_delete].
    + apply (names_delete [] t t1 _ se (ti_struct _ _ Hinv)); [by apply (edge_name_at [] t); [apply Hinv|..]|done|by apply named_but_delete].
    + apply (edge_name_at [e_child sed] t1); [apply Hinv1|done..].
Qed.

Lemma swap_names {A} (m : gmap (Z * list Z) A) k1 k2 e1 e2 :
  <[k1 := e2]> (<[k2 := e1]> (delete k2 (delete k1 m))) = <[k1 := e2]> (<[k2 := e1]> m).
Proof.
  apply map_eq. intros k. destruct (decide (k = k1)) as [->|]; [by rewrite !lookup_insert_eq|]. rewrite !(lookup_insert_ne _ k1) by done.
  destruct (decide (k = k2)) as [->|]; [by rewrite !lookup_insert_eq|]. by rewrite !lookup_insert_ne, !lookup_delete_ne by done.
Qed.

Lemma exchange ts se sed swd swn de ded dwd dwn c d n m t :
  tree_inv [] t → t_edges t !! se = Some sed → e_parent sed = Some swd → e_child sed = c → t_nodes t !! c = Some n →
  t_edges t !! de = Some ded → e_parent ded = Some dwd → e_child ded = d → t_nodes t !! d = Some m → se ≠ de →
  t_nodes t !! swd = Some swn → n_type swn = TYPE_DIRECTORY → t_nodes t !! dwd = Some dwn → n_type dwn = TYPE_DIRECTORY →
  dwd ≠ c → swd ≠ d → (n_type n = TYPE_DIRECTORY → ¬ ancestor (view t) dwd c) → (n_type m = TYPE_DIRECTORY → ¬ ancestor (view t) swd d) →
  movable n → movable m →
  ∃ t1 t2 t3 t4, fsnodes_remove_edge ts se t = Some t1 ∧ fsnodes_remove_edge ts de t1 = Some t2 ∧
    fsnodes_link ts dwd c (e_name ded) t2 = Some t3 ∧ fsnodes_link ts swd d (e_name sed) t3 = Some t4 ∧ tree_inv [] t4 ∧
    names t4 = <[(swd, e_name sed) := d]> (<[(dwd, e_name ded) := c]> (names t)).
Proof.
  intros Hinv He Hep Hec Hn Hd Hdp Hdc Hm Hne Hsw Hswt Hdw Hdwt Hne1 Hne2 Hdir1 Hdir2 Hmov1 Hmov2. subst c d.
  pose proof (ti_struct _ _ Hinv) as Hs. pose proof (ti_coherent _ _ Hs) as Hco.
  destruct (named_child t se sed swd n Hinv He Hep Hn) as (Hin1 & Hroot1 & Htr1 & Hsu1).
  destruct (named_child t de ded dwd m Hinv Hd Hdp Hm) as (Hin2 & Hroot2 & Htr2 & Hsu2).
  assert ((swd, e_name sed) ≠ (dwd, e_name ded)) as Hnames.
  { intros Heq. pose proof (edge_name_at [] t se sed swd Hs He Hep) as H1. pose proof (edge_name_at [] t de ded dwd Hs Hd Hdp) as H2.
    rewrite Heq in H1. congruence. }
  destruct (both_off ts se sed swd de ded dwd n m t Hinv He Hep Hn Hd Hdp Hm Hne)
    as (t1 & t2 & n2 & m2 & Hrm1 & Hrm2 & Hinv2 & Hb & Hty2 & Hn2 & Hm2 & Hfn & Hfm & Hoff1 & Hoff2 & Hnm2 & Hnames2).
  pose proof (frozen_inv _ _ Hfn) as (Htn & _). pose proof (frozen_inv _ _ Hfm) as (Htm & _).
  destruct (nodes_rel_l _ _ _ _ _ Hty2 Hdw) as (dwn2 & Hdwn2 & Hdwt2).
  destruct (put_back [e_child ded; e_child sed] ts dwd dwn2 (e_name ded) (e_child sed) n2 t2 Hinv2 Hn2 Hroot1 Hdwn2)
    as (t3 & e1 & ed1 & n3 & Hlink1 & Hinv3 & He1' & Hfresh1 & Hc1 & Hq1 & Hnm1' & Hed3 & Hnm3 & Hn3 & Hpn3 & Hset3 & Hrel3); try congruence.
  { rewrite Hnm2. apply lookup_delete_eq. }
  { intros Ht. split; [|intros Ha; apply Hdir1; [congruence|by eapply below_ancestor]]. apply (one_link_off se n); try done.
    eapply (dir_single [] t); try done. congruence. }
  { destruct Hmov1 as [Hone|Hset]; [left; by apply (one_link_off se n)|right; by eapply settled_frozen]. }
  pose proof (ti_coherent _ _ (ti_struct _ _ Hinv2)) as Hco2. pose proof (ti_coherent _ _ (ti_struct _ _ Hinv3)) as Hco3.
  assert (same_types t t3) as Hty3 by (apply (same_types_trans _ t2); [done|eapply nodes_rel_impl; [|exact Hrel3]; by intros j a b [? _]]).
  destruct (nodes_rel_l _ _ _ _ _ Hty3 Hsw) as (swn3 & Hswn3 & Hswt3). destruct (nodes_rel_l _ _ _ _ _ Hty3 Hm) as (m3 & Hm3 & Htm3).
  assert ((∃ x, n_parents m = [x]) → e_child ded ≠ e_child sed) as Hsingle.
  { intros Hone Heq. apply Hne. assert (n = m) as -> by congruence. by eapply (one_link_same t (e_child ded) m). }
  assert (e_child ded ≠ e_child sed → frozen m3 = frozen m ∧ n_parents m3 = n_parents m2) as Hm3same.
  { intros Hneq. destruct (nodes_rel_l _ _ _ _ _ Hrel3 Hm2) as (m3' & Hm3' & [_ Hk]). assert (m3' = m3) as -> by congruence.
    destruct (Hk Hneq) as [Hk1 Hk2]. split; congruence. }
  destruct (put_back [e_child ded; e_child sed] ts swd swn3 (e_name sed) (e_child ded) m3 t3 Hinv3 Hm3 Hroot2 Hswn3)
    as (t4 & e2 & ed2 & m4 & Hlink2 & Hinv4 & He2' & Hfresh2 & Hc2 & Hq2 & Hnm2' & Hed4 & Hnm4 & Hm4 & Hpm4 & _ & Hrel4); try congruence.
  { rewrite Hnm3, lookup_insert_ne, Hnm2 by done. rewrite lookup_delete_ne by done. apply lookup_delete_eq. }
  { intros Ht. assert (∃ x, n_parents m = [x]) as Hone by (eapply (dir_single [] t); [done|done|congruence|done]).
    destruct (Hm3same (Hsingle Hone)) as [_ Hpm3]. split; [rewrite Hpm3; by apply (one_link_off de m)|]. intros Ha.
    destruct (tc_add_pair (parent_of (view t2)) (parent_of (view t3)) (e_child sed) dwd swd (e_child ded)) as [Ha'|[Ha' _]].
    - intros a b Hab. destruct (parent_of_linked t2 t3 e1 ed1 dwd Hco2 Hco3 Hed3 Hq1 a b Hab) as [?|[-> ->]]; [by left|right; by rewrite Hc1].
    - exact Ha.
    - apply Hdir2; [congruence|]. by eapply below_ancestor.
    - apply rtc_tc in Ha' as [Heq|Ha']; [by apply (no_self_link t se sed swd Hco (fs_tree _ (ti_fs _ _ Hs)) He Hep)|].
      apply (tree_acyclic _ (fs_tree _ (ti_fs _ _ Hs)) (e_child sed)). eapply tc_l; [|by eapply below_ancestor].
      by eapply view_edge_parent. }
  { destruct Hmov2 as [Hone|Hset].
    - destruct (Hm3same (Hsingle Hone)) as [_ Hpm3]. left. rewrite Hpm3. by apply (one_link_off de m).
    - right. destruct (decide (e_child ded = e_child sed)) as [Heq|Hneq].
      + assert (m3 = n3) as -> by congruence. apply Hset3. assert (n = m) as -> by congruence. by eapply settled_frozen.
      + destruct (Hm3same Hneq) as [Hf _]. by eapply settled_frozen. }
  destruct (nodes_rel_l _ _ _ _ _ Hrel4 Hn3) as (n4 & Hn4 & [Htn4 Hkn4]).
  destruct (nodes_rel_l _ _ _ _ _ Hty3 Hn) as (n3' & Hn3' & Htn3). assert (n3' = n3) as -> by congruence.
  assert (same_types t t4) as Hty4 by (apply (same_types_trans _ t3); [done|eapply nodes_rel_impl; [|exact Hrel4]; by intros j a b [? _]]).
  destruct (nodes_rel_l _ _ _ _ _ Hty4 Hm) as (m4' & Hm4' & Htm4). assert (m4' = m4) as -> by congruence.
  exists t1, t2, t3, t4. split_and!; try done.
  - apply (linked_again [] t4 (e_child sed) n4); try done; [| |congruence..].
    + apply (linked_again [e_child sed] t4 (e_child ded) m4); try done; [by rewrite Hpm4|congruence..].
    + destruct (decide (e_child sed = e_child ded)) as [Heq|Hneq]; [|by rewrite (proj2 (Hkn4 Hneq)), Hpn3].
      assert (n4 = m4) as -> by congruence. by rewrite Hpm4.
  - rewrite (names_insert _ t3 t4 _ e2 ed2 (ti_struct _ _ Hinv3)), (names_insert _ t2 t3 _ e1 ed1 (ti_struct _ _ Hinv2)), Hc1, Hc2, Hnames2 by done.
    apply swap_names.
Qed.

(** ** The parts of the request *)

(** Names and kinds of nodes are kept; sizes, classes and times may not be. *)
Definition only_sizes (t t' : tree) : Prop :=
  t_names t' = t_names t ∧ t_edges t' = t_edges t ∧ nodes_rel (λ _ n n', kin n' = kin n) t t'.

Lemma put_sizes t i n n' v : t_nodes t !! i = Some n → kin n' = kin n → only_sizes t (put i n' (with_vars v t)).
Proof.
  intros Hn Hk. split; [done|]. split; [done|]. intros j. rewrite lookup_put. case_decide; [subst j; rewrite Hn; by constructor|].
  simpl. destruct (t_nodes t !! j); by constructor.
Qed.

Lemma only_sizes_trans t1 t2 t3 : only_sizes t1 t2 → only_sizes t2 t3 → only_sizes t1 t3.
Proof.
  intros (A1 & A2 & A3) (B1 & B2 & B3). split_and!; [congruence..|]. eapply nodes_rel_trans; [|exact A3|exact B3]. intros i a b c. simpl. congruence.
Qed.

Lemma move_pattern_inv c uid gid name n t :
  tree_inv [] t → t_nodes t !! c = Some n →
  ∃ t', move_pattern sclasstab MaxECRedundancyLevel patterntab c uid gid name t = Some t' ∧ tree_inv [] t' ∧ only_sizes t t'.
Proof.
  intros Hinv Hn. unfold move_pattern. rewrite Hn. cbn [mbind option_bind]. set (pt := patterns_find_matching patterntab uid gid name).
  match goal with |- ∃ t', (?x ≫= _) = _ ∧ _ => assert (∃ t1, x = Some t1 ∧ tree_inv [] t1 ∧ only_sizes t t1) as (t1 & -> & Hinv1 & Hsz) end.
  { case_if; [exists t; split; [done|]; split; [done|]; split; [done|]; split; [done|]; intros j; destruct (t_nodes t !! j); by constructor|].
    destruct (Z.eqb_spec (n_type n) TYPE_FILE) as [Ht|Ht].
    - destruct (changefilesclassid_inv sclasstab MaxECRedundancyLevel [] c n (pattern_class pt n) t Hinv Hn) as (t1 & n1 & -> & Hinv1 & [_ Hrel He Hnm _] & _);
        [by apply type_file_is_file|]. exists t1. split; [done|]. split; [done|]. split; [done|]. split; [done|].
      eapply nodes_rel_impl; [|exact Hrel]. by intros j a b [? _].
    - destruct (change_class_inv [] t c n (pattern_class pt n) Hinv Hn) as (t1 & v & n1 & -> & -> & Hinv1 & ->).
      eexists. split; [done|]. split; [done|]. by apply (put_sizes t c n). }
  cbn [mbind option_bind]. destruct (nodes_rel_l _ _ _ _ _ (proj2 (proj2 Hsz)) Hn) as (n1 & Hn1 & _). rewrite Hn1. cbn [mbind option_bind].
  eexists. split; [done|]. split; [by apply (put_inv_plain [] t1 c n1)|]. eapply only_sizes_trans; [done|].
  rewrite <- (with_vars_id t1) at 2. by apply (put_sizes t1 c n1).
Qed.

Lemma settled_fix n n' : shape_ok n → frozen n' = frozen n → settled (fix_ratio n) → settled (fix_ratio n').
Proof.
  intros Hsh Hf. pose proof (frozen_inv _ _ Hf) as (Ht & _ & _ & _ & Hsc & Htag & _). unfold FsStats.fix_ratio, set_ratio, settled.
  assert (is_file n' = is_file n) as -> by (unfold is_file; by rewrite Ht). case_if.
  - destruct (n_data n) eqn:Hd, (n_data n') eqn:Hd'; try done; simpl; rewrite ?Hd, ?Hd'; try done.
    rewrite Hsc. intros Hk keep. rewrite Hk. unfold current_ratio. by rewrite Hsc, Hk.
  - unfold shape_ok in Hsh. destruct (n_data n) eqn:Hd, (n_data n') eqn:Hd'; try done. congruence.
Qed.

Lemma fix_ratio_parents n : n_parents (fix_ratio n) = n_parents n.
Proof. unfold FsStats.fix_ratio, set_ratio. case_if; [|done]. by destruct (n_data n). Qed.

(** The sizes are brought up to date, and the quotas asked. *)
Lemma move_quota_ok rmode dwd swd c dst dn sn n t :
  tree_inv [] t → t_nodes t !! dwd = Some dn → n_type dn = TYPE_DIRECTORY → t_nodes t !! swd = Some sn → n_type sn = TYPE_DIRECTORY →
  t_nodes t !! c = Some n → (∀ d, dst = Some d → is_Some (t_nodes t !! d)) →
  ∃ full t', move_quota sclasstab MaxECRedundancyLevel rmode dwd swd c dst t = Some (full, t') ∧ kept t t' ∧
    ∀ i m, i = c ∨ dst = Some i → t_nodes t !! i = Some m →
      ∃ m', t_nodes t' !! i = Some m' ∧ n_parents m' = n_parents m ∧ (settled (fix_ratio m) → settled m').
Proof.
  intros Hinv Hd Hdt Hs Hst Hc Hdst. unfold move_quota. pose proof (co_shape t (ti_coherent _ _ (ti_struct _ _ Hinv))) as Hsh.
  destruct (get_stats_2_inv sclasstab MaxECRedundancyLevel [] c n t Hinv Hc) as (sr & t1 & -> & Hinv1 & Hch & Hn1 & _). cbn [mbind option_bind].
  pose proof (kept_changed _ _ _ _ Hinv1 Hch) as Hk1.
  assert (∀ t', kept t t' → ∀ a b i len sz r, (a = dwd ∧ b = swd) ∨ (a = swd ∧ b = dwd) →
    is_Some (fsnodes_test_quota_for_uncommon_nodes a b i len sz r t')) as Hquota.
  { intros t' [Hinv' _ _ Hrel] a b i len sz r Hab. destruct (nodes_rel_l _ _ _ _ _ Hrel Hd) as (dn' & Hdn' & Hkd).
    destruct (nodes_rel_l _ _ _ _ _ Hrel Hs) as (sn' & Hsn' & Hks). unfold kin in Hkd, Hks. injection Hkd as Hkd _. injection Hks as Hks _.
    destruct Hab as [[-> ->]|[-> ->]].
    - by apply (uncommon_total [] t' dwd swd dn' sn'); [apply Hinv'|congruence..].
    - by apply (uncommon_total [] t' swd dwd sn' dn'); [apply Hinv'|congruence..]. }
  assert (∀ i m, i ≠ c → t_nodes t !! i = Some m → ∃ m1, t_nodes t1 !! i = Some m1 ∧ n_parents m1 = n_parents m ∧ frozen m1 = frozen m) as Hother.
  { intros i m Hi Hm. destruct (nodes_rel_l _ _ _ _ _ (fch_nodes _ _ _ _ Hch) Hm) as (m1 & Hm1 & [Hkin Hf]). exists m1.
    unfold kin in Hkin. injection Hkin as _ Hp _. by split_and!; [| |apply Hf]. }
  destruct dst as [d|].
  - destruct (Hdst d eq_refl) as [m Hm].
    assert (∃ m1, t_nodes t1 !! d = Some m1 ∧ n_parents m1 = n_parents m ∧ (settled (fix_ratio m) → settled (fix_ratio m1))) as (m1 & Hm1 & Hpm1 & Hfm1).
    { destruct (decide (d = c)) as [->|Hne].
      - assert (m = n) as -> by congruence. exists (fix_ratio n). by rewrite fix_ratio_idem, fix_ratio_parents by (by apply Hsh in Hc).
      - destruct (Hother d m Hne Hm) as (m1 & Hm1 & Hp & Hf). exists m1. split_and!; try done. intros Hset. eapply settled_fix; [|done..]. by eapply Hsh. }
    destruct (get_stats_2_inv sclasstab MaxECRedundancyLevel [] d m1 t1 Hinv1 Hm1) as (dsr & t2 & -> & Hinv2 & Hch2 & Hm2 & _). cbn [mbind option_bind].
    pose proof (kept_trans _ _ _ Hk1 (kept_changed _ _ _ _ Hinv2 Hch2)) as Hk2.
    assert (∀ i x, i = c ∨ Some d = Some i → t_nodes t !! i = Some x →
      ∃ x', t_nodes t2 !! i = Some x' ∧ n_parents x' = n_parents x ∧ (settled (fix_ratio x) → settled x')) as Hnodes.
    { intros i x Hi Hx. destruct (decide (i = d)) as [->|Hne].
      - assert (x = m) as -> by congruence. exists (fix_ratio m1). by rewrite fix_ratio_parents.
      - destruct Hi as [->|[= ->]]; [|done]. assert (x = n) as -> by congruence.
        destruct (nodes_rel_l _ _ _ _ _ (fch_nodes _ _ _ _ Hch2) Hn1) as (x' & Hx' & [Hkin Hf]). exists x'. split; [done|].
        unfold kin in Hkin. injection Hkin as _ Hp _. rewrite Hp, fix_ratio_parents. split; [done|]. intros Hset. eapply settled_frozen; [by apply Hf|done]. }
    unfold quota_for_difference. edestruct (Hquota t2 Hk2 dwd swd) as [full ->]; [by left|]. cbn [mbind option_bind].
    destruct full; [by exists true, t2|]. case_if; [|by exists false, t2].
    edestruct (Hquota t2 Hk2 swd dwd) as [full ->]; [by right|]. cbn [mbind option_bind]. by exists full, t2.
  - destruct (Hquota t1 Hk1 dwd swd (sr_inodes sr) (sr_length sr) (sr_size sr) (sr_realsize sr)) as [full ->]; [by left|]. cbn [mbind option_bind].
    exists full, t1. split; [done|]. split; [done|]. intros i m [->|?] Hm; [|done]. exists (fix_ratio n). split; [done|].
    assert (m = n) as -> by congruence. by rewrite fix_ratio_parents.
Qed.

(** ** The tests *)

(** The test ends, and refuses with an error if it refuses. *)
Definition answers (a : option (option Z)) : Prop := ∃ s, a = Some s ∧ ∀ st, s = Some st → st ≠ MFS_STATUS_OK.

Lemma answers_check a b : answers a → answers b → answers (check a b).
Proof. intros (x & -> & Ha) (y & -> & Hb). unfold check. cbn [mbind option_bind]. destruct x as [st|]; eexists; by split. Qed.
Lemma answers_if b st : st ≠ MFS_STATUS_OK → answers (refuse_if b st).
Proof. intros Hst. exists (if b then Some st else None). split; [done|]. intros st'. destruct b; [|done]. by intros [= <-]. Qed.
Lemma answers_unless b st : is_Some b → st ≠ MFS_STATUS_OK → answers (refuse_unless b st).
Proof. intros [ok ->] Hst. unfold refuse_unless. cbn [mbind option_bind]. by apply answers_if. Qed.
Lemma check_passed a b : check a b = Some None → a = Some None ∧ b = Some None.
Proof. unfold check. destruct a as [[st|]|]; cbn [mbind option_bind]; try done. Qed.
Lemma refuse_if_passed b st : refuse_if b st = Some None → b = false.
Proof. unfold refuse_if. by destruct b. Qed.

Lemma dir_test_answers t sesflags i n wd p1 p2 uid gid :
  tree_inv [] t → t_nodes t !! i = Some n → is_Some (t_nodes t !! wd) → answers (move_refused_dir sesflags i n wd p1 p2 uid gid t).
Proof.
  intros Hinv Hn [w Hw]. unfold move_refused_dir. destruct (is_dir n); [|by exists None].
  destruct (isancestor_total (view t) i wd (fs_tree _ (ti_fs _ _ (ti_struct _ _ Hinv)))) as [anc ->].
  { eexists. by apply view_lookup. } { eexists. by apply view_lookup. }
  cbn [mbind option_bind]. destruct anc; [eexists; split; [done|]; by intros st [= <-]|]. case_if; [|by exists None].
  apply answers_unless; [|done]. by eapply may_total, Hinv.
Qed.

Lemma dir_test_passed t sesflags i n wd w p1 p2 uid gid :
  tree_inv [] t → t_nodes t !! i = Some n → t_nodes t !! wd = Some w → n_type w = TYPE_DIRECTORY →
  move_refused_dir sesflags i n wd p1 p2 uid gid t = Some None → n_type n = TYPE_DIRECTORY → ¬ ancestor (view t) wd i.
Proof.
  intros Hinv Hn Hw Hwt Hpass Ht. unfold move_refused_dir in Hpass. rewrite is_dir_spec, Ht, Z.eqb_refl in Hpass.
  destruct (isancestor_ok (view t) i wd (node_view t n) (node_view t w) (fs_tree _ (ti_fs _ _ (ti_struct _ _ Hinv)))) as (anc & Hanc & Hiff);
    [by apply view_lookup|by apply view_lookup|simpl; by rewrite Hwt|simpl; by rewrite Hwt|done|].
  rewrite Hanc in Hpass. cbn [mbind option_bind] in Hpass. destruct anc; [done|]. intros Ha. by apply Hiff in Ha.
Qed.

Lemma swd_test t sesflags p1 swd name uid gid :
  tree_inv [] t → answers (move_refused_swd sesflags p1 swd name uid gid t) ∧
  (move_refused_swd sesflags p1 swd name uid gid t = Some None → n_type swd = TYPE_DIRECTORY).
Proof.
  intros Hinv. unfold move_refused_swd. split.
  - repeat apply answers_check; try (by apply answers_if). apply answers_unless; [|done]. by eapply may_total, Hinv.
  - intros [H _]%check_passed. apply refuse_if_passed in H. rewrite is_dir_spec in H. by destruct (Z.eqb_spec (n_type swd) TYPE_DIRECTORY).
Qed.

Lemma dwd_test t sesflags p1 p2 swd dwd c n name uid gid :
  tree_inv [] t → t_nodes t !! c = Some n → t_nodes t !! p2 = Some dwd →
  answers (move_refused_dwd sesflags p1 p2 swd dwd c n name uid gid t) ∧
  (move_refused_dwd sesflags p1 p2 swd dwd c n name uid gid t = Some None →
   n_type dwd = TYPE_DIRECTORY ∧ (n_type n = TYPE_DIRECTORY → ¬ ancestor (view t) p2 c)).
Proof.
  intros Hinv Hn Hd. unfold move_refused_dwd. split.
  - repeat apply answers_check; try (by apply answers_if); [apply answers_unless; [by eapply may_total, Hinv|done]|].
    apply dir_test_answers; [done..|by eexists].
  - intros (_ & (Hdir & (_ & (_ & (_ & (Hanc & _)%check_passed)%check_passed)%check_passed)%check_passed)%check_passed)%check_passed.
    apply refuse_if_passed in Hdir. rewrite is_dir_spec in Hdir.
    assert (n_type dwd = TYPE_DIRECTORY) as Ht by (by destruct (Z.eqb_spec (n_type dwd) TYPE_DIRECTORY)).
    split; [done|]. by eapply dir_test_passed.
Qed.

Lemma dst_test t sesflags p1 p2 swn dwd d m uid gid rmode delflags :
  tree_inv [] t → t_nodes t !! d = Some m → t_nodes t !! p1 = Some swn → n_type swn = TYPE_DIRECTORY →
  answers (move_refused_dst sesflags p1 p2 dwd d m uid gid rmode delflags t) ∧
  (move_refused_dst sesflags p1 p2 dwd d m uid gid rmode delflags t = Some None →
   if rmode =? MFS_RENAME_EXCHANGE then n_type m = TYPE_DIRECTORY → ¬ ancestor (view t) p1 d else children m = []).
Proof.
  intros Hinv Hm Hp1 Hp1t. unfold move_refused_dst. split.
  - repeat apply answers_check; try (by apply answers_if). case_if; repeat apply answers_check; try (by apply answers_if).
    apply dir_test_answers; [done..|by eexists].
  - intros (_ & (_ & (_ & Hd)%check_passed)%check_passed)%check_passed. case_if.
    + apply check_passed in Hd as [_ Hd]. by eapply dir_test_passed.
    + apply check_passed in Hd as [_ [_ Hd]%check_passed]. apply refuse_if_passed in Hd. apply children_dir_or_none; [|done].
      by eapply co_shape; [apply (ti_coherent _ _ (ti_struct _ _ Hinv))|].
Qed.

(** ** The changes *)

Lemma plain_edges ts rmode se sed swd de c n dwd pn name uid gid t :
  tree_inv [] t → (rmode =? MFS_RENAME_EXCHANGE) = false → t_edges t !! se = Some sed → e_parent sed = Some swd → e_child sed = c →
  t_nodes t !! c = Some n → t_nodes t !! dwd = Some pn → n_type pn = TYPE_DIRECTORY → t_names t !! (dwd, name) = de →
  (∀ e ed m, de = Some e → t_edges t !! e = Some ed → t_nodes t !! e_child ed = Some m → children m = []) → de ≠ Some se →
  dwd ≠ c → (n_type n = TYPE_DIRECTORY → ¬ ancestor (view t) dwd c) → movable n →
  ∃ t', move_edges sclasstab MaxECRedundancyLevel of_isfileopen KeepEmptyFilesInTrash patterntab ts rmode se de swd dwd c (e_name sed) name uid gid t = Some t' ∧
    tree_inv [] t' ∧ names t' = <[(dwd, name) := c]> (delete (swd, e_name sed) (names t)).
Proof.
  intros Hinv Hmode He Hep Hec Hn Hp Hpt Hde Hempty Hne Hself Hdir Hmov. pose proof (ti_struct _ _ Hinv) as Hs.
  pose proof (ti_coherent _ _ Hs) as Hco. unfold move_edges. rewrite Hmode.
  assert (∃ t1 n1 pn1, (match de with Some de => fsnodes_unlink ts de t | None => Some t end) = Some t1 ∧ tree_inv [] t1 ∧
    t_edges t1 !! se = Some sed ∧ t_nodes t1 !! c = Some n1 ∧ n_type n1 = n_type n ∧ movable n1 ∧ t_nodes t1 !! dwd = Some pn1 ∧
    n_type pn1 = TYPE_DIRECTORY ∧ t_names t1 !! (dwd, name) = None ∧ below t t1 ∧ names t1 = delete (dwd, name) (names t))
    as (t1 & n1 & pn1 & -> & Hinv1 & He1 & Hn1 & Ht1 & Hmov1 & Hp1 & Hpt1 & Hname1 & Hb & Hnames1).
  { destruct de as [de|].
    2: { exists t, n, pn. split_and!; try done; [apply below_refl|]. symmetry. apply delete_id. unfold names. by rewrite names_of_lookup, Hde. }
    destruct (name_edge [] t dwd name de Hs Hde) as (ded & m & Hd & Hdp & Hdn & Hm & Hdin & _).
    destruct (unlink_inv sclasstab MaxECRedundancyLevel of_isfileopen KeepEmptyFilesInTrash ts de ded dwd m t Hinv Hd Hdp Hm)
      as (t1 & Hul & Hinv1 & (Hnm & Hbut & Hoth) & Hfate); [by eapply Hempty|]. rewrite Hdp, Hdn in Hnm.
    assert (se ≠ de) as Hne' by congruence.
    assert (t_edges t1 !! se = Some sed) as He1 by (apply Hbut; [by rewrite Hep|by split]).
    destruct (co_child t1 (ti_coherent _ _ (ti_struct _ _ Hinv1)) se sed He1) as (n1 & Hn1 & Hin1). rewrite Hec in Hn1.
    assert (n_type n1 = n_type n ∧ movable n1) as [Ht1 Hmov1].
    { destruct (decide (c = e_child ded)) as [Heq|Hneq].
      - assert (m = n) as -> by congruence. destruct (co_child t Hco se sed He) as (n' & Hn' & Hin). rewrite Hec in Hn'. assert (n' = n) as -> by congruence.
        destruct Hmov as [Hone|Hset]; [by destruct Hne'; eapply (one_link_same t c n)|]. unfold FsTreeUnlink.fate in Hfate.
        destruct (remove_id de (n_parents n)) as [|x l] eqn:Hrem.
        + exfalso. assert (se ∈ remove_id de (n_parents n)) as Hx by (by apply elem_of_remove_id). rewrite Hrem in Hx. by apply not_elem_of_nil in Hx.
        + destruct Hfate as (n'' & Hn'' & Hf & _). rewrite <- Heq in Hn''. assert (n'' = n1) as -> by congruence.
          split; [by apply frozen_inv in Hf as (-> & _)|right; by eapply settled_frozen].
      - specialize (Hoth c Hneq). rewrite Hn, Hn1 in Hoth. inversion Hoth as [a b [Hf Hpar]|]; subst.
        split; [by apply frozen_inv in Hf as (-> & _)|]. destruct Hmov as [Hone|Hset]; [left; by rewrite Hpar|right; by eapply settled_frozen]. }
    assert (∃ pn1, t_nodes t1 !! dwd = Some pn1 ∧ n_type pn1 = TYPE_DIRECTORY) as (pn1 & Hp1 & Hpt1).
    { assert (dwd ≠ e_child ded) as Hneq by (intros Heq; by apply (no_self_link t de ded dwd Hco (fs_tree _ (ti_fs _ _ Hs)) Hd Hdp)).
      specialize (Hoth dwd Hneq). rewrite Hp in Hoth. inversion Hoth as [a b [Hf _] Hx Hy|]; subst. exists b. split; [done|].
      apply frozen_inv in Hf as (-> & _). done. }
    exists t1, n1, pn1. split_and!; try done.
    - rewrite Hnm. apply lookup_delete_eq.
    - eapply below_named; [exact Hco|apply (ti_coherent _ _ (ti_struct _ _ Hinv1))|exact Hbut].
    - by eapply names_delete. }
  cbn [mbind option_bind].
  destruct (relocate ts se sed swd c n1 dwd pn1 name t1 Hinv1 He1 Hep Hec Hn1 Hp1 Hpt1 Hself Hname1)
    as (t2 & t3 & n3 & -> & Hlink & Hinv3 & Hnames3 & Hn3); [|done|].
  { rewrite Ht1. intros Ht Ha. apply Hdir; [done|]. by eapply below_ancestor. }
  cbn [mbind option_bind]. rewrite Hlink. cbn [mbind option_bind].
  destruct (move_pattern_inv c uid gid name n3 t3 Hinv3 Hn3) as (t4 & -> & Hinv4 & (Hn4 & He4 & _)).
  exists t4. split; [done|]. split; [done|]. rewrite (names_edges t3 t4), Hnames3, Hnames1 by done.
  rewrite delete_delete. apply insert_delete_eq.
Qed.

Lemma exchange_edges ts se sed swd swn de ded dwd dwn c n m name uid gid t :
  tree_inv [] t → t_edges t !! se = Some sed → e_parent sed = Some swd → e_child sed = c → t_nodes t !! c = Some n →
  t_edges t !! de = Some ded → e_parent ded = Some dwd → e_name ded = name → t_nodes t !! e_child ded = Some m → se ≠ de →
  t_nodes t !! swd = Some swn → n_type swn = TYPE_DIRECTORY → t_nodes t !! dwd = Some dwn → n_type dwn = TYPE_DIRECTORY →
  dwd ≠ c → swd ≠ e_child ded → (n_type n = TYPE_DIRECTORY → ¬ ancestor (view t) dwd c) →
  (n_type m = TYPE_DIRECTORY → ¬ ancestor (view t) swd (e_child ded)) → movable n → movable m →
  ∃ t', move_edges sclasstab MaxECRedundancyLevel of_isfileopen KeepEmptyFilesInTrash patterntab ts MFS_RENAME_EXCHANGE se (Some de)
          swd dwd c (e_name sed) name uid gid t = Some t' ∧
    tree_inv [] t' ∧ names t' = <[(swd, e_name sed) := e_child ded]> (<[(dwd, name) := c]> (names t)).
Proof.
  intros Hinv He Hep Hec Hn Hd Hdp <- Hm Hne Hsw Hswt Hdw Hdwt Hne1 Hne2 Hdir1 Hdir2 Hmov1 Hmov2.
  destruct (exchange ts se sed swd swn de ded dwd dwn c (e_child ded) n m t) as (t1 & t2 & t3 & t4 & H1 & H2 & H3 & H4 & Hinv4 & Hnames4); try done.
  exists t4. split; [|done]. unfold move_edges. rewrite Z.eqb_refl. cbn [mbind option_bind]. rewrite Hd. cbn [mbind option_bind].
  rewrite H1. cbn [mbind option_bind]. rewrite H2. cbn [mbind option_bind]. rewrite H3. cbn [mbind option_bind]. exact H4.
Qed.

(** ** The request *)

(** What a move has to keep to: the two names differ, a directory does not go into
    itself, and the nodes may change their links. *)
Definition move_ok (mr : bool) (p1 : Z) (name1 : list Z) (p2 : Z) (name2 : list Z) (rmode : Z) (t : tree) : Prop :=
  let up n := if mr then n else fix_ratio n in
  (p1, name1) ≠ (p2, name2) ∧
  (∀ c, names t !! (p1, name1) = Some c → c ≠ p2 ∧ ∀ n, t_nodes t !! c = Some n → movable (up n)) ∧
  (rmode = MFS_RENAME_EXCHANGE →
   ∀ d, names t !! (p2, name2) = Some d → d ≠ p1 ∧ ∀ n, t_nodes t !! d = Some n → movable (up n)).

(** The map of names after a move. *)
Definition moved (rmode p1 : Z) (name1 : list Z) (p2 : Z) (name2 : list Z) (m m' : gmap (Z * list Z) Z) : Prop :=
  ∃ c, m !! (p1, name1) = Some c ∧
    if rmode =? MFS_RENAME_EXCHANGE then ∃ d, m !! (p2, name2) = Some d ∧ m' = <[(p1, name1) := d]> (<[(p2, name2) := c]> m)
    else m' = <[(p2, name2) := c]> (delete (p1, name1) m).

Lemma below_kept t t' : kept t t' → coherent t → coherent t' → below t t'.
Proof.
  intros [_ _ He _] Hco Hco'. apply (below_named (λ _, False)); [done|done|]. intros e ed _. rewrite He. tauto.
Qed.

(** The changes, once the tests are passed. *)
Lemma move_edges_ok ts rmode mr se sed p1 de p2 n swd dwd name2 uid gid t t1 :
  tree_inv [] t → kept t t1 →
  (∀ i m, i = e_child sed ∨ names t !! (p2, name2) = Some i → t_nodes t !! i = Some m → ∃ m', t_nodes t1 !! i = Some m' ∧
     n_parents m' = n_parents m ∧ (settled (if mr : bool then m else fix_ratio m) → settled m')) →
  move_ok mr p1 (e_name sed) p2 name2 rmode t →
  t_edges t !! se = Some sed → e_parent sed = Some p1 → t_nodes t !! e_child sed = Some n →
  t_nodes t !! p1 = Some swd → n_type swd = TYPE_DIRECTORY → t_nodes t !! p2 = Some dwd → n_type dwd = TYPE_DIRECTORY →
  (n_type n = TYPE_DIRECTORY → ¬ ancestor (view t) p2 (e_child sed)) → t_names t !! (p2, name2) = de →
  (de = None → rmode ≠ MFS_RENAME_EXCHANGE) →
  (∀ e ed m, de = Some e → t_edges t !! e = Some ed → t_nodes t !! e_child ed = Some m →
     if rmode =? MFS_RENAME_EXCHANGE then n_type m = TYPE_DIRECTORY → ¬ ancestor (view t) p1 (e_child ed) else children m = []) →
  ∃ t', move_edges sclasstab MaxECRedundancyLevel of_isfileopen KeepEmptyFilesInTrash patterntab ts rmode se de p1 p2 (e_child sed)
          (e_name sed) name2 uid gid t1 = Some t' ∧ tree_inv [] t' ∧ moved rmode p1 (e_name sed) p2 name2 (names t) (names t').
Proof.
  intros Hinv Hk Hnodes (Hdiff & Hsrc & Hdst) He Hep Hn Hp1 Hp1t Hp2 Hp2t Hanc Hde Hnone Hcase.
  pose proof (ti_struct _ _ Hinv) as Hs. pose proof (ti_coherent _ _ Hs) as Hco.
  pose proof Hk as [Hinv1 Hnm1 Hed1 Hrel1]. pose proof (ti_coherent _ _ (ti_struct _ _ Hinv1)) as Hco1.
  pose proof (below_kept t t1 Hk Hco Hco1) as Hb.
  assert (∀ i m m', t_nodes t !! i = Some m → t_nodes t1 !! i = Some m' → n_type m' = n_type m ∧ children m' = children m) as Hkin.
  { intros i m m' Hm Hm'. destruct (nodes_rel_l _ _ _ _ _ Hrel1 Hm) as (m'' & Hm'' & K). assert (m'' = m') as -> by congruence.
    unfold kin in K. by injection K. }
  assert (∀ i m, i = e_child sed ∨ names t !! (p2, name2) = Some i → t_nodes t !! i = Some m → movable (if mr then m else fix_ratio m) →
    ∃ m', t_nodes t1 !! i = Some m' ∧ movable m') as Hmovs.
  { intros i m Hi Hm Hmov. destruct (Hnodes i m Hi Hm) as (m' & Hm' & Hpar & Hset). exists m'. split; [done|].
    destruct Hmov as [Hone|Hmov]; [left|right; by apply Hset]. rewrite Hpar. destruct mr; [done|]. by rewrite fix_ratio_parents in Hone. }
  assert (names t !! (p1, e_name sed) = Some (e_child sed)) as Hname1 by (apply (names_spec [] t); [done|by exists se, sed]).
  destruct (Hsrc _ Hname1) as [Hself Hmov]. destruct (Hmovs _ n (or_introl eq_refl) Hn (Hmov n Hn)) as (n1 & Hn1 & Hmov1).
  destruct (nodes_rel_l _ _ _ _ _ Hrel1 Hp2) as (dwd1 & Hdwd1 & _). destruct (nodes_rel_l _ _ _ _ _ Hrel1 Hp1) as (swd1 & Hswd1 & _).
  destruct (Hkin _ _ _ Hp2 Hdwd1) as [Htd _]. destruct (Hkin _ _ _ Hp1 Hswd1) as [Hts _]. destruct (Hkin _ _ _ Hn Hn1) as [Htn _].
  assert (de ≠ Some se) as Hne. { intros ->. apply Hdiff. apply (names_inj [] t _ _ se Hs); [by apply (edge_name_at [] t)|done]. }
  assert (t_names t1 !! (p2, name2) = de) as Hde1 by (by rewrite Hnm1).
  assert (n_type n1 = TYPE_DIRECTORY → ¬ ancestor (view t1) p2 (e_child sed)) as Hanc1.
  { rewrite Htn. intros Ht Ha. apply Hanc; [done|]. by eapply below_ancestor. }
  destruct (Z.eqb_spec rmode MFS_RENAME_EXCHANGE) as [->|Hmode].
  - destruct de as [de|]; [|by destruct (Hnone eq_refl)].
    destruct (name_edge [] t p2 name2 de Hs Hde) as (ded & m & Hd & Hdp & Hdn & Hm & _).
    assert (names t !! (p2, name2) = Some (e_child ded)) as Hname2 by (apply (names_spec [] t); [done|by exists de, ded]).
    destruct (Hdst eq_refl _ Hname2) as [Hself2 Hmov2]. destruct (Hmovs _ m (or_intror Hname2) Hm (Hmov2 m Hm)) as (m1 & Hm1 & Hmov2').
    destruct (Hkin _ _ _ Hm Hm1) as [Htm _].
    destruct (exchange_edges ts se sed p1 swd1 de ded p2 dwd1 (e_child sed) n1 m1 name2 uid gid t1) as (t' & -> & Hinv' & Hnm');
      try done; try congruence.
    { rewrite Htm. intros Ht Ha. apply (Hcase de ded m); [done..|]. by eapply below_ancestor. }
    exists t'. split; [done|]. split; [done|]. exists (e_child sed). split; [done|]. rewrite Z.eqb_refl. exists (e_child ded).
    by rewrite Hnm', (kept_named t t1).
  - destruct (plain_edges ts rmode se sed p1 de (e_child sed) n1 p2 dwd1 name2 uid gid t1) as (t' & -> & Hinv' & Hnm'); try done; try congruence.
    { by apply Z.eqb_neq. }
    { intros e ed m1 Hde' Hed Hm1. rewrite Hed1 in Hed. destruct (co_child t Hco e ed Hed) as (m & Hm & _). destruct (Hkin _ _ _ Hm Hm1) as [_ ->].
      by apply (Hcase e ed m). }
    exists t'. split; [done|]. split; [done|]. exists (e_child sed). split; [done|]. rewrite (proj2 (Z.eqb_neq _ _) Hmode).
    by rewrite Hnm', (kept_named t t1).
Qed.

(** A test of a request. *)
Lemma answered (a : option (option Z)) t (k : option answer) effect :
  tree_inv [] t → answers a → (a = Some None → served t k effect) →
  served t (status ← a; match status with Some status => refuse status t | None => k end) effect.
Proof.
  intros Hinv (s & -> & Hst) Hk. cbn [mbind option_bind]. destruct s as [st|]; [apply served_refuse; [done|by apply Hst]|by apply Hk].
Qed.

Lemma univ_move_served ts rootinode sesflags parent_src name_src parent_dst name_dst uid gid rmode delflags t :
  tree_inv [] t →
  (∀ p1 p2, fsnodes_node_find_ext (view t) rootinode sesflags parent_src false = Some (Some p1) →
     fsnodes_node_find_ext (view t) rootinode sesflags parent_dst false = Some (Some p2) →
     move_ok (replays sesflags) p1 name_src p2 name_dst rmode t) →
  served t (fs_univ_move sclasstab MaxECRedundancyLevel of_isfileopen KeepEmptyFilesInTrash patterntab ts rootinode sesflags
              parent_src name_src parent_dst name_dst uid gid rmode delflags t)
    (λ i t' e, ∃ p1 p2, fsnodes_node_find_ext (view t) rootinode sesflags parent_src false = Some (Some p1) ∧
       fsnodes_node_find_ext (view t) rootinode sesflags parent_dst false = Some (Some p2) ∧
       moved rmode p1 name_src p2 name_dst (names t) (names t') ∧
       e = if replays sesflags then None else Some (MOVE ts p1 name_src p2 name_dst rmode i)).
Proof.
  intros Hinv Hok. pose proof (ti_struct _ _ Hinv) as Hs. pose proof (ti_coherent _ _ Hs) as Hco. unfold fs_univ_move.
  case_if; [by apply served_refuse|].
  destruct (find_total [] t rootinode sesflags parent_src false Hs) as (fsrc & Hfs & Hfs'). rewrite Hfs. cbn [mbind option_bind].
  destruct (find_total [] t rootinode sesflags parent_dst false Hs) as (fdst & Hfd & Hfd'). rewrite Hfd. cbn [mbind option_bind].
  destruct fsrc as [p1|]; [|by apply served_refuse]. destruct fdst as [p2|]; [|by apply served_refuse].
  destruct (Hfs' p1 eq_refl) as [swd Hswd]. destruct (Hfd' p2 eq_refl) as [dwd Hdwd]. rewrite Hswd, Hdwd. cbn [mbind option_bind].
  specialize (Hok p1 p2 Hfs Hfd). clear Hfs Hfd Hfs' Hfd'.
  apply answered; [done|by apply swd_test|]. intros Hswt%swd_test; [|done].
  rewrite (lookup_edge [] t p1 swd) by done. cbn [mbind option_bind].
  destruct (t_names t !! (p1, name_src)) as [se|] eqn:Hse; [|by apply served_refuse].
  destruct (name_edge [] t p1 name_src se Hs Hse) as (sed & n & He & Hep & <- & Hn & _). rewrite He. cbn [mbind option_bind]. rewrite Hn. cbn [mbind option_bind].
  apply answered; [done|by apply dwd_test|]. intros (Hdwt & Hanc)%dwd_test; [|done..].
  rewrite (lookup_edge [] t p2 dwd) by done. cbn [mbind option_bind].
  assert (∀ de dst, t_names t !! (p2, name_dst) = de → (∀ d, dst = Some d → is_Some (t_nodes t !! d)) →
    (∀ i, names t !! (p2, name_dst) = Some i → dst = Some i) → (de = None → rmode ≠ MFS_RENAME_EXCHANGE) →
    (∀ e ed m, de = Some e → t_edges t !! e = Some ed → t_nodes t !! e_child ed = Some m →
       if rmode =? MFS_RENAME_EXCHANGE then n_type m = TYPE_DIRECTORY → ¬ ancestor (view t) p1 (e_child ed) else children m = []) →
    served t
      ('(full, t1) ← (if replays sesflags then Some (false, t) else move_quota sclasstab MaxECRedundancyLevel rmode p2 p1 (e_child sed) dst t);
       if (full : bool) then refuse MFS_ERROR_QUOTA t1
       else
         t2 ← move_edges sclasstab MaxECRedundancyLevel of_isfileopen KeepEmptyFilesInTrash patterntab ts rmode se de p1 p2 (e_child sed)
                (e_name sed) name_dst uid gid t1;
         Some (MFS_STATUS_OK, if rmode =? MFS_RENAME_EXCHANGE then 0 else e_child sed, t2,
               if replays sesflags then None else Some (MOVE ts p1 (e_name sed) p2 name_dst rmode (if rmode =? MFS_RENAME_EXCHANGE then 0 else e_child sed))))
      (λ i t' e, moved rmode p1 (e_name sed) p2 name_dst (names t) (names t') ∧
         e = if replays sesflags then None else Some (MOVE ts p1 (e_name sed) p2 name_dst rmode i))) as Hmove.
  { intros de dst Hde Hdst Hname Hnone Hcase.
    assert (∃ full t1, (if replays sesflags then Some (false, t) else move_quota sclasstab MaxECRedundancyLevel rmode p2 p1 (e_child sed) dst t) = Some (full, t1) ∧
      kept t t1 ∧ ∀ i m, i = e_child sed ∨ names t !! (p2, name_dst) = Some i → t_nodes t !! i = Some m → ∃ m', t_nodes t1 !! i = Some m' ∧
        n_parents m' = n_parents m ∧ (settled (if replays sesflags then m else fix_ratio m) → settled m')) as (full & t1 & -> & Hk & Hnodes).
    { destruct (replays sesflags).
      - exists false, t. split; [done|]. split; [by apply kept_refl|]. intros i m _ Hm. by exists m.
      - destruct (move_quota_ok rmode p2 p1 (e_child sed) dst dwd swd n t) as (full & t1 & -> & Hk & Hnodes); try done.
        exists full, t1. split; [done|]. split; [done|]. intros i m [->|Hi] Hm; apply Hnodes; auto. }
    cbn [mbind option_bind]. destruct full; [by apply served_kept|].
    destruct (move_edges_ok ts rmode (replays sesflags) se sed p1 de p2 n swd dwd name_dst uid gid t t1) as (t' & -> & Hinv' & Hmv); try done.
    cbn [mbind option_bind]. right. by do 3 eexists. }
  assert (∀ k, served t k (λ i t' e, moved rmode p1 (e_name sed) p2 name_dst (names t) (names t') ∧
       e = if replays sesflags then None else Some (MOVE ts p1 (e_name sed) p2 name_dst rmode i)) →
     served t k (λ i t' e, ∃ q1 q2, Some (Some p1) = Some (Some q1) ∧ Some (Some p2) = Some (Some q2) ∧ 
       moved rmode q1 (e_name sed) q2 name_dst (names t) (names t') ∧
       e = if replays sesflags then None else Some (MOVE ts q1 (e_name sed) q2 name_dst rmode i))) as Hweak.
  { intros k [?|(i & t' & e & ? & ? & ? & ?)]; [by left|right]. exists i, t', e. split; [done|]. split; [done|]. by exists p1, p2. }
  apply Hweak. clear Hweak.
  destruct (t_names t !! (p2, name_dst)) as [de|] eqn:Hde; cbn [mbind option_bind].
  - destruct (name_edge [] t p2 name_dst de Hs Hde) as (ded & m & Hd & Hdp & Hdn & Hm & _). rewrite Hd. cbn [mbind option_bind]. rewrite Hm. cbn [mbind option_bind].
    destruct (dst_test t sesflags p1 p2 swd dwd (e_child ded) m uid gid rmode delflags Hinv Hm Hswd Hswt) as [(st & -> & Hst) Hpass].
    cbn [mbind option_bind]. destruct st as [st|]; [apply served_refuse; [done|by apply Hst]|].
    apply (Hmove (Some de) (Some (e_child ded))); try done.
    + intros d [= <-]. by eexists.
    + intros i Hi. unfold names in Hi. rewrite names_of_lookup, Hde in Hi. cbn [mbind option_bind] in Hi. rewrite Hd in Hi. by injection Hi as <-.
    + intros e ed m' [= <-] Hed Hm'. assert (ed = ded) as -> by congruence. assert (m' = m) as -> by congruence. by apply Hpass.
  - destruct (Z.eqb_spec rmode MFS_RENAME_EXCHANGE) as [->|Hmode]; [by apply served_refuse|].
    apply (Hmove None None); try done. intros i Hi. unfold names in Hi. by rewrite names_of_lookup, Hde in Hi.
Qed.

End with_classes.
