(* ===== verification/FsPaths.v ===== *)
(** * Paths and quotas

    What the walks to the root find: the path of an edge leads from the root to it, a
    file in the trash keeps the path of its last name, and the test of the quotas asks
    every directory above. *)

From S2P Require Import Prelude HashChain MfsComm FreeInodes AppendRes StorageClass DataPack FsNodes PosixAcl FsAccess AclFacts AclProps FsTree FsOps FsStats FsTreeInv FsTreeEdges FsWalks FsTreeUnlink FsRequests FsNames FsMoves.

(** ** Paths *)

(** The names are followed one after the other from a directory. *)
Fixpoint resolve (m : gmap (Z * list Z) Z) (d : Z) (path : list (list Z)) : option Z :=
  match path with [] => Some d | name :: path => d ← m !! (d, name); resolve m d path end.

Lemma resolve_snoc m d path name : resolve m d (path ++ [name]) = (p ← resolve m d path; m !! (p, name)).
Proof.
  revert d. induction path as [|n path IH]; intros d; cbn [resolve app mbind option_bind]; [by destruct (m !! (d, name))|].
  destruct (m !! (d, n)) as [d'|]; [apply IH|done].
Qed.

Lemma path_names_resolve X t p n ns :
  struct_inv X t → t_nodes t !! p = Some n → n_type n = TYPE_DIRECTORY → p ∉ X → (∀ q m, q ∈ X → t_nodes t !! q = Some m → n_type m ≠ TYPE_DIRECTORY) →
  path_names (climb_fuel t) t (Some p) = Some ns → resolve (names t) MFS_ROOT_ID (rev ns) = Some p.
Proof.
  intros Hinv Hp Ht HpX HX. revert ns. pose proof (ti_coherent _ _ Hinv) as Hco.
  apply (upward_top (λ fuel p, ∀ n, t_nodes t !! p = Some n → n_type n = TYPE_DIRECTORY →
    ∀ ns, path_names fuel t (Some p) = Some ns → resolve (names t) MFS_ROOT_ID (rev ns) = Some p) X t Hinv) with (n := n); [|by eexists|done|done].
  clear p n Hp Ht HpX. intros fuel p n0 _ Hp0 IH n Hp Ht ns Hns. cbn [path_names mbind option_bind] in Hns.
  case_if_in Hns; [by injection Hns as <-; subst p|]. rewrite Hp in Hns. cbn [mbind option_bind] in Hns.
  assert (n_parents n ≠ []) as Hne. { apply (ti_linked _ _ Hinv p n Hp); [done|]. intros Hin. by apply (HX p n). }
  destruct (n_parents n) as [|e es] eqn:Hpar; [done|].
  destruct (co_parents t Hco p n e Hp) as (ed & He & Hc); [rewrite Hpar; by left|]. rewrite He in Hns. cbn [mbind option_bind] in Hns.
  destruct (dir_edge_parent X t p n e ed Hinv Hp Ht) as (q & Hq & Hpq); [rewrite Hpar; by left|done|]. rewrite Hq in Hns.
  destruct (co_parent t Hco e ed q He Hq) as (qn & Hqn & Hqt & _).
  destruct (path_names fuel t (Some q)) as [ns'|] eqn:Hns'; [|done]. cbn [mbind option_bind] in Hns. injection Hns as <-.
  cbn [rev]. rewrite resolve_snoc, (IH q Hpq qn Hqn Hqt ns' Hns'). cbn [mbind option_bind].
  rewrite (names_spec X t q (e_name ed) p Hinv). by exists e, ed.
Qed.

(** Names of directories from the root on, each with its slash. *)
Definition slashed (dirs : list (list Z)) : list Z := concat ((λ n, n ++ [47]) <$> dirs).

Lemma slashed_app a b : slashed (a ++ b) = slashed a ++ slashed b.
Proof. unfold slashed. by rewrite fmap_app, concat_app. Qed.

Lemma length_slashed dirs : length (slashed dirs) = sum_list ((λ n, S (length n)) <$> dirs).
Proof.
  induction dirs as [|n dirs IH]; [done|]. unfold slashed in *. cbn [fmap list_fmap concat sum_list]. rewrite !length_app, IH. simpl. lia.
Qed.

(** The buffer is filled exactly when nothing is cut. *)
Lemma fill_path_fits ns acc sz :
  S sz = sum_list ((λ n, S (length n)) <$> ns) → fill_path sz ns (47 :: acc) = slashed (rev ns) ++ acc.
Proof.
  revert acc sz. induction ns as [|n ns IH]; intros acc sz Hsz; [done|].
  assert (S sz = S (length n) + sum_list ((λ n, S (length n)) <$> ns))%nat as Hsum by exact Hsz. clear Hsz. cbn [fill_path rev].
  rewrite slashed_app. replace (slashed [n]) with (n ++ [47]) by (unfold slashed; simpl; by rewrite app_nil_r).
  replace (length n <=? sz)%nat with true by (symmetry; apply Nat.leb_le; lia).
  destruct (sz - length n)%nat as [|sz'] eqn:Hrest.
  - destruct ns as [|n' ns]; [|simpl in Hsum; lia]. cbn [fill_path rev]. unfold slashed. simpl. by rewrite <- app_assoc.
  - rewrite IH by lia. by rewrite <- !app_assoc.
Qed.

Lemma length_slashed_rev ns : length (slashed (rev ns)) = sum_list ((λ n, S (length n)) <$> ns).
Proof.
  induction ns as [|n ns IH]; [done|]. cbn [rev]. rewrite slashed_app, length_app, IH.
  unfold slashed. simpl. rewrite app_nil_r, length_app. simpl. unfold fmap. lia.
Qed.

(** The path of an edge: the directories on it lead from the root to its own. *)
Lemma getpath_spec t e ed p :
  tree_inv [] t → t_edges t !! e = Some ed → e_parent ed = Some p →
  ∃ dirs path, resolve (names t) MFS_ROOT_ID dirs = Some p ∧ fsnodes_getpath e t = Some path ∧
    (Z.of_nat (length (slashed dirs ++ e_name ed)) ≤ MFS_PATH_MAX → path = slashed dirs ++ e_name ed).
Proof.
  intros Hti He Hp. pose proof (ti_struct _ _ Hti) as Hinv. destruct (co_parent t (ti_coherent _ _ Hinv) e ed p He Hp) as (n & Hn & Ht & _).
  destruct (path_names_total [] t p n Hinv Hn Ht) as [ns Hns].
  assert (resolve (names t) MFS_ROOT_ID (rev ns) = Some p) as Hres by (apply (path_names_resolve [] t p n ns); set_solver).
  pose proof (length_slashed_rev ns) as Hlen.
  destruct (getpath_total [] e ed p t Hti He Hp) as [path Hpath]. exists (rev ns), path. split; [done|]. split; [done|].
  rewrite length_app, Hlen. intros Hle. unfold fsnodes_getpath in Hpath. rewrite He in Hpath. cbn [mbind option_bind] in Hpath.
  rewrite Hp, Hns in Hpath. cbn [mbind option_bind] in Hpath. cbv zeta in Hpath.
  replace (Nat.min _ _ - length (e_name ed))%nat with (sum_list ((λ n, S (length n)) <$> ns)) in Hpath by lia.
  destruct (sum_list ((λ n, S (length n)) <$> ns)) as [|sz] eqn:Hsz.
  - injection Hpath as <-. destruct ns as [|? ?]; [done|]. simpl in Hsz. lia.
  - injection Hpath as <-. by apply fill_path_fits.
Qed.

(** ** Files in the trash *)

Lemma checkarchmode_type sclasstab i ts fields t t' n :
  fsnodes_checkarchmode sclasstab i ts fields t = Some t' → t_nodes t !! i = Some n →
  ∃ n', t_nodes t' !! i = Some n' ∧ n_type n' = n_type n.
Proof.
  intros H Hn. unfold fsnodes_checkarchmode in H. rewrite Hn in H. cbn [mbind option_bind] in H.
  destruct (is_file n); [|injection H as <-; by exists n]. destruct (n_data n); try done.
  case_if_in H; injection H as <-; [|by exists n]. eexists. split; [apply lookup_insert_eq|done].
Qed.

(** A file that goes to the trash keeps the path it had. *)
Lemma unlink_trash_path sclasstab MaxEC o keep ts e ed n path t t' :
  tree_inv [] t → t_edges t !! e = Some ed → t_nodes t !! e_child ed = Some n → n_parents n = [e] →
  gototrash o keep (e_child ed) n = Some true → fsnodes_getpath e t = Some path →
  fsnodes_unlink sclasstab MaxEC o keep ts e t = Some t' →
  fs_gettrashpath 0 (e_child ed) t' = Some (MFS_STATUS_OK, path).
Proof.
  intros Hinv He Hn Hpar Htr Hpath H.
  assert (n_type n = TYPE_FILE) as Hty.
  { unfold gototrash in Htr. destruct (Z.eqb_spec (n_type n) TYPE_FILE); [done|]. simpl in Htr. done. }
  unfold fsnodes_unlink in H. rewrite He in H. cbn [mbind option_bind] in H. rewrite Hn in H.
  cbn [mbind option_bind] in H. rewrite Htr in H. cbn [mbind option_bind] in H. rewrite Hpar, Hty in H.
  change ((TYPE_FILE =? TYPE_FILE) && (true || o (e_child ed))) with true in H. cbv iota in H. rewrite Hpath in H. cbn [mbind option_bind] in H.
  destruct (take_off sclasstab MaxEC [] ts e ed n t Hinv He Hn) as (t1 & n1 & Hrm & _ & Hn1 & Hfr & Hpar1 & _).
  rewrite Hrm in H. cbn [mbind option_bind] in H. rewrite Hn1 in H. cbn [mbind option_bind] in H.
  rewrite Hpar1, Hpar in H. unfold remove_id in H. rewrite filter_cons_False, filter_nil in H by tauto.
  apply frozen_inv in Hfr as (Hty1 & _). rewrite Hty1, Hty, Z.eqb_refl in H.
  destruct (file_length n1) as [len|]; [|done]. cbn [mbind option_bind] in H.
  destruct (fsnodes_checkarchmode _ _ _ _ _) as [t2|] eqn:Hck; [|done]. cbn [mbind option_bind] in H.
  destruct (checkarchmode_type _ _ _ _ _ _ _ Hck (lookup_insert_eq _ _ _)) as (n2 & Hn2 & Hty2).
  unfold detach, fsedge_new in H. cbn [t_nodes with_detached] in H. rewrite Hn2 in H. cbn [mbind option_bind] in H. injection H as <-.
  unfold fs_gettrashpath. cbn [Z.eqb negb].
  match goal with |- match t_nodes ?x !! _ with _ => _ end = _ =>
    assert (t_nodes x !! e_child ed = Some (with_parents [t_edgenext t2] n2)) as -> by (cbn [t_nodes add_trash with_counters with_vars put with_nodes]; apply lookup_insert_eq)
  end.
  cbn [n_type with_parents]. rewrite Hty2. change (negb (n_type (with_ctime ts (with_type TYPE_TRASH n1)) =? TYPE_TRASH)) with false. cbv iota.
  cbn [n_parents with_parents head mbind option_bind t_edges add_trash with_counters with_vars put with_nodes with_detached].
  rewrite lookup_insert_eq. done.
Qed.

(** ** Quotas *)

Lemma any_opt_spec {A} (f : A → option bool) (P : A → Prop) l :
  (∀ x, x ∈ l → ∃ b, f x = Some b ∧ (b = true ↔ P x)) → ∃ b, any_opt f l = Some b ∧ (b = true ↔ ∃ x, x ∈ l ∧ P x).
Proof.
  induction l as [|x l IH]; intros Hf; cbn [any_opt].
  { exists false. split; [done|]. split; [done|]. by intros (x & []%elem_of_nil & _). }
  destruct (Hf x) as (b & Hb & Hiff); [by left|]. rewrite Hb. cbn [mbind option_bind]. destruct b.
  - exists true. split; [done|]. split; [|done]. intros _. exists x. split; [by left|by apply Hiff].
  - destruct IH as (b & Hb' & Hiff'); [intros y Hy; apply Hf; by right|]. exists b. split; [done|]. rewrite Hiff'. split.
    + intros (y & Hy & Py). exists y. split; [by right|done].
    + intros (y & [->|Hy]%elem_of_cons & Py); [by apply Hiff in Py|by exists y].
Qed.

(** The directory or one above it is over its quota. *)
Definition quota_above (t : tree) (p inodes length size realsize : Z) : Prop :=
  ∃ q n, (q = p ∨ ancestor (view t) p q) ∧ t_nodes t !! q = Some n ∧ fsnodes_test_quota_noparents n inodes length size realsize = true.

Lemma test_quota_spec X t p i l s r :
  struct_inv X t → is_Some (t_nodes t !! p) →
  ∃ b, fsnodes_test_quota p i l s r t = Some b ∧ (b = true ↔ quota_above t p i l s r).
Proof.
  intros Hinv Hp. pose proof (ti_coherent _ _ Hinv) as Hco. unfold fsnodes_test_quota.
  apply (upward_top (λ fuel p, ∃ b, test_quota_loop fuel t (Some p) i l s r = Some b ∧ (b = true ↔ quota_above t p i l s r)) X t Hinv); [|done].
  clear p Hp. intros fuel p n Hfuel Hp IH. cbn [test_quota_loop]. rewrite Hp. cbn [mbind option_bind].
  destruct (fsnodes_test_quota_noparents n i l s r) eqn:Hover.
  { exists true. split; [done|]. split; [|done]. intros _. exists p, n. split; [by left|done]. }
  assert (∀ b : bool, (b = true ↔ ∃ q, parent_of (view t) p q ∧ quota_above t q i l s r) → (b = true ↔ quota_above t p i l s r)) as Hup.
  { intros b ->. split.
    - intros (q & Hq & q' & m & Hor & Hm & Ho). exists q', m. split; [|done]. right. destruct Hor as [->|Hor]; [by apply tc_once|by eapply tc_l].
    - intros (q & m & Hor & Hm & Ho). destruct Hor as [->|Hor]; [congruence|]. apply tc_inv_l in Hor as [Hq|(q' & Hq' & Hor)].
      + exists q. split; [done|]. exists q, m. split; [by left|done].
      + exists q'. split; [done|]. exists q, m. split; [by right|done]. }
  destruct (Z.eqb_spec p MFS_ROOT_ID) as [->|Hroot].
  { exists false. split; [done|]. apply Hup. split; [done|]. intros (q & (m & e & Hm & Hin & _)%parent_of_view & _).
    destruct (co_root t Hco) as (rn & Hr & _ & Hnil). assert (m = rn) as -> by congruence. rewrite Hnil in Hin. by apply elem_of_nil in Hin. }
  destruct (any_opt_spec (λ e, ed ← t_edges t !! e; test_quota_loop fuel t (e_parent ed) i l s r)
    (λ e, ∃ q, edge_parent t e = Some q ∧ quota_above t q i l s r) (n_parents n)) as (b & Hb & Hiff).
  - intros e Hin. destruct (co_parents t Hco p n e Hp Hin) as (ed & He & _). unfold edge_parent. rewrite He. cbn [mbind option_bind].
    destruct (e_parent ed) as [q|] eqn:Hq.
    + destruct (IH q) as (b & Hb & Hiff); [by eapply view_edge_parent|]. exists b. split; [done|]. rewrite Hiff. split; [by exists q|].
      intros (q' & Hq' & Hab). by injection Hq' as <-.
    + destruct fuel; [lia|]. exists false. split; [done|]. split; [done|]. by intros (q & Hq' & _).
  - exists b. split; [done|]. apply Hup. rewrite Hiff. split.
    + intros (e & Hin & q & Hq & Hab). exists q. split; [|done]. apply parent_of_view. by exists n, e.
    + intros (q & (m & e & Hm & Hin & Hq)%parent_of_view & Hab). assert (m = n) as -> by congruence. exists e. split; [done|]. by exists q.
Qed.
