(* ===== verification/FsStart.v ===== *)
(** * The empty file system

    The state [fs_new] makes has the invariant: one directory, the root, no edge, and
    the numbers 0 and 1 in use. *)

From S2P Require Import Prelude HashChain MfsComm FreeInodes AppendRes StorageClass DataPack FsNodes PosixAcl FsAccess AclFacts FsTree FsOps FsStats FsTreeInv FsNames.

Definition start_words : list Z := 3 :: replicate 255 0.
Definition start_ids : idpool := mk_idpool start_words 0 [] 0 MFS_ROOT_ID.
Definition root_node (ts : Z) : node :=
  mk_node ts ts ts 0 0 false false false false TYPE_DIRECTORY 0x1FF DEFAULT_SCLASS 0 0 DEFAULT_TRASHTIME []
    (ddata [] 2 0 (mk_sr 0 0 0 0 0 0 0) None).
Definition start (ts : Z) : tree :=
  mk_tree {[MFS_ROOT_ID := root_node ts]} ∅ 1 ∅ ∅ ∅ ∅ start_ids ∅
    (mk_vars (EDGEID_MAX - 1) 0 0 0 0 0 1 1 {[DEFAULT_SCLASS := (0, 1)]}) [].

Lemma fs_new_start ts : fs_new ts = Some (start ts).
Proof. reflexivity. Qed.

Lemma start_word k : start_words !! k = Some (if (k =? 0)%nat then 3 else 0) ∨ start_words !! k = None.
Proof.
  destruct k as [|k]; [by left|]. change (start_words !! S k) with (replicate 255 0 !! k). cbn [Nat.eqb].
  destruct (decide (k < 255)%nat); [left|right].
  - by apply lookup_replicate_2.
  - apply lookup_ge_None_2. rewrite length_replicate. lia.
Qed.

Lemma start_used i : 0 ≤ i → used start_ids i ↔ i = 0 ∨ i = 1.
Proof.
  intros Hi. unfold used, bit_used, start_ids. simpl. split.
  - intros (w & Hw & Hb). destruct (start_word (Z.to_nat (i / 32))) as [H|H]; rewrite H in Hw; [|done]. simplify_eq.
    destruct (Nat.eqb_spec (Z.to_nat (i / 32)) 0) as [H0|_]; [|by rewrite Z.bits_0 in Hb].
    assert (i < 32) as Hlt by (pose proof (Z.div_mod i 32); pose proof (Z.mod_pos_bound i 32); pose proof (Z.div_pos i 32); lia).
    rewrite Z.mod_small in Hb by lia. destruct (Z.leb_spec i 1); [lia|]. change 3 with (Z.ones 2) in Hb.
    rewrite Z.ones_spec_high in Hb by lia. done.
  - intros [->| ->]; by exists 3.
Qed.

Lemma start_pool : pool_inv (λ i, i = 1) start_ids.
Proof.
  split.
  - split; [|unfold start_ids; simpl; lia|unfold start_ids; simpl; lia|by apply start_used; [lia|left]].
    change (freebitmask start_ids) with start_words. apply Forall_cons. split; [done|]. by apply Forall_replicate.
  - intros i Hi. rewrite start_used by done. simpl. rewrite elem_of_nil. tauto.
  - intros i [->|[]%elem_of_nil]. lia.
  - intros i _ []%elem_of_nil.
  - constructor.
Qed.

Lemma start_node ts i n : t_nodes (start ts) !! i = Some n → i = MFS_ROOT_ID ∧ n = root_node ts.
Proof. cbn [t_nodes start]. intros H. by apply lookup_singleton_Some in H as [<- <-]. Qed.

Lemma start_coherent ts : coherent (start ts).
Proof.
  split; try (intros *; simpl; by rewrite lookup_empty).
  - intros i n e [-> ->]%start_node Hin. by apply elem_of_nil in Hin.
  - intros i n [-> ->]%start_node. constructor.
  - intros i n e [-> ->]%start_node Hin. by apply elem_of_nil in Hin.
  - intros i n [-> ->]%start_node. constructor.
  - by intros i n [-> ->]%start_node.
  - intros p name e. simpl. rewrite lookup_empty. split; [done|]. intros (ed & H & _). by rewrite lookup_empty in H.
  - by exists (root_node ts).
Qed.

Lemma start_view ts i p : view (start ts) !! i = Some p →
  i = MFS_ROOT_ID ∧ fn_parents p = [] ∧ fn_mode p = 0x1FF ∧ fn_aclpermflag p = false ∧ fn_acldefflag p = false.
Proof. unfold view. rewrite lookup_fmap_Some. by intros (n & <- & [-> ->]%start_node). Qed.

Lemma start_fs ts : fs_inv (tree_fs (start ts)).
Proof.
  assert (∀ i q, ¬ parent_of (view (start ts)) i q) as Hpar.
  { intros i q (p & Hp & Hin). destruct (start_view ts i p Hp) as (_ & Heq & _). rewrite Heq in Hin. by apply elem_of_nil in Hin. }
  split; simpl.
  - split.
    + intros i q H. by apply Hpar in H.
    + intros i p Hp _. destruct (start_view ts i p Hp) as (_ & -> & _). simpl. lia.
    + intros i Ha. unfold ancestor in Ha. apply tc_inv_l in Ha as [H|(z & H & _)]; by apply Hpar in H.
  - intros i p Hp. destruct (start_view ts i p Hp) as (_ & _ & -> & _). lia.
  - split; simpl.
    + intros i ty n H. by rewrite lookup_empty in H.
    + intros i ty n H. by rewrite lookup_empty in H.
    + intros i ty p Hp Hfl. destruct (start_view ts i p Hp) as (_ & _ & _ & Ha & Hd).
      revert Hfl. unfold acl_flag. rewrite Ha, Hd. by repeat case_match.
Qed.

Lemma start_counters ts : counters_ok (t_nodes (start ts)) (t_vars (start ts)).
Proof.
  assert (∀ f, sum_nodes f (t_nodes (start ts)) = f (root_node ts)) as Hsum.
  { intros f. simpl. rewrite <- insert_empty, sum_nodes_insert_None by done. unfold sum_nodes. rewrite map_fold_empty. lia. }
  split; rewrite ?Hsum; try done. intros sc. rewrite !Hsum. destruct (decide (DEFAULT_SCLASS = sc)) as [<-|Hne]; [done|].
  cbn [v_sclass t_vars start]. rewrite lookup_singleton_ne by done. unfold weight_class_files, weight_class_dirs, root_node.
  cbn [n_sclassid n_type]. apply Z.eqb_neq in Hne. by rewrite Hne, !andb_false_r.
Qed.

(** The first state has the invariant, and no names. *)
Lemma start_inv ts : tree_inv [] (start ts) ∧ names (start ts) = ∅.
Proof.
  split; [split; [split|]|].
  - apply start_coherent.
  - apply start_fs.
  - intros i n [-> ->]%start_node. done.
  - split; try (intros *; simpl; by rewrite ?lookup_empty).
    + intros b e H. unfold bucket in H. simpl in H. by rewrite lookup_empty in H; apply elem_of_nil in H.
    + intros b e H. unfold bucket in H. simpl in H. by rewrite lookup_empty in H; apply elem_of_nil in H.
    + intros b. unfold bucket. simpl. rewrite !lookup_empty. split; constructor.
    + intros i n [-> ->]%start_node [H|H]; done.
  - by intros i n [-> ->]%start_node.
  - eapply pool_inv_ext; [|apply start_pool]. intros i. simpl. rewrite lookup_singleton. case_decide as Heq.
    + split; [by eexists|]. intros _. by rewrite <- Heq.
    + split; [intros ->; by destruct Heq|intros [? ?]; done].
  - apply start_counters.
  - intros h id e H. simpl in H. by rewrite lookup_empty in H.
  - intros i n st [-> ->]%start_node _ Hst. by injection Hst as <-.
  - unfold names. done.
Qed.
