(* ===== verification/FsSystem.v ===== *)
(** * The file system as a whole

    The requests of the clients, served one after the other from an empty tree, and the
    replay of what they log.  A state is the tree and the table of the reservations of
    space.  The theorems of the tree are here: the invariant of the states requests
    lead to, that every request ends, what the requests do to the map of names, what
    becomes of an unlinked file, that the statistics of a directory count what is below
    it, and that a follower that replays the changelog has the same tree. *)

From S2P Require Import Prelude HashChain MfsComm FreeInodes AppendRes StorageClass DataPack FsNodes PosixAcl FsAccess AclFacts FsTree FsOps FsStats FsTreeInv FsTreeEdges FsTreeLink FsTreeNodes FsTreeOps FsWalks FsTreeUnlink FsTreeFiles FsRequests FsNames FsMoves FsStart.

(** The requests, with the arguments of the handlers. *)
Inductive request :=
| Symlink (ts rootinode sesflags parent : Z) (name path : list Z) (uid : Z) (gid : list Z)
| Mknod (ts rootinode sesflags parent : Z) (name : list Z) (type mode cumask uid : Z) (gid : list Z) (rdev : Z)
| Mkdir (ts rootinode sesflags parent : Z) (name : list Z) (mode cumask uid : Z) (gid : list Z) (copysgid : bool)
| Unlink (ts rootinode sesflags parent : Z) (name : list Z) (uid : Z) (gid : list Z)
| Rmdir (ts rootinode sesflags parent : Z) (name : list Z) (uid : Z) (gid : list Z)
| Rename (ts rootinode sesflags parent_src : Z) (name_src : list Z) (parent_dst : Z) (name_dst : list Z) (uid : Z) (gid : list Z)
    (rmode delflags : Z)
| Link (ts rootinode sesflags inode_src parent_dst : Z) (name_dst : list Z) (uid : Z) (gid : list Z)
| TrashRemove (ts sesflags inode uid : Z)
| Purge (ts rootinode sesflags inode : Z)
| SetTrashPath (ts rootinode sesflags inode : Z) (path : list Z)
| SetLength (ts rootinode sesflags inode flags length : Z).

Definition sesflags_of (r : request) : Z :=
  match r with
  | Symlink _ _ f _ _ _ _ _ | Mknod _ _ f _ _ _ _ _ _ _ _ | Mkdir _ _ f _ _ _ _ _ _ _ | Unlink _ _ f _ _ _ _ | Rmdir _ _ f _ _ _ _
  | Rename _ _ f _ _ _ _ _ _ _ _ | Link _ _ f _ _ _ _ _ | TrashRemove _ f _ _ | Purge _ _ f _ | SetTrashPath _ _ f _ _
  | SetLength _ _ f _ _ _ => f
  end.

(** The state of the master: the tree and the reservations. *)
Definition state : Type := tree * restab.

Section with_classes.
Variable sclasstab : Z → storageclass.
Variable MaxECRedundancyLevel : Z.
Variable of_isfileopen : Z → bool.
Variable KeepEmptyFilesInTrash : bool.
Variable patterntab : list pattern.
Variable MaxAllowedHardLinks : Z.

(** Status, answer, state and entry of a request. *)
Definition serve (r : request) (s : state) : option (Z * Z * state * option tree_entry) :=
  let keep (a : option answer) := '(st, i, t, e) ← a; Some (st, i, (t, s.2), e) in
  match r with
  | Symlink ts root f p name path uid gid => keep (fs_univ_symlink sclasstab MaxECRedundancyLevel ts root f p name path uid gid s.1)
  | Mknod ts root f p name ty mode cumask uid gid rdev =>
      keep (fs_mknod sclasstab MaxECRedundancyLevel patterntab ts root f p name ty mode cumask uid gid rdev s.1)
  | Mkdir ts root f p name mode cumask uid gid copysgid =>
      keep (fs_mkdir sclasstab MaxECRedundancyLevel patterntab ts root f p name mode cumask uid gid copysgid s.1)
  | Unlink ts root f p name uid gid =>
      keep (fs_unlink sclasstab MaxECRedundancyLevel of_isfileopen KeepEmptyFilesInTrash ts root f p name uid gid s.1)
  | Rmdir ts root f p name uid gid =>
      keep (fs_rmdir sclasstab MaxECRedundancyLevel of_isfileopen KeepEmptyFilesInTrash ts root f p name uid gid s.1)
  | Rename ts root f p1 name1 p2 name2 uid gid rmode delflags =>
      keep (fs_rename sclasstab MaxECRedundancyLevel of_isfileopen KeepEmptyFilesInTrash patterntab ts root f p1 name1 p2 name2 uid gid rmode delflags s.1)
  | Link ts root f i p name uid gid => keep (fs_link sclasstab MaxECRedundancyLevel MaxAllowedHardLinks ts root f i p name uid gid s.1)
  | TrashRemove ts f i uid => keep (fs_trash_remove sclasstab MaxECRedundancyLevel of_isfileopen ts f i uid s.1)
  | Purge ts root f i => keep (fs_purge sclasstab MaxECRedundancyLevel of_isfileopen ts root f i s.1)
  | SetTrashPath ts root f i path => keep (fs_settrashpath sclasstab MaxECRedundancyLevel ts root f i path s.1)
  | SetLength ts root f i flags len =>
      '(st, prev, t, ar, e) ← fs_do_setlength sclasstab MaxECRedundancyLevel ts root f i flags len s.2 s.1; Some (st, prev, (t, ar), e)
  end.

(** What a follower does with an entry. *)
Definition replay (e : tree_entry) (t : tree) : option answer :=
  match e with
  | SYMLINK ts p name path uid gid i => fs_mr_symlink sclasstab MaxECRedundancyLevel ts p name path uid gid i t
  | CREATE ts p name ty mode cumask uid gid rdev i =>
      fs_mr_create sclasstab MaxECRedundancyLevel patterntab ts p name ty mode cumask uid gid rdev i t
  | UNLINK ts p name i => fs_mr_unlink sclasstab MaxECRedundancyLevel of_isfileopen KeepEmptyFilesInTrash ts p name i t
  | MOVE ts p1 name1 p2 name2 rmode i =>
      fs_mr_move sclasstab MaxECRedundancyLevel of_isfileopen KeepEmptyFilesInTrash patterntab ts p1 name1 p2 name2 rmode i t
  | LINK ts i p name => fs_mr_link sclasstab MaxECRedundancyLevel MaxAllowedHardLinks ts i p name t
  | LENGTH ts i len chtime => fs_mr_length sclasstab MaxECRedundancyLevel ts i len chtime t
  | TRASH_REMOVE ts i => fs_mr_trash_remove sclasstab MaxECRedundancyLevel of_isfileopen ts i t
  | PURGE ts i => fs_mr_purge sclasstab MaxECRedundancyLevel of_isfileopen ts i t
  | SETPATH ts i path => fs_mr_setpath sclasstab MaxECRedundancyLevel i path t
  end.

(** What the program relies on when it serves a request: the session is a client's, a
    new node finds a number, the list of groups is not empty, the node whose length is
    set is a file ([fs_try_setlength] has tested it), and a move is one the function can
    do. *)
Definition request_ok (r : request) (t : tree) : Prop :=
  replays (sesflags_of r) = false ∧
  match r with
  | Symlink _ _ _ _ _ _ _ gid | Mknod _ _ _ _ _ _ _ _ _ gid _ | Mkdir _ _ _ _ _ _ _ _ gid _ => room (t_ids t) ∧ gid ≠ []
  | Rename _ root f p1 name1 p2 name2 _ _ rmode _ =>
      ∀ q1 q2, fsnodes_node_find_ext (view t) root f p1 false = Some (Some q1) →
        fsnodes_node_find_ext (view t) root f p2 false = Some (Some q2) →
        move_ok sclasstab MaxECRedundancyLevel false q1 name1 q2 name2 rmode t
  | SetLength _ root f i flags _ =>
      ∀ j, fsnodes_node_find_ext (view t) root f i (flag flags TRUNCATE_FLAG_OPENED) = Some (Some j) →
        ∃ n, t_nodes t !! j = Some n ∧ is_file n = true
  | _ => True
  end.

(** ** Every request ends and keeps the invariant *)

(** The effect of a request on the map of names: the directories are those the numbers
    of the request lead to in its session, [i] is the inode of the answer. *)
Definition spec (r : request) (i : Z) (t : tree) (m m' : gmap (Z * list Z) Z) : Prop :=
  let found root f p skip q := fsnodes_node_find_ext (view t) root f p skip = Some (Some q) in
  match r with
  | Symlink _ root f p name _ _ _ | Mknod _ root f p name _ _ _ _ _ _ | Mkdir _ root f p name _ _ _ _ _ =>
      ∃ q, found root f p false q ∧ m !! (q, name) = None ∧ t_nodes t !! i = None ∧ m' = <[(q, name) := i]> m
  | Unlink _ root f p name _ _ | Rmdir _ root f p name _ _ =>
      ∃ q, found root f p false q ∧ m !! (q, name) = Some i ∧ m' = delete (q, name) m
  | Rename _ root f p1 name1 p2 name2 _ _ rmode _ =>
      ∃ q1 q2, found root f p1 false q1 ∧ found root f p2 false q2 ∧ moved rmode q1 name1 q2 name2 m m'
  | Link _ root f isrc p name _ _ =>
      ∃ q, found root f isrc false i ∧ found root f p false q ∧ m !! (q, name) = None ∧ m' = <[(q, name) := i]> m
  | _ => m' = m
  end.

(** The request returns; refused, it leaves the names; done, it does what [spec] says. *)
Definition request_done (r : request) (s : state) : Prop :=
  ∃ st i s' e, serve r s = Some (st, i, s', e) ∧ tree_inv [] s'.1 ∧
    if st =? MFS_STATUS_OK then spec r i s.1 (names s.1) (names s'.1) else names s'.1 = names s.1 ∧ e = None.

Lemma served_done r s a effect :
  served s.1 a effect → serve r s = ('(st, i, t, e) ← a; Some (st, i, (t, s.2), e)) →
  (∀ i t' e, tree_inv [] t' → effect i t' e → spec r i s.1 (names s.1) (names t')) → request_done r s.
Proof.
  intros [(st & t' & Hst & -> & Hk)|(i & t' & e & -> & Hinv' & He)] Hserve Hspec; unfold request_done; rewrite Hserve.
  - unfold refuse. cbn [mbind option_bind]. do 4 eexists. split; [done|]. split; [apply Hk|].
    destruct (Z.eqb_spec st MFS_STATUS_OK); [done|]. split; [by apply kept_named|done].
  - cbn [mbind option_bind]. do 4 eexists. split; [done|]. split; [done|]. rewrite Z.eqb_refl. by eapply Hspec.
Qed.

(** The cases of [fs_do_setlength]. *)
Lemma do_setlength_cases ts root f i flags len ar t :
  tree_inv [] t →
  (∀ j, fsnodes_node_find_ext (view t) root f i (flag flags TRUNCATE_FLAG_OPENED) = Some (Some j) →
     ∃ n, t_nodes t !! j = Some n ∧ is_file n = true) →
  (fsnodes_node_find_ext (view t) root f i (flag flags TRUNCATE_FLAG_OPENED) = Some None ∧
   fs_do_setlength sclasstab MaxECRedundancyLevel ts root f i flags len ar t = Some (MFS_ERROR_ENOENT, 0, t, ar, None)) ∨
  ∃ j n oldlen, fsnodes_node_find_ext (view t) root f i (flag flags TRUNCATE_FLAG_OPENED) = Some (Some j) ∧
    t_nodes t !! j = Some n ∧ is_file n = true ∧ file_length n = Some oldlen ∧
    ((flag flags TRUNCATE_FLAG_RESERVE = true ∧
      fs_do_setlength sclasstab MaxECRedundancyLevel ts root f i flags len ar t =
        Some (MFS_STATUS_OK, Z.max oldlen (appendres_getvleng j ar), t,
              appendres_setvleng j (u64 (len + Z.max oldlen (appendres_getvleng j ar))) ar, None)) ∨
     (flag flags TRUNCATE_FLAG_RESERVE = false ∧ flag flags TRUNCATE_FLAG_UPDATE = true ∧ len ≤ oldlen ∧
      fs_do_setlength sclasstab MaxECRedundancyLevel ts root f i flags len ar t =
        Some (MFS_STATUS_OK, oldlen, t, appendres_clear j ar, None)) ∨
     (flag flags TRUNCATE_FLAG_RESERVE = false ∧ (flag flags TRUNCATE_FLAG_UPDATE = true → oldlen < len) ∧
      ∃ chtime t', chtime = negb (flag flags TRUNCATE_FLAG_UPDATE || ((len =? oldlen) && flag flags TRUNCATE_FLAG_TIMEFIX)) ∧
        set_length_and_times sclasstab MaxECRedundancyLevel ts j len chtime t = Some t' ∧ tree_inv [] t' ∧ sets_length j len t t' ∧
        fs_do_setlength sclasstab MaxECRedundancyLevel ts root f i flags len ar t =
          Some (MFS_STATUS_OK, oldlen, t', appendres_clear j ar, Some (LENGTH ts j len chtime)))).
Proof.
  intros Hinv Hfile. unfold fs_do_setlength.
  destruct (find_total [] t root f i (flag flags TRUNCATE_FLAG_OPENED) (ti_struct _ _ Hinv)) as (found & Hfound & _). rewrite Hfound in *.
  cbn [mbind option_bind]. destruct found as [j|]; [right|by left].
  destruct (Hfile j eq_refl) as (n & Hn & Hf). destruct (file_length_some n) as [oldlen Hlen]; [|done|].
  { eapply co_shape; [apply (ti_coherent _ _ (ti_struct _ _ Hinv))|done]. }
  exists j, n, oldlen. split_and!; try done. rewrite Hn. cbn [mbind option_bind]. rewrite Hlen. cbn [mbind option_bind].
  destruct (flag flags TRUNCATE_FLAG_RESERVE) eqn:Hres.
  { left. split; [done|]. case_if; [rewrite Z.max_l by lia|rewrite Z.max_r by lia]; done. }
  right. destruct (flag flags TRUNCATE_FLAG_UPDATE) eqn:Hupd; simpl (_ || _).
  - destruct (Z.ltb_spec oldlen len) as [Hlt|Hge]; [right|by left]. split; [done|]. split; [done|].
    destruct (set_length_inv sclasstab MaxECRedundancyLevel ts j n len false t Hinv Hn Hf) as (t' & Hset & Hinv' & Hs).
    exists false, t'. rewrite Hset. by split_and!.
  - right. split; [done|]. split; [done|]. set (chtime := negb _).
    destruct (set_length_inv sclasstab MaxECRedundancyLevel ts j n len chtime t Hinv Hn Hf) as (t' & Hset & Hinv' & Hs).
    exists chtime, t'. rewrite Hset. by split_and!.
Qed.

Lemma serve_done r s : tree_inv [] s.1 → request_ok r s.1 → request_done r s.
Proof.
  destruct s as [t ar]. intros Hinv [Hses Hok]. cbn [fst] in *.
  destruct r as [ts root f p name path uid gid|ts root f p name ty mode cumask uid gid rdev|ts root f p name mode cumask uid gid copysgid
    |ts root f p name uid gid|ts root f p name uid gid|ts root f p1 name1 p2 name2 uid gid rmode delflags|ts root f i p name uid gid
    |ts f i uid|ts root f i|ts root f i path|ts root f i flags len]; cbn [sesflags_of] in *.
  1-3: destruct Hok as [Hroom Hgid].
  - eapply served_done; [by apply univ_symlink_served|done|]. intros i t' e Hinv' (q & g & Hq & _ & Hmk & _).
    destruct (makes_names _ _ _ _ _ _ _ Hinv Hmk) as [? ?]. exists q. split_and!; try done. by destruct Hmk as (_ & ? & _).
  - apply (served_done (Mknod ts root f p name ty mode cumask uid gid rdev) (t, ar) _ _ (univ_create_served sclasstab MaxECRedundancyLevel patterntab ts root f p name (if 15 <? ty then fsnodes_type_convert ty else ty) mode cumask uid gid rdev false t Hinv Hroom Hgid) eq_refl). intros i t' e Hinv' (q & Hq & Hmk).
    destruct (makes_names _ _ _ _ _ _ _ Hinv Hmk) as [? ?]. exists q. split_and!; try done. by destruct Hmk as (_ & ? & _).
  - apply (served_done (Mkdir ts root f p name mode cumask uid gid copysgid) (t, ar) _ _ (univ_create_served sclasstab MaxECRedundancyLevel patterntab ts root f p name TYPE_DIRECTORY mode cumask uid gid 0 copysgid t Hinv Hroom Hgid) eq_refl). intros i t' e Hinv' (q & Hq & Hmk).
    destruct (makes_names _ _ _ _ _ _ _ Hinv Hmk) as [? ?]. exists q. split_and!; try done. by destruct Hmk as (_ & ? & _).
  - eapply served_done; [by apply univ_unlink_served|done|]. intros i t' e Hinv' (q & Hq & Hrm & _).
    destruct (removes_names _ _ _ _ _ _ _ Hinv Hrm) as [? ?]. by exists q.
  - eapply served_done; [by apply univ_unlink_served|done|]. intros i t' e Hinv' (q & Hq & Hrm & _).
    destruct (removes_names _ _ _ _ _ _ _ Hinv Hrm) as [? ?]. by exists q.
  - eapply served_done; [apply univ_move_served; [done|]|done|].
    + intros q1 q2. rewrite Hses. apply Hok.
    + intros i t' e Hinv' (q1 & q2 & ? & ? & ? & _). by exists q1, q2.
  - assert (replays f = true → ∀ n, t_nodes t !! i = Some n → size_current sclasstab MaxECRedundancyLevel n) as Hcur by (by rewrite Hses).
    apply (served_done (Link ts root f i p name uid gid) (t, ar) _ _
             (univ_link_served sclasstab MaxECRedundancyLevel MaxAllowedHardLinks ts root f i p name uid gid t Hinv Hcur) eq_refl). intros j t' e Hinv' (q & ? & ? & Hadd & _).
    destruct (adds_names _ _ _ _ _ Hinv Hadd) as [? ?]. by exists q.
  - eapply served_done; [by apply univ_trash_remove_served|done|]. intros j t' e Hinv' [Hp _]. by eapply purges_names.
  - eapply served_done; [by apply univ_purge_served|done|]. intros j t' e Hinv' [Hp _]. by eapply purges_names.
  - eapply served_done; [by apply univ_setpath_served|done|]. intros j t' e Hinv' [Hp _]. by eapply sets_path_names.
  - unfold request_done, serve. cbn [fst snd].
    destruct (do_setlength_cases ts root f i flags len ar t Hinv Hok) as [[_ ->]|(j & n & oldlen & _ & _ & _ & _ & [[_ ->]|[(_ & _ & _ & ->)|(_ & _ & ch & t' & _ & _ & Hinv' & Hs & ->)]])];
      cbn [mbind option_bind]; do 4 eexists; (split; [done|]); (split; [done|]); try done.
    simpl. by eapply sets_length_names.
Qed.

End with_classes.

(** ** The states requests lead to

    Which files are open is decided elsewhere and may be another set at each request. *)

Section reachable.
Variable sclasstab : Z → storageclass.
Variable MaxECRedundancyLevel : Z.
Variable KeepEmptyFilesInTrash : bool.
Variable patterntab : list pattern.
Variable MaxAllowedHardLinks : Z.

Inductive reachable : state → Prop :=
| reach_new ts t : fs_new ts = Some t → reachable (t, appendres_init)
| reach_serve of_isfileopen r s st i s' e :
    reachable s → request_ok sclasstab MaxECRedundancyLevel r s.1 →
    serve sclasstab MaxECRedundancyLevel of_isfileopen KeepEmptyFilesInTrash patterntab MaxAllowedHardLinks r s = Some (st, i, s', e) →
    reachable s'.

Lemma tree_reachable_inv s : reachable s → tree_inv [] s.1.
Proof.
  induction 1 as [ts t Ht|of_isfileopen r s st i s' e _ IH Hok Hserve].
  - rewrite fs_new_start in Ht. injection Ht as <-. apply start_inv.
  - destruct (serve_done sclasstab MaxECRedundancyLevel of_isfileopen KeepEmptyFilesInTrash patterntab MaxAllowedHardLinks r s IH Hok)
      as (st' & i' & s'' & e' & Hserve' & Hinv & _). congruence.
Qed.

End reachable.

(** ** What is below a directory

    The totals the statistics of a directory stand for: every name below it counts, a
    file with several names once for each. *)

Fixpoint sum_opt {A} (f : A → option statsrecord) (l : list A) : option statsrecord :=
  match l with [] => Some sr_zero | x :: l => a ← f x; b ← sum_opt f l; Some (sr_plus a b) end.

Fixpoint totals (fuel : nat) (t : tree) (i : Z) : option statsrecord :=
  match fuel with
  | O => None
  | S fuel =>
      n ← t_nodes t !! i;
      sum_opt (λ e,
        ed ← t_edges t !! e;
        c ← t_nodes t !! e_child ed;
        if is_dir c then sr_plus (mk_sr 1 1 0 0 0 0 0) <$> totals fuel t (e_child ed) else node_stats c) (children n)
  end.

Lemma sum_opt_equiv {A} (f : A → option statsrecord) (g : A → statsrecord) l :
  (∀ x, x ∈ l → ∃ a, f x = Some a ∧ a ≡ g x) → ∃ s, sum_opt f l = Some s ∧ s ≡ foldr (λ x s, sr_plus (g x) s) sr_zero l.
Proof.
  induction l as [|x l IH]; intros Hf; [by exists sr_zero|]. destruct (Hf x) as (a & Ha & Heq); [by left|].
  destruct IH as (s & Hs & Heqs); [intros y Hy; apply Hf; by right|]. exists (sr_plus a s). simpl. rewrite Ha, Hs. cbn [mbind option_bind].
  split; [done|]. by rewrite Heq, Heqs.
Qed.

(** A directory counts itself and what its statistics say. *)
Lemma node_stats_dir n st : n_type n = TYPE_DIRECTORY → dir_stats n = Some st →
  ∃ s, node_stats n = Some s ∧ s ≡ sr_plus (mk_sr 1 1 0 0 0 0 0) st.
Proof.
  intros Ht Hs. unfold node_stats, dir_stats in *. rewrite Ht. destruct (n_data n) as [cs nl el st' q| | | |]; try done.
  injection Hs as ->. eexists. split; [done|]. unfold equiv, sr_equiv, sr_plus. simpl.
  split_and!; try reflexivity; rewrite Z.add_comm; apply cong_mod.
Qed.

(** The statistics are the totals: by the way down, on which no directory comes twice. *)
Lemma totals_ok t i n st :
  tree_inv [] t → t_nodes t !! i = Some n → n_type n = TYPE_DIRECTORY → dir_stats n = Some st →
  ∃ s, totals (S (size (t_nodes t))) t i = Some s ∧ st ≡ s.
Proof.
  intros [Hs Hst]. pose proof (ti_coherent _ _ Hs) as Hco. pose proof (fs_tree _ (ti_fs _ _ Hs)) as Htree.
  assert (∀ fuel i n st (seen : gset Z), t_nodes t !! i = Some n → n_type n = TYPE_DIRECTORY → dir_stats n = Some st →
    (∀ x, x ∈ seen → ancestor (view t) i x) → seen ⊆ dom (t_nodes t) → (size (t_nodes t) < size seen + fuel)%nat →
    ∃ s, totals fuel t i = Some s ∧ st ≡ s) as Hall.
  2: { intros Hn Ht Hd. apply (Hall _ i n st ∅ Hn Ht Hd); [set_solver|set_solver|]. rewrite size_empty. lia. }
  clear i n st. induction fuel as [|fuel IH]; intros i n st seen Hn Ht Hd Hseen Hdom Hsize.
  { exfalso. pose proof (subseteq_size _ _ Hdom) as Hle. rewrite size_dom in Hle. lia. }
  assert (i ∉ seen) as Hnew by (intros Hin; by apply (tree_acyclic _ Htree i), Hseen).
  destruct (sum_opt_equiv (λ e, ed ← t_edges t !! e; c ← t_nodes t !! e_child ed;
     if is_dir c then sr_plus (mk_sr 1 1 0 0 0 0 0) <$> totals fuel t (e_child ed) else node_stats c) (edge_stats t) (children n)) as (s & Hsum & Heq).
  2: { exists s. cbn [totals]. rewrite Hn. split; [done|]. rewrite Heq. fold (dir_sum t (children n)).
       rewrite <- (Hst i n st Hn Ht Hd). by rewrite sr_plus_zero_r. }
  intros e He. destruct (co_children t Hco i n e Hn He) as (ed & Hed & Hp). destruct (co_child t Hco e ed Hed) as (c & Hc & Hin).
  rewrite Hed. cbn [mbind option_bind]. rewrite Hc. cbn [mbind option_bind]. unfold edge_stats, st_of. rewrite Hed, Hc.
  pose proof (co_shape t Hco _ _ Hc) as Hsh. unfold is_dir. destruct (Z.eqb_spec (n_type c) TYPE_DIRECTORY) as [Hct|Hct].
  - destruct (dir_data c Hsh Hct) as (cs & nl & el & stc & q & Hcd).
    assert (dir_stats c = Some stc) as Hdc by (unfold dir_stats; by rewrite Hcd).
    assert (parent_of (view t) (e_child ed) i) as Hpi by (by apply (view_edge_parent t (e_child ed) c e ed)).
    destruct (IH (e_child ed) c stc ({[i]} ∪ seen) Hc Hct Hdc) as (s & -> & Hss).
    + intros x [->%elem_of_singleton|Hx]%elem_of_union; [by apply tc_once|]. eapply tc_l; [done|]. by apply Hseen.
    + apply union_subseteq. split; [|done]. apply singleton_subseteq_l, elem_of_dom. by eexists.
    + rewrite size_union by set_solver. rewrite size_singleton. lia.
    + eexists. split; [done|]. destruct (node_stats_dir c stc Hct Hdc) as (sc & -> & Hsc). simpl. by rewrite Hsc, Hss.
  - destruct (node_stats_some c Hsh) as [sc Hsc]. rewrite Hsc. by exists sc.
Qed.
