(* ===== verification/FsReplay.v ===== *)
(** * Replay of the changelog of the tree

    What a follower has after it has replayed the entries of the changelog: the same
    tree as the master that served the requests.  The lemmas go through the handlers
    once for each kind of request; [agrees] says what they need. *)

From S2P Require Import Prelude HashChain MfsComm FreeInodes AppendRes StorageClass DataPack FsNodes PosixAcl FsAccess AclFacts FsTree FsOps FsStats FsTreeInv FsTreeEdges FsTreeLink FsTreeNodes FsTreeOps FsWalks FsTreeUnlink FsTreeFiles FsRequests FsNames FsMoves FsSystem.

(** A follower finds every node by its number. *)
Lemma find_replay t i n : t_nodes t !! i = Some n → fsnodes_node_find_ext (view t) 0 SESFLAG_METARESTORE i false = Some (Some i).
Proof. intros Hn. unfold fsnodes_node_find_ext. simpl. by rewrite (view_lookup t i n Hn). Qed.

Lemma find_node root f i j t : fsnodes_node_find_ext (view t) root f i false = Some (Some j) → is_Some (t_nodes t !! j).
Proof.
  intros H. destruct (view t !! j) as [p|] eqn:Hj.
  { unfold view in Hj. rewrite lookup_fmap in Hj. destruct (t_nodes t !! j); [by eexists|done]. }
  exfalso. revert H. unfold fsnodes_node_find_ext. repeat case_match; simplify_eq; try congruence; simpl; try done.
  destruct (fsnodes_isancestor _ _ _) as [[]|]; simpl; try done. congruence.
Qed.

(** Goes through the tests of a handler that has answered with success. *)
Ltac served_step H :=
  lazymatch type of H with
  | (if ?b then _ else _) = _ => let E := fresh "E" in destruct b eqn:E; [discriminate H|]
  | mbind _ ?a = _ => let E := fresh "E" in destruct a eqn:E; [|discriminate H]; cbn [mbind option_bind] in H
  | (let (_, _) := ?a in _) = _ => destruct a
  | match ?a with Some st => refuse st _ | None => _ end = _ =>
      let E := fresh "Status" in destruct a eqn:E; [unfold refuse in H; injection H as ->; exfalso|]
  | match ?a with Some _ => _ | None => _ end = _ => let E := fresh "E" in destruct a eqn:E; [|discriminate H]
  end.
(** The handler of a client has answered: what it went through. *)
Ltac served_steps Hf H :=
  rewrite ?Hf in H; cbn [negb andb] in H; cbv zeta in H; repeat served_step H; try (injection H as <- <- <-; simplify_eq).

(** Takes the same way in the replay. *)
Ltac replay_step :=
  match goal with
  | E : ?b = _ |- context [if ?b then _ else _] => rewrite E
  | E : ?a = _ |- context [mbind _ ?a] => rewrite E
  | E : ?a = _ |- context [match ?a with Some _ => _ | None => _ end] => rewrite E
  | E : t_nodes ?t !! ?i = Some ?n |- context [fsnodes_node_find_ext (view ?t) 0 SESFLAG_METARESTORE ?i false] => rewrite (find_replay t i n E)
  | |- _ => progress cbn [mbind option_bind head negb andb]
  end.
Ltac replay_steps :=
  unfold may, quota_refuses; change (replays SESFLAG_METARESTORE) with true; cbn [negb andb]; cbv zeta;
  repeat replay_step; rewrite ?Z.eqb_refl; try reflexivity.

Section with_classes.
Variable sclasstab : Z → storageclass.
Variable MaxECRedundancyLevel : Z.
Variable of_isfileopen : Z → bool.
Variable KeepEmptyFilesInTrash : bool.
Variable patterntab : list pattern.
Variable MaxAllowedHardLinks : Z.
Abbreviation replay := (replay sclasstab MaxECRedundancyLevel of_isfileopen KeepEmptyFilesInTrash patterntab MaxAllowedHardLinks).

(** The replay of the entry has the same effect; without an entry there is none. *)
Definition replayed (t t' : tree) (e : option tree_entry) : Prop :=
  match e with Some e => replay e t = Some (MFS_STATUS_OK, 0, t', None) | None => t' = t end.

Lemma symlink_replay ts root f parent name path uid gid t i t' e :
  replays f = false → fs_univ_symlink sclasstab MaxECRedundancyLevel ts root f parent name path uid gid t = Some (MFS_STATUS_OK, i, t', e) →
  replayed t t' e.
Proof.
  intros Hf H. unfold fs_univ_symlink in H. served_steps Hf H.
  unfold replayed, FsSystem.replay, fs_mr_symlink, fs_univ_symlink. replay_steps.
Qed.

Lemma unlink_refused_replay f wd child uid dirmode t :
  replays f = false → unlink_refused f wd child uid dirmode t = None → unlink_refused SESFLAG_METARESTORE wd child 0 false t = None.
Proof.
  intros Hf. unfold unlink_refused. rewrite Hf. change (replays SESFLAG_METARESTORE) with true. cbv iota.
  destruct (is_dir child), (has_children child), dirmode; simpl; repeat case_match; done.
Qed.

Lemma unlink_replay ts root f parent name uid gid dirmode t i t' e :
  replays f = false →
  fs_univ_unlink sclasstab MaxECRedundancyLevel of_isfileopen KeepEmptyFilesInTrash ts root f parent name uid gid dirmode t = Some (MFS_STATUS_OK, i, t', e) →
  replayed t t' e.
Proof.
  intros Hf H. unfold fs_univ_unlink in H. served_steps Hf H; [by eapply unlink_refused_ok|].
  apply unlink_refused_replay in Status; [|done].
  unfold replayed, FsSystem.replay, fs_mr_unlink, fs_univ_unlink. replay_steps.
Qed.

Lemma trash_remove_replay ts f i uid t j t' e :
  replays f = false → fs_univ_trash_remove sclasstab MaxECRedundancyLevel of_isfileopen ts f i uid t = Some (MFS_STATUS_OK, j, t', e) → replayed t t' e.
Proof.
  intros Hf H. unfold fs_univ_trash_remove in H. served_steps Hf H.
  unfold replayed, FsSystem.replay, fs_mr_trash_remove, fs_univ_trash_remove. replay_steps.
Qed.

Lemma purge_replay ts root f i t j t' e :
  replays f = false → fs_univ_purge sclasstab MaxECRedundancyLevel of_isfileopen ts root f i t = Some (MFS_STATUS_OK, j, t', e) → replayed t t' e.
Proof.
  intros Hf H. unfold fs_univ_purge in H. served_steps Hf H.
  unfold replayed, FsSystem.replay, fs_mr_purge, fs_univ_purge. replay_steps.
Qed.

Lemma c_string_id path : existsb (λ c, c =? 0) path = false → c_string path = path.
Proof. induction path as [|c path IH]; [done|]. simpl. intros [-> Hp]%orb_false_iff. by rewrite IH. Qed.

Lemma setpath_replay ts root f i path t j t' e :
  replays f = false → fs_univ_setpath sclasstab MaxECRedundancyLevel ts root f i path t = Some (MFS_STATUS_OK, j, t', e) → replayed t t' e.
Proof.
  intros Hf H. unfold fs_univ_setpath in H. served_steps Hf H.
  unfold replayed, FsSystem.replay, fs_mr_setpath, fs_univ_setpath. rewrite c_string_id by done. replay_steps.
Qed.

(** The group of a new node decides as much as the group of the client does. *)
Lemma create_node_gid ts p name ty mode cumask uid gid gid' copysgid t dir :
  t_nodes t !! p = Some dir → gid' = (if Z.land (n_mode dir) 0x400 =? 0x400 then n_gid dir else gid) →
  fsnodes_create_node sclasstab MaxECRedundancyLevel ts p name ty mode cumask uid gid' copysgid t =
  fsnodes_create_node sclasstab MaxECRedundancyLevel ts p name ty mode cumask uid gid copysgid t.
Proof.
  intros Hdir Hg. unfold fsnodes_create_node. destruct (fsnodes_get_next_id (t_ids (add_nodes _ _ _ t))) as [[i ids]|]; [|done].
  cbn [mbind option_bind]. change (t_nodes (with_ids ids (add_nodes _ _ _ t))) with (t_nodes t). rewrite Hdir. cbn [mbind option_bind].
  assert (∀ m, new_node ts dir ty m uid gid' copysgid = new_node ts dir ty m uid gid copysgid) as Hnew.
  { intros m. unfold new_node. rewrite Hg. by destruct (Z.land (n_mode dir) 0x400 =? 0x400). }
  match goal with |- mbind _ ?a = _ => destruct a as [[[ret m] acls]|]; [|done] end. cbn [mbind option_bind]. by rewrite Hnew.
Qed.

Lemma change_class_ids i sclassid n t t' :
  change_class i sclassid t = Some t' → t_nodes t !! i = Some n →
  ∃ n', t_nodes t' !! i = Some n' ∧ n_uid n' = n_uid n ∧ n_gid n' = n_gid n.
Proof.
  intros H Hn. unfold change_class in H. rewrite Hn in H. cbn [mbind option_bind] in H. case_if_in H; injection H as <-; [by exists n|].
  assert (∀ d sc ty t, t_nodes (sclass_ref d sc ty t) = t_nodes t) as Hnodes by (intros; unfold sclass_ref; by destruct (default _ _)).
  unfold sclass_incref, sclass_decref. rewrite Hnodes. cbn [put with_nodes t_nodes]. rewrite lookup_insert_eq. by eexists.
Qed.

(** Owner and group of the node [fsnodes_create_node] has made. *)
Lemma create_node_ids ts p name ty mode cumask uid gid copysgid t t' dir i n :
  tree_inv [] t → room (t_ids t) → creatable ty → t_nodes t !! p = Some dir → n_type dir = TYPE_DIRECTORY → t_names t !! (p, name) = None →
  fsnodes_create_node sclasstab MaxECRedundancyLevel ts p name ty mode cumask uid gid copysgid t = Some (i, t') → t_nodes t' !! i = Some n →
  n_uid n = uid ∧ n_gid n = (if Z.land (n_mode dir) 0x400 =? 0x400 then n_gid dir else gid).
Proof.
  intros Hinv Hroom Hty Hdir Hdt Hname H Hn.
  destruct (create_node_inv sclasstab MaxECRedundancyLevel [] ts p name ty mode cumask uid gid copysgid t dir Hinv Hdir Hdt Hname Hty Hroom)
    as (j & t2 & ed & n' & mode' & H' & _ & _ & _ & _ & _ & _ & _ & Hn' & _ & Hfr & _).
  rewrite H' in H. injection H as <- <-. assert (n' = n) as -> by congruence. specialize (Hfr false false).
  assert (∀ m m', frozen m' = frozen m → n_uid m' = n_uid m ∧ n_gid m' = n_gid m) as Hids.
  { intros m m' Heq. split; [apply (f_equal n_uid) in Heq|apply (f_equal n_gid) in Heq]; revert Heq; unfold frozen, core, erase; by destruct (n_data m), (n_data m'). }
  apply Hids in Hfr as [Hu Hg]. cbn [n_uid n_gid with_flags] in Hu, Hg. rewrite Hu, Hg. unfold fix_ratio, set_ratio.
  by case_if; [destruct (n_data (new_node ts dir ty mode' uid gid copysgid))|].
Qed.

Lemma creatable_small ty : creatable ty → (15 <? ty) = false.
Proof. by intros [->|[->|[->|[->|[->|[->| ->]]]]]]. Qed.

Lemma create_replay ts root f parent name ty mode cumask uid gid rdev t i t' e :
  tree_inv [] t → room (t_ids t) → replays f = false →
  (∀ g, patterns_find_matching patterntab uid [g] name = patterns_find_matching patterntab uid gid name) →
  fs_univ_create sclasstab MaxECRedundancyLevel patterntab ts root f parent name ty mode cumask uid gid rdev false t = Some (MFS_STATUS_OK, i, t', e) →
  replayed t t' e.
Proof.
  intros Hinv Hroom Hf Hpt H. unfold fs_univ_create in H. served_steps Hf H.
  assert (creatable ty) as Hty. { clear -E0. apply negb_false_iff in E0. unfold creatable. rewrite !orb_true_iff, !Z.eqb_eq in E0. tauto. }
  assert (n_type n = TYPE_DIRECTORY) as Hdir by (apply negb_false_iff, Z.eqb_eq in E5; done).
  destruct (create_node_ids _ _ _ _ _ _ _ _ _ _ _ _ _ _ Hinv Hroom Hty E4 Hdir (name_unused _ _ _ E10) E14 E15) as [Hu Hg].
  destruct (change_class_ids _ _ _ _ _ E16 E15) as (m & Hm & Hu' & Hg'). assert (m = n1) as -> by congruence.
  assert (n_uid n2 = uid ∧ n_gid n2 = n_gid n0) as [Hu2 Hg2].
  { rewrite <- Hu, <- Hu', <- Hg'. clear -E18. repeat case_match; try done; by injection E18 as <-. }
  rewrite <- (create_node_gid ts z name ty mode cumask uid z0 (n_gid n0) false t n E4 Hg) in E14.
  rewrite Hu2, Hg2. unfold replayed, FsSystem.replay, fs_mr_create, fs_univ_create. rewrite (creatable_small ty Hty), (Hpt (n_gid n0)). cbn [head].
  replay_steps.
Qed.

(** Nothing happens to the sizes when the ratio is the one of the class. *)
Lemma get_stats_current i n sr t t' :
  t_nodes t !! i = Some n → fix_ratio sclasstab MaxECRedundancyLevel n = n → fsnodes_get_stats sclasstab MaxECRedundancyLevel i 2 t = Some (sr, t') → t' = t.
Proof.
  intros Hn Hfix H. unfold fsnodes_get_stats in H. rewrite Hn in H.
  change (2 =? 0) with false in H. change (2 =? 2) with true in H. cbn [mbind option_bind negb] in H. unfold fix_ratio, set_ratio in Hfix.
  destruct (is_file n); cbn [andb] in H.
  - destruct (n_data n) as [| | |len ct nl r|] eqn:Hd; try done. apply (f_equal n_data) in Hfix. simpl in Hfix. rewrite Hd in Hfix. injection Hfix as Hr.
    rewrite Hr, Z.eqb_refl in H. cbn [mbind option_bind] in H. rewrite Hn in H. cbn [mbind option_bind] in H. by destruct (node_stats n); [injection H as _ <-|].
  - cbn [mbind option_bind] in H. rewrite Hn in H. cbn [mbind option_bind] in H. by destruct (node_stats n); [injection H as _ <-|].
Qed.

(** The ratio of the file a link or a move is about. *)
Definition ratio_current (i : Z) (t : tree) : Prop := ∀ n, t_nodes t !! i = Some n → fix_ratio sclasstab MaxECRedundancyLevel n = n.

Lemma link_replay ts root f isrc parent name uid gid t i t' e :
  replays f = false → (∀ j, fsnodes_node_find_ext (view t) root f isrc false = Some (Some j) → ratio_current j t) →
  fs_univ_link sclasstab MaxECRedundancyLevel MaxAllowedHardLinks ts root f isrc parent name uid gid t = Some (MFS_STATUS_OK, i, t', e) →
  replayed t t' e.
Proof.
  intros Hf Hcur H. unfold fs_univ_link in H. served_steps Hf H.
  repeat served_step E17. injection E17 as -> <-.
  pose proof (get_stats_current _ _ _ _ _ E4 (Hcur z eq_refl n E4) E2) as ->.
  unfold replayed, FsSystem.replay, fs_mr_link, fs_univ_link. replay_steps.
Qed.

(** ** Moves: the tests *)

Lemma check_refused a b st : check a b = Some (Some st) → a = Some (Some st) ∨ b = Some (Some st).
Proof. unfold check. destruct a as [[?|]|]; cbn [mbind option_bind]; intros; simplify_eq; auto. Qed.
Lemma check_pass a b : a = Some None → b = Some None → check a b = Some None.
Proof. by intros -> ->. Qed.
Lemma refuse_if_pass b st : b = false → refuse_if b st = Some None.
Proof. by intros ->. Qed.
Lemma refuse_if_status b st st' : refuse_if b st = Some (Some st') → st' = st.
Proof. unfold refuse_if. destruct b; congruence. Qed.
Lemma refuse_unless_status b st st' : refuse_unless b st = Some (Some st') → st' = st.
Proof. unfold refuse_unless. destruct b; [|done]. cbn [mbind option_bind]. apply refuse_if_status. Qed.
Lemma dir_test_status f i n wd p1 p2 uid gid t st :
  move_refused_dir f i n wd p1 p2 uid gid t = Some (Some st) → st ≠ MFS_STATUS_OK.
Proof.
  unfold move_refused_dir. destruct (is_dir n); [|done]. destruct (fsnodes_isancestor _ _ _) as [[]|]; cbn [mbind option_bind]; [by intros [= <-]| |done].
  case_match; [|done]. by intros ->%refuse_unless_status.
Qed.

(** A test that refuses does it with an error. *)
Ltac refusals H :=
  repeat (apply check_refused in H; destruct H as [H|H]);
  first [by apply refuse_if_status in H|by apply refuse_unless_status in H|by apply dir_test_status in H].
(** The tests of a move are those of its replay, and the tests of rights. *)
Ltac passes := repeat match goal with
  | H : _ ∧ _ |- _ => destruct H as [? H]
  | H : check _ _ = Some None |- _ => apply check_passed in H
  | H : refuse_if _ _ = Some None |- _ => apply refuse_if_passed in H
  | |- check _ _ = Some None => apply check_pass
  | |- refuse_unless (may SESFLAG_METARESTORE _ _ _ _ _ _) _ = Some None => reflexivity
  | |- refuse_if _ _ = Some None => apply refuse_if_pass; try done
  end.

Lemma swd_test_replay f p1 swd name uid gid t :
  (move_refused_swd f p1 swd name uid gid t ≠ Some (Some MFS_STATUS_OK)) ∧
  (move_refused_swd f p1 swd name uid gid t = Some None → move_refused_swd SESFLAG_METARESTORE p1 swd name 0 [] t = Some None).
Proof.
  unfold move_refused_swd. split; [intros H; refusals H|]. intros H. passes.
Qed.

Lemma dir_test_replay f i n wd p1 p2 uid gid t :
  move_refused_dir f i n wd p1 p2 uid gid t = Some None → move_refused_dir SESFLAG_METARESTORE i n wd p1 p2 0 [] t = Some None.
Proof.
  unfold move_refused_dir. destruct (is_dir n); [|done]. destruct (fsnodes_isancestor _ _ _) as [[]|]; cbn [mbind option_bind]; try done.
  by case_match.
Qed.

Lemma dwd_test_replay f p1 p2 swd dwd c n name uid gid t :
  (move_refused_dwd f p1 p2 swd dwd c n name uid gid t ≠ Some (Some MFS_STATUS_OK)) ∧
  (move_refused_dwd f p1 p2 swd dwd c n name uid gid t = Some None →
   move_refused_dwd SESFLAG_METARESTORE p1 p2 swd dwd c n name 0 [] t = Some None).
Proof.
  unfold move_refused_dwd. split; [intros H; refusals H|]. intros H. passes. by eapply dir_test_replay.
Qed.

Lemma dst_test_replay f p1 p2 dwd d m uid gid rmode delflags t :
  (move_refused_dst f p1 p2 dwd d m uid gid rmode delflags t ≠ Some (Some MFS_STATUS_OK)) ∧
  (move_refused_dst f p1 p2 dwd d m uid gid rmode delflags t = Some None →
   move_refused_dst SESFLAG_METARESTORE p1 p2 dwd d m 0 [] rmode 0 t = Some None).
Proof.
  unfold move_refused_dst. destruct (rmode =? MFS_RENAME_EXCHANGE); (split; [intros H; refusals H|]); intros H; passes. by eapply dir_test_replay.
Qed.

Lemma quota_current rmode p2 p1 c dst t full t' :
  ratio_current c t → (∀ d, dst = Some d → ratio_current d t) → is_Some (t_nodes t !! c) → (∀ d, dst = Some d → is_Some (t_nodes t !! d)) →
  move_quota sclasstab MaxECRedundancyLevel rmode p2 p1 c dst t = Some (full, t') → t' = t.
Proof.
  intros Hc Hd [n Hn] Hm H. unfold move_quota in H. served_step H. destruct p as [ssr t1].
  pose proof (get_stats_current _ _ _ _ _ Hn (Hc n Hn) E) as ->. destruct dst as [d|].
  - served_step H. destruct p as [dsr t2]. destruct (Hm d eq_refl) as [m Hmd].
    pose proof (get_stats_current _ _ _ _ _ Hmd (Hd d eq_refl m Hmd) E0) as ->.
    served_step H. destruct b; [congruence|]. destruct (rmode =? MFS_RENAME_EXCHANGE); [served_step H; congruence|congruence].
  - served_step H. congruence.
Qed.

Lemma move_edges_pattern ts rmode se de p1 p2 c name1 name2 uid gid t :
  patterns_find_matching patterntab uid gid name2 = patterns_find_matching patterntab 0 [] name2 →
  move_edges sclasstab MaxECRedundancyLevel of_isfileopen KeepEmptyFilesInTrash patterntab ts rmode se de p1 p2 c name1 name2 uid gid t =
  move_edges sclasstab MaxECRedundancyLevel of_isfileopen KeepEmptyFilesInTrash patterntab ts rmode se de p1 p2 c name1 name2 0 [] t.
Proof. intros Hpt. unfold move_edges, move_pattern. by rewrite Hpt. Qed.

(** The test of the node that has the new name, in the replay. *)
Lemma dst_found_replay f p1 p2 dwd de uid gid rmode delflags t st d :
  match de with
  | Some de =>
      ded ← t_edges t !! de;
      dst ← t_nodes t !! e_child ded;
      status ← move_refused_dst f p1 p2 dwd (e_child ded) dst uid gid rmode delflags t;
      Some (status, Some (e_child ded))
  | None => Some (if rmode =? MFS_RENAME_EXCHANGE then Some MFS_ERROR_ENOENT else None, None)
  end = Some (st, d) →
  st ≠ Some MFS_STATUS_OK ∧
  (st = None →
   match de with
   | Some de =>
       ded ← t_edges t !! de;
       dst ← t_nodes t !! e_child ded;
       status ← move_refused_dst SESFLAG_METARESTORE p1 p2 dwd (e_child ded) dst 0 [] rmode 0 t;
       Some (status, Some (e_child ded))
   | None => Some (if rmode =? MFS_RENAME_EXCHANGE then Some MFS_ERROR_ENOENT else None, None)
   end = Some (None, d) ∧
   ∀ i, d = Some i → ∃ e ed, de = Some e ∧ t_edges t !! e = Some ed ∧ e_child ed = i ∧ is_Some (t_nodes t !! i)).
Proof.
  intros H. destruct de as [de|].
  - repeat served_step H. injection H as -> <-. pose proof (dst_test_replay f p1 p2 dwd (e_child f0) n uid gid rmode delflags t) as [Hne Hpass].
    split; [congruence|]. intros ->. cbn [mbind option_bind]. rewrite E0. cbn [mbind option_bind]. rewrite (Hpass E1).
    cbn [mbind option_bind]. split; [done|]. intros i [= <-]. exists de, f0. by split_and!.
  - injection H as <- <-. split; [by case_match|]. intros ->. done.
Qed.

Lemma names_lookup p name wd e ed t :
  t_nodes t !! p = Some wd → fsnodes_lookup p name t = Some (Some e) → t_edges t !! e = Some ed → names t !! (p, name) = Some (e_child ed).
Proof.
  intros Hq Hl Hed. unfold fsnodes_lookup in Hl. rewrite Hq in Hl. cbn [mbind option_bind] in Hl. case_match; [done|].
  injection Hl as Hl. unfold names. rewrite names_of_lookup. unfold fsnodes_edge_find in Hl. rewrite Hl. cbn [mbind option_bind]. by rewrite Hed.
Qed.

Lemma move_replay ts root f par1 name1 par2 name2 uid gid rmode delflags t i t' e :
  replays f = false → patterns_find_matching patterntab uid gid name2 = patterns_find_matching patterntab 0 [] name2 →
  (∀ p1 j, fsnodes_node_find_ext (view t) root f par1 false = Some (Some p1) → names t !! (p1, name1) = Some j → ratio_current j t) →
  (∀ p2 j, fsnodes_node_find_ext (view t) root f par2 false = Some (Some p2) → names t !! (p2, name2) = Some j → ratio_current j t) →
  fs_univ_move sclasstab MaxECRedundancyLevel of_isfileopen KeepEmptyFilesInTrash patterntab ts root f par1 name1 par2 name2 uid gid rmode delflags t =
    Some (MFS_STATUS_OK, i, t', e) →
  replayed t t' e.
Proof.
  intros Hf Hpt Hcur1 Hcur2 H. unfold fs_univ_move in H. served_steps Hf H.
  1: by subst; eapply (proj1 (swd_test_replay _ _ _ _ _ _ _)).
  1: by subst; eapply (proj1 (dwd_test_replay _ _ _ _ _ _ _ _ _ _ _)).
  1: by subst; apply dst_found_replay in E13 as [? _].
  apply dst_found_replay in E13 as [_ Hdst]. destruct (Hdst eq_refl) as [Hdst' Hsome].
  apply quota_current in E14 as ->; [| | |by eexists|]; [|by eapply Hcur1, names_lookup..| |].
  2: { intros d Hd. destruct (Hsome d Hd) as (e & ed & -> & He & <- & _). by eapply Hcur2, names_lookup. }
  2: { intros d Hd. by destruct (Hsome d Hd) as (e & ed & _ & _ & _ & ?). }
  rewrite (move_edges_pattern _ _ _ _ _ _ _ _ _ _ _ _ Hpt) in E16. apply swd_test_replay in E6. apply dwd_test_replay in E11.
  unfold replayed, FsSystem.replay, fs_mr_move, fs_univ_move. replay_steps.
Qed.

(** ** Any request *)

(** What the replay needs beyond the entry: the patterns say the same without the
    groups (and, in a move, without the owner) the entry does not have, and the files
    that get or lose links have the ratio of their class. *)
Definition agrees (r : request) (t : tree) : Prop :=
  let found root f i j := fsnodes_node_find_ext (view t) root f i false = Some (Some j) in
  match r with
  | Mknod _ _ _ _ name _ _ _ uid gid _ => ∀ g, patterns_find_matching patterntab uid [g] name = patterns_find_matching patterntab uid gid name
  | Mkdir _ _ _ _ name _ _ uid gid copysgid =>
      copysgid = false ∧ ∀ g, patterns_find_matching patterntab uid [g] name = patterns_find_matching patterntab uid gid name
  | Rename _ root f p1 name1 p2 name2 uid gid _ _ =>
      patterns_find_matching patterntab uid gid name2 = patterns_find_matching patterntab 0 [] name2 ∧
      (∀ q j, found root f p1 q → names t !! (q, name1) = Some j → ratio_current j t) ∧
      (∀ q j, found root f p2 q → names t !! (q, name2) = Some j → ratio_current j t)
  | Link _ root f i _ _ _ _ => ∀ j, found root f i j → ratio_current j t
  | _ => True
  end.

Abbreviation serve := (serve sclasstab MaxECRedundancyLevel of_isfileopen KeepEmptyFilesInTrash patterntab MaxAllowedHardLinks).

Lemma setlength_replay ts root f i flags len ar t st prev t' ar' e :
  tree_inv [] t → request_ok sclasstab MaxECRedundancyLevel (SetLength ts root f i flags len) t →
  fs_do_setlength sclasstab MaxECRedundancyLevel ts root f i flags len ar t = Some (st, prev, t', ar', e) → replayed t t' e.
Proof.
  intros Hinv [_ Hok] H.
  destruct (do_setlength_cases sclasstab MaxECRedundancyLevel ts root f i flags len ar t Hinv Hok)
    as [[_ Heq]|(j & n & oldlen & _ & Hn & Hfile & _ & [[_ Heq]|[(_ & _ & _ & Heq)|(_ & _ & ch & t1 & _ & Hset & _ & _ & Heq)]])];
    rewrite Heq in H; injection H as <- <- <- <- <-; [done..|].
  unfold replayed, FsSystem.replay, fs_mr_length. rewrite Hn, Hfile. cbn [negb]. by rewrite Hset.
Qed.
(** A refusal changes nothing, when it does not bring the sizes up to date. *)
Definition refused (a : option answer) (t : tree) : Prop := ∀ st i t' e, a = Some (st, i, t', e) → st ≠ MFS_STATUS_OK → t' = t ∧ e = None.

Ltac refused_steps H Hst :=
  repeat match type of H with
  | (if ?b then _ else _) = _ => destruct b eqn:?
  | mbind _ ?a = _ => destruct a eqn:?; [|discriminate H]; cbn [mbind option_bind] in H
  | (let (_, _) := ?a in _) = _ => destruct a
  | match ?a with Some _ => _ | None => _ end = _ => destruct a eqn:?
  end;
  try first [by unfold refuse in H; injection H as _ _ <- <-|by injection H as <- _ _ _; destruct Hst].

Lemma symlink_refused ts root f parent name path uid gid t :
  refused (fs_univ_symlink sclasstab MaxECRedundancyLevel ts root f parent name path uid gid t) t.
Proof. intros st i t' e H Hst. unfold fs_univ_symlink in H. cbv zeta in H. refused_steps H Hst. Qed.
Lemma create_refused ts root f parent name ty mode cumask uid gid rdev copysgid t :
  refused (fs_univ_create sclasstab MaxECRedundancyLevel patterntab ts root f parent name ty mode cumask uid gid rdev copysgid t) t.
Proof. intros st i t' e H Hst. unfold fs_univ_create in H. cbv zeta in H. refused_steps H Hst. Qed.
Lemma unlink_refused_same ts root f parent name uid gid dirmode t :
  refused (fs_univ_unlink sclasstab MaxECRedundancyLevel of_isfileopen KeepEmptyFilesInTrash ts root f parent name uid gid dirmode t) t.
Proof. intros st i t' e H Hst. unfold fs_univ_unlink in H. cbv zeta in H. refused_steps H Hst. Qed.
Lemma trash_remove_refused ts f i uid t : refused (fs_univ_trash_remove sclasstab MaxECRedundancyLevel of_isfileopen ts f i uid t) t.
Proof. intros st j t' e H Hst. unfold fs_univ_trash_remove in H. cbv zeta in H. refused_steps H Hst. Qed.
Lemma purge_refused ts root f i t : refused (fs_univ_purge sclasstab MaxECRedundancyLevel of_isfileopen ts root f i t) t.
Proof. intros st j t' e H Hst. unfold fs_univ_purge in H. cbv zeta in H. refused_steps H Hst. Qed.
Lemma setpath_refused ts root f i path t : refused (fs_univ_setpath sclasstab MaxECRedundancyLevel ts root f i path t) t.
Proof. intros st j t' e H Hst. unfold fs_univ_setpath in H. cbv zeta in H. refused_steps H Hst. Qed.
Lemma link_refused ts root f isrc parent name uid gid t :
  replays f = false → (∀ j, fsnodes_node_find_ext (view t) root f isrc false = Some (Some j) → ratio_current j t) →
  refused (fs_univ_link sclasstab MaxECRedundancyLevel MaxAllowedHardLinks ts root f isrc parent name uid gid t) t.
Proof.
  intros Hf Hcur st i t' e H Hst. unfold fs_univ_link in H. rewrite Hf in H. cbn [negb andb] in H. cbv zeta in H. refused_steps H Hst.
  repeat served_step Heqo7. injection Heqo7 as -> <-.
  pose proof (get_stats_current _ _ _ _ _ Heqo3 (Hcur z eq_refl n Heqo3) E) as ->. unfold refuse in H. by injection H as _ _ <- <-.
Qed.

Lemma move_refused ts root f par1 name1 par2 name2 uid gid rmode delflags t :
  replays f = false →
  (∀ p1 j, fsnodes_node_find_ext (view t) root f par1 false = Some (Some p1) → names t !! (p1, name1) = Some j → ratio_current j t) →
  (∀ p2 j, fsnodes_node_find_ext (view t) root f par2 false = Some (Some p2) → names t !! (p2, name2) = Some j → ratio_current j t) →
  refused (fs_univ_move sclasstab MaxECRedundancyLevel of_isfileopen KeepEmptyFilesInTrash patterntab ts root f par1 name1 par2 name2 uid gid rmode delflags t) t.
Proof.
  intros Hf Hcur1 Hcur2 st i t' e H Hst. unfold fs_univ_move in H. rewrite Hf in H. cbn [negb andb] in H. cbv zeta in H. 
  refused_steps H Hst.
  apply dst_found_replay in Heqo14 as [_ Hdst]. destruct (Hdst eq_refl) as [_ Hsome].
  apply quota_current in Heqo16 as ->; [by unfold refuse in H; injection H as _ _ <- <-|by eapply Hcur1, names_lookup..| |by eexists|].
  - intros d Hd. destruct (Hsome d Hd) as (e' & ed & -> & He & <- & _). by eapply Hcur2, names_lookup.
  - intros d Hd. by destruct (Hsome d Hd) as (e' & ed & _ & _ & _ & ?).
Qed.

(** What a client's request answers and logs, replayed. *)
Lemma keep_inv (a : option answer) (s : state) st i (s' : state) e :
  ('(st, i, t, e) ← a; Some (st, i, (t, s.2), e)) = Some (st, i, s', e) → a = Some (st, i, s'.1, e).
Proof. destruct a as [[[[st0 i0] t0] e0]|]; cbn [mbind option_bind]; [|done]. by intros [= -> -> <- ->]. Qed.

Lemma by_status (a : option answer) t st i t' e :
  a = Some (st, i, t', e) → (∀ i t' e, a = Some (MFS_STATUS_OK, i, t', e) → replayed t t' e) → refused a t → replayed t t' e.
Proof.
  intros Ha Hok Hno. destruct (decide (st = MFS_STATUS_OK)) as [->|Hst]; [by eapply Hok|]. by destruct (Hno st i t' e Ha Hst) as [-> ->].
Qed.

Lemma serve_replay r s st i s' e :
  tree_inv [] s.1 → request_ok sclasstab MaxECRedundancyLevel r s.1 → agrees r s.1 → serve r s = Some (st, i, s', e) → replayed s.1 s'.1 e.
Proof.
  intros Hinv Hok Hagree H. pose proof Hok as [Hf Hreq].
  destruct r; cbn [sesflags_of agrees] in *; unfold FsSystem.serve in H; try apply keep_inv in H;
    unfold fs_mknod, fs_mkdir, fs_unlink, fs_rmdir, fs_rename, fs_link, fs_trash_remove, fs_purge, fs_settrashpath in H; cbv zeta in H.
  - eapply by_status; [exact H| |apply symlink_refused]. intros ? ? ? ?. eapply symlink_replay; [exact Hf|eassumption].
  - destruct Hreq as [Hroom _]. eapply by_status; [exact H| |apply create_refused]. intros ? ? ? ?. eapply create_replay; [exact Hinv|exact Hroom|exact Hf|exact Hagree|eassumption].
  - destruct Hreq as [Hroom _]. destruct Hagree as [-> Hpt]. eapply by_status; [exact H| |apply create_refused]. intros ? ? ? ?. eapply create_replay; [exact Hinv|exact Hroom|exact Hf|exact Hpt|eassumption].
  - eapply by_status; [exact H| |apply unlink_refused_same]. intros ? ? ? ?. eapply unlink_replay; [exact Hf|eassumption].
  - eapply by_status; [exact H| |apply unlink_refused_same]. intros ? ? ? ?. eapply unlink_replay; [exact Hf|eassumption].
  - destruct Hagree as (Hpt & H1 & H2). eapply by_status; [exact H| |apply move_refused; [exact Hf|exact H1|exact H2]]. intros ? ? ? ?. eapply move_replay; [exact Hf|exact Hpt|exact H1|exact H2|eassumption].
  - eapply by_status; [exact H| |apply link_refused; [exact Hf|exact Hagree]]. intros ? ? ? ?. eapply link_replay; [exact Hf|exact Hagree|eassumption].
  - eapply by_status; [exact H| |apply trash_remove_refused]. intros ? ? ? ?. eapply trash_remove_replay; [exact Hf|eassumption].
  - eapply by_status; [exact H| |apply purge_refused]. intros ? ? ? ?. eapply purge_replay; [exact Hf|eassumption].
  - eapply by_status; [exact H| |apply setpath_refused]. intros ? ? ? ?. eapply setpath_replay; [exact Hf|eassumption].
  - destruct (fs_do_setlength _ _ _ _ _ _ _ _ _ _) as [[[[[st0 prev] t0] ar] e0]|] eqn:Hset; [|done]. cbn [mbind option_bind] in H.
    injection H as <- <- <- <-. by eapply setlength_replay.
Qed.

End with_classes.

(** ** A run and its changelog

    A step is a request and the set of files open when it is served; the follower knows
    that set from the entries of the open files. *)

Section runs.
Variable sclasstab : Z → storageclass.
Variable MaxECRedundancyLevel : Z.
Variable KeepEmptyFilesInTrash : bool.
Variable patterntab : list pattern.
Variable MaxAllowedHardLinks : Z.
Abbreviation serve o := (serve sclasstab MaxECRedundancyLevel o KeepEmptyFilesInTrash patterntab MaxAllowedHardLinks).
Abbreviation replay o := (replay sclasstab MaxECRedundancyLevel o KeepEmptyFilesInTrash patterntab MaxAllowedHardLinks).

Definition step : Type := (Z → bool) * request.
Definition log : Type := list ((Z → bool) * tree_entry).

Fixpoint run (steps : list step) (s : state) : option (state * log) :=
  match steps with
  | [] => Some (s, [])
  | (o, r) :: steps =>
      '(_, _, s, e) ← serve o r s;
      '(s, es) ← run steps s;
      Some (s, match e with Some e => (o, e) :: es | None => es end)
  end.

Fixpoint replay_log (es : log) (t : tree) : option tree :=
  match es with
  | [] => Some t
  | (o, e) :: es => '(st, _, t, _) ← replay o e t; if st =? MFS_STATUS_OK then replay_log es t else None
  end.

Fixpoint run_ok (steps : list step) (s : state) : Prop :=
  match steps with
  | [] => True
  | (o, r) :: steps =>
      request_ok sclasstab MaxECRedundancyLevel r s.1 ∧ agrees sclasstab MaxECRedundancyLevel patterntab r s.1 ∧
      match serve o r s with Some (_, _, s, _) => run_ok steps s | None => True end
  end.

Lemma run_replayed steps s :
  tree_inv [] s.1 → run_ok steps s → ∃ s' es, run steps s = Some (s', es) ∧ replay_log es s.1 = Some s'.1.
Proof.
  revert s. induction steps as [|[o r] steps IH]; intros s Hinv Hok; [by exists s, []|]. destruct Hok as (Hreq & Hagree & Hrest).
  destruct (serve_done sclasstab MaxECRedundancyLevel o KeepEmptyFilesInTrash patterntab MaxAllowedHardLinks r s Hinv Hreq)
    as (st & i & s1 & e & Hserve & Hinv1 & _). rewrite Hserve in Hrest.
  destruct (IH s1 Hinv1 Hrest) as (s' & es & Hrun & Hlog).
  pose proof (serve_replay _ _ _ _ _ _ r s st i s1 e Hinv Hreq Hagree Hserve) as Hrep.
  cbn [run]. rewrite Hserve. cbn [mbind option_bind]. rewrite Hrun. cbn [mbind option_bind]. destruct e as [e|]; simpl in Hrep.
  - exists s', ((o, e) :: es). split; [done|]. cbn [replay_log]. by rewrite Hrep.
  - exists s', es. split; [done|]. by rewrite <- Hrep.
Qed.

End runs.
