(* ===== verification/FsProps.v ===== *)
(** * Theorems of the tree of files

    The claims about the file system as a whole, over all states that requests lead to,
    each with a run of requests on which its hypotheses hold. *)

From S2P Require Import Prelude HashChain MfsComm FreeInodes AppendRes StorageClass DataPack FsNodes PosixAcl FsAccess AclFacts FsTree FsOps FsStats FsTreeInv FsTreeEdges FsTreeLink FsTreeNodes FsTreeOps FsWalks FsTreeUnlink FsTreeFiles FsRequests FsNames FsMoves FsPaths FsStart FsSystem FsReplay.

(** ** A run of requests *)

Definition ex_class (_ : Z) : storageclass := mk_storageclass (mk_storagemode 0 2) (mk_storagemode 0 0) 0 0 0.
Definition ex_open (_ : Z) : bool := false.
Abbreviation ex_reachable := (reachable ex_class 3 false [] 32000).
Abbreviation ex_serve := (serve ex_class 3 ex_open false [] 32000).
Abbreviation ex_ok := (request_ok ex_class 3).

Definition name_a : list Z := [97].
Definition name_f : list Z := [102].
Definition name_g : list Z := [103].

Definition ex_next (r : request) (s : state) : state := match ex_serve r s with Some (_, _, s', _) => s' | None => s end.

Definition ex0 : state := (start 1000, appendres_init).
Definition ex_mkdir : request := Mkdir 1001 1 0 1 name_a 0x1FF 0 0 [0] false.
Definition ex1 : state := ex_next ex_mkdir ex0.
Definition ex_mknod : request := Mknod 1002 1 0 2 name_f TYPE_FILE 0x1B6 0 5 [7] 0.
Definition ex2 : state := ex_next ex_mknod ex1.
Definition ex_link : request := Link 1003 1 0 3 1 name_g 0 [0].
Definition ex3 : state := ex_next ex_link ex2.
Definition ex_length : request := SetLength 1004 1 0 3 0 100000.
Definition ex4 : state := ex_next ex_length ex3.
Definition ex_rename : request := Rename 1005 1 0 2 name_f 1 name_f 0 [0] 0 0.
Definition ex5 : state := ex_next ex_rename ex4.
Definition ex_unlink : request := Unlink 1006 1 0 1 name_g 0 [0].
Definition ex6 : state := ex_next ex_unlink ex5.
Definition ex_unlink2 : request := Unlink 1007 1 0 1 name_f 0 [0].
Definition ex7 : state := ex_next ex_unlink2 ex6.

Lemma ex_step r s : ex_reachable s → ex_ok r s.1 → is_Some (ex_serve r s) → ex_reachable (ex_next r s).
Proof.
  intros Hs Hok [[[[st i] s'] e] Hserve]. unfold ex_next. rewrite Hserve. by eapply reach_serve.
Qed.

(** A free number. *)
Ltac free_number := exists 200; split; [lia|]; intros (w & Hw & Hb); vm_compute in Hw; injection Hw as <-; by vm_compute in Hb.

Lemma ex0_reachable : ex_reachable ex0.
Proof. apply (reach_new _ _ _ _ _ 1000). apply fs_new_start. Qed.
Lemma ex_mkdir_ok : ex_ok ex_mkdir ex0.1.
Proof. split; [done|]. split; [free_number|done]. Qed.
Lemma ex1_reachable : ex_reachable ex1.
Proof. apply ex_step; [apply ex0_reachable|apply ex_mkdir_ok|by vm_compute; eexists]. Qed.
Lemma ex_mknod_ok : ex_ok ex_mknod ex1.1.
Proof. split; [done|]. split; [free_number|done]. Qed.
Lemma ex2_reachable : ex_reachable ex2.
Proof. apply ex_step; [apply ex1_reachable|apply ex_mknod_ok|by vm_compute; eexists]. Qed.
Lemma ex_link_ok : ex_ok ex_link ex2.1.
Proof. split; done. Qed.
Lemma ex3_reachable : ex_reachable ex3.
Proof. apply ex_step; [apply ex2_reachable|apply ex_link_ok|by vm_compute; eexists]. Qed.
Lemma ex_length_ok : ex_ok ex_length ex3.1.
Proof. split; [done|]. intros j Hj. vm_compute in Hj. injection Hj as <-. by vm_compute; eexists. Qed.
Lemma ex4_reachable : ex_reachable ex4.
Proof. apply ex_step; [apply ex3_reachable|apply ex_length_ok|by vm_compute; eexists]. Qed.
Lemma ex_rename_ok : ex_ok ex_rename ex4.1.
Proof.
  split; [done|]. intros q1 q2 H1 H2. vm_compute in H1, H2. injection H1 as <-. injection H2 as <-. unfold move_ok.
  split; [by intros [= H]|]. split; [|by intros [= H]].
  intros c Hc. vm_compute in Hc. injection Hc as <-. split; [done|]. intros n Hn. vm_compute in Hn. injection Hn as <-. right. by intros [].
Qed.
Lemma ex5_reachable : ex_reachable ex5.
Proof. apply ex_step; [apply ex4_reachable|apply ex_rename_ok|by vm_compute; eexists]. Qed.
Lemma ex6_reachable : ex_reachable ex6.
Proof. apply ex_step; [apply ex5_reachable|by split|by vm_compute; eexists]. Qed.
Lemma ex7_reachable : ex_reachable ex7.
Proof. apply ex_step; [apply ex6_reachable|by split|by vm_compute; eexists]. Qed.

(** ** The theorems *)

Section claims.
Variable sclasstab : Z → storageclass.
Variable MaxECRedundancyLevel : Z.
Variable KeepEmptyFilesInTrash : bool.
Variable patterntab : list pattern.
Variable MaxAllowedHardLinks : Z.
Abbreviation reachable := (reachable sclasstab MaxECRedundancyLevel KeepEmptyFilesInTrash patterntab MaxAllowedHardLinks).
Abbreviation serve o := (serve sclasstab MaxECRedundancyLevel o KeepEmptyFilesInTrash patterntab MaxAllowedHardLinks).
Abbreviation request_ok := (request_ok sclasstab MaxECRedundancyLevel).



(** C2: what a client sees of the tree is a map from the inode of a directory
    and a name to an inode, and every request does to it what its name says: a refused
    request leaves it, symlink, mknod and mkdir add a name for a new number, unlink and
    rmdir take one away, link adds one for an old number, rename moves, replaces or
    exchanges, and what happens in the trash or to the length of a file leaves it. *)
Theorem request_refines_names o r s st i s' e :
  reachable s → request_ok r s.1 → serve o r s = Some (st, i, s', e) →
  if st =? MFS_STATUS_OK then spec r i s.1 (names s.1) (names s'.1) else names s'.1 = names s.1 ∧ e = None.
Proof.
  intros Hs Hok Hserve. destruct (serve_done sclasstab MaxECRedundancyLevel o KeepEmptyFilesInTrash patterntab MaxAllowedHardLinks r s
    (tree_reachable_inv _ _ _ _ _ s Hs) Hok) as (st' & i' & s'' & e' & Hserve' & _ & Hspec).
  rewrite Hserve in Hserve'. injection Hserve' as <- <- <- <-. exact Hspec.
Qed.

(** C35: the member of the union [data] of a node is the one for its type, every
    name leads from a directory to a node that exists, and a directory has one name. *)
Theorem nodes_well_typed s :
  reachable s →
  (∀ i n, t_nodes s.1 !! i = Some n → shape_ok n) ∧
  (∀ p name i, names s.1 !! (p, name) = Some i →
     (∃ d cs nl el st q, t_nodes s.1 !! p = Some d ∧ n_type d = TYPE_DIRECTORY ∧ n_data d = ddata cs nl el st q) ∧ is_Some (t_nodes s.1 !! i)) ∧
  (∀ p name p' name' i n, names s.1 !! (p, name) = Some i → names s.1 !! (p', name') = Some i → t_nodes s.1 !! i = Some n →
     n_type n = TYPE_DIRECTORY → p = p' ∧ name = name').
Proof.
  intros Hs%tree_reachable_inv. pose proof (ti_struct _ _ Hs) as Hst. pose proof (ti_coherent _ _ Hst) as Hco.
  split; [apply (co_shape _ Hco)|]. split.
  - intros p name i (e & ed & He & Hp & _ & Hc)%(names_spec [] _ _ _ _ Hst). split.
    + destruct (co_parent _ Hco e ed p He Hp) as (d & Hd & Ht & _).
      destruct (dir_data d (co_shape _ Hco p d Hd) Ht) as (cs & nl & el & st & q & Hdat). by exists d, cs, nl, el, st, q.
    + rewrite <- Hc. destruct (co_child _ Hco e ed He) as (n & -> & _). by eexists.
  - intros p name p' name' i n (e & ed & He & Hp & Hn & Hc)%(names_spec [] _ _ _ _ Hst) (e' & ed' & He' & Hp' & Hn' & Hc')%(names_spec [] _ _ _ _ Hst) Hi Ht.
    pose proof (tree_one _ (fs_tree _ (ti_fs _ _ Hst)) i (node_view s.1 n) (view_lookup _ _ _ Hi) Ht) as Hone.
    destruct (co_child _ Hco e ed He) as (n1 & Hn1 & Hin). destruct (co_child _ Hco e' ed' He') as (n2 & Hn2 & Hin').
    rewrite Hc in Hn1. rewrite Hc' in Hn2. assert (n1 = n) as -> by congruence. assert (n2 = n) as -> by congruence.
    unfold node_view in Hone. simpl in Hone. rewrite length_fmap in Hone.
    assert (e = e') as <-. { destruct (n_parents n) as [|x [|y l]]; simpl in Hone; [by apply elem_of_nil in Hin| |lia].
      apply list_elem_of_singleton in Hin, Hin'. congruence. }
    split; congruence.
Qed.


(** C9: an unlinked file keeps its other links if it has any; else it goes to
    the trash if it has a trash time and is not empty (or empty files are kept), else it
    is sustained if it is open, else it and its number are gone; nothing else goes. *)
Theorem unlink_fate o ts root f parent name uid gid s i s' e :
  reachable s → serve o (Unlink ts root f parent name uid gid) s = Some (MFS_STATUS_OK, i, s', e) →
  (∃ edge ed cn, t_edges s.1 !! edge = Some ed ∧ e_child ed = i ∧ e_name ed = name ∧ t_nodes s.1 !! i = Some cn ∧
     fate o KeepEmptyFilesInTrash edge i cn (t_nodes s'.1 !! i)) ∧
  ∀ j, j ≠ i → is_Some (t_nodes s'.1 !! j) ↔ is_Some (t_nodes s.1 !! j).
Proof.
  intros Hs%tree_reachable_inv H%keep_inv. unfold fs_unlink in H.
  destruct (univ_unlink_served sclasstab MaxECRedundancyLevel o KeepEmptyFilesInTrash ts root f parent name uid gid false s.1 Hs)
    as [(st & t' & Hst & Heq & _)|(i' & t' & e' & Heq & _ & p & _ & Hrm & _)].
  - rewrite Heq in H. unfold refuse in H. congruence.
  - rewrite Heq in H. injection H as -> Ht <-. destruct Hrm as (edge & ed & cn & Hk & He & Hc & Hcn & Hp & Hnm & Hbut & Hoth & Hfate).
    rewrite <- Ht. split; [|done]. exists edge, ed, cn. split_and!; try done.
    by apply (co_names _ (ti_coherent _ _ (ti_struct _ _ Hs))) in Hk as (ed' & He' & _ & <-); simplify_eq.
Qed.


(** The path set for a file in the trash is the path read back. *)
Theorem trash_path_roundtrip o ts f i path s j s' e :
  reachable s → serve o (SetTrashPath ts 0 f i path) s = Some (MFS_STATUS_OK, j, s', e) →
  fs_gettrashpath 0 i s'.1 = Some (MFS_STATUS_OK, path).
Proof.
  intros Hs%tree_reachable_inv H%keep_inv. unfold fs_settrashpath in H.
  destruct (univ_setpath_served sclasstab MaxECRedundancyLevel o ts 0 f i path s.1 Hs)
    as [(st & t' & Hst & Heq & _)|(i' & t' & e' & Heq & _ & (_ & _ & _ & Hpath) & _)]; rewrite Heq in H; unfold refuse in H; [congruence|].
  by injection H as _ <- _.
Qed.

(** C26: [fs_do_setlength] with a reservation (an append) answers the end of the
    file, or of the space reserved beyond it, reserves from there and leaves the tree;
    an update never shortens a file; else the file has the new length and the chunks
    that hold it, the reservation is gone, and the entry is logged. *)
Theorem setlength_effect o ts root f i flags len s prev s' e :
  reachable s → request_ok (SetLength ts root f i flags len) s.1 →
  serve o (SetLength ts root f i flags len) s = Some (MFS_STATUS_OK, prev, s', e) →
  ∃ j n oldlen, fsnodes_node_find_ext (view s.1) root f i (flag flags TRUNCATE_FLAG_OPENED) = Some (Some j) ∧
    t_nodes s.1 !! j = Some n ∧ file_length n = Some oldlen ∧
    if flag flags TRUNCATE_FLAG_RESERVE then
      prev = Z.max oldlen (appendres_getvleng j s.2) ∧ s' = (s.1, appendres_setvleng j (u64 (len + prev)) s.2) ∧ e = None
    else
      prev = oldlen ∧ s'.2 = appendres_clear j s.2 ∧
      if flag flags TRUNCATE_FLAG_UPDATE && (len <=? oldlen) then s'.1 = s.1 ∧ e = None
      else sets_length j len s.1 s'.1 ∧
        e = Some (LENGTH ts j len (negb (flag flags TRUNCATE_FLAG_UPDATE || ((len =? oldlen) && flag flags TRUNCATE_FLAG_TIMEFIX)))).
Proof.
  intros Hs%tree_reachable_inv [_ Hok] H. unfold FsSystem.serve in H.
  destruct (do_setlength_cases sclasstab MaxECRedundancyLevel ts root f i flags len s.2 s.1 Hs Hok) as [[_ Heq]|(j & n & oldlen & Hj & Hn & _ & Hlen & Hcases)].
  { rewrite Heq in H. cbn [mbind option_bind] in H. discriminate H. }
  exists j, n, oldlen. split; [done|]. split; [done|]. split; [done|].
  destruct Hcases as [[Hr Heq]|[(Hr & Hu & Hle & Heq)|(Hr & Hu & ch & t' & Hch & _ & _ & Hset & Heq)]]; rewrite Heq in H;
    cbn [mbind option_bind] in H; injection H as <- <- <-; rewrite Hr; [done| |]; split; try done; split; try done.
  - rewrite Hu, (proj2 (Z.leb_le _ _) Hle). done.
  - destruct (flag flags TRUNCATE_FLAG_UPDATE) eqn:Hup; [rewrite (proj2 (Z.leb_gt _ _) (Hu eq_refl))|]; by rewrite Hch.
Qed.

(** A file whose only name is unlinked and that goes to the trash is found
    there under its path: the names of the directories that led to it, each with a
    slash, and its own; unless the path is longer than the trash can hold. *)
Theorem trash_keeps_path o ts root f parent name uid gid s i s' e edge ed cn :
  reachable s → replays f = false → serve o (Unlink ts root f parent name uid gid) s = Some (MFS_STATUS_OK, i, s', e) →
  t_nodes s.1 !! i = Some cn → n_parents cn = [edge] → t_edges s.1 !! edge = Some ed → gototrash o KeepEmptyFilesInTrash i cn = Some true →
  ∃ dirs p, resolve (names s.1) MFS_ROOT_ID dirs = Some p ∧ names s.1 !! (p, name) = Some i ∧
    (Z.of_nat (length (slashed dirs ++ name)) ≤ MFS_PATH_MAX → fs_gettrashpath 0 i s'.1 = Some (MFS_STATUS_OK, slashed dirs ++ name)).
Proof.
  intros Hs%tree_reachable_inv Hf H%keep_inv Hcn Hpar Hed Htr. pose proof (ti_coherent _ _ (ti_struct _ _ Hs)) as Hco.
  unfold fs_unlink, fs_univ_unlink in H. rewrite Hf in H. cbn [negb andb] in H. cbv zeta in H.
  repeat served_step H; [by eapply unlink_refused_ok|]. injection H as <- <- <-. subst.
  rename p into x, z into p, f0 into xd, E10 into Hxd.
  unfold fsnodes_lookup in E8. rewrite E2 in E8. cbn [mbind option_bind] in E8. case_if_in E8; [done|]. injection E8 as Hx. unfold fsnodes_edge_find in Hx.
  pose proof (proj1 (co_names _ Hco p name x) Hx) as (xd' & Hxd' & Hxp & Hxn). assert (xd' = xd) as -> by congruence.
  destruct (co_child _ Hco x xd Hxd) as (cn' & Hcn' & Hin). assert (cn' = cn) as -> by congruence.
  rewrite Hpar in Hin. apply list_elem_of_singleton in Hin as ->.
  destruct (getpath_spec s.1 edge xd p Hs Hxd Hxp) as (dirs & path & Hres & Hpath & Hfits). exists dirs, p.
  split; [done|]. split; [unfold names; rewrite names_of_lookup, Hx; cbn [mbind option_bind]; by rewrite Hxd|].
  rewrite <- Hxn. intros Hle. rewrite <- (Hfits Hle).
  by apply (unlink_trash_path sclasstab MaxECRedundancyLevel o KeepEmptyFilesInTrash ts edge xd cn path s.1 t).
Qed.

(** The test of the quotas refuses an addition to a directory exactly when it
    would pass a limit of that directory or of one above it; it never runs forever. *)
Theorem quota_test_exact s p inodes length size realsize :
  reachable s → is_Some (t_nodes s.1 !! p) →
  ∃ full, fsnodes_test_quota p inodes length size realsize s.1 = Some full ∧
    (full = true ↔ ∃ q n, (q = p ∨ ancestor (view s.1) p q) ∧ t_nodes s.1 !! q = Some n ∧
       fsnodes_test_quota_noparents n inodes length size realsize = true).
Proof. intros Hs%tree_reachable_inv. by eapply test_quota_spec, Hs. Qed.

End claims.

(** ** The run on which they hold *)



Definition ex_answer (r : request) (s : state) : Z * Z * option tree_entry :=
  match ex_serve r s with Some (st, i, _, e) => (st, i, e) | None => (0, 0, None) end.

Lemma ex_served r s st i e : is_Some (ex_serve r s) → ex_answer r s = (st, i, e) → ex_serve r s = Some (st, i, ex_next r s, e).
Proof. unfold ex_answer, ex_next. intros [[[[st' i'] s'] e'] ->]. congruence. Qed.

Lemma ex_mknod_served : ex_serve ex_mknod ex1 = Some (MFS_STATUS_OK, 3, ex2, Some (CREATE 1002 2 name_f TYPE_FILE 0x1B6 0 5 7 0 3)).
Proof. apply ex_served; [by vm_compute; eexists|by vm_compute]. Qed.
Lemma ex_length_served : ex_serve ex_length ex3 = Some (MFS_STATUS_OK, 0, ex4, Some (LENGTH 1004 3 100000 true)).
Proof. apply ex_served; [by vm_compute; eexists|by vm_compute]. Qed.
Lemma ex_unlink2_served : ex_serve ex_unlink2 ex6 = Some (MFS_STATUS_OK, 3, ex7, Some (UNLINK 1007 1 name_f 3)).
Proof. apply ex_served; [by vm_compute; eexists|by vm_compute]. Qed.

Lemma request_refines_names_witness :
  spec ex_mknod 3 ex1.1 (names ex1.1) (names ex2.1) ∧ names ex2.1 !! (2, name_f) = Some 3.
Proof.
  split; [|by vm_compute].
  exact (request_refines_names ex_class 3 false [] 32000 ex_open ex_mknod ex1 _ _ _ _ ex1_reachable ex_mknod_ok ex_mknod_served).
Defined.

Lemma nodes_well_typed_witness : ex_reachable ex4 ∧ ∀ i n, t_nodes ex4.1 !! i = Some n → shape_ok n.
Proof. split; [exact ex4_reachable|]. exact (proj1 (nodes_well_typed ex_class 3 false [] 32000 ex4 ex4_reachable)). Defined.

Definition ex_root : node := default (root_node 0) (t_nodes ex4.1 !! 1).
Definition ex_root_stats : statsrecord := default sr_zero (dir_stats ex_root).

Lemma unlink_fate_witness :
  (∃ edge ed cn, t_edges ex6.1 !! edge = Some ed ∧ e_child ed = 3 ∧ e_name ed = name_f ∧ t_nodes ex6.1 !! 3 = Some cn ∧
     fate ex_open false edge 3 cn (t_nodes ex7.1 !! 3)) ∧ (n_type <$> t_nodes ex7.1 !! 3) = Some TYPE_TRASH.
Proof.
  split; [|by vm_compute].
  exact (proj1 (unlink_fate ex_class 3 false [] 32000 ex_open 1007 1 0 1 name_f 0 [0] ex6 3 ex7 _ ex6_reachable ex_unlink2_served)).
Defined.

Lemma ex_run_step r steps s s' :
  s' = ex_next r s → ex_ok r s.1 → agrees ex_class 3 [] r s.1 → is_Some (ex_serve r s) → run_ok ex_class 3 false [] 32000 steps s' →
  run_ok ex_class 3 false [] 32000 ((ex_open, r) :: steps) s.
Proof.
  intros -> Hok Ha [[[[st i] s1] e] Hserve] Hrest. split; [done|]. split; [done|]. unfold ex_next in Hrest. rewrite Hserve in *. exact Hrest.
Qed.

Lemma ex1_next : ex1 = ex_next ex_mkdir ex0.
Proof. unfold ex1. reflexivity. Qed.
Lemma ex2_next : ex2 = ex_next ex_mknod ex1.
Proof. unfold ex2. reflexivity. Qed.
Lemma ex3_next : ex3 = ex_next ex_link ex2.
Proof. unfold ex3. reflexivity. Qed.
Lemma ex4_next : ex4 = ex_next ex_length ex3.
Proof. unfold ex4. reflexivity. Qed.
Lemma ex5_next : ex5 = ex_next ex_rename ex4.
Proof. unfold ex5. reflexivity. Qed.
Lemma ex6_next : ex6 = ex_next ex_unlink ex5.
Proof. unfold ex6. reflexivity. Qed.
Lemma ex7_next : ex7 = ex_next ex_unlink2 ex6.
Proof. unfold ex7. reflexivity. Qed.
Lemma ex_link_agrees : agrees ex_class 3 [] ex_link ex2.1.
Proof. intros j Hj. vm_compute in Hj. injection Hj as <-. intros n Hn. vm_compute in Hn. injection Hn as <-. by vm_compute. Qed.
Lemma ex_rename_agrees : agrees ex_class 3 [] ex_rename ex4.1.
Proof.
  split; [by vm_compute|]. split; intros q j Hq Hj; vm_compute in Hq; injection Hq as <-; vm_compute in Hj; [|discriminate Hj].
  injection Hj as <-. intros n Hn. vm_compute in Hn. injection Hn as <-. by vm_compute.
Qed.
Lemma ex_all_served :
  is_Some (ex_serve ex_mkdir ex0) ∧ is_Some (ex_serve ex_mknod ex1) ∧ is_Some (ex_serve ex_link ex2) ∧ is_Some (ex_serve ex_length ex3) ∧
  is_Some (ex_serve ex_rename ex4) ∧ is_Some (ex_serve ex_unlink ex5) ∧ is_Some (ex_serve ex_unlink2 ex6).
Proof. split_and!; by vm_compute; eexists. Qed.

Definition ex_steps : list step :=
  [(ex_open, ex_mkdir); (ex_open, ex_mknod); (ex_open, ex_link); (ex_open, ex_length); (ex_open, ex_rename); (ex_open, ex_unlink); (ex_open, ex_unlink2)].
Lemma ex_run_ok : run_ok ex_class 3 false [] 32000 ex_steps ex0.
Proof.
  destruct ex_all_served as (S0 & S1 & S2 & S3 & S4 & S5 & S6). unfold ex_steps.
  apply (ex_run_step ex_mkdir _ ex0 ex1 ex1_next ex_mkdir_ok (conj eq_refl (λ _, eq_refl)) S0).
  apply (ex_run_step ex_mknod _ ex1 ex2 ex2_next ex_mknod_ok (λ _, eq_refl) S1).
  apply (ex_run_step ex_link _ ex2 ex3 ex3_next ex_link_ok ex_link_agrees S2).
  apply (ex_run_step ex_length _ ex3 ex4 ex4_next ex_length_ok I S3).
  apply (ex_run_step ex_rename _ ex4 ex5 ex5_next ex_rename_ok ex_rename_agrees S4).
  apply (ex_run_step ex_unlink _ ex5 ex6 ex6_next (conj eq_refl I) I S5).
  apply (ex_run_step ex_unlink2 _ ex6 ex7 ex7_next (conj eq_refl I) I S6). exact I.
Qed.


Definition ex_setpath : request := SetTrashPath 1008 0 0 3 [120; 47; 121].
Lemma ex_setpath_served : ex_serve ex_setpath ex7 = Some (MFS_STATUS_OK, 0, ex_next ex_setpath ex7, Some (SETPATH 1008 3 [120; 47; 121])).
Proof. apply ex_served; [by vm_compute; eexists|by vm_compute]. Qed.
Lemma trash_path_roundtrip_witness : fs_gettrashpath 0 3 (ex_next ex_setpath ex7).1 = Some (MFS_STATUS_OK, [120; 47; 121]).
Proof. exact (trash_path_roundtrip ex_class 3 false [] 32000 ex_open 1008 0 3 _ ex7 0 _ _ ex7_reachable ex_setpath_served). Defined.

Lemma setlength_effect_witness : sets_length 3 100000 ex3.1 ex4.1.
Proof.
  destruct (setlength_effect ex_class 3 false [] 32000 ex_open 1004 1 0 3 0 100000 ex3 0 ex4 _ ex3_reachable ex_length_ok ex_length_served)
    as (j & n & oldlen & Hj & _ & _ & H).
  vm_compute in Hj. injection Hj as <-.
  change (flag 0 TRUNCATE_FLAG_RESERVE) with false in H. change (flag 0 TRUNCATE_FLAG_UPDATE) with false in H. cbn [andb] in H.
  exact (proj1 (proj2 (proj2 H))).
Defined.

Lemma trash_keeps_path_witness :
  ∃ dirs p, resolve (names ex6.1) MFS_ROOT_ID dirs = Some p ∧ names ex6.1 !! (p, name_f) = Some 3 ∧
    (Z.of_nat (length (slashed dirs ++ name_f)) ≤ MFS_PATH_MAX → fs_gettrashpath 0 3 ex7.1 = Some (MFS_STATUS_OK, slashed dirs ++ name_f)).
Proof.
  apply (trash_keeps_path ex_class 3 false [] 32000 ex_open 1007 1 0 1 name_f 0 [0] ex6 3 ex7 _ 4
    (default (mk_fsedge 0 None 0 []) (t_edges ex6.1 !! 4%positive)) (default (root_node 0) (t_nodes ex6.1 !! 3)) ex6_reachable eq_refl ex_unlink2_served);
    vm_compute; reflexivity.
Defined.

Lemma quota_test_exact_witness : ∃ full, fsnodes_test_quota 2 1 0 0 0 ex4.1 = Some full.
Proof.
  destruct (quota_test_exact ex_class 3 false [] 32000 ex4 2 1 0 0 0 ex4_reachable) as (full & Hfull & _); [by vm_compute; eexists|].
  exists full. exact Hfull.
Defined.

(** ** Requests the program does not survive *)

(** A directory renamed into itself: the test that it does not go below itself asks
    whether it is an ancestor of the new parent, which it is not, being the new parent.
    The walk that adds its statistics to the directories above does not end. *)
Lemma rename_into_itself_faults : ex_serve (Rename 1005 1 0 1 name_a 2 name_f 0 [0] 0 0) ex1 = None.
Proof. vm_compute. reflexivity. Qed.

(** A file renamed onto itself: the edge of the new name is removed first, and it is the
    edge that is to be moved. *)
Lemma rename_onto_itself_faults : ex_serve (Rename 1005 1 0 2 name_f 2 name_f 0 [0] 0 0) ex2 = None.
Proof. vm_compute. reflexivity. Qed.
