(* ===== verification/LockSystem.v ===== *)
(** * Open files and locks together

    The handlers of [mfsmaster/matoclserv.c] that reach the lock modules and the
    open-file table, as transitions of the state [master]: lock requests, the
    periodic list of open inodes of a client, the opening of a file, the removal
    of a session and the loss of a connection.

    The invariant of the system: the two lock tables satisfy theirs, the two hash
    tables of open files agree, and every lock, held or waited for, belongs to a
    session that has the file open. *)

From S2P Require Import Prelude MfsComm HashChain Changelog DataPack.
From S2P Require Import PosixRanges PosixLocks FlockLocks LockSessions OpenFiles.

(** What a handler sends back on the connection. *)
Inductive answer :=
| Kill
| NoAnswer
| Packet (type : Z) (data : list Z).

Section system.
Variable bld : build.
Variable FlocksMode : Z.

Definition with_flocks (fl : flock_tab) (m : master) : master :=
  mk_master (sessionhash m) (inodehash m) (of_next m) (bitmasksize m) fl (m_posix m).
Definition with_posix (px : posix_tab) (m : master) : master :=
  mk_master (sessionhash m) (inodehash m) (of_next m) (bitmasksize m) (m_flocks m) px.

(** ** Handlers

    [eptr] is the connection, [sessionid] the session it is bound to.  The
    counters of operations are left out. *)

Definition matoclserv_fuse_flock (now eptr sessionid : Z) (data : list Z) (m : master)
    : option (master * answer * list event) :=
  if negb (Z.of_nat (length data) =? 21) then Some (m, Kill, [])
  else
    '(msgid, data) ← get32bit bld data;
    '(inode, data) ← get32bit bld data;
    '(reqid, data) ← get32bit bld data;
    '(owner, data) ← get64bit bld data;
    '(cmd, data) ← get8bit bld data;
    '(fl, status, evs) ← flock_locks_cmd FlocksMode (of_checknode m) now eptr sessionid msgid reqid
                           inode owner cmd (m_flocks m);
    Some (with_flocks fl m,
          if status =? MFS_ERROR_WAITING then NoAnswer
          else Packet MATOCL_FUSE_FLOCK (put32bit bld msgid ++ put8bit bld status), evs).

(** The fields of a POSIX lock request. *)
Record posix_request := mk_posix_request {
  pq_msgid : Z; pq_inode : Z; pq_reqid : Z; pq_owner : Z; pq_pid : Z; pq_cmd : Z;
  pq_type : Z; pq_start : Z; pq_end : Z }.

Definition read_posix_request (data : list Z) : option posix_request :=
  '(msgid, data) ← get32bit bld data;
  '(inode, data) ← get32bit bld data;
  '(reqid, data) ← get32bit bld data;
  '(owner, data) ← get64bit bld data;
  '(pid, data) ← get32bit bld data;
  '(cmd, data) ← get8bit bld data;
  '(type, data) ← get8bit bld data;
  '(start, data) ← get64bit bld data;
  '(end_, data) ← get64bit bld data;
  Some (mk_posix_request msgid inode reqid owner pid cmd type start end_).

Definition matoclserv_fuse_posix_lock (now eptr sessionid : Z) (data : list Z) (m : master)
    : option (master * answer * list event) :=
  if negb (Z.of_nat (length data) =? 42) then Some (m, Kill, [])
  else
    pq ← read_posix_request data;
    '(px, rp, evs) ← posix_lock_cmd (of_checknode m) now eptr sessionid (pq_msgid pq) (pq_reqid pq)
                       (pq_inode pq) (pq_owner pq) (pq_cmd pq) (pq_type pq) (pq_start pq) (pq_end pq)
                       (pq_pid pq) (m_posix m);
    Some (with_posix px m,
          if rp_status rp =? MFS_ERROR_WAITING then NoAnswer
          else if (pq_cmd pq =? POSIX_LOCK_CMD_GET) && (rp_status rp =? MFS_STATUS_OK) then
            Packet MATOCL_FUSE_POSIX_LOCK
              (put32bit bld (pq_msgid pq) ++ put32bit bld (rp_pid rp) ++ put8bit bld (rp_type rp) ++
               put64bit bld (rp_start rp) ++ put64bit bld (rp_end rp))
          else Packet MATOCL_FUSE_POSIX_LOCK (put32bit bld (pq_msgid pq) ++ put8bit bld (rp_status rp)),
          evs).

(** The inodes of the packet, the zeros left out. *)
Fixpoint sustained_inodes (n : nat) (data : list Z) : option (list Z) :=
  match n with
  | O => Some []
  | S n =>
      '(i, data) ← get32bit bld data;
      rest ← sustained_inodes n data;
      Some (if 0 <? i then i :: rest else rest)
  end.

Definition matoclserv_fuse_sustained_inodes (now sessionid : Z) (data : list Z) (m : master)
    : option (master * answer * list event) :=
  let length := Z.of_nat (length data) in
  if negb (Z.land length 0x3 =? 0) then Some (m, Kill, [])
  else
    inodetab ← sustained_inodes (Z.to_nat (Z.shiftr length 2)) data;
    '(m, evs) ← of_sync FlocksMode now sessionid inodetab m;
    Some (m, NoAnswer, evs).

(** The lock part of the end of a connection. *)
Definition disconnected (eptr : Z) (m : master) : master :=
  with_flocks (flock_disconnected eptr (m_flocks m))
    (with_posix (posix_lock_disconnected eptr (m_posix m)) m).

(** ** The invariant *)

Record master_inv (m : master) : Prop := {
  mi_of : of_wf m;
  mi_flock : flock_inv (m_flocks m);
  mi_posix : posix_inv (m_posix m);
  mi_flock_open : ∀ inode s, flock_has (m_flocks m) inode s → is_open m s inode;
  mi_posix_open : ∀ inode s, posix_has (m_posix m) inode s → is_open m s inode;
  mi_mask : 0 ≤ bitmasksize m ≤ 2 ^ 26 }.

Lemma of_wf_flocks fl m : of_wf m → of_wf (with_flocks fl m).
Proof. by intros []. Qed.
Lemma of_wf_posix px m : of_wf m → of_wf (with_posix px m).
Proof. by intros []. Qed.

Lemma init_inv : master_inv of_init.
Proof.
  split.
  - apply of_init_wf.
  - split; [apply tab_empty_wf|]. intros inode il. cbn [of_init m_flocks]. by rewrite tab_find_empty.
  - split; [apply tab_empty_wf|]. intros inode il. cbn [of_init m_posix]. by rewrite tab_find_empty.
  - intros inode s (il & Hf & _). cbn [of_init m_flocks] in Hf. by rewrite tab_find_empty in Hf.
  - intros inode s (il & Hf & _). cbn [of_init m_posix] in Hf. by rewrite tab_find_empty in Hf.
  - cbn. lia.
Qed.

Lemma flock_cmd_master_inv now eptr s msgid reqid inode o op m :
  master_inv m →
  ∃ fl st evs, flock_locks_cmd FlocksMode (of_checknode m) now eptr s msgid reqid inode o op (m_flocks m)
    = Some (fl, st, evs) ∧ master_inv (with_flocks fl m).
Proof.
  intros [Hof Hfl Hpx Hflo Hpxo Hm].
  destruct (flock_cmd_ok FlocksMode (of_checknode m) now eptr s msgid reqid inode o op _ Hfl)
    as (fl & st & evs & Heq & Hinv).
  exists fl, st, evs. split; [done|]. split; [by apply of_wf_flocks|done|done| |done|done].
  intros j s' Hhas. eapply flock_cmd_sessions in Hhas; [|apply Hfl|exact Heq].
  destruct Hhas as [?|(-> & -> & Hc)]; [by apply Hflo|]. by apply checknode_spec in Hc.
Qed.

Lemma posix_cmd_master_inv now eptr s msgid reqid inode o op type start end_ pid m :
  master_inv m → known_cmd op → cmd_args_ok type start end_ →
  ∃ px rp evs, posix_lock_cmd (of_checknode m) now eptr s msgid reqid inode o op type start end_ pid (m_posix m)
    = Some (px, rp, evs) ∧ master_inv (with_posix px m).
Proof.
  intros [Hof Hfl Hpx Hflo Hpxo Hm] Hop Hargs.
  destruct (cmd_inv (of_checknode m) now eptr s msgid reqid inode o op type start end_ pid _ Hpx Hargs)
    as (px & rp & evs & Heq & Hinv).
  exists px, rp, evs. split; [done|]. split; [by apply of_wf_posix|done|done|done| |done].
  intros j s' Hhas. eapply cmd_sessions in Hhas; [|apply Hpx|done|exact Heq].
  destruct Hhas as [?|(-> & -> & Hc)]; [by apply Hpxo|]. by apply checknode_spec in Hc.
Qed.

Lemma disconnected_master_inv eptr m : master_inv m → master_inv (disconnected eptr m).
Proof.
  intros [Hof Hfl Hpx Hflo Hpxo Hm]. split.
  - by apply of_wf_flocks, of_wf_posix.
  - by apply flock_disconnected_inv.
  - by apply disconnected_inv.
  - intros j s Hhas%flock_disconnected_sessions. by apply Hflo.
  - intros j s Hhas%disconnected_sessions. by apply Hpxo.
  - done.
Qed.

(** ** Opening and closing *)

Lemma newnode_master_inv s inode m : master_inv m → master_inv (of_newnode s inode m).
Proof.
  intros [Hof Hfl Hpx Hflo Hpxo Hm]. split; [by apply newnode_wf|done|done|..|done];
    intros j s' Hhas; apply newnode_open; auto.
Qed.

Lemma delnode_master_inv now r m :
  master_inv m → in_i m r →
  ∃ m' evs, of_delnode FlocksMode now r m = Some (m', evs) ∧ master_inv m' ∧ unlinked r m m'.
Proof.
  intros [Hof Hfl Hpx Hflo Hpxo Hm] Hr. unfold of_delnode.
  destruct (flock_file_closed_ok FlocksMode now (ofr_sessionid r) (ofr_inode r) _ Hfl) as (fl & evs1 & Hcl1 & Hfl').
  destruct (file_closed_spec now (ofr_sessionid r) (ofr_inode r) _ Hpx) as (px & evs2 & Hcl2 & Hpx' & _).
  rewrite Hcl1. cbn [mbind option_bind]. rewrite Hcl2. cbn [mbind option_bind].
  set (m' := mk_master _ _ _ _ _ _). assert (unlinked r m m') as Hun by done.
  assert (∀ s j, is_open m s j → j ≠ ofr_inode r ∨ s ≠ ofr_sessionid r → is_open m' s j) as Hop.
  { intros s j (r' & Hr' & <- & <-) Hne. exists r'. split; [|done].
    apply (unlinked_in r m m' r' Hof Hr Hun). split; [done|]. intros ->. by destruct Hne. }
  eexists _, _. split; [done|]. split; [|done]. split; [by eapply unlinked_wf|done|done|..|done].
  - intros j s Hhas. eapply flock_file_closed_sessions in Hhas; [|apply Hfl|exact Hcl1].
    destruct Hhas as [?%Hflo ?]. auto.
  - intros j s Hhas. eapply file_closed_sessions in Hhas; [|apply Hpx|exact Hcl2].
    destruct Hhas as [?%Hpxo ?]. auto.
Qed.

(** ** Synchronisation with a client's list *)

(** The effect of the closing loop on the relations. *)
Definition to_close (s : Z) (inodes : list Z) (chain : list ofrelation) (r : ofrelation) : Prop :=
  r ∈ chain ∧ ofr_sessionid r = s ∧ ofr_inode r ∉ inodes.

Section sync.
Variable now s : Z.
Variable inodes : list Z.
Let n : Z := Z.of_nat (length inodes).
Hypothesis Hsorted : StronglySorted Z.le inodes.
Hypothesis Hn : n ≤ 2 ^ 30.

(** The bits that are set mark inodes the session has open, and every relation of
    the session that stays has a bit. *)
Definition marks (bm bm' : list Z) (chain : list ofrelation) : Prop :=
  (∀ p, 0 ≤ p < n → mask_bit bm p = true → mask_bit bm' p = true) ∧
  (∀ p, 0 ≤ p < n → mask_bit bm' p = true → mask_bit bm p = true ∨
     ∃ r, r ∈ chain ∧ ofr_sessionid r = s ∧ inodes !! Z.to_nat p = Some (ofr_inode r)) ∧
  (∀ r, r ∈ chain → ofr_sessionid r = s → ofr_inode r ∈ inodes →
     ∃ p, 0 ≤ p < n ∧ inodes !! Z.to_nat p = Some (ofr_inode r) ∧ mask_bit bm' p = true).

Lemma marks_skip r bm bm' chain :
  (ofr_sessionid r = s → ofr_inode r ∉ inodes) → marks bm bm' chain → marks bm bm' (r :: chain).
Proof.
  intros Hr (Hmono & Hsound & Hcompl). split; [done|]. split.
  - intros p Hp Hb. destruct (Hsound p Hp Hb) as [?|(r' & ? & ? & ?)]; [by left|right].
    exists r'. split; [by constructor|done].
  - intros r' [->|Hin]%elem_of_cons Hs Hi; [by apply Hr in Hs|]. by apply Hcompl.
Qed.

Lemma marks_cons r p bm bm1 bm' chain :
  ofr_sessionid r = s → 0 ≤ p < n → inodes !! Z.to_nat p = Some (ofr_inode r) →
  (∀ j, 0 ≤ j < n → mask_bit bm1 j = (p =? j) || mask_bit bm j) →
  marks bm1 bm' chain → marks bm bm' (r :: chain).
Proof.
  intros Hs Hp Hlk Hset (Hmono & Hsound & Hcompl). split; [|split].
  - intros j Hj Hb. apply Hmono; [done|]. rewrite Hset, Hb by done. apply orb_true_r.
  - intros j Hj Hb. destruct (Hsound j Hj Hb) as [Hb1|(r' & ? & ? & ?)].
    + rewrite Hset in Hb1 by done. apply orb_true_iff in Hb1 as [->%Z.eqb_eq|?]; [right|by left].
      exists r. by split; [constructor|].
    + right. exists r'. split; [by constructor|done].
  - intros r' [->|Hin]%elem_of_cons Hs' Hi; [|by apply Hcompl].
    exists p. split; [done|]. split; [done|]. apply Hmono; [done|]. rewrite Hset, Z.eqb_refl by done. done.
Qed.

Lemma sync_close_spec chain m bm :
  master_inv m → mask_fits bm n → NoDup chain → (∀ r, r ∈ chain → in_i m r) →
  ∃ m' bm' evs, sync_close FlocksMode now s inodes n chain m bm = Some (m', bm', evs) ∧
    master_inv m' ∧ mask_fits bm' n ∧ marks bm bm' chain ∧
    (∀ r, in_i m' r ↔ in_i m r ∧ ¬ to_close s inodes chain r).
Proof.
  revert m bm. induction chain as [|r chain IH]; intros m bm Hinv Hfit Hnd Hin; cbn [sync_close].
  { eexists _, _, _. split; [done|]. split; [done|]. split; [done|]. split.
    - split; [done|]. split; [by left|]. by intros r ?%elem_of_nil.
    - intros r. split; [|tauto]. intros ?. split; [done|]. by intros [?%elem_of_nil _]. }
  apply NoDup_cons in Hnd as [Hni Hnd].
  assert (∀ r0, r0 ∈ chain → in_i m r0) as Hin' by (intros; apply Hin; by constructor).
  assert ((ofr_sessionid r = s → ofr_inode r ∈ inodes) →
    ∀ r0, to_close s inodes (r :: chain) r0 ↔ to_close s inodes chain r0) as Hclose.
  { intros Hr r0. unfold to_close. rewrite elem_of_cons. split; [|tauto].
    intros ([->|?] & Hs & Hi); [by apply Hr in Hs|done]. }
  case_if.
  2:{ destruct (IH m bm) as (m' & bm' & evs & -> & ? & ? & ? & Hrel); [done..|].
      eexists _, _, _. split; [done|]. split; [done|]. split; [done|]. split; [by apply marks_skip|].
      intros r0. rewrite Hrel, Hclose; [done|congruence]. }
  destruct (bisearch_spec (ofr_inode r) inodes Hsorted Hn) as (p & Hbs & Hres).
  fold n in Hbs. rewrite Hbs. cbn [mbind option_bind].
  destruct Hres as [[-> Hno]|[Hp Hlk]].
  - destruct (delnode_master_inv now r m Hinv) as (m1 & evs1 & Hdel & Hinv1 & Hun); [apply Hin; constructor|].
    simpl. rewrite Hdel. cbn [mbind option_bind].
    pose proof (λ r0, proj1 (unlinked_in r m m1 r0 (mi_of _ Hinv) (Hin r ltac:(constructor)) Hun)) as Hrel1.
    destruct (IH m1 bm) as (m' & bm' & evs & -> & ? & ? & ? & Hrel); [done|done|done| |].
    { intros r0 Hr0. apply Hrel1. split; [by apply Hin'|]. by intros ->. }
    eexists _, _, _. split; [done|]. split; [done|]. split; [done|]. split; [by apply marks_skip|].
    intros r0. rewrite Hrel, Hrel1. unfold to_close. rewrite elem_of_cons.
    destruct (decide (r0 = r)) as [->|]; tauto.
  - destruct (Z.ltb_spec p 0); [lia|]. pose proof (lookup_lt_Some _ _ _ Hlk) as Hlt.
    destruct (bit_set_spec bm n p Hfit) as (bm1 & -> & Hfit1 & Hset); [unfold n; lia|]. cbn [mbind option_bind].
    destruct (IH m bm1) as (m' & bm' & evs & -> & ? & ? & ? & Hrel); [done..|].
    eexists _, _, _. split; [done|]. split; [done|]. split; [done|].
    split; [eapply (marks_cons r p); eauto; unfold n; lia|].
    intros r0. rewrite Hrel, Hclose; [done|]. intros _. by eapply list_elem_of_lookup_2.
Qed.

(** The opening loop, from position [i]. *)
Lemma sync_open_spec bm rest i m :
  master_inv m → mask_fits bm n → inodes = take (Z.to_nat i) inodes ++ rest → 0 ≤ i →
  i + Z.of_nat (length rest) = n →
  ∃ m' evs, sync_open now s i rest bm m = Some (m', evs) ∧ master_inv m' ∧
    ∀ s' j, is_open m' s' j ↔ is_open m s' j ∨
      (s' = s ∧ ∃ p, i ≤ p < n ∧ inodes !! Z.to_nat p = Some j ∧ mask_bit bm p = false).
Proof.
  revert i m. induction rest as [|inode rest IH]; intros i m Hinv Hfit Hsplit Hi Hlen; cbn [sync_open].
  { eexists _, _. split; [done|]. split; [done|]. intros s' j. split; [by left|].
    intros [?|(_ & p & Hp & _)]; [done|]. simpl in Hlen. lia. }
  simpl in Hlen. assert (inodes !! Z.to_nat i = Some inode) as Hlk.
  { rewrite Hsplit, lookup_app_r; rewrite length_take; [|lia].
    replace (_ - _)%nat with 0%nat; [done|]. unfold n in Hlen. lia. }
  assert (inodes = take (Z.to_nat (i + 1)) inodes ++ rest) as Hsplit'.
  { replace (Z.to_nat (i + 1)) with (S (Z.to_nat i)) by lia.
    rewrite (take_S_r _ _ _ Hlk), <-app_assoc. exact Hsplit. }
  rewrite (bit_clear_spec bm n) by (done || lia). cbn [mbind option_bind].
  assert (∀ (Q : Z → Prop), (∃ p, i ≤ p < n ∧ Q p) ↔ Q i ∨ ∃ p, i + 1 ≤ p < n ∧ Q p) as Hfirst.
  { intros Q. split.
    - intros (p & Hp & HQ). destruct (decide (p = i)) as [->|]; [by left|right]. exists p. split; [lia|done].
    - intros [HQ|(p & Hp & HQ)]; eexists; (split; [|exact HQ]); lia. }
  destruct (mask_bit bm i) eqn:Hb; simpl.
  - destruct (IH (i + 1) m) as (m' & evs & -> & ? & Hrel); [done|done|done|lia|lia|].
    eexists _, _. split; [done|]. split; [done|]. intros s' j. rewrite Hrel, Hfirst.
    split; [tauto|]. intros [?|[? [[_ ?]|?]]]; [tauto|congruence|tauto].
  - destruct (IH (i + 1) (of_newnode s inode m)) as (m' & evs & -> & ? & Hrel);
      [by apply newnode_master_inv|done|done|lia|lia|].
    eexists _, _. split; [done|]. split; [done|]. intros s' j.
    rewrite Hrel, newnode_open, Hfirst by apply Hinv. rewrite Hlk, Hb. naive_solver.
Qed.

End sync.

Definition with_mask (size : Z) (m : master) : master :=
  mk_master (sessionhash m) (inodehash m) (of_next m) size (m_flocks m) (m_posix m).

Lemma with_mask_inv size m : master_inv m → 0 ≤ size ≤ 2 ^ 26 → master_inv (with_mask size m).
Proof. intros [[] Hfl Hpx Hflo Hpxo _] Hsize. by split. Qed.

Lemma session_chain s m r :
  of_wf m → r ∈ chain_at (OF_SESSION_HASH s) (sessionhash m) → in_i m r.
Proof.
  intros Hwf Hin. apply (of_wf_same _ Hwf). unfold in_s.
  rewrite (of_wf_splace _ Hwf _ _ (proj1 (session_hash_range s)) Hin). done.
Qed.

Lemma session_in_chain m r :
  of_wf m → in_i m r → r ∈ chain_at (OF_SESSION_HASH (ofr_sessionid r)) (sessionhash m).
Proof. intros Hwf Hr. by apply (of_wf_same _ Hwf). Qed.

Lemma mask_zero size n i : 0 ≤ size → n ≤ 32 * size → mask_fits (replicate (Z.to_nat size) 0) n ∧
  mask_bit (replicate (Z.to_nat size) 0) i = false.
Proof.
  intros Hs Hn. split; [split|].
  - rewrite length_replicate. lia.
  - by apply Forall_replicate.
  - unfold mask_bit. destruct (_ !! _) eqn:Hl; [|done]. apply lookup_replicate in Hl as [-> _]. apply Z.bits_0.
Qed.

(** The size of the mask: large enough for the array, and bounded. *)
Lemma mask_size old n :
  0 ≤ old ≤ 2 ^ 26 → 0 ≤ n ≤ 2 ^ 30 →
  let size := if (u32 (old * 32) <? n) || (old =? 0) then u32 (u32 (n + 31) / 32 + 10) else old in
  0 ≤ size ≤ 2 ^ 26 ∧ n ≤ 32 * size.
Proof.
  intros Hold Hn. unfold u32. rewrite (Z.mod_small (old * 32)), (Z.mod_small (n + 31)) by lia.
  assert (0 ≤ (n + 31) / 32 + 10 ≤ 2 ^ 26 ∧ n ≤ 32 * ((n + 31) / 32 + 10)) as Hd
    by (Z.to_euclidean_division_equations; lia).
  rewrite Z.mod_small by lia. simpl. case_if; lia.
Qed.

(** After a synchronisation the session has open exactly the inodes of the list;
    other sessions are not touched. *)
Lemma sync_spec now s inodes m :
  master_inv m → Z.of_nat (length inodes) ≤ 2 ^ 30 →
  ∃ m' evs, of_sync FlocksMode now s inodes m = Some (m', evs) ∧ master_inv m' ∧
    ∀ s' j, is_open m' s' j ↔ (s' = s ∧ j ∈ inodes) ∨ (s' ≠ s ∧ is_open m s' j).
Proof.
  intros Hinv Hlen. unfold of_sync.
  pose proof (mask_size (bitmasksize m) (Z.of_nat (length inodes)) (mi_mask _ Hinv)) as Hms.
  cbv zeta in Hms |- *.
  match type of Hms with _ → 0 ≤ ?e ≤ _ ∧ _ => set (size := e) in * end.
  destruct Hms as [Hsz Hfits]; [lia|]. fold (with_mask size m).
  pose proof (with_mask_inv size m Hinv Hsz) as Hinv1.
  pose proof (λ i, mask_zero size _ i (proj1 Hsz) Hfits) as Hz.
  set (q := qsort_inodes inodes). assert (length inodes = length q) as Hql by (unfold q; by rewrite qsort_perm).
  assert (∀ j, j ∈ inodes ↔ j ∈ q) as Hq by (intros j; unfold q; by rewrite qsort_perm).
  rewrite Hql in *. set (bm := replicate _ 0) in *.
  set (chain := chain_at (OF_SESSION_HASH s) (sessionhash (with_mask size m))).
  destruct (sync_close_spec now s q (qsort_sorted inodes) Hlen chain (with_mask size m) bm)
    as (m1 & bm1 & evs1 & -> & Hinv2 & Hfit2 & (_ & Hsound & Hcompl) & Hrel1);
    [done|by apply (Hz 0)|apply (of_wf_snodup _ (mi_of _ Hinv1))|intros r; apply session_chain, Hinv1|].
  cbn [mbind option_bind].
  destruct (sync_open_spec now s q bm1 q 0 m1) as (m2 & evs2 & -> & Hinv3 & Hrel2); [done|done|done|lia|lia|].
  cbn [mbind option_bind]. eexists _, _. split; [done|]. split; [done|].
  intros s' j. rewrite Hrel2, Hq. unfold is_open at 1 2. split.
  - intros [(r & [Hr Hkeep]%Hrel1 & <- & <-)|(-> & p & _ & Hp & _)].
    + destruct (decide (ofr_sessionid r = s)) as [Hs|]; [left|right; split; [done|by exists r]].
      split; [done|]. destruct (decide (ofr_inode r ∈ q)) as [|Hno]; [done|]. exfalso. apply Hkeep.
      split; [|done]. unfold chain. rewrite <-Hs. by apply session_in_chain; [apply Hinv1|].
    + left. split; [done|]. by eapply list_elem_of_lookup_2.
  - intros [[-> Hj]|[Hs (r & Hr & <- & <-)]].
    + apply list_elem_of_lookup in Hj as [p Hp]. pose proof (lookup_lt_Some _ _ _ Hp) as Hlt.
      destruct (mask_bit bm1 (Z.of_nat p)) eqn:Hb.
      * left. destruct (Hsound (Z.of_nat p) ltac:(lia) Hb) as [Hb0|(r & Hr & Hs & Hlk)].
        { unfold bm in Hb0. by rewrite (proj2 (Hz _)) in Hb0. }
        rewrite Nat2Z.id, Hp in Hlk. injection Hlk as ->. exists r. split; [|done].
        apply Hrel1. split; [by eapply session_chain; [apply Hinv1|]|]. intros (_ & _ & Hno).
        apply Hno. by eapply list_elem_of_lookup_2.
      * right. split; [done|]. exists (Z.of_nat p). rewrite Nat2Z.id. split; [lia|done].
    + left. exists r. split; [|done]. apply Hrel1. split; [done|]. by intros (_ & ? & _).
Qed.

Lemma remove_loop_spec now s chain m :
  master_inv m → NoDup chain → (∀ r, r ∈ chain → in_i m r) →
  ∃ m' evs, remove_loop FlocksMode now s chain m = Some (m', evs) ∧ master_inv m' ∧
    ∀ r, in_i m' r ↔ in_i m r ∧ ¬ (r ∈ chain ∧ ofr_sessionid r = s).
Proof.
  revert m. induction chain as [|r chain IH]; intros m Hinv Hnd Hin; cbn [remove_loop].
  { eexists _, _. split; [done|]. split; [done|]. intros r. rewrite elem_of_nil. tauto. }
  apply NoDup_cons in Hnd as [Hni Hnd].
  assert (∀ r0, r0 ∈ chain → in_i m r0) as Hin' by (intros; apply Hin; by constructor).
  case_if.
  - destruct (delnode_master_inv now r m Hinv) as (m1 & evs1 & Hdel & Hinv1 & Hun); [apply Hin; constructor|].
    rewrite Hdel. cbn [mbind option_bind].
    pose proof (λ r0, proj1 (unlinked_in r m m1 r0 (mi_of _ Hinv) (Hin r ltac:(constructor)) Hun)) as Hrel1.
    destruct (IH m1) as (m' & evs & -> & ? & Hrel); [done|done| |].
    { intros r0 Hr0. apply Hrel1. split; [by apply Hin'|]. by intros ->. }
    eexists _, _. split; [done|]. split; [done|]. intros r0. rewrite Hrel, Hrel1, elem_of_cons.
    destruct (decide (r0 = r)) as [->|]; tauto.
  - destruct (IH m) as (m' & evs & -> & ? & Hrel); [done..|]. eexists _, _. split; [done|]. split; [done|].
    intros r0. rewrite Hrel, elem_of_cons. destruct (decide (r0 = r)) as [->|]; tauto.
Qed.

Lemma session_removed_spec now s m :
  master_inv m →
  ∃ m' evs, of_session_removed FlocksMode now s m = Some (m', evs) ∧ master_inv m' ∧
    ∀ s' j, is_open m' s' j ↔ s' ≠ s ∧ is_open m s' j.
Proof.
  intros Hinv. unfold of_session_removed.
  destruct (remove_loop_spec now s (chain_at (OF_SESSION_HASH s) (sessionhash m)) m) as (m' & evs & -> & ? & Hrel);
    [done|apply (of_wf_snodup _ (mi_of _ Hinv))|intros r; apply session_chain, Hinv|].
  eexists _, _. split; [done|]. split; [done|]. intros s' j. split.
  - intros (r & [Hr Hno]%Hrel & <- & <-). split; [|by exists r]. intros Hs. apply Hno.
    split; [|done]. rewrite <-Hs. apply session_in_chain; [apply Hinv|done].
  - intros [Hs (r & Hr & <- & <-)]. exists r. split; [|done]. apply Hrel. split; [done|]. by intros [_ ?].
Qed.

Lemma openfile_spec now s inode m :
  master_inv m →
  let '(m', evs) := of_openfile now s inode m in
  master_inv m' ∧ ∀ s' j, is_open m' s' j ↔ (s' = s ∧ j = inode) ∨ is_open m s' j.
Proof.
  intros Hinv. unfold of_openfile. destruct (of_checknode m s inode) eqn:Hc; simpl.
  - split; [done|]. apply checknode_spec in Hc; [|apply Hinv]. intros s' j. split; [by right|].
    by intros [[-> ->]|?].
  - split; [by apply newnode_master_inv|]. intros s' j. apply newnode_open, Hinv.
Qed.

(** ** Requests *)

Inductive request :=
| ReqFlock (eptr sessionid : Z) (data : list Z)
| ReqPosixLock (eptr sessionid : Z) (data : list Z)
| ReqSustained (sessionid : Z) (data : list Z)
| ReqOpen (sessionid inode : Z)
| ReqSessionRemoved (sessionid : Z)
| ReqDisconnected (eptr : Z).

Definition handle (now : Z) (req : request) (m : master) : option (master * answer * list event) :=
  match req with
  | ReqFlock eptr sessionid data => matoclserv_fuse_flock now eptr sessionid data m
  | ReqPosixLock eptr sessionid data => matoclserv_fuse_posix_lock now eptr sessionid data m
  | ReqSustained sessionid data => matoclserv_fuse_sustained_inodes now sessionid data m
  | ReqOpen sessionid inode => let '(m, evs) := of_openfile now sessionid inode m in Some (m, NoAnswer, evs)
  | ReqSessionRemoved sessionid =>
      '(m, evs) ← of_session_removed FlocksMode now sessionid m; Some (m, NoAnswer, evs)
  | ReqDisconnected eptr => Some (disconnected eptr m, NoAnswer, [])
  end.

(** What the handlers rely on: a POSIX lock request names one of the four commands,
    one of the three types and a non-empty range; the length of a packet is a
    32-bit number. *)
Definition request_ok (req : request) : Prop :=
  match req with
  | ReqPosixLock _ _ data => ∀ pq, read_posix_request data = Some pq →
      known_cmd (pq_cmd pq) ∧ cmd_args_ok (pq_type pq) (pq_start pq) (pq_end pq)
  | ReqSustained _ data => Z.of_nat (length data) < 2 ^ 32
  | _ => True
  end.

Lemma get8_Some data n : length data = S n → ∃ x rest, get8bit bld data = Some (x, rest) ∧ length rest = n.
Proof. intros. do 1 (destruct data as [|? data]; [done|]). eexists _, _. split; [done|]. by simplify_eq/=. Qed.
Lemma get32_Some data n :
  length data = (4 + n)%nat → ∃ x rest, get32bit bld data = Some (x, rest) ∧ length rest = n.
Proof. intros. do 4 (destruct data as [|? data]; [done|]). eexists _, _. split; [done|]. by simplify_eq/=. Qed.
Lemma get64_Some data n :
  length data = (8 + n)%nat → ∃ x rest, get64bit bld data = Some (x, rest) ∧ length rest = n.
Proof. intros. do 8 (destruct data as [|? data]; [done|]). eexists _, _. split; [done|]. by simplify_eq/=. Qed.

(** Reads one field of a packet whose remaining length is known. *)
Ltac read_field :=
  match goal with
  | H : length ?d = _ |- context [get32bit bld ?d] =>
      let E := fresh in destruct (get32_Some d _ H) as (? & ? & E & ?); rewrite E; cbn [mbind option_bind]
  | H : length ?d = _ |- context [get64bit bld ?d] =>
      let E := fresh in destruct (get64_Some d _ H) as (? & ? & E & ?); rewrite E; cbn [mbind option_bind]
  | H : length ?d = _ |- context [get8bit bld ?d] =>
      let E := fresh in destruct (get8_Some d _ H) as (? & ? & E & ?); rewrite E; cbn [mbind option_bind]
  end.

Lemma read_posix_Some data : length data = 42%nat → ∃ pq, read_posix_request data = Some pq.
Proof. intros Hlen. unfold read_posix_request. repeat read_field. by eexists. Qed.

Lemma sustained_Some n data :
  length data = (4 * n)%nat → ∃ l, sustained_inodes n data = Some l ∧ (length l ≤ n)%nat.
Proof.
  revert data. induction n as [|n IH]; intros data Hlen; cbn [sustained_inodes]; [by eexists|].
  assert (length data = 4 + 4 * n)%nat as Hlen' by lia. clear Hlen. read_field.
  destruct (IH x0) as (l & -> & Hl); [lia|]. eexists. split; [done|]. case_if; simpl; lia.
Qed.

(** A request is handled without a failed assertion and the invariant is kept. *)
Lemma handle_ok now req m :
  master_inv m → request_ok req →
  ∃ m' a evs, handle now req m = Some (m', a, evs) ∧ master_inv m'.
Proof.
  intros Hinv Hok. destruct req as [eptr s data|eptr s data|s data|s inode|s|eptr]; cbn [handle].
  - unfold matoclserv_fuse_flock. case_if; [by eauto|].
    assert (length data = 21%nat) as Hlen by lia. repeat read_field.
    edestruct (flock_cmd_master_inv now eptr s) as (fl & st & evs & -> & ?); [done|]. cbn [mbind option_bind]. eauto.
  - unfold matoclserv_fuse_posix_lock. case_if; [by eauto|].
    destruct (read_posix_Some data) as [pq Hpq]; [lia|]. rewrite Hpq. cbn [mbind option_bind].
    destruct (Hok pq Hpq) as [Hcmd Hargs].
    edestruct (posix_cmd_master_inv now eptr s) as (px & rp & evs & -> & ?); [done..|]. cbn [mbind option_bind]. eauto.
  - unfold matoclserv_fuse_sustained_inodes. cbv zeta. case_if; [by eauto|]. simpl in Hok.
    change 3 with (Z.ones 2) in E. rewrite Z.land_ones in E by lia.
    pose proof (Z.div_mod (Z.of_nat (length data)) (2 ^ 2)) as Hd.
    rewrite Z.shiftr_div_pow2 by lia.
    destruct (sustained_Some (Z.to_nat (Z.of_nat (length data) / 2 ^ 2)) data) as (l & -> & Hl); [lia|].
    cbn [mbind option_bind]. destruct (sync_spec now s l m Hinv) as (m' & evs & -> & ? & _); [lia|].
    cbn [mbind option_bind]. eauto.
  - pose proof (openfile_spec now s inode m Hinv) as Ho. destruct (of_openfile now s inode m) as [m' evs].
    destruct Ho. eauto.
  - destruct (session_removed_spec now s m Hinv) as (m' & evs & -> & ? & _). cbn [mbind option_bind]. eauto.
  - eexists _, _, _. split; [done|]. by apply disconnected_master_inv.
Qed.

(** ** Reachable states *)

Inductive reachable : master → Prop :=
| reach_init : reachable of_init
| reach_step m now req m' a evs :
    reachable m → request_ok req → handle now req m = Some (m', a, evs) → reachable m'.

Lemma reachable_inv m : reachable m → master_inv m.
Proof.
  induction 1 as [|m now req m' a evs _ IH Hok Heq]; [apply init_inv|].
  destruct (handle_ok now req m IH Hok) as (m1 & a1 & evs1 & Heq1 & Hinv). congruence.
Qed.

End system.
