(* ===== verification/LockImages.v ===== *)
(** * Open files and locks in the metadata image

    The [*_store] and [*_load] functions of [openfiles.c], [flocklocks.c] and
    [posixlocks.c].  A section of the image is a list of bytes; the stores return
    the bytes they hand to [bio_write], the loads take theirs off the front of the
    input, a short [bio_read] being the end of the input.  The loops of the loads
    run on a fuel that their callers set above the number of records the input
    can hold. *)

From S2P Require Import Prelude MfsComm HashChain Changelog DataPack.
From S2P Require Import PosixRanges PosixLocks FlockLocks OpenFiles.

(** The outcome of one turn of a loading loop: the end mark was read, the input
    was refused, or the loop goes on. *)
Inductive turn (S : Type) := Done (st : S) | Refused (st : S) | More (st : S).
Arguments Done {S} st. Arguments Refused {S} st. Arguments More {S} st.

Section image.
Variable bld : build.

(** The loop [for (;;)] of a load whose records have [size] bytes: status, state,
    rest of the input. *)
Fixpoint load_loop {S} (size : nat) (body : list Z → S → turn S) (fuel : nat) (input : list Z) (st : S)
    : option (Z * S * list Z) :=
  match fuel with
  | O => None
  | Datatypes.S fuel =>
      if (length input <? size)%nat then Some (-1, st, [])
      else
        match body (take size input) st with
        | Done st => Some (0, st, drop size input)
        | Refused st => Some (-1, st, drop size input)
        | More st => load_loop size body fuel (drop size input) st
        end
  end.

(** ** Open files *)

Definition OF_REC_SIZE : nat := 8.

Definition of_store (m : master) : list Z :=
  concat ((λ ofr, put32bit bld (ofr_sessionid ofr) ++ put32bit bld (ofr_inode ofr)) <$> concat (sessionhash m))
  ++ replicate OF_REC_SIZE 0.

(** [known] tells whether [sessions_find_session] finds the session. *)
Definition of_load_record (known : Z → bool) (rec : list Z) (m : master) : turn master :=
  match get32bit bld rec with
  | Some (sessionid, rec) =>
      match get32bit bld rec with
      | Some (inode, _) =>
          if (0 <? sessionid) && (0 <? inode) then
            More (if known sessionid then of_newnode sessionid inode m else m)
          else if (sessionid =? 0) && (inode =? 0) then Done m
          else Refused m
      | None => Refused m
      end
  | None => Refused m
  end.

Definition of_load (known : Z → bool) (mver : Z) (input : list Z) (m : master) : option (Z * master * list Z) :=
  if negb (mver =? 0x10) then Some (-1, m, input)
  else load_loop OF_REC_SIZE (of_load_record known) (S (length input)) input m.

(** ** Whole-file locks *)

Definition FLOCK_REC_SIZE : nat := 17.

Definition flock_record (inode : Z) (l : lock) : list Z :=
  put32bit bld inode ++ put64bit bld (l_owner l) ++ put32bit bld (l_sessionid l) ++ put8bit bld (l_ltype l).

Definition flock_store (t : flock_tab) : list Z :=
  concat ((λ il, concat (flock_record (fl_inode il) <$> fl_active il)) <$> tab_all t)
  ++ replicate FLOCK_REC_SIZE 0.

Definition flock_load_record (of_checknode : Z → Z → bool) (ignoreflag : bool) (rec : list Z) (t : flock_tab)
    : turn flock_tab :=
  match ('(inode, rec) ← get32bit bld rec; '(owner, rec) ← get64bit bld rec;
         '(sessionid, rec) ← get32bit bld rec; '(ltype, rec) ← get8bit bld rec;
         Some (inode, owner, sessionid, ltype)) with
  | None => Refused t
  | Some (inode, owner, sessionid, ltype) =>
      if (inode =? 0) && ((owner =? 0) && (sessionid =? 0)) then Done t
      else if negb (of_checknode sessionid inode) then if ignoreflag then More t else Refused t
      else
        let '(il, t) := match flock_inode_find inode t with
                        | Some il => (il, t) | None => flock_inode_new inode t end in
        if negb (is_nil (fl_active il)) && (head_is LTYPE_WRITER (fl_active il) || (ltype =? LTYPE_WRITER))
        then if ignoreflag then More t else Refused t
        else More (tab_set inode (flock_do_lock_inode_attach
                                    (mk_lock owner 0 sessionid STATE_ACTIVE ltype []) il) t)
  end.

Definition flock_load (of_checknode : Z → Z → bool) (mver : Z) (ignoreflag : bool) (input : list Z)
    (t : flock_tab) : option (Z * flock_tab * list Z) :=
  if negb (mver =? 0x10) then Some (-1, t, input)
  else load_loop FLOCK_REC_SIZE (flock_load_record of_checknode ignoreflag) (S (length input)) input t.

(** ** POSIX locks *)

Definition POSIX_LOCK_REC_SIZE : nat := 37.

Definition posix_record (inode : Z) (al : alock) (r : range) : list Z :=
  put32bit bld inode ++ put64bit bld (al_owner al) ++ put32bit bld (al_sessionid al) ++
  put32bit bld (al_pid al) ++ put64bit bld (r_start r) ++ put64bit bld (r_end r) ++ put8bit bld (r_type r).

Definition posix_lock_store (t : posix_tab) : list Z :=
  concat ((λ il, concat ((λ al, concat (posix_record (il_inode il) al <$> al_ranges al)) <$> il_active il))
          <$> tab_all t)
  ++ replicate POSIX_LOCK_REC_SIZE 0.

(** The variables of the loop.  [ls_head] tells that [altail] points to
    [il->active] (else to the [next] field of the last lock of that list); [rtail]
    always points past the last range of the last lock. *)
Record load_state := mk_load_state {
  ls_fino : bool; ls_fses : bool; ls_lastinode : Z; ls_lastsessionid : Z; ls_lastowner : Z;
  ls_lasttype : Z; ls_lastend : Z; ls_head : bool; ls_tab : posix_tab }.

(** [*altail = al]. *)
Definition attach_alock (head : bool) (al : alock) (active : list alock) : list alock :=
  if head then [al] else active ++ [al].

(** [*rtail = r]. *)
Fixpoint attach_range (r : range) (active : list alock) : list alock :=
  match active with
  | [] => []
  | [al] => [mk_alock (al_owner al) (al_sessionid al) (al_pid al) (al_ranges al ++ [r])]
  | al :: rest => al :: attach_range r rest
  end.

Definition update_active (inode : Z) (f : list alock → list alock) (t : posix_tab) : posix_tab :=
  match tab_find inode t with
  | Some il => tab_set inode (mk_inodelocks (il_inode il) (f (il_active il)) (il_waiting il)) t
  | None => t
  end.

Record posix_fields := mk_posix_fields {
  pf_inode : Z; pf_owner : Z; pf_sessionid : Z; pf_pid : Z; pf_start : Z; pf_end : Z; pf_type : Z }.

Definition read_posix_record (rec : list Z) : option posix_fields :=
  '(inode, rec) ← get32bit bld rec; '(owner, rec) ← get64bit bld rec;
  '(sessionid, rec) ← get32bit bld rec; '(pid, rec) ← get32bit bld rec;
  '(start, rec) ← get64bit bld rec; '(end_, rec) ← get64bit bld rec;
  '(type, rec) ← get8bit bld rec;
  Some (mk_posix_fields inode owner sessionid pid start end_ type).

(** A new inode in the records: find or make its [inodelocks]. *)
Definition load_inode (f : posix_fields) (st : load_state) : load_state :=
  if negb (pf_inode f =? ls_lastinode st) || ls_fino st then
    let t := match posix_lock_inode_find (pf_inode f) (ls_tab st) with
             | Some _ => ls_tab st | None => (posix_lock_inode_new (pf_inode f) (ls_tab st)).2 end in
    mk_load_state false true (pf_inode f) 0 0 (ls_lasttype st) (ls_lastend st) true t
  else st.

(** A new owner in the records: append an [alock]. *)
Definition load_owner (f : posix_fields) (st : load_state) : load_state :=
  if negb (pf_sessionid f =? ls_lastsessionid st) || (negb (pf_owner f =? ls_lastowner st) || ls_fses st) then
    mk_load_state (ls_fino st) false (ls_lastinode st) (pf_sessionid f) (pf_owner f) POSIX_LOCK_UNLCK 0 false
      (update_active (ls_lastinode st)
         (attach_alock (ls_head st) (mk_alock (pf_owner f) (pf_sessionid f) (pf_pid f) [])) (ls_tab st))
  else st.

Definition load_range (f : posix_fields) (st : load_state) : load_state :=
  mk_load_state (ls_fino st) (ls_fses st) (ls_lastinode st) (ls_lastsessionid st) (ls_lastowner st)
    (pf_type f) (pf_end f) (ls_head st)
    (update_active (ls_lastinode st) (attach_range (mk_range (pf_start f) (pf_end f) (pf_type f))) (ls_tab st)).

Definition posix_load_record (of_checknode : Z → Z → bool) (ignoreflag : bool) (rec : list Z) (st : load_state)
    : turn load_state :=
  match read_posix_record rec with
  | None => Refused st
  | Some f =>
      if (pf_inode f =? 0) && ((pf_owner f =? 0) && (pf_sessionid f =? 0)) then Done st
      else if (negb (pf_inode f =? ls_lastinode st) || (negb (pf_sessionid f =? ls_lastsessionid st)
               || (ls_fino st || ls_fses st))) && negb (of_checknode (pf_sessionid f) (pf_inode f))
      then if ignoreflag then More st else Refused st
      else
        let st := load_owner f (load_inode f st) in
        if negb (ls_lasttype st =? POSIX_LOCK_UNLCK) && (pf_start f <? ls_lastend st)
        then if ignoreflag then More st else Refused st
        else if negb (ls_lasttype st =? POSIX_LOCK_UNLCK) &&
                ((pf_type f =? ls_lasttype st) && (pf_start f =? ls_lastend st))
        then if ignoreflag then More st else Refused st
        else More (load_range f st)
  end.

Definition posix_lock_load (of_checknode : Z → Z → bool) (mver : Z) (ignoreflag : bool) (input : list Z)
    (t : posix_tab) : option (Z * posix_tab * list Z) :=
  if negb (mver =? 0x10) then Some (-1, t, input)
  else
    '(status, st, rest) ← load_loop POSIX_LOCK_REC_SIZE (posix_load_record of_checknode ignoreflag)
                            (S (length input)) input (mk_load_state true true 0 0 0 0 0 true t);
    Some (status, ls_tab st, rest).

(** ** The loops end *)

Lemma load_loop_total {S} size (body : list Z → S → turn S) fuel input st :
  (0 < size)%nat → (length input < fuel)%nat → ∃ r, load_loop size body fuel input st = Some r.
Proof.
  intros Hsize. revert input st. induction fuel as [|fuel IH]; intros input st Hlen; [lia|].
  cbn [load_loop]. destruct (Nat.ltb_spec (length input) size); [by eexists|].
  destruct (body _ _); [by eexists..|]. apply IH. rewrite length_drop. lia.
Qed.

(** The turns over a list of records none of which ends the loop. *)
Fixpoint load_run {S} (body : list Z → S → turn S) (recs : list (list Z)) (st : S) : option S :=
  match recs with
  | [] => Some st
  | r :: recs => match body r st with More st => load_run body recs st | _ => None end
  end.

Lemma load_run_app {S} (body : list Z → S → turn S) recs recs' st :
  load_run body (recs ++ recs') st = st' ← load_run body recs st; load_run body recs' st'.
Proof. revert st. induction recs as [|r recs IH]; intros st; simpl; [done|]. by destruct (body r st). Qed.

Lemma load_loop_run {S} size (body : list Z → S → turn S) recs fuel endrec rest st st' :
  Forall (λ r, length r = size) recs → length endrec = size → (0 < size)%nat →
  load_run body recs st = Some st' → body endrec st' = Done st' →
  (length (concat recs ++ endrec ++ rest) < fuel)%nat →
  load_loop size body fuel (concat recs ++ endrec ++ rest) st = Some (0, st', rest).
Proof.
  intros Hrecs Hend Hsize. revert fuel st.
  induction Hrecs as [|r recs Hr Hrecs IH]; intros fuel st; simpl.
  - intros [= ->] Hdone Hfuel. destruct fuel as [|fuel]; [lia|]. cbn [load_loop]. rewrite length_app.
    destruct (Nat.ltb_spec (length endrec + length rest) size); [lia|].
    by rewrite take_app_length', Hdone, drop_app_length' by done.
  - rewrite <-app_assoc. intros Hrun Hdone Hfuel. destruct fuel as [|fuel]; [lia|]. cbn [load_loop].
    rewrite length_app in Hfuel |- *.
    destruct (Nat.ltb_spec (length r + length (concat recs ++ endrec ++ rest)) size); [lia|].
    rewrite take_app_length', drop_app_length' by done. destruct (body r st); [done..|].
    apply IH; [done|done|]. lia.
Qed.

(** ** Open files: what is stored is what is loaded *)

Definition of_record (ofr : ofrelation) : list Z :=
  put32bit bld (ofr_sessionid ofr) ++ put32bit bld (ofr_inode ofr).

Definition of_storable (known : Z → bool) (ofr : ofrelation) : Prop :=
  0 < ofr_sessionid ofr < 2 ^ 32 ∧ 0 < ofr_inode ofr < 2 ^ 32 ∧ known (ofr_sessionid ofr) = true.

Lemma of_load_record_ok known ofr m :
  of_storable known ofr →
  of_load_record known (of_record ofr) m = More (of_newnode (ofr_sessionid ofr) (ofr_inode ofr) m).
Proof.
  intros (Hs & Hi & Hk). unfold of_load_record, of_record. rewrite get32_put32, Z.mod_small by lia.
  rewrite <-(app_nil_r (put32bit bld (ofr_inode ofr))), get32_put32, Z.mod_small by lia.
  destruct (Z.ltb_spec 0 (ofr_sessionid ofr)); [|lia]. destruct (Z.ltb_spec 0 (ofr_inode ofr)); [|lia].
  simpl. by rewrite Hk.
Qed.

Lemma of_load_run known l m :
  of_wf m → Forall (of_storable known) l →
  ∃ m', load_run (of_load_record known) (of_record <$> l) m = Some m' ∧ of_wf m' ∧
    (m_flocks m' = m_flocks m ∧ m_posix m' = m_posix m) ∧
    ∀ s i, is_open m' s i ↔ is_open m s i ∨ ∃ r, r ∈ l ∧ ofr_sessionid r = s ∧ ofr_inode r = i.
Proof.
  intros Hwf Hl. revert m Hwf. induction Hl as [|r l Hr Hl IH]; intros m Hwf; csimpl.
  { eexists. split; [done|]. split; [done|]. split; [done|]. intros s i. split; [by left|].
    intros [?|(r & ?%elem_of_nil & _)]; done. }
  rewrite of_load_record_ok by done.
  destruct (IH (of_newnode (ofr_sessionid r) (ofr_inode r) m)) as (m' & -> & Hwf' & Hlk & Hop);
    [by apply newnode_wf|].
  eexists. split; [done|]. split; [done|]. split; [done|]. intros s i. rewrite Hop, newnode_open by done.
  setoid_rewrite elem_of_cons. naive_solver.
Qed.

Lemma concat_chain_elem h (t : list (list ofrelation)) r :
  r ∈ chain_at h t → r ∈ concat t.
Proof.
  unfold chain_at. destruct (t !! Z.to_nat h) as [l|] eqn:Hl; [|by intros ?%elem_of_nil]. simpl. intros Hr.
  apply list_elem_of_In, in_concat. exists l. split; apply list_elem_of_In; [|done]. by eapply list_elem_of_lookup_2.
Qed.

Lemma session_concat m r : of_wf m → r ∈ concat (sessionhash m) ↔ in_i m r.
Proof.
  intros Hwf. rewrite <-(of_wf_same _ Hwf). split; [|apply concat_chain_elem].
  intros (l & Hl%list_elem_of_In & Hr%list_elem_of_In)%list_elem_of_In%in_concat.
  apply list_elem_of_lookup in Hl as [i Hi]. unfold in_s.
  assert (r ∈ chain_at (Z.of_nat i) (sessionhash m)) as Hin.
  { unfold chain_at. by rewrite Nat2Z.id, Hi. }
  by rewrite (of_wf_splace _ Hwf _ _ (Nat2Z.is_nonneg i) Hin).
Qed.

Lemma of_end_record known m : of_load_record known (replicate OF_REC_SIZE 0) m = Done m.
Proof. unfold of_load_record. by destruct bld. Qed.

Lemma of_store_load known m rest :
  of_wf m → (∀ r, in_i m r → of_storable known r) →
  ∃ m', of_load known 0x10 (of_store m ++ rest) of_init = Some (0, m', rest) ∧ of_wf m' ∧
    ∀ s i, is_open m' s i ↔ is_open m s i.
Proof.
  intros Hwf Hst. unfold of_load, of_store. fold of_record. rewrite <-app_assoc.
  destruct (of_load_run known (concat (sessionhash m)) of_init) as (m' & Hrun & Hwf' & _ & Hop).
  { apply of_init_wf. }
  { apply Forall_forall. intros r Hr. apply Hst. by apply session_concat. }
  exists m'. simpl negb. cbv iota. split; [|split; [done|]].
  - apply load_loop_run; [|done|unfold OF_REC_SIZE; lia|exact Hrun|apply of_end_record|lia].
    apply Forall_fmap, Forall_forall. intros r _. simpl. unfold of_record.
    by rewrite length_app, !put32bit_be, !length_be_bytes.
  - intros s i. rewrite Hop. split.
    + intros [(r & Hr & _)|(r & Hr & ? & ?)].
      * exfalso. apply (session_concat _ _ of_init_wf) in Hr. cbn [of_init sessionhash] in Hr.
        apply list_elem_of_In, in_concat in Hr as (l & Hl%list_elem_of_In & Hr).
        apply list_elem_of_In in Hr. apply elem_of_replicate in Hl as [-> _]. by apply elem_of_nil in Hr.
      * exists r. split; [by apply session_concat|done].
    + intros (r & Hr & ? & ?). right. exists r. split; [by apply session_concat|done].
Qed.

(** ** Whole-file locks *)

Section flock_image.
Variable ofc : Z → Z → bool.
Variable ign : bool.

Definition flock_storable (inode : Z) (l : lock) : Prop :=
  is_u64 (l_owner l) ∧ is_u32 (l_sessionid l) ∧ is_u8 (l_ltype l) ∧ ofc (l_sessionid l) inode = true.

(** A stored lock as it is loaded: without a connection. *)
Definition reloaded (l : lock) : lock := mk_lock (l_owner l) 0 (l_sessionid l) STATE_ACTIVE (l_ltype l) [].

(** [t'] is [t] with the record [il] added or replaced. *)
Definition flock_upd (t : flock_tab) (il : flocks) (t' : flock_tab) : Prop :=
  tab_wf t' ∧ ∀ j, tab_find j t' = if fl_inode il =? j then Some il else tab_find j t.

Lemma flock_load_one inode l acc t t0 :
  0 < inode < 2 ^ 32 → flock_storable inode l → tab_wf t →
  (acc = [] ∧ tab_find inode t = None ∨ Forall reader (l :: acc) ∧ tab_find inode t = Some (mk_flocks inode acc [])) →
  (∀ j, j ≠ inode → tab_find j t = tab_find j t0) →
  ∃ t', flock_load_record ofc ign (flock_record inode l) t = More t' ∧
    flock_upd t0 (mk_flocks inode (reloaded l :: acc) []) t'.
Proof.
  unfold flock_storable, is_u64, is_u32, is_u8. intros Hi (Ho & Hs & Hty & Hofc) Hwf Hacc Hfr.
  unfold flock_load_record, flock_record.
  rewrite get32_put32. cbn [mbind option_bind]. rewrite get64_put64. cbn [mbind option_bind].
  rewrite get32_put32. cbn [mbind option_bind]. rewrite <-(app_nil_r (put8bit _ _)), get8_put8.
  cbn [mbind option_bind]. rewrite !Z.mod_small by lia.
  destruct (Z.eqb_spec inode 0); [lia|]. cbn [andb]. rewrite Hofc. cbn [negb].
  unfold flock_inode_find, flock_inode_new. destruct Hacc as [[-> Hf]|[Hrd Hf]]; rewrite Hf; cbn [fl_active is_nil negb andb].
  - eexists. split; [done|]. assert (tab_wf (tab_add (mk_flocks inode [] []) t)) by (by apply tab_wf_add).
    split; [by apply tab_wf_set|]. intros j. rewrite tab_find_set by done. cbn [fl_inode].
    case_if; rewrite tab_find_add by done; simpl; case_if; try done. by rewrite Hfr.
  - assert ((negb (is_nil acc) && (head_is LTYPE_WRITER acc || (l_ltype l =? LTYPE_WRITER)))%bool = false) as ->.
    { inversion Hrd as [|? ? Hl Hacc]; subst. unfold reader in Hl. rewrite Hl.
      destruct Hacc as [|l' acc' Hl']; [done|]. simpl. unfold reader in Hl'. by rewrite Hl'. }
    eexists. split; [done|]. split; [by apply tab_wf_set|]. intros j. rewrite tab_find_set by done. cbn [fl_inode].
    case_if; [subst; by rewrite Hf|]. by rewrite Hfr.
Qed.

Lemma flock_load_rest inode ls acc t t0 :
  0 < inode < 2 ^ 32 → Forall (flock_storable inode) ls → Forall reader (ls ++ acc) →
  flock_upd t0 (mk_flocks inode acc []) t →
  ∃ t', load_run (flock_load_record ofc ign) (flock_record inode <$> ls) t = Some t' ∧
    flock_upd t0 (mk_flocks inode (reverse (reloaded <$> ls) ++ acc) []) t'.
Proof.
  intros Hi Hls. revert acc t. induction Hls as [|l ls Hl Hls IH]; intros acc t Hrd [Hwf Hf]; csimpl; [by eexists|].
  apply Forall_cons in Hrd as [Hr Hrd]. rewrite Forall_app in Hrd. destruct Hrd as [Hrls Hracc].
  destruct (flock_load_one inode l acc t t0) as (t1 & -> & Hupd); [done|done|done| |..].
  { right. split; [by constructor|]. rewrite Hf. simpl. by rewrite Z.eqb_refl. }
  { intros j Hj. rewrite Hf. simpl. case_if; congruence. }
  destruct (IH (reloaded l :: acc) t1) as (t' & -> & Hupd'); [|done|].
  { apply Forall_app. split; [done|]. by constructor. }
  exists t'. split; [done|]. by rewrite reverse_cons, <-app_assoc.
Qed.

(** One inode. *)
Lemma flock_load_inode il t :
  0 < fl_inode il < 2 ^ 32 → Forall (flock_storable (fl_inode il)) (fl_active il) →
  shared_or_single (fl_active il) → fl_active il ≠ [] → tab_wf t → tab_find (fl_inode il) t = None →
  ∃ t', load_run (flock_load_record ofc ign) (flock_record (fl_inode il) <$> fl_active il) t = Some t' ∧
    flock_upd t (mk_flocks (fl_inode il) (reverse (reloaded <$> fl_active il)) []) t'.
Proof.
  intros Hi Hst Hsh Hne Hwf Hf. destruct (fl_active il) as [|l ls]; [done|]. csimpl.
  apply Forall_cons in Hst as [Hl Hls].
  destruct (flock_load_one (fl_inode il) l [] t t) as (t1 & -> & Hupd); [done|done|done|by left|done|].
  rewrite reverse_cons. destruct ls as [|l' ls]; [by eexists|].
  assert (Forall reader (l :: l' :: ls)) as Hrd by (destruct Hsh as [|[? ?]]; done).
  apply flock_load_rest; [done|done| |done]. inversion Hrd; subst. apply Forall_app. by split; [|repeat constructor].
Qed.

(** All of them. *)
Lemma flock_load_run ils t :
  Forall (λ il, 0 < fl_inode il < 2 ^ 32 ∧ Forall (flock_storable (fl_inode il)) (fl_active il) ∧
    shared_or_single (fl_active il) ∧ fl_active il ≠ []) ils →
  NoDup (hk_key <$> ils) → tab_wf t → Forall (λ il, tab_find (fl_inode il) t = None) ils →
  ∃ t', load_run (flock_load_record ofc ign) (concat ((λ il, flock_record (fl_inode il) <$> fl_active il) <$> ils)) t = Some t' ∧
    tab_wf t' ∧ ∀ j, tab_find j t' = match chain_find j ils with
      | Some il => Some (mk_flocks j (reverse (reloaded <$> fl_active il)) [])
      | None => tab_find j t end.
Proof.
  intros Hils. revert t. induction Hils as [|il ils (Hi & Hst & Hsh & Hne) Hils IH]; intros t Hnd Hwf Hno;
    csimpl; [by eexists|].
  apply NoDup_cons in Hnd as [Hni Hnd]. apply Forall_cons in Hno as [Hf Hno].
  rewrite load_run_app. destruct (flock_load_inode il t) as (t1 & -> & Hwf1 & Hf1); [done..|]. cbn [mbind option_bind].
  destruct (IH t1) as (t' & -> & Hwf' & Hf'); [done|done| |].
  { rewrite Forall_forall in Hno |- *. intros il' Hin. rewrite Hf1. cbn [fl_inode]. case_if; [|by apply Hno].
    exfalso. apply Hni. apply list_elem_of_fmap. by exists il'. }
  exists t'. split; [done|]. split; [done|]. intros j. rewrite Hf', Hf1. simpl. case_if; [|done].
  subst j. rewrite (proj2 (chain_find_None _ ils)) by done. done.
Qed.

End flock_image.

Lemma flock_end_record ofc ign t : flock_load_record ofc ign (replicate FLOCK_REC_SIZE 0) t = Done t.
Proof. unfold flock_load_record. by destruct bld. Qed.

Lemma concat_concat_fmap {A} (f : A → list (list Z)) (l : list A) :
  concat ((λ x, concat (f x)) <$> l) = concat (concat (f <$> l)).
Proof. induction l as [|x l IH]; csimpl; [done|]. by rewrite concat_app, IH. Qed.

Lemma flock_store_load ofc ign t rest :
  flock_inv t →
  (∀ inode il, tab_find inode t = Some il →
     0 < inode < 2 ^ 32 ∧ Forall (flock_storable ofc inode) (fl_active il)) →
  ∃ t', flock_load ofc 0x10 ign (flock_store t ++ rest) tab_empty = Some (0, t', rest) ∧ tab_wf t' ∧
    ∀ j, tab_find j t' =
      (λ il, mk_flocks j (reverse (reloaded <$> fl_active il)) []) <$> tab_find j t.
Proof.
  intros [Hwf Hall] Hst. unfold flock_load, flock_store. simpl negb. cbv iota. rewrite <-app_assoc.
  destruct (flock_load_run ofc ign (tab_all t) tab_empty) as (t' & Hrun & Hwf' & Hf').
  - apply Forall_forall. intros il Hin.
    assert (tab_find (fl_inode il) t = Some il) as Hf by (by apply tab_find_all).
    destruct (Hst _ _ Hf) as [? ?]. destruct (Hall _ _ Hf) as [[Hex _ _] Hne]. done.
  - by apply tab_all_nodup.
  - apply tab_empty_wf.
  - apply Forall_forall. intros. apply tab_find_empty.
  - exists t'. split; [|split; [done|]].
    + rewrite concat_concat_fmap.
      apply load_loop_run; [|done|unfold FLOCK_REC_SIZE; lia|exact Hrun|apply flock_end_record|lia].
      apply Forall_concat, Forall_fmap, Forall_forall. intros il _. apply Forall_fmap, Forall_forall. intros l _.
      simpl. unfold flock_record. by rewrite !length_app, !put32bit_be, put64bit_be, put8bit_be, !length_be_bytes.
    + intros j. rewrite Hf', tab_all_find, tab_find_empty by done. by destruct (tab_find j t).
Qed.

(** ** POSIX locks *)

Section posix_image.
Variable ofc : Z → Z → bool.
Variable ign : bool.

Definition posix_storable (inode : Z) (al : alock) : Prop :=
  is_u64 (al_owner al) ∧ is_u32 (al_sessionid al) ∧ is_u32 (al_pid al) ∧ ofc (al_sessionid al) inode = true.

Definition fields_of (inode : Z) (al : alock) (r : range) : posix_fields :=
  mk_posix_fields inode (al_owner al) (al_sessionid al) (al_pid al) (r_start r) (r_end r) (r_type r).

Lemma read_posix_record_ok inode al r :
  is_u32 inode → posix_storable inode al → range_u64 r → r_start r < r_end r → lock_type (r_type r) →
  read_posix_record (posix_record inode al r) = Some (fields_of inode al r).
Proof.
  unfold is_u32, is_u64, range_u64, posix_storable, is_u64, is_u32.
  intros Hi (Ho & Hs & Hp & _) Hr Hse Hty.
  unfold read_posix_record, posix_record. do 7
    (rewrite ?get32_put32, ?get64_put64; cbn [mbind option_bind]).
  rewrite <-(app_nil_r (put8bit _ _)), get8_put8. cbn [mbind option_bind].
  unfold UINT64_MAX in Hr. rewrite !Z.mod_small by (unfold lock_type, POSIX_LOCK_RDLCK, POSIX_LOCK_WRLCK in *; lia).
  done.
Qed.

(** The loop is at the inode: its record has the active locks [A]. *)
Record on_inode (st : load_state) (inode : Z) (A : list alock) (t0 : posix_tab) : Prop := {
  on_fino : ls_fino st = false;
  on_last : ls_lastinode st = inode;
  on_wf : tab_wf (ls_tab st);
  on_find : ∀ j, tab_find j (ls_tab st) =
    if inode =? j then Some (mk_inodelocks inode A []) else tab_find j t0 }.

Lemma on_inode_update st inode A t0 f :
  on_inode st inode A t0 →
  tab_wf (update_active inode f (ls_tab st)) ∧
  ∀ j, tab_find j (update_active inode f (ls_tab st)) =
    if inode =? j then Some (mk_inodelocks inode (f A) []) else tab_find j t0.
Proof.
  intros [_ _ Hwf Hf]. unfold update_active. rewrite Hf, Z.eqb_refl. cbn [il_inode il_active il_waiting].
  split; [by apply tab_wf_set|]. intros j. rewrite tab_find_set, Hf by done. by case_if.
Qed.

Lemma load_inode_new f st t0 :
  tab_wf (ls_tab st) → (∀ j, tab_find j (ls_tab st) = tab_find j t0) → tab_find (pf_inode f) t0 = None →
  pf_inode f ≠ ls_lastinode st ∨ ls_fino st = true →
  on_inode (load_inode f st) (pf_inode f) [] t0 ∧ ls_fses (load_inode f st) = true ∧ ls_head (load_inode f st) = true.
Proof.
  intros Hwf Hsame Hf Hnew. unfold load_inode, posix_lock_inode_find, posix_lock_inode_new.
  destruct (negb (pf_inode f =? ls_lastinode st) || ls_fino st)%bool eqn:Hc.
  2:{ zbool. destruct Hnew; congruence. }
  rewrite Hsame, Hf. simpl. split; [|done]. split; simpl; [done|done|..].
  - apply tab_wf_add; [done|]. simpl. by rewrite Hsame.
  - intros j. rewrite tab_find_add by done. simpl. by rewrite Hsame.
Qed.

Lemma load_inode_same f st A t0 : on_inode st (pf_inode f) A t0 → load_inode f st = st.
Proof. intros [Hfi Hl _ _]. unfold load_inode. by rewrite Hfi, Hl, Z.eqb_refl. Qed.

Lemma load_owner_new f st A t0 inode :
  on_inode st inode A t0 → (ls_head st = true → A = []) →
  ls_fses st = true ∨ (pf_sessionid f, pf_owner f) ≠ (ls_lastsessionid st, ls_lastowner st) →
  let st' := load_owner f st in
  on_inode st' inode (A ++ [mk_alock (pf_owner f) (pf_sessionid f) (pf_pid f) []]) t0 ∧
  ls_fses st' = false ∧ ls_head st' = false ∧ ls_lasttype st' = POSIX_LOCK_UNLCK ∧
  (ls_lastsessionid st', ls_lastowner st') = (pf_sessionid f, pf_owner f).
Proof.
  intros Hon Hhd Hnew. unfold load_owner.
  destruct (negb (pf_sessionid f =? ls_lastsessionid st) || (negb (pf_owner f =? ls_lastowner st) || ls_fses st))%bool eqn:Hc.
  2:{ zbool. destruct Hnew; congruence. }
  simpl. split; [|done]. pose proof (on_last _ _ _ _ Hon) as Hl. rewrite Hl.
  destruct (on_inode_update st inode A t0 (attach_alock (ls_head st)
    (mk_alock (pf_owner f) (pf_sessionid f) (pf_pid f) [])) Hon) as [Hwf Hf].
  split; simpl; [apply Hon|done|done|]. intros j. rewrite Hf. case_if; [|done].
  unfold attach_alock. destruct (ls_head st); [by rewrite Hhd|done].
Qed.

Lemma load_owner_same f st :
  ls_fses st = false → (pf_sessionid f, pf_owner f) = (ls_lastsessionid st, ls_lastowner st) →
  load_owner f st = st.
Proof. intros Hf [= Hs Ho]. unfold load_owner. by rewrite Hf, Hs, Ho, !Z.eqb_refl. Qed.

Lemma attach_range_last r A al :
  attach_range r (A ++ [al]) = A ++ [mk_alock (al_owner al) (al_sessionid al) (al_pid al) (al_ranges al ++ [r])].
Proof.
  induction A as [|al' A IH]; [done|]. cbn [app]. destruct (A ++ [al]) eqn:HA; [by destruct A|].
  cbn [attach_range]. rewrite <-IH. done.
Qed.

Lemma load_range_on f st inode A al t0 :
  on_inode st inode (A ++ [al]) t0 →
  on_inode (load_range f st) inode
    (A ++ [mk_alock (al_owner al) (al_sessionid al) (al_pid al) (al_ranges al ++ [mk_range (pf_start f) (pf_end f) (pf_type f)])]) t0.
Proof.
  intros Hon. pose proof (on_last _ _ _ _ Hon) as Hl.
  destruct (on_inode_update st inode _ t0 (attach_range (mk_range (pf_start f) (pf_end f) (pf_type f))) Hon) as [Hwf Hf].
  split; simpl; [apply Hon|done|by rewrite Hl|]. intros j. rewrite Hl, Hf, attach_range_last. done.
Qed.

Lemma range_eta r : mk_range (r_start r) (r_end r) (r_type r) = r.
Proof. by destruct r. Qed.

(** The state after the records of one lock. *)
Record after_alock (st : load_state) (inode : Z) (al : alock) : Prop := {
  aa_fses : ls_fses st = false; aa_head : ls_head st = false;
  aa_last : (ls_lastsessionid st, ls_lastowner st) = al_key al }.

Lemma not_end_record inode al r :
  0 < inode → ((pf_inode (fields_of inode al r) =? 0) && ((pf_owner (fields_of inode al r) =? 0) &&
    (pf_sessionid (fields_of inode al r) =? 0)))%bool = false.
Proof. intros Hi. simpl. destruct (Z.eqb_spec inode 0); [lia|done]. Qed.

(** The further ranges of a lock. *)
Lemma load_ranges_rest inode s o pid rs rs' st A t0 :
  0 < inode < 2 ^ 32 → posix_storable inode (mk_alock o s pid []) →
  ranges_from (ls_lastend st) (ls_lasttype st) rs' → Forall range_u64 rs' → lock_type (ls_lasttype st) →
  on_inode st inode (A ++ [mk_alock o s pid rs]) t0 → after_alock st inode (mk_alock o s pid []) →
  ∃ st', load_run (posix_load_record ofc ign) (posix_record inode (mk_alock o s pid []) <$> rs') st = Some st' ∧
    on_inode st' inode (A ++ [mk_alock o s pid (rs ++ rs')]) t0 ∧ after_alock st' inode (mk_alock o s pid []).
Proof.
  intros Hi Hst. revert rs st. induction rs' as [|r rs' IH]; intros rs st Hfrom Hu Hlt Hon Haa; csimpl.
  { eexists. rewrite app_nil_r. done. }
  destruct Hfrom as (Hlo & Hne & Hse & Hty & Hfrom). apply Forall_cons in Hu as [Hur Hu].
  unfold posix_load_record at 1. rewrite read_posix_record_ok by (done || (unfold is_u32; lia)).
  rewrite not_end_record by lia. destruct Haa as [Hfs Hhd Hlast].
  rewrite (load_inode_same (fields_of inode (mk_alock o s pid []) r) st _ _ Hon), load_owner_same by (done || by symmetry).
  destruct Hst as (_ & _ & _ & Hofc). cbn [fields_of pf_inode pf_sessionid] in *.
  cbn [al_sessionid] in *. rewrite Hofc, andb_false_r.
  destruct (Z.ltb_spec (pf_start (fields_of inode (mk_alock o s pid []) r)) (ls_lastend st)) as [Hlt'|_]; simpl in *; [lia|].
  rewrite andb_false_r. destruct ((r_type r =? ls_lasttype st) && (r_start r =? ls_lastend st))%bool eqn:Hc.
  { zbool. exfalso. apply Hne; lia. }
  rewrite andb_false_r. set (st1 := load_range _ st).
  assert (on_inode st1 inode (A ++ [mk_alock o s pid (rs ++ [r])]) t0) as Hon1.
  { pose proof (load_range_on (fields_of inode (mk_alock o s pid []) r) st inode A _ t0 Hon) as H1.
    simpl in H1. by rewrite range_eta in H1. }
  destruct (IH (rs ++ [r]) st1) as (st' & -> & Hon' & Haa'); [done|done|done|done|by split|].
  exists st'. split; [done|]. by rewrite <-app_assoc in Hon'.
Qed.

(** All ranges of a lock: the loop is about to meet a new owner. *)
Lemma load_alock inode al st st0 A t0 :
  0 < inode < 2 ^ 32 → posix_storable inode al → alock_wf al →
  (∀ f, pf_inode f = inode → load_inode f st = st0) → on_inode st0 inode A t0 →
  (ls_head st0 = true → A = []) →
  ls_fses st0 = true ∨ al_key al ≠ (ls_lastsessionid st0, ls_lastowner st0) →
  ∃ st', load_run (posix_load_record ofc ign) (posix_record inode al <$> al_ranges al) st = Some st' ∧
    on_inode st' inode (A ++ [al]) t0 ∧ after_alock st' inode al.
Proof.
  intros Hi Hst (Hwf & Hu & Hne) Hst0 Hon Hhd Hnew. destruct al as [o s pid [|r rs]]; [done|].
  cbn [al_ranges] in *. csimpl. destruct Hwf as (_ & _ & Hse & Hty & Hfrom). apply Forall_cons in Hu as [Hur Hu].
  unfold posix_load_record at 1. rewrite read_posix_record_ok by (done || (unfold is_u32; lia)).
  rewrite not_end_record by lia. pose proof Hst as (_ & _ & _ & Hofc).
  cbn [al_sessionid] in Hofc. set (f := fields_of inode (mk_alock o s pid (r :: rs)) r).
  change (pf_inode f) with inode. change (pf_sessionid f) with s. rewrite Hofc, andb_false_r.
  rewrite Hst0 by done.
  destruct (load_owner_new f st0 A t0 inode Hon Hhd) as (Hon1 & Hfs1 & Hhd1 & Hlt1 & Hk1); [by destruct Hnew; auto|].
  rewrite Hlt1. cbn [Z.eqb negb andb POSIX_LOCK_UNLCK]. set (st1 := load_range f (load_owner f st0)).
  pose proof (load_range_on f _ inode A _ t0 Hon1) as Hon2. fold st1 in Hon2. simpl in Hon2.
  destruct (load_ranges_rest inode s o pid [r] rs st1 A t0) as (st' & Hrun & Hon' & Haa'); try done.
  { by rewrite range_eta in Hon2. }
  exists st'. split; [exact Hrun|]. split; [done|]. destruct Haa' as [? ? Hk]. by split.
Qed.

Definition alock_records (inode : Z) (al : alock) : list (list Z) := posix_record inode al <$> al_ranges al.

(** The further locks of an inode. *)
Lemma load_alocks inode als st A al0 t0 :
  0 < inode < 2 ^ 32 → Forall (λ al, posix_storable inode al ∧ alock_wf al) als →
  NoDup (al_key <$> al0 :: als) → on_inode st inode A t0 → after_alock st inode al0 →
  ∃ st', load_run (posix_load_record ofc ign) (concat (alock_records inode <$> als)) st = Some st' ∧
    on_inode st' inode (A ++ als) t0.
Proof.
  intros Hi Hals. revert st A al0. induction Hals as [|al als [Hst Hal] Hals IH]; intros st A al0 Hnd Hon Haa; csimpl.
  { eexists. by rewrite app_nil_r. }
  csimpl in Hnd. apply NoDup_cons in Hnd as [Hni Hnd]. rewrite not_elem_of_cons in Hni. destruct Hni as [Hne _].
  destruct (load_alock inode al st st A t0) as (st1 & Hrun & Hon1 & Haa1); try done.
  { intros f <-. by eapply load_inode_same. }
  { by rewrite (aa_head _ _ _ Haa). }
  { right. rewrite (aa_last _ _ _ Haa). done. }
  rewrite load_run_app. fold (alock_records inode al) in Hrun. rewrite Hrun. cbn [mbind option_bind].
  destruct (IH st1 (A ++ [al]) al) as (st' & -> & Hon'); [done..|]. exists st'. by rewrite <-app_assoc in Hon'.
Qed.

(** One inode. *)
Lemma load_il il st t0 :
  0 < il_inode il < 2 ^ 32 → Forall (λ al, posix_storable (il_inode il) al ∧ alock_wf al) (il_active il) →
  NoDup (al_key <$> il_active il) → il_active il ≠ [] →
  tab_wf (ls_tab st) → (∀ j, tab_find j (ls_tab st) = tab_find j t0) → tab_find (il_inode il) t0 = None →
  il_inode il ≠ ls_lastinode st ∨ ls_fino st = true →
  ∃ st', load_run (posix_load_record ofc ign) (concat (alock_records (il_inode il) <$> il_active il)) st = Some st' ∧
    on_inode st' (il_inode il) (il_active il) t0.
Proof.
  intros Hi Hals Hnd Hne Hwf Hsame Hf Hnew. destruct (il_active il) as [|al als]; [done|]. csimpl.
  apply Forall_cons in Hals as [[Hst Hal] Hals].
  set (f0 := mk_posix_fields (il_inode il) 0 0 0 0 0 0).
  destruct (load_inode_new f0 st t0 Hwf Hsame Hf Hnew) as (Hon & Hfs & Hhd).
  destruct (load_alock (il_inode il) al st (load_inode f0 st) [] t0) as (st1 & Hrun & Hon1 & Haa1); try done.
  { intros f Hfi. unfold load_inode. by rewrite Hfi. }
  { by left. }
  rewrite load_run_app. fold (alock_records (il_inode il) al) in Hrun. rewrite Hrun. cbn [mbind option_bind].
  destruct (load_alocks (il_inode il) als st1 [al] al t0) as (st' & -> & Hon'); [done..|]. by exists st'.
Qed.

(** All of them. *)
Lemma posix_load_run ils st :
  Forall (λ il, 0 < il_inode il < 2 ^ 32 ∧ Forall (posix_storable (il_inode il)) (il_active il) ∧ il_ok il) ils →
  NoDup (hk_key <$> ils) → tab_wf (ls_tab st) → Forall (λ il, tab_find (il_inode il) (ls_tab st) = None) ils →
  ls_fino st = true ∨ (ls_lastinode st ∉ il_inode <$> ils) →
  ∃ st', load_run (posix_load_record ofc ign)
      (concat ((λ il, concat (alock_records (il_inode il) <$> il_active il)) <$> ils)) st = Some st' ∧
    tab_wf (ls_tab st') ∧ ∀ j, tab_find j (ls_tab st') = match chain_find j ils with
      | Some il => Some (mk_inodelocks j (il_active il) [])
      | None => tab_find j (ls_tab st) end.
Proof.
  intros Hils. revert st.
  induction Hils as [|il ils (Hi & Hst & [[[Hndk Hwfa] _ _] Hne]) Hils IH]; intros st Hnd Hwf Hno Hlast; csimpl.
  { by eexists. }
  apply NoDup_cons in Hnd as [Hni Hnd]. apply Forall_cons in Hno as [Hf Hno].
  rewrite load_run_app. destruct (load_il il st (ls_tab st)) as (st1 & -> & Hon); try done.
  { by apply Forall_and. }
  { destruct Hlast as [?|Hl]; [by right|left]. csimpl in Hl. rewrite not_elem_of_cons in Hl. destruct Hl. congruence. }
  cbn [mbind option_bind]. pose proof Hon as [Hfi Hla Hwf1 Hf1].
  destruct (IH st1) as (st' & -> & Hwf' & Hf'); [done|done| |by right; rewrite Hla|].
  { rewrite Forall_forall in Hno |- *. intros il' Hin. rewrite Hf1. case_if; [|by apply Hno].
    exfalso. apply Hni. apply list_elem_of_fmap. by exists il'. }
  exists st'. split; [done|]. split; [done|]. intros j. rewrite Hf', Hf1. simpl. case_if; [|done].
  subst j. by rewrite (proj2 (chain_find_None _ ils)).
Qed.

End posix_image.

Lemma posix_end_record ofc ign st : posix_load_record ofc ign (replicate POSIX_LOCK_REC_SIZE 0) st = Done st.
Proof. unfold posix_load_record, read_posix_record. by destruct bld. Qed.

Lemma posix_store_load ofc ign t rest :
  posix_inv t →
  (∀ inode il, tab_find inode t = Some il →
     0 < inode < 2 ^ 32 ∧ Forall (posix_storable ofc inode) (il_active il)) →
  ∃ t', posix_lock_load ofc 0x10 ign (posix_lock_store t ++ rest) tab_empty = Some (0, t', rest) ∧ tab_wf t' ∧
    ∀ j, tab_find j t' = (λ il, mk_inodelocks j (il_active il) []) <$> tab_find j t.
Proof.
  intros [Hwf Hall] Hst. unfold posix_lock_load, posix_lock_store. simpl negb. cbv iota. rewrite <-app_assoc.
  destruct (posix_load_run ofc ign (tab_all t) (mk_load_state true true 0 0 0 0 0 true tab_empty))
    as (st' & Hrun & Hwf' & Hf').
  - apply Forall_forall. intros il Hin.
    assert (tab_find (il_inode il) t = Some il) as Hf by (by apply tab_find_all).
    destruct (Hst _ _ Hf) as [? ?]. split; [done|]. split; [done|]. by eapply Hall.
  - by apply tab_all_nodup.
  - apply tab_empty_wf.
  - apply Forall_forall. intros. apply tab_find_empty.
  - by left.
  - exists (ls_tab st'). split; [|split; [done|]].
    + assert (concat ((λ il, concat ((λ al, concat (posix_record (il_inode il) al <$> al_ranges al)) <$> il_active il)) <$> tab_all t)
        = concat (concat ((λ il, concat (alock_records (il_inode il) <$> il_active il)) <$> tab_all t))) as ->.
      { rewrite <-concat_concat_fmap. f_equal. apply list_fmap_ext. intros _ il _.
        by rewrite <-concat_concat_fmap. }
      rewrite (load_loop_run POSIX_LOCK_REC_SIZE _ _ _ _ _ _ st'); [done| |done|unfold POSIX_LOCK_REC_SIZE; lia|
        exact Hrun|apply posix_end_record|lia].
      apply Forall_concat, Forall_fmap, Forall_forall. intros il _. simpl.
      apply Forall_concat, Forall_fmap, Forall_forall. intros al _. apply Forall_fmap, Forall_forall. intros r _. simpl.
      unfold posix_record. by rewrite !length_app, !put32bit_be, !put64bit_be, put8bit_be, !length_be_bytes.
    + intros j. rewrite Hf', tab_all_find by done. cbn [ls_tab]. rewrite tab_find_empty. by destruct (tab_find j t).
Qed.

End image.
