(* ===== verification/PosixProps.v ===== *)
(** * What the POSIX lock commands do

    The theorems about [posixlocks.c] proper: the update of an owner's ranges, the
    status of every command, the answer of a query, the waking of the queue, the
    release at close, and that no waiting request is lost. *)

From S2P Require Import Prelude MfsComm HashChain Changelog PosixRanges PosixLocks PosixReplay LockSessions.

(** ** A concrete table

    Two sessions lock parts of inode 7: owner (1,10) writes bytes 0..99, owner
    (2,20) reads bytes 100..199; the table is what the commands leave. *)

Definition all_open (sessionid inode : Z) : bool := true.

(** A command of owner [o] of session [s], through connection [s]. *)
Definition cmd_table (s o op type start end_ : Z) (t : posix_tab) : posix_tab :=
  match posix_lock_cmd all_open 0 s s 1 1 7 o op type start end_ 0 t with
  | Some (t', _, _) => t' | None => t end.

Definition ex_tab : posix_tab :=
  cmd_table 2 20 POSIX_LOCK_CMD_TRY POSIX_LOCK_RDLCK 100 200
    (cmd_table 1 10 POSIX_LOCK_CMD_TRY POSIX_LOCK_WRLCK 0 100 tab_empty).

(** The same with a waiting request: (3,30) wants to write bytes 50..149. *)
Definition ex_tab_waiting : posix_tab :=
  cmd_table 3 30 POSIX_LOCK_CMD_SET POSIX_LOCK_WRLCK 50 150 ex_tab.

Lemma cmd_table_inv s o op type start end_ t :
  posix_inv t → cmd_args_ok type start end_ → posix_inv (cmd_table s o op type start end_ t).
Proof.
  intros Hinv Hargs. unfold cmd_table.
  destruct (cmd_inv all_open 0 s s 1 1 7 o op type start end_ 0 t Hinv Hargs) as (t' & rp & evs & -> & Hinv'). done.
Qed.

Ltac args_ok :=
  split; [first [by left | by right; left | by right; right] | unfold valid_span, UINT64_MAX; lia].

Lemma ex_tab_inv : posix_inv ex_tab.
Proof. apply cmd_table_inv; [apply cmd_table_inv; [apply posix_inv_empty|args_ok]|args_ok]. Qed.

Lemma ex_tab_waiting_inv : posix_inv ex_tab_waiting.
Proof. apply cmd_table_inv; [apply ex_tab_inv|args_ok]. Qed.

(** ** Ranges *)

(** C16: setting a range of an owner to a type changes the lock type of exactly
    the bytes of that range; the list of ranges stays sorted, disjoint and
    coalesced, and it is the only such list that describes the resulting locks. *)
Theorem apply_range_spec rs type start end_ :
  ranges_wf rs → valid_update type start end_ → 0 ≤ start →
  ranges_wf (posix_lock_apply_range rs type start end_) ∧
  (∀ x, type_at (posix_lock_apply_range rs type start end_) x =
        if (start <=? x) && (x <? end_) then type else type_at rs x) ∧
  (∀ rs', ranges_wf rs' →
     (∀ x, type_at rs' x = if (start <=? x) && (x <? end_) then type else type_at rs x) →
     rs' = posix_lock_apply_range rs type start end_).
Proof.
  intros Hwf Hv Hs.
  assert (ranges_wf (posix_lock_apply_range rs type start end_)) as Hwf'
    by (apply apply_range_from; [done|done|lia|lia]).
  assert (∀ x, type_at (posix_lock_apply_range rs type start end_) x =
    if (start <=? x) && (x <? end_) then type else type_at rs x) as Hat
    by (intros x; eapply apply_range_type_at; [done|apply Hv]).
  split; [done|]. split; [done|]. intros rs' Hrs' Heq.
  eapply ranges_canonical; [done|done|]. intros x. by rewrite Heq, Hat.
Qed.

Lemma apply_range_spec_witness :
  posix_lock_apply_range [mk_range 0 10 POSIX_LOCK_WRLCK; mk_range 10 20 POSIX_LOCK_RDLCK] POSIX_LOCK_UNLCK 5 15
    = [mk_range 0 5 POSIX_LOCK_WRLCK; mk_range 15 20 POSIX_LOCK_RDLCK] ∧
  ranges_wf (posix_lock_apply_range [mk_range 0 10 POSIX_LOCK_WRLCK; mk_range 10 20 POSIX_LOCK_RDLCK] POSIX_LOCK_UNLCK 5 15).
Proof.
  split; [reflexivity|].
  apply (apply_range_spec [mk_range 0 10 POSIX_LOCK_WRLCK; mk_range 10 20 POSIX_LOCK_RDLCK] POSIX_LOCK_UNLCK 5 15);
    [|split; [by left|lia]|lia].
  repeat split; try (by left); try (by right); simpl; lia || discriminate.
Defined.

(** ** The invariant *)



(** ** Statuses *)

(** Another owner holds a conflicting lock on a byte of the range. *)
Definition conflicting (t : posix_tab) (inode s o type start end_ : Z) : Prop :=
  ∃ k x, k ≠ (s, o) ∧ start ≤ x < end_ ∧ conflict type (held (active_of t inode) k x).

Lemma active_of_wf t inode : posix_inv t → alocks_wf (active_of t inode).
Proof.
  intros [Hwf Hall]. unfold active_of.
  destruct (tab_find inode t) eqn:Hf; [by apply (Hall _ _ Hf)|by split; constructor].
Qed.

Lemma held_elem active al x : alocks_wf active → al ∈ active → held active (al_key al) x = type_at (al_ranges al) x.
Proof.
  induction active as [|al' active IH]; intros Hwf Hin; [by apply elem_of_nil in Hin|].
  apply alocks_wf_cons in Hwf as (Hni & _ & Hwf). simpl.
  apply elem_of_cons in Hin as [->|Hin]; [by rewrite decide_True|].
  rewrite decide_False; [auto|]. intros Heq. apply Hni. apply list_elem_of_fmap. by exists al.
Qed.

(** What the query finds: a range of another owner that overlaps and conflicts. *)
Lemma get_offensive_Some active s o type start end_ r pid :
  posix_lock_get_offensive_lock active s o type start end_ = Some (r, pid) →
  ∃ al, al ∈ active ∧ al_key al ≠ (s, o) ∧ r ∈ al_ranges al ∧
    (type = POSIX_LOCK_WRLCK ∨ r_type r = POSIX_LOCK_WRLCK) ∧ r_start r < end_ ∧ start < r_end r ∧
    pid = if s =? al_sessionid al then al_pid al else 0.
Proof.
  induction active as [|al active IH]; simpl; [done|]. rewrite key_test_neg.
  assert (posix_lock_get_offensive_lock active s o type start end_ = Some (r, pid) →
    ∃ al0, al0 ∈ al :: active ∧ al_key al0 ≠ (s, o) ∧ r ∈ al_ranges al0 ∧
    (type = POSIX_LOCK_WRLCK ∨ r_type r = POSIX_LOCK_WRLCK) ∧ r_start r < end_ ∧ start < r_end r ∧
    pid = if s =? al_sessionid al0 then al_pid al0 else 0) as IH'.
  { intros Heq. destruct (IH Heq) as (al0 & ? & ?). exists al0. split; [by constructor|done]. }
  case_if; [|done]. destruct (posix_lock_test_wlock _ _ _ _) as [r'|] eqn:Ht; [|done]. intros [= <- <-].
  apply test_wlock_Some in Ht as (? & ? & ? & ?). exists al. split; [constructor|done].
Qed.

Lemma get_offensive_conflict active s o type start end_ r pid :
  alocks_wf active → lock_type type → start < end_ →
  posix_lock_get_offensive_lock active s o type start end_ = Some (r, pid) →
  ∃ k x, k ≠ (s, o) ∧ start ≤ x < end_ ∧ in_range x r = true ∧ held active k x = r_type r ∧ conflict type (r_type r).
Proof.
  intros Hwf Hty Hse (al & Hin & Hk & Hr & Hc & ? & ? & _)%get_offensive_Some.
  assert (alock_wf al) as (Hrs & _ & _) by (destruct Hwf as [_ Hwf]; rewrite Forall_forall in Hwf; auto).
  destruct (ranges_elem _ _ _ _ Hrs Hr) as (_ & ? & Hrt).
  assert (in_range (Z.max start (r_start r)) r = true) as Hx by (unfold in_range; lia).
  exists (al_key al), (Z.max start (r_start r)). split; [done|]. split; [lia|]. split; [done|].
  rewrite held_elem by done. rewrite (type_at_elem _ _ _ _ _ Hrs Hr Hx). done.
Qed.

Lemma offensive_conflicting t inode s o type start end_ :
  posix_inv t → lock_type type → start < end_ →
  posix_lock_find_offensive_lock (active_of t inode) s o type start end_ = true ↔
  conflicting t inode s o type start end_.
Proof.
  intros Hinv Ht Hse. pose proof (active_of_wf t inode Hinv) as Ha. split.
  - intros [[r pid] Hg]%get_offensive_find.
    destruct (get_offensive_conflict _ _ _ _ _ _ _ _ Ha Ht Hse Hg) as (k & x & ? & ? & _ & Hh & Hc).
    exists k, x. by rewrite Hh.
  - intros (k & x & Hk & Hx & Hc). apply not_false_iff_true. intros Hf. revert Hc.
    by apply (find_offensive_false (active_of t inode) s o type start end_).
Qed.

(** The queue of an inode. *)
Definition waiting_of (t : posix_tab) (inode : Z) : list wlock :=
  match tab_find inode t with Some il => il_waiting il | None => [] end.

(** The outcome of a lock request, by its conflicts. *)
Lemma lock_request ofc now connptr s msgid reqid inode o op type start end_ pid t :
  posix_inv t → lock_type type → valid_span start end_ → ofc s inode = true →
  op = POSIX_LOCK_CMD_SET ∨ op = POSIX_LOCK_CMD_TRY →
  posix_lock_cmd ofc now connptr s msgid reqid inode o op type start end_ pid t =
  let reply status := mk_reply status type start end_ pid in
  if posix_lock_find_offensive_lock (active_of t inode) s o type start end_ then
    if op =? POSIX_LOCK_CMD_TRY then Some (t, reply MFS_ERROR_EAGAIN, [])
    else il ← tab_find inode t;
         Some (tab_set inode (posix_lock_append_lock il connptr s msgid reqid o type start end_ pid) t,
               reply MFS_ERROR_WAITING, [])
  else
    let '(il, t) := match tab_find inode t with Some il => (il, t) | None => posix_lock_inode_new inode t end in
    '(t', evs) ← apply_and_check now inode il s o type start end_ pid t;
    Some (t', reply MFS_STATUS_OK, evs).
Proof.
  intros Hinv Hty Hsp Hofc Hop. unfold posix_lock_cmd, posix_lock_inode_find, active_of. rewrite Hofc, andb_false_r.
  assert ((type =? POSIX_LOCK_UNLCK) = false) as Htn by (destruct Hty as [->| ->]; done).
  assert ((op =? POSIX_LOCK_CMD_INT) = false ∧ (op =? POSIX_LOCK_CMD_GET) = false) as [Hi Hg]
    by (destruct Hop as [->| ->]; done).
  rewrite Hi, Hg, Htn. cbn [negb andb].
  destruct (tab_find inode t) as [il|] eqn:Hf; [|done]. by destruct (posix_lock_find_offensive_lock _ _ _ _ _ _).
Qed.

(** The same for an unlock. *)
Lemma unlock_request ofc now connptr s msgid reqid inode o op start end_ pid t :
  op = POSIX_LOCK_CMD_SET ∨ op = POSIX_LOCK_CMD_TRY →
  posix_lock_cmd ofc now connptr s msgid reqid inode o op POSIX_LOCK_UNLCK start end_ pid t =
  match tab_find inode t with
  | None => Some (t, mk_reply MFS_STATUS_OK POSIX_LOCK_UNLCK start end_ pid, [])
  | Some il =>
      '(t', evs) ← apply_and_check now inode il s o POSIX_LOCK_UNLCK start end_ pid t;
      Some (t', mk_reply MFS_STATUS_OK POSIX_LOCK_UNLCK start end_ pid, evs)
  end.
Proof.
  intros Hop. unfold posix_lock_cmd, posix_lock_inode_find. rewrite Z.eqb_refl, andb_false_r.
  assert ((op =? POSIX_LOCK_CMD_INT) = false ∧ (op =? POSIX_LOCK_CMD_GET) = false) as [-> ->]
    by (destruct Hop as [->| ->]; done). done.
Qed.

(** A lock request on a file its session does not have open is refused;
    one that no other owner's lock conflicts with is granted and logged; one that
    conflicts is refused with [EAGAIN] when the client only tries, and joins the
    tail of the queue with [WAITING] when it waits.  A request that is not granted
    changes no active lock and logs nothing. *)
Theorem posix_lock_cmd_status ofc now connptr s msgid reqid inode o op type start end_ pid t t' rp evs :
  posix_inv t → lock_type type → valid_span start end_ →
  op = POSIX_LOCK_CMD_SET ∨ op = POSIX_LOCK_CMD_TRY →
  posix_lock_cmd ofc now connptr s msgid reqid inode o op type start end_ pid t = Some (t', rp, evs) →
  (ofc s inode = false → rp_status rp = MFS_ERROR_NOTOPENED ∧ t' = t ∧ evs = []) ∧
  (ofc s inode = true → ¬ conflicting t inode s o type start end_ →
     rp_status rp = MFS_STATUS_OK ∧
     ∃ evs', evs = Log (POSIXLOCK now inode s o (lock_char type) start end_ pid) :: evs') ∧
  (ofc s inode = true → conflicting t inode s o type start end_ →
     evs = [] ∧ (∀ j, active_of t' j = active_of t j) ∧
     rp_status rp = (if op =? POSIX_LOCK_CMD_TRY then MFS_ERROR_EAGAIN else MFS_ERROR_WAITING) ∧
     ∀ j, waiting_of t' j = if (j =? inode) && (op =? POSIX_LOCK_CMD_SET)
       then waiting_of t j ++ [mk_wlock o connptr s pid msgid reqid start end_ type] else waiting_of t j).
Proof.
  intros Hinv Hty Hsp Hop Hcmd. pose proof Hinv as [Hwf Hall]. split; [|split].
  - intros Hofc. unfold posix_lock_cmd in Hcmd. rewrite Hofc in Hcmd.
    assert (((op =? POSIX_LOCK_CMD_SET) || (op =? POSIX_LOCK_CMD_TRY)) && negb (type =? POSIX_LOCK_UNLCK) &&
      negb false = true)%bool as Hc by (destruct Hop as [->| ->], Hty as [->| ->]; done).
    rewrite Hc in Hcmd. by injection Hcmd as <- <- <-.
  - intros Hofc Hno. rewrite lock_request in Hcmd by done. cbv zeta in Hcmd.
    rewrite <-(offensive_conflicting _ _ _ _ _ _ _ Hinv Hty (proj1 (proj2 Hsp))) in Hno.
    apply not_true_iff_false in Hno. rewrite Hno in Hcmd.
    assert (∃ il t0, match tab_find inode t with Some il => (il, t) | None => posix_lock_inode_new inode t end = (il, t0)
      ∧ tab_wf t0 ∧ tab_find inode t0 = Some il) as (il & t0 & Heq & Hwf0 & Hf0).
    { destruct (tab_find inode t) as [il|] eqn:Hf; [by eauto|]. eexists _, _. split; [done|].
      split; [by apply tab_wf_add|]. rewrite tab_find_add by done. simpl. by rewrite Z.eqb_refl. }
    rewrite Heq in Hcmd.
    destruct (apply_and_check_spec now inode il s o type start end_ pid t0 Hwf0 Hf0) as (t1 & Happ & _).
    rewrite Happ in Hcmd. injection Hcmd as <- <- <-. split; [done|]. by eexists.
  - intros Hofc Hc. rewrite lock_request in Hcmd by done. cbv zeta in Hcmd.
    apply (offensive_conflicting _ _ _ _ _ _ _ Hinv Hty (proj1 (proj2 Hsp))) in Hc. rewrite Hc in Hcmd.
    destruct Hop as [->| ->]; cbn [Z.eqb POSIX_LOCK_CMD_SET POSIX_LOCK_CMD_TRY Pos.eqb] in *.
    + unfold active_of at 1 in Hc. destruct (tab_find inode t) as [il|] eqn:Hf; [|done].
      cbn [mbind option_bind] in Hcmd. injection Hcmd as <- <- <-. split; [done|].
      assert (∀ j, tab_find j (tab_set inode (posix_lock_append_lock il connptr s msgid reqid o type start end_ pid) t) =
        if inode =? j then Some (posix_lock_append_lock il connptr s msgid reqid o type start end_ pid) else tab_find j t) as Hset.
      { intros j. rewrite tab_find_set by (done || exact (tab_find_inode _ _ _ Hf)).
        case_if; [subst; by rewrite Hf|done]. }
      split; [|split; [done|]]; intros j.
      * unfold active_of. rewrite Hset. case_if; [subst; by rewrite Hf|done].
      * unfold waiting_of. rewrite Hset, andb_true_r, (Z.eqb_sym j). case_if; [subst; by rewrite Hf|done].
    + injection Hcmd as <- <- <-. repeat split; try done. intros j. by rewrite andb_false_r.
Qed.

Lemma posix_lock_cmd_status_witness :
  ∃ t' rp evs, posix_lock_cmd all_open 0 3 3 2 2 7 30 POSIX_LOCK_CMD_SET POSIX_LOCK_WRLCK 50 150 0 ex_tab = Some (t', rp, evs) ∧
    rp_status rp = MFS_ERROR_WAITING ∧ ∀ j, active_of t' j = active_of ex_tab j.
Proof.
  destruct (cmd_inv all_open 0 3 3 2 2 7 30 POSIX_LOCK_CMD_SET POSIX_LOCK_WRLCK 50 150 0 ex_tab ex_tab_inv)
    as (t' & rp & evs & Hcmd & _); [args_ok|].
  exists t', rp, evs. split; [done|].
  destruct (posix_lock_cmd_status all_open 0 3 3 2 2 7 30 POSIX_LOCK_CMD_SET POSIX_LOCK_WRLCK 50 150 0 ex_tab t' rp evs
    ex_tab_inv (or_intror eq_refl) ltac:(unfold valid_span, UINT64_MAX; lia) (or_introl eq_refl) Hcmd) as (_ & _ & Hc).
  destruct Hc as (_ & Hact & Hst & _); [reflexivity| |done].
  exists (1, 10), 60. split; [done|]. split; [lia|]. repeat split; [by right|vm_compute; by right|by left].
Defined.

(** ** A granted request *)

Lemma checked_no_queue now il :
  il_waiting il = [] → checked now il = if il_empty il then None else Some (mk_inodelocks (il_inode il) (il_active il) []).
Proof. intros Hw. unfold checked. rewrite Hw. by case_if. Qed.

Lemma apply_no_queue now inode il s o type start end_ pid t t' evs :
  tab_wf t → tab_find inode t = Some il → il_waiting il = [] → alocks_wf (il_active il) →
  valid_update type start end_ →
  apply_and_check now inode il s o type start end_ pid t = Some (t', evs) →
  (∀ k x, held (active_of t' inode) k x =
     if bool_decide (k = (s, o)) && ((start <=? x) && (x <? end_)) then type else held (il_active il) k x) ∧
  (∀ j, j ≠ inode → tab_find j t' = tab_find j t).
Proof.
  intros Hwf Hf Hw Ha Hv Heq.
  destruct (apply_and_check_spec now inode il s o type start end_ pid t Hwf Hf) as (t1 & Heq1 & _ & Hj).
  rewrite Heq1 in Heq. injection Heq as <- <-.
  set (il' := mk_inodelocks inode _ (il_waiting il)) in *. split.
  - intros k x. unfold active_of. rewrite Hj, Z.eqb_refl, checked_no_queue by done.
    rewrite <-(held_apply (il_active il) s o type start end_ pid k x) by done.
    destruct (il_empty il') eqn:He; [|done].
    unfold il_empty in He. change (posix_lock_do_apply_lock (il_active il) s o type start end_ pid) with (il_active il').
    by destruct (il_active il').
  - intros j Hne. rewrite Hj. case_if; congruence.
Qed.

(** When nobody waits on the file, a granted lock request, or an unlock,
    sets the lock of its owner on exactly the bytes it names; every other byte and
    every other owner keeps its lock, and other files are not touched. *)
Theorem posix_lock_cmd_granted ofc now connptr s msgid reqid inode o op type start end_ pid t t' rp evs :
  posix_inv t → cmd_args_ok type start end_ → op = POSIX_LOCK_CMD_SET ∨ op = POSIX_LOCK_CMD_TRY →
  waiting_of t inode = [] →
  type = POSIX_LOCK_UNLCK ∨ (ofc s inode = true ∧ ¬ conflicting t inode s o type start end_) →
  posix_lock_cmd ofc now connptr s msgid reqid inode o op type start end_ pid t = Some (t', rp, evs) →
  rp_status rp = MFS_STATUS_OK ∧
  (∀ k x, held (active_of t' inode) k x =
     if bool_decide (k = (s, o)) && ((start <=? x) && (x <? end_)) then type else held (active_of t inode) k x) ∧
  (∀ j, j ≠ inode → tab_find j t' = tab_find j t).
Proof.
  intros Hinv [Ht Hsp] Hop Hq Hfree Hcmd. pose proof Hinv as [Hwf Hall].
  assert (valid_update type start end_) as Hv by (split; [done|apply Hsp]).
  pose proof (active_of_wf t inode Hinv) as Hwfa.
  destruct (decide (type = POSIX_LOCK_UNLCK)) as [->|Htn].
  - rewrite unlock_request in Hcmd by done. unfold active_of at 2. unfold waiting_of in Hq.
    destruct (tab_find inode t) as [il|] eqn:Hf.
    + destruct (apply_and_check _ _ _ _ _ _ _ _ _ _) as [[t1 evs1]|] eqn:Happ; [|done].
      injection Hcmd as <- <- <-. split; [done|].
      eapply (apply_no_queue now inode il s o POSIX_LOCK_UNLCK start end_ pid t); eauto. by rewrite (active_of_find _ _ _ Hf) in Hwfa.
    + injection Hcmd as <- <- <-. split; [done|]. split; [|done]. intros k x.
      unfold active_of. rewrite Hf. by case_if.
  - destruct Ht as [|Hty]; [done|]. destruct Hfree as [|[Hofc Hno]]; [done|].
    rewrite lock_request in Hcmd by done. cbv zeta in Hcmd.
    rewrite <-(offensive_conflicting _ _ _ _ _ _ _ Hinv Hty (proj1 (proj2 Hsp))) in Hno.
    apply not_true_iff_false in Hno. rewrite Hno in Hcmd. unfold active_of at 2. unfold waiting_of in Hq.
    destruct (tab_find inode t) as [il|] eqn:Hf.
    + destruct (apply_and_check _ _ _ _ _ _ _ _ _ _) as [[t1 evs1]|] eqn:Happ; [|done].
      injection Hcmd as <- <- <-. split; [done|].
      eapply (apply_no_queue now inode il s o type start end_ pid t); eauto. by rewrite (active_of_find _ _ _ Hf) in Hwfa.
    + unfold posix_lock_inode_new in Hcmd.
      destruct (apply_and_check _ _ _ _ _ _ _ _ _ _) as [[t1 evs1]|] eqn:Happ; [|done].
      injection Hcmd as <- <- <-. split; [done|].
      destruct (apply_no_queue now inode (mk_inodelocks inode [] []) s o type start end_ pid
                  (tab_add (mk_inodelocks inode [] []) t) t1 evs1) as [Hh Hfr]; [by apply tab_wf_add| |done| |done|done|].
      { rewrite tab_find_add by done. simpl. by rewrite Z.eqb_refl. }
      { by split; constructor. }
      split; [exact Hh|]. intros j Hj. rewrite (Hfr j Hj), tab_find_add by done. simpl. by case_if.
Qed.

Lemma posix_lock_cmd_granted_witness :
  ∃ t' rp evs, posix_lock_cmd all_open 0 1 1 2 2 7 10 POSIX_LOCK_CMD_SET POSIX_LOCK_UNLCK 20 30 0 ex_tab = Some (t', rp, evs) ∧
    held (active_of t' 7) (1, 10) 25 = POSIX_LOCK_UNLCK ∧ held (active_of t' 7) (1, 10) 30 = held (active_of ex_tab 7) (1, 10) 30.
Proof.
  destruct (cmd_inv all_open 0 1 1 2 2 7 10 POSIX_LOCK_CMD_SET POSIX_LOCK_UNLCK 20 30 0 ex_tab ex_tab_inv)
    as (t' & rp & evs & Hcmd & _); [args_ok|].
  exists t', rp, evs. split; [done|].
  destruct (posix_lock_cmd_granted all_open 0 1 1 2 2 7 10 POSIX_LOCK_CMD_SET POSIX_LOCK_UNLCK 20 30 0 ex_tab t' rp evs
    ex_tab_inv ltac:(args_ok) (or_introl eq_refl) ltac:(vm_compute; reflexivity) (or_introl eq_refl) Hcmd) as (_ & Hh & _).
  by rewrite !Hh.
Defined.

(** ** The query *)

(** A query changes nothing; it answers "unlocked" exactly when no other
    owner's lock conflicts with the range asked for, and otherwise with a range that
    another owner really holds with the type given, that overlaps the range asked
    for and conflicts with it. *)
Theorem posix_lock_cmd_get ofc now connptr s msgid reqid inode o type start end_ pid t t' rp evs :
  posix_inv t → lock_type type → valid_span start end_ →
  posix_lock_cmd ofc now connptr s msgid reqid inode o POSIX_LOCK_CMD_GET type start end_ pid t = Some (t', rp, evs) →
  t' = t ∧ evs = [] ∧ rp_status rp = MFS_STATUS_OK ∧
  (rp_type rp = POSIX_LOCK_UNLCK ↔ ¬ conflicting t inode s o type start end_) ∧
  (rp_type rp ≠ POSIX_LOCK_UNLCK →
     ∃ k x, k ≠ (s, o) ∧ start ≤ x < end_ ∧ rp_start rp ≤ x < rp_end rp ∧
       held (active_of t inode) k x = rp_type rp ∧ conflict type (rp_type rp)).
Proof.
  intros Hinv Hty Hsp Hcmd. pose proof (active_of_wf t inode Hinv) as Hwfa.
  assert ((type =? POSIX_LOCK_UNLCK) = false) as Htn by (destruct Hty as [->| ->]; done).
  unfold posix_lock_cmd, posix_lock_inode_find in Hcmd. cbn -[posix_lock_get_offensive_lock] in Hcmd.
  rewrite Htn in Hcmd. cbn [negb] in Hcmd.
  assert (match tab_find inode t with
    | Some il => posix_lock_get_offensive_lock (il_active il) s o type start end_ | None => None end
    = posix_lock_get_offensive_lock (active_of t inode) s o type start end_) as Hoff
    by (unfold active_of; by destruct (tab_find inode t)).
  rewrite Hoff in Hcmd. rewrite <-(offensive_conflicting _ _ _ _ _ _ _ Hinv Hty (proj1 (proj2 Hsp))), <-get_offensive_find.
  destruct (posix_lock_get_offensive_lock (active_of t inode) s o type start end_) as [[r pid']|] eqn:Hg;
    injection Hcmd as <- <- <-; do 3 (split; [done|]); cbn [rp_type rp_start rp_end].
  - destruct (get_offensive_conflict _ _ _ _ _ _ _ _ Hwfa Hty (proj1 (proj2 Hsp)) Hg) as (k & x & ? & ? & Hx & ? & Hc).
    split.
    + split; [|intros []; eauto]. intros Hr. destruct Hc as (_ & Hc & _). rewrite Hr in Hc. by destruct Hc.
    + intros _. exists k, x. unfold in_range in Hx. zbool. repeat split; try done; try lia; apply Hc.
  - split; [|done]. split; [|done]. by intros _ [? ?].
Qed.

Lemma posix_lock_cmd_get_witness :
  ∃ t' rp evs, posix_lock_cmd all_open 0 3 3 2 2 7 30 POSIX_LOCK_CMD_GET POSIX_LOCK_RDLCK 50 150 9 ex_tab = Some (t', rp, evs) ∧
    t' = ex_tab ∧ rp = mk_reply MFS_STATUS_OK POSIX_LOCK_WRLCK 0 100 0.
Proof.
  assert (∃ x, posix_lock_cmd all_open 0 3 3 2 2 7 30 POSIX_LOCK_CMD_GET POSIX_LOCK_RDLCK 50 150 9 ex_tab = Some x ∧
    x.1.2 = mk_reply MFS_STATUS_OK POSIX_LOCK_WRLCK 0 100 0) as ([[t' rp] evs] & Hcmd & Hrp).
  { eexists. split; vm_compute; reflexivity. }
  exists t', rp, evs. split; [done|].
  destruct (posix_lock_cmd_get all_open 0 3 3 2 2 7 30 POSIX_LOCK_RDLCK 50 150 9 ex_tab t' rp evs ex_tab_inv
    (or_introl eq_refl) ltac:(unfold valid_span, UINT64_MAX; lia) Hcmd) as (-> & _). done.
Defined.

(** ** Closing a file *)

(** When a session closes a file, the assertion that unlocking the whole
    file leaves no range holds, no lock of the session on the file remains, held or
    waited for, the invariant is kept and other files are not touched. *)
Theorem posix_lock_file_closed_spec now s inode t :
  posix_inv t →
  ∃ t' evs, posix_lock_file_closed now s inode t = Some (t', evs) ∧ posix_inv t' ∧
    (∀ j, j ≠ inode → tab_find j t' = tab_find j t) ∧
    (∀ al, al ∈ active_of t' inode → al_sessionid al ≠ s) ∧
    (∀ wl, wl ∈ waiting_of t' inode → wl_sessionid wl ≠ s).
Proof.
  intros Hinv. destruct (file_closed_spec now s inode t Hinv) as (t' & evs & Heq & Hinv' & Hfr).
  exists t', evs. do 3 (split; [done|]). unfold active_of, waiting_of.
  destruct (tab_find inode t') as [il|] eqn:Hf; [|by split; intros ? ?%elem_of_nil].
  assert (∀ s', il_has il s' → s' ≠ s) as Hno.
  { intros s' Hhas. destruct (file_closed_sessions now s inode t t' evs inode s' (proj1 Hinv) Heq) as [_ [?|?]];
      [by exists il|done|done]. }
  split; intros x Hx; apply Hno; [left|right]; by exists x.
Qed.

Lemma posix_lock_file_closed_spec_witness :
  ∃ t' evs, posix_lock_file_closed 0 1 7 ex_tab_waiting = Some (t', evs) ∧ posix_inv t' ∧
    (∀ al, al ∈ active_of t' 7 → al_sessionid al ≠ 1).
Proof.
  destruct (posix_lock_file_closed_spec 0 1 7 ex_tab_waiting ex_tab_waiting_inv) as (t' & evs & ? & ? & _ & ? & _).
  by exists t', evs.
Defined.

(** ** The queue after a command *)

(** Every waiting request of every file is blocked by a lock of another owner. *)
Definition queue_blocked (t : posix_tab) : Prop :=
  ∀ inode, Forall (blocked (active_of t inode)) (waiting_of t inode).

Lemma queue_blocked_set inode il t :
  tab_wf t → is_Some (tab_find inode t) → il_inode il = inode → queue_blocked t →
  Forall (blocked (il_active il)) (il_waiting il) → queue_blocked (tab_set inode il t).
Proof.
  intros Hwf [il0 Hf] Hi Hq Hil j. specialize (Hq j). unfold active_of, waiting_of in *.
  rewrite tab_find_set by done. case_if; [subst j; by rewrite Hf|done].
Qed.

Lemma apply_and_check_blocked now inode il s o type start end_ pid t t' evs :
  tab_wf t → tab_find inode t = Some il → il_pre il → valid_update type start end_ → valid_span start end_ →
  (∀ j, j ≠ inode → Forall (blocked (active_of t j)) (waiting_of t j)) →
  no_downgrade (posix_lock_do_apply_lock (il_active il) s o type start end_ pid) (il_waiting il) →
  apply_and_check now inode il s o type start end_ pid t = Some (t', evs) → queue_blocked t'.
Proof.
  intros Hwf Hf [Hwfa _ Hws] Hv Hsp Hq Hnd Heq.
  destruct (apply_and_check_spec now inode il s o type start end_ pid t Hwf Hf) as (t1 & Heq1 & _ & Hj).
  rewrite Heq1 in Heq. injection Heq as <- <-. intros j. specialize (Hq j). unfold active_of, waiting_of in *.
  rewrite Hj. case_if; [|by apply Hq]. subst j. unfold checked. case_if; [constructor|]. simpl.
  destruct (grant_waiting _ _ _ _) as [[a ws] evs0] eqn:Hg.
  eapply grant_waiting_stronger in Hg as (_ & Hb & _); [exact Hb| |done|done]. by apply alocks_wf_apply.
Qed.


(** The same, computed over the table. *)
Definition all_blocked (t : posix_tab) : bool :=
  forallb (λ il, forallb (λ wl, posix_lock_find_offensive_lock (il_active il) (wl_sessionid wl) (wl_owner wl)
                                  (wl_type wl) (wl_start wl) (wl_end wl)) (il_waiting il)) (tab_all t).

Lemma all_blocked_spec t : tab_wf t → all_blocked t = true → queue_blocked t.
Proof.
  unfold all_blocked. rewrite forallb_forall. intros Hwf Hall inode. unfold active_of, waiting_of.
  destruct (tab_find inode t) as [il|] eqn:Hf; [|constructor].
  apply tab_find_all in Hf as [Hin _]; [|done]. apply list_elem_of_In, Hall in Hin. rewrite forallb_forall in Hin.
  apply Forall_forall. intros wl Hwl%list_elem_of_In. by apply Hin.
Qed.


(** ** Downgrades *)

(** Owner (1,1) holds a write lock on bytes 0..9 and (3,3) one on bytes 10..19;
    (2,2) waits to read bytes 0..9, then (1,1) waits to read bytes 0..19; (3,3)
    unlocks. *)
Definition ex_downgrade : posix_tab :=
  cmd_table 3 3 POSIX_LOCK_CMD_SET POSIX_LOCK_UNLCK 10 20
   (cmd_table 1 1 POSIX_LOCK_CMD_SET POSIX_LOCK_RDLCK 0 20
    (cmd_table 2 2 POSIX_LOCK_CMD_SET POSIX_LOCK_RDLCK 0 10
     (cmd_table 3 3 POSIX_LOCK_CMD_TRY POSIX_LOCK_WRLCK 10 20
      (cmd_table 1 1 POSIX_LOCK_CMD_TRY POSIX_LOCK_WRLCK 0 10 tab_empty)))).

(** The single pass over the queue misses a request that a later grant
    of the same pass unblocks: after these five commands the request of (2,2) is
    still queued although no lock conflicts with it. *)
Theorem wake_up_misses_downgrade :
  ∃ wl, wl ∈ waiting_of ex_downgrade 7 ∧ ¬ blocked (active_of ex_downgrade 7) wl.
Proof.
  exists (mk_wlock 2 2 2 0 1 1 0 10 POSIX_LOCK_RDLCK).
  assert (waiting_of ex_downgrade 7 = [mk_wlock 2 2 2 0 1 1 0 10 POSIX_LOCK_RDLCK]) as -> by (vm_compute; reflexivity).
  split; [constructor|]. unfold blocked. by vm_compute.
Qed.

(** ** No request is lost *)

(** The requests waiting for an answer, by connection and message id. *)
Definition pending (ws : list wlock) : list (Z * Z) := (λ wl, (wl_connptr wl, wl_msgid wl)) <$> ws.

(** The requests that were answered. *)
Definition answered (evs : list event) : list (Z * Z) :=
  omap (λ ev, match ev with PosixWakeUp c m _ => Some (c, m) | _ => None end) evs.

Lemma answered_app evs evs' : answered (evs ++ evs') = answered evs ++ answered evs'.
Proof. apply omap_app. Qed.

Lemma grant_pending now inode a ws a' ws' evs :
  grant_waiting now inode a ws = (a', ws', evs) → pending ws ≡ₚ pending ws' ++ answered evs.
Proof.
  revert a a' ws' evs. induction ws as [|wl ws IH]; simpl; intros a a' ws' evs; [by intros [= <- <- <-]|].
  destruct (posix_lock_find_offensive_lock _ _ _ _ _ _).
  - destruct (grant_waiting now inode a ws) as [[a1 ws1] evs1] eqn:Hg. intros [= <- <- <-]. csimpl.
    by rewrite (IH _ _ _ _ Hg).
  - destruct (grant_waiting _ _ _ ws) as [[a1 ws1] evs1] eqn:Hg. intros [= <- <- <-]. csimpl.
    rewrite (IH _ _ _ _ Hg). apply Permutation_middle.
Qed.

Lemma interrupt_pending ws connptr reqid :
  let '(ws', evs) := interrupt_waiting ws connptr reqid in pending ws ≡ₚ pending ws' ++ answered evs.
Proof.
  induction ws as [|wl ws IH]; simpl; [done|]. case_if.
  - subst. csimpl. apply Permutation_cons_append.
  - destruct (interrupt_waiting ws connptr reqid) as [ws' evs]. csimpl. by rewrite IH.
Qed.

Lemma apply_and_check_pending now inode il s o type start end_ pid t t' evs :
  tab_wf t → tab_find inode t = Some il →
  apply_and_check now inode il s o type start end_ pid t = Some (t', evs) →
  pending (il_waiting il) ≡ₚ pending (waiting_of t' inode) ++ answered evs ∧
  (∀ j, j ≠ inode → waiting_of t' j = waiting_of t j).
Proof.
  intros Hwf Hf Heq.
  destruct (apply_and_check_spec now inode il s o type start end_ pid t Hwf Hf) as (t1 & Heq1 & _ & Hj).
  rewrite Heq1 in Heq. injection Heq as <- <-. set (il' := mk_inodelocks inode _ _) in *. split.
  - unfold waiting_of. rewrite Hj, Z.eqb_refl. unfold checked, checked_events.
    change (answered (Log ?c :: ?evs)) with (answered evs). destruct (il_empty il') eqn:He.
    + unfold il_empty in He. change (il_waiting il) with (il_waiting il').
      by destruct (il_active il'), (il_waiting il').
    + destruct (grant_waiting _ _ _ _) as [[a ws] evs0] eqn:Hg. simpl.
      change (il_waiting il) with (il_waiting il'). by eapply grant_pending.
  - intros j Hne. unfold waiting_of. rewrite Hj. case_if; congruence.
Qed.

(** No waiting request is lost and none is answered twice.  The requests
    pending on the file before a command, and the command itself when its status is
    [WAITING], are exactly those pending after it and those it answered; queues of
    other files are not touched. *)
Theorem posix_lock_cmd_pending ofc now connptr s msgid reqid inode o op type start end_ pid t t' rp evs :
  posix_inv t → cmd_args_ok type start end_ →
  posix_lock_cmd ofc now connptr s msgid reqid inode o op type start end_ pid t = Some (t', rp, evs) →
  pending (waiting_of t inode) ++ (if rp_status rp =? MFS_ERROR_WAITING then [(connptr, msgid)] else [])
    ≡ₚ pending (waiting_of t' inode) ++ answered evs ∧
  (∀ j, j ≠ inode → waiting_of t' j = waiting_of t j).
Proof.
  intros Hinv Hargs. pose proof Hinv as [Hwf Hall].
  assert (∀ il il', tab_find inode t = Some il → il_inode il' = inode →
    waiting_of (tab_set inode il' t) inode = il_waiting il' ∧
    ∀ j, j ≠ inode → waiting_of (tab_set inode il' t) j = waiting_of t j) as Hset.
  { intros il il' Hf Hi. unfold waiting_of. split.
    - by rewrite tab_find_set, Z.eqb_refl, Hf by done.
    - intros j Hj. rewrite tab_find_set by done. case_if; congruence. }
  unfold posix_lock_cmd, posix_lock_inode_find.
  case_if; [intros [= <- <- <-]; split; [by rewrite !app_nil_r|done]|]. case_if.
  { destruct (tab_find inode t) as [il|] eqn:Hf; [|intros [= <- <- <-]; split; [by rewrite !app_nil_r|done]].
    unfold posix_lock_interrupt. pose proof (interrupt_pending (il_waiting il) connptr reqid) as Hp.
    destruct (interrupt_waiting _ _ _) as [ws evs0]. intros [= <- <- <-].
    edestruct Hset as [-> Hfr]; [done|exact (tab_find_inode _ _ _ Hf)|]. split; [|exact Hfr].
    unfold waiting_of. rewrite Hf. simpl. by rewrite app_nil_r. }
  case_if; [destruct (match tab_find inode t with Some _ => _ | None => _ end) as [[]|]; intros [= <- <- <-];
    (split; [by rewrite !app_nil_r|done])|].
  destruct (tab_find inode t) as [il|] eqn:Hf.
  - assert (waiting_of t inode = il_waiting il) as Hw by (unfold waiting_of; by rewrite Hf). rewrite Hw.
    assert (∀ t1 evs1, ('(t', evs) ← apply_and_check now inode il s o type start end_ pid t;
        Some (t', mk_reply MFS_STATUS_OK type start end_ pid, evs)) = Some (t1, rp, evs1) →
        pending (il_waiting il) ++ (if rp_status rp =? MFS_ERROR_WAITING then [(connptr, msgid)] else [])
          ≡ₚ pending (waiting_of t1 inode) ++ answered evs1 ∧
        (∀ j, j ≠ inode → waiting_of t1 j = waiting_of t j)) as Happly.
    { intros t1 evs1. destruct (apply_and_check _ _ _ _ _ _ _ _ _ _) as [[t2 evs2]|] eqn:Ha; simpl; [|done].
      intros [= <- <- <-]. simpl. rewrite app_nil_r. by eapply apply_and_check_pending. }
    assert (pending (il_waiting il) ++ [(connptr, msgid)] ≡ₚ
      pending (waiting_of (tab_set inode (posix_lock_append_lock il connptr s msgid reqid o type start end_ pid) t) inode) ++ []
      ∧ ∀ j, j ≠ inode →
        waiting_of (tab_set inode (posix_lock_append_lock il connptr s msgid reqid o type start end_ pid) t) j = waiting_of t j) as Happend.
    { edestruct (Hset il) as [-> Hfr]; [done|exact (tab_find_inode _ _ _ Hf)|]. split; [|exact Hfr].
      unfold pending. simpl. by rewrite fmap_app, app_nil_r. }
    repeat case_if; eauto; intros [= <- <- <-]; simpl in *; try done; (split; [by rewrite Hw, !app_nil_r|done]).
  - case_if; [intros [= <- <- <-]; split; [by rewrite !app_nil_r|done]|]. simpl.
    destruct (apply_and_check _ _ _ _ _ _ _ _ _ _) as [[t1 evs1]|] eqn:Ha; simpl; [|done]. intros [= <- <- <-].
    eapply apply_and_check_pending in Ha as [Hp Hfr]; [|by apply tab_wf_add|].
    + simpl. rewrite app_nil_r. unfold waiting_of at 1. rewrite Hf. split; [exact Hp|]. intros j Hj.
      rewrite (Hfr j Hj). unfold waiting_of. rewrite tab_find_add by done. simpl. by case_if.
    + rewrite tab_find_add by done. simpl. by rewrite Z.eqb_refl.
Qed.

Lemma posix_lock_cmd_pending_witness :
  ∃ t' rp evs, posix_lock_cmd all_open 0 1 1 2 2 7 10 POSIX_LOCK_CMD_SET POSIX_LOCK_UNLCK 0 100 0 ex_tab_waiting
    = Some (t', rp, evs) ∧
    pending (waiting_of ex_tab_waiting 7) ++ (if rp_status rp =? MFS_ERROR_WAITING then [(1, 2)] else [])
      ≡ₚ pending (waiting_of t' 7) ++ answered evs.
Proof.
  destruct (cmd_inv all_open 0 1 1 2 2 7 10 POSIX_LOCK_CMD_SET POSIX_LOCK_UNLCK 0 100 0 ex_tab_waiting ex_tab_waiting_inv)
    as (t' & rp & evs & Hcmd & _); [args_ok|].
  exists t', rp, evs. split; [done|].
  by apply (posix_lock_cmd_pending all_open 0 1 1 2 2 7 10 POSIX_LOCK_CMD_SET POSIX_LOCK_UNLCK 0 100 0 ex_tab_waiting t' rp evs
    ex_tab_waiting_inv ltac:(args_ok) Hcmd).
Defined.
