(* ===== verification/FlockProps.v ===== *)
(** * What the whole-file lock commands do

    The theorems about [flocklocks.c]: sharing and exclusion, the outcome of a
    request of a new owner in each mode, the release at close, and two places where
    the behaviour falls short of the rest. *)

From S2P Require Import Prelude MfsComm HashChain Changelog FlockLocks LockSessions.

(** ** Concrete tables *)

Definition every_open (sessionid inode : Z) : bool := true.

(** A command of owner [s] of session [s], through connection [s], on inode 5. *)
Definition fl_cmd (mode s msgid op : Z) (t : flock_tab) : flock_tab :=
  match flock_locks_cmd mode every_open 0 s s msgid msgid 5 s op t with
  | Some (t', _, _) => t' | None => t end.

Definition flock_active (t : flock_tab) (inode : Z) : list lock :=
  match tab_find inode t with Some il => fl_active il | None => [] end.
Definition flock_waiting (t : flock_tab) (inode : Z) : list lock :=
  match tab_find inode t with Some il => fl_waiting il | None => [] end.

Lemma flock_inv_empty : flock_inv tab_empty.
Proof. split; [apply tab_empty_wf|]. intros inode il. by rewrite tab_find_empty. Qed.

Lemma fl_cmd_inv mode s msgid op t : flock_inv t → flock_inv (fl_cmd mode s msgid op t).
Proof.
  intros Hinv. unfold fl_cmd.
  by destruct (flock_cmd_ok mode every_open 0 s s msgid msgid 5 s op t Hinv) as (t' & st & evs & -> & ?).
Qed.

(** Owner 1 reads, owner 2 waits to write. *)
Definition ex_flocks : flock_tab :=
  fl_cmd MODE_CORRECT 2 1 FLOCK_LOCK_EXCLUSIVE (fl_cmd MODE_CORRECT 1 1 FLOCK_LOCK_SHARED tab_empty).

Lemma ex_flocks_inv : flock_inv ex_flocks.
Proof. do 2 apply fl_cmd_inv. apply flock_inv_empty. Qed.

(** ** Exclusion *)

(** Whatever the mode, the command and its arguments, no assertion fails
    and the table stays such that the active locks of a file are all readers or one
    writer, and a file with waiting locks has an active one. *)
Theorem flock_locks_cmd_safe mode ofc now connptr s msgid reqid inode o op t :
  flock_inv t →
  ∃ t' st evs, flock_locks_cmd mode ofc now connptr s msgid reqid inode o op t = Some (t', st, evs) ∧
    flock_inv t' ∧
    (∀ j, Forall (λ l, l_ltype l = LTYPE_READER) (flock_active t' j) ∨ ∃ l, flock_active t' j = [l]) ∧
    (∀ j, flock_waiting t' j ≠ [] → flock_active t' j ≠ []).
Proof.
  intros Hinv. destruct (flock_cmd_ok mode ofc now connptr s msgid reqid inode o op t Hinv) as (t' & st & evs & Heq & Hinv').
  exists t', st, evs. split; [done|]. split; [done|]. unfold flock_active, flock_waiting.
  split; intros j; destruct (tab_find j t') as [il|] eqn:Hf; try done; try (by left).
  - by destruct (proj2 Hinv' _ _ Hf) as [[Hex _ _] _].
  - by destruct (proj2 Hinv' _ _ Hf) as [_ Hne].
Qed.

Lemma flock_locks_cmd_safe_witness :
  ∃ t' st evs, flock_locks_cmd MODE_CORRECT every_open 0 3 3 1 1 5 3 FLOCK_TRY_SHARED ex_flocks = Some (t', st, evs) ∧ flock_inv t'.
Proof.
  destruct (flock_locks_cmd_safe MODE_CORRECT every_open 0 3 3 1 1 5 3 FLOCK_TRY_SHARED ex_flocks ex_flocks_inv)
    as (t' & st & evs & ? & ? & _). by exists t', st, evs.
Defined.

(** ** A new owner *)

Definition lock_cmd (op : Z) : Prop :=
  op = FLOCK_TRY_SHARED ∨ op = FLOCK_LOCK_SHARED ∨ op = FLOCK_TRY_EXCLUSIVE ∨ op = FLOCK_LOCK_EXCLUSIVE.

Definition try_cmd (op : Z) : bool := (op =? FLOCK_TRY_SHARED) || (op =? FLOCK_TRY_EXCLUSIVE).
Definition cmd_ltype (op : Z) : Z :=
  if (op =? FLOCK_TRY_SHARED) || (op =? FLOCK_LOCK_SHARED) then LTYPE_READER else LTYPE_WRITER.

(** The condition under which a new lock may be active at once: a reader needs a
    file without writer, in [MODE_CORRECT] one nobody waits for; a writer needs an
    unlocked file. *)
Definition admissible (mode ty : Z) (t : flock_tab) (inode : Z) : Prop :=
  if ty =? LTYPE_READER then
    Forall reader (flock_active t inode) ∧ (mode = MODE_CORRECT → flock_waiting t inode = [])
  else flock_active t inode = [].

(** The owner has no lock on the file, held or waited for. *)
Definition new_owner (t : flock_tab) (inode s o : Z) : Prop :=
  ∀ l, l ∈ flock_active t inode ∨ l ∈ flock_waiting t inode → (l_sessionid l, l_owner l) ≠ (s, o).

Lemma split_first_none p ls : (∀ l, l ∈ ls → p l = false) → split_first p ls = None.
Proof.
  induction ls as [|l ls IH]; simpl; intros Hp; [done|]. rewrite Hp by constructor.
  rewrite IH; [done|]. intros. apply Hp. by constructor.
Qed.

Lemma flock_check_admissible mode ty il :
  fl_pre il → valid_ltype ty →
  flock_check mode il ty = false ↔
  if ty =? LTYPE_READER then Forall reader (fl_active il) ∧ (mode = MODE_CORRECT → fl_waiting il = [])
  else fl_active il = [].
Proof.
  intros [Hex Ha Hw] Hty. unfold flock_check. destruct Hty as [->| ->]; simpl.
  - assert (head_is LTYPE_WRITER (fl_active il) = false ↔ Forall reader (fl_active il)) as Hhd.
    { destruct (fl_active il) as [|l a]; [by split|]. simpl. split.
      - intros Hl. destruct Hex as [|[l' [= -> ->]]]; [done|]. apply Forall_singleton. unfold reader.
        apply Forall_cons in Ha as [(_ & _ & [?|Hlt]) _]; [done|]. by rewrite Hlt in Hl.
      - intros [Hr _]%Forall_cons. unfold reader in Hr. by rewrite Hr. }
    destruct (head_is LTYPE_WRITER (fl_active il)); [split; [done|]; intros [? _]; by apply Hhd|].
    destruct (Z.eqb_spec mode MODE_CORRECT); [|split; [|done]; intros _; split; [by apply Hhd|done]].
    destruct (fl_waiting il); simpl; split; try done.
    + intros _. split; [by apply Hhd|done].
    + intros [_ Hc]. by specialize (Hc e).
  - by destruct (fl_active il).
Qed.

Lemma find_or_new inode t :
  flock_inv t →
  ∃ il t0, match tab_find inode t with Some il => (il, t) | None => flock_inode_new inode t end = (il, t0) ∧
    tab_wf t0 ∧ tab_find inode t0 = Some il ∧ fl_pre il ∧ fl_inode il = inode ∧
    fl_active il = flock_active t inode ∧ fl_waiting il = flock_waiting t inode ∧
    (∀ j, flock_active t0 j = flock_active t j ∧ flock_waiting t0 j = flock_waiting t j).
Proof.
  intros [Hwf Hall]. unfold flock_active, flock_waiting. destruct (tab_find inode t) as [il|] eqn:Hf.
  - exists il, t. destruct (Hall _ _ Hf). pose proof (flock_find_inode _ _ _ Hf). done.
  - eexists _, _. split; [done|]. split; [by apply tab_wf_add|].
    assert (∀ j, tab_find j (tab_add (mk_flocks inode [] []) t) =
      if inode =? j then Some (mk_flocks inode [] []) else tab_find j t) as Hadd
      by (intros j; by rewrite tab_find_add).
    split; [by rewrite Hadd, Z.eqb_refl|]. split; [apply fl_pre_new|]. do 3 (split; [done|]).
    intros j. rewrite Hadd. case_if; [subst j; by rewrite Hf|done].
Qed.

Lemma flock_active_set inode il' t0 j :
  tab_wf t0 → is_Some (tab_find inode t0) → fl_inode il' = inode →
  flock_active (tab_set inode il' t0) j = (if inode =? j then fl_active il' else flock_active t0 j) ∧
  flock_waiting (tab_set inode il' t0) j = (if inode =? j then fl_waiting il' else flock_waiting t0 j).
Proof.
  intros Hwf [il Hf] Hi. unfold flock_active, flock_waiting. rewrite tab_find_set by done.
  case_if; [subst j; by rewrite Hf|done].
Qed.

(** The command of a new owner comes down to the creation of a lock. *)
Lemma new_owner_cmd mode ofc now connptr s msgid reqid inode o op t il t0 :
  lock_cmd op → ofc s inode = true → new_owner t inode s o →
  match tab_find inode t with Some il => (il, t) | None => flock_inode_new inode t end = (il, t0) →
  fl_inode il = inode → fl_active il = flock_active t inode → fl_waiting il = flock_waiting t inode →
  flock_locks_cmd mode ofc now connptr s msgid reqid inode o op t =
  if try_cmd op && flock_check mode il (cmd_ltype op) then Some (t0, MFS_ERROR_EAGAIN, [])
  else let '(il', status, evs) := flock_lock_new mode now il (cmd_ltype op) connptr s msgid reqid o in
       Some (tab_set inode il' t0, status, evs).
Proof.
  intros Hop Hofc Hnew Hil Hi Ha Hw. unfold flock_locks_cmd, flock_inode_find. rewrite Hofc, !andb_false_r.
  assert ((op =? FLOCK_UNLOCK) = false ∧ (op =? FLOCK_INTERRUPT) = false ∧ (op =? FLOCK_RELEASE) = false)
    as (Hu & Hin & Hr) by (destruct Hop as [->|[->|[->| ->]]]; done).
  rewrite Hu, Hin, Hr. cbn [orb].
  assert (match tab_find inode t with Some il => Some (il, t) | None => Some (flock_inode_new inode t) end = Some (il, t0)) as ->
    by (rewrite <-Hil; by destruct (tab_find inode t)).
  unfold cmd_on_record. rewrite Hu, Hr, Hi, !split_first_none; [done| |].
  - intros l Hl. rewrite Hw in Hl. specialize (Hnew l (or_intror Hl)).
    destruct (Z.eqb_spec (l_sessionid l) s), (Z.eqb_spec (l_owner l) o); rewrite ?andb_false_r; try done. congruence.
  - intros l Hl. rewrite Ha in Hl. specialize (Hnew l (or_introl Hl)).
    destruct (Z.eqb_spec (l_sessionid l) s), (Z.eqb_spec (l_owner l) o); try done. congruence.
Qed.

(** A lock command of an owner that has no lock on the file yet is
    granted, and logged, exactly when its mode admits the lock; otherwise a "try" is
    refused with [EAGAIN] and a "lock" waits at the tail of the queue.  Nothing else
    changes, on this file or on others. *)
Theorem flock_new_owner mode ofc now connptr s msgid reqid inode o op t t' st evs :
  flock_inv t → lock_cmd op → ofc s inode = true → new_owner t inode s o →
  flock_locks_cmd mode ofc now connptr s msgid reqid inode o op t = Some (t', st, evs) →
  let ty := cmd_ltype op in
  (admissible mode ty t inode →
     st = MFS_STATUS_OK ∧
     evs = [Log (FLOCK now inode s o (if ty =? LTYPE_READER then "R"%char else "W"%char))] ∧
     ∀ j, flock_waiting t' j = flock_waiting t j ∧
       flock_active t' j = if inode =? j then mk_lock o connptr s STATE_ACTIVE ty [] :: flock_active t j
                           else flock_active t j) ∧
  (¬ admissible mode ty t inode →
     st = (if try_cmd op then MFS_ERROR_EAGAIN else MFS_ERROR_WAITING) ∧ evs = [] ∧
     ∀ j, flock_active t' j = flock_active t j ∧
       flock_waiting t' j = if (inode =? j) && negb (try_cmd op)
         then flock_waiting t j ++ [mk_lock o connptr s STATE_WAITING ty [mk_instance msgid reqid]]
         else flock_waiting t j).
Proof.
  intros Hinv Hop Hofc Hnew Hcmd ty.
  destruct (find_or_new inode t Hinv) as (il & t0 & Hil & Hwf0 & Hf0 & Hpre & Hi & Ha & Hw & Hsame).
  rewrite (new_owner_cmd mode ofc now connptr s msgid reqid inode o op t il t0) in Hcmd by done. fold ty in Hcmd.
  assert (valid_ltype ty) as Hty by (unfold ty, cmd_ltype; case_if; [by left|by right]).
  pose proof (flock_check_admissible mode ty il Hpre Hty) as Hck. rewrite Ha, Hw in Hck. fold (admissible mode ty t inode) in Hck.
  assert (is_Some (tab_find inode t0)) as His by eauto. unfold flock_lock_new in Hcmd.
  split; intros Hadm.
  - rewrite (proj2 Hck Hadm), andb_false_r in Hcmd. injection Hcmd as <- <- <-. rewrite Hi. split; [done|]. split; [done|].
    intros j. destruct (flock_active_set inode (flock_do_lock_inode_attach (mk_lock o connptr s STATE_ACTIVE ty []) il) t0 j)
      as [-> ->]; [done|done|done|]. destruct (Hsame j) as [-> ->]. simpl. rewrite Ha, Hw. case_if; by subst.
  - destruct (flock_check mode il ty); [|by destruct Hadm; apply Hck]. rewrite andb_true_r in Hcmd.
    destruct (try_cmd op) eqn:Htry.
    + injection Hcmd as <- <- <-. split; [done|]. split; [done|]. intros j. rewrite andb_false_r. apply Hsame.
    + injection Hcmd as <- <- <-. split; [done|]. split; [done|]. intros j. rewrite andb_true_r.
      match goal with |- context [tab_set inode ?x t0] =>
        destruct (flock_active_set inode x t0 j) as [-> ->]; [done|done|done|] end.
      destruct (Hsame j) as [-> ->]. simpl. rewrite Ha, Hw. case_if; by subst.
Qed.

Lemma flock_new_owner_witness :
  ∃ t' st evs, flock_locks_cmd MODE_CORRECT every_open 0 3 3 1 1 5 3 FLOCK_TRY_SHARED ex_flocks = Some (t', st, evs) ∧
    st = MFS_ERROR_EAGAIN ∧ ∀ j, flock_active t' j = flock_active ex_flocks j.
Proof.
  destruct (flock_cmd_ok MODE_CORRECT every_open 0 3 3 1 1 5 3 FLOCK_TRY_SHARED ex_flocks ex_flocks_inv)
    as (t' & st & evs & Hcmd & _).
  exists t', st, evs. split; [done|].
  destruct (flock_new_owner MODE_CORRECT every_open 0 3 3 1 1 5 3 FLOCK_TRY_SHARED ex_flocks t' st evs
    ex_flocks_inv (or_introl eq_refl) eq_refl) as [_ Hno]; [|done|].
  - assert (flock_active ex_flocks 5 = [mk_lock 1 1 1 STATE_ACTIVE LTYPE_READER []] ∧
      flock_waiting ex_flocks 5 = [mk_lock 2 2 2 STATE_WAITING LTYPE_WRITER [mk_instance 1 1]]) as [Ha Hw]
      by (split; vm_compute; reflexivity).
    intros l. rewrite Ha, Hw. by intros [->%list_elem_of_singleton| ->%list_elem_of_singleton].
  - destruct Hno as (-> & _ & Hact); [|split; [done|apply Hact]].
    intros [_ Hq]. specialize (Hq eq_refl). by vm_compute in Hq.
Defined.

(** ** Closing a file *)

(** Closing a file never fails an assertion, leaves no lock of the
    session on it, and keeps the invariant: whoever can be woken is. *)
Theorem flock_file_closed_spec mode now s inode t :
  flock_inv t →
  ∃ t' evs, flock_file_closed mode now s inode t = Some (t', evs) ∧ flock_inv t' ∧
    (∀ l, l ∈ flock_active t' inode ∨ l ∈ flock_waiting t' inode → l_sessionid l ≠ s).
Proof.
  intros Hinv. destruct (flock_file_closed_ok mode now s inode t Hinv) as (t' & evs & Heq & Hinv').
  exists t', evs. split; [done|]. split; [done|]. intros l Hl Hs.
  unfold flock_active, flock_waiting in Hl. destruct (tab_find inode t') as [il|] eqn:Hf.
  - destruct (flock_file_closed_sessions mode now s inode t t' evs inode s (proj1 Hinv) Heq) as [_ [?|?]]; [|done..].
    exists il. split; [done|]. by exists l.
  - by destruct Hl as [?%elem_of_nil|?%elem_of_nil].
Qed.

Lemma flock_file_closed_spec_witness :
  ∃ t' evs, flock_file_closed MODE_CORRECT 0 1 5 ex_flocks = Some (t', evs) ∧ flock_inv t'.
Proof.
  destruct (flock_file_closed_spec MODE_CORRECT 0 1 5 ex_flocks ex_flocks_inv) as (t' & evs & ? & ? & _). by exists t', evs.
Defined.

(** ** A reader left waiting behind readers *)

(** Owner 1 reads, owner 2 waits to write, owner 3 waits to read behind it; owner 2
    gives up. *)
Definition ex_left_waiting : flock_tab :=
  fl_cmd MODE_CORRECT 2 1 FLOCK_INTERRUPT
   (fl_cmd MODE_CORRECT 3 1 FLOCK_LOCK_SHARED ex_flocks).

(** Removing a waiting writer does not wake the readers queued behind
    it: a reader waits although every active lock is a reader and it is first in the
    queue, so that its own request, made now, would be admitted to an empty queue. *)
Theorem reader_left_waiting :
  flock_inv ex_left_waiting ∧
  ∃ l q, flock_waiting ex_left_waiting 5 = l :: q ∧ reader l ∧
    flock_active ex_left_waiting 5 ≠ [] ∧ Forall reader (flock_active ex_left_waiting 5).
Proof.
  split; [do 2 apply fl_cmd_inv; apply ex_flocks_inv|].
  exists (mk_lock 3 3 3 STATE_WAITING LTYPE_READER [mk_instance 1 1]), [].
  split; [vm_compute; reflexivity|]. split; [done|].
  assert (flock_active ex_left_waiting 5 = [mk_lock 1 1 1 STATE_ACTIVE LTYPE_READER []]) as -> by (vm_compute; reflexivity).
  split; [done|]. by repeat constructor.
Qed.

(** ** Conversions that are not logged *)

(** A follower's replay of the [FLOCK] entries. *)
Definition replay_flock (c : centry) (t : flock_tab) : option (flock_tab * Z) :=
  match c with
  | FLOCK _ inode sessionid owner cmd =>
      '(t', st, _) ← flock_mr_change inode sessionid owner cmd t; Some (t', st)
  | _ => None
  end.

Fixpoint replay_flocks (cs : list centry) (t : flock_tab) : option (flock_tab * Z) :=
  match cs with
  | [] => Some (t, MFS_STATUS_OK)
  | c :: rest =>
      '(t', st) ← replay_flock c t;
      if st =? MFS_STATUS_OK then replay_flocks rest t' else Some (t', st)
  end.

(** Owner 1 takes the file for writing, converts its lock to a read lock with
    [FLOCK_TRY_SHARED], and owner 2 takes a read lock. *)
Definition ex_convert : flock_tab * list event :=
  let step s op (x : flock_tab * list event) :=
    match flock_locks_cmd MODE_CORRECT every_open 0 s s 1 1 5 s op x.1 with
    | Some (t', _, evs) => (t', x.2 ++ evs) | None => x end in
  step 2 FLOCK_TRY_SHARED (step 1 FLOCK_TRY_SHARED (step 1 FLOCK_TRY_EXCLUSIVE (tab_empty, []))).

(** The conversion of a held lock by a "try" command changes the lock
    but writes nothing to the changelog; a follower keeps the old type and refuses
    the entry of the next reader with [MISMATCH]. *)
Theorem try_conversion_not_logged :
  changelog_of ex_convert.2 = [FLOCK 0 5 1 1 "W"%char; FLOCK 0 5 2 2 "R"%char] ∧
  (l_ltype <$> flock_active ex_convert.1 5) = [LTYPE_READER; LTYPE_READER] ∧
  ∃ t, replay_flocks (changelog_of ex_convert.2) tab_empty = Some (t, MFS_ERROR_MISMATCH).
Proof.
  split; [vm_compute; reflexivity|]. split; [vm_compute; reflexivity|]. eexists. vm_compute. reflexivity.
Qed.
