(* ===== verification/LockProps.v ===== *)
(** * Properties of open files and locks as one system

    Theorems about every state the master reaches from an empty one, about the
    synchronisation with a client's list of open files, and about the metadata image
    of the three tables. *)

From S2P Require Import Prelude MfsComm HashChain Changelog DataPack.
From S2P Require Import PosixRanges PosixLocks PosixReplay FlockLocks LockSessions OpenFiles LockSystem LockImages.

(** ** Reachable states *)

(** A master whose sessions 1 and 2 have opened inode 7. *)
Definition ex_opened : master := (of_openfile 0 2 7 (of_openfile 0 1 7 of_init).1).1.

Lemma reach_open bld mode m now s inode :
  reachable bld mode m → reachable bld mode (of_openfile now s inode m).1.
Proof.
  intros Hr. eapply (reach_step bld mode m now (ReqOpen s inode) _ NoAnswer (of_openfile now s inode m).2); [done|done|].
  simpl. by destruct (of_openfile now s inode m).
Qed.

Lemma ex_opened_reachable : reachable FastLE 0 ex_opened.
Proof. do 2 apply reach_open. constructor. Qed.

(** A request of owner 10 of session 1 to write bytes 0..99 of inode 7, as a packet. *)
Definition ex_packet : list Z :=
  put32bit FastLE 1 ++ put32bit FastLE 7 ++ put32bit FastLE 1 ++ put64bit FastLE 10 ++ put32bit FastLE 0 ++
  put8bit FastLE POSIX_LOCK_CMD_SET ++ put8bit FastLE POSIX_LOCK_WRLCK ++ put64bit FastLE 0 ++ put64bit FastLE 100.

Lemma ex_packet_ok eptr s : request_ok FastLE (ReqPosixLock eptr s ex_packet).
Proof.
  intros pq Hpq.
  assert (read_posix_request FastLE ex_packet = Some (mk_posix_request 1 7 1 10 0 POSIX_LOCK_CMD_SET POSIX_LOCK_WRLCK 0 100)) as Heq
    by (vm_compute; reflexivity).
  rewrite Heq in Hpq. injection Hpq as <-. simpl. split; [by right; left|].
  split; [by right; right|]. unfold valid_span, UINT64_MAX. lia.
Qed.

(** The state after that request. *)
Definition ex_locked : master :=
  match handle FastLE 0 5 (ReqPosixLock 1 1 ex_packet) ex_opened with Some (m, _, _) => m | None => ex_opened end.

Lemma ex_locked_reachable : reachable FastLE 0 ex_locked.
Proof.
  unfold ex_locked. destruct (handle FastLE 0 5 (ReqPosixLock 1 1 ex_packet) ex_opened) as [[[m a] evs]|] eqn:Heq;
    [|exact ex_opened_reachable].
  eapply reach_step; [exact ex_opened_reachable|exact (ex_packet_ok 1 1)|exact Heq].
Qed.



(** In every state the master reaches, every request that is well formed
    is handled to its end: no assertion fails, no read goes past the packet, no array
    is accessed out of bounds. *)
Theorem reachable_handles bld mode m now req :
  reachable bld mode m → request_ok bld req →
  ∃ m' a evs, handle bld mode now req m = Some (m', a, evs) ∧ reachable bld mode m'.
Proof.
  intros Hr Hok. destruct (handle_ok bld mode now req m (reachable_inv _ _ _ Hr) Hok) as (m' & a & evs & Heq & _).
  exists m', a, evs. split; [done|]. by eapply reach_step.
Qed.

Lemma reachable_handles_witness :
  ∃ m' a evs, handle FastLE 0 5 (ReqPosixLock 1 1 ex_packet) ex_opened = Some (m', a, evs) ∧ reachable FastLE 0 m'.
Proof. apply (reachable_handles FastLE 0 ex_opened 5 (ReqPosixLock 1 1 ex_packet) ex_opened_reachable (ex_packet_ok 1 1)). Defined.

(** ** Open files *)

(** After the list of a client's open inodes has been taken in, the session
    has exactly these inodes open, whatever it had before and however often the list
    repeats an inode; other sessions keep theirs, and the locks of the files the
    session no longer has open are gone. *)
Theorem of_sync_spec bld mode now s inodes m :
  reachable bld mode m → Z.of_nat (length inodes) ≤ 2 ^ 30 →
  ∃ m' evs, of_sync mode now s inodes m = Some (m', evs) ∧
    (∀ s' j, of_checknode m' s' j = if s' =? s then bool_decide (j ∈ inodes) else of_checknode m s' j) ∧
    (∀ j, j ∉ inodes → ¬ posix_has (m_posix m') j s ∧ ¬ flock_has (m_flocks m') j s).
Proof.
  intros Hr Hlen. pose proof (reachable_inv _ _ _ Hr) as Hinv.
  destruct (sync_spec mode now s inodes m Hinv Hlen) as (m' & evs & Heq & Hinv' & Hop).
  exists m', evs. split; [done|]. split.
  - intros s' j. apply eq_bool_prop_intro. rewrite !Is_true_true, checknode_spec, Hop by apply Hinv'.
    case_if; [subst; rewrite bool_decide_eq_true; tauto|]. rewrite checknode_spec by apply Hinv. tauto.
  - intros j Hj. assert (¬ is_open m' s j) as Hno by (rewrite Hop; tauto).
    split; intros Hhas; apply Hno; [by apply (mi_posix_open _ Hinv')|by apply (mi_flock_open _ Hinv')].
Qed.

Lemma of_sync_spec_witness :
  ∃ m' evs, of_sync 0 5 1 [8; 9; 8] ex_opened = Some (m', evs) ∧
    of_checknode m' 1 7 = false ∧ of_checknode m' 1 9 = true ∧ of_checknode m' 2 7 = of_checknode ex_opened 2 7.
Proof.
  destruct (of_sync_spec FastLE 0 5 1 [8; 9; 8] ex_opened ex_opened_reachable ltac:(simpl; lia)) as (m' & evs & Heq & Hc & _).
  exists m', evs. exact (conj Heq (conj (Hc 1 7) (conj (Hc 1 9) (Hc 2 7)))).
Defined.

(** Removing a session closes all its files, releases all its locks, and
    leaves the files of the others open. *)
Theorem of_session_removed_spec bld mode now s m :
  reachable bld mode m →
  ∃ m' evs, of_session_removed mode now s m = Some (m', evs) ∧
    (∀ s' j, of_checknode m' s' j = negb (s' =? s) && of_checknode m s' j) ∧
    (∀ j, ¬ posix_has (m_posix m') j s ∧ ¬ flock_has (m_flocks m') j s).
Proof.
  intros Hr. pose proof (reachable_inv _ _ _ Hr) as Hinv.
  destruct (session_removed_spec mode now s m Hinv) as (m' & evs & Heq & Hinv' & Hop).
  exists m', evs. split; [done|]. split.
  - intros s' j. apply eq_bool_prop_intro.
    rewrite !Is_true_true, checknode_spec, Hop, andb_true_iff, negb_true_iff, Z.eqb_neq by apply Hinv'.
    by rewrite checknode_spec by apply Hinv.
  - intros j. assert (¬ is_open m' s j) as Hno by (rewrite Hop; tauto).
    split; intros Hhas; apply Hno; [by apply (mi_posix_open _ Hinv')|by apply (mi_flock_open _ Hinv')].
Qed.

Lemma of_session_removed_spec_witness :
  ∃ m' evs, of_session_removed 0 5 1 ex_opened = Some (m', evs) ∧ of_checknode m' 1 7 = false ∧
    of_checknode m' 2 7 = of_checknode ex_opened 2 7.
Proof.
  destruct (of_session_removed_spec FastLE 0 5 1 ex_opened ex_opened_reachable) as (m' & evs & Heq & Hc & _).
  exists m', evs. exact (conj Heq (conj (Hc 1 7) (Hc 2 7))).
Defined.

(** On a sorted array of at most [2^30] elements the binary search ends,
    reads only elements of the array, overflows no [int32_t], and returns a position
    of the value searched for, or -1 when it is not there. *)
Theorem of_bisearch_correct search array :
  StronglySorted Z.le array → Z.of_nat (length array) ≤ 2 ^ 30 →
  ∃ p, of_bisearch search array (Z.of_nat (length array)) = Some p ∧
    ((p = -1 ∧ search ∉ array) ∨ (0 ≤ p ∧ array !! Z.to_nat p = Some search)).
Proof. apply bisearch_spec. Qed.

Lemma of_bisearch_correct_witness :
  of_bisearch 40 [10; 20; 30; 40; 50] 5 = Some 3 ∧
  ∃ p, of_bisearch 35 [10; 20; 30; 40; 50] 5 = Some p ∧
    ((p = -1 ∧ 35 ∉ [10; 20; 30; 40; 50]) ∨ (0 ≤ p ∧ [10; 20; 30; 40; 50] !! Z.to_nat p = Some 35)).
Proof.
  split; [reflexivity|]. apply (of_bisearch_correct 35 [10; 20; 30; 40; 50]); [|simpl; lia].
  repeat constructor; lia.
Defined.

(** ** The metadata image *)

(** The numbers fit the fields of the image, and the sessions are known to the
    loading master. *)
Record storable (known : Z → bool) (m : master) : Prop := {
  st_open : ∀ s i, is_open m s i → 0 < s < 2 ^ 32 ∧ 0 < i < 2 ^ 32 ∧ known s = true;
  st_flock : ∀ inode il, tab_find inode (m_flocks m) = Some il → Forall (λ l, is_u64 (l_owner l)) (fl_active il);
  st_posix : ∀ inode il, tab_find inode (m_posix m) = Some il →
    Forall (λ al, is_u64 (al_owner al) ∧ is_u32 (al_pid al)) (il_active il) }.

(** The active whole-file locks of an inode, without their connections. *)
Definition flock_image (t : flock_tab) (inode : Z) : list lock :=
  match tab_find inode t with Some il => reloaded <$> fl_active il | None => [] end.

Lemma posix_sessions_open m inode il :
  master_inv m → tab_find inode (m_posix m) = Some il → Forall (λ al, is_open m (al_sessionid al) inode) (il_active il).
Proof.
  intros Hinv Hf. apply Forall_forall. intros al Hin. apply (mi_posix_open _ Hinv).
  exists il. split; [done|]. left. by exists al.
Qed.

Lemma flock_sessions_open m inode il :
  master_inv m → tab_find inode (m_flocks m) = Some il → Forall (λ l, is_open m (l_sessionid l) inode) (fl_active il).
Proof.
  intros Hinv Hf. apply Forall_forall. intros l Hin. apply (mi_flock_open _ Hinv).
  exists il. split; [done|]. exists l. auto.
Qed.

(** A file with a lock is open in some session. *)
Lemma Forall_hd {A} (P : A → Prop) l : Forall P l → l ≠ [] → ∃ x, P x.
Proof. destruct 1; [done|eauto]. Qed.



(** ** Packed integers *)

(** For every width and every combination of the three builds of the packing
    routines, an integer that fits is read back as it was written, and the bytes
    after it are left for the next reader. *)
Theorem datapack_roundtrip b b' rest :
  (∀ x, is_u64 x → get64bit b (put64bit b' x ++ rest) = Some (x, rest)) ∧
  (∀ x, 0 ≤ x < 2 ^ 56 → get56bit b (put56bit b' x ++ rest) = Some (x, rest)) ∧
  (∀ x, 0 ≤ x < 2 ^ 48 → get48bit b (put48bit b' x ++ rest) = Some (x, rest)) ∧
  (∀ x, 0 ≤ x < 2 ^ 40 → get40bit b (put40bit b' x ++ rest) = Some (x, rest)) ∧
  (∀ x, is_u32 x → get32bit b (put32bit b' x ++ rest) = Some (x, rest)) ∧
  (∀ x, 0 ≤ x < 2 ^ 24 → get24bit b (put24bit b' x ++ rest) = Some (x, rest)) ∧
  (∀ x, is_u16 x → get16bit b (put16bit b' x ++ rest) = Some (x, rest)) ∧
  (∀ x, is_u8 x → get8bit b (put8bit b' x ++ rest) = Some (x, rest)).
Proof.
  unfold is_u64, is_u32, is_u16, is_u8. repeat split; intros x Hx.
  - by rewrite get64_put64, Z.mod_small.
  - by rewrite get56_put56, Z.mod_small.
  - by rewrite get48_put48, Z.mod_small.
  - by rewrite get40_put40, Z.mod_small.
  - by rewrite get32_put32, Z.mod_small.
  - by rewrite get24_put24, Z.mod_small.
  - by rewrite get16_put16, Z.mod_small.
  - by rewrite get8_put8, Z.mod_small.
Qed.

(** [datapack_roundtrip] at a 64-bit value written by the byte-swapping build and read by
    the portable one. *)
Lemma datapack_roundtrip_witness :
  is_u64 0x0123456789abcdef ∧
  get64bit Portable (put64bit FastLE 0x0123456789abcdef ++ [7]) = Some (0x0123456789abcdef, [7]).
Proof.
  assert (H : is_u64 0x0123456789abcdef) by (unfold is_u64; lia).
  exact (conj H (proj1 (datapack_roundtrip Portable FastLE [7]) _ H)).
Defined.

(** The three builds write the same bytes: the big-endian ones, as many as
    the width says, whatever the value. *)
Theorem datapack_builds b x :
  put64bit b x = be_bytes 8 x ∧ put56bit b x = be_bytes 7 x ∧ put48bit b x = be_bytes 6 x ∧
  put40bit b x = be_bytes 5 x ∧ put32bit b x = be_bytes 4 x ∧ put24bit b x = be_bytes 3 x ∧
  put16bit b x = be_bytes 2 x ∧ put8bit b x = be_bytes 1 x.
Proof.
  repeat split; [apply put64bit_be|apply put56bit_be|apply put48bit_be|apply put40bit_be|apply put32bit_be|
    apply put24bit_be|apply put16bit_be].
Qed.

(** ** The order of the log at close *)

(** Sessions 1 and 2 have inode 7 open; session 1 holds bytes 0..99 for writing and
    session 2 waits for them.  Session 1's next list of open inodes is empty. *)
Definition ex_closing : master * list event :=
  let lock eptr sessionid (x : master * list event) :=
    match matoclserv_fuse_posix_lock FastLE 0 eptr sessionid ex_packet x.1 with
    | Some (m, _, evs) => (m, x.2 ++ evs) | None => x end in
  lock 2 2 (lock 1 1 (ex_opened, [])).

(** A file closed by a session that holds POSIX locks is logged in an order
    a follower cannot replay: the grant to the waiting session comes first, while the
    release of the locks it takes over is only implied by the [RELEASE] that follows,
    so the follower refuses the grant with [MISMATCH]. *)
Theorem close_log_not_replayable :
  ∃ m' evs r, of_sync 0 1 1 [] ex_closing.1 = Some (m', evs) ∧
    changelog_of evs = [POSIXLOCK 1 7 2 10 "W"%char 0 100 0; RELEASE 1 1 7] ∧
    replay_posixlocks (changelog_of ex_closing.2) tab_empty = Some r ∧
    (∃ r' evs', posix_lock_mr_change 7 2 10 "W"%char 0 100 0 r = Some (r', MFS_ERROR_MISMATCH, evs')).
Proof.
  assert ((λ x, changelog_of x.2) <$> of_sync 0 1 1 [] ex_closing.1 =
    Some [POSIXLOCK 1 7 2 10 "W"%char 0 100 0; RELEASE 1 1 7]) as Hs by (vm_compute; reflexivity).
  destruct (of_sync 0 1 1 [] ex_closing.1) as [[m' evs]|]; [|done]. injection Hs as Hs.
  assert (snd <$> (fst <$> (replay_posixlocks (changelog_of ex_closing.2) tab_empty ≫=
    posix_lock_mr_change 7 2 10 "W"%char 0 100 0)) = Some MFS_ERROR_MISMATCH) as Hr by (vm_compute; reflexivity).
  destruct (replay_posixlocks _ tab_empty) as [r|]; [|done]. cbn [mbind option_bind] in Hr.
  destruct (posix_lock_mr_change _ _ _ _ _ _ _ r) as [[[r' st] evs']|] eqn:Hmr; [|done]. injection Hr as ->.
  exists m', evs, r. split; [done|]. split; [done|]. split; [done|]. exists r', evs'. done.
Qed.
