(* ===== verification/Listings.v ===== *)
(** * Listings of open files and locks for the administrator's tools

    The listing functions run twice: without a buffer they return the number of
    bytes of the listing, with one they write it; the caller allocates the packet
    between the two.  A function here takes [null], which tells whether the buffer
    pointer is [NULL], and returns the value of the C function and the bytes written.

    The theorems show that the second pass writes exactly the bytes the first one
    announced, so the packet is filled and not overrun. *)

From S2P Require Import Prelude MfsComm HashChain Changelog DataPack.
From S2P Require Import PosixRanges PosixLocks FlockLocks OpenFiles LockSystem.

(** A loop over the elements to list: [sz] bytes each when they are only counted. *)
Fixpoint list_loop {A} (null : bool) (sz : Z) (write : A → list Z) (xs : list A) (ret : Z) : Z * list Z :=
  match xs with
  | [] => (ret, [])
  | x :: xs =>
      if null then list_loop null sz write xs (u32 (ret + sz))
      else let '(r, bytes) := list_loop null sz write xs ret in (r, write x ++ bytes)
  end.

Section lists.
Variable bld : build.

(** ** Open files *)

Definition of_lsof (null : bool) (sessionid : Z) (m : master) : Z * list Z :=
  if sessionid =? 0 then
    list_loop null 8 (λ ofr, put32bit bld (ofr_sessionid ofr) ++ put32bit bld (ofr_inode ofr))
      (concat (sessionhash m)) 0
  else
    list_loop null 4 (λ ofr, put32bit bld (ofr_inode ofr))
      (filter (λ ofr, ofr_sessionid ofr = sessionid) (chain_at (OF_SESSION_HASH sessionid) (sessionhash m))) 0.

Definition of_sessions_info_for_inode (null : bool) (inode : Z) (m : master) : Z * list Z :=
  let sessions := sessions_of_inode inode m in
  let sescount := u32 (Z.of_nat (length sessions)) in
  (u32 (4 + 4 * sescount),
   if null then [] else put32bit bld sescount ++ concat ((λ s, put32bit bld s) <$> sessions)).

(** ** Locks *)

Definition posix_type_byte (type : Z) : Z :=
  if type =? POSIX_LOCK_RDLCK then MFS_LOCK_TYPE_SHARED
  else if type =? POSIX_LOCK_WRLCK then MFS_LOCK_TYPE_EXCLUSIVE else MFS_LOCK_TYPE_UNKNOWN.

Definition posix_list_entry (al : alock) (r : range) : list Z :=
  put32bit bld (al_sessionid al) ++ put64bit bld (al_owner al) ++ put32bit bld (al_pid al) ++
  put64bit bld (r_start r) ++ put64bit bld (r_end r) ++ put8bit bld (posix_type_byte (r_type r)).

Definition posix_entries (il : inodelocks) : list (Z * alock * range) :=
  concat ((λ al, (λ r, (il_inode il, al, r)) <$> al_ranges al) <$> il_active il).

Definition posix_lock_list (null : bool) (inode : Z) (t : posix_tab) : Z * list Z :=
  if inode =? 0 then
    list_loop null 37 (λ '(i, al, r), put32bit bld i ++ posix_list_entry al r)
      (concat (posix_entries <$> tab_all t)) 0
  else
    match posix_lock_inode_find inode t with
    | Some il => list_loop null 33 (λ '(_, al, r), posix_list_entry al r) (posix_entries il) 0
    | None => (0, [])
    end.

Definition flock_type_byte (ltype : Z) : Z :=
  if ltype =? LTYPE_READER then MFS_LOCK_TYPE_SHARED
  else if ltype =? LTYPE_WRITER then MFS_LOCK_TYPE_EXCLUSIVE else MFS_LOCK_TYPE_UNKNOWN.

Definition flock_list_entry (l : lock) : list Z :=
  put32bit bld (l_sessionid l) ++ put64bit bld (l_owner l) ++ replicate 20 0 ++
  put8bit bld (flock_type_byte (l_ltype l)).

Definition flock_list (null : bool) (inode : Z) (t : flock_tab) : Z * list Z :=
  if inode =? 0 then
    list_loop null 37 (λ '(i, l), put32bit bld i ++ flock_list_entry l)
      (concat ((λ il, (λ l, (fl_inode il, l)) <$> fl_active il) <$> tab_all t)) 0
  else
    match flock_inode_find inode t with
    | Some il => list_loop null 33 flock_list_entry (fl_active il) 0
    | None => (0, [])
    end.

(** ** The packets: the size [matoclserv_create_packet] is given, and the data *)

Definition list_reply (data : list Z) (size : Z → Z) (body : Z → list Z) : option (option (Z * list Z)) :=
  let length := Z.of_nat (length data) in
  if negb (length =? 4) && negb (length =? 8) then Some None
  else if length =? 8 then
    '(msgid, data) ← get32bit bld data;
    '(id, _) ← get32bit bld data;
    Some (Some (u32 (4 + size id), put32bit bld msgid ++ body id))
  else
    '(id, _) ← get32bit bld data;
    Some (Some (size id, body id)).

Definition matoclserv_list_open_files (data : list Z) (m : master) : option (option (Z * list Z)) :=
  list_reply data (λ sessionid, (of_lsof true sessionid m).1) (λ sessionid, (of_lsof false sessionid m).2).

Definition matoclserv_list_acquired_locks (data : list Z) (m : master) : option (option (Z * list Z)) :=
  list_reply data
    (λ inode, u32 ((posix_lock_list true inode (m_posix m)).1 + (flock_list true inode (m_flocks m)).1))
    (λ inode, (posix_lock_list false inode (m_posix m)).2 ++ (flock_list false inode (m_flocks m)).2).

(** ** The two passes agree *)

Definition passes_agree (f : bool → Z * list Z) : Prop :=
  (f true).1 = u32 (Z.of_nat (length (f false).2)) ∧ (f true).2 = [] ∧ (f false).1 = 0.

Lemma list_loop_agree {A} sz (write : A → list Z) xs :
  (∀ x, Z.of_nat (length (write x)) = sz) → passes_agree (λ null, list_loop null sz write xs 0).
Proof.
  intros Hsz. unfold passes_agree.
  assert (∀ ret, (list_loop false sz write xs ret).1 = ret ∧ (list_loop true sz write xs (u32 ret)).2 = [] ∧
    (list_loop true sz write xs (u32 ret)).1 = u32 (ret + Z.of_nat (length (list_loop false sz write xs 0).2))) as Hall.
  { induction xs as [|x xs IH]; intros ret; simpl.
    - by rewrite Z.add_0_r.
    - assert (u32 (u32 ret + sz) = u32 (ret + sz)) as Hu by (unfold u32; by rewrite Z.add_mod_idemp_l).
      rewrite Hu. destruct (IH (ret + sz)) as (_ & H2 & H3). destruct (IH ret) as (H1 & _).
      destruct (list_loop false sz write xs ret) as [r b] eqn:Hr. destruct (list_loop false sz write xs 0) as [r0 b0].
      simpl in *. split; [done|]. split; [done|]. rewrite H3, length_app, Nat2Z.inj_add, Hsz. f_equal. lia. }
  destruct (Hall 0) as (H1 & H2 & H3). change (u32 0) with 0 in H2, H3. done.
Qed.

Ltac entry_size :=
  intros; rewrite ?length_app, ?put32bit_be, ?put64bit_be, ?put8bit_be, ?length_be_bytes, ?length_replicate; done.

Lemma of_lsof_agree s m : passes_agree (λ null, of_lsof null s m).
Proof. unfold of_lsof. case_if; apply list_loop_agree; entry_size. Qed.

Lemma posix_list_entry_size al r : length (posix_list_entry al r) = 33%nat.
Proof. unfold posix_list_entry. entry_size. Qed.

Lemma posix_lock_list_agree inode t : passes_agree (λ null, posix_lock_list null inode t).
Proof.
  unfold posix_lock_list. case_if; [|destruct (posix_lock_inode_find inode t); [|done]]; apply list_loop_agree;
    intros [[j al] r]; rewrite ?length_app, posix_list_entry_size; [|done]. entry_size.
Qed.

Lemma flock_list_entry_size l : length (flock_list_entry l) = 33%nat.
Proof. unfold flock_list_entry. entry_size. Qed.

Lemma flock_list_agree inode t : passes_agree (λ null, flock_list null inode t).
Proof.
  unfold flock_list. case_if; [|destruct (flock_inode_find inode t); [|done]]; apply list_loop_agree.
  - intros [i l]. rewrite length_app, flock_list_entry_size. entry_size.
  - intros l. by rewrite flock_list_entry_size.
Qed.

Lemma list_reply_size data size body s bytes :
  (∀ id, size id = u32 (Z.of_nat (length (body id)))) →
  list_reply data size body = Some (Some (s, bytes)) → s = u32 (Z.of_nat (length bytes)).
Proof.
  intros Hsz. unfold list_reply. cbv zeta. case_if; [done|]. case_if.
  - destruct (get32bit bld data) as [[msgid data1]|]; [|done]. cbn [mbind option_bind].
    destruct (get32bit bld data1) as [[id data2]|]; [|done]. cbn [mbind option_bind]. intros [= <- <-].
    rewrite Hsz, length_app, put32bit_be, length_be_bytes, Nat2Z.inj_add. unfold u32. by rewrite Z.add_mod_idemp_r.
  - destruct (get32bit bld data) as [[id data1]|]; [|done]. cbn [mbind option_bind]. intros [= <- <-]. apply Hsz.
Qed.

(** The packet of a listing has the size of its data: what the second pass
    writes fills the packet the first pass sized, and never runs past it (as long as
    a listing is shorter than 4 GiB). *)
Theorem listings_fill_their_packet data m s bytes :
  matoclserv_list_open_files data m = Some (Some (s, bytes)) ∨
  matoclserv_list_acquired_locks data m = Some (Some (s, bytes)) →
  Z.of_nat (length bytes) < 2 ^ 32 → Z.of_nat (length bytes) = s.
Proof.
  intros Hr Hlen. assert (s = u32 (Z.of_nat (length bytes))) as ->; [|unfold u32; rewrite Z.mod_small; lia].
  destruct Hr as [Hr|Hr]; (eapply list_reply_size; [|exact Hr]); intros id.
  - apply of_lsof_agree.
  - destruct (posix_lock_list_agree id (m_posix m)) as (-> & _), (flock_list_agree id (m_flocks m)) as (-> & _).
    unfold u32. by rewrite <-Z.add_mod, length_app, Nat2Z.inj_add.
Qed.

End lists.

Lemma listings_fill_their_packet_witness :
  ∃ s bytes, matoclserv_list_acquired_locks FastBE [0; 0; 0; 9; 0; 0; 0; 7] of_init = Some (Some (s, bytes)) ∧
    Z.of_nat (length bytes) = s.
Proof.
  eexists 4, [0; 0; 0; 9]. split; [vm_compute; reflexivity|].
  apply (listings_fill_their_packet FastBE [0; 0; 0; 9; 0; 0; 0; 7] of_init 4 [0; 0; 0; 9]);
    [right; vm_compute; reflexivity|simpl; lia].
Defined.
