(* ===== verification/GlobEngine.v ===== *)
(** * Wildcard patterns (globengine.c)

    A pattern is compiled to a list of atoms, which is cut at the asterisks into
    subpatterns of a fixed length; a name is matched by placing the subpatterns in it
    from left to right.  A C string is the list of its bytes before the terminating
    zero; a pointer into a buffer is what can be read from it on, and reading past the
    end of the buffer is [None].  [globtab] is the cache of compiled patterns.

    [globs] is the meaning of a pattern as the manual page gives it. *)

From S2P Require Import Prelude.

Abbreviation ch_star := 42.      (* '*' *)
Abbreviation ch_qmark := 63.     (* '?' *)
Abbreviation ch_open := 91.      (* '[' *)
Abbreviation ch_close := 93.     (* ']' *)
Abbreviation ch_backslash := 92. (* '\\' *)
Abbreviation ch_minus := 45.     (* '-' *)
Abbreviation ch_excl := 33.      (* '!' *)

Inductive atom :=
  | ATOM_STRING (str : list Z)
  | ATOM_ASTERISK
  | ATOM_QMARK
  | ATOM_RANGE (rangebits : list Z).

#[export] Instance atom_eq_dec : EqDecision atom.
Proof. solve_decision. Defined.

(** ** Sets of characters: eight 32-bit words *)

Definition range_set (neg : bool) (i : Z) (bits : list Z) : list Z :=
  let pos := Z.to_nat (Z.shiftr i 5) in
  let mask := u32 (Z.shiftl 1 (Z.land i 0x1F)) in
  if neg then alter (λ w, Z.land w (Z.lxor mask UINT32_MAX)) pos bits
  else alter (λ w, Z.lor w mask) pos bits.

(** [for (i=s[0] ; i<=s[2] ; i++)] with [i] of eight bits; [fuel] bounds the rounds. *)
Fixpoint range_loop (fuel : nat) (neg : bool) (i hi : Z) (bits : list Z) : option (list Z) :=
  match fuel with
  | O => None
  | S fuel => if i <=? hi then range_loop fuel neg (u8 (i + 1)) hi (range_set neg i bits) else Some bits
  end.

Fixpoint range_chars (fuel : nat) (neg : bool) (s : list Z) (bits : list Z) : option (list Z) :=
  match s with
  | [] => Some bits
  | a :: s1 =>
      match s1 with
      | b :: c :: s2 =>
          if b =? ch_minus then
            match range_loop fuel neg a c bits with
            | Some bits => range_chars fuel neg s2 bits
            | None => None
            end
          else range_chars fuel neg s1 (range_set neg a bits)
      | _ => range_chars fuel neg s1 (range_set neg a bits)
      end
  end.

(** [s] is the text between the brackets. *)
Definition parse_range (fuel : nat) (s : list Z) : option (list Z) :=
  match s with
  | c :: s' => if c =? ch_excl then range_chars fuel true s' (replicate 8 0xFFFFFFFF)
               else range_chars fuel false s (replicate 8 0)
  | [] => range_chars fuel false s (replicate 8 0)
  end.

Definition atom_range_match (rangebits : list Z) (c : Z) : bool :=
  let pos := Z.to_nat (Z.shiftr c 5) in
  let mask := u32 (Z.shiftl 1 (Z.land c 0x1F)) in
  negb (Z.land (default 0 (rangebits !! pos)) mask =? 0).

(** ** From text to atoms *)

(** The string that starts at [src], and what follows it. *)
Fixpoint unescape_string (src : list Z) : list Z * list Z :=
  match src with
  | [] => ([], [])
  | r :: src1 =>
      if r =? ch_backslash then
        match src1 with
        | c :: src2 => let '(dst, srcend) := unescape_string src2 in (c :: dst, srcend)
        | [] => ([r], [])
        end
      else if (r =? ch_open) || (r =? ch_star) || (r =? ch_qmark) then ([], src)
      else let '(dst, srcend) := unescape_string src1 in (r :: dst, srcend)
  end.

(** The text before the first closing bracket, and what follows the bracket. *)
Fixpoint find_close (p : list Z) : option (list Z * list Z) :=
  match p with
  | [] => None
  | c :: p => if c =? ch_close then Some ([], p)
              else match find_close p with Some (s, r) => Some (c :: s, r) | None => None end
  end.

(** [fuel] bounds the rounds of the loop and of the loops over ranges. *)
Fixpoint pattern_to_atoms_list (fuel : nat) (last_asterisk : bool) (p : list Z) : option (list atom) :=
  match fuel, p with
  | _, [] => Some []
  | O, _ :: _ => None
  | S fuel, c :: p1 =>
      let string (_ : unit) :=
        let '(str, srcend) :=
          if c =? ch_open then let '(dst, srcend) := unescape_string p1 in (ch_open :: dst, srcend)
          else unescape_string p in
        l ← pattern_to_atoms_list fuel false srcend; Some (ATOM_STRING str :: l) in
      if c =? ch_star then
        if last_asterisk then pattern_to_atoms_list fuel true p1
        else l ← pattern_to_atoms_list fuel true p1; Some (ATOM_ASTERISK :: l)
      else if c =? ch_qmark then
        l ← pattern_to_atoms_list fuel false p1; Some (ATOM_QMARK :: l)
      else if c =? ch_open then
        match find_close p1 with
        | Some (s, r) =>
            bits ← parse_range 257 s;
            l ← pattern_to_atoms_list fuel false r; Some (ATOM_RANGE bits :: l)
        | None => string ()
        end
      else string ()
  end.

(** ** Compiled patterns

    The numbers of atoms and the lengths are kept in eight bits; the master compiles
    patterns of at most 255 bytes. *)

Record subpattern := mk_subpattern { attab : list atom; sp_leng : Z }.

Record globpattern := mk_globpattern {
  sptab : list subpattern; minleng : Z; flag_first : bool; flag_last : bool }.

Definition atelements (sp : subpattern) : Z := u8 (Z.of_nat (length (attab sp))).

Definition atom_leng (a : atom) : Z :=
  match a with ATOM_STRING str => Z.of_nat (length str) | _ => 1 end.

(** The atoms between the asterisks; an asterisk at the end opens no subpattern. *)
Fixpoint split_atoms (cur : list atom) (l : list atom) : list (list atom) :=
  match l with
  | [] => [cur]
  | ATOM_ASTERISK :: [] => [cur]
  | ATOM_ASTERISK :: l => cur :: split_atoms [] l
  | a :: l => split_atoms (cur ++ [a]) l
  end.

Fixpoint ends_in_asterisk (l : list atom) : bool :=
  match l with
  | [] => false
  | ATOM_ASTERISK :: [] => true
  | _ :: l => ends_in_asterisk l
  end.

Definition mk_sub (l : list atom) : subpattern :=
  mk_subpattern l (foldl (λ n a, u8 (n + atom_leng a)) 0 l).

Definition sub_structure (first : bool) (l : list atom) : globpattern :=
  let tab := mk_sub <$> split_atoms [] l in
  mk_globpattern tab (foldl (λ n sp, u32 (n + sp_leng sp)) 0 tab) first (ends_in_asterisk l).

Definition atoms_list_to_pattern_structure (l : list atom) : globpattern :=
  match l with
  | [] => mk_globpattern [] 0 false false
  | ATOM_ASTERISK :: [] => mk_globpattern [] 0 true true
  | ATOM_ASTERISK :: l => sub_structure true l
  | _ => sub_structure false l
  end.

(** [None]: the loop over a range does not end. *)
Definition glob_new (globstr : list Z) : option globpattern :=
  atoms_list_to_pattern_structure <$> pattern_to_atoms_list (length globstr) false globstr.

(** ** Matching

    [name] is what can be read from the pointer on, [nleng] the length the code
    believes it has. *)

Fixpoint atoms_match_exact (l : list atom) (name : list Z) (nleng : Z) : option bool :=
  match l with
  | [] => Some true
  | ATOM_STRING str :: l =>
      let leng := Z.of_nat (length str) in
      if nleng <? leng then Some false
      else if (length name <? length str)%nat then None
      else if bool_decide (take (length str) name = str) then
        atoms_match_exact l (drop (length str) name) (u8 (nleng - leng))
      else Some false
  | ATOM_QMARK :: l =>
      if nleng =? 0 then Some false else atoms_match_exact l (drop 1 name) (u8 (nleng - 1))
  | ATOM_RANGE bits :: l =>
      if nleng =? 0 then Some false
      else match name with
           | [] => None
           | c :: name => if atom_range_match bits c then atoms_match_exact l name (u8 (nleng - 1)) else Some false
           end
  | ATOM_ASTERISK :: _ => Some false
  end.

Definition subpattern_match_exact (sp : subpattern) (name : list Z) (nleng : Z) : option bool :=
  atoms_match_exact (take (Z.to_nat (atelements sp)) (attab sp)) name nleng.

(** The first position of the subpattern at or after [pos], or -1. *)
Fixpoint closest_loop (fuel : nat) (sp : subpattern) (name : list Z) (nleng pos : Z) : option Z :=
  match fuel with
  | O => None
  | S fuel =>
      if sp_leng sp <=? u32 (nleng - pos) then
        m ← subpattern_match_exact sp (drop (Z.to_nat pos) name) (u8 (nleng - pos));
        if (m : bool) then Some pos else closest_loop fuel sp name nleng (u32 (pos + 1))
      else Some (-1)
  end.

Definition subpattern_closest_match (sp : subpattern) (name : list Z) (nleng : Z) : option Z :=
  closest_loop 257 sp name nleng 0.

(** The end of the name against the last subpattern. *)
Definition match_suffix (sp : subpattern) (name : list Z) (nleng : Z) : option bool :=
  subpattern_match_exact sp (drop (Z.to_nat (nleng - sp_leng sp)) name) (sp_leng sp).

(** The loop over the subpatterns between the first, of length [leng0], and the last;
    then the last one. *)
Fixpoint match_rest (leng0 : Z) (last : bool) (sps : list subpattern) (name : list Z) (nleng : Z) : option bool :=
  match sps with
  | [] => Some false
  | [sp] =>
      if last then pos ← subpattern_closest_match sp name nleng; Some (negb (pos <? 0))
      else if nleng <? sp_leng sp then Some false
      else match_suffix sp name nleng
  | sp :: sps =>
      pos ← subpattern_closest_match sp name nleng;
      if pos <? 0 then Some false
      else match_rest leng0 last sps (drop (Z.to_nat (pos + leng0)) name) (u8 (nleng - (pos + leng0)))
  end.

Definition pattern_match (p : globpattern) (name : list Z) (nleng : Z) : option bool :=
  if nleng <? minleng p then Some false
  else match sptab p with
  | [] => Some (flag_last p || flag_first p)
  | [sp] =>
      if nleng <? sp_leng sp then Some false
      else if flag_last p && flag_first p then
        pos ← subpattern_closest_match sp name nleng; Some (0 <=? pos)
      else if flag_last p then subpattern_match_exact sp name nleng
      else if flag_first p then match_suffix sp name nleng
      else if negb (sp_leng sp =? nleng) then Some false
      else subpattern_match_exact sp name nleng
  | sp :: sps =>
      if flag_first p then
        pos ← subpattern_closest_match sp name nleng;
        if pos <? 0 then Some false
        else match_rest (sp_leng sp) (flag_last p) sps (drop (Z.to_nat (pos + sp_leng sp)) name)
               (u8 (nleng - (pos + sp_leng sp)))
      else
        m ← subpattern_match_exact sp name nleng;
        if (m : bool) then match_rest (sp_leng sp) (flag_last p) sps (drop (Z.to_nat (sp_leng sp)) name) (u8 (nleng - sp_leng sp))
        else Some false
  end.

(** A name in its own buffer of [length name] bytes. *)
Definition glob_match (glob : globpattern) (name : list Z) : option bool :=
  pattern_match glob name (Z.of_nat (length name)).

(** ** The cache *)

Record globcache := mk_globcache {
  gc_glob : option globpattern; gc_valid : bool; gc_gnleng : Z; gc_gname : list Z; gc_mt : Z }.

Definition GLOB_CACHE_SIZE : nat := 16.

Definition glob_cache_init : list globcache :=
  replicate GLOB_CACHE_SIZE (mk_globcache None false 0 [] 0).

Definition gc_hit (gname : list Z) (e : globcache) : bool :=
  let gnleng := Z.of_nat (length gname) in
  gc_valid e && (gc_gnleng e =? gnleng)
  && ((gnleng =? 0) || bool_decide (take (length gname) (gc_gname e) = gname)).

(** The walk: the entry found, or the entry to use. *)
Fixpoint cache_walk (gname : list Z) (tab rest : list globcache) (i j : nat) : nat * bool :=
  match rest with
  | [] => (j, false)
  | e :: rest =>
      if gc_hit gname e then (i, true)
      else
        let mtj := default 0 (gc_mt <$> tab !! j) in
        cache_walk gname tab rest (S i) (if negb (gc_valid e) || (gc_mt e <? mtj) then i else j)
  end.

(** A pattern of a client may hold a zero byte; the copy in the cache ends there. *)
Fixpoint c_string (s : list Z) : list Z :=
  match s with [] => [] | c :: s => if c =? 0 then [] else c :: c_string s end.

(** [now] is [monotonic_seconds ()].  The pattern, [None] where compiling it does not
    end, and the cache afterwards. *)
Definition glob_cache_get (now : Z) (gname : list Z) (tab : list globcache) : option (globpattern * list globcache) :=
  let '(j, hit) := cache_walk gname tab tab 0 0 in
  e ← tab !! j;
  if (hit : bool) then
    g ← gc_glob e;
    Some (g, <[j := mk_globcache (gc_glob e) (gc_valid e) (gc_gnleng e) (gc_gname e) now]> tab)
  else
    g ← glob_new (c_string gname);
    Some (g, <[j := mk_globcache (Some g) true (gc_gnleng e) (gname ++ [0]) now]> tab).
