(* ===== verification/GlobFacts.v ===== *)
(** * The meaning of wildcard patterns, and what compiling them gives

    [globs p n] is the language of the manual page of [mfspatadmin]: the pattern [p]
    matches the name [n].  The lemmas show that the atoms a pattern is compiled to match
    the same names, and that cutting them at the asterisks changes nothing. *)

From S2P Require Import Prelude GlobEngine.

(** ** The language of patterns *)

(** The characters of a bracket: single ones and ranges. *)
Fixpoint class_chars (s : list Z) (c : Z) : bool :=
  match s with
  | [] => false
  | a :: s1 =>
      match s1 with
      | b :: z :: s2 => if b =? ch_minus then ((a <=? c) && (c <=? z)) || class_chars s2 c
                        else (c =? a) || class_chars s1 c
      | _ => (c =? a) || class_chars s1 c
      end
  end.

Definition class_member (s : list Z) (c : Z) : bool :=
  match s with
  | x :: s' => if x =? ch_excl then negb (class_chars s' c) else class_chars s c
  | [] => false
  end.

Definition is_special (c : Z) : bool :=
  (c =? ch_star) || (c =? ch_qmark) || (c =? ch_open) || (c =? ch_backslash).

Inductive globs : list Z → list Z → Prop :=
  | globs_end : globs [] []
  | globs_star p x n : globs p n → globs (ch_star :: p) (x ++ n)
  | globs_qmark p c n : globs p n → globs (ch_qmark :: p) (c :: n)
  | globs_class s r c n : ch_close ∉ s → class_member s c = true → globs r n →
      globs (ch_open :: s ++ ch_close :: r) (c :: n)
  | globs_open p n : ch_close ∉ p → globs p n → globs (ch_open :: p) (ch_open :: n)
  | globs_escape c p n : globs p n → globs (ch_backslash :: c :: p) (c :: n)
  | globs_escape_end : globs [ch_backslash] [ch_backslash]
  | globs_char c p n : is_special c = false → globs p n → globs (c :: p) (c :: n).

(** No bracket of the pattern has a range that ends at the character 255. *)
Fixpoint class_ends (s : list Z) : bool :=
  match s with
  | [] => true
  | a :: s1 =>
      match s1 with
      | b :: z :: s2 => if b =? ch_minus then (z <? 255) && class_ends s2 else class_ends s1
      | _ => class_ends s1
      end
  end.

(** ** Sets of characters *)

Definition bit_of (bits : list Z) (c : Z) : bool :=
  Z.testbit (default 0 (bits !! Z.to_nat (Z.shiftr c 5))) (Z.land c 0x1F).

Lemma land_mod5 c : Z.land c 0x1F = c `mod` 32.
Proof. change 0x1F with (Z.ones 5). by rewrite Z.land_ones. Qed.

Lemma shiftr_div5 c : Z.shiftr c 5 = c `div` 32.
Proof. by rewrite Z.shiftr_div_pow2. Qed.

Lemma mask_bit c k : 0 ≤ k → Z.testbit (u32 (Z.shiftl 1 (c `mod` 32))) k = (k =? c `mod` 32).
Proof.
  intros Hk. pose proof (Z.mod_pos_bound c 32 ltac:(lia)).
  unfold u32. rewrite Z.mod_small.
  - rewrite Z.shiftl_1_l, Z.pow2_bits_eqb by lia. destruct (Z.eqb_spec k (c `mod` 32)), (Z.eqb_spec (c `mod` 32) k); lia.
  - rewrite Z.shiftl_1_l. split; [lia|]. apply Z.pow_lt_mono_r; lia.
Qed.

Lemma atom_range_match_bit bits c : atom_range_match bits c = bit_of bits c.
Proof.
  unfold atom_range_match, bit_of. rewrite !land_mod5. set (w := default 0 _).
  pose proof (Z.mod_pos_bound c 32 ltac:(lia)).
  destruct (Z.testbit w (c `mod` 32)) eqn:E.
  - apply negb_true_iff, Z.eqb_neq. intros H0.
    assert (Hb : Z.testbit (Z.land w (u32 (Z.shiftl 1 (c `mod` 32)))) (c `mod` 32) = true).
    { rewrite Z.land_spec, mask_bit, Z.eqb_refl, andb_true_r by lia. done. }
    rewrite H0 in Hb. by rewrite Z.bits_0 in Hb.
  - apply negb_false_iff, Z.eqb_eq, Z.bits_inj'. intros k Hk.
    rewrite Z.land_spec, mask_bit, Z.bits_0 by done.
    destruct (Z.eqb_spec k (c `mod` 32)) as [->|]; [|by rewrite andb_false_r].
    by rewrite E.
Qed.

Lemma same_char i c : Z.shiftr c 5 = Z.shiftr i 5 → c `mod` 32 = i `mod` 32 → c = i.
Proof. rewrite !shiftr_div5. intros. rewrite (Z.div_mod c 32), (Z.div_mod i 32); lia. Qed.

Lemma bit_of_range_set neg i c bits :
  is_u8 i → is_u8 c → length bits = 8%nat →
  bit_of (range_set neg i bits) c = if c =? i then negb neg else bit_of bits c.
Proof.
  unfold is_u8. intros Hi Hc Hl.
  assert (Hpos : (Z.to_nat (Z.shiftr c 5) < 8)%nat).
  { rewrite shiftr_div5. assert (c `div` 32 < 8) by (apply Z.div_lt_upper_bound; lia).
    assert (0 ≤ c `div` 32) by (apply Z.div_pos; lia). lia. }
  assert (Hge : ∀ z, 0 ≤ z → 0 ≤ Z.shiftr z 5) by (intros; by apply Z.shiftr_nonneg).
  destruct (lookup_lt_is_Some_2 bits (Z.to_nat (Z.shiftr c 5)) ltac:(lia)) as [w Hw].
  pose proof (Z.mod_pos_bound c 32 ltac:(lia)). unfold bit_of, range_set.
  destruct (Z.eqb_spec (Z.shiftr c 5) (Z.shiftr i 5)) as [Heq|Hne].
  - rewrite <-Heq. destruct neg; rewrite list_lookup_alter, Hw, decide_True by done; rewrite !land_mod5; cbn [fmap option_fmap option_map default from_option id].
    + rewrite Z.land_spec, Z.lxor_spec, mask_bit by lia.
      assert (Hu : Z.testbit UINT32_MAX (c `mod` 32) = true).
      { change UINT32_MAX with (Z.ones 32). rewrite Z.ones_spec_low; [done|lia]. }
      rewrite Hu. destruct (Z.eqb_spec c i) as [->|Hci]; [by rewrite Z.eqb_refl, andb_false_r|].
      destruct (Z.eqb_spec (c `mod` 32) (i `mod` 32)); [by destruct Hci; apply same_char|]. by rewrite andb_true_r.
    + rewrite Z.lor_spec, mask_bit by lia.
      destruct (Z.eqb_spec c i) as [->|Hci]; [by rewrite Z.eqb_refl, orb_true_r|].
      destruct (Z.eqb_spec (c `mod` 32) (i `mod` 32)); [by destruct Hci; apply same_char|]. by rewrite orb_false_r.
  - destruct (Z.eqb_spec c i) as [->|_]; [done|].
    assert (Z.to_nat (Z.shiftr i 5) ≠ Z.to_nat (Z.shiftr c 5)).
    { pose proof (Hge c ltac:(lia)). pose proof (Hge i ltac:(lia)). lia. }
    destruct neg; by rewrite list_lookup_alter_ne by done.
Qed.

Lemma range_set_length neg i bits : length (range_set neg i bits) = length bits.
Proof. unfold range_set. destruct neg; apply length_alter. Qed.

(** The loop over a range ends, and adds (removes) the characters of the range, when
    the range does not end at 255; at 255 it never ends. *)
Lemma range_loop_spec neg hi c : is_u8 c → hi < 255 → ∀ fuel i bits,
  0 ≤ i ≤ 255 → length bits = 8%nat → (Z.to_nat (256 - i) < fuel)%nat →
  ∃ bits', range_loop fuel neg i hi bits = Some bits' ∧ length bits' = 8%nat
    ∧ bit_of bits' c = if (i <=? c) && (c <=? hi) then negb neg else bit_of bits c.
Proof.
  intros Hc Hhi. induction fuel as [|fuel IH]; intros i bits Hi Hl Hf; [lia|]. cbn [range_loop].
  case_if.
  - unfold u8. rewrite Z.mod_small by lia.
    destruct (IH (i + 1) (range_set neg i bits)) as (bits' & -> & Hl' & Hb);
      [lia|by rewrite range_set_length|lia|].
    exists bits'. split_and!; [done|done|]. rewrite Hb, bit_of_range_set by (unfold is_u8; lia || done).
    repeat case_if; try lia; done.
  - exists bits. split_and!; [done|done|]. case_if; [lia|done].
Qed.

Lemma range_loop_endless neg fuel : ∀ i bits, is_u8 i → range_loop fuel neg i 255 bits = None.
Proof.
  induction fuel as [|fuel IH]; intros i bits Hi; [done|]. cbn [range_loop].
  unfold is_u8 in Hi. rewrite (proj2 (Z.leb_le i 255)) by lia.
  apply IH. unfold is_u8, u8. apply Z.mod_pos_bound. lia.
Qed.

Lemma range_chars_spec neg c : is_u8 c → ∀ n s bits, (length s ≤ n)%nat →
  Forall is_u8 s → class_ends s = true → length bits = 8%nat →
  ∃ bits', range_chars 257 neg s bits = Some bits' ∧ length bits' = 8%nat
    ∧ bit_of bits' c = if class_chars s c then negb neg else bit_of bits c.
Proof.
  intros Hc. induction n as [|n IH]; intros s bits Hn Hs He Hl.
  - destruct s; [by exists bits|cbn in Hn; lia].
  - destruct s as [|a s1]; [by exists bits|]. apply Forall_cons in Hs as [Ha Hs1].
    assert (Hone : class_ends s1 = true → ∃ bits', range_chars 257 neg s1 (range_set neg a bits) = Some bits'
      ∧ length bits' = 8%nat ∧ bit_of bits' c = if (c =? a) || class_chars s1 c then negb neg else bit_of bits c).
    { intros He1. destruct (IH s1 (range_set neg a bits)) as (bits' & -> & Hl' & Hb);
        [cbn in Hn; lia|done|done|by rewrite range_set_length|].
      exists bits'. split_and!; [done|done|]. rewrite Hb, bit_of_range_set by done.
      destruct (class_chars s1 c), (c =? a); done. }
    destruct s1 as [|b s1']; [by apply Hone|]. destruct s1' as [|z s2]; [by apply Hone|].
    cbn [range_chars class_chars class_ends] in *. destruct (b =? ch_minus); [|by apply Hone].
    apply andb_prop in He as [Hz He]. apply Z.ltb_lt in Hz.
    do 2 apply Forall_cons in Hs1 as [? Hs1]. unfold is_u8 in Ha.
    destruct (range_loop_spec neg z c Hc Hz 257 a bits) as (bits1 & -> & Hl1 & Hb1); [lia|done|lia|].
    destruct (IH s2 bits1) as (bits' & -> & Hl' & Hb); [cbn in Hn; lia|done|done|done|].
    exists bits'. split_and!; [done|done|]. rewrite Hb, Hb1.
    destruct (class_chars s2 c), ((a <=? c) && (c <=? z)); done.
Qed.

Definition class_ok (s : list Z) : bool :=
  match s with c :: s' => if c =? ch_excl then class_ends s' else class_ends s | [] => true end.

Lemma bit_of_replicate w c : is_u8 c → bit_of (replicate 8 w) c = Z.testbit w (c `mod` 32).
Proof.
  unfold is_u8, bit_of. intros Hc. rewrite land_mod5, lookup_replicate_2; [done|].
  rewrite shiftr_div5. assert (c `div` 32 < 8) by (apply Z.div_lt_upper_bound; lia).
  assert (0 ≤ c `div` 32) by (apply Z.div_pos; lia). lia.
Qed.

Lemma parse_range_some s : Forall is_u8 s → class_ok s = true → is_Some (parse_range 257 s).
Proof.
  unfold parse_range, class_ok. intros Hs Ho. destruct s as [|a s']; [done|].
  case_if; [apply Forall_cons in Hs as [_ Hs]|];
    match goal with |- context [range_chars _ ?neg ?s (replicate 8 ?w)] =>
      destruct (range_chars_spec neg 0 ltac:(done) _ s _ (le_n _) Hs Ho (length_replicate 8 w)) as (? & -> & _); done end.
Qed.

Lemma parse_range_spec s bits c :
  Forall is_u8 s → class_ok s = true → is_u8 c → parse_range 257 s = Some bits →
  atom_range_match bits c = class_member s c.
Proof.
  intros Hs Ho Hc. rewrite atom_range_match_bit. pose proof (Z.mod_pos_bound c 32 ltac:(lia)).
  unfold parse_range, class_ok, class_member in *. destruct s as [|a s'].
  - intros E. assert (bits = replicate 8 0) as -> by (cbn in E |- *; congruence).
    rewrite bit_of_replicate by done. apply Z.bits_0.
  - case_if; [apply Forall_cons in Hs as [_ Hs]|];
      match goal with |- context [range_chars _ ?neg ?s (replicate 8 ?w)] =>
        destruct (range_chars_spec neg c Hc _ s _ (le_n _) Hs Ho (length_replicate 8 w)) as (? & -> & _ & Hb) end;
      intros [= <-]; rewrite Hb, bit_of_replicate by done.
    + change 0xFFFFFFFF with (Z.ones 32). rewrite Z.ones_spec_low by lia. by destruct (class_chars s' c).
    + rewrite Z.bits_0. by destruct (class_chars (a :: s') c).
Qed.

Lemma range_chars_endless neg : ∀ n s bits, (length s ≤ n)%nat →
  Forall is_u8 s → class_ends s = false → range_chars 257 neg s bits = None.
Proof.
  induction n as [|n IH]; intros s bits Hn Hs He; (destruct s as [|a s1]; [done|]); [cbn in Hn; lia|].
  apply Forall_cons in Hs as [Ha Hs1].
  destruct s1 as [|b s1']; [done|]. destruct s1' as [|z s2]; [done|].
  assert (Hstep : range_chars 257 neg (a :: b :: z :: s2) bits =
    if b =? ch_minus then match range_loop 257 neg a z bits with Some bits => range_chars 257 neg s2 bits | None => None end
    else range_chars 257 neg (b :: z :: s2) (range_set neg a bits)) by done.
  assert (Hends : class_ends (a :: b :: z :: s2) =
    if b =? ch_minus then (z <? 255) && class_ends s2 else class_ends (b :: z :: s2)) by done.
  rewrite Hstep. rewrite Hends in He. clear Hstep Hends.
  destruct (b =? ch_minus); [|apply IH; [cbn in *; lia|done|done]].
  do 2 apply Forall_cons in Hs1 as [? Hs1].
  destruct (Z.ltb_spec z 255) as [Hz|Hz].
  - destruct (range_loop _ _ _ _ _) as [bits1|]; [|done]. apply IH; [cbn in Hn; lia|done|done].
  - unfold is_u8 in *. replace z with 255 by lia. by rewrite range_loop_endless.
Qed.

Lemma parse_range_ok s : Forall is_u8 s → is_Some (parse_range 257 s) ↔ class_ok s = true.
Proof.
  intros Hs. split; [|by apply parse_range_some].
  intros [bits Hb]. apply not_false_is_true. intros Ho.
  unfold parse_range, class_ok in *. destruct s as [|a s']; [done|].
  revert Ho Hb. destruct (a =? ch_excl); intros Ho Hb; [apply Forall_cons in Hs as [_ Hs]|];
    by erewrite range_chars_endless in Hb by done.
Qed.

(** ** Atoms *)

Fixpoint amatch (l : list atom) (n : list Z) : Prop :=
  match l with
  | [] => n = []
  | ATOM_STRING str :: l => ∃ n', n = str ++ n' ∧ amatch l n'
  | ATOM_ASTERISK :: l => ∃ x n', n = x ++ n' ∧ amatch l n'
  | ATOM_QMARK :: l => ∃ c n', n = c :: n' ∧ amatch l n'
  | ATOM_RANGE bits :: l => ∃ c n', n = c :: n' ∧ atom_range_match bits c = true ∧ amatch l n'
  end.

Lemma find_close_some p s r : find_close p = Some (s, r) → p = s ++ ch_close :: r ∧ ch_close ∉ s.
Proof.
  revert s r. induction p as [|c p IH]; intros s r; cbn [find_close]; [done|]. case_if.
  - intros [= <- <-]. subst. split; [done|]. set_solver.
  - destruct (find_close p) as [[s0 r0]|]; [|done]. intros [= <- <-].
    destruct (IH s0 r0 eq_refl) as [-> ?]. split; [done|]. set_solver.
Qed.

Lemma find_close_none p : find_close p = None → ch_close ∉ p.
Proof.
  induction p as [|c p IH]; cbn [find_close]; [set_solver|]. case_if; [done|].
  destruct (find_close p) as [[]|]; [done|]. specialize (IH eq_refl). set_solver.
Qed.

(** *** The rules backwards *)

Lemma globs_nil_inv n : globs [] n ↔ n = [].
Proof. split; [by inversion 1|intros ->; constructor]. Qed.

Lemma globs_star_inv p n : globs (ch_star :: p) n ↔ ∃ x n', n = x ++ n' ∧ globs p n'.
Proof.
  split; [|intros (x & n' & -> & ?); by constructor].
  inversion 1; subst; first [by eauto | cbv in *; done].
Qed.

Lemma globs_qmark_inv p n : globs (ch_qmark :: p) n ↔ ∃ c n', n = c :: n' ∧ globs p n'.
Proof.
  split; [|intros (x & n' & -> & ?); by constructor].
  inversion 1; subst; first [by eauto | cbv in *; done].
Qed.

Lemma globs_char_inv c p n : is_special c = false → globs (c :: p) n ↔ ∃ n', n = c :: n' ∧ globs p n'.
Proof.
  intros Hc. split; [|intros (n' & -> & ?); by constructor].
  inversion 1; subst; first [by eauto | cbv in Hc; done].
Qed.

Lemma globs_escape_inv c p n : globs (ch_backslash :: c :: p) n ↔ ∃ n', n = c :: n' ∧ globs p n'.
Proof.
  split; [|intros (n' & -> & ?); by constructor].
  inversion 1; subst; first [by eauto | cbv in *; done].
Qed.

Lemma globs_escape_end_inv n : globs [ch_backslash] n ↔ n = [ch_backslash].
Proof. split; [|intros ->; constructor]. inversion 1; subst; first [done | cbv in *; done]. Qed.

Lemma globs_open_inv p n : find_close p = None → globs (ch_open :: p) n ↔ ∃ n', n = ch_open :: n' ∧ globs p n'.
Proof.
  intros Hp%find_close_none. split; [|intros (n' & -> & ?); by constructor].
  inversion 1; subst; first [by eauto | set_solver | cbv in *; done].
Qed.

Lemma split_at_unique (s r s' r' : list Z) :
  s ++ ch_close :: r = s' ++ ch_close :: r' → ch_close ∉ s → ch_close ∉ s' → s = s' ∧ r = r'.
Proof.
  revert s'. induction s as [|c s IH]; intros [|c' s'] Heq Hs Hs'; simplify_eq/=; [done|set_solver|set_solver|].
  destruct (IH s') as [-> ->]; [done|set_solver|set_solver|done].
Qed.

Lemma globs_class_inv p s r n : find_close p = Some (s, r) →
  globs (ch_open :: p) n ↔ ∃ c n', n = c :: n' ∧ class_member s c = true ∧ globs r n'.
Proof.
  intros [-> Hs]%find_close_some. split; [|intros (c & n' & -> & ? & ?); by constructor].
  inversion 1 as [| | |s' r' c n' Hs' Hm Hr Heq| | | |]; subst.
  - apply split_at_unique in Heq as [-> ->]; [|done..]. eauto.
  - set_solver.
  - cbv in *; done.
Qed.

(** *** Strings *)

Lemma unescape_globs k : ∀ p n, (length p ≤ k)%nat →
  globs p n ↔ ∃ n', n = (unescape_string p).1 ++ n' ∧ globs (unescape_string p).2 n'.
Proof.
  induction k as [|k IH]; intros p n Hk; (destruct p as [|c p]; [cbn; naive_solver|]); [cbn in Hk; lia|].
  cbn [unescape_string]. destruct (Z.eqb_spec c ch_backslash) as [->|Hb].
  - destruct p as [|c2 p].
    + rewrite globs_escape_end_inv. cbn. split; [intros ->; eexists; split; [done|constructor]|].
      intros (n' & -> & ->%globs_nil_inv). done.
    + destruct (unescape_string p) as [dst srcend] eqn:E. cbn [fst snd]. rewrite globs_escape_inv.
      specialize (IH p). rewrite E in IH. cbn [fst snd] in IH.
      split; [intros (n' & -> & (n2 & -> & ?)%IH); [by eauto|cbn in Hk; lia]|].
      intros (n' & -> & ?). eexists. split; [done|]. apply IH; [cbn in Hk; lia|by eauto].
  - destruct ((c =? ch_open) || (c =? ch_star) || (c =? ch_qmark)) eqn:Ec.
    + cbn [fst snd app]. naive_solver.
    + assert (Hs : is_special c = false).
      { unfold is_special. apply orb_false_elim in Ec as [[-> ->]%orb_false_elim ->].
        by rewrite (proj2 (Z.eqb_neq _ _) Hb). }
      destruct (unescape_string p) as [dst srcend] eqn:E. cbn [fst snd]. rewrite globs_char_inv by done.
      specialize (IH p). rewrite E in IH. cbn [fst snd] in IH.
      split; [intros (n' & -> & (n2 & -> & ?)%IH); [by eauto|cbn in Hk; lia]|].
      intros (n' & -> & ?). eexists. split; [done|]. apply IH; [cbn in Hk; lia|by eauto].
Qed.

Lemma unescape_lengths k : ∀ p, (length p ≤ k)%nat →
  (length (unescape_string p).1 + length (unescape_string p).2 ≤ length p)%nat.
Proof.
  induction k as [|k IH]; intros p Hk; (destruct p as [|c p]; [done|]); [cbn in Hk; lia|].
  cbn [unescape_string]. destruct (c =? ch_backslash); [|destruct (_ || _ || _); [done|]].
  - destruct p as [|c2 p]; [done|]. specialize (IH p ltac:(cbn in Hk; lia)).
    destruct (unescape_string p). cbn in *. lia.
  - specialize (IH p ltac:(cbn in Hk; lia)). destruct (unescape_string p). cbn in *. lia.
Qed.

Lemma unescape_suffix k : ∀ p, (length p ≤ k)%nat → ∃ q, p = q ++ (unescape_string p).2.
Proof.
  induction k as [|k IH]; intros p Hk; (destruct p as [|c p]; [by exists []|]); [cbn in Hk; lia|].
  cbn [unescape_string]. destruct (c =? ch_backslash); [|destruct (_ || _ || _); [by exists []|]].
  - destruct p as [|c2 p]; [by exists [c]|]. destruct (IH p) as [q Hq]; [cbn in Hk; lia|].
    destruct (unescape_string p) as [d s]. cbn in *. exists (c :: c2 :: q). by rewrite Hq at 1.
  - destruct (IH p) as [q Hq]; [cbn in Hk; lia|].
    destruct (unescape_string p) as [d s]. cbn in *. exists (c :: q). by rewrite Hq at 1.
Qed.

Lemma unescape_nonempty c p :
  (c =? ch_open) || (c =? ch_star) || (c =? ch_qmark) = false → (0 < length (unescape_string (c :: p)).1)%nat.
Proof.
  intros Hc. cbn [unescape_string]. rewrite Hc.
  destruct (c =? ch_backslash); [destruct p as [|c2 p]; [cbn; lia|]|];
    destruct (unescape_string p); cbn; lia.
Qed.

(** *** The atoms of a pattern match what the pattern matches *)

(** After an asterisk the rest may start anywhere. *)
Definition lead (la : bool) (P : list Z → Prop) (n : list Z) : Prop :=
  if la then ∃ x n', n = x ++ n' ∧ P n' else P n.

Lemma lead_iff la (P Q : list Z → Prop) n :
  Forall is_u8 n → (∀ n, Forall is_u8 n → P n ↔ Q n) → lead la P n ↔ lead la Q n.
Proof.
  intros Hn HPQ. destruct la; cbn; [|by apply HPQ].
  split; intros (x & n' & -> & ?); apply Forall_app in Hn as [_ ?]; do 2 eexists; (split; [done|]); by apply HPQ.
Qed.

Lemma lead_twice (P : list Z → Prop) n : lead true (lead true P) n ↔ lead true P n.
Proof.
  cbn. split.
  - intros (x & n' & -> & y & n2 & -> & ?). exists (x ++ y), n2. by rewrite (assoc_L (++)).
  - intros (x & n' & -> & ?). exists [], (x ++ n'). eauto.
Qed.

Fixpoint atoms_leng (l : list atom) : Z :=
  match l with
  | [] => 0
  | ATOM_ASTERISK :: l => atoms_leng l
  | a :: l => atom_leng a + atoms_leng l
  end.

(** What one round of the loop gives: the new atoms, the text they come from. *)
Lemma string_round p str rest :
  unescape_string p = (str, rest) → Forall is_u8 p →
  Forall is_u8 rest ∧ (length str + length rest ≤ length p)%nat
  ∧ ∀ n, globs p n ↔ ∃ n', n = str ++ n' ∧ globs rest n'.
Proof.
  intros E Hp. pose proof (unescape_lengths _ p (le_n _)) as Hl.
  destruct (unescape_suffix _ p (le_n _)) as [q Hq]. rewrite E in Hl, Hq. cbn in Hl, Hq.
  split_and!; [by rewrite Hq, Forall_app in Hp; apply Hp|done|].
  intros n. rewrite (unescape_globs _ p n (le_n _)). by rewrite E.
Qed.

Lemma atoms_globs fuel : ∀ la p l, (length p ≤ fuel)%nat → Forall is_u8 p →
  pattern_to_atoms_list fuel la p = Some l →
  ((length l ≤ length p)%nat ∧ atoms_leng l ≤ Z.of_nat (length p))
  ∧ ∀ n, Forall is_u8 n → lead la (amatch l) n ↔ lead la (globs p) n.
Proof.
  induction fuel as [|fuel IH]; intros la p l Hf Hp; (destruct p as [|c p1];
    [cbn; intros [= <-]; split; [done|]; intros n Hn; apply lead_iff; [done|]; intros; by rewrite globs_nil_inv|]);
    [cbn in Hf; lia|].
  assert (Hstring : ∀ str rest, (0 < length str)%nat → (length str + length rest ≤ length (c :: p1))%nat →
    Forall is_u8 rest → (∀ n, globs (c :: p1) n ↔ ∃ n', n = str ++ n' ∧ globs rest n') →
    (l ← pattern_to_atoms_list fuel false rest; Some (ATOM_STRING str :: l)) = Some l →
    ((length l ≤ length (c :: p1))%nat ∧ atoms_leng l ≤ Z.of_nat (length (c :: p1)))
    ∧ ∀ n, Forall is_u8 n → lead la (amatch l) n ↔ lead la (globs (c :: p1)) n).
  { intros str rest H0 Hlen Hrest Hglobs. destruct (pattern_to_atoms_list _ _ _) as [l1|] eqn:E; [|done].
    cbn [mbind option_bind]. intros [= <-]. apply IH in E as [[Hl1 Hl2] Hm]; [|lia|done].
    split; [cbn -[Z.of_nat] in *; split; lia|]. intros n Hn. apply lead_iff; [done|]. clear n Hn. intros n Hn.
    rewrite Hglobs. cbn [amatch]. split; intros (n' & -> & ?); (eexists; split; [done|]);
      apply Forall_app in Hn as [_ Hn]; by apply (Hm n' Hn). }
  pose proof Hp as [Hc Hp1]%Forall_cons. cbn [pattern_to_atoms_list].
  destruct (Z.eqb_spec c ch_star) as [->|Hstar].
  { destruct la.
    - intros E. apply IH in E as [[Hl1 Hl2] Hm]; [|cbn in Hf; lia|done].
      split; [cbn -[Z.of_nat] in *; split; lia|]. intros n Hn. rewrite (Hm n Hn), <-lead_twice.
      apply lead_iff; [done|]. clear. intros n Hn. by rewrite globs_star_inv.
    - destruct (pattern_to_atoms_list _ _ _) as [l1|] eqn:E; [|done]. cbn [mbind option_bind].
      intros [= <-]. apply IH in E as [[Hl1 Hl2] Hm]; [|cbn in Hf; lia|done].
      split; [cbn -[Z.of_nat] in *; split; lia|]. intros n Hn. cbn [lead amatch]. rewrite globs_star_inv. by apply Hm. }
  destruct (Z.eqb_spec c ch_qmark) as [->|Hqmark].
  { destruct (pattern_to_atoms_list _ _ _) as [l1|] eqn:E; [|done]. cbn [mbind option_bind].
    intros [= <-]. apply IH in E as [[Hl1 Hl2] Hm]; [|cbn in Hf; lia|done].
    split; [cbn -[Z.of_nat] in *; split; lia|]. intros n Hn. apply lead_iff; [done|]. clear n Hn. intros n Hn.
    rewrite globs_qmark_inv. cbn [amatch]. split; intros (c & n' & -> & ?); (do 2 eexists; split; [done|]);
      apply Forall_cons in Hn as [_ Hn]; by apply (Hm n' Hn). }
  destruct (Z.eqb_spec c ch_open) as [->|Hopen].
  - destruct (find_close p1) as [[s r]|] eqn:Ef.
    + pose proof Ef as [-> _]%find_close_some. apply Forall_app in Hp1 as [Hs [_ Hr]%Forall_cons].
      destruct (parse_range 257 s) as [bits|] eqn:Eb; [|done]. cbn [mbind option_bind].
      destruct (pattern_to_atoms_list _ _ _) as [l1|] eqn:E; [|done]. cbn [mbind option_bind].
      intros [= <-]. apply IH in E as [[Hl1 Hl2] Hm]; [|cbn in Hf; rewrite length_app in Hf; cbn in Hf; lia|done].
      split; [cbn -[Z.of_nat] in *; rewrite length_app; cbn -[Z.of_nat]; split; lia|].
      intros n Hn. apply lead_iff; [done|]. clear n Hn. intros n Hn.
      assert (Hok : class_ok s = true) by (apply parse_range_ok; [done|by eexists]).
      rewrite (globs_class_inv _ s r) by done. cbn [amatch].
      split; intros (c & n' & -> & Hcm & ?); (do 2 eexists; split; [done|]); apply Forall_cons in Hn as [Hc' Hn];
        (split; [|by apply (Hm n' Hn)]); [by erewrite <-parse_range_spec|by erewrite parse_range_spec].
    + destruct (unescape_string p1) as [str rest] eqn:E. intros Hl.
      destruct (string_round p1 str rest) as (Hrest & Hlen & Hg); [done..|].
      revert Hl. apply Hstring; [cbn; lia|cbn; lia|done|]. intros n. rewrite globs_open_inv by done.
      split; [intros (n' & -> & (n2 & -> & ?)%Hg); by eauto|].
      intros (n' & -> & ?). eexists. split; [done|]. apply Hg. eauto.
  - destruct (unescape_string (c :: p1)) as [str rest] eqn:E. intros Hl.
    destruct (string_round (c :: p1) str rest) as (Hrest & Hlen & Hg); [done..|].
    revert Hl. apply Hstring; [|done..].
    pose proof (unescape_nonempty c p1) as H0. rewrite E in H0. apply H0.
    by rewrite !(proj2 (Z.eqb_neq _ _)).
Qed.

(** *** Compiling ends *)

Lemma class_ends_without s : ∀ k, (length s ≤ k)%nat → Forall (λ c, c < 255) s → class_ends s = true.
Proof.
  intros k. revert s. induction k as [|k IH]; intros s Hk Hs; (destruct s as [|a s1]; [done|]); [cbn in Hk; lia|].
  apply Forall_cons in Hs as [Ha Hs]. destruct s1 as [|b [|z s2]]; [done..|].
  assert (Hstep : class_ends (a :: b :: z :: s2) =
    if b =? ch_minus then (z <? 255) && class_ends s2 else class_ends (b :: z :: s2)) by done.
  rewrite Hstep. pose proof Hs as [_ [Hz Hs2]%Forall_cons]%Forall_cons.
  rewrite (proj2 (Z.ltb_lt z 255)) by done. destruct (b =? ch_minus); apply IH; try done; cbn in Hk |- *; lia.
Qed.

Lemma class_ok_without s : Forall (λ c, c < 255) s → class_ok s = true.
Proof.
  destruct s as [|a s]; [done|]. intros Hs. unfold class_ok.
  destruct (a =? ch_excl); [apply Forall_cons in Hs as [_ Hs]|]; by eapply class_ends_without.
Qed.

Lemma atoms_list_ends fuel : ∀ la p, (length p ≤ fuel)%nat → Forall (λ c, 0 ≤ c < 255) p →
  is_Some (pattern_to_atoms_list fuel la p).
Proof.
  induction fuel as [|fuel IH]; intros la p Hf Hp; (destruct p as [|c p1]; [done|]); [cbn in Hf; lia|].
  assert (Hnext : ∀ la p' a, (length p' ≤ fuel)%nat → Forall (λ c, 0 ≤ c < 255) p' →
    is_Some (l ← pattern_to_atoms_list fuel la p'; Some (a :: l))).
  { intros la' p' a Hl Hp'. destruct (IH la' p' Hl Hp') as [l ->]. by eexists. }
  assert (Hunesc : ∀ p', Forall (λ c, 0 ≤ c < 255) p' → Forall (λ c, 0 ≤ c < 255) (unescape_string p').2
    ∧ (length (unescape_string p').1 + length (unescape_string p').2 ≤ length p')%nat).
  { intros p' Hp'. split; [|by eapply unescape_lengths]. destruct (unescape_suffix _ p' (le_n _)) as [q Hq].
    rewrite Hq in Hp'. by apply Forall_app in Hp' as [_ ?]. }
  pose proof Hp as [Hc Hp1]%Forall_cons. cbn in Hf. cbn [pattern_to_atoms_list].
  destruct (c =? ch_star) eqn:Estar; [destruct la; [apply IH; [lia|done]|apply Hnext; [lia|done]]|].
  destruct (c =? ch_qmark) eqn:Eqm; [apply Hnext; [lia|done]|].
  destruct (c =? ch_open) eqn:Eo.
  - destruct (find_close p1) as [[s r]|] eqn:Ef.
    + apply find_close_some in Ef as [-> _]. apply Forall_app in Hp1 as [Hs [_ Hr]%Forall_cons].
      destruct (parse_range_some s) as [bits ->].
      * eapply Forall_impl; [exact Hs|]. unfold is_u8. intros; cbn in *; lia.
      * apply class_ok_without. eapply Forall_impl; [exact Hs|]. intros; cbn in *; lia.
      * apply Hnext; [rewrite length_app in Hf; cbn in Hf; lia|done].
    + destruct (Hunesc p1 Hp1) as [? ?]. destruct (unescape_string p1). apply Hnext; [cbn in *; lia|done].
  - destruct (Hunesc (c :: p1) Hp) as [? ?].
    pose proof (unescape_nonempty c p1) as Hne. rewrite Eo, Estar, Eqm in Hne. specialize (Hne eq_refl).
    destruct (unescape_string (c :: p1)). apply Hnext; [cbn in *; lia|done].
Qed.

(** *** A decision procedure *)

Fixpoint amatchb (l : list atom) (n : list Z) : bool :=
  match l with
  | [] => bool_decide (n = [])
  | ATOM_STRING str :: l => bool_decide (take (length str) n = str) && amatchb l (drop (length str) n)
  | ATOM_ASTERISK :: l =>
      (fix rest n := amatchb l n || match n with [] => false | _ :: n => rest n end) n
  | ATOM_QMARK :: l => match n with [] => false | _ :: n => amatchb l n end
  | ATOM_RANGE bits :: l => match n with [] => false | c :: n => atom_range_match bits c && amatchb l n end
  end.

Lemma amatchb_spec l : ∀ n, amatchb l n = true ↔ amatch l n.
Proof.
  induction l as [|a l IH]; intros n; [cbn; by rewrite bool_decide_eq_true|].
  destruct a as [str| | |bits]; cbn [amatchb amatch].
  - rewrite andb_true_iff, bool_decide_eq_true, IH. split.
    + intros [Ht ?]. exists (drop (length str) n). split; [|done]. rewrite <-Ht at 1. by rewrite take_drop.
    + intros (n' & -> & ?). by rewrite take_app_length, drop_app_length.
  - induction n as [|c n IHn].
    + rewrite orb_false_r, IH. split; [intros ?; by exists [], []|]. by intros ([] & [] & ? & ?).
    + rewrite orb_true_iff, IH, IHn. split.
      * intros [?|(x & n' & -> & ?)]; [by exists [], (c :: n)|by exists (c :: x), n'].
      * intros ([|c' x] & n' & ? & ?); simplify_eq/=; [by left|]. right. eauto.
  - destruct n as [|c n]; [split; [done|by intros (? & ? & ? & ?)]|]. rewrite IH. naive_solver.
  - destruct n as [|c n]; [split; [done|by intros (? & ? & ? & ?)]|]. rewrite andb_true_iff, IH. naive_solver.
Qed.

Definition globsb (globstr n : list Z) : option bool :=
  l ← pattern_to_atoms_list (length globstr) false globstr; Some (amatchb l n).

Lemma globs_decided globstr n b : globsb globstr n = Some b → Forall is_u8 globstr → Forall is_u8 n →
  if b then globs globstr n else ¬ globs globstr n.
Proof.
  unfold globsb. destruct (pattern_to_atoms_list _ _ _) as [l|] eqn:E; [|done]. cbn [mbind option_bind].
  intros [= <-] Hg Hn. apply atoms_globs in E as [_ Hm]; [|done|done]. specialize (Hm n Hn). cbn in Hm.
  pose proof (amatchb_spec l n). destruct (amatchb l n); naive_solver.
Qed.
