(* ===== verification/GlobMatch.v ===== *)
(** * Matching names with compiled patterns

    [pattern_match] places each subpattern at the first position where it fits; the
    theorem is that this finds a placement whenever there is one, provided that the
    subpatterns between the first and the last are as long as the first: the code steps
    over every one of them by the length of the first. *)

From S2P Require Import Prelude GlobEngine GlobFacts.

(** ** Placements of subpatterns *)

(** [gs] one after another anywhere in the name; the last one at its end, unless an
    asterisk follows. *)
Fixpoint floats (gs : list (list atom)) (last : bool) (n : list Z) : Prop :=
  match gs with
  | [] => last = true ∨ n = []
  | g :: gs => ∃ x m n', n = x ++ m ++ n' ∧ amatch g m ∧ floats gs last n'
  end.

Definition placed (first last : bool) (gs : list (list atom)) (n : list Z) : Prop :=
  if first then floats gs last n
  else match gs with
  | [] => False
  | g :: gs => ∃ m n', n = m ++ n' ∧ amatch g m ∧ floats gs last n'
  end.

Lemma amatch_app l1 l2 n : amatch (l1 ++ l2) n ↔ ∃ m n', n = m ++ n' ∧ amatch l1 m ∧ amatch l2 n'.
Proof.
  revert n. induction l1 as [|a l1 IH]; intros n; cbn [app amatch].
  - split; [by exists [], n|]. by intros (m & n' & -> & -> & ?).
  - destruct a; split.
    + intros (n' & -> & (m & n2 & -> & ? & ?)%IH). exists (str ++ m), n2. rewrite (assoc_L (++)). eauto.
    + intros (m & n' & -> & (m' & -> & ?) & ?). exists (m' ++ n'). rewrite (assoc_L (++)), IH. eauto 6.
    + intros (x & n' & -> & (m & n2 & -> & ? & ?)%IH). exists (x ++ m), n2. rewrite (assoc_L (++)). eauto 6.
    + intros (m & n' & -> & (x & m' & -> & ?) & ?). exists x, (m' ++ n'). rewrite (assoc_L (++)), IH. eauto 6.
    + intros (c & n' & -> & (m & n2 & -> & ? & ?)%IH). exists (c :: m), n2. eauto 6.
    + intros (m & n' & -> & (c & m' & -> & ?) & ?). exists c, (m' ++ n'). rewrite IH. eauto 6.
    + intros (c & n' & -> & ? & (m & n2 & -> & ? & ?)%IH). exists (c :: m), n2. eauto 8.
    + intros (m & n' & -> & (c & m' & -> & ? & ?) & ?). exists c, (m' ++ n'). rewrite IH. eauto 8.
Qed.

Lemma split_asterisk cur l : l ≠ [] → split_atoms cur (ATOM_ASTERISK :: l) = cur :: split_atoms [] l.
Proof. by destruct l. Qed.

Lemma ends_asterisk l : l ≠ [] → ends_in_asterisk (ATOM_ASTERISK :: l) = ends_in_asterisk l.
Proof. by destruct l. Qed.

Lemma split_plain cur a l : a ≠ ATOM_ASTERISK → split_atoms cur (a :: l) = split_atoms (cur ++ [a]) l.
Proof. by destruct a. Qed.

Lemma ends_plain a l : a ≠ ATOM_ASTERISK → ends_in_asterisk (a :: l) = ends_in_asterisk l.
Proof. by destruct a. Qed.

Lemma split_nonempty cur l : split_atoms cur l ≠ [].
Proof. revert cur. induction l as [|a l IH]; intros cur; [done|]. destruct a; cbn; try apply IH. by destruct l. Qed.

Lemma placed_floats last gs n : gs ≠ [] →
  (∃ x n', n = x ++ n' ∧ placed false last gs n') ↔ floats gs last n.
Proof.
  destruct gs as [|g gs]; [done|]. intros _. cbn. split.
  - intros (x & n' & -> & m & n2 & -> & ? & ?). eauto 8.
  - intros (x & m & n' & -> & ? & ?). exists x, (m ++ n'). eauto 8.
Qed.

Lemma split_placed l : ∀ cur n,
  amatch (cur ++ l) n ↔ placed false (ends_in_asterisk l) (split_atoms cur l) n.
Proof.
  induction l as [|a l IH]; intros cur n.
  - cbn. rewrite app_nil_r. split.
    + intros ?. exists n, []. rewrite app_nil_r. eauto.
    + intros (m & n' & -> & ? & [?| ->]); [done|]. by rewrite app_nil_r.
  - destruct (decide (a = ATOM_ASTERISK)) as [->|Ha].
    + rewrite amatch_app. destruct (decide (l = [])) as [->|Hl].
      * cbn. split; intros (m & n' & -> & ? & Hr); do 2 eexists; (split; [done|]); (split; [done|]); [by left|].
        exists n', []. by rewrite app_nil_r.
      * rewrite split_asterisk, ends_asterisk by done. cbn [placed].
        split; intros (m & n' & -> & ? & Hr); do 2 eexists; (split; [done|]); (split; [done|]).
        -- apply placed_floats; [apply split_nonempty|]. cbn [amatch] in Hr.
           destruct Hr as (x & n2 & -> & ?). do 2 eexists. split; [done|]. by apply (IH []).
        -- apply placed_floats in Hr as (x & n2 & -> & ?); [|apply split_nonempty].
           cbn [amatch]. do 2 eexists. split; [done|]. by apply (IH []).
    + rewrite split_plain, ends_plain by done. rewrite <-IH. by rewrite <-(assoc_L (++)).
Qed.

(** The names a compiled pattern stands for. *)
Definition plang (p : globpattern) (n : list Z) : Prop :=
  placed (flag_first p) (flag_last p) (attab <$> sptab p) n.

Lemma attab_mk_sub (gs : list (list atom)) : attab <$> (mk_sub <$> gs) = gs.
Proof. induction gs; csimpl; by f_equal. Qed.

Lemma compiled_lang l n : l ≠ [] → amatch l n ↔ plang (atoms_list_to_pattern_structure l) n.
Proof.
  intros Hl. destruct (decide (head l = Some ATOM_ASTERISK)) as [Ha|Ha].
  - destruct l as [|a l]; simplify_eq/=. destruct l as [|b l].
    + unfold plang. cbn. split; [by left|]. intros _. exists n, []. by rewrite app_nil_r.
    + unfold plang. cbn [atoms_list_to_pattern_structure sub_structure flag_first flag_last sptab].
      rewrite attab_mk_sub. unfold placed. rewrite <-placed_floats by apply split_nonempty.
      split; intros (x & n' & -> & ?); do 2 eexists; (split; [done|]); by apply (split_placed _ []).
  - assert (Hs : atoms_list_to_pattern_structure l = sub_structure false l) by (by destruct l as [|[] [|]]).
    rewrite Hs. unfold plang. cbn [sub_structure flag_first flag_last sptab]. rewrite attab_mk_sub.
    apply (split_placed l []).
Qed.

(** ** Subpatterns have one length *)

Definition plain (g : list atom) : Prop := ATOM_ASTERISK ∉ g.

Lemma atom_leng_nonneg a : 0 ≤ atom_leng a.
Proof. destruct a; cbn; lia. Qed.

Lemma plain_cons a g : plain (a :: g) ↔ a ≠ ATOM_ASTERISK ∧ plain g.
Proof. unfold plain. rewrite not_elem_of_cons. naive_solver. Qed.

Lemma atoms_leng_cons a g : a ≠ ATOM_ASTERISK → atoms_leng (a :: g) = atom_leng a + atoms_leng g.
Proof. by destruct a. Qed.

Lemma atoms_leng_nonneg g : 0 ≤ atoms_leng g.
Proof. induction g as [|a g IH]; [done|]. destruct a; cbn -[Z.of_nat] in *; lia. Qed.

Lemma atoms_leng_app g h : atoms_leng (g ++ h) = atoms_leng g + atoms_leng h.
Proof. induction g as [|a g IH]; [done|]. destruct a; cbn -[Z.of_nat] in *; lia. Qed.

Lemma amatch_leng g m : plain g → amatch g m → Z.of_nat (length m) = atoms_leng g.
Proof.
  revert m. induction g as [|a g IH]; intros m; [by intros _ ->|]. rewrite plain_cons. intros [Ha Hg].
  destruct a; cbn -[Z.of_nat]; [intros (n' & -> & ?)|done|intros (c & n' & -> & ?)|intros (c & n' & -> & _ & ?)];
    rewrite ?length_app; cbn -[Z.of_nat]; rewrite <-(IH n') by done; lia.
Qed.

Lemma amatch_empty g : plain g → atoms_leng g = 0 → amatch g [].
Proof.
  induction g as [|a g IH]; [done|]. rewrite plain_cons. intros [Ha Hg].
  rewrite atoms_leng_cons by done. pose proof (atoms_leng_nonneg g). destruct a; cbn -[Z.of_nat]; [|done|lia..].
  intros ?. destruct str; [|cbn in *; lia]. exists []. split; [done|]. apply IH; [done|]. cbn in *; lia.
Qed.

(** The subpattern fits at the start of [s]. *)
Definition fits (g : list atom) (s : list Z) : Prop := ∃ m n', s = m ++ n' ∧ amatch g m.

Lemma fits_cons_string str g s : fits (ATOM_STRING str :: g) s ↔ take (length str) s = str ∧ fits g (drop (length str) s).
Proof.
  unfold fits. cbn [amatch]. split.
  - intros (m & n' & -> & m' & -> & ?). rewrite <-(assoc_L (++)), take_app_length, drop_app_length. eauto.
  - intros (Ht & m & n' & Hd & ?). exists (str ++ m), n'. split; [|by eauto].
    rewrite <-(assoc_L (++)), <-Hd. rewrite <-(take_drop (length str) s) at 1. by rewrite Ht.
Qed.

Lemma atoms_match_exact_spec g : ∀ name nleng,
  plain g → Z.of_nat (length name) = nleng → nleng ≤ 255 →
  ∃ b, atoms_match_exact g name nleng = Some b ∧ (b = true ↔ fits g name).
Proof.
  induction g as [|a g IH]; intros name nleng Hg Hn Hle.
  - exists true. split; [done|]. split; [|done]. intros _. by exists [], name.
  - apply plain_cons in Hg as [Ha Hg].
    assert (Hno : ∀ P : Prop, ¬ P → ∃ b, Some false = Some b ∧ (b = true ↔ P)) by (intros P ?; exists false; naive_solver).
    destruct a as [str| | |bits]; cbn [atoms_match_exact]; [|done|..].
    + case_if; [apply Hno; rewrite fits_cons_string; intros [Ht _]; apply (f_equal length) in Ht;
        rewrite length_take in Ht; lia|].
      rewrite (proj2 (Nat.ltb_ge _ _)) by lia.
      case_bool_decide as Ht; [|apply Hno; by rewrite fits_cons_string; intros [? _]].
      unfold u8. rewrite Z.mod_small by lia.
      destruct (IH (drop (length str) name) (nleng - Z.of_nat (length str)) Hg) as (b & -> & Hb);
        [rewrite length_drop; lia|lia|].
      exists b. rewrite fits_cons_string. naive_solver.
    + case_if; [apply Hno; intros (m & n' & -> & c & m' & -> & ?); cbn in *; lia|].
      destruct name as [|c name]; [cbn in *; lia|]. change (drop 1 (c :: name)) with name. unfold u8. cbn [length] in *. rewrite Z.mod_small by lia.
      destruct (IH name (nleng - 1) Hg) as (b & -> & Hb); [lia|lia|].
      exists b. split; [done|]. rewrite Hb. unfold fits. cbn [amatch].
      split; [intros (m & n' & -> & ?); exists (c :: m); eauto 8|].
      intros (m & n' & Heq & c' & m' & -> & ?). simplify_eq/=. eauto.
    + case_if; [apply Hno; intros (m & n' & -> & c & m' & -> & ?); cbn in *; lia|].
      destruct name as [|c name]; [cbn in *; lia|]. cbn [length] in *.
      destruct (atom_range_match bits c) eqn:Er.
      * unfold u8. rewrite Z.mod_small by lia. destruct (IH name (nleng - 1) Hg) as (b & -> & Hb); [lia|lia|].
        exists b. split; [done|]. rewrite Hb. unfold fits. cbn [amatch].
        split; [intros (m & n' & -> & ?); exists (c :: m); eauto 9|].
        intros (m & n' & Heq & c' & m' & -> & ? & ?). simplify_eq/=. eauto.
      * apply Hno. intros (m & n' & Heq & c' & m' & -> & ? & ?). simplify_eq/=. congruence.
Qed.

Record sp_wf (sp : subpattern) : Prop := {
  sw_plain : plain (attab sp);
  sw_leng : sp_leng sp = atoms_leng (attab sp);
  sw_count : (length (attab sp) ≤ 255)%nat }.

Lemma subpattern_match_exact_spec sp name nleng :
  sp_wf sp → Z.of_nat (length name) = nleng → nleng ≤ 255 →
  ∃ b, subpattern_match_exact sp name nleng = Some b ∧ (b = true ↔ fits (attab sp) name).
Proof.
  intros [Hp _ Hc] Hn Hle. unfold subpattern_match_exact, atelements, u8.
  rewrite Z.mod_small by lia. rewrite Nat2Z.id, firstn_all. by apply atoms_match_exact_spec.
Qed.

Lemma fits_leng g s : plain g → fits g s → atoms_leng g ≤ Z.of_nat (length s).
Proof. intros Hg (m & n' & -> & Hm). rewrite <-(amatch_leng g m) by done. rewrite length_app. lia. Qed.

(** ** The first position *)

Definition from (k : Z) (name : list Z) : list Z := drop (Z.to_nat k) name.

Lemma closest_loop_spec sp name nleng : sp_wf sp → Z.of_nat (length name) = nleng → nleng ≤ 255 →
  ∀ fuel pos, 0 ≤ pos ≤ nleng → (Z.to_nat (nleng - pos) < fuel)%nat →
  ∃ r, closest_loop fuel sp name nleng pos = Some r
    ∧ ((r = -1 ∧ ∀ k, pos ≤ k ≤ nleng → ¬ fits (attab sp) (from k name))
       ∨ (pos ≤ r ∧ r + sp_leng sp ≤ nleng ∧ fits (attab sp) (from r name)
          ∧ ∀ k, pos ≤ k < r → ¬ fits (attab sp) (from k name))).
Proof.
  intros Hwf Hn Hle. pose proof (sw_plain _ Hwf) as Hp. pose proof (sw_leng _ Hwf) as Hleng.
  assert (Hlen : ∀ k, 0 ≤ k ≤ nleng → Z.of_nat (length (from k name)) = nleng - k).
  { intros k Hk. unfold from. rewrite length_drop. lia. }
  induction fuel as [|fuel IH]; intros pos Hpos Hf; [lia|]. cbn [closest_loop].
  unfold u32. rewrite Z.mod_small by lia. case_if.
  - destruct (subpattern_match_exact_spec sp (from pos name) (nleng - pos)) as (b & Hb & Hbf); [done|auto|lia|].
    unfold u8. rewrite (Z.mod_small (nleng - pos)) by lia.
    change (drop (Z.to_nat pos) name) with (from pos name). rewrite Hb. cbn [mbind option_bind].
    destruct b.
    + exists pos. split; [done|]. right. split_and!; [lia|lia|by apply Hbf|lia].
    + assert (Hno : ¬ fits (attab sp) (from pos name)) by naive_solver.
      assert (Hlt : pos < nleng).
      { destruct (Z.eq_dec pos nleng) as [->|]; [|lia]. destruct Hno. exists [], (from nleng name).
        split; [done|]. apply amatch_empty; [done|]. pose proof (atoms_leng_nonneg (attab sp)). lia. }
      rewrite Z.mod_small by lia. destruct (IH (pos + 1)) as (r & -> & Hr); [lia|lia|].
      exists r. split; [done|].
      assert (Hk : ∀ k, pos ≤ k → k ≠ pos → pos + 1 ≤ k) by lia.
      destruct Hr as [[-> Hr]|(Hr1 & Hr2 & Hr3 & Hr)]; [left|right; split_and!; [lia|done|done|]].
      * split; [done|]. intros k Hk'. destruct (Z.eq_dec k pos) as [->|]; [done|]. apply Hr. lia.
      * intros k Hk'. destruct (Z.eq_dec k pos) as [->|]; [done|]. apply Hr. lia.
  - exists (-1). split; [done|]. left. split; [done|]. intros k Hk Hfit.
    apply fits_leng in Hfit; [|done]. rewrite Hlen in Hfit by lia. lia.
Qed.

Lemma subpattern_closest_match_spec sp name nleng :
  sp_wf sp → Z.of_nat (length name) = nleng → nleng ≤ 255 →
  ∃ r, subpattern_closest_match sp name nleng = Some r
    ∧ ((r = -1 ∧ ∀ k, 0 ≤ k ≤ nleng → ¬ fits (attab sp) (from k name))
       ∨ (0 ≤ r ∧ r + sp_leng sp ≤ nleng ∧ fits (attab sp) (from r name)
          ∧ ∀ k, 0 ≤ k < r → ¬ fits (attab sp) (from k name))).
Proof. intros. apply closest_loop_spec; [done|done|done|lia|lia]. Qed.

(** The first position loses no placement of the rest. *)
Lemma floats_later gs last y n : gs ≠ [] ∨ last = true → floats gs last n → floats gs last (y ++ n).
Proof.
  destruct gs as [|g gs]; cbn; [naive_solver|].
  intros _ (x & m & n' & -> & ? & ?). exists (y ++ x), m, n'. rewrite (assoc_L (++)). eauto.
Qed.

Lemma from_split k name : 0 ≤ k ≤ Z.of_nat (length name) → name = take (Z.to_nat k) name ++ from k name.
Proof. intros _. unfold from. by rewrite take_drop. Qed.

Lemma from_app x s : from (Z.of_nat (length x)) (x ++ s) = s.
Proof. unfold from. by rewrite Nat2Z.id, drop_app_length. Qed.

Lemma from_from k j name : 0 ≤ k → 0 ≤ j → from j (from k name) = from (k + j) name.
Proof. intros. unfold from. rewrite drop_drop. f_equal. lia. Qed.

Lemma floats_first g gs last name r :
  plain g → gs ≠ [] ∨ last = true → 0 ≤ r → r + atoms_leng g ≤ Z.of_nat (length name) →
  fits g (from r name) → (∀ k, 0 ≤ k < r → ¬ fits g (from k name)) →
  floats (g :: gs) last name ↔ floats gs last (from (r + atoms_leng g) name).
Proof.
  intros Hg Hor Hr Hlen Hfit Hmin. pose proof (atoms_leng_nonneg g). split.
  - intros (x & m & n' & -> & Hm & Hrest).
    pose proof (amatch_leng g m Hg Hm) as Hml.
    assert (Hxr : r ≤ Z.of_nat (length x)).
    { apply Z.nlt_ge. intros Hlt. apply (Hmin (Z.of_nat (length x))); [lia|]. rewrite from_app. by exists m, n'. }
    set (d := Z.of_nat (length x) - r).
    assert (Hd : from (r + atoms_leng g) (x ++ m ++ n')
      = take (Z.to_nat d) (from (r + atoms_leng g) (x ++ m ++ n')) ++ n').
    { rewrite <-(take_drop (Z.to_nat d) (from _ _)) at 1. f_equal.
      change (from d (from (r + atoms_leng g) (x ++ m ++ n')) = n'). rewrite from_from by lia.
      rewrite (assoc_L (++)). replace (r + atoms_leng g + d) with (Z.of_nat (length (x ++ m)));
        [by rewrite from_app|]. rewrite length_app. lia. }
    rewrite Hd. by apply floats_later.
  - intros Hrest. destruct Hfit as (m & n' & Heq & Hm). pose proof (amatch_leng g m Hg Hm) as Hml.
    exists (take (Z.to_nat r) name), m, n'. rewrite <-Heq. split_and!; [apply from_split; lia|done|].
    rewrite <-from_from, Heq, <-Hml, from_app in Hrest by lia. done.
Qed.

Lemma floats_nowhere g gs last name :
  (∀ k, 0 ≤ k ≤ Z.of_nat (length name) → ¬ fits g (from k name)) → ¬ floats (g :: gs) last name.
Proof.
  intros Hno (x & m & n' & -> & Hm & _). apply (Hno (Z.of_nat (length x))).
  - rewrite length_app. lia.
  - rewrite from_app. by exists m, n'.
Qed.

(** ** The end of the name *)

Lemma match_suffix_spec sp name nleng :
  sp_wf sp → Z.of_nat (length name) = nleng → nleng ≤ 255 → sp_leng sp ≤ nleng →
  ∃ b, match_suffix sp name nleng = Some b ∧ (b = true ↔ floats [attab sp] false name).
Proof.
  intros Hwf Hn Hle Hlen. pose proof (sw_plain _ Hwf) as Hp. pose proof (sw_leng _ Hwf) as Hleng.
  pose proof (atoms_leng_nonneg (attab sp)) as H0. unfold match_suffix.
  change (drop (Z.to_nat (nleng - sp_leng sp)) name) with (from (nleng - sp_leng sp) name).
  destruct (subpattern_match_exact_spec sp (from (nleng - sp_leng sp) name) (sp_leng sp)) as (b & -> & Hb);
    [done|unfold from; rewrite length_drop; lia|lia|].
  exists b. split; [done|]. rewrite Hb. cbn. split.
  - intros (m & n' & Heq & Hm). exists (take (Z.to_nat (nleng - sp_leng sp)) name), m, n'.
    rewrite <-Heq. split_and!; [apply from_split; lia|done|]. right.
    apply (f_equal length) in Heq. unfold from in Heq. rewrite length_drop, length_app in Heq.
    pose proof (amatch_leng _ m Hp Hm). destruct n'; [done|]. cbn in Heq. lia.
  - intros (x & m & n' & Heq & Hm & [?| ->]); [done|]. rewrite app_nil_r in Heq. exists m, [].
    rewrite app_nil_r. split; [|done]. pose proof (amatch_leng _ m Hp Hm). subst name.
    rewrite length_app in Hn. replace (nleng - sp_leng sp) with (Z.of_nat (length x)) by lia. apply from_app.
Qed.

Lemma match_rest_spec leng0 last sps : ∀ name nleng,
  sps ≠ [] → Forall sp_wf sps → Forall (λ sp, sp_leng sp = leng0) (removelast sps) →
  Z.of_nat (length name) = nleng → nleng ≤ 255 →
  ∃ b, match_rest leng0 last sps name nleng = Some b ∧ (b = true ↔ floats (attab <$> sps) last name).
Proof.
  induction sps as [|sp sps IH]; intros name nleng Hne Hwf Hu Hn Hle; [done|].
  apply Forall_cons in Hwf as [Hsp Hwf]. pose proof (sw_leng _ Hsp) as Hleng.
  pose proof (sw_plain _ Hsp) as Hp. pose proof (atoms_leng_nonneg (attab sp)) as H0.
  destruct sps as [|sp2 sps].
  - cbn [match_rest fmap list_fmap]. destruct last.
    + destruct (subpattern_closest_match_spec sp name nleng) as (r & -> & Hr); [done..|]. cbn [mbind option_bind].
      eexists; split; [done|]. destruct Hr as [[-> Hr]|(Hr1 & Hr2 & Hr3 & Hr)].
      * split; [done|]. intros Hf. exfalso. revert Hf. apply floats_nowhere. by rewrite Hn.
      * rewrite (proj2 (Z.ltb_ge r 0)) by done. split; [intros _|done].
        destruct Hr3 as (m & n' & Heq & Hm). exists (take (Z.to_nat r) name), m, n'. rewrite <-Heq.
        split_and!; [apply from_split; lia|done|by left].
    + case_if; [|apply match_suffix_spec; (done || lia)]. eexists; split; [done|]. split; [done|].
      intros (x & m & n' & -> & Hm & _). apply amatch_leng in Hm; [|done].
      rewrite !length_app in Hn. lia.
  - change (match_rest leng0 last (sp :: sp2 :: sps) name nleng) with
      (pos ← subpattern_closest_match sp name nleng;
       if pos <? 0 then Some false
       else match_rest leng0 last (sp2 :: sps) (from (pos + leng0) name) (u8 (nleng - (pos + leng0)))).
    apply Forall_cons in Hu as [Hsl Hu].
    destruct (subpattern_closest_match_spec sp name nleng) as (r & -> & Hr); [done..|]. cbn [mbind option_bind].
    destruct Hr as [[-> Hr]|(Hr1 & Hr2 & Hr3 & Hr)].
    + eexists; split; [done|]. split; [done|].
      intros Hf. exfalso. revert Hf. apply floats_nowhere. by rewrite Hn.
    + rewrite (proj2 (Z.ltb_ge r 0)) by done. unfold u8. rewrite Z.mod_small by lia.
      destruct (IH (from (r + leng0) name) (nleng - (r + leng0))) as (b & -> & Hb);
        [done|done|done|unfold from; rewrite length_drop; lia|lia|].
      exists b. split; [done|]. rewrite Hb. symmetry. change (attab <$> sp :: sp2 :: sps) with (attab sp :: (attab <$> sp2 :: sps)).
      rewrite <-Hsl, Hleng. apply floats_first; try done; [by left|lia].
Qed.

(** ** Compiled patterns *)

Fixpoint total_leng (sps : list subpattern) : Z :=
  match sps with [] => 0 | sp :: sps => sp_leng sp + total_leng sps end.

Record pat_wf (p : globpattern) : Prop := {
  pw_subs : Forall sp_wf (sptab p);
  pw_minleng : minleng p = total_leng (sptab p);
  pw_flags : sptab p = [] → flag_first p = flag_last p }.

(** The subpatterns between the first and the last are as long as the first. *)
Definition middle_uniform (p : globpattern) : Prop :=
  match sptab p with [] => True | sp :: sps => Forall (λ s, sp_leng s = sp_leng sp) (removelast sps) end.

#[export] Instance middle_uniform_dec p : Decision (middle_uniform p).
Proof. unfold middle_uniform. destruct (sptab p); apply _. Defined.

Lemma floats_leng sps last n : Forall sp_wf sps → floats (attab <$> sps) last n → total_leng sps ≤ Z.of_nat (length n).
Proof.
  revert n. induction sps as [|sp sps IH]; intros n; cbn; [lia|]. intros [Hsp Hwf]%Forall_cons (x & m & n' & -> & Hm & Hf).
  apply IH in Hf; [|done]. apply amatch_leng in Hm; [|apply Hsp]. rewrite (sw_leng _ Hsp), !length_app. lia.
Qed.

Lemma placed_leng first last sps n :
  Forall sp_wf sps → placed first last (attab <$> sps) n → total_leng sps ≤ Z.of_nat (length n).
Proof.
  intros Hwf. destruct first; [by apply floats_leng|]. destruct sps as [|sp sps]; [done|].
  intros (m & n' & -> & Hm & Hf). eapply (floats_leng (sp :: sps) last); [done|]. by exists [], m, n'.
Qed.

Lemma fits_placed_last sp name : fits (attab sp) name ↔ placed false true [attab sp] name.
Proof.
  unfold fits. cbn. split; [intros (m & n' & -> & ?); eauto 8|]. intros (m & n' & -> & ? & _). eauto.
Qed.

Lemma fits_placed_exact sp name : sp_wf sp → sp_leng sp = Z.of_nat (length name) →
  fits (attab sp) name ↔ placed false false [attab sp] name.
Proof.
  intros Hsp Hl. unfold fits. cbn. split; [|intros (m & n' & -> & ? & _); eauto].
  intros (m & n' & -> & Hm). do 2 eexists. split_and!; [done|done|]. right.
  apply amatch_leng in Hm; [|apply Hsp]. rewrite (sw_leng _ Hsp), length_app in Hl. destruct n'; [done|]. cbn in Hl. lia.
Qed.

Lemma placed_fits_rest g gs last name r :
  plain g → Z.of_nat r = atoms_leng g →
  placed false last (g :: gs) name ↔ fits g name ∧ floats gs last (drop r name).
Proof.
  intros Hg Hr. cbn. split.
  - intros (m & n' & -> & Hm & Hf). split; [by exists m, n'|]. apply amatch_leng in Hm; [|done].
    replace r with (length m) by lia. by rewrite drop_app_length.
  - intros [(m & n' & -> & Hm) Hf]. exists m, n'. split_and!; [done|done|].
    pose proof (amatch_leng _ _ Hg Hm). replace r with (length m) in Hf by lia. by rewrite drop_app_length in Hf.
Qed.

(** One subpattern, every case of the asterisks. *)
Lemma pattern_match_one p sp name nleng :
  sptab p = [sp] → sp_wf sp → Z.of_nat (length name) = nleng → nleng ≤ 255 → sp_leng sp ≤ nleng →
  ∃ b, (if flag_last p && flag_first p then pos ← subpattern_closest_match sp name nleng; Some (0 <=? pos)
        else if flag_last p then subpattern_match_exact sp name nleng
        else if flag_first p then match_suffix sp name nleng
        else if negb (sp_leng sp =? nleng) then Some false
        else subpattern_match_exact sp name nleng) = Some b ∧ (b = true ↔ plang p name).
Proof.
  intros Htab Hsp Hn Hle Hlen. pose proof (sw_leng _ Hsp) as Hleng. pose proof (atoms_leng_nonneg (attab sp)) as H0.
  unfold plang. rewrite Htab. cbn [fmap list_fmap].
  destruct (flag_last p), (flag_first p); cbn [andb].
  - destruct (subpattern_closest_match_spec sp name nleng) as (r & -> & Hr); [done..|]. cbn [mbind option_bind].
    eexists; split; [done|]. destruct Hr as [[-> Hr]|(Hr1 & Hr2 & (m & n' & Heq & Hm) & Hr)].
    + split; [done|]. intros Hf. exfalso. revert Hf. apply floats_nowhere. by rewrite Hn.
    + rewrite (proj2 (Z.leb_le 0 r)) by done. split; [intros _|done].
      exists (take (Z.to_nat r) name), m, n'. rewrite <-Heq. split_and!; [apply from_split; lia|done|by left].
  - destruct (subpattern_match_exact_spec sp name nleng) as (b & -> & Hb); [done..|].
    exists b. split; [done|]. rewrite Hb. apply fits_placed_last.
  - by apply match_suffix_spec.
  - case_if.
    + eexists; split; [done|]. split; [done|]. intros (m & n' & -> & Hm & [?| ->]); [done|].
      rewrite app_nil_r in *. apply amatch_leng in Hm; [|apply Hsp]. rewrite (sw_leng _ Hsp) in E. congruence.
    + destruct (subpattern_match_exact_spec sp name nleng) as (b & -> & Hb); [done..|].
      exists b. split; [done|]. rewrite Hb. apply fits_placed_exact; [done|congruence].
Qed.

Lemma pattern_match_spec p name :
  pat_wf p → middle_uniform p → Z.of_nat (length name) ≤ 255 →
  ∃ b, glob_match p name = Some b ∧ (b = true ↔ plang p name).
Proof.
  intros [Hwf Hmin Hflags] Hu Hle. unfold glob_match, pattern_match. set (nleng := Z.of_nat (length name)) in *.
  assert (Hn : Z.of_nat (length name) = nleng) by done.
  case_if; [eexists; split; [done|]; split; [done|]; intros Hp; apply placed_leng in Hp; [lia|done]|].
  unfold middle_uniform in Hu. destruct (sptab p) as [|sp sps] eqn:Htab.
  - eexists; split; [done|]. unfold plang. rewrite Htab. cbn.
    rewrite Hflags by done. destruct (flag_last p); cbn; naive_solver.
  - apply Forall_cons in Hwf as [Hsp Hwf]. pose proof (sw_plain _ Hsp) as Hpl. pose proof (sw_leng _ Hsp) as Hleng.
    pose proof (atoms_leng_nonneg (attab sp)) as H0.
    destruct sps as [|sp2 sps].
    + cbn [total_leng] in Hmin. rewrite (proj2 (Z.ltb_ge _ _)) by lia. apply pattern_match_one; (done || lia).
    + unfold plang. rewrite Htab.
      change (attab <$> sp :: sp2 :: sps) with (attab sp :: (attab <$> sp2 :: sps)).
      destruct (flag_first p).
      * destruct (subpattern_closest_match_spec sp name nleng) as (r & -> & Hr); [done..|]. cbn [mbind option_bind].
        destruct Hr as [[-> Hr]|(Hr1 & Hr2 & Hr3 & Hr)].
        -- eexists; split; [done|]. split; [done|]. intros Hf. exfalso. revert Hf. apply floats_nowhere. by rewrite Hn.
        -- rewrite (proj2 (Z.ltb_ge r 0)) by done. unfold u8. rewrite Z.mod_small by lia.
           destruct (match_rest_spec (sp_leng sp) (flag_last p) (sp2 :: sps) (from (r + sp_leng sp) name) (nleng - (r + sp_leng sp)))
             as (b & Hb & Hbf); [done|done|done|unfold from; rewrite length_drop; lia|lia|].
           exists b. split; [exact Hb|]. rewrite Hbf, Hleng. symmetry. apply floats_first; try done; [by left|lia].
      * destruct (subpattern_match_exact_spec sp name nleng) as (b & -> & Hb); [done..|]. cbn [mbind option_bind].
        pose proof (placed_fits_rest (attab sp) (attab <$> sp2 :: sps) (flag_last p) name (Z.to_nat (sp_leng sp)))
          as Hplaced. specialize (Hplaced ltac:(done) ltac:(lia)).
        destruct b; [|eexists; split; [done|]; rewrite Hplaced; naive_solver].
        assert (Hfits : fits (attab sp) name) by naive_solver. apply fits_leng in Hfits; [|done].
        unfold u8. rewrite Z.mod_small by lia.
        destruct (match_rest_spec (sp_leng sp) (flag_last p) (sp2 :: sps) (from (sp_leng sp) name) (nleng - sp_leng sp))
          as (b & Hb' & Hbf); [done|done|done|unfold from; rewrite length_drop; lia|lia|].
        exists b. split; [exact Hb'|]. rewrite Hbf, Hplaced. unfold from. naive_solver.
Qed.

(** ** What compiling gives is well formed *)

Lemma split_plain_groups l : ∀ cur, plain cur → Forall plain (split_atoms cur l).
Proof.
  induction l as [|a l IH]; intros cur Hc; [by repeat constructor|].
  destruct (decide (a = ATOM_ASTERISK)) as [->|Ha].
  - destruct (decide (l = [])) as [->|Hl]; [by repeat constructor|]. rewrite split_asterisk by done.
    constructor; [done|]. apply IH. unfold plain. set_solver.
  - rewrite split_plain by done. apply IH. unfold plain in *. set_solver.
Qed.


Lemma split_bounds l : ∀ cur, Forall (λ g, (length g ≤ length cur + length l)%nat
  ∧ atoms_leng g ≤ atoms_leng cur + atoms_leng l) (split_atoms cur l).
Proof.
  induction l as [|a l IH]; intros cur; [constructor; [cbn; lia|constructor]|].
  pose proof (atoms_leng_nonneg l). pose proof (atoms_leng_nonneg cur).
  destruct (decide (a = ATOM_ASTERISK)) as [->|Ha].
  - destruct (decide (l = [])) as [->|Hl]; [constructor; [cbn; lia|constructor]|]. rewrite split_asterisk by done.
    constructor; [cbn; lia|]. eapply Forall_impl; [apply IH|]. cbn. lia.
  - rewrite split_plain by done. eapply Forall_impl; [apply IH|]. intros g.
    rewrite length_app, atoms_leng_app, (atoms_leng_cons a l) by done. rewrite (atoms_leng_cons a []) by done. cbn. lia.
Qed.

Lemma split_total l : ∀ cur, foldr (λ g n, atoms_leng g + n) 0 (split_atoms cur l) = atoms_leng cur + atoms_leng l.
Proof.
  induction l as [|a l IH]; intros cur; [done|]. destruct (decide (a = ATOM_ASTERISK)) as [->|Ha].
  - destruct (decide (l = [])) as [->|Hl]; [done|]. rewrite split_asterisk by done. cbn. by rewrite IH.
  - rewrite split_plain by done. rewrite IH, atoms_leng_app, !atoms_leng_cons by done. cbn. lia.
Qed.

Lemma mk_sub_leng g : plain g → atoms_leng g ≤ 255 → sp_leng (mk_sub g) = atoms_leng g.
Proof.
  cbn [mk_sub sp_leng]. intros Hg Hle.
  assert (H : ∀ k, 0 ≤ k → k + atoms_leng g ≤ 255 → foldl (λ n a, u8 (n + atom_leng a)) k g = k + atoms_leng g);
    [|by rewrite H by lia]. clear Hle.
  induction g as [|a g IH]; intros k Hk Hle; cbn [foldl]; [cbn; lia|]. apply plain_cons in Hg as [Ha Hg].
  rewrite atoms_leng_cons in * by done. pose proof (atoms_leng_nonneg g). pose proof (atom_leng_nonneg a).
  unfold u8. rewrite Z.mod_small by lia. rewrite IH by (done || lia). lia.
Qed.

Lemma minleng_total tab : ∀ k, 0 ≤ k → Forall (λ sp, 0 ≤ sp_leng sp) tab → k + total_leng tab < 2 ^ 32 →
  foldl (λ n sp, u32 (n + sp_leng sp)) k tab = k + total_leng tab.
Proof.
  induction tab as [|sp tab IH]; intros k Hk Htab Hle; cbn [foldl total_leng] in *; [lia|].
  apply Forall_cons in Htab as [Hsp Htab].
  assert (0 ≤ total_leng tab).
  { clear -Htab. induction Htab; cbn; lia. }
  unfold u32. rewrite Z.mod_small by lia. rewrite IH by (done || lia). lia.
Qed.

Lemma compiled_wf l : (length l ≤ 255)%nat → atoms_leng l ≤ 255 → pat_wf (atoms_list_to_pattern_structure l).
Proof.
  assert (Hsub : ∀ first l, (length l ≤ 255)%nat → atoms_leng l ≤ 255 → pat_wf (sub_structure first l)).
  { clear l. intros first l Hl1 Hl2. pose proof (split_bounds l []) as Hb. pose proof (split_total l []) as Ht.
    assert (Hp : Forall plain (split_atoms [] l)) by (apply split_plain_groups; unfold plain; set_solver).
    unfold sub_structure. set (gs := split_atoms [] l) in *. cbn [length atoms_leng] in *.
    assert (Hlengs : Forall (λ g, sp_leng (mk_sub g) = atoms_leng g) gs).
    { apply Forall_forall. intros g Hg. rewrite Forall_forall in Hb, Hp. apply mk_sub_leng; [by apply Hp|].
      destruct (Hb g Hg). lia. }
    assert (Htot : total_leng (mk_sub <$> gs) = foldr (λ g n, atoms_leng g + n) 0 gs).
    { clear -Hlengs. induction Hlengs as [|g gs Hg _ IH]; [done|]. rewrite fmap_cons. cbn [total_leng foldr]. by rewrite Hg, IH. }
    constructor; cbn [sptab minleng flag_first flag_last].
    - apply Forall_fmap, Forall_forall. intros g Hg. rewrite Forall_forall in Hb, Hp, Hlengs.
      constructor; cbn [compose]; [by apply Hp|by apply Hlengs|]. destruct (Hb g Hg). cbn. lia.
    - rewrite minleng_total; [lia|lia| |lia]. apply Forall_fmap. eapply Forall_impl; [exact Hlengs|].
      cbn [compose]. intros g ->. apply atoms_leng_nonneg.
    - intros Hnil. apply fmap_nil_inv in Hnil. by destruct (split_nonempty [] l). }
  intros Hl1 Hl2. destruct l as [|a l]; [by constructor|].
  destruct (decide (a = ATOM_ASTERISK)) as [->|Ha].
  - destruct l as [|b l]; [by constructor|]. apply (Hsub true); cbn in *; lia.
  - assert (Hs : atoms_list_to_pattern_structure (a :: l) = sub_structure false (a :: l)) by (by destruct a).
    rewrite Hs. by apply Hsub.
Qed.

(** ** From the text of the pattern to the answer *)

Lemma glob_new_some globstr p : glob_new globstr = Some p →
  ∃ l, pattern_to_atoms_list (length globstr) false globstr = Some l ∧ p = atoms_list_to_pattern_structure l.
Proof. unfold glob_new. intros (l & ? & ?)%fmap_Some. eauto. Qed.

Lemma atoms_nonempty fuel la c p l :
  (c = ch_star → la = false) → pattern_to_atoms_list fuel la (c :: p) = Some l → l ≠ [].
Proof.
  intros Hla. destruct fuel as [|fuel]; [done|]. cbn [pattern_to_atoms_list].
  repeat (case_if || case_match); intros; simplify_option_eq; try done. by specialize (Hla eq_refl).
Qed.

Lemma glob_new_wf globstr p :
  (length globstr ≤ 255)%nat → Forall is_u8 globstr → glob_new globstr = Some p → pat_wf p.
Proof.
  intros Hlen Hb (l & Hl & ->)%glob_new_some. apply atoms_globs in Hl as [[? ?] _]; [|done|done].
  apply compiled_wf; lia.
Qed.

Lemma glob_new_lang globstr p n :
  globstr ≠ [] → Forall is_u8 globstr → Forall is_u8 n → glob_new globstr = Some p →
  plang p n ↔ globs globstr n.
Proof.
  intros Hne Hb Hn (l & Hl & ->)%glob_new_some.
  assert (l ≠ []). { destruct globstr; [done|]. by eapply atoms_nonempty. }
  rewrite <-compiled_lang by done. apply atoms_globs in Hl as [_ Hm]; [|done|done]. apply (Hm n Hn).
Qed.
