(* ===== verification/GlobProps.v ===== *)
(** * Wildcard patterns: the theorems *)

From S2P Require Import Prelude GlobEngine GlobFacts GlobMatch.

(** ** The cache *)

(** Tables that calls of [glob_cache_get] lead to. *)
Inductive cache_reach : list globcache → Prop :=
  | cache_start : cache_reach glob_cache_init
  | cache_next now gname tab g tab' :
      cache_reach tab → glob_cache_get now gname tab = Some (g, tab') → cache_reach tab'.

Definition cache_ok (tab : list globcache) : Prop :=
  length tab = GLOB_CACHE_SIZE ∧ Forall (λ e, gc_gnleng e = 0) tab.

Lemma cache_walk_lt gname tab rest i j :
  (j < length tab)%nat → (i + length rest ≤ length tab)%nat → ((cache_walk gname tab rest i j).1 < length tab)%nat.
Proof.
  revert i j. induction rest as [|e rest IH]; intros i j Hj Hi; [done|]. cbn [cache_walk length] in *.
  case_if; [cbn; lia|]. apply IH; [case_if; lia|lia].
Qed.

Lemma cache_walk_miss gname tab rest i j :
  gname ≠ [] → Forall (λ e, gc_gnleng e = 0) rest → (cache_walk gname tab rest i j).2 = false.
Proof.
  intros Hg. revert i j. induction rest as [|e rest IH]; intros i j Hr; [done|].
  apply Forall_cons in Hr as [He Hr]. cbn [cache_walk].
  assert (Hh : gc_hit gname e = false).
  { unfold gc_hit. rewrite He. destruct gname; [done|]. rewrite (proj2 (Z.eqb_neq _ _)) by (cbn; lia).
    by rewrite andb_false_r. }
  rewrite Hh. by apply IH.
Qed.

Lemma cache_reach_ok tab : cache_reach tab → cache_ok tab.
Proof.
  induction 1 as [|now gname tab g tab' _ [Hl Hz] Hget]; [by split; [|repeat constructor]|].
  unfold glob_cache_get in Hget.
  destruct (cache_walk gname tab tab 0 0) as [j hit].
  destruct (tab !! j) as [e|] eqn:Ej; [|done]. cbn [mbind option_bind] in Hget.
  assert (He : gc_gnleng e = 0) by (by eapply (Forall_lookup_1 _ _ _ _ Hz)).
  destruct hit; [destruct (gc_glob e)|destruct (glob_new (c_string gname))]; try done; cbn [mbind option_bind] in Hget;
    injection Hget as _ <-; (split; [by rewrite length_insert|]; by apply Forall_insert).
Qed.

Lemma glob_cache_get_miss now gname tab : cache_ok tab → gname ≠ [] →
  ∃ j tab', (j < GLOB_CACHE_SIZE)%nat ∧
    glob_cache_get now gname tab = g ← glob_new (c_string gname); Some (g, tab' g).
Proof.
  intros [Hl Hz] Hg. unfold glob_cache_get.
  pose proof (cache_walk_miss gname tab tab 0 0 Hg Hz) as Hmiss.
  pose proof (cache_walk_lt gname tab tab 0 0) as Hlt. rewrite Hl in Hlt.
  specialize (Hlt ltac:(unfold GLOB_CACHE_SIZE; lia) ltac:(lia)).
  destruct (cache_walk gname tab tab 0 0) as [j hit]. cbn in Hmiss, Hlt. subst hit.
  destruct (lookup_lt_is_Some_2 tab j ltac:(lia)) as [e ->].
  exists j. eexists. split; [done|]. cbn [mbind option_bind]. reflexivity.
Qed.

(** ** Examples *)

(** "*.[ch]" *)
Definition ex_source : list Z := [42; 46; 91; 99; 104; 93].
(** "main.c", "main.o" *)
Definition ex_main_c : list Z := [109; 97; 105; 110; 46; 99].
Definition ex_main_o : list Z := [109; 97; 105; 110; 46; 111].
(** "a*bb*b", "axbb" *)
Definition ex_abbb : list Z := [97; 42; 98; 98; 42; 98].
Definition ex_axbb : list Z := [97; 120; 98; 98].
(** "abc*d*e", "abcdxe", "abcde" *)
Definition ex_abc_d_e : list Z := [97; 98; 99; 42; 100; 42; 101].
Definition ex_abcdxe : list Z := [97; 98; 99; 100; 120; 101].
Definition ex_abcde : list Z := [97; 98; 99; 100; 101].

(** ** Properties *)

(** C23: a compiled pattern answers for every name as the manual page says, and reads
    nothing beyond the name, as long as the pieces between its first and its last
    piece are as long as the first. *)
Theorem glob_match_exact (globstr : list Z) (p : globpattern) (name : list Z) :
  globstr ≠ [] → (length globstr ≤ 255)%nat → Forall is_u8 globstr →
  (length name ≤ 255)%nat → Forall is_u8 name →
  glob_new globstr = Some p → middle_uniform p →
  ∃ b, glob_match p name = Some b ∧ (b = true ↔ globs globstr name).
Proof.
  intros Hne Hl Hb Hnl Hn Hp Hu.
  destruct (pattern_match_spec p name) as (b & ? & Hbp); [by apply (glob_new_wf globstr)|done|lia|].
  exists b. split; [done|]. rewrite Hbp. by eapply glob_new_lang.
Qed.

Lemma glob_match_exact_witness :
  globs ex_source ex_main_c ∧ ¬ globs ex_source ex_main_o.
Proof.
  assert (Hu : ∀ l : list Z, forallb (λ z, (0 <=? z) && (z <? 256)) l = true → Forall is_u8 l).
  { intros l Hl. apply Forall_forall. intros z Hz. rewrite forallb_forall in Hl.
    apply list_elem_of_In in Hz. apply Hl in Hz. zbool. split; [done|]. change (2 ^ 8) with 256. done. }
  destruct (glob_new ex_source) as [p|] eqn:Hp; [|by vm_compute in Hp].
  assert (Hm : middle_uniform p).
  { vm_compute in Hp. injection Hp as <-. vm_compute. repeat constructor. }
  destruct (glob_match_exact ex_source p ex_main_c) as (b1 & H1 & Hb1);
    [done|by vm_compute; lia|by apply Hu|by vm_compute; lia|by apply Hu|done|done|].
  destruct (glob_match_exact ex_source p ex_main_o) as (b2 & H2 & Hb2);
    [done|by vm_compute; lia|by apply Hu|by vm_compute; lia|by apply Hu|done|done|].
  vm_compute in Hp. injection Hp as <-. vm_compute in H1, H2. injection H1 as <-. injection H2 as <-.
  split; [by apply Hb1|]. intros Hg. by apply Hb2 in Hg.
Defined.

(** Compiling a pattern without the byte 255 ends; the loop over a range that ends
    at the byte 255 does not end, whatever the number of its rounds. *)
Theorem glob_new_ends :
  (∀ globstr, Forall (λ c, 0 ≤ c < 255) globstr → is_Some (glob_new globstr))
  ∧ ∀ fuel neg i bits, is_u8 i → range_loop fuel neg i 255 bits = None.
Proof.
  split; [|intros; by apply range_loop_endless]. intros globstr Hg. unfold glob_new.
  apply fmap_is_Some. by apply atoms_list_ends.
Qed.

(** With pieces of different lengths in the middle the code accepts a name the
    pattern does not stand for, refuses one it stands for, and reads beyond the end of
    another. *)
Theorem glob_middle_faults :
  (∃ p, glob_new ex_abbb = Some p ∧ glob_match p ex_axbb = Some true ∧ ¬ globs ex_abbb ex_axbb)
  ∧ ∃ p, glob_new ex_abc_d_e = Some p
    ∧ glob_match p ex_abcdxe = Some false ∧ globs ex_abc_d_e ex_abcdxe
    ∧ glob_match p ex_abcde = None ∧ globs ex_abc_d_e ex_abcde.
Proof.
  split; eexists; (split; [by vm_compute|]); (split; [by vm_compute|]).
  - apply (globs_decided ex_abbb ex_axbb false); [by vm_compute|repeat constructor; done..].
  - split_and!; [|by vm_compute|]; (apply (globs_decided ex_abc_d_e _ true); [by vm_compute|repeat constructor; done..]).
Qed.

(** For a pattern that is not empty the cache answers what compiling the pattern
    gives, whatever has been asked before. *)
Theorem glob_cache_get_spec (now : Z) (gname : list Z) (tab : list globcache) :
  cache_reach tab → gname ≠ [] →
  fst <$> glob_cache_get now gname tab = glob_new (c_string gname).
Proof.
  intros Hr Hg. destruct (glob_cache_get_miss now gname tab) as (j & tab' & _ & ->);
    [by apply cache_reach_ok|done|]. by destruct (glob_new _).
Qed.

Lemma glob_cache_get_spec_witness :
  fst <$> glob_cache_get 5 ex_source glob_cache_init = glob_new ex_source.
Proof. apply (glob_cache_get_spec 5 ex_source glob_cache_init); [constructor|done]. Defined.

(** An entry is never found again under its own name, and the empty pattern is
    answered with the pattern of whatever entry comes first. *)
Theorem glob_cache_never_hits (gname : list Z) (tab : list globcache) :
  cache_reach tab → gname ≠ [] → (cache_walk gname tab tab 0 0).2 = false.
Proof. intros [_ Hz]%cache_reach_ok Hg. by apply cache_walk_miss. Qed.

Lemma glob_cache_empty_pattern : ∃ p tab q tab',
  glob_cache_get 5 ex_source glob_cache_init = Some (p, tab) ∧ glob_cache_get 6 [] tab = Some (q, tab')
  ∧ glob_match q ex_main_c = Some true ∧ ¬ globs [] ex_main_c.
Proof.
  do 4 eexists. split; [by vm_compute|]. split; [by vm_compute|]. split; [by vm_compute|].
  rewrite globs_nil_inv. done.
Qed.
