(* ===== verification/PatternTable.v ===== *)
(** * The table of patterns (patterns.c)

    The rules that give new files a storage class, a trash time or attributes are kept
    in an array of 1024 entries, which is sorted after every change: entries in use
    first, then by priority.  An operation is [None] where compiling a pattern does not
    end ([GlobEngine]); otherwise it gives its status, the table and the changelog
    entry.  The array is sorted by [qsort], any function that sorts.  The names of the
    storage classes, in the order of their identifiers from 1 on, are an argument. *)

From S2P Require Import Prelude MfsComm DataPack GlobEngine StorageClass.

Definition PATTERNS_MAX : nat := 1024.

(** [gname] holds the [gnleng] bytes of the name; the C string in the array ends at its
    first zero byte. *)
Record patentry := mk_patentry {
  pe_glob : option globpattern; pe_valid : bool; pe_modified : bool; pe_gname : list Z;
  pe_euid : Z; pe_egid : Z; pe_priority : Z; pe_omask : Z; pe_scid : Z;
  pe_seteattr : Z; pe_clreattr : Z; pe_trashretention : Z }.

Definition pe_gnleng (e : patentry) : Z := Z.of_nat (length (pe_gname e)).

Definition pe_unused : patentry := mk_patentry None false false [] 0 0 0 0 0 0 0 0.

Definition pe_set (valid modified : bool) (e : patentry) : patentry :=
  mk_patentry (pe_glob e) valid modified (pe_gname e) (pe_euid e) (pe_egid e) (pe_priority e) (pe_omask e) (pe_scid e)
    (pe_seteattr e) (pe_clreattr e) (pe_trashretention e).

Record pats := mk_pats { patterntab : list patentry; validpatterns : nat }.

(** [strcmp] on the bytes before the terminating zero. *)
Fixpoint strcmp (a b : list Z) : Z :=
  match a, b with
  | [], [] => 0
  | [], _ :: _ => -1
  | _ :: _, [] => 1
  | x :: a, y :: b => if x <? y then -1 else if y <? x then 1 else strcmp a b
  end.

Definition patterns_compare (aa bb : patentry) : Z :=
  if (Z.b2z (pe_valid aa) <? Z.b2z (pe_valid bb)) then 1
  else if (Z.b2z (pe_valid bb) <? Z.b2z (pe_valid aa)) then -1
  else if pe_priority aa <? pe_priority bb then 1
  else if pe_priority bb <? pe_priority aa then -1
  else if pe_scid aa <? pe_scid bb then -1
  else if pe_scid bb <? pe_scid aa then 1
  else strcmp (c_string (pe_gname aa)) (c_string (pe_gname bb)).

(** An entry of the changelog. *)
Inductive patchange :=
  | PATADD (ts : Z) (gname : list Z) (euid egid priority omask scid trashretention seteattr clreattr : Z)
  | PATDEL (ts : Z) (gname : list Z) (euid egid : Z).

Section table.
Variable qsort : list patentry → list patentry.

(** ** After a change *)

Definition pe_recompile (e : patentry) : option patentry :=
  if pe_modified e then
    glob ← (if pe_valid e then g ← glob_new (c_string (pe_gname e)); Some (Some g) else Some None);
    Some (mk_patentry glob (pe_valid e) false (pe_gname e) (pe_euid e) (pe_egid e) (pe_priority e) (pe_omask e)
      (pe_scid e) (pe_seteattr e) (pe_clreattr e) (pe_trashretention e))
  else Some e.

Fixpoint first_invalid (tab : list patentry) : nat :=
  match tab with
  | [] => O
  | e :: tab => if pe_valid e then S (first_invalid tab) else O
  end.

Definition patterns_have_changed (tab : list patentry) : option pats :=
  tab ← mapM pe_recompile tab;
  let tab := qsort tab in
  Some (mk_pats tab (first_invalid tab)).

Definition patterns_init : pats := mk_pats (replicate PATTERNS_MAX pe_unused) 0.

(** ** Search *)

Definition pe_check_ugids (p : patentry) (uid : Z) (gid : list Z) : bool :=
  if negb (pe_euid p =? PATTERN_EUGID_ANY) && negb (pe_euid p =? uid) then false
  else if pe_egid p =? PATTERN_EUGID_ANY then true
  else existsb (λ g, pe_egid p =? g) gid.

(** [None]: a read beyond the end of the name, or a pattern that is not compiled. *)
Fixpoint find_walk (tab : list patentry) (uid : Z) (gid : list Z) (name : list Z) : option (option patentry) :=
  match tab with
  | [] => Some None
  | e :: tab =>
      if pe_check_ugids e uid gid then
        glob ← pe_glob e;
        m ← glob_match glob name;
        if (m : bool) then Some (Some e) else find_walk tab uid gid name
      else find_walk tab uid gid name
  end.

Definition find_matching (p : pats) (uid : Z) (gid : list Z) (name : list Z) : option (option patentry) :=
  find_walk (take (validpatterns p) (patterntab p)) uid gid name.

(** ** Changes *)

Definition patterns_sclass_delete (scid : Z) (p : pats) : option pats :=
  patterns_have_changed
    ((λ e, if pe_valid e && (scid =? pe_scid e) then pe_set false true e else e) <$> patterntab p).

Definition pe_same (gname : list Z) (euid egid : Z) (e : patentry) : bool :=
  pe_valid e && (Z.of_nat (length gname) =? pe_gnleng e) && (euid =? pe_euid e) && (egid =? pe_egid e)
  && bool_decide (gname = pe_gname e).

(** The loop: [None] when the entry is there, or the first free position ([npos]). *)
Fixpoint add_walk (gname : list Z) (euid egid : Z) (tab : list patentry) (i npos : nat) : option nat :=
  match tab with
  | [] => Some npos
  | e :: tab =>
      if pe_valid e then
        if pe_same gname euid egid e then None else add_walk gname euid egid tab (S i) npos
      else add_walk gname euid egid tab (S i) (if (npos =? PATTERNS_MAX)%nat then i else npos)
  end.

Definition patterns_univ_add (ts : Z) (gname : list Z) (euid egid priority omask scid trashretention seteattr clreattr : Z)
    (mrflag : bool) (p : pats) : option (Z * pats * list patchange) :=
  if (length gname =? 0)%nat then Some (MFS_ERROR_EINVAL, p, [])
  else if negb (Z.land omask PATTERN_OMASK_EATTR =? 0)
       && (((seteattr =? 0) && (clreattr =? 0)) || negb (Z.land seteattr clreattr =? 0)) then Some (MFS_ERROR_EINVAL, p, [])
  else match add_walk gname euid egid (patterntab p) 0 PATTERNS_MAX with
  | None => Some (MFS_ERROR_PATTERNEXISTS, p, [])
  | Some npos =>
      if (npos =? PATTERNS_MAX)%nat then Some (MFS_ERROR_PATLIMITREACHED, p, [])
      else
        old ← patterntab p !! npos;
        p ← patterns_have_changed (<[npos := mk_patentry (pe_glob old) true true gname euid egid priority omask scid
                                              seteattr clreattr trashretention]> (patterntab p));
        Some (MFS_STATUS_OK, p,
          if mrflag then [] else [PATADD ts gname euid egid priority omask scid trashretention seteattr clreattr])
  end.

Fixpoint sclass_find_by_name (sclassid : Z) (names : list (list Z)) (name : list Z) : Z :=
  match names with
  | [] => 0
  | n :: names => if bool_decide (n = name) then sclassid else sclass_find_by_name (sclassid + 1) names name
  end.

Definition patterns_add (names : list (list Z)) (ts : Z) (gname : list Z) (euid egid priority omask : Z) (scname : list Z)
    (trashretention seteattr clreattr : Z) (p : pats) : option (Z * pats * list patchange) :=
  if negb (Z.land omask PATTERN_OMASK_SCLASS =? 0) then
    let scid := sclass_find_by_name 1 names scname in
    if scid =? 0 then Some (MFS_ERROR_NOSUCHCLASS, p, [])
    else patterns_univ_add ts gname euid egid priority omask scid trashretention seteattr clreattr false p
  else patterns_univ_add ts gname euid egid priority omask 0 trashretention seteattr clreattr false p.

Definition patterns_univ_delete (ts : Z) (gname : list Z) (euid egid : Z) (mrflag : bool) (p : pats)
    : option (Z * pats * list patchange) :=
  if existsb (pe_same gname euid egid) (patterntab p) then
    p ← patterns_have_changed ((λ e, if pe_same gname euid egid e then pe_set false true e else e) <$> patterntab p);
    Some (MFS_STATUS_OK, p, if mrflag then [] else [PATDEL ts gname euid egid])
  else Some (MFS_ERROR_NOSUCHPATTERN, p, []).

(** A follower that replays an entry. *)
Definition patterns_replay (c : patchange) (p : pats) : option (Z * pats) :=
  match c with
  | PATADD ts gname euid egid priority omask scid trashretention seteattr clreattr =>
      fst <$> patterns_univ_add ts gname euid egid priority omask scid trashretention seteattr clreattr true p
  | PATDEL ts gname euid egid => fst <$> patterns_univ_delete ts gname euid egid true p
  end.

Definition patterns_cleanup (p : pats) : option pats :=
  patterns_have_changed (pe_set false true <$> patterntab p).

(** ** The metadata image *)

Variable bld : build.

Definition put_pattern (e : patentry) : list Z :=
  put8bit bld (pe_gnleng e) ++ put32bit bld (pe_euid e) ++ put32bit bld (pe_egid e) ++
  put8bit bld (pe_priority e) ++ put8bit bld (pe_omask e) ++ put8bit bld (pe_scid e) ++
  put16bit bld (pe_trashretention e) ++ put8bit bld (pe_seteattr e) ++ put8bit bld (pe_clreattr e) ++ pe_gname e.

Definition patterns_store (p : pats) : list Z :=
  concat (put_pattern <$> filter (λ e, pe_valid e = true) (patterntab p)) ++
  put8bit bld 0 ++ put32bit bld PATTERN_EUGID_ANY ++ put32bit bld PATTERN_EUGID_ANY.

(** The part of a record after its header: the entry, the rest of the input. *)
Definition get_pattern (mver gnleng euid egid : Z) (old : patentry) (input : list Z) : option (patentry * list Z) :=
  '(priority, input) ← get8bit bld input; '(omask, input) ← get8bit bld input; '(scid, input) ← get8bit bld input;
  '(trashretention, input) ← get16bit bld input; '(seteattr, input) ← get8bit bld input;
  '(clreattr, input) ← (if mver =? 0x10 then Some (0, input) else get8bit bld input);
  if (length input <? Z.to_nat gnleng)%nat then None
  else Some (mk_patentry (pe_glob old) true true (take (Z.to_nat gnleng) input) euid egid priority omask scid
               seteattr clreattr trashretention, drop (Z.to_nat gnleng) input).

(** The loop, [i] the number of records read: status, table, rest of the input; [None] is
    out of [fuel]. *)
Fixpoint load_loop (fuel : nat) (mver : Z) (ignoreflag : bool) (i : nat) (tab : list patentry) (input : list Z)
    : option (Z * list patentry * list Z) :=
  match fuel with
  | O => None
  | S fuel =>
      if (PATTERNS_MAX <=? i)%nat && negb ignoreflag then Some (-1, tab, input)
      else
        match ('(gnleng, p) ← get8bit bld input; '(euid, p) ← get32bit bld p; '(egid, p) ← get32bit bld p;
               Some (gnleng, euid, egid, p)) with
        | None => Some (-1, tab, input)
        | Some (gnleng, euid, egid, input) =>
            if (gnleng =? 0) && (euid =? PATTERN_EUGID_ANY) && (egid =? PATTERN_EUGID_ANY) then Some (0, tab, input)
            else
              match tab !! i with
              | Some old =>
                  match get_pattern mver gnleng euid egid old input with
                  | None => Some (-1, tab, input)
                  | Some (e, input) => load_loop fuel mver ignoreflag (S i) (<[i := e]> tab) input
                  end
              | None =>
                  let psize := if mver =? 0x10 then 6 else 7 in
                  load_loop fuel mver ignoreflag (S i) tab (drop (Z.to_nat (psize + gnleng)) input)
              end
        end
  end.

(** On failure the table is left as the loop has filled it. *)
Definition patterns_load (mver : Z) (ignoreflag : bool) (input : list Z) (p : pats) : option (Z * pats * list Z) :=
  if 0x11 <? mver then Some (-1, p, input)
  else
    p ← patterns_cleanup p;
    '(status, tab, input) ← load_loop (S (length input)) mver ignoreflag 0 (patterntab p) input;
    if status =? 0 then p ← patterns_have_changed tab; Some (0, p, input)
    else Some (status, mk_pats tab (validpatterns p), input).

(** ** The list for the administrator: once for its size, once for its bytes *)

Definition sclass_get_name (names : list (list Z)) (scid : Z) : list Z := default [] (names !! Z.to_nat (scid - 1)).

Definition listed_name (names : list (list Z)) (e : patentry) : list Z :=
  if negb (Z.land (pe_omask e) PATTERN_OMASK_SCLASS =? 0) then sclass_get_name names (pe_scid e) else [].

Fixpoint list_size (names : list (list Z)) (tab : list patentry) : Z :=
  match tab with
  | [] => 0
  | e :: tab =>
      if pe_valid e then
        (if negb (Z.land (pe_omask e) PATTERN_OMASK_SCLASS =? 0)
         then pe_gnleng e + Z.of_nat (length (sclass_get_name names (pe_scid e))) + 16
         else pe_gnleng e + 16) + list_size names tab
      else list_size names tab
  end.

Definition list_pattern (names : list (list Z)) (e : patentry) : list Z :=
  put8bit bld (pe_gnleng e) ++ pe_gname e ++ put32bit bld (pe_euid e) ++ put32bit bld (pe_egid e) ++
  put8bit bld (pe_priority e) ++ put8bit bld (pe_omask e) ++
  put8bit bld (Z.of_nat (length (listed_name names e))) ++ listed_name names e ++
  put16bit bld (pe_trashretention e) ++ put8bit bld (pe_seteattr e) ++ put8bit bld (pe_clreattr e).

Definition list_bytes (names : list (list Z)) (tab : list patentry) : list Z :=
  concat (list_pattern names <$> filter (λ e, pe_valid e = true) tab).

End table.

(** What the requests on the tree see of the table. *)
Definition pe_pattern (e : patentry) : pattern :=
  mk_pattern (λ name, bool_decide ((pe_glob e ≫= λ g, glob_match g name) = Some true))
    (pe_euid e) (pe_egid e) (pe_omask e) (pe_scid e) (pe_trashretention e) (pe_seteattr e) (pe_clreattr e).

Definition tree_patterns (p : pats) : list pattern := pe_pattern <$> take (validpatterns p) (patterntab p).
