(* ===== verification/PatternFacts.v ===== *)
(** * The table of patterns: what the changes do to it

    [pats_inv] is the state of the table between requests; [active] the patterns in use.
    The lemmas say what every operation does to them. *)

From S2P Require Import Prelude MfsComm DataPack GlobEngine GlobFacts GlobMatch GlobProps StorageClass PatternTable.

(** ** The order of the table *)

Definition pcmp (a b : patentry) : Prop := patterns_compare a b ≤ 0.

#[export] Instance pcmp_dec a b : Decision (pcmp a b).
Proof. unfold pcmp. apply _. Defined.

Definition sort_key (e : patentry) : list Z :=
  1 - Z.b2z (pe_valid e) :: - pe_priority e :: pe_scid e :: c_string (pe_gname e).

Lemma patterns_compare_key a b : patterns_compare a b = strcmp (sort_key a) (sort_key b).
Proof. unfold patterns_compare, sort_key. cbn [strcmp]. repeat case_if; (lia || done). Qed.

Lemma strcmp_swap a : ∀ b, strcmp b a = - strcmp a b.
Proof. induction a as [|x a IH]; intros [|y b]; cbn; try done. repeat case_if; (lia || done). Qed.

Lemma strcmp_refl a : strcmp a a = 0.
Proof. induction a as [|x a IH]; cbn; [done|]. rewrite Z.ltb_irrefl. done. Qed.

Lemma strcmp_trans a : ∀ b c, strcmp a b ≤ 0 → strcmp b c ≤ 0 → strcmp a c ≤ 0.
Proof.
  induction a as [|x a IH]; intros [|y b] [|z c]; cbn; try lia.
  repeat case_if; intros; try lia. by apply IH with b.
Qed.

#[export] Instance pcmp_trans : Transitive pcmp.
Proof. intros a b c. unfold pcmp. rewrite !patterns_compare_key. apply strcmp_trans. Qed.

#[export] Instance pcmp_total : Total pcmp.
Proof. intros a b. unfold pcmp. rewrite !patterns_compare_key, (strcmp_swap (sort_key a)). lia. Qed.

(** What the table asks of [qsort]. *)
Class SortsPatterns (qsort : list patentry → list patentry) := {
  qsort_perm : ∀ l, qsort l ≡ₚ l;
  qsort_sorted : ∀ l, StronglySorted pcmp (qsort l) }.

#[export] Instance merge_sorts_patterns : SortsPatterns (merge_sort pcmp).
Proof.
  split; intros l; [apply merge_sort_Permutation|]. apply Sorted_StronglySorted; [apply _|]. apply Sorted_merge_sort, _.
Qed.

Lemma pcmp_valid a b : pcmp a b → pe_valid b = true → pe_valid a = true.
Proof. unfold pcmp, patterns_compare. destruct (pe_valid a), (pe_valid b); done. Qed.

Lemma pcmp_priority a b : pcmp a b → pe_valid a = true → pe_valid b = true → pe_priority b ≤ pe_priority a.
Proof.
  unfold pcmp, patterns_compare. intros H Ha Hb. rewrite Ha, Hb in H. cbn in H. revert H. repeat case_if; lia.
Qed.

Lemma filter_iff_in {A} (P Q : A → Prop) `{!∀ x, Decision (P x), !∀ x, Decision (Q x)} (l : list A) :
  (∀ x, x ∈ l → P x ↔ Q x) → filter P l = filter Q l.
Proof.
  induction l as [|x l IH]; intros HPQ; [done|]. rewrite !filter_cons.
  assert (Hx : P x ↔ Q x) by (apply HPQ; by left). assert (IH' : filter P l = filter Q l) by (apply IH; intros; apply HPQ; by right).
  destruct (decide (P x)), (decide (Q x)); rewrite ?IH'; tauto.
Qed.

Definition in_use (tab : list patentry) : list patentry := filter (λ e, pe_valid e = true) tab.

Lemma in_use_none tab : Forall (λ e, pe_valid e = false) tab → in_use tab = [].
Proof.
  unfold in_use. induction 1 as [|e tab He _ IH]; [done|]. by rewrite filter_cons_False by congruence.
Qed.

(** The entries in use are the first ones. *)
Lemma sorted_in_use tab : StronglySorted pcmp tab → take (first_invalid tab) tab = in_use tab.
Proof.
  induction 1 as [|e tab Hs IH Hall]; [done|]. cbn [first_invalid]. destruct (pe_valid e) eqn:E.
  - unfold in_use. rewrite filter_cons_True by done. cbn. by f_equal.
  - symmetry. apply in_use_none. constructor; [done|]. eapply Forall_impl; [exact Hall|].
    intros e' Hle. cbn in Hle. destruct (pe_valid e') eqn:E'; [|done]. by rewrite (pcmp_valid _ _ Hle E') in E.
Qed.

(** ** After a change *)

(** The entry as [patterns_have_changed] leaves it. *)
Definition compiled_of (e : patentry) : option globpattern :=
  if pe_valid e then glob_new (c_string (pe_gname e)) else None.

Definition pe_norm (e : patentry) : patentry :=
  mk_patentry (compiled_of e) (pe_valid e) false (pe_gname e) (pe_euid e) (pe_egid e) (pe_priority e) (pe_omask e)
    (pe_scid e) (pe_seteattr e) (pe_clreattr e) (pe_trashretention e).

Definition compiles (e : patentry) : Prop := pe_valid e = true → is_Some (glob_new (c_string (pe_gname e))).

(** An entry that is not marked as changed is as it should be. *)
Definition pe_ready (e : patentry) : Prop := compiles e ∧ (pe_modified e = false → pe_norm e = e).

Lemma recompile_norm e : pe_ready e → pe_recompile e = Some (pe_norm e).
Proof.
  intros [Hc Hm]. unfold pe_recompile. destruct (pe_modified e); [|by rewrite Hm].
  unfold pe_norm, compiled_of. destruct (pe_valid e) eqn:E; [|done].
  destruct (Hc E) as [g Hg]. by rewrite Hg.
Qed.

Lemma have_changed_spec qsort `{!SortsPatterns qsort} tab : Forall pe_ready tab →
  ∃ p, patterns_have_changed qsort tab = Some p ∧ patterntab p ≡ₚ pe_norm <$> tab
    ∧ StronglySorted pcmp (patterntab p) ∧ validpatterns p = first_invalid (patterntab p).
Proof.
  intros Hr. unfold patterns_have_changed.
  assert (Hm : mapM pe_recompile tab = Some (pe_norm <$> tab)).
  { induction Hr as [|e tab He _ IH]; [done|]. cbn [mapM]. rewrite recompile_norm by done. cbn [mbind option_bind].
    by rewrite IH. }
  rewrite Hm. eexists. split; [done|]. cbn. split_and!; [apply qsort_perm|apply qsort_sorted|done].
Qed.

(** ** The state between requests *)

Definition eattr_ok (omask seteattr clreattr : Z) : bool :=
  negb (negb (Z.land omask PATTERN_OMASK_EATTR =? 0)
        && (((seteattr =? 0) && (clreattr =? 0)) || negb (Z.land seteattr clreattr =? 0))).

(** What the fields of a pattern in use may hold. *)
Record pe_typed (e : patentry) : Prop := {
  pt_gname : pe_gname e ≠ []; pt_gnleng : (length (pe_gname e) ≤ 255)%nat; pt_bytes : Forall is_u8 (pe_gname e);
  pt_euid : is_u32 (pe_euid e); pt_egid : is_u32 (pe_egid e); pt_priority : is_u8 (pe_priority e);
  pt_omask : is_u8 (pe_omask e); pt_scid : is_u8 (pe_scid e); pt_seteattr : is_u8 (pe_seteattr e);
  pt_clreattr : is_u8 (pe_clreattr e); pt_trashretention : is_u16 (pe_trashretention e) }.

Definition pe_key (e : patentry) : list Z * Z * Z := (pe_gname e, pe_euid e, pe_egid e).

Definition active (p : pats) : list patentry := in_use (patterntab p).

Record pats_inv (p : pats) : Prop := {
  pi_length : length (patterntab p) = PATTERNS_MAX;
  pi_sorted : StronglySorted pcmp (patterntab p);
  pi_count : validpatterns p = first_invalid (patterntab p);
  pi_ready : Forall (λ e, compiles e ∧ pe_norm e = e) (patterntab p);
  pi_typed : Forall pe_typed (active p);
  pi_unique : NoDup (pe_key <$> active p) }.

Lemma norm_valid e : pe_valid (pe_norm e) = pe_valid e.
Proof. done. Qed.

Lemma norm_norm e : pe_norm (pe_norm e) = pe_norm e.
Proof. done. Qed.

Lemma in_use_norm tab : in_use (pe_norm <$> tab) = pe_norm <$> in_use tab.
Proof.
  unfold in_use. induction tab as [|e tab IH]; [done|]. rewrite fmap_cons. destruct (pe_valid e) eqn:E.
  - rewrite !filter_cons_True by done. rewrite fmap_cons. by f_equal.
  - by rewrite !filter_cons_False by (cbn; congruence).
Qed.

Lemma ready_of_inv p : pats_inv p → Forall pe_ready (patterntab p).
Proof. intros Hi. eapply Forall_impl; [apply (pi_ready _ Hi)|]. intros e [? ?]. by split. Qed.

(** A change of the array that keeps what is in use typed and unique. *)
Lemma changed_inv qsort `{!SortsPatterns qsort} tab l : length tab = PATTERNS_MAX → Forall pe_ready tab → in_use tab ≡ₚ l →
  Forall pe_typed l → NoDup (pe_key <$> l) →
  ∃ p, patterns_have_changed qsort tab = Some p ∧ pats_inv p ∧ active p ≡ₚ pe_norm <$> l.
Proof.
  intros Hlen Hr Hl Ht Hu. destruct (have_changed_spec qsort tab Hr) as (p & Hp & Hperm & Hs & Hc).
  assert (Ha : active p ≡ₚ pe_norm <$> l).
  { unfold active, in_use. rewrite Hperm. change (in_use (pe_norm <$> tab) ≡ₚ pe_norm <$> l).
    by rewrite in_use_norm, Hl. }
  exists p. split_and!; [done| |done]. constructor; try done.
  - by rewrite Hperm, length_fmap.
  - rewrite Hperm. apply Forall_fmap. eapply Forall_impl; [exact Hr|]. intros e [Hce _]. cbn. split; [exact Hce|done].
  - rewrite Ha. apply Forall_fmap. eapply Forall_impl; [exact Ht|]. intros e []. by constructor.
  - rewrite Ha, <-list_fmap_compose. exact Hu.
Qed.

Lemma active_norm p : pats_inv p → pe_norm <$> active p = active p.
Proof.
  intros Hi. unfold active. rewrite <-in_use_norm. f_equal.
  rewrite <-(list_fmap_id (patterntab p)) at 2. apply Forall_fmap_ext.
  eapply Forall_impl; [apply (pi_ready _ Hi)|]. by intros e [_ ?].
Qed.

Lemma elem_active e p : e ∈ active p ↔ e ∈ patterntab p ∧ pe_valid e = true.
Proof. unfold active, in_use. rewrite list_elem_of_filter. tauto. Qed.

(** ** Adding *)

Lemma pe_same_spec gname euid egid e :
  pe_same gname euid egid e = true ↔ pe_valid e = true ∧ pe_key e = (gname, euid, egid).
Proof.
  unfold pe_same, pe_key, pe_gnleng. rewrite !andb_true_iff, !Z.eqb_eq, bool_decide_eq_true. split.
  - intros ((((? & ?) & ?) & ?) & ->). split; [done|]. congruence.
  - intros [? [= <- <- <-]]. done.
Qed.

Lemma add_walk_spec gname euid egid tab : ∀ i npos, (i + length tab ≤ PATTERNS_MAX)%nat →
  match add_walk gname euid egid tab i npos with
  | None => ∃ e, e ∈ in_use tab ∧ pe_key e = (gname, euid, egid)
  | Some n => (∀ e, e ∈ in_use tab → pe_key e ≠ (gname, euid, egid))
      ∧ if (npos =? PATTERNS_MAX)%nat
        then (n = PATTERNS_MAX ∧ in_use tab = tab) ∨ ∃ j e, n = (i + j)%nat ∧ tab !! j = Some e ∧ pe_valid e = false
        else n = npos
  end.
Proof.
  induction tab as [|e tab IH]; intros i npos Hi; cbn [add_walk].
  { split; [unfold in_use; set_solver|]. case_if; [|done]. left. split; [by apply Nat.eqb_eq|done]. }
  cbn [length] in Hi. destruct (pe_valid e) eqn:E.
  - assert (Hin : in_use (e :: tab) = e :: in_use tab) by (unfold in_use; by rewrite filter_cons_True).
    rewrite Hin. destruct (pe_same gname euid egid e) eqn:Es.
    { apply pe_same_spec in Es as [_ ?]. exists e. split; [by left|done]. }
    specialize (IH (S i) npos ltac:(lia)). destruct (add_walk _ _ _ _ _ _) as [n|].
    + destruct IH as [Hno Hn]. split.
      * intros e' [->|He']%elem_of_cons; [|by apply Hno]. intros Hk. enough (pe_same gname euid egid e = true) by congruence.
        by apply pe_same_spec.
      * destruct (npos =? PATTERNS_MAX)%nat; [|done]. destruct Hn as [[-> ->]|(j & e' & -> & ? & ?)]; [by left|].
        right. exists (S j), e'. split; [lia|done].
    + destruct IH as (e' & ? & ?). exists e'. split; [by right|done].
  - assert (Hin : in_use (e :: tab) = in_use tab) by (unfold in_use; rewrite filter_cons_False; [done|congruence]).
    rewrite Hin. specialize (IH (S i) (if (npos =? PATTERNS_MAX)%nat then i else npos) ltac:(lia)).
    destruct (add_walk _ _ _ _ _ _) as [n|]; [|done]. destruct IH as [Hno Hn]. split; [done|].
    destruct (npos =? PATTERNS_MAX)%nat eqn:En.
    + rewrite (proj2 (Nat.eqb_neq i PATTERNS_MAX)) in Hn by lia. subst n. right. exists O, e. split; [lia|done].
    + by rewrite En in Hn.
Qed.

Lemma in_use_insert tab i old e : tab !! i = Some old → pe_valid old = false → pe_valid e = true →
  in_use (<[i := e]> tab) ≡ₚ e :: in_use tab.
Proof.
  intros Hi Ho He. rewrite <-(take_drop_middle tab i old Hi) at 2.
  rewrite insert_take_drop by (by eapply lookup_lt_Some). unfold in_use.
  rewrite !filter_app, (filter_cons_True _ e) by done. rewrite (filter_cons_False _ old) by congruence.
  symmetry. apply Permutation_middle.
Qed.

Lemma in_use_length tab : in_use tab = tab ↔ length (in_use tab) = length tab.
Proof.
  split; [by intros ->|]. intros Hl. unfold in_use in *. induction tab as [|e tab IH]; [done|].
  destruct (pe_valid e) eqn:E.
  - rewrite filter_cons_True in * by done. f_equal. apply IH. cbn in Hl. lia.
  - rewrite filter_cons_False in Hl by congruence. pose proof (length_filter (λ e, pe_valid e = true) tab). cbn in Hl. lia.
Qed.

(** The entries in use after some have been marked as free. *)
Definition pe_drop (f : patentry → bool) (e : patentry) : patentry :=
  if pe_valid e && f e then pe_set false true e else e.

Lemma in_use_drop f tab : in_use (pe_drop f <$> tab) = filter (λ e, f e = false) (in_use tab).
Proof.
  unfold in_use, pe_drop. induction tab as [|e tab IH]; [done|]. rewrite fmap_cons. destruct (pe_valid e) eqn:E; cbn [andb].
  - rewrite (filter_cons_True _ e) by done. destruct (f e) eqn:Ef.
    + rewrite !filter_cons_False by (cbn; congruence). apply IH.
    + rewrite !filter_cons_True by done. by f_equal.
  - rewrite !filter_cons_False by congruence. apply IH.
Qed.

Lemma drop_ready f p : pats_inv p → Forall pe_ready (pe_drop f <$> patterntab p).
Proof.
  intros Hi. apply Forall_fmap. eapply Forall_impl; [by apply ready_of_inv|]. intros e He. cbn.
  unfold pe_drop. case_if; [|done]. split; [|done]. intros ?; done.
Qed.

Lemma drop_inv qsort `{!SortsPatterns qsort} f p : pats_inv p →
  ∃ p', patterns_have_changed qsort (pe_drop f <$> patterntab p) = Some p' ∧ pats_inv p'
    ∧ active p' ≡ₚ filter (λ e, f e = false) (active p).
Proof.
  intros Hi.
  assert (Hsub : filter (λ e, f e = false) (active p) `sublist_of` active p) by apply sublist_filter.
  destruct (changed_inv qsort (pe_drop f <$> patterntab p) (filter (λ e, f e = false) (active p))) as (p' & ? & ? & Ha).
  - rewrite length_fmap. apply Hi.
  - by apply drop_ready.
  - by rewrite in_use_drop.
  - eapply Forall_sublist; [exact Hsub|apply Hi].
  - eapply sublist_NoDup; [apply (pi_unique _ Hi)|]. by apply fmap_sublist.
  - exists p'. split_and!; [done|done|]. rewrite Ha. apply reflexive_eq.
    transitivity (id <$> filter (λ e, f e = false) (active p)); [|apply list_fmap_id].
    apply Forall_fmap_ext, Forall_forall. intros e [_ He]%list_elem_of_filter. apply elem_active in He as [He _].
    pose proof (pi_ready _ Hi) as Hr. rewrite Forall_forall in Hr. by apply Hr.
Qed.
