(* ===== verification/PatternImage.v ===== *)
(** * The table of patterns in the metadata image and in listings *)

From S2P Require Import Prelude MfsComm DataPack GlobEngine GlobFacts StorageClass PatternTable PatternFacts.

Section image.
Context (qsort : list patentry → list patentry) `{!SortsPatterns qsort}.
Context (bld bld' : build).

(** A record as the load leaves it in the place of [old]. *)
Definition pe_loaded (old e : patentry) : patentry :=
  mk_patentry (pe_glob old) true true (pe_gname e) (pe_euid e) (pe_egid e) (pe_priority e) (pe_omask e) (pe_scid e)
    (pe_seteattr e) (pe_clreattr e) (pe_trashretention e).

Definition put_body (e : patentry) : list Z :=
  put8bit bld (pe_priority e) ++ put8bit bld (pe_omask e) ++ put8bit bld (pe_scid e) ++
  put16bit bld (pe_trashretention e) ++ put8bit bld (pe_seteattr e) ++ put8bit bld (pe_clreattr e) ++ pe_gname e.

Lemma get_body e old rest : pe_typed e →
  get_pattern bld' 0x11 (pe_gnleng e) (pe_euid e) (pe_egid e) old (put_body e ++ rest) = Some (pe_loaded old e, rest).
Proof.
  intros []. unfold is_u8, is_u16, get_pattern, put_body, pe_gnleng in *. rewrite <-!(assoc_L (++)).
  do 3 (rewrite get8_put8; cbn [mbind option_bind]). rewrite get16_put16. cbn [mbind option_bind].
  rewrite get8_put8. cbn [mbind option_bind]. change (0x11 =? 0x10) with false. cbn iota. rewrite get8_put8. cbn [mbind option_bind].
  rewrite !Z.mod_small by lia. rewrite Nat2Z.id. rewrite (proj2 (Nat.ltb_ge _ _)) by (rewrite length_app; lia).
  by rewrite take_app_length, drop_app_length.
Qed.

Lemma put_pattern_body e :
  put_pattern bld e = put8bit bld (pe_gnleng e) ++ put32bit bld (pe_euid e) ++ put32bit bld (pe_egid e) ++ put_body e.
Proof. done. Qed.

(** One round of the loop on a record. *)
Lemma load_record fuel ignoreflag i tab old e rest :
  pe_typed e → (i < PATTERNS_MAX)%nat → tab !! i = Some old →
  load_loop bld' (S fuel) 0x11 ignoreflag i tab (put_pattern bld e ++ rest) =
  load_loop bld' fuel 0x11 ignoreflag (S i) (<[i := pe_loaded old e]> tab) rest.
Proof.
  intros Ht Hi Hold. cbn [load_loop]. rewrite (proj2 (Nat.leb_gt _ _)) by done. cbn [andb].
  rewrite put_pattern_body, <-!(assoc_L (++)). rewrite get8_put8. cbn [mbind option_bind].
  do 2 (rewrite get32_put32; cbn [mbind option_bind]). pose proof Ht as [].
  unfold is_u32, pe_gnleng in *. rewrite !Z.mod_small by lia.
  assert (0 < Z.of_nat (length (pe_gname e))) by (destruct (pe_gname e); [done|cbn; lia]).
  rewrite (proj2 (Z.eqb_neq _ 0)) by lia. cbn [andb]. rewrite Hold.
  change (Z.of_nat (length (pe_gname e))) with (pe_gnleng e). by rewrite get_body.
Qed.

Definition free_from (i : nat) (tab : list patentry) : Prop := ∀ j e, (i ≤ j)%nat → tab !! j = Some e → pe_valid e = false.

Lemma load_records ignoreflag l : ∀ fuel i tab rest,
  Forall (λ e, pe_typed e ∧ compiles e ∧ pe_norm e = e ∧ pe_valid e = true) l →
  length tab = PATTERNS_MAX → Forall pe_ready tab → free_from i tab → (i + length l ≤ PATTERNS_MAX)%nat →
  ∃ tab', load_loop bld' (length l + fuel) 0x11 ignoreflag i tab (concat (put_pattern bld <$> l) ++ rest)
      = load_loop bld' fuel 0x11 ignoreflag (i + length l) tab' rest
    ∧ length tab' = PATTERNS_MAX ∧ Forall pe_ready tab' ∧ pe_norm <$> in_use tab' ≡ₚ (pe_norm <$> in_use tab) ++ l.
Proof.
  induction l as [|e l IH]; intros fuel i tab rest Hl Hlen Hr Hfree Hi.
  { exists tab. cbn. rewrite Nat.add_0_r, app_nil_r. done. }
  apply Forall_cons in Hl as [(Ht & Hc & Hn & Hv) Hl]. cbn [length] in Hi.
  destruct (lookup_lt_is_Some_2 tab i ltac:(lia)) as [old Hold].
  rewrite fmap_cons. cbn [concat length Nat.add]. rewrite <-(assoc_L (++)), (load_record _ _ _ _ old) by (done || lia).
  destruct (IH fuel (S i) (<[i := pe_loaded old e]> tab) rest) as (tab' & -> & Hlen' & Hr' & Hperm).
  - done.
  - by rewrite length_insert.
  - apply Forall_insert; [done|]. split; [|done]. intros _. by apply Hc.
  - intros j e' Hj Hje. rewrite list_lookup_insert_ne in Hje by lia. eapply Hfree; [|done]. lia.
  - lia.
  - exists tab'. rewrite <-Nat.add_succ_comm. split_and!; [done|done|done|]. rewrite Hperm.
    rewrite (in_use_insert _ _ old) by (done || by eapply Hfree). rewrite fmap_cons.
    assert (Hne : pe_norm (pe_loaded old e) = e).
    { rewrite <-Hn at 2. unfold pe_norm, pe_loaded, compiled_of. cbn. by rewrite Hv. }
    rewrite Hne. cbn. by rewrite Permutation_middle.
Qed.

(** The table before a load: nothing is in use. *)
Lemma cleanup_spec p : pats_inv p →
  ∃ p', patterns_cleanup qsort p = Some p' ∧ length (patterntab p') = PATTERNS_MAX ∧ Forall pe_ready (patterntab p')
    ∧ in_use (patterntab p') = [].
Proof.
  intros Hi. unfold patterns_cleanup.
  assert (Hr : Forall pe_ready (pe_set false true <$> patterntab p)).
  { apply Forall_fmap, Forall_forall. intros e _. split; [intros ?; done|done]. }
  destruct (have_changed_spec qsort _ Hr) as (p' & Hp' & Hperm & _ & _). exists p'. split; [done|].
  split; [by rewrite Hperm, !length_fmap, (pi_length _ Hi)|]. split.
  - rewrite Hperm. apply Forall_fmap, Forall_fmap, Forall_forall. intros e _. split; [intros ?; done|done].
  - apply in_use_none. rewrite Hperm. apply Forall_fmap, Forall_fmap, Forall_forall. done.
Qed.

Definition patterns_end : list Z := put8bit bld 0 ++ put32bit bld PATTERN_EUGID_ANY ++ put32bit bld PATTERN_EUGID_ANY.

Lemma length_patterns_end : length patterns_end = 9%nat.
Proof. unfold patterns_end. by rewrite put8bit_be, !put32bit_be, !length_app, !length_be_bytes. Qed.

Lemma load_end fuel ignoreflag i tab rest : (i < PATTERNS_MAX)%nat ∨ ignoreflag = true →
  load_loop bld' (S fuel) 0x11 ignoreflag i tab (patterns_end ++ rest) = Some (0, tab, rest).
Proof.
  intros Hi. cbn [load_loop].
  assert ((PATTERNS_MAX <=? i)%nat && negb ignoreflag = false) as ->.
  { destruct Hi as [Hi| ->]; [by rewrite (proj2 (Nat.leb_gt _ _))|apply andb_false_r]. }
  unfold patterns_end. rewrite <-!(assoc_L (++)), get8_put8. cbn [mbind option_bind].
  do 2 (rewrite get32_put32; cbn [mbind option_bind]). done.
Qed.

Lemma load_stored p ignoreflag tab rest n :
  pats_inv p → length tab = PATTERNS_MAX → Forall pe_ready tab → in_use tab = [] →
  ∃ tab', load_loop bld' (length (active p) + S n) 0x11 ignoreflag 0 tab (patterns_store bld p ++ rest)
      = load_loop bld' (S n) 0x11 ignoreflag (length (active p)) tab' (patterns_end ++ rest)
    ∧ length tab' = PATTERNS_MAX ∧ Forall pe_ready tab' ∧ pe_norm <$> in_use tab' ≡ₚ active p.
Proof.
  intros Hi Hlen Hr Hu.
  change (patterns_store bld p) with (concat (put_pattern bld <$> active p) ++ patterns_end). rewrite <-(assoc_L (++)).
  destruct (load_records ignoreflag (active p) (S n) 0 tab (patterns_end ++ rest)) as (tab' & -> & Hl & Hr' & Hp).
  - apply Forall_forall. intros e He. pose proof (pi_ready _ Hi) as Hrd. pose proof (pi_typed _ Hi) as Ht.
    rewrite Forall_forall in Hrd, Ht. apply elem_active in He as He'. destruct He' as [Hin Hv].
    destruct (Hrd e Hin). split_and!; [by apply Ht|done|done|done].
  - done.
  - done.
  - intros j e _ He. destruct (pe_valid e) eqn:E; [|done].
    assert (Hin : e ∈ in_use tab) by (apply list_elem_of_filter; split; [done|by eapply list_elem_of_lookup_2]).
    rewrite Hu in Hin. by apply elem_of_nil in Hin.
  - cbn. rewrite <-(pi_length _ Hi). apply length_filter.
  - exists tab'. split_and!; [done|done|done|]. by rewrite Hp, Hu.
Qed.

Lemma length_store p : (length (active p) < length (patterns_store bld p))%nat.
Proof.
  unfold patterns_store. rewrite !length_app, put8bit_be, length_be_bytes.
  change (filter _ (patterntab p)) with (active p).
  assert (H : ∀ l, (length l ≤ length (concat (put_pattern bld <$> l)))%nat); [|pose proof (H (active p)); lia].
  induction l as [|e l IH]; [done|]. rewrite fmap_cons. cbn [concat length]. rewrite length_app, put_pattern_body.
  rewrite length_app, put8bit_be, length_be_bytes. lia.
Qed.

Lemma load_fuel p rest : ∃ n, S (length (patterns_store bld p ++ rest)) = (length (active p) + S n)%nat.
Proof.
  pose proof (length_store p). rewrite length_app.
  exists (length (patterns_store bld p) + length rest - length (active p))%nat. lia.
Qed.

(** A stored table that is not full, or is loaded with the flag [ignoreflag], comes back. *)
Lemma patterns_load_store p q ignoreflag rest :
  pats_inv p → pats_inv q → (length (active p) < PATTERNS_MAX)%nat ∨ ignoreflag = true →
  ∃ p', patterns_load qsort bld' 0x11 ignoreflag (patterns_store bld p ++ rest) q = Some (0, p', rest)
    ∧ pats_inv p' ∧ active p' ≡ₚ active p.
Proof.
  intros Hi Hq Hfull. unfold patterns_load. change (0x11 <? 0x11) with false. cbn iota.
  destruct (cleanup_spec q Hq) as (q' & -> & Hlen & Hr & Hu). cbn [mbind option_bind].
  destruct (load_fuel p rest) as [n Hn]. rewrite Hn.
  destruct (load_stored p ignoreflag (patterntab q') rest n) as (tab' & -> & Hlen' & Hr' & Hperm); [done..|].
  rewrite load_end by done. cbn [mbind option_bind]. change (0 =? 0) with true. cbn iota.
  assert (Hkeys : pe_key <$> in_use tab' ≡ₚ pe_key <$> active p).
  { rewrite <-Hperm, <-list_fmap_compose. done. }
  destruct (changed_inv qsort tab' (in_use tab')) as (p' & -> & Hi' & Ha); [done|done|done|..].
  - pose proof (pi_typed _ Hi) as Ht. rewrite <-Hperm, Forall_fmap in Ht.
    eapply Forall_impl; [exact Ht|]. intros e []. by constructor.
  - rewrite Hkeys. apply Hi.
  - cbn [mbind option_bind]. exists p'. split_and!; [done|done|]. by rewrite Ha.
Qed.

(** A full table, which the requests allow, is refused. *)
Lemma patterns_load_full p q rest :
  pats_inv p → pats_inv q → length (active p) = PATTERNS_MAX →
  ∃ p', patterns_load qsort bld' 0x11 false (patterns_store bld p ++ rest) q = Some (-1, p', patterns_end ++ rest).
Proof.
  intros Hi Hq Hfull. unfold patterns_load. change (0x11 <? 0x11) with false. cbn iota.
  destruct (cleanup_spec q Hq) as (q' & -> & Hlen & Hr & Hu). cbn [mbind option_bind].
  destruct (load_fuel p rest) as [n Hn]. rewrite Hn.
  destruct (load_stored p false (patterntab q') rest n) as (tab' & -> & Hlen' & Hr' & Hperm); [done..|].
  cbn [load_loop]. rewrite Hfull, Nat.leb_refl. cbn [andb negb mbind option_bind]. by eexists.
Qed.

End image.

(** ** The list fills the packet *)

Lemma length_list_bytes bld names tab : Z.of_nat (length (list_bytes bld names tab)) = list_size names tab.
Proof.
  unfold list_bytes. induction tab as [|e tab IH]; [done|]. cbn [list_size]. destruct (pe_valid e) eqn:E.
  - rewrite filter_cons_True by done. rewrite fmap_cons. cbn [concat]. rewrite length_app, Nat2Z.inj_add, IH. f_equal.
    unfold list_pattern, listed_name, pe_gnleng. rewrite !put8bit_be, !put32bit_be, put16bit_be, !length_app, !length_be_bytes.
    destruct (negb (Z.land (pe_omask e) PATTERN_OMASK_SCLASS =? 0)); cbn [length]; lia.
  - by rewrite filter_cons_False by congruence.
Qed.
