(* ===== verification/PatternProps.v ===== *)
(** * The table of patterns: the theorems *)

From S2P Require Import Prelude MfsComm DataPack GlobEngine GlobFacts GlobMatch GlobProps StorageClass PatternTable PatternFacts PatternImage.

Section props.
Context (qsort : list patentry → list patentry) `{!SortsPatterns qsort}.

(** ** Adding and removing *)

(** The arguments of a request have the widths of their fields; the pattern compiles. *)
Record pat_args (gname : list Z) (euid egid priority omask scid trashretention seteattr clreattr : Z) : Prop := {
  pa_gnleng : (length gname ≤ 255)%nat; pa_bytes : Forall is_u8 gname; pa_compiles : is_Some (glob_new (c_string gname));
  pa_euid : is_u32 euid; pa_egid : is_u32 egid; pa_priority : is_u8 priority; pa_omask : is_u8 omask;
  pa_scid : is_u8 scid; pa_trashretention : is_u16 trashretention; pa_seteattr : is_u8 seteattr; pa_clreattr : is_u8 clreattr }.

Definition new_pattern (gname : list Z) (euid egid priority omask scid trashretention seteattr clreattr : Z) : patentry :=
  mk_patentry (glob_new (c_string gname)) true false gname euid egid priority omask scid seteattr clreattr trashretention.

Lemma univ_add_spec ts gname euid egid priority omask scid trashretention seteattr clreattr mrflag p :
  pats_inv p → pat_args gname euid egid priority omask scid trashretention seteattr clreattr →
  ∃ st p' log, patterns_univ_add qsort ts gname euid egid priority omask scid trashretention seteattr clreattr mrflag p
      = Some (st, p', log) ∧ pats_inv p' ∧
    if (length gname =? 0)%nat || negb (eattr_ok omask seteattr clreattr) then st = MFS_ERROR_EINVAL ∧ p' = p ∧ log = []
    else if decide ((gname, euid, egid) ∈ pe_key <$> active p) then st = MFS_ERROR_PATTERNEXISTS ∧ p' = p ∧ log = []
    else if decide (length (active p) = PATTERNS_MAX) then st = MFS_ERROR_PATLIMITREACHED ∧ p' = p ∧ log = []
    else st = MFS_STATUS_OK
      ∧ active p' ≡ₚ new_pattern gname euid egid priority omask scid trashretention seteattr clreattr :: active p
      ∧ log = if mrflag then [] else [PATADD ts gname euid egid priority omask scid trashretention seteattr clreattr].
Proof.
  intros Hi Ha. unfold patterns_univ_add.
  destruct (length gname =? 0)%nat eqn:Eg; cbn [orb]; [by do 3 eexists|].
  unfold eattr_ok. rewrite negb_involutive. case_if; [by do 3 eexists|].
  pose proof (add_walk_spec gname euid egid (patterntab p) 0 PATTERNS_MAX) as Hw.
  rewrite (pi_length _ Hi) in Hw. specialize (Hw (le_n _)). rewrite Nat.eqb_refl in Hw.
  destruct (add_walk _ _ _ _ _ _) as [n|].
  2: { do 3 eexists. split; [done|]. split; [done|]. destruct Hw as (e & He & Hk). rewrite decide_True; [done|].
       rewrite <-Hk. by apply list_elem_of_fmap_2. }
  destruct Hw as [Hno Hn].
  destruct (decide ((gname, euid, egid) ∈ pe_key <$> active p)) as [(e & Hk & He)%list_elem_of_fmap|_];
    [by destruct (Hno e He)|].
  destruct Hn as [[-> Hfull]|(j & old & -> & Hj & Hold)].
  { rewrite Nat.eqb_refl. do 3 eexists. split; [done|]. split; [done|]. rewrite decide_True; [done|].
    unfold active. by rewrite Hfull, (pi_length _ Hi). }
  cbn [Nat.add] in *. pose proof (lookup_lt_Some _ _ _ Hj) as Hlt. rewrite (pi_length _ Hi) in Hlt.
  rewrite (proj2 (Nat.eqb_neq _ _)) by lia. rewrite Hj. cbn [mbind option_bind].
  set (e := mk_patentry _ true true _ _ _ _ _ _ _ _ _).
  assert (Hnf : length (active p) ≠ PATTERNS_MAX).
  { intros Hf. rewrite <-(pi_length _ Hi) in Hf. apply in_use_length in Hf.
    assert (Hin : old ∈ in_use (patterntab p)) by (rewrite Hf; by eapply list_elem_of_lookup_2).
    apply list_elem_of_filter in Hin as [? _]. congruence. }
  destruct (decide (length (active p) = PATTERNS_MAX)) as [|_]; [done|].
  destruct (changed_inv qsort (<[j := e]> (patterntab p)) (e :: active p)) as (p' & Hp' & Hi' & Ha').
  - by rewrite length_insert, (pi_length _ Hi).
  - apply Forall_insert; [by apply ready_of_inv|]. split; [|done]. intros _. apply (pa_compiles _ _ _ _ _ _ _ _ _ Ha).
  - by apply (in_use_insert _ _ old).
  - constructor; [|apply Hi]. destruct Ha. constructor; try done. destruct gname; done.
  - rewrite fmap_cons. apply NoDup_cons. split; [|apply Hi]. intros (e' & Hk & He)%list_elem_of_fmap. by destruct (Hno e' He).
  - rewrite Hp'. cbn [mbind option_bind]. do 3 eexists. split; [done|]. split; [done|]. split; [done|]. split; [|done].
    rewrite Ha', fmap_cons, active_norm by done. done.
Qed.

Lemma univ_delete_spec ts gname euid egid mrflag p : pats_inv p →
  ∃ st p' log, patterns_univ_delete qsort ts gname euid egid mrflag p = Some (st, p', log) ∧ pats_inv p' ∧
    if decide ((gname, euid, egid) ∈ pe_key <$> active p) then
      st = MFS_STATUS_OK ∧ active p' ≡ₚ filter (λ e, pe_key e ≠ (gname, euid, egid)) (active p)
      ∧ log = if mrflag then [] else [PATDEL ts gname euid egid]
    else st = MFS_ERROR_NOSUCHPATTERN ∧ p' = p ∧ log = [].
Proof.
  intros Hi. unfold patterns_univ_delete.
  assert (Hex : existsb (pe_same gname euid egid) (patterntab p) = bool_decide ((gname, euid, egid) ∈ pe_key <$> active p)).
  { apply eq_bool_prop_intro. rewrite !Is_true_true, bool_decide_eq_true, existsb_exists. split.
    - intros (e & He & [Hv Hk]%pe_same_spec). rewrite <-Hk. apply list_elem_of_fmap_2. apply elem_active.
      by rewrite list_elem_of_In.
    - intros (e & Hk & [He Hv]%elem_active)%list_elem_of_fmap. exists e. rewrite <-list_elem_of_In. split; [done|].
      by apply pe_same_spec. }
  rewrite Hex. case_decide as Hd; [rewrite bool_decide_eq_true_2 by done|rewrite bool_decide_eq_false_2 by done; by do 3 eexists].
  destruct (drop_inv qsort (pe_same gname euid egid) p Hi) as (p' & Hp' & Hi' & Ha').
  assert (Heq : (λ e, if pe_same gname euid egid e then pe_set false true e else e) <$> patterntab p
    = pe_drop (pe_same gname euid egid) <$> patterntab p).
  { apply list_fmap_ext. intros _ e _. unfold pe_drop. destruct (pe_same gname euid egid e) eqn:Es; [|by rewrite andb_false_r].
    apply pe_same_spec in Es as [-> _]. done. }
  rewrite Heq, Hp'. cbn [mbind option_bind]. do 3 eexists. split; [done|]. split; [done|]. split; [done|]. split; [|done].
  rewrite Ha'. apply reflexive_eq. apply filter_iff_in. intros e He. apply elem_active in He as [_ Hv].
  rewrite <-not_true_iff_false, pe_same_spec. tauto.
Qed.

Lemma sclass_delete_spec scid p : pats_inv p →
  ∃ p', patterns_sclass_delete qsort scid p = Some p' ∧ pats_inv p'
    ∧ active p' ≡ₚ filter (λ e, pe_scid e ≠ scid) (active p).
Proof.
  intros Hi. destruct (drop_inv qsort (λ e, scid =? pe_scid e) p Hi) as (p' & Hp' & Hi' & Ha').
  exists p'. split_and!; [done|done|]. rewrite Ha'. apply reflexive_eq.
  apply filter_iff_in. intros e _. rewrite Z.eqb_neq. split; congruence.
Qed.
(** ** Reachable tables *)

Inductive pats_reach : pats → Prop :=
  | pats_start : pats_reach patterns_init
  | pats_add ts gname euid egid priority omask scid trashretention seteattr clreattr mrflag p st p' log :
      pats_reach p → pat_args gname euid egid priority omask scid trashretention seteattr clreattr →
      patterns_univ_add qsort ts gname euid egid priority omask scid trashretention seteattr clreattr mrflag p = Some (st, p', log) →
      pats_reach p'
  | pats_delete ts gname euid egid mrflag p st p' log :
      pats_reach p → patterns_univ_delete qsort ts gname euid egid mrflag p = Some (st, p', log) → pats_reach p'
  | pats_sclass_delete scid p p' :
      pats_reach p → patterns_sclass_delete qsort scid p = Some p' → pats_reach p'.

Lemma init_sorted n : StronglySorted pcmp (replicate n pe_unused).
Proof.
  induction n as [|n IH]; [constructor|]. cbn [replicate]. constructor; [done|]. apply Forall_replicate. done.
Qed.

Lemma pats_init_inv : pats_inv patterns_init.
Proof.
  assert (Hu : in_use (patterntab patterns_init) = []) by (apply in_use_none, Forall_replicate; done).
  constructor.
  - apply length_replicate.
  - apply init_sorted.
  - done.
  - apply Forall_replicate. split; [intros ?; done|done].
  - unfold active. rewrite Hu. constructor.
  - unfold active. rewrite Hu. constructor.
Qed.

Lemma reach_inv p : pats_reach p → pats_inv p.
Proof.
  induction 1 as [|ts gname euid egid priority omask scid trashretention seteattr clreattr mrflag p st p' log _ IH Ha H
    |ts gname euid egid mrflag p st p' log _ IH H|scid p p' _ IH H]; [apply pats_init_inv|..].
  - destruct (univ_add_spec ts gname euid egid priority omask scid trashretention seteattr clreattr mrflag p IH Ha)
      as (st1 & p1 & log1 & H1 & Hi & _). rewrite H in H1. by injection H1 as -> -> ->.
  - destruct (univ_delete_spec ts gname euid egid mrflag p IH) as (st1 & p1 & log1 & H1 & Hi & _).
    rewrite H in H1. by injection H1 as -> -> ->.
  - destruct (sclass_delete_spec scid p IH) as (p1 & H1 & Hi & _). rewrite H in H1. by injection H1 as ->.
Qed.

(** ** Search *)

(** The rule applies to a file of that name made by that user. *)
Definition applies (uid : Z) (gid : list Z) (name : list Z) (e : patentry) : Prop :=
  pe_check_ugids e uid gid = true ∧ globs (c_string (pe_gname e)) name.

Lemma c_string_incl s : Forall is_u8 s → Forall is_u8 (c_string s) ∧ (length (c_string s) ≤ length s)%nat.
Proof.
  induction 1 as [|c s Hc _ [IH1 IH2]]; [done|]. cbn [c_string length].
  case_if; cbn [length]; (split; [by constructor|lia]).
Qed.

Lemma entry_match e name : pe_valid e = true → compiles e → pe_norm e = e → pe_typed e →
  name ≠ [] → (length name ≤ 255)%nat → Forall is_u8 name →
  ∃ g, pe_glob e = Some g ∧ (middle_uniform g →
    ∃ b, glob_match g name = Some b ∧ (b = true ↔ globs (c_string (pe_gname e)) name)).
Proof.
  intros Hv Hc Hn Ht Hne Hl Hb. destruct (Hc Hv) as [g Hg]. exists g.
  split; [rewrite <-Hn; unfold pe_norm, compiled_of; by rewrite Hv|]. intros Hu.
  destruct (c_string_incl (pe_gname e)) as [Hcb Hcl]; [apply Ht|]. pose proof (pt_gnleng _ Ht).
  destruct (decide (c_string (pe_gname e) = [])) as [He|He].
  - rewrite He in *. injection Hg as <-. exists false. split; [by destruct name|]. by rewrite globs_nil_inv.
  - apply glob_match_exact; (done || lia).
Qed.

Definition uniform (e : patentry) : Prop := ∀ g, pe_glob e = Some g → middle_uniform g.

Lemma find_walk_spec uid gid name tab :
  Forall (λ e, pe_valid e = true ∧ compiles e ∧ pe_norm e = e ∧ pe_typed e ∧ uniform e) tab → StronglySorted pcmp tab →
  name ≠ [] → (length name ≤ 255)%nat → Forall is_u8 name →
  ∃ r, find_walk tab uid gid name = Some r ∧
    match r with
    | Some e => e ∈ tab ∧ applies uid gid name e ∧ ∀ e', e' ∈ tab → applies uid gid name e' → pe_priority e' ≤ pe_priority e
    | None => ∀ e, e ∈ tab → ¬ applies uid gid name e
    end.
Proof.
  intros Hok Hs Hne Hl Hb. induction Hs as [|e tab Hs IH Hall]; [eexists; split; [done|]; set_solver|].
  pose proof Hok as [(Hv & Hc & Hn & Ht & Hu) Hok']%Forall_cons. specialize (IH Hok').
  cbn [find_walk].
  assert (Hskip : ¬ applies uid gid name e → ∃ r, find_walk tab uid gid name = Some r ∧
    match r with
    | Some e1 => e1 ∈ e :: tab ∧ applies uid gid name e1
        ∧ ∀ e', e' ∈ e :: tab → applies uid gid name e' → pe_priority e' ≤ pe_priority e1
    | None => ∀ e1, e1 ∈ e :: tab → ¬ applies uid gid name e1
    end).
  { intros Hna. destruct IH as ([e1|] & -> & IH); eexists; (split; [done|]).
    - destruct IH as (? & ? & Hmax). split_and!; [by right|done|]. intros e' [->|?]%elem_of_cons ?; [done|by apply Hmax].
    - by intros e1 [->|?]%elem_of_cons; [|apply IH]. }
  destruct (pe_check_ugids e uid gid) eqn:Ec; [|apply Hskip; intros [? _]; congruence].
  destruct (entry_match e name) as (g & Hg & Hm); [done..|]. rewrite Hg. cbn [mbind option_bind].
  destruct (Hm (Hu g Hg)) as (b & -> & Hbg). cbn [mbind option_bind].
  destruct b; [|apply Hskip; intros [_ ?]; naive_solver].
  eexists. split; [done|]. split_and!; [by left|split; [done|by apply Hbg]|].
  intros e' [->|He']%elem_of_cons _; [done|]. rewrite Forall_forall in Hall, Hok'.
  apply pcmp_priority; [by apply Hall|done|by apply Hok'].
Qed.

Lemma find_matching_spec uid gid name p : pats_inv p → Forall uniform (active p) →
  name ≠ [] → (length name ≤ 255)%nat → Forall is_u8 name →
  ∃ r, find_matching p uid gid name = Some r ∧
    match r with
    | Some e => e ∈ active p ∧ applies uid gid name e
        ∧ ∀ e', e' ∈ active p → applies uid gid name e' → pe_priority e' ≤ pe_priority e
    | None => ∀ e, e ∈ active p → ¬ applies uid gid name e
    end.
Proof.
  intros Hi Hu Hne Hl Hb. unfold find_matching. rewrite (pi_count _ Hi), sorted_in_use by apply Hi.
  change (in_use (patterntab p)) with (active p). apply find_walk_spec; try done.
  - apply Forall_forall. intros e He. pose proof (pi_ready _ Hi) as Hr. pose proof (pi_typed _ Hi) as Ht.
    rewrite Forall_forall in Hr, Ht, Hu. apply elem_active in He as He'. destruct He' as [Hin Hv].
    destruct (Hr e Hin). split_and!; [done|done|done|by apply Ht|by apply Hu].
  - unfold active. rewrite <-sorted_in_use by apply Hi. pose proof (pi_sorted _ Hi) as Hs.
    rewrite <-(take_drop (first_invalid (patterntab p))) in Hs. by apply StronglySorted_app in Hs as (_ & ? & _).
Qed.

(** The search of the requests on the tree is this one. *)
Lemma tree_find_matching uid gid name p r : find_matching p uid gid name = Some r →
  patterns_find_matching (tree_patterns p) uid gid name = pe_pattern <$> r.
Proof.
  unfold find_matching, tree_patterns, patterns_find_matching. generalize (take (validpatterns p) (patterntab p)).
  intros tab. induction tab as [|e tab IH]; cbn [find_walk fmap list_fmap List.find]; [by intros [= <-]|].
  assert (Hcheck : pattern_check_ugids (pe_pattern e) uid gid = pe_check_ugids e uid gid) by done.
  rewrite Hcheck. destruct (pe_check_ugids e uid gid); cbn [andb]; [|apply IH].
  destruct (pe_glob e) as [g|] eqn:Hg; [|done]. cbn [mbind option_bind].
  destruct (glob_match g name) as [[]|] eqn:Hm; cbn [mbind option_bind]; [|..|done].
  - intros [= <-]. unfold pe_pattern at 1. cbn [pt_glob]. rewrite Hg. cbn [mbind option_bind]. by rewrite Hm, bool_decide_eq_true_2.
  - unfold pe_pattern at 1. cbn [pt_glob]. rewrite Hg. cbn [mbind option_bind]. rewrite Hm. apply IH.
Qed.

End props.

(** ** A full table can be reached *)

Lemma fill_table qsort `{!SortsPatterns qsort} (n : nat) : (n ≤ PATTERNS_MAX)%nat →
  ∃ p, pats_reach qsort p ∧ length (active p) = n ∧ Forall (λ e, pe_euid e < Z.of_nat n) (active p).
Proof.
  induction n as [|n IH]; intros Hn.
  { exists patterns_init. assert (Hu : active patterns_init = []) by (apply in_use_none, Forall_replicate; done).
    rewrite Hu. split_and!; [constructor|done|constructor]. }
  destruct IH as (p & Hp & Hl & Hall); [lia|].
  assert (Ha : pat_args [97] (Z.of_nat n) 0 0 0 0 0 0 0).
  { unfold PATTERNS_MAX in Hn. constructor; try (unfold is_u8, is_u16, is_u32; lia); [cbn; lia|repeat constructor; done|by eexists]. }
  destruct (univ_add_spec qsort 0 [97] (Z.of_nat n) 0 0 0 0 0 0 0 false p (reach_inv qsort p Hp) Ha)
    as (st & p' & log & Hadd & _ & Hspec).
  change ((length [97] =? 0)%nat || negb (eattr_ok 0 0 0)) with false in Hspec. cbn iota in Hspec.
  rewrite decide_False in Hspec.
  2: { intros (e & [= _ Hk _] & He)%list_elem_of_fmap. rewrite Forall_forall in Hall. apply Hall in He. lia. }
  rewrite decide_False in Hspec by lia. destruct Hspec as (-> & Hact & _).
  exists p'. split_and!; [by eapply pats_add|by rewrite Hact; cbn; rewrite Hl|].
  rewrite Hact. constructor; [cbn; lia|]. eapply Forall_impl; [exact Hall|]. cbn. lia.
Qed.

(** ** Examples: the rule "*.[ch]" for every user *)

Definition ex_table : pats :=
  match patterns_univ_add (merge_sort pcmp) 7 ex_source PATTERN_EUGID_ANY PATTERN_EUGID_ANY 5 2 0 24 0 0 false patterns_init with
  | Some (_, p, _) => p
  | None => patterns_init
  end.

Lemma ex_args : pat_args ex_source PATTERN_EUGID_ANY PATTERN_EUGID_ANY 5 2 0 24 0 0.
Proof. constructor; [vm_compute; lia|repeat constructor; done|by eexists|done..]. Qed.

Lemma ex_table_added : ∃ st log,
  patterns_univ_add (merge_sort pcmp) 7 ex_source PATTERN_EUGID_ANY PATTERN_EUGID_ANY 5 2 0 24 0 0 false patterns_init
  = Some (st, ex_table, log).
Proof.
  destruct (univ_add_spec (merge_sort pcmp) 7 ex_source PATTERN_EUGID_ANY PATTERN_EUGID_ANY 5 2 0 24 0 0 false patterns_init pats_init_inv ex_args)
    as (st & p & log & Heq & _). exists st, log. unfold ex_table. by rewrite Heq.
Qed.

Lemma ex_table_reach : pats_reach (merge_sort pcmp) ex_table.
Proof. destruct ex_table_added as (st & log & Heq). eapply pats_add; [apply pats_start|apply ex_args|exact Heq]. Qed.

Lemma ex_table_active : active ex_table = [new_pattern ex_source PATTERN_EUGID_ANY PATTERN_EUGID_ANY 5 2 0 24 0 0].
Proof. vm_compute. reflexivity. Qed.

(** ** Properties *)



(** C25: adding and removing a rule, on every branch: bad arguments, a rule of the same
    name and users, a full table and an unknown rule change nothing; otherwise the rules
    in use are the old ones with, or without, this one; a follower that replays the
    entry written to the changelog makes the same table. *)
Theorem patterns_changes (qsort : list patentry → list patentry) `{!SortsPatterns qsort} (p : pats)
    (ts : Z) (gname : list Z) (euid egid priority omask scid trashretention seteattr clreattr : Z) :
  pats_reach qsort p → pat_args gname euid egid priority omask scid trashretention seteattr clreattr →
  (∃ st p' log,
    patterns_univ_add qsort ts gname euid egid priority omask scid trashretention seteattr clreattr false p = Some (st, p', log)
    ∧ pats_inv p' ∧ Forall (λ c, patterns_replay qsort c p = Some (st, p')) log
    ∧ if (length gname =? 0)%nat || negb (eattr_ok omask seteattr clreattr) then st = MFS_ERROR_EINVAL ∧ p' = p ∧ log = []
      else if decide ((gname, euid, egid) ∈ pe_key <$> active p) then st = MFS_ERROR_PATTERNEXISTS ∧ p' = p ∧ log = []
      else if decide (length (active p) = PATTERNS_MAX) then st = MFS_ERROR_PATLIMITREACHED ∧ p' = p ∧ log = []
      else st = MFS_STATUS_OK
        ∧ active p' ≡ₚ new_pattern gname euid egid priority omask scid trashretention seteattr clreattr :: active p
        ∧ log = [PATADD ts gname euid egid priority omask scid trashretention seteattr clreattr])
  ∧ ∃ st p' log, patterns_univ_delete qsort ts gname euid egid false p = Some (st, p', log)
    ∧ pats_inv p' ∧ Forall (λ c, patterns_replay qsort c p = Some (st, p')) log
    ∧ if decide ((gname, euid, egid) ∈ pe_key <$> active p) then
        st = MFS_STATUS_OK ∧ active p' ≡ₚ filter (λ e, pe_key e ≠ (gname, euid, egid)) (active p)
        ∧ log = [PATDEL ts gname euid egid]
      else st = MFS_ERROR_NOSUCHPATTERN ∧ p' = p ∧ log = [].
Proof.
  intros Hp Ha. apply reach_inv in Hp; [|done]. split.
  - destruct (univ_add_spec qsort ts gname euid egid priority omask scid trashretention seteattr clreattr false p Hp Ha)
      as (st & p' & log & Hadd & Hi & Hspec). exists st, p', log. split_and!; [done|done| |done].
    revert Hspec. repeat case_match; intros (-> & _ & ->); constructor; [|constructor].
    cbn [patterns_replay]. revert Hadd. unfold patterns_univ_add. repeat case_match; simplify_eq/=; intros Hadd; simplify_eq/=.
    + destruct (patterntab p !! _) as [old|]; [|done]. cbn [mbind option_bind] in *.
      destruct (patterns_have_changed _ _) as [p1|]; [|done]. cbn [mbind option_bind] in *. by simplify_eq/=.
  - destruct (univ_delete_spec qsort ts gname euid egid false p Hp) as (st & p' & log & Hdel & Hi & Hspec).
    exists st, p', log. split_and!; [done|done| |done].
    revert Hspec. case_decide; intros (-> & _ & ->); constructor; [|constructor].
    cbn [patterns_replay]. revert Hdel. unfold patterns_univ_delete. case_match; [|done].
    destruct (patterns_have_changed _ _) as [p1|]; [|done]. cbn [mbind option_bind]. by intros [= <-].
Qed.

Lemma patterns_changes_witness : ∃ st p' log,
  patterns_univ_delete (merge_sort pcmp) 8 ex_source PATTERN_EUGID_ANY PATTERN_EUGID_ANY false ex_table = Some (st, p', log)
  ∧ st = MFS_STATUS_OK.
Proof.
  destruct (patterns_changes (merge_sort pcmp) ex_table 8 ex_source PATTERN_EUGID_ANY PATTERN_EUGID_ANY 5 2 0 24 0 0
    ex_table_reach ex_args) as [_ (st & p' & log & Hdel & _ & _ & Hspec)].
  exists st, p', log. split; [exact Hdel|]. rewrite ex_table_active in Hspec.
  rewrite decide_True in Hspec by (by left). by destruct Hspec as (-> & _).
Defined.

(** The rules survive the metadata image: what [patterns_store] writes for a table
    that is not full is accepted by [patterns_load], whatever was in the table before,
    and gives the same rules. *)
Theorem patterns_image_roundtrip (qsort : list patentry → list patentry) `{!SortsPatterns qsort} (bld bld' : build)
    (p q : pats) (ignoreflag : bool) (rest : list Z) :
  pats_reach qsort p → pats_reach qsort q → (length (active p) < PATTERNS_MAX)%nat →
  ∃ p', patterns_load qsort bld' 0x11 ignoreflag (patterns_store bld p ++ rest) q = Some (0, p', rest)
    ∧ pats_inv p' ∧ active p' ≡ₚ active p.
Proof. intros Hp%reach_inv Hq%reach_inv Hl; [|done..]. apply patterns_load_store; [done..|by left]. Qed.

Lemma patterns_image_roundtrip_witness : ∃ p',
  patterns_load (merge_sort pcmp) Portable 0x11 false (patterns_store FastLE ex_table ++ [1]) patterns_init = Some (0, p', [1])
  ∧ length (active p') = 1%nat.
Proof.
  destruct (patterns_image_roundtrip (merge_sort pcmp) FastLE Portable ex_table patterns_init false [1]) as (p' & Hl & _ & Ha).
  - exact ex_table_reach.
  - apply pats_start.
  - rewrite ex_table_active. unfold PATTERNS_MAX. cbn. lia.
  - exists p'. split; [exact Hl|]. by rewrite Ha, ex_table_active.
Defined.

(** The requests can fill the table, and the section a full table is stored as is
    not accepted by a master that loads it. *)
Theorem patterns_full_table_refused (qsort : list patentry → list patentry) `{!SortsPatterns qsort} :
  ∃ p, pats_reach qsort p ∧ ∀ bld bld' rest, ∃ p' input,
    patterns_load qsort bld' 0x11 false (patterns_store bld p ++ rest) patterns_init = Some (-1, p', input).
Proof.
  destruct (fill_table qsort PATTERNS_MAX (le_n _)) as (p & Hp & Hl & _). exists p. split; [done|]. intros bld bld' rest.
  destruct (patterns_load_full qsort bld bld' p patterns_init rest) as (p' & ?); [by apply (reach_inv qsort)|apply pats_init_inv|done|].
  by do 2 eexists.
Qed.

Lemma patterns_full_table_refused_witness : ∃ p, pats_reach (merge_sort pcmp) p
  ∧ ∀ bld bld' rest, ∃ p' input,
    patterns_load (merge_sort pcmp) bld' 0x11 false (patterns_store bld p ++ rest) patterns_init = Some (-1, p', input).
Proof. apply (patterns_full_table_refused (merge_sort pcmp)). Defined.
