(* ===== verification/LabelParser.v ===== *)
(** * Label expressions (labelparser.c)

    A storage class says on which servers the copies of a file go by expressions on the
    labels of the servers.  [parse_label_expr] compiles the text of a class to byte code
    in reverse Polish notation, one expression for each copy; [make_label_expr] prints
    it; [labelmask_matches_labelexpr] evaluates an expression on the labels of a server,
    a 26-bit mask.

    A C string is the list of its bytes before the terminating zero, reading the byte
    after the last one gives zero, and reading further is [None], as is running out of
    fuel; [LabelFacts] shows that the fuel is enough.  Messages are left out. *)

From S2P Require Import Prelude MfsComm.

(** [NULL] is the null pointer the parser returns after an error. *)
Inductive node :=
  | NULL
  | OR (arg1 arg2 : node)
  | AND (arg1 arg2 : node)
  | NOT (arg1 : node)
  | REF (arg1 : node)
  | ANY
  | SYM (val : Z).

Abbreviation hd0 str := (default 0 (head str)).

Definition is_upper (c : Z) : bool := (65 <=? c) && (c <=? 90).
Definition is_lower (c : Z) : bool := (97 <=? c) && (c <=? 122).
Definition is_letter (c : Z) : bool := is_upper c || is_lower c.

Abbreviation c_amp := 38.     (* '&' *)
Abbreviation c_lpar := 40.    (* '(' *)
Abbreviation c_rpar := 41.    (* ')' *)
Abbreviation c_star := 42.    (* '*' *)
Abbreviation c_plus := 43.    (* '+' *)
Abbreviation c_comma := 44.   (* ',' *)
Abbreviation c_minus := 45.   (* '-' *)
Abbreviation c_slash := 47.   (* '/' *)
Abbreviation c_colon := 58.   (* ':' *)
Abbreviation c_semi := 59.    (* ';' *)
Abbreviation c_equal := 61.   (* '=' *)
Abbreviation c_at := 64.      (* '@' *)
Abbreviation c_lbra := 91.    (* '[' *)
Abbreviation c_rbra := 93.    (* ']' *)
Abbreviation c_bar := 124.    (* '|' *)
Abbreviation c_tilde := 126.  (* '~' *)
Abbreviation c_excl := 33.    (* '!' *)

Fixpoint expr_eat_white (str : list Z) : list Z :=
  match str with
  | c :: str' => if (c =? 32) || (c =? 9) then expr_eat_white str' else str
  | [] => []
  end.

(** ** Expressions: the tree, the rest of the text, [erroroccured] *)

Definition is_not_char (c : Z) : bool := (c =? c_excl) || (c =? c_tilde) || (c =? c_minus).

(** What makes [expr_and] go on without an operator. *)
Definition starts_sym (c : Z) : bool := is_letter c || (c =? c_lpar) || (c =? c_lbra).

Fixpoint expr_sym (fuel : nat) (str : list Z) (err : bool) : option (node * list Z * bool) :=
  match fuel with
  | O => None
  | S fuel =>
      let c := hd0 str in
      if c =? c_lpar then
        '(a, str, err) ← expr_or fuel (expr_eat_white (tail str)) err;
        let str := expr_eat_white str in
        if hd0 str =? c_rpar then Some (a, tail str, err) else Some (NULL, str, true)
      else if c =? c_lbra then
        '(a, str, err) ← expr_or fuel (expr_eat_white (tail str)) err;
        let str := expr_eat_white str in
        if hd0 str =? c_rbra then Some (a, tail str, err) else Some (NULL, str, true)
      else if c =? c_star then Some (ANY, tail str, err)
      else if is_not_char c then
        '(a, str, err) ← expr_sym fuel (expr_eat_white (tail str)) err;
        Some (NOT a, expr_eat_white str, err)
      else if is_upper c then Some (SYM (c - 65), tail str, err)
      else if is_lower c then Some (SYM (c - 97), tail str, err)
      else Some (NULL, str, true)
  end
with expr_and (fuel : nat) (str : list Z) (err : bool) : option (node * list Z * bool) :=
  match fuel with
  | O => None
  | S fuel =>
      '(a, str, err) ← expr_sym fuel (expr_eat_white str) err;
      let str := expr_eat_white str in
      if (hd0 str =? c_amp) && (hd0 (tail str) =? c_amp) then
        '(b, str, err) ← expr_and fuel (drop 2 str) err; Some (AND a b, str, err)
      else if (hd0 str =? c_amp) || (hd0 str =? c_star) then
        '(b, str, err) ← expr_and fuel (tail str) err; Some (AND a b, str, err)
      else if starts_sym (hd0 str) then
        '(b, str, err) ← expr_and fuel str err; Some (AND a b, str, err)
      else Some (a, str, err)
  end
with expr_or (fuel : nat) (str : list Z) (err : bool) : option (node * list Z * bool) :=
  match fuel with
  | O => None
  | S fuel =>
      '(a, str, err) ← expr_and fuel (expr_eat_white str) err;
      let str := expr_eat_white str in
      if (hd0 str =? c_bar) && (hd0 (tail str) =? c_bar) then
        '(b, str, err) ← expr_or fuel (drop 2 str) err; Some (OR a b, str, err)
      else if (hd0 str =? c_bar) || (hd0 str =? c_plus) then
        '(b, str, err) ← expr_or fuel (tail str) err; Some (OR a b, str, err)
      else Some (a, str, err)
  end.

(** Fuel that is enough for a text. *)
Definition expr_fuel (str : list Z) : nat := 3 * length str + 3.

Definition parse_or (str : list Z) (err : bool) : option (node * list Z * bool) := expr_or (expr_fuel str) str err.

(** ** The class *)

Record expr := mk_expr {
  e_str : list Z; e_uniqmask : Z; e_mode : Z; e_terms : list node; e_error : bool; e_ec : Z }.

Definition set_str (str : list Z) (e : expr) : expr :=
  mk_expr str (e_uniqmask e) (e_mode e) (e_terms e) (e_error e) (e_ec e).
Definition set_error (e : expr) : expr :=
  mk_expr (e_str e) (e_uniqmask e) (e_mode e) (e_terms e) true (e_ec e).
Definition set_mask (m : Z) (e : expr) : expr :=
  mk_expr (e_str e) m (e_mode e) (e_terms e) (e_error e) (e_ec e).
Definition set_mode (m : Z) (e : expr) : expr :=
  mk_expr (e_str e) (e_uniqmask e) m (e_terms e) (e_error e) (e_ec e).
Definition set_ec (v : Z) (e : expr) : expr :=
  mk_expr (e_str e) (e_uniqmask e) (e_mode e) (e_terms e) (e_error e) v.
Definition add_terms (l : list node) (e : expr) : expr :=
  mk_expr (e_str e) (e_uniqmask e) (e_mode e) (e_terms e ++ l) (e_error e) (e_ec e).

(** An expression parsed at the current place. *)
Definition at_expr (e : expr) : option (node * expr) :=
  '(a, str, err) ← parse_or (e_str e) (e_error e);
  Some (a, mk_expr str (e_uniqmask e) (e_mode e) (e_terms e) err (e_ec e)).

Definition eat_white (e : expr) : expr := set_str (expr_eat_white (e_str e)) e.

(** The step over the closing bracket: after the end of the text there is nothing to
    step over, and the caller reads the next byte. *)
Definition step_close (mask : Z) (e : expr) : option expr :=
  let e := if hd0 (e_str e) =? c_rbra then e else set_error e in
  match e_str e with
  | [] => None
  | _ :: str => Some (set_mask mask (set_str str e))
  end.

(** Skips the letter when the next character is one of the two. *)
Definition opt_char (up low : Z) (str : list Z) : option (list Z) :=
  if (hd0 str =? up) || (hd0 str =? low) then Some (tail str) else None.

Definition set_bits (lo hi : Z) (mask : Z) : Z :=
  foldl (λ m i, Z.lor m (Z.shiftl 1 (lo + Z.of_nat i))) mask (seq 0 (Z.to_nat (hi - lo + 1))).

(** The loop over letters and ranges; [last] is 0xFF when no range may start. *)
Fixpoint uniq_loop (fuel : nat) (last : Z) (range : bool) (e : expr) : option expr :=
  match fuel with
  | O => None
  | S fuel =>
      let e := eat_white e in
      let c := hd0 (e_str e) in
      let go (current : Z) :=
        let e := set_str (tail (e_str e)) e in
        if range && negb (last =? 0xFF) then
          uniq_loop fuel 0xFF false
            (set_mask (if current <? last then set_bits current last (e_uniqmask e) else set_bits last current (e_uniqmask e)) e)
        else uniq_loop fuel current range (set_mask (Z.lor (e_uniqmask e) (Z.shiftl 1 current)) e) in
      if is_upper c then go (c - 65)
      else if is_lower c then go (c - 97)
      else if (c =? c_minus) && negb range && negb (last =? 0xFF) then
        uniq_loop fuel last true (set_str (tail (e_str e)) e)
      else Some (if range then set_error e else e)
  end.

Definition expr_uniqmask (e : expr) : option expr :=
  if hd0 (e_str e) =? c_lbra then
    let str := tail (e_str e) in
    match opt_char 73 105 str with
    | Some str =>
        let str := default str (opt_char 80 112 str) in
        step_close UNIQ_MASK_IP (set_str str e)
    | None =>
        match opt_char 82 114 str with
        | Some str =>
            let str :=
              match opt_char 65 97 str with
              | Some s1 => match opt_char 67 99 s1 with Some s2 => default s2 (opt_char 75 107 s2) | None => s1 end
              | None => str
              end in
            step_close UNIQ_MASK_RACK (set_str str e)
        | None => Some (set_error (set_str str e))
        end
    end
  else uniq_loop (S (length (e_str e))) 0xFF false e.

(** [memcmp] with the bytes of a constant. *)
Definition starts_with (k str : list Z) : bool := bool_decide (take (length k) str = k).

Definition s_STD : list Z := [83; 84; 68].
Definition s_STRICT : list Z := [83; 84; 82; 73; 67; 84].
Definition s_LOOSE : list Z := [76; 79; 79; 83; 69].
Definition s_td : list Z := [116; 100].
Definition s_trict : list Z := [116; 114; 105; 99; 116].
Definition s_oose : list Z := [111; 111; 115; 101].

Definition expr_mode (e : expr) : expr :=
  let str := e_str e in
  let go (mode : Z) (n : nat) := set_mode mode (set_str (drop n str) e) in
  if (hd0 str =? 83) || (hd0 str =? 115) then
    if starts_with s_STD str || starts_with s_td (tail str) then go LABELS_MODE_STD 3%nat
    else if starts_with s_STRICT str || starts_with s_trict (tail str) then go LABELS_MODE_STRICT 6%nat
    else go LABELS_MODE_STRICT 1%nat
  else if (hd0 str =? 76) || (hd0 str =? 108) then
    if starts_with s_LOOSE str || starts_with s_oose (tail str) then go LABELS_MODE_LOOSE 5%nat
    else go LABELS_MODE_LOOSE 1%nat
  else if (hd0 str =? 68) || (hd0 str =? 100) then go LABELS_MODE_STD 1%nat
  else e.

Definition expr_ending (e : expr) : option expr :=
  match e_str e with
  | [] => Some e
  | _ =>
      e ← (if hd0 (e_str e) =? c_slash then expr_uniqmask (set_str (tail (e_str e)) e) else Some e);
      let e := if hd0 (e_str e) =? c_colon then expr_mode (set_str (tail (e_str e)) e) else e in
      Some (match e_str e with [] => e | _ => set_error e end)
  end.

Definition is_digit19 (c : Z) : bool := (49 <=? c) && (c <=? 57).
Definition is_sep (c : Z) : bool := (c =? c_comma) || (c =? c_semi).

(** The loop of the copies, [i] of them read. *)
Fixpoint copies_loop (fuel : nat) (i : Z) (e : expr) : option expr :=
  match fuel with
  | O => None
  | S fuel =>
      if i <? 9 then
        let e := eat_white e in
        let f := is_digit19 (hd0 (e_str e)) in
        let g := if f then hd0 (e_str e) - 48 else 1 in
        let e := eat_white (if f then set_str (tail (e_str e)) e else e) in
        '(a, e) ← (if (i =? 0) && f && ((hd0 (e_str e) =? 0) || (hd0 (e_str e) =? c_slash)) then Some (ANY, e) else at_expr e);
        let e := eat_white e in
        if e_error e then Some e
        else if 9 <? i + g then Some (set_error e)
        else
          let e := add_terms (a :: replicate (Z.to_nat (g - 1)) (REF a)) e in
          if is_sep (hd0 (e_str e)) then copies_loop fuel (i + g) (set_str (tail (e_str e)) e)
          else match e_str e with [] => Some e | _ => expr_ending e end
      else Some (set_error e)
  end.

Definition ec_terms (e : expr) : option expr :=
  e ← (if is_sep (hd0 (e_str e)) then
         '(a, e) ← at_expr (eat_white (set_str (tail (e_str e)) e));
         let e := eat_white (add_terms [a] e) in
         if is_sep (hd0 (e_str e)) then
           '(a, e) ← at_expr (eat_white (set_str (tail (e_str e)) e));
           Some (eat_white (add_terms [a] e))
         else Some e
       else Some (add_terms [ANY] e));
  expr_ending e.

Definition expr_top (e : expr) : option expr :=
  let e := eat_white e in
  let str := e_str e in
  if (hd0 str =? c_minus) && bool_decide (expr_eat_white (tail str) = []) then Some (set_str [] e)
  else if (hd0 str =? c_at) || (hd0 str =? c_equal) then
    let e := eat_white (set_str (tail str) e) in
    let d := hd0 (e_str e) in
    if is_digit19 d then
      let e := eat_white (set_str (tail (e_str e)) (set_ec (d - 48) e)) in
      if hd0 (e_str e) =? c_plus then
        let e := eat_white (set_str (tail (e_str e)) e) in
        let c := hd0 (e_str e) in
        if is_digit19 c && ((e_ec e =? 4) || (e_ec e =? 8)) then
          let ec := Z.lor (u8 (Z.shiftl (e_ec e) 4)) (Z.land (c - 48) 0xF) in
          ec_terms (eat_white (set_str (tail (e_str e)) (set_ec ec e)))
        else Some (set_error e)
      else ec_terms e
    else Some (set_error e)
  else copies_loop 10 0 (set_ec 0 e).

(** ** Byte code *)

Definition SCLASS_EXPR_SIZE : nat := Z.to_nat SCLASS_EXPR_MAX_SIZE.

(** The bytes written so far; a full buffer takes no more. *)
Definition expr_rpn_safe_add (d : Z) (o : list Z) : list Z :=
  if (length o <? SCLASS_EXPR_SIZE)%nat then o ++ [d] else o.

Definition expr_rpn_top (o : list Z) : Z := default 0 (last o).

Definition expr_rpn_exchg_top (d : Z) (o : list Z) : list Z :=
  match o with [] => [] | _ => removelast o ++ [d] end.

(** The operation of a node with two arguments, their code written: an operation of the
    same kind on top takes one argument more. *)
Definition add_op (op : Z) (o : list Z) : list Z :=
  let t := expr_rpn_top o in
  if (Z.land t SCLASS_EXPR_TYPE_MASK =? op) && (Z.land t SCLASS_EXPR_VALUE_MASK <? SCLASS_EXPR_VALUE_MASK)
  then expr_rpn_exchg_top (u8 (t + 1)) o else expr_rpn_safe_add op o.

(** [None]: a null pointer. *)
Fixpoint expr_convert_to_rpn (n : node) (o : list Z) : option (list Z) :=
  match n with
  | NULL => None
  | REF a => expr_convert_to_rpn a o
  | SYM v => Some (expr_rpn_safe_add (Z.lor SCLASS_EXPR_SYMBOL v) o)
  | OR a b => o ← expr_convert_to_rpn a o; o ← expr_convert_to_rpn b o; Some (add_op SCLASS_EXPR_OP_OR o)
  | AND a b => o ← expr_convert_to_rpn a o; o ← expr_convert_to_rpn b o; Some (add_op SCLASS_EXPR_OP_AND o)
  | NOT a => o ← expr_convert_to_rpn a o; Some (expr_rpn_safe_add SCLASS_EXPR_OP_NOT o)
  | ANY => Some (expr_rpn_safe_add SCLASS_EXPR_SYMBOL_ANY o)
  end.

(** [labelexpr] holds an array of [SCLASS_EXPR_MAX_SIZE] bytes for each of the
    [labelscnt] copies. *)
Record parser_data := mk_pd {
  pd_uniqmask : Z; pd_labels_mode : Z; pd_ec_data_chksum_parts : Z; pd_labelexpr : list (list Z) }.

Definition pd_zero : parser_data := mk_pd 0 0 0 [].

(** [Some None]: an expression is too long. *)
Fixpoint convert_terms (terms : list node) : option (option (list (list Z))) :=
  match terms with
  | [] => Some (Some [])
  | n :: terms =>
      rpn ← expr_convert_to_rpn n [];
      if (length rpn =? SCLASS_EXPR_SIZE)%nat then Some None
      else
        rest ← convert_terms terms;
        Some (match rest with
              | Some l => Some ((rpn ++ replicate (SCLASS_EXPR_SIZE - length rpn) 0) :: l)
              | None => None
              end)
  end.

(** Status 0 or -1; a text of no byte is read beyond its end. *)
Definition parse_label_expr (exprstr : list Z) : option (Z * parser_data) :=
  match exprstr with
  | [] => None
  | c :: rest =>
      if bool_decide (rest = []) && ((c =? c_minus) || (c =? c_tilde)) then Some (0, pd_zero)
      else
        e ← expr_top (mk_expr exprstr 0 LABELS_MODE_GLOBAL [] false 0);
        if e_error e then Some (-1, pd_zero)
        else
          exprs ← convert_terms (e_terms e);
          Some (match exprs with
                | Some l => (0, mk_pd (e_uniqmask e) (e_mode e) (e_ec e) l)
                | None => (-1, pd_zero)
                end)
  end.

(** ** Evaluation

    [labelexpr] is what can be read from the pointer on; the stack has its top first. *)

Fixpoint rpn_loop (labelmask : Z) (labelexpr : list Z) (stack : list Z) : option Z :=
  match labelexpr with
  | [] => None
  | n :: labelexpr =>
      if n =? 0 then Some (match stack with [v] => v | _ => 0 end)
      else
        let t := Z.land n SCLASS_EXPR_TYPE_MASK in
        let v := Z.land n SCLASS_EXPR_VALUE_MASK in
        if t =? SCLASS_EXPR_SYMBOL then
          if n =? SCLASS_EXPR_SYMBOL_ANY then rpn_loop labelmask labelexpr (1 :: stack)
          else rpn_loop labelmask labelexpr ((if Z.testbit labelmask v then 1 else 0) :: stack)
        else if t =? SCLASS_EXPR_OP_AND then
          let k := Z.to_nat (v + 2) in
          if (length stack <? k)%nat then Some 0
          else rpn_loop labelmask labelexpr ((if existsb (λ x, x =? 0) (take k stack) then 0 else 1) :: drop k stack)
        else if t =? SCLASS_EXPR_OP_OR then
          let k := Z.to_nat (v + 2) in
          if (length stack <? k)%nat then Some 0
          else rpn_loop labelmask labelexpr ((if existsb (λ x, x =? 1) (take k stack) then 1 else 0) :: drop k stack)
        else if v =? SCLASS_EXPR_OP_NOT then
          match stack with
          | [] => Some 0
          | x :: stack => rpn_loop labelmask labelexpr (1 - x :: stack)
          end
        else rpn_loop labelmask labelexpr stack
  end.

Definition labelmask_matches_labelexpr (labelmask : Z) (labelexpr : list Z) : option Z :=
  match labelexpr with
  | [] => None
  | n :: _ => if n =? 0 then Some 1 else rpn_loop labelmask labelexpr []
  end.

(** ** Printing

    A string on the stack has its length in eight bits; it is written to memory of as
    many bytes as the eight bits say, and writing beyond them is [None]. *)

Record expr_string := mk_expr_string { es_level : Z; es_len : Z; es_str : list Z }.

(** The memory allocated for an operation and the bytes written to it. *)
Definition es_write (level : Z) (l : Z) (str : list Z) : option expr_string :=
  if (Z.to_nat l <? length str)%nat then None else Some (mk_expr_string level (u8 (Z.of_nat (length str))) str).

Definition es_bytes (e : expr_string) : list Z := take (Z.to_nat (es_len e)) (es_str e).

Definition paren (maxlevel : Z) (e : expr_string) : list Z :=
  if maxlevel <? es_level e then c_lpar :: es_bytes e ++ [c_rpar] else es_bytes e.

Definition paren_leng (maxlevel : Z) (e : expr_string) : Z := (if maxlevel <? es_level e then 2 else 0) + es_len e.

Fixpoint join (sep : Z) (l : list (list Z)) : list Z :=
  match l with
  | [] => []
  | [s] => s
  | s :: l => s ++ sep :: join sep l
  end.

(** An operation on the [args], the first pushed first. *)
Definition es_op (level sep : Z) (args : list expr_string) : option expr_string :=
  es_write level (u8 (foldl (λ l e, u8 (l + paren_leng level e)) 0 args + (Z.of_nat (length args) - 1)))
    (join sep (paren level <$> args)).

Definition s_ERROR : list Z := [69; 82; 82; 79; 82].

(** The result and what is written to [outstr], which has 256 bytes; an operation with
    too few arguments writes nothing. *)
Fixpoint infix_loop (labelexpr : list Z) (stack : list expr_string) : option (list Z) :=
  match labelexpr with
  | [] => None
  | n :: labelexpr =>
      if n =? 0 then Some (match stack with [e] => es_bytes e | _ => s_ERROR end)
      else
        let t := Z.land n SCLASS_EXPR_TYPE_MASK in
        let v := Z.land n SCLASS_EXPR_VALUE_MASK in
        if t =? SCLASS_EXPR_SYMBOL then
          infix_loop labelexpr (mk_expr_string 0 1 [if n =? SCLASS_EXPR_SYMBOL_ANY then c_star else 65 + v] :: stack)
        else if t =? SCLASS_EXPR_OP_AND then
          let k := Z.to_nat (v + 2) in
          if (length stack <? k)%nat then Some []
          else e ← es_op 1 c_amp (reverse (take k stack)); infix_loop labelexpr (e :: drop k stack)
        else if t =? SCLASS_EXPR_OP_OR then
          let k := Z.to_nat (v + 2) in
          if (length stack <? k)%nat then Some []
          else e ← es_op 2 c_bar (reverse (take k stack)); infix_loop labelexpr (e :: drop k stack)
        else if v =? SCLASS_EXPR_OP_NOT then
          match stack with
          | [] => Some []
          | e :: stack =>
              e ← es_write 0 (u8 (paren_leng 0 e + 1)) (c_tilde :: paren 0 e);
              infix_loop labelexpr (e :: stack)
          end
        else infix_loop labelexpr stack
  end.

Definition rpn_to_infix (labelexpr : list Z) : option (list Z) :=
  match labelexpr with
  | [] => None
  | n :: _ => if n =? 0 then Some [c_star] else infix_loop labelexpr []
  end.

(** The bytes up to the first zero are the same; [None] past the end of the arrays. *)
Fixpoint labelexpr_diff (labelexpr1 labelexpr2 : list Z) : option bool :=
  match labelexpr1, labelexpr2 with
  | n1 :: l1, n2 :: l2 =>
      if (n1 =? 0) || (n2 =? 0) then Some ((n1 =? 0) && (n2 =? 0))
      else if negb (n1 =? n2) then Some false else labelexpr_diff l1 l2
  | _, _ => None
  end.

(** The expressions equal to the first that follow it at once, and the rest. *)
Fixpoint count_same (e : list Z) (l : list (list Z)) : option (nat * list (list Z)) :=
  match l with
  | [] => Some (O, [])
  | e' :: l' => d ← labelexpr_diff e e'; if (d : bool) then '(c, r) ← count_same e l'; Some (S c, r) else Some (O, l)
  end.

(** The loop over the expressions, [first] when nothing has been printed before. *)
Fixpoint print_terms (fuel : nat) (first : bool) (l : list (list Z)) : option (list Z) :=
  match fuel, l with
  | _, [] => Some []
  | O, _ => None
  | S fuel, e :: l =>
      '(c, rest) ← count_same e l;
      j ← rpn_to_infix e;
      s ← print_terms fuel false rest;
      Some ((if first then [] else [c_comma]) ++ (if (0 <? c)%nat then [48 + Z.of_nat (S c)] else []) ++ j ++ s)
  end.

(** The letters of the mask from [i] on; three neighbours and more are a range. *)
Fixpoint run_end (fuel : nat) (mask i : Z) : Z :=
  match fuel with
  | O => i
  | S fuel => if Z.testbit mask i && (i <? 26) then run_end fuel mask (i + 1) else i
  end.

Fixpoint print_mask (fuel : nat) (mask i : Z) : list Z :=
  match fuel with
  | O => []
  | S fuel =>
      if i <? 26 then
        if Z.testbit mask i then
          if (i <? 24) && (Z.land (Z.shiftr mask i) 7 =? 7) then
            let j := run_end 27 mask i - 1 in
            65 + i :: c_minus :: 65 + j :: print_mask fuel mask (j + 1)
          else 65 + i :: print_mask fuel mask (i + 1)
        else print_mask fuel mask (i + 1)
      else []
  end.

Definition s_IP : list Z := [91; 73; 80; 93].
Definition s_RACK : list Z := [91; 82; 65; 67; 75; 93].

Definition print_uniq (mask : Z) : list Z :=
  if mask =? 0 then []
  else c_slash ::
    (if negb (Z.land mask UNIQ_MASK_IP =? 0) then s_IP
     else if negb (Z.land mask UNIQ_MASK_RACK =? 0) then s_RACK
     else print_mask 26 mask 0).

Definition print_mode (mode : Z) : list Z :=
  if mode =? LABELS_MODE_STRICT then c_colon :: s_STRICT
  else if mode =? LABELS_MODE_LOOSE then c_colon :: s_LOOSE
  else if mode =? LABELS_MODE_STD then c_colon :: s_STD
  else [].

Definition print_ec (ec : Z) : list Z :=
  let i := Z.shiftr ec 4 in
  let j := Z.land ec 0xF in
  c_at :: (if (i =? 8) || (i =? 4) then [48 + i; c_plus] else []) ++ [48 + j].

Definition make_label_expr (pd : parser_data) : option (list Z) :=
  let ec := pd_ec_data_chksum_parts pd in
  if (ec =? 0) && bool_decide (pd_labelexpr pd = []) then Some [c_minus]
  else
    terms ← print_terms (length (pd_labelexpr pd)) (ec =? 0) (pd_labelexpr pd);
    Some ((if ec =? 0 then [] else print_ec ec) ++ terms ++ print_uniq (pd_uniqmask pd) ++ print_mode (pd_labels_mode pd)).
