(* ===== verification/LabelGrammar.v ===== *)
(** * The grammar of label expressions, and the parser

    The grammar is the one of the header file, [gL], [gM] and [gS] its productions of
    L, M and S, with the star as an expression of its own.  A text without white space
    is accepted by [expr_or] exactly when it is in the grammar, and the tree has the
    meaning of the derivation. *)

From S2P Require Import Prelude MfsComm LabelParser.

(** ** Meaning of a tree: does a server with these labels match *)

Fixpoint eval (labelmask : Z) (n : node) : bool :=
  match n with
  | NULL => false
  | OR a b => eval labelmask a || eval labelmask b
  | AND a b => eval labelmask a && eval labelmask b
  | NOT a => negb (eval labelmask a)
  | REF a => eval labelmask a
  | ANY => true
  | SYM v => Z.testbit labelmask v
  end.

(** The number of labels and operations. *)
Fixpoint size (n : node) : nat :=
  match n with
  | NULL => 0
  | OR a b | AND a b => S (size a + size b)
  | NOT a => S (size a)
  | REF a => size a
  | ANY | SYM _ => 1
  end.

(** The same, but for the grouping of the operations. *)
Definition same_meaning (n n' : node) : Prop := (∀ labelmask, eval labelmask n = eval labelmask n') ∧ size n = size n'.

#[export] Instance same_meaning_equiv : Equivalence same_meaning.
Proof.
  split; [done|intros ?? [H ?]; by split|]. intros ??? [H1 E1] [H2 E2]. split; [intros m; by rewrite H1|congruence].
Qed.

#[export] Instance AND_proper : Proper (same_meaning ==> same_meaning ==> same_meaning) AND.
Proof. intros ?? [H1 E1] ?? [H2 E2]. split; [intros m; cbn; by rewrite H1, H2|cbn; lia]. Qed.

#[export] Instance OR_proper : Proper (same_meaning ==> same_meaning ==> same_meaning) OR.
Proof. intros ?? [H1 E1] ?? [H2 E2]. split; [intros m; cbn; by rewrite H1, H2|cbn; lia]. Qed.

#[export] Instance NOT_proper : Proper (same_meaning ==> same_meaning) NOT.
Proof. intros ?? [H1 E1]. split; [intros m; cbn; by rewrite H1|cbn; lia]. Qed.

Lemma and_assoc a b c : same_meaning (AND (AND a b) c) (AND a (AND b c)).
Proof. split; [intros m; cbn; by rewrite andb_assoc|cbn; lia]. Qed.

Lemma or_assoc a b c : same_meaning (OR (OR a b) c) (OR a (OR b c)).
Proof. split; [intros m; cbn; by rewrite orb_assoc|cbn; lia]. Qed.

(** ** The grammar *)

Inductive and_op : list Z → Prop :=
  | and_star : and_op [c_star] | and_one : and_op [c_amp] | and_two : and_op [c_amp; c_amp].

Inductive or_op : list Z → Prop :=
  | or_plus : or_op [c_plus] | or_one : or_op [c_bar] | or_two : or_op [c_bar; c_bar].

Inductive gL : list Z → node → Prop :=
  | gL_upper c : is_upper c = true → gL [c] (SYM (c - 65))
  | gL_lower c : is_lower c = true → gL [c] (SYM (c - 97))
  | gL_any : gL [c_star] ANY
  | gL_not c s n : is_not_char c = true → gL s n → gL (c :: s) (NOT n)
  | gL_round s n : gS s n → gL (c_lpar :: s ++ [c_rpar]) n
  | gL_square s n : gS s n → gL (c_lbra :: s ++ [c_rbra]) n
with gM : list Z → node → Prop :=
  | gM_one s n : gL s n → gM s n
  | gM_op s1 n1 op s2 n2 : gM s1 n1 → and_op op → gL s2 n2 → gM (s1 ++ op ++ s2) (AND n1 n2)
  | gM_next s1 n1 s2 n2 : gM s1 n1 → gL s2 n2 → starts_sym (hd0 s2) = true → gM (s1 ++ s2) (AND n1 n2)
with gS : list Z → node → Prop :=
  | gS_one s n : gM s n → gS s n
  | gS_op s1 n1 op s2 n2 : gS s1 n1 → or_op op → gM s2 n2 → gS (s1 ++ op ++ s2) (OR n1 n2).

(** The same with the operations grouped to the right, as the parser groups them. *)
Inductive rM : list Z → node → Prop :=
  | rM_one s n : gL s n → rM s n
  | rM_op s1 n1 op s2 n2 : gL s1 n1 → and_op op → rM s2 n2 → rM (s1 ++ op ++ s2) (AND n1 n2)
  | rM_next s1 n1 s2 n2 : gL s1 n1 → rM s2 n2 → starts_sym (hd0 s2) = true → rM (s1 ++ s2) (AND n1 n2).

Inductive rS : list Z → node → Prop :=
  | rS_one s n : gM s n → rS s n
  | rS_op s1 n1 op s2 n2 : gM s1 n1 → or_op op → rS s2 n2 → rS (s1 ++ op ++ s2) (OR n1 n2).

Lemma gL_nonempty s n : gL s n → s ≠ [].
Proof. by inversion 1. Qed.

Lemma rM_nonempty s n : rM s n → s ≠ [].
Proof. destruct 1 as [? ? ?%gL_nonempty|? ? ? ? ? ?%gL_nonempty _ _|? ? ? ? ?%gL_nonempty _ _]; by destruct s || destruct s1. Qed.

Lemma hd0_app (s r : list Z) : s ≠ [] → hd0 (s ++ r) = hd0 s.
Proof. by destruct s. Qed.

(** One more factor at the end. *)
Lemma rM_snoc_op s1 n1 op s2 n2 : rM s1 n1 → and_op op → gL s2 n2 →
  ∃ n, rM (s1 ++ op ++ s2) n ∧ same_meaning n (AND n1 n2).
Proof.
  intros H1 Hop H2. induction H1 as [s n Hl|s1 n1 op1 s n Hl Hop1 Hr (m & Hm & Hs)|s1 n1 s n Hl Hr (m & Hm & Hs) Hst].
  - eexists. split; [by apply rM_op; [| |apply rM_one]|done].
  - exists (AND n1 m). rewrite <-!(assoc_L (++)). split; [by apply rM_op|]. by rewrite Hs, and_assoc.
  - exists (AND n1 m). rewrite <-(assoc_L (++)). split; [|by rewrite Hs, and_assoc].
    apply rM_next; [done|done|]. rewrite hd0_app; [done|by eapply rM_nonempty].
Qed.

Lemma rM_snoc_next s1 n1 s2 n2 : rM s1 n1 → gL s2 n2 → starts_sym (hd0 s2) = true →
  ∃ n, rM (s1 ++ s2) n ∧ same_meaning n (AND n1 n2).
Proof.
  intros H1 H2 H3. induction H1 as [s n Hl|s1 n1 op1 s n Hl Hop1 Hr (m & Hm & Hs)|s1 n1 s n Hl Hr (m & Hm & Hs) Hst].
  - eexists. split; [by apply rM_next; [|apply rM_one|]|done].
  - exists (AND n1 m). rewrite <-!(assoc_L (++)). split; [by apply rM_op|]. by rewrite Hs, and_assoc.
  - exists (AND n1 m). rewrite <-(assoc_L (++)). split; [|by rewrite Hs, and_assoc].
    apply rM_next; [done|done|]. rewrite hd0_app; [done|by eapply rM_nonempty].
Qed.

Lemma gM_rM s n : gM s n → ∃ n', rM s n' ∧ same_meaning n' n.
Proof.
  induction 1 as [s n Hl|s1 n1 op s2 n2 _ (m & Hm & Hs) Hop Hl|s1 n1 s2 n2 _ (m & Hm & Hs) Hl Hst].
  - exists n. split; [by apply rM_one|done].
  - destruct (rM_snoc_op s1 m op s2 n2) as (k & ? & Hk); [done..|]. exists k. split; [done|]. by rewrite Hk, Hs.
  - destruct (rM_snoc_next s1 m s2 n2) as (k & ? & Hk); [done..|]. exists k. split; [done|]. by rewrite Hk, Hs.
Qed.

(** A product of products, a sum of sums. *)
Lemma gM_app_op s1 n1 op s2 n2 : gM s1 n1 → and_op op → gM s2 n2 →
  ∃ n, gM (s1 ++ op ++ s2) n ∧ same_meaning n (AND n1 n2).
Proof.
  intros H1 Hop. induction 1 as [s n Hl|s2 n2 op2 s n H2 (m & Hm & Hs) Hop2 Hl|s2 n2 s n H2 (m & Hm & Hs) Hl Hst].
  - eexists. split; [by apply gM_op|done].
  - exists (AND m n). rewrite !(assoc_L (++)), <-(assoc_L (++) s1). rewrite <-(assoc_L (++) _ op2).
    split; [by apply gM_op|]. by rewrite Hs, and_assoc.
  - exists (AND m n). rewrite !(assoc_L (++)), <-(assoc_L (++) s1). split; [by apply gM_next|]. by rewrite Hs, and_assoc.
Qed.

Lemma gM_app_next s1 n1 s2 n2 : gM s1 n1 → gM s2 n2 → starts_sym (hd0 s2) = true →
  ∃ n, gM (s1 ++ s2) n ∧ same_meaning n (AND n1 n2).
Proof.
  intros H1. induction 1 as [s n Hl|s2 n2 op2 s n H2 IH Hop2 Hl|s2 n2 s n H2 IH Hl Hst]; intros H3.
  - eexists. split; [by apply gM_next|done].
  - destruct IH as (m & Hm & Hs). { rewrite hd0_app in H3; [done|]. destruct (gM_rM _ _ H2) as (? & ?%rM_nonempty & _). done. }
    exists (AND m n). rewrite !(assoc_L (++)), <-(assoc_L (++) (s1 ++ s2)). split; [by apply gM_op|]. by rewrite Hs, and_assoc.
  - destruct IH as (m & Hm & Hs). { rewrite hd0_app in H3; [done|]. destruct (gM_rM _ _ H2) as (? & ?%rM_nonempty & _). done. }
    exists (AND m n). rewrite !(assoc_L (++)). split; [by apply gM_next|]. by rewrite Hs, and_assoc.
Qed.

Lemma rS_snoc s1 n1 op s2 n2 : rS s1 n1 → or_op op → gM s2 n2 →
  ∃ n, rS (s1 ++ op ++ s2) n ∧ same_meaning n (OR n1 n2).
Proof.
  intros H1 Hop H2. induction H1 as [s n Hl|s1 n1 op1 s n Hl Hop1 Hr (m & Hm & Hs)].
  - eexists. split; [by apply rS_op; [| |apply rS_one]|done].
  - exists (OR n1 m). rewrite <-!(assoc_L (++)). split; [by apply rS_op|]. by rewrite Hs, or_assoc.
Qed.

Lemma gS_rS s n : gS s n → ∃ n', rS s n' ∧ same_meaning n' n.
Proof.
  induction 1 as [s n Hl|s1 n1 op s2 n2 _ (m & Hm & Hs) Hop Hl].
  - exists n. split; [by apply rS_one|done].
  - destruct (rS_snoc s1 m op s2 n2) as (k & ? & Hk); [done..|]. exists k. split; [done|]. by rewrite Hk, Hs.
Qed.

Lemma gS_app s1 n1 op s2 n2 : gS s1 n1 → or_op op → gS s2 n2 →
  ∃ n, gS (s1 ++ op ++ s2) n ∧ same_meaning n (OR n1 n2).
Proof.
  intros H1 Hop. induction 1 as [s n Hl|s2 n2 op2 s n H2 (m & Hm & Hs) Hop2 Hl].
  - eexists. split; [by apply gS_op|done].
  - exists (OR m n). rewrite !(assoc_L (++)), <-(assoc_L (++) s1). rewrite <-(assoc_L (++) _ op2).
    split; [by apply gS_op|]. by rewrite Hs, or_assoc.
Qed.
