(* ===== verification/LabelFacts.v ===== *)
(** * The parser of label expressions: it ends, it accepts the grammar and nothing else *)

From S2P Require Import Prelude MfsComm LabelParser LabelGrammar.

(** No null pointer in the tree; the labels are letters. *)
Fixpoint full (n : node) : Prop :=
  match n with
  | NULL => False
  | OR a b | AND a b => full a ∧ full b
  | NOT a | REF a => full a
  | ANY => True
  | SYM v => 0 ≤ v < 26
  end.

Lemma eat_white_length str : (length (expr_eat_white str) ≤ length str)%nat.
Proof. induction str as [|c str IH]; cbn; [done|]. case_if; cbn; lia. Qed.

Lemma eat_white_idem str : expr_eat_white (expr_eat_white str) = expr_eat_white str.
Proof.
  induction str as [|c str IH]; [done|]. cbn [expr_eat_white]. destruct (_ || _) eqn:E; [done|]. cbn. by rewrite E.
Qed.

Lemma hd0_length str : hd0 str ≠ 0 → (0 < length str)%nat.
Proof. destruct str; [done|cbn; lia]. Qed.

Lemma tail_length (str : list Z) : hd0 str ≠ 0 → S (length (tail str)) = length str.
Proof. by destruct str. Qed.

Lemma hd0_cons c (s : list Z) : hd0 (c :: s) = c.
Proof. done. Qed.

Lemma letter_nonzero c : is_letter c = true → c ≠ 0.
Proof. by intros ? ->. Qed.

(** Fuel: more of it changes nothing. *)
Lemma bind_mono {A B} (m m' : option A) (k k' : A → option B) r :
  (∀ x, m = Some x → m' = Some x) → (∀ x, k x = Some r → k' x = Some r) → m ≫= k = Some r → m' ≫= k' = Some r.
Proof. intros Hm Hk. destruct m as [x|]; [|done]. rewrite (Hm x eq_refl). apply Hk. Qed.

Lemma expr_mono_one fuel : ∀ str err r,
  (expr_sym fuel str err = Some r → expr_sym (S fuel) str err = Some r)
  ∧ (expr_and fuel str err = Some r → expr_and (S fuel) str err = Some r)
  ∧ (expr_or fuel str err = Some r → expr_or (S fuel) str err = Some r).
Proof.
  induction fuel as [|fuel IH]; [done|].
  assert (Hsym : ∀ str err r, expr_sym fuel str err = Some r → expr_sym (S fuel) str err = Some r) by apply IH.
  assert (Hand : ∀ str err r, expr_and fuel str err = Some r → expr_and (S fuel) str err = Some r) by apply IH.
  assert (Hor : ∀ str err r, expr_or fuel str err = Some r → expr_or (S fuel) str err = Some r) by apply IH. clear IH.
  intros str err r. remember (S fuel) as fuel1 eqn:Hf.
  split_and!; rewrite Hf at 1; cbn [expr_sym expr_and expr_or];
    repeat first [done | case_if | apply bind_mono; [auto|intros [[? ?] ?]]].
Qed.

Lemma expr_mono fuel fuel' : (fuel ≤ fuel')%nat → ∀ str err r,
  (expr_sym fuel str err = Some r → expr_sym fuel' str err = Some r)
  ∧ (expr_and fuel str err = Some r → expr_and fuel' str err = Some r)
  ∧ (expr_or fuel str err = Some r → expr_or fuel' str err = Some r).
Proof.
  induction 1 as [|fuel' _ IH]; [done|]. intros str err r. destruct (IH str err r) as (I1 & I2 & I3).
  split_and!; intros H; apply expr_mono_one; auto.
Qed.

(** ** The parser ends, and a tree without an error has no null pointer *)

Definition result_ok (str : list Z) (err : bool) (r : node * list Z * bool) : Prop :=
  let '(n, str', err') := r in
  (length str' ≤ length str)%nat
  ∧ (err' = false → err = false ∧ full n).

(** A symbol that takes nothing is an error, at a character that starts no symbol. *)
Definition sym_ok (str : list Z) (err : bool) (r : node * list Z * bool) : Prop :=
  result_ok str err r ∧ ((length r.1.2 < length str)%nat ∨ r.1.2 = str ∧ starts_sym (hd0 str) = false).

Lemma result_ok_le str0 str err r : (length str0 ≤ length str)%nat → result_ok str0 err r → result_ok str err r.
Proof. destruct r as [[n s] e]. intros ? [? ?]. split; [lia|done]. Qed.

Lemma not_not_sym c : is_letter c = false → (c =? c_lpar) = false → (c =? c_lbra) = false → starts_sym c = false.
Proof. unfold starts_sym. by intros -> -> ->. Qed.

Lemma starts_sym_white str : starts_sym (hd0 (expr_eat_white str)) = false → starts_sym (hd0 str) = false.
Proof.
  destruct str as [|c str]; [done|]. cbn [expr_eat_white]. case_if; [|done]. intros _. cbn. by destruct E as [->%Z.eqb_eq| ->%Z.eqb_eq].
Qed.

(** With [fuel] for [k] more than three times the length the parser answers. *)
Definition ends {R : Type} (ok : list Z → bool → R → Prop) (k : nat) (fuel : nat) (parse : list Z → bool → option R) : Prop :=
  ∀ str err, (3 * length str + k ≤ fuel)%nat → ∃ r, parse str err = Some r ∧ ok str err r.

Lemma sym_ends fuel : ends sym_ok 1 fuel (expr_sym fuel) → ends result_ok 3 fuel (expr_or fuel) →
  ends sym_ok 1 (S fuel) (expr_sym (S fuel)).
Proof.
  intros Hsym Hor str err Hf.
  cbn [expr_sym]. pose proof (eat_white_length (tail str)) as Hew.
  assert (Hbr : ∀ close, hd0 str ≠ 0 → ∃ r, ('(a, str, err) ← expr_or fuel (expr_eat_white (tail str)) err;
      let str := expr_eat_white str in
      if hd0 str =? close then Some (a, tail str, err) else Some (NULL, str, true)) = Some r ∧ sym_ok str err r).
  { intros close Hc. pose proof (tail_length str Hc) as Htl.
    destruct (Hor (expr_eat_white (tail str)) err) as ([[n s] e] & -> & Hlen & Hfull); [lia|]. cbn [mbind option_bind].
    pose proof (eat_white_length s) as Hew2. pose proof (eat_white_length (tail str)).
    case_if; eexists; (split; [done|]); (split; [split|left]); cbn in *; try done; try lia.
    - destruct (expr_eat_white s); cbn in *; lia.
    - destruct (expr_eat_white s); cbn in *; lia. }
  assert (Hone : ∀ n, hd0 str ≠ 0 → full n → ∃ r, Some (n, tail str, err) = Some r ∧ sym_ok str err r).
  { intros n Hc Hfn. pose proof (tail_length str Hc). eexists. split; [done|]. split; [split|left]; cbn; (done || lia). }
  case_if; [apply Hbr; by rewrite E|]. case_if; [apply Hbr; by rewrite E0|]. case_if; [apply Hone; [by rewrite E1|done]|].
  case_if.
  { assert (Hc : hd0 str ≠ 0) by (intros Hc; by rewrite Hc in E2). pose proof (tail_length str Hc) as Htl.
    destruct (Hsym (expr_eat_white (tail str)) err) as ([[n s] e] & -> & [Hlen Hfull] & _); [lia|]. cbn [mbind option_bind].
    pose proof (eat_white_length s). eexists. split; [done|]. split; [split|left]; cbn in *; (done || lia). }
  case_if; [apply Hone; [by apply letter_nonzero; unfold is_letter; rewrite E3|unfold is_upper in E3; zbool; cbn; lia]|].
  case_if; [apply Hone; [by apply letter_nonzero; unfold is_letter; rewrite E4, orb_true_r|unfold is_lower in E4; zbool; cbn; lia]|].
  eexists. split; [done|]. split; [by split|]. right. split; [done|]. cbn.
  unfold starts_sym, is_letter. by rewrite E3, E4, (proj2 (Z.eqb_neq _ _) E), (proj2 (Z.eqb_neq _ _) E0).
Qed.

Lemma and_ends fuel : ends sym_ok 1 fuel (expr_sym fuel) → ends result_ok 2 fuel (expr_and fuel) →
  ends result_ok 2 (S fuel) (expr_and (S fuel)).
Proof.
  intros Hsym Hand str err Hf.
  cbn [expr_and]. pose proof (eat_white_length str) as Hew.
  destruct (Hsym (expr_eat_white str) err) as ([[n s] e] & -> & [Hlen Hfull] & Hcons); [lia|]. cbn [mbind option_bind].
  cbn in Hcons. pose proof (eat_white_length s) as Hew2.
  assert (Hgo : ∀ s1, (S (length s1) ≤ length str)%nat → ∃ r,
    ('(b, str, err) ← expr_and fuel s1 e; Some (AND n b, str, err)) = Some r ∧ result_ok str err r).
  { intros s1 Hs1. destruct (Hand s1 e) as ([[n2 s2] e2] & -> & Hlen2 & Hfull2); [lia|]. cbn [mbind option_bind].
    eexists. split; [done|]. split; [cbn in *; lia|]. intros He2. destruct (Hfull2 He2) as [He ?].
    destruct (Hfull He). done. }
  case_if; [|case_if; [|case_if]].
  + apply Hgo. assert (hd0 (expr_eat_white s) ≠ 0) as Hh by (rewrite H; done). pose proof (tail_length _ Hh).
    rewrite length_drop. assert (hd0 (tail (expr_eat_white s)) ≠ 0) as Hh2 by (rewrite H0; done). pose proof (hd0_length _ Hh2). lia.
  + apply Hgo. assert (hd0 (expr_eat_white s) ≠ 0) as Hh by (by destruct E0 as [->%Z.eqb_eq| ->%Z.eqb_eq]).
    pose proof (tail_length _ Hh). lia.
  + apply Hgo. destruct Hcons as [?|[-> Hst]]; [lia|]. rewrite eat_white_idem in E0. congruence.
  + eexists. split; [done|]. split; [cbn in *; lia|]. done.
Qed.

Lemma or_ends fuel : ends result_ok 2 fuel (expr_and fuel) → ends result_ok 3 fuel (expr_or fuel) →
  ends result_ok 3 (S fuel) (expr_or (S fuel)).
Proof.
  intros Hand Hor str err Hf.
  cbn [expr_or]. pose proof (eat_white_length str) as Hew.
  destruct (Hand (expr_eat_white str) err) as ([[n s] e] & -> & Hlen & Hfull); [lia|]. cbn [mbind option_bind].
  pose proof (eat_white_length s) as Hew2.
  assert (Hgo : ∀ s1, (S (length s1) ≤ length str)%nat → ∃ r,
    ('(b, str, err) ← expr_or fuel s1 e; Some (OR n b, str, err)) = Some r ∧ result_ok str err r).
  { intros s1 Hs1. destruct (Hor s1 e) as ([[n2 s2] e2] & -> & Hlen2 & Hfull2); [lia|]. cbn [mbind option_bind].
    eexists. split; [done|]. split; [cbn in *; lia|]. intros He2. destruct (Hfull2 He2) as [He ?].
    destruct (Hfull He). done. }
  case_if; [|case_if].
  + apply Hgo. assert (hd0 (expr_eat_white s) ≠ 0) as Hh by (rewrite H; done). pose proof (tail_length _ Hh).
    rewrite length_drop. assert (hd0 (tail (expr_eat_white s)) ≠ 0) as Hh2 by (rewrite H0; done). pose proof (hd0_length _ Hh2). lia.
  + apply Hgo. assert (hd0 (expr_eat_white s) ≠ 0) as Hh by (by destruct E0 as [->%Z.eqb_eq| ->%Z.eqb_eq]).
    pose proof (tail_length _ Hh). lia.
  + eexists. split; [done|]. split; [cbn in *; lia|]. done.
Qed.

Lemma expr_ends fuel : ends sym_ok 1 fuel (expr_sym fuel) ∧ ends result_ok 2 fuel (expr_and fuel)
  ∧ ends result_ok 3 fuel (expr_or fuel).
Proof.
  induction fuel as [|fuel (IH1 & IH2 & IH3)]; [split_and!; intros ???; lia|].
  split_and!; [by apply sym_ends|by apply and_ends|by apply or_ends].
Qed.

Lemma parse_or_ends str err : ∃ r, parse_or str err = Some r ∧ result_ok str err r.
Proof. apply expr_ends. unfold expr_fuel. lia. Qed.

(** ** Every text of the grammar is accepted *)

Definition no_white (str : list Z) : Prop := expr_eat_white str = str.

(** What may follow a product, a sum. *)
Definition ends_and (rest : list Z) : Prop :=
  no_white rest ∧ hd0 rest ≠ c_amp ∧ hd0 rest ≠ c_star ∧ starts_sym (hd0 rest) = false.
Definition ends_or (rest : list Z) : Prop := ends_and rest ∧ hd0 rest ≠ c_bar ∧ hd0 rest ≠ c_plus.

Definition sym_accepts (s : list Z) (n : node) : Prop := ∀ rest, no_white rest →
  ∃ fuel n', expr_sym fuel (s ++ rest) false = Some (n', rest, false) ∧ same_meaning n' n.
Definition and_accepts (s : list Z) (n : node) : Prop := ∀ rest, ends_and rest →
  ∃ fuel n', expr_and fuel (s ++ rest) false = Some (n', rest, false) ∧ same_meaning n' n.
Definition or_accepts (s : list Z) (n : node) : Prop := ∀ rest, ends_or rest →
  ∃ fuel n', expr_or fuel (s ++ rest) false = Some (n', rest, false) ∧ same_meaning n' n.

Lemma no_white_cons c s : c ≠ 32 → c ≠ 9 → no_white (c :: s).
Proof. intros. unfold no_white. cbn. by rewrite !(proj2 (Z.eqb_neq _ _)). Qed.

(** The first characters of symbols. *)
Definition sym_start (c : Z) : bool := starts_sym c || is_not_char c || (c =? c_star).

Lemma sym_start_facts c : sym_start c = true → c ≠ 32 ∧ c ≠ 9 ∧ c ≠ 0 ∧ c ≠ c_amp ∧ c ≠ c_bar ∧ c ≠ c_plus.
Proof.
  intros H. split_and!; intros ->; done.
Qed.

Lemma gL_head s n : gL s n → ∃ c s', s = c :: s' ∧ sym_start c = true.
Proof.
  destruct 1 as [c Hc|c Hc| |c s n Hc _|s n _|s n _]; do 2 eexists; (split; [done|]);
    unfold sym_start, starts_sym, is_letter; rewrite ?Hc, ?orb_true_r; try done.
Qed.

Lemma gL_no_white s n r : gL s n → no_white (s ++ r).
Proof. intros (c & s' & -> & Hc%sym_start_facts)%gL_head. apply no_white_cons; naive_solver. Qed.

Lemma rM_head s n : rM s n → ∃ c s', s = c :: s' ∧ sym_start c = true.
Proof.
  destruct 1 as [s n H|s1 n1 op s2 n2 H|s1 n1 s2 n2 H]; apply gL_head in H as (c & s' & -> & Hc); by do 2 eexists.
Qed.

Lemma upper_facts c : is_upper c = true → (c =? c_lpar) = false ∧ (c =? c_lbra) = false ∧ (c =? c_star) = false ∧ is_not_char c = false.
Proof. unfold is_upper, is_not_char. intros H. zbool. rewrite !(proj2 (Z.eqb_neq _ _)) by lia. done. Qed.

Lemma lower_facts c : is_lower c = true → (c =? c_lpar) = false ∧ (c =? c_lbra) = false ∧ (c =? c_star) = false
  ∧ is_not_char c = false ∧ is_upper c = false.
Proof.
  unfold is_lower, is_upper, is_not_char. intros H. zbool. rewrite !(proj2 (Z.eqb_neq _ _)) by lia.
  rewrite (proj2 (Z.leb_gt c 90)) by lia. by rewrite andb_false_r.
Qed.

Lemma not_facts c : is_not_char c = true → (c =? c_lpar) = false ∧ (c =? c_lbra) = false ∧ (c =? c_star) = false.
Proof.
  unfold is_not_char. intros H. rewrite !orb_true_iff, !Z.eqb_eq in H. rewrite !(proj2 (Z.eqb_neq _ _)) by lia. done.
Qed.

Lemma closes c rest : c = c_rpar ∨ c = c_rbra → ends_or (c :: rest).
Proof. intros [->| ->]; (split; [split; [by apply no_white_cons|done]|done]). Qed.

Lemma gS_head s n : gS s n → ∃ c s', s = c :: s' ∧ sym_start c = true.
Proof.
  induction 1 as [s n (n' & H & _)%gM_rM|s1 n1 op s2 n2 _ (c & s' & -> & ?) _ _]; [by eapply rM_head|by do 2 eexists].
Qed.

Lemma gS_no_white s n r : gS s n → no_white (s ++ r).
Proof. intros (c & s' & -> & Hc%sym_start_facts)%gS_head. apply no_white_cons; naive_solver. Qed.

Lemma sym_complete s n : gL s n → (∀ s' n', (length s' < length s)%nat → gS s' n' → or_accepts s' n') → sym_accepts s n.
Proof.
  induction 1 as [c Hc|c Hc| |c s n Hc Hl IH|s n Hs|s n Hs]; intros Hor rest Hrest.
  - exists 1%nat, (SYM (c - 65)). split; [|done]. cbn. destruct (upper_facts c Hc) as (-> & -> & -> & ->). by rewrite Hc.
  - exists 1%nat, (SYM (c - 97)). split; [|done]. cbn. destruct (lower_facts c Hc) as (-> & -> & -> & -> & ->). by rewrite Hc.
  - by exists 1%nat, ANY.
  - destruct IH with (rest := rest) as (fuel & n' & Hf & Hn); [|done|].
    { intros s' n' Hl'. apply Hor. cbn. lia. }
    exists (S fuel), (NOT n'). split; [|by rewrite Hn]. cbn [expr_sym app tail]. rewrite hd0_cons. destruct (not_facts c Hc) as (-> & -> & ->). rewrite Hc.
    rewrite (gL_no_white s n rest Hl), Hf. cbn [mbind option_bind]. by rewrite Hrest.
  - destruct (Hor s n) with (rest := c_rpar :: rest) as (fuel & n' & Hf & Hn); [cbn; rewrite length_app; cbn; lia|done|by apply closes; left|].
    exists (S fuel), n'. split; [|done]. cbn [expr_sym app tail]. change (hd0 (c_lpar :: (s ++ [c_rpar]) ++ rest) =? c_lpar) with true.
    cbn iota. rewrite <-(assoc_L (++)). cbn [app]. rewrite (gS_no_white s n _ Hs), Hf. done.
  - destruct (Hor s n) with (rest := c_rbra :: rest) as (fuel & n' & Hf & Hn); [cbn; rewrite length_app; cbn; lia|done|by apply closes; right|].
    exists (S fuel), n'. split; [|done]. cbn [expr_sym app tail]. change (hd0 (c_lbra :: (s ++ [c_rbra]) ++ rest) =? c_lpar) with false.
    change (hd0 (c_lbra :: (s ++ [c_rbra]) ++ rest) =? c_lbra) with true.
    cbn iota. rewrite <-(assoc_L (++)). cbn [app]. rewrite (gS_no_white s n _ Hs), Hf. done.
Qed.

(** A product, given that its factors are accepted. *)
Lemma and_complete s n : rM s n → (∀ s' n', (length s' ≤ length s)%nat → gL s' n' → sym_accepts s' n') → and_accepts s n.
Proof.
  induction 1 as [s n Hl|s1 n1 op s2 n2 Hl Hop Hr IH|s1 n1 s2 n2 Hl Hr IH Hst]; intros Hsym rest Hrest.
  - destruct (Hsym s n (le_n _) Hl rest) as (fuel & n' & Hf & Hn); [apply Hrest|].
    exists (S fuel), n'. split; [|done]. cbn [expr_and]. rewrite (gL_no_white s n rest Hl), Hf. cbn [mbind option_bind].
    destruct Hrest as (-> & H1 & H2 & ->). by rewrite (proj2 (Z.eqb_neq _ _) H1), (proj2 (Z.eqb_neq _ _) H2).
  - destruct IH with (rest := rest) as (f2 & m2 & Hf2 & Hm2); [|done|].
    { intros s' n' Hlen. apply Hsym. rewrite !length_app. lia. }
    destruct (rM_head _ _ Hr) as (c & s2' & -> & Hc). apply sym_start_facts in Hc.
    assert (Hw : no_white (op ++ (c :: s2') ++ rest)) by (destruct Hop; by apply no_white_cons).
    destruct (Hsym s1 n1) with (rest := op ++ (c :: s2') ++ rest) as (f1 & m1 & Hf1 & Hm1); [rewrite length_app; lia|done|done|].
    exists (S (f1 `max` f2)), (AND m1 m2). split; [|by rewrite Hm1, Hm2].
    rewrite <-!(assoc_L (++)). cbn [expr_and]. rewrite (gL_no_white s1 n1 _ Hl).
    apply (expr_mono f1 (f1 `max` f2)) in Hf1; [|lia]. apply (expr_mono f2 (f1 `max` f2)) in Hf2; [|lia].
    rewrite Hf1. cbn [mbind option_bind]. rewrite Hw.
    destruct Hop; cbn [app hd0 head default tail drop]; cbn.
    + cbn in Hf2. by rewrite Hf2.
    + rewrite (proj2 (Z.eqb_neq c 38)) by naive_solver. cbn in Hf2. by rewrite Hf2.
    + cbn in Hf2. by rewrite Hf2.
  - destruct IH with (rest := rest) as (f2 & m2 & Hf2 & Hm2); [|done|].
    { intros s' n' Hlen. apply Hsym. rewrite !length_app. lia. }
    destruct (rM_head _ _ Hr) as (c & s2' & -> & Hc). apply sym_start_facts in Hc.
    assert (Hw : no_white ((c :: s2') ++ rest)) by (apply no_white_cons; naive_solver).
    destruct (Hsym s1 n1) with (rest := (c :: s2') ++ rest) as (f1 & m1 & Hf1 & Hm1); [rewrite length_app; lia|done|done|].
    exists (S (f1 `max` f2)), (AND m1 m2). split; [|by rewrite Hm1, Hm2].
    rewrite <-!(assoc_L (++)). cbn [expr_and]. rewrite (gL_no_white s1 n1 _ Hl).
    apply (expr_mono f1 (f1 `max` f2)) in Hf1; [|lia]. apply (expr_mono f2 (f1 `max` f2)) in Hf2; [|lia].
    rewrite Hf1. cbn [mbind option_bind]. rewrite Hw. change (hd0 ((c :: s2') ++ rest)) with c in *.
    change (hd0 (c :: s2')) with c in Hst. rewrite (proj2 (Z.eqb_neq c 38)) by naive_solver.
    assert (Hstar : (c =? c_star) = false) by (apply Z.eqb_neq; by intros ->).
    rewrite Hstar, Hst. cbn [andb orb]. by rewrite Hf2.
Qed.

Lemma or_complete s n : rS s n → (∀ s' n', (length s' ≤ length s)%nat → gM s' n' → and_accepts s' n') → or_accepts s n.
Proof.
  induction 1 as [s n Hl|s1 n1 op s2 n2 Hl Hop Hr IH]; intros Hand rest Hrest.
  - destruct (Hand s n (le_n _) Hl rest) as (fuel & n' & Hf & Hn); [apply Hrest|].
    exists (S fuel), n'. split; [|done]. cbn [expr_or]. rewrite (gS_no_white s n rest) by by apply gS_one.
    rewrite Hf. cbn [mbind option_bind].
    destruct Hrest as ((-> & _) & H1 & H2). by rewrite (proj2 (Z.eqb_neq _ _) H1), (proj2 (Z.eqb_neq _ _) H2).
  - destruct IH with (rest := rest) as (f2 & m2 & Hf2 & Hm2); [|done|].
    { intros s' n' Hlen. apply Hand. rewrite !length_app. lia. }
    assert (Hhead : ∃ c s2', s2 = c :: s2' ∧ sym_start c = true).
    { destruct Hr as [s n H|? ? ? ? ? H]; apply gS_one, gS_head in H as (c & s' & -> & ?); by do 2 eexists. }
    destruct Hhead as (c & s2' & -> & Hc). apply sym_start_facts in Hc.
    assert (Hw : ends_and (op ++ (c :: s2') ++ rest)) by (destruct Hop; (split; [by apply no_white_cons|done])).
    destruct (Hand s1 n1) with (rest := op ++ (c :: s2') ++ rest) as (f1 & m1 & Hf1 & Hm1); [rewrite length_app; lia|done|done|].
    exists (S (f1 `max` f2)), (OR m1 m2). split; [|by rewrite Hm1, Hm2].
    rewrite <-!(assoc_L (++)). cbn [expr_or]. rewrite (gS_no_white s1 n1) by by apply gS_one.
    apply (expr_mono f1 (f1 `max` f2)) in Hf1; [|lia]. apply (expr_mono f2 (f1 `max` f2)) in Hf2; [|lia].
    rewrite Hf1. cbn [mbind option_bind]. rewrite (proj1 Hw).
    destruct Hop; cbn [app hd0 head default tail drop]; cbn.
    + cbn in Hf2. by rewrite Hf2.
    + rewrite (proj2 (Z.eqb_neq c 124)) by naive_solver. cbn in Hf2. by rewrite Hf2.
    + cbn in Hf2. by rewrite Hf2.
Qed.

Lemma parser_complete k : ∀ s n, (length s < k)%nat →
  (gL s n → sym_accepts s n) ∧ (gM s n → and_accepts s n) ∧ (gS s n → or_accepts s n).
Proof.
  induction k as [|k IH]; intros s n Hk; [lia|].
  assert (HL : ∀ s n, (length s ≤ k)%nat → gL s n → sym_accepts s n).
  { intros s1 n1 Hs1 Hl. apply sym_complete; [done|]. intros s' n' Hs'. apply IH. lia. }
  assert (HM : ∀ s n, (length s ≤ k)%nat → gM s n → and_accepts s n).
  { intros s1 n1 Hs1 (n' & Hr & Hn)%gM_rM rest Hrest.
    destruct (and_complete s1 n' Hr) with (rest := rest) as (fuel & m & Hf & Hm); [|done|].
    - intros s' n2 Hs'. apply HL. lia.
    - exists fuel, m. split; [done|]. by rewrite Hm. }
  split_and!; [apply HL; lia|apply HM; lia|].
  intros (n' & Hr & Hn)%gS_rS rest Hrest.
  destruct (or_complete s n' Hr) with (rest := rest) as (fuel & m & Hf & Hm); [|done|].
  - intros s' n2 Hs'. apply HM. lia.
  - exists fuel, m. split; [done|]. by rewrite Hm.
Qed.

(** Enough fuel gives the answer some fuel gives. *)
Lemma parse_or_fuel fuel str err r : expr_or fuel str err = Some r → parse_or str err = Some r.
Proof.
  intros H. destruct (parse_or_ends str err) as (r' & Hr & _). unfold parse_or in *.
  destruct (expr_mono fuel (fuel `max` expr_fuel str) ltac:(lia) str err r) as (_ & _ & H1).
  destruct (expr_mono (expr_fuel str) (fuel `max` expr_fuel str) ltac:(lia) str err r') as (_ & _ & H2).
  rewrite (H1 H) in H2. specialize (H2 Hr). congruence.
Qed.

Lemma parse_or_complete s n rest : gS s n → ends_or rest →
  ∃ n', parse_or (s ++ rest) false = Some (n', rest, false) ∧ same_meaning n' n.
Proof.
  intros Hs Hrest. destruct (parser_complete (S (length s)) s n ltac:(lia)) as (_ & _ & H).
  destruct (H Hs rest Hrest) as (fuel & n' & Hf & Hn). exists n'. split; [by eapply parse_or_fuel|done].
Qed.

(** ** Nothing else is accepted *)

Definition white_free (str : list Z) : Prop := Forall (λ c, c ≠ 32 ∧ c ≠ 9) str.

Lemma white_free_eat str : white_free str → expr_eat_white str = str.
Proof. destruct 1 as [|c str [? ?] _]; [done|]. by apply no_white_cons. Qed.

Lemma hd0_inv (str : list Z) c : hd0 str = c → c ≠ 0 → str = c :: tail str.
Proof. destruct str; cbn; intros; congruence. Qed.

Lemma white_free_tail str : white_free str → white_free (tail str).
Proof. destruct 1; [constructor|done]. Qed.

Lemma white_free_suffix s rest : white_free (s ++ rest) → white_free rest.
Proof. intros H. by apply Forall_app in H as [_ ?]. Qed.

(** An error stays. *)
Lemma error_stays fuel : ∀ str r,
  (expr_sym fuel str true = Some r → r.2 = true)
  ∧ (expr_and fuel str true = Some r → r.2 = true)
  ∧ (expr_or fuel str true = Some r → r.2 = true).
Proof.
  induction fuel as [|fuel IH]; [done|]. intros str r.
  split_and!; cbn [expr_sym expr_and expr_or];
  repeat match goal with
  | |- context [expr_sym fuel ?s true] =>
      let H := fresh in destruct (expr_sym fuel s true) as [[[? ?] ?]|] eqn:H; [apply IH in H; cbn in H; subst|done]
  | |- context [expr_and fuel ?s true] =>
      let H := fresh in destruct (expr_and fuel s true) as [[[? ?] ?]|] eqn:H; [apply IH in H; cbn in H; subst|done]
  | |- context [expr_or fuel ?s true] =>
      let H := fresh in destruct (expr_or fuel s true) as [[[? ?] ?]|] eqn:H; [apply IH in H; cbn in H; subst|done]
  | _ => progress cbn [mbind option_bind]
  | _ => case_if
  end; by intros [= <-].
Qed.

Lemma no_error_before fuel str err n rest :
  (expr_sym fuel str err = Some (n, rest, false) → err = false)
  ∧ (expr_and fuel str err = Some (n, rest, false) → err = false)
  ∧ (expr_or fuel str err = Some (n, rest, false) → err = false).
Proof. destruct err; [|done]. split_and!; intros H; by apply error_stays in H. Qed.

(** What an answer without an error says. *)
Definition sound (P : list Z → node → Prop) (parse : list Z → bool → option (node * list Z * bool)) : Prop :=
  ∀ str err n rest, white_free str → parse str err = Some (n, rest, false) →
    err = false ∧ ∃ s n', str = s ++ rest ∧ P s n' ∧ same_meaning n n'.

Lemma sym_sound fuel : sound gL (expr_sym fuel) → sound gS (expr_or fuel) → sound gL (expr_sym (S fuel)).
Proof.
  intros Hsym Hor str err n rest Hw. cbn [expr_sym].
  assert (Hbr : ∀ opening closing, closing ≠ 0 → hd0 str = opening → opening ≠ 0 →
    (∀ s n, gS s n → gL (opening :: s ++ [closing]) n) →
    ('(a, str, err) ← expr_or fuel (expr_eat_white (tail str)) err;
        let str := expr_eat_white str in
        if hd0 str =? closing then Some (a, tail str, err) else Some (NULL, str, true)) = Some (n, rest, false) →
    err = false ∧ ∃ s n', str = s ++ rest ∧ gL s n' ∧ same_meaning n n').
  { intros opening closing Hc0 Ho Ho0 Hg. apply hd0_inv in Ho; [|done].
    rewrite white_free_eat by by apply white_free_tail.
    destruct (expr_or fuel (tail str) err) as [[[a s] e]|] eqn:E; [|done]. cbn [mbind option_bind].
    case_if; [|done]. intros [= <- <- ->]. apply Hor in E as (-> & s1 & n1 & Hs & Hg1 & Hn); [|by apply white_free_tail].
    assert (Hws : white_free s) by (apply (white_free_suffix s1); rewrite <-Hs; by apply white_free_tail).
    rewrite (white_free_eat s) in * by done. apply hd0_inv in E0; [|done].
    split; [done|]. exists (opening :: s1 ++ [closing]), n1. split; [|split; [by apply Hg|done]].
    rewrite Ho, Hs. rewrite E0 at 1. cbn. by rewrite <-(assoc_L (++)). }
  case_if; [by apply (Hbr c_lpar c_rpar); [| | |apply gL_round]|].
  case_if; [by apply (Hbr c_lbra c_rbra); [| | |apply gL_square]|].
  assert (Hone : ∀ m, hd0 str ≠ 0 → gL [hd0 str] m → Some (m, tail str, err) = Some (n, rest, false) →
    err = false ∧ ∃ s n', str = s ++ rest ∧ gL s n' ∧ same_meaning n n').
  { intros m Hc Hm [= <- <- ->]. split; [done|]. exists [hd0 str], m. split; [|done]. by apply hd0_inv. }
  case_if; [apply Hone; [by rewrite E1|rewrite E1; constructor]|].
  case_if.
  { rewrite white_free_eat by by apply white_free_tail.
    destruct (expr_sym fuel (tail str) err) as [[[a s] e]|] eqn:Es; [|done]. cbn [mbind option_bind].
    intros [= <- Hrest ->]. apply Hsym in Es as (-> & s1 & n1 & Hs & Hg1 & Hn); [|by apply white_free_tail].
    assert (Hws : white_free s) by (apply (white_free_suffix s1); rewrite <-Hs; by apply white_free_tail).
    rewrite white_free_eat in Hrest by done. subst s.
    split; [done|]. exists (hd0 str :: s1), (NOT n1). split; [|split; [by constructor|by rewrite Hn]].
    cbn [app]. rewrite <-Hs. apply hd0_inv; [done|]. intros Hc. by rewrite Hc in E2. }
  case_if; [apply Hone; [intros Hc; by rewrite Hc in E3|by constructor]|].
  case_if; [apply Hone; [intros Hc; by rewrite Hc in E4|by constructor]|]. done.
Qed.

Lemma gM_head s n : gM s n → ∃ c s', s = c :: s' ∧ sym_start c = true.
Proof. intros H. by eapply gS_head, gS_one. Qed.

Lemma and_sound fuel : sound gL (expr_sym fuel) → sound gM (expr_and fuel) → sound gM (expr_and (S fuel)).
Proof.
  intros Hsym Hand str err n rest Hw. cbn [expr_and]. rewrite white_free_eat by done.
  destruct (expr_sym fuel str err) as [[[a s] e]|] eqn:Es; [|done]. cbn [mbind option_bind].
  assert (Hgo : ∀ op s2, expr_eat_white s = op ++ s2 →
    (∀ s1 n1 s3 n3, gL s1 n1 → s2 = s3 ++ rest → gM s3 n3 → ∃ m, gM (s1 ++ op ++ s3) m ∧ same_meaning m (AND n1 n3)) →
    ('(b, str, err) ← expr_and fuel s2 e; Some (AND a b, str, err)) = Some (n, rest, false) →
    err = false ∧ ∃ s n', str = s ++ rest ∧ gM s n' ∧ same_meaning n n').
  { intros op s2 Hop Hg. destruct (expr_and fuel s2 e) as [[[b r] e2]|] eqn:Ea; [|done]. cbn [mbind option_bind].
    intros [= <- <- ->]. assert (e = false) as -> by by apply no_error_before in Ea.
    apply Hsym in Es as (-> & s1 & n1 & -> & Hg1 & Hn1); [|done]. apply white_free_suffix in Hw.
    rewrite white_free_eat in Hop by done. subst s. apply white_free_suffix in Hw.
    apply Hand in Ea as (_ & s3 & n3 & -> & Hg3 & Hn3); [|done].
    split; [done|]. destruct (Hg s1 n1 s3 n3) as (m & Hm & Hmn); [done..|].
    exists (s1 ++ op ++ s3), m. split; [by rewrite <-!(assoc_L (++))|]. split; [done|]. by rewrite Hmn, Hn1, Hn3. }
  case_if; [|case_if; [|case_if]].
  - apply (Hgo [c_amp; c_amp]).
    + apply hd0_inv in H; [|done]. apply hd0_inv in H0; [|done]. rewrite H, H0 at 1.
      destruct (expr_eat_white s) as [|? [|]]; done.
    + intros. apply gM_app_op; [by apply gM_one|constructor|done].
  - apply (Hgo [hd0 (expr_eat_white s)]).
    + apply hd0_inv; [done|]. intros Hc. rewrite Hc in E0. by destruct E0.
    + intros. apply gM_app_op; [by apply gM_one| |done]. by destruct E0 as [->%Z.eqb_eq| ->%Z.eqb_eq]; constructor.
  - apply (Hgo []); [done|]. intros s1 n1 s3 n3 H1 Heq H3. apply gM_app_next; [by apply gM_one|done|].
    rewrite Heq in E0. apply gM_head in H3 as (c & s' & -> & _). done.
  - intros [= <- Hrest ->]. apply Hsym in Es as (-> & s1 & n1 & -> & Hg1 & Hn1); [|done]. split; [done|].
    apply white_free_suffix in Hw. rewrite white_free_eat in Hrest by done. subst s.
    exists s1, n1. split_and!; [done|by constructor|done].
Qed.

Lemma or_sound fuel : sound gM (expr_and fuel) → sound gS (expr_or fuel) → sound gS (expr_or (S fuel)).
Proof.
  intros Hand Hor str err n rest Hw. cbn [expr_or]. rewrite white_free_eat by done.
  destruct (expr_and fuel str err) as [[[a s] e]|] eqn:Es; [|done]. cbn [mbind option_bind].
  assert (Hgo : ∀ op s2, expr_eat_white s = op ++ s2 → or_op op →
    ('(b, str, err) ← expr_or fuel s2 e; Some (OR a b, str, err)) = Some (n, rest, false) →
    err = false ∧ ∃ s n', str = s ++ rest ∧ gS s n' ∧ same_meaning n n').
  { intros op s2 Hop Hop2. destruct (expr_or fuel s2 e) as [[[b r] e2]|] eqn:Ea; [|done]. cbn [mbind option_bind].
    intros [= <- <- ->]. assert (e = false) as -> by by apply no_error_before in Ea.
    apply Hand in Es as (-> & s1 & n1 & -> & Hg1 & Hn1); [|done]. apply white_free_suffix in Hw.
    rewrite white_free_eat in Hop by done. subst s. apply white_free_suffix in Hw.
    apply Hor in Ea as (_ & s3 & n3 & -> & Hg3 & Hn3); [|done].
    split; [done|]. destruct (gS_app s1 n1 op s3 n3) as (m & Hm & Hmn); [by apply gS_one|done..|].
    exists (s1 ++ op ++ s3), m. split; [by rewrite <-!(assoc_L (++))|]. split; [done|]. by rewrite Hmn, Hn1, Hn3. }
  case_if; [|case_if].
  - apply (Hgo [c_bar; c_bar]); [|constructor].
    apply hd0_inv in H; [|done]. apply hd0_inv in H0; [|done]. rewrite H, H0 at 1.
    destruct (expr_eat_white s) as [|? [|]]; done.
  - apply (Hgo [hd0 (expr_eat_white s)]).
    + apply hd0_inv; [done|]. intros Hc. rewrite Hc in E0. by destruct E0.
    + by destruct E0 as [->%Z.eqb_eq| ->%Z.eqb_eq]; constructor.
  - intros [= <- Hrest ->]. apply Hand in Es as (-> & s1 & n1 & -> & Hg1 & Hn1); [|done]. split; [done|].
    apply white_free_suffix in Hw. rewrite white_free_eat in Hrest by done. subst s.
    exists s1, n1. split_and!; [done|by constructor|done].
Qed.

Lemma parser_sound fuel : sound gL (expr_sym fuel) ∧ sound gM (expr_and fuel) ∧ sound gS (expr_or fuel).
Proof.
  induction fuel as [|fuel (IH1 & IH2 & IH3)]; [by split_and!; intros ?????|].
  split_and!; [by apply sym_sound|by apply and_sound|by apply or_sound].
Qed.
