(* ===== verification/LabelCode.v ===== *)
(** * The byte code of label expressions: evaluation and printing

    Evaluating and printing are the same stack machine on different values.  [run] is
    that machine; [code_run] shows once that the code of a tree pushes the value of the
    tree, though the compiler merges the operations of a chain into one; the evaluator
    and the printer are instances. *)

From S2P Require Import Prelude MfsComm LabelParser LabelGrammar LabelFacts.

(** ** Opcodes *)

Definition op_type (n : Z) : Z := Z.land n SCLASS_EXPR_TYPE_MASK.
Definition op_val (n : Z) : Z := Z.land n SCLASS_EXPR_VALUE_MASK.

(** A fact about all bytes, by computation. *)
Definition all_bytes (P : Z → bool) : bool := forallb P (Z.of_nat <$> seq 0 256).

Lemma all_bytes_spec P n : all_bytes P = true → is_u8 n → P n = true.
Proof.
  unfold all_bytes, is_u8. rewrite forallb_forall. intros H Hn. apply H.
  rewrite <-list_elem_of_In, list_elem_of_fmap. exists (Z.to_nat n). split; [lia|]. rewrite elem_of_seq. lia.
Qed.

Lemma op_more_facts n : is_u8 n → (op_val n <? SCLASS_EXPR_VALUE_MASK) = true →
  is_u8 (n + 1) ∧ op_type (n + 1) = op_type n ∧ op_val (n + 1) = op_val n + 1.
Proof.
  intros Hn Hv. assert (H : all_bytes (λ n, negb (op_val n <? SCLASS_EXPR_VALUE_MASK) ||
    ((n + 1 <? 256) && (op_type (n + 1) =? op_type n) && (op_val (n + 1) =? op_val n + 1))) = true) by by vm_compute.
  apply (all_bytes_spec _ n) in H; [|done]. cbv beta in H. rewrite Hv in H. cbn [negb orb] in H. zbool.
  unfold is_u8 in *. split_and!; try done; lia.
Qed.

Lemma sym_facts v : 0 ≤ v < 26 →
  let n := Z.lor SCLASS_EXPR_SYMBOL v in is_u8 n ∧ n ≠ 0 ∧ n ≠ SCLASS_EXPR_SYMBOL_ANY ∧ op_type n = SCLASS_EXPR_SYMBOL ∧ op_val n = v.
Proof.
  intros Hv n. assert (H : all_bytes (λ v, negb (v <? 26) || ((0 <? Z.lor SCLASS_EXPR_SYMBOL v) && (Z.lor SCLASS_EXPR_SYMBOL v <? 255)
    && (op_type (Z.lor SCLASS_EXPR_SYMBOL v) =? SCLASS_EXPR_SYMBOL) && (op_val (Z.lor SCLASS_EXPR_SYMBOL v) =? v))) = true) by by vm_compute.
  apply (all_bytes_spec _ v) in H; [|unfold is_u8; lia]. cbv beta in H. rewrite (proj2 (Z.ltb_lt v 26)) in H by lia. cbn [negb orb] in H. zbool.
  subst n. unfold is_u8, SCLASS_EXPR_SYMBOL_ANY. split_and!; lia.
Qed.

(** ** The machine *)

Section machine.
Context {V : Type} (sym : Z → V) (nary : bool → list V → V) (neg : V → V).

(** [nary true] is the product of its arguments, [nary false] the sum, the last argument
    first. *)
Definition step (n : Z) (st : list V) : option (list V) :=
  if op_type n =? SCLASS_EXPR_SYMBOL then Some (sym n :: st)
  else if op_type n =? SCLASS_EXPR_OP_AND then
    let k := Z.to_nat (op_val n + 2) in
    if (length st <? k)%nat then None else Some (nary true (take k st) :: drop k st)
  else if op_type n =? SCLASS_EXPR_OP_OR then
    let k := Z.to_nat (op_val n + 2) in
    if (length st <? k)%nat then None else Some (nary false (take k st) :: drop k st)
  else if op_val n =? SCLASS_EXPR_OP_NOT then
    match st with [] => None | x :: st => Some (neg x :: st) end
  else Some st.

Fixpoint run (c : list Z) (st : list V) : option (list V) :=
  match c with [] => Some st | n :: c => st ← step n st; run c st end.

Lemma run_app c1 c2 st : run (c1 ++ c2) st = run c1 st ≫= run c2.
Proof. revert st. induction c1 as [|n c1 IH]; intros st; [done|]. cbn. destruct (step n st); [apply IH|done]. Qed.

(** The value of a tree. *)
Fixpoint val (n : node) : V :=
  match n with
  | NULL => sym 0
  | OR a b => nary false [val b; val a]
  | AND a b => nary true [val b; val a]
  | NOT a => neg (val a)
  | REF a => val a
  | ANY => sym SCLASS_EXPR_SYMBOL_ANY
  | SYM v => sym (Z.lor SCLASS_EXPR_SYMBOL v)
  end.

(** ** The code of a tree, in a buffer without end *)

Definition add_op_code (op : Z) (c : list Z) : list Z :=
  let t := expr_rpn_top c in
  if (op_type t =? op) && (op_val t <? SCLASS_EXPR_VALUE_MASK) then expr_rpn_exchg_top (u8 (t + 1)) c else c ++ [op].

Fixpoint code (n : node) : list Z :=
  match n with
  | NULL => []
  | OR a b => add_op_code SCLASS_EXPR_OP_OR (code a ++ code b)
  | AND a b => add_op_code SCLASS_EXPR_OP_AND (code a ++ code b)
  | NOT a => code a ++ [SCLASS_EXPR_OP_NOT]
  | REF a => code a
  | ANY => [SCLASS_EXPR_SYMBOL_ANY]
  | SYM v => [Z.lor SCLASS_EXPR_SYMBOL v]
  end.

(** A sum of a sum is one sum. *)
Hypothesis nary_merge : ∀ o args a, (2 ≤ length args)%nat → nary o [nary o args; a] = nary o (args ++ [a]).

Definition op_of (o : bool) : Z := if o then SCLASS_EXPR_OP_AND else SCLASS_EXPR_OP_OR.

Lemma op_of_inj o o' : op_of o = op_of o' → o = o'.
Proof. by destruct o, o'. Qed.

Lemma step_nary o n args st : op_type n = op_of o → length args = Z.to_nat (op_val n + 2) →
  step n (args ++ st) = Some (nary o args :: st).
Proof.
  intros Ht Hl. unfold step. rewrite Ht. rewrite (proj2 (Nat.ltb_ge _ _)) by (rewrite length_app; lia).
  rewrite <-Hl, take_app_length, drop_app_length. by destruct o.
Qed.

(** The last byte of the code, and the values it works on. *)
Record code_shape (c : list Z) (v : V) (pre : list Z) (lst : Z) (args : list V) : Prop := {
  cs_eq : c = pre ++ [lst];
  cs_bytes : Forall (λ x, is_u8 x ∧ x ≠ 0) c;
  cs_pre : ∀ st, run pre st = Some (args ++ st);
  cs_last : ∀ st, step lst (args ++ st) = Some (v :: st);
  cs_nary : ∀ o, op_type lst = op_of o → length args = Z.to_nat (op_val lst + 2) ∧ v = nary o args }.

Lemma shape_run c v pre lst args : code_shape c v pre lst args → ∀ st, run c st = Some (v :: st).
Proof. intros [-> _ Hp Hl _] st. rewrite run_app, Hp. cbn [mbind option_bind run]. by rewrite Hl. Qed.

Lemma op_of_facts o : is_u8 (op_of o) ∧ op_of o ≠ 0 ∧ op_type (op_of o) = op_of o ∧ op_val (op_of o) = 0.
Proof. by destruct o. Qed.

Lemma last_snoc_default (l : list Z) x : expr_rpn_top (l ++ [x]) = x.
Proof. unfold expr_rpn_top. by rewrite last_snoc. Qed.

Lemma exchg_snoc d (l : list Z) x : expr_rpn_exchg_top d (l ++ [x]) = l ++ [d].
Proof. unfold expr_rpn_exchg_top. rewrite removelast_last. by destruct l. Qed.

(** The code of an operation. *)
Lemma op_shape o ca va ra la xa cb vb rb lb xb :
  code_shape ca va ra la xa → code_shape cb vb rb lb xb →
  ∃ pre lst args, code_shape (add_op_code (op_of o) (ca ++ cb)) (nary o [vb; va]) pre lst args.
Proof.
  intros Ha Hb. pose proof (shape_run _ _ _ _ _ Ha) as Hra. pose proof (shape_run _ _ _ _ _ Hb) as Hrb.
  unfold add_op_code. rewrite (cs_eq _ _ _ _ _ Hb), (assoc_L (++)), last_snoc_default, exchg_snoc.
  pose proof (cs_bytes _ _ _ _ _ Ha) as Hba. pose proof (cs_bytes _ _ _ _ _ Hb) as Hbb.
  assert (Hlb : is_u8 lb ∧ lb ≠ 0).
  { rewrite (cs_eq _ _ _ _ _ Hb) in Hbb. apply Forall_app in Hbb as [_ Hbb]. by apply Forall_cons in Hbb as [? _]. }
  case_if.
  - destruct (op_more_facts lb (proj1 Hlb)) as (H8 & Ht & Hv); [by apply Z.ltb_lt|].
    destruct (cs_nary _ _ _ _ _ Hb o H) as [Hlen Hvb]. unfold u8. rewrite Z.mod_small by done.
    assert (0 ≤ op_val lb). { unfold op_val. apply Z.land_nonneg. right. done. }
    exists (ca ++ rb), (lb + 1), (xb ++ [va]). constructor.
    + done.
    + rewrite <-(assoc_L (++)). apply Forall_app. split; [done|]. rewrite (cs_eq _ _ _ _ _ Hb) in Hbb.
      apply Forall_app in Hbb as [? _]. apply Forall_app. split; [done|]. constructor; [|constructor]. split; [done|]. unfold is_u8 in *. lia.
    + intros st. rewrite run_app, Hra. cbn [mbind option_bind]. rewrite (cs_pre _ _ _ _ _ Hb). by rewrite <-(assoc_L (++)).
    + intros st. rewrite (step_nary o); [|congruence|rewrite length_app, Hlen, Hv; cbn; lia].
      rewrite Hvb, nary_merge by lia. done.
    + intros o' Ho'. assert (o' = o) as -> by (apply op_of_inj; congruence).
      split; [rewrite length_app, Hlen, Hv; cbn; lia|]. rewrite Hvb, nary_merge by lia. done.
  - replace ((ca ++ rb) ++ [lb]) with (ca ++ cb) by (by rewrite (cs_eq _ _ _ _ _ Hb), (assoc_L (++))).
    destruct (op_of_facts o) as (H8 & H0 & Ht & Hv).
    exists (ca ++ cb), (op_of o), [vb; va]. constructor.
    + done.
    + apply Forall_app. split; [by apply Forall_app|]. by apply Forall_singleton.
    + intros st. rewrite run_app, Hra. cbn [mbind option_bind]. by rewrite Hrb.
    + intros st. apply (step_nary o _ [vb; va]); [done|by rewrite Hv].
    + intros o' Ho'. assert (o' = o) as -> by (apply op_of_inj; congruence). split; [by rewrite Hv|done].
Qed.

Lemma code_has_shape n : full n → ∃ pre lst args, code_shape (code n) (val n) pre lst args.
Proof.
  induction n as [|a IHa b IHb|a IHa b IHb|a IHa|a IHa| |v]; cbn [full]; [done|..].
  - intros [(ra & la & xa & Ha)%IHa (rb & lb & xb & Hb)%IHb]. by eapply (op_shape false).
  - intros [(ra & la & xa & Ha)%IHa (rb & lb & xb & Hb)%IHb]. by eapply (op_shape true).
  - intros (ra & la & xa & Ha)%IHa. exists (code a), SCLASS_EXPR_OP_NOT, [val a]. constructor.
    + done.
    + apply Forall_app. split; [apply Ha|]. by apply Forall_singleton.
    + by apply (shape_run _ _ _ _ _ Ha).
    + done.
    + by intros [].
  - done.
  - intros _. exists [], SCLASS_EXPR_SYMBOL_ANY, []. constructor; try done; [by apply Forall_singleton|by intros []].
  - intros Hv. destruct (sym_facts v Hv) as (H8 & H0 & _ & Ht & _).
    exists [], (Z.lor SCLASS_EXPR_SYMBOL v), []. constructor; try done.
    + by apply Forall_singleton.
    + intros st. unfold step. by rewrite Ht.
    + rewrite Ht. by intros [].
Qed.

Lemma code_run n : full n → ∀ st, run (code n) st = Some (val n :: st).
Proof. intros (pre & lst & args & Hs)%code_has_shape. by eapply shape_run. Qed.

Lemma code_bytes n : full n → Forall (λ x, is_u8 x ∧ x ≠ 0) (code n) ∧ code n ≠ [].
Proof.
  intros (pre & lst & args & Hs)%code_has_shape. split; [apply Hs|]. rewrite (cs_eq _ _ _ _ _ Hs). by destruct pre.
Qed.

End machine.
