(* ===== verification/LabelPrint.v ===== *)
(** * The compiler, the evaluator and the printer of label expressions

    The compiler writes the code of [LabelCode] as long as it fits the buffer; the
    evaluator computes the meaning of the tree; the printer writes a text of the
    grammar, with the meaning of the tree, and never beyond its memory. *)

From S2P Require Import Prelude MfsComm LabelParser LabelGrammar LabelFacts LabelCode.

(** ** The compiler *)

Lemma rpn_add_length d o : (length o ≤ length (expr_rpn_safe_add d o))%nat.
Proof. unfold expr_rpn_safe_add. case_if; [rewrite length_app|]; lia. Qed.

Lemma exchg_length d o : length (expr_rpn_exchg_top d o) = length o.
Proof.
  destruct o as [|x o _] using rev_ind; [done|]. by rewrite exchg_snoc, !length_app.
Qed.

Lemma add_op_length op o : (length o ≤ length (add_op op o))%nat.
Proof. unfold add_op. case_if; [by rewrite exchg_length|apply rpn_add_length]. Qed.

Lemma add_op_app op o c : c ≠ [] → (length (add_op op (o ++ c)) < SCLASS_EXPR_SIZE)%nat →
  add_op op (o ++ c) = o ++ add_op_code op c.
Proof.
  intros Hc. destruct c as [|x c _] using rev_ind; [done|].
  unfold add_op, add_op_code, op_type, op_val. rewrite (assoc_L (++)), !last_snoc_default, !exchg_snoc.
  case_if; [by rewrite <-(assoc_L (++))|]. unfold expr_rpn_safe_add. case_if; [by rewrite <-!(assoc_L (++))|].
  apply Nat.ltb_ge in E0. lia.
Qed.

(** A result that does not fill the buffer is the code of the tree; the buffer is full
    otherwise, and never more than full. *)
Lemma convert_spec n : full n → ∀ o, (length o ≤ SCLASS_EXPR_SIZE)%nat →
  ∃ o', expr_convert_to_rpn n o = Some o' ∧ (length o ≤ length o' ≤ SCLASS_EXPR_SIZE)%nat
    ∧ ((length o' < SCLASS_EXPR_SIZE)%nat → o' = o ++ code n).
Proof.
  assert (Hadd : ∀ d o, (length o ≤ SCLASS_EXPR_SIZE)%nat →
    (length o ≤ length (expr_rpn_safe_add d o) ≤ SCLASS_EXPR_SIZE)%nat
    ∧ ((length (expr_rpn_safe_add d o) < SCLASS_EXPR_SIZE)%nat → expr_rpn_safe_add d o = o ++ [d])).
  { intros d o Ho. unfold expr_rpn_safe_add. case_if; [apply Nat.ltb_lt in E; rewrite length_app; cbn; split; [lia|done]|].
    apply Nat.ltb_ge in E. lia. }
  assert (Hop : ∀ op o o1 o2 a b, full a → full b → (length o ≤ length o1 ≤ length o2)%nat → (length o2 ≤ SCLASS_EXPR_SIZE)%nat →
    ((length o1 < SCLASS_EXPR_SIZE)%nat → o1 = o ++ code a) → ((length o2 < SCLASS_EXPR_SIZE)%nat → o2 = o1 ++ code b) →
    (length o ≤ length (add_op op o2) ≤ SCLASS_EXPR_SIZE)%nat
    ∧ ((length (add_op op o2) < SCLASS_EXPR_SIZE)%nat → add_op op o2 = o ++ add_op_code op (code a ++ code b))).
  { intros op o o1 o2 a b Ha Hb Hl1 Hl2 H1 H2. pose proof (add_op_length op o2). split.
    - split; [lia|]. unfold add_op. case_if; [rewrite exchg_length; lia|]. by apply Hadd.
    - intros Hlt. assert (E2 : o2 = o1 ++ code b) by (apply H2; lia). assert (E1 : o1 = o ++ code a) by (apply H1; lia).
      rewrite E2, E1, <-(assoc_L (++)) in Hlt |- *. rewrite add_op_app; [done| |done].
      destruct (code_bytes (V := unit) (λ _, tt) (λ _ _, tt) (λ _, tt) ltac:(done) a Ha) as [_ Hne].
      intros [? _]%app_eq_nil. done. }
  induction n as [|a IHa b IHb|a IHa b IHb|a IHa|a IHa| |v]; cbn [full]; intros Hfull o Ho; try done; cbn [expr_convert_to_rpn code].
  - destruct Hfull as [Ha Hb]. destruct (IHa Ha o Ho) as (o1 & -> & Hl1 & He1). cbn [mbind option_bind].
    destruct (IHb Hb o1 ltac:(lia)) as (o2 & -> & Hl2 & He2). cbn [mbind option_bind]. eexists. split; [done|].
    eapply Hop; [exact Ha|exact Hb|..|exact He1|exact He2]; lia.
  - destruct Hfull as [Ha Hb]. destruct (IHa Ha o Ho) as (o1 & -> & Hl1 & He1). cbn [mbind option_bind].
    destruct (IHb Hb o1 ltac:(lia)) as (o2 & -> & Hl2 & He2). cbn [mbind option_bind]. eexists. split; [done|].
    eapply Hop; [exact Ha|exact Hb|..|exact He1|exact He2]; lia.
  - destruct (IHa Hfull o Ho) as (o1 & -> & Hl1 & He1). cbn [mbind option_bind]. eexists. split; [done|].
    destruct (Hadd SCLASS_EXPR_OP_NOT o1 ltac:(lia)) as [Hl2 He2]. split; [lia|]. intros Hlt.
    rewrite He2, He1 by lia. by rewrite <-(assoc_L (++)).
  - by apply IHa.
  - eexists. split; [done|]. by apply Hadd.
  - eexists. split; [done|]. by apply Hadd.
Qed.

(** ** The evaluator *)

Definition ev_sym (labelmask : Z) (n : Z) : Z :=
  if n =? SCLASS_EXPR_SYMBOL_ANY then 1 else if Z.testbit labelmask (op_val n) then 1 else 0.
Definition ev_nary (o : bool) (args : list Z) : Z :=
  if o then (if existsb (λ x, x =? 0) args then 0 else 1) else (if existsb (λ x, x =? 1) args then 1 else 0).
Definition ev_neg (x : Z) : Z := 1 - x.

Lemma ev_merge o args a : (2 ≤ length args)%nat → ev_nary o [ev_nary o args; a] = ev_nary o (args ++ [a]).
Proof.
  intros _. destruct o; cbn [ev_nary]; rewrite existsb_app; cbn [existsb].
  - by destruct (existsb _ args), (a =? 0).
  - by destruct (existsb _ args), (a =? 1).
Qed.

Lemma ev_val labelmask n : full n → val (ev_sym labelmask) ev_nary ev_neg n = Z.b2z (eval labelmask n).
Proof.
  induction n as [|a IHa b IHb|a IHa b IHb|a IHa|a IHa| |v]; cbn [full val eval].
  - done.
  - intros [Ha Hb]. rewrite (IHa Ha), (IHb Hb). by destruct (eval labelmask a), (eval labelmask b).
  - intros [Ha Hb]. rewrite (IHa Ha), (IHb Hb). by destruct (eval labelmask a), (eval labelmask b).
  - intros Ha. rewrite (IHa Ha). by destruct (eval labelmask a).
  - done.
  - done.
  - intros Hv. destruct (sym_facts v Hv) as (_ & _ & Hany & _ & Hval). unfold ev_sym.
    rewrite (proj2 (Z.eqb_neq _ _) Hany), Hval. by destruct (Z.testbit labelmask v).
Qed.

(** The evaluator is the machine, up to the zero that ends the code. *)
Lemma rpn_loop_run labelmask c r st : Forall (λ x, x ≠ 0) c →
  rpn_loop labelmask (c ++ 0 :: r) st =
  Some (match run (ev_sym labelmask) ev_nary ev_neg c st with Some [v] => v | _ => 0 end).
Proof.
  intros Hc. revert st. induction Hc as [|n c Hn _ IH]; intros st; [by destruct st as [|? []]|].
  cbn [app rpn_loop run]. rewrite (proj2 (Z.eqb_neq _ _) Hn). unfold step.
  change (Z.land n SCLASS_EXPR_TYPE_MASK) with (op_type n). change (Z.land n SCLASS_EXPR_VALUE_MASK) with (op_val n).
  case_if.
  { cbn [mbind option_bind]. unfold ev_sym. case_if; apply IH. }
  case_if.
  { case_if; [done|]. cbn [mbind option_bind]. apply IH. }
  case_if.
  { case_if; [done|]. cbn [mbind option_bind]. apply IH. }
  case_if.
  { destruct st; [done|]. cbn [mbind option_bind]. apply IH. }
  cbn [mbind option_bind]. apply IH.
Qed.

Lemma matches_code labelmask n r : full n →
  labelmask_matches_labelexpr labelmask (code n ++ 0 :: r) = Some (Z.b2z (eval labelmask n)).
Proof.
  intros Hf. destruct (code_bytes (ev_sym labelmask) ev_nary ev_neg ev_merge n Hf) as [Hb Hne].
  assert (Hnz : Forall (λ x, x ≠ 0) (code n)) by (eapply Forall_impl; [exact Hb|]; by intros x [_ ?]).
  unfold labelmask_matches_labelexpr. destruct (code n ++ 0 :: r) as [|x l] eqn:E; [by destruct (code n)|].
  assert (Hx : x ≠ 0). { destruct (code n); [done|]. cbn in E. injection E as <- _. by apply Forall_cons in Hnz as [? _]. }
  rewrite (proj2 (Z.eqb_neq _ _) Hx), <-E, rpn_loop_run by done.
  rewrite (code_run _ _ _ ev_merge) by done. f_equal. by apply ev_val.
Qed.

(** ** The printer *)

Definition pr_mk (level : Z) (str : list Z) : expr_string := mk_expr_string level (Z.of_nat (length str)) str.
Definition pr_sym (n : Z) : expr_string := pr_mk 0 [if n =? SCLASS_EXPR_SYMBOL_ANY then c_star else 65 + op_val n].
Definition pr_nary (o : bool) (args : list expr_string) : expr_string :=
  if o then pr_mk 1 (join c_amp (paren 1 <$> reverse args)) else pr_mk 2 (join c_bar (paren 2 <$> reverse args)).
Definition pr_neg (e : expr_string) : expr_string := pr_mk 0 (c_tilde :: paren 0 e).

Definition es_ok (e : expr_string) : Prop := es_len e = Z.of_nat (length (es_str e)) ∧ 0 ≤ es_level e ≤ 2.

Lemma es_bytes_ok e : es_len e = Z.of_nat (length (es_str e)) → es_bytes e = es_str e.
Proof. unfold es_bytes. intros ->. by rewrite Nat2Z.id, firstn_all. Qed.

Lemma join_cons sep s l : l ≠ [] → join sep (s :: l) = s ++ sep :: join sep l.
Proof. by destruct l. Qed.

Lemma paren_same k str : paren k (pr_mk k str) = str.
Proof. unfold paren. cbn [pr_mk es_level]. rewrite Z.ltb_irrefl. by apply es_bytes_ok. Qed.

Lemma join_merge k sep args a : args ≠ [] →
  join sep (paren k <$> reverse [pr_mk k (join sep (paren k <$> reverse args)); a]) = join sep (paren k <$> reverse (args ++ [a])).
Proof.
  intros Hne. rewrite reverse_app. change (reverse [a]) with [a].
  change (reverse [pr_mk k (join sep (paren k <$> reverse args)); a]) with [a; pr_mk k (join sep (paren k <$> reverse args))].
  cbn [app]. rewrite !fmap_cons, paren_same. rewrite (join_cons _ _ (paren k <$> reverse args)); [done|].
  intros H%(f_equal length). rewrite length_fmap, length_reverse in H. by destruct args.
Qed.

Lemma pr_merge o args a : (2 ≤ length args)%nat → pr_nary o [pr_nary o args; a] = pr_nary o (args ++ [a]).
Proof.
  intros Hl. assert (args ≠ []) by (by intros ->; cbn in Hl; lia). destruct o; cbn [pr_nary]; by rewrite join_merge.
Qed.

(** *** Its memory is enough *)

(** What a string on the stack stands for: two bytes of text for a byte of code. *)
Definition weight (e : expr_string) : Z := Z.of_nat (length (es_str e)) + (if es_level e =? 0 then 1 else 3).
Fixpoint weights (st : list expr_string) : Z :=
  match st with [] => 0 | e :: st => weight e + weights st end.

Lemma weight_pos e : 0 < weight e.
Proof. unfold weight. case_if; lia. Qed.

Lemma weights_app l1 l2 : weights (l1 ++ l2) = weights l1 + weights l2.
Proof. induction l1 as [|e l1 IH]; cbn [app weights] in *; lia. Qed.

Lemma weights_nonneg st : 0 ≤ weights st.
Proof. induction st as [|e st IH]; cbn; [lia|]. pose proof (weight_pos e). lia. Qed.

Lemma weights_perm l1 l2 : l1 ≡ₚ l2 → weights l1 = weights l2.
Proof. induction 1; cbn [weights]; lia. Qed.

Lemma length_paren k e : es_ok e → Z.of_nat (length (paren k e)) = paren_leng k e.
Proof.
  intros [Hl _]. unfold paren, paren_leng. rewrite es_bytes_ok, Hl by done.
  case_if; cbn [length]; rewrite ?length_app; cbn; lia.
Qed.

Lemma paren_leng_weight k e : 1 ≤ k → es_ok e → 0 ≤ paren_leng k e ∧ paren_leng k e + 1 ≤ weight e.
Proof.
  intros Hk [Hl Hlev]. unfold paren_leng, weight. rewrite Hl. repeat case_if; lia.
Qed.

Fixpoint paren_lengs (k : Z) (args : list expr_string) : Z :=
  match args with [] => 0 | e :: args => paren_leng k e + paren_lengs k args end.

Lemma paren_lengs_weights k args : 1 ≤ k → Forall es_ok args →
  0 ≤ paren_lengs k args ∧ paren_lengs k args + Z.of_nat (length args) ≤ weights args.
Proof.
  intros Hk. induction 1 as [|e args He _ IH]; [done|]. cbn [paren_lengs weights length].
  pose proof (paren_leng_weight k e Hk He). lia.
Qed.

Lemma foldl_lengs k args : 1 ≤ k → Forall es_ok args → ∀ n, 0 ≤ n → n + paren_lengs k args ≤ 255 →
  foldl (λ l e, u8 (l + paren_leng k e)) n args = n + paren_lengs k args.
Proof.
  intros Hk. induction 1 as [|e args He Hargs IH]; intros n Hn Hle; cbn [foldl paren_lengs] in *; [lia|].
  pose proof (paren_leng_weight k e Hk He). pose proof (paren_lengs_weights k args Hk Hargs). unfold u8. rewrite Z.mod_small by lia. rewrite IH by lia. lia.
Qed.

Lemma length_join sep l : l ≠ [] → length (join sep l) = (sum_list_with length l + (length l - 1))%nat.
Proof.
  induction l as [|s l IH]; [done|]. intros _. destruct (decide (l = [])) as [->|Hl]; [cbn; lia|].
  rewrite join_cons by done. rewrite length_app. cbn [length sum_list_with]. rewrite IH by done. destruct l; [done|]. cbn. lia.
Qed.

Lemma sum_paren k args : Forall es_ok args → Z.of_nat (sum_list_with length (paren k <$> args)) = paren_lengs k args.
Proof.
  induction 1 as [|e args He _ IH]; [done|]. rewrite fmap_cons. cbn [sum_list_with paren_lengs].
  rewrite Nat2Z.inj_add, length_paren, IH by done. done.
Qed.

(** An operation on strings the stack can hold. *)
Lemma es_op_ok level sep args : 1 ≤ level ≤ 2 → args ≠ [] → Forall es_ok args → weights args ≤ 254 →
  es_op level sep args = Some (pr_mk level (join sep (paren level <$> args)))
  ∧ es_ok (pr_mk level (join sep (paren level <$> args)))
  ∧ weight (pr_mk level (join sep (paren level <$> args))) ≤ weights args + 2.
Proof.
  intros Hlev Hne Hok Hw. destruct (paren_lengs_weights level args) as [H0 H1]; [lia|done|].
  assert (Hlen : Z.of_nat (length (join sep (paren level <$> args))) = paren_lengs level args + (Z.of_nat (length args) - 1)).
  { rewrite length_join by by destruct args. rewrite length_fmap. destruct args; [done|].
    rewrite Nat2Z.inj_add, sum_paren by done. cbn [length]. lia. }
  assert (0 < Z.of_nat (length args)) by (destruct args; [done|cbn; lia]).
  unfold es_op, es_write. rewrite foldl_lengs by (done || lia). rewrite Z.add_0_l. unfold u8.
  rewrite !Z.mod_small by lia. rewrite (proj2 (Nat.ltb_ge _ _)) by lia. split; [done|]. split; [split; cbn; lia|].
  unfold weight. cbn [pr_mk es_level es_str]. rewrite Hlen. case_if; lia.
Qed.

Lemma infix_loop_run c r st : Forall (λ x, x ≠ 0) c → Forall es_ok st →
  weights st + 2 * Z.of_nat (length c) ≤ 254 →
  infix_loop (c ++ 0 :: r) st =
  Some (match run pr_sym pr_nary pr_neg c st with Some [e] => es_bytes e | Some _ => s_ERROR | None => [] end).
Proof.
  intros Hc. revert st. induction Hc as [|n c Hn _ IH]; intros st Hok Hw; [by destruct st as [|? []]|].
  cbn [length] in Hw. pose proof (weights_nonneg st) as Hw0.
  cbn [app infix_loop run]. rewrite (proj2 (Z.eqb_neq _ _) Hn). unfold step.
  change (Z.land n SCLASS_EXPR_TYPE_MASK) with (op_type n). change (Z.land n SCLASS_EXPR_VALUE_MASK) with (op_val n).
  assert (Hv : 0 ≤ op_val n) by (unfold op_val; apply Z.land_nonneg; right; done).
  assert (Hnary : ∀ (o : bool) (level sep : Z), (level = if o then 1 else 2) → sep = (if o then c_amp else c_bar) →
    (Z.to_nat (op_val n + 2) ≤ length st)%nat →
    (e ← es_op level sep (reverse (take (Z.to_nat (op_val n + 2)) st)); infix_loop (c ++ 0 :: r) (e :: drop (Z.to_nat (op_val n + 2)) st))
    = Some (match run pr_sym pr_nary pr_neg c (pr_nary o (take (Z.to_nat (op_val n + 2)) st) :: drop (Z.to_nat (op_val n + 2)) st)
            with Some [e] => es_bytes e | Some _ => s_ERROR | None => [] end)).
  { intros o level sep Hlev Hsep Hlen. set (k := Z.to_nat (op_val n + 2)) in *.
    assert (Hperm : reverse (take k st) ≡ₚ take k st) by apply reverse_Permutation.
    assert (Hsplit : weights (reverse (take k st)) + weights (drop k st) = weights st).
    { rewrite (weights_perm _ _ Hperm), <-weights_app, take_drop. done. }
    pose proof (weights_nonneg (drop k st)).
    destruct (es_op_ok level sep (reverse (take k st))) as (-> & Hok' & Hw').
    - destruct o; subst; lia.
    - intros Heq%(f_equal length). rewrite length_reverse, length_take in Heq. cbn in Heq. lia.
    - rewrite Hperm. by apply Forall_take.
    - lia.
    - cbn [mbind option_bind].
      assert (Hpr : pr_mk level (join sep (paren level <$> reverse (take k st))) = pr_nary o (take k st)) by (destruct o; by subst).
      rewrite Hpr in *. apply IH; [constructor; [done|by apply Forall_drop]|]. cbn [weights]. lia. }
  case_if.
  { cbn [mbind option_bind]. apply IH; [constructor; [done|done]|]. cbn [weights].
    unfold weight. cbn. lia. }
  case_if.
  { case_if; [done|]. cbn [mbind option_bind]. apply (Hnary true); [done|done|]. by apply Nat.ltb_ge. }
  case_if.
  { case_if; [done|]. cbn [mbind option_bind]. apply (Hnary false); [done|done|]. by apply Nat.ltb_ge. }
  case_if.
  { destruct st as [|e st]; [done|]. apply Forall_cons in Hok as [He Hok]. cbn [mbind option_bind].
    cbn [weights] in Hw. pose proof (weights_nonneg st).
    assert (Hp : 0 ≤ paren_leng 0 e ∧ paren_leng 0 e ≤ weight e).
    { destruct He as [Hl Hlev]. unfold paren_leng, weight. rewrite Hl. repeat case_if; lia. }
    unfold es_write. cbn [length]. pose proof (length_paren 0 e He) as Hlp. unfold u8. rewrite !Z.mod_small by lia.
    rewrite (proj2 (Nat.ltb_ge _ _)) by lia. cbn [mbind option_bind].
    change (mk_expr_string 0 (Z.of_nat (S (length (paren 0 e)))) (c_tilde :: paren 0 e)) with (pr_neg e).
    apply IH; [constructor; [by split|done]|]. cbn [weights].
    unfold weight at 1. cbn [pr_neg pr_mk es_level es_str length]. change (0 =? 0) with true. cbn iota. lia. }
  cbn [mbind option_bind]. apply IH; [done|lia].
Qed.

(** *** It writes a text of the grammar *)

(** The product binds tighter than the sum. *)
Definition in_grammar (e : expr_string) (n : node) : Prop :=
  es_ok e ∧ ∃ t, same_meaning t n ∧ gS (es_str e) t
    ∧ (es_level e ≤ 1 → gM (es_str e) t) ∧ (es_level e ≤ 0 → gL (es_str e) t).

Lemma paren_gL e n : in_grammar e n → ∃ t, same_meaning t n ∧ gL (paren 0 e) t.
Proof.
  intros ([Hl Hlev] & t & Ht & HS & _ & HL). exists t. split; [done|]. unfold paren. rewrite es_bytes_ok by done.
  case_if; [by constructor|by apply HL].
Qed.

Lemma paren_gM e n : in_grammar e n → ∃ t, same_meaning t n ∧ gM (paren 1 e) t.
Proof.
  intros ([Hl Hlev] & t & Ht & HS & HM & HL). exists t. split; [done|]. unfold paren. rewrite es_bytes_ok by done.
  case_if; [by apply gM_one, gL_round|by apply HM].
Qed.

Lemma paren_gS e n : in_grammar e n → ∃ t, same_meaning t n ∧ gS (paren 2 e) t.
Proof.
  intros ([Hl Hlev] & t & Ht & HS & _). exists t. split; [done|]. unfold paren. rewrite es_bytes_ok by done.
  case_if; [lia|done].
Qed.

Lemma printed_in_grammar n : full n → in_grammar (val pr_sym pr_nary pr_neg n) n.
Proof.
  induction n as [|a IHa b IHb|a IHa b IHb|a IHa|a IHa| |v]; cbn [full val]; [done|..].
  - intros [Ha Hb]. destruct (paren_gS _ _ (IHa Ha)) as (ta & Hta & Hga). destruct (paren_gS _ _ (IHb Hb)) as (tb & Htb & Hgb).
    destruct (gS_app _ _ [c_bar] _ _ Hga or_one Hgb) as (t & Ht & Hm). split; [split; cbn; lia|].
    exists t. split; [by rewrite Hm, Hta, Htb|]. split; [exact Ht|]. cbn. split; lia.
  - intros [Ha Hb]. destruct (paren_gM _ _ (IHa Ha)) as (ta & Hta & Hga). destruct (paren_gM _ _ (IHb Hb)) as (tb & Htb & Hgb).
    destruct (gM_app_op _ _ [c_amp] _ _ Hga and_one Hgb) as (t & Ht & Hm). split; [split; cbn; lia|].
    exists t. split; [by rewrite Hm, Hta, Htb|]. split; [by apply gS_one|]. split; [by intros _|cbn; lia].
  - intros Ha. destruct (paren_gL _ _ (IHa Ha)) as (ta & Hta & Hga). split; [split; cbn; lia|].
    exists (NOT ta). split; [by rewrite Hta|]. assert (HL : gL (c_tilde :: paren 0 (val pr_sym pr_nary pr_neg a)) (NOT ta)) by by constructor.
    split; [by apply gS_one, gM_one|]. split; intros _; [by apply gM_one|done].
  - intros Ha. destruct (IHa Ha) as (Hok & t & Ht & HS). split; [done|]. exists t. split; [|done]. by rewrite Ht.
  - intros _. split; [split; cbn; lia|]. exists ANY. split; [done|].
    split; [apply gS_one, gM_one, gL_any|]. split; intros _; [apply gM_one|]; apply gL_any.
  - intros Hv. destruct (sym_facts v Hv) as (_ & _ & Hany & _ & Hval). unfold pr_sym.
    rewrite (proj2 (Z.eqb_neq _ _) Hany), Hval. split; [split; cbn; lia|].
    assert (HL : gL [65 + v] (SYM v)).
    { replace (SYM v) with (SYM (65 + v - 65)) by (f_equal; lia). constructor. unfold is_upper.
      by rewrite !(proj2 (Z.leb_le _ _)) by lia. }
    exists (SYM v). split; [done|]. split; [by apply gS_one, gM_one|]. split; intros _; [by apply gM_one|done].
Qed.

Lemma infix_code n r : full n → (length (code n) < SCLASS_EXPR_SIZE)%nat →
  ∃ t, rpn_to_infix (code n ++ 0 :: r) = Some (es_str (val pr_sym pr_nary pr_neg n))
    ∧ gS (es_str (val pr_sym pr_nary pr_neg n)) t ∧ same_meaning t n.
Proof.
  intros Hf Hlen. destruct (printed_in_grammar n Hf) as ([Hl Hlev] & t & Ht & HS & _). exists t. split; [|done].
  destruct (code_bytes pr_sym pr_nary pr_neg pr_merge n Hf) as [Hb Hne].
  assert (Hnz : Forall (λ x, x ≠ 0) (code n)) by (eapply Forall_impl; [exact Hb|]; by intros x [_ ?]).
  unfold rpn_to_infix. destruct (code n ++ 0 :: r) as [|x l] eqn:E; [by destruct (code n)|].
  assert (Hx : x ≠ 0). { destruct (code n); [done|]. cbn in E. injection E as <- _. by apply Forall_cons in Hnz as [? _]. }
  rewrite (proj2 (Z.eqb_neq _ _) Hx), <-E. rewrite infix_loop_run; [|done|done|].
  - rewrite (code_run _ _ _ pr_merge) by done. by rewrite es_bytes_ok.
  - unfold SCLASS_EXPR_SIZE, SCLASS_EXPR_MAX_SIZE in Hlen. cbn. lia.
Qed.
