(* ===== verification/LabelRound.v ===== *)
(** * Printing a class and parsing it again *)

From S2P Require Import Prelude MfsComm LabelParser LabelGrammar LabelFacts LabelCode LabelPrint.

(** ** The mask of letters *)

Lemma shiftl_1_testbit i k : 0 ≤ i → 0 ≤ k → Z.testbit (Z.shiftl 1 i) k = (k =? i).
Proof. intros. rewrite Z.shiftl_1_l, Z.pow2_bits_eqb by lia. apply Z.eqb_sym. Qed.

Lemma foldl_bits lo l : ∀ mask k, 0 ≤ lo → 0 ≤ k →
  Z.testbit (foldl (λ m i, Z.lor m (Z.shiftl 1 (lo + Z.of_nat i))) mask l) k =
  Z.testbit mask k || existsb (λ i, k =? lo + Z.of_nat i) l.
Proof.
  induction l as [|i l IH]; intros mask k Hlo Hk; cbn [foldl existsb]; [by rewrite orb_false_r|].
  rewrite IH, Z.lor_spec, shiftl_1_testbit by lia. by rewrite orb_assoc.
Qed.

Lemma set_bits_spec lo hi mask k : 0 ≤ lo → 0 ≤ k →
  Z.testbit (set_bits lo hi mask) k = Z.testbit mask k || ((lo <=? k) && (k <=? hi)).
Proof.
  intros Hlo Hk. unfold set_bits. rewrite foldl_bits by done. f_equal. apply eq_bool_prop_intro.
  rewrite !Is_true_true, existsb_exists, andb_true_iff, !Z.leb_le. split.
  - intros (i & [_ Hi]%in_seq & ->%Z.eqb_eq). lia.
  - intros [? ?]. exists (Z.to_nat (k - lo)). rewrite Z.eqb_eq. split; [|lia]. apply in_seq. lia.
Qed.

Lemma run_end_spec mask fuel : ∀ i, 0 ≤ i ≤ 26 → (26 - i < Z.of_nat fuel) →
  i ≤ run_end fuel mask i ≤ 26 ∧ ∀ k, i ≤ k < run_end fuel mask i → Z.testbit mask k = true.
Proof.
  induction fuel as [|fuel IH]; intros i Hi Hf; [cbn; split; [lia|lia]|]. cbn [run_end].
  destruct (Z.testbit mask i) eqn:Eb; cbn [andb]; [|split; [lia|lia]]. case_if; [|split; [lia|lia]].
  destruct (IH (i + 1)) as [H1 H2]; [lia|lia|]. split; [lia|]. intros k Hk.
  destruct (Z.eq_dec k i) as [->|]; [done|]. apply H2. lia.
Qed.

Lemma run_end_step mask fuel i : Z.testbit mask i = true → i < 26 → run_end (S fuel) mask i = run_end fuel mask (i + 1).
Proof. intros Hb Hi. cbn [run_end]. by rewrite Hb, (proj2 (Z.ltb_lt _ _) Hi). Qed.

(** What stops the loop over the letters. *)
Definition ends_mask (rest : list Z) : Prop := no_white rest ∧ is_letter (hd0 rest) = false ∧ hd0 rest ≠ c_minus.

Definition at_mask (str : list Z) (mask : Z) (e : expr) : expr := set_mask mask (set_str str e).

Lemma upper_of i : 0 ≤ i < 26 → is_upper (65 + i) = true ∧ 65 + i - 65 = i ∧ 65 + i ≠ 32 ∧ 65 + i ≠ 9.
Proof. intros. unfold is_upper. rewrite !(proj2 (Z.leb_le _ _)) by lia. split_and!; (done || lia). Qed.

Lemma eat_white_id e : no_white (e_str e) → eat_white e = e.
Proof. unfold eat_white, set_str. intros ->. by destruct e. Qed.

(** One round of the loop at a character that is no white space. *)
Lemma uniq_step fuel last range c s mask e : c ≠ 32 → c ≠ 9 →
  uniq_loop (S fuel) last range (at_mask (c :: s) mask e) =
  let go (current : Z) :=
    if range && negb (last =? 0xFF)
    then uniq_loop fuel 0xFF false (at_mask s (if current <? last then set_bits current last mask else set_bits last current mask) e)
    else uniq_loop fuel current range (at_mask s (Z.lor mask (Z.shiftl 1 current)) e) in
  if is_upper c then go (c - 65)
  else if is_lower c then go (c - 97)
  else if (c =? c_minus) && negb range && negb (last =? 0xFF) then uniq_loop fuel last true (at_mask s mask e)
  else Some (if range then set_error (at_mask (c :: s) mask e) else at_mask (c :: s) mask e).
Proof. intros H32 H9. cbn [uniq_loop]. by rewrite eat_white_id by by apply no_white_cons. Qed.

Lemma uniq_letter fuel last e i s mask : 0 ≤ i < 26 →
  uniq_loop (S fuel) last false (at_mask (65 + i :: s) mask e) =
  uniq_loop fuel i false (at_mask s (Z.lor mask (Z.shiftl 1 i)) e).
Proof.
  intros Hi. destruct (upper_of i Hi) as (Hu & Hsub & H32 & H9). rewrite uniq_step by done. cbv zeta. by rewrite Hu, Hsub.
Qed.

Lemma uniq_range fuel last e i j s mask : 0 ≤ i < 26 → i ≤ j < 26 →
  uniq_loop (S (S (S fuel))) last false (at_mask (65 + i :: c_minus :: 65 + j :: s) mask e) =
  uniq_loop fuel 0xFF false (at_mask s (set_bits i j (Z.lor mask (Z.shiftl 1 i))) e).
Proof.
  intros Hi Hj. rewrite uniq_letter by done. destruct (upper_of j ltac:(lia)) as (Hu & Hsub & H32 & H9).
  assert (Hff : (i =? 0xFF) = false) by (apply Z.eqb_neq; lia).
  rewrite uniq_step by done. cbv zeta. rewrite Hff. cbn [is_upper is_lower Z.leb Z.compare Pos.compare Pos.compare_cont andb negb Z.eqb Pos.eqb].
  rewrite uniq_step by done. cbv zeta. rewrite Hu, Hsub, Hff. cbn [andb negb]. by rewrite (proj2 (Z.ltb_ge j i)) by lia.
Qed.

Lemma uniq_end fuel last e rest mask : ends_mask rest →
  uniq_loop (S fuel) last false (at_mask rest mask e) = Some (at_mask rest mask e).
Proof.
  intros (Hw & Hl & Hm). cbn [uniq_loop]. rewrite eat_white_id by done. unfold is_letter in Hl. apply orb_false_elim in Hl as [Hl1 Hl2].
  cbn [at_mask set_mask set_str e_str]. by rewrite Hl1, Hl2, (proj2 (Z.eqb_neq _ _) Hm).
Qed.

Lemma print_mask_parsed m rest : ends_mask rest → ∀ fuel i, 0 ≤ i ≤ 26 → (26 - i ≤ Z.of_nat fuel) →
  ∀ f last e mask, (length (print_mask fuel m i) < f)%nat →
  ∃ mask', uniq_loop f last false (at_mask (print_mask fuel m i ++ rest) mask e) = Some (at_mask rest mask' e)
    ∧ ∀ k, 0 ≤ k → Z.testbit mask' k = Z.testbit mask k || ((i <=? k) && (k <? 26) && Z.testbit m k).
Proof.
  intros Hrest. induction fuel as [|fuel IH]; intros i Hi Hfuel f last e mask Hf.
  { cbn [print_mask app] in *. destruct f as [|f]; [cbn in Hf; lia|]. exists mask. split; [by apply uniq_end|].
    intros k Hk. destruct (Z.leb_spec i k), (Z.ltb_spec k 26); try lia; by rewrite orb_false_r. }
  cbn [print_mask] in *. destruct (Z.ltb_spec i 26) as [Hi26|Hi26].
  2: { cbn [app] in *. destruct f as [|f]; [cbn in Hf; lia|]. exists mask. split; [by apply uniq_end|].
       intros k Hk. destruct (Z.leb_spec i k), (Z.ltb_spec k 26); try lia; by rewrite orb_false_r. }
  destruct (Z.testbit m i) eqn:Eb.
  2: { destruct (IH (i + 1) ltac:(lia) ltac:(lia) f last e mask Hf) as (mask' & -> & Hm). exists mask'. split; [done|].
       intros k Hk. rewrite Hm by done. f_equal. destruct (Z.leb_spec (i + 1) k), (Z.leb_spec i k); try lia; try done.
       replace k with i by lia. by rewrite Eb, !andb_false_r. }
  destruct ((i <? 24) && (Z.land (Z.shiftr m i) 7 =? 7)).
  - destruct (run_end_spec m 26 (i + 1)) as [Hj Hbits]; [lia|lia|].
    change 27%nat with (S 26). rewrite run_end_step in Hf |- * by done. set (j := run_end 26 m (i + 1) - 1) in *.
    cbn [length] in Hf. do 3 (destruct f as [|f]; [lia|]). cbn [app]. rewrite uniq_range by lia.
    destruct (IH (j + 1) ltac:(lia) ltac:(lia) f 0xFF e (set_bits i j (Z.lor mask (Z.shiftl 1 i))) ltac:(lia)) as (mask' & -> & Hm).
    exists mask'. split; [done|]. intros k Hk. rewrite Hm, set_bits_spec, Z.lor_spec, shiftl_1_testbit by lia.
    destruct (Z.leb_spec (j + 1) k), (Z.leb_spec i k), (Z.leb_spec k j), (Z.ltb_spec k 26), (Z.eqb_spec k i); try lia; cbn;
      rewrite ?orb_false_r, ?orb_true_r; try done; (replace (Z.testbit m k) with true; [by rewrite ?orb_true_r|]);
      symmetry; first [by subst k | apply Hbits; lia].
  - cbn [app length] in *. destruct f as [|f]; [lia|]. rewrite uniq_letter by lia.
    destruct (IH (i + 1) ltac:(lia) ltac:(lia) f i e (Z.lor mask (Z.shiftl 1 i)) ltac:(lia)) as (mask' & -> & Hm).
    exists mask'. split; [done|]. intros k Hk. rewrite Hm, Z.lor_spec, shiftl_1_testbit by lia.
    destruct (Z.leb_spec (i + 1) k), (Z.leb_spec i k), (Z.eqb_spec k i); try lia; cbn; rewrite ?orb_false_r, ?orb_true_r; try done.
    subst k. rewrite Eb, (proj2 (Z.ltb_lt i 26)) by lia. by rewrite orb_true_r.
Qed.

(** ** The ending *)

Definition mask_ok (mask : Z) : Prop := 0 ≤ mask < 2 ^ 26 ∨ mask = UNIQ_MASK_IP ∨ mask = UNIQ_MASK_RACK.
Definition mode_ok (mode : Z) : Prop :=
  mode ∈ [LABELS_MODE_LOOSE; LABELS_MODE_STD; LABELS_MODE_STRICT; LABELS_MODE_GLOBAL].

Lemma testbit_above mask n k : 0 ≤ mask < 2 ^ n → 0 ≤ n ≤ k → Z.testbit mask k = false.
Proof. intros Hm Hk. rewrite <-(Z.mod_small mask (2 ^ n)) by done. apply Z.mod_pow2_bits_high. lia. Qed.

Lemma print_mode_ends mode : ends_mask (print_mode mode) ∧ ends_or (print_mode mode) ∧ is_sep (hd0 (print_mode mode)) = false.
Proof. unfold print_mode. repeat case_if; done. Qed.

Lemma small_mask_plain mask : 0 ≤ mask < 2 ^ 26 → Z.land mask UNIQ_MASK_IP = 0 ∧ Z.land mask UNIQ_MASK_RACK = 0.
Proof.
  intros Hm. assert (H : ∀ n, 26 ≤ n → Z.land mask (Z.shiftl 1 n) = 0).
  { intros n Hn. apply Z.bits_inj'. intros k Hk. rewrite Z.land_spec, Z.bits_0, shiftl_1_testbit by lia.
    destruct (Z.eqb_spec k n) as [->|]; [|apply andb_false_r]. by rewrite (testbit_above _ 26). }
  split; by apply H.
Qed.

(** The letters of a mask are read back. *)
Lemma letters_parsed mask mode e : 0 ≤ mask < 2 ^ 26 →
  expr_uniqmask (at_mask (print_mask 26 mask 0 ++ print_mode mode) 0 e) = Some (at_mask (print_mode mode) mask e).
Proof.
  intros Hm. destruct (print_mode_ends mode) as (Hends & _ & _).
  destruct (print_mask_parsed mask (print_mode mode) Hends 26 0 ltac:(lia) ltac:(lia)
    (S (length (print_mask 26 mask 0 ++ print_mode mode))) 0xFF e 0) as (mask' & Hu & Hb); [rewrite length_app; lia|].
  assert (mask' = mask) as ->.
  { apply Z.bits_inj'. intros k Hk. rewrite Hb, Z.bits_0 by done. destruct (Z.lt_ge_cases k 26) as [Hlt|Hge].
    - by rewrite (proj2 (Z.leb_le 0 k)), (proj2 (Z.ltb_lt k 26)) by lia.
    - rewrite (proj2 (Z.ltb_ge k 26)), andb_false_r by lia. by rewrite (testbit_above _ 26). }
  unfold expr_uniqmask. replace (hd0 (e_str (at_mask (print_mask 26 mask 0 ++ print_mode mode) 0 e)) =? c_lbra) with false; [done|].
  symmetry. apply Z.eqb_neq. cbn [at_mask set_mask set_str e_str]. clear.
  assert (H : ∀ fuel i, 0 ≤ i → hd0 (print_mask fuel mask i ++ print_mode mode) ≠ c_lbra).
  { assert (H0 : hd0 (print_mode mode) ≠ c_lbra) by (unfold print_mode; by repeat case_if).
    induction fuel as [|fuel IH]; intros i Hi; [done|]. cbn [print_mask]. case_if; [|done]. case_if; [|apply IH; lia].
    case_if; cbn; zbool; lia. }
  by apply H.
Qed.

(** What [expr_ending] does after the mask. *)
Definition after_mask (e : expr) : expr :=
  let e := if hd0 (e_str e) =? c_colon then expr_mode (set_str (tail (e_str e)) e) else e in
  match e_str e with [] => e | _ => set_error e end.

Lemma expr_ending_eq e : expr_ending e =
  (e ← (if hd0 (e_str e) =? c_slash then expr_uniqmask (set_str (tail (e_str e)) e) else Some e); Some (after_mask e)).
Proof.
  destruct (e_str e) eqn:E; [|unfold expr_ending; by rewrite E]. unfold expr_ending. rewrite E.
  change (hd0 [] =? c_slash) with false. cbn [mbind option_bind]. unfold after_mask. rewrite E.
  change (hd0 [] =? c_colon) with false. cbv zeta iota. by rewrite E.
Qed.

Lemma mode_parsed mode e : mode_ok mode → e_mode e = LABELS_MODE_GLOBAL →
  after_mask (set_str (print_mode mode) e) = set_mode mode (set_str [] e).
Proof.
  intros Hmode He. unfold mode_ok in Hmode. rewrite !elem_of_cons, elem_of_nil in Hmode.
  destruct Hmode as [->|[->|[->|[->|[]]]]]; try done.
  change (print_mode LABELS_MODE_GLOBAL) with (@nil Z). unfold set_mode. by rewrite <-He.
Qed.

Lemma ending_parsed mask mode e : mask_ok mask → mode_ok mode → e_uniqmask e = 0 → e_mode e = LABELS_MODE_GLOBAL →
  expr_ending (set_str (print_uniq mask ++ print_mode mode) e) = Some (set_mode mode (set_mask mask (set_str [] e))).
Proof.
  intros Hmask Hmode Hu He. rewrite expr_ending_eq.
  assert (Hs : ∀ s, e_str (set_str s e) = s) by done. rewrite !Hs. unfold print_uniq. destruct (Z.eqb_spec mask 0) as [E|E].
  { cbn [app]. replace (hd0 (print_mode mode) =? c_slash) with false by (unfold print_mode; by repeat case_if).
    cbn [mbind option_bind]. rewrite mode_parsed by done. f_equal. unfold set_mode, set_mask, set_str. cbn. congruence. }
  cbn [app tail]. rewrite hd0_cons, Z.eqb_refl.
  assert (Hset : ∀ s s', set_str s (set_str s' e) = at_mask s 0 e) by (intros s s'; unfold at_mask, set_str, set_mask; cbn; by rewrite <-Hu).
  rewrite Hset.
  assert (Hpm : expr_uniqmask (at_mask ((if negb (Z.land mask UNIQ_MASK_IP =? 0) then s_IP
      else if negb (Z.land mask UNIQ_MASK_RACK =? 0) then s_RACK else print_mask 26 mask 0) ++ print_mode mode) 0 e)
    = Some (at_mask (print_mode mode) mask e)).
  { destruct Hmask as [Hm|[->| ->]]; [|done|done]. destruct (small_mask_plain mask Hm) as [-> ->]. by apply letters_parsed. }
  rewrite Hpm. cbn [mbind option_bind]. f_equal. by apply (mode_parsed mode (set_mask mask e)).
Qed.

(** ** Expressions as the parser stores them *)

(** At most 127 labels and operations. *)
Definition printable (n : node) : Prop := full n ∧ (size n < SCLASS_EXPR_SIZE)%nat.

Definition padded (n : node) : list Z := code n ++ replicate (SCLASS_EXPR_SIZE - length (code n)) 0.

Lemma add_op_code_length op c : (length (add_op_code op c) ≤ S (length c))%nat.
Proof. unfold add_op_code. case_if; [rewrite exchg_length|rewrite length_app; cbn]; lia. Qed.

Lemma code_size n : (length (code n) ≤ size n)%nat.
Proof.
  induction n; cbn [code size]; try done; try (etrans; [apply add_op_code_length|]); rewrite ?length_app; cbn; lia.
Qed.

(** The code fits the array. *)
Definition fits (n : node) : Prop := full n ∧ (length (code n) < SCLASS_EXPR_SIZE)%nat.

Lemma printable_fits n : printable n → fits n.
Proof. intros [? ?]. split; [done|]. pose proof (code_size n). lia. Qed.

Lemma Forall_printable_fits ns : Forall printable ns → Forall fits ns.
Proof. intros H. eapply Forall_impl; [exact H|]. apply printable_fits. Qed.

Lemma padded_split n : fits n → ∃ r, padded n = code n ++ 0 :: r.
Proof.
  intros [_ Hs]. unfold padded.
  destruct (SCLASS_EXPR_SIZE - length (code n))%nat as [|k] eqn:E; [lia|]. by exists (replicate k 0).
Qed.

Lemma code_nonzero n : full n → Forall (λ x, x ≠ 0) (code n).
Proof.
  intros Hf. destruct (code_bytes pr_sym pr_nary pr_neg pr_merge n Hf) as [Hb _].
  eapply Forall_impl; [exact Hb|]. by intros x [_ ?].
Qed.

Lemma matches_padded labelmask n : fits n → labelmask_matches_labelexpr labelmask (padded n) = Some (Z.b2z (eval labelmask n)).
Proof. intros Hn. destruct (padded_split n Hn) as [r ->]. apply matches_code, Hn. Qed.

Lemma infix_padded n : fits n → ∃ text t, rpn_to_infix (padded n) = Some text ∧ gS text t ∧ same_meaning t n.
Proof.
  intros Hn. destruct (padded_split n Hn) as [r ->]. destruct Hn as [Hf Hs].
  destruct (infix_code n r Hf Hs) as (t & ? & ? & ?). by do 2 eexists.
Qed.

Lemma convert_length n : ∀ o o', expr_convert_to_rpn n o = Some o' → (length o' ≤ length o + size n)%nat.
Proof.
  assert (Hadd : ∀ d o, (length (expr_rpn_safe_add d o) ≤ length o + 1)%nat).
  { intros d o. unfold expr_rpn_safe_add. case_if; [rewrite length_app; cbn|]; lia. }
  assert (Hop : ∀ op o, (length (add_op op o) ≤ length o + 1)%nat).
  { intros op o. unfold add_op. case_if; [rewrite exchg_length; lia|apply Hadd]. }
  induction n as [|a IHa b IHb|a IHa b IHb|a IHa|a IHa| |v]; intros o o'; cbn [expr_convert_to_rpn size]; [done|..].
  - destruct (expr_convert_to_rpn a o) as [o1|] eqn:E1; [|done]. cbn [mbind option_bind].
    destruct (expr_convert_to_rpn b o1) as [o2|] eqn:E2; [|done]. intros [= <-].
    apply IHa in E1. apply IHb in E2. specialize (Hop SCLASS_EXPR_OP_OR o2). lia.
  - destruct (expr_convert_to_rpn a o) as [o1|] eqn:E1; [|done]. cbn [mbind option_bind].
    destruct (expr_convert_to_rpn b o1) as [o2|] eqn:E2; [|done]. intros [= <-].
    apply IHa in E1. apply IHb in E2. specialize (Hop SCLASS_EXPR_OP_AND o2). lia.
  - destruct (expr_convert_to_rpn a o) as [o1|] eqn:E1; [|done]. intros [= <-].
    apply IHa in E1. specialize (Hadd SCLASS_EXPR_OP_NOT o1). lia.
  - apply IHa.
  - intros [= <-]. specialize (Hadd SCLASS_EXPR_SYMBOL_ANY o). lia.
  - intros [= <-]. specialize (Hadd (Z.lor SCLASS_EXPR_SYMBOL v) o). lia.
Qed.

Lemma convert_printable ts : Forall printable ts → convert_terms ts = Some (Some (padded <$> ts)).
Proof.
  induction 1 as [|n ts [Hf Hs] _ IH]; [done|]. cbn [convert_terms].
  destruct (convert_spec n Hf []) as (o' & Ho & _ & Hc); [cbn; lia|]. pose proof (convert_length n [] o' Ho) as Hl. cbn [length] in Hl.
  rewrite Ho. cbn [mbind option_bind]. rewrite (proj2 (Nat.eqb_neq _ _)) by lia. rewrite IH. cbn [mbind option_bind].
  rewrite Hc by lia. done.
Qed.

(** *** Counting the equal ones *)

Lemma diff_terminated c1 c2 r1 r2 : Forall (λ x, x ≠ 0) c1 → Forall (λ x, x ≠ 0) c2 →
  labelexpr_diff (c1 ++ 0 :: r1) (c2 ++ 0 :: r2) = Some (bool_decide (c1 = c2)).
Proof.
  intros H1. revert c2. induction H1 as [|x c1 Hx _ IH]; intros c2 [|y c2' Hy H2]; cbn [app labelexpr_diff]; rewrite ?Z.eqb_refl.
  - by rewrite bool_decide_true.
  - by rewrite (proj2 (Z.eqb_neq _ _) Hy).
  - by rewrite (proj2 (Z.eqb_neq _ _) Hx).
  - rewrite (proj2 (Z.eqb_neq _ _) Hx), (proj2 (Z.eqb_neq _ _) Hy). cbn [orb]. destruct (Z.eqb_spec x y) as [->|Hne]; cbn [negb].
    + rewrite IH by done. f_equal. apply bool_decide_ext. split; [by intros ->|by intros [= ->]].
    + rewrite bool_decide_false; [done|]. congruence.
Qed.

Lemma diff_padded n1 n2 : fits n1 → fits n2 →
  labelexpr_diff (padded n1) (padded n2) = Some (bool_decide (code n1 = code n2)).
Proof.
  intros H1 H2. destruct (padded_split n1 H1) as [r1 ->]. destruct (padded_split n2 H2) as [r2 ->].
  apply diff_terminated; by apply code_nonzero, H1 || apply code_nonzero, H2.
Qed.

(** [t] has the meaning of [n], and fits. *)
Definition stands_for (t n : node) : Prop := printable t ∧ ∀ labelmask, eval labelmask t = eval labelmask n.

Lemma same_code_eval n1 n2 : full n1 → full n2 → code n1 = code n2 → ∀ labelmask, eval labelmask n1 = eval labelmask n2.
Proof.
  intros H1 H2 Hc m. pose proof (matches_code m n1 [] H1) as E1. pose proof (matches_code m n2 [] H2) as E2.
  rewrite Hc, E2 in E1. injection E1 as E1. by destruct (eval m n1), (eval m n2).
Qed.

Lemma count_same_padded n ns : fits n → Forall fits ns →
  ∃ same rest, ns = same ++ rest ∧ Forall (λ m, code m = code n) same
    ∧ count_same (padded n) (padded <$> ns) = Some (length same, padded <$> rest).
Proof.
  intros Hn. induction 1 as [|m ns Hm Hns (same & rest & -> & Hsame & IH)]; [by exists [], []|].
  cbn [fmap list_fmap count_same]. rewrite diff_padded by done. cbn [mbind option_bind]. case_bool_decide as Hc.
  - exists (m :: same), rest. split; [done|]. split; [by constructor|]. by rewrite IH.
  - by exists [], (m :: same ++ rest).
Qed.

(** ** The copies *)

(** A text that is not a dash alone. *)
Definition begins_well (s : list Z) : Prop :=
  ∃ c s', s = c :: s' ∧ (sym_start c = true ∨ is_digit19 c = true)
    ∧ (is_not_char c = true → s' ≠ [] ∧ expr_eat_white s' ≠ []).

Lemma begins_well_app s s' : begins_well s → begins_well (s ++ s').
Proof.
  intros (c & r & -> & Hc & Hn). exists c, (r ++ s'). split_and!; [done|done|]. intros [Hr Hw]%Hn.
  split; [by destruct r|]. clear Hn Hr. revert Hw. induction r as [|x r IH]; [done|]. cbn [app expr_eat_white]. by case_if.
Qed.

Lemma sym_start_begins c s : sym_start c = true → is_not_char c = false → begins_well (c :: s).
Proof. intros. exists c, s. split_and!; [done|by left|congruence]. Qed.

Lemma gL_begins s n : gL s n → begins_well s.
Proof.
  intros H. destruct (gL_head s n H) as (c & s' & -> & Hc). exists c, s'. split_and!; [done|by left|]. intros Hn.
  inversion H as [? Hu|? Hu| |? s2 n2 ? Hl|? ? ? |? ? ?]; subst; try done.
  - apply upper_facts in Hu as (_ & _ & _ & ?). congruence.
  - apply lower_facts in Hu as (_ & _ & _ & ? & _). congruence.
  - destruct (gL_head _ _ Hl) as (c' & s'' & -> & Hc'%sym_start_facts). split; [done|]. rewrite no_white_cons by naive_solver. done.
Qed.

Lemma gS_begins s n : gS s n → begins_well s.
Proof.
  assert (HM : ∀ s n, gM s n → begins_well s).
  { induction 1; [by eapply gL_begins|by apply begins_well_app..]. }
  induction 1; [by eapply HM|by apply begins_well_app].
Qed.

Lemma digit_not_white c : is_digit19 c = true → c ≠ 32 ∧ c ≠ 9 ∧ sym_start c = false ∧ c ≠ 0.
Proof.
  unfold is_digit19. intros H. zbool. split_and!; try lia. unfold sym_start, starts_sym, is_letter, is_upper, is_lower, is_not_char.
  rewrite !(proj2 (Z.eqb_neq _ _)) by lia. by rewrite (proj2 (Z.leb_gt 65 c)), (proj2 (Z.leb_gt 97 c)) by lia.
Qed.

Lemma sym_start_no_digit c : sym_start c = true → is_digit19 c = false.
Proof. destruct (is_digit19 c) eqn:E; [|done]. intros H. apply digit_not_white in E as (_ & _ & ? & _). congruence. Qed.

(** What may follow the last copy. *)
Definition ends_copies (T : list Z) : Prop := ends_or T ∧ is_sep (hd0 T) = false.

Lemma uniq_mode_ends mask mode : ends_copies (print_uniq mask ++ print_mode mode).
Proof.
  destruct (print_mode_ends mode) as (_ & H1 & H2). unfold print_uniq. case_if; [done|].
  cbn [app]. split; [|done]. split; [split; [by apply no_white_cons|done]|done].
Qed.

Lemma comma_ends s : ends_or (c_comma :: s).
Proof. split; [split; [by apply no_white_cons|done]|done]. Qed.

(** An expression at the current place. *)
Lemma at_expr_parsed text n rest e : gS text n → ends_or rest → e_error e = false →
  ∃ t, at_expr (set_str (text ++ rest) e) = Some (t, set_str rest e) ∧ same_meaning t n ∧ full t.
Proof.
  intros Hg Hr He. destruct (parse_or_complete text n rest Hg Hr) as (t & Hp & Hm). exists t.
  destruct (parse_or_ends (text ++ rest) false) as (r & Hr' & Hok). rewrite Hp in Hr'. injection Hr' as <-. destruct Hok as [_ Hok].
  split; [|split; [done|by apply Hok]]. unfold at_expr. cbn [e_str e_error set_str]. rewrite He, Hp. cbn [mbind option_bind].
  unfold set_str. cbn. by rewrite He.
Qed.

Lemma copy_parsed fuel i (c : nat) text n rest e : (c ≤ 8)%nat → 0 ≤ i → i + Z.of_nat (S c) ≤ 9 →
  gS text n → ends_or rest → e_error e = false →
  ∃ t, same_meaning t n ∧ full t ∧
    copies_loop (S fuel) i (set_str (((if (0 <? c)%nat then [48 + Z.of_nat (S c)] else []) ++ text) ++ rest) e) =
    (let e := add_terms (t :: replicate c (REF t)) (set_str rest e) in
     if is_sep (hd0 rest) then copies_loop fuel (i + Z.of_nat (S c)) (set_str (tail rest) e) else expr_ending e).
Proof.
  intros Hc Hi Hle Hg Hr He. destruct (at_expr_parsed text n rest e Hg Hr He) as (t & Ht & Hm & Hf).
  exists t. split; [done|]. split; [done|]. cbn [copies_loop]. rewrite (proj2 (Z.ltb_lt i 9)) by lia.
  destruct (gS_head text n Hg) as (h & text' & Htext & Hh). pose proof (sym_start_facts h Hh) as Hhf.
  assert (Hstop : ∀ e', e_str e' = rest → (match rest with [] => Some e' | _ => expr_ending e' end) = expr_ending e').
  { intros e' <-. unfold expr_ending. by destruct (e_str e'). }
  assert (Hwt : no_white (text ++ rest)) by (by eapply gS_no_white).
  assert (Hwr : eat_white (set_str rest e) = set_str rest e) by (apply eat_white_id, Hr).
  assert (Hht : hd0 (text ++ rest) = h) by (by rewrite Htext).
  assert (Hfin : (if 9 <? i + Z.of_nat (S c) then Some (set_error (set_str rest e))
    else let e0 := add_terms (t :: replicate (Z.to_nat (Z.of_nat (S c) - 1)) (REF t)) (set_str rest e) in
      if is_sep (hd0 (e_str e0)) then copies_loop fuel (i + Z.of_nat (S c)) (set_str (tail (e_str e0)) e0)
      else match e_str e0 with [] => Some e0 | _ => expr_ending e0 end) =
    (let e := add_terms (t :: replicate c (REF t)) (set_str rest e) in
     if is_sep (hd0 rest) then copies_loop fuel (i + Z.of_nat (S c)) (set_str (tail rest) e) else expr_ending e)).
  { rewrite (proj2 (Z.ltb_ge 9 _)) by lia. replace (Z.to_nat (Z.of_nat (S c) - 1)) with c by lia. cbv zeta.
    cbn [e_str add_terms set_str]. case_if; [done|]. by apply Hstop. }
  destruct (Nat.ltb_spec 0 c) as [Hc0|Hc0].
  - cbn [app]. assert (Hd : is_digit19 (48 + Z.of_nat (S c)) = true) by (apply andb_true_iff; rewrite !Z.leb_le; lia).
    destruct (digit_not_white _ Hd) as (H32 & H9 & _ & _).
    rewrite eat_white_id by by apply no_white_cons. cbn [e_str set_str]. rewrite hd0_cons, Hd. cbn [tail].
    change (set_str (text ++ rest) (set_str (48 + Z.of_nat (S c) :: text ++ rest) e)) with (set_str (text ++ rest) e).
    rewrite eat_white_id by done. cbn [e_str set_str]. rewrite Hht.
    replace ((h =? 0) || (h =? c_slash)) with false.
    2: { symmetry. apply orb_false_iff. split; apply Z.eqb_neq; [naive_solver|]. by intros ->. }
    rewrite andb_false_r, Ht. cbn [mbind option_bind]. rewrite Hwr. cbn [e_error set_str]. rewrite He.
    replace (48 + Z.of_nat (S c) - 48) with (Z.of_nat (S c)) by lia. apply Hfin.
  - assert (c = O) as -> by lia. cbn [app]. rewrite eat_white_id by done. cbn [e_str set_str]. rewrite Hht, (sym_start_no_digit h Hh).
    rewrite eat_white_id by done. rewrite andb_false_r. cbn [andb]. rewrite Ht. cbn [mbind option_bind]. rewrite Hwr.
    cbn [e_error set_str]. rewrite He. apply Hfin.
Qed.

Lemma copies_stand t n same : printable n → Forall printable same → Forall (λ m, code m = code n) same →
  same_meaning t n → full t → Forall2 stands_for (t :: replicate (length same) (REF t)) (n :: same).
Proof.
  intros [Hn Hsz] Hp Hc [Hev Hs] Hf. constructor; [split; [split; [done|lia]|done]|].
  induction Hc as [|m same Hm _ IH]; [constructor|]. apply Forall_cons in Hp as [[Hpm ?] Hp]. cbn [length replicate]. constructor; [|by apply IH].
  split; [split; [done|cbn; lia]|]. intros mask. cbn [eval]. rewrite Hev. by apply same_code_eval.
Qed.

Lemma digits_begin (c : nat) text n : (c ≤ 8)%nat → gS text n →
  begins_well ((if (0 <? c)%nat then [48 + Z.of_nat (S c)] else []) ++ text).
Proof.
  intros Hc Hg. case_if; [|by eapply gS_begins]. exists (48 + Z.of_nat (S c)), text. split; [done|].
  assert (Hd : is_digit19 (48 + Z.of_nat (S c)) = true) by (apply andb_true_iff; rewrite !Z.leb_le; lia).
  split; [by right|]. apply digit_not_white in Hd as (_ & _ & Hs & _). unfold sym_start in Hs.
  apply orb_false_iff in Hs as [[_ Hs]%orb_false_iff _]. congruence.
Qed.

Lemma copies_parsed T : ends_copies T → ∀ k ns, (length ns ≤ k)%nat → ns ≠ [] → Forall printable ns → (length ns ≤ 9)%nat →
  ∃ s, begins_well s
    ∧ (∀ first, print_terms k first (padded <$> ns) = Some ((if first then [] else [c_comma]) ++ s))
    ∧ ∀ fuel i e, (length ns ≤ fuel)%nat → 0 ≤ i → i + Z.of_nat (length ns) ≤ 9 → e_error e = false →
      ∃ ts, Forall2 stands_for ts ns
        ∧ copies_loop fuel i (set_str (s ++ T) e) = expr_ending (add_terms ts (set_str T e)).
Proof.
  intros [HTo HTs]. induction k as [|k IH]; intros ns Hk Hne Hp H9; [by destruct ns; [|cbn in Hk; lia]|].
  destruct ns as [|n ns]; [done|]. apply Forall_cons in Hp as [Hn Hp].
  destruct (count_same_padded n ns (printable_fits n Hn) (Forall_printable_fits _ Hp)) as (same & rest & -> & Hc & Hcount). apply Forall_app in Hp as [Hps Hpr].
  destruct (infix_padded n (printable_fits n Hn)) as (text & t & Hinf & Hg & Hm).
  cbn [length] in *. rewrite length_app in *.
  set (group := (if (0 <? length same)%nat then [48 + Z.of_nat (S (length same))] else []) ++ text).
  assert (Hgroup : begins_well group) by (eapply digits_begin; [lia|done]).
  assert (Hst : ∀ t', same_meaning t' t → full t' → Forall2 stands_for (t' :: replicate (length same) (REF t')) (n :: same)).
  { intros t' Hm' Hf'. apply copies_stand; try done. by rewrite Hm'. }
  destruct (decide (rest = [])) as [->|Hrest].
  - exists group. split; [done|]. split.
    { intros first. cbn [fmap list_fmap print_terms]. rewrite Hcount. cbn [mbind option_bind]. rewrite Hinf. cbn [mbind option_bind fmap list_fmap].
      destruct k; cbn [print_terms mbind option_bind]; by rewrite app_nil_r. }
    intros [|fuel] i e Hfu Hi Hle He; [lia|]. rewrite (right_id_L [] (++)) in *.
    destruct (copy_parsed fuel i (length same) text t T e) as (t' & Hm' & Hf' & Heq); [lia|lia|lia|done|done|done|].
    exists (t' :: replicate (length same) (REF t')). split; [by apply Hst|]. subst group. rewrite Heq. cbv zeta. by rewrite HTs.
  - destruct (IH rest) as (s' & Hs' & Hprint & Hparse); [lia|done|done|lia|].
    exists (group ++ c_comma :: s'). split; [by apply begins_well_app|]. split.
    { intros first. cbn [fmap list_fmap print_terms]. rewrite Hcount. cbn [mbind option_bind]. rewrite Hinf. cbn [mbind option_bind].
      rewrite Hprint. cbn [mbind option_bind]. subst group. by rewrite <-!(assoc_L (++)). }
    intros [|fuel] i e Hfu Hi Hle He; [lia|].
    destruct (copy_parsed fuel i (length same) text t (c_comma :: s' ++ T) e) as (t' & Hm' & Hf' & Heq);
      [lia|lia|lia|done|by apply comma_ends|done|].
    destruct (Hparse fuel (i + Z.of_nat (S (length same)))
      (add_terms (t' :: replicate (length same) (REF t')) (set_str (c_comma :: s' ++ T) e))) as (ts & Hts & Hcl); [lia|lia|lia|done|].
    exists ((t' :: replicate (length same) (REF t')) ++ ts). split; [change (n :: same ++ rest) with ((n :: same) ++ rest); apply Forall2_app; [by apply Hst|done]|].
    rewrite <-(assoc_L (++)). cbn [app]. subst group. rewrite Heq. cbv zeta. rewrite hd0_cons. cbn [tail].
    change (is_sep c_comma) with true. cbn iota. rewrite Hcl. f_equal. unfold add_terms, set_str. cbn. by rewrite <-(assoc_L (++)).
Qed.

(** ** Two parts with parity: one or two expressions *)

Definition ec_ok (ec : Z) : Prop :=
  ec ∈ (Z.of_nat <$> seq 1 9) ++ (Z.of_nat <$> seq 65 9) ++ (Z.of_nat <$> seq 129 9).

Lemma ec_zero : ¬ ec_ok 0.
Proof. unfold ec_ok. apply (bool_decide_eq_false_1 (0 ∈ _)). by vm_compute. Qed.

Lemma ec_header ec s : ec_ok ec →
  expr_top (mk_expr (print_ec ec ++ c_comma :: s) 0 LABELS_MODE_GLOBAL [] false 0) =
  ec_terms (mk_expr (c_comma :: s) 0 LABELS_MODE_GLOBAL [] false ec).
Proof.
  intros Hec. assert (H : Forall (λ ec, expr_top (mk_expr (print_ec ec ++ c_comma :: s) 0 LABELS_MODE_GLOBAL [] false 0) =
    ec_terms (mk_expr (c_comma :: s) 0 LABELS_MODE_GLOBAL [] false ec))
    ((Z.of_nat <$> seq 1 9) ++ (Z.of_nat <$> seq 65 9) ++ (Z.of_nat <$> seq 129 9))); [|by eapply Forall_forall in H].
  repeat constructor.
Qed.

(** The classes the printer and the parser agree on. *)
Definition ec_exprs (ns : list node) : Prop :=
  (∃ n, ns = [n]) ∨ (∃ n1 n2, ns = [n1; n2] ∧ code n1 ≠ code n2).

Lemma ec_parsed T ns : ends_copies T → ec_exprs ns → Forall printable ns →
  ∃ s, print_terms (length ns) false (padded <$> ns) = Some (c_comma :: s)
    ∧ ∀ e, e_error e = false → ∃ ts, Forall2 stands_for ts ns
      ∧ ec_terms (set_str (c_comma :: s ++ T) e) = expr_ending (add_terms ts (set_str T e)).
Proof.
  intros [HTo HTs] Hns Hp.
  assert (Hstand : ∀ n t t', printable n → same_meaning t n → same_meaning t' t → full t' → stands_for t' n).
  { intros n t t' [Hf Hs] [Hev Hsz] [Hev' Hsz'] Hf'. split; [split; [done|lia]|]. intros m. by rewrite Hev', Hev. }
  assert (HTw : no_white T) by apply HTo.
  assert (Hone : ∀ text t rest e, gS text t → ends_or rest → e_error e = false →
    ∃ t', at_expr (eat_white (set_str (text ++ rest) e)) = Some (t', set_str rest e) ∧ same_meaning t' t ∧ full t').
  { intros text t rest e Hg Hr He. rewrite eat_white_id by by eapply gS_no_white. by apply at_expr_parsed. }
  assert (Hadd : ∀ a s e, no_white s → eat_white (add_terms [a] (set_str s e)) = add_terms [a] (set_str s e)).
  { intros. by apply eat_white_id. }
  assert (Hstr : ∀ s e, e_str (set_str s e) = s) by done.
  assert (Hset : ∀ s s' e, set_str s (set_str s' e) = set_str s e) by done.
  destruct Hns as [(n & ->)|(n1 & n2 & -> & Hne)].
  - apply Forall_cons in Hp as [Hp _]. destruct (infix_padded n (printable_fits n Hp)) as (text & t & Hinf & Hg & Hm).
    exists text. split; [by cbn; rewrite Hinf; cbn; rewrite app_nil_r|]. intros e He.
    destruct (Hone text t T e Hg HTo He) as (t' & Ht' & Hm' & Hf').
    exists [t']. split; [constructor; [by eapply Hstand|constructor]|]. unfold ec_terms. rewrite Hstr, hd0_cons.
    change (is_sep c_comma) with true. cbn iota. cbn [tail]. rewrite Hset, Ht'. cbn [mbind option_bind]. rewrite Hadd by done.
    change (e_str (add_terms [t'] (set_str T e))) with T. by rewrite HTs.
  - apply Forall_cons in Hp as [Hp1 Hp2]. apply Forall_cons in Hp2 as [Hp2 _].
    destruct (infix_padded n1 (printable_fits n1 Hp1)) as (text1 & t1 & Hinf1 & Hg1 & Hm1). destruct (infix_padded n2 (printable_fits n2 Hp2)) as (text2 & t2 & Hinf2 & Hg2 & Hm2).
    exists (text1 ++ c_comma :: text2). split.
    { cbn [fmap list_fmap print_terms length count_same]. rewrite diff_padded, bool_decide_false by (done || by apply printable_fits). cbn [mbind option_bind].
      rewrite Hinf1. cbn [mbind option_bind print_terms count_same]. rewrite Hinf2. cbn. by rewrite app_nil_r. }
    intros e He. destruct (Hone text1 t1 (c_comma :: text2 ++ T) e Hg1) as (t1' & Ht1 & Hm1' & Hf1); [by apply comma_ends|done|].
    destruct (Hone text2 t2 T (add_terms [t1'] e) Hg2 HTo He) as (t2' & Ht2 & Hm2' & Hf2).
    exists [t1'; t2']. split; [constructor; [by eapply Hstand|constructor; [by eapply Hstand|constructor]]|]. unfold ec_terms. rewrite Hstr, hd0_cons.
    change (is_sep c_comma) with true. cbn iota. cbn [tail]. rewrite <-(assoc_L (++)). cbn [app].
    rewrite Hset, Ht1. cbn [mbind option_bind]. rewrite Hadd by by apply no_white_cons.
    change (e_str (add_terms [t1'] (set_str (c_comma :: text2 ++ T) e))) with (c_comma :: text2 ++ T). rewrite hd0_cons.
    change (is_sep c_comma) with true. cbn iota. cbn [tail].
    change (set_str (text2 ++ T) (add_terms [t1'] (set_str (c_comma :: text2 ++ T) e))) with (set_str (text2 ++ T) (add_terms [t1'] e)).
    rewrite Ht2. cbn [mbind option_bind]. change (set_str T (add_terms [t1'] e)) with (add_terms [t1'] (set_str T e)).
    rewrite eat_white_id by done. unfold add_terms, set_str. cbn. by rewrite <-(assoc_L (++)).
Qed.

(** ** The whole class *)

Record printable_class (pd : parser_data) (ns : list node) : Prop := {
  pc_labels : pd_labelexpr pd = padded <$> ns;
  pc_printable : Forall printable ns;
  pc_mask : mask_ok (pd_uniqmask pd);
  pc_mode : mode_ok (pd_labels_mode pd);
  pc_shape : pd_ec_data_chksum_parts pd = 0 ∧ (1 ≤ length ns ≤ 9)%nat ∨ ec_ok (pd_ec_data_chksum_parts pd) ∧ ec_exprs ns }.

(** The same labels required, copy for copy. *)
Definition same_labels (l l' : list (list Z)) : Prop :=
  Forall2 (λ e e', ∀ labelmask, labelmask_matches_labelexpr labelmask e = labelmask_matches_labelexpr labelmask e') l l'.

Lemma stands_labels ts ns : Forall printable ns → Forall2 stands_for ts ns → same_labels (padded <$> ts) (padded <$> ns).
Proof.
  intros Hp H. induction H as [|t n ts ns [Ht He] _ IH]; [constructor|]. apply Forall_cons in Hp as [Hn Hp].
  cbn [fmap list_fmap]. constructor; [|by apply IH]. intros m. rewrite !matches_padded by (by apply printable_fits). by rewrite He.
Qed.

Lemma stands_printable ts ns : Forall2 stands_for ts ns → Forall printable ts.
Proof. induction 1 as [|t n ts ns [Ht _] _ IH]; by constructor. Qed.

(** The parser on a text whose terms are read. *)
Lemma parse_from_top str ts ns mask mode ec : Forall2 stands_for ts ns →
  (match str with [] => False | c :: rest => rest = [] → ((c =? c_minus) || (c =? c_tilde)) = false end) →
  expr_top (mk_expr str 0 LABELS_MODE_GLOBAL [] false 0) = Some (mk_expr [] mask mode ts false ec) →
  parse_label_expr str = Some (0, mk_pd mask mode ec (padded <$> ts)).
Proof.
  intros Hts Hstr Htop. destruct str as [|c rest]; [done|]. unfold parse_label_expr. rewrite Htop.
  cbn [mbind option_bind e_error e_terms]. rewrite convert_printable by by eapply stands_printable. cbn [mbind option_bind].
  case_bool_decide as Hr; [|done]. rewrite (Hstr Hr). done.
Qed.

Lemma roundtrip_copies pd ns : printable_class pd ns → pd_ec_data_chksum_parts pd = 0 → (1 ≤ length ns ≤ 9)%nat →
  ∃ s ts, make_label_expr pd = Some s ∧ Forall2 stands_for ts ns
    ∧ parse_label_expr s = Some (0, mk_pd (pd_uniqmask pd) (pd_labels_mode pd) 0 (padded <$> ts)).
Proof.
  intros [Hl Hp Hm Ho _] Hec Hlen. assert (Hne : ns ≠ []) by (destruct ns; [cbn in Hlen; lia|done]).
  destruct (copies_parsed _ (uniq_mode_ends (pd_uniqmask pd) (pd_labels_mode pd)) (length ns) ns) as (s & Hs & Hprint & Hparse); [done|done|done|lia|].
  set (T := print_uniq (pd_uniqmask pd) ++ print_mode (pd_labels_mode pd)) in *.
  destruct (Hparse 10%nat 0 (mk_expr (s ++ T) 0 LABELS_MODE_GLOBAL [] false 0)) as (ts & Hts & Hcl); [lia|lia|lia|done|].
  exists (s ++ T), ts. split; [|split; [done|]].
  { unfold make_label_expr. rewrite Hec, Hl, length_fmap. change (0 =? 0) with true. rewrite (Hprint true). rewrite bool_decide_false by by destruct ns. done. }
  apply (begins_well_app s T) in Hs. destruct Hs as (c & s' & Hst & Hc & Hn).
  apply (parse_from_top _ ts ns); [done| |].
  - rewrite Hst. intros ->. apply orb_false_iff. split; apply Z.eqb_neq; intros ->; by destruct (Hn eq_refl).
  - unfold expr_top. rewrite eat_white_id.
    2: { cbn [e_str]. rewrite Hst. destruct Hc as [Hc%sym_start_facts|Hc%digit_not_white]; apply no_white_cons; naive_solver. }
    cbv zeta. cbn [e_str].
    replace ((hd0 (s ++ T) =? c_minus) && bool_decide (expr_eat_white (tail (s ++ T)) = [])) with false.
    2: { symmetry. rewrite Hst, hd0_cons. cbn [tail]. destruct (Z.eqb_spec c c_minus) as [->|]; [|done].
         cbn [andb]. apply bool_decide_false. by apply Hn. }
    replace ((hd0 (s ++ T) =? c_at) || (hd0 (s ++ T) =? c_equal)) with false.
    2: { symmetry. rewrite Hst, hd0_cons. apply orb_false_iff. split; apply Z.eqb_neq; intros ->; by destruct Hc. }
    change (set_ec 0 _) with (set_str (s ++ T) (mk_expr (s ++ T) 0 LABELS_MODE_GLOBAL [] false 0)).
    rewrite Hcl. unfold T. change (add_terms ts (set_str ?t ?e)) with (set_str t (add_terms ts e)). by rewrite ending_parsed.
Qed.

Lemma roundtrip_ec pd ns : printable_class pd ns → ec_ok (pd_ec_data_chksum_parts pd) → ec_exprs ns →
  ∃ s ts, make_label_expr pd = Some s ∧ Forall2 stands_for ts ns
    ∧ parse_label_expr s = Some (0, mk_pd (pd_uniqmask pd) (pd_labels_mode pd) (pd_ec_data_chksum_parts pd) (padded <$> ts)).
Proof.
  intros [Hl Hp Hm Ho _] Hec Hns. set (ec := pd_ec_data_chksum_parts pd) in *.
  destruct (ec_parsed _ ns (uniq_mode_ends (pd_uniqmask pd) (pd_labels_mode pd)) Hns Hp) as (s & Hprint & Hparse).
  set (T := print_uniq (pd_uniqmask pd) ++ print_mode (pd_labels_mode pd)) in *.
  destruct (Hparse (mk_expr (c_comma :: s ++ T) 0 LABELS_MODE_GLOBAL [] false ec)) as (ts & Hts & Het); [done|].
  assert (Hec0 : (ec =? 0) = false) by (apply Z.eqb_neq; intros H0; rewrite H0 in Hec; by apply ec_zero in Hec).
  exists (print_ec ec ++ (c_comma :: s) ++ T), ts. split; [|split; [done|]].
  { unfold make_label_expr. fold ec. rewrite Hec0, Hl, length_fmap, Hprint. done. }
  apply (parse_from_top _ ts ns); [done|by unfold print_ec|].
  change ((c_comma :: s) ++ T) with (c_comma :: s ++ T). rewrite ec_header by done. change (mk_expr (c_comma :: s ++ T) 0 LABELS_MODE_GLOBAL [] false ec)
    with (set_str (c_comma :: s ++ T) (mk_expr (c_comma :: s ++ T) 0 LABELS_MODE_GLOBAL [] false ec)).
  rewrite Het. unfold T. change (add_terms ts (set_str ?t ?e)) with (set_str t (add_terms ts e)). by rewrite ending_parsed.
Qed.

Lemma class_roundtrip pd ns : printable_class pd ns →
  ∃ s labels, make_label_expr pd = Some s
    ∧ parse_label_expr s = Some (0, mk_pd (pd_uniqmask pd) (pd_labels_mode pd) (pd_ec_data_chksum_parts pd) labels)
    ∧ same_labels labels (pd_labelexpr pd).
Proof.
  intros H. destruct (pc_shape _ _ H) as [[Hec Hlen]|[Hec Hns]].
  - destruct (roundtrip_copies pd ns H Hec Hlen) as (s & ts & Hs & Hts & Hp). exists s, (padded <$> ts).
    rewrite Hec. split_and!; [done|done|]. rewrite (pc_labels _ _ H). by apply stands_labels; [apply H|].
  - destruct (roundtrip_ec pd ns H Hec Hns) as (s & ts & Hs & Hts & Hp). exists s, (padded <$> ts).
    split_and!; [done|done|]. rewrite (pc_labels _ _ H). by apply stands_labels; [apply H|].
Qed.
