(* ===== verification/LabelEnds.v ===== *)
(** * Every text of a class is answered, but for one reading beyond the end *)

From S2P Require Import Prelude MfsComm LabelParser LabelGrammar LabelFacts LabelCode LabelPrint LabelRound.

(** ** What is left of the text is its end *)

Lemma suffix_white str : expr_eat_white str `suffix_of` str.
Proof. induction str as [|c str IH]; [done|]. cbn. case_if; [by apply suffix_cons_r|done]. Qed.

Lemma suffix_tail (str : list Z) : tail str `suffix_of` str.
Proof. destruct str; [done|]. by apply suffix_cons_r. Qed.

Lemma suffix_drop k (str : list Z) : drop k str `suffix_of` str.
Proof. exists (take k str). by rewrite take_drop. Qed.

Lemma expr_suffix fuel : ∀ str err r,
  (expr_sym fuel str err = Some r → r.1.2 `suffix_of` str)
  ∧ (expr_and fuel str err = Some r → r.1.2 `suffix_of` str)
  ∧ (expr_or fuel str err = Some r → r.1.2 `suffix_of` str).
Proof.
  induction fuel as [|fuel IH]; [done|]. intros str err r.
  split_and!; cbn [expr_sym expr_and expr_or];
  repeat match goal with
  | |- context [expr_sym fuel ?s ?b] =>
      let H := fresh in destruct (expr_sym fuel s b) as [[[? ?] ?]|] eqn:H; [apply IH in H; cbn in H|done]
  | |- context [expr_and fuel ?s ?b] =>
      let H := fresh in destruct (expr_and fuel s b) as [[[? ?] ?]|] eqn:H; [apply IH in H; cbn in H|done]
  | |- context [expr_or fuel ?s ?b] =>
      let H := fresh in destruct (expr_or fuel s b) as [[[? ?] ?]|] eqn:H; [apply IH in H; cbn in H|done]
  | _ => progress cbn [mbind option_bind]
  | _ => case_if
  end; intros [= <-]; cbn [fst snd];
  repeat match goal with
  | |- ?x `suffix_of` ?x => done
  | H : ?x `suffix_of` _ |- ?x `suffix_of` _ => etrans; [exact H|]; clear H
  | |- expr_eat_white _ `suffix_of` _ => etrans; [apply suffix_white|]
  | |- tail _ `suffix_of` _ => etrans; [apply suffix_tail|]
  | |- drop _ _ `suffix_of` _ => etrans; [apply suffix_drop|]
  end.
Qed.

(** ** The mask: [IP] or [RACK] with no closing bracket ends beyond the text *)

Definition upper (c : Z) : Z := if is_lower c then c - 32 else c.

(** The texts the parser steps over before the bracket that is not there. *)
Definition unclosed (w : list Z) : Prop :=
  upper <$> w ∈ [[73]; [73; 80]; [82]; [82; 65]; [82; 65; 67]; [82; 65; 67; 75]].

Definition overread (str : list Z) : Prop := ∃ pre w, str = pre ++ c_slash :: c_lbra :: w ∧ unclosed w.

Lemma opt_char_some up str s : is_upper up = true → opt_char up (up + 32) str = Some s → ∃ c, str = c :: s ∧ upper c = up.
Proof.
  unfold opt_char, is_upper. intros Hu. zbool. case_if; [|done]. destruct str as [|c str].
  - change (hd0 []) with 0 in E. lia.
  - intros [= <-]. exists c. split; [done|]. change (hd0 (c :: str)) with c in E. unfold upper. case_if; unfold is_lower in *; zbool; lia.
Qed.

Lemma overread_suffix str str' : str' `suffix_of` str → overread str' → overread str.
Proof. intros [pre ->] (pre' & w & -> & Hw). exists (pre ++ pre'), w. by rewrite <-(assoc_L (++)). Qed.

(** One state of the parser after another, no copy read between. *)
Record extends (e e' : expr) : Prop := {
  ex_str : e_str e' `suffix_of` e_str e;
  ex_terms : e_terms e' = e_terms e;
  ex_error : e_error e' = false → e_error e = false }.

#[export] Instance extends_preorder : PreOrder extends.
Proof. split; [by split|]. intros e1 e2 e3 [S1 T1 E1] [S2 T2 E2]. split; [by etrans|congruence|auto]. Qed.

Lemma extends_str s e : s `suffix_of` e_str e → extends e (set_str s e).
Proof. by split. Qed.

Lemma extends_error e e' : extends e e' → extends e (set_error e').
Proof. intros [S T E]. by split. Qed.

Lemma extends_mask m e e' : extends e e' → extends e (set_mask m e').
Proof. intros [S T E]. by split. Qed.

Lemma extends_mode m e e' : extends e e' → extends e (set_mode m e').
Proof. intros [S T E]. by split. Qed.

Lemma extends_white e : extends e (eat_white e).
Proof. apply extends_str, suffix_white. Qed.

Lemma extends_tail e : extends e (set_str (tail (e_str e)) e).
Proof. apply extends_str, suffix_tail. Qed.

Lemma extends_length e e' : extends e e' → (length (e_str e') ≤ length (e_str e))%nat.
Proof. intros [S _ _]. by apply suffix_length. Qed.

Lemma uniq_loop_ends fuel : ∀ last range e, (length (e_str e) < fuel)%nat →
  ∃ e', uniq_loop fuel last range e = Some e' ∧ extends e e'.
Proof.
  induction fuel as [|fuel IH]; intros last range e Hl; [lia|]. cbn [uniq_loop].
  set (e1 := eat_white e). assert (H1 : extends e e1) by apply extends_white. pose proof (extends_length _ _ H1) as Hl1.
  assert (Hgo : ∀ l r e2, hd0 (e_str e1) ≠ 0 → extends e1 e2 → (length (e_str e2) = length (tail (e_str e1)))%nat →
    ∃ e', uniq_loop fuel l r e2 = Some e' ∧ extends e e').
  { intros l r e2 Hc H2 Hl2. pose proof (tail_length _ Hc). destruct (IH l r e2) as (e' & -> & H'); [lia|].
    exists e'. split; [done|]. etrans; [exact H1|]. by etrans. }
  assert (Hnz : ∀ c, is_letter c = true ∨ c = c_minus → c ≠ 0) by (intros c [H| ->]; [by apply letter_nonzero|done]).
  destruct (is_upper (hd0 (e_str e1))) eqn:Eu; [|destruct (is_lower (hd0 (e_str e1))) eqn:El].
  - assert (hd0 (e_str e1) ≠ 0) by (apply Hnz; left; unfold is_letter; by rewrite Eu).
    case_if; apply Hgo; try done; by apply extends_mask, extends_tail.
  - assert (hd0 (e_str e1) ≠ 0) by (apply Hnz; left; unfold is_letter; by rewrite El, orb_true_r).
    case_if; apply Hgo; try done; by apply extends_mask, extends_tail.
  - destruct ((hd0 (e_str e1) =? c_minus) && negb range && negb (last =? 255)) eqn:Em.
    + apply Hgo; [apply Hnz; right; by zbool|apply extends_tail|done].
    + eexists. split; [done|]. case_if; [by apply extends_error|done].
Qed.

Lemma step_close_ends mask e : match step_close mask e with None => e_str e = [] | Some e' => extends e e' end.
Proof.
  unfold step_close. set (e1 := if hd0 (e_str e) =? c_rbra then e else set_error e).
  assert (H1 : extends e e1) by (unfold e1; case_if; [done|by apply extends_error]).
  assert (Hs : e_str e1 = e_str e) by (unfold e1; by case_if). rewrite Hs. destruct (e_str e) as [|c s] eqn:Es; [done|].
  etrans; [exact H1|]. apply extends_mask, extends_str. rewrite Hs. by apply suffix_cons_r.
Qed.

(** The optional letters, one after the other. *)
Lemma uniqmask_ends e : match expr_uniqmask e with
  | None => ∃ w, e_str e = c_lbra :: w ∧ unclosed w
  | Some e' => extends e e' end.
Proof.
  unfold expr_uniqmask. destruct (Z.eqb_spec (hd0 (e_str e)) c_lbra) as [Hh|Hh].
  2: { destruct (uniq_loop_ends (S (length (e_str e))) 0xFF false e) as (e' & -> & He); [lia|done]. }
  apply hd0_inv in Hh; [|done]. set (str := tail (e_str e)) in *.
  assert (Hstep : ∀ mask pre s, str = pre ++ s → (s = [] → unclosed pre) →
    match step_close mask (set_str s e) with None => ∃ w, e_str e = c_lbra :: w ∧ unclosed w | Some e' => extends e e' end).
  { intros mask pre s Hs Hun. pose proof (step_close_ends mask (set_str s e)) as Hc. destruct (step_close mask (set_str s e)).
    - etrans; [|exact Hc]. apply extends_str. rewrite Hh, Hs. apply suffix_cons_r. by exists pre.
    - cbn in Hc. subst s. exists str. split; [done|]. rewrite Hs, app_nil_r. by apply Hun. }
  assert (Hun : ∀ l, l ∈ [[73]; [73; 80]; [82]; [82; 65]; [82; 65; 67]; [82; 65; 67; 75]] → ∀ w, upper <$> w = l → unclosed w).
  { intros l Hl w Hw. unfold unclosed. by rewrite Hw. }
  destruct (opt_char 73 105 str) as [s1|] eqn:E1.
  { apply opt_char_some in E1 as (c1 & Hs1 & Hc1); [|done]. destruct (opt_char 80 112 s1) as [s2|] eqn:E2; cbn [default from_option id].
    - apply opt_char_some in E2 as (c2 & -> & Hc2); [|done]. apply (Hstep _ [c1; c2]); [done|]. intros _.
      apply (Hun [73; 80]); [set_solver|]. cbn. by rewrite Hc1, Hc2.
    - apply (Hstep _ [c1]); [done|]. intros _. apply (Hun [73]); [set_solver|]. cbn. by rewrite Hc1. }
  destruct (opt_char 82 114 str) as [s1|] eqn:E2.
  2: { apply extends_error, extends_str. rewrite Hh. by apply suffix_cons_r. }
  apply opt_char_some in E2 as (c1 & Hs1 & Hc1); [|done]. destruct (opt_char 65 97 s1) as [s2|] eqn:E3.
  2: { apply (Hstep _ [c1]); [done|]. intros _. apply (Hun [82]); [set_solver|]. cbn. by rewrite Hc1. }
  apply opt_char_some in E3 as (c2 & -> & Hc2); [|done]. destruct (opt_char 67 99 s2) as [s3|] eqn:E4.
  2: { apply (Hstep _ [c1; c2]); [done|]. intros _. apply (Hun [82; 65]); [set_solver|]. cbn. by rewrite Hc1, Hc2. }
  apply opt_char_some in E4 as (c3 & -> & Hc3); [|done]. destruct (opt_char 75 107 s3) as [s4|] eqn:E5; cbn [default from_option id].
  - apply opt_char_some in E5 as (c4 & -> & Hc4); [|done]. apply (Hstep _ [c1; c2; c3; c4]); [done|]. intros _.
    apply (Hun [82; 65; 67; 75]); [set_solver|]. cbn. by rewrite Hc1, Hc2, Hc3, Hc4.
  - apply (Hstep _ [c1; c2; c3]); [done|]. intros _. apply (Hun [82; 65; 67]); [set_solver|]. cbn. by rewrite Hc1, Hc2, Hc3.
Qed.

Lemma expr_mode_extends e : extends e (expr_mode e).
Proof.
  unfold expr_mode. repeat case_if; try done; by apply extends_mode, extends_str, suffix_drop.
Qed.

Lemma after_mask_extends e : extends e (after_mask e).
Proof.
  unfold after_mask. cbv zeta. set (e1 := if hd0 (e_str e) =? c_colon then _ else e).
  assert (extends e e1) by (unfold e1; case_if; [etrans; [apply extends_tail|apply expr_mode_extends]|done]).
  destruct (e_str e1); [done|by apply extends_error].
Qed.

Lemma ending_ends e : match expr_ending e with None => overread (e_str e) | Some e' => extends e e' end.
Proof.
  rewrite expr_ending_eq. destruct (Z.eqb_spec (hd0 (e_str e)) c_slash) as [Hh|Hh]; [|apply after_mask_extends].
  apply hd0_inv in Hh; [|done]. pose proof (uniqmask_ends (set_str (tail (e_str e)) e)) as H.
  destruct (expr_uniqmask _) as [e'|]; cbn [mbind option_bind].
  - etrans; [apply extends_tail|]. etrans; [exact H|apply after_mask_extends].
  - destruct H as (w & Hw & Hu). cbn in Hw. exists [], w. split; [|done]. by rewrite Hh, Hw.
Qed.

(** ** The copies *)

Definition good (str : list Z) (e : expr) : Prop :=
  e_str e `suffix_of` str ∧ (e_error e = false → Forall full (e_terms e) ∧ (length (e_terms e) ≤ 9)%nat).

Definition outcome (str : list Z) (r : option expr) : Prop :=
  match r with None => overread str | Some e => good str e end.

Lemma good_extends str e e' : good str e → extends e e' → good str e'.
Proof. intros [H1 H2] [S T E]. split; [by etrans|]. rewrite T. auto. Qed.

Lemma good_error str e : good str e → good str (set_error e).
Proof. by intros [H1 H2]. Qed.

Lemma ending_outcome str e : good str e → outcome str (expr_ending e).
Proof.
  intros H. pose proof (ending_ends e) as He. destruct (expr_ending e); [by eapply good_extends|].
  eapply overread_suffix; [apply H|done].
Qed.

Lemma at_expr_ends str e : e_str e `suffix_of` str → ∃ a e', at_expr e = Some (a, e') ∧ e_str e' `suffix_of` str
  ∧ e_terms e' = e_terms e ∧ (e_error e' = false → e_error e = false ∧ full a).
Proof.
  intros Hs. destruct (parse_or_ends (e_str e) (e_error e)) as ([[a s] err] & Hp & _ & Hf).
  exists a, (mk_expr s (e_uniqmask e) (e_mode e) (e_terms e) err (e_ec e)). unfold at_expr. rewrite Hp. split; [done|].
  split_and!; [|done|done]. unfold parse_or in Hp. apply expr_suffix in Hp. cbn in Hp |- *. by etrans.
Qed.

(** [i] copies read, fuel for the others. *)
Lemma copies_ends str fuel : ∀ i e, 0 ≤ i ≤ 9 → 10 - i ≤ Z.of_nat fuel → e_str e `suffix_of` str →
  (e_error e = false → Forall full (e_terms e) ∧ Z.of_nat (length (e_terms e)) = i) →
  outcome str (copies_loop fuel i e).
Proof.
  induction fuel as [|fuel IH]; intros i e Hi Hf Hs Ht; [lia|]. cbn [copies_loop].
  destruct (Z.ltb_spec i 9) as [Hi9|Hi9]; [|by split].
  set (f := is_digit19 (hd0 (e_str (eat_white e)))). set (g := if f then _ else 1).
  assert (Hg : 1 ≤ g). { unfold g, f, is_digit19. case_if; zbool; lia. }
  set (e1 := eat_white (if f then _ else _)).
  assert (H1 : extends e e1).
  { unfold e1. etrans; [|apply extends_white]. case_if; [etrans; [apply extends_white|apply extends_tail]|apply extends_white]. }
  destruct (good_extends str e e1) as [Hs1 Ht1]; [split; [done|intros H; split; [by apply Ht|destruct (Ht H); lia]]|done|].
  assert (Hstep : ∃ a e2, (if (i =? 0) && f && ((hd0 (e_str e1) =? 0) || (hd0 (e_str e1) =? c_slash)) then Some (ANY, e1) else at_expr e1)
      = Some (a, e2) ∧ e_str e2 `suffix_of` str ∧ e_terms e2 = e_terms e1 ∧ (e_error e2 = false → e_error e1 = false ∧ full a)).
  { case_if; [|by apply at_expr_ends]. exists ANY, e1. split_and!; done. }
  destruct Hstep as (a & e2 & -> & Hs2 & Ht2 & He2). cbn [mbind option_bind].
  set (e3 := eat_white e2). assert (H3 : extends e2 e3) by apply extends_white. destruct H3 as [Hs3 Ht3 He3].
  assert (Hs3' : e_str e3 `suffix_of` str) by by etrans.
  assert (Hfull : e_error e3 = false → full a ∧ Forall full (e_terms e3) ∧ Z.of_nat (length (e_terms e3)) = i).
  { intros H. apply He3 in H. apply He2 in H as [H ?]. destruct (Ht (ex_error _ _ H1 H)) as [Hff Hlen].
    rewrite Ht3, Ht2, (ex_terms _ _ H1). done. }
  destruct (e_error e3) eqn:Ee; [split; [done|by rewrite Ee]|]. destruct (Hfull eq_refl) as (Ha & Hff & Hlen).
  destruct (Z.ltb_spec 9 (i + g)) as [H9|H9]; [by split|].
  set (e4 := add_terms (a :: replicate (Z.to_nat (g - 1)) (REF a)) e3).
  assert (Hf4 : Forall full (e_terms e4) ∧ Z.of_nat (length (e_terms e4)) = i + g).
  { split; [apply Forall_app; split; [done|constructor; [done|by apply Forall_replicate]]|].
    cbn [e4 add_terms e_terms]. rewrite length_app. cbn [length]. rewrite length_replicate. lia. }
  case_if.
  - apply IH; [lia|lia| |done]. cbn. etrans; [apply suffix_tail|done].
  - assert (H4 : good str e4) by (split; [done|intros _; split; [apply Hf4|lia]]).
    destruct (e_str e4) eqn:Es; [exact H4|]. by apply ending_outcome.
Qed.

Lemma ec_ends str e : e_str e `suffix_of` str → e_terms e = [] → outcome str (ec_terms e).
Proof.
  intros Hs Hte. unfold ec_terms. case_if.
  2: { cbn [mbind option_bind]. apply ending_outcome. split; [done|]. cbn. rewrite Hte. intros _. split; [by constructor|cbn; lia]. }
  destruct (at_expr_ends str (eat_white (set_str (tail (e_str e)) e))) as (a & e1 & -> & Hs1 & Ht1 & He1).
  { cbn. etrans; [apply suffix_white|]. etrans; [apply suffix_tail|done]. }
  cbn [mbind option_bind]. set (e2 := eat_white (add_terms [a] e1)). cbn in Ht1. rewrite Hte in Ht1.
  assert (Hs2 : e_str e2 `suffix_of` str) by (cbn; etrans; [apply suffix_white|done]).
  assert (Ht2 : e_terms e2 = [a]) by (cbn; by rewrite Ht1).
  case_if.
  2: { cbn [mbind option_bind]. apply ending_outcome. split; [done|]. rewrite Ht2. intros H. split; [|cbn; lia]. constructor; [by apply He1|constructor]. }
  destruct (at_expr_ends str (eat_white (set_str (tail (e_str e2)) e2))) as (b & e3 & -> & Hs3 & Ht3 & He3).
  { cbn. etrans; [apply suffix_white|]. etrans; [apply suffix_tail|done]. }
  cbn [mbind option_bind]. apply ending_outcome. split; [cbn; etrans; [apply suffix_white|done]|].
  cbn. intros H. apply He3 in H as [H ?]. cbn in H, Ht3. rewrite Ht3, Ht1. split; [|cbn; lia].
  constructor; [by apply He1|by constructor].
Qed.

Lemma top_ends str e : e_str e = str → e_terms e = [] → outcome str (expr_top e).
Proof.
  intros Hs Ht. unfold expr_top. cbv zeta.
  assert (Hw : e_str (eat_white e) `suffix_of` str) by (cbn; rewrite Hs; apply suffix_white).
  assert (Hgood : ∀ e', extends (eat_white e) e' → good str e').
  { intros e' [S T E]. split; [by etrans|]. rewrite T. cbn. rewrite Ht. split; [constructor|cbn; lia]. }
  assert (Hec : ∀ e' v, extends (eat_white e) e' → extends (eat_white e) (set_ec v e')) by (intros ? ? [? ? ?]; by split).
  assert (Hwt : ∀ e', extends (eat_white e) e' → extends (eat_white e) (eat_white (set_str (tail (e_str e')) e'))).
  { intros e' H. etrans; [exact H|]. etrans; [apply extends_tail|apply extends_white]. }
  case_if; [apply Hgood, extends_str, suffix_nil|]. case_if; [|].
  2: { apply copies_ends; [lia|cbn; lia|done|]. cbn. by rewrite Ht. }
  set (e1 := eat_white _). assert (H1 : extends (eat_white e) e1) by (by apply Hwt).
  case_if; [|by apply Hgood, extends_error].
  assert (Hgo : ∀ e', extends (eat_white e) e' → outcome str (ec_terms e')).
  { intros e' H. apply ec_ends; [etrans; [apply H|done]|by rewrite (ex_terms _ _ H)]. }
  assert (H2 : ∀ v, extends (eat_white e) (eat_white (set_str (tail (e_str e1)) (set_ec v e1)))).
  { intros v. etrans; [exact (Hec _ v H1)|]. etrans; [apply extends_tail|apply extends_white]. }
  case_if; [|by apply Hgo].
  case_if; [|apply Hgood, extends_error; by apply Hwt].
  apply Hgo. etrans; [|apply extends_white]. etrans; [|apply extends_str, suffix_tail]. apply Hec. by apply Hwt.
Qed.

Lemma convert_full ts : Forall full ts →
  ∃ r, convert_terms ts = Some r ∧ match r with
    | None => Exists (λ n, SCLASS_EXPR_SIZE ≤ size n)%nat ts
    | Some l => l = padded <$> ts ∧ Forall (λ n, length (code n) < SCLASS_EXPR_SIZE)%nat ts end.
Proof.
  induction 1 as [|n ts Hf _ (r & Hr & IH)]; [by exists (Some [])|]. cbn [convert_terms].
  destruct (convert_spec n Hf []) as (o & Ho & Hl & Hc); [cbn; lia|]. pose proof (convert_length n [] o Ho) as Hle. cbn [length] in Hle.
  rewrite Ho. cbn [mbind option_bind]. destruct (Nat.eqb_spec (length o) SCLASS_EXPR_SIZE) as [He|He].
  - exists None. split; [done|]. left. lia.
  - rewrite Hr. cbn [mbind option_bind]. assert (o = code n) as -> by (apply Hc; lia). destruct r as [l|].
    + destruct IH as [-> ?]. eexists. split; [done|]. split; [done|]. constructor; [lia|done].
    + exists None. split; [done|]. by right.
Qed.

(** ** What the parser stores *)

Definition stored (pd : parser_data) : Prop :=
  ∃ ns, pd_labelexpr pd = padded <$> ns ∧ (length ns ≤ 9)%nat ∧ Forall fits ns.

Lemma parse_outcome str : match parse_label_expr str with
  | None => str = [] ∨ overread str
  | Some (st, pd) => (st = 0 ∨ st = -1) ∧ stored pd end.
Proof.
  assert (Hzero : stored pd_zero) by (exists []; split_and!; [done|cbn; lia|constructor]).
  destruct str as [|c rest]; [by left|]. unfold parse_label_expr. case_if; [by auto|].
  pose proof (top_ends (c :: rest) (mk_expr (c :: rest) 0 LABELS_MODE_GLOBAL [] false 0) eq_refl eq_refl) as Ht.
  destruct (expr_top _) as [e|]; [|by right]. cbn [mbind option_bind]. destruct Ht as [_ Ht].
  destruct (e_error e); [by auto|]. destruct (Ht eq_refl) as [Hf Hl].
  destruct (convert_full _ Hf) as (r & -> & Hr). cbn [mbind option_bind]. destruct r as [l|]; [|by auto].
  destruct Hr as [-> Hc]. split; [by left|]. exists (e_terms e). split_and!; [done|done|].
  apply Forall_and. by split.
Qed.

Lemma print_stored k : ∀ first ns, (length ns ≤ k)%nat → Forall fits ns → ∃ s, print_terms k first (padded <$> ns) = Some s.
Proof.
  induction k as [|k IH]; intros first [|n ns] Hk H; try (by exists []); [cbn in Hk; lia|]. apply Forall_cons in H as [Hn H].
  destruct (count_same_padded n ns Hn H) as (same & rest & -> & _ & Hc). destruct (infix_padded n Hn) as (text & t & Hi & _).
  apply Forall_app in H as [_ H]. cbn [length] in Hk. rewrite length_app in Hk. destruct (IH false rest) as [s Hs]; [lia|done|].
  cbn [fmap list_fmap print_terms]. rewrite Hc. cbn [mbind option_bind]. rewrite Hi. cbn [mbind option_bind]. rewrite Hs. by eexists.
Qed.
