(* ===== verification/LabelProps.v ===== *)
(** * Properties of label expressions *)

From S2P Require Import Prelude MfsComm LabelParser LabelGrammar LabelFacts LabelCode LabelPrint LabelRound LabelEnds.


(** "A(b+~C)": A and, b or not C. *)
Definition sample_text : list Z := [65; 40; 98; 43; 126; 67; 41].
Definition sample_tree : node := AND (SYM 0) (OR (SYM 1) (NOT (SYM 2))).


(** C22: the compiler refuses an expression only when it has 128 labels and operations or
    more; otherwise the byte code it stores matches a server exactly when the expression
    does, though a chain of the same operation is one opcode with more arguments. *)
Theorem label_compile_exact n : full n →
  ∃ r, convert_terms [n] = Some r ∧ match r with
    | Some l => ∃ c, l = [c] ∧ length c = SCLASS_EXPR_SIZE
        ∧ ∀ labelmask, labelmask_matches_labelexpr labelmask c = Some (Z.b2z (eval labelmask n))
    | None => (SCLASS_EXPR_SIZE ≤ size n)%nat end.
Proof.
  intros Hf. destruct (convert_full [n]) as (r & Hr & H); [by apply Forall_singleton|]. exists r. split; [done|].
  destruct r as [l|]; [|by apply Exists_cons in H as [?|?%Exists_nil]].
  destruct H as [-> Hl]. apply Forall_cons in Hl as [Hl _]. exists (padded n). split; [done|]. split.
  - unfold padded. rewrite length_app, length_replicate. lia.
  - intros m. by apply matches_padded.
Qed.

Lemma label_compile_exact_witness : full sample_tree ∧ ∃ r, convert_terms [sample_tree] = Some r ∧ r ≠ None.
Proof.
  assert (Hf : full sample_tree) by (cbn; lia). split; [done|].
  destruct (label_compile_exact sample_tree Hf) as (r & Hr & H). exists r. split; [done|]. intros ->. vm_compute in H. lia.
Defined.

(** The parser answers every text, with status 0 or -1, without following a null
    pointer and without reading beyond the zero that ends the text, except when the text
    is empty or ends in "/[" and the beginning of IP or RACK.  What it stores is at most
    nine arrays; evaluating one on any labels ends at a zero in the array, and the class
    is printed without writing beyond the memory of a string. *)
Theorem label_parse_answers str : match parse_label_expr str with
  | None => str = [] ∨ overread str
  | Some (st, pd) => (st = 0 ∨ st = -1) ∧ (length (pd_labelexpr pd) ≤ 9)%nat
      ∧ Forall (λ e, ∀ labelmask, ∃ b, labelmask_matches_labelexpr labelmask e = Some (Z.b2z b)) (pd_labelexpr pd)
      ∧ ∃ s, make_label_expr pd = Some s end.
Proof.
  pose proof (parse_outcome str) as H. destruct (parse_label_expr str) as [[st pd]|]; [|done].
  destruct H as (Hst & ns & Hl & Hlen & Hf). unfold make_label_expr. rewrite Hl, length_fmap. split_and!; [done|done| |].
  - apply Forall_fmap. eapply Forall_impl; [exact Hf|]. intros n Hn m. exists (eval m n). by apply matches_padded.
  - case_if; [by eexists|]. destruct (print_stored (length ns) (pd_ec_data_chksum_parts pd =? 0) ns (le_n _) Hf) as [s ->]. by eexists.
Qed.

(** C36: whatever byte code of at most 127 bytes an array holds, valid or not, printing it
    never writes beyond the memory it has taken for a string, though lengths are kept in
    eight bits. *)
Theorem label_print_bounded c r : Forall (λ x, x ≠ 0) c → (length c < SCLASS_EXPR_SIZE)%nat →
  ∃ text, rpn_to_infix (c ++ 0 :: r) = Some text.
Proof.
  intros Hc Hl. unfold rpn_to_infix. destruct c as [|x c]; [by eexists|]. cbn [app].
  apply Forall_cons in Hc as Hx. rewrite (proj2 (Z.eqb_neq x 0)) by apply Hx.
  eexists. apply (infix_loop_run (x :: c) r []); [done|constructor|]. unfold SCLASS_EXPR_SIZE, SCLASS_EXPR_MAX_SIZE in Hl. cbn in *. lia.
Qed.

Lemma label_print_bounded_witness : ∃ text, rpn_to_infix (replicate 64 0xC0 ++ replicate 63 0x80 ++ 0 :: []) = Some text.
Proof.
  rewrite (assoc_L (++)). apply label_print_bounded.
  - apply Forall_app. split; apply Forall_replicate; lia.
  - vm_compute. lia.
Defined.


(** Two copies of [sample_tree] and one of A, on servers that differ in A, B and C and X
    to Z, strictly. *)
Definition sample_nodes : list node := [sample_tree; sample_tree; SYM 0].
Definition sample_class : parser_data := mk_pd (7 + Z.shiftl 7 23) LABELS_MODE_STRICT 0 (padded <$> sample_nodes).


(** A class of parity with two equal expressions is parsed, but the text printed for
    it is not: it counts the copies, and a count is not read after the parts.  The text is
    what the tools write when they export the classes. *)
Theorem label_ec_equal_lost : ∃ pd,
  parse_label_expr [64; 50; 44; 65; 44; 65] = Some (0, pd)
  ∧ make_label_expr pd = Some [64; 50; 44; 50; 65]
  ∧ parse_label_expr [64; 50; 44; 50; 65] = Some (-1, pd_zero).
Proof. eexists. split; [by vm_compute|]. split; by vm_compute. Qed.

(** A text that ends in "/[I" is read beyond the zero that ends it. *)
Theorem label_unclosed_overread : overread [65; 47; 91; 73] ∧ parse_label_expr [65; 47; 91; 73] = None.
Proof.
  split; [|by vm_compute]. exists [65], [73]. split; [done|]. unfold unclosed. cbn. set_solver.
Qed.
