(* ===== verification/Crc.v ===== *)
(** * Checksums (crc.c, crc.h)

    [mycrc32] computes the CRC of a block from tables, sixteen bytes at a time, with the
    words read in the order of the machine; [mycrc32_combine] computes the CRC of two
    blocks one after the other from the CRCs of the two.  The reference [crc_of] goes
    bit by bit.  The prefetch hint is left out. *)

From S2P Require Import Prelude.

Definition CRC_POLY : Z := 0xEDB88320.

(** What the preprocessor chooses: the byte order of the machine, and whether the
    compiler is clang, for which the main loop is not unrolled. *)
Record crc_build := mk_crc_build { big_endian : bool; clang : bool }.

(** ** The tables *)

Definition crc_shift (c : Z) : Z :=
  if Z.testbit c 0 then Z.lxor CRC_POLY (Z.shiftr c 1) else Z.shiftr c 1.

Definition crc_table0 : list Z :=
  (λ i, crc_shift (crc_shift (crc_shift (crc_shift (crc_shift (crc_shift (crc_shift (crc_shift (Z.of_nat i))))))))) <$> seq 0 256.

Definition tab (t : list Z) (i : Z) : Z := default 0 (t !! Z.to_nat i).

Definition crc_next_table (t : list Z) : list Z :=
  (λ c, Z.lxor (tab crc_table0 (Z.land c 0xFF)) (Z.shiftr c 8)) <$> t.

(** [crc_table.(j)] *)
Fixpoint crc_tables (n : nat) (t : list Z) : list (list Z) :=
  match n with O => [] | S n => t :: crc_tables n (crc_next_table t) end.

Definition crc_table : list (list Z) := crc_tables 16 crc_table0.

Definition ctab (j : nat) (i : Z) : Z := tab (default [] (crc_table !! j)) i.

(** ** The checksum of a block *)

Definition byte_step (crc b : Z) : Z := Z.lxor (Z.shiftr crc 8) (ctab 0 (Z.lxor (Z.land crc 0xFF) b)).

Definition swap (x : Z) : Z :=
  Z.lor (Z.lor (Z.lor (Z.shiftr x 24) (Z.land (Z.shiftr x 8) 0x0000FF00)) (Z.land (u32 (Z.shiftl x 8)) 0x00FF0000)) (u32 (Z.shiftl x 24)).

(** A word in the order of the machine. *)
Definition load32 (be : bool) (l : list Z) : Z :=
  let b i := default 0 (l !! i) in
  if be then Z.lor (Z.lor (Z.lor (Z.shiftl (b 0%nat) 24) (Z.shiftl (b 1%nat) 16)) (Z.shiftl (b 2%nat) 8)) (b 3%nat)
  else Z.lor (Z.lor (Z.lor (b 0%nat) (Z.shiftl (b 1%nat) 8)) (Z.shiftl (b 2%nat) 16)) (Z.shiftl (b 3%nat) 24).

(** A byte of a word and the table it is looked up in, the word being the [k]-th last. *)
Definition word_part (be : bool) (k : nat) (d : Z) : Z :=
  let byte s := Z.land (Z.shiftr d s) 0xFF in
  if be then
    Z.lxor (Z.lxor (Z.lxor (ctab (4 * k) (byte 0)) (ctab (4 * k + 1) (byte 8))) (ctab (4 * k + 2) (byte 16))) (ctab (4 * k + 3) (byte 24))
  else
    Z.lxor (Z.lxor (Z.lxor (ctab (4 * k) (byte 24)) (ctab (4 * k + 1) (byte 16))) (ctab (4 * k + 2) (byte 8))) (ctab (4 * k + 3) (byte 0)).

Definition CRC_BLOCK (be : bool) (crc : Z) (data : list Z) : Z :=
  let d0 := Z.lxor (load32 be data) (if be then swap crc else crc) in
  let d1 := load32 be (drop 4 data) in
  let d2 := load32 be (drop 8 data) in
  let d3 := load32 be (drop 12 data) in
  Z.lxor (Z.lxor (Z.lxor (word_part be 0 d3) (word_part be 1 d2)) (word_part be 2 d1)) (word_part be 3 d0).

(** The bytes before the first aligned address. *)
Fixpoint align_loop (addr : Z) (crc : Z) (data : list Z) : Z * list Z :=
  match data with
  | [] => (crc, [])
  | b :: data' => if Z.land addr 3 =? 0 then (crc, data) else align_loop (addr + 1) (byte_step crc b) data'
  end.

Fixpoint main_loop (fuel : nat) (bld : crc_build) (crc : Z) (data : list Z) : option (Z * list Z) :=
  match fuel with
  | O => None
  | S fuel =>
      let be := big_endian bld in
      if clang bld then
        if (16 <=? length data)%nat then main_loop fuel bld (CRC_BLOCK be crc data) (drop 16 data) else Some (crc, data)
      else if (64 <=? length data)%nat then
        let crc := CRC_BLOCK be crc data in
        let crc := CRC_BLOCK be crc (drop 16 data) in
        let crc := CRC_BLOCK be crc (drop 32 data) in
        let crc := CRC_BLOCK be crc (drop 48 data) in
        main_loop fuel bld crc (drop 64 data)
      else Some (crc, data)
  end.

(** [addr] is the address of the block. *)
Definition mycrc32 (bld : crc_build) (addr : Z) (crc : Z) (data : list Z) : option Z :=
  let crc := Z.lxor crc UINT32_MAX in
  let '(crc, data) := align_loop addr crc data in
  '(crc, data) ← main_loop (S (length data)) bld crc data;
  Some (Z.lxor (foldl byte_step crc data) UINT32_MAX).

(** ** Combining *)

(** The vector [v] times the matrix whose rows are [m]. *)
Fixpoint row_sum (fuel : nat) (v : Z) (m : list Z) (s : Z) : Z :=
  match fuel, m with
  | S fuel, r :: m => if v =? 0 then s else row_sum fuel (Z.shiftr v 1) m (if Z.testbit v 0 then Z.lxor s r else s)
  | _, _ => s
  end.

Definition crc_matrix_square (m : list Z) : list Z := (λ r, row_sum 32 r m 0) <$> m.

(** One bit. *)
Definition m_bit : list Z := CRC_POLY :: ((λ i, Z.shiftl 1 (Z.of_nat i)) <$> seq 0 31).

Definition combine_row (m : list Z) : list (list Z) :=
  (λ j, (λ k, row_sum 8 (Z.of_nat k) (drop (8 * j) m) 0) <$> seq 0 256) <$> seq 0 4.

Fixpoint combine_rows (n : nat) (m : list Z) : list (list (list Z)) :=
  match n with
  | O => []
  | S n => let m := crc_matrix_square m in combine_row m :: combine_rows n m
  end.

Definition crc_combine_table : list (list (list Z)) :=
  combine_rows 32 (crc_matrix_square (crc_matrix_square m_bit)).

Definition cmb (t : list (list Z)) (j : nat) (k : Z) : Z := tab (default [] (t !! j)) k.

Definition combine_step (t : list (list Z)) (crc1 : Z) : Z :=
  Z.lxor (Z.lxor (Z.lxor (cmb t 3 (Z.shiftr crc1 24)) (cmb t 2 (Z.land (Z.shiftr crc1 16) 0xFF)))
    (cmb t 1 (Z.land (Z.shiftr crc1 8) 0xFF))) (cmb t 0 (Z.land crc1 0xFF)).

(** [None]: beyond the table. *)
Fixpoint combine_loop (leng2 crc1 : Z) (tabs : list (list (list Z))) : option Z :=
  if leng2 =? 0 then Some crc1
  else match tabs with
       | [] => None
       | t :: tabs => combine_loop (Z.shiftr leng2 1) (if Z.testbit leng2 0 then combine_step t crc1 else crc1) tabs
       end.

Definition mycrc32_combine (crc1 crc2 leng2 : Z) : option Z :=
  c ← combine_loop leng2 crc1 crc_combine_table; Some (Z.lxor c crc2).

Definition mycrc32_zeroblock (crc zeros : Z) : option Z :=
  mycrc32_combine (Z.lxor crc 0xFFFFFFFF) 0xFFFFFFFF zeros.

Definition mycrc32_zeroexpanded (bld : crc_build) (addr crc : Z) (block : list Z) (zeros : Z) : option Z :=
  c ← mycrc32 bld addr crc block; mycrc32_zeroblock c zeros.

Definition mycrc32_xorblocks (crc crcblock1 crcblock2 leng : Z) : option Z :=
  c ← mycrc32_zeroblock crc leng; Some (Z.lxor (Z.lxor crcblock1 crcblock2) c).

(** ** The reference: bit by bit *)

Definition crc_bits (n : nat) (c : Z) : Z := Nat.iter n crc_shift c.

Definition crc_byte (c b : Z) : Z := crc_bits 8 (Z.lxor c b).

Definition crc_of (crc : Z) (data : list Z) : Z := Z.lxor (foldl crc_byte (Z.lxor crc UINT32_MAX) data) UINT32_MAX.

(** "123456789", on an address that is not aligned, and the value every CRC-32 has. *)
Example crc_check_value : mycrc32 (mk_crc_build false true) 3 0 [49; 50; 51; 52; 53; 54; 55; 56; 57] = Some 0xCBF43926.
Proof. vm_compute. reflexivity. Qed.
