(* ===== verification/CrcProps.v ===== *)
(** * Properties of the checksums

    A step over a bit is linear, so the tables, which hold the steps over bytes, may be
    looked up for each byte of a block at once and added up. *)

From S2P Require Import Prelude Crc.

(** ** Bits *)

(** Equations of sums modulo two. *)
Ltac zxor :=
  apply Z.bits_inj'; let k := fresh "k" in intros k _; rewrite ?Z.lxor_spec;
  repeat match goal with |- context [Z.testbit ?a k] => destruct (Z.testbit a k) end; done.

Lemma lxor_u32 a b : is_u32 a → is_u32 b → is_u32 (Z.lxor a b).
Proof.
  rewrite !is_u32_bits. intros [Ha Ha'] [Hb Hb']. split; [apply Z.lxor_nonneg; lia|].
  intros k Hk. by rewrite Z.lxor_spec, Ha', Hb'.
Qed.

Lemma shiftr_u32 a n : is_u32 a → 0 ≤ n → is_u32 (Z.shiftr a n).
Proof.
  intros Ha Hn. rewrite Z.shiftr_div_pow2 by done. pose proof (Z.pow_pos_nonneg 2 n). unfold is_u32 in *.
  split; [apply Z.div_pos; lia|]. apply Z.div_lt_upper_bound; nia.
Qed.

Lemma is_u8_bits z : is_u8 z ↔ 0 ≤ z ∧ ∀ i, 8 ≤ i → Z.testbit z i = false.
Proof.
  split.
  - intros Hz. split; [apply Hz|]. intros i Hi. rewrite <-(Z.mod_small z (2 ^ 8)) by done. apply Z.mod_pow2_bits_high. lia.
  - intros [Hz Hb]. assert (z = z `mod` 2 ^ 8) as ->; [|apply Z.mod_pos_bound; lia]. apply Z.bits_inj'. intros i Hi.
    destruct (Z.lt_ge_cases i 8); [by rewrite Z.mod_pow2_bits_low|]. rewrite Z.mod_pow2_bits_high by lia. by apply Hb.
Qed.

Lemma u8_lxor a b : is_u8 a → is_u8 b → is_u8 (Z.lxor a b).
Proof.
  rewrite !is_u8_bits. intros [Ha Ha'] [Hb Hb']. split; [apply Z.lxor_nonneg; lia|].
  intros k Hk. by rewrite Z.lxor_spec, Ha', Hb'.
Qed.

Lemma u8_u32 b : is_u8 b → is_u32 b.
Proof. unfold is_u8, is_u32. lia. Qed.

Lemma max_u32 : is_u32 UINT32_MAX.
Proof. by unfold is_u32, UINT32_MAX. Qed.

Create HintDb crc.
#[export] Hint Resolve lxor_u32 u8_u32 max_u32 : crc.

(** Eight bits of a word. *)
Definition byte (s d : Z) : Z := Z.land (Z.shiftr d s) 0xFF.

Lemma byte_mod s d : 0 ≤ s → byte s d = (d / 2 ^ s) `mod` 256.
Proof. intros Hs. unfold byte. rewrite Z.shiftr_div_pow2 by done. by apply (Z.land_ones _ 8). Qed.

Lemma byte_u8 s d : 0 ≤ s → is_u8 (byte s d).
Proof. intros Hs. rewrite byte_mod by done. unfold is_u8. pose proof (Z.mod_pos_bound (d / 2 ^ s) 256). lia. Qed.

Lemma byte_lxor s a b : 0 ≤ s → byte s (Z.lxor a b) = Z.lxor (byte s a) (byte s b).
Proof.
  intros Hs. unfold byte. rewrite Z.shiftr_lxor. apply Z.bits_inj'. intros k Hk. rewrite !Z.land_spec, !Z.lxor_spec, !Z.land_spec.
  by destruct (Z.testbit (Z.shiftr a s) k), (Z.testbit (Z.shiftr b s) k), (Z.testbit 255 k).
Qed.

(** ** The step over a bit is linear *)

Lemma crc_shift_lxor a b : crc_shift (Z.lxor a b) = Z.lxor (crc_shift a) (crc_shift b).
Proof.
  unfold crc_shift. rewrite Z.lxor_spec, Z.shiftr_lxor. destruct (Z.testbit a 0), (Z.testbit b 0); cbn [xorb].
  - rewrite <-!Z.lxor_assoc. rewrite (Z.lxor_comm _ CRC_POLY), <-!Z.lxor_assoc, Z.lxor_nilpotent, Z.lxor_0_l. done.
  - by rewrite Z.lxor_assoc.
  - rewrite <-!Z.lxor_assoc. by rewrite (Z.lxor_comm CRC_POLY).
  - done.
Qed.

Lemma crc_shift_u32 c : is_u32 c → is_u32 (crc_shift c).
Proof. intros Hc. unfold crc_shift. case_if; [apply lxor_u32; [done|]|]; by apply shiftr_u32. Qed.

Lemma crc_bits_S n c : crc_bits (S n) c = crc_shift (crc_bits n c).
Proof. done. Qed.

Lemma crc_bits_lxor n a b : crc_bits n (Z.lxor a b) = Z.lxor (crc_bits n a) (crc_bits n b).
Proof. induction n as [|n IH]; [done|]. by rewrite !crc_bits_S, IH, crc_shift_lxor. Qed.

Lemma crc_bits_0 n : crc_bits n 0 = 0.
Proof. induction n as [|n IH]; [done|]. by rewrite crc_bits_S, IH. Qed.

Lemma crc_bits_add n m c : crc_bits (n + m) c = crc_bits n (crc_bits m c).
Proof. apply Nat.iter_add. Qed.

Lemma crc_bits_u32 n c : is_u32 c → is_u32 (crc_bits n c).
Proof. intros Hc. induction n as [|n IH]; [done|]. by apply crc_shift_u32. Qed.

#[export] Hint Resolve crc_bits_u32 : crc.

(** Zeros that are shifted out change nothing. *)
Lemma crc_bits_shiftl n m c : (m ≤ n)%nat → crc_bits n (Z.shiftl c (Z.of_nat m)) = crc_bits (n - m) c.
Proof.
  revert n. induction m as [|m IH]; intros n Hm; [by rewrite Z.shiftl_0_r, Nat.sub_0_r|].
  destruct n as [|n]; [lia|]. replace (S n) with (n + 1)%nat by lia. rewrite crc_bits_add.
  assert (Hs : crc_bits 1 (Z.shiftl c (Z.of_nat (S m))) = Z.shiftl c (Z.of_nat m)).
  { rewrite crc_bits_S. change (crc_bits 0 ?c) with c. unfold crc_shift. rewrite Z.shiftl_spec_low by lia. rewrite Z.shiftr_shiftl_l by lia. f_equal. lia. }
  rewrite Hs, IH by lia. f_equal. lia.
Qed.

Lemma low_high c n : 0 ≤ n → c = Z.lxor (Z.land c (Z.ones n)) (Z.shiftl (Z.shiftr c n) n).
Proof.
  intros Hn. apply Z.bits_inj'. intros k Hk. rewrite Z.lxor_spec, Z.land_spec, Z.testbit_ones_nonneg by lia.
  destruct (Z.ltb_spec k n).
  - rewrite Z.shiftl_spec_low by done. by destruct (Z.testbit c k).
  - rewrite Z.shiftl_spec_high, Z.shiftr_spec by lia. replace (k - n + n) with k by lia. by destruct (Z.testbit c k).
Qed.

(** Eight steps: the lowest byte by the table, the others by a shift. *)
Lemma crc_bits_byte c : crc_bits 8 c = Z.lxor (crc_bits 8 (byte 0 c)) (Z.shiftr c 8).
Proof.
  rewrite (low_high c 8) at 1 by done. rewrite crc_bits_lxor.
  change (Z.shiftl (Z.shiftr c 8) 8) with (Z.shiftl (Z.shiftr c 8) (Z.of_nat 8)).
  rewrite crc_bits_shiftl by done. unfold byte. by rewrite Z.shiftr_0_r.
Qed.

(** ** The tables *)

Lemma tab_fmap (f : nat → Z) i : 0 ≤ i < 256 → tab (f <$> seq 0 256) i = f (Z.to_nat i).
Proof. intros Hi. unfold tab. rewrite list_lookup_fmap, lookup_seq_lt by lia. done. Qed.

Lemma tab_table0 i : is_u8 i → tab crc_table0 i = crc_bits 8 i.
Proof. intros Hi. unfold crc_table0. rewrite tab_fmap by done. rewrite Z2Nat.id by apply Hi. done. Qed.

Lemma tab_map f t i : (Z.to_nat i < length t)%nat → tab (f <$> t) i = f (tab t i).
Proof. intros Hi. unfold tab. rewrite list_lookup_fmap. destruct (t !! Z.to_nat i) eqn:E; [done|]. apply lookup_ge_None in E. lia. Qed.

Lemma tables_lookup n : ∀ t j, (j < n)%nat → crc_tables n t !! j = Some (Nat.iter j crc_next_table t).
Proof.
  induction n as [|n IH]; intros t [|j] Hj; [lia|lia|done|]. cbn [crc_tables]. cbn [lookup list_lookup].
  change (crc_tables n (crc_next_table t) !! j = Some (Nat.iter (S j) crc_next_table t)). rewrite IH by lia.
  by rewrite Nat.iter_succ_r.
Qed.

Lemma ctab_spec j i : (j < 16)%nat → is_u8 i → ctab j i = crc_bits (8 * (j + 1)) i.
Proof.
  intros Hj Hi. unfold ctab, crc_table. rewrite tables_lookup by done. cbn [default from_option id]. clear Hj.
  assert (H : length (Nat.iter j crc_next_table crc_table0) = 256%nat ∧
    tab (Nat.iter j crc_next_table crc_table0) i = crc_bits (8 * (j + 1)) i); [|apply H].
  induction j as [|j [IHl IH]]; [split; [done|by apply tab_table0]|]. change (Nat.iter (S j) crc_next_table crc_table0) with (crc_next_table (Nat.iter j crc_next_table crc_table0)).
  set (t := Nat.iter j crc_next_table crc_table0) in *. unfold crc_next_table.
  rewrite length_fmap. split; [done|]. rewrite tab_map by (rewrite IHl; unfold is_u8 in Hi; lia). rewrite IH.
  set (c := crc_bits (8 * (j + 1)) i). replace (8 * (S j + 1))%nat with (8 + 8 * (j + 1))%nat by lia.
  rewrite crc_bits_add. fold c. rewrite (crc_bits_byte c). unfold byte. rewrite Z.shiftr_0_r. f_equal.
  apply tab_table0. pose proof (byte_u8 0 c) as H0. unfold byte in H0. rewrite Z.shiftr_0_r in H0. by apply H0.
Qed.

Lemma byte_step_spec crc b : is_u8 b → byte_step crc b = crc_byte crc b.
Proof.
  intros Hb. unfold byte_step, crc_byte. rewrite (crc_bits_byte (Z.lxor crc b)), byte_lxor by done.
  assert (Hbb : byte 0 b = b) by (rewrite byte_mod by done; unfold is_u8 in Hb; rewrite Z.div_1_r; by apply Z.mod_small).
  assert (Hsh : Z.shiftr b 8 = 0) by (rewrite Z.shiftr_div_pow2 by done; unfold is_u8 in Hb; by apply Z.div_small).
  rewrite Hbb, Z.shiftr_lxor, Hsh, Z.lxor_0_r, Z.lxor_comm. f_equal. unfold byte. rewrite Z.shiftr_0_r.
  apply (ctab_spec 0); [lia|]. pose proof (byte_u8 0 crc) as H0. unfold byte in H0. rewrite Z.shiftr_0_r in H0.
  apply u8_lxor; [by apply H0|done].
Qed.

(** ** Words *)

Ltac zdiv := Z.to_euclidean_division_equations; lia.

Lemma low_lxor a b n : 0 ≤ n → 0 ≤ a < 2 ^ n → Z.lxor a (Z.shiftl b n) = a + b * 2 ^ n.
Proof.
  intros Hn Ha. rewrite <-low_lor by done. apply Z.lxor_lor. apply Z.bits_inj'. intros k Hk.
  rewrite Z.land_spec, Z.bits_0. destruct (Z.lt_ge_cases k n).
  - rewrite Z.shiftl_spec_low by done. apply andb_false_r.
  - by rewrite <-(Z.mod_small a (2 ^ n)), Z.mod_pow2_bits_high by lia.
Qed.

Lemma load_le b0 b1 b2 b3 r : is_u8 b0 → is_u8 b1 → is_u8 b2 → is_u8 b3 →
  load32 false (b0 :: b1 :: b2 :: b3 :: r) = b0 + b1 * 2 ^ 8 + b2 * 2 ^ 16 + b3 * 2 ^ 24.
Proof. unfold is_u8. intros. unfold load32. cbn [lookup list_lookup default from_option id]. by rewrite (low_lor b0 b1), (low_lor _ b2), (low_lor _ b3) by lia. Qed.

Lemma lor_reverse a b c d : Z.lor (Z.lor (Z.lor a b) c) d = Z.lor (Z.lor (Z.lor d c) b) a.
Proof.
  apply Z.bits_inj'. intros k _. rewrite !Z.lor_spec.
  by destruct (Z.testbit a k), (Z.testbit b k), (Z.testbit c k), (Z.testbit d k).
Qed.

Lemma load_be b0 b1 b2 b3 r : is_u8 b0 → is_u8 b1 → is_u8 b2 → is_u8 b3 →
  load32 true (b0 :: b1 :: b2 :: b3 :: r) = b3 + b2 * 2 ^ 8 + b1 * 2 ^ 16 + b0 * 2 ^ 24.
Proof.
  unfold is_u8. intros. unfold load32. cbn [lookup list_lookup default from_option id].
  by rewrite lor_reverse, (low_lor b3 b2), (low_lor _ b1), (low_lor _ b0) by lia.
Qed.

Lemma land_byte x n : 0 ≤ n → Z.land x (Z.shiftl 0xFF n) = Z.shiftl (byte n x) n.
Proof.
  intros Hn. unfold byte. apply Z.bits_inj'. intros k Hk. rewrite Z.land_spec. destruct (Z.lt_ge_cases k n).
  - rewrite !Z.shiftl_spec_low by done. apply andb_false_r.
  - rewrite !Z.shiftl_spec_high, Z.land_spec, Z.shiftr_spec by lia. by replace (k - n + n) with k by lia.
Qed.

Lemma swap_sum x : is_u32 x → swap x = byte 24 x + byte 16 x * 2 ^ 8 + byte 8 x * 2 ^ 16 + byte 0 x * 2 ^ 24.
Proof.
  unfold is_u32. intros Hx. unfold swap.
  change 0x0000FF00 with (Z.shiftl 0xFF 8). change 0x00FF0000 with (Z.shiftl 0xFF 16). rewrite !land_byte by done.
  assert (H24 : Z.shiftr x 24 = byte 24 x) by (rewrite byte_mod, Z.shiftr_div_pow2 by done; zdiv).
  assert (H8 : byte 8 (Z.shiftr x 8) = byte 16 x) by (rewrite !byte_mod, Z.shiftr_div_pow2 by done; zdiv).
  assert (H16 : byte 16 (u32 (Z.shiftl x 8)) = byte 8 x).
  { rewrite !byte_mod by done. unfold u32. rewrite Z.shiftl_mul_pow2 by done. zdiv. }
  assert (H0 : u32 (Z.shiftl x 24) = Z.shiftl (byte 0 x) 24).
  { unfold u32. rewrite byte_mod, !Z.shiftl_mul_pow2 by done. zdiv. }
  rewrite H24, H8, H16, H0.
  pose proof (byte_u8 24 x ltac:(done)). pose proof (byte_u8 16 x ltac:(done)). pose proof (byte_u8 8 x ltac:(done)).
  unfold is_u8 in *. by rewrite (low_lor (byte 24 x)), (low_lor _ (byte 8 x)), (low_lor _ (byte 0 x)) by lia.
Qed.

(** A word in one order has the bytes of the word in the other, backwards. *)
Definition reversed (d d' : Z) : Prop :=
  byte 0 d = byte 24 d' ∧ byte 8 d = byte 16 d' ∧ byte 16 d = byte 8 d' ∧ byte 24 d = byte 0 d'.

Lemma load_reversed l : (4 ≤ length l)%nat → Forall is_u8 l → reversed (load32 true l) (load32 false l).
Proof.
  intros Hl H. destruct l as [|b0 [|b1 [|b2 [|b3 r]]]]; cbn in Hl; try lia.
  repeat (apply Forall_cons in H as [? H]). rewrite load_be, load_le by done. unfold is_u8 in *. unfold reversed.
  rewrite !byte_mod by done. repeat split; zdiv.
Qed.

Lemma swap_reversed x : is_u32 x → reversed (swap x) x.
Proof.
  intros Hx. rewrite swap_sum by done. unfold reversed. rewrite !byte_mod by done. unfold is_u32 in Hx. repeat split; zdiv.
Qed.

Lemma lxor_reversed a a' b b' : reversed a a' → reversed b b' → reversed (Z.lxor a b) (Z.lxor a' b').
Proof. unfold reversed. intros (H0 & H1 & H2 & H3) (K0 & K1 & K2 & K3). rewrite !byte_lxor by done. by rewrite H0, H1, H2, H3, K0, K1, K2, K3. Qed.

Lemma word_part_reversed k d d' : reversed d d' → word_part true k d = word_part false k d'.
Proof.
  unfold reversed, word_part, byte. intros (H0 & H1 & H2 & H3). by rewrite H0, H1, H2, H3.
Qed.

(** The machine of the other order computes the same. *)
Lemma block_build be crc data : is_u32 crc → (16 ≤ length data)%nat → Forall is_u8 data →
  CRC_BLOCK be crc data = CRC_BLOCK false crc data.
Proof.
  intros Hc Hl Hd. destruct be; [|done]. unfold CRC_BLOCK.
  assert (Hr : ∀ n, (n ≤ 12)%nat → reversed (load32 true (drop n data)) (load32 false (drop n data))).
  { intros n Hn. apply load_reversed; [rewrite length_drop; lia|by apply Forall_drop]. }
  pose proof (Hr 0%nat ltac:(lia)) as H0. rewrite drop_0 in H0.
  rewrite (word_part_reversed 0 _ _ (Hr 12%nat ltac:(lia))), (word_part_reversed 1 _ _ (Hr 8%nat ltac:(lia))),
    (word_part_reversed 2 _ _ (Hr 4%nat ltac:(lia))).
  by rewrite (word_part_reversed 3 _ _ (lxor_reversed _ _ _ _ H0 (swap_reversed crc Hc))).
Qed.

(** ** Four bytes, sixteen bytes *)

Lemma crc_bits_low n d : crc_bits (8 + n) d = Z.lxor (crc_bits (8 + n) (byte 0 d)) (crc_bits n (Z.shiftr d 8)).
Proof.
  replace (8 + n)%nat with (n + 8)%nat by lia. rewrite !crc_bits_add, (crc_bits_byte d), crc_bits_lxor. done.
Qed.

Lemma byte_shiftr s t d : 0 ≤ s → 0 ≤ t → byte s (Z.shiftr d t) = byte (s + t) d.
Proof. intros. unfold byte. by rewrite Z.shiftr_shiftr by lia; rewrite Z.add_comm. Qed.

Lemma word_part_spec k d : (k < 4)%nat → is_u32 d → word_part false k d = crc_bits (32 * (k + 1)) d.
Proof.
  intros Hk Hd. unfold word_part. fold (byte 24 d) (byte 16 d) (byte 8 d) (byte 0 d). rewrite !ctab_spec by (lia || by apply byte_u8).
  replace (32 * (k + 1))%nat with (8 + (8 + (8 + (8 + 32 * k))))%nat by lia.
  rewrite (crc_bits_low _ d), (crc_bits_low _ (Z.shiftr d 8)), (crc_bits_low _ (Z.shiftr (Z.shiftr d 8) 8)).
  rewrite !Z.shiftr_shiftr, !byte_shiftr by done.
  assert (H24 : Z.shiftr d 24 = byte 24 d) by (unfold is_u32 in Hd; rewrite byte_mod, Z.shiftr_div_pow2 by done; zdiv).
  change (8 + 8) with 16. change (16 + 8) with 24. change (0 + 8) with 8. change (0 + 16) with 16. change (8 + 8 + 8)%Z with 24. rewrite H24.
  replace (8 * (4 * k + 1))%nat with (8 + 32 * k)%nat by lia.
  replace (8 * (4 * k + 1 + 1))%nat with (8 + (8 + 32 * k))%nat by lia.
  replace (8 * (4 * k + 2 + 1))%nat with (8 + (8 + (8 + 32 * k)))%nat by lia.
  replace (8 * (4 * k + 3 + 1))%nat with (8 + (8 + (8 + (8 + 32 * k))))%nat by lia.
  zxor.
Qed.

(** Four bytes, a step over each, are the word and thirty-two steps. *)
Lemma word_bytes crc b0 b1 b2 b3 r : is_u8 b0 → is_u8 b1 → is_u8 b2 → is_u8 b3 →
  crc_byte (crc_byte (crc_byte (crc_byte crc b0) b1) b2) b3 = crc_bits 32 (Z.lxor (load32 false (b0 :: b1 :: b2 :: b3 :: r)) crc).
Proof.
  intros H0 H1 H2 H3. unfold crc_byte.
  assert (Hl : load32 false (b0 :: b1 :: b2 :: b3 :: r) =
    Z.lxor (Z.lxor (Z.lxor b0 (Z.shiftl b1 (Z.of_nat 8))) (Z.shiftl b2 (Z.of_nat 16))) (Z.shiftl b3 (Z.of_nat 24))).
  { rewrite load_le by done. unfold is_u8 in *. cbn [Z.of_nat Pos.of_succ_nat Pos.succ].
    by rewrite (low_lxor b0 b1), (low_lxor _ b2), (low_lxor _ b3) by lia. }
  rewrite Hl, !crc_bits_lxor, (crc_bits_shiftl 32 8), (crc_bits_shiftl 32 16), (crc_bits_shiftl 32 24) by lia.
  rewrite <-!crc_bits_add. cbn [Nat.add Nat.sub]. zxor.
Qed.

Lemma word_fold crc l : (4 ≤ length l)%nat → Forall is_u8 l →
  foldl crc_byte crc (take 4 l) = crc_bits 32 (Z.lxor (load32 false l) crc) ∧ is_u32 (load32 false l).
Proof.
  intros Hl H. destruct l as [|b0 [|b1 [|b2 [|b3 r]]]]; cbn in Hl; try lia.
  repeat (apply Forall_cons in H as [? H]). rewrite (load_le b0 b1 b2 b3 r), <-(load_le b0 b1 b2 b3 []) by done.
  split; [by rewrite <-(word_bytes crc b0 b1 b2 b3 [])|]. rewrite load_le by done. unfold is_u8, is_u32 in *. lia.
Qed.

Lemma take_words (data : list Z) : take 16 data = take 4 data ++ take 4 (drop 4 data) ++ take 4 (drop 8 data) ++ take 4 (drop 12 data).
Proof.
  rewrite <-(take_take_drop data 12 4) at 1. rewrite <-(take_take_drop data 8 4) at 1. rewrite <-(take_take_drop data 4 4) at 1.
  by rewrite <-!(assoc_L (++)).
Qed.

(** A block of sixteen bytes. *)
Lemma block_spec crc data : is_u32 crc → (16 ≤ length data)%nat → Forall is_u8 data →
  CRC_BLOCK false crc data = foldl crc_byte crc (take 16 data).
Proof.
  intros Hc Hl Hd. rewrite take_words, !foldl_app. unfold CRC_BLOCK.
  assert (Hw : ∀ n c, (n ≤ 12)%nat → foldl crc_byte c (take 4 (drop n data)) = crc_bits 32 (Z.lxor (load32 false (drop n data)) c)
    ∧ is_u32 (load32 false (drop n data))).
  { intros n c Hn. apply word_fold; [rewrite length_drop; lia|by apply Forall_drop]. }
  pose proof (λ c, Hw 0%nat c ltac:(lia)) as H0. rewrite drop_0 in H0.
  assert (Hu : ∀ n, (n ≤ 12)%nat → is_u32 (load32 false (drop n data))) by (intros n Hn; by apply (Hw n 0)).
  rewrite (proj1 (Hw 12%nat _ ltac:(lia))), (proj1 (Hw 8%nat _ ltac:(lia))), (proj1 (Hw 4%nat _ ltac:(lia))), (proj1 (H0 _)).
  rewrite (word_part_spec 0), (word_part_spec 1), (word_part_spec 2), (word_part_spec 3)
    by (lia || (apply Hu; lia) || (apply lxor_u32; [apply (H0 0)|done])).
  set (w1 := load32 false (drop 4 data)). set (w2 := load32 false (drop 8 data)). set (w3 := load32 false (drop 12 data)).
  set (w0 := load32 false data). clearbody w0 w1 w2 w3. clear.
  replace (32 * (1 + 1))%nat with (32 + 32)%nat by lia. replace (32 * (2 + 1))%nat with (32 + (32 + 32))%nat by lia.
  replace (32 * (3 + 1))%nat with (32 + (32 + (32 + 32)))%nat by lia. replace (32 * (0 + 1))%nat with 32%nat by lia.
  generalize 32%nat as n. intros n. rewrite !crc_bits_add, !crc_bits_lxor. zxor.
Qed.

Lemma align_spec data : ∀ addr crc, Forall is_u8 data →
  let '(crc', data') := align_loop addr crc data in
  foldl crc_byte crc data = foldl crc_byte crc' data' ∧ Forall is_u8 data' ∧ (is_u32 crc → is_u32 crc').
Proof.
  induction data as [|b data IH]; intros addr crc Hd; [done|]. cbn [align_loop]. apply Forall_cons in Hd as Hbd. destruct Hbd as [Hb Hd'].
  destruct (Z.land addr 3 =? 0); [done|]. specialize (IH (addr + 1) (byte_step crc b) Hd').
  destruct (align_loop _ _ _) as [crc' data']. destruct IH as (IH1 & IH2 & IH3). cbn [foldl]. rewrite byte_step_spec in * by done.
  split_and!; [done|done|]. intros Hc. apply IH3. unfold crc_byte. auto with crc.
Qed.

Lemma crc_fold_u32 data : ∀ crc, is_u32 crc → Forall is_u8 data → is_u32 (foldl crc_byte crc data).
Proof.
  induction data as [|b data IH]; intros crc Hc Hd; [done|]. apply Forall_cons in Hd as [Hb Hd]. cbn [foldl]. apply IH; [|done].
  unfold crc_byte. auto with crc.
Qed.

Lemma block_ok be crc data : is_u32 crc → (16 ≤ length data)%nat → Forall is_u8 data →
  CRC_BLOCK be crc data = foldl crc_byte crc (take 16 data) ∧ is_u32 (CRC_BLOCK be crc data).
Proof.
  intros Hc Hl Hd. rewrite block_build, block_spec by done. split; [done|]. apply crc_fold_u32; [done|by apply Forall_take].
Qed.

Lemma main_spec fuel bld : ∀ crc data, (length data < fuel)%nat → is_u32 crc → Forall is_u8 data →
  ∃ crc' data', main_loop fuel bld crc data = Some (crc', data') ∧ foldl crc_byte crc data = foldl crc_byte crc' data' ∧ Forall is_u8 data'.
Proof.
  induction fuel as [|fuel IH]; intros crc data Hf Hc Hd; [lia|]. cbn [main_loop].
  assert (Hd' : ∀ n, Forall is_u8 (drop n data)) by (intros n; by apply Forall_drop).
  assert (Hsplit : ∀ n, foldl crc_byte (foldl crc_byte crc (take n data)) (drop n data) = foldl crc_byte crc data).
  { intros n. by rewrite <-foldl_app, take_drop. }
  destruct (clang bld).
  - destruct (Nat.leb_spec 16 (length data)) as [Hl|Hl]; [|by exists crc, data].
    destruct (block_ok (big_endian bld) crc data Hc Hl Hd) as [He Hu]. rewrite He in *.
    destruct (IH _ (drop 16 data) ltac:(rewrite length_drop; lia) Hu (Hd' 16%nat)) as (crc' & data' & -> & Hfold & ?).
    exists crc', data'. split_and!; [done| |done]. by rewrite <-Hfold, Hsplit.
  - destruct (Nat.leb_spec 64 (length data)) as [Hl|Hl]; [|by exists crc, data].
    assert (Hb : ∀ n c, (n ≤ 48)%nat → c = foldl crc_byte crc (take n data) → is_u32 c →
      CRC_BLOCK (big_endian bld) c (drop n data) = foldl crc_byte crc (take (n + 16) data)
      ∧ is_u32 (CRC_BLOCK (big_endian bld) c (drop n data))).
    { intros n c Hn -> Hcu. destruct (block_ok (big_endian bld) _ (drop n data) Hcu) as [He Hu]; [rewrite length_drop; lia|done|].
      split; [|done]. by rewrite He, <-foldl_app, take_take_drop. }
    destruct (Hb 0%nat crc ltac:(lia) eq_refl Hc) as [E1 U1]. rewrite drop_0 in E1, U1.
    destruct (Hb 16%nat _ ltac:(lia) E1 U1) as [E2 U2]. destruct (Hb 32%nat _ ltac:(lia) E2 U2) as [E3 U3].
    destruct (Hb 48%nat _ ltac:(lia) E3 U3) as [E4 U4].
    destruct (IH _ (drop 64 data) ltac:(rewrite length_drop; lia) U4 (Hd' 64%nat)) as (crc' & data' & -> & Hfold & ?).
    exists crc', data'. split_and!; [done| |done]. rewrite <-Hfold, E4. by rewrite Hsplit.
Qed.

Lemma fold_byte_step data : ∀ crc, Forall is_u8 data → foldl byte_step crc data = foldl crc_byte crc data.
Proof.
  induction data as [|b data IH]; intros crc Hd; [done|]. apply Forall_cons in Hd as [Hb Hd]. cbn [foldl].
  by rewrite byte_step_spec, IH.
Qed.

Lemma mycrc32_spec bld addr crc data : is_u32 crc → Forall is_u8 data → mycrc32 bld addr crc data = Some (crc_of crc data).
Proof.
  intros Hc Hd. unfold mycrc32, crc_of. pose proof (align_spec data addr (Z.lxor crc UINT32_MAX) Hd) as Ha.
  destruct (align_loop _ _ _) as [crc1 data1]. destruct Ha as (-> & Hd1 & Hu).
  destruct (main_spec (S (length data1)) bld crc1 data1) as (crc2 & data2 & -> & -> & Hd2); [lia|auto with crc|done|].
  cbn [mbind option_bind]. by rewrite fold_byte_step.
Qed.

(** ** Combining *)

(** The matrix [m] does what [f] does. *)
Definition matrix_of (m : list Z) (f : Z → Z) : Prop :=
  length m = 32%nat ∧ ∀ j, (j < 32)%nat → m !! j = Some (f (Z.shiftl 1 (Z.of_nat j))).

Definition linear (f : Z → Z) : Prop := f 0 = 0 ∧ ∀ a b, f (Z.lxor a b) = Z.lxor (f a) (f b).

Lemma crc_bits_linear n : linear (crc_bits n).
Proof. split; [apply crc_bits_0|apply crc_bits_lxor]. Qed.

(** The rows of the bits of [v], shifted by [j]. *)
Lemma row_sum_spec f fuel : linear f → ∀ v m s j, 0 ≤ v < 2 ^ Z.of_nat fuel → (fuel ≤ length m)%nat →
  (∀ k, (k < fuel)%nat → m !! k = Some (f (Z.shiftl 1 (Z.of_nat (j + k))))) →
  row_sum fuel v m s = Z.lxor s (f (Z.shiftl v (Z.of_nat j))).
Proof.
  intros [Hf0 Hf]. induction fuel as [|fuel IH]; intros v m s j Hv Hl Hm.
  { assert (v = 0) as -> by (change (2 ^ Z.of_nat 0) with 1 in Hv; lia). cbn [row_sum]. by rewrite Z.shiftl_0_l, Hf0, Z.lxor_0_r. }
  destruct m as [|r m]; [cbn in Hl; lia|]. cbn [row_sum]. destruct (Z.eqb_spec v 0) as [->|Hv0].
  { by rewrite Z.shiftl_0_l, Hf0, Z.lxor_0_r. }
  assert (Hr : r = f (Z.shiftl 1 (Z.of_nat j))).
  { pose proof (Hm 0%nat ltac:(lia)) as H0. cbn in H0. rewrite Nat.add_0_r in H0. congruence. }
  rewrite (IH _ _ _ (S j)).
  - assert (Hv' : Z.shiftl v (Z.of_nat j) = Z.lxor (if Z.testbit v 0 then Z.shiftl 1 (Z.of_nat j) else 0) (Z.shiftl (Z.shiftr v 1) (Z.of_nat (S j)))).
    { rewrite (low_high v 1) at 1 by done. rewrite Z.shiftl_lxor, Z.shiftl_shiftl by lia. f_equal; [|f_equal; lia].
      rewrite Z.land_ones by done. change (2 ^ 1) with 2. rewrite <-Z.bit0_mod. destruct (Z.testbit v 0); cbn [Z.b2z]; by rewrite ?Z.shiftl_0_l. }
    rewrite Hv', Hf. destruct (Z.testbit v 0); [rewrite Hr; zxor|by rewrite Hf0, Z.lxor_0_l].
  - rewrite Z.shiftr_div_pow2 by done. rewrite Nat2Z.inj_succ, Z.pow_succ_r in Hv by lia. split; [apply Z.div_pos; lia|apply Z.div_lt_upper_bound; lia].
  - cbn in Hl. lia.
  - intros k Hk. specialize (Hm (S k) ltac:(lia)). change ((r :: m) !! S k) with (m !! k) in Hm. rewrite Hm. do 3 f_equal. lia.
Qed.

Lemma square_spec m f : linear f → (∀ c, is_u32 c → is_u32 (f c)) → matrix_of m f → matrix_of (crc_matrix_square m) (λ c, f (f c)).
Proof.
  intros Hf Hu [Hl Hm]. split; [by unfold crc_matrix_square; rewrite length_fmap|]. intros j Hj. unfold crc_matrix_square.
  rewrite list_lookup_fmap, Hm by done. cbn [fmap option_fmap option_map]. f_equal.
  rewrite (row_sum_spec f 32 Hf _ _ _ 0); [by rewrite Z.lxor_0_l, Z.shiftl_0_r| |lia|by intros k Hk; apply Hm].
  apply Hu. rewrite Z.shiftl_1_l. split; [lia|]. apply Z.pow_lt_mono_r; lia.
Qed.

Lemma m_bit_spec : matrix_of m_bit (crc_bits 1).
Proof.
  split; [done|]. intros [|j] Hj; [done|]. unfold m_bit. cbn [lookup list_lookup].
  change (((λ i, Z.shiftl 1 (Z.of_nat i)) <$> seq 0 31) !! j = Some (crc_bits 1 (Z.shiftl 1 (Z.of_nat (S j))))).
  rewrite list_lookup_fmap, lookup_seq_lt by lia. cbn [fmap option_fmap option_map]. f_equal. rewrite crc_bits_S.
  change (crc_bits 0 ?c) with c. unfold crc_shift. rewrite Z.shiftl_spec_low by lia. rewrite Z.shiftr_shiftl_l by lia. f_equal. lia.
Qed.

Lemma matrix_ext m f g : (∀ c, f c = g c) → matrix_of m f → matrix_of m g.
Proof. intros Hfg [Hl Hm]. split; [done|]. intros j Hj. by rewrite Hm, Hfg. Qed.

Lemma square_bits m n : matrix_of m (crc_bits n) → matrix_of (crc_matrix_square m) (crc_bits (n + n)).
Proof.
  intros Hm. eapply matrix_ext; [|apply (square_spec m (crc_bits n)); [apply crc_bits_linear|apply crc_bits_u32|exact Hm]].
  intros c. cbv beta. by rewrite crc_bits_add.
Qed.

(** A row of the table: the matrix on a byte at its place. *)
Lemma combine_row_spec m f j k : linear f → matrix_of m f → (j < 4)%nat → is_u8 k →
  cmb (combine_row m) j k = f (Z.shiftl k (Z.of_nat (8 * j))).
Proof.
  intros Hf [Hl Hm] Hj Hk. unfold cmb, combine_row. rewrite list_lookup_fmap, lookup_seq_lt by done.
  cbn [fmap option_fmap option_map default from_option id]. rewrite tab_fmap by (unfold is_u8 in Hk; lia).
  rewrite Z2Nat.id by apply Hk. rewrite (row_sum_spec f 8 Hf _ _ _ (8 * j)); [by rewrite Z.lxor_0_l|exact Hk|rewrite length_drop; lia|].
  intros i Hi. rewrite lookup_drop. apply Hm. lia.
Qed.

(** The bytes of a word, each at its place. *)
Lemma word_places c : is_u32 c →
  c = Z.lxor (Z.lxor (Z.lxor (Z.shiftl (Z.shiftr c 24) 24) (Z.shiftl (byte 16 c) 16)) (Z.shiftl (byte 8 c) 8)) (Z.shiftl (byte 0 c) 0).
Proof.
  intros Hc. pose proof (byte_u8 0 c ltac:(done)) as H0. pose proof (byte_u8 8 c ltac:(done)) as H8. pose proof (byte_u8 16 c ltac:(done)) as H16.
  assert (Hr : ∀ a b x y, Z.lxor (Z.lxor (Z.lxor a b) x) y = Z.lxor (Z.lxor (Z.lxor y x) b) a) by (intros; zxor).
  rewrite Hr, Z.shiftl_0_r. unfold is_u8 in *.
  rewrite (low_lxor (byte 0 c)), (low_lxor _ (byte 16 c)), (low_lxor _ (Z.shiftr c 24)) by lia.
  rewrite Z.shiftr_div_pow2 by done. rewrite !byte_mod by done. unfold is_u32 in Hc. zdiv.
Qed.

Lemma top_u8 c : is_u32 c → is_u8 (Z.shiftr c 24).
Proof.
  unfold is_u32, is_u8. intros Hc. rewrite Z.shiftr_div_pow2 by done. split; [apply Z.div_pos; lia|apply Z.div_lt_upper_bound; lia].
Qed.

Lemma combine_step_spec m f c : linear f → matrix_of m f → is_u32 c → combine_step (combine_row m) c = f c.
Proof.
  intros Hf Hm Hc. unfold combine_step. fold (byte 16 c) (byte 8 c).
  replace (Z.land c 0xFF) with (byte 0 c) by (unfold byte; by rewrite Z.shiftr_0_r).
  rewrite !(combine_row_spec m f) by (done || lia || (by apply byte_u8) || (by apply top_u8)).
  destruct Hf as [_ Hf]. rewrite <-!Hf. f_equal. symmetry. by apply word_places.
Qed.

Lemma combine_loop_spec n : ∀ m b leng c, matrix_of m (crc_bits b) → 0 ≤ leng < 2 ^ Z.of_nat n → is_u32 c →
  combine_loop leng c (combine_rows n m) = Some (crc_bits ((b + b) * Z.to_nat leng) c).
Proof.
  induction n as [|n IH]; intros m b leng c Hm Hl Hc.
  { assert (leng = 0) as -> by (change (2 ^ Z.of_nat 0) with 1 in Hl; lia). cbn [combine_loop combine_rows]. by rewrite Nat.mul_0_r. }
  cbn [combine_rows combine_loop]. destruct (Z.eqb_spec leng 0) as [->|Hne]; [by rewrite Nat.mul_0_r|].
  pose proof (square_bits m b Hm) as Hsq. rewrite Nat2Z.inj_succ, Z.pow_succ_r in Hl by lia.
  rewrite (combine_step_spec _ (crc_bits (b + b)) c (crc_bits_linear _) Hsq Hc).
  rewrite (IH _ (b + b)%nat); [|done| |case_if; [by apply crc_bits_u32|done]].
  2: { rewrite Z.shiftr_div_pow2 by done. change (2 ^ 1) with 2. split; [apply Z.div_pos; lia|apply Z.div_lt_upper_bound; lia]. }
  f_equal. rewrite Z.shiftr_div_pow2 by done. change (2 ^ 1) with 2.
  assert (Hs : Z.to_nat leng = (2 * Z.to_nat (leng / 2) + (if Z.testbit leng 0 then 1 else 0))%nat).
  { pose proof (Z.bit0_mod leng) as Hb. pose proof (Z.div_mod leng 2 ltac:(lia)). destruct (Z.testbit leng 0); cbn [Z.b2z] in Hb; lia. }
  rewrite Hs. case_if.
  - rewrite <-crc_bits_add. f_equal. lia.
  - f_equal. lia.
Qed.

Lemma combine_spec c1 c2 leng : is_u32 c1 → is_u32 leng →
  mycrc32_combine c1 c2 leng = Some (Z.lxor (crc_bits (8 * Z.to_nat leng) c1) c2).
Proof.
  intros Hc Hl. unfold mycrc32_combine, crc_combine_table.
  rewrite (combine_loop_spec 32 _ 4 leng c1); [|exact (square_bits _ 2 (square_bits _ 1 m_bit_spec))|exact Hl|done]. done.
Qed.

(** ** Properties *)

Lemma fold_lxor data : ∀ a b, foldl crc_byte (Z.lxor a b) data = Z.lxor (foldl crc_byte a data) (crc_bits (8 * length data) b).
Proof.
  induction data as [|x data IH]; intros a b; [by rewrite Nat.mul_0_r|]. cbn [foldl length].
  assert (Hs : crc_byte (Z.lxor a b) x = Z.lxor (crc_byte a x) (crc_bits 8 b)).
  { unfold crc_byte. rewrite <-crc_bits_lxor. f_equal. zxor. }
  rewrite Hs, IH. f_equal. rewrite <-crc_bits_add. f_equal. lia.
Qed.

Lemma crc_of_app crc a b : crc_of crc (a ++ b) = crc_of (crc_of crc a) b.
Proof. unfold crc_of. rewrite foldl_app. do 2 f_equal. zxor. Qed.

Lemma crc_of_u32 crc data : is_u32 crc → Forall is_u8 data → is_u32 (crc_of crc data).
Proof. intros Hc Hd. unfold crc_of. apply lxor_u32; [|done]. apply crc_fold_u32; [|done]. auto with crc. Qed.

(** C33: for every build, at every address, the checksum of a block is the bit by bit
    CRC-32 that goes on from the given value, so the checksum of two blocks is computed
    by going on from the first. *)
Theorem mycrc32_exact bld addr crc data : is_u32 crc → Forall is_u8 data → mycrc32 bld addr crc data = Some (crc_of crc data).
Proof. apply mycrc32_spec. Qed.

Definition ex_text : list Z := [77; 111; 111; 115; 101; 70; 83; 32; 107; 101; 101; 112; 115; 32; 97; 32; 67; 82; 67; 0; 255].

Lemma mycrc32_exact_witness : mycrc32 (mk_crc_build true false) 1 7 ex_text = Some (crc_of 7 ex_text).
Proof. apply (mycrc32_exact (mk_crc_build true false) 1 7 ex_text); [by unfold is_u32|]. repeat (constructor; [by unfold is_u8|]). constructor. Defined.

(** Combining the checksums of two blocks gives the checksum of the blocks one after
    the other, whatever their lengths, without the blocks. *)
Theorem mycrc32_combine_app a b : Forall is_u8 a → Forall is_u8 b → is_u32 (Z.of_nat (length b)) →
  mycrc32_combine (crc_of 0 a) (crc_of 0 b) (Z.of_nat (length b)) = Some (crc_of 0 (a ++ b)).
Proof.
  intros Ha Hb Hl. rewrite combine_spec; [|by apply crc_of_u32|done]. f_equal. rewrite Nat2Z.id. unfold crc_of at 2 3.
  rewrite foldl_app, !Z.lxor_0_l.
  assert (Hs : foldl crc_byte UINT32_MAX a = Z.lxor UINT32_MAX (crc_of 0 a)) by (unfold crc_of; rewrite Z.lxor_0_l; zxor).
  rewrite Hs, fold_lxor. zxor.
Qed.

Lemma mycrc32_combine_app_witness : mycrc32_combine (crc_of 0 ex_text) (crc_of 0 [1; 2; 3]) 3 = Some (crc_of 0 (ex_text ++ [1; 2; 3])).
Proof.
  apply (mycrc32_combine_app ex_text [1; 2; 3]); [| |by unfold is_u32]; repeat (constructor; [by unfold is_u8|]); constructor.
Defined.

Lemma fold_zeros n s : foldl crc_byte s (replicate n 0) = crc_bits (8 * n) s.
Proof.
  revert s. induction n as [|n IH]; intros s; [by rewrite Nat.mul_0_r|]. cbn [replicate foldl]. rewrite IH. unfold crc_byte.
  rewrite Z.lxor_0_r, <-crc_bits_add. f_equal. lia.
Qed.

Lemma fold_zip a : ∀ b s t, length a = length b →
  foldl crc_byte (Z.lxor s t) (zip_with Z.lxor a b) = Z.lxor (foldl crc_byte s a) (foldl crc_byte t b).
Proof.
  induction a as [|x a IH]; intros [|y b] s t Hl; try done. cbn [zip_with foldl]. cbn in Hl.
  assert (Hs : crc_byte (Z.lxor s t) (Z.lxor x y) = Z.lxor (crc_byte s x) (crc_byte t y)).
  { unfold crc_byte. rewrite <-crc_bits_lxor. f_equal. zxor. }
  rewrite Hs. apply IH. lia.
Qed.

Lemma zeroblock_spec crc (zeros : nat) : is_u32 crc → is_u32 (Z.of_nat zeros) →
  mycrc32_zeroblock crc (Z.of_nat zeros) = Some (crc_of crc (replicate zeros 0)).
Proof.
  intros Hc Hz. unfold mycrc32_zeroblock. change 0xFFFFFFFF with UINT32_MAX. rewrite combine_spec by auto with crc.
  unfold crc_of. by rewrite fold_zeros, Nat2Z.id.
Qed.

(** The checksum of a block followed by zeros, and that of the bytewise sum of two
    blocks, as the chunk servers need them for parity, are computed from checksums. *)
Theorem crc_macros bld addr crc a b (zeros : nat) : is_u32 crc → Forall is_u8 a → length a = length b → is_u32 (Z.of_nat zeros) →
  is_u32 (Z.of_nat (length a)) →
  mycrc32_zeroexpanded bld addr crc a (Z.of_nat zeros) = Some (crc_of crc (a ++ replicate zeros 0))
  ∧ mycrc32_xorblocks crc (crc_of crc a) (crc_of crc b) (Z.of_nat (length a)) = Some (crc_of crc (zip_with Z.lxor a b)).
Proof.
  intros Hc Ha Hl Hz Hla. split.
  - unfold mycrc32_zeroexpanded. rewrite mycrc32_spec by done. cbn [mbind option_bind].
    rewrite zeroblock_spec by (done || by apply crc_of_u32). by rewrite crc_of_app.
  - unfold mycrc32_xorblocks. rewrite zeroblock_spec by done. cbn [mbind option_bind]. f_equal. unfold crc_of.
    set (s := Z.lxor crc UINT32_MAX). assert (Hs : s = Z.lxor (Z.lxor s s) s) by zxor.
    rewrite Hs at 4. rewrite (fold_lxor _ (Z.lxor s s) s). rewrite fold_zip by done. rewrite length_zip_with, <-Hl, Nat.min_id, fold_zeros. zxor.
Qed.

Lemma crc_macros_witness : mycrc32_zeroexpanded (mk_crc_build true true) 2 0 [7; 8; 9] 5 = Some (crc_of 0 [7; 8; 9; 0; 0; 0; 0; 0]).
Proof.
  apply (crc_macros (mk_crc_build true true) 2 0 [7; 8; 9] [1; 2; 3] 5); [by unfold is_u32| |done|by unfold is_u32|by unfold is_u32].
  repeat (constructor; [by unfold is_u8|]). constructor.
Defined.

(** *** Damage that is found *)

Lemma crc_shift_zero c : is_u32 c → crc_shift c = 0 → c = 0.
Proof.
  intros Hc H. assert (Hb : Z.testbit (crc_shift c) 31 = Z.testbit c 0).
  { unfold crc_shift. assert (Hs : Z.testbit (Z.shiftr c 1) 31 = false) by (rewrite Z.shiftr_spec by done; by apply is_u32_bits).
    destruct (Z.testbit c 0); [by rewrite Z.lxor_spec, Hs|done]. }
  rewrite H, Z.bits_0 in Hb. unfold crc_shift in H. rewrite <-Hb in H.
  apply Z.bits_inj'. intros k Hk. rewrite Z.bits_0. destruct (Z.eq_dec k 0) as [->|]; [done|].
  replace k with (k - 1 + 1) by lia. rewrite <-Z.shiftr_spec by lia. by rewrite H, Z.bits_0.
Qed.

Lemma crc_bits_zero n c : is_u32 c → crc_bits n c = 0 → c = 0.
Proof.
  intros Hc. induction n as [|n IH]; [done|]. rewrite crc_bits_S. intros Hz. apply crc_shift_zero in Hz; [by apply IH|by apply crc_bits_u32].
Qed.

Lemma crc_bits_inj n a b : is_u32 a → is_u32 b → crc_bits n a = crc_bits n b → a = b.
Proof.
  intros Ha Hb H. apply Z.lxor_eq. apply (crc_bits_zero n); [by apply lxor_u32|]. rewrite crc_bits_lxor, H. apply Z.lxor_nilpotent.
Qed.

Lemma load_inj x y : length x = 4%nat → length y = 4%nat → Forall is_u8 x → Forall is_u8 y → load32 false x = load32 false y → x = y.
Proof.
  intros Hx Hy Fx Fy. destruct x as [|x0 [|x1 [|x2 [|x3 [|]]]]]; try done. destruct y as [|y0 [|y1 [|y2 [|y3 [|]]]]]; try done.
  repeat (apply Forall_cons in Fx as [? Fx]). repeat (apply Forall_cons in Fy as [? Fy]). rewrite !load_le by done.
  unfold is_u8 in *. intros He. assert (x0 = y0) as -> by lia. assert (x1 = y1) as -> by lia. assert (x2 = y2) as -> by lia.
  by assert (x3 = y3) as -> by lia.
Qed.


