(* ===== verification/IntervalTree.v ===== *)
(** * Interval trees (itree.c)

    A binary tree of disjoint intervals of 32-bit numbers, each with an identifier; the
    topology keeps the racks of addresses in one.  Adding an interval cuts and removes
    those it covers; the identifier 0 only removes.  [itree_rebalance] makes the tree a
    list, linked by the left pointers, merges neighbours and splits the list at its
    middle again and again.  A call that changes a subtree through a pointer returns the
    new subtree. *)

From S2P Require Import Prelude.

Inductive itnode :=
  | NIL
  | ITNODE (left : itnode) (from to id : Z) (right : itnode).

Definition it_left (n : itnode) : itnode := match n with NIL => NIL | ITNODE l _ _ _ _ => l end.
Definition it_right (n : itnode) : itnode := match n with NIL => NIL | ITNODE _ _ _ _ r => r end.

(** The number of steps to the right, and to the left. *)
Fixpoint right_steps (n : itnode) : Z := match n with NIL => 0 | ITNODE _ _ _ _ r => 1 + right_steps r end.
Fixpoint left_steps (n : itnode) : Z := match n with NIL => 0 | ITNODE l _ _ _ _ => 1 + left_steps l end.

(** The leftmost node, unlinked, with the tree that is left. *)
Fixpoint take_leftmost (n : itnode) : option (Z * Z * Z * itnode) :=
  match n with
  | NIL => None
  | ITNODE l f t i r =>
      match take_leftmost l with
      | None => Some (f, t, i, r)
      | Some (x, l) => Some (x, ITNODE l f t i r)
      end
  end.

Fixpoint take_rightmost (n : itnode) : option (Z * Z * Z * itnode) :=
  match n with
  | NIL => None
  | ITNODE l f t i r =>
      match take_rightmost r with
      | None => Some (f, t, i, l)
      | Some (x, r) => Some (x, ITNODE l f t i r)
      end
  end.

Definition itree_remove (n : itnode) : itnode :=
  match n with
  | NIL => NIL
  | ITNODE NIL _ _ _ r => r
  | ITNODE l _ _ _ NIL => l
  | ITNODE l from to _ r =>
      let ls := u32 (right_steps (it_right l)) in
      let rs := u32 (left_steps (it_left r)) in
      let ls := if ls =? rs then u32 (ls + Z.land (Z.lxor from to) 1) else ls in
      if ls <? rs then
        match take_leftmost r with
        | Some (f, t, i, r) => ITNODE l f t i r
        | None => n
        end
      else
        match take_rightmost l with
        | Some (f, t, i, l) => ITNODE l f t i r
        | None => n
        end
  end.

Fixpoint itree_delete (n : itnode) (f t : Z) {struct n} : itnode :=
  match n with
  | NIL => NIL
  | ITNODE l from to id r =>
      if t <? from then ITNODE (itree_delete l f t) from to id r
      else if to <? f then ITNODE l from to id (itree_delete r f t)
      else if (f <=? from) && (to <=? t) then
        let l := if f <? from then itree_delete l f (u32 (from - 1)) else l in
        let r := if to <? t then itree_delete r (u32 (to + 1)) t else r in
        itree_remove (ITNODE l from to id r)
      else if (from <=? f) && (t <=? to) then
        if f =? from then ITNODE l (u32 (t + 1)) to id r
        else if t =? to then ITNODE l from (u32 (f - 1)) id r
        else if Z.testbit (Z.lxor t f) 0 then
          ITNODE l from (u32 (f - 1)) id (itree_add r (u32 (t + 1)) to id)
        else
          ITNODE (itree_add l from (u32 (f - 1)) id) (u32 (t + 1)) to id r
      else if f <? from then ITNODE (itree_delete l f t) (u32 (t + 1)) to id r
      else if to <? t then ITNODE l from (u32 (f - 1)) id (itree_delete r f t)
      else n
  end
with itree_add (n : itnode) (f t i : Z) {struct n} : itnode :=
  match n with
  | NIL => ITNODE NIL f t i NIL
  | ITNODE l from to id r =>
      if t <? from then ITNODE (itree_add l f t i) from to id r
      else if to <? f then ITNODE l from to id (itree_add r f t i)
      else if (f <=? from) && (to <=? t) then
        let l := if f <? from then itree_delete l f (u32 (from - 1)) else l in
        let r := if to <? t then itree_delete r (u32 (to + 1)) t else r in
        ITNODE l f t i r
      else if (from <=? f) && (t <=? to) then
        let l := if from <? f then itree_add l from (u32 (f - 1)) id else l in
        let r := if t <? to then itree_add r (u32 (t + 1)) to id else r in
        ITNODE l f t i r
      else if f <? from then ITNODE (itree_add l f t i) (u32 (t + 1)) to id r
      else if to <? t then ITNODE l from (u32 (f - 1)) id (itree_add r f t i)
      else n
  end.

(** ** Rebalancing *)

(** The list, each node linked to the next one by its left pointer. *)
Fixpoint itree_tolist (n : itnode) : list (Z * Z * Z) :=
  match n with
  | NIL => []
  | ITNODE l f t i r => itree_tolist l ++ (f, t, i) :: itree_tolist r
  end.

(** [n] is the node the loop is at; its left neighbour is merged into it. *)
Fixpoint simplify_loop (n : Z * Z * Z) (l : list (Z * Z * Z)) : list (Z * Z * Z) :=
  match l with
  | [] => [n]
  | (from', to', id') :: l' =>
      let '(from, to, id) := n in
      if (id =? id') && (u32 (to + 1) =? from') then simplify_loop (from, to', id) l'
      else n :: simplify_loop (from', to', id') l'
  end.

Definition itree_simplify (l : list (Z * Z * Z)) : list (Z * Z * Z) :=
  match l with [] => [] | n :: l => simplify_loop n l end.

(** [m] goes one step for every two of [i]; what [m] has passed, and [m]. *)
Fixpoint middle {A} (i m : list A) : list A * list A :=
  match i, m with
  | _ :: _ :: i, x :: m => let '(l, m) := middle i m in (x :: l, m)
  | _, _ => ([], m)
  end.

Fixpoint itree_totree (fuel : nat) (l : list (Z * Z * Z)) : option itnode :=
  match fuel with
  | O => None
  | S fuel =>
      match middle l l with
      | (l, (f, t, i) :: r) =>
          right ← itree_totree fuel r; left ← itree_totree fuel l; Some (ITNODE left f t i right)
      | (_, []) => Some NIL
      end
  end.

Definition itree_rebalance (root : itnode) : option itnode :=
  let l := itree_simplify (itree_tolist root) in itree_totree (S (length l)) l.

(** ** The interface *)

Definition itree_add_interval (root : itnode) (f t id : Z) : itnode :=
  if id =? 0 then
    if t <? f then itree_delete root t f else itree_delete root f t
  else
    if t <? f then itree_add root t f id else itree_add root f t id.

Fixpoint itree_find (n : itnode) (v : Z) : Z :=
  match n with
  | NIL => 0
  | ITNODE l from to id r =>
      if (from <=? v) && (v <=? to) then id
      else if v <? from then itree_find l v else itree_find r v
  end.

Example itree_ex :
  let t := itree_add_interval (itree_add_interval (itree_add_interval NIL 10 99 1) 60 40 2) 45 55 0 in
  (itree_find t <$> [9; 10; 39; 40; 45; 55; 56; 60; 61; 99; 100]) = [0; 1; 1; 2; 0; 0; 2; 2; 1; 1; 0].
Proof. reflexivity. Qed.

(** ** The intervals of a tree *)

(** In order, disjoint, between [lo] and [hi]. *)
Fixpoint it_wf (lo hi : Z) (n : itnode) : Prop :=
  match n with
  | NIL => True
  | ITNODE l f t _ r => lo ≤ f ∧ f ≤ t ∧ t ≤ hi ∧ it_wf lo (f - 1) l ∧ it_wf (t + 1) hi r
  end.

Lemma wf_node lo hi l f t i r :
  it_wf lo hi (ITNODE l f t i r) ↔ lo ≤ f ∧ f ≤ t ∧ t ≤ hi ∧ it_wf lo (f - 1) l ∧ it_wf (t + 1) hi r.
Proof. done. Qed.

Fixpoint look (n : itnode) (v : Z) : option Z :=
  match n with
  | NIL => None
  | ITNODE l from to id r =>
      if (from <=? v) && (v <=? to) then Some id else if v <? from then look l v else look r v
  end.

Lemma find_look n v : itree_find n v = default 0 (look n v).
Proof. induction n as [|l IHl f t i r IHr]; [done|]. cbn. repeat case_match; [done|apply IHl|apply IHr]. Qed.

Lemma in_range_spec f t v : (f <=? v) && (v <=? t) = bool_decide (f ≤ v ≤ t).
Proof. destruct (Z.leb_spec f v), (Z.leb_spec v t); symmetry; [apply bool_decide_eq_true|apply bool_decide_eq_false..]; lia. Qed.

(** What a tree answers when the numbers of a range are given a value. *)
Definition put_range (f t : Z) (x : option Z) (m : Z → option Z) : Z → option Z :=
  λ v, if bool_decide (f ≤ v ≤ t) then x else m v.

Ltac by_range :=
  unfold put_range; cbn; unfold put_range; rewrite ?in_range_spec;
  repeat match goal with
  | |- context [bool_decide ?P] => destruct (bool_decide_reflect P)
  | |- context [?a <? ?b] => destruct (Z.ltb_spec a b)
  end; try done; try lia.

Lemma look_out lo hi n v : it_wf lo hi n → v < lo ∨ hi < v → look n v = None.
Proof.
  revert lo hi. induction n as [|l IHl f t i r IHr]; intros lo hi; [done|]. intros (? & ? & ? & Hl & Hr)%wf_node Hv. by_range.
  - apply (IHl _ _ Hl). lia.
  - apply (IHr _ _ Hr). lia.
Qed.

Lemma wf_weaken lo hi lo' hi' n : it_wf lo hi n → lo' ≤ lo → hi ≤ hi' → it_wf lo' hi' n.
Proof.
  revert lo hi lo' hi'. induction n as [|l IHl f t i r IHr]; intros lo hi lo' hi'; [done|]. intros (? & ? & ? & Hl & Hr)%wf_node ? ?.
  cbn. repeat split; try lia; [eapply IHl|eapply IHr]; try done; lia.
Qed.

Ltac outs :=
  repeat match goal with
  | H : it_wf _ _ ?n |- context [look ?n ?v] => rewrite (look_out _ _ n v H) by lia
  end; try done.

Ltac looks Hk := intros v; unfold put_range; cbn [look]; rewrite Hk; by_range; outs.

(** A tree lies where it has numbers. *)
Lemma wf_shrink lo hi lo' hi' n : it_wf lo hi n → (∀ v, v < lo' ∨ hi' < v → look n v = None) → it_wf lo' hi' n.
Proof.
  revert lo hi lo' hi'. induction n as [|l IHl f t i r IHr]; intros lo hi lo' hi'; [done|]. intros (? & ? & ? & Hl & Hr)%wf_node Hn.
  assert (Hin : lo' ≤ f ∧ t ≤ hi').
  { split; apply Z.nlt_ge; intros Hlt; [specialize (Hn f (or_introl Hlt))|specialize (Hn t (or_intror Hlt))]; revert Hn; by_range. }
  cbn. repeat split; try lia.
  - apply (IHl _ _ _ _ Hl). intros v Hv. destruct (decide (v < f)) as [Hf|]; [|apply (look_out _ _ _ _ Hl); lia].
    destruct Hv; [|lia]. assert (Hx := Hn v ltac:(lia)). revert Hx. by_range.
  - apply (IHr _ _ _ _ Hr). intros v Hv. destruct (decide (t < v)) as [Hf|]; [|apply (look_out _ _ _ _ Hr); lia].
    destruct Hv; [lia|]. assert (Hx := Hn v ltac:(lia)). revert Hx. by_range.
Qed.

Lemma leftmost_spec lo hi n : it_wf lo hi n →
  match take_leftmost n with
  | None => n = NIL
  | Some (f, t, i, n') => lo ≤ f ∧ f ≤ t ∧ t ≤ hi ∧ it_wf (t + 1) hi n' ∧ ∀ v, look n v = put_range f t (Some i) (look n') v
  end.
Proof.
  revert lo hi. induction n as [|l IHl f t i r _]; intros lo hi; [done|]. intros (? & ? & ? & Hl & Hr)%wf_node. cbn.
  specialize (IHl _ _ Hl). destruct (take_leftmost l) as [[[[f' t'] i'] l']|].
  - destruct IHl as (? & ? & ? & Hl' & Hlook). repeat split; try lia; [done..|].
    intros v. rewrite Hlook. by_range; outs.
  - subst l. repeat split; try lia; [done|]. intros v. by_range; outs.
Qed.

Lemma rightmost_spec lo hi n : it_wf lo hi n →
  match take_rightmost n with
  | None => n = NIL
  | Some (f, t, i, n') => lo ≤ f ∧ f ≤ t ∧ t ≤ hi ∧ it_wf lo (f - 1) n' ∧ ∀ v, look n v = put_range f t (Some i) (look n') v
  end.
Proof.
  revert lo hi. induction n as [|l _ f t i r IHr]; intros lo hi; [done|]. intros (? & ? & ? & Hl & Hr)%wf_node. cbn.
  specialize (IHr _ _ Hr). destruct (take_rightmost r) as [[[[f' t'] i'] r']|].
  - destruct IHr as (? & ? & ? & Hr' & Hlook). repeat split; try lia; [done..|].
    intros v. rewrite Hlook. by_range; outs.
  - subst r. repeat split; try lia; [done|]. intros v. by_range; outs.
Qed.

Definition it_spec (lo hi f t : Z) (x : option Z) (n n' : itnode) : Prop :=
  it_wf lo hi n' ∧ ∀ v, look n' v = put_range f t x (look n) v.

Lemma remove_cases l f t i r :
  (l = NIL ∧ itree_remove (ITNODE l f t i r) = r) ∨ (r = NIL ∧ itree_remove (ITNODE l f t i r) = l)
  ∨ (∃ f' t' i' r', take_leftmost r = Some (f', t', i', r') ∧ itree_remove (ITNODE l f t i r) = ITNODE l f' t' i' r')
  ∨ (∃ f' t' i' l', take_rightmost l = Some (f', t', i', l') ∧ itree_remove (ITNODE l f t i r) = ITNODE l' f' t' i' r).
Proof.
  destruct l as [|ll lf lt li lr]; [by left|]. destruct r as [|rl rf rt ri rr]; [by right; left|]. do 2 right. cbn [itree_remove].
  case_if.
  - left. cbn [take_leftmost]. destruct (take_leftmost rl) as [[[[? ?] ?] ?]|]; by repeat eexists.
  - right. cbn [take_rightmost]. destruct (take_rightmost lr) as [[[[? ?] ?] ?]|]; by repeat eexists.
Qed.

Lemma remove_spec lo hi l f t i r : it_wf lo hi (ITNODE l f t i r) →
  it_spec lo hi f t None (ITNODE l f t i r) (itree_remove (ITNODE l f t i r)).
Proof.
  intros (? & ? & ? & Hl & Hr)%wf_node.
  destruct (remove_cases l f t i r) as [[-> ->]|[[-> ->]|[(f' & t' & i' & r' & Ht & ->)|(f' & t' & i' & l' & Ht & ->)]]].
  - split; [apply (wf_weaken _ _ _ _ _ Hr); lia|]. intros v. by_range; outs.
  - split; [apply (wf_weaken _ _ _ _ _ Hl); lia|]. intros v. by_range; outs.
  - assert (Hs := leftmost_spec _ _ _ Hr). rewrite Ht in Hs. destruct Hs as (? & ? & ? & Hr' & Hk). split.
    + apply wf_node. repeat split; try lia; [|done]. apply (wf_weaken _ _ _ _ _ Hl); lia.
    + looks Hk.
  - assert (Hs := rightmost_spec _ _ _ Hl). rewrite Ht in Hs. destruct Hs as (? & ? & ? & Hl' & Hk). split.
    + apply wf_node. repeat split; try lia; [done|]. apply (wf_weaken _ _ _ _ _ Hr); lia.
    + looks Hk.
Qed.

Lemma u32_small z : is_u32 z → u32 z = z.
Proof. intros Hz. by apply Z.mod_small. Qed.

(** The part of a subtree that a larger interval covers. *)
Definition cut_left (f from : Z) (l : itnode) : itnode := if f <? from then itree_delete l f (u32 (from - 1)) else l.
Definition cut_right (to t : Z) (r : itnode) : itnode := if to <? t then itree_delete r (u32 (to + 1)) t else r.

Section node.
Context (lo hi : Z) (l : itnode) (from to id : Z) (r : itnode).
Hypothesis Hlo : 0 ≤ lo.
Hypothesis Hhi : hi ≤ UINT32_MAX.
Hypothesis Hwf : it_wf lo hi (ITNODE l from to id r).
Hypothesis IHld : ∀ f t, 0 ≤ f → f ≤ t → t ≤ UINT32_MAX → it_spec lo (from - 1) f t None l (itree_delete l f t).
Hypothesis IHrd : ∀ f t, 0 ≤ f → f ≤ t → t ≤ UINT32_MAX → it_spec (to + 1) hi f t None r (itree_delete r f t).
Hypothesis IHla : ∀ lo hi f t i, it_wf lo hi l → 0 ≤ lo → hi ≤ UINT32_MAX → lo ≤ f → f ≤ t → t ≤ hi → it_spec lo hi f t (Some i) l (itree_add l f t i).
Hypothesis IHra : ∀ lo hi f t i, it_wf lo hi r → 0 ≤ lo → hi ≤ UINT32_MAX → lo ≤ f → f ≤ t → t ≤ hi → it_spec lo hi f t (Some i) r (itree_add r f t i).

Ltac start := destruct (proj1 (wf_node _ _ _ _ _ _ _) Hwf) as (? & ? & ? & Hl & Hr); unfold UINT32_MAX in *.

Lemma cut_left_spec f t : 0 ≤ f → f ≤ t → f ≤ from → to ≤ t → it_wf lo (f - 1) (cut_left f from l) ∧ ∀ v, look (cut_left f from l) v = if v <? f then look l v else None.
Proof.
  intros ????. start. unfold cut_left. destruct (Z.ltb_spec f from).
  - rewrite u32_small by (unfold is_u32; lia). destruct (IHld f (from - 1)) as [Hw Hk]; [lia..|].
    assert (Hn : ∀ v, look (itree_delete l f (from - 1)) v = if v <? f then look l v else None).
    { intros v. rewrite Hk. by_range; outs. }
    split; [|done]. apply (wf_shrink _ _ _ _ _ Hw). intros v Hv. rewrite Hn. by_range; outs.
  - assert (f = from) as -> by lia. split; [done|]. intros v. by_range; outs.
Qed.

Lemma cut_right_spec f t : t ≤ UINT32_MAX → f ≤ t → f ≤ from → to ≤ t → it_wf (t + 1) hi (cut_right to t r) ∧ ∀ v, look (cut_right to t r) v = if t <? v then look r v else None.
Proof.
  intros ????. start. unfold cut_right. destruct (Z.ltb_spec to t).
  - rewrite u32_small by (unfold is_u32; lia). destruct (IHrd (to + 1) t) as [Hw Hk]; [lia..|].
    assert (Hn : ∀ v, look (itree_delete r (to + 1) t) v = if t <? v then look r v else None).
    { intros v. rewrite Hk. by_range; outs. }
    split; [|done]. apply (wf_shrink _ _ _ _ _ Hw). intros v Hv. rewrite Hn. by_range; outs.
  - assert (t = to) as -> by lia. split; [done|]. intros v. by_range; outs.
Qed.

(** What is left of an interval on both sides of one within it. *)
Definition rest_left (f from id : Z) (l : itnode) : itnode := if from <? f then itree_add l from (u32 (f - 1)) id else l.
Definition rest_right (to t id : Z) (r : itnode) : itnode := if t <? to then itree_add r (u32 (t + 1)) to id else r.

Lemma rest_left_spec f : from ≤ f → f ≤ to → it_wf lo (f - 1) (rest_left f from id l)
  ∧ ∀ v, look (rest_left f from id l) v = put_range from (f - 1) (Some id) (look l) v.
Proof.
  intros ??. start. unfold rest_left. destruct (Z.ltb_spec from f).
  - rewrite u32_small by (unfold is_u32; lia). apply IHla; [apply (wf_weaken _ _ _ _ _ Hl); lia|lia..].
  - assert (f = from) as -> by lia. split; [done|]. intros v. by_range.
Qed.

Lemma rest_right_spec t : from ≤ t → t ≤ to → it_wf (t + 1) hi (rest_right to t id r)
  ∧ ∀ v, look (rest_right to t id r) v = put_range (t + 1) to (Some id) (look r) v.
Proof.
  intros ??. start. unfold rest_right. destruct (Z.ltb_spec t to).
  - rewrite u32_small by (unfold is_u32; lia). apply IHra; [apply (wf_weaken _ _ _ _ _ Hr); lia|lia..].
  - assert (t = to) as -> by lia. split; [done|]. intros v. by_range.
Qed.

Lemma delete_node f t : 0 ≤ f → f ≤ t → t ≤ UINT32_MAX →
  it_spec lo hi f t None (ITNODE l from to id r) (itree_delete (ITNODE l from to id r) f t).
Proof.
  intros ???. start. cbn [itree_delete]. case_if; [|case_if; [|case_if; [|case_if; [|case_if; [|case_if]]]]].
  - destruct (IHld f t) as [Hw Hk]; [lia..|]. split; [done|]. looks Hk.
  - destruct (IHrd f t) as [Hw Hk]; [lia..|]. split; [done|]. looks Hk.
  - fold (cut_left f from l) (cut_right to t r).
    destruct (cut_left_spec f t) as [Hwl Hkl]; [lia..|].
    destruct (cut_right_spec f t) as [Hwr Hkr]; [unfold UINT32_MAX; lia..|].
    destruct (remove_spec lo hi (cut_left f from l) from to id (cut_right to t r)) as [Hw Hk].
    { apply wf_node. repeat split; try lia; [apply (wf_weaken _ _ _ _ _ Hwl)|apply (wf_weaken _ _ _ _ _ Hwr)]; lia. }
    split; [done|]. intros v. rewrite Hk. unfold put_range. cbn [look]. rewrite Hkl, Hkr. by_range; outs.
  - case_if; [|case_if; [|case_if]]; rewrite ?u32_small by (unfold is_u32; lia).
    + subst. split; [apply wf_node; repeat split; try lia; [|done]; apply (wf_weaken _ _ _ _ _ Hl); lia|]. intros v. by_range; outs.
    + subst. split; [apply wf_node; repeat split; try lia; [done|]; apply (wf_weaken _ _ _ _ _ Hr); lia|]. intros v. by_range; outs.
    + destruct (IHra (t + 1) hi (t + 1) to id) as [Hw Hk]; [apply (wf_weaken _ _ _ _ _ Hr); lia|lia..|].
      split; [apply wf_node; repeat split; try lia|].
      * done.
      * apply (wf_shrink _ _ _ _ _ Hw). intros v Hv. rewrite Hk. by_range; outs.
      * looks Hk.
    + destruct (IHla lo (f - 1) from (f - 1) id) as [Hw Hk]; [apply (wf_weaken _ _ _ _ _ Hl); lia|lia..|].
      split; [apply wf_node; repeat split; try lia|].
      * apply (wf_shrink _ _ _ _ _ Hw). intros v Hv. rewrite Hk. by_range; outs.
      * done.
      * looks Hk.
  - rewrite u32_small by (unfold is_u32; lia). destruct (IHld f t) as [Hw Hk]; [lia..|].
    split; [apply wf_node; repeat split; try lia; [apply (wf_weaken _ _ _ _ _ Hw); lia|done]|]. looks Hk.
  - rewrite u32_small by (unfold is_u32; lia). destruct (IHrd f t) as [Hw Hk]; [lia..|].
    split; [apply wf_node; repeat split; try lia; [done|apply (wf_weaken _ _ _ _ _ Hw); lia]|looks Hk].
  - lia.
Qed.

Lemma add_node f t i : lo ≤ f → f ≤ t → t ≤ hi →
  it_spec lo hi f t (Some i) (ITNODE l from to id r) (itree_add (ITNODE l from to id r) f t i).
Proof.
  intros ???. start.
  cbn [itree_add]. case_if; [|case_if; [|case_if; [|case_if; [|case_if; [|case_if]]]]].
  - destruct (IHla lo (from - 1) f t i) as [Hw Hk]; [done|lia..|]. split; [done|looks Hk].
  - destruct (IHra (to + 1) hi f t i) as [Hw Hk]; [done|lia..|]. split; [done|looks Hk].
  - fold (cut_left f from l) (cut_right to t r).
    destruct (cut_left_spec f t) as [Hwl Hkl]; [lia..|].
    destruct (cut_right_spec f t) as [Hwr Hkr]; [unfold UINT32_MAX; lia..|].
    split; [done|]. intros v. unfold put_range. cbn [look]. rewrite Hkl, Hkr. by_range; outs.
  - fold (rest_left f from id l) (rest_right to t id r).
    destruct (rest_left_spec f) as [Hwl Hkl]; [lia..|]. destruct (rest_right_spec t) as [Hwr Hkr]; [unfold UINT32_MAX; lia..|].
    split; [done|]. intros v. unfold put_range. cbn [look]. rewrite Hkl, Hkr. by_range; outs.
  - rewrite u32_small by (unfold is_u32; lia). destruct (IHla lo t f t i) as [Hw Hk]; [apply (wf_weaken _ _ _ _ _ Hl); lia|lia..|].
    split; [apply wf_node; repeat split; try lia; [apply (wf_weaken _ _ _ _ _ Hw); lia|done]|looks Hk].
  - rewrite u32_small by (unfold is_u32; lia). destruct (IHra f hi f t i) as [Hw Hk]; [apply (wf_weaken _ _ _ _ _ Hr); lia|lia..|].
    split; [apply wf_node; repeat split; try lia; [done|apply (wf_weaken _ _ _ _ _ Hw); lia]|looks Hk].
  - lia.
Qed.

End node.

Lemma ops_spec n lo hi : it_wf lo hi n → 0 ≤ lo → hi ≤ UINT32_MAX →
  (∀ f t, 0 ≤ f → f ≤ t → t ≤ UINT32_MAX → it_spec lo hi f t None n (itree_delete n f t)) ∧
  (∀ f t i, lo ≤ f → f ≤ t → t ≤ hi → it_spec lo hi f t (Some i) n (itree_add n f t i)).
Proof.
  revert lo hi. induction n as [|l IHl f t i r IHr]; intros lo hi Hwf Hlo Hhi.
  - split; intros; (split; [cbn; lia|intros v; by_range]).
  - destruct (proj1 (wf_node _ _ _ _ _ _ _) Hwf) as (? & ? & ? & Hl & Hr).
    destruct (IHl lo (f - 1)) as [Dl _]; [done|lia..|]. destruct (IHr (t + 1) hi) as [Dr _]; [done|lia..|].
    assert (Al : ∀ lo hi f t i, it_wf lo hi l → 0 ≤ lo → hi ≤ UINT32_MAX → lo ≤ f → f ≤ t → t ≤ hi → it_spec lo hi f t (Some i) l (itree_add l f t i)).
    { intros lo' hi' ? ? ? Hw' ? ?. by apply (IHl lo' hi'). }
    assert (Ar : ∀ lo hi f t i, it_wf lo hi r → 0 ≤ lo → hi ≤ UINT32_MAX → lo ≤ f → f ≤ t → t ≤ hi → it_spec lo hi f t (Some i) r (itree_add r f t i)).
    { intros lo' hi' ? ? ? Hw' ? ?. by apply (IHr lo' hi'). }
    split; intros; [by apply delete_node|by apply add_node].
Qed.

(** ** The list of the intervals *)

Fixpoint list_wf (lo hi : Z) (l : list (Z * Z * Z)) : Prop :=
  match l with
  | [] => True
  | (f, t, _) :: l => lo ≤ f ∧ f ≤ t ∧ t ≤ hi ∧ list_wf (t + 1) hi l
  end.

Fixpoint list_look (l : list (Z * Z * Z)) (v : Z) : option Z :=
  match l with
  | [] => None
  | (f, t, i) :: l => put_range f t (Some i) (list_look l) v
  end.

Lemma list_wf_mid lo hi a f t i b :
  list_wf lo hi (a ++ (f, t, i) :: b) ↔ lo ≤ f ∧ f ≤ t ∧ t ≤ hi ∧ list_wf lo (f - 1) a ∧ list_wf (t + 1) hi b.
Proof.
  revert lo. induction a as [|[[f' t'] i'] a IH]; intros lo; cbn; [tauto|]. rewrite IH. split; intros; intuition lia.
Qed.

Lemma list_look_out lo hi l v : list_wf lo hi l → v < lo ∨ hi < v → list_look l v = None.
Proof.
  revert lo. induction l as [|[[f t] i] l IH]; intros lo; [done|]. intros (? & ? & ? & Hl) Hv. by_range. apply (IH _ Hl). lia.
Qed.

Lemma list_look_app a b v : list_look (a ++ b) v = match list_look a v with Some i => Some i | None => list_look b v end.
Proof. induction a as [|[[f t] i] a IH]; [done|]. cbn [app list_look]. unfold put_range. by case_bool_decide. Qed.

Lemma tolist_wf lo hi n : it_wf lo hi n ↔ list_wf lo hi (itree_tolist n).
Proof.
  revert lo hi. induction n as [|l IHl f t i r IHr]; intros lo hi; [done|]. cbn [itree_tolist].
  by rewrite wf_node, list_wf_mid, IHl, IHr.
Qed.

Lemma tolist_look lo hi n v : it_wf lo hi n → look n v = list_look (itree_tolist n) v.
Proof.
  revert lo hi. induction n as [|l IHl f t i r IHr]; intros lo hi; [done|]. intros (? & ? & ? & Hl & Hr)%wf_node.
  cbn [itree_tolist]. rewrite list_look_app, <-(IHl _ _ Hl). cbn [list_look]. unfold put_range. rewrite <-(IHr _ _ Hr).
  by_range; outs; by case_match.
Qed.

(** Neighbours that touch have different identifiers. *)
Fixpoint merged (l : list (Z * Z * Z)) : Prop :=
  match l with
  | (_, t, i) :: (((f', _, i') :: _) as l') => (t + 1 ≠ f' ∨ i ≠ i') ∧ merged l'
  | _ => True
  end.

Lemma simplify_loop_spec lo hi f t i l : 0 ≤ lo → hi ≤ UINT32_MAX → list_wf lo hi ((f, t, i) :: l) →
  list_wf lo hi (simplify_loop (f, t, i) l) ∧ (∀ v, list_look (simplify_loop (f, t, i) l) v = list_look ((f, t, i) :: l) v)
  ∧ (∃ t' l', simplify_loop (f, t, i) l = (f, t', i) :: l') ∧ merged (simplify_loop (f, t, i) l).
Proof.
  intros Hlo Hhi. unfold UINT32_MAX in *. revert lo f t i Hlo. induction l as [|[[f' t'] i'] l IH]; intros lo f t i Hlo Hwf.
  { split; [done|]. split; [done|]. split; [by exists t, []|done]. }
  destruct Hwf as (? & ? & ? & ? & ? & ? & Hl). cbn [simplify_loop]. case_if.
  - subst i'. rewrite u32_small in * by (unfold is_u32; lia). subst f'.
    destruct (IH lo f t' i) as (Hw & Hk & Hh & Hm); [done|cbn; intuition lia|]. split; [done|]. split; [|done].
    intros v. rewrite Hk. by_range.
  - destruct (IH (t + 1) f' t' i') as (Hw & Hk & (t2 & l2 & He) & Hm); [lia|cbn; intuition lia|].
    split; [cbn; intuition lia|]. split; [intros v; cbn [list_look]; unfold put_range; by rewrite Hk|]. split; [eauto|].
    rewrite He in Hm |- *. cbn [merged]. split; [|done].
    destruct E as [E|E]; zbool; [by right|]. left. intros Hx. apply E. rewrite u32_small by (unfold is_u32; lia). done.
Qed.

Lemma simplify_spec lo hi l : 0 ≤ lo → hi ≤ UINT32_MAX → list_wf lo hi l →
  list_wf lo hi (itree_simplify l) ∧ (∀ v, list_look (itree_simplify l) v = list_look l v) ∧ merged (itree_simplify l).
Proof.
  intros Hlo Hhi Hl. destruct l as [|[[f t] i] l]; [done|]. destruct (simplify_loop_spec lo hi f t i l) as (? & ? & _ & ?); auto.
Qed.

Lemma middle_spec {A} (i m : list A) : (length i ≤ length m)%nat → middle i m = (take (length i / 2) m, drop (length i / 2) m).
Proof.
  remember (length i) as k eqn:Hk. revert i m Hk. induction k as [k IH] using lt_wf_ind. intros i m -> Hm.
  destruct i as [|x [|y i]]; [done|by destruct m|]. destruct m as [|z m]; [cbn in Hm; lia|]. cbn [middle].
  rewrite (IH (length i)) by (cbn in *; lia). cbn [length] in *.
  replace (S (S (length i))) with (length i + 1 * 2)%nat by lia. rewrite Nat.div_add, Nat.add_1_r by lia. done.
Qed.

Fixpoint depth (n : itnode) : nat := match n with NIL => 0 | ITNODE l _ _ _ r => S (depth l `max` depth r) end.

Lemma totree_spec fuel l : (length l < fuel)%nat → ∃ n, itree_totree fuel l = Some n ∧ itree_tolist n = l
  ∧ ∀ d, (length l < 2 ^ d)%nat → (depth n ≤ d)%nat.
Proof.
  revert l. induction fuel as [|fuel IH]; intros l Hf; [lia|]. cbn [itree_totree]. rewrite middle_spec by lia.
  assert (Hs := take_drop (length l / 2) l). assert (Hlt := length_take l (length l / 2)). assert (Hld := length_drop l (length l / 2)).
  assert (Hhalf : (l ≠ [] → length l / 2 < length l)%nat).
  { intros Hne. apply Nat.div_lt; [destruct l; [done|cbn; lia]|lia]. }
  assert (Hdm := Nat.div_mod_eq (length l) 2). assert (Hmb := Nat.mod_upper_bound (length l) 2 ltac:(lia)).
  destruct (drop (length l / 2) l) as [|[[f t] i] r].
  - destruct (decide (l = [])) as [->|Hne]; [|specialize (Hhalf Hne); cbn [length] in Hld; lia]. exists NIL. repeat split. intros. cbn. lia.
  - cbn [length] in Hld. destruct (IH r) as (nr & -> & Hnr & Hdr); [lia|]. destruct (IH (take (length l / 2) l)) as (nl & -> & Hnl & Hdl); [lia|].
    cbn. eexists. split; [done|]. cbn [itree_tolist]. rewrite Hnl, Hnr. split; [done|]. intros d Hd. cbn [depth].
    destruct d as [|d]; [cbn in Hd; lia|]. cbn [Nat.pow] in Hd. specialize (Hdl d). specialize (Hdr d). lia.
Qed.

Lemma rebalance_spec lo hi n : it_wf lo hi n → 0 ≤ lo → hi ≤ UINT32_MAX → ∃ n', itree_rebalance n = Some n' ∧ it_wf lo hi n'
  ∧ (∀ v, look n' v = look n v) ∧ merged (itree_tolist n')
  ∧ ∀ d, (length (itree_tolist n') < 2 ^ d)%nat → (depth n' ≤ d)%nat.
Proof.
  intros Hwf Hlo Hhi. destruct (simplify_spec lo hi (itree_tolist n)) as (Hw & Hk & Hm); [done..|by apply tolist_wf|].
  unfold itree_rebalance. destruct (totree_spec (S (length (itree_simplify (itree_tolist n)))) (itree_simplify (itree_tolist n))) as (n' & -> & Hl & Hd); [lia|].
  rewrite <-Hl in Hw. apply tolist_wf in Hw. exists n'. repeat split; [done| |by rewrite Hl|by rewrite Hl].
  intros v. by rewrite (tolist_look _ _ _ v Hw), Hl, Hk, (tolist_look _ _ _ v Hwf).
Qed.

Lemma add_interval_spec n f t i : it_wf 0 UINT32_MAX n → is_u32 f → is_u32 t →
  it_spec 0 UINT32_MAX (f `min` t) (f `max` t) (if i =? 0 then None else Some i) n (itree_add_interval n f t i).
Proof.
  intros Hwf Hf Ht. unfold is_u32 in *. destruct (ops_spec n 0 UINT32_MAX) as [D A]; [done..|]. unfold itree_add_interval, UINT32_MAX in *.
  destruct (i =? 0), (Z.ltb_spec t f); first [rewrite Z.min_r, Z.max_l by lia|rewrite Z.min_l, Z.max_r by lia]; first [apply D|apply A]; lia.
Qed.
