(* ===== verification/Topology.v ===== *)
(** * The topology of the network (topology.c)

    A file assigns ranges of addresses to locations, paths of words separated by bars.
    The locations are numbered through a hash table of names; the numbers of addresses
    are kept in an interval tree ([IntervalTree]).  The file is a list of lines, as
    [getline] gives them, with the outcome of [ferror].  A result [None] stands for
    undefined behaviour: an access outside of an array, or a shift by the width of the
    word.  Strings are lists of bytes without the final zero; messages are left out. *)

From S2P Require Import Prelude GlobEngine IntervalTree.

Definition HASHTABSIZE : Z := 4096.

(** ** Names and numbers *)

Record rackhashentry := mk_rhe { rackname : list Z; rackid : Z; rhash : Z }.

(** [rackidtab] holds the names the entries point to. *)
Record racknames := mk_racknames {
  rackhashtab : gmap Z (list rackhashentry); rackidtab : list (option (list Z)); rackidtabsize : Z; rackidnext : Z }.

Definition hashstr_poly (key : list Z) (hash : Z) : Z :=
  foldl (λ hash p, u32 (hash * 29791 + p)) (Z.lxor hash 1000000007) key.

Definition topology_rackname_hash (name : list Z) : Z := hashstr_poly name 0.

(** The table with room for one more, and the number. *)
Definition topology_get_next_free_rackid (s : racknames) : racknames * Z :=
  let '(size, next) :=
    if rackidtabsize s =? 0 then (1024, 1)
    else if rackidtabsize s <=? rackidnext s then (u32 (rackidtabsize s * 3) / 2, rackidnext s)
    else (rackidtabsize s, rackidnext s) in
  let tab := take (Z.to_nat (rackidtabsize s)) (rackidtab s) ++ replicate (Z.to_nat (size - rackidtabsize s)) None in
  (mk_racknames (rackhashtab s) tab size (u32 (next + 1)), next).

Definition chain (s : racknames) (pos : Z) : list rackhashentry := default [] (rackhashtab s !! pos).

Definition topology_rackname_to_rackid (s : racknames) (name : list Z) : option (racknames * Z) :=
  let hash := topology_rackname_hash name in
  let hashpos := hash mod HASHTABSIZE in
  match list_find (λ e, rhash e = hash ∧ rackname e = name) (chain s hashpos) with
  | Some (_, e) => Some (s, rackid e)
  | None =>
      let '(s, id) := topology_get_next_free_rackid s in
      let ch := mk_rhe name id hash :: chain s hashpos in
      if (Z.to_nat id <? length (rackidtab s))%nat then
        Some (mk_racknames (<[hashpos := ch]> (rackhashtab s)) (<[Z.to_nat id := Some name]> (rackidtab s)) (rackidtabsize s)
          (rackidnext s), id)
      else None
  end.

(** The outer [None] is an access outside of the table or to an empty entry, the inner
    one the answer [NULL]. *)
Definition topology_rackid_to_rackname (s : racknames) (id : Z) : option (option (list Z)) :=
  if id =? 0 then Some (Some [])
  else if id <? rackidnext s then
    match rackidtab s !! Z.to_nat id with Some (Some name) => Some (Some name) | _ => None end
  else Some None.

Definition topology_rackname_init : racknames := mk_racknames ∅ [] 0 0.

(** ** Ranges of addresses *)

Inductive net_result := NET_OK (from to : Z) | NET_BAD | NET_UNDEFINED.

Definition is_digit (c : Z) : bool := (48 <=? c) && (c <=? 57).

Fixpoint octet_loop (octet : Z) (net : list Z) : option (Z * list Z) :=
  match net with
  | c :: net' =>
      if is_digit c then
        let octet := octet * 10 + (c - 48) in
        if 255 <? octet then None else octet_loop octet net'
      else Some (octet, net)
  | [] => Some (octet, [])
  end.

Definition read_octet (net : list Z) : option (Z * list Z) :=
  match net with
  | c :: _ => if is_digit c then octet_loop 0 net else None
  | [] => None
  end.

(** [n] octets are still to come. *)
Fixpoint ip_loop (n : nat) (ip : Z) (net : list Z) : option (Z * list Z) :=
  match n with
  | O => Some (ip, net)
  | S n =>
      '(octet, net) ← read_octet net;
      net ← (if (0 <? n)%nat then match net with 46 :: net => Some net | _ => None end else Some net);
      ip_loop n (u32 (u32 (ip * 256) + octet)) net
  end.

(** After the slash: a number of bits, or a mask.  [None]: the shift is undefined. *)
Definition parse_mask (net : list Z) : option (option Z) :=
  match read_octet net with
  | None => Some None
  | Some (octet, net') =>
      if bool_decide (net' = []) && (octet <=? 32) then
        if octet <? 32 then
          if octet =? 0 then None else Some (Some (u32 (Z.shiftl 0xFFFFFFFF (32 - octet))))
        else Some (Some 0xFFFFFFFF)
      else
        match ip_loop 4 0 net with
        | Some (ip, []) => Some (Some ip)
        | _ => Some None
        end
  end.

Definition topology_parsenet (net : list Z) : net_result :=
  if bool_decide (net = [42]) then NET_OK 0 0xFFFFFFFF
  else match ip_loop 4 0 net with
  | None => NET_BAD
  | Some (ip, net) =>
      match net with
      | [] => NET_OK ip ip
      | 47 :: net =>
          match parse_mask net with
          | None => NET_UNDEFINED
          | Some None => NET_BAD
          | Some (Some mask) => let from := Z.land ip mask in NET_OK from (Z.lor from (Z.lxor mask 0xFFFFFFFF))
          end
      | 45 :: net =>
          match ip_loop 4 0 net with
          | Some (ip', []) => NET_OK ip ip'
          | _ => NET_BAD
          end
      | _ => NET_BAD
      end
  end.

(** ** Lines *)

Definition blank (c : Z) : bool := (c =? 32) || (c =? 9).

Fixpoint skip_blanks (p : list Z) : list Z :=
  match p with c :: p' => if blank c then skip_blanks p' else p | [] => [] end.

(** The word at the start and what follows it. *)
Fixpoint split_word (p : list Z) : list Z * list Z :=
  match p with
  | c :: p' => if blank c then ([], p) else let '(w, r) := split_word p' in (c :: w, r)
  | [] => ([], [])
  end.

Definition end_or_comment (p : list Z) : bool := match p with [] => true | c :: _ => c =? 35 end.

Inductive line_result := LINE_OK (from to rid : Z) | LINE_SKIP.

Definition topology_parseline (s : racknames) (line : list Z) : option (racknames * line_result) :=
  let p := skip_blanks line in
  if end_or_comment p then Some (s, LINE_SKIP)
  else
    let '(net, p) := split_word p in
    if bool_decide (p = []) then Some (s, LINE_SKIP)
    else match topology_parsenet net with
    | NET_UNDEFINED => None
    | NET_BAD => Some (s, LINE_SKIP)
    | NET_OK from to =>
        let p := skip_blanks p in
        if end_or_comment p then Some (s, LINE_SKIP)
        else
          let '(name, p) := split_word p in
          '(s, rid) ← topology_rackname_to_rackid s name;
          if end_or_comment (skip_blanks p) then Some (s, LINE_OK from to rid) else Some (s, LINE_SKIP)
    end.

Definition line_end (c : Z) : bool := (c =? 13) || (c =? 10) || (c =? 9) || (c =? 32).

(** The line without the white space at its end. *)
Fixpoint strip (line : list Z) : list Z :=
  match line with
  | [] => []
  | c :: l => match strip l with [] => if line_end c then [] else [c] | l => c :: l end
  end.

(** ** Loading *)

Fixpoint load_lines (lines : list (list Z)) (s : racknames) (tree : itnode) : option (racknames * itnode) :=
  match lines with
  | [] => Some (s, tree)
  | line :: lines =>
      let line := strip (c_string line) in
      if bool_decide (line = []) then load_lines lines s tree
      else
        '(s, r) ← topology_parseline s line;
        load_lines lines s (match r with LINE_OK from to rid => itree_add_interval tree from to rid | LINE_SKIP => tree end)
  end.

Record topology := mk_topology { racktree : itnode; names : racknames }.

(** The file as [fopen] and [getline] give it. *)
Inductive topology_file := NO_FILE | FILE (lines : list (list Z)) (ferror : bool).

Definition topology_load (file : topology_file) (tp : topology) : option topology :=
  match file with
  | NO_FILE => Some tp
  | FILE lines ferror =>
      '(s, newtree) ← load_lines lines topology_rackname_init NIL;
      if ferror : bool then Some tp
      else tree ← itree_rebalance newtree; Some (mk_topology tree s)
  end.

Definition topology_start : topology := mk_topology NIL topology_rackname_init.

(** ** Distance *)

Definition topology_get_rackid (tp : topology) (ip : Z) : Z := itree_find (racktree tp) ip.

(** The position of the last bar the names have in common; [None]: the names are equal. *)
Fixpoint common_loop (a b : list Z) (pos lastbar : nat) : option nat :=
  match a, b with
  | [], [] => None
  | [], y :: _ => Some (if y =? 124 then pos else lastbar)
  | x :: _, [] => Some (if x =? 124 then pos else lastbar)
  | x :: a, y :: b =>
      if x =? y then common_loop a b (S pos) (if x =? 124 then pos else lastbar) else Some lastbar
  end.

Fixpoint bars_loop (l : Z) (p : list Z) : Z :=
  match p with [] => l | c :: p => bars_loop (if c =? 124 then u8 (l + 1) else l) p end.

Definition count_bars (name : list Z) (lastbar : nat) : Z :=
  bars_loop 0 (match drop lastbar name with c :: p => if c =? 124 then p else c :: p | [] => [] end).

Definition topology_distance (tp : topology) (ip1 ip2 : Z) : option Z :=
  if ip1 =? ip2 then Some 0
  else
    let rid1 := itree_find (racktree tp) ip1 in
    let rid2 := itree_find (racktree tp) ip2 in
    if rid1 =? rid2 then Some 1
    else
      rname1 ← topology_rackid_to_rackname (names tp) rid1;
      rname2 ← topology_rackid_to_rackname (names tp) rid2;
      let far lastbar :=
        let l1 := match rname1 with Some n => count_bars n lastbar | None => 0 end in
        let l2 := match rname2 with Some n => count_bars n lastbar | None => 0 end in
        Some (if l2 <? l1 then u8 (2 + l1) else u8 (2 + l2)) in
      match rname1, rname2 with
      | None, None => Some 1
      | Some n1, Some n2 =>
          match common_loop n1 n2 0 0 with None => Some 1 | Some lastbar => far lastbar end
      | _, _ => far O
      end.
