(* ===== verification/TopologyProps.v ===== *)
(** * What the topology guarantees

    The table of names numbers them one to one; after loading a file an address has the
    location of the last line that covers it; a line in one of the forms of the manual
    page has the meaning given there; the distance of two addresses is the one the
    manual page defines from their locations. *)

From S2P Require Import Prelude GlobEngine IntervalTree Topology.

(** ** Names and numbers *)

Record names_inv (s : racknames) : Prop := {
  ni_size : rackidtabsize s = Z.of_nat (length (rackidtab s));
  ni_next : (rackidtabsize s = 0 ∧ rackidnext s = 0) ∨ (1 ≤ rackidnext s ≤ rackidtabsize s ∧ 1024 ≤ rackidtabsize s);
  ni_tab : ∀ id, 1 ≤ id < rackidnext s → ∃ name, rackidtab s !! Z.to_nat id = Some (Some name)
    ∧ mk_rhe name id (topology_rackname_hash name) ∈ chain s (topology_rackname_hash name mod HASHTABSIZE);
  ni_chain : ∀ pos e, e ∈ chain s pos → rhash e = topology_rackname_hash (rackname e) ∧ pos = rhash e mod HASHTABSIZE
    ∧ 1 ≤ rackid e < rackidnext s ∧ rackidtab s !! Z.to_nat (rackid e) = Some (Some (rackname e));
  ni_inj : ∀ id id' name, 1 ≤ id < rackidnext s → 1 ≤ id' < rackidnext s → rackidtab s !! Z.to_nat id = Some (Some name) →
    rackidtab s !! Z.to_nat id' = Some (Some name) → id = id' }.

Lemma names_init : names_inv topology_rackname_init.
Proof.
  split; cbn; [done|by left|lia| |lia]. intros pos e He. exfalso. revert He. unfold chain. cbn. rewrite lookup_empty. by intros ?%elem_of_nil.
Qed.

(** The name of a number. *)
Definition has_name (s : racknames) (id : Z) (name : list Z) : Prop :=
  1 ≤ id < rackidnext s ∧ rackidtab s !! Z.to_nat id = Some (Some name).

Lemma next_free_spec s : names_inv s → rackidnext s < 2 ^ 30 → ∃ s' id, topology_get_next_free_rackid s = (s', id)
  ∧ 1 ≤ id ∧ id = rackidnext s `max` 1 ∧ rackidnext s' = id + 1 ∧ rackhashtab s' = rackhashtab s
  ∧ rackidtabsize s' = Z.of_nat (length (rackidtab s')) ∧ id + 1 ≤ rackidtabsize s' ∧ 1024 ≤ rackidtabsize s'
  ∧ ∃ k, rackidtab s' = rackidtab s ++ replicate k None.
Proof.
  intros [Hsize Hnext _ _ _] Hb. unfold topology_get_next_free_rackid.
  assert (Ht : take (Z.to_nat (rackidtabsize s)) (rackidtab s) = rackidtab s) by (apply take_ge; lia).
  case_if; [|case_if]; eexists _, _; (split; [reflexivity|]); cbn [rackidnext rackhashtab rackidtabsize rackidtab].
  - rewrite u32_small by (unfold is_u32; lia). rewrite Ht, length_app, length_replicate. repeat split; try lia. by eexists.
  - destruct Hnext as [|Hnext]; [lia|].
    assert (Hg : rackidtabsize s + 512 ≤ u32 (rackidtabsize s * 3) / 2).
    { rewrite u32_small by (unfold is_u32; lia). apply Z.div_le_lower_bound; lia. }
    rewrite Ht, length_app, length_replicate. rewrite (u32_small (rackidnext s + 1)) by (unfold is_u32; lia).
    repeat split; try lia. by eexists.
  - destruct Hnext as [|Hnext]; [lia|]. rewrite Ht, length_app, length_replicate. rewrite (u32_small (rackidnext s + 1)) by (unfold is_u32; lia).
    repeat split; try lia. by eexists.
Qed.

Lemma names_have s id : names_inv s → 1 ≤ id < rackidnext s → ∃ name, has_name s id name.
Proof. intros Hs Hid. destruct (ni_tab s Hs id Hid) as (n & Hn & _). by exists n. Qed.

Section new_name.
Context (s s' : racknames) (id : Z) (name : list Z) (k : nat).
Let hash := topology_rackname_hash name.
Let hashpos := hash mod HASHTABSIZE.
Hypothesis Hs : names_inv s.
Hypothesis Hnew : ∀ e, e ∈ chain s hashpos → ¬ (rhash e = hash ∧ rackname e = name).
Hypothesis Hmax : id = rackidnext s `max` 1.
Hypothesis Hnext : rackidnext s' = id + 1.
Hypothesis Hh : rackhashtab s' = rackhashtab s.
Hypothesis Hsize : rackidtabsize s' = Z.of_nat (length (rackidtab s')).
Hypothesis Hle : id + 1 ≤ rackidtabsize s'.
Hypothesis Hbig : 1024 ≤ rackidtabsize s'.
Hypothesis Hk : rackidtab s' = rackidtab s ++ replicate k None.

Definition with_name : racknames :=
  mk_racknames (<[hashpos := mk_rhe name id hash :: chain s' hashpos]> (rackhashtab s'))
    (<[Z.to_nat id := Some name]> (rackidtab s')) (rackidtabsize s') (rackidnext s').

Lemma with_name_old id0 n : has_name s id0 n → has_name with_name id0 n.
Proof.
  intros [Hid Hn]. split; cbn; [lia|]. rewrite list_lookup_insert_ne by lia. rewrite Hk. by apply lookup_app_l_Some.
Qed.

Lemma with_name_new : has_name with_name id name.
Proof. split; cbn; [lia|]. rewrite list_lookup_insert_eq; [done|lia]. Qed.

Lemma with_name_chain pos : chain with_name pos = if bool_decide (pos = hashpos) then mk_rhe name id hash :: chain s pos else chain s pos.
Proof.
  unfold chain. cbn. case_bool_decide as Hp.
  - subst pos. rewrite lookup_insert_eq. cbn. unfold chain. by rewrite Hh.
  - by rewrite lookup_insert_ne, Hh by done.
Qed.

Lemma with_name_has id0 n : has_name with_name id0 n → (id0 = id ∧ n = name) ∨ (has_name s id0 n ∧ id0 ≠ id).
Proof.
  intros [Hid Hn]. cbn in Hid, Hn. destruct (decide (id0 = id)) as [->|Hne].
  - left. rewrite list_lookup_insert_eq in Hn by lia. by simplify_eq.
  - right. split; [|done]. rewrite list_lookup_insert_ne in Hn by lia. split; [lia|].
    rewrite Hk in Hn. apply lookup_app_Some in Hn as [Hn|[_ Hn]]; [done|].
    apply lookup_replicate in Hn as [? _]. done.
Qed.

Lemma fresh_name id0 : ¬ has_name s id0 name.
Proof.
  intros [Hid Hn]. destruct (ni_tab s Hs id0 Hid) as (n & Hn' & Hc). rewrite Hn in Hn'. simplify_eq. exact (Hnew _ Hc (conj eq_refl eq_refl)).
Qed.

Lemma with_name_inv : names_inv with_name.
Proof.
  split.
  - cbn. by rewrite length_insert.
  - cbn. right. lia.
  - intros id0 Hid. cbn in Hid. destruct (decide (id0 = id)) as [->|Hne].
    + exists name. split; [apply with_name_new|]. rewrite with_name_chain, bool_decide_true by done. by left.
    + destruct (ni_tab s Hs id0) as (n & Hn & Hc); [lia|]. exists n. split; [by apply with_name_old; split; [lia|]|].
      rewrite with_name_chain. case_bool_decide; [by right|done].
  - intros pos e He. rewrite with_name_chain in He.
    assert (Hcase : (pos = hashpos ∧ e = mk_rhe name id hash) ∨ e ∈ chain s pos).
    { case_bool_decide; [|by right]. apply elem_of_cons in He as [->|]; [by left|by right]. }
    destruct Hcase as [[-> ->]|Hc].
    + cbn [rhash rackname rackid]. split; [done|]. split; [done|]. destruct with_name_new as [? Hn]. split; [done|exact Hn].
    + destruct (ni_chain s Hs _ _ Hc) as (? & ? & Hid & Hn). split; [done|]. split; [done|].
      destruct (with_name_old (rackid e) (rackname e)) as [? Hn']; [done|]. done.
  - intros id1 id2 n H1 H2 Hn1 Hn2.
    destruct (with_name_has id1 n) as [[E1 E1']|[Ha Hne]]; [done| |]; destruct (with_name_has id2 n) as [[E2 E2']|[Hb Hne']]; try done.
    + by subst.
    + exfalso. apply (fresh_name id2). by rewrite <-E1'.
    + exfalso. apply (fresh_name id1). by rewrite <-E2'.
    + apply (ni_inj s Hs id1 id2 n); [apply Ha|apply Hb|apply Ha|apply Hb].
Qed.

End new_name.

Lemma rackname_to_rackid_spec s name : names_inv s → rackidnext s < 2 ^ 30 → ∃ s' id,
  topology_rackname_to_rackid s name = Some (s', id) ∧ names_inv s' ∧ has_name s' id name
  ∧ (∀ id0 n, has_name s id0 n → has_name s' id0 n) ∧ rackidnext s' ≤ rackidnext s `max` 1 + 1.
Proof.
  intros Hs Hb. unfold topology_rackname_to_rackid. set (hash := topology_rackname_hash name).
  destruct (list_find _ _) as [[j e]|] eqn:Hf.
  - apply list_find_Some in Hf as (Hj & [He1 He2] & _). apply list_elem_of_lookup_2 in Hj.
    destruct (ni_chain s Hs _ _ Hj) as (_ & _ & Hid & Hn). exists s, (rackid e).
    split; [done|]. split; [done|]. split; [by rewrite <-He2|]. split; [done|lia].
  - destruct (next_free_spec s Hs Hb) as (s' & id & -> & Hid & Hmax & Hnext & Hh & Hsize & Hle & Hbig & k & Hk).
    rewrite (proj2 (Nat.ltb_lt _ _)) by lia. eexists _, _. split; [done|].
    assert (Hnew : ∀ e, e ∈ chain s (hash mod HASHTABSIZE) → ¬ (rhash e = hash ∧ rackname e = name)).
    { intros e He. apply list_find_None in Hf. rewrite Forall_forall in Hf. by apply Hf. }
    split; [by apply (with_name_inv s s' id name k)|]. split; [by apply (with_name_new s s' id name)|].
    split; [intros id0 n; by apply (with_name_old s s' id name k)|]. cbn. lia.
Qed.

(** ** Loading *)

(** What a line defines: nothing, or a range and a location; [None] is undefined
    behaviour. *)
Definition line_meaning (line : list Z) : option (option (Z * Z * list Z)) :=
  let p := skip_blanks line in
  let '(net, q) := split_word p in
  if end_or_comment p || bool_decide (q = []) then Some None
  else match topology_parsenet net with
  | NET_UNDEFINED => None
  | NET_BAD => Some None
  | NET_OK from to =>
      let '(name, rest) := split_word (skip_blanks q) in
      Some (if negb (end_or_comment (skip_blanks q)) && end_or_comment (skip_blanks rest) then Some (from, to, name) else None)
  end.

(** The definitions of a file, in order. *)
Definition file_meaning (lines : list (list Z)) : option (list (Z * Z * list Z)) :=
  ms ← mapM (λ line, line_meaning (strip (c_string line))) lines; Some (omap id ms).

Definition covers (d : Z * Z * list Z) (ip : Z) : Prop := let '(f, t, _) := d in f `min` t ≤ ip ≤ f `max` t.
#[export] Instance covers_dec d ip : Decision (covers d ip).
Proof. destruct d as [[f t] n]. apply _. Defined.

(** The location of an address: that of the last definition that covers it. *)
Definition location (defs : list (Z * Z * list Z)) (ip : Z) : list Z :=
  foldl (λ loc d, if decide (covers d ip) then d.2 else loc) [] defs.

Lemma lor_u32 a b : is_u32 a → is_u32 b → is_u32 (Z.lor a b).
Proof.
  intros [Ha Hab]%is_u32_bits [Hb Hbb]%is_u32_bits. apply is_u32_bits. split; [by apply Z.lor_nonneg|].
  intros i Hi. by rewrite Z.lor_spec, Hab, Hbb.
Qed.

Lemma land_u32 a b : is_u32 a → 0 ≤ b → is_u32 (Z.land a b).
Proof.
  intros [Ha Hab]%is_u32_bits Hb. apply is_u32_bits. split; [apply Z.land_nonneg; by left|].
  intros i Hi. by rewrite Z.land_spec, Hab.
Qed.

Lemma u32_is_u32 x : is_u32 (u32 x).
Proof. unfold is_u32, u32. apply Z.mod_pos_bound. lia. Qed.

Lemma ip_loop_u32 n ip net ip' r : is_u32 ip → ip_loop n ip net = Some (ip', r) → is_u32 ip'.
Proof.
  revert ip net. induction n as [|n IH]; intros ip net Hip H; cbn in H; [by simplify_eq|].
  destruct (read_octet net) as [[o q]|]; [|done]. cbn in H.
  destruct (if (0 <? n)%nat then _ else _) as [q'|]; [|done]. cbn in H. eapply IH; [|done]. apply u32_is_u32.
Qed.

Lemma not_u32 m : is_u32 m → is_u32 (Z.lxor m 0xFFFFFFFF).
Proof.
  intros [Hm Hb]%is_u32_bits. apply is_u32_bits. split; [by apply Z.lxor_nonneg|]. intros i Hi. rewrite Z.lxor_spec, Hb by done.
  apply (proj1 (is_u32_bits 0xFFFFFFFF)); [by unfold is_u32|done].
Qed.

Lemma parsenet_u32 net f t : topology_parsenet net = NET_OK f t → is_u32 f ∧ is_u32 t.
Proof.
  unfold topology_parsenet. case_bool_decide; [intros [= <- <-]; by unfold is_u32|].
  destruct (ip_loop 4 0 net) as [[ip q]|] eqn:Hip; [|done]. apply ip_loop_u32 in Hip; [|by unfold is_u32].
  destruct q as [|c q]; [by intros [= <- <-]|].
  assert (Hr : (match ip_loop 4 0 q with Some (ip', []) => NET_OK ip ip' | _ => NET_BAD end) = NET_OK f t → is_u32 f ∧ is_u32 t).
  { destruct (ip_loop 4 0 q) as [[ip' [|? ?]]|] eqn:Hip'; [|done..]. intros [= <- <-]. split; [done|].
    apply ip_loop_u32 in Hip'; [done|by unfold is_u32]. }
  assert (Hm : (match parse_mask q with None => NET_UNDEFINED | Some None => NET_BAD
     | Some (Some mask) => let from := Z.land ip mask in NET_OK from (Z.lor from (Z.lxor mask 0xFFFFFFFF)) end) = NET_OK f t → is_u32 f ∧ is_u32 t).
  { destruct (parse_mask q) as [[mask|]|] eqn:Hmask; [|done..]. cbn zeta. intros [= <- <-].
    assert (is_u32 mask) as Hu.
    { revert Hmask. unfold parse_mask. destruct (read_octet q) as [[o q']|]; [|done].
      repeat case_match; try done; intros; simplify_eq;
        first [apply u32_is_u32|by unfold is_u32|eapply ip_loop_u32; [|eassumption]; by unfold is_u32]. }
    assert (is_u32 (Z.land ip mask)) by (apply land_u32; [done|apply Hu]). split; [done|]. apply lor_u32; [done|by apply not_u32]. }
  repeat case_match; (done || by apply Hr || by apply Hm).
Qed.

(** From one table to a later one. *)
Definition names_step (s s' : racknames) : Prop :=
  names_inv s' ∧ (∀ id n, has_name s id n → has_name s' id n) ∧ rackidnext s' ≤ rackidnext s `max` 1 + 1.

Lemma names_refl s : names_inv s → names_step s s.
Proof. intros Hs. split; [done|]. split; [done|lia]. Qed.

Lemma split_word_word c p : blank c = false → ∃ w, (split_word (c :: p)).1 = c :: w.
Proof. intros Hc. cbn. rewrite Hc. destruct (split_word p). by eexists. Qed.

Lemma skip_blanks_head p : match skip_blanks p with [] => True | c :: _ => blank c = false end.
Proof. induction p as [|c p IH]; [done|]. cbn. by destruct (blank c) eqn:E. Qed.

Lemma parseline_spec s line : names_inv s → rackidnext s < 2 ^ 30 →
  match line_meaning line with
  | None => topology_parseline s line = None
  | Some m => ∃ s' r, topology_parseline s line = Some (s', r) ∧ names_step s s' ∧
      match m with
      | None => r = LINE_SKIP
      | Some (f, t, n) => ∃ id, r = LINE_OK f t id ∧ has_name s' id n ∧ n ≠ [] ∧ is_u32 f ∧ is_u32 t
      end
  end.
Proof.
  intros Hs Hb. unfold line_meaning, topology_parseline. set (p := skip_blanks line).
  assert (Hskip : ∃ s' r, Some (s, LINE_SKIP) = Some (s', r) ∧ names_step s s' ∧ r = LINE_SKIP)
    by (exists s, LINE_SKIP; split_and!; [done|by apply names_refl|done]).
  destruct (split_word p) as [net q]. destruct (end_or_comment p); [done|]. cbn [orb]. case_bool_decide; [done|].
  destruct (topology_parsenet net) as [f t| |] eqn:Hnet; [|done..]. apply parsenet_u32 in Hnet as [Hf Ht].
  assert (Hh := skip_blanks_head q). destruct (split_word (skip_blanks q)) as [n rest] eqn:Hn.
  destruct (end_or_comment (skip_blanks q)) eqn:Hq; [done|]. cbn [negb andb].
  assert (Hne : n ≠ []).
  { destruct (skip_blanks q) as [|c q'] eqn:Hq'; [done|]. destruct (split_word_word c q' Hh) as [w Hw]. rewrite Hn in Hw. cbn in Hw. by rewrite Hw. }
  destruct (rackname_to_rackid_spec s n Hs Hb) as (s' & id & Hr & Hs' & Hid & Hold & Hle). rewrite Hr. cbn [mbind option_bind].
  destruct (end_or_comment (skip_blanks rest)).
  - exists s', (LINE_OK f t id). split; [done|]. split; [by split|]. by exists id.
  - exists s', LINE_SKIP. split; [done|]. by split.
Qed.

(** The tree and the names say where an address is. *)
Definition placed (s : racknames) (n : itnode) (loc : Z → list Z) : Prop :=
  it_wf 0 UINT32_MAX n ∧ ∀ ip, match look n ip with None => loc ip = [] | Some id => has_name s id (loc ip) ∧ loc ip ≠ [] end.

Lemma names_step_trans s1 s2 s3 : names_step s1 s2 → names_step s2 s3 →
  names_inv s3 ∧ (∀ id n, has_name s1 id n → has_name s3 id n).
Proof. intros (_ & H1 & _) (? & H2 & _). split; [done|]. auto. Qed.

Lemma placed_step s s' n loc : placed s n loc → names_step s s' → placed s' n loc.
Proof.
  intros [Hw Hl] (_ & Hold & _). split; [done|]. intros ip. specialize (Hl ip). destruct (look n ip); [|done].
  destruct Hl. split; [by apply Hold|done].
Qed.

Lemma placed_add s n loc f t id name : placed s n loc → has_name s id name → name ≠ [] → is_u32 f → is_u32 t →
  placed s (itree_add_interval n f t id) (λ ip, if decide (covers (f, t, name) ip) then name else loc ip).
Proof.
  intros [Hw Hl] Hn Hne Hf Ht. destruct (add_interval_spec n f t id) as [Hw' Hl']; [done..|]. split; [done|].
  assert (Hid : (id =? 0) = false) by (destruct Hn as [? _]; apply Z.eqb_neq; lia). rewrite Hid in Hl'.
  intros ip. rewrite Hl'. specialize (Hl ip). unfold put_range, covers. destruct (bool_decide_reflect (f `min` t ≤ ip ≤ f `max` t)).
  - by rewrite decide_True.
  - by rewrite decide_False.
Qed.

Lemma load_lines_spec lines : ∀ s n loc defs, names_inv s → placed s n loc → rackidnext s `max` 1 + Z.of_nat (length lines) < 2 ^ 30 →
  file_meaning lines = Some defs →
  ∃ s' n', load_lines lines s n = Some (s', n') ∧ names_inv s' ∧ placed s' n' (λ ip, foldl (λ l d, if decide (covers d ip) then d.2 else l) (loc ip) defs).
Proof.
  induction lines as [|line lines IH]; intros s n loc defs Hs Hp Hb Hm.
  - injection Hm as <-. by exists s, n.
  - assert (Hm' : ∃ m ms, line_meaning (strip (c_string line)) = Some m ∧ file_meaning lines = Some ms
      ∧ defs = match m with Some d => d :: ms | None => ms end).
    { unfold file_meaning in *. cbn [mapM] in Hm. destruct (line_meaning _) as [m|]; [|done]. cbn in Hm.
      destruct (mapM _ lines) as [ms|]; [|done]. cbn in Hm. injection Hm as <-. exists m, (omap id ms). split; [done|]. split; [done|].
      by destruct m. }
    destruct Hm' as (m & ms & Hl & Hms & ->). cbn [load_lines length] in *.
    case_bool_decide as He.
    { rewrite He in Hl. injection Hl as <-. apply IH; [done..|lia|done]. }
    assert (Hsp := parseline_spec s (strip (c_string line)) Hs ltac:(lia)). rewrite Hl in Hsp.
    destruct Hsp as (s1 & r & Hr & Hst & Hres). rewrite Hr. cbn [mbind option_bind].
    assert (Hn1 : rackidnext s1 `max` 1 + Z.of_nat (length lines) < 2 ^ 30) by (destruct Hst as (_ & _ & ?); lia).
    destruct m as [[[f t] name]|].
    + destruct Hres as (id & -> & Hid & Hne & Hf & Ht).
      destruct (IH s1 (itree_add_interval n f t id) (λ ip, if decide (covers (f, t, name) ip) then name else loc ip) ms) as (s' & n' & Hx & Hy & Hz);
        [apply Hst|by apply placed_add; [eapply placed_step|..]|done|done|].
      exists s', n'. by split.
    + subst r. destruct (IH s1 n loc ms) as (s' & n' & Hx & Hy & Hz); [apply Hst|by eapply placed_step|done|done|]. exists s', n'. by split.
Qed.

Lemma rackid_to_rackname_spec s id n : has_name s id n → topology_rackid_to_rackname s id = Some (Some n).
Proof.
  intros [Hid Hn]. unfold topology_rackid_to_rackname. rewrite (proj2 (Z.eqb_neq _ _)), (proj2 (Z.ltb_lt _ _)) by lia. by rewrite Hn.
Qed.

(** What a loaded topology answers about an address. *)
Lemma loaded lines defs tp : Z.of_nat (length lines) < 2 ^ 30 - 1 → file_meaning lines = Some defs →
  ∃ tp', topology_load (FILE lines false) tp = Some tp' ∧
    (∀ ip, topology_rackid_to_rackname (names tp') (topology_get_rackid tp' ip) = Some (Some (location defs ip))) ∧
    ∀ ip ip', topology_get_rackid tp' ip = topology_get_rackid tp' ip' ↔ location defs ip = location defs ip'.
Proof.
  intros Hb Hm. destruct (load_lines_spec lines topology_rackname_init NIL (λ _, []) defs) as (s & n & Hl & Hs & Hw & Hp); [apply names_init|done|cbn; lia|done|].
  destruct (rebalance_spec 0 UINT32_MAX n) as (n' & Hr & Hw' & Hk & _); [done..|].
  exists (mk_topology n' s). unfold topology_load. rewrite Hl. cbn [mbind option_bind]. rewrite Hr. split; [done|].
  assert (Hid : ∀ ip, (topology_get_rackid (mk_topology n' s) ip = 0 ∧ location defs ip = [])
    ∨ (has_name s (topology_get_rackid (mk_topology n' s) ip) (location defs ip) ∧ location defs ip ≠ [])).
  { intros ip. unfold topology_get_rackid. rewrite find_look. cbn [racktree]. rewrite Hk. specialize (Hp ip). fold (location defs ip) in Hp.
    destruct (look n ip); [by right|by left]. }
  split.
  - intros ip. cbn [names]. destruct (Hid ip) as [[-> ->]|[Hn _]]; [done|by apply rackid_to_rackname_spec].
  - intros ip ip'. destruct (Hid ip) as [[H1 H2]|[[H1 H1'] H2]], (Hid ip') as [[H3 H4]|[[H3 H3'] H4]]; try (split; intros; (congruence || lia)).
    split; intros He.
    + rewrite He in H1'. congruence.
    + rewrite <-He in H3'. by apply (ni_inj s Hs _ _ (location defs ip)).
Qed.

(** ** The forms of the manual page *)

Inductive net_form :=
  | N_ALL
  | N_IP (ip : Z)
  | N_BITS (ip bits : Z)
  | N_MASK (ip bits : Z)
  | N_RANGE (from to : Z).

Definition print_octet (z : Z) : list Z :=
  if z <? 10 then [48 + z] else if z <? 100 then [48 + z / 10; 48 + z mod 10] else [48 + z / 100; 48 + z / 10 mod 10; 48 + z mod 10].

Definition print_ip (ip : Z) : list Z :=
  print_octet (ip / 2 ^ 24) ++ 46 :: print_octet (ip / 2 ^ 16 mod 256) ++ 46 :: print_octet (ip / 2 ^ 8 mod 256) ++ 46 :: print_octet (ip mod 256).

Definition mask_of (bits : Z) : Z := 2 ^ 32 - 2 ^ (32 - bits).

Definition print_net (n : net_form) : list Z :=
  match n with
  | N_ALL => [42]
  | N_IP ip => print_ip ip
  | N_BITS ip bits => print_ip ip ++ 47 :: print_octet bits
  | N_MASK ip bits => print_ip ip ++ 47 :: print_ip (mask_of bits)
  | N_RANGE from to => print_ip from ++ 45 :: print_ip to
  end.

(** The first and the last address. *)
Definition net_range (n : net_form) : Z * Z :=
  match n with
  | N_ALL => (0, 2 ^ 32 - 1)
  | N_IP ip => (ip, ip)
  | N_BITS ip bits | N_MASK ip bits => (ip - ip mod 2 ^ (32 - bits), ip - ip mod 2 ^ (32 - bits) + 2 ^ (32 - bits) - 1)
  | N_RANGE from to => (from, to)
  end.

Definition net_ok (n : net_form) : Prop :=
  match n with
  | N_ALL => True
  | N_IP ip => is_u32 ip
  | N_BITS ip bits => is_u32 ip ∧ 1 ≤ bits ≤ 32
  | N_MASK ip bits => is_u32 ip ∧ 0 ≤ bits ≤ 32
  | N_RANGE from to => is_u32 from ∧ is_u32 to
  end.

Definition not_digit (l : list Z) : Prop := match l with [] => True | c :: _ => is_digit c = false end.

Lemma octet_loop_end o l : not_digit l → octet_loop o l = Some (o, l).
Proof. destruct l as [|c l]; [done|]. cbn. by intros ->. Qed.

Lemma octet_loop_digit o d l : 0 ≤ d ≤ 9 → o * 10 + d ≤ 255 → octet_loop o (48 + d :: l) = octet_loop (o * 10 + d) l.
Proof.
  intros Hd Ho. cbn. unfold is_digit. rewrite (proj2 (Z.leb_le _ _)), (proj2 (Z.leb_le (48 + d) 57)) by lia. cbn [andb].
  replace (48 + d - 48) with d by lia. by rewrite (proj2 (Z.ltb_ge _ _)) by lia.
Qed.

Lemma read_octet_print z l : 0 ≤ z ≤ 255 → not_digit l → read_octet (print_octet z ++ l) = Some (z, l).
Proof.
  intros Hz Hl. assert (Hr : ∀ d r, 0 ≤ d ≤ 9 → read_octet (48 + d :: r) = octet_loop 0 (48 + d :: r)).
  { intros d r Hd. unfold read_octet, is_digit. by rewrite (proj2 (Z.leb_le _ _)), (proj2 (Z.leb_le (48 + d) 57)) by lia. }
  assert (Hd10 : z = 10 * (z / 10) + z mod 10 ∧ 0 ≤ z mod 10 < 10) by (Z.to_euclidean_division_equations; lia).
  assert (Hd100 : z / 10 = 10 * (z / 100) + z / 10 mod 10 ∧ 0 ≤ z / 10 mod 10 < 10) by (Z.to_euclidean_division_equations; lia).
  unfold print_octet. case_if; [|case_if]; cbn [app]; rewrite Hr by lia; rewrite !octet_loop_digit by lia; rewrite octet_loop_end by done; do 2 f_equal; lia.
Qed.

Lemma ip_loop_print ip l : is_u32 ip → not_digit l → ip_loop 4 0 (print_ip ip ++ l) = Some (ip, l).
Proof.
  intros Hip Hl. unfold is_u32 in Hip. unfold print_ip. rewrite <-!app_assoc. cbn [app]. rewrite <-!app_assoc. cbn [app]. rewrite <-!app_assoc. cbn [app].
  assert (0 ≤ ip / 2 ^ 24 ≤ 255) by (Z.to_euclidean_division_equations; lia).
  assert (0 ≤ ip / 2 ^ 16 mod 256 ≤ 255 ∧ 0 ≤ ip / 2 ^ 8 mod 256 ≤ 255 ∧ 0 ≤ ip mod 256 ≤ 255) by (Z.to_euclidean_division_equations; lia).
  cbn [ip_loop]. rewrite read_octet_print by (lia || done). cbn [mbind option_bind Nat.ltb Nat.leb].
  rewrite read_octet_print by (lia || done). cbn [mbind option_bind]. rewrite read_octet_print by (lia || done). cbn [mbind option_bind].
  rewrite read_octet_print by (lia || done). cbn [mbind option_bind]. do 2 f_equal.
  change (u32 (0 * 256)) with 0. rewrite Z.add_0_l. unfold u32. Z.to_euclidean_division_equations; lia.
Qed.

Lemma mask_bits k i : 0 ≤ k ≤ 32 → 0 ≤ i → Z.testbit (2 ^ 32 - 2 ^ k) i = (k <=? i) && (i <? 32).
Proof.
  intros Hk Hi. assert (He : 2 ^ 32 - 2 ^ k = Z.shiftl (Z.ones (32 - k)) k).
  { rewrite Z.shiftl_mul_pow2, Z.ones_equiv by lia. rewrite <-Z.sub_1_r, Z.mul_sub_distr_r, <-Z.pow_add_r by lia. do 2 f_equal; lia. }
  rewrite He, Z.shiftl_spec by done. destruct (Z.leb_spec k i).
  - rewrite Z.testbit_ones_nonneg by lia. cbn [andb]. destruct (Z.ltb_spec (i - k) (32 - k)), (Z.ltb_spec i 32); (done || lia).
  - by rewrite Z.testbit_neg_r by lia.
Qed.

Lemma mask_land ip k : is_u32 ip → 0 ≤ k ≤ 32 → Z.land ip (2 ^ 32 - 2 ^ k) = ip - ip mod 2 ^ k.
Proof.
  intros Hip Hk. assert (He : ip - ip mod 2 ^ k = Z.shiftl (Z.shiftr ip k) k).
  { rewrite Z.shiftl_mul_pow2, Z.shiftr_div_pow2 by lia. assert (Hp : 0 < 2 ^ k) by (apply Z.pow_pos_nonneg; lia).
    rewrite (Z.div_mod ip (2 ^ k)) at 1 by lia. lia. }
  rewrite He. apply Z.bits_inj'. intros i Hi. rewrite Z.land_spec, mask_bits, Z.shiftl_spec by done.
  destruct (Z.leb_spec k i).
  - rewrite Z.shiftr_spec by lia. replace (i - k + k) with i by lia. destruct (Z.ltb_spec i 32); [by rewrite andb_true_r|].
    by rewrite (proj2 (proj1 (is_u32_bits ip) Hip)).
  - by rewrite andb_false_r, Z.testbit_neg_r by lia.
Qed.

Lemma mask_not k : 0 ≤ k ≤ 32 → Z.lxor (2 ^ 32 - 2 ^ k) 0xFFFFFFFF = 2 ^ k - 1.
Proof.
  intros Hk. change 0xFFFFFFFF with (Z.ones 32). rewrite Z.sub_1_r, <-Z.ones_equiv.
  apply Z.bits_inj'. intros i Hi. rewrite Z.lxor_spec, mask_bits, !Z.testbit_ones_nonneg by lia.
  destruct (Z.leb_spec k i), (Z.ltb_spec i 32), (Z.ltb_spec i k); (done || lia).
Qed.

Lemma mask_lor ip k : 0 ≤ k → Z.lor (ip - ip mod 2 ^ k) (2 ^ k - 1) = ip - ip mod 2 ^ k + 2 ^ k - 1.
Proof.
  intros Hk. assert (Hp : 0 < 2 ^ k) by (apply Z.pow_pos_nonneg; lia).
  assert (He : ip - ip mod 2 ^ k = Z.shiftl (ip / 2 ^ k) k).
  { rewrite Z.shiftl_mul_pow2 by lia. rewrite (Z.div_mod ip (2 ^ k)) at 1 by lia. lia. }
  rewrite He.
  replace (Z.shiftl (ip / 2 ^ k) k + 2 ^ k - 1) with (Z.shiftl (ip / 2 ^ k) k + Z.ones k) by (rewrite Z.ones_equiv; lia).
  replace (2 ^ k - 1) with (Z.ones k) by (rewrite Z.ones_equiv; lia).
  rewrite Z.add_nocarry_lxor; apply Z.bits_inj'; intros i Hi; rewrite ?Z.lor_spec, ?Z.land_spec, ?Z.lxor_spec, ?Z.bits_0, Z.shiftl_spec, !Z.testbit_ones_nonneg by lia;
    destruct (Z.ltb_spec i k); rewrite ?(Z.testbit_neg_r (ip / 2 ^ k) (i - k)) by lia;
    try done; by destruct (Z.testbit (ip / 2 ^ k) (i - k)).
Qed.

Lemma mask_shift bits : 1 ≤ bits < 32 → u32 (Z.shiftl 0xFFFFFFFF (32 - bits)) = mask_of bits.
Proof.
  intros Hb. unfold u32, mask_of. rewrite Z.shiftl_mul_pow2 by lia. set (k := 32 - bits).
  assert (0 < 2 ^ k < 2 ^ 32) by (split; [apply Z.pow_pos_nonneg; lia|apply Z.pow_lt_mono_r; lia]).
  symmetry. apply (Z.mod_unique_pos _ _ (2 ^ k - 1)); lia.
Qed.

Lemma print_octet_shape z : 0 ≤ z ≤ 255 → ∃ d l, print_octet z = 48 + d :: l ∧ 0 ≤ d ≤ 9 ∧ Forall (λ c, 48 ≤ c ≤ 57) (48 + d :: l).
Proof.
  intros Hz. assert (0 ≤ z mod 10 ≤ 9 ∧ 0 ≤ z / 10 mod 10 ≤ 9) by (Z.to_euclidean_division_equations; lia).
  unfold print_octet. case_if; [|case_if]; eexists _, _; (split; [reflexivity|]); (split; [Z.to_euclidean_division_equations; lia|]);
    repeat (constructor; [Z.to_euclidean_division_equations; lia|]); constructor.
Qed.

Lemma is_u32_mask bits : 0 ≤ bits ≤ 32 → is_u32 (mask_of bits).
Proof.
  intros Hb. unfold is_u32, mask_of. assert (0 < 2 ^ (32 - bits) ≤ 2 ^ 32); [|lia].
  split; [apply Z.pow_pos_nonneg; lia|apply Z.pow_le_mono_r; lia].
Qed.

Lemma parse_mask_bits bits : 1 ≤ bits ≤ 32 → parse_mask (print_octet bits) = Some (Some (mask_of bits)).
Proof.
  intros Hb. unfold parse_mask. rewrite <-(app_nil_r (print_octet bits)), read_octet_print by (lia || done).
  rewrite bool_decide_true, (proj2 (Z.leb_le _ _)) by (lia || done). cbn [andb].
  case_if; [|by replace bits with 32 by lia]. rewrite (proj2 (Z.eqb_neq _ _)) by lia. by rewrite mask_shift by lia.
Qed.

Lemma parse_mask_ip m : is_u32 m → parse_mask (print_ip m) = Some (Some m).
Proof.
  intros Hm. unfold parse_mask. assert (Hip := ip_loop_print m [] Hm I). rewrite app_nil_r in Hip. rewrite Hip.
  unfold print_ip at 1. unfold is_u32 in Hm. rewrite read_octet_print by (done || Z.to_euclidean_division_equations; lia).
  by rewrite bool_decide_false.
Qed.

Lemma print_ip_head ip l : is_u32 ip → ∃ d r, print_ip ip ++ l = 48 + d :: r ∧ 0 ≤ d ≤ 9.
Proof.
  intros Hip. unfold is_u32 in Hip. unfold print_ip. destruct (print_octet_shape (ip / 2 ^ 24)) as (d & r & -> & Hd & _).
  { Z.to_euclidean_division_equations; lia. } cbn [app]. by eexists _, _.
Qed.

Lemma parsenet_print n : net_ok n → topology_parsenet (print_net n) = let '(f, t) := net_range n in NET_OK f t.
Proof.
  assert (Hstar : ∀ ip l, is_u32 ip → bool_decide (print_ip ip ++ l = [42]) = false).
  { intros ip l Hip. destruct (print_ip_head ip l Hip) as (d & r & -> & Hd). apply bool_decide_eq_false. intros [= ? ?]. lia. }
  unfold topology_parsenet. destruct n as [|ip|ip bits|ip bits|from to]; cbn [print_net net_ok net_range]; [done| | | |].
  - intros Hip. rewrite <-(app_nil_r (print_ip ip)), Hstar, ip_loop_print by done. done.
  - intros [Hip Hb]. rewrite Hstar, ip_loop_print, parse_mask_bits by done. cbn zeta. unfold mask_of. by rewrite mask_land, mask_not, mask_lor by (done || lia).
  - intros [Hip Hb]. rewrite Hstar, ip_loop_print, parse_mask_ip by (done || by apply is_u32_mask). cbn zeta. unfold mask_of.
    by rewrite mask_land, mask_not, mask_lor by (done || lia).
  - intros [Hf Ht]. rewrite Hstar, ip_loop_print by done. assert (Hip := ip_loop_print to [] Ht I). rewrite app_nil_r in Hip. by rewrite Hip.
Qed.

(** A line: blanks, addresses, blanks, a location, blanks, a comment, the end; or only
    a comment. *)
Inductive cfg_line :=
  | C_DEF (sp0 : list Z) (net : net_form) (sp1 name sp2 comment eol : list Z)
  | C_NOTE (sp0 comment eol : list Z).

Definition print_cfg (l : cfg_line) : list Z :=
  match l with
  | C_DEF sp0 net sp1 name sp2 comment eol => sp0 ++ print_net net ++ sp1 ++ name ++ sp2 ++ comment ++ eol
  | C_NOTE sp0 comment eol => sp0 ++ comment ++ eol
  end.

Definition cfg_def (l : cfg_line) : option (Z * Z * list Z) :=
  match l with C_DEF _ net _ name _ _ _ => Some (net_range net, name) | C_NOTE _ _ _ => None end.

Definition blanks (l : list Z) : Prop := Forall (λ c, blank c = true) l.
Definition comment_ok (c : list Z) : Prop := match c with [] => True | x :: c => x = 35 ∧ Forall (λ x, x ≠ 0) c end.
Definition eol_ok (l : list Z) : Prop := Forall (λ c, line_end c = true) l.
Definition name_ok (l : list Z) : Prop := l ≠ [] ∧ head l ≠ Some 35 ∧ Forall (λ c, c ≠ 0 ∧ line_end c = false) l.

Definition cfg_ok (l : cfg_line) : Prop :=
  match l with
  | C_DEF sp0 net sp1 name sp2 comment eol => blanks sp0 ∧ net_ok net ∧ blanks sp1 ∧ sp1 ≠ [] ∧ name_ok name ∧ blanks sp2
      ∧ (comment ≠ [] → sp2 ≠ []) ∧ comment_ok comment ∧ eol_ok eol
  | C_NOTE sp0 comment eol => blanks sp0 ∧ comment_ok comment ∧ eol_ok eol
  end.

Lemma blank_end c : blank c = true → line_end c = true.
Proof. unfold blank, line_end. intros. zbool. destruct H as [H|H]; zbool; subst; done. Qed.

Lemma line_end_nonzero c : line_end c = true → c ≠ 0.
Proof. intros H ->. done. Qed.

Lemma blank_nonzero c : blank c = true → c ≠ 0.
Proof. intros H. by apply line_end_nonzero, blank_end. Qed.

Lemma c_string_all l : Forall (λ c, c ≠ 0) l → c_string l = l.
Proof. induction 1 as [|c l Hc _ IH]; [done|]. cbn. by rewrite (proj2 (Z.eqb_neq _ _) Hc), IH. Qed.

Lemma strip_ends l : eol_ok l → strip l = [].
Proof. induction 1 as [|c l Hc _ IH]; [done|]. cbn. by rewrite IH, Hc. Qed.

Lemma strip_app a b : strip b ≠ [] → strip (a ++ b) = a ++ strip b.
Proof.
  intros Hb. induction a as [|c a IH]; [done|]. cbn. rewrite IH. destruct (a ++ strip b) eqn:E; [|done].
  by apply app_nil in E as [_ ?].
Qed.

Lemma strip_word a b : Forall (λ c, c ≠ 0 ∧ line_end c = false) a → strip (a ++ b) = a ++ strip b.
Proof.
  induction 1 as [|c a [_ Hc] _ IH]; [done|]. cbn. rewrite IH. destruct (a ++ strip b) eqn:E; [|done].
  by rewrite Hc.
Qed.

Lemma skip_blanks_app a b : blanks a → skip_blanks (a ++ b) = skip_blanks b.
Proof. induction 1 as [|c a Hc _ IH]; [done|]. cbn. by rewrite Hc. Qed.

Definition starts_blank (l : list Z) : Prop := match l with [] => True | c :: _ => blank c = true end.

Lemma split_word_app w r : Forall (λ c, blank c = false) w → starts_blank r → split_word (w ++ r) = (w, r).
Proof.
  intros Hw Hr. induction Hw as [|c w Hc _ IH]; [destruct r as [|c r]; [done|]; cbn in *; by rewrite Hr|]. cbn. by rewrite Hc, IH.
Qed.

Lemma print_ip_chars ip : is_u32 ip → Forall (λ c, 46 ≤ c ≤ 57) (print_ip ip).
Proof.
  intros Hip. unfold is_u32 in Hip. assert (Ho : ∀ z, 0 ≤ z ≤ 255 → Forall (λ c, 46 ≤ c ≤ 57) (print_octet z)).
  { intros z Hz. destruct (print_octet_shape z Hz) as (d & r & He & _ & Hf). rewrite He. eapply Forall_impl; [exact Hf|]. cbn. lia. }
  unfold print_ip. repeat (apply Forall_app; split; [apply Ho; Z.to_euclidean_division_equations; lia|constructor; [lia|]]).
  apply Ho. Z.to_euclidean_division_equations; lia.
Qed.

Lemma print_net_chars n : net_ok n → Forall (λ c, 42 ≤ c ≤ 57) (print_net n).
Proof.
  assert (Hi : ∀ ip, is_u32 ip → Forall (λ c, 42 ≤ c ≤ 57) (print_ip ip)).
  { intros ip Hip. eapply Forall_impl; [by apply print_ip_chars|]. cbn. lia. }
  destruct n as [|ip|ip bits|ip bits|from to]; cbn [net_ok print_net].
  - intros _. constructor; [lia|constructor].
  - apply Hi.
  - intros [Hip Hb]. apply Forall_app. split; [by apply Hi|]. constructor; [lia|].
    destruct (print_octet_shape bits) as (d & r & He & _ & Hf); [lia|]. rewrite He. eapply Forall_impl; [exact Hf|]. cbn. lia.
  - intros [Hip Hb]. apply Forall_app. split; [by apply Hi|]. constructor; [lia|]. by apply Hi, is_u32_mask.
  - intros [Hf Ht]. apply Forall_app. split; [by apply Hi|]. constructor; [lia|]. by apply Hi.
Qed.

Lemma net_char c : 42 ≤ c ≤ 57 → blank c = false ∧ c ≠ 0 ∧ c ≠ 35.
Proof. intros Hc. unfold blank. rewrite !(proj2 (Z.eqb_neq _ _)) by lia. split; [done|lia]. Qed.

(** What is left after the location. *)
Lemma tail_spec sp comment eol : blanks sp → comment_ok comment → eol_ok eol → (comment ≠ [] → sp ≠ []) →
  starts_blank (strip (sp ++ comment ++ eol)) ∧ end_or_comment (skip_blanks (strip (sp ++ comment ++ eol))) = true.
Proof.
  intros Hs Hc He Hn. destruct comment as [|x c].
  - rewrite strip_ends; [done|]. apply Forall_app. split; [|done]. eapply Forall_impl; [exact Hs|]. apply blank_end.
  - destruct Hc as [-> Hc]. assert (Hx : strip ((35 :: c) ++ eol) = 35 :: strip (c ++ eol)).
    { cbn. by destruct (strip (c ++ eol)). }
    rewrite strip_app, Hx by (by rewrite Hx). split.
    + destruct sp as [|y sp]; [by destruct (Hn ltac:(done))|]. cbn. by apply Forall_cons in Hs as [? _].
    + by rewrite skip_blanks_app.
Qed.

Lemma line_nonzero l : cfg_ok l → Forall (λ c, c ≠ 0) (print_cfg l).
Proof.
  assert (Hb : ∀ l, blanks l → Forall (λ c, c ≠ 0) l) by (intros l' Hl; eapply Forall_impl; [exact Hl|]; apply blank_nonzero).
  assert (He : ∀ l, eol_ok l → Forall (λ c, c ≠ 0) l) by (intros l' Hl; eapply Forall_impl; [exact Hl|]; apply line_end_nonzero).
  assert (Hc : ∀ l, comment_ok l → Forall (λ c, c ≠ 0) l) by (intros [|x l']; [done|]; intros [-> ?]; by constructor).
  destruct l as [sp0 net sp1 name sp2 comment eol|sp0 comment eol]; cbn [cfg_ok print_cfg]; rewrite ?Forall_app.
  - intros (? & Hn & ? & ? & (_ & _ & Hname) & ? & _ & ? & ?). split_and!; auto.
    + eapply Forall_impl; [by apply print_net_chars|]. intros x Hx. by destruct (net_char x Hx) as (_ & ? & _).
    + eapply Forall_impl; [exact Hname|]. by intros x [? _].
  - intros (? & ? & ?). split_and!; auto.
Qed.

Lemma line_documented l : cfg_ok l → line_meaning (strip (c_string (print_cfg l))) = Some (cfg_def l).
Proof.
  intros Hl. rewrite c_string_all by (by apply line_nonzero). destruct l as [sp0 net sp1 name sp2 comment eol|sp0 comment eol]; cbn [print_cfg cfg_def].
  - destruct Hl as (H0 & Hn & H1 & Hne & (Hw & Hh & Hname) & H2 & Hc2 & Hc & He).
    destruct (tail_spec sp2 comment eol H2 Hc He Hc2) as [Hsb Hec].
    assert (Hst : strip (name ++ sp2 ++ comment ++ eol) = name ++ strip (sp2 ++ comment ++ eol)) by (by apply strip_word).
    set (tl := strip (sp2 ++ comment ++ eol)) in *.
    assert (S1 : strip (sp1 ++ name ++ sp2 ++ comment ++ eol) = sp1 ++ name ++ tl).
    { rewrite strip_app; [by rewrite Hst|]. rewrite Hst. by destruct name. }
    assert (S2 : strip (print_net net ++ sp1 ++ name ++ sp2 ++ comment ++ eol) = print_net net ++ sp1 ++ name ++ tl).
    { rewrite strip_app; [by rewrite S1|]. rewrite S1. by destruct sp1. }
    rewrite strip_app, S2 by (rewrite S2; destruct (print_net net); [by destruct sp1|done]).
    unfold line_meaning. rewrite skip_blanks_app by done. assert (Hpn := print_net_chars net Hn).
    assert (Hnb : Forall (λ c, blank c = false) (print_net net)) by (eapply Forall_impl; [exact Hpn|]; intros x Hx; by apply net_char).
    assert (Hnn : ∃ x r, print_net net = x :: r ∧ blank x = false ∧ x ≠ 35).
    { destruct (print_net net) as [|x r] eqn:E; [|exists x, r; apply Forall_cons in Hpn as [Hx _]; by destruct (net_char x Hx) as (? & ? & ?)].
      assert (Hx := parsenet_print net Hn). rewrite E in Hx. by destruct (net_range net). }
    assert (Hsk : skip_blanks (print_net net ++ sp1 ++ name ++ tl) = print_net net ++ sp1 ++ name ++ tl).
    { destruct Hnn as (x & r & -> & Hx & _). cbn. by rewrite Hx. }
    assert (Hec0 : end_or_comment (print_net net ++ sp1 ++ name ++ tl) = false).
    { destruct Hnn as (x & r & -> & _ & Hx). cbn. by apply Z.eqb_neq. }
    rewrite Hsk, Hec0, split_word_app; [|done|by destruct sp1 as [|y sp1]; [|apply Forall_cons in H1 as [? _]]].
    rewrite bool_decide_false by (by destruct sp1). cbn [orb]. rewrite parsenet_print by done.
    destruct (net_range net) as [f t]. rewrite skip_blanks_app by done.
    assert (Hwb : Forall (λ c, blank c = false) name).
    { eapply Forall_impl; [exact Hname|]. intros x [_ Hx]. destruct (blank x) eqn:Hb; [|done]. apply blank_end in Hb. congruence. }
    assert (Hsn : skip_blanks (name ++ tl) = name ++ tl).
    { destruct name as [|x name]; [done|]. cbn. apply Forall_cons in Hwb as [-> _]. done. }
    rewrite Hsn, split_word_app by done. rewrite Hec.
    assert (Hen : end_or_comment (name ++ tl) = false).
    { destruct name as [|x name]; [done|]. cbn. apply Z.eqb_neq. intros ->. by apply Hh. }
    by rewrite Hen.
  - destruct Hl as (H0 & Hc & He). destruct comment as [|x c].
    + rewrite strip_ends; [done|]. apply Forall_app. split; [|done]. eapply Forall_impl; [exact H0|]. apply blank_end.
    + destruct Hc as [-> Hc]. assert (Hx : strip ((35 :: c) ++ eol) = 35 :: strip (c ++ eol)).
      { cbn. by destruct (strip (c ++ eol)). }
      rewrite strip_app, Hx by (by rewrite Hx). unfold line_meaning. rewrite skip_blanks_app by done. cbn [skip_blanks].
      change (blank 35) with false. cbn iota. by destruct (split_word _).
Qed.

(** ** Distance *)

(** The words of a path, between the bars. *)
Fixpoint words (n : list Z) : list (list Z) :=
  match n with
  | [] => [[]]
  | c :: n => if c =? 124 then [] :: words n else match words n with w :: ws => (c :: w) :: ws | [] => [[c]] end
  end.

Fixpoint common (a b : list (list Z)) : nat :=
  match a, b with
  | x :: a, y :: b => if decide (x = y) then S (common a b) else O
  | _, _ => O
  end.

(** The distance of the manual page, for different addresses: one for the same path,
    otherwise one plus the greatest number of words after the common start. *)
Definition path_distance (a b : list Z) : Z :=
  if decide (a = b) then 1
  else let k := common (words a) (words b) in 1 + Z.of_nat ((length (words a) - k) `max` (length (words b) - k)).

Fixpoint join (ws : list (list Z)) : list Z :=
  match ws with [] => [] | [w] => w | w :: ws => w ++ 124 :: join ws end.

Definition no_bar (w : list Z) : Prop := Forall (λ c, c ≠ 124) w.

Lemma words_ne n : words n ≠ [].
Proof. destruct n as [|c n]; [done|]. cbn. destruct (c =? 124); [done|]. by destruct (words n). Qed.

Lemma join_word_cons w ws : ws ≠ [] → join (w :: ws) = w ++ 124 :: join ws.
Proof. by destruct ws. Qed.

Lemma join_app a b : a ≠ [] → b ≠ [] → join (a ++ b) = join a ++ 124 :: join b.
Proof.
  intros Ha Hb. induction a as [|x a IH]; [done|]. destruct (decide (a = [])) as [->|Hne]; [by apply join_word_cons|].
  cbn [app]. rewrite (join_word_cons x (a ++ b)), (join_word_cons x a) by (done || by destruct a). rewrite IH by done. by rewrite <-app_assoc.
Qed.

Lemma join_words n : join (words n) = n.
Proof.
  induction n as [|c n IH]; [done|]. cbn [words]. destruct (Z.eqb_spec c 124) as [->|Hc].
  - rewrite join_word_cons by apply words_ne. by rewrite IH.
  - assert (Hne := words_ne n). destruct (words n) as [|w ws]; [done|]. destruct ws; cbn in *; by rewrite <-IH.
Qed.

Lemma words_no_bar n : Forall no_bar (words n).
Proof.
  induction n as [|c n IH]; cbn [words]; [repeat constructor|]. destruct (Z.eqb_spec c 124) as [->|Hc]; [constructor; [constructor|done]|].
  destruct (words n) as [|w ws]; [by repeat constructor|]. apply Forall_cons in IH as [Hw Hws]. constructor; [by constructor|done].
Qed.

(** A word at the start of both. *)
Lemma common_word w a b pos lb : no_bar w → common_loop (w ++ a) (w ++ b) pos lb = common_loop a b (pos + length w) lb.
Proof.
  intros Hw. revert pos. induction Hw as [|c w Hc _ IH]; intros pos; cbn [app length common_loop]; [by rewrite Nat.add_0_r|].
  rewrite Z.eqb_refl, (proj2 (Z.eqb_neq _ _) Hc), IH. f_equal. lia.
Qed.

Definition after_word (l : list Z) : Prop := match l with [] => True | c :: _ => c = 124 end.

(** Different words. *)
Lemma different_words w v a b pos lb : no_bar w → no_bar v → after_word a → after_word b → w ≠ v →
  common_loop (w ++ a) (v ++ b) pos lb = Some lb.
Proof.
  intros Hw Hv Ha Hb. revert v Hv pos. induction Hw as [|c w Hc Hw IH]; intros v Hv pos Hne.
  - destruct v as [|d v]; [done|]. apply Forall_cons in Hv as [Hd _]. destruct a as [|x a]; cbn; [by rewrite (proj2 (Z.eqb_neq _ _) Hd)|].
    cbn in Ha. subst x. by rewrite (proj2 (Z.eqb_neq 124 d)) by lia.
  - destruct v as [|d v]; cbn [app common_loop].
    + destruct b as [|y b]; [by rewrite (proj2 (Z.eqb_neq _ _) Hc)|]. cbn in Hb. subst y. by rewrite (proj2 (Z.eqb_neq c 124)) by lia.
    + apply Forall_cons in Hv as [Hd Hv]. destruct (Z.eqb_spec c d) as [->|]; [|done].
      rewrite (proj2 (Z.eqb_neq _ _) Hd). apply IH; [done|]. congruence.
Qed.

Lemma join_split w ws : ∃ r, join (w :: ws) = w ++ r ∧ after_word r ∧ (r = [] ↔ ws = []) ∧ (ws ≠ [] → r = 124 :: join ws).
Proof. destruct ws as [|v ws]; [exists []; by rewrite app_nil_r|]. eexists. by split. Qed.

Lemma common_loop_join wa : ∀ wb pos lb, wa ≠ [] → wb ≠ [] → Forall no_bar wa → Forall no_bar wb →
  common_loop (join wa) (join wb) pos lb =
    if decide (wa = wb) then None
    else Some (match common wa wb with O => lb | S k => (pos + length (join (take (S k) wa)))%nat end).
Proof.
  induction wa as [|w wa IH]; intros [|v wb] pos lb; [done..|]. intros _ _ [Hw Hwa]%Forall_cons [Hv Hwb]%Forall_cons.
  destruct (join_split w wa) as (ra & Ea & Aa & Na & Ja), (join_split v wb) as (rb & Eb & Ab & Nb & Jb).
  rewrite Ea, Eb. cbn [common]. destruct (decide (w = v)) as [->|Hne].
  2:{ rewrite different_words by done. by rewrite decide_False by congruence. }
  rewrite common_word by done. destruct wa as [|w' wa], wb as [|v' wb].
  - rewrite (proj2 Na eq_refl), (proj2 Nb eq_refl). by rewrite decide_True.
  - rewrite (proj2 Na eq_refl), Jb by done. by rewrite decide_False.
  - rewrite (proj2 Nb eq_refl), Ja by done. by rewrite decide_False.
  - rewrite Ja, Jb by done. cbn [common_loop]. change (124 =? 124) with true. cbn iota. rewrite IH by done.
    destruct (decide (w' :: wa = v' :: wb)) as [He|He]; [by rewrite decide_True by congruence|]. rewrite decide_False by congruence. f_equal.
    destruct (common (w' :: wa) (v' :: wb)) as [|k]; [done|].
    change (take (S (S k)) (v :: w' :: wa)) with (v :: take (S k) (w' :: wa)). rewrite (join_word_cons v) by done.
    rewrite length_app. cbn [length]. lia.
Qed.

Lemma bars_loop_word l w p : no_bar w → bars_loop l (w ++ p) = bars_loop l p.
Proof. induction 1 as [|c w Hc _ IH]; [done|]. cbn. by rewrite (proj2 (Z.eqb_neq _ _) Hc), IH. Qed.

Lemma bars_loop_join ws l : Forall no_bar ws → ws ≠ [] → 0 ≤ l → l + Z.of_nat (length ws) ≤ 256 →
  bars_loop l (join ws) = l + Z.of_nat (length ws) - 1.
Proof.
  revert l. induction ws as [|w ws IH]; intros l; [done|]. intros [Hw Hws]%Forall_cons _ Hl Hb.
  destruct (decide (ws = [])) as [->|Hne].
  - cbn [join]. rewrite <-(app_nil_r w), bars_loop_word by done. cbn. lia.
  - rewrite join_word_cons, bars_loop_word by done. cbn [bars_loop length] in *. change (124 =? 124) with true. cbn iota.
    assert (Hlen : (1 ≤ length ws)%nat) by (destruct ws; [done|cbn; lia]).
    replace (u8 (l + 1)) with (l + 1) by (symmetry; apply Z.mod_small; lia). rewrite IH by (done || lia). lia.
Qed.

Definition path_ok (n : list Z) : Prop := head n ≠ Some 124 ∧ (length (words n) ≤ 254)%nat.

Lemma common_le a b : (common a b ≤ length a)%nat ∧ (common a b ≤ length b)%nat.
Proof. revert b. induction a as [|x a IH]; intros [|y b]; cbn; try lia. destruct (decide (x = y)); [|lia]. destruct (IH b). cbn. lia. Qed.

Lemma common_take a b : take (common a b) a = take (common a b) b.
Proof. revert b. induction a as [|x a IH]; intros [|y b]; cbn; try done. destruct (decide (x = y)) as [->|]; [|done]. cbn. by rewrite IH. Qed.

(** The bars counted after the common start. *)
Lemma count_bars_words n k : path_ok n → (k ≤ length (words n))%nat →
  count_bars n (match k with O => O | S j => length (join (take (S j) (words n))) end) = Z.of_nat (length (words n) - k) - Z.b2z (negb (k =? length (words n)))%nat.
Proof.
  intros [Hh Hl] Hk. unfold count_bars. set (ws := words n) in *. assert (Hn : join ws = n) by apply join_words.
  assert (Hb : Forall no_bar ws) by apply words_no_bar. assert (Hne : ws ≠ []) by apply words_ne.
  assert (Hlen : (1 ≤ length ws)%nat) by (destruct ws; [done|cbn; lia]).
  destruct k as [|j].
  - rewrite drop_0. assert (Hx : match n with c :: p => if c =? 124 then p else c :: p | [] => [] end = n).
    { destruct n as [|c n']; [done|]. cbn in Hh. by rewrite (proj2 (Z.eqb_neq _ _)) by congruence. }
    rewrite Hx, <-Hn, bars_loop_join by (done || lia). rewrite (proj2 (Nat.eqb_neq _ _)) by lia. cbn. lia.
  - set (k := S j) in *. rewrite <-Hn at 1. destruct (Nat.eqb_spec k (length ws)) as [He|Hk'].
    + rewrite take_ge, drop_ge by lia. cbn. lia.
    + assert (Hj : join ws = join (take k ws) ++ 124 :: join (drop k ws)).
      { rewrite <-(take_drop k ws) at 1. apply join_app; intros Hx; apply (f_equal length) in Hx;
          rewrite ?length_take, ?length_drop in Hx; cbn [length] in Hx; lia. }
      rewrite Hj, drop_app_length. change (124 =? 124) with true. cbn iota.
      rewrite bars_loop_join; rewrite ?length_drop; [cbn; lia|by apply Forall_drop| |done|lia].
      intros Hx. apply (f_equal length) in Hx. rewrite length_drop in Hx. cbn in Hx. lia.
Qed.

Lemma distance_paths tp ip1 ip2 n1 n2 : ip1 ≠ ip2 →
  topology_rackid_to_rackname (names tp) (topology_get_rackid tp ip1) = Some (Some n1) →
  topology_rackid_to_rackname (names tp) (topology_get_rackid tp ip2) = Some (Some n2) →
  (topology_get_rackid tp ip1 = topology_get_rackid tp ip2 ↔ n1 = n2) → path_ok n1 → path_ok n2 →
  topology_distance tp ip1 ip2 = Some (path_distance n1 n2).
Proof.
  intros Hne H1 H2 Hid Hp1 Hp2. unfold topology_distance, path_distance, topology_get_rackid in *.
  rewrite (proj2 (Z.eqb_neq _ _) Hne). destruct (Z.eqb_spec (itree_find (racktree tp) ip1) (itree_find (racktree tp) ip2)) as [He|He].
  { by rewrite decide_True by by apply Hid. }
  rewrite H1, H2. cbn [mbind option_bind]. assert (Hnn : n1 ≠ n2) by (intros Hx; by apply He, Hid). rewrite decide_False by done.
  assert (Hl := common_loop_join (words n1) (words n2) 0 0 (words_ne n1) (words_ne n2) (words_no_bar n1) (words_no_bar n2)).
  assert (Hww : words n1 ≠ words n2) by (intros Hx; apply Hnn; by rewrite <-(join_words n1), <-(join_words n2), Hx).
  rewrite !join_words, decide_False in Hl by done. rewrite Hl. set (k := common (words n1) (words n2)) in *.
  destruct (common_le (words n1) (words n2)) as [K1 K2]. fold k in K1, K2.
  assert (C1 := count_bars_words n1 k Hp1 K1). assert (C2 := count_bars_words n2 k Hp2 K2).
  assert (Ht : take k (words n1) = take k (words n2)) by apply common_take.
  assert (Hk : k ≠ length (words n1) ∨ k ≠ length (words n2)).
  { destruct (decide (k = length (words n1))) as [E1|]; [|by left]. right. intros E2. rewrite take_ge, take_ge in Ht by lia. done. }
  destruct Hp1 as [_ L1], Hp2 as [_ L2]. clear Hl Hww.
  destruct k as [|j]; [rewrite C1, C2|rewrite <-Ht in C2; rewrite Nat.add_0_l, C1, C2];
  repeat match goal with |- context [(?a =? ?b)%nat] => destruct (Nat.eqb_spec a b) end; cbn [negb Z.b2z]; case_if; f_equal;
    unfold u8; rewrite Z.mod_small by lia; lia.
Qed.

(** ** The theorems *)

Lemma file_documented ls : Forall cfg_ok ls → file_meaning (print_cfg <$> ls) = Some (omap cfg_def ls).
Proof.
  unfold file_meaning. induction 1 as [|l ls Hl _ IH]; [done|]. cbn [fmap list_fmap mapM omap list_omap].
  rewrite line_documented by done. cbn [mbind option_bind]. destruct (mapM _ _) as [ms|]; [|done]. cbn in *.
  injection IH as IH. rewrite <-IH. by destruct (cfg_def l).
Qed.


(** The examples of the manual page. *)
Definition ex_cfg : list cfg_line :=
  [C_NOTE [] [35; 33] [10]; C_DEF [] (N_BITS 0x0A010000 16) [32] [85; 83; 124; 67; 72; 124; 82; 49] [] [] [10];
   C_DEF [9] (N_RANGE 0x0A010200 0x0A010205) [32; 9] [85; 83; 124; 65; 84] [32] [35; 120] [13; 10];
   C_DEF [] (N_MASK 0x0B000000 8) [32] [68; 69] [] [] []].

Lemma ex_cfg_ok : Forall cfg_ok ex_cfg.
Proof.
  repeat (apply Forall_cons; split); [..|constructor]; cbn; unfold blanks, eol_ok, name_ok, is_u32; split_and!; try done; try lia;
    repeat (constructor; [done|]); try constructor.
Qed.


(** After loading a file of any lines, well formed or not, without undefined
    behaviour, the names and the tree answer with the location of the last line that
    defines the address, and addresses have one number when they have one location; a
    file that cannot be read changes nothing. *)
Theorem topology_load_last lines defs tp : Z.of_nat (length lines) < 2 ^ 30 - 1 → file_meaning lines = Some defs →
  (∃ tp', topology_load (FILE lines false) tp = Some tp' ∧
    (∀ ip, topology_rackid_to_rackname (names tp') (topology_get_rackid tp' ip) = Some (Some (location defs ip))) ∧
    ∀ ip ip', topology_get_rackid tp' ip = topology_get_rackid tp' ip' ↔ location defs ip = location defs ip')
  ∧ topology_load (FILE lines true) tp = Some tp ∧ topology_load NO_FILE tp = Some tp.
Proof.
  intros Hb Hm. split; [by apply loaded|]. split; [|done].
  destruct (load_lines_spec lines topology_rackname_init NIL (λ _, []) defs) as (s & n & Hl & _); [apply names_init|done|cbn; lia|done|].
  unfold topology_load. by rewrite Hl.
Qed.

Lemma topology_load_last_witness : ∃ tp', topology_load (FILE [[49; 46; 50; 32; 97]; [42; 32; 97; 32; 98]; [42; 32; 99; 10]] false) topology_start = Some tp'
  ∧ topology_rackid_to_rackname (names tp') (topology_get_rackid tp' 7) = Some (Some [99]).
Proof.
  destruct (topology_load_last [[49; 46; 50; 32; 97]; [42; 32; 97; 32; 98]; [42; 32; 99; 10]] [(0, 0xFFFFFFFF, [99])] topology_start ltac:(cbn; lia) eq_refl)
    as ((tp' & Hl & Hn & _) & _). exists tp'. split; [exact Hl|]. exact (Hn 7).
Defined.

(** The changes of an interval tree. *)
Inductive it_op := IT_ADD (from to id : Z) | IT_REBALANCE.

Fixpoint it_run (ops : list it_op) (n : itnode) : option itnode :=
  match ops with
  | [] => Some n
  | IT_ADD f t i :: ops => it_run ops (itree_add_interval n f t i)
  | IT_REBALANCE :: ops => n ← itree_rebalance n; it_run ops n
  end.

Definition it_op_ok (o : it_op) : Prop := match o with IT_ADD f t _ => is_u32 f ∧ is_u32 t | IT_REBALANCE => True end.

(** The same on functions. *)
Definition it_effect (m : Z → Z) (o : it_op) : Z → Z :=
  match o with
  | IT_ADD f t i => λ v, if decide (f `min` t ≤ v ≤ f `max` t) then i else m v
  | IT_REBALANCE => m
  end.

Lemma it_run_spec ops : ∀ n m, it_wf 0 UINT32_MAX n → (∀ v, itree_find n v = m v) → Forall it_op_ok ops →
  ∃ n', it_run ops n = Some n' ∧ it_wf 0 UINT32_MAX n' ∧ ∀ v, itree_find n' v = foldl it_effect m ops v.
Proof.
  induction ops as [|[f t i|] ops IH]; intros n m Hw Hm Hok; [by exists n| |]; apply Forall_cons in Hok as [Ho Hok]; cbn [it_run foldl].
  - destruct Ho as [Hf Ht]. destruct (add_interval_spec n f t i) as [Hw' Hk]; [done..|]. apply IH; [done| |done].
    intros v. rewrite find_look, Hk. unfold put_range. cbn [it_effect]. rewrite <-Hm, find_look.
    case_bool_decide; case_decide; try done. destruct (Z.eqb_spec i 0) as [->|]; done.
  - destruct (rebalance_spec 0 UINT32_MAX n) as (n' & -> & Hw' & Hk & _); [done..|]. cbn [mbind option_bind]. apply IH; [done| |done].
    intros v. by rewrite find_look, Hk, <-find_look.
Qed.

(** C32: an interval tree answers, after any additions, removals and rebalancing, as the
    function that was changed on the same ranges; a rebalanced tree has the least depth
    for its intervals and no two neighbours that could be one. *)
Theorem itree_refines ops : Forall it_op_ok ops → ∃ n n',
  it_run ops NIL = Some n ∧ (∀ v, itree_find n v = foldl it_effect (λ _, 0) ops v)
  ∧ itree_rebalance n = Some n' ∧ merged (itree_tolist n') ∧ ∀ d, (length (itree_tolist n') < 2 ^ d)%nat → (depth n' ≤ d)%nat.
Proof.
  intros Hok. destruct (it_run_spec ops NIL (λ _, 0)) as (n & Hr & Hw & Hf); [done..|].
  destruct (rebalance_spec 0 UINT32_MAX n) as (n' & Hb & _ & _ & Hm & Hd); [done..|]. by exists n, n'.
Qed.

Lemma itree_refines_witness : ∃ n, it_run [IT_ADD 5 90 1; IT_ADD 60 40 2; IT_REBALANCE; IT_ADD 50 55 0] NIL = Some n ∧ itree_find n 52 = 0 ∧ itree_find n 56 = 2.
Proof.
  destruct (itree_refines [IT_ADD 5 90 1; IT_ADD 60 40 2; IT_REBALANCE; IT_ADD 50 55 0]) as (n & n' & Hr & Hf & _).
  - repeat (constructor; [cbn; unfold is_u32; lia|]). constructor.
  - exists n. split; [exact Hr|]. by rewrite !Hf.
Defined.
