(* ===== verification/ChangelogText.v ===== *)
(** * The text of the changelog (changelog.c, restore.c)

    Every change is written to the changelog as a line of text and sent to followers,
    which parse it and call the function that replays the change.  Names and data are
    escaped into two buffers that are used in turn, so a pointer to an escaped name is
    good for two calls; the line is written with a bound of 200000 bytes.  Modelled are
    the entries of the locks, the tree, the access lists, the inode numbers, the patterns
    and the extended attributes; the reader's other entries are [UNKNOWN].  A line is a
    list of bytes without the terminating zero. *)

From stdpp Require Import strings.
From S2P Require Import Prelude MfsComm Changelog PosixAcl FsAccess FreeInodes FsOps PatternTable.

#[global] Open Scope Z_scope.

(** The changes that are logged. *)
Inductive entry :=
  | E_LOCK (c : centry)
  | E_TREE (e : tree_entry)
  | E_ACL (e : fs_entry)
  | E_ID (e : id_entry)
  | E_PAT (e : patchange)
  | SETXATTR (ts inode : Z) (name value : list Z) (mode : Z).

Definition str (s : string) : list Z := (λ c, Z.of_N (N_of_ascii c)) <$> String.list_ascii_of_string s.

(** ** Writing *)

(** [%u] *)
Fixpoint dec_loop (fuel : nat) (z : Z) (acc : list Z) : list Z :=
  match fuel with
  | O => acc
  | S fuel => if z <? 10 then 48 + z :: acc else dec_loop fuel (z / 10) (48 + z mod 10 :: acc)
  end.

(** A 64-bit number has at most 20 digits. *)
Definition dec (z : Z) : list Z := dec_loop 20 z [].

Definition hex_digit (z : Z) : Z := if z <? 10 then 48 + z else 55 + z.

Definition escaped (c : Z) : bool := (c <? 32) || (127 <=? c) || (c =? 44) || (c =? 37) || (c =? 40) || (c =? 41).

Fixpoint escape (name : list Z) : list Z :=
  match name with
  | [] => []
  | c :: name =>
      (if escaped c then [37; hex_digit (Z.land (Z.shiftr c 4) 0xF); hex_digit (Z.land c 0xF)] else [c]) ++ escape name
  end.

(** The buffers, each with its size. *)
Record escbufs := mk_escbufs { buffid : bool; buf0 : Z * list Z; buf1 : Z * list Z }.

Definition esc_buf (b : escbufs) (id : bool) : Z * list Z := if id then buf1 b else buf0 b.

Definition set_buf (id : bool) (x : Z * list Z) (b : escbufs) : escbufs :=
  if id then mk_escbufs id (buf0 b) x else mk_escbufs id x (buf1 b).

(** The buffer the name is in; [None]: written beyond its end. *)
Definition changelog_escape_name (name : list Z) (b : escbufs) : option (bool * escbufs) :=
  let id := negb (buffid b) in
  let i := u32 (u32 (Z.of_nat (length name) * 3) + 1) in
  let size := if (fst (esc_buf b id) <? i) || (i =? 0) then u32 ((i / 1000 + 1) * 1000) else fst (esc_buf b id) in
  let text := escape name in
  if Z.of_nat (length text) <? size then Some (id, set_buf id (size, text) b) else None.

(** The pieces of a format string with its arguments. *)
Inductive piece := T (s : string) | U (z : Z) | P (escname : bool) | C (c : ascii).

Definition print_piece (b : escbufs) (p : piece) : list Z :=
  match p with
  | T s => str s
  | U z => dec z
  | P id => snd (esc_buf b id)
  | C c => [Z.of_N (N_of_ascii c)]
  end.

Definition MAXLOGLINESIZE : nat := Nat.mul 1000 200.

(** [vsnprintf] into the buffer of the line. *)
Definition changelog (b : escbufs) (format : list piece) : list Z :=
  take (MAXLOGLINESIZE - 1) (concat (print_piece b <$> format)).

Definition print_lock (c : centry) : list piece :=
  match c with
  | POSIXLOCK ts inode sessionid owner cmd start end_ pid =>
      [U ts; T "|POSIXLOCK("; U inode; T ","; U sessionid; T ","; U owner; T ","; C cmd; T ","; U start; T ","; U end_; T ","; U pid; T ")"]
  | FLOCK ts inode sessionid owner cmd => [U ts; T "|FLOCK("; U inode; T ","; U sessionid; T ","; U owner; T ","; C cmd; T ")"]
  | ACQUIRE ts sessionid inode => [U ts; T "|ACQUIRE("; U sessionid; T ","; U inode; T ")"]
  | RELEASE ts sessionid inode => [U ts; T "|RELEASE("; U sessionid; T ","; U inode; T ")"]
  end.

Definition print_tree (e : tree_entry) (b : escbufs) : option (list piece * escbufs) :=
  match e with
  | SYMLINK ts parent name path uid gid inode =>
      '(n, b) ← changelog_escape_name name b; '(p, b) ← changelog_escape_name path b;
      Some ([U ts; T "|SYMLINK("; U parent; T ","; P n; T ","; P p; T ","; U uid; T ","; U gid; T "):"; U inode], b)
  | CREATE ts parent name type mode cumask uid gid rdev inode =>
      '(n, b) ← changelog_escape_name name b;
      Some ([U ts; T "|CREATE("; U parent; T ","; P n; T ","; U type; T ","; U mode; T ","; U cumask; T ","; U uid; T ","; U gid; T ",";
             U rdev; T "):"; U inode], b)
  | UNLINK ts parent name inode =>
      '(n, b) ← changelog_escape_name name b;
      Some ([U ts; T "|UNLINK("; U parent; T ","; P n; T "):"; U inode], b)
  | MOVE ts parent_src name_src parent_dst name_dst rmode inode =>
      '(n, b) ← changelog_escape_name name_src b; '(m, b) ← changelog_escape_name name_dst b;
      Some ([U ts; T "|MOVE("; U parent_src; T ","; P n; T ","; U parent_dst; T ","; P m; T ","; U rmode; T "):"; U inode], b)
  | LINK ts inode_src parent_dst name_dst =>
      '(n, b) ← changelog_escape_name name_dst b;
      Some ([U ts; T "|LINK("; U inode_src; T ","; U parent_dst; T ","; P n; T ")"], b)
  | LENGTH ts inode length canmodmtime =>
      Some ([U ts; T "|LENGTH("; U inode; T ","; U length; T ","; U (Z.b2z canmodmtime); T ")"], b)
  | TRASH_REMOVE ts inode => Some ([U ts; T "|TRASH_REMOVE("; U inode; T ")"], b)
  | PURGE ts inode => Some ([U ts; T "|PURGE("; U inode; T ")"], b)
  | SETPATH ts inode path =>
      '(p, b) ← changelog_escape_name path b; Some ([U ts; T "|SETPATH("; U inode; T ","; P p; T ")"], b)
  end.

Definition print_acl (e : fs_entry) (b : escbufs) : option (list piece * escbufs) :=
  match e with
  | ATTR ts inode mode uid gid atime mtime winattr aclmode =>
      Some ([U ts; T "|ATTR("; U inode; T ","; U mode; T ","; U uid; T ","; U gid; T ","; U atime; T ","; U mtime; T ","; U winattr; T ",";
             U aclmode; T ")"], b)
  | SETACL ts inode mode chg acltype r aclblob =>
      '(p, b) ← changelog_escape_name aclblob b;
      Some ([U ts; T "|SETACL("; U inode; T ","; U mode; T ","; U (Z.b2z chg); T ","; U acltype; T ","; U (ar_userperm r); T ",";
             U (ar_groupperm r); T ","; U (ar_otherperm r); T ","; U (ar_mask r); T ","; U (ar_namedusers r); T ","; U (ar_namedgroups r);
             T ","; P p; T ")"], b)
  end.

Definition print_id (e : id_entry) : list piece :=
  let '(FREEINODES ts inodereusedelay fi si ics) := e in
  [U ts; T "|FREEINODES("; U inodereusedelay; T "):"; U fi; T ","; U si; T ","; U ics].

Definition print_pat (e : patchange) (b : escbufs) : option (list piece * escbufs) :=
  match e with
  | PATADD ts gname euid egid priority omask scid trashretention seteattr clreattr =>
      '(n, b) ← changelog_escape_name gname b;
      Some ([U ts; T "|PATADD("; P n; T ","; U euid; T ","; U egid; T ","; U priority; T ","; U omask; T ","; U scid; T ",";
             U trashretention; T ","; U seteattr; T ","; U clreattr; T ")"], b)
  | PATDEL ts gname euid egid =>
      '(n, b) ← changelog_escape_name gname b; Some ([U ts; T "|PATDEL("; P n; T ","; U euid; T ","; U egid; T ")"], b)
  end.

Definition print_entry (e : entry) (b : escbufs) : option (list piece * escbufs) :=
  match e with
  | E_LOCK c => Some (print_lock c, b)
  | E_TREE e => print_tree e b
  | E_ACL e => print_acl e b
  | E_ID e => Some (print_id e, b)
  | E_PAT e => print_pat e b
  | SETXATTR ts inode name value mode =>
      '(n, b) ← changelog_escape_name name b; '(v, b) ← changelog_escape_name value b;
      Some ([U ts; T "|SETXATTR("; U inode; T ","; P n; T ","; P v; T ","; U mode; T ")"], b)
  end.

(** The line of an entry, and the buffers. *)
Definition log_line (e : entry) (b : escbufs) : option (list Z * escbufs) :=
  '(format, b) ← print_entry e b; Some (changelog b format, b).

(** ** Reading

    A reader takes the text at [ptr] and gives a value and what follows it, [None] where
    the code returns -1 (or would read on behind the end of a text that breaks off).
    The parentheses are the characters 40 and 41, the comma is 44, the colon 58. *)

Definition EAT (c : Z) (ptr : list Z) : option (list Z) :=
  match ptr with x :: ptr => if x =? c then Some ptr else None | [] => None end.

Definition dig (c : Z) : bool := (48 <=? c) && (c <=? 57).
Definition space (c : Z) : bool := (c =? 32) || ((9 <=? c) && (c <=? 13)).

Fixpoint skip_spaces (l : list Z) : list Z := match l with c :: l' => if space c then skip_spaces l' else l | [] => [] end.

Fixpoint digits_loop (v : Z) (l : list Z) : Z * list Z :=
  match l with c :: l' => if dig c then digits_loop (v * 10 + (c - 48)) l' else (v, l) | [] => (v, []) end.

(** Base ten, 64 bits. *)
Definition strtoul (ptr : list Z) : Z * list Z :=
  let l := skip_spaces ptr in
  let '(neg, l) := match l with c :: l' => if c =? 45 then (true, l') else if c =? 43 then (false, l') else (false, l) | [] => (false, l) end in
  match l with
  | c :: _ =>
      if dig c then
        let '(v, rest) := digits_loop 0 l in
        (if UINT64_MAX <? v then UINT64_MAX else if neg then u64 (- v) else v, rest)
      else (0, ptr)
  | [] => (0, ptr)
  end.

Definition GETU32 (ptr : list Z) : option (Z * list Z) := let '(v, p) := strtoul ptr in Some (u32 v, p).
Definition GETU64 (ptr : list Z) : option (Z * list Z) := Some (strtoul ptr).
Definition GETU16 (ptr : list Z) : option (Z * list Z) :=
  let '(v, p) := strtoul ptr in if 65535 <? u32 v then None else Some (u32 v, p).
Definition GETU8 (ptr : list Z) : option (Z * list Z) :=
  let '(v, p) := strtoul ptr in if 255 <? u32 v then None else Some (u32 v, p).

Definition hex_value (h : Z) : option Z :=
  if (48 <=? h) && (h <=? 57) then Some (h - 48) else if (65 <=? h) && (h <=? 70) then Some (h - 55) else None.

(** Up to the separator [c]; [limit] is the room in the array. *)
Fixpoint unescape (limit : option nat) (c : Z) (ptr : list Z) : option (list Z * list Z) :=
  match ptr with
  | [] => match limit with Some O => Some ([], []) | _ => None end
  | x :: ptr' =>
      if x =? c then Some ([], ptr)
      else match limit with
      | Some O => Some ([], ptr)
      | _ =>
          let limit := option_map Nat.pred limit in
          if (x =? 0) || (x =? 13) || (x =? 10) then None
          else if x =? 37 then
            match ptr' with
            | h1 :: h2 :: ptr' =>
                v1 ← hex_value h1; v2 ← hex_value h2;
                '(name, ptr) ← unescape limit c ptr'; Some (u8 (v1 * 16 + v2) :: name, ptr)
            | _ => None
            end
          else '(name, ptr) ← unescape limit c ptr'; Some (x :: name, ptr)
      end
  end.

(** The string in the array of 256 bytes, to its first zero. *)
Definition GETNAME (c : Z) (ptr : list Z) : option (list Z * list Z) :=
  '(name, ptr) ← unescape (Some 255%nat) c ptr; Some (FsOps.c_string name, ptr).
Definition GETPATH (c : Z) (ptr : list Z) : option (list Z * list Z) := unescape None c ptr.
Definition GETDATA (c : Z) (ptr : list Z) : option (list Z * list Z) := unescape None c ptr.

(** The first separator, whatever it is. *)
Fixpoint NEXTSEPARATOR (ptr : list Z) : Z :=
  match ptr with
  | [] => 0
  | x :: ptr => if (x <? 32) || (127 <=? x) || (x =? 44) || (x =? 40) || (x =? 41) then x else NEXTSEPARATOR ptr
  end.

(** What a line asks for: a function to call with its arguments, or an answer. *)
Inductive action := CALL (e : entry) | STATUS (status : Z).


(** One character. *)
Definition getc (ptr : list Z) : option (Z * list Z) := match ptr with x :: p => Some (x, p) | [] => None end.
Definition peek (ptr : list Z) : Z := match ptr with x :: _ => x | [] => 0 end.

Definition do_acquire (ts : Z) (p : list Z) : option entry :=
  p ← EAT 40 p; '(inode, p) ← GETU32 p; p ← EAT 44 p; '(cuid, p) ← GETU32 p; _ ← EAT 41 p;
  Some (E_LOCK (ACQUIRE ts inode cuid)).

Definition do_release (ts : Z) (p : list Z) : option entry :=
  p ← EAT 40 p; '(inode, p) ← GETU32 p; p ← EAT 44 p; '(cuid, p) ← GETU32 p; _ ← EAT 41 p;
  Some (E_LOCK (RELEASE ts inode cuid)).

Definition do_posixlock (ts : Z) (p : list Z) : option entry :=
  p ← EAT 40 p; '(inode, p) ← GETU32 p; p ← EAT 44 p; '(sessionid, p) ← GETU32 p; p ← EAT 44 p; '(owner, p) ← GETU64 p; p ← EAT 44 p;
  '(cmd, p) ← getc p; p ← EAT 44 p; '(start, p) ← GETU64 p; p ← EAT 44 p; '(end_, p) ← GETU64 p; p ← EAT 44 p; '(pid, p) ← GETU32 p;
  _ ← EAT 41 p; Some (E_LOCK (POSIXLOCK ts inode sessionid owner (ascii_of_N (Z.to_N cmd)) start end_ pid)).

Definition do_flock (ts : Z) (p : list Z) : option entry :=
  p ← EAT 40 p; '(inode, p) ← GETU32 p; p ← EAT 44 p; '(sessionid, p) ← GETU32 p; p ← EAT 44 p; '(owner, p) ← GETU64 p; p ← EAT 44 p;
  '(cmd, p) ← getc p; _ ← EAT 41 p; Some (E_LOCK (FLOCK ts inode sessionid owner (ascii_of_N (Z.to_N cmd)))).

Definition do_symlink (ts : Z) (p : list Z) : option entry :=
  p ← EAT 40 p; '(parent, p) ← GETU32 p; p ← EAT 44 p; '(name, p) ← GETNAME 44 p; p ← EAT 44 p; '(path, p) ← GETPATH 44 p; p ← EAT 44 p;
  '(uid, p) ← GETU32 p; p ← EAT 44 p; '(gid, p) ← GETU32 p; p ← EAT 41 p; p ← EAT 58 p; '(inode, p) ← GETU32 p;
  Some (E_TREE (SYMLINK ts parent name (FsOps.c_string path) uid gid inode)).

Definition do_create (ts : Z) (p : list Z) : option entry :=
  p ← EAT 40 p; '(parent, p) ← GETU32 p; p ← EAT 44 p; '(name, p) ← GETNAME 44 p; p ← EAT 44 p;
  '(type, p) ← (if dig (peek p) then GETU8 p else getc p); p ← EAT 44 p; '(mode, p) ← GETU16 p; p ← EAT 44 p;
  '(cumask, p) ← (if type <? 16 then '(cumask, p) ← GETU16 p; p ← EAT 44 p; Some (cumask, p) else Some (0, p));
  '(uid, p) ← GETU32 p; p ← EAT 44 p; '(gid, p) ← GETU32 p; p ← EAT 44 p; '(rdev, p) ← GETU32 p; p ← EAT 41 p; p ← EAT 58 p;
  '(inode, p) ← GETU32 p; Some (E_TREE (CREATE ts parent name type mode cumask uid gid rdev inode)).

Definition do_unlink (ts : Z) (p : list Z) : option entry :=
  p ← EAT 40 p; '(parent, p) ← GETU32 p; p ← EAT 44 p; '(name, p) ← GETNAME 41 p; p ← EAT 41 p; p ← EAT 58 p; '(inode, p) ← GETU32 p;
  Some (E_TREE (UNLINK ts parent name inode)).

Definition do_move (ts : Z) (p : list Z) : option entry :=
  p ← EAT 40 p; '(parent_src, p) ← GETU32 p; p ← EAT 44 p; '(name_src, p) ← GETNAME 44 p; p ← EAT 44 p; '(parent_dst, p) ← GETU32 p;
  p ← EAT 44 p;
  '(name_dst, rmode, p) ← (if NEXTSEPARATOR p =? 44 then '(name_dst, p) ← GETNAME 44 p; p ← EAT 44 p; '(rmode, p) ← GETU8 p; Some (name_dst, rmode, p)
    else '(name_dst, p) ← GETNAME 41 p; Some (name_dst, 0, p));
  p ← EAT 41 p; p ← EAT 58 p; '(inode, p) ← GETU32 p;
  Some (E_TREE (MOVE ts parent_src name_src parent_dst name_dst rmode inode)).

Definition do_link (ts : Z) (p : list Z) : option entry :=
  p ← EAT 40 p; '(inode, p) ← GETU32 p; p ← EAT 44 p; '(parent, p) ← GETU32 p; p ← EAT 44 p; '(name, p) ← GETNAME 41 p; _ ← EAT 41 p;
  Some (E_TREE (LINK ts inode parent name)).

Definition do_length (ts : Z) (p : list Z) : option entry :=
  p ← EAT 40 p; '(inode, p) ← GETU32 p; p ← EAT 44 p; '(length, p) ← GETU64 p;
  '(canmodmtime, p) ← (if peek p =? 44 then p ← EAT 44 p; GETU8 p else Some (1, p));
  _ ← EAT 41 p; Some (E_TREE (LENGTH ts inode length (negb (canmodmtime =? 0)))).

Definition do_trash_remove (ts : Z) (p : list Z) : option entry :=
  p ← EAT 40 p; '(inode, p) ← GETU32 p; _ ← EAT 41 p; Some (E_TREE (TRASH_REMOVE ts inode)).

Definition do_purge (ts : Z) (p : list Z) : option entry :=
  p ← EAT 40 p; '(inode, p) ← GETU32 p; _ ← EAT 41 p; Some (E_TREE (PURGE ts inode)).

Definition do_setpath (ts : Z) (p : list Z) : option entry :=
  p ← EAT 40 p; '(inode, p) ← GETU32 p; p ← EAT 44 p; '(path, p) ← GETPATH 41 p; _ ← EAT 41 p; Some (E_TREE (SETPATH ts inode path)).

Definition do_freeinodes (ts : Z) (p : list Z) : option entry :=
  p ← EAT 40 p; '(delay, p) ← (if peek p =? 41 then Some (86400, p) else GETU32 p); p ← EAT 41 p; p ← EAT 58 p;
  '(freeinodes, p) ← GETU32 p;
  '(sustainedinodes, p) ← (if peek p =? 44 then p ← EAT 44 p; GETU32 p else Some (0, p));
  '(inode_chksum, p) ← (if peek p =? 44 then p ← EAT 44 p; GETU32 p else Some (0, p));
  Some (E_ID (FREEINODES ts delay freeinodes sustainedinodes inode_chksum)).

Definition do_patadd (ts : Z) (p : list Z) : option entry :=
  p ← EAT 40 p; '(gname, p) ← GETNAME 44 p; p ← EAT 44 p; '(euid, p) ← GETU32 p; p ← EAT 44 p; '(egid, p) ← GETU32 p; p ← EAT 44 p;
  '(priority, p) ← GETU8 p; p ← EAT 44 p; '(omask, p) ← GETU8 p; p ← EAT 44 p; '(scid, p) ← GETU8 p; p ← EAT 44 p;
  '(trashretention, p) ← GETU16 p; p ← EAT 44 p; '(seteattr, p) ← GETU8 p;
  '(clreattr, p) ← (if peek p =? 44 then p ← EAT 44 p; GETU8 p else Some (0, p)); _ ← EAT 41 p;
  Some (E_PAT (PATADD ts gname euid egid priority omask scid trashretention seteattr clreattr)).

Definition do_patdel (ts : Z) (p : list Z) : option entry :=
  p ← EAT 40 p; '(gname, p) ← GETNAME 44 p; p ← EAT 44 p; '(euid, p) ← GETU32 p; p ← EAT 44 p; '(egid, p) ← GETU32 p; _ ← EAT 41 p;
  Some (E_PAT (PATDEL ts gname euid egid)).

Definition do_attr (ts : Z) (p : list Z) : option entry :=
  p ← EAT 40 p; '(inode, p) ← GETU32 p; p ← EAT 44 p; '(mode, p) ← GETU32 p; p ← EAT 44 p; '(uid, p) ← GETU32 p; p ← EAT 44 p;
  '(gid, p) ← GETU32 p; p ← EAT 44 p; '(atime, p) ← GETU32 p; p ← EAT 44 p; '(mtime, p) ← GETU32 p;
  '(winattr, aclmode, p) ←
    (if peek p =? 44 then
       p ← EAT 44 p; '(aclmode, p) ← GETU32 p;
       if peek p =? 44 then p ← EAT 44 p; '(aclmode2, p) ← GETU32 p; Some (aclmode, aclmode2, p) else Some (0, aclmode, p)
     else Some (0, mode, p));
  _ ← EAT 41 p; Some (E_ACL (ATTR ts inode mode uid gid atime mtime winattr aclmode)).

Definition do_setacl (ts : Z) (p : list Z) : option action :=
  p ← EAT 40 p; '(inode, p) ← GETU32 p; p ← EAT 44 p; '(mode, p) ← GETU16 p; p ← EAT 44 p; '(changectime, p) ← GETU8 p; p ← EAT 44 p;
  '(acltype, p) ← GETU8 p; p ← EAT 44 p; '(userperm, p) ← GETU16 p; p ← EAT 44 p; '(groupperm, p) ← GETU16 p; p ← EAT 44 p;
  '(otherperm, p) ← GETU16 p; p ← EAT 44 p; '(mask, p) ← GETU16 p; p ← EAT 44 p; '(namedusers, p) ← GETU16 p; p ← EAT 44 p;
  '(namedgroups, p) ← GETU16 p; p ← EAT 44 p; '(aclblob, p) ← GETDATA 41 p; _ ← EAT 41 p;
  Some (if Z.of_nat (length aclblob) =? 6 * (namedusers + namedgroups)
    then CALL (E_ACL (SETACL ts inode mode (negb (changectime =? 0)) acltype
      (mk_acl_rights userperm groupperm otherperm mask namedusers namedgroups) aclblob))
    else STATUS MFS_ERROR_MISMATCH).

Definition do_setxattr (ts : Z) (p : list Z) : option entry :=
  p ← EAT 40 p; '(inode, p) ← GETU32 p; p ← EAT 44 p; '(name, p) ← GETNAME 44 p; p ← EAT 44 p; '(value, p) ← GETDATA 44 p; p ← EAT 44 p;
  '(mode, p) ← GETU32 p; _ ← EAT 41 p; Some (SETXATTR ts inode name value mode).

(** [strncmp] with a keyword; what follows it. *)
Fixpoint after (key ptr : list Z) : option (list Z) :=
  match key, ptr with
  | [], _ => Some ptr
  | k :: key, x :: ptr => if k =? x then after key ptr else None
  | _, [] => None
  end.

Definition call (r : option entry) : option action := e ← r; Some (CALL e).

(** The keywords in the order of the code. *)
Definition keywords : list (string * (Z → list Z → option action)) :=
  [("ATTR"%string, λ ts p, call (do_attr ts p)); ("ACQUIRE"%string, λ ts p, call (do_acquire ts p)); ("AQUIRE"%string, λ ts p, call (do_acquire ts p));
   ("CREATE"%string, λ ts p, call (do_create ts p)); ("FLOCK"%string, λ ts p, call (do_flock ts p));
   ("FREEINODES"%string, λ ts p, call (do_freeinodes ts p)); ("LENGTH"%string, λ ts p, call (do_length ts p));
   ("LINK"%string, λ ts p, call (do_link ts p)); ("MOVE"%string, λ ts p, call (do_move ts p)); ("PATADD"%string, λ ts p, call (do_patadd ts p));
   ("PATDEL"%string, λ ts p, call (do_patdel ts p)); ("POSIXLOCK"%string, λ ts p, call (do_posixlock ts p));
   ("PURGE"%string, λ ts p, call (do_purge ts p)); ("RELEASE"%string, λ ts p, call (do_release ts p)); ("SETACL"%string, do_setacl);
   ("SETPATH"%string, λ ts p, call (do_setpath ts p)); ("SETXATTR"%string, λ ts p, call (do_setxattr ts p));
   ("SYMLINK"%string, λ ts p, call (do_symlink ts p)); ("TRASH_REMOVE"%string, λ ts p, call (do_trash_remove ts p));
   ("UNLINK"%string, λ ts p, call (do_unlink ts p))].

(** A keyword that is not modelled is left to [other], as is the answer to an unknown
    one. *)
Fixpoint dispatch (other : Z → list Z → option action) (keys : list (string * (Z → list Z → option action))) (ts : Z) (ptr : list Z) : option action :=
  match keys with
  | [] => other ts ptr
  | (k, f) :: keys => match after (str k) ptr with Some p => f ts p | None => dispatch other keys ts ptr end
  end.

(** The status of the call is what [restore_line] returns. *)
Definition restore_line (other : Z → list Z → option action) (line : list Z) : option action :=
  '(ts, ptr) ← GETU32 line; ptr ← EAT 124 ptr; dispatch other keywords ts ptr.
