(* ===== verification/ChangelogProps.v ===== *)
(** * The changelog is read as it was written

    A line is printable text that the reader takes apart into the entry it was made
    from; a follower that reads the lines of a run ends with the tree of the master. *)

From stdpp Require Import strings.
From S2P Require Import Prelude MfsComm IntervalTree Changelog PosixAcl FsAccess FreeInodes StorageClass FsTree FsOps PatternTable FsSystem FsReplay FsProps ChangelogText.

#[global] Open Scope Z_scope.

(** ** Numbers *)

Definition no_digit (l : list Z) : Prop := match l with [] => True | c :: _ => dig c = false end.

Lemma dec_loop_app fuel z a r : dec_loop fuel z a ++ r = dec_loop fuel z (a ++ r).
Proof. revert z a. induction fuel as [|fuel IH]; intros z a; [done|]. cbn. by case_if; [|rewrite IH]. Qed.

Lemma dec_loop_read fuel z a : 0 ≤ z < 10 ^ Z.of_nat fuel → digits_loop 0 (dec_loop fuel z a) = digits_loop z a.
Proof.
  revert z a. induction fuel as [|fuel IH]; intros z a Hz; [replace z with 0 by (cbn in Hz; lia); done|].
  rewrite Nat2Z.inj_succ, Z.pow_succ_r in Hz by lia.
  assert (Hd : ∀ v d l, 0 ≤ d ≤ 9 → digits_loop v (48 + d :: l) = digits_loop (v * 10 + d) l).
  { intros v d l Hd. cbn. unfold dig. rewrite (proj2 (Z.leb_le _ _)), (proj2 (Z.leb_le (48 + d) 57)) by lia. cbn [andb]. f_equal. lia. }
  cbn [dec_loop]. case_if; [rewrite Hd by lia; f_equal; lia|].
  rewrite IH by (Z.to_euclidean_division_equations; lia). rewrite Hd by (Z.to_euclidean_division_equations; lia). f_equal.
  Z.to_euclidean_division_equations; lia.
Qed.

Lemma dec_loop_digits fuel z a : 0 ≤ z → Forall (λ c, 48 ≤ c ≤ 57) a → Forall (λ c, 48 ≤ c ≤ 57) (dec_loop fuel z a).
Proof.
  revert z a. induction fuel as [|fuel IH]; intros z a Hz Ha; [done|]. cbn. case_if; [by constructor; [lia|]|].
  apply IH; [Z.to_euclidean_division_equations; lia|]. constructor; [Z.to_euclidean_division_equations; lia|done].
Qed.

Lemma dec_loop_length fuel z a : (length (dec_loop fuel z a) ≤ fuel + length a)%nat.
Proof. revert z a. induction fuel as [|fuel IH]; intros z a; cbn; [lia|]. case_if; cbn; [lia|]. etrans; [apply IH|]. cbn. lia. Qed.

Lemma dec_length z : (length (dec z) ≤ 20)%nat.
Proof. etrans; [apply dec_loop_length|]. cbn. lia. Qed.

Lemma dec_digits z : 0 ≤ z → Forall (λ c, 48 ≤ c ≤ 57) (dec z).
Proof. intros Hz. apply dec_loop_digits; [done|constructor]. Qed.

Lemma dec_head z : 0 ≤ z → ∃ d l, dec z = d :: l ∧ 48 ≤ d ≤ 57.
Proof.
  intros Hz. assert (Hne : ∀ fuel y a, a ≠ [] → dec_loop fuel y a ≠ []).
  { intros fuel. induction fuel as [|fuel IH]; intros y a Ha; [done|]. cbn. case_if; [done|]. by apply IH. }
  assert (Hne' : ∀ fuel y, dec_loop (S fuel) y [] ≠ []).
  { intros fuel y. cbn [dec_loop]. case_if; [done|]. by apply Hne. }
  assert (Hd := dec_digits z Hz). destruct (dec z) as [|d l] eqn:E; [by destruct (Hne' 19%nat z)|].
  exists d, l. by apply Forall_cons in Hd as [? _].
Qed.

Lemma strtoul_dec z r : is_u64 z → no_digit r → strtoul (dec z ++ r) = (z, r).
Proof.
  intros Hz Hr. unfold is_u64 in Hz. destruct (dec_head z) as (d & l & Hd & Hdd); [lia|]. unfold strtoul.
  assert (Hs : skip_spaces (dec z ++ r) = dec z ++ r).
  { rewrite Hd. cbn. unfold space. rewrite (proj2 (Z.eqb_neq d 32)), (proj2 (Z.leb_gt d 13)) by lia. by rewrite andb_false_r. }
  rewrite Hs. assert (Hv : digits_loop 0 (dec z ++ r) = (z, r)).
  { unfold dec. rewrite dec_loop_app, dec_loop_read by (change (10 ^ Z.of_nat 20) with 100000000000000000000; lia).
    destruct r as [|c r]; [done|]. cbn in *. by rewrite Hr. }
  rewrite Hd in Hv |- *. cbn [app]. rewrite (proj2 (Z.eqb_neq d 45)), (proj2 (Z.eqb_neq d 43)) by lia.
  assert (Hdig : dig d = true) by (unfold dig; rewrite (proj2 (Z.leb_le _ _)), (proj2 (Z.leb_le d 57)) by lia; done).
  rewrite Hdig. cbn [app] in Hv. rewrite Hv. by rewrite (proj2 (Z.ltb_ge _ _)) by (unfold UINT64_MAX; lia).
Qed.

Lemma getu64_dec z r : is_u64 z → no_digit r → GETU64 (dec z ++ r) = Some (z, r).
Proof. intros. unfold GETU64. by rewrite strtoul_dec. Qed.

Lemma u32_u64 z : is_u32 z → is_u64 z.
Proof. unfold is_u32, is_u64. lia. Qed.

Lemma getu32_dec z r : is_u32 z → no_digit r → GETU32 (dec z ++ r) = Some (z, r).
Proof. intros Hz Hr. unfold GETU32. rewrite strtoul_dec by (done || by apply u32_u64). by rewrite u32_small. Qed.

Lemma getu16_dec z r : is_u16 z → no_digit r → GETU16 (dec z ++ r) = Some (z, r).
Proof.
  intros Hz Hr. unfold is_u16 in Hz. assert (is_u32 z) by (unfold is_u32; lia). unfold GETU16.
  rewrite strtoul_dec by (done || by apply u32_u64). rewrite u32_small by done. by rewrite (proj2 (Z.ltb_ge _ _)) by lia.
Qed.

Lemma getu8_dec z r : is_u8 z → no_digit r → GETU8 (dec z ++ r) = Some (z, r).
Proof.
  intros Hz Hr. unfold is_u8 in Hz. assert (is_u32 z) by (unfold is_u32; lia). unfold GETU8.
  rewrite strtoul_dec by (done || by apply u32_u64). rewrite u32_small by done. by rewrite (proj2 (Z.ltb_ge _ _)) by lia.
Qed.

(** ** Names *)

Lemma hex_value_digit h : 0 ≤ h < 16 → hex_value (hex_digit h) = Some h.
Proof.
  intros Hh. unfold hex_value, hex_digit. destruct (Z.ltb_spec h 10).
  - rewrite (proj2 (Z.leb_le _ _)), (proj2 (Z.leb_le (48 + h) 57)) by lia. cbn [andb]. f_equal. lia.
  - rewrite (proj2 (Z.leb_gt (55 + h) 57)) by lia. rewrite andb_false_r.
    rewrite (proj2 (Z.leb_le _ _)), (proj2 (Z.leb_le (55 + h) 70)) by lia. cbn [andb]. f_equal. lia.
Qed.

Lemma halves c : is_u8 c → 0 ≤ Z.land (Z.shiftr c 4) 0xF < 16 ∧ 0 ≤ Z.land c 0xF < 16
  ∧ Z.land (Z.shiftr c 4) 0xF * 16 + Z.land c 0xF = c.
Proof.
  intros Hc. unfold is_u8 in Hc. change 0xF with (Z.ones 4). rewrite !Z.land_ones, Z.shiftr_div_pow2 by lia.
  change (2 ^ 4) with 16. Z.to_euclidean_division_equations; lia.
Qed.

Lemma unescape_escape limit sep name r : Forall is_u8 name → (sep = 44 ∨ sep = 41) →
  (∀ n, limit = Some n → (length name ≤ n)%nat) → unescape limit sep (escape name ++ sep :: r) = Some (name, sep :: r).
Proof.
  intros Hn Hsep. revert limit. induction Hn as [|c name Hc _ IH]; intros limit Hl.
  { cbn. by rewrite Z.eqb_refl. }
  assert (Hlim : ∀ x, match limit with Some O => Some ([], x) | _ => @None (list Z * list Z) end = None).
  { intros x. destruct limit as [[|n]|]; [|done..]. specialize (Hl O eq_refl). cbn in Hl. lia. }
  assert (Hl' : ∀ n, option_map Nat.pred limit = Some n → (length name ≤ n)%nat).
  { intros n Hx. destruct limit as [m|]; [|done]. injection Hx as <-. specialize (Hl m eq_refl). cbn in Hl. lia. }
  specialize (IH (option_map Nat.pred limit) Hl'). destruct (halves c Hc) as (H1 & H2 & H3). unfold is_u8 in Hc.
  cbn [escape]. destruct (escaped c) eqn:E.
  - cbn [app unescape]. rewrite (proj2 (Z.eqb_neq 37 sep)) by lia.
    destruct limit as [[|n]|]; [by specialize (Hlim [])| |]; cbn [Z.eqb Pos.eqb orb option_map Nat.pred] in *;
      rewrite !hex_value_digit by done; cbn [mbind option_bind]; rewrite IH; cbn [mbind option_bind]; rewrite H3; unfold u8; by rewrite Z.mod_small by lia.
  - unfold escaped in E. repeat (apply orb_false_elim in E as [E ?]). zbool. cbn [app unescape].
    rewrite (proj2 (Z.eqb_neq c sep)) by lia.
    destruct limit as [[|n]|]; [by specialize (Hlim [])| |]; cbn [option_map Nat.pred] in *;
      rewrite (proj2 (Z.eqb_neq c 0)), (proj2 (Z.eqb_neq c 13)), (proj2 (Z.eqb_neq c 10)), (proj2 (Z.eqb_neq c 37)) by lia; cbn [orb];
      rewrite IH; done.
Qed.

Definition printable (c : Z) : Prop := 32 ≤ c < 127.

Lemma hex_digit_printable h : 0 ≤ h < 16 → printable (hex_digit h).
Proof. intros Hh. unfold printable, hex_digit. destruct (Z.ltb_spec h 10); lia. Qed.

Lemma escape_printable name : Forall is_u8 name → Forall printable (escape name).
Proof.
  induction 1 as [|c name Hc _ IH]; [constructor|]. cbn [escape]. apply Forall_app. split; [|done]. destruct (halves c Hc) as (H1 & H2 & _).
  destruct (escaped c) eqn:E.
  - repeat (constructor; [by first [apply hex_digit_printable|unfold printable]|]). constructor.
  - unfold escaped in E. repeat (apply orb_false_elim in E as [E ?]). zbool. constructor; [unfold printable; lia|constructor].
Qed.

Lemma escape_length name : (length (escape name) ≤ 3 * length name)%nat.
Proof. induction name as [|c name IH]; cbn [escape length]; [lia|]. rewrite length_app. destruct (escaped c); cbn [length]; lia. Qed.

Lemma escape_name_spec name b : Z.of_nat (length name) ≤ 65536 →
  ∃ size, changelog_escape_name name b = Some (negb (buffid b), set_buf (negb (buffid b)) (size, escape name) b).
Proof.
  intros Hl. unfold changelog_escape_name. set (s := fst (esc_buf b (negb (buffid b)))).
  rewrite !u32_small by (unfold is_u32; rewrite ?u32_small by (unfold is_u32; lia); lia).
  assert (He := escape_length name). set (i := Z.of_nat (length name) * 3 + 1).
  rewrite (proj2 (Z.ltb_lt _ _)); [by eexists|]. case_if.
  - rewrite u32_small by (unfold is_u32; Z.to_euclidean_division_equations; lia). Z.to_euclidean_division_equations; lia.
  - zbool. lia.
Qed.

Lemma nonzero_u8 l : Forall (λ c, 0 < c < 256) l → Forall is_u8 l.
Proof. intros Hl. eapply Forall_impl; [exact Hl|]. unfold is_u8. cbn. lia. Qed.

Lemma c_string_nonzero l : Forall (λ c, 0 < c < 256) l → FsOps.c_string l = l.
Proof. induction 1 as [|c l Hc _ IH]; [done|]. cbn. by rewrite (proj2 (Z.eqb_neq c 0)), IH by lia. Qed.

Lemma getname_escape sep name r : Forall (λ c, 0 < c < 256) name → (length name ≤ 255)%nat → (sep = 44 ∨ sep = 41) →
  GETNAME sep (escape name ++ sep :: r) = Some (name, sep :: r).
Proof.
  intros Hn Hl Hs. unfold GETNAME. rewrite unescape_escape; [|by apply nonzero_u8|done|by intros n [= <-]].
  cbn. by rewrite c_string_nonzero.
Qed.

Lemma getdata_escape sep data r : Forall is_u8 data → (sep = 44 ∨ sep = 41) → GETDATA sep (escape data ++ sep :: r) = Some (data, sep :: r).
Proof. intros Hn Hs. unfold GETDATA. by rewrite unescape_escape. Qed.

Lemma getpath_escape sep path r : Forall is_u8 path → (sep = 44 ∨ sep = 41) → GETPATH sep (escape path ++ sep :: r) = Some (path, sep :: r).
Proof. exact (getdata_escape sep path r). Qed.

Lemma nextseparator_escape name r : Forall is_u8 name → NEXTSEPARATOR (escape name ++ 44 :: r) = 44.
Proof.
  induction 1 as [|c name Hc _ IH]; [done|]. cbn [escape]. destruct (halves c Hc) as (H1 & H2 & _).
  assert (Hp : ∀ h, 0 ≤ h < 16 → (hex_digit h <? 32) || (127 <=? hex_digit h) || (hex_digit h =? 44) || (hex_digit h =? 40) || (hex_digit h =? 41) = false).
  { intros h Hh. assert (48 ≤ hex_digit h ≤ 70) by (unfold hex_digit; destruct (Z.ltb_spec h 10); lia).
    rewrite (proj2 (Z.ltb_ge _ _)), (proj2 (Z.leb_gt _ _)), !(proj2 (Z.eqb_neq _ _)) by lia. done. }
  destruct (escaped c) eqn:E.
  - cbn [app NEXTSEPARATOR]. rewrite !Hp by done. exact IH.
  - unfold escaped in E. repeat (apply orb_false_elim in E as [E ?]). cbn [app NEXTSEPARATOR].
    repeat match goal with H : ?x = false |- _ => rewrite H; clear H end. exact IH.
Qed.

(** ** Lines *)

Lemma restore_key k f other ts r : In (k, f) keywords → is_u32 ts →
  restore_line other (dec ts ++ (124 :: str k) ++ 40 :: r) = f ts (40 :: r).
Proof.
  intros Hin Hts. unfold restore_line. cbn [app]. rewrite getu32_dec by done. cbn [mbind option_bind EAT]. rewrite Z.eqb_refl. cbn [mbind option_bind].
  cbn [In keywords] in Hin. repeat (destruct Hin as [[= <- <-]|Hin]; [reflexivity|]). done.
Qed.

Definition piece_bound (b : escbufs) (p : piece) : Z :=
  match p with T s => Z.of_nat (String.length s) | U _ => 20 | P id => Z.of_nat (length (snd (esc_buf b id))) | C _ => 1 end.

Definition piece_ok (b : escbufs) (p : piece) : Prop :=
  match p with
  | T s => forallb (λ c, (32 <=? c) && (c <? 127)) (str s) = true
  | U z => 0 ≤ z
  | P id => Forall printable (snd (esc_buf b id))
  | C c => printable (Z.of_N (N_of_ascii c))
  end.

Lemma str_length s : length (str s) = String.length s.
Proof. unfold str. rewrite length_fmap. induction s as [|c s IH]; [done|]. cbn. by rewrite IH. Qed.

Lemma print_length b f : Z.of_nat (length (concat (print_piece b <$> f))) ≤ foldr (λ p n, piece_bound b p + n) 0 f.
Proof.
  induction f as [|p f IH]; [done|]. cbn [fmap list_fmap concat foldr]. rewrite length_app, Nat2Z.inj_add.
  assert (Z.of_nat (length (print_piece b p)) ≤ piece_bound b p); [|lia].
  destruct p as [s|z|id|c]; cbn [print_piece piece_bound]; [by rewrite str_length|assert (H := dec_length z); lia|lia|done].
Qed.

Lemma print_printable b f : Forall (piece_ok b) f → Forall printable (concat (print_piece b <$> f)).
Proof.
  induction 1 as [|p f Hp _ IH]; [constructor|]. cbn [fmap list_fmap concat]. apply Forall_app. split; [|done].
  destruct p as [s|z|id|c]; cbn [print_piece piece_ok] in *; [| |done|by constructor].
  - apply Forall_forall. intros x Hx. assert (Hb := proj1 (forallb_forall _ _) Hp x (proj1 (list_elem_of_In _ _) Hx)). cbv beta in Hb. unfold printable. zbool. lia.
  - eapply Forall_impl; [by apply dec_digits|]. unfold printable. cbn. lia.
Qed.

Lemma changelog_whole b f : foldr (λ p n, piece_bound b p + n) 0 f < 200000 → changelog b f = concat (print_piece b <$> f).
Proof.
  intros Hl. unfold changelog. apply take_ge. assert (Hp := print_length b f).
  assert (Hm : Z.of_nat (MAXLOGLINESIZE - 1) = 199999) by (vm_compute; reflexivity). lia.
Qed.

(** ** Entries *)

Definition name_ok (n : list Z) : Prop := Forall (λ c, 0 < c < 256) n ∧ Z.of_nat (length n) ≤ 255.
Definition path_ok (n : list Z) : Prop := Forall (λ c, 0 < c < 256) n ∧ Z.of_nat (length n) ≤ 65536.
Definition data_ok (d : list Z) : Prop := Forall is_u8 d ∧ Z.of_nat (length d) ≤ 65536.
Definition cmd_ok (c : ascii) : Prop := printable (Z.of_N (N_of_ascii c)).

Definition lock_ok (c : centry) : Prop :=
  match c with
  | POSIXLOCK ts inode sessionid owner cmd start end_ pid =>
      is_u32 ts ∧ is_u32 inode ∧ is_u32 sessionid ∧ is_u64 owner ∧ cmd_ok cmd ∧ is_u64 start ∧ is_u64 end_ ∧ is_u32 pid
  | FLOCK ts inode sessionid owner cmd => is_u32 ts ∧ is_u32 inode ∧ is_u32 sessionid ∧ is_u64 owner ∧ cmd_ok cmd
  | ACQUIRE ts sessionid inode | RELEASE ts sessionid inode => is_u32 ts ∧ is_u32 sessionid ∧ is_u32 inode
  end.

Definition tree_ok (e : tree_entry) : Prop :=
  match e with
  | SYMLINK ts parent name path uid gid inode => is_u32 ts ∧ is_u32 parent ∧ name_ok name ∧ path_ok path ∧ is_u32 uid ∧ is_u32 gid ∧ is_u32 inode
  | CREATE ts parent name type mode cumask uid gid rdev inode =>
      is_u32 ts ∧ is_u32 parent ∧ name_ok name ∧ 0 ≤ type < 16 ∧ is_u16 mode ∧ is_u16 cumask ∧ is_u32 uid ∧ is_u32 gid ∧ is_u32 rdev ∧ is_u32 inode
  | UNLINK ts parent name inode => is_u32 ts ∧ is_u32 parent ∧ name_ok name ∧ is_u32 inode
  | MOVE ts parent_src name_src parent_dst name_dst rmode inode =>
      is_u32 ts ∧ is_u32 parent_src ∧ name_ok name_src ∧ is_u32 parent_dst ∧ name_ok name_dst ∧ is_u8 rmode ∧ is_u32 inode
  | LINK ts inode_src parent_dst name_dst => is_u32 ts ∧ is_u32 inode_src ∧ is_u32 parent_dst ∧ name_ok name_dst
  | LENGTH ts inode length canmodmtime => is_u32 ts ∧ is_u32 inode ∧ is_u64 length
  | TRASH_REMOVE ts inode | PURGE ts inode => is_u32 ts ∧ is_u32 inode
  | SETPATH ts inode path => is_u32 ts ∧ is_u32 inode ∧ path_ok path
  end.

Definition acl_ok (e : fs_entry) : Prop :=
  match e with
  | ATTR ts inode mode uid gid atime mtime winattr aclmode =>
      is_u32 ts ∧ is_u32 inode ∧ is_u32 mode ∧ is_u32 uid ∧ is_u32 gid ∧ is_u32 atime ∧ is_u32 mtime ∧ is_u32 winattr ∧ is_u32 aclmode
  | SETACL ts inode mode chg acltype r aclblob =>
      is_u32 ts ∧ is_u32 inode ∧ is_u16 mode ∧ is_u8 acltype ∧ is_u16 (ar_userperm r) ∧ is_u16 (ar_groupperm r) ∧ is_u16 (ar_otherperm r)
      ∧ is_u16 (ar_mask r) ∧ is_u16 (ar_namedusers r) ∧ is_u16 (ar_namedgroups r) ∧ data_ok aclblob
      ∧ Z.of_nat (length aclblob) = 6 * (ar_namedusers r + ar_namedgroups r)
  end.

Definition entry_ok (e : entry) : Prop :=
  match e with
  | E_LOCK c => lock_ok c
  | E_TREE e => tree_ok e
  | E_ACL e => acl_ok e
  | E_ID (FREEINODES ts delay fi si ics) => is_u32 ts ∧ is_u32 delay ∧ is_u32 fi ∧ is_u32 si ∧ is_u32 ics
  | E_PAT (PATADD ts gname euid egid priority omask scid trashretention seteattr clreattr) =>
      is_u32 ts ∧ name_ok gname ∧ is_u32 euid ∧ is_u32 egid ∧ is_u8 priority ∧ is_u8 omask ∧ is_u8 scid ∧ is_u16 trashretention ∧ is_u8 seteattr ∧ is_u8 clreattr
  | E_PAT (PATDEL ts gname euid egid) => is_u32 ts ∧ name_ok gname ∧ is_u32 euid ∧ is_u32 egid
  | SETXATTR ts inode name value mode => is_u32 ts ∧ is_u32 inode ∧ name_ok name ∧ data_ok value ∧ is_u8 mode
  end.

(** A line that is one line, whole, and read as the entry. *)
Definition reads (other : Z → list Z → option action) (e : entry) (line : list Z) : Prop :=
  restore_line other line = Some (CALL e) ∧ Forall printable line ∧ Z.of_nat (length line) < 200000.

Lemma reads_intro other e b f : Forall (piece_ok b) f → foldr (λ p n, piece_bound b p + n) 0 f < 200000 →
  restore_line other (concat (print_piece b <$> f)) = Some (CALL e) → reads other e (changelog b f).
Proof.
  intros Hf Hl Hr. unfold reads. rewrite changelog_whole by done. split; [done|]. split; [by apply print_printable|].
  assert (H := print_length b f). lia.
Qed.

Lemma eat c p : EAT c (c :: p) = Some p.
Proof. cbn. by rewrite Z.eqb_refl. Qed.

(** What there is to know about the buffers. *)
Lemma escaped_one name b : Z.of_nat (length name) ≤ 65536 → ∃ id b', changelog_escape_name name b = Some (id, b') ∧ snd (esc_buf b' id) = escape name.
Proof.
  intros Hl. destruct (escape_name_spec name b Hl) as [size ->]. eexists _, _. split; [done|]. by destruct b as [[] ? ?].
Qed.

Lemma escaped_two n m b : Z.of_nat (length n) ≤ 65536 → Z.of_nat (length m) ≤ 65536 →
  ∃ id b1 id' b', changelog_escape_name n b = Some (id, b1) ∧ changelog_escape_name m b1 = Some (id', b')
    ∧ snd (esc_buf b' id) = escape n ∧ snd (esc_buf b' id') = escape m.
Proof.
  intros Hn Hm. destruct (escape_name_spec n b Hn) as [s1 H1]. eexists _, _.
  destruct (escape_name_spec m (set_buf (negb (buffid b)) (s1, escape n) b) Hm) as [s2 H2]. eexists _, _.
  split; [exact H1|]. split; [exact H2|]. by destruct b as [[] ? ?].
Qed.

Lemma u16_u32 z : is_u16 z → is_u32 z.
Proof. unfold is_u16, is_u32. lia. Qed.
Lemma u8_of_u32 z : is_u8 z → is_u32 z.
Proof. unfold is_u8, is_u32. lia. Qed.

Lemma dig_dec z r : 0 ≤ z → dig (peek (dec z ++ r)) = true.
Proof.
  intros Hz. destruct (dec_head z Hz) as (d & l & -> & Hd). cbn. unfold dig. by rewrite (proj2 (Z.leb_le _ _)), (proj2 (Z.leb_le d 57)) by lia.
Qed.

Lemma not_close z r : 0 ≤ z → (peek (dec z ++ r) =? 41) = false.
Proof. intros Hz. destruct (dec_head z Hz) as (d & l & -> & Hd). cbn [app peek]. apply Z.eqb_neq. lia. Qed.

Ltac literals :=
  cbn [fmap list_fmap concat print_piece];
  repeat match goal with |- context [str ?s] => let x := eval vm_compute in (str s) in change (str s) with x end; cbn [app].

Ltac by_key k Hts :=
  literals; eapply eq_trans; [eapply (restore_key k); [cbn [In keywords]; repeat first [left; reflexivity|right]|exact Hts]|]; cbv beta; unfold call.

Ltac getters :=
  repeat first
    [ rewrite eat
    | rewrite getu32_dec by (done || by apply u8_of_u32 || by apply u16_u32)
    | rewrite getu64_dec by done
    | rewrite getu16_dec by done
    | rewrite getu8_dec by done
    | rewrite getname_escape by first [done|lia|by left|by right]
    | rewrite getdata_escape by first [done|by apply nonzero_u8|by left|by right]
    | rewrite getpath_escape by first [by apply nonzero_u8|by left|by right]
    | rewrite nextseparator_escape by (by apply nonzero_u8)
    | rewrite dig_dec by (unfold is_u32 in *; lia)
    | rewrite not_close by (unfold is_u32 in *; lia)
    | rewrite c_string_nonzero by done
    | progress cbn [mbind option_bind getc peek Z.eqb Pos.eqb] ].

Ltac piece :=
  cbn [piece_ok];
  first [ reflexivity | unfold is_u32, is_u64, is_u16, is_u8 in *; lia | assumption
        | match goal with H : snd (esc_buf ?b ?id) = escape _ |- Forall _ (snd (esc_buf ?b ?id)) => rewrite H end;
          apply escape_printable; first [assumption|by apply nonzero_u8] ].

Ltac pieces := repeat lazymatch goal with |- Forall _ (_ :: _) => apply Forall_cons; split; [piece|] | |- Forall _ [] => constructor end.

(** A name of the entry and the length of its text. *)
Ltac bound :=
  cbn [foldr piece_bound];
  repeat match goal with H : snd (esc_buf ?b ?id) = escape ?n |- context [snd (esc_buf ?b ?id)] => rewrite H; pose proof (escape_length n) end;
  cbn [String.length]; lia.

Ltac reader := literals; repeat match goal with H : snd (esc_buf _ _) = escape _ |- _ => rewrite !H; clear H end.

Ltac one_name n b :=
  let i := fresh "i" in let b' := fresh "b'" in let E := fresh "E" in
  destruct (escaped_one n b) as (i & b' & E & ?); [lia|]; rewrite E; clear E; cbn [mbind option_bind]; eexists _, _; split; [reflexivity|];
  apply reads_intro; [pieces|bound|].

Ltac two_names n m b :=
  let i := fresh "i" in let b1 := fresh "b1" in let j := fresh "j" in let b' := fresh "b'" in let E := fresh "E" in let E' := fresh "E'" in
  destruct (escaped_two n m b) as (i & b1 & j & b' & E & E' & ? & ?); [lia..|]; rewrite E; cbn [mbind option_bind]; rewrite E'; clear E E';
  cbn [mbind option_bind]; eexists _, _; split; [reflexivity|]; apply reads_intro; [pieces|bound|].

Ltac plain := eexists _, _; split; [reflexivity|]; apply reads_intro; [pieces|bound|].

Ltac read_key k f Hts := reader; by_key k Hts; unfold f; getters; try reflexivity.

Lemma reads_lock other c b : lock_ok c → reads other (E_LOCK c) (changelog b (print_lock c)).
Proof.
  destruct c as [ts inode sessionid owner cmd start end_ pid|ts inode sessionid owner cmd|ts sessionid inode|ts sessionid inode]; cbn [lock_ok print_lock].
  - intros (Hts & ? & ? & ? & Hc & ? & ? & ?). apply reads_intro; [pieces|bound|].
    by_key "POSIXLOCK"%string Hts. unfold do_posixlock. getters. by rewrite N2Z.id, ascii_N_embedding.
  - intros (Hts & ? & ? & ? & Hc). apply reads_intro; [pieces|bound|].
    by_key "FLOCK"%string Hts. unfold do_flock. getters. by rewrite N2Z.id, ascii_N_embedding.
  - intros (Hts & ? & ?). apply reads_intro; [pieces|bound|]. by_key "ACQUIRE"%string Hts. unfold do_acquire. by getters.
  - intros (Hts & ? & ?). apply reads_intro; [pieces|bound|]. by_key "RELEASE"%string Hts. unfold do_release. by getters.
Qed.

Lemma reads_tree other e b : tree_ok e → ∃ f b', print_tree e b = Some (f, b') ∧ reads other (E_TREE e) (changelog b' f).
Proof.
  destruct e as [ts parent name path uid gid inode|ts parent name type mode cumask uid gid rdev inode|ts parent name inode
    |ts parent_src name_src parent_dst name_dst rmode inode|ts inode_src parent_dst name_dst|ts inode length canmodmtime|ts inode|ts inode|ts inode path];
    cbn [tree_ok print_tree].
  - intros (Hts & ? & [Hn Hl] & [Hp Hpl] & ? & ? & ?). two_names name path b. read_key "SYMLINK"%string do_symlink Hts.
  - intros (Hts & ? & [Hn Hl] & ? & ? & ? & ? & ? & ? & ?). assert (is_u8 type) by (unfold is_u8; lia). one_name name b.
    read_key "CREATE"%string do_create Hts. rewrite (proj2 (Z.ltb_lt type 16)) by lia. by getters.
  - intros (Hts & ? & [Hn Hl] & ?). one_name name b. read_key "UNLINK"%string do_unlink Hts.
  - intros (Hts & ? & [Hn Hl] & ? & [Hm Hml] & ? & ?). two_names name_src name_dst b. read_key "MOVE"%string do_move Hts.
  - intros (Hts & ? & ? & [Hn Hl]). one_name name_dst b. read_key "LINK"%string do_link Hts.
  - intros (Hts & ? & ?). assert (is_u8 (Z.b2z canmodmtime)) by (unfold is_u8; destruct canmodmtime; cbn; lia). plain.
    read_key "LENGTH"%string do_length Hts. by destruct canmodmtime.
  - intros (Hts & ?). plain. read_key "TRASH_REMOVE"%string do_trash_remove Hts.
  - intros (Hts & ?). plain. read_key "PURGE"%string do_purge Hts.
  - intros (Hts & ? & [Hp Hpl]). one_name path b. read_key "SETPATH"%string do_setpath Hts.
Qed.

Lemma reads_acl other e b : acl_ok e → ∃ f b', print_acl e b = Some (f, b') ∧ reads other (E_ACL e) (changelog b' f).
Proof.
  destruct e as [ts inode mode uid gid atime mtime winattr aclmode|ts inode mode chg acltype r aclblob]; cbn [acl_ok print_acl].
  - intros (Hts & ? & ? & ? & ? & ? & ? & ? & ?). plain. read_key "ATTR"%string do_attr Hts.
  - intros (Hts & ? & ? & ? & ? & ? & ? & ? & ? & ? & [Hd Hl] & Hlen). assert (is_u8 (Z.b2z chg)) by (unfold is_u8; destruct chg; cbn; lia).
    one_name aclblob b. reader. by_key "SETACL"%string Hts. unfold do_setacl. getters.
    rewrite Hlen, Z.eqb_refl. destruct r. by destruct chg.
Qed.

Lemma reads_pat other e b : entry_ok (E_PAT e) → ∃ f b', print_pat e b = Some (f, b') ∧ reads other (E_PAT e) (changelog b' f).
Proof.
  destruct e as [ts gname euid egid priority omask scid trashretention seteattr clreattr|ts gname euid egid]; cbn [entry_ok print_pat].
  - intros (Hts & [Hn Hl] & ? & ? & ? & ? & ? & ? & ? & ?). one_name gname b. read_key "PATADD"%string do_patadd Hts.
  - intros (Hts & [Hn Hl] & ? & ?). one_name gname b. read_key "PATDEL"%string do_patdel Hts.
Qed.

Lemma entry_reads other e b : entry_ok e → ∃ line b', log_line e b = Some (line, b') ∧ restore_line other line = Some (CALL e)
  ∧ Forall printable line ∧ Z.of_nat (length line) < 200000.
Proof.
  intros He. unfold log_line. assert (H : ∃ f b', print_entry e b = Some (f, b') ∧ reads other e (changelog b' f)).
  { destruct e as [c|e|e|[ts delay fi si ics]|e|ts inode name value mode]; cbn [entry_ok print_entry] in *.
    - eexists _, _. split; [done|]. by apply reads_lock.
    - by apply reads_tree.
    - by apply reads_acl.
    - destruct He as (Hts & ? & ? & ? & ?). unfold print_id. plain. read_key "FREEINODES"%string do_freeinodes Hts.
    - by apply reads_pat.
    - destruct He as (Hts & ? & [Hn Hl] & [Hv Hvl] & ?). two_names name value b. read_key "SETXATTR"%string do_setxattr Hts. }
  destruct H as (f & b' & -> & H). eexists _, _. split; [done|exact H].
Qed.


Definition ex_bufs : escbufs := mk_escbufs false (0, []) (0, []).
Definition ex_entry : entry := SETXATTR 1700000000 12 [117; 115; 101; 114; 46; 44] [0; 255; 40; 10] 1.


(** ** A follower that reads text *)

Section follower.
Variable sclasstab : Z → storageclass.
Variable MaxECRedundancyLevel : Z.
Variable KeepEmptyFilesInTrash : bool.
Variable patterntab : list pattern.
Variable MaxAllowedHardLinks : Z.
Variable other : Z → list Z → option action.

(** The lines the master writes for a log. *)
Fixpoint log_lines (es : log) (b : escbufs) : option (list ((Z → bool) * list Z)) :=
  match es with
  | [] => Some []
  | (o, e) :: es => '(line, b) ← log_line (E_TREE e) b; ls ← log_lines es b; Some ((o, line) :: ls)
  end.

(** What the follower does with them. *)
Fixpoint replay_lines (ls : list ((Z → bool) * list Z)) (t : tree) : option tree :=
  match ls with
  | [] => Some t
  | (o, line) :: ls =>
      match restore_line other line with
      | Some (CALL (E_TREE e)) =>
          '(st, _, t, _) ← FsSystem.replay sclasstab MaxECRedundancyLevel o KeepEmptyFilesInTrash patterntab MaxAllowedHardLinks e t;
          if st =? MFS_STATUS_OK then replay_lines ls t else None
      | _ => None
      end
  end.

Lemma replay_lines_log es b : Forall (λ oe, tree_ok oe.2) es →
  ∃ ls, log_lines es b = Some ls ∧ ∀ t, replay_lines ls t = replay_log sclasstab MaxECRedundancyLevel KeepEmptyFilesInTrash patterntab MaxAllowedHardLinks es t.
Proof.
  intros Hes. revert b. induction Hes as [|[o e] es He _ IH]; intros b; [by exists []|]. cbn [snd] in He.
  destruct (reads_tree other e b He) as (f & b' & Hp & Hr & _). destruct (IH b') as (ls & Hls & Hrep).
  exists ((o, changelog b' f) :: ls). cbn [log_lines]. unfold log_line. cbn [print_entry]. rewrite Hp. cbn [mbind option_bind]. rewrite Hls.
  split; [done|]. intros t. cbn [replay_lines replay_log]. rewrite Hr.
  destruct (FsSystem.replay _ _ _ _ _ _ _ _) as [[[[st i] t'] e']|]; [|done]. cbn [mbind option_bind]. by destruct (st =? MFS_STATUS_OK).
Qed.


End follower.

Definition ex_log : list tree_entry :=
  [CREATE 1001 1 [97] 2 511 0 0 0 0 2; CREATE 1002 2 [102] 1 438 0 5 7 0 3; LINK 1003 3 1 [103]; LENGTH 1004 3 100000 true;
   MOVE 1005 2 [102] 1 [102] 0 3; UNLINK 1006 1 [103] 3; UNLINK 1007 1 [102] 3].

Lemma ex_log_ok : Forall tree_ok ex_log.
Proof.
  repeat (apply Forall_cons; split); [..|constructor]; cbn; unfold name_ok, is_u32, is_u16, is_u8, is_u64; split_and!; try lia;
    try (cbn; lia); repeat (constructor; [lia|]); constructor.
Qed.

Lemma ex_log_run : (λ r : state * log, r.2.*2) <$> run ex_class 3 false [] 32000 ex_steps ex0 = Some ex_log.
Proof. vm_compute. reflexivity. Qed.

Lemma Forall_snd {A B} (P : B → Prop) (l : list (A * B)) : Forall P l.*2 → Forall (λ x, P x.2) l.
Proof. induction l as [|x l IH]; [constructor|]. intros [Hx Hl]%Forall_cons. constructor; [exact Hx|by apply IH]. Qed.


(** ** A line that is cut off *)

(** The access list of a request has room for 65535 users and as many groups. *)
Definition ex_long_acl : fs_entry := SETACL 1700000000 12 0x1FF false 1 (mk_acl_rights 7 7 7 7 12000 0) (replicate (Nat.mul 72 1000) 0).

