(* ===== verification/MapSum.v ===== *)
(** * Sums over finite maps

    Counters of the master are compared with the sum of a value of each element of a
    table: uses of a string, chunks of a class. *)

From S2P Require Import Prelude.

#[global] Open Scope Z_scope.

Section map_sum.
Context `{Countable K} {A : Type}.
Implicit Types (f : A → Z) (m : gmap K A).

Definition map_sum f m : Z := map_fold (λ _ x n, f x + n) 0 m.

Lemma map_sum_empty f : map_sum f ∅ = 0.
Proof. done. Qed.

Lemma map_sum_new f m i x : m !! i = None → map_sum f (<[i := x]> m) = f x + map_sum f m.
Proof. intros Hi. unfold map_sum. rewrite map_fold_insert_L; [done| |done]. intros. lia. Qed.

Lemma map_sum_delete f m i : map_sum f (delete i m) = map_sum f m - from_option f 0 (m !! i).
Proof.
  destruct (m !! i) as [x|] eqn:Hi; cbn.
  - rewrite <-(insert_delete_id m i x) at 2 by done. rewrite map_sum_new by apply lookup_delete_eq. lia.
  - rewrite delete_id by done. lia.
Qed.

Lemma map_sum_insert f m i x : map_sum f (<[i := x]> m) = map_sum f m - from_option f 0 (m !! i) + f x.
Proof. rewrite <-insert_delete_eq, map_sum_new by apply lookup_delete_eq. rewrite map_sum_delete. lia. Qed.

Lemma map_sum_nonneg f m : (∀ x, 0 ≤ f x) → 0 ≤ map_sum f m.
Proof.
  intros Hf. induction m as [|i x m Hi IH] using map_ind; [done|]. rewrite map_sum_new by done. specialize (Hf x). lia.
Qed.

Lemma map_sum_in f m i x : (∀ x, 0 ≤ f x) → m !! i = Some x → f x ≤ map_sum f m.
Proof.
  intros Hf Hi. assert (H0 := map_sum_nonneg f (delete i m) Hf). rewrite map_sum_delete, Hi in H0. cbn in H0. lia.
Qed.

(** A sum is positive when an element counts. *)
Lemma map_sum_pos f m : (∀ x, 0 ≤ f x) → 0 < map_sum f m ↔ ∃ i x, m !! i = Some x ∧ 0 < f x.
Proof.
  intros Hf. split.
  - induction m as [|i x m Hi IH] using map_ind; [done|]. rewrite map_sum_new by done. intros Hp.
    destruct (decide (0 < f x)) as [Hx|Hx]; [exists i, x; by rewrite lookup_insert_eq|]. destruct IH as (j & y & Hj & Hy); [lia|].
    exists j, y. split; [|done]. rewrite lookup_insert_ne; [done|]. intros ->. by rewrite Hi in Hj.
  - intros (i & x & Hi & Hx). assert (H0 := map_sum_in f m i x Hf Hi). lia.
Qed.

Lemma map_sum_bound f m b : (∀ x, f x ≤ b) → map_sum f m ≤ b * Z.of_nat (size m).
Proof.
  intros Hf. induction m as [|i x m Hi IH] using map_ind; [rewrite map_sum_empty, map_size_empty; lia|].
  rewrite map_sum_new, map_size_insert_None by done. specialize (Hf x). lia.
Qed.
End map_sum.
