(* ===== verification/Xattr.v ===== *)
(** * Extended attributes (xattr.c, dictionary.c, filesystem.c)

    The names and values of the attributes are kept in a dictionary that holds every
    string once and counts its uses; equal pointers are equal strings, so a pointer is
    modelled by its string ([LinHash] has the hash table of the dictionary).  A node has
    a list of pairs, newest first.  [None] is a failed assertion on a count, or a read
    behind the end of a buffer.  Counts are not bounded here: there are at most as many
    uses as pairs in memory. *)

From stdpp Require Import strings.
From S2P Require Import Prelude MfsComm DataPack FsNodes PosixAcl FsAccess ChangelogText.

#[global] Open Scope Z_scope.

(** ** The dictionary *)

(** The strings with their [refcnt]. *)
Abbreviation dict := (gmap (list Z) Z).

Definition dict_search (data : list Z) (d : dict) : bool := bool_decide (is_Some (d !! data)).

Definition dict_insert (data : list Z) (d : dict) : dict :=
  match d !! data with Some refcnt => <[data := refcnt + 1]> d | None => <[data := 1]> d end.

Definition dict_dec_ref (data : list Z) (d : dict) : option dict :=
  refcnt ← d !! data;
  if 0 <? refcnt then Some (if refcnt - 1 =? 0 then delete data d else <[data := refcnt - 1]> d) else None.

Definition dict_inc_ref (data : list Z) (d : dict) : option dict :=
  refcnt ← d !! data; if 0 <? refcnt then Some (<[data := refcnt + 1]> d) else None.

(** ** The table *)

Abbreviation xattrpair := (list Z * list Z)%type.

(** [xt_flags] has the [xattrflag] of every node of the file system. *)
Record xattrs := mk_xattrs { xt_tab : gmap Z (list xattrpair); xt_dict : dict; xt_flags : gmap Z bool }.

Definition fs_set_xattrflag (inode : Z) (fl : gmap Z bool) : gmap Z bool :=
  match fl !! inode with Some _ => <[inode := true]> fl | None => fl end.
Definition fs_del_xattrflag (inode : Z) (fl : gmap Z bool) : gmap Z bool :=
  match fl !! inode with Some _ => <[inode := false]> fl | None => fl end.

Fixpoint xattr_cleanup_node (ps : list xattrpair) (d : dict) : option dict :=
  match ps with
  | [] => Some d
  | (name, value) :: ps => d ← dict_dec_ref name d; d ← dict_dec_ref value d; xattr_cleanup_node ps d
  end.

Definition xattr_namecheck (name : list Z) : bool := forallb (λ c, negb (c =? 0)) name.

Definition xattr_removeinode (inode : Z) (s : xattrs) : option xattrs :=
  match xt_tab s !! inode with
  | Some ps => d ← xattr_cleanup_node ps (xt_dict s); Some (mk_xattrs (delete inode (xt_tab s)) d (xt_flags s))
  | None => Some s
  end.

(** The pairs before the one with this name, its value, the pairs after it. *)
Fixpoint find_pair (name : list Z) (ps : list xattrpair) : option (list xattrpair * list Z * list xattrpair) :=
  match ps with
  | [] => None
  | (n, v) :: ps =>
      if decide (n = name) then Some ([], v, ps)
      else '(pre, value, post) ← find_pair name ps; Some ((n, v) :: pre, value, post)
  end.

Definition names_leng (ps : list xattrpair) : Z := foldl (λ leng p, u32 (leng + (Z.of_nat (length p.1) + 1))) 0 ps.

(** The value is replaced where it is. *)
Definition replace_value (old new : list Z) (d : dict) : option dict :=
  let d := dict_insert new d in
  if decide (old = new) then dict_dec_ref new d else dict_dec_ref old d.

Definition xattr_setattr (inode : Z) (attrname attrvalue : list Z) (mode : Z) (s : xattrs) : option (Z * xattrs) :=
  let anleng := Z.of_nat (length attrname) in
  let avleng := Z.of_nat (length attrvalue) in
  if (anleng =? 0) || (MFS_XATTR_REMOVE <? mode) then Some (MFS_ERROR_EINVAL, s)
  else if (MFS_XATTR_SIZE_MAX <? avleng) && negb (mode =? MFS_XATTR_REMOVE) then Some (MFS_ERROR_ERANGE, s)
  else if MFS_XATTR_LIST_MAX <? anleng + 1 then Some (MFS_ERROR_ERANGE, s)
  else
    let must_exist := (mode =? MFS_XATTR_REPLACE_ONLY) || (mode =? MFS_XATTR_REMOVE) in
    match xt_tab s !! inode, must_exist with
    | None, true => Some (MFS_ERROR_ENOATTR, s)
    | entry, _ =>
        if must_exist && negb (dict_search attrname (xt_dict s)) then Some (MFS_ERROR_ENOATTR, s)
        else
          let ps := default [] entry in
          let d := if must_exist then xt_dict s else dict_insert attrname (xt_dict s) in
          let fl := match entry with None => fs_set_xattrflag inode (xt_flags s) | Some _ => xt_flags s end in
          match find_pair attrname ps with
          | Some (pre, value, post) =>
              if mode =? MFS_XATTR_CREATE_ONLY then
                d ← dict_dec_ref attrname d; Some (MFS_ERROR_EEXIST, mk_xattrs (<[inode := ps]> (xt_tab s)) d fl)
              else if mode =? MFS_XATTR_REMOVE then
                d ← dict_dec_ref attrname d; d ← dict_dec_ref value d;
                let ps := pre ++ post in
                Some (MFS_STATUS_OK,
                      if bool_decide (ps = []) then mk_xattrs (delete inode (xt_tab s)) d (fs_del_xattrflag inode fl)
                      else mk_xattrs (<[inode := ps]> (xt_tab s)) d fl)
              else
                d ← (if mode =? MFS_XATTR_CREATE_OR_REPLACE then dict_dec_ref attrname d else Some d);
                if MFS_XATTR_SIZE_MAX <? avleng then Some (MFS_ERROR_ERANGE, mk_xattrs (<[inode := ps]> (xt_tab s)) d fl)
                else
                  d ← replace_value value attrvalue d;
                  Some (MFS_STATUS_OK, mk_xattrs (<[inode := pre ++ (attrname, attrvalue) :: post]> (xt_tab s)) d fl)
          | None =>
              if must_exist then Some (MFS_ERROR_ENOATTR, s)
              else if MFS_XATTR_LIST_MAX <? u32 (names_leng ps + anleng + 1) then
                d ← dict_dec_ref attrname d; Some (MFS_ERROR_ERANGE, mk_xattrs (<[inode := ps]> (xt_tab s)) d fl)
              else
                Some (MFS_STATUS_OK, mk_xattrs (<[inode := (attrname, attrvalue) :: ps]> (xt_tab s)) (dict_insert attrvalue d) fl)
          end
    end.

Definition xattr_getattr (inode : Z) (attrname : list Z) (s : xattrs) : Z * list Z :=
  match xt_tab s !! inode with
  | Some ps =>
      if dict_search attrname (xt_dict s) then
        match find_pair attrname ps with Some (_, value, _) => (MFS_STATUS_OK, value) | None => (MFS_ERROR_ENOATTR, []) end
      else (MFS_ERROR_ENOATTR, [])
  | None => (MFS_ERROR_ENOATTR, [])
  end.

(** Status, size and the entry for [xattr_listattr_data]. *)
Definition xattr_listattr_leng (inode : Z) (s : xattrs) : Z * Z * list xattrpair :=
  let ps := default [] (xt_tab s !! inode) in
  if MFS_XATTR_LIST_MAX <? names_leng ps then (MFS_ERROR_ERANGE, 0, []) else (MFS_STATUS_OK, names_leng ps, ps).

Definition xattr_listattr_data (ps : list xattrpair) : list Z := concat ((λ p : xattrpair, p.1 ++ [0]) <$> ps).

(** ** All attributes of a node *)

Section blobs.
Variable bld : build.

Definition put_pair (p : xattrpair) : list Z :=
  put8bit bld (Z.of_nat (length p.1)) ++ p.1 ++ put32bit bld (Z.of_nat (length p.2)) ++ p.2.

(** The length, and the bytes where there is a buffer. *)
Definition xattr_getall (inode : Z) (s : xattrs) : Z * list Z :=
  let ps := default [] (xt_tab s !! inode) in
  (foldl (λ leng p, u32 (leng + (1 + Z.of_nat (length p.1) + 4 + Z.of_nat (length p.2)))) 2 ps,
   put16bit bld (u16 (Z.of_nat (length ps))) ++ concat (put_pair <$> ps)).

(** One pair of a buffer with [leng] bytes left; [None] where [xattr_check] returns 2. *)
Definition check_pair (dbuff : list Z) (leng : Z) : option (xattrpair * list Z * Z) :=
  if leng <? 1 then None
  else
    '(anleng, dbuff) ← get8bit bld dbuff;
    let leng := leng - 1 in
    if leng <? anleng then None
    else
      let attrname := take (Z.to_nat anleng) dbuff in
      let dbuff := drop (Z.to_nat anleng) dbuff in
      let leng := leng - anleng in
      if leng <? 4 then None
      else
        '(avleng, dbuff) ← get32bit bld dbuff;
        let leng := leng - 4 in
        if leng <? avleng then None
        else Some ((attrname, take (Z.to_nat avleng) dbuff), drop (Z.to_nat avleng) dbuff, leng - avleng).

(** How many pairs of the node are this one. *)
Definition count_same (p : xattrpair) (ps : list xattrpair) (checkcnt : Z) : Z :=
  foldl (λ checkcnt q, if decide (q = p) then u16 (checkcnt + 1) else checkcnt) checkcnt ps.

Fixpoint check_loop (n : nat) (i cnt : Z) (dbuff : list Z) (leng : Z) (entry : option (list xattrpair)) (checkcnt : Z) : option (Z * Z) :=
  match n with
  | O => Some (checkcnt, leng)
  | S n =>
      '(p, dbuff, leng) ← check_pair dbuff leng;
      let checkcnt :=
        match entry with
        | Some ps => if (u16 (Z.of_nat (length ps)) =? cnt) && (i =? checkcnt) then count_same p ps checkcnt else checkcnt
        | None => checkcnt
        end in
      check_loop n (i + 1) cnt dbuff leng entry checkcnt
  end.

(** 0 different, 1 same, 2 error; and the bytes read. *)
Definition xattr_check (inode : Z) (dbuff : list Z) (s : xattrs) : Z * Z :=
  let leng := Z.of_nat (length dbuff) in
  if leng <? 2 then (2, 0)
  else match get16bit bld dbuff with
  | None => (2, 0)
  | Some (cnt, dbuff) =>
      let entry := xt_tab s !! inode in
      match check_loop (Z.to_nat cnt) 0 cnt dbuff (leng - 2) entry 0 with
      | None => (2, 0)
      | Some (checkcnt, rest) =>
          (if (checkcnt =? cnt) && (u16 (Z.of_nat (length (default [] entry))) =? cnt) then 1 else 0, leng - rest)
      end
  end.

Definition get_pair (dbuff : list Z) : option (xattrpair * list Z) :=
  '(anleng, dbuff) ← get8bit bld dbuff;
  let attrname := take (Z.to_nat anleng) dbuff in
  let dbuff := drop (Z.to_nat anleng) dbuff in
  '(avleng, dbuff) ← get32bit bld dbuff;
  if (length dbuff <? Z.to_nat avleng)%nat then None else Some ((attrname, take (Z.to_nat avleng) dbuff), drop (Z.to_nat avleng) dbuff).

(** The new list grows at its end while pairs are moved out of the old one. *)
Fixpoint setall_loop (n : nat) (dbuff : list Z) (old new : list xattrpair) (d : dict) : option (list xattrpair * list xattrpair * dict) :=
  match n with
  | O => Some (old, new, d)
  | S n =>
      '((attrname, attrvalue), dbuff) ← get_pair dbuff;
      let d := dict_insert attrname d in
      match find_pair attrname old with
      | Some (pre, value, post) =>
          d ← dict_dec_ref attrname d; d ← replace_value value attrvalue d;
          setall_loop n dbuff (pre ++ post) (new ++ [(attrname, attrvalue)]) d
      | None => setall_loop n dbuff old (new ++ [(attrname, attrvalue)]) (dict_insert attrvalue d)
      end
  end.

(** The new flag of the node, and the state. *)
Definition xattr_setall (inode : Z) (dbuff : list Z) (s : xattrs) : option (bool * xattrs) :=
  '(cnt, dbuff) ← get16bit bld dbuff;
  match xt_tab s !! inode with
  | None => if cnt =? 0 then Some (false, s) else
      '(_, new, d) ← setall_loop (Z.to_nat cnt) dbuff [] [] (xt_dict s);
      Some (true, mk_xattrs (<[inode := new]> (xt_tab s)) d (xt_flags s))
  | Some ps =>
      '(old, new, d) ← setall_loop (Z.to_nat cnt) dbuff ps [] (xt_dict s);
      d ← xattr_cleanup_node old d;
      Some (if bool_decide (new = []) then (false, mk_xattrs (delete inode (xt_tab s)) d (xt_flags s))
            else (true, mk_xattrs (<[inode := new]> (xt_tab s)) d (xt_flags s)))
  end.

(** [p->xattrflag = xattr_setall(...)] in [fs_univ_set_additional_attributes]. *)
Definition set_xattrs (inode : Z) (dbuff : list Z) (s : xattrs) : option xattrs :=
  '(flag, s) ← xattr_setall inode dbuff s; Some (mk_xattrs (xt_tab s) (xt_dict s) (<[inode := flag]> (xt_flags s))).

End blobs.

(** ** Copies *)

Fixpoint copy_refs (ps : list xattrpair) (d : dict) : option dict :=
  match ps with
  | [] => Some d
  | (name, value) :: ps => d ← dict_inc_ref name d; d ← dict_inc_ref value d; copy_refs ps d
  end.

(** The node that is copied to is a new one; [None] if it has attributes, for then the
    table would have two entries of one node. *)
Definition xattr_copy (srcinode dstinode : Z) (s : xattrs) : option (bool * xattrs) :=
  match xt_tab s !! srcinode with
  | None => Some (false, s)
  | Some ps =>
      match xt_tab s !! dstinode with
      | Some _ => None
      | None => d ← copy_refs ps (xt_dict s); Some (true, mk_xattrs (<[dstinode := ps]> (xt_tab s)) d (xt_flags s))
      end
  end.

(** [dstnode->xattrflag = xattr_copy(...)] in [fsnodes_snapshot]. *)
Definition copy_xattrs (srcinode dstinode : Z) (s : xattrs) : option xattrs :=
  '(flag, s) ← xattr_copy srcinode dstinode s; Some (mk_xattrs (xt_tab s) (xt_dict s) (<[dstinode := flag]> (xt_flags s))).

(** ** The image

    The nodes are stored in the order of the hash table, an argument here.  The file is a
    list of bytes; a read behind its end is an error of the load. *)

Section image.
Variable bld : build.

Definition xattr_header (inode anleng avleng : Z) : list Z := put32bit bld inode ++ put8bit bld anleng ++ put32bit bld avleng.

Definition store_pair (inode : Z) (p : xattrpair) : list Z :=
  let anleng := Z.of_nat (length p.1) in
  let anleng := if 255 <? anleng then 255 else anleng in
  xattr_header inode anleng (Z.of_nat (length p.2)) ++ take (Z.to_nat anleng) p.1 ++ p.2.

Definition xattr_store (order : list (Z * list xattrpair)) : list Z :=
  concat ((λ e : Z * list xattrpair, concat (store_pair e.1 <$> e.2)) <$> order) ++ replicate 9 0.

(** [bio_skip]. *)
Definition skip (n : Z) (input : list Z) : list Z := drop (Z.to_nat n) input.

Fixpoint load_loop (fuel : nat) (ignoreflag : bool) (lastinode : Z) (input : list Z) (s : xattrs) : option (Z * xattrs) :=
  match fuel with
  | O => None
  | S fuel =>
      if (length input <? 9)%nat then Some (-1, s)
      else
        '(inode, p) ← get32bit bld input; '(anleng, p) ← get8bit bld p; '(avleng, p) ← get32bit bld p;
        if inode =? 0 then Some (1, s)
        else match xt_flags s !! inode with
        | None => load_loop fuel ignoreflag lastinode (skip (u32 (anleng + avleng)) p) s
        | Some _ =>
            if anleng =? 0 then
              if ignoreflag then load_loop fuel ignoreflag lastinode (skip (u32 (anleng + avleng)) p) s else Some (-1, s)
            else if MFS_XATTR_SIZE_MAX <? avleng then
              if ignoreflag then load_loop fuel ignoreflag lastinode (skip (u32 (anleng + avleng)) p) s else Some (-1, s)
            else
              let s :=
                if inode =? lastinode then s
                else match xt_tab s !! inode with
                | Some _ => s
                | None => mk_xattrs (<[inode := []]> (xt_tab s)) (xt_dict s) (fs_set_xattrflag inode (xt_flags s))
                end in
              if Z.of_nat (length p) <? anleng + avleng then Some (-1, s)
              else
                let name := take (Z.to_nat anleng) p in
                let value := take (Z.to_nat avleng) (drop (Z.to_nat anleng) p) in
                let d := dict_insert value (dict_insert name (xt_dict s)) in
                load_loop fuel ignoreflag inode (drop (Z.to_nat (anleng + avleng)) p)
                  (mk_xattrs (<[inode := default [] (xt_tab s !! inode) ++ [(name, value)]]> (xt_tab s)) d (xt_flags s))
        end
  end.

Definition xattr_load (ignoreflag : bool) (input : list Z) (s : xattrs) : option (Z * xattrs) :=
  load_loop (S (length input)) ignoreflag 0 input s.

End image.

(** ** Requests

    The nodes and their access lists are those of [FsNodes]; the state of a request has
    the attributes beside them.  The counters and the archive mode are left out. *)

Definition starts_with (prefix : string) (attrname : list Z) : bool := bool_decide (take (String.length prefix) attrname = str prefix).

Definition fs_setxattr (ts rootinode sesflags inode : Z) (opened : bool) (uid : Z) (gid : list Z) (attrname attrvalue : list Z) (mode : Z)
    (f : fs) (s : xattrs) : option (Z * fs * xattrs * option entry) :=
  let refuse status := Some (status, f, s, None) in
  if flag sesflags SESFLAG_READONLY then refuse MFS_ERROR_EROFS
  else
    found ← fsnodes_node_find_ext (fs_nodes f) rootinode sesflags inode opened;
    match found with
    | None => refuse MFS_ERROR_ENOENT
    | Some inode =>
        p ← fs_nodes f !! inode;
        if negb (uid =? 0) && (starts_with "trusted." attrname || starts_with "security." attrname) then refuse MFS_ERROR_EPERM
        else if negb (flag (fn_eattr p) EATTR_NOOWNER) && negb (uid =? 0) && negb (uid =? fn_uid p) && starts_with "system." attrname
        then refuse MFS_ERROR_EPERM
        else if flag (fn_eattr p) EATTR_IMMUTABLE then refuse MFS_ERROR_EPERM
        else
          granted ← (if opened then Some true else fsnodes_access_ext (fs_acls f) inode p uid gid MODE_MASK_W sesflags);
          if negb granted then refuse MFS_ERROR_EACCES
          else if negb (xattr_namecheck attrname) then refuse MFS_ERROR_EINVAL
          else if MFS_XATTR_REMOVE <? mode then refuse MFS_ERROR_EINVAL
          else
            '(status, s') ← xattr_setattr inode attrname attrvalue mode s;
            if negb (status =? MFS_STATUS_OK) then Some (status, f, s', None)
            else Some (MFS_STATUS_OK, update_node inode (set_ctime ts) f, s', Some (SETXATTR ts inode attrname attrvalue mode))
    end.

Definition fs_getxattr (rootinode sesflags inode : Z) (opened : bool) (uid : Z) (gid : list Z) (attrname : list Z) (f : fs) (s : xattrs)
    : option (Z * list Z) :=
  found ← fsnodes_node_find_ext (fs_nodes f) rootinode sesflags inode opened;
  match found with
  | None => Some (MFS_ERROR_ENOENT, [])
  | Some inode =>
      p ← fs_nodes f !! inode;
      if negb (uid =? 0) && starts_with "trusted." attrname then Some (MFS_ERROR_EPERM, [])
      else
        granted ← (if opened then Some true else fsnodes_access_ext (fs_acls f) inode p uid gid MODE_MASK_R sesflags);
        if negb granted then Some (MFS_ERROR_EACCES, [])
        else if negb (xattr_namecheck attrname) then Some (MFS_ERROR_EINVAL, [])
        else Some (xattr_getattr inode attrname s)
  end.

Definition fs_listxattr_leng (rootinode sesflags inode : Z) (opened : bool) (uid : Z) (gid : list Z) (f : fs) (s : xattrs)
    : option (Z * Z * list xattrpair) :=
  found ← fsnodes_node_find_ext (fs_nodes f) rootinode sesflags inode opened;
  match found with
  | None => Some (MFS_ERROR_ENOENT, 0, [])
  | Some inode =>
      p ← fs_nodes f !! inode;
      granted ← (if opened then Some true else fsnodes_access_ext (fs_acls f) inode p uid gid MODE_MASK_R sesflags);
      if negb granted then Some (MFS_ERROR_EACCES, 0, []) else Some (xattr_listattr_leng inode s)
  end.

Definition fs_mr_setxattr (ts inode : Z) (attrname attrvalue : list Z) (mode : Z) (f : fs) (s : xattrs) : option (Z * fs * xattrs) :=
  let anleng := Z.of_nat (length attrname) in
  if (anleng =? 0) || (MFS_XATTR_NAME_MAX <? anleng) || (MFS_XATTR_SIZE_MAX <? Z.of_nat (length attrvalue)) || (MFS_XATTR_REMOVE <? mode)
  then Some (MFS_ERROR_EINVAL, f, s)
  else match fs_nodes f !! inode with
  | None => Some (MFS_ERROR_ENOENT, f, s)
  | Some p =>
      '(status, s') ← xattr_setattr inode attrname attrvalue mode s;
      if negb (status =? MFS_STATUS_OK) then Some (status, f, s')
      else Some (status, update_node inode (set_ctime ts) f, s')
  end.

Example xattr_ex :
  let s := mk_xattrs ∅ ∅ {[7 := false]} in
  (r ← xattr_setattr 7 [97] [1; 2] 0 s; r ← xattr_setattr 7 [98] [97] 1 r.2; r ← xattr_setattr 7 [97] [3] 2 r.2;
   Some (r.1, map_to_list (xt_tab r.2), xt_dict r.2 !! [97], xt_dict r.2 !! [1; 2])) =
  Some (0, [(7, [([98], [97]); ([97], [3])])], Some 2, None).
Proof. vm_compute. reflexivity. Qed.
