(* ===== verification/XattrProps.v ===== *)
(** * What the extended attributes guarantee

    The counts of the dictionary are the uses of its strings, so no count fails and no
    string is lost; a request changes one attribute or nothing; attributes survive the
    copy, the transfer as a buffer and the metadata image; a follower that reads the
    changelog has the attributes of the master. *)

From S2P Require Import Prelude MapSum MfsComm DataPack IntervalTree FsNodes PosixAcl FsAccess ChangelogText ChangelogProps Xattr.

(** ** Counting *)

Definition occ1 (d : list Z) (p : xattrpair) : Z := Z.b2z (bool_decide (p.1 = d)) + Z.b2z (bool_decide (p.2 = d)).
Definition occ (d : list Z) (ps : list xattrpair) : Z := foldr (λ p n, occ1 d p + n) 0 ps.
Definition refs (d : list Z) (m : gmap Z (list xattrpair)) : Z := map_sum (occ d) m.

#[local] Arguments occ : simpl never.
#[local] Arguments refs : simpl never.

Lemma occ_nil d : occ d [] = 0.
Proof. done. Qed.

Lemma occ_cons d p ps : occ d (p :: ps) = occ1 d p + occ d ps.
Proof. done. Qed.

Lemma occ_app d a b : occ d (a ++ b) = occ d a + occ d b.
Proof. induction a as [|p a IH]; [done|]. cbn [app]. rewrite !occ_cons. lia. Qed.

Lemma occ1_nonneg d p : 0 ≤ occ1 d p.
Proof. unfold occ1. destruct (bool_decide _), (bool_decide _); cbn; lia. Qed.

Lemma occ_nonneg d ps : 0 ≤ occ d ps.
Proof. induction ps as [|p ps IH]; [done|]. rewrite occ_cons. assert (H := occ1_nonneg d p). lia. Qed.

Lemma refs_delete d m i : refs d (delete i m) = refs d m - occ d (default [] (m !! i)).
Proof. unfold refs. rewrite map_sum_delete. by destruct (m !! i). Qed.

Lemma refs_insert d m i ps : refs d (<[i := ps]> m) = refs d m - occ d (default [] (m !! i)) + occ d ps.
Proof. unfold refs. rewrite map_sum_insert. by destruct (m !! i). Qed.

Lemma refs_nonneg d m : 0 ≤ refs d m.
Proof. apply map_sum_nonneg, occ_nonneg. Qed.

Lemma refs_in d m i ps : m !! i = Some ps → occ d ps ≤ refs d m.
Proof. by apply map_sum_in, occ_nonneg. Qed.

(** ** The dictionary *)

(** Each string with the number of its uses. *)
Definition dict_ok (D : dict) (R : list Z → Z) : Prop := ∀ d, 0 ≤ R d ∧ D !! d = if R d =? 0 then None else Some (R d).

Definition at_ (x d : list Z) : Z := Z.b2z (bool_decide (x = d)).

Lemma at_eq x : at_ x x = 1.
Proof. unfold at_. by rewrite bool_decide_true. Qed.

Lemma at_ne x d : x ≠ d → at_ x d = 0.
Proof. intros H. unfold at_. by rewrite bool_decide_false. Qed.

Lemma occ1_at d p : occ1 d p = at_ p.1 d + at_ p.2 d.
Proof. done. Qed.

Lemma dict_unique D D' R R' : dict_ok D R → dict_ok D' R' → (∀ d, R d = R' d) → D = D'.
Proof. intros H H' HR. apply map_eq. intros d. rewrite (proj2 (H d)), (proj2 (H' d)), (HR d). done. Qed.

Lemma dict_ok_ext D R R' : dict_ok D R → (∀ d, R d = R' d) → dict_ok D R'.
Proof. intros H HR d. rewrite <-(HR d). apply H. Qed.

Lemma insert_ok D R x : dict_ok D R → dict_ok (dict_insert x D) (λ d, R d + at_ x d).
Proof.
  intros H d. destruct (H x) as [Hx0 Hx], (H d) as [Hd0 Hd]. unfold dict_insert. split; [unfold at_; destruct (bool_decide _); cbn; lia|].
  destruct (decide (x = d)) as [->|Hne].
  - rewrite at_eq, Hd, (proj2 (Z.eqb_neq (R d + 1) 0)) by lia. destruct (Z.eqb_spec (R d) 0); rewrite lookup_insert_eq; [do 2 f_equal; lia|done].
  - rewrite at_ne, Z.add_0_r by done. destruct (D !! x); by rewrite lookup_insert_ne.
Qed.

Lemma dec_ok D R x : dict_ok D R → 0 < R x → ∃ D', dict_dec_ref x D = Some D' ∧ dict_ok D' (λ d, R d - at_ x d).
Proof.
  intros H Hx. unfold dict_dec_ref. destruct (H x) as [_ Hl]. rewrite (proj2 (Z.eqb_neq _ _)) in Hl by lia. rewrite Hl. cbn [mbind option_bind].
  rewrite (proj2 (Z.ltb_lt _ _)) by lia. eexists. split; [done|]. intros d. destruct (H d) as [Hd0 Hd].
  destruct (decide (x = d)) as [->|Hne].
  - rewrite at_eq. split; [lia|]. case_if.
    + by rewrite lookup_delete_eq.
    + by rewrite lookup_insert_eq.
  - rewrite at_ne, Z.sub_0_r by done. split; [done|]. case_if; by rewrite ?lookup_delete_ne, ?lookup_insert_ne by done.
Qed.

Lemma inc_ok D R x : dict_ok D R → 0 < R x → ∃ D', dict_inc_ref x D = Some D' ∧ dict_ok D' (λ d, R d + at_ x d).
Proof.
  intros H Hx. unfold dict_inc_ref. destruct (H x) as [_ Hl]. rewrite (proj2 (Z.eqb_neq _ _)) in Hl by lia. rewrite Hl. cbn [mbind option_bind].
  rewrite (proj2 (Z.ltb_lt _ _)) by lia. eexists. split; [done|]. assert (Hi := insert_ok D R x H). unfold dict_insert in Hi. by rewrite Hl in Hi.
Qed.

Lemma search_ok D R x : dict_ok D R → dict_search x D = (0 <? R x).
Proof.
  intros H. destruct (H x) as [H0 Hl]. unfold dict_search. rewrite Hl.
  destruct (Z.eqb_spec (R x) 0) as [->|]; [by apply bool_decide_eq_false; intros [? ?]|].
  rewrite (proj2 (Z.ltb_lt _ _)) by lia. by apply bool_decide_eq_true; eexists.
Qed.

Lemma replace_ok D R old new : dict_ok D R → 0 < R old → ∃ D', replace_value old new D = Some D' ∧ dict_ok D' (λ d, R d + at_ new d - at_ old d).
Proof.
  intros H Ho. unfold replace_value. assert (Hi := insert_ok D R new H).
  destruct (decide (old = new)) as [->|]; (eapply dec_ok; [exact Hi|]); unfold at_; destruct (bool_decide _); cbn; lia.
Qed.

Lemma cleanup_ok ps : ∀ D R, dict_ok D R → (∀ d, occ d ps ≤ R d) → ∃ D', xattr_cleanup_node ps D = Some D' ∧ dict_ok D' (λ d, R d - occ d ps).
Proof.
  induction ps as [|[n v] ps IH]; intros D R H Hle.
  { exists D. split; [done|]. eapply dict_ok_ext; [exact H|]. intros d. unfold occ. cbn. lia. }
  assert (Hc : ∀ d, at_ n d + at_ v d + occ d ps ≤ R d) by (intros d; specialize (Hle d); rewrite occ_cons, occ1_at in Hle; cbn in Hle; lia).
  assert (Hat : ∀ x d, 0 ≤ at_ x d) by (intros x d; unfold at_; destruct (bool_decide _); cbn; lia).
  cbn [xattr_cleanup_node]. destruct (dec_ok D R n H) as (D1 & -> & H1).
  { assert (Hx := Hc n). rewrite at_eq in Hx. assert (Ha := Hat v n). assert (Hb := occ_nonneg n ps). lia. }
  cbn [mbind option_bind]. destruct (dec_ok D1 _ v H1) as (D2 & -> & H2).
  { assert (Hx := Hc v). rewrite at_eq in Hx. assert (Hb := occ_nonneg v ps). lia. }
  cbn [mbind option_bind]. destruct (IH D2 _ H2) as (D3 & -> & H3); [intros d; specialize (Hc d); lia|].
  exists D3. split; [done|]. eapply dict_ok_ext; [exact H3|]. intros d. rewrite occ_cons, occ1_at. cbn. lia.
Qed.

Lemma copy_ok ps : ∀ D R, dict_ok D R → (∀ d, 0 < occ d ps → 0 < R d) → ∃ D', copy_refs ps D = Some D' ∧ dict_ok D' (λ d, R d + occ d ps).
Proof.
  induction ps as [|[n v] ps IH]; intros D R H Hle.
  { exists D. split; [done|]. eapply dict_ok_ext; [exact H|]. intros d. unfold occ. cbn. lia. }
  assert (Hat : ∀ x d, 0 ≤ at_ x d) by (intros x d; unfold at_; destruct (bool_decide _); cbn; lia).
  assert (Hc : ∀ d, occ d ((n, v) :: ps) = at_ n d + at_ v d + occ d ps) by (intros d; by rewrite occ_cons, occ1_at).
  assert (Hp := λ d, occ_nonneg d ps). cbn [copy_refs]. destruct (inc_ok D R n H) as (D1 & -> & H1).
  { apply Hle. rewrite Hc, at_eq. specialize (Hat v n). specialize (Hp n). lia. }
  cbn [mbind option_bind]. destruct (inc_ok D1 _ v H1) as (D2 & -> & H2).
  { assert (0 < R v); [|specialize (Hat n v); lia]. apply Hle. rewrite Hc, at_eq. specialize (Hat n v). specialize (Hp v). lia. }
  cbn [mbind option_bind]. destruct (IH D2 _ H2) as (D3 & -> & H3).
  { intros d Hd. assert (0 < R d); [|assert (Ha := Hat n d); assert (Hb := Hat v d); lia]. apply Hle. rewrite Hc.
    assert (Ha := Hat n d). assert (Hb := Hat v d). lia. }
  exists D3. split; [done|]. eapply dict_ok_ext; [exact H3|]. intros d. rewrite Hc. lia.
Qed.

(** ** The invariant *)

Definition total (ps : list xattrpair) : Z := foldr (λ p n, Z.of_nat (length p.1) + 1 + n) 0 ps.
#[local] Arguments total : simpl never.

Record pair_ok (p : xattrpair) : Prop := {
  pk_name : 1 ≤ Z.of_nat (length p.1) ≤ 255;
  pk_value : Z.of_nat (length p.2) ≤ MFS_XATTR_SIZE_MAX;
  pk_bytes : Forall is_u8 p.1 ∧ Forall is_u8 p.2 }.

Record pairs_ok (ps : list xattrpair) : Prop := {
  po_ne : ps ≠ [];
  po_nodup : NoDup ps.*1;
  po_pairs : Forall pair_ok ps;
  po_total : total ps ≤ MFS_XATTR_LIST_MAX }.

Record xattrs_ok (s : xattrs) : Prop := {
  xo_dict : dict_ok (xt_dict s) (λ d, refs d (xt_tab s));
  xo_pairs : ∀ i ps, xt_tab s !! i = Some ps → pairs_ok ps;
  xo_flags : ∀ i, is_Some (xt_tab s !! i) ↔ xt_flags s !! i = Some true }.

(** The value of an attribute. *)
Definition value_in (name : list Z) (ps : list xattrpair) : option (list Z) := '(_, value, _) ← find_pair name ps; Some value.
Definition attr (s : xattrs) (inode : Z) (name : list Z) : option (list Z) := ps ← xt_tab s !! inode; value_in name ps.

Lemma total_cons p ps : total (p :: ps) = Z.of_nat (length p.1) + 1 + total ps.
Proof. done. Qed.
Lemma total_app a b : total (a ++ b) = total a + total b.
Proof. induction a as [|p a IH]; [done|]. cbn [app]. rewrite !total_cons. lia. Qed.
Lemma total_nonneg ps : 0 ≤ total ps.
Proof. induction ps as [|p ps IH]; [done|]. rewrite total_cons. lia. Qed.

Lemma names_leng_total ps : total ps < 2 ^ 32 → names_leng ps = total ps.
Proof.
  assert (H : ∀ n, 0 ≤ n → n + total ps < 2 ^ 32 → foldl (λ leng p, u32 (leng + (Z.of_nat (length p.1) + 1))) n ps = n + total ps).
  { induction ps as [|p ps IH]; intros n Hn Hl; cbn [foldl]; [unfold total; cbn; lia|]. rewrite total_cons in *. assert (Ht := total_nonneg ps).
    rewrite u32_small by (unfold is_u32; lia). rewrite IH by lia. lia. }
  intros Hl. unfold names_leng. rewrite H by lia. lia.
Qed.

Lemma find_pair_spec name ps :
  match find_pair name ps with
  | Some (pre, value, post) => ps = pre ++ (name, value) :: post ∧ name ∉ pre.*1
  | None => name ∉ ps.*1
  end.
Proof.
  induction ps as [|[n v] ps IH]; cbn [find_pair]; [apply not_elem_of_nil|]. destruct (decide (n = name)) as [->|Hne].
  - split; [done|apply not_elem_of_nil].
  - destruct (find_pair name ps) as [[[pre value] post]|]; cbn [mbind option_bind].
    + destruct IH as [-> Hn]. split; [done|]. cbn. intros [?|?]%elem_of_cons; congruence.
    + cbn. intros [?|?]%elem_of_cons; congruence.
Qed.

Lemma value_cons name n v ps : value_in name ((n, v) :: ps) = if decide (n = name) then Some v else value_in name ps.
Proof. unfold value_in. cbn [find_pair]. destruct (decide (n = name)); [done|]. by destruct (find_pair name ps) as [[[? ?] ?]|]. Qed.

Lemma value_app name a b : value_in name (a ++ b) = match value_in name a with Some v => Some v | None => value_in name b end.
Proof. induction a as [|[n v] a IH]; [done|]. cbn [app]. rewrite !value_cons. by destruct (decide (n = name)). Qed.

Lemma value_not_in name ps : name ∉ ps.*1 → value_in name ps = None.
Proof.
  intros H. unfold value_in. assert (Hf := find_pair_spec name ps). destruct (find_pair name ps) as [[[pre v] post]|]; [|done].
  destruct Hf as [-> _]. exfalso. apply H. rewrite fmap_app. apply elem_of_app. right. by left.
Qed.

Lemma value_some name ps v : value_in name ps = Some v ↔ ∃ pre post, find_pair name ps = Some (pre, v, post).
Proof.
  unfold value_in. destruct (find_pair name ps) as [[[pre w] post]|]; cbn; split.
  - intros [= ->]. eauto.
  - by intros (? & ? & [= _ -> _]).
  - done.
  - by intros (? & ? & ?).
Qed.

(** A list in which one pair is taken out, or changed. *)
Section one_pair.
Context (name value : list Z) (pre post : list xattrpair).
Hypothesis Hok : pairs_ok (pre ++ (name, value) :: post).

Lemma one_not_in : (name ∉ pre.*1) ∧ (name ∉ post.*1).
Proof.
  assert (H := po_nodup _ Hok). rewrite fmap_app in H. cbn in H. apply NoDup_app in H as (_ & Hd & Hp). apply NoDup_cons in Hp as [Hn _].
  split; [|done]. intros Hx. apply (Hd _ Hx). by left.
Qed.

Lemma value_removed n : value_in n (pre ++ post) = if decide (n = name) then None else value_in n (pre ++ (name, value) :: post).
Proof.
  destruct one_not_in as [H1 H2]. rewrite !value_app, value_cons. destruct (decide (n = name)) as [->|Hne].
  - by rewrite !value_not_in.
  - by rewrite decide_False by congruence.
Qed.

Lemma value_changed new n : value_in n (pre ++ (name, new) :: post) = if decide (n = name) then Some new else value_in n (pre ++ (name, value) :: post).
Proof.
  destruct one_not_in as [H1 H2]. rewrite !value_app, !value_cons. destruct (decide (n = name)) as [->|Hne].
  - by rewrite value_not_in, decide_True.
  - by rewrite !decide_False by congruence.
Qed.

Lemma removed_ok : pre ++ post ≠ [] → pairs_ok (pre ++ post).
Proof.
  intros Hne. destruct Hok as [_ Hnd Hp Ht]. split; [done| | |].
  - rewrite fmap_app in *. cbn in Hnd. apply NoDup_app in Hnd as (? & Hd & Hp'). apply NoDup_cons in Hp' as [_ ?].
    apply NoDup_app. split; [done|]. split; [|done]. intros x Hx Hx'. apply (Hd x Hx). by right.
  - apply Forall_app in Hp as [? Hp']. apply Forall_cons in Hp' as [_ ?]. by apply Forall_app.
  - rewrite total_app, total_cons in *. lia.
Qed.

Lemma changed_ok new : pair_ok (name, new) → pairs_ok (pre ++ (name, new) :: post).
Proof.
  intros Hnew. destruct Hok as [_ Hnd Hp Ht]. split; [by destruct pre| | |].
  - rewrite fmap_app in *. exact Hnd.
  - apply Forall_app in Hp as [? Hp']. apply Forall_cons in Hp' as [_ ?]. apply Forall_app. split; [done|]. by constructor.
  - rewrite total_app, total_cons in *. exact Ht.
Qed.
End one_pair.

(** A state in which the list of one node is another one. *)
Lemma put_ok s D fl i ps : xattrs_ok s → pairs_ok ps → dict_ok D (λ d, refs d (xt_tab s) - occ d (default [] (xt_tab s !! i)) + occ d ps) →
  (∀ j, fl !! j = Some true ↔ j = i ∨ xt_flags s !! j = Some true) → xattrs_ok (mk_xattrs (<[i := ps]> (xt_tab s)) D fl).
Proof.
  intros [Hd Hp Hf] Hps HD Hfl. split; cbn [xt_dict xt_tab xt_flags].
  - eapply dict_ok_ext; [exact HD|]. intros d. cbn beta. by rewrite refs_insert.
  - intros j qs Hj. destruct (decide (j = i)) as [->|Hne]; [rewrite lookup_insert_eq in Hj; by simplify_eq|].
    rewrite lookup_insert_ne in Hj by done. by apply (Hp j).
  - intros j. rewrite Hfl. destruct (decide (j = i)) as [->|Hne]; [rewrite lookup_insert_eq; split; intros; [by left|by eexists]|].
    rewrite lookup_insert_ne by done. rewrite (Hf j). tauto.
Qed.

Lemma drop_ok s D fl i : xattrs_ok s → dict_ok D (λ d, refs d (xt_tab s) - occ d (default [] (xt_tab s !! i))) →
  (∀ j, fl !! j = Some true ↔ j ≠ i ∧ xt_flags s !! j = Some true) → xattrs_ok (mk_xattrs (delete i (xt_tab s)) D fl).
Proof.
  intros [Hd Hp Hf] HD Hfl. split; cbn [xt_dict xt_tab xt_flags].
  - eapply dict_ok_ext; [exact HD|]. intros d. cbn beta. by rewrite refs_delete.
  - intros j qs Hj. destruct (decide (j = i)) as [->|Hne]; [by rewrite lookup_delete_eq in Hj|].
    rewrite lookup_delete_ne in Hj by done. by apply (Hp j).
  - intros j. rewrite Hfl. destruct (decide (j = i)) as [->|Hne]; [rewrite lookup_delete_eq; split; [by intros []|by intros []]|].
    rewrite lookup_delete_ne by done. rewrite (Hf j). tauto.
Qed.

(** ** One attribute *)

(** The answer to a request. *)
Definition set_status (s : xattrs) (inode : Z) (name value : list Z) (mode : Z) : Z :=
  if (Z.of_nat (length name) =? 0) || (MFS_XATTR_REMOVE <? mode) then MFS_ERROR_EINVAL
  else if (MFS_XATTR_SIZE_MAX <? Z.of_nat (length value)) && negb (mode =? MFS_XATTR_REMOVE) then MFS_ERROR_ERANGE
  else match attr s inode name with
  | None =>
      if (mode =? MFS_XATTR_REPLACE_ONLY) || (mode =? MFS_XATTR_REMOVE) then MFS_ERROR_ENOATTR
      else if MFS_XATTR_LIST_MAX <? total (default [] (xt_tab s !! inode)) + Z.of_nat (length name) + 1 then MFS_ERROR_ERANGE
      else MFS_STATUS_OK
  | Some _ => if mode =? MFS_XATTR_CREATE_ONLY then MFS_ERROR_EEXIST else MFS_STATUS_OK
  end.

(** What a request that succeeds changes. *)
Definition set_effect (s s' : xattrs) (inode : Z) (name value : list Z) (mode : Z) : Prop :=
  (∀ i n, attr s' i n = if decide (i = inode ∧ n = name) then (if mode =? MFS_XATTR_REMOVE then None else Some value) else attr s i n)
  ∧ ∀ i, i ≠ inode → xt_tab s' !! i = xt_tab s !! i ∧ xt_flags s' !! i = xt_flags s !! i.

Lemma occ_split d pre name value post : occ d (pre ++ (name, value) :: post) = occ d (pre ++ post) + at_ name d + at_ value d.
Proof. rewrite !occ_app, occ_cons, occ1_at. cbn. lia. Qed.

Lemma put_effect s D fl inode ps name value mode : (mode =? MFS_XATTR_REMOVE) = false →
  (∀ n, value_in n ps = if decide (n = name) then Some value else attr s inode n) →
  (∀ j, j ≠ inode → fl !! j = xt_flags s !! j) →
  set_effect s (mk_xattrs (<[inode := ps]> (xt_tab s)) D fl) inode name value mode.
Proof.
  intros Hm Hps Hfl. unfold set_effect. rewrite Hm. split.
  - intros i n. unfold attr. cbn [xt_tab]. destruct (decide (i = inode)) as [->|Hne].
    + rewrite lookup_insert_eq. cbn [mbind option_bind]. rewrite Hps. destruct (decide (n = name)) as [->|]; [by rewrite decide_True|].
      by rewrite decide_False by (by intros [_ ?]).
    + rewrite lookup_insert_ne by done. by rewrite decide_False by (by intros [? _]).
  - intros i Hi. cbn. by rewrite lookup_insert_ne, Hfl by done.
Qed.

Section setattr.
Context (s : xattrs) (inode : Z) (name value : list Z) (mode : Z) (b : bool).
Hypothesis Hs : xattrs_ok s.
Hypothesis Hnode : xt_flags s !! inode = Some b.
Hypothesis Hn : Forall is_u8 name ∧ Z.of_nat (length name) ≤ 255.
Hypothesis Hv : Forall is_u8 value.
Hypothesis Hm : 0 ≤ mode.

(** Replacing the value of an attribute. *)
Lemma set_replace pre old post D R : xt_tab s !! inode = Some (pre ++ (name, old) :: post) → pair_ok (name, value) →
  dict_ok D R → (∀ d, R d = refs d (xt_tab s)) → (mode =? MFS_XATTR_REMOVE) = false →
  ∃ D', replace_value old value D = Some D' ∧
    let s' := mk_xattrs (<[inode := pre ++ (name, value) :: post]> (xt_tab s)) D' (xt_flags s) in xattrs_ok s' ∧ set_effect s s' inode name value mode.
Proof.
  intros Ht Hp HD HR Hmode. assert (Hok := xo_pairs s Hs _ _ Ht). assert (Hat : ∀ x d, 0 ≤ at_ x d) by (intros x d; unfold at_; destruct (bool_decide _); cbn; lia).
  destruct (replace_ok D R old value HD) as (D' & -> & HD').
  { rewrite HR. assert (Hin := refs_in old _ _ _ Ht). rewrite occ_split, at_eq in Hin. assert (Ho := occ_nonneg old (pre ++ post)). assert (Ha := Hat name old). lia. }
  exists D'. split; [done|]. cbn zeta. split.
  - apply put_ok; [done|by apply (changed_ok name old)| |].
    + eapply dict_ok_ext; [exact HD'|]. intros d. cbn beta. rewrite HR, Ht. cbn [default from_option id]. rewrite !occ_split. lia.
    + intros j. split; [by right|]. intros [->|]; [|done]. apply (xo_flags s Hs). by eexists.
  - apply put_effect; [done| |done]. intros n. rewrite (value_changed name old) by done. unfold attr. by rewrite Ht.
Qed.

(** Taking an attribute out. *)
Lemma set_remove pre old post : xt_tab s !! inode = Some (pre ++ (name, old) :: post) → mode = MFS_XATTR_REMOVE →
  ∃ D D', dict_dec_ref name (xt_dict s) = Some D ∧ dict_dec_ref old D = Some D' ∧
    let s' := if bool_decide (pre ++ post = []) then mk_xattrs (delete inode (xt_tab s)) D' (fs_del_xattrflag inode (xt_flags s))
      else mk_xattrs (<[inode := pre ++ post]> (xt_tab s)) D' (xt_flags s) in xattrs_ok s' ∧ set_effect s s' inode name value mode.
Proof.
  intros Ht Hmode. assert (Hok := xo_pairs s Hs _ _ Ht). assert (Hat : ∀ x d, 0 ≤ at_ x d) by (intros x d; unfold at_; destruct (bool_decide _); cbn; lia).
  assert (Hin : ∀ d, occ d (pre ++ post) + at_ name d + at_ old d ≤ refs d (xt_tab s)) by (intros d; rewrite <-occ_split; by apply (refs_in _ _ inode)).
  destruct (dec_ok _ _ name (xo_dict s Hs)) as (D & -> & HD).
  { assert (H := Hin name). rewrite at_eq in H. assert (H1 := Hat old name). assert (H2 := occ_nonneg name (pre ++ post)). lia. }
  destruct (dec_ok _ _ old HD) as (D' & HD1 & HD').
  { assert (H := Hin old). rewrite at_eq in H. assert (H2 := occ_nonneg old (pre ++ post)). lia. }
  exists D, D'. split; [done|]. split; [exact HD1|]. cbn zeta.
  assert (Hval : ∀ n, value_in n (pre ++ post) = if decide (n = name) then None else attr s inode n).
  { intros n. rewrite (value_removed name old) by done. unfold attr. by rewrite Ht. }
  case_bool_decide as He; split.
  - apply drop_ok; [done| |].
    + eapply dict_ok_ext; [exact HD'|]. intros d. cbn beta. rewrite Ht. cbn [default from_option id]. rewrite occ_split, He, occ_nil. lia.
    + intros j. unfold fs_del_xattrflag. rewrite Hnode. destruct (decide (j = inode)) as [->|Hne].
      * rewrite lookup_insert_eq. by split; [|intros []].
      * rewrite lookup_insert_ne by done. by split; [|intros []].
  - unfold set_effect. rewrite Hmode. change (MFS_XATTR_REMOVE =? MFS_XATTR_REMOVE) with true. cbn iota. split.
    + intros i n. unfold attr at 1. cbn [xt_tab]. destruct (decide (i = inode)) as [->|Hne].
      * rewrite lookup_delete_eq. cbn. specialize (Hval n). rewrite He in Hval. cbn in Hval. destruct (decide (n = name)) as [->|]; [by rewrite decide_True|].
        by rewrite decide_False by (by intros [_ ?]).
      * rewrite lookup_delete_ne by done. by rewrite decide_False by (by intros [? _]).
    + intros i Hi. cbn. unfold fs_del_xattrflag. rewrite Hnode. by rewrite lookup_delete_ne, lookup_insert_ne by done.
  - apply put_ok; [done|by apply (removed_ok name old)| |].
    + eapply dict_ok_ext; [exact HD'|]. intros d. cbn beta. rewrite Ht. cbn [default from_option id]. rewrite occ_split. lia.
    + intros j. split; [by right|]. intros [->|]; [|done]. apply (xo_flags s Hs). by eexists.
  - unfold set_effect. rewrite Hmode. change (MFS_XATTR_REMOVE =? MFS_XATTR_REMOVE) with true. cbn iota. split.
    + intros i n. unfold attr at 1. cbn [xt_tab]. destruct (decide (i = inode)) as [->|Hne].
      * rewrite lookup_insert_eq. cbn [mbind option_bind]. rewrite Hval. destruct (decide (n = name)) as [->|]; [by rewrite decide_True|].
        by rewrite decide_False by (by intros [_ ?]).
      * rewrite lookup_insert_ne by done. by rewrite decide_False by (by intros [? _]).
    + intros i Hi. cbn. by rewrite lookup_insert_ne by done.
Qed.
End setattr.

Lemma attr_entry s inode name ps : xt_tab s !! inode = Some ps → attr s inode name = value_in name ps.
Proof. intros Ht. unfold attr. by rewrite Ht. Qed.

Lemma search_uses s x : xattrs_ok s → dict_search x (xt_dict s) = (0 <? refs x (xt_tab s)).
Proof. intros Hs. apply (search_ok _ _ _ (xo_dict s Hs)). Qed.

Lemma same_dict s D x : xattrs_ok s → dict_dec_ref x (dict_insert x (xt_dict s)) = Some D → D = xt_dict s.
Proof.
  intros Hs HD. assert (Hi := insert_ok _ _ x (xo_dict s Hs)). destruct (dec_ok _ _ x Hi) as (D' & HD1 & HD').
  { rewrite at_eq. assert (H := refs_nonneg x (xt_tab s)). lia. }
  rewrite HD in HD1. injection HD1 as <-. eapply dict_unique; [exact HD'|exact (xo_dict s Hs)|]. intros d. cbn beta. lia.
Qed.

Lemma dec_insert s x : xattrs_ok s → dict_dec_ref x (dict_insert x (xt_dict s)) = Some (xt_dict s).
Proof.
  intros Hs. destruct (dec_ok _ _ x (insert_ok _ _ x (xo_dict s Hs))) as (D & HD & _).
  { rewrite at_eq. assert (H := refs_nonneg x (xt_tab s)). lia. }
  rewrite HD. f_equal. by apply (same_dict s D x).
Qed.

Lemma same_state s inode ps : xt_tab s !! inode = Some ps → mk_xattrs (<[inode := ps]> (xt_tab s)) (xt_dict s) (xt_flags s) = s.
Proof. intros Ht. destruct s as [tab D fl]. cbn in *. by rewrite insert_id. Qed.

Section setattr_total.
Context (s : xattrs) (inode : Z) (name value : list Z) (mode : Z) (b : bool).
Hypothesis Hs : xattrs_ok s.
Hypothesis Hnode : xt_flags s !! inode = Some b.
Hypothesis Hn : Forall is_u8 name ∧ 1 ≤ Z.of_nat (length name) ≤ 255.
Hypothesis Hv : Forall is_u8 value.

(** A new attribute. *)
Lemma set_new : value_in name (default [] (xt_tab s !! inode)) = None → Z.of_nat (length value) ≤ MFS_XATTR_SIZE_MAX → (mode =? MFS_XATTR_REMOVE) = false →
  total (default [] (xt_tab s !! inode)) + Z.of_nat (length name) + 1 ≤ MFS_XATTR_LIST_MAX →
  let fl := match xt_tab s !! inode with None => fs_set_xattrflag inode (xt_flags s) | Some _ => xt_flags s end in
  let s' := mk_xattrs (<[inode := (name, value) :: default [] (xt_tab s !! inode)]> (xt_tab s))
    (dict_insert value (dict_insert name (xt_dict s))) fl in xattrs_ok s' ∧ set_effect s s' inode name value mode.
Proof.
  intros Hnone Hvl Hmode Htot fl s'. set (ps := default [] (xt_tab s !! inode)) in *.
  assert (Hps : NoDup ps.*1 ∧ Forall pair_ok ps).
  { unfold ps. destruct (xt_tab s !! inode) as [qs|] eqn:Ht; [by destruct (xo_pairs s Hs _ _ Ht)|]. cbn. by split; constructor. }
  assert (Hnot : name ∉ ps.*1).
  { assert (Hf := find_pair_spec name ps). unfold value_in in Hnone. by destruct (find_pair name ps) as [[[? ?] ?]|]. }
  assert (Hfl : ∀ j, fl !! j = if decide (j = inode) then Some true else xt_flags s !! j).
  { intros j. unfold fl. destruct (xt_tab s !! inode) as [qs|] eqn:Ht.
    - destruct (decide (j = inode)) as [->|]; [|done]. apply (xo_flags s Hs). by eexists.
    - unfold fs_set_xattrflag. rewrite Hnode. destruct (decide (j = inode)) as [->|]; [by rewrite lookup_insert_eq|by rewrite lookup_insert_ne]. }
  split.
  - apply put_ok; [done| | |].
    + split; [done|cbn; by constructor; destruct Hps| |by rewrite total_cons; cbn; lia].
      constructor; [|by destruct Hps]. split; [cbn; lia|cbn; lia|by destruct Hn].
    + eapply dict_ok_ext; [apply insert_ok, insert_ok, (xo_dict s Hs)|]. intros d. cbn beta. fold ps. rewrite occ_cons, occ1_at. cbn. lia.
    + intros j. rewrite Hfl. destruct (decide (j = inode)); [split; intros; [by left|done]|split; [by right|intros [|]; done]].
  - apply put_effect; [done| |].
    + intros n. rewrite value_cons. destruct (decide (name = n)) as [<-|Hne]; [by rewrite decide_True|]. rewrite decide_False by congruence.
      unfold attr, ps. by destruct (xt_tab s !! inode).
    + intros j Hj. rewrite Hfl. by rewrite decide_False.
Qed.

Lemma find_value ps : match find_pair name ps with Some (pre, v, post) => value_in name ps = Some v ∧ ps = pre ++ (name, v) :: post | None => value_in name ps = None end.
Proof. unfold value_in. assert (H := find_pair_spec name ps). destruct (find_pair name ps) as [[[pre v] post]|]; [|done]. by destruct H. Qed.

(** The state and the answer agree with the specification. *)
Definition set_done (r : option (Z * xattrs)) (status : Z) : Prop :=
  ∃ s', r = Some (status, s') ∧ xattrs_ok s' ∧ if status =? MFS_STATUS_OK then set_effect s s' inode name value mode else s' = s.

Lemma set_refused status : status ≠ MFS_STATUS_OK → set_done (Some (status, s)) status.
Proof. intros Hne. exists s. split; [done|]. split; [done|]. by rewrite (proj2 (Z.eqb_neq _ _) Hne). Qed.

Lemma not_found_unused ps : xt_tab s !! inode = Some ps → dict_search name (xt_dict s) = false → value_in name ps = None.
Proof.
  intros Ht Hd. rewrite search_uses in Hd by done. zbool. assert (Hf := find_value ps). destruct (find_pair name ps) as [[[pre v] post]|]; [|done].
  destruct Hf as [_ ->]. assert (Hin := refs_in name _ _ _ Ht). rewrite occ_split, at_eq in Hin.
  assert (H1 := occ_nonneg name (pre ++ post)). assert (H2 : 0 ≤ at_ v name) by (unfold at_; destruct (bool_decide _); cbn; lia). lia.
Qed.

(** A request for an attribute that must exist. *)
Lemma set_existing : mode = MFS_XATTR_REPLACE_ONLY ∨ mode = MFS_XATTR_REMOVE →
  (mode = MFS_XATTR_REPLACE_ONLY → Z.of_nat (length value) ≤ MFS_XATTR_SIZE_MAX) →
  set_done (xattr_setattr inode name value mode s) (match attr s inode name with None => MFS_ERROR_ENOATTR | Some _ => MFS_STATUS_OK end).
Proof.
  intros Hm Hvl. destruct Hn as [Hnu Hnl]. unfold xattr_setattr. rewrite (proj2 (Z.eqb_neq (Z.of_nat (length name)) 0)) by lia.
  rewrite (proj2 (Z.ltb_ge MFS_XATTR_LIST_MAX (Z.of_nat (length name) + 1))) by (unfold MFS_XATTR_LIST_MAX; lia).
  assert (Hsz : (MFS_XATTR_SIZE_MAX <? Z.of_nat (length value)) && negb (mode =? MFS_XATTR_REMOVE) = false).
  { destruct Hm as [->| ->]; [|by rewrite andb_false_r]. rewrite (proj2 (Z.ltb_ge _ _)) by auto. done. }
  assert (Hmode : (MFS_XATTR_REMOVE <? mode) = false) by (destruct Hm as [->| ->]; done).
  assert (Hmust : (mode =? MFS_XATTR_REPLACE_ONLY) || (mode =? MFS_XATTR_REMOVE) = true) by (destruct Hm as [->| ->]; done).
  rewrite Hmode, Hsz, Hmust. cbn [orb]. unfold attr. destruct (xt_tab s !! inode) as [ps|] eqn:Ht; cbn [mbind option_bind]; [|by apply set_refused].
  cbn [andb]. destruct (dict_search name (xt_dict s)) eqn:Hd; cbn [negb].
  2:{ rewrite (not_found_unused ps) by done. by apply set_refused. }
  cbn [default from_option id]. assert (Hf := find_value ps). destruct (find_pair name ps) as [[[pre v] post]|].
  2:{ rewrite Hf. by apply set_refused. }
  destruct Hf as [-> Hps]. rewrite Hps in Ht. destruct Hm as [Hm|Hm].
  - destruct (set_replace s inode name value mode Hs pre v post (xt_dict s) (λ d, refs d (xt_tab s)) Ht) as (D' & HD & Hok & Heff);
      [split; [cbn; lia|cbn; auto|done]|apply (xo_dict s Hs)|done|by rewrite Hm|].
    rewrite Hm. change (MFS_XATTR_REPLACE_ONLY =? MFS_XATTR_CREATE_ONLY) with false. change (MFS_XATTR_REPLACE_ONLY =? MFS_XATTR_REMOVE) with false.
    change (MFS_XATTR_REPLACE_ONLY =? MFS_XATTR_CREATE_OR_REPLACE) with false. cbn iota. cbn [mbind option_bind].
    rewrite (proj2 (Z.ltb_ge MFS_XATTR_SIZE_MAX _)) by auto. rewrite HD. cbn [mbind option_bind]. eexists. split; [done|]. split; [exact Hok|exact Heff].
  - destruct (set_remove s inode name value mode b Hs Hnode pre v post Ht Hm) as (D & D' & HD & HD' & Hok & Heff).
    rewrite Hm. change (MFS_XATTR_REMOVE =? MFS_XATTR_CREATE_ONLY) with false.
    change (MFS_XATTR_REMOVE =? MFS_XATTR_REMOVE) with true. cbn iota. rewrite HD. cbn [mbind option_bind]. rewrite HD'. cbn [mbind option_bind].
    eexists. split; [done|]. split; [exact Hok|exact Heff].
Qed.

(** A request that may make the attribute. *)
Lemma set_creating : mode = MFS_XATTR_CREATE_OR_REPLACE ∨ mode = MFS_XATTR_CREATE_ONLY → Z.of_nat (length value) ≤ MFS_XATTR_SIZE_MAX →
  set_done (xattr_setattr inode name value mode s)
    (match attr s inode name with
     | None => if MFS_XATTR_LIST_MAX <? total (default [] (xt_tab s !! inode)) + Z.of_nat (length name) + 1 then MFS_ERROR_ERANGE else MFS_STATUS_OK
     | Some _ => if mode =? MFS_XATTR_CREATE_ONLY then MFS_ERROR_EEXIST else MFS_STATUS_OK
     end).
Proof.
  intros Hm Hvl. destruct Hn as [Hnu Hnl]. unfold xattr_setattr. rewrite (proj2 (Z.eqb_neq (Z.of_nat (length name)) 0)) by lia.
  rewrite (proj2 (Z.ltb_ge MFS_XATTR_LIST_MAX (Z.of_nat (length name) + 1))) by (unfold MFS_XATTR_LIST_MAX; lia).
  rewrite (proj2 (Z.ltb_ge MFS_XATTR_SIZE_MAX _)) by done. cbn [andb].
  assert (Hmode : (MFS_XATTR_REMOVE <? mode) = false) by (destruct Hm as [->| ->]; done).
  assert (Hmust : (mode =? MFS_XATTR_REPLACE_ONLY) || (mode =? MFS_XATTR_REMOVE) = false) by (destruct Hm as [->| ->]; done).
  assert (Hrm : (mode =? MFS_XATTR_REMOVE) = false) by (destruct Hm as [->| ->]; done).
  rewrite Hmode, Hmust, Hrm. cbn [orb andb].
  assert (Hsum : ∀ ps, total ps ≤ MFS_XATTR_LIST_MAX → u32 (names_leng ps + Z.of_nat (length name) + 1) = total ps + Z.of_nat (length name) + 1).
  { intros ps Hp. assert (H0 := total_nonneg ps). unfold MFS_XATTR_LIST_MAX in Hp. rewrite names_leng_total by lia. apply u32_small. unfold is_u32. lia. }
  assert (Hnew := set_new). destruct (xt_tab s !! inode) as [ps|] eqn:Ht; cbn [default from_option id] in *.
  - rewrite (attr_entry s inode name ps Ht). assert (Hf := find_value ps). destruct (find_pair name ps) as [[[pre v] post]|].
    + destruct Hf as [-> Hps]. destruct Hm as [Hm|Hm]; rewrite Hm.
      * change (MFS_XATTR_CREATE_OR_REPLACE =? MFS_XATTR_CREATE_ONLY) with false. change (MFS_XATTR_CREATE_OR_REPLACE =? MFS_XATTR_CREATE_OR_REPLACE) with true.
        cbn iota. rewrite dec_insert by done. cbn [mbind option_bind].
        rewrite Hps in Ht. destruct (set_replace s inode name value mode Hs pre v post (xt_dict s) (λ d, refs d (xt_tab s)) Ht) as (D' & -> & Hok & Heff);
          [split; [cbn; lia|done|done]|apply (xo_dict s Hs)|done|done|]. cbn [mbind option_bind]. eexists. split; [done|]. split; [exact Hok|exact Heff].
      * change (MFS_XATTR_CREATE_ONLY =? MFS_XATTR_CREATE_ONLY) with true. cbn iota. rewrite dec_insert by done. cbn [mbind option_bind].
        rewrite same_state by done. by apply set_refused.
    + rewrite Hf, Hsum by (by destruct (xo_pairs s Hs _ _ Ht)). case_if.
      * rewrite dec_insert by done. cbn [mbind option_bind]. rewrite same_state by done. by apply set_refused.
      * destruct (Hnew Hf Hvl (proj2 (Z.eqb_neq _ _) Hrm) ltac:(lia)) as [Hok Heff]. eexists. split; [done|]. split; [exact Hok|exact Heff].
  - assert (Ha : attr s inode name = None) by (unfold attr; by rewrite Ht). rewrite Ha, Hsum by done. change (total []) with 0 in *.
    rewrite (proj2 (Z.ltb_ge _ _)) by (unfold MFS_XATTR_LIST_MAX; lia). cbn [find_pair].
    destruct (Hnew eq_refl Hvl Hrm ltac:(unfold MFS_XATTR_LIST_MAX; lia)) as [Hok Heff]. eexists. split; [done|]. split; [exact Hok|exact Heff].
Qed.

Lemma setattr_done : 0 ≤ mode → set_done (xattr_setattr inode name value mode s) (set_status s inode name value mode).
Proof.
  intros Hm. unfold set_status. destruct Hn as [Hnu Hnl]. rewrite (proj2 (Z.eqb_neq (Z.of_nat (length name)) 0)) by lia. cbn [orb].
  destruct (Z.ltb_spec MFS_XATTR_REMOVE mode) as [Hr|Hr].
  { unfold xattr_setattr. rewrite (proj2 (Z.ltb_lt _ _) Hr), orb_true_r. by apply set_refused. }
  destruct ((MFS_XATTR_SIZE_MAX <? Z.of_nat (length value)) && negb (mode =? MFS_XATTR_REMOVE)) eqn:Hsize.
  { unfold xattr_setattr. rewrite (proj2 (Z.eqb_neq (Z.of_nat (length name)) 0)), (proj2 (Z.ltb_ge _ _) Hr) by lia. rewrite Hsize. by apply set_refused. }
  assert (Hvl : mode ≠ MFS_XATTR_REMOVE → Z.of_nat (length value) ≤ MFS_XATTR_SIZE_MAX).
  { intros Hne. rewrite (proj2 (Z.eqb_neq _ _) Hne), andb_true_r in Hsize. zbool. lia. }
  unfold MFS_XATTR_REMOVE in Hr. assert (Hcase : mode = 0 ∨ mode = 1 ∨ mode = 2 ∨ mode = 3) by lia.
  destruct Hcase as [E|[E|[E|E]]].
  - assert (H := set_creating (or_introl E) ltac:(apply Hvl; rewrite E; done)). rewrite E in *. exact H.
  - assert (H := set_creating (or_intror E) ltac:(apply Hvl; rewrite E; done)). rewrite E in *. exact H.
  - assert (H := set_existing (or_introl E) ltac:(intros _; apply Hvl; rewrite E; done)). rewrite E in *. exact H.
  - assert (H := set_existing (or_intror E) ltac:(intros Hx; exfalso; rewrite E in Hx; done)). rewrite E in *. exact H.
Qed.

(** C27: a request on an attribute ends without a failed count, keeps the counts, lists
    and flags right, has the answer of the specification on every branch, and changes
    this attribute of this node as it says, or nothing at all. *)
Theorem xattr_setattr_exact : 0 ≤ mode → set_done (xattr_setattr inode name value mode s) (set_status s inode name value mode).
Proof. apply setattr_done. Qed.
End setattr_total.

Definition ex_xattrs : xattrs := mk_xattrs {[7 := [([117; 46; 97], [1; 2])]]} {[ [117; 46; 97] := 1; [1; 2] := 1 ]} {[7 := true; 8 := false]}.

Lemma ex_xattrs_ok : xattrs_ok ex_xattrs.
Proof.
  split.
  - intros d. cbn [xt_dict xt_tab ex_xattrs].
    assert (Hr : refs d {[7 := [([117; 46; 97], [1; 2])]]} = at_ [117; 46; 97] d + at_ [1; 2] d).
    { unfold refs. rewrite <-insert_empty, map_sum_new by apply lookup_empty. rewrite map_sum_empty, occ_cons, occ_nil, occ1_at. cbn. lia. }
    rewrite Hr. split; [unfold at_; destruct (bool_decide _), (bool_decide _); cbn; lia|].
    destruct (decide (d = [117; 46; 97])) as [->|H1]; [by vm_compute|]. destruct (decide (d = [1; 2])) as [->|H2]; [by vm_compute|].
    rewrite !at_ne by congruence. cbn. rewrite lookup_insert_ne by congruence. by rewrite lookup_singleton_ne by congruence.
  - intros i ps H. cbn in H. apply lookup_singleton_Some in H as [<- <-]. split; [done| | |].
    + cbn. apply NoDup_singleton.
    + constructor; [|constructor]. split; cbn; unfold MFS_XATTR_SIZE_MAX; [lia..|]. split; repeat (constructor; [by unfold is_u8|]); constructor.
    + unfold total. cbn. unfold MFS_XATTR_LIST_MAX. lia.
  - intros i. cbn. destruct (decide (i = 7)) as [->|H7]; [by split|]. rewrite lookup_singleton_ne by done. rewrite lookup_insert_ne by done.
    split; [by intros [? ?]|]. by intros [_ ?]%lookup_singleton_Some.
Qed.

Lemma xattr_setattr_exact_witness : ∃ s', xattr_setattr 8 [97] [1; 2] 1 ex_xattrs = Some (MFS_STATUS_OK, s') ∧ xattrs_ok s' ∧ attr s' 8 [97] = Some [1; 2].
Proof.
  destruct (xattr_setattr_exact ex_xattrs 8 [97] [1; 2] 1 false ex_xattrs_ok eq_refl) as (s' & H & Hok & He).
  - split; [repeat (constructor; [by unfold is_u8|]); constructor|cbn; lia].
  - repeat (constructor; [by unfold is_u8|]). constructor.
  - done.
  - exists s'. change (set_status ex_xattrs 8 [97] [1; 2] 1) with MFS_STATUS_OK in *. split; [exact H|]. split; [exact Hok|].
    change (set_effect ex_xattrs s' 8 [97] [1; 2] 1) in He. destruct He as [He _]. by rewrite He.
Defined.

(** ** Followers *)

Lemma found_node nodes root sesflags inode skip i : fsnodes_node_find_ext nodes root sesflags inode skip = Some (Some i) →
  (i = inode ∨ i = root) ∧ is_Some (nodes !! i).
Proof.
  unfold fsnodes_node_find_ext. case_if.
  { destruct (nodes !! inode) eqn:E1; intros [= <-]. split; [by left|by rewrite E1]. }
  case_if. { destruct (nodes !! inode) eqn:E1; [|done]. case_if; intros [= <-]. split; [by left|by rewrite E1]. }
  destruct (nodes !! root) as [rn|] eqn:Er; [|done]. case_if; [done|]. case_if; [intros [= <-]; split; [by right|by rewrite Er]|].
  destruct (nodes !! inode) as [p|] eqn:Ei; [|done]. destruct skip; [intros [= <-]; split; [by left|by rewrite Ei]|].
  destruct (fsnodes_isancestor nodes root inode) as [[]|]; cbn; intros [= <-]. split; [by left|by rewrite Ei].
Qed.

Lemma namecheck_spec name : Forall is_u8 name → xattr_namecheck name = true → Forall (λ c, 0 < c < 256) name.
Proof.
  intros Hu Hc. rewrite Forall_forall in Hu. apply Forall_forall. intros c Hi. specialize (Hu c Hi). unfold is_u8 in Hu.
  assert (H := proj1 (forallb_forall _ _) Hc c (proj1 (list_elem_of_In _ _) Hi)). cbv beta in H. zbool. lia.
Qed.

(** C30: a request for an attribute is refused and changes nothing, or is logged in a
    line from which a follower with the same state takes the arguments of the call that
    gives it the state of the master. *)
Theorem setxattr_follower other bufs ts root sesflags inode opened uid gid name value mode f s st f' s' e :
  xattrs_ok s → (∀ i, is_Some (fs_nodes f !! i) → is_Some (xt_flags s !! i)) →
  is_u32 ts → is_u32 root → is_u32 inode → Forall is_u8 name ∧ 1 ≤ Z.of_nat (length name) ≤ 255 →
  Forall is_u8 value ∧ Z.of_nat (length value) ≤ MFS_XATTR_SIZE_MAX → is_u8 mode →
  fs_setxattr ts root sesflags inode opened uid gid name value mode f s = Some (st, f', s', e) →
  match e with
  | None => st ≠ MFS_STATUS_OK ∧ f' = f ∧ s' = s
  | Some en => ∃ line bufs' i, st = MFS_STATUS_OK ∧ log_line en bufs = Some (line, bufs')
      ∧ restore_line other line = Some (CALL (SETXATTR ts i name value mode)) ∧ xattrs_ok s'
      ∧ fs_mr_setxattr ts i name value mode f s = Some (MFS_STATUS_OK, f', s')
  end.
Proof.
  intros Hs Hfl Hts Hroot Hino Hn [Hv Hvl] Hm H. unfold fs_setxattr in H. case_if_in H; [by injection H as <- <- <- <-|].
  destruct (fsnodes_node_find_ext _ _ _ _ _) as [[i|]|] eqn:Hfind; cbn [mbind option_bind] in H; [|by injection H as <- <- <- <-|done].
  apply found_node in Hfind as [Hi Hin]. destruct (Hfl i Hin) as [b Hb]. destruct Hin as [p Hp]. rewrite Hp in H. cbn [mbind option_bind] in H.
  do 3 (case_if_in H; [by injection H as <- <- <- <-|]).
  destruct (if opened then Some true else _) as [granted|]; [|done]. cbn [mbind option_bind] in H.
  case_if_in H; [by injection H as <- <- <- <-|]. destruct (xattr_namecheck name) eqn:Hck; cbn [negb] in H; [|by injection H as <- <- <- <-].
  case_if_in H; [by injection H as <- <- <- <-|].
  destruct (setattr_done s i name value mode b Hs Hb Hn Hv ltac:(unfold is_u8 in Hm; lia)) as (s1 & Hset & Hok & Heff).
  rewrite Hset in H. cbn [mbind option_bind] in H. set (status := set_status s i name value mode) in *. destruct (Z.eqb_spec status MFS_STATUS_OK) as [Est|Est]; cbn [negb] in H.
  - injection H as <- <- <- <-. destruct (entry_reads other (SETXATTR ts i name value mode) bufs) as (line & bufs' & Hl & Hr & _).
    { cbn [entry_ok]. split; [done|]. split; [by destruct Hi as [->| ->]|]. split; [split; [by apply namecheck_spec; [destruct Hn|]|lia]|].
      split; [by split|done]. }
    exists line, bufs', i. split; [done|]. split; [exact Hl|]. split; [exact Hr|]. split; [exact Hok|].
    unfold fs_mr_setxattr. rewrite (proj2 (Z.eqb_neq (Z.of_nat (length name)) 0)), (proj2 (Z.ltb_ge MFS_XATTR_NAME_MAX _)), (proj2 (Z.ltb_ge MFS_XATTR_SIZE_MAX _)), (proj2 (Z.ltb_ge MFS_XATTR_REMOVE mode))
      by (unfold MFS_XATTR_NAME_MAX; lia). cbn [orb]. rewrite Hp, Hset. cbn [mbind option_bind]. by rewrite Est.
  - injection H as <- <- <- <-. done.
Qed.

Definition ex_fs : fs := mk_fs {[7 := mk_fsnode 1 1 1 5 5 false false TYPE_FILE 0x1A4 0 0 [Some 1]]} ∅.

Lemma ex_setxattr : ∃ f' s', fs_setxattr 1000 MFS_ROOT_ID 0 7 false 5 [5] [117; 46; 98] [1; 2] 0 ex_fs ex_xattrs
  = Some (MFS_STATUS_OK, f', s', Some (SETXATTR 1000 7 [117; 46; 98] [1; 2] 0)).
Proof. eexists _, _. vm_compute. reflexivity. Qed.

Lemma setxattr_follower_witness : ∃ f' s' line bufs', log_line (SETXATTR 1000 7 [117; 46; 98] [1; 2] 0) ex_bufs = Some (line, bufs')
  ∧ fs_mr_setxattr 1000 7 [117; 46; 98] [1; 2] 0 ex_fs ex_xattrs = Some (MFS_STATUS_OK, f', s').
Proof.
  destruct ex_setxattr as (f' & s' & H). exists f', s'.
  destruct (setxattr_follower (λ _ _, None) ex_bufs 1000 MFS_ROOT_ID 0 7 false 5 [5] [117; 46; 98] [1; 2] 0 ex_fs ex_xattrs MFS_STATUS_OK f' s'
    (Some (SETXATTR 1000 7 [117; 46; 98] [1; 2] 0)) ex_xattrs_ok) as (line & bufs' & i & _ & Hl & Hr & _ & Hmr); [..|exact H|].
  - intros i [p Hp]. cbn in Hp. apply lookup_singleton_Some in Hp as [<- _]. by exists true.
  - by unfold is_u32.
  - by unfold is_u32.
  - by unfold is_u32.
  - split; [repeat (constructor; [by unfold is_u8|]); constructor|cbn; lia].
  - split; [repeat (constructor; [by unfold is_u8|]); constructor|unfold MFS_XATTR_SIZE_MAX; cbn; lia].
  - by unfold is_u8.
  - exists line, bufs'. split; [exact Hl|]. assert (Hi : restore_line (λ _ _, None) line = Some (CALL (SETXATTR 1000 7 [117; 46; 98] [1; 2] 0))).
    { assert (Hc : log_line (SETXATTR 1000 7 [117; 46; 98] [1; 2] 0) ex_bufs = Some (line, bufs')) by exact Hl.
      destruct (entry_reads (λ _ _, None) (SETXATTR 1000 7 [117; 46; 98] [1; 2] 0) ex_bufs) as (l' & b' & Hl' & Hr' & _).
      - cbn [entry_ok]. unfold name_ok, data_ok, is_u32, is_u8. split_and!; try lia; try (cbn; lia); repeat (constructor; [lia|]); constructor.
      - rewrite Hl' in Hc. injection Hc as <- <-. exact Hr'. }
    rewrite Hi in Hr. injection Hr as <-. exact Hmr.
Defined.

(** ** The image *)

Section image.
Variable bld : build.

Variable bld' : build.

(** Reading one pair. *)
Definition load_pair (last i : Z) (p : xattrpair) (s : xattrs) : xattrs :=
  let s := if i =? last then s
    else match xt_tab s !! i with
    | Some _ => s
    | None => mk_xattrs (<[i := []]> (xt_tab s)) (xt_dict s) (fs_set_xattrflag i (xt_flags s))
    end in
  mk_xattrs (<[i := default [] (xt_tab s !! i) ++ [p]]> (xt_tab s)) (dict_insert p.2 (dict_insert p.1 (xt_dict s))) (xt_flags s).

Lemma load_step fuel ign last i p rest s : pair_ok p → is_u32 i → i ≠ 0 → is_Some (xt_flags s !! i) →
  load_loop bld' (S fuel) ign last (store_pair bld i p ++ rest) s = load_loop bld' fuel ign i rest (load_pair last i p s).
Proof.
  intros [Hn Hv _] Hi Hi0 [b Hb]. destruct p as [name value]. cbn [fst snd] in *. unfold MFS_XATTR_SIZE_MAX in Hv. unfold store_pair, xattr_header. cbn [fst snd].
  rewrite (proj2 (Z.ltb_ge 255 _)) by lia. rewrite Nat2Z.id, firstn_all. rewrite <-!app_assoc. cbn [load_loop].
  assert (Hlen : (length (put32bit bld i ++ put8bit bld (Z.of_nat (length name)) ++ put32bit bld (Z.of_nat (length value)) ++ name ++ value ++ rest) <? 9)%nat = false).
  { apply Nat.ltb_ge. rewrite !length_app, !put32bit_be, !length_be_bytes. cbn. lia. }
  rewrite Hlen, get32_put32. cbn [mbind option_bind]. rewrite get8_put8. cbn [mbind option_bind]. rewrite get32_put32. cbn [mbind option_bind].
  rewrite !Z.mod_small by (unfold is_u32 in *; lia). rewrite (proj2 (Z.eqb_neq _ _) Hi0), Hb, (proj2 (Z.eqb_neq (Z.of_nat (length name)) 0)) by lia.
  rewrite (proj2 (Z.ltb_ge MFS_XATTR_SIZE_MAX _)) by done. rewrite (proj2 (Z.ltb_ge _ _)) by (rewrite !length_app; lia).
  rewrite Nat2Z.id, Z2Nat.inj_add, !Nat2Z.id by lia. rewrite take_app_length, drop_app_length, take_app_length.
  rewrite app_assoc, <-length_app, drop_app_length. done.
Qed.

Definition flat (order : list (Z * list xattrpair)) : list (Z * xattrpair) := concat ((λ e : Z * list xattrpair, pair e.1 <$> e.2) <$> order).

Fixpoint load_pairs (last : Z) (l : list (Z * xattrpair)) (s : xattrs) : xattrs :=
  match l with [] => s | (i, p) :: l => load_pairs i l (load_pair last i p s) end.

Lemma load_pair_flags last i p s j : is_Some (xt_flags s !! j) → is_Some (xt_flags (load_pair last i p s) !! j).
Proof.
  intros Hj. unfold load_pair. case_if; cbn; [done|]. destruct (xt_tab s !! i); cbn; [done|]. unfold fs_set_xattrflag.
  destruct (xt_flags s !! i); [|done]. destruct (decide (i = j)) as [->|]; [by rewrite lookup_insert_eq|by rewrite lookup_insert_ne].
Qed.

Lemma load_all_pairs l : ∀ fuel ign last rest s, (length l < fuel)%nat →
  Forall (λ ip, pair_ok ip.2 ∧ is_u32 ip.1 ∧ ip.1 ≠ 0 ∧ is_Some (xt_flags s !! ip.1)) l →
  load_loop bld' fuel ign last (concat ((λ ip : Z * xattrpair, store_pair bld ip.1 ip.2) <$> l) ++ replicate 9 0 ++ rest) s = Some (1, load_pairs last l s).
Proof.
  induction l as [|[i p] l IH]; intros [|fuel] ign last rest s Hf Hl; [cbn in Hf; lia|..|cbn in Hf; lia|].
  - cbn [fmap list_fmap concat app]. replace (replicate 9 0) with (put32bit bld 0 ++ put8bit bld 0 ++ put32bit bld 0) by (by destruct bld). rewrite <-!app_assoc. cbn [load_loop].
    assert (Hlen : (length (put32bit bld 0 ++ put8bit bld 0 ++ put32bit bld 0 ++ rest) <? 9)%nat = false).
    { apply Nat.ltb_ge. rewrite !length_app, !put32bit_be, !length_be_bytes. cbn. lia. }
    rewrite Hlen, get32_put32. cbn [mbind option_bind]. rewrite get8_put8. cbn [mbind option_bind]. rewrite get32_put32. done.
  - apply Forall_cons in Hl as [(Hp & Hi & Hi0 & Hfl) Hl]. cbn [fmap list_fmap concat load_pairs fst snd] in *. rewrite <-app_assoc, (load_step fuel ign last i p) by done.
    apply IH; [cbn in Hf; lia|]. eapply Forall_impl; [exact Hl|]. intros x (? & ? & ? & ?). split_and!; try done. by apply (load_pair_flags last i p s).
Qed.

(** Reading the pairs of a node. *)
Definition add_strings (D : dict) (ps : list xattrpair) : dict := foldl (λ D p, dict_insert p.2 (dict_insert p.1 D)) D ps.

Lemma add_strings_ok ps : ∀ D R, dict_ok D R → dict_ok (add_strings D ps) (λ d, R d + occ d ps).
Proof.
  induction ps as [|p ps IH]; intros D R H; [eapply dict_ok_ext; [exact H|]; intros d; rewrite occ_nil; lia|].
  eapply dict_ok_ext; [apply IH, insert_ok, insert_ok, H|]. intros d. cbn beta. rewrite occ_cons, occ1_at. lia.
Qed.

Lemma load_more i ps : ∀ cur s, xt_tab s !! i = Some cur →
  load_pairs i (pair i <$> ps) s = mk_xattrs (<[i := cur ++ ps]> (xt_tab s)) (add_strings (xt_dict s) ps) (xt_flags s).
Proof.
  induction ps as [|p ps IH]; intros cur s Hc.
  - rewrite app_nil_r. destruct s as [tab D fl]. cbn in *. by rewrite insert_id.
  - cbn [fmap list_fmap load_pairs]. unfold load_pair. rewrite Z.eqb_refl. rewrite (IH (cur ++ [p])) by (cbn; by rewrite Hc, lookup_insert_eq).
    cbn. by rewrite insert_insert_eq, <-app_assoc.
Qed.

Lemma load_node last i ps s : xt_tab s !! i = None → last ≠ i → ps ≠ [] → load_pairs last (pair i <$> ps) s =
  mk_xattrs (<[i := ps]> (xt_tab s)) (add_strings (xt_dict s) ps) (fs_set_xattrflag i (xt_flags s)).
Proof.
  intros Hi Hl Hne. destruct ps as [|p ps]; [done|]. cbn [fmap list_fmap load_pairs]. unfold load_pair.
  rewrite (proj2 (Z.eqb_neq i last)), Hi by congruence. cbn [xt_tab xt_dict xt_flags]. rewrite lookup_insert_eq. cbn [default from_option id app].
  rewrite (load_more i ps [p]) by (cbn; by rewrite lookup_insert_eq). cbn. by rewrite !insert_insert_eq.
Qed.

Lemma load_pairs_app a i b : ∀ last s, load_pairs last ((pair i <$> a) ++ b) s = load_pairs (match a with [] => last | _ => i end) b (load_pairs last (pair i <$> a) s).
Proof.
  induction a as [|p a IH]; intros last s; [done|]. cbn [fmap list_fmap app load_pairs]. rewrite IH. by destruct a.
Qed.

Lemma load_nodes order : ∀ last s, xattrs_ok s → NoDup order.*1 → Forall (λ e, pairs_ok e.2) order → last ∉ order.*1 →
  (∀ i, i ∈ order.*1 → xt_tab s !! i = None ∧ is_Some (xt_flags s !! i)) →
  let s' := load_pairs last (flat order) s in xattrs_ok s' ∧ (∀ j ps, xt_tab s' !! j = Some ps ↔ (j, ps) ∈ order ∨ xt_tab s !! j = Some ps)
  ∧ ∀ j, xt_flags s' !! j = if decide (j ∈ order.*1) then Some true else xt_flags s !! j.
Proof.
  induction order as [|[i ps] order IH]; intros last s Hs Hnd Hok Hlast Hfree s'.
  { split; [exact Hs|]. split; [|done]. intros j qs. cbn. split; [by right|]. by intros [?%elem_of_nil|]. }
  apply NoDup_cons in Hnd as [Hni Hnd]. apply Forall_cons in Hok as [Hps Hok]. cbn [fst snd fmap list_fmap] in *.
  destruct (Hfree i ltac:(by left)) as [Hti [b Hfi]]. apply not_elem_of_cons in Hlast as [Hli Hlast].
  set (s1 := mk_xattrs (<[i := ps]> (xt_tab s)) (add_strings (xt_dict s) ps) (fs_set_xattrflag i (xt_flags s))).
  assert (Hs' : s' = load_pairs i (flat order) s1).
  { unfold s', flat. cbn [fmap list_fmap concat fst snd]. rewrite load_pairs_app, load_node by (done || apply Hps). destruct ps; [by destruct (po_ne _ Hps)|done]. }
  assert (Hfl : ∀ j, xt_flags s1 !! j = if decide (j = i) then Some true else xt_flags s !! j).
  { intros j. cbn. unfold fs_set_xattrflag. rewrite Hfi. destruct (decide (j = i)) as [->|]; [by rewrite lookup_insert_eq|by rewrite lookup_insert_ne]. }
  assert (Hs1 : xattrs_ok s1).
  { apply put_ok; [done|done| |].
    - eapply dict_ok_ext; [apply add_strings_ok, (xo_dict s Hs)|]. intros d. cbn beta. rewrite Hti. cbn [default from_option id]. rewrite occ_nil. lia.
    - intros j. assert (Hj := Hfl j). unfold s1 in Hj. cbn [xt_flags] in Hj. rewrite Hj. destruct (decide (j = i)); [split; intros; [by left|done]|split; [by right|intros [|]; done]]. }
  destruct (IH i s1 Hs1 Hnd Hok Hni) as (Hk & Ht & Hf).
  { intros j Hj. assert (Hji : j ≠ i) by (by intros ->). destruct (Hfree j ltac:(by right)). split; [cbn; by rewrite lookup_insert_ne|]. rewrite Hfl. by rewrite decide_False. }
  rewrite <-Hs' in Hk, Ht, Hf. split; [exact Hk|]. split.
  - intros j qs. rewrite Ht. cbn [xt_tab s1]. rewrite elem_of_cons. destruct (decide (j = i)) as [->|Hne].
    + rewrite lookup_insert_eq, Hti. split; [intros [Hin|[= ->]]; [left; by right|left; by left]|].
      intros [[[= <-]|Hin]|]; [by right|by left|done].
    + rewrite lookup_insert_ne by done. split; [intros [?|?]; [left; by right|by right]|]. intros [[[= ? ?]|?]|?]; [done|by left|by right].
  - intros j. rewrite Hf, Hfl. destruct (decide (j ∈ order.*1)) as [Hj|Hj]; [by rewrite decide_True by by right|].
    destruct (decide (j = i)) as [->|Hne]; [by rewrite decide_True by by left|]. rewrite decide_False; [done|]. by intros [|]%elem_of_cons.
Qed.

(** The start of a load: the nodes, without attributes. *)
Definition no_xattrs (s : xattrs) : xattrs := mk_xattrs ∅ ∅ ((λ _, false) <$> xt_flags s).

Lemma no_xattrs_ok s : xattrs_ok (no_xattrs s).
Proof.
  split; cbn.
  - intros d. unfold refs. rewrite map_sum_empty. cbn. split; [done|apply lookup_empty].
  - intros i ps H. by rewrite lookup_empty in H.
  - intros i. rewrite lookup_empty, lookup_fmap. split; [by intros [? ?]|]. by destruct (xt_flags s !! i).
Qed.

Lemma store_flat order : xattr_store bld order = concat ((λ ip : Z * xattrpair, store_pair bld ip.1 ip.2) <$> flat order) ++ replicate 9 0.
Proof.
  unfold xattr_store, flat. f_equal. induction order as [|[i ps] order IH]; [done|]. cbn [fmap list_fmap concat fst snd].
  rewrite fmap_app, concat_app, <-IH. f_equal. clear IH. induction ps as [|p ps IHp]; [done|]. cbn [fmap list_fmap concat fst snd]. by rewrite <-IHp.
Qed.

Lemma load_stored_xattrs order s ign rest : xattrs_ok s → order ≡ₚ map_to_list (xt_tab s) → (∀ i, is_Some (xt_tab s !! i) → is_u32 i ∧ i ≠ 0) →
  xattr_load bld' ign (xattr_store bld order ++ rest) (no_xattrs s) = Some (1, s).
Proof.
  intros Hs Hord Hi.
  assert (Hfb : ∀ i b, xt_flags s !! i = Some b → b = bool_decide (is_Some (xt_tab s !! i))).
  { intros i b Hb. assert (H := xo_flags s Hs i). rewrite Hb in H. symmetry. destruct b; [by apply bool_decide_eq_true, H|].
    apply bool_decide_eq_false. intros H'. by apply H in H'. }
  assert (Hin : ∀ i ps, (i, ps) ∈ order ↔ xt_tab s !! i = Some ps).
  { intros i ps. rewrite Hord. apply elem_of_map_to_list. }
  assert (Hkeys : ∀ i, i ∈ order.*1 ↔ is_Some (xt_tab s !! i)).
  { intros i. split.
    - intros [[j ps] [-> H]]%list_elem_of_fmap. apply Hin in H. by eexists.
    - intros [ps H]. apply list_elem_of_fmap. exists (i, ps). split; [done|by apply Hin]. }
  assert (Hnode : ∀ i, i ∈ order.*1 → is_Some (xt_flags (no_xattrs s) !! i)).
  { intros i H%Hkeys. apply (xo_flags s Hs) in H. cbn. rewrite lookup_fmap, H. by eexists. }
  destruct (load_nodes order 0 (no_xattrs s)) as (Hk & Ht & Hf).
  - apply no_xattrs_ok.
  - rewrite Hord. apply NoDup_fst_map_to_list.
  - apply Forall_forall. intros [i ps] H. apply Hin in H. by apply (xo_pairs s Hs i).
  - intros H%Hkeys. by destruct (Hi 0 H).
  - intros i H. split; [apply lookup_empty|by apply Hnode].
  - assert (Hload : xattr_load bld' ign (xattr_store bld order ++ rest) (no_xattrs s) = Some (1, load_pairs 0 (flat order) (no_xattrs s))).
    { unfold xattr_load. rewrite store_flat, <-app_assoc. apply load_all_pairs.
      - rewrite length_app. assert (H : ∀ l, (length l ≤ length (concat ((λ ip : Z * xattrpair, store_pair bld ip.1 ip.2) <$> l)))%nat).
        { assert (Hp : ∀ i p, (1 ≤ length (store_pair bld i p))%nat).
          { intros i p. unfold store_pair, xattr_header. rewrite !length_app, !put32bit_be, !length_be_bytes. lia. }
          intros l. induction l as [|[i p] l IHl]; cbn [fmap list_fmap concat length fst snd]; [lia|]. rewrite length_app. specialize (Hp i p). lia. }
        specialize (H (flat order)). lia.
      - apply Forall_forall. intros [i p] H. cbn [fst snd]. unfold flat in H. apply list_elem_of_In, in_concat in H as (l & H & Hp). apply list_elem_of_In in H, Hp.
        apply list_elem_of_fmap in H as ([j ps] & -> & H). cbn in Hp. apply list_elem_of_fmap in Hp as (q & [= -> ->] & Hq).
        assert (Htj : xt_tab s !! j = Some ps) by by apply Hin. destruct (Hi j ltac:(by eexists)).
        split; [exact (proj1 (Forall_forall _ _) (po_pairs _ (xo_pairs s Hs _ _ Htj)) q Hq)|]. split; [done|]. split; [done|].
        apply Hnode, Hkeys. by eexists. }
    rewrite Hload. do 2 f_equal. set (s' := load_pairs 0 (flat order) (no_xattrs s)) in *.
    assert (Htab : xt_tab s' = xt_tab s).
    { apply map_eq. intros j. apply option_eq. intros ps. rewrite Ht, Hin. cbn. rewrite lookup_empty. split; [by intros [|]|by left]. }
    assert (Hdict : xt_dict s' = xt_dict s).
    { eapply dict_unique; [apply (xo_dict s' Hk)|apply (xo_dict s Hs)|]. intros d. cbn beta. by rewrite Htab. }
    assert (Hflags : xt_flags s' = xt_flags s).
    { apply map_eq. intros j. rewrite Hf. destruct (decide (j ∈ order.*1)) as [Hj|Hj].
      - apply Hkeys, (xo_flags s Hs) in Hj. done.
      - cbn. rewrite lookup_fmap. destruct (xt_flags s !! j) as [b|] eqn:Hb; [|done]. cbn. apply Hfb in Hb as ->. rewrite bool_decide_false; [done|].
        intros H. by apply Hj, Hkeys. }
    destruct s' as [tab D fl], s as [tab0 D0 fl0]. cbn in *. by subst.
Qed.

End image.

(** C29: the attributes of all nodes, with the counts of the dictionary and the flags of
    the nodes, are the same after they were stored in the image, in any order of the
    nodes, and loaded by any build. *)
Theorem xattr_image_roundtrip bld bld' order s ign rest : xattrs_ok s → order ≡ₚ map_to_list (xt_tab s) →
  (∀ i, is_Some (xt_tab s !! i) → is_u32 i ∧ i ≠ 0) →
  xattr_load bld' ign (xattr_store bld order ++ rest) (no_xattrs s) = Some (1, s).
Proof. apply load_stored_xattrs. Qed.

Lemma xattr_image_roundtrip_witness : xattr_load FastLE true (xattr_store Portable [(7, [([117; 46; 97], [1; 2])])] ++ [9]) (no_xattrs ex_xattrs) = Some (1, ex_xattrs).
Proof.
  apply (xattr_image_roundtrip Portable FastLE [(7, [([117; 46; 97], [1; 2])])] ex_xattrs true [9] ex_xattrs_ok).
  - cbn. by rewrite map_to_list_singleton.
  - intros i [ps H]. cbn in H. apply lookup_singleton_Some in H as [<- _]. unfold is_u32. lia.
Defined.

(** ** All attributes as a buffer *)

Section buffers.
Variable bld bld' : build.

Lemma get_pair_put p r : pair_ok p → get_pair bld' (put_pair bld p ++ r) = Some (p, r).
Proof.
  intros [Hn Hv _]. unfold MFS_XATTR_SIZE_MAX in Hv. destruct p as [name value]. cbn [fst snd] in *. unfold get_pair, put_pair. cbn [fst snd]. rewrite <-!app_assoc.
  rewrite get8_put8. cbn [mbind option_bind]. rewrite Z.mod_small by lia. rewrite Nat2Z.id, take_app_length, drop_app_length.
  rewrite get32_put32. cbn [mbind option_bind]. rewrite Z.mod_small by lia. rewrite Nat2Z.id.
  rewrite (proj2 (Nat.ltb_ge _ _)) by (rewrite length_app; lia). by rewrite take_app_length, drop_app_length.
Qed.

Lemma check_pair_put p r leng : pair_ok p → leng = Z.of_nat (length (put_pair bld p ++ r)) → check_pair bld' (put_pair bld p ++ r) leng = Some (p, r, Z.of_nat (length r)).
Proof.
  intros [Hn Hv _] ->. unfold MFS_XATTR_SIZE_MAX in Hv. destruct p as [name value]. cbn [fst snd] in *. unfold check_pair, put_pair. cbn [fst snd]. rewrite <-!app_assoc.
  assert (Hlen : Z.of_nat (length (put8bit bld (Z.of_nat (length name)) ++ name ++ put32bit bld (Z.of_nat (length value)) ++ value ++ r))
    = 1 + Z.of_nat (length name) + 4 + Z.of_nat (length value) + Z.of_nat (length r)).
  { rewrite !length_app, put32bit_be, length_be_bytes. cbn [length put8bit]. lia. }
  rewrite Hlen, get8_put8, (proj2 (Z.ltb_ge _ 1)) by lia. cbn [mbind option_bind]. rewrite Z.mod_small by lia.
  rewrite (proj2 (Z.ltb_ge _ (Z.of_nat (length name)))) by lia. rewrite Nat2Z.id, take_app_length, drop_app_length.
  rewrite (proj2 (Z.ltb_ge _ 4)) by lia. rewrite get32_put32. cbn [mbind option_bind]. rewrite Z.mod_small by lia.
  rewrite (proj2 (Z.ltb_ge _ (Z.of_nat (length value)))) by lia. rewrite Nat2Z.id, take_app_length, drop_app_length. do 2 f_equal. lia.
Qed.

Lemma setall_spec l : ∀ rest old new D R, Forall pair_ok l → dict_ok D R → (∀ d, occ d old ≤ R d) → ∃ old' D',
  setall_loop bld' (length l) (concat (put_pair bld <$> l) ++ rest) old new D = Some (old', new ++ l, D')
  ∧ (old = [] → old' = []) ∧ dict_ok D' (λ d, R d - occ d old + occ d old' + occ d l) ∧ ∀ d, occ d old' ≤ R d - occ d old + occ d old' + occ d l.
Proof.
  induction l as [|p l IH]; intros rest old new D R Hl HD Ho.
  { exists old, D. rewrite app_nil_r. split; [done|]. split; [done|]. split; [eapply dict_ok_ext; [exact HD|]|]; intros d; cbn beta; specialize (Ho d); rewrite occ_nil; lia. }
  apply Forall_cons in Hl as [Hp Hl]. cbn [length fmap list_fmap concat setall_loop]. rewrite <-app_assoc, get_pair_put by done. cbn [mbind option_bind].
  destruct p as [name value]. assert (Hat : ∀ x d, 0 ≤ at_ x d) by (intros x d; unfold at_; destruct (bool_decide _); cbn; lia).
  assert (Hf := find_pair_spec name old). destruct (find_pair name old) as [[[pre v] post]|].
  - destruct Hf as [-> _]. assert (Hc : ∀ d, occ d (pre ++ (name, v) :: post) = occ d (pre ++ post) + at_ name d + at_ v d) by (intros d; apply occ_split).
    destruct (dec_ok _ _ name (insert_ok _ _ name HD)) as (D1 & -> & H1).
    { rewrite at_eq. assert (H := proj1 (HD name)). lia. }
    cbn [mbind option_bind]. destruct (replace_ok D1 _ v value H1) as (D2 & -> & H2).
    { assert (H := Ho v). rewrite Hc, at_eq in H. assert (Ha := Hat name v). assert (Hb := occ_nonneg v (pre ++ post)). lia. }
    cbn [mbind option_bind]. destruct (IH rest (pre ++ post) (new ++ [(name, value)]) D2 _ Hl H2) as (old' & D' & -> & _ & HD' & Ho').
    { intros d. cbn beta. specialize (Ho d). rewrite Hc in Ho. assert (Ha := Hat value d). assert (Hb := Hat name d). lia. }
    exists old', D'. split; [by rewrite <-app_assoc|]. split; [intros H; by apply app_eq_nil in H as [_ ?]|]. split.
    + eapply dict_ok_ext; [exact HD'|]. intros d. cbn beta. rewrite Hc, occ_cons, occ1_at. cbn. lia.
    + intros d. specialize (Ho' d). cbn beta in Ho'. rewrite Hc, occ_cons, occ1_at. cbn. lia.
  - destruct (IH rest old (new ++ [(name, value)]) _ _ Hl (insert_ok _ _ value (insert_ok _ _ name HD))) as (old' & D' & -> & Hnil & HD' & Ho').
    { intros d. cbn beta. specialize (Ho d). assert (Ha := Hat value d). assert (Hb := Hat name d). lia. }
    exists old', D'. split; [by rewrite <-app_assoc|]. split; [done|]. split.
    + eapply dict_ok_ext; [exact HD'|]. intros d. cbn beta. rewrite occ_cons, occ1_at. cbn. lia.
    + intros d. specialize (Ho' d). cbn beta in Ho'. rewrite occ_cons, occ1_at. cbn. lia.
Qed.

(** The pairs of a node. *)
Definition pairs_of (s : xattrs) (i : Z) : list xattrpair := default [] (xt_tab s !! i).

Lemma pairs_of_ok s i : xattrs_ok s → Forall pair_ok (pairs_of s i) ∧ NoDup (pairs_of s i).*1 ∧ 2 * Z.of_nat (length (pairs_of s i)) ≤ MFS_XATTR_LIST_MAX.
Proof.
  intros Hs. unfold pairs_of. destruct (xt_tab s !! i) as [ps|] eqn:Ht; cbn; [|by split; [constructor|split; [constructor|]]].
  destruct (xo_pairs s Hs _ _ Ht) as [_ Hnd Hp Ht']. split; [done|]. split; [done|].
  assert (H : 2 * Z.of_nat (length ps) ≤ total ps); [|lia]. clear -Hp. induction Hp as [|p ps [Hn _ _] _ IH]; [done|]. rewrite total_cons. cbn [length]. lia.
Qed.

Lemma getall_blob s i : (xattr_getall bld i s).2 = put16bit bld (u16 (Z.of_nat (length (pairs_of s i)))) ++ concat (put_pair bld <$> pairs_of s i).
Proof. done. Qed.

Lemma getall_length s i : xattrs_ok s → (xattr_getall bld i s).1 = Z.of_nat (length (xattr_getall bld i s).2).
Proof.
  intros Hs. destruct (pairs_of_ok s i Hs) as (Hp & _ & Hlen). rewrite getall_blob. unfold xattr_getall. cbn [fst]. fold (pairs_of s i).
  rewrite length_app, put16bit_be, length_be_bytes. unfold MFS_XATTR_LIST_MAX in Hlen. rewrite Nat2Z.inj_add. change (Z.of_nat 2) with 2.
  assert (H : ∀ ps n, Forall pair_ok ps → 0 ≤ n → n + Z.of_nat (length ps) * 66000 < 2 ^ 32 →
    foldl (λ leng p, u32 (leng + (1 + Z.of_nat (length p.1) + 4 + Z.of_nat (length p.2)))) n ps = n + Z.of_nat (length (concat (put_pair bld <$> ps)))).
  { clear. intros ps. induction ps as [|p ps IH]; intros n Hp Hn Hb; [cbn; lia|]. apply Forall_cons in Hp as [[Hnm Hv _] Hp]. unfold MFS_XATTR_SIZE_MAX in Hv.
    cbn [foldl fmap list_fmap concat length] in *. rewrite u32_small by (unfold is_u32; lia). rewrite IH by (done || lia).
    rewrite length_app. unfold put_pair at 2. rewrite !length_app, put32bit_be, length_be_bytes. cbn [length put8bit]. lia. }
  apply H; [done|lia|lia].
Qed.

Lemma count_same_spec p ps : NoDup ps → ∀ c, 0 ≤ c → c + 1 < 2 ^ 16 → count_same p ps c = c + Z.b2z (bool_decide (p ∈ ps)).
Proof.
  assert (Hno : ∀ ps c, p ∉ ps → count_same p ps c = c).
  { intros qs. induction qs as [|q qs IH]; intros c H; [done|]. apply not_elem_of_cons in H as [Hq H]. unfold count_same in *. cbn [foldl].
    rewrite decide_False by congruence. by apply IH. }
  induction 1 as [|q qs Hq Hnd IH]; intros c Hc Hb; [by rewrite bool_decide_false by (by apply not_elem_of_nil); cbn; lia|]. unfold count_same in *. cbn [foldl]. destruct (decide (q = p)) as [->|Hne].
  - rewrite Hno by done. rewrite bool_decide_true by by left. unfold u16. rewrite Z.mod_small by lia. done.
  - rewrite IH by done. f_equal. f_equal. apply bool_decide_ext. rewrite elem_of_cons. split; [by right|intros [|]; [congruence|done]].
Qed.

Lemma check_loop_spec l ps cnt : ∀ i c r, Forall pair_ok l → NoDup ps → 0 ≤ c ≤ i → i + Z.of_nat (length l) < 2 ^ 16 →
  (u16 (Z.of_nat (length ps)) =? cnt) = true → ∃ c',
  check_loop bld' (length l) i cnt (concat (put_pair bld <$> l) ++ r) (Z.of_nat (length (concat (put_pair bld <$> l) ++ r))) (Some ps) c = Some (c', Z.of_nat (length r))
  ∧ c' ≤ i + Z.of_nat (length l) ∧ (c' = i + Z.of_nat (length l) ↔ c = i ∧ Forall (λ p, p ∈ ps) l).
Proof.
  induction l as [|p l IH]; intros i c r Hl Hnd Hc Hb Hcnt.
  { exists c. split; [done|]. cbn [length]. split; [lia|]. split; [intros; split; [lia|constructor]|intros [-> _]; lia]. }
  apply Forall_cons in Hl as [Hp Hl]. cbn [length fmap list_fmap concat check_loop] in *. rewrite <-app_assoc, check_pair_put by done. cbn [mbind option_bind]. rewrite Hcnt. cbn [andb].
  set (c1 := if i =? c then count_same p ps c else c).
  assert (Hc1 : 0 ≤ c1 ≤ i + 1 ∧ (c1 = i + 1 ↔ c = i ∧ p ∈ ps)).
  { unfold c1. destruct (Z.eqb_spec i c) as [->|Hne].
    - rewrite count_same_spec by (done || lia).
      destruct (bool_decide_reflect (p ∈ ps)) as [Hin|Hin]; cbn [Z.b2z]; (split; [lia|split; [intros; split; [done|lia || done]|intros [_ H]; lia || by destruct Hin]]).
    - split; [lia|]. split; [lia|]. intros [-> _]. by destruct Hne. }
  destruct (IH (i + 1) c1 r Hl Hnd ltac:(lia) ltac:(lia) Hcnt) as (c' & -> & Hle & Hiff). exists c'. split; [done|]. split; [lia|].
  rewrite Forall_cons. replace (i + Z.of_nat (S (length l))) with (i + 1 + Z.of_nat (length l)) by lia. rewrite Hiff. destruct Hc1 as [_ H1]. rewrite H1. tauto.
Qed.

Lemma same_pairs (l ps : list xattrpair) : NoDup l → length l = length ps → Forall (λ p, p ∈ ps) l ↔ l ≡ₚ ps.
Proof.
  intros Hnd Hlen. split.
  - intros Hall. apply submseteq_length_Permutation; [|lia]. apply NoDup_submseteq; [done|]. intros p Hp. by apply (proj1 (Forall_forall _ _) Hall).
  - intros Hp. apply Forall_forall. intros p Hi. by rewrite <-Hp.
Qed.

Lemma check_loop_other l entry cnt : match entry with Some ps => u16 (Z.of_nat (length ps)) =? cnt | None => false end = false →
  ∀ i c r, Forall pair_ok l →
  check_loop bld' (length l) i cnt (concat (put_pair bld <$> l) ++ r) (Z.of_nat (length (concat (put_pair bld <$> l) ++ r))) entry c = Some (c, Z.of_nat (length r)).
Proof.
  intros Hcnt. induction l as [|p l IH]; intros i c r Hl; [done|]. apply Forall_cons in Hl as [Hp Hl].
  cbn [length fmap list_fmap concat check_loop]. rewrite <-app_assoc, check_pair_put by done. cbn [mbind option_bind].
  destruct entry as [ps|]; [rewrite Hcnt; cbn [andb]|]; by apply IH.
Qed.

Lemma get_count n r : Z.of_nat n < 2 ^ 16 → get16bit bld' (put16bit bld (u16 (Z.of_nat n)) ++ r) = Some (Z.of_nat n, r).
Proof. intros H. rewrite get16_put16. unfold u16. rewrite Zmod_mod, Z.mod_small by lia. done. Qed.

Lemma check_transfer s src dst : xattrs_ok s → let blob := (xattr_getall bld src s).2 in
  xattr_check bld' dst blob s = (if bool_decide (pairs_of s src ≡ₚ pairs_of s dst) then 1 else 0, Z.of_nat (length blob)).
Proof.
  intros Hs blob. destruct (pairs_of_ok s src Hs) as (Hp & Hnd & Hlen). destruct (pairs_of_ok s dst Hs) as (_ & Hnd' & Hlen').
  unfold MFS_XATTR_LIST_MAX in *. assert (Hblob := getall_blob s src). fold blob in Hblob. clearbody blob.
  set (l := pairs_of s src) in *. set (data := concat (put_pair bld <$> l) ++ []).
  assert (Hbl : Z.of_nat (length blob) = 2 + Z.of_nat (length data)).
  { unfold data. rewrite Hblob, length_app, put16bit_be, length_be_bytes, app_nil_r. lia. }
  assert (Hget : get16bit bld' blob = Some (Z.of_nat (length l), data)).
  { unfold data. rewrite Hblob, app_nil_r. apply get_count. lia. }
  unfold xattr_check. rewrite (proj2 (Z.ltb_ge _ 2)) by lia. rewrite Hget, Nat2Z.id.
  replace (Z.of_nat (length blob) - 2) with (Z.of_nat (length data)) by lia. unfold data in *.
  destruct (match xt_tab s !! dst with Some ps => u16 (Z.of_nat (length ps)) =? Z.of_nat (length l) | None => false end) eqn:Hcnt.
  - unfold pairs_of in Hnd', Hlen' |- *. destruct (xt_tab s !! dst) as [ps|]; [|done]. cbn [default id] in *.
    destruct (check_loop_spec l ps (Z.of_nat (length l)) 0 0 [] Hp (NoDup_fmap_1 _ _ Hnd') ltac:(lia) ltac:(lia) Hcnt) as (c' & -> & _ & Hiff).
    rewrite Hcnt, andb_true_r. f_equal; [|cbn; lia]. apply Z.eqb_eq in Hcnt. unfold u16 in Hcnt. rewrite Z.mod_small in Hcnt by lia.
    rewrite Z.add_0_l, same_pairs in Hiff by (by apply (NoDup_fmap_1 fst) || lia).
    destruct (Z.eqb_spec c' (Z.of_nat (length l))) as [Hc|Hc]; [rewrite bool_decide_true by tauto|rewrite bool_decide_false by tauto]; done.
  - rewrite (check_loop_other l _ _ Hcnt 0 0 [] Hp). f_equal; [|cbn; lia].
    unfold pairs_of. destruct (xt_tab s !! dst) as [ps|]; cbn [default id] in *.
    + rewrite Hcnt, andb_false_r, bool_decide_false; [done|]. intros H%Permutation_length. apply Z.eqb_neq in Hcnt. apply Hcnt. rewrite H.
      unfold u16. rewrite Z.mod_small; [done|]. lia.
    + cbn [length]. change (u16 (Z.of_nat 0)) with 0. destruct l as [|p l]; [done|]. rewrite bool_decide_false; [done|].
      intros H%Permutation_length. done.
Qed.

(** The pairs of one node are written over another node. *)
Lemma set_transfer s src dst : xattrs_ok s → is_Some (xt_flags s !! dst) → ∃ s',
  set_xattrs bld' dst (xattr_getall bld src s).2 s = Some s' ∧ xattrs_ok s' ∧ ∀ i, pairs_of s' i = if decide (i = dst) then pairs_of s src else pairs_of s i.
Proof.
  intros Hs Hdst. destruct (pairs_of_ok s src Hs) as (Hp & Hnd & Hlen). unfold MFS_XATTR_LIST_MAX in Hlen.
  rewrite getall_blob. set (l := pairs_of s src) in *. unfold set_xattrs, xattr_setall. rewrite get_count by lia. cbn [mbind option_bind].
  assert (Hl : l ≠ [] → pairs_ok l).
  { unfold l, pairs_of. intros H. destruct (xt_tab s !! src) as [ps|] eqn:Ht; [by apply (xo_pairs s Hs src)|done]. }
  assert (Hflt : ∀ j, <[dst := true]> (xt_flags s) !! j = Some true ↔ j = dst ∨ xt_flags s !! j = Some true).
  { intros j. destruct (decide (j = dst)) as [->|Hj]; [rewrite lookup_insert_eq; tauto|rewrite lookup_insert_ne by done; tauto]. }
  assert (Hflf : ∀ j, <[dst := false]> (xt_flags s) !! j = Some true ↔ j ≠ dst ∧ xt_flags s !! j = Some true).
  { intros j. destruct (decide (j = dst)) as [->|Hj]; [rewrite lookup_insert_eq; split; [by intros [=]|by intros []]|rewrite lookup_insert_ne by done; tauto]. }
  assert (Hput : ∀ D, l ≠ [] → dict_ok D (λ d, refs d (xt_tab s) - occ d (default [] (xt_tab s !! dst)) + occ d l) → ∃ s',
    Some (mk_xattrs (<[dst := l]> (xt_tab s)) D (<[dst := true]> (xt_flags s))) = Some s' ∧ xattrs_ok s' ∧ ∀ i, pairs_of s' i = if decide (i = dst) then l else pairs_of s i).
  { intros D Hne HD. eexists. split; [done|]. split; [by apply put_ok; auto|]. intros i. unfold pairs_of at 1. cbn [xt_tab].
    destruct (decide (i = dst)) as [->|Hi]; [by rewrite lookup_insert_eq|by rewrite lookup_insert_ne]. }
  assert (Hle : ∀ d, occ d (default [] (xt_tab s !! dst)) ≤ refs d (xt_tab s)).
  { intros d. destruct (xt_tab s !! dst) as [ps|] eqn:Ht; [by apply (refs_in d _ dst)|apply refs_nonneg]. }
  rewrite <-(app_nil_r (concat _)). destruct (setall_spec l [] (default [] (xt_tab s !! dst)) [] _ _ Hp (xo_dict s Hs) Hle) as (old' & D' & Hloop & Hnil & HD' & Ho').
  destruct (xt_tab s !! dst) as [ps|] eqn:Ht; cbn [default id] in *.
  - rewrite Nat2Z.id, Hloop. cbn [mbind option_bind]. destruct (cleanup_ok old' D' _ HD' Ho') as (D2 & -> & H2). cbn [mbind option_bind app].
    destruct (decide (l = [])) as [Hl0|Hl0].
    + rewrite bool_decide_true by done. cbn [mbind option_bind xt_tab xt_dict xt_flags]. eexists. split; [done|]. split.
      * apply drop_ok; [done| |done]. eapply dict_ok_ext; [exact H2|]. intros d. cbn beta. rewrite Ht, Hl0, occ_nil. cbn. lia.
      * intros i. unfold pairs_of at 1. cbn [xt_tab]. destruct (decide (i = dst)) as [->|Hi]; [by rewrite lookup_delete_eq, Hl0|by rewrite lookup_delete_ne].
    + rewrite bool_decide_false by done. cbn [mbind option_bind xt_tab xt_dict xt_flags]. apply Hput; [done|].
      eapply dict_ok_ext; [exact H2|]. intros d. cbn beta. lia.
  - destruct (decide (l = [])) as [Hl0|Hl0].
    + rewrite Hl0. cbn [length Z.of_nat Z.eqb mbind option_bind]. eexists. split; [done|]. split.
      * destruct Hs as [Hd Hps Hf]. split; cbn [xt_dict xt_tab xt_flags]; [done|done|]. intros j. rewrite Hflf, (Hf j). split; [|by intros []].
        intros H. split; [|done]. intros ->. apply Hf in H as []. congruence.
      * intros i. unfold pairs_of. cbn [xt_tab]. destruct (decide (i = dst)) as [->|Hi]; [by rewrite Ht|done].
    + rewrite (proj2 (Z.eqb_neq _ 0)) by (destruct l; [done|cbn [length]; lia]). rewrite Nat2Z.id, Hloop. cbn [mbind option_bind app xt_tab xt_dict xt_flags].
      apply Hput; [done|]. eapply dict_ok_ext; [exact HD'|]. intros d. cbn beta. rewrite Hnil by done. rewrite !occ_nil. lia.
Qed.
End buffers.

(** C28: the attributes of a node can be carried over as one buffer, by any build: the
    buffer has the length that is announced; written over another node, which is
    then well formed, it gives that node the same pairs in the same order and leaves
    every other node alone; and the comparison of the buffer with a node reads
    all of it and answers 1 exactly when the node has the same pairs in some order. *)
Theorem xattr_transfer bld bld' s src dst : xattrs_ok s → is_Some (xt_flags s !! dst) →
  let '(leng, blob) := xattr_getall bld src s in
  leng = Z.of_nat (length blob)
  ∧ xattr_check bld' dst blob s = (if bool_decide (pairs_of s src ≡ₚ pairs_of s dst) then 1 else 0, leng)
  ∧ ∃ s', set_xattrs bld' dst blob s = Some s' ∧ xattrs_ok s' ∧ ∀ i, pairs_of s' i = if decide (i = dst) then pairs_of s src else pairs_of s i.
Proof.
  intros Hs Hdst. assert (Hl := getall_length bld s src Hs). assert (Hc := check_transfer bld bld' s src dst Hs).
  assert (Hset := set_transfer bld bld' s src dst Hs Hdst). destruct (xattr_getall bld src s) as [leng blob]. cbn [fst snd] in *. subst leng. auto.
Qed.

Lemma xattr_transfer_witness : xattr_check FastLE 8 (xattr_getall Portable 7 ex_xattrs).2 ex_xattrs = (0, 12)
  ∧ ∃ s', set_xattrs FastLE 8 (xattr_getall Portable 7 ex_xattrs).2 ex_xattrs = Some s' ∧ pairs_of s' 8 = [([117; 46; 97], [1; 2])].
Proof.
  assert (H8 : is_Some (xt_flags ex_xattrs !! 8)) by by eexists.
  destruct (xattr_transfer Portable FastLE ex_xattrs 7 8 ex_xattrs_ok H8) as (_ & _ & s' & Hset & _ & Hp).
  split; [by vm_compute|]. exists s'. split; [exact Hset|]. by rewrite Hp.
Defined.
