(* ===== verification/ChunkFiles.v ===== *)
(** * The files of a chunk (chunks.c, storageclass.c)

    A chunk can belong to several files (snapshots share chunks) of several storage
    classes.  Each chunk counts its files by class: in [fhead] itself while there are at
    most four and all of one class, else in a list of counts of 24 bits, whose cells are
    elements of one big array with a list of the free ones.  From that count the master
    knows whether a write has to copy the chunk, when a chunk is unused, and the class
    that its copies are kept by.  [None] is a failed assertion, a read of a cell that
    was never written or of a chunk that is not there, a write beyond a buffer.

    The copies of a chunk and the chunk servers are not modelled: of the list of copies
    only whether there are any ([c_copies]) and the three numbers the counters of the
    classes use.  Calls of [chunk_priority_queue_check] are listed ([ck_checks]).  Of
    the handlers that also talk to chunk servers the replay is modelled ([mr] is 1). *)

From S2P Require Import Prelude MfsComm DataPack StorageClass.

#[global] Open Scope Z_scope.

(** ** The cells *)

Definition FLISTNULLINDX : Z := 0.
Definition FLISTONEFILEINDX : Z := 1.
Definition FLISTFIRSTINDX : Z := 5.
Definition FLISTMAXFCOUNT : Z := 0xFFFFFF.

Record flist := mk_flist { fl_fcount : Z; fl_sclassid : Z; fl_nexti : Z }.

(** [fl_cells] has the cells that were written.  The blocks of [flistmem] are not
    modelled: a cell that was handed out is in one. *)
Record flmem := mk_flmem { fl_cells : gmap Z flist; flistfirstfree : Z; flistfreehead : Z }.

Definition flist_init : flmem := mk_flmem ∅ FLISTFIRSTINDX FLISTNULLINDX.

Definition flist_get (indx : Z) (m : flmem) : option flist := fl_cells m !! indx.

Definition flist_put (indx : Z) (fl : flist) (m : flmem) : flmem :=
  mk_flmem (<[indx := fl]> (fl_cells m)) (flistfirstfree m) (flistfreehead m).

Definition flist_alloc (m : flmem) : option (Z * flmem) :=
  if flistfreehead m =? FLISTNULLINDX then
    Some (flistfirstfree m, mk_flmem (fl_cells m) (u32 (flistfirstfree m + 1)) (flistfreehead m))
  else
    let indx := flistfreehead m in
    fl ← flist_get indx m; Some (indx, mk_flmem (fl_cells m) (flistfirstfree m) (fl_nexti fl)).

Definition flist_free (indx : Z) (m : flmem) : option flmem :=
  fl ← flist_get indx m;
  Some (mk_flmem (<[indx := mk_flist (fl_fcount fl) (fl_sclassid fl) (flistfreehead m)]> (fl_cells m)) (flistfirstfree m) indx).

(** [*findxptr = next] where [findxptr] is the link of the cell [indx]. *)
Definition set_next (indx next : Z) (m : flmem) : option flmem :=
  fl ← flist_get indx m; Some (flist_put indx (mk_flist (fl_fcount fl) (fl_sclassid fl) next) m).

Definition set_count (indx fcount : Z) (m : flmem) : option flmem :=
  fl ← flist_get indx m; Some (flist_put indx (mk_flist fcount (fl_sclassid fl) (fl_nexti fl)) m).

(** Enough for any list without a cycle. *)
Definition list_fuel (m : flmem) : nat := S (size (fl_cells m)).

(** ** Classes *)

(** What the order of classes uses beside [storageclass]. *)
Record joining := mk_joining {
  jc_priority : Z; jc_keep_has_labels : bool; jc_arch_has_labels : bool; jc_trash_has_labels : bool; jc_trash_ec : Z }.

(** The six arrays of counters: all or only regular copies, the storage mode, class and
    flags, and the number of copies. *)
Abbreviation counters := (gmap (bool * Z * Z * Z) Z).

Section chunks.
Variable sclasstab : Z → storageclass.
Variable joiningtab : Z → joining.
Variable MaxECRedundancyLevel : Z.

Definition sclass_get_keeparch_max_goal_equivalent (sclassid : Z) : Z :=
  let sc := sclasstab sclassid in
  let parts := Z.land (ec_data_chksum_parts (sc_arch sc)) 0xF in
  let parts := if MaxECRedundancyLevel <? parts then MaxECRedundancyLevel else parts in
  if negb (parts =? 0) then
    if labelscnt (sc_keep sc) <=? parts then u8 (parts + 1) else labelscnt (sc_keep sc)
  else if labelscnt (sc_keep sc) <? labelscnt (sc_arch sc) then labelscnt (sc_arch sc) else labelscnt (sc_keep sc).

Definition sclass_get_joining_priority (sclassid : Z) : Z :=
  let j := joiningtab sclassid in
  let ret := jc_priority j in
  let ret := u64 (Z.shiftl ret 4) in
  let ret := u64 (ret + sclass_get_keeparch_max_goal_equivalent sclassid) in
  let ret := u64 (Z.shiftl ret 1) in
  let ret := if negb (Z.land (ec_data_chksum_parts (sc_arch (sclasstab sclassid))) 0xF =? 0) then u64 (ret + 1) else ret in
  let ret := u64 (Z.shiftl ret 1) in
  let ret := if jc_keep_has_labels j || jc_arch_has_labels j then u64 (ret + 1) else ret in
  let ret := u64 (Z.shiftl ret 1) in
  let ret := if negb (Z.land (jc_trash_ec j) 0xF =? 0) then u64 (ret + 1) else ret in
  let ret := u64 (Z.shiftl ret 1) in
  let ret := if jc_trash_has_labels j then u64 (ret + 1) else ret in
  let ret := u64 (Z.shiftl ret 8) in
  u64 (ret + sclassid).

(** ** Chunks *)

Definition FLAG_ARCH : Z := 1.
Definition FLAG_TRASH : Z := 2.
Definition FLAG_MASK : Z := 3.

Definition STORAGE_MODE_COPIES : Z := 0.
Definition STORAGE_MODE_EC8 : Z := 1.
Definition STORAGE_MODE_EC4 : Z := 2.

Definition LOCKTIMEOUT : Z := 120.

Record chunk := mk_chunk {
  c_version : Z; c_allowreadzeros : bool; c_sclassid : Z; c_flags : Z; c_fhead : Z; c_lockedto : Z;
  c_storage_mode : Z; c_all_gequiv : Z; c_reg_gequiv : Z; c_copies : bool }.

Definition set_version (v : Z) (c : chunk) : chunk :=
  mk_chunk (v mod 2 ^ 30) (c_allowreadzeros c) (c_sclassid c) (c_flags c) (c_fhead c) (c_lockedto c) (c_storage_mode c) (c_all_gequiv c)
    (c_reg_gequiv c) (c_copies c).
Definition set_readzeros (z : bool) (c : chunk) : chunk :=
  mk_chunk (c_version c) z (c_sclassid c) (c_flags c) (c_fhead c) (c_lockedto c) (c_storage_mode c) (c_all_gequiv c) (c_reg_gequiv c) (c_copies c).
Definition set_sclass (k : Z) (c : chunk) : chunk :=
  mk_chunk (c_version c) (c_allowreadzeros c) k (c_flags c) (c_fhead c) (c_lockedto c) (c_storage_mode c) (c_all_gequiv c) (c_reg_gequiv c) (c_copies c).
Definition set_flags (f : Z) (c : chunk) : chunk :=
  mk_chunk (c_version c) (c_allowreadzeros c) (c_sclassid c) f (c_fhead c) (c_lockedto c) (c_storage_mode c) (c_all_gequiv c) (c_reg_gequiv c)
    (c_copies c).
Definition set_fhead (h : Z) (c : chunk) : chunk :=
  mk_chunk (c_version c) (c_allowreadzeros c) (c_sclassid c) (c_flags c) h (c_lockedto c) (c_storage_mode c) (c_all_gequiv c) (c_reg_gequiv c)
    (c_copies c).
Definition set_lockedto (t : Z) (c : chunk) : chunk :=
  mk_chunk (c_version c) (c_allowreadzeros c) (c_sclassid c) (c_flags c) (c_fhead c) t (c_storage_mode c) (c_all_gequiv c) (c_reg_gequiv c) (c_copies c).

(** [lastchunkptr] is the number of the chunk it points to. *)
Record chunks := mk_chunks {
  ck_tab : gmap Z chunk; lastchunkid : Z; lastchunkptr : option Z; ck_mem : flmem; ck_counts : counters; ck_number : Z; nextchunkid : Z;
  ck_checks : list (Z * bool) }.

Definition with_tab (t : gmap Z chunk) (s : chunks) : chunks :=
  mk_chunks t (lastchunkid s) (lastchunkptr s) (ck_mem s) (ck_counts s) (ck_number s) (nextchunkid s) (ck_checks s).
Definition with_mem (m : flmem) (s : chunks) : chunks :=
  mk_chunks (ck_tab s) (lastchunkid s) (lastchunkptr s) m (ck_counts s) (ck_number s) (nextchunkid s) (ck_checks s).
Definition with_counts (n : counters) (s : chunks) : chunks :=
  mk_chunks (ck_tab s) (lastchunkid s) (lastchunkptr s) (ck_mem s) n (ck_number s) (nextchunkid s) (ck_checks s).
Definition with_last (id : Z) (p : option Z) (s : chunks) : chunks :=
  mk_chunks (ck_tab s) id p (ck_mem s) (ck_counts s) (ck_number s) (nextchunkid s) (ck_checks s).
Definition with_next (n : Z) (s : chunks) : chunks :=
  mk_chunks (ck_tab s) (lastchunkid s) (lastchunkptr s) (ck_mem s) (ck_counts s) (ck_number s) n (ck_checks s).
Definition with_number (n : Z) (s : chunks) : chunks :=
  mk_chunks (ck_tab s) (lastchunkid s) (lastchunkptr s) (ck_mem s) (ck_counts s) n (nextchunkid s) (ck_checks s).

Definition put_chunk (id : Z) (c : chunk) (s : chunks) : chunks := with_tab (<[id := c]> (ck_tab s)) s.

Definition chunk_priority_queue_check (id : Z) (checkpriority : bool) (s : chunks) : chunks :=
  mk_chunks (ck_tab s) (lastchunkid s) (lastchunkptr s) (ck_mem s) (ck_counts s) (ck_number s) (nextchunkid s) (ck_checks s ++ [(id, checkpriority)]).

Definition chunk_newfs : chunks := mk_chunks ∅ 0 None flist_init ∅ 0 1 [].

(** ** Counters of the classes *)

Definition counts_at (n : counters) (k : bool * Z * Z * Z) : Z := default 0 (n !! k).
Definition bump (k : bool * Z * Z * Z) (d : Z) (n : counters) : counters := <[k := u64 (counts_at n k + d)]> n.

Definition counted (mode : Z) : bool := (mode =? STORAGE_MODE_COPIES) || (mode =? STORAGE_MODE_EC8) || (mode =? STORAGE_MODE_EC4).

Definition sclass_indx (sclassid flags : Z) : Z := sclassid + MAXSCLASS * Z.land flags FLAG_MASK.
Definition at_most_10 (ge : Z) : Z := if 9 <? ge then 10 else ge.

Definition chunk_state_change (oldsclassid newsclassid oldflags newflags old_storage_mode new_storage_mode old_all_ge new_all_ge old_reg_ge new_reg_ge : Z)
    (n : counters) : counters :=
  let oldindx := sclass_indx oldsclassid oldflags in
  let newindx := sclass_indx newsclassid newflags in
  let n := if counted old_storage_mode then bump (false, old_storage_mode, oldindx, at_most_10 old_reg_ge) (-1)
             (bump (true, old_storage_mode, oldindx, at_most_10 old_all_ge) (-1) n) else n in
  if counted new_storage_mode then bump (false, new_storage_mode, newindx, at_most_10 new_reg_ge) 1
    (bump (true, new_storage_mode, newindx, at_most_10 new_all_ge) 1 n) else n.

Definition chunk_state_set_flags (id new_flags : Z) (s : chunks) : option chunks :=
  c ← ck_tab s !! id;
  let n := chunk_state_change (c_sclassid c) (c_sclassid c) (c_flags c) new_flags (c_storage_mode c) (c_storage_mode c) (c_all_gequiv c)
             (c_all_gequiv c) (c_reg_gequiv c) (c_reg_gequiv c) (ck_counts s) in
  Some (put_chunk id (set_flags (Z.land new_flags 3) c) (with_counts n s)).

Definition chunk_state_set_sclass (id new_sclassid : Z) (s : chunks) : option chunks :=
  c ← ck_tab s !! id;
  let n := chunk_state_change (c_sclassid c) new_sclassid (c_flags c) (c_flags c) (c_storage_mode c) (c_storage_mode c) (c_all_gequiv c)
             (c_all_gequiv c) (c_reg_gequiv c) (c_reg_gequiv c) (ck_counts s) in
  Some (put_chunk id (set_sclass new_sclassid c) (with_counts n s)).

(** Whether some chunk has this class: the test before a class is deleted. *)
Definition chunk_sclass_has_chunks (sclassid : Z) (s : chunks) : bool :=
  existsb (λ gr, existsb (λ i,
    negb (Z.lor (Z.lor (counts_at (ck_counts s) (true, STORAGE_MODE_COPIES, sclassid + MAXSCLASS * gr, i))
                       (counts_at (ck_counts s) (true, STORAGE_MODE_EC8, sclassid + MAXSCLASS * gr, i)))
                (counts_at (ck_counts s) (true, STORAGE_MODE_EC4, sclassid + MAXSCLASS * gr, i)) =? 0))
    (seqZ 0 11)) (seqZ 0 4).

(** ** The table *)

(** [None]: there is such a chunk already, and the table would have two. *)
Definition chunk_new (chunkid : Z) (s : chunks) : option chunks :=
  match ck_tab s !! chunkid with
  | Some _ => None
  | None =>
      let n := bump (false, STORAGE_MODE_COPIES, 0, 0) 1 (bump (true, STORAGE_MODE_COPIES, 0, 0) 1 (ck_counts s)) in
      Some (with_last chunkid (Some chunkid) (with_counts n (with_number (u32 (ck_number s + 1))
        (put_chunk chunkid (mk_chunk 0 false 0 0 FLISTNULLINDX 0 STORAGE_MODE_COPIES 0 0 false) s))))
  end.

Definition chunk_find (chunkid : Z) (s : chunks) : chunks * option Z :=
  if lastchunkid s =? chunkid then (s, lastchunkptr s)
  else match ck_tab s !! chunkid with
  | Some _ => (with_last chunkid (Some chunkid) s, Some chunkid)
  | None => (s, None)
  end.

Definition chunk_delete (id : Z) (s : chunks) : option chunks :=
  c ← ck_tab s !! id;
  let indx := sclass_indx (c_sclassid c) (c_flags c) in
  let s := if bool_decide (lastchunkptr s = Some id) then with_last 0 None s else s in
  let s := with_number (u32 (ck_number s - 1)) s in
  let n := if counted (c_storage_mode c) then bump (false, c_storage_mode c, indx, 0) (-1) (bump (true, c_storage_mode c, indx, 0) (-1) (ck_counts s))
           else ck_counts s in
  Some (with_tab (delete id (ck_tab s)) (with_counts n s)).

(** ** Counting files *)

(** The class of the list that comes first in the order of classes. *)
Fixpoint best_loop (fuel : nat) (findx sclassid bestpri : Z) (m : flmem) : option Z :=
  match fuel with
  | O => None
  | S fuel =>
      if findx =? FLISTNULLINDX then Some sclassid
      else
        fl ← flist_get findx m;
        let pri := sclass_get_joining_priority (fl_sclassid fl) in
        if bestpri <? pri then best_loop fuel (fl_nexti fl) (fl_sclassid fl) pri m
        else best_loop fuel (fl_nexti fl) sclassid bestpri m
  end.

Definition best_class (findx : Z) (m : flmem) : option Z :=
  sclassid ← best_loop (list_fuel m) findx 0 0 m; if 0 <? sclassid then Some sclassid else None.

Definition chunk_recalc_sclassid (id : Z) (s : chunks) : option chunks :=
  c ← ck_tab s !! id;
  if FLISTFIRSTINDX <=? c_fhead c then
    sclassid ← best_class (c_fhead c) (ck_mem s);
    if negb (sclassid =? c_sclassid c) then
      s ← chunk_state_set_sclass id sclassid s; Some (chunk_priority_queue_check id true s)
    else Some s
  else Some s.

(** The class, and the state with the list of one small count put back into [fhead]. *)
Definition chunk_compact_and_find_sclassid (id : Z) (s : chunks) : option (Z * chunks) :=
  c ← ck_tab s !! id;
  if c_fhead c <? FLISTFIRSTINDX then Some (if c_fhead c =? FLISTNULLINDX then 0 else c_sclassid c, s)
  else
    fl ← flist_get (c_fhead c) (ck_mem s);
    if fl_nexti fl =? FLISTNULLINDX then
      if fl_fcount fl <? FLISTFIRSTINDX then
        m ← flist_free (c_fhead c) (ck_mem s); Some (fl_sclassid fl, put_chunk id (set_fhead (fl_fcount fl) c) (with_mem m s))
      else Some (fl_sclassid fl, s)
    else sclassid ← best_class (c_fhead c) (ck_mem s); Some (sclassid, s).

(** The two new cells of a chunk whose files were all of the class [sclassid]. *)
Definition two_cells (sclassid fcount newsclassid : Z) (m : flmem) : option (Z * flmem) :=
  '(i, m) ← flist_alloc m; '(j, m) ← flist_alloc m;
  Some (i, flist_put j (mk_flist 1 newsclassid FLISTNULLINDX) (flist_put i (mk_flist fcount sclassid j) m)).

(** The walk along the links: the new value of the link, the cells, and the flags. *)
Fixpoint change_loop (fuel : nat) (prevsclassid newsclassid : Z) (fprev fnew : bool) (findx : Z) (m : flmem) : option (Z * flmem * bool * bool) :=
  match fuel with
  | O => None
  | S fuel =>
      if (fprev && fnew) || (findx =? FLISTNULLINDX) then Some (findx, m, fprev, fnew)
      else
        fl ← flist_get findx m;
        if (fl_sclassid fl =? prevsclassid) && negb fprev then
          if 1 <? fl_fcount fl then
            m ← set_count findx (fl_fcount fl - 1) m;
            '(next, m, fprev, fnew) ← change_loop fuel prevsclassid newsclassid true fnew (fl_nexti fl) m;
            m ← set_next findx next m; Some (findx, m, fprev, fnew)
          else
            m ← flist_free findx m; change_loop fuel prevsclassid newsclassid true fnew (fl_nexti fl) m
        else
          let inc := (fl_sclassid fl =? newsclassid) && (fl_fcount fl <? FLISTMAXFCOUNT) && negb fnew in
          m ← (if inc then set_count findx (fl_fcount fl + 1) m else Some m);
          '(next, m, fprev, fnew) ← change_loop fuel prevsclassid newsclassid fprev (if inc then true else fnew) (fl_nexti fl) m;
          m ← set_next findx next m; Some (findx, m, fprev, fnew)
  end.

(** A new cell at the head. *)
Definition push_cell (sclassid fhead : Z) (m : flmem) : option (Z * flmem) :=
  '(findx, m) ← flist_alloc m; Some (findx, flist_put findx (mk_flist 1 sclassid fhead) m).

Definition change_list (c : chunk) (prevsclassid newsclassid : Z) (m : flmem) : option (Z * flmem) :=
  if c_fhead c <? FLISTFIRSTINDX then
    if negb (prevsclassid =? c_sclassid c) then None else two_cells (c_sclassid c) (c_fhead c - 1) newsclassid m
  else
    '(fhead, m, fprev, fnew) ← change_loop (list_fuel m) prevsclassid newsclassid false false (c_fhead c) m;
    if negb fprev then None else if negb fnew then push_cell newsclassid fhead m else Some (fhead, m).

(** The end of each operation. *)
Definition set_new_class (id newsclassid : Z) (s : chunks) : option chunks :=
  c ← ck_tab s !! id; if negb (newsclassid =? c_sclassid c) then chunk_state_set_sclass id newsclassid s else Some s.

Definition chunk_change_file (chunkid prevsclassid newsclassid : Z) (s : chunks) : option (Z * chunks) :=
  if prevsclassid =? newsclassid then Some (MFS_STATUS_OK, s)
  else
    let '(s, found) := chunk_find chunkid s in
    match found with
    | None => Some (MFS_ERROR_NOCHUNK, s)
    | Some id =>
        c ← ck_tab s !! id;
        if c_fhead c =? FLISTNULLINDX then Some (MFS_ERROR_CHUNKLOST, s)
        else
          '(k, s) ← (if c_fhead c =? FLISTONEFILEINDX then Some (newsclassid, s)
            else
              '(fhead, m) ← change_list c prevsclassid newsclassid (ck_mem s);
              chunk_compact_and_find_sclassid id (put_chunk id (set_fhead fhead c) (with_mem m s)));
          c ← ck_tab s !! id;
          if negb (k =? c_sclassid c) then
            s ← chunk_state_set_sclass id k s; Some (MFS_STATUS_OK, chunk_priority_queue_check id true s)
          else Some (MFS_STATUS_OK, chunk_priority_queue_check id false s)
    end.

(** [None] inside: the class is not in the list. *)
Fixpoint delete_loop (fuel : nat) (sclassid findx : Z) (m : flmem) : option (option (Z * flmem)) :=
  match fuel with
  | O => None
  | S fuel =>
      if findx =? FLISTNULLINDX then Some None
      else
        fl ← flist_get findx m;
        if fl_sclassid fl =? sclassid then
          if 1 <? fl_fcount fl then m ← set_count findx (fl_fcount fl - 1) m; Some (Some (findx, m))
          else m ← flist_free findx m; Some (Some (fl_nexti fl, m))
        else
          r ← delete_loop fuel sclassid (fl_nexti fl) m;
          match r with
          | Some (next, m) => m ← set_next findx next m; Some (Some (findx, m))
          | None => Some None
          end
  end.

(** [now] is [main_time()]. *)
Definition chunk_delete_file_int (now : Z) (id sclassid delete_timeout : Z) (s : chunks) : option (Z * chunks) :=
  c ← ck_tab s !! id;
  if c_fhead c =? FLISTNULLINDX then Some (MFS_ERROR_CHUNKLOST, s)
  else if negb (0 <? sclassid) then None
  else
    '(k, s) ←
      (if c_fhead c =? FLISTONEFILEINDX then
         if negb (sclassid =? c_sclassid c) then None else Some (0, put_chunk id (set_fhead FLISTNULLINDX c) s)
       else if c_fhead c <? FLISTFIRSTINDX then
         if negb (sclassid =? c_sclassid c) then None else Some (c_sclassid c, put_chunk id (set_fhead (c_fhead c - 1) c) s)
       else
         r ← delete_loop (list_fuel (ck_mem s)) sclassid (c_fhead c) (ck_mem s);
         '(fhead, m) ← r;
         chunk_compact_and_find_sclassid id (put_chunk id (set_fhead fhead c) (with_mem m s)));
    s ← set_new_class id k s;
    c ← ck_tab s !! id;
    Some (MFS_STATUS_OK, if (c_fhead c =? FLISTNULLINDX) && (0 <? delete_timeout) then put_chunk id (set_lockedto (u32 (now + delete_timeout)) c) s else s).

(** Whether the count went into a cell of the list. *)
Fixpoint add_loop (fuel : nat) (sclassid findx : Z) (m : flmem) : option (bool * flmem) :=
  match fuel with
  | O => None
  | S fuel =>
      if findx =? FLISTNULLINDX then Some (false, m)
      else
        fl ← flist_get findx m;
        if (fl_sclassid fl =? sclassid) && (fl_fcount fl <? FLISTMAXFCOUNT) then
          m ← set_count findx (fl_fcount fl + 1) m; Some (true, m)
        else add_loop fuel sclassid (fl_nexti fl) m
  end.

Definition add_list (c : chunk) (sclassid : Z) (m : flmem) : option (Z * flmem) :=
  '(fhead, m) ←
    (if c_fhead c =? FLISTFIRSTINDX - 1 then
       '(findx, m) ← flist_alloc m; Some (findx, flist_put findx (mk_flist (c_fhead c) (c_sclassid c) FLISTNULLINDX) m)
     else Some (c_fhead c, m));
  '(found, m) ← add_loop (list_fuel m) sclassid fhead m;
  if negb found then push_cell sclassid fhead m else Some (fhead, m).

Definition chunk_add_file_int (id sclassid : Z) (s : chunks) : option (Z * chunks) :=
  if negb (0 <? sclassid) then None
  else
    c ← ck_tab s !! id;
    '(k, s) ←
      (if c_fhead c =? FLISTNULLINDX then Some (sclassid, put_chunk id (set_fhead FLISTONEFILEINDX c) s)
       else if c_fhead c <? FLISTFIRSTINDX - 1 then
         if sclassid =? c_sclassid c then Some (sclassid, put_chunk id (set_fhead (c_fhead c + 1) c) s)
         else
           '(fhead, m) ← two_cells (c_sclassid c) (c_fhead c) sclassid (ck_mem s);
           chunk_compact_and_find_sclassid id (put_chunk id (set_fhead fhead c) (with_mem m s))
       else
         '(fhead, m) ← add_list c sclassid (ck_mem s);
         chunk_compact_and_find_sclassid id (put_chunk id (set_fhead fhead c) (with_mem m s)));
    s ← set_new_class id k s; Some (MFS_STATUS_OK, s).

Definition chunk_delete_file (now chunkid sclassid : Z) (s : chunks) : option (Z * chunks) :=
  let '(s, found) := chunk_find chunkid s in
  match found with None => Some (MFS_ERROR_NOCHUNK, s) | Some id => chunk_delete_file_int now id sclassid 0 s end.

Definition chunk_add_file (chunkid sclassid : Z) (s : chunks) : option (Z * chunks) :=
  let '(s, found) := chunk_find chunkid s in
  match found with None => Some (MFS_ERROR_NOCHUNK, s) | Some id => chunk_add_file_int id sclassid s end.

(** ** Flags *)

Definition chunk_get_archflag (chunkid : Z) (s : chunks) : option (Z * Z * chunks) :=
  let '(s, found) := chunk_find chunkid s in
  match found with
  | None => Some (MFS_ERROR_NOCHUNK, 0, s)
  | Some id => c ← ck_tab s !! id; Some (MFS_STATUS_OK, Z.land (c_flags c) FLAG_ARCH, s)
  end.

Definition change_flags (id newflags : Z) (s : chunks) : option chunks :=
  c ← ck_tab s !! id;
  if negb (newflags =? c_flags c) then s ← chunk_state_set_flags id newflags s; Some (chunk_priority_queue_check id true s) else Some s.

(** The number is what is added to [archflagchanged]. *)
Definition chunk_set_archflag (chunkid : Z) (archflag : bool) (s : chunks) : option (Z * Z * chunks) :=
  let '(s, found) := chunk_find chunkid s in
  match found with
  | None => Some (MFS_ERROR_NOCHUNK, 0, s)
  | Some id =>
      c ← ck_tab s !! id;
      let newflags := Z.lor (Z.land (c_flags c) FLAG_TRASH) (if archflag then FLAG_ARCH else 0) in
      s ← change_flags id newflags s;
      Some (MFS_STATUS_OK, if negb (newflags =? c_flags c) then 1 else 0, s)
  end.

Definition chunk_set_trashflag (chunkid : Z) (trashflag : bool) (s : chunks) : option (Z * chunks) :=
  let '(s, found) := chunk_find chunkid s in
  match found with
  | None => Some (MFS_ERROR_NOCHUNK, s)
  | Some id =>
      c ← ck_tab s !! id;
      if trashflag && (FLISTONEFILEINDX <? c_fhead c) then Some (MFS_ERROR_NOTDONE, s)
      else
        s ← change_flags id (Z.lor (Z.land (c_flags c) FLAG_ARCH) (if trashflag then FLAG_TRASH else 0)) s;
        Some (MFS_STATUS_OK, s)
  end.

(** The numbers are added to [archflagchanged] and [trashflagchanged]. *)
Definition chunk_set_autoarch (chunkid archreftime : Z) (intrash : bool) (s : chunks) : option (Z * Z * Z * chunks) :=
  let '(s, found) := chunk_find chunkid s in
  match found with
  | None => Some (MFS_ERROR_NOCHUNK, 0, 0, s)
  | Some id =>
      c ← ck_tab s !! id;
      let arch := (c_lockedto c <? archreftime) && (Z.land (c_flags c) FLAG_ARCH =? 0) in
      let newflags := if arch then Z.lor (Z.land (c_flags c) FLAG_TRASH) FLAG_ARCH else c_flags c in
      let trash := (negb intrash || (FLISTONEFILEINDX <? c_fhead c)) && negb (Z.land (c_flags c) FLAG_TRASH =? 0) in
      let newflags := if trash then Z.land newflags FLAG_ARCH else newflags in
      s ← change_flags id newflags s;
      Some (MFS_STATUS_OK, Z.b2z arch, Z.b2z trash, s)
  end.

(** ** Replay *)

Definition chunk_mr_nextchunkid (nchunkid : Z) (s : chunks) : Z * chunks :=
  if nextchunkid s <? nchunkid then (MFS_STATUS_OK, with_next nchunkid s) else (MFS_ERROR_MISMATCH, s).

Definition chunk_mr_chunkadd (ts chunkid version lockedto : Z) (s : chunks) : option (Z * chunks) :=
  let '(s, found) := chunk_find chunkid s in
  match found with
  | Some _ => Some (MFS_ERROR_CHUNKEXIST, s)
  | None =>
      if u64 (nextchunkid s + 1000000000) <? chunkid then Some (MFS_ERROR_MISMATCH, s)
      else if (0 <? lockedto) && (lockedto <? ts) then Some (MFS_ERROR_MISMATCH, s)
      else
        let s := if nextchunkid s <=? chunkid then with_next (u64 (chunkid + 1)) s else s in
        s ← chunk_new chunkid s;
        c ← ck_tab s !! chunkid;
        Some (MFS_STATUS_OK, put_chunk chunkid (set_lockedto lockedto (set_version version c)) s)
  end.

Definition chunk_mr_chunkdel (ts chunkid version : Z) (s : chunks) : option (Z * chunks) :=
  let '(s, found) := chunk_find chunkid s in
  match found with
  | None => Some (MFS_ERROR_NOCHUNK, s)
  | Some id =>
      c ← ck_tab s !! id;
      if negb (c_version c =? version) then Some (MFS_ERROR_WRONGVERSION, s)
      else if negb (c_fhead c =? FLISTNULLINDX) then Some (MFS_ERROR_ACTIVE, s)
      else if c_copies c then Some (MFS_ERROR_CHUNKBUSY, s)
      else if ts <=? c_lockedto c then Some (MFS_ERROR_LOCKED, s)
      else s ← chunk_delete id s; Some (MFS_STATUS_OK, s)
  end.

Definition chunk_mr_flagsclr (ts chunkid : Z) (s : chunks) : option (Z * chunks) :=
  let '(s, found) := chunk_find chunkid s in
  match found with
  | None => Some (MFS_ERROR_NOCHUNK, s)
  | Some id =>
      c ← ck_tab s !! id;
      if ts <=? c_lockedto c then Some (MFS_ERROR_LOCKED, s) else s ← chunk_state_set_flags id 0 s; Some (MFS_STATUS_OK, s)
  end.

Definition chunk_mr_increase_version (chunkid : Z) (s : chunks) : option (Z * chunks) :=
  let '(s, found) := chunk_find chunkid s in
  match found with
  | None => Some (MFS_ERROR_NOCHUNK, s)
  | Some id => c ← ck_tab s !! id; Some (MFS_STATUS_OK, put_chunk id (set_version (c_version c + 1) c) s)
  end.

Definition chunk_mr_set_version (chunkid version : Z) (s : chunks) : option (Z * chunks) :=
  let '(s, found) := chunk_find chunkid s in
  match found with
  | None => Some (MFS_ERROR_NOCHUNK, s)
  | Some id =>
      c ← ck_tab s !! id;
      Some (MFS_STATUS_OK, put_chunk id (set_version (Z.land version 0x3FFFFFFF) (set_readzeros (negb (Z.land version 0x80000000 =? 0)) c)) s)
  end.

Definition chunk_mr_unlock (ts chunkid : Z) (s : chunks) : option (Z * chunks) :=
  let '(s, found) := chunk_find chunkid s in
  match found with
  | None => Some (MFS_ERROR_NOCHUNK, s)
  | Some id => c ← ck_tab s !! id; Some (MFS_STATUS_OK, put_chunk id (set_lockedto (u32 (ts - 1)) c) s)
  end.

(** A new chunk for one file: [chunk_new] with the next number, version 1. *)
Definition new_for_file (sclassid : Z) (s : chunks) : option (Z * chunks) :=
  let id := nextchunkid s in
  s ← chunk_new id (with_next (u64 (id + 1)) s);
  c ← ck_tab s !! id;
  Some (id, put_chunk id (set_version 1 c) s).

Definition lock_chunk (id ts : Z) (s : chunks) : option chunks :=
  c ← ck_tab s !! id; Some (put_chunk id (set_lockedto (u32 (ts + LOCKTIMEOUT)) c) s).

(** Of a write to the chunk [ochunkid] of a file of the class [sclassid]: the status,
    the chunk the file has then, and the state.  [opflag] is [None] for a truncation. *)
Definition modify_chunk (ts now nchunkid ochunkid sclassid : Z) (opflag : option bool) (s : chunks) : option (Z * Z * chunks) :=
  let '(s, found) := chunk_find ochunkid s in
  match found with
  | None => Some (MFS_ERROR_NOCHUNK, nchunkid, s)
  | Some oid =>
      oc ← ck_tab s !! oid;
      if c_fhead oc =? FLISTONEFILEINDX then
        if negb (nchunkid =? ochunkid) then Some (MFS_ERROR_MISMATCH, nchunkid, s)
        else
          s ← (if default true opflag then Some (put_chunk oid (set_version (c_version oc + 1) oc) s) else Some s);
          s ← lock_chunk oid ts s; Some (MFS_STATUS_OK, nchunkid, s)
      else if c_fhead oc =? FLISTNULLINDX then Some (MFS_ERROR_CHUNKLOST, nchunkid, s)
      else if negb (nchunkid =? nextchunkid s) then Some (MFS_ERROR_MISMATCH, nchunkid, s)
      else
        '(id, s) ← new_for_file sclassid s;
        '(_, s) ← chunk_delete_file_int now oid sclassid 0 s;
        '(_, s) ← chunk_add_file_int id sclassid s;
        s ← lock_chunk id ts s; Some (MFS_STATUS_OK, id, s)
  end.

Definition chunk_mr_multi_modify (ts now nchunkid ochunkid sclassid : Z) (opflag : bool) (s : chunks) : option (Z * Z * chunks) :=
  if ochunkid =? 0 then
    if negb (nchunkid =? nextchunkid s) then Some (MFS_ERROR_MISMATCH, nchunkid, s)
    else
      '(id, s) ← new_for_file sclassid s;
      '(_, s) ← chunk_add_file_int id sclassid s;
      s ← lock_chunk id ts s; Some (MFS_STATUS_OK, nchunkid, s)
  else modify_chunk ts now nchunkid ochunkid sclassid (Some opflag) s.

Definition chunk_mr_multi_truncate (ts now nchunkid ochunkid sclassid : Z) (s : chunks) : option (Z * Z * chunks) :=
  modify_chunk ts now nchunkid ochunkid sclassid None s.

(** ** The image *)

Section image.
Variable bld : build.

Definition CHUNKFSIZE : nat := 18.
Definition CHUNKMAXPAIRS : nat := 383.

(** The pairs of the list, at most [n], and what is left of it. *)
Fixpoint store_pairs (n : nat) (findx : Z) (m : flmem) : option (list (Z * Z)) :=
  match n with
  | O => Some []
  | S n =>
      if findx =? FLISTNULLINDX then Some []
      else fl ← flist_get findx m; ps ← store_pairs n (fl_nexti fl) m; Some ((fl_sclassid fl, fl_fcount fl) :: ps)
  end.

Definition put_chunk_pair (p : Z * Z) : list Z := put8bit bld p.1 ++ put24bit bld p.2.

Definition store_chunk (id : Z) (c : chunk) (m : flmem) : option (list Z) :=
  pairs ← (if c_fhead c =? FLISTNULLINDX then Some []
    else if c_fhead c <? FLISTFIRSTINDX then Some [(c_sclassid c, c_fhead c)]
    else store_pairs CHUNKMAXPAIRS (c_fhead c) m);
  let n := Z.of_nat (length pairs) in
  let dyn := concat (put_chunk_pair <$> pairs) ++ (if (FLISTFIRSTINDX <=? c_fhead c) && (1 <? n) then put8bit bld (c_sclassid c) else []) in
  let version := if c_allowreadzeros c then Z.lor (c_version c) 0x80000000 else c_version c in
  let flags := if 255 <? n then Z.lor (c_flags c) 0x80 else c_flags c in
  let n := if 255 <? n then Z.land n 0xFF else n in
  Some (put64bit bld id ++ put32bit bld version ++ put32bit bld (c_lockedto c) ++ put8bit bld flags ++ put8bit bld n ++ dyn).

(** [order] is the order of the hash table. *)
Definition chunk_store (order : list Z) (s : chunks) : option (list Z) :=
  body ← mapM (λ id, c ← ck_tab s !! id; store_chunk id c (ck_mem s)) order;
  Some (put64bit bld (nextchunkid s) ++ concat body ++ replicate CHUNKFSIZE 0).

(** The list of the pairs, linked in their order. *)
Fixpoint load_cells (pairs : list (Z * Z)) (m : flmem) : option (Z * flmem) :=
  match pairs with
  | [] => Some (FLISTNULLINDX, m)
  | (sclassid, fcount) :: pairs =>
      '(i, m) ← flist_alloc m;
      '(next, m) ← load_cells pairs (flist_put i (mk_flist fcount sclassid FLISTNULLINDX) m);
      m ← set_next i next m; Some (i, m)
  end.

Fixpoint get_pairs (n : nat) (p : list Z) : option (list (Z * Z) * list Z) :=
  match n with
  | O => Some ([], p)
  | S n => '(sclassid, p) ← get8bit bld p; '(fcount, p) ← get24bit bld p; '(ps, p) ← get_pairs n p; Some ((sclassid, fcount) :: ps, p)
  end.

(** The files of a chunk from the pairs and, where there are several, its class. *)
Definition load_files (id : Z) (pairs : list (Z * Z)) (sclassid : Z) (s : chunks) : option chunks :=
  c ← ck_tab s !! id;
  match pairs with
  | [] => Some s
  | [(k, fcount)] =>
      if fcount <? FLISTFIRSTINDX then chunk_state_set_sclass id k (put_chunk id (set_fhead fcount c) s)
      else
        '(i, m) ← load_cells pairs (ck_mem s);
        chunk_state_set_sclass id k (put_chunk id (set_fhead i c) (with_mem m s))
  | _ =>
      '(i, m) ← load_cells pairs (ck_mem s);
      chunk_state_set_sclass id sclassid (put_chunk id (set_fhead i c) (with_mem m s))
  end.

Fixpoint chunk_load_loop (fuel : nat) (mver : Z) (ignoreflag : bool) (input : list Z) (s : chunks) : option (Z * chunks) :=
  match fuel with
  | O => None
  | S fuel =>
      let recsize := if mver =? 0x10 then 16%nat else if mver =? 0x11 then 17%nat else CHUNKFSIZE in
      if (length input <? recsize)%nat then Some (-1, s)
      else
        '(chunkid, p) ← get64bit bld input; '(version, p) ← get32bit bld p; '(lockedto, p) ← get32bit bld p;
        '(flags, p) ← (if mver =? 0x10 then Some (0, p) else get8bit bld p);
        '(n, p) ← (if mver <=? 0x11 then Some (0, p) else get8bit bld p);
        let '(flags, n) := if negb (Z.land flags 0x80 =? 0) then (Z.land flags 0x7F, Z.lor n 0x100) else (flags, n) in
        if Z.of_nat CHUNKMAXPAIRS <? n then None
        else if Z.of_nat (length p) <? 4 * n + (if 1 <? n then 1 else 0) then Some (-1, s)
        else
          '(pairs, p) ← get_pairs (Z.to_nat n) p;
          '(sclassid, p) ← (if 1 <? n then get8bit bld p else Some (0, p));
          if 0 <? chunkid then
            let '(s, found) := chunk_find chunkid s in
            match found with
            | Some _ => if ignoreflag then chunk_load_loop fuel mver ignoreflag p s else Some (-1, s)
            | None =>
                s ← chunk_new chunkid s;
                c ← ck_tab s !! chunkid;
                let c := set_lockedto lockedto (set_version (Z.land version 0x3FFFFFFF) (set_readzeros (negb (Z.land version 0x80000000 =? 0)) c)) in
                s ← load_files chunkid pairs sclassid (put_chunk chunkid c s);
                s ← chunk_state_set_flags chunkid flags s;
                chunk_load_loop fuel mver ignoreflag p s
            end
          else if (version =? 0) && (lockedto =? 0) && (flags =? 0) then Some (0, s) else Some (-1, s)
  end.

Definition chunk_load (mver : Z) (ignoreflag : bool) (input : list Z) (s : chunks) : option (Z * chunks) :=
  let s := with_number 0 s in
  if (length input <? 8)%nat then Some (-1, s)
  else '(next, p) ← get64bit bld input; chunk_load_loop (S (length input)) mver ignoreflag p (with_next next s).

End image.
End chunks.

(** Two classes, three files of the first, two of the second; then one file changes. *)
Example chunk_files_ex :
  let tab := λ _ : Z, mk_storageclass (mk_storagemode 0 2) (mk_storagemode 0 2) 0 0 0 in
  let join := λ _ : Z, mk_joining 1 false false false 0 in
  (s ← chunk_mr_chunkadd 10 7 1 0 chunk_newfs; s ← chunk_add_file tab join 1 7 1 s.2; s ← chunk_add_file tab join 1 7 1 s.2;
   s ← chunk_add_file tab join 1 7 2 s.2; s ← chunk_change_file tab join 1 7 1 2 s.2; s ← chunk_delete_file tab join 1 0 7 1 s.2;
   c ← ck_tab s.2 !! 7; Some (s.1, c_fhead c, c_sclassid c, flistfreehead (ck_mem s.2)))
  = Some (0, 2, 2, 6).
Proof. vm_compute. reflexivity. Qed.
