(* ===== verification/ChunkLists.v ===== *)
(** * The lists of counts of chunks

    What the walks of [ChunkFiles] over linked cells do to the lists in memory.  A list
    of a chunk is described by its cells in order, each with its index, count and class;
    [owned m h l R] says that the link [h] leads to the list [l], that [l], the cells of
    others [R] and the free cells have no cell in common, and that new cells are new. *)

From S2P Require Import Prelude MfsComm DataPack StorageClass ChunkFiles.

#[global] Open Scope Z_scope.

Abbreviation cell := (Z * Z * Z)%type.
Abbreviation cells := (gmap Z flist).

Definition idx (l : list cell) : list Z := (λ e : cell, e.1.1) <$> l.

Fixpoint is_list (c : cells) (h : Z) (l : list cell) : Prop :=
  match l with
  | [] => h = FLISTNULLINDX
  | (i, n, k) :: l => h = i ∧ ∃ nx, c !! i = Some (mk_flist n k nx) ∧ is_list c nx l
  end.

Fixpoint is_free (c : cells) (h : Z) (F : list Z) : Prop :=
  match F with
  | [] => h = FLISTNULLINDX
  | i :: F => h = i ∧ ∃ fl, c !! i = Some fl ∧ is_free c (fl_nexti fl) F
  end.

Definition in_use (m : flmem) (i : Z) : Prop := FLISTFIRSTINDX ≤ i < flistfirstfree m.

(** The free cells are [F]. *)
Record owns (m : flmem) (h : Z) (l : list cell) (F R : list Z) : Prop := {
  ow_list : is_list (fl_cells m) h l;
  ow_free : is_free (fl_cells m) (flistfreehead m) F;
  ow_nodup : NoDup (idx l ++ F ++ R);
  ow_range : Forall (in_use m) (idx l ++ F ++ R);
  ow_first : FLISTFIRSTINDX ≤ flistfirstfree m < 2 ^ 32 }.

Definition owned (m : flmem) (h : Z) (l : list cell) (R : list Z) : Prop := ∃ F, owns m h l F R.

(** The cells of others are left alone, and at most [n] cells are new. *)
Record frame (n : Z) (R : list Z) (m m' : flmem) : Prop := {
  fr_cells : ∀ i, i ∈ R → fl_cells m' !! i = fl_cells m !! i;
  fr_first : flistfirstfree m ≤ flistfirstfree m' ≤ flistfirstfree m + n }.

Lemma frame_refl R m : frame 0 R m m.
Proof. split; [done|lia]. Qed.

Lemma frame_weaken n n' R R' m m' : frame n R m m' → n ≤ n' → (∀ i, i ∈ R' → i ∈ R) → frame n' R' m m'.
Proof. intros [Hc Hf] Hn HR. split; [auto|lia]. Qed.

Lemma frame_trans a b n R m m' m'' : frame a R m m' → frame b R m' m'' → a + b ≤ n → frame n R m m''.
Proof. intros [Hc Hf] [Hc' Hf'] Hn. split; [|lia]. intros i Hi. by rewrite Hc', Hc. Qed.

Lemma is_list_insert c i x h l : i ∉ idx l → is_list c h l → is_list (<[i := x]> c) h l.
Proof.
  revert h. induction l as [|[[j n] k] l IH]; intros h Hi; [done|]. cbn [idx fmap list_fmap fst] in Hi. apply not_elem_of_cons in Hi as [Hne Hi].
  intros [-> (nx & Hj & Hl)]. split; [done|]. exists nx. rewrite lookup_insert_ne by done. split; [done|]. by apply IH.
Qed.

Lemma is_free_insert c i x h F : i ∉ F → is_free c h F → is_free (<[i := x]> c) h F.
Proof.
  revert h. induction F as [|j F IH]; intros h Hi; [done|]. apply not_elem_of_cons in Hi as [Hne Hi].
  intros [-> (fl & Hj & Hl)]. split; [done|]. exists fl. rewrite lookup_insert_ne by done. split; [done|]. by apply IH.
Qed.

Lemma is_list_ext c c' h l : (∀ i, i ∈ idx l → c' !! i = c !! i) → is_list c h l → is_list c' h l.
Proof.
  revert h. induction l as [|[[j n] k] l IH]; intros h Hi; [done|]. intros [-> (nx & Hj & Hl)]. split; [done|]. exists nx.
  rewrite Hi by by left. split; [done|]. apply IH; [|done]. intros i H. apply Hi. by right.
Qed.

Lemma is_list_dom c h l : is_list c h l → ∀ i, i ∈ idx l → is_Some (c !! i).
Proof.
  revert h. induction l as [|[[j n] k] l IH]; intros h Hl i Hi; [by apply elem_of_nil in Hi|]. destruct Hl as [-> (nx & Hj & Hl)].
  cbn [idx fmap list_fmap fst] in Hi. apply elem_of_cons in Hi as [->|Hi]; [by eexists|by eapply IH].
Qed.

Section owned.
Context (m : flmem) (R : list Z).

Lemma owned_nodup h l : owned m h l R → NoDup (idx l).
Proof. intros [F [_ _ Hnd _ _]]. by apply NoDup_app in Hnd as [? _]. Qed.

Lemma fuel_enough h l : owned m h l R → (length l < list_fuel m)%nat.
Proof.
  intros Ho. assert (Hnd := owned_nodup h l Ho). destruct Ho as [F [Hl _ _ _ _]]. unfold list_fuel.
  assert (H : (length (idx l) ≤ size (fl_cells m))%nat).
  { rewrite <-(size_dom (D := gset Z) (fl_cells m)), <-(size_list_to_set (C := gset Z)) by done. apply subseteq_size.
    intros i Hi%elem_of_list_to_set. by apply elem_of_dom, (is_list_dom _ _ _ Hl). }
  unfold idx in H. rewrite length_fmap in H. lia.
Qed.

Lemma owned_nil h : owned m h [] R → h = FLISTNULLINDX.
Proof. by intros [F [Hl _ _ _ _]]. Qed.

Lemma owned_null l : owned m FLISTNULLINDX l R → l = [].
Proof.
  intros [F [Hl _ _ Hr _]]. destruct l as [|[[i n] k] l]; [done|]. destruct Hl as [<- _]. cbn in Hr. apply Forall_cons in Hr as [Hr _].
  unfold in_use, FLISTFIRSTINDX, FLISTNULLINDX in Hr. lia.
Qed.

Lemma owned_head h i n k l : owned m h ((i, n, k) :: l) R → h = i ∧ FLISTFIRSTINDX ≤ i ∧ (i ∉ R) ∧ ∃ nx,
  fl_cells m !! i = Some (mk_flist n k nx) ∧ owned m nx l (i :: R).
Proof.
  intros [F [[-> (nx & Hi & Hl)] HF Hnd Hr Hb]]. cbn [idx fmap list_fmap fst app] in Hnd, Hr. split; [done|].
  apply Forall_cons in Hr as [Hri Hr]. split; [apply Hri|]. apply NoDup_cons in Hnd as [Hni Hnd].
  assert (Hp : idx l ++ F ++ i :: R ≡ₚ i :: idx l ++ F ++ R) by by rewrite !app_assoc, Permutation_middle.
  split; [intros H; apply Hni; unfold idx; rewrite !elem_of_app; auto|].
  exists nx. split; [done|]. exists F. split; [done|done| | |done].
  - rewrite Hp. by apply NoDup_cons.
  - rewrite Hp. by apply Forall_cons.
Qed.

(** A cell taken from the free ones or never used; it is not in the list yet. *)
Lemma alloc_ok h l : owned m h l R → flistfirstfree m + 1 < 2 ^ 32 →
  ∃ i m', flist_alloc m = Some (i, m') ∧ owned m' h l (i :: R) ∧ fl_cells m' = fl_cells m ∧ frame 1 R m m'.
Proof.
  intros [F [Hl HF Hnd Hr Hb]] Hroom. unfold flist_alloc. destruct (Z.eqb_spec (flistfreehead m) FLISTNULLINDX) as [Hz|Hz].
  - destruct F as [|j F]; [|destruct HF as [HF _]; rewrite HF in Hz; rewrite Forall_app in Hr; destruct Hr as [_ Hr]; apply Forall_cons in Hr as [Hr _];
      unfold in_use, FLISTFIRSTINDX, FLISTNULLINDX in *; lia].
    eexists _, _. split; [done|]. unfold u32. rewrite Z.mod_small by (unfold FLISTFIRSTINDX in Hb; lia). cbn [app] in *.
    assert (Hnew : flistfirstfree m ∉ idx l ++ R).
    { intros H. apply (proj1 (Forall_forall _ _) Hr) in H as [_ H]. lia. }
    assert (Hp : idx l ++ flistfirstfree m :: R ≡ₚ flistfirstfree m :: idx l ++ R) by by rewrite Permutation_middle.
    split; [|split; [done|split; [done|cbn; lia]]]. exists []. cbn [app]. split; cbn [fl_cells flistfreehead flistfirstfree]; [done|done| | |lia].
    + rewrite Hp. by apply NoDup_cons.
    + rewrite Hp. apply Forall_cons. split; [unfold in_use; cbn; lia|]. eapply Forall_impl; [exact Hr|]. unfold in_use. cbn. lia.
  - destruct F as [|j F]; [done|]. destruct HF as [Hj (fl & Hfl & HF)]. unfold flist_get. rewrite Hj, Hfl. cbn [mbind option_bind].
    eexists _, _. split; [done|]. split; [|split; [done|split; [done|cbn; lia]]].
    assert (Hp : idx l ++ F ++ j :: R ≡ₚ idx l ++ (j :: F) ++ R) by (cbn [app]; by rewrite (Permutation_middle F R j)).
    exists F. split; cbn [fl_cells flistfreehead flistfirstfree]; [done|done| | |done]; by rewrite Hp.
Qed.

(** A cell that is put at the head of a list. *)
Lemma owned_cons h l i n k : owned m h l (i :: R) → owned (flist_put i (mk_flist n k h) m) i ((i, n, k) :: l) R.
Proof.
  intros [F [Hl HF Hnd Hr Hb]]. assert (Hp : idx l ++ F ++ i :: R ≡ₚ i :: idx l ++ F ++ R) by by rewrite !app_assoc, Permutation_middle.
  rewrite Hp in Hnd, Hr. exists F. assert (Hni := NoDup_cons_1_1 _ _ Hnd). rewrite !elem_of_app in Hni.
  split; cbn [fl_cells flistfreehead flistfirstfree flist_put]; [|apply is_free_insert; tauto|done|done|done].
  split; [done|]. exists h. rewrite lookup_insert_eq. split; [done|]. apply is_list_insert; tauto.
Qed.

(** A cell of others is written. *)
Lemma owned_put h l i x : owned m h l (i :: R) → owned (flist_put i x m) h l (i :: R).
Proof.
  intros [F [Hl HF Hnd Hr Hb]]. assert (Hp : idx l ++ F ++ i :: R ≡ₚ i :: idx l ++ F ++ R) by by rewrite !app_assoc, Permutation_middle.
  assert (Hni := Hnd). rewrite Hp in Hni. apply NoDup_cons_1_1 in Hni. rewrite !elem_of_app in Hni.
  exists F. split; cbn [fl_cells flistfreehead flistfirstfree flist_put]; [apply is_list_insert; tauto|apply is_free_insert; tauto|done|done|done].
Qed.

Lemma free_ok h l i fl : owned m h l (i :: R) → fl_cells m !! i = Some fl →
  ∃ m', flist_free i m = Some m' ∧ owned m' h l R ∧ frame 0 R m m'.
Proof.
  intros [F [Hl HF Hnd Hr Hb]] Hi. unfold flist_free, flist_get. rewrite Hi. cbn [mbind option_bind]. eexists. split; [done|].
  assert (Hp : idx l ++ F ++ i :: R ≡ₚ idx l ++ (i :: F) ++ R) by (cbn [app]; by rewrite (Permutation_middle F R i)).
  assert (Hp' : idx l ++ (i :: F) ++ R ≡ₚ i :: idx l ++ F ++ R) by (cbn [app]; by rewrite <-(Permutation_middle (idx l))).
  rewrite Hp in Hnd, Hr. assert (Hni := Hnd). rewrite Hp' in Hni. apply NoDup_cons_1_1 in Hni. rewrite !elem_of_app in Hni. split.
  - exists (i :: F). split; cbn [fl_cells flistfreehead flistfirstfree]; [apply is_list_insert; tauto| |done|done|done].
    split; [done|]. eexists. rewrite lookup_insert_eq. split; [done|]. cbn [fl_nexti]. apply is_free_insert; tauto.
  - split; cbn [fl_cells flistfirstfree]; [|lia]. intros j Hj. rewrite lookup_insert_ne; [done|]. intros ->. tauto.
Qed.
End owned.

(** ** What the walks do to the list *)

Fixpoint dec_first (k : Z) (l : list cell) : option (list cell) :=
  match l with
  | [] => None
  | (i, n, k') :: l =>
      if k' =? k then Some (if 1 <? n then (i, n - 1, k') :: l else l)
      else l ← dec_first k l; Some ((i, n, k') :: l)
  end.

Fixpoint inc_first (k : Z) (l : list cell) : option (list cell) :=
  match l with
  | [] => None
  | (i, n, k') :: l =>
      if (k' =? k) && (n <? FLISTMAXFCOUNT) then Some ((i, n + 1, k') :: l)
      else l ← inc_first k l; Some ((i, n, k') :: l)
  end.

Definition dec_if (done : bool) (k : Z) (l : list cell) : list cell := if done then l else default l (dec_first k l).
Definition inc_if (done : bool) (k : Z) (l : list cell) : list cell := if done then l else default l (inc_first k l).
Definition possible {A} (o : option A) : bool := bool_decide (is_Some o).

(** The number of files of a class. *)
Definition tally (l : list cell) (k : Z) : Z := foldr (λ e t, (if e.2 =? k then e.1.2 else 0) + t) 0 l.

(** Of each class only the first cell may have room. *)
Fixpoint first_open (l : list cell) : Prop :=
  match l with
  | [] => True
  | (_, _, k) :: l => Forall (λ e, e.2 = k → e.1.2 = FLISTMAXFCOUNT) l ∧ first_open l
  end.

Definition cell_ok (e : cell) : Prop := 1 ≤ e.1.2 ≤ FLISTMAXFCOUNT ∧ 1 ≤ e.2 ≤ 255.

Record list_ok (l : list cell) : Prop := { lo_cells : Forall cell_ok l; lo_open : first_open l }.

Lemma tally_cons i n k l k' : tally ((i, n, k) :: l) k' = (if k =? k' then n else 0) + tally l k'.
Proof. done. Qed.

Lemma tally_nonneg l k : Forall cell_ok l → 0 ≤ tally l k.
Proof. induction 1 as [|[[i n] k'] l [Hn _] _ IH]; [done|]. rewrite tally_cons. cbn in Hn. destruct (_ =? _); lia. Qed.

Lemma dec_first_tally k l l' : Forall cell_ok l → dec_first k l = Some l' → ∀ k', tally l' k' = tally l k' - (if k' =? k then 1 else 0).
Proof.
  intros Hok. revert l'. induction Hok as [|[[i n] k0] l [Hn _] Hok IH]; intros l' H k'; [done|]. cbn [dec_first] in H. cbn in Hn.
  destruct (Z.eqb_spec k0 k) as [->|Hne].
  - injection H as <-. rewrite tally_cons. rewrite (Z.eqb_sym k' k). destruct (Z.ltb_spec 1 n); [rewrite tally_cons|]; destruct (k =? k'); lia.
  - destruct (dec_first k l) as [l0|] eqn:Hd; [|done]. injection H as <-. rewrite !tally_cons, (IH l0 eq_refl). lia.
Qed.

Lemma inc_first_tally k l l' : inc_first k l = Some l' → ∀ k', tally l' k' = tally l k' + (if k' =? k then 1 else 0).
Proof.
  revert l'. induction l as [|[[i n] k0] l IH]; intros l' H k'; [done|]. cbn [inc_first] in H.
  destruct ((k0 =? k) && (n <? FLISTMAXFCOUNT)) eqn:Hc.
  - injection H as <-. rewrite !tally_cons. zbool. subst k0. rewrite (Z.eqb_sym k' k). destruct (k =? k'); lia.
  - destruct (inc_first k l) as [l0|] eqn:Hd; [|done]. injection H as <-. rewrite !tally_cons, (IH l0 eq_refl). lia.
Qed.

Lemma dec_first_some k l : Forall cell_ok l → is_Some (dec_first k l) ↔ 0 < tally l k.
Proof.
  induction 1 as [|[[i n] k0] l [Hn _] Hok IH]; [split; [by intros []|done]|]. cbn [dec_first]. rewrite tally_cons. cbn in Hn.
  assert (Ht := tally_nonneg l k Hok). destruct (Z.eqb_spec k0 k) as [->|Hne]; [split; [lia|by eexists]|].
  rewrite Z.add_0_l, <-IH. destruct (dec_first k l); [split; by eexists|split; by intros []].
Qed.

(** Full cells of a class stay full when another class changes or when one is added. *)
Lemma dec_first_full k k' l l' : k' ≠ k → Forall (λ e : cell, e.2 = k' → e.1.2 = FLISTMAXFCOUNT) l → dec_first k l = Some l' →
  Forall (λ e : cell, e.2 = k' → e.1.2 = FLISTMAXFCOUNT) l'.
Proof.
  intros Hk Hf. revert l'. induction Hf as [|[[i n] k0] l He Hf IH]; intros l' H; [done|]. cbn [dec_first] in H.
  destruct (Z.eqb_spec k0 k) as [->|Hne].
  - injection H as <-. destruct (1 <? n); [|done]. constructor; [|done]. cbn. intros <-. done.
  - destruct (dec_first k l) as [l0|] eqn:Hd; [|done]. injection H as <-. constructor; [done|]. by apply IH.
Qed.

Lemma inc_first_full k k' l l' : Forall (λ e : cell, e.2 = k' → e.1.2 = FLISTMAXFCOUNT) l → inc_first k l = Some l' →
  Forall (λ e : cell, e.2 = k' → e.1.2 = FLISTMAXFCOUNT) l'.
Proof.
  intros Hf. revert l'. induction Hf as [|[[i n] k0] l He Hf IH]; intros l' H; [done|]. cbn [inc_first] in H.
  destruct ((k0 =? k) && (n <? FLISTMAXFCOUNT)) eqn:Hc.
  - injection H as <-. constructor; [|done]. cbn in *. zbool. intros Hk. specialize (He Hk). lia.
  - destruct (inc_first k l) as [l0|] eqn:Hd; [|done]. injection H as <-. constructor; [done|]. by apply IH.
Qed.

Lemma dec_first_ok k l l' : list_ok l → dec_first k l = Some l' → list_ok l'.
Proof.
  intros [Hc Ho]. revert l'. induction l as [|[[i n] k0] l IH]; intros l' H; [done|]. cbn [dec_first] in H. destruct Ho as [Hf Ho].
  apply Forall_cons in Hc as [Hn Hc]. destruct (Z.eqb_spec k0 k) as [->|Hne].
  - injection H as <-. destruct (Z.ltb_spec 1 n); [|by split]. split; [constructor; [|done]|by split]. unfold cell_ok in *. cbn in *. lia.
  - destruct (dec_first k l) as [l0|] eqn:Hd; [|done]. injection H as <-. destruct (IH Hc Ho l0 eq_refl) as [Hc' Ho']. split; [by constructor|].
    split; [|done]. by eapply dec_first_full.
Qed.

Lemma inc_first_ok k l l' : list_ok l → inc_first k l = Some l' → list_ok l'.
Proof.
  intros [Hc Ho]. revert l'. induction l as [|[[i n] k0] l IH]; intros l' H; [done|]. cbn [inc_first] in H. destruct Ho as [Hf Ho].
  apply Forall_cons in Hc as [Hn Hc]. destruct ((k0 =? k) && (n <? FLISTMAXFCOUNT)) eqn:Hb.
  - injection H as <-. split; [constructor; [|done]|by split]. zbool. unfold cell_ok in *. cbn in *. lia.
  - destruct (inc_first k l) as [l0|] eqn:Hd; [|done]. injection H as <-. destruct (IH Hc Ho l0 eq_refl) as [Hc' Ho']. split; [by constructor|].
    split; [|done]. by eapply inc_first_full.
Qed.

(** Where nothing could be added all cells of the class are full, and a new one fits. *)
Lemma push_ok i k l : list_ok l → inc_first k l = None → 1 ≤ k ≤ 255 → list_ok ((i, 1, k) :: l).
Proof.
  intros [Hc Ho] Hn Hk. split; [constructor; [|done]|split; [|done]].
  - unfold cell_ok, FLISTMAXFCOUNT. cbn. lia.
  - clear Ho. induction Hc as [|[[j n] k0] l [He _] Hc IH]; [done|]. cbn [inc_first] in Hn. cbn in He.
    destruct ((k0 =? k) && (n <? FLISTMAXFCOUNT)) eqn:Hb; [done|]. destruct (inc_first k l) as [l0|] eqn:Hd; [done|].
    constructor; [|by apply IH]. cbn. intros ->. rewrite Z.eqb_refl in Hb. zbool. lia.
Qed.

(** ** The walks *)

Lemma set_count_ok m i n k nx n' : fl_cells m !! i = Some (mk_flist n k nx) → set_count i n' m = Some (flist_put i (mk_flist n' k nx) m).
Proof. intros H. unfold set_count, flist_get. by rewrite H. Qed.

Lemma set_next_ok m i n k nx nx' : fl_cells m !! i = Some (mk_flist n k nx) → set_next i nx' m = Some (flist_put i (mk_flist n k nx') m).
Proof. intros H. unfold set_next, flist_get. by rewrite H. Qed.

Lemma frame_put R m i x : i ∉ R → frame 0 R m (flist_put i x m).
Proof. intros Hi. split; cbn [fl_cells flist_put flistfirstfree]; [|lia]. intros j Hj. rewrite lookup_insert_ne; [done|]. by intros ->. Qed.

(** The link of a cell that was passed is set to what follows it now. *)
Lemma relink m R h l i n k nx : owned m h l (i :: R) → i ∉ R → fl_cells m !! i = Some (mk_flist n k nx) →
  ∃ m', set_next i h m = Some m' ∧ owned m' i ((i, n, k) :: l) R ∧ frame 0 R m m'.
Proof.
  intros Ho Hi Hc. rewrite (set_next_ok _ _ _ _ _ _ Hc). eexists. split; [done|]. split; [by apply owned_cons|by apply frame_put].
Qed.

Lemma frame_cell n R m m' i : frame n (i :: R) m m' → fl_cells m' !! i = fl_cells m !! i.
Proof. intros [H _]. apply H. by left. Qed.

Lemma frame_tail n R m m' i : frame n (i :: R) m m' → frame n R m m'.
Proof. intros H. eapply frame_weaken; [exact H|lia|]. intros j Hj. by right. Qed.

Lemma get_cell m i n k nx : fl_cells m !! i = Some (mk_flist n k nx) → flist_get i m = Some (mk_flist n k nx).
Proof. done. Qed.

Lemma not_null i : FLISTFIRSTINDX ≤ i → (i =? FLISTNULLINDX) = false.
Proof. unfold FLISTFIRSTINDX, FLISTNULLINDX. lia. Qed.

Lemma delete_loop_ok k l : ∀ fuel m h R, owned m h l R → Forall cell_ok l → (length l < fuel)%nat →
  match dec_first k l with
  | None => delete_loop fuel k h m = Some None
  | Some l' => ∃ h' m', delete_loop fuel k h m = Some (Some (h', m')) ∧ owned m' h' l' R ∧ frame 0 R m m'
  end.
Proof.
  induction l as [|[[i n] k0] l IH]; intros fuel m h R Ho Hok Hf; (destruct fuel as [|fuel]; [lia|]); cbn [delete_loop dec_first].
  { by rewrite (owned_nil _ _ _ Ho). }
  apply owned_head in Ho as (-> & Hge & HiR & nx & Hc & Ho). rewrite (not_null _ Hge), (get_cell _ _ _ _ _ Hc). cbn [mbind option_bind fl_sclassid fl_fcount fl_nexti].
  apply Forall_cons in Hok as [[Hn _] Hok]. cbn in Hn, Hf. destruct (k0 =? k).
  - destruct (1 <? n).
    + rewrite (set_count_ok _ _ _ _ _ _ Hc). cbn [mbind option_bind]. eexists _, _. split; [done|]. split; [by apply owned_cons|by apply frame_put].
    + destruct (free_ok _ _ _ _ _ _ Ho Hc) as (m' & -> & Ho' & Hfr). cbn [mbind option_bind]. by eexists _, _.
  - specialize (IH fuel m nx (i :: R) Ho Hok ltac:(lia)). destruct (dec_first k l) as [l'|]; [|by rewrite IH].
    destruct IH as (h' & m' & -> & Ho' & Hfr). cbn [mbind option_bind].
    destruct (relink m' R h' l' i n k0 nx Ho' HiR) as (m'' & -> & Ho'' & Hfr'); [by rewrite (frame_cell _ _ _ _ _ Hfr)|].
    cbn [mbind option_bind]. eexists _, _. split; [done|]. split; [done|]. eapply frame_trans; [by eapply frame_tail|exact Hfr'|lia].
Qed.

Lemma add_loop_ok k l : ∀ fuel m h R, owned m h l R → (length l < fuel)%nat →
  ∃ m', add_loop fuel k h m = Some (possible (inc_first k l), m') ∧ owned m' h (default l (inc_first k l)) R ∧ frame 0 R m m'
    ∧ (inc_first k l = None → m' = m).
Proof.
  induction l as [|[[i n] k0] l IH]; intros fuel m h R Ho Hf; (destruct fuel as [|fuel]; [lia|]); cbn [add_loop inc_first].
  { assert (Hh := owned_nil _ _ _ Ho). subst h. exists m. split; [done|]. split; [done|]. split; [apply frame_refl|done]. }
  apply owned_head in Ho as (-> & Hge & HiR & nx & Hc & Ho). rewrite (not_null _ Hge), (get_cell _ _ _ _ _ Hc). cbn [mbind option_bind fl_sclassid fl_fcount fl_nexti].
  cbn in Hf. destruct ((k0 =? k) && (n <? FLISTMAXFCOUNT)).
  - rewrite (set_count_ok _ _ _ _ _ _ Hc). cbn [mbind option_bind]. eexists. split; [done|]. cbn [default]. split; [by apply owned_cons|]. split; [by apply frame_put|done].
  - destruct (IH fuel m nx (i :: R) Ho ltac:(lia)) as (m' & -> & Ho' & Hfr & Heq). exists m'.
    assert (Hlist : owned m' i ((i, n, k0) :: default l (inc_first k l)) R).
    { assert (Hput : flist_put i (mk_flist n k0 nx) m' = m').
      { unfold flist_put. rewrite insert_id; [by destruct m'|]. by rewrite (frame_cell _ _ _ _ _ Hfr). }
      rewrite <-Hput. by apply owned_cons. }
    destruct (inc_first k l) as [l'|]; cbn [default mbind option_bind] in *; (split; [done|]; split; [done|]; split; [by eapply frame_tail|]); [done|].
    intros _. by apply Heq.
Qed.

Lemma possible_some {A} (x : A) : possible (Some x) = true.
Proof. by apply bool_decide_eq_true. Qed.

Lemma possible_none {A} : possible (@None A) = false.
Proof. apply bool_decide_eq_false. by intros []. Qed.

Lemma dec_skip b k i n k0 l : (k0 =? k) && negb b = false →
  dec_if b k ((i, n, k0) :: l) = (i, n, k0) :: dec_if b k l ∧ b || possible (dec_first k ((i, n, k0) :: l)) = b || possible (dec_first k l).
Proof.
  intros H. destruct b; [done|]. rewrite andb_true_r in H. unfold dec_if. cbn [dec_first]. rewrite H. cbn [orb].
  destruct (dec_first k l); cbn [mbind option_bind default]; [by rewrite !possible_some|by rewrite !possible_none].
Qed.

Lemma inc_skip b k i n k0 l : (k0 =? k) && (n <? FLISTMAXFCOUNT) && negb b = false →
  inc_if b k ((i, n, k0) :: l) = (i, n, k0) :: inc_if b k l ∧ b || possible (inc_first k ((i, n, k0) :: l)) = b || possible (inc_first k l).
Proof.
  intros H. destruct b; [done|]. rewrite andb_true_r in H. unfold inc_if. cbn [inc_first]. rewrite H. cbn [orb].
  destruct (inc_first k l); cbn [mbind option_bind default]; [by rewrite !possible_some|by rewrite !possible_none].
Qed.

Section change_loop.
Context (prev new : Z) (Hpn : prev ≠ new).

Lemma change_loop_ok l : ∀ fuel m h R fprev fnew, owned m h l R → Forall cell_ok l → (length l < fuel)%nat → ∃ h' m',
  change_loop fuel prev new fprev fnew h m = Some (h', m', fprev || possible (dec_first prev l), fnew || possible (inc_first new l))
  ∧ owned m' h' (inc_if fnew new (dec_if fprev prev l)) R ∧ frame 0 R m m'.
Proof.
  induction l as [|[[i n] k0] l IH]; intros fuel m h R fprev fnew Ho Hok Hf; (destruct fuel as [|fuel]; [lia|]); cbn [change_loop].
  { rewrite (owned_nil _ _ _ Ho). cbn [dec_first inc_first]. rewrite !possible_none, !orb_false_r, Z.eqb_refl, orb_true_r. eexists _, _. split; [done|].
    split; [|apply frame_refl]. rewrite (owned_nil _ _ _ Ho) in Ho. by destruct fprev, fnew. }
  destruct (fprev && fnew) eqn:Hb.
  { apply andb_prop in Hb as [-> ->]. cbn [orb]. eexists _, _. split; [done|]. split; [done|apply frame_refl]. }
  apply owned_head in Ho as (-> & Hge & HiR & nx & Hc & Ho). cbn [orb]. rewrite (not_null _ Hge), (get_cell _ _ _ _ _ Hc).
  cbn [mbind option_bind fl_sclassid fl_fcount fl_nexti]. apply Forall_cons in Hok as [[Hn _] Hok]. cbn in Hn, Hf.
  (** What is left to do after a cell that stays. *)
  assert (Hstay : ∀ m1 n' k' p f, owned m1 nx l (i :: R) → fl_cells m1 !! i = Some (mk_flist n' k' nx) → frame 0 R m m1 → ∃ h' m',
    ('(next, m2, fprev, fnew) ← change_loop fuel prev new p f nx m1; m2 ← set_next i next m2; Some (i, m2, fprev, fnew))
      = Some (h', m', p || possible (dec_first prev l), f || possible (inc_first new l))
    ∧ owned m' h' ((i, n', k') :: inc_if f new (dec_if p prev l)) R ∧ frame 0 R m m').
  { intros m1 n' k' p f Ho1 Hc1 Hfr1. destruct (IH fuel m1 nx (i :: R) p f Ho1 Hok ltac:(lia)) as (h' & m2 & -> & Ho2 & Hfr2). cbn [mbind option_bind].
    destruct (relink m2 R h' _ i n' k' nx Ho2 HiR) as (m3 & -> & Ho3 & Hfr3); [by rewrite (frame_cell _ _ _ _ _ Hfr2)|].
    cbn [mbind option_bind]. eexists _, _. split; [done|]. split; [done|]. apply (frame_trans 0 0 0 R m m1 m3 Hfr1); [|lia].
    by apply (frame_trans 0 0 0 R m1 m2 m3 (frame_tail _ _ _ _ _ Hfr2) Hfr3). }
  assert (Hset : ∀ n', owned (flist_put i (mk_flist n' k0 nx) m) nx l (i :: R)
    ∧ fl_cells (flist_put i (mk_flist n' k0 nx) m) !! i = Some (mk_flist n' k0 nx) ∧ frame 0 R m (flist_put i (mk_flist n' k0 nx) m)).
  { intros n'. split; [by apply owned_put|]. split; [apply lookup_insert_eq|by apply frame_put]. }
  destruct ((k0 =? prev) && negb fprev) eqn:Hp.
  - apply andb_prop in Hp as [->%Z.eqb_eq ->%negb_true_iff]. cbn [orb]. unfold dec_if. cbn [dec_first]. rewrite Z.eqb_refl, possible_some. cbn [from_option id].
    destruct (inc_skip fnew new i n prev l) as [_ ->]; [by rewrite (proj2 (Z.eqb_neq _ _) Hpn)|].
    destruct (1 <? n).
    + rewrite (set_count_ok _ _ _ _ _ _ Hc). cbn [mbind option_bind]. destruct (Hset (n - 1)) as (Ho1 & Hc1 & Hf1).
      destruct (Hstay _ _ _ true fnew Ho1 Hc1 Hf1) as (h' & m' & -> & Ho' & Hfr). eexists _, _. split; [done|]. split; [|done].
      destruct (inc_skip fnew new i (n - 1) prev l) as [-> _]; [by rewrite (proj2 (Z.eqb_neq _ _) Hpn)|]. exact Ho'.
    + destruct (free_ok _ _ _ _ _ _ Ho Hc) as (m1 & -> & Ho1 & Hfr1). cbn [mbind option_bind].
      destruct (IH fuel m1 nx R true fnew Ho1 Hok ltac:(lia)) as (h' & m' & -> & Ho' & Hfr'). eexists _, _. split; [done|]. split; [exact Ho'|].
      eapply frame_trans; [exact Hfr1|exact Hfr'|lia].
  - destruct (dec_skip fprev prev i n k0 l Hp) as [-> ->]. destruct ((k0 =? new) && (n <? FLISTMAXFCOUNT) && negb fnew) eqn:Hi.
    + rewrite (set_count_ok _ _ _ _ _ _ Hc). cbn [mbind option_bind]. destruct (Hset (n + 1)) as (Ho1 & Hc1 & Hf1).
      destruct (Hstay _ _ _ fprev true Ho1 Hc1 Hf1) as (h' & m' & -> & Ho' & Hfr). apply andb_prop in Hi as [Hi ->%negb_true_iff].
      unfold inc_if. cbn [inc_first orb]. rewrite Hi, possible_some. eexists _, _. split; [done|]. split; [exact Ho'|done].
    + cbn [mbind option_bind]. destruct (inc_skip fnew new i n k0 l Hi) as [_ ->]. destruct (inc_skip fnew new i n k0 (dec_if fprev prev l) Hi) as [-> _].
      destruct (Hstay m n k0 fprev fnew Ho Hc (frame_refl R m)) as (h' & m' & -> & Ho' & Hfr). by eexists _, _.
Qed.
End change_loop.

Lemma push_cell_ok k m h l R : owned m h l R → flistfirstfree m + 1 < 2 ^ 32 →
  ∃ i m', push_cell k h m = Some (i, m') ∧ owned m' i ((i, 1, k) :: l) R ∧ frame 1 R m m' ∧ FLISTFIRSTINDX ≤ i.
Proof.
  intros Ho Hroom. unfold push_cell. destruct (alloc_ok _ _ _ _ Ho Hroom) as (i & m' & -> & Ho' & Hc & Hfr). cbn [mbind option_bind].
  assert (Ho'' := owned_cons _ _ _ _ _ 1 k Ho'). eexists _, _. split; [done|]. split; [done|].
  destruct (owned_head _ _ _ _ _ _ _ Ho'') as (_ & Hge & HiR & _). split; [|done].
  eapply frame_trans; [exact Hfr|by apply frame_put|lia].
Qed.

Lemma two_cells_ok k n k' m R : owned m FLISTNULLINDX [] R → flistfirstfree m + 2 < 2 ^ 32 →
  ∃ i j m', two_cells k n k' m = Some (i, m') ∧ owned m' i [(i, n, k); (j, 1, k')] R ∧ frame 2 R m m' ∧ FLISTFIRSTINDX ≤ i.
Proof.
  intros Ho Hroom. unfold two_cells. destruct (alloc_ok _ _ _ _ Ho ltac:(lia)) as (i & m1 & -> & Ho1 & _ & Hfr1). cbn [mbind option_bind].
  destruct (alloc_ok _ _ _ _ Ho1) as (j & m2 & -> & Ho2 & _ & Hfr2); [destruct Hfr1; lia|]. cbn [mbind option_bind].
  assert (Ho3 := owned_cons _ _ _ _ _ n k (owned_cons _ _ _ _ _ 1 k' Ho2)).
  destruct (owned_head _ _ _ _ _ _ _ Ho3) as (_ & Hge & HiR & nx & _ & Ho4). destruct (owned_head _ _ _ _ _ _ _ Ho4) as (_ & _ & HjR & _).
  apply not_elem_of_cons in HjR as [Hji HjR].
  assert (Heq : flist_put j (mk_flist 1 k' FLISTNULLINDX) (flist_put i (mk_flist n k j) m2) = flist_put i (mk_flist n k j) (flist_put j (mk_flist 1 k' FLISTNULLINDX) m2)).
  { unfold flist_put. cbn. f_equal. by apply insert_insert_ne. }
  rewrite Heq. eexists _, _, _. split; [done|]. split; [done|]. split; [|done].
  apply (frame_trans 1 1 2 R m m1); [done| |lia]. apply (frame_trans 1 0 1 R m1 m2); [by eapply frame_tail| |lia].
  apply (frame_trans 0 0 0 R m2 (flist_put j (mk_flist 1 k' FLISTNULLINDX) m2)); [by apply frame_put|by apply frame_put|lia].
Qed.

(** ** The number of cells

    A chunk has at most one cell that is not full for each class. *)

Definition total (l : list cell) : Z := foldr (λ e t, e.1.2 + t) 0 l.

Lemma cells_bound l : list_ok l → Z.of_nat (length l) ≤ 255 + total l / FLISTMAXFCOUNT.
Proof.
  intros [Hc Ho].
  assert (H : ∀ S : gset Z, S ⊆ list_to_set (seqZ 1 255) → Forall (λ e : cell, e.2 ∈ S → e.1.2 = FLISTMAXFCOUNT) l →
    Z.of_nat (length l) * FLISTMAXFCOUNT ≤ (255 - Z.of_nat (size S)) * FLISTMAXFCOUNT + total l).
  { assert (HM : 0 < FLISTMAXFCOUNT) by by vm_compute. induction l as [|[[i n] k] l IH]; intros S HS Hf.
    - assert (Hs : (size S ≤ size (list_to_set (seqZ 1 255) : gset Z))%nat) by by apply subseteq_size.
      rewrite size_list_to_set, length_seqZ in Hs by apply NoDup_seqZ. cbn. nia.
    - apply Forall_cons in Hc as [[Hn Hk] Hc]. apply Forall_cons in Hf as [Hf1 Hf]. destruct Ho as [Hfull Ho]. cbn in Hn, Hk, Hf1.
      cbn [length]. unfold total. cbn [foldr]. fold (total l). destruct (decide (k ∈ S)) as [Hin|Hni].
      + specialize (IH Hc Ho S HS Hf). specialize (Hf1 Hin). cbn. nia.
      + assert (Hsz : size ({[k]} ∪ S) = Datatypes.S (size S)) by (rewrite size_union, size_singleton; [done|set_solver]).
        assert (Hsub : {[k]} ∪ S ⊆ list_to_set (seqZ 1 255)).
        { intros j [->%elem_of_singleton|Hj]%elem_of_union; [|by apply HS]. apply elem_of_list_to_set, elem_of_seqZ. lia. }
        specialize (IH Hc Ho ({[k]} ∪ S) Hsub). rewrite Hsz in IH. cbn.
        enough (Z.of_nat (length l) * FLISTMAXFCOUNT ≤ (255 - Z.of_nat (Datatypes.S (size S))) * FLISTMAXFCOUNT + total l) by nia.
        apply IH. apply Forall_forall. intros e He [Hj%elem_of_singleton|Hj]%elem_of_union.
        * by apply (proj1 (Forall_forall _ _) Hfull e He).
        * by apply (proj1 (Forall_forall _ _) Hf e He). }
  specialize (H ∅ ltac:(set_solver)). rewrite size_empty in H. cbn [Z.of_nat] in H.
  assert (H' : Z.of_nat (length l) * FLISTMAXFCOUNT ≤ 255 * FLISTMAXFCOUNT + total l).
  { rewrite Z.sub_0_r in H. apply H. apply Forall_forall. intros e _ He. by apply elem_of_empty in He. }
  assert (HM : FLISTMAXFCOUNT = 16777215) by done. rewrite HM in *. Z.to_euclidean_division_equations; lia.
Qed.

(** ** The class that comes first *)

Section best.
Variable sclasstab : Z → storageclass.
Variable joiningtab : Z → joining.
Variable MaxECRedundancyLevel : Z.

Abbreviation prio := (sclass_get_joining_priority sclasstab joiningtab MaxECRedundancyLevel).

(** The number of the class is in the low bits, so classes have different priorities. *)
Lemma prio_low k : 0 ≤ k < 256 → prio k mod 256 = k.
Proof.
  intros Hk. unfold sclass_get_joining_priority. match goal with |- u64 (?x + k) mod 256 = k => set (a := x) end.
  assert (Ha : a mod 256 = 0 ∧ 0 ≤ a < 2 ^ 64).
  { unfold a, u64. rewrite Z.shiftl_mul_pow2 by lia. split; [|apply Z.mod_pos_bound; lia].
    match goal with |- (?b * 2 ^ 8) mod _ mod 256 = 0 => generalize b end. intros b. change (2 ^ 8) with 256.
    rewrite Z.mod_mod_divide by by exists (2 ^ 56). by rewrite Z.mod_mul. }
  destruct Ha as [Ha Hb]. assert (Hq := Z.div_mod a 256 ltac:(lia)). rewrite Ha in Hq.
  assert (Hq' : a / 256 < 2 ^ 56) by (apply Z.div_lt_upper_bound; lia). clearbody a. unfold u64. rewrite (Z.mod_small (a + k)) by lia.
  rewrite Z.add_mod, Ha by lia. rewrite Z.add_0_l, Z.mod_mod, Z.mod_small by lia. done.
Qed.

Lemma prio_pos k : 1 ≤ k ≤ 255 → 0 < prio k.
Proof.
  intros Hk. assert (H := prio_low k ltac:(lia)). assert (H0 : 0 ≤ prio k) by (unfold sclass_get_joining_priority, u64; apply Z.mod_pos_bound; lia).
  destruct (decide (prio k = 0)) as [E|]; [|lia]. rewrite E in H. change (0 mod 256) with 0 in H. lia.
Qed.

(** [k] is the class of the files that comes first. *)
Definition joins (classes : list Z) (k : Z) : Prop := k ∈ classes ∧ ∀ k', k' ∈ classes → prio k' ≤ prio k.

Lemma best_loop_ok l : ∀ fuel m h R k0 p0, owned m h l R → (length l < fuel)%nat → Forall cell_ok l →
  ∃ k, best_loop sclasstab joiningtab MaxECRedundancyLevel fuel h k0 p0 m = Some k
    ∧ ((k = k0 ∧ ∀ k', k' ∈ l.*2 → prio k' ≤ p0) ∨ (k ∈ l.*2 ∧ p0 < prio k ∧ ∀ k', k' ∈ l.*2 → prio k' ≤ prio k)).
Proof.
  induction l as [|[[i n] k1] l IH]; intros fuel m h R k0 p0 Ho Hf Hok; (destruct fuel as [|fuel]; [lia|]); cbn [best_loop].
  { rewrite (owned_nil _ _ _ Ho). exists k0. split; [done|]. left. split; [done|]. intros k' H. by apply elem_of_nil in H. }
  apply owned_head in Ho as (-> & Hge & HiR & nx & Hc & Ho). rewrite (not_null _ Hge), (get_cell _ _ _ _ _ Hc).
  cbn [mbind option_bind fl_sclassid fl_nexti]. apply Forall_cons in Hok as [_ Hok]. cbn in Hf. cbn [fmap list_fmap snd].
  destruct (Z.ltb_spec p0 (prio k1)) as [Hlt|Hge'].
  - destruct (IH fuel m nx (i :: R) k1 (prio k1) Ho ltac:(lia) Hok) as (k & -> & [[-> Hall]|(Hin & Hlt' & Hall)]); exists k || exists k1; (split; [done|]); right.
    + split; [by left|]. split; [done|]. intros k' [->|Hk']%elem_of_cons; [lia|by apply Hall].
    + split; [by right|]. split; [lia|]. intros k' [->|Hk']%elem_of_cons; [lia|by apply Hall].
  - destruct (IH fuel m nx (i :: R) k0 p0 Ho ltac:(lia) Hok) as (k & -> & [[-> Hall]|(Hin & Hlt' & Hall)]); exists k || exists k0; (split; [done|]).
    + left. split; [done|]. intros k' [->|Hk']%elem_of_cons; [lia|by apply Hall].
    + right. split; [by right|]. split; [done|]. intros k' [->|Hk']%elem_of_cons; [lia|by apply Hall].
Qed.

Lemma best_class_ok l m h R : owned m h l R → Forall cell_ok l → l ≠ [] →
  ∃ k, best_class sclasstab joiningtab MaxECRedundancyLevel h m = Some k ∧ joins l.*2 k ∧ 1 ≤ k ≤ 255.
Proof.
  intros Ho Hok Hne. unfold best_class. destruct (best_loop_ok l (list_fuel m) m h R 0 0 Ho (fuel_enough _ _ _ _ Ho) Hok) as (k & -> & Hk).
  assert (Hcl : ∀ k', k' ∈ l.*2 → 1 ≤ k' ≤ 255).
  { intros k' (e & -> & He)%list_elem_of_fmap. by apply (proj1 (Forall_forall _ _) Hok e He). }
  destruct Hk as [[-> Hall]|(Hin & _ & Hall)].
  - destruct l as [|e l]; [done|]. assert (He : e.2 ∈ (e :: l).*2) by (cbn; by left). specialize (Hall _ He). assert (H := prio_pos _ (Hcl _ He)). lia.
  - assert (Hk := Hcl k Hin). cbn [mbind option_bind]. rewrite (proj2 (Z.ltb_lt 0 k)) by lia. by exists k.
Qed.
End best.
