(* ===== verification/ChunkInv.v ===== *)
(** * The invariant of the files of chunks

    What the lists of cells, the free cells, the counters of the classes and the table of
    [ChunkFiles] are when they are whole ([chunks_ok]), the number of files of a class
    that a chunk counts ([files_of]), and that adding, removing and changing a file, a new
    chunk, a deletion, a change of flags keep the one and do to the other what they say. *)

From S2P Require Import Prelude MapSum MfsComm DataPack StorageClass ChunkFiles ChunkLists.

#[global] Open Scope Z_scope.

#[local] Arguments bump : simpl never.

(** ** Counters *)

(** The place a chunk is counted at. *)
Definition key_of (all : bool) (c : chunk) : bool * Z * Z * Z :=
  (all, c_storage_mode c, sclass_indx (c_sclassid c) (c_flags c), at_most_10 (if all then c_all_gequiv c else c_reg_gequiv c)).

Definition keyed (key : bool * Z * Z * Z) (c : chunk) : Z := Z.b2z (bool_decide (key_of true c = key)) + Z.b2z (bool_decide (key_of false c = key)).

Definition counts_ok (n : counters) (tab : gmap Z chunk) : Prop := ∀ key, counts_at n key = u64 (map_sum (keyed key) tab).

Lemma bump_sum k d n key S : counts_at n key = u64 S → counts_at (bump k d n) key = u64 (S + d * Z.b2z (bool_decide (k = key))).
Proof.
  intros H. unfold counts_at, bump. destruct (decide (k = key)) as [->|Hne].
  - rewrite lookup_insert_eq, bool_decide_true by done. cbn. fold (counts_at n key). rewrite H. unfold u64. rewrite Zplus_mod_idemp_l. f_equal. lia.
  - rewrite lookup_insert_ne, bool_decide_false by done. rewrite Z.mul_0_r, Z.add_0_r. exact H.
Qed.

Lemma state_change_ok n tab id c c' : counts_ok n tab → tab !! id = Some c → counted (c_storage_mode c) = true → c_storage_mode c' = c_storage_mode c →
  c_all_gequiv c' = c_all_gequiv c → c_reg_gequiv c' = c_reg_gequiv c →
  counts_ok (chunk_state_change (c_sclassid c) (c_sclassid c') (c_flags c) (c_flags c') (c_storage_mode c) (c_storage_mode c) (c_all_gequiv c) (c_all_gequiv c)
    (c_reg_gequiv c) (c_reg_gequiv c) n) (<[id := c']> tab).
Proof.
  intros Hn Hc Hm Hm' Ha Hr key. unfold chunk_state_change. rewrite Hm. rewrite map_sum_insert, Hc. cbn [from_option].
  erewrite bump_sum; [|apply bump_sum, bump_sum, bump_sum, Hn]. f_equal. unfold keyed, key_of. rewrite Hm', Ha, Hr. lia.
Qed.

Lemma keyed_same n tab id c c' : counts_ok n tab → tab !! id = Some c → key_of true c' = key_of true c → key_of false c' = key_of false c →
  counts_ok n (<[id := c']> tab).
Proof. intros Hn Hc Ht Hf key. rewrite map_sum_insert, Hc. cbn [from_option]. unfold keyed at 2 3. rewrite Ht, Hf, Hn. f_equal. lia. Qed.

(** ** Chunks and their lists *)

Definition lhead (c : chunk) : Z := if c_fhead c <? FLISTFIRSTINDX then FLISTNULLINDX else c_fhead c.

(** The number of files of a class, the list being [l]. *)
Definition files (c : chunk) (l : list cell) (k : Z) : Z :=
  if c_fhead c <? FLISTFIRSTINDX then (if k =? c_sclassid c then c_fhead c else 0) else tally l k.

Record rep (c : chunk) (l : list cell) : Prop := {
  rp_small : c_fhead c < FLISTFIRSTINDX → 0 ≤ c_fhead c ∧ l = [] ∧ (c_fhead c = 0 → c_sclassid c = 0) ∧ (0 < c_fhead c → 1 ≤ c_sclassid c ≤ 255);
  rp_big : FLISTFIRSTINDX ≤ c_fhead c → l ≠ [] ∧ list_ok l ∧ 1 ≤ c_sclassid c ≤ 255 ∧ ∀ i n k, l = [(i, n, k)] → FLISTFIRSTINDX ≤ n ∧ c_sclassid c = k }.

Abbreviation lists := (gmap Z (list cell)).

Definition all_idx (L : lists) : list Z := concat (idx <$> (map_to_list L).*2).

Record mem_ok (m : flmem) (tab : gmap Z chunk) (L : lists) : Prop := {
  mo_dom : ∀ id, is_Some (L !! id) ↔ is_Some (tab !! id);
  mo_list : ∀ id c l, tab !! id = Some c → L !! id = Some l → is_list (fl_cells m) (lhead c) l ∧ rep c l;
  mo_free : ∃ F, is_free (fl_cells m) (flistfreehead m) F ∧ NoDup (all_idx L ++ F) ∧ Forall (in_use m) (all_idx L ++ F);
  mo_first : FLISTFIRSTINDX ≤ flistfirstfree m < 2 ^ 32 }.

Lemma all_idx_new L id l : L !! id = None → all_idx (<[id := l]> L) ≡ₚ idx l ++ all_idx L.
Proof. intros H. unfold all_idx. by rewrite (map_to_list_insert _ _ _ H). Qed.

Lemma all_idx_delete L id l : L !! id = Some l → all_idx L ≡ₚ idx l ++ all_idx (delete id L).
Proof. intros H. rewrite <-(insert_delete_id L id l H) at 1. by rewrite all_idx_new by apply lookup_delete_eq. Qed.

Lemma all_idx_insert L id l : all_idx (<[id := l]> L) ≡ₚ idx l ++ all_idx (delete id L).
Proof. rewrite <-insert_delete_eq. by rewrite all_idx_new by apply lookup_delete_eq. Qed.

Lemma all_idx_in L id l i : L !! id = Some l → i ∈ idx l → i ∈ all_idx L.
Proof. intros H Hi. rewrite (all_idx_delete _ _ _ H). apply elem_of_app. by left. Qed.

(** The list of one chunk among the others. *)
Lemma focus m tab L id c l : mem_ok m tab L → tab !! id = Some c → L !! id = Some l → owned m (lhead c) l (all_idx (delete id L)).
Proof.
  intros [Hd Hl (F & HF & Hnd & Hr) Hfirst] Hc HL. destruct (Hl _ _ _ Hc HL) as [Hlist _]. rewrite (all_idx_delete _ _ _ HL), <-app_assoc in Hnd, Hr.
  assert (Hp : all_idx (delete id L) ++ F ≡ₚ F ++ all_idx (delete id L)) by apply Permutation_app_comm. rewrite Hp in Hnd, Hr. by exists F.
Qed.

Lemma focus_new m tab L id : mem_ok m tab L → L !! id = None → owned m FLISTNULLINDX [] (all_idx (delete id L)).
Proof.
  intros [Hd Hl (F & HF & Hnd & Hr) Hfirst] HL. rewrite delete_id by done. rewrite Permutation_app_comm in Hnd, Hr. by exists F.
Qed.

Lemma unfocus m m' n tab L id c' l' : mem_ok m tab L → owned m' (lhead c') l' (all_idx (delete id L)) → frame n (all_idx (delete id L)) m m' → rep c' l' →
  mem_ok m' (<[id := c']> tab) (<[id := l']> L).
Proof.
  intros [Hd Hl _ _] [F [Hlist HF Hnd Hr Hfirst]] [Hcells _] Hrep. split; [| | |done].
  - intros j. destruct (decide (j = id)) as [->|Hne]; [rewrite !lookup_insert_eq; split; by eexists|]. by rewrite !lookup_insert_ne.
  - intros j c l Hc HL. destruct (decide (j = id)) as [->|Hne].
    + rewrite lookup_insert_eq in Hc. rewrite lookup_insert_eq in HL. by simplify_eq.
    + rewrite lookup_insert_ne in Hc by done. rewrite lookup_insert_ne in HL by done. destruct (Hl _ _ _ Hc HL) as [Hj Hrj]. split; [|done]. eapply is_list_ext; [|exact Hj].
      intros i Hi. apply Hcells. eapply all_idx_in; [|exact Hi]. by rewrite lookup_delete_ne.
  - exists F. split; [done|]. rewrite all_idx_insert, <-app_assoc. by rewrite (Permutation_app_comm _ F).
Qed.

Lemma mem_drop m tab L id c : mem_ok m tab L → tab !! id = Some c → c_fhead c = FLISTNULLINDX → mem_ok m (delete id tab) (delete id L).
Proof.
  intros Hmem Hc Hz. destruct (proj2 (mo_dom _ _ _ Hmem id) ltac:(by eexists)) as [l HL].
  destruct Hmem as [Hd Hl (F & HF & Hnd & Hr) Hfirst]. destruct (Hl _ _ _ Hc HL) as [_ [Hsmall _]].
  destruct (Hsmall ltac:(by rewrite Hz)) as (_ & -> & _). split; [| | |done].
  - intros j. destruct (decide (j = id)) as [->|Hne]; [by rewrite !lookup_delete_eq|]. by rewrite !lookup_delete_ne.
  - intros j cj lj Hcj HLj. destruct (decide (j = id)) as [->|Hne]; [by rewrite lookup_delete_eq in Hcj|]. rewrite lookup_delete_ne in Hcj by done. rewrite lookup_delete_ne in HLj by done. by apply (Hl j).
  - exists F. rewrite (all_idx_delete _ _ _ HL) in Hnd, Hr. done.
Qed.

(** ** One operation on one chunk *)

Section core.
Variable sclasstab : Z → storageclass.
Variable joiningtab : Z → joining.
Variable MaxECRedundancyLevel : Z.

Abbreviation compact := (chunk_compact_and_find_sclassid sclasstab joiningtab MaxECRedundancyLevel).
Abbreviation prio := (sclass_get_joining_priority sclasstab joiningtab MaxECRedundancyLevel).

(** A chunk with files of several classes is kept by the one that comes first. *)
Definition class_right (c : chunk) (l : list cell) : Prop :=
  ∀ k, 0 < files c l k → 1 ≤ k ≤ 255 → 0 < files c l (c_sclassid c) ∧ prio k ≤ prio (c_sclassid c).

(** What an operation makes of the chunk [c] with the list [l]: new cells [m'], a chunk
    [c'] with its list [l'], and files as [F] says. *)
Record result (c : chunk) (R : list Z) (m : flmem) (F : Z → Z) (m' : flmem) (c' : chunk) (l' : list cell) : Prop := {
  rs_owned : owned m' (lhead c') l' R;
  rs_frame : frame 2 R m m';
  rs_rep : rep c' l';
  rs_files : ∀ k, files c' l' k = F k;
  rs_class : class_right c' l';
  rs_same : ∃ h k, c' = set_sclass k (set_fhead h c) }.

Lemma tally_in l k : Forall cell_ok l → k ∈ l.*2 → 0 < tally l k.
Proof.
  induction 1 as [|[[i n] k'] l [Hn _] Hok IH]; intros Hk; [by apply elem_of_nil in Hk|]. rewrite tally_cons. cbn in Hn, Hk.
  assert (Ht := tally_nonneg l k Hok). apply elem_of_cons in Hk as [->|Hk]; [rewrite Z.eqb_refl; lia|]. specialize (IH Hk). destruct (_ =? _); lia.
Qed.

Lemma tally_pos l k : 0 < tally l k → k ∈ l.*2.
Proof.
  induction l as [|[[i n] k'] l IH]; [done|]. rewrite tally_cons. cbn. intros H. apply elem_of_cons.
  destruct (Z.eqb_spec k' k) as [->|Hne]; [by left|]. right. apply IH. lia.
Qed.

Lemma single_tally i n k l : l = [(i, n, k)] → ∀ q, tally l q = if q =? k then n else 0.
Proof. intros -> q. rewrite tally_cons. cbn. rewrite (Z.eqb_sym k q). destruct (q =? k); lia. Qed.

Lemma put_chunk_same id c s : ck_tab s !! id = Some c → put_chunk id c s = s.
Proof. intros H. unfold put_chunk, with_tab. rewrite insert_id by done. by destruct s. Qed.

Lemma set_fhead_same c : set_fhead (c_fhead c) c = c.
Proof. by destruct c. Qed.

Lemma big_head c i k : FLISTFIRSTINDX ≤ i → lhead (set_sclass k (set_fhead i c)) = i.
Proof. intros H. unfold lhead. cbn. by rewrite (proj2 (Z.ltb_ge _ _)). Qed.

Lemma small_head c : c_fhead c < FLISTFIRSTINDX → lhead c = FLISTNULLINDX.
Proof. intros H. unfold lhead. by rewrite (proj2 (Z.ltb_lt _ _)). Qed.

Lemma files_big c l k : FLISTFIRSTINDX ≤ c_fhead c → files c l k = tally l k.
Proof. intros H. unfold files. by rewrite (proj2 (Z.ltb_ge _ _)). Qed.

Lemma files_small c l k : c_fhead c < FLISTFIRSTINDX → files c l k = if k =? c_sclassid c then c_fhead c else 0.
Proof. intros H. unfold files. by rewrite (proj2 (Z.ltb_lt _ _)). Qed.

(** A chunk in the short form. *)
Definition short_ok (h k : Z) : Prop := 0 ≤ h < FLISTFIRSTINDX ∧ (h = 0 → k = 0) ∧ (0 < h → 1 ≤ k ≤ 255).

Lemma small_result c R m h k F : owned m FLISTNULLINDX [] R → short_ok h k →
  (∀ q, (if q =? k then h else 0) = F q) → result c R m F m (set_sclass k (set_fhead h c)) [].
Proof.
  intros Ho (Hh & Hk0 & Hk) HF. split.
  - rewrite small_head; [done|cbn; lia].
  - eapply frame_weaken; [apply frame_refl|lia|done].
  - split; cbn; [|lia]. intros _. split; [lia|]. by split.
  - intros q. rewrite files_small by (cbn; lia). apply HF.
  - intros q Hq Hq'. rewrite files_small in Hq |- * by (cbn; lia). cbn in *. destruct (Z.eqb_spec q k) as [Hqk|]; [rewrite Hqk|lia]. rewrite Z.eqb_refl. lia.
  - by exists h, k.
Qed.

(** A chunk with a list: its class is found, a list of one small count is dissolved. *)
Lemma compact_ok id s c0 c R m0 l F : ck_tab s !! id = Some c0 → (∃ h, c0 = set_fhead h c) → FLISTFIRSTINDX ≤ c_fhead c0 →
  owned (ck_mem s) (c_fhead c0) l R → frame 2 R m0 (ck_mem s) → list_ok l → l ≠ [] → (∀ q, tally l q = F q) →
  ∃ k h m' l', compact id s = Some (k, put_chunk id (set_fhead h c) (with_mem m' s)) ∧ result c R m0 F m' (set_sclass k (set_fhead h c)) l'.
Proof.
  intros Hc [h0 Hc0] Hbig Ho Hfr Hok Hne HF. unfold chunk_compact_and_find_sclassid. rewrite Hc. cbn [mbind option_bind].
  rewrite (proj2 (Z.ltb_ge _ _)) by done. assert (Hcells := lo_cells _ Hok). destruct l as [|[[i n] k1] l]; [done|].
  assert (Hstay : put_chunk id (set_fhead h0 c) (with_mem (ck_mem s) s) = s).
  { rewrite <-Hc0. unfold with_mem. assert (Hs : ck_tab s !! id = Some c0) by done. destruct s. cbn in *. by apply put_chunk_same. }
  destruct (owned_head _ _ _ _ _ _ _ Ho) as (Hi & Hge & HiR & nx & Hcell & Ho'). unfold flist_get. rewrite Hi, Hcell. cbn [mbind option_bind fl_nexti fl_fcount fl_sclassid].
  apply Forall_cons in Hcells as [[Hn Hk1] Hcells]. cbn in Hn, Hk1.
  destruct (Z.eqb_spec nx FLISTNULLINDX) as [->|Hnx].
  - assert (Hl := owned_null _ _ _ Ho'). subst l. assert (Htally := single_tally i n k1 [(i, n, k1)] eq_refl).
    destruct (Z.ltb_spec n FLISTFIRSTINDX) as [Hsmall|Hlarge].
    + destruct (free_ok _ _ _ _ _ _ Ho' Hcell) as (m' & -> & Ho'' & Hfr'). cbn [mbind option_bind]. rewrite Hc0.
      exists k1, n, m', []. split; [done|]. destruct (small_result c R m' n k1 F Ho'') as [Ha Hb Hd He Hg Hh].
      { split; [lia|]. split; [lia|done]. }
      { intros q. by rewrite <-HF, Htally. }
      split; [done| |done|done|done|done]. eapply frame_trans; [exact Hfr|exact Hfr'|lia].
    + exists k1, h0, (ck_mem s), [(i, n, k1)]. rewrite Hstay. split; [done|]. subst c0. cbn in Hbig, Hi, Ho. subst h0.
      split; [by rewrite big_head|done| | | |by exists i, k1].
      * split; cbn; [lia|]. intros _. split; [done|]. split; [done|]. split; [done|]. intros i' n' k' [= -> -> ->]. done.
      * intros q. rewrite files_big by done. apply HF.
      * intros q Hq Hq'. rewrite files_big in Hq |- * by done. rewrite Htally in Hq |- *. cbn [c_sclassid set_sclass]. rewrite Z.eqb_refl.
        destruct (Z.eqb_spec q k1) as [Hqk|]; [rewrite Hqk|]; lia.
  - rewrite <-Hi. destruct (best_class_ok sclasstab joiningtab MaxECRedundancyLevel _ _ _ _ Ho (lo_cells _ Hok) Hne) as (k & -> & [Hin Hbest] & Hk). cbn [mbind option_bind].
    exists k, h0, (ck_mem s), ((i, n, k1) :: l). rewrite Hstay. split; [done|]. subst c0. cbn in Hbig, Hi, Ho. subst h0.
    split; [by rewrite big_head|done| | | |by exists i, k].
    + split; cbn; [lia|]. intros _. split; [done|]. split; [done|]. split; [done|]. intros i' n' k' [= -> -> -> ->].
      exfalso. apply Hnx. by eapply owned_nil.
    + intros q. rewrite files_big by done. apply HF.
    + intros q Hq Hq'. rewrite files_big in Hq |- * by done. split; [by apply tally_in; [apply Hok|]|]. apply Hbest. by apply tally_pos.
Qed.

(** ** Ends of operations *)

Definition after (id : Z) (c : chunk) (n : counters) (m : flmem) (s : chunks) : chunks := put_chunk id c (with_counts n (with_mem m s)).

Lemma with_mem_same s : with_mem (ck_mem s) s = s.
Proof. by destruct s. Qed.

Lemma after_put id c c' n m s : put_chunk id c' (with_counts n (put_chunk id c (with_mem m s))) = after id c' n m s.
Proof. unfold after, put_chunk, with_tab, with_counts, with_mem. cbn. by rewrite insert_insert_eq. Qed.

Lemma sclass_ok id k h m s c : ck_tab s !! id = Some c → counts_ok (ck_counts s) (ck_tab s) → counted (c_storage_mode c) = true → ∃ n,
  chunk_state_set_sclass id k (put_chunk id (set_fhead h c) (with_mem m s)) = Some (after id (set_sclass k (set_fhead h c)) n m s)
  ∧ counts_ok n (<[id := set_sclass k (set_fhead h c)]> (ck_tab s)).
Proof.
  intros Hc Hn Hm. unfold chunk_state_set_sclass. cbn [ck_tab put_chunk with_tab with_mem]. rewrite lookup_insert_eq. cbn [mbind option_bind].
  eexists. split; [by rewrite after_put|]. by apply (state_change_ok (ck_counts s) (ck_tab s) id c (set_sclass k (set_fhead h c))).
Qed.

Lemma same_class id k h m s c : ck_tab s !! id = Some c → counts_ok (ck_counts s) (ck_tab s) → k = c_sclassid c →
  put_chunk id (set_fhead h c) (with_mem m s) = after id (set_sclass k (set_fhead h c)) (ck_counts s) m s
  ∧ counts_ok (ck_counts s) (<[id := set_sclass k (set_fhead h c)]> (ck_tab s)).
Proof.
  intros Hc Hn ->. split; [|by eapply keyed_same].
  assert (E : set_sclass (c_sclassid c) (set_fhead h c) = set_fhead h c) by by destruct c. rewrite E. by destruct s.
Qed.

Lemma new_class_ok id k h m s c : ck_tab s !! id = Some c → counts_ok (ck_counts s) (ck_tab s) → counted (c_storage_mode c) = true → ∃ n,
  set_new_class id k (put_chunk id (set_fhead h c) (with_mem m s)) = Some (after id (set_sclass k (set_fhead h c)) n m s)
  ∧ counts_ok n (<[id := set_sclass k (set_fhead h c)]> (ck_tab s)).
Proof.
  intros Hc Hn Hm. unfold set_new_class. cbn [ck_tab put_chunk with_tab with_mem]. rewrite lookup_insert_eq. cbn [mbind option_bind c_sclassid set_fhead].
  destruct (Z.eqb_spec k (c_sclassid c)) as [Hk|Hk]; cbn [negb].
  - destruct (same_class id k h m s c Hc Hn Hk) as [E Hn']. eexists. split; [by rewrite <-E|done].
  - by apply sclass_ok.
Qed.

(** An operation on the chunk [id] of [s] that makes the files [F]. *)
Definition done_on (s : chunks) (id : Z) (c : chunk) (R : list Z) (F : Z → Z) (calls : list (Z * bool)) (r : option (Z * chunks)) : Prop :=
  ∃ n m' c' l', r = Some (MFS_STATUS_OK, let s' := after id c' n m' s in
      mk_chunks (ck_tab s') (lastchunkid s') (lastchunkptr s') (ck_mem s') (ck_counts s') (ck_number s') (nextchunkid s') (ck_checks s' ++ calls))
    ∧ counts_ok n (<[id := c']> (ck_tab s)) ∧ result c R (ck_mem s) F m' c' l'.

Lemma calls_nil s : mk_chunks (ck_tab s) (lastchunkid s) (lastchunkptr s) (ck_mem s) (ck_counts s) (ck_number s) (nextchunkid s) (ck_checks s ++ []) = s.
Proof. rewrite app_nil_r. by destruct s. Qed.

Section on_chunk.
Context (s : chunks) (id : Z) (c : chunk) (l : list cell) (R : list Z).
Context (Hc : ck_tab s !! id = Some c) (Hcounts : counts_ok (ck_counts s) (ck_tab s)) (Hmode : counted (c_storage_mode c) = true).
Context (Ho : owned (ck_mem s) (lhead c) l R) (Hrep : rep c l) (Hroom : flistfirstfree (ck_mem s) + 2 < 2 ^ 32).

Lemma is_small : c_fhead c < FLISTFIRSTINDX → l = [] ∧ owned (ck_mem s) FLISTNULLINDX [] R.
Proof. intros H. destruct (rp_small _ _ Hrep H) as (_ & E & _). split; [done|]. rewrite (small_head _ H) in Ho. by rewrite E in Ho. Qed.

Lemma is_big : FLISTFIRSTINDX ≤ c_fhead c → owned (ck_mem s) (c_fhead c) l R.
Proof. intros H. unfold lhead in Ho. by rewrite (proj2 (Z.ltb_ge _ _)) in Ho. Qed.

(** The ends that put a chunk into the short form. *)
Lemma short_done h k F : c_fhead c < FLISTFIRSTINDX → short_ok h k → (∀ q, (if q =? k then h else 0) = F q) →
  done_on s id c R F [] (s ← set_new_class id k (put_chunk id (set_fhead h c) s); Some (MFS_STATUS_OK, s)).
Proof.
  intros Hs Hh HF. destruct (is_small Hs) as [_ Ho0]. destruct (new_class_ok id k h (ck_mem s) s c Hc Hcounts Hmode) as (n & Hset & Hn).
  rewrite with_mem_same in Hset. rewrite Hset. cbn [mbind option_bind]. exists n, (ck_mem s), (set_sclass k (set_fhead h c)), [].
  split; [by rewrite calls_nil|]. split; [done|]. by apply small_result.
Qed.

(** The ends that go through the list. *)
Lemma list_done h m' l' F : FLISTFIRSTINDX ≤ h → owned m' h l' R → frame 2 R (ck_mem s) m' → list_ok l' → l' ≠ [] → (∀ q, tally l' q = F q) →
  done_on s id c R F []
    ('(k, s) ← compact id (put_chunk id (set_fhead h c) (with_mem m' s)); s ← set_new_class id k s; Some (MFS_STATUS_OK, s)).
Proof.
  intros Hh Ho' Hfr Hok Hne HF.
  destruct (compact_ok id (put_chunk id (set_fhead h c) (with_mem m' s)) (set_fhead h c) c R (ck_mem s) l' F) as (k & h' & m2 & l2 & -> & Hres); try done.
  { cbn [ck_tab put_chunk with_tab]. apply lookup_insert_eq. }
  { by exists h. }
  cbn [mbind option_bind].
  assert (E : put_chunk id (set_fhead h' c) (with_mem m2 (put_chunk id (set_fhead h c) (with_mem m' s))) = put_chunk id (set_fhead h' c) (with_mem m2 s)).
  { unfold put_chunk, with_tab, with_mem. cbn. by rewrite insert_insert_eq. }
  rewrite E. destruct (new_class_ok id k h' m2 s c Hc Hcounts Hmode) as (n & -> & Hn). cbn [mbind option_bind].
  exists n, m2, (set_sclass k (set_fhead h' c)), l2. split; [by rewrite calls_nil|]. by split.
Qed.

Lemma short_files h k : c_fhead c < FLISTFIRSTINDX → (c_sclassid c = k ∨ c_fhead c = 0) → ∀ q, (if q =? k then c_fhead c + h else 0) = files c l q + h * (if q =? k then 1 else 0).
Proof.
  intros Hs Hk q. rewrite files_small by done. destruct Hk as [<-|E]; [destruct (q =? _); lia|]. rewrite E. destruct (q =? k), (q =? _); lia.
Qed.

Lemma chunk_add_ok k : 1 ≤ k ≤ 255 →
  done_on s id c R (λ q, files c l q + (if q =? k then 1 else 0)) [] (chunk_add_file_int sclasstab joiningtab MaxECRedundancyLevel id k s).
Proof.
  intros Hk. unfold chunk_add_file_int. rewrite (proj2 (Z.ltb_lt 0 k)), Hc by lia. cbn [negb mbind option_bind].
  destruct (Z.eqb_spec (c_fhead c) FLISTNULLINDX) as [Hz|Hz].
  { apply short_done; [by rewrite Hz|split; [done|split; [done|done]]|]. intros q. assert (H := short_files 1 k ltac:(by rewrite Hz) (or_intror Hz) q).
    rewrite Hz in H. rewrite Z.mul_1_l in H. exact H. }
  destruct (Z.ltb_spec (c_fhead c) (FLISTFIRSTINDX - 1)) as [Hs|Hs].
  - assert (Hs' : c_fhead c < FLISTFIRSTINDX) by lia. destruct (rp_small _ _ Hrep Hs') as (Hge & _ & _ & Hcl). unfold FLISTNULLINDX in Hz.
    destruct (Z.eqb_spec k (c_sclassid c)) as [Hkc|Hkc].
    + apply short_done; [done|split; [lia|split; [lia|done]]|]. intros q. rewrite (short_files 1 k Hs' (or_introl (eq_sym Hkc)) q). lia.
    + destruct (is_small Hs') as [Hl Ho0]. destruct (two_cells_ok (c_sclassid c) (c_fhead c) k (ck_mem s) R Ho0 Hroom) as (i & j & m' & -> & Ho' & Hfr & Hi).
      cbn [mbind option_bind]. apply (list_done i m' _ _ Hi Ho' Hfr); [|done|].
      * split; [repeat constructor; cbn; unfold FLISTMAXFCOUNT, FLISTFIRSTINDX in *; lia|]. cbn. repeat split; [|constructor]. constructor; [|constructor].
        cbn. intros E. by destruct Hkc.
      * intros q. rewrite files_small, !tally_cons by done. cbn. rewrite (Z.eqb_sym (c_sclassid c)), (Z.eqb_sym k). destruct (q =? k), (q =? _); lia.
  - assert (Hlist : ∃ h m1 l1, (if c_fhead c =? FLISTFIRSTINDX - 1 then
         '(findx, m) ← flist_alloc (ck_mem s); Some (findx, flist_put findx (mk_flist (c_fhead c) (c_sclassid c) FLISTNULLINDX) m)
       else Some (c_fhead c, ck_mem s)) = Some (h, m1)
      ∧ owned m1 h l1 R ∧ frame 1 R (ck_mem s) m1 ∧ list_ok l1 ∧ l1 ≠ [] ∧ FLISTFIRSTINDX ≤ h ∧ ∀ q, tally l1 q = files c l q).
    { destruct (Z.eqb_spec (c_fhead c) (FLISTFIRSTINDX - 1)) as [E|E].
      - assert (Hs' : c_fhead c < FLISTFIRSTINDX) by lia. destruct (is_small Hs') as [Hl Ho0]. destruct (rp_small _ _ Hrep Hs') as (_ & _ & _ & Hcl).
        assert (Hpc := push_cell_ok (c_sclassid c) (ck_mem s) _ _ _ Ho0 ltac:(lia)). unfold push_cell in Hpc.
        destruct (alloc_ok _ _ _ _ Ho0 ltac:(lia)) as (i & m' & Ha & Ho' & _ & Hfr). rewrite Ha in Hpc |- *. cbn [mbind option_bind] in *.
        assert (Ho'' := owned_cons _ _ _ _ _ (c_fhead c) (c_sclassid c) Ho'). destruct (owned_head _ _ _ _ _ _ _ Ho'') as (_ & Hi & HiR & _).
        eexists _, _, _. split; [done|]. split; [done|]. split; [apply (frame_trans 1 0 1 R _ m' _ Hfr); [by apply frame_put|lia]|].
        split; [|split; [done|split; [done|]]].
        + unfold FLISTFIRSTINDX in *. split; [repeat constructor; cbn; unfold FLISTMAXFCOUNT; lia|]. cbn. repeat constructor.
        + intros q. rewrite tally_cons, files_small by done. cbn. rewrite (Z.eqb_sym (c_sclassid c)). destruct (q =? _); lia.
      - assert (Hb : FLISTFIRSTINDX ≤ c_fhead c) by lia. destruct (rp_big _ _ Hrep Hb) as (Hne & Hok & _).
        exists (c_fhead c), (ck_mem s), l. split; [done|]. split; [by apply is_big|]. split; [eapply frame_weaken; [apply frame_refl|lia|done]|].
        split; [done|]. split; [done|]. split; [done|]. intros q. by rewrite files_big. }
    unfold add_list. destruct Hlist as (h & m1 & l1 & -> & Ho1 & Hfr1 & Hok1 & Hne1 & Hh & Ht1). cbn [mbind option_bind].
    destruct (add_loop_ok k l1 (list_fuel m1) m1 h R Ho1 (fuel_enough _ _ _ _ Ho1)) as (m2 & -> & Ho2 & Hfr2 & Hsame). cbn [mbind option_bind].
    destruct (inc_first k l1) as [l2|] eqn:Hinc.
    + rewrite possible_some. cbn [negb mbind option_bind]. apply (list_done h m2 l2); [done|done|apply (frame_trans 1 0 2 R _ m1 _ Hfr1 Hfr2); lia| | |].
      * by eapply inc_first_ok.
      * intros ->. destruct l1 as [|[[i n] k1] l1]; [done|]. cbn in Hinc. destruct (_ && _); [done|]. by destruct (inc_first k l1).
      * intros q. by rewrite (inc_first_tally _ _ _ Hinc), Ht1.
    + rewrite possible_none. cbn [negb from_option Datatypes.id] in *. specialize (Hsame eq_refl). subst m2.
      destruct (push_cell_ok k m1 h l1 R Ho1) as (i & m3 & -> & Ho3 & Hfr3 & Hi); [destruct Hfr1; lia|]. cbn [mbind option_bind].
      apply (list_done i m3 _ _ Hi Ho3); [apply (frame_trans 1 1 2 R _ m1 _ Hfr1 Hfr3); lia|by apply push_ok|done|].
      intros q. rewrite tally_cons, Ht1, (Z.eqb_sym k q). destruct (q =? k); lia.
Qed.

Lemma dec_nonempty k l' : FLISTFIRSTINDX ≤ c_fhead c → dec_first k l = Some l' → l' ≠ [].
Proof.
  intros Hb Hd. destruct (rp_big _ _ Hrep Hb) as (Hne & _ & _ & Hsingle). destruct l as [|[[i n] k1] [|e l2]]; [done| |].
  - destruct (Hsingle i n k1 eq_refl) as [Hn _]. cbn in Hd. destruct (k1 =? k); [|done]. injection Hd as <-.
    unfold FLISTFIRSTINDX in Hn. by rewrite (proj2 (Z.ltb_lt 1 n)) by lia.
  - remember (e :: l2) as l3 eqn:E. cbn [dec_first] in Hd. destruct (k1 =? k).
    + injection Hd as <-. subst l3. by destruct (1 <? n).
    + destruct (dec_first k l3) as [l4|]; [by injection Hd as <-|done].
Qed.

Lemma owned_big h l1 m : owned m h l1 R → l1 ≠ [] → FLISTFIRSTINDX ≤ h.
Proof. intros H Hne. destruct l1 as [|[[i n] k] l1]; [done|]. by destruct (owned_head _ _ _ _ _ _ _ H) as (-> & ? & _). Qed.

(** The end of a removal without a delay. *)
Lemma no_delay (e : option (Z * chunks)) F now :
  done_on s id c R F [] ('(k, s) ← e; s ← set_new_class id k s; Some (MFS_STATUS_OK, s)) →
  done_on s id c R F [] ('(k, s) ← e; s ← set_new_class id k s; c ← ck_tab s !! id;
    Some (MFS_STATUS_OK, if (c_fhead c =? FLISTNULLINDX) && (0 <? 0) then put_chunk id (set_lockedto (u32 (now + 0)) c) s else s)).
Proof.
  intros (n & m' & c' & l' & Hr & Hn & Hres). exists n, m', c', l'. split; [|done].
  destruct e as [[k s1]|]; [|done]. cbn [mbind option_bind] in *. destruct (set_new_class id k s1) as [s2|]; [|done]. cbn [mbind option_bind] in *.
  injection Hr as ->. cbn [ck_tab]. unfold after at 1. cbn [ck_tab put_chunk with_tab]. rewrite lookup_insert_eq. cbn [mbind option_bind].
  by rewrite andb_false_r.
Qed.

Lemma chunk_delete_ok now k : 1 ≤ k ≤ 255 → 0 < files c l k →
  done_on s id c R (λ q, files c l q - (if q =? k then 1 else 0)) [] (chunk_delete_file_int sclasstab joiningtab MaxECRedundancyLevel now id k 0 s).
Proof.
  intros Hk Hpos. unfold chunk_delete_file_int. rewrite Hc. cbn [mbind option_bind].
  destruct (Z.ltb_spec (c_fhead c) FLISTFIRSTINDX) as [Hs|Hb].
  - rewrite files_small in Hpos by done. destruct (Z.eqb_spec k (c_sclassid c)) as [Hkc|Hkc]; [|lia].
    unfold FLISTNULLINDX at 1. rewrite (proj2 (Z.eqb_neq (c_fhead c) 0)), (proj2 (Z.ltb_lt 0 k)) by lia. cbn [negb].
    apply no_delay. destruct (Z.eqb_spec (c_fhead c) FLISTONEFILEINDX) as [H1|H1]; cbn [mbind option_bind].
    + apply short_done; [done|split; [done|split; [done|done]]|]. intros q. rewrite files_small, H1, <-Hkc by done. by destruct (q =? 0), (q =? k).
    + apply short_done; [done|unfold FLISTONEFILEINDX in H1; split; [lia|split; [lia|lia]]|]. intros q. rewrite files_small, <-Hkc by done. destruct (q =? k); lia.
  - assert (Hb' : 5 ≤ c_fhead c) by done. destruct (rp_big _ _ Hrep Hb) as (Hne & Hok & _).
    unfold FLISTNULLINDX at 1, FLISTONEFILEINDX. rewrite (proj2 (Z.eqb_neq (c_fhead c) 0)), (proj2 (Z.ltb_lt 0 k)), (proj2 (Z.eqb_neq (c_fhead c) 1)) by lia. cbn [negb].
    apply no_delay. assert (Hd := delete_loop_ok k l (list_fuel (ck_mem s)) _ _ R (is_big Hb) (lo_cells _ Hok) (fuel_enough _ _ _ _ (is_big Hb))).
    rewrite files_big in Hpos by done. apply (dec_first_some k l (lo_cells _ Hok)) in Hpos as [l' Hl']. rewrite Hl' in Hd.
    destruct Hd as (h' & m' & -> & Ho' & Hfr). cbn [mbind option_bind]. assert (Hne' := dec_nonempty k l' Hb Hl').
    apply (list_done h' m' l' _ (owned_big _ _ _ Ho' Hne') Ho'); [eapply frame_weaken; [exact Hfr|lia|done]|exact (dec_first_ok _ _ _ Hok Hl')|done|].
    intros q. by rewrite (dec_first_tally _ _ _ (lo_cells _ Hok) Hl'), files_big.
Qed.

Lemma inc_after_dec prev new l1 : prev ≠ new → dec_first prev l = Some l1 → possible (inc_first new l) = possible (inc_first new l1).
Proof.
  intros Hpn. clear -Hpn. revert l1. induction l as [|[[i n] k] l2 IH]; intros l1 H; [done|]. cbn [dec_first] in H.
  destruct (Z.eqb_spec k prev) as [->|Hk].
  - cbn [inc_first]. rewrite (proj2 (Z.eqb_neq prev new) Hpn). cbn [andb]. destruct (1 <? n); injection H as <-.
    + cbn [inc_first]. rewrite (proj2 (Z.eqb_neq prev new) Hpn). cbn [andb]. by destruct (inc_first new l2).
    + destruct (inc_first new l2); cbn [mbind option_bind]; [by rewrite !possible_some|done].
  - destruct (dec_first prev l2) as [l3|]; [|done]. injection H as <-. specialize (IH l3 eq_refl). cbn [inc_first].
    destruct (_ && _); [by rewrite !possible_some|]. destruct (inc_first new l2), (inc_first new l3); cbn [mbind option_bind];
      rewrite ?possible_some, ?possible_none in IH |- *; done.
Qed.

(** The cells after a change, before the list is looked at. *)
Lemma change_list_ok prev new : 1 < c_fhead c → 1 ≤ prev ≤ 255 → 1 ≤ new ≤ 255 → prev ≠ new → 0 < files c l prev → ∃ h m' l',
  change_list c prev new (ck_mem s) = Some (h, m') ∧ owned m' h l' R ∧ frame 2 R (ck_mem s) m' ∧ list_ok l' ∧ l' ≠ []
  ∧ ∀ q, tally l' q = files c l q - (if q =? prev then 1 else 0) + (if q =? new then 1 else 0).
Proof.
  intros H1 Hp Hn Hpn Hpos. unfold change_list. destruct (Z.ltb_spec (c_fhead c) FLISTFIRSTINDX) as [Hs|Hb].
  - destruct (is_small Hs) as [Hl Ho0]. rewrite files_small in Hpos by done. destruct (Z.eqb_spec prev (c_sclassid c)) as [Hkc|Hkc]; [|lia]. cbn [negb].
    destruct (two_cells_ok (c_sclassid c) (c_fhead c - 1) new (ck_mem s) R Ho0 Hroom) as (i & j & m' & -> & Ho' & Hfr & Hi).
    eexists _, _, _. split; [done|]. split; [done|]. split; [done|]. rewrite <-Hkc. split; [|split; [done|]].
    + split; [repeat constructor; cbn; unfold FLISTMAXFCOUNT, FLISTFIRSTINDX in *; lia|]. cbn. repeat split; [|constructor]. constructor; [|constructor].
      cbn. intros E. by destruct Hpn.
    + intros q. rewrite files_small, !tally_cons, <-Hkc by done. cbn. rewrite (Z.eqb_sym prev q), (Z.eqb_sym new q).
      destruct (Z.eqb_spec q prev), (Z.eqb_spec q new); lia.
  - destruct (rp_big _ _ Hrep Hb) as (Hne & Hok & _). assert (Hbig := is_big Hb). rewrite files_big in Hpos by done.
    apply (dec_first_some prev l (lo_cells _ Hok)) in Hpos as [l1 Hl1]. assert (Hok1 := dec_first_ok _ _ _ Hok Hl1). assert (Hne1 := dec_nonempty _ _ Hb Hl1).
    destruct (change_loop_ok prev new Hpn l (list_fuel (ck_mem s)) _ _ R false false Hbig (lo_cells _ Hok) (fuel_enough _ _ _ _ Hbig)) as (h' & m1 & -> & Ho1 & Hfr1).
    unfold dec_if in Ho1. rewrite Hl1 in Ho1 |- *. rewrite possible_some, (inc_after_dec prev new l1 Hpn Hl1). cbn [mbind option_bind negb orb from_option Datatypes.id] in *.
    assert (Ht1 := dec_first_tally _ _ _ (lo_cells _ Hok) Hl1). unfold inc_if in Ho1. destruct (inc_first new l1) as [l2|] eqn:Hinc.
    + rewrite possible_some. cbn [negb from_option Datatypes.id] in *. eexists _, _, _. split; [done|]. split; [exact Ho1|]. split; [eapply frame_weaken; [exact Hfr1|lia|done]|].
      split; [by eapply inc_first_ok|]. split.
      * intros ->. destruct l1 as [|[[i n] k1] l1]; [done|]. cbn in Hinc. destruct (_ && _); [done|]. by destruct (inc_first new l1).
      * intros q. by rewrite (inc_first_tally _ _ _ Hinc), Ht1, files_big.
    + rewrite possible_none. cbn [negb from_option Datatypes.id] in *.
      destruct (push_cell_ok new m1 h' l1 R Ho1) as (i & m3 & -> & Ho3 & Hfr3 & Hi); [destruct Hfr1; lia|].
      eexists _, _, _. split; [done|]. split; [exact Ho3|]. split; [apply (frame_trans 0 1 2 R _ m1 _ Hfr1 Hfr3); lia|].
      split; [by apply push_ok|]. split; [done|]. intros q. rewrite tally_cons, Ht1, files_big, (Z.eqb_sym new q) by done. destruct (q =? new); lia.
Qed.

(** The end of a change of class, with the call it makes. *)
Definition set_and_check (k : Z) (s : chunks) : option (Z * chunks) :=
  c ← ck_tab s !! id;
  if negb (k =? c_sclassid c) then
    s ← chunk_state_set_sclass id k s; Some (MFS_STATUS_OK, chunk_priority_queue_check id true s)
  else Some (MFS_STATUS_OK, chunk_priority_queue_check id false s).

Lemma set_and_check_ok k h m : ∃ n b, set_and_check k (put_chunk id (set_fhead h c) (with_mem m s))
    = Some (MFS_STATUS_OK, chunk_priority_queue_check id b (after id (set_sclass k (set_fhead h c)) n m s))
  ∧ counts_ok n (<[id := set_sclass k (set_fhead h c)]> (ck_tab s)).
Proof.
  unfold set_and_check. cbn [ck_tab put_chunk with_tab with_mem]. rewrite lookup_insert_eq. cbn [mbind option_bind c_sclassid set_fhead].
  destruct (Z.eqb_spec k (c_sclassid c)) as [Hk|Hk]; cbn [negb].
  - destruct (same_class id k h m s c Hc Hcounts Hk) as [E Hn']. eexists _, _. split; [by rewrite <-E|done].
  - destruct (sclass_ok id k h m s c Hc Hcounts Hmode) as (n & -> & Hn). cbn [mbind option_bind]. by eexists _, _.
Qed.

Lemma change_ok prev new : 1 ≤ prev ≤ 255 → 1 ≤ new ≤ 255 → prev ≠ new → 0 < files c l prev → ∃ b,
  done_on s id c R (λ q, files c l q - (if q =? prev then 1 else 0) + (if q =? new then 1 else 0)) [(id, b)]
    ('(k, s) ← (if c_fhead c =? FLISTONEFILEINDX then Some (new, s)
        else '(fhead, m) ← change_list c prev new (ck_mem s); compact id (put_chunk id (set_fhead fhead c) (with_mem m s)));
     set_and_check k s).
Proof.
  intros Hp Hn Hpn Hpos. destruct (Z.eqb_spec (c_fhead c) FLISTONEFILEINDX) as [H1|H1].
  - cbn [mbind option_bind]. assert (Hs : c_fhead c < FLISTFIRSTINDX) by by rewrite H1. destruct (is_small Hs) as [Hl Ho0].
    rewrite files_small in Hpos by done. destruct (Z.eqb_spec prev (c_sclassid c)) as [Hkc|Hkc]; [|lia].
    destruct (set_and_check_ok new (c_fhead c) (ck_mem s)) as (n & b & Hset & Hn'). rewrite set_fhead_same in Hset at 1.
    rewrite with_mem_same, (put_chunk_same _ _ _ Hc) in Hset. rewrite Hset. exists b, n, (ck_mem s), (set_sclass new (set_fhead (c_fhead c) c)), [].
    split; [done|]. split; [done|]. apply small_result; [done|rewrite H1; split; [done|split; [done|done]]|]. intros q. rewrite files_small, <-Hkc, H1 by done.
    destruct (q =? prev), (q =? new); reflexivity.
  - assert (Hgt : 1 < c_fhead c).
    { destruct (Z.ltb_spec (c_fhead c) FLISTFIRSTINDX) as [Hs|Hb]; [|unfold FLISTFIRSTINDX in Hb; lia].
      destruct (rp_small _ _ Hrep Hs) as (Hge & _). rewrite files_small in Hpos by done. unfold FLISTONEFILEINDX in H1. destruct (_ =? _); lia. }
    destruct (change_list_ok prev new Hgt Hp Hn Hpn Hpos) as (h & m' & l' & -> & Ho' & Hfr & Hok & Hne & Ht). cbn [mbind option_bind].
    destruct (compact_ok id (put_chunk id (set_fhead h c) (with_mem m' s)) (set_fhead h c) c R (ck_mem s) l' (tally l')) as (k & h' & m2 & l2 & -> & Hres); try done.
    { cbn [ck_tab put_chunk with_tab]. apply lookup_insert_eq. }
    { by exists h. }
    { exact (owned_big _ _ _ Ho' Hne). }
    cbn [mbind option_bind].
    assert (E : put_chunk id (set_fhead h' c) (with_mem m2 (put_chunk id (set_fhead h c) (with_mem m' s))) = put_chunk id (set_fhead h' c) (with_mem m2 s)).
    { unfold put_chunk, with_tab, with_mem. cbn. by rewrite insert_insert_eq. }
    rewrite E. destruct (set_and_check_ok k h' m2) as (n & b & -> & Hn'). exists b, n, m2, (set_sclass k (set_fhead h' c)), l2.
    split; [done|]. split; [done|]. destruct Hres as [Ha Hb Hd He Hg Hh]. split; try done. intros q. by rewrite He, Ht.
Qed.
End on_chunk.
End core.

(** ** The invariant *)

(** What is known of a chunk without its copies. *)
Record attrs_ok (c : chunk) : Prop := {
  at_mode : counted (c_storage_mode c) = true;
  at_flags : 0 ≤ c_flags c < 4;
  at_version : 0 ≤ c_version c < 2 ^ 30;
  at_locked : is_u32 (c_lockedto c);
  at_gequiv : 0 ≤ c_all_gequiv c ∧ 0 ≤ c_reg_gequiv c;
  at_copies : c_copies c = false → c_storage_mode c = STORAGE_MODE_COPIES ∧ c_all_gequiv c = 0 ∧ c_reg_gequiv c = 0 }.

Record chunks_inv (s : chunks) (L : lists) : Prop := {
  ci_mem : mem_ok (ck_mem s) (ck_tab s) L;
  ci_counts : counts_ok (ck_counts s) (ck_tab s);
  ci_attrs : ∀ id c, ck_tab s !! id = Some c → attrs_ok c;
  ci_ids : ∀ id, is_Some (ck_tab s !! id) → 0 < id < nextchunkid s;
  ci_next : 1 ≤ nextchunkid s < 2 ^ 64;
  ci_last : match lastchunkptr s with Some p => p = lastchunkid s ∧ is_Some (ck_tab s !! p) | None => lastchunkid s = 0 end }.

Definition chunks_ok (s : chunks) : Prop := ∃ L, chunks_inv s L.

(** The number of files of a class a chunk has, read off the chunk. *)
Definition chunk_pairs (s : chunks) (c : chunk) : list (Z * Z) :=
  if c_fhead c <? FLISTFIRSTINDX then [(c_sclassid c, c_fhead c)] else default [] (store_pairs (list_fuel (ck_mem s)) (c_fhead c) (ck_mem s)).

Definition pairs_files (ps : list (Z * Z)) (k : Z) : Z := foldr (λ p t, (if p.1 =? k then p.2 else 0) + t) 0 ps.

Definition files_of (s : chunks) (id k : Z) : Z :=
  match ck_tab s !! id with Some c => pairs_files (chunk_pairs s c) k | None => 0 end.

(** All its files. *)
Definition total_of (s : chunks) (id : Z) : Z :=
  match ck_tab s !! id with Some c => foldr (λ p t, p.2 + t) 0 (chunk_pairs s c) | None => 0 end.

(** The pairs of a list of cells. *)
Definition pairs_of (l : list cell) : list (Z * Z) := (λ e : cell, (e.2, e.1.2)) <$> l.

Lemma store_pairs_ok l : ∀ n m h R, owned m h l R → store_pairs n h m = Some (take n (pairs_of l)).
Proof.
  induction l as [|[[i c] k] l IH]; intros [|n] m h R Ho; [done| |done|]; cbn [store_pairs].
  { by rewrite (owned_nil _ _ _ Ho). }
  apply owned_head in Ho as (-> & Hge & HiR & nx & Hc & Ho). rewrite (not_null _ Hge), (get_cell _ _ _ _ _ Hc). cbn [mbind option_bind fl_nexti fl_sclassid fl_fcount].
  by rewrite (IH n m nx (i :: R) Ho).
Qed.

Lemma pairs_of_files l k : pairs_files (pairs_of l) k = tally l k.
Proof. induction l as [|[[i n] k'] l IH]; [done|]. rewrite tally_cons, <-IH. done. Qed.

Lemma pairs_of_total l : foldr (λ p t, p.2 + t) 0 (pairs_of l) = total l.
Proof. induction l as [|[[i n] k'] l IH]; [done|]. unfold total. cbn. fold (total l). by rewrite <-IH. Qed.

Section inv.
Context (s : chunks) (L : lists) (Hinv : chunks_inv s L).

Lemma inv_list id c : ck_tab s !! id = Some c → ∃ l, L !! id = Some l ∧ owned (ck_mem s) (lhead c) l (all_idx (delete id L)) ∧ rep c l.
Proof.
  intros Hc. destruct (proj2 (mo_dom _ _ _ (ci_mem _ _ Hinv) id) ltac:(by eexists)) as [l HL]. exists l. split; [done|].
  split; [by eapply focus; [apply Hinv| |]|]. by apply (mo_list _ _ _ (ci_mem _ _ Hinv) id).
Qed.

Lemma inv_pairs id c l : ck_tab s !! id = Some c → L !! id = Some l →
  chunk_pairs s c = if c_fhead c <? FLISTFIRSTINDX then [(c_sclassid c, c_fhead c)] else pairs_of l.
Proof.
  intros Hc HL. unfold chunk_pairs. destruct (inv_list id c Hc) as (l' & HL' & Ho & _). simplify_eq. unfold lhead in Ho. destruct (_ <? _); [done|].
  rewrite (store_pairs_ok _ _ _ _ _ Ho). cbn [default from_option]. apply take_ge. unfold pairs_of. rewrite length_fmap.
  assert (H := fuel_enough _ _ _ _ Ho). cbn in H. lia.
Qed.

Lemma inv_files id c l : ck_tab s !! id = Some c → L !! id = Some l → ∀ k, files_of s id k = files c l k.
Proof.
  intros Hc HL k. unfold files_of. rewrite Hc, (inv_pairs id c l Hc HL). unfold files. destruct (_ <? _); [|apply pairs_of_files].
  cbn. rewrite (Z.eqb_sym (c_sclassid c) k). destruct (k =? _); lia.
Qed.

Lemma inv_total id c l : ck_tab s !! id = Some c → L !! id = Some l → total_of s id = if c_fhead c <? FLISTFIRSTINDX then c_fhead c else total l.
Proof.
  intros Hc HL. unfold total_of. rewrite Hc, (inv_pairs id c l Hc HL). destruct (_ <? _); [cbn; lia|apply pairs_of_total].
Qed.

(** A chunk is found where there is one, and looking it up changes nothing else. *)
Lemma chunk_find_ok id : ∃ s', chunk_find id s = (s', match ck_tab s !! id with Some _ => Some id | None => None end)
  ∧ chunks_inv s' L ∧ ck_tab s' = ck_tab s ∧ ck_mem s' = ck_mem s ∧ nextchunkid s' = nextchunkid s ∧ ck_counts s' = ck_counts s ∧ ck_checks s' = ck_checks s.
Proof.
  unfold chunk_find. destruct (Z.eqb_spec (lastchunkid s) id) as [Hid|Hid].
  - exists s. split; [|done]. f_equal. assert (Hl := ci_last _ _ Hinv). destruct (lastchunkptr s) as [p|].
    + destruct Hl as [-> [c Hc]]. rewrite Hid in Hc |- *. by rewrite Hc.
    + destruct (ck_tab s !! id) as [c|] eqn:Hc; [|done]. assert (H := ci_ids _ _ Hinv id ltac:(by eexists)). lia.
  - destruct (ck_tab s !! id) as [c|] eqn:Hc; [|by exists s]. eexists. split; [done|]. split; [|done]. destruct Hinv. split; try done.
Qed.
End inv.

(** ** Steps of the invariant *)

Lemma attrs_sclass k h c : attrs_ok c → attrs_ok (set_sclass k (set_fhead h c)).
Proof. by intros [Hm Hf Hv Hl Hg Hc]; split. Qed.

(** What one operation does to the files of one chunk, and to nothing else. *)
Record files_step (s s' : chunks) (id : Z) (d : Z → Z) : Prop := {
  fs_files : ∀ j q, files_of s' j q = files_of s j q + (if j =? id then d q else 0);
  fs_other : ∀ j, j ≠ id → ck_tab s' !! j = ck_tab s !! j;
  fs_chunk : ∀ c, ck_tab s !! id = Some c → ∃ h k, ck_tab s' !! id = Some (set_sclass k (set_fhead h c));
  fs_next : nextchunkid s' = nextchunkid s;
  fs_room : flistfirstfree (ck_mem s) ≤ flistfirstfree (ck_mem s') ≤ flistfirstfree (ck_mem s) + 2 }.

Lemma frame_first n R m m' : frame n R m m' → flistfirstfree m ≤ flistfirstfree m' ≤ flistfirstfree m + n.
Proof. intros [_ H]. lia. Qed.

(** ** Steps that leave the files alone *)

(** Chunks that differ in what the counts of files do not use. *)
Definition same_files (c c' : chunk) : Prop := c_fhead c' = c_fhead c ∧ c_sclassid c' = c_sclassid c.

Lemma same_rep c c' l : same_files c c' → rep c l → rep c' l.
Proof. intros [Hh Hk] [Hs Hb]. split; rewrite Hh, Hk; done. Qed.

(** A chunk with new cells, the counters brought up to date. *)
Lemma after_inv s L id c c' n b m' l' : chunks_inv s L → ck_tab s !! id = Some c → owned m' (lhead c') l' (all_idx (delete id L)) →
  frame b (all_idx (delete id L)) (ck_mem s) m' → rep c' l' → attrs_ok c' → counts_ok n (<[id := c']> (ck_tab s)) →
  chunks_inv (after id c' n m' s) (<[id := l']> L).
Proof.
  intros Hinv Hc Ho Hfr Hrep Ha Hn. destruct Hinv as [Hm _ Hat Hi Hnx Hla]. split; cbn; [by eapply unfocus|done| | |done|].
  - intros j cj Hj. destruct (decide (j = id)) as [->|Hne]; [rewrite lookup_insert_eq in Hj; by simplify_eq|]. rewrite lookup_insert_ne in Hj by done. by apply (Hat j).
  - intros j. destruct (decide (j = id)) as [->|Hne]; [intros _; apply Hi; by eexists|]. rewrite lookup_insert_ne by done. apply Hi.
  - destruct (lastchunkptr s) as [p|]; [|done]. destruct Hla as [-> Hp]. split; [done|].
    destruct (decide (lastchunkid s = id)) as [->|Hne]; [rewrite lookup_insert_eq; by eexists|]. by rewrite lookup_insert_ne.
Qed.

Lemma put_chunk_inv s L id c c' n : chunks_inv s L → ck_tab s !! id = Some c → same_files c c' → attrs_ok c' → counts_ok n (<[id := c']> (ck_tab s)) →
  chunks_inv (put_chunk id c' (with_counts n s)) L.
Proof.
  intros Hinv Hc Hs Ha Hn. destruct (inv_list _ _ Hinv id c Hc) as (l & HL & Ho & Hrep).
  assert (E : put_chunk id c' (with_counts n s) = after id c' n (ck_mem s) s) by by destruct s. rewrite E, <-(insert_id L id l HL).
  eapply after_inv; [done|done| |apply frame_refl|by eapply same_rep|done|done]. unfold lhead. by rewrite (proj1 Hs).
Qed.

Lemma put_files s id c c' n j q : ck_tab s !! id = Some c → same_files c c' → files_of (put_chunk id c' (with_counts n s)) j q = files_of s j q.
Proof.
  intros Hc [Hh Hk]. unfold files_of, chunk_pairs. cbn. destruct (decide (j = id)) as [->|Hne].
  - by rewrite lookup_insert_eq, Hc, Hh, Hk.
  - by rewrite lookup_insert_ne.
Qed.

(** The version and the lock. *)
Lemma plain_inv s L id c c' : chunks_inv s L → ck_tab s !! id = Some c → same_files c c' → attrs_ok c' → key_of true c' = key_of true c →
  key_of false c' = key_of false c → chunks_inv (put_chunk id c' s) L.
Proof.
  intros Hinv Hc Hs Ha Ht Hf. assert (E : put_chunk id c' s = put_chunk id c' (with_counts (ck_counts s) s)) by by destruct s. rewrite E.
  eapply put_chunk_inv; try done. eapply keyed_same; [apply Hinv|done|done|done].
Qed.

Lemma plain_files s id c c' j q : ck_tab s !! id = Some c → same_files c c' → files_of (put_chunk id c' s) j q = files_of s j q.
Proof. intros Hc Hs. assert (E : put_chunk id c' s = put_chunk id c' (with_counts (ck_counts s) s)) by by destruct s. rewrite E. by eapply put_files. Qed.

Lemma attrs_version v c : attrs_ok c → attrs_ok (set_version v c).
Proof. intros [Hm Hf Hv Hl Hg Hc]. split; try done. by apply Z.mod_pos_bound. Qed.
Lemma attrs_zeros z c : attrs_ok c → attrs_ok (set_readzeros z c).
Proof. by intros [Hm Hf Hv Hl Hg Hc]; split. Qed.
Lemma attrs_lock t c : is_u32 t → attrs_ok c → attrs_ok (set_lockedto t c).
Proof. by intros Ht [Hm Hf Hv Hl Hg Hc]; split. Qed.
Lemma lock_u32 x : is_u32 (u32 x).
Proof. by apply Z.mod_pos_bound. Qed.

Lemma land_3 f : 0 ≤ Z.land f 3 < 4.
Proof. change 3 with (Z.ones 2). rewrite Z.land_ones by lia. by apply Z.mod_pos_bound. Qed.

(** Flags are counted too. *)
Lemma flags_inv s L id c f : chunks_inv s L → ck_tab s !! id = Some c → ∃ s', chunk_state_set_flags id f s = Some s' ∧ chunks_inv s' L
  ∧ (∀ j q, files_of s' j q = files_of s j q) ∧ ck_tab s' = <[id := set_flags (Z.land f 3) c]> (ck_tab s) ∧ ck_mem s' = ck_mem s ∧ nextchunkid s' = nextchunkid s.
Proof.
  intros Hinv Hc. unfold chunk_state_set_flags. rewrite Hc. cbn [mbind option_bind]. eexists. split; [done|]. destruct (ci_attrs _ _ Hinv id c Hc) as [Hm Hf Hv Hl Hg Hcp].
  split; [|split; [intros; by eapply put_files|done]].
  eapply put_chunk_inv; [done|done|done| |].
  - split; cbn; [done|apply land_3|done..].
  - assert (H := state_change_ok (ck_counts s) (ck_tab s) id c (set_flags (Z.land f 3) c) (ci_counts _ _ Hinv) Hc Hm eq_refl eq_refl eq_refl).
    cbn in H. unfold chunk_state_change, sclass_indx, FLAG_MASK in *. rewrite <-Z.land_assoc in H. exact H.
Qed.

(** A new chunk has no files. *)
Lemma new_inv s L id : chunks_inv s L → ck_tab s !! id = None → 0 < id < nextchunkid s → ∃ s', chunk_new id s = Some s'
  ∧ chunks_inv s' (<[id := []]> L) ∧ (∀ j q, files_of s' j q = files_of s j q)
  ∧ ck_tab s' = <[id := mk_chunk 0 false 0 0 FLISTNULLINDX 0 STORAGE_MODE_COPIES 0 0 false]> (ck_tab s) ∧ ck_mem s' = ck_mem s ∧ nextchunkid s' = nextchunkid s.
Proof.
  intros Hinv Hc Hid. unfold chunk_new. rewrite Hc. eexists. split; [done|]. assert (HL : L !! id = None).
  { destruct (L !! id) as [l|] eqn:HL; [|done]. destruct (proj1 (mo_dom _ _ _ (ci_mem _ _ Hinv) id) ltac:(by eexists)) as [c' Hc']. by rewrite Hc in Hc'. }
  split; [|split; [|done]].
  - destruct Hinv as [Hm Hn Hat Hi Hnx Hla]. split; cbn; [| | | |done|].
    + eapply (unfocus (ck_mem s) (ck_mem s) 0); [done|by eapply focus_new|apply frame_refl|]. by split.
    + intros key. rewrite map_sum_insert, Hc. cbn [from_option]. erewrite bump_sum; [|apply bump_sum, Hn]. f_equal. unfold keyed, key_of.
      cbn [c_storage_mode c_sclassid c_flags c_all_gequiv c_reg_gequiv]. change (sclass_indx 0 0) with 0. change (at_most_10 0) with 0. lia.
    + intros j cj Hj. destruct (decide (j = id)) as [->|Hne]; [rewrite lookup_insert_eq in Hj; by simplify_eq|]. rewrite lookup_insert_ne in Hj by done. by apply (Hat j).
    + intros j. destruct (decide (j = id)) as [->|Hne]; [done|]. rewrite lookup_insert_ne by done. apply Hi.
    + split; [done|]. rewrite lookup_insert_eq. by eexists.
  - intros j q. unfold files_of, chunk_pairs. cbn. destruct (decide (j = id)) as [->|Hne]; [rewrite lookup_insert_eq, Hc; cbn; by destruct q|]. by rewrite lookup_insert_ne.
Qed.

Lemma next_inv s L n : chunks_inv s L → nextchunkid s ≤ n < 2 ^ 64 → chunks_inv (with_next n s) L.
Proof. intros [Hm Hn Hat Hi Hnx Hla] H. split; cbn; try done; [|lia]. intros id Hid. specialize (Hi id Hid). lia. Qed.

(** An unused chunk without copies goes. *)
Lemma chunk_drop_inv s L id c : chunks_inv s L → ck_tab s !! id = Some c → c_fhead c = FLISTNULLINDX → c_copies c = false → ∃ s', chunk_delete id s = Some s'
  ∧ chunks_inv s' (delete id L) ∧ (∀ j q, files_of s' j q = files_of s j q).
Proof.
  intros Hinv Hc Hz Hcp. unfold chunk_delete. rewrite Hc. cbn [mbind option_bind]. eexists. split; [done|].
  destruct (inv_list _ _ Hinv id c Hc) as (l & HL & Ho & Hrep). destruct (rp_small _ _ Hrep ltac:(by rewrite Hz)) as (_ & _ & Hk0 & _). specialize (Hk0 Hz).
  destruct (at_copies _ (ci_attrs _ _ Hinv id c Hc) Hcp) as (Hmode & Ha & Hr). rewrite Hmode. change (counted STORAGE_MODE_COPIES) with true. cbn iota.
  assert (Hlast : ∀ t n s0, s0 = (if bool_decide (lastchunkptr s = Some id) then with_last 0 None s else s) →
    ck_tab (with_tab t (with_counts n (with_number (u32 (ck_number s0 - 1)) s0))) = t ∧ ck_mem s0 = ck_mem s ∧ ck_counts s0 = ck_counts s ∧ ck_tab s0 = ck_tab s).
  { intros t n s0 ->. by destruct (bool_decide _). }
  split.
  - destruct Hinv as [Hm Hn Hat Hi Hnx Hla]. split; cbn.
    + destruct (bool_decide _); cbn; by eapply mem_drop.
    + destruct (bool_decide _); cbn; intros key; rewrite map_sum_delete, Hc; cbn [from_option]; (erewrite bump_sum; [|apply bump_sum, Hn]); f_equal;
        unfold keyed, key_of; rewrite Hmode, Ha, Hr; change (at_most_10 0) with 0; lia.
    + intros j cj Hj. destruct (bool_decide _); cbn in Hj; apply lookup_delete_Some in Hj as [_ Hj]; by apply (Hat j).
    + intros j [cj Hj]. destruct (bool_decide _); cbn in Hj |- *; apply lookup_delete_Some in Hj as [_ Hj]; apply Hi; by eexists.
    + by destruct (bool_decide _).
    + destruct (bool_decide (lastchunkptr s = Some id)) eqn:E; cbn; [done|]. destruct (lastchunkptr s) as [p|]; [|done]. destruct Hla as [-> Hp]. split; [done|].
      apply bool_decide_eq_false in E. rewrite lookup_delete_ne; [done|]. intros ->. by apply E.
  - intros j q. unfold files_of, chunk_pairs. destruct (bool_decide _); cbn; (destruct (decide (j = id)) as [->|Hne];
      [rewrite lookup_delete_eq, Hc, Hz, Hk0; cbn; by destruct q|by rewrite lookup_delete_ne]).
Qed.

Lemma newfs_inv : chunks_inv chunk_newfs ∅.
Proof.
  split; cbn; [| |done| |done|done].
  - split; cbn; [|done| |by vm_compute].
    + intros id. rewrite !lookup_empty. done.
    + exists []. split; [done|]. split; [constructor|done].
  - done.
  - intros id. rewrite lookup_empty. by intros [].
Qed.

Lemma calls_inv s L calls : chunks_inv s L →
  chunks_inv (mk_chunks (ck_tab s) (lastchunkid s) (lastchunkptr s) (ck_mem s) (ck_counts s) (ck_number s) (nextchunkid s) calls) L.
Proof. by intros [Hm Hn Hat Hi Hnx Hla]; split. Qed.

Lemma class_range s L id c : chunks_inv s L → ck_tab s !! id = Some c → 0 ≤ c_sclassid c ≤ 255.
Proof.
  intros Hinv Hc. destruct (inv_list _ _ Hinv id c Hc) as (l & _ & _ & [Hs Hb]). destruct (Z.ltb_spec (c_fhead c) FLISTFIRSTINDX) as [H|H].
  - destruct (Hs H) as (Hge & _ & H0 & H1). destruct (Z.eq_dec (c_fhead c) 0) as [E|E]; [rewrite H0 by done; lia|]. specialize (H1 ltac:(lia)). lia.
  - destruct (Hb H) as (_ & _ & Hk & _). lia.
Qed.
