(* ===== verification/ChunkProps.v ===== *)
(** * Theorems about the files of chunks

    Calls made for files change the count of each chunk as a function from classes to
    numbers ([chunk_files_refine]); a write never touches data that another file has
    ([chunk_write_exclusive]); no call fails an assertion or breaks the invariant
    ([chunk_calls_safe]); the counters tell which classes are in use
    ([class_in_use_exact]). *)

From S2P Require Import Prelude MapSum MfsComm DataPack StorageClass ChunkFiles ChunkLists ChunkInv.

#[global] Open Scope Z_scope.

Section step.
Variable sclasstab : Z → storageclass.
Variable joiningtab : Z → joining.
Variable MaxECRedundancyLevel : Z.

Abbreviation class_right := (class_right sclasstab joiningtab MaxECRedundancyLevel).
Abbreviation done_on := (done_on sclasstab joiningtab MaxECRedundancyLevel).
Abbreviation prio := (sclass_get_joining_priority sclasstab joiningtab MaxECRedundancyLevel).

(** The chunk [id] is kept by the best of the classes of its files. *)
Definition class_best (s : chunks) (id : Z) : Prop :=
  ∀ c k, ck_tab s !! id = Some c → 0 < files_of s id k → 1 ≤ k ≤ 255 → 0 < files_of s id (c_sclassid c) ∧ prio k ≤ prio (c_sclassid c).

Lemma update s L id c l F calls r : chunks_inv s L → ck_tab s !! id = Some c → L !! id = Some l →
  done_on s id c (all_idx (delete id L)) F calls r →
  ∃ s', r = Some (MFS_STATUS_OK, s') ∧ chunks_ok s' ∧ files_step s s' id (λ q, F q - files c l q) ∧ class_best s' id.
Proof.
  intros Hinv Hc HL (n & m' & c' & l' & -> & Hn & [Ho Hfr Hrep HF Hcl (h & k & ->)]). cbn zeta. eexists. split; [done|].
  assert (Hinv' : chunks_inv (mk_chunks (<[id:=set_sclass k (set_fhead h c)]> (ck_tab s)) (lastchunkid s) (lastchunkptr s) m' n (ck_number s) (nextchunkid s)
    (ck_checks s ++ calls)) (<[id:=l']> L)).
  { eapply (calls_inv (after id (set_sclass k (set_fhead h c)) n m' s)), after_inv; try done. by apply attrs_sclass, (ci_attrs _ _ Hinv id). }
  assert (Hid : ∀ q, files_of (mk_chunks (<[id:=set_sclass k (set_fhead h c)]> (ck_tab s)) (lastchunkid s) (lastchunkptr s) m' n (ck_number s) (nextchunkid s)
    (ck_checks s ++ calls)) id q = F q).
  { intros q. rewrite (inv_files _ _ Hinv' id (set_sclass k (set_fhead h c)) l'); [apply HF|apply lookup_insert_eq|apply lookup_insert_eq]. }
  split; [by eexists|]. split; [split|].
  - intros j q. destruct (Z.eqb_spec j id) as [->|Hne].
    + rewrite (inv_files _ _ Hinv id c l Hc HL). rewrite Hid. lia.
    + rewrite Z.add_0_r. destruct (ck_tab s !! j) as [cj|] eqn:Hj.
      * destruct (inv_list _ _ Hinv j cj Hj) as (lj & HLj & _). rewrite (inv_files _ _ Hinv j cj lj Hj HLj).
        apply (inv_files _ _ Hinv'); cbn; by rewrite lookup_insert_ne.
      * unfold files_of. cbn. by rewrite lookup_insert_ne, Hj by done.
  - intros j Hne. cbn. by rewrite lookup_insert_ne.
  - intros c0 Hc0. cbn. rewrite lookup_insert_eq. simplify_eq. by eexists _, _.
  - done.
  - exact (frame_first _ _ _ _ Hfr).
  - intros c0 q Hc0. cbn in Hc0. rewrite lookup_insert_eq in Hc0. injection Hc0 as <-. rewrite !Hid, <-!HF. apply Hcl.
Qed.

Lemma files_of_same s s' : ck_tab s' = ck_tab s → ck_mem s' = ck_mem s → files_of s' = files_of s.
Proof. intros Ht Hm. unfold files_of, chunk_pairs. by rewrite Ht, Hm. Qed.

Lemma class_best_other s s' id d j : files_step s s' id d → j ≠ id → class_best s j → class_best s' j.
Proof.
  intros Hs Hne Hb c k Hc Hpos. rewrite (fs_other _ _ _ _ Hs) in Hc by done. rewrite !(fs_files _ _ _ _ Hs), (proj2 (Z.eqb_neq j id)), !Z.add_0_r in * by done.
  by apply Hb.
Qed.

(** ** Files come, go and change their class *)

(** Calls made for the files: a file of the class [k] comes to the chunk [id] or leaves
    it, a file of the chunk changes its class. *)
Inductive file_op := AddFile (id k : Z) | DeleteFile (id k : Z) | ChangeFile (id prev new : Z).

Definition run_file_op (now : Z) (o : file_op) (s : chunks) : option (Z * chunks) :=
  match o with
  | AddFile id k => chunk_add_file sclasstab joiningtab MaxECRedundancyLevel id k s
  | DeleteFile id k => chunk_delete_file sclasstab joiningtab MaxECRedundancyLevel now id k s
  | ChangeFile id prev new => chunk_change_file sclasstab joiningtab MaxECRedundancyLevel id prev new s
  end.

Definition op_chunk (o : file_op) : Z := match o with AddFile id _ | DeleteFile id _ | ChangeFile id _ _ => id end.

(** What it means: one file more, one less. *)
Definition op_delta (o : file_op) (q : Z) : Z :=
  match o with
  | AddFile _ k => if q =? k then 1 else 0
  | DeleteFile _ k => - (if q =? k then 1 else 0)
  | ChangeFile _ prev new => - (if q =? prev then 1 else 0) + (if q =? new then 1 else 0)
  end.

(** The class of a file, and that there is such a file. *)
Definition op_fits (o : file_op) (f : Z → Z → Z) : Prop :=
  match o with
  | AddFile _ k => 1 ≤ k ≤ 255
  | DeleteFile id k => 1 ≤ k ≤ 255 ∧ 0 < f id k
  | ChangeFile id prev new => 1 ≤ prev ≤ 255 ∧ 1 ≤ new ≤ 255 ∧ 0 < f id prev
  end.

Definition spec_op (o : file_op) (f : Z → Z → Z) (j q : Z) : Z := f j q + (if j =? op_chunk o then op_delta o q else 0).

Definition room (n : Z) (s : chunks) : Prop := flistfirstfree (ck_mem s) + n < 2 ^ 32.

(** One call on the chunk that was found. *)
Lemma found_ok s L id c : chunks_inv s L → ck_tab s !! id = Some c → room 2 s → ∃ l, L !! id = Some l ∧ rep c l
  ∧ (∀ k, files_of s id k = files c l k)
  ∧ (∀ k, 1 ≤ k ≤ 255 → done_on s id c (all_idx (delete id L)) (λ q, files c l q + (if q =? k then 1 else 0)) []
       (chunk_add_file_int sclasstab joiningtab MaxECRedundancyLevel id k s))
  ∧ (∀ now k, 1 ≤ k ≤ 255 → 0 < files c l k → done_on s id c (all_idx (delete id L)) (λ q, files c l q - (if q =? k then 1 else 0)) []
       (chunk_delete_file_int sclasstab joiningtab MaxECRedundancyLevel now id k 0 s)).
Proof.
  intros Hinv Hc Hroom. destruct (inv_list _ _ Hinv id c Hc) as (l & HL & Ho & Hrep). exists l. split; [done|]. split; [done|].
  assert (Hm := at_mode _ (ci_attrs _ _ Hinv id c Hc)). assert (Hn := ci_counts _ _ Hinv).
  split; [by apply (inv_files _ _ Hinv)|]. split.
  - intros k Hk. by apply chunk_add_ok.
  - intros now k Hk Hpos. by apply chunk_delete_ok.
Qed.

Lemma nonempty c l k : rep c l → 0 < files c l k → c_fhead c ≠ FLISTNULLINDX.
Proof.
  intros Hrep Hpos E. rewrite files_small, E in Hpos by by rewrite E. unfold FLISTNULLINDX in Hpos. destruct (_ =? _); lia.
Qed.

Lemma file_op_ok now o s : chunks_ok s → room 2 s → is_Some (ck_tab s !! op_chunk o) → op_fits o (files_of s) →
  ∃ s', run_file_op now o s = Some (MFS_STATUS_OK, s') ∧ chunks_ok s' ∧ files_step s s' (op_chunk o) (op_delta o)
    ∧ ((∀ j, class_best s j) → ∀ j, class_best s' j).
Proof.
  intros [L Hinv] Hroom [c Hc] Hfit.
  destruct (chunk_find_ok s L Hinv (op_chunk o)) as (s1 & Hfind & Hinv1 & Ht1 & Hm1 & Hx1 & _). rewrite Hc in Hfind.
  assert (Hf1 := files_of_same s s1 Ht1 Hm1). assert (Hc1 : ck_tab s1 !! op_chunk o = Some c) by by rewrite Ht1.
  destruct (found_ok s1 L _ c Hinv1 Hc1 ltac:(unfold room in *; by rewrite Hm1)) as (l & HL & Hrep & Hfl & Hadd & Hdel). rewrite Hf1 in Hfl.
  assert (Hgo : ∀ F calls r, done_on s1 (op_chunk o) c (all_idx (delete (op_chunk o) L)) F calls r → (∀ q, F q - files c l q = op_delta o q) →
    ∃ s', r = Some (MFS_STATUS_OK, s') ∧ chunks_ok s' ∧ files_step s s' (op_chunk o) (op_delta o) ∧ ((∀ j, class_best s j) → ∀ j, class_best s' j)).
  { intros F calls r Hdone HF. destruct (update _ _ _ _ _ _ _ _ Hinv1 Hc1 HL Hdone) as (s' & -> & Hok & Hstep & Hbest). exists s'. split; [done|]. split; [done|].
    assert (Hs : files_step s s' (op_chunk o) (op_delta o)).
    { destruct Hstep as [Ha Hb Hd Hx Hr]. split; [|by rewrite Ht1 in Hb|by rewrite Ht1 in Hd|by rewrite <-Hx1|by rewrite Hm1 in Hr].
      intros j q. rewrite Ha, Hf1. destruct (_ =? _); [|done]. by rewrite HF. }
    split; [done|]. intros Hall j. destruct (decide (j = op_chunk o)) as [->|Hne]; [done|]. by eapply class_best_other. }
  destruct o as [id k|id k|id prev new]; cbn [run_file_op op_chunk op_fits] in *; unfold chunk_add_file, chunk_delete_file, chunk_change_file.
  - rewrite Hfind. eapply Hgo; [by apply Hadd|]. intros q. cbn. lia.
  - rewrite Hfind. destruct Hfit as [Hk Hpos]. eapply Hgo; [by apply Hdel; [|rewrite <-Hfl]|]. intros q. cbn. lia.
  - destruct Hfit as (Hp & Hn & Hpos). destruct (Z.eqb_spec prev new) as [->|Hne].
    + exists s. split; [done|]. split; [by exists L|]. split; [|done]. split; [|done| | |lia].
      * intros j q. cbn. destruct (j =? id), (q =? new); lia.
      * intros c0 Hc0. exists (c_fhead c0), (c_sclassid c0). rewrite Hc0. by destruct c0.
      * done.
    + rewrite Hfind, Hc1. cbn [mbind option_bind]. rewrite Hfl in Hpos. rewrite (proj2 (Z.eqb_neq _ _) (nonempty _ _ _ Hrep Hpos)).
      destruct (change_ok sclasstab joiningtab MaxECRedundancyLevel s1 id c l (all_idx (delete id L))) with (prev := prev) (new := new) as (b & Hdone); try done.
      * apply Hinv1.
      * by apply (ci_attrs _ _ Hinv1 id c).
      * by eapply focus; [apply Hinv1| |].
      * unfold room in Hroom. by rewrite Hm1.
      * unfold set_and_check in Hdone. eapply Hgo; [exact Hdone|]. intros q. cbn. lia.
Qed.

(** Any calls in a row. *)
Fixpoint run_file_ops (now : Z) (os : list file_op) (s : chunks) : option chunks :=
  match os with
  | [] => Some s
  | o :: os => '(r, s) ← run_file_op now o s; if r =? MFS_STATUS_OK then run_file_ops now os s else None
  end.

Fixpoint ops_fit (os : list file_op) (f : Z → Z → Z) : Prop :=
  match os with [] => True | o :: os => op_fits o f ∧ ops_fit os (spec_op o f) end.

Definition spec_ops (os : list file_op) (f : Z → Z → Z) : Z → Z → Z := foldl (λ f o, spec_op o f) f os.

Lemma op_fits_ext o f g : (∀ j q, f j q = g j q) → op_fits o f → op_fits o g.
Proof. intros H. by destruct o; cbn; rewrite <-?H. Qed.

Lemma spec_op_ext o f g : (∀ j q, f j q = g j q) → ∀ j q, spec_op o f j q = spec_op o g j q.
Proof. intros H j q. unfold spec_op. by rewrite H. Qed.

Lemma ops_fit_ext os : ∀ f g, (∀ j q, f j q = g j q) → ops_fit os f → ops_fit os g.
Proof. induction os as [|o os IH]; [done|]. intros f g H [Ho Hos]. split; [by eapply op_fits_ext|]. by eapply IH, Hos; apply spec_op_ext. Qed.

Lemma spec_ops_ext os : ∀ f g, (∀ j q, f j q = g j q) → ∀ j q, spec_ops os f j q = spec_ops os g j q.
Proof. induction os as [|o os IH]; [done|]. intros f g H. apply IH. by apply spec_op_ext. Qed.

(** C10: the count of the files of a chunk by class is a function from the classes to
    numbers that the calls change as they should: after any calls that add files to
    existing chunks, remove counted files and change the class of counted files - each
    a class of 1 to 255, the array of cells below its 32 bits - every call succeeded,
    each chunk counts exactly the files it has, the lists of cells and the counters of
    the classes are whole, and a chunk that was kept by the first in order of the classes
    of its files still is. *)
Theorem chunk_files_refine now os s :
  chunks_ok s → room (2 * Z.of_nat (length os)) s → (∀ o, o ∈ os → is_Some (ck_tab s !! op_chunk o)) → ops_fit os (files_of s) →
  ∃ s', run_file_ops now os s = Some s' ∧ chunks_ok s' ∧ (∀ id k, files_of s' id k = spec_ops os (files_of s) id k)
    ∧ ((∀ id, class_best s id) → ∀ id, class_best s' id).
Proof.
  revert s. induction os as [|o os IH]; intros s Hok Hroom Hex Hfit; [by exists s|]. destruct Hfit as [Hfit Hfits]. cbn [length] in Hroom.
  destruct (file_op_ok now o s Hok) as (s1 & Hrun & Hok1 & Hstep & Hbest); [unfold room in *; lia|by apply Hex, elem_of_cons; left|done|].
  assert (Hspec : ∀ j q, spec_op o (files_of s) j q = files_of s1 j q) by (intros j q; by rewrite (fs_files _ _ _ _ Hstep)).
  destruct (IH s1 Hok1) as (s2 & Hrun2 & Hok2 & Hf2 & Hb2).
  - assert (H := fs_room _ _ _ _ Hstep). unfold room in *. lia.
  - intros o' Ho'. specialize (Hex o' ltac:(apply elem_of_cons; by right)). destruct (decide (op_chunk o' = op_chunk o)) as [E|Hne].
    + rewrite E in Hex |- *. destruct Hex as [c Hc]. destruct (fs_chunk _ _ _ _ Hstep c Hc) as (h & k & ->). by eexists.
    + by rewrite (fs_other _ _ _ _ Hstep).
  - by eapply ops_fit_ext.
  - exists s2. cbn [run_file_ops]. rewrite Hrun. cbn [mbind option_bind]. rewrite Z.eqb_refl. split; [done|]. split; [done|]. split.
    + intros id k. rewrite Hf2. cbn. symmetry. by apply spec_ops_ext.
    + intros H. by apply Hb2, Hbest.
Qed.

(** ** Writing *)

Lemma total_ge l : Forall cell_ok l → Z.of_nat (length l) ≤ total l.
Proof. induction 1 as [|[[i n] k] l [Hn _] _ IH]; [done|]. cbn [length]. unfold total in *. cbn in Hn |- *. lia. Qed.

(** One file, and no file, are seen in [fhead]. *)
Lemma total_fhead s L id c : chunks_inv s L → ck_tab s !! id = Some c →
  (total_of s id = 1 ↔ c_fhead c = FLISTONEFILEINDX) ∧ (total_of s id = 0 ↔ c_fhead c = FLISTNULLINDX).
Proof.
  intros Hinv Hc. destruct (inv_list _ _ Hinv id c Hc) as (l & HL & _ & Hrep). rewrite (inv_total _ _ Hinv id c l Hc HL).
  destruct (Z.ltb_spec (c_fhead c) FLISTFIRSTINDX) as [Hs|Hb]; [done|]. destruct (rp_big _ _ Hrep Hb) as (Hne & Hok & _ & Hone).
  assert (Ht : 2 ≤ total l).
  { assert (Hge := total_ge l (lo_cells _ Hok)). destruct l as [|[[i n] k] [|e l]]; [done| |cbn [length] in Hge; lia].
    destruct (Hone i n k eq_refl) as [Hn _]. unfold total, FLISTFIRSTINDX in *. cbn. lia. }
  unfold FLISTFIRSTINDX, FLISTONEFILEINDX, FLISTNULLINDX in *. split; split; lia.
Qed.

(** A new chunk of the next number. *)
Lemma new_file_ok s L k : chunks_inv s L → nextchunkid s + 1 < 2 ^ 64 → ck_tab s !! nextchunkid s = None ∧ ∃ s' c L', new_for_file k s = Some (nextchunkid s, s')
  ∧ chunks_inv s' L' ∧ (∀ j q, files_of s' j q = files_of s j q) ∧ ck_tab s' = <[nextchunkid s := c]> (ck_tab s) ∧ c_version c = 1
  ∧ ck_mem s' = ck_mem s ∧ nextchunkid s' = nextchunkid s + 1.
Proof.
  intros Hinv Hnx. assert (Hn1 := ci_next _ _ Hinv). assert (Hnone : ck_tab s !! nextchunkid s = None).
  { destruct (ck_tab s !! nextchunkid s) as [c|] eqn:Hc; [|done]. assert (H := ci_ids _ _ Hinv _ ltac:(by eexists)). lia. }
  split; [done|]. unfold new_for_file. assert (Hu : u64 (nextchunkid s + 1) = nextchunkid s + 1) by (apply Z.mod_small; lia). rewrite Hu.
  assert (Hinv1 := next_inv s L (nextchunkid s + 1) Hinv ltac:(lia)).
  destruct (new_inv _ _ (nextchunkid s) Hinv1 Hnone) as (s2 & -> & Hinv2 & Hf2 & Ht2 & Hm2 & Hx2); [cbn; lia|]. cbn [mbind option_bind].
  set (c0 := mk_chunk _ _ _ _ _ _ _ _ _ _) in Ht2. assert (Hc2 : ck_tab s2 !! nextchunkid s = Some c0) by (rewrite Ht2; cbn; apply lookup_insert_eq).
  rewrite Hc2. cbn [mbind option_bind]. eexists _, (set_version 1 c0), _. split; [done|]. split.
  - eapply plain_inv; [exact Hinv2|exact Hc2|done| |done|done]. by apply attrs_version, (ci_attrs _ _ Hinv2 _ _ Hc2).
  - split; [intros j q; rewrite (plain_files _ _ c0) by done; by rewrite Hf2|]. split; [|done]. cbn. rewrite Ht2. cbn. by rewrite insert_insert_eq.
Qed.

Lemma lock_ok s L id c ts : chunks_inv s L → ck_tab s !! id = Some c → ∃ s', lock_chunk id ts s = Some s' ∧ chunks_inv s' L
  ∧ (∀ j q, files_of s' j q = files_of s j q) ∧ ck_tab s' = <[id := set_lockedto (u32 (ts + LOCKTIMEOUT)) c]> (ck_tab s).
Proof.
  intros Hinv Hc. unfold lock_chunk. rewrite Hc. cbn [mbind option_bind]. eexists. split; [done|]. split; [|split; [intros; by eapply plain_files|done]].
  eapply plain_inv; [done|done|done| |done|done]. apply attrs_lock; [apply lock_u32|]. by apply (ci_attrs _ _ Hinv _ _ Hc).
Qed.

(** Counting a file in, or out, of a chunk that is there. *)
Lemma add_int_ok s id c k : chunks_ok s → ck_tab s !! id = Some c → room 2 s → 1 ≤ k ≤ 255 →
  ∃ s', chunk_add_file_int sclasstab joiningtab MaxECRedundancyLevel id k s = Some (MFS_STATUS_OK, s') ∧ chunks_ok s'
    ∧ files_step s s' id (λ q, if q =? k then 1 else 0).
Proof.
  intros [L Hinv] Hc Hroom Hk. destruct (found_ok s L id c Hinv Hc Hroom) as (l & HL & _ & _ & Hadd & _).
  destruct (update _ _ _ _ _ _ _ _ Hinv Hc HL (Hadd k Hk)) as (s' & -> & Hok & [Ha Hb Hd Hx Hr] & _). exists s'. split; [done|]. split; [done|].
  split; try done. intros j q. rewrite Ha. destruct (j =? id); lia.
Qed.

Lemma delete_int_ok now s id c k : chunks_ok s → ck_tab s !! id = Some c → room 2 s → 1 ≤ k ≤ 255 → 0 < files_of s id k →
  ∃ s', chunk_delete_file_int sclasstab joiningtab MaxECRedundancyLevel now id k 0 s = Some (MFS_STATUS_OK, s') ∧ chunks_ok s'
    ∧ files_step s s' id (λ q, - (if q =? k then 1 else 0)).
Proof.
  intros [L Hinv] Hc Hroom Hk Hpos. destruct (found_ok s L id c Hinv Hc Hroom) as (l & HL & _ & Hfl & _ & Hdel). rewrite Hfl in Hpos.
  destruct (update _ _ _ _ _ _ _ _ Hinv Hc HL (Hdel now k Hk Hpos)) as (s' & -> & Hok & [Ha Hb Hd Hx Hr] & _). exists s'. split; [done|]. split; [done|].
  split; try done. intros j q. rewrite Ha. destruct (j =? id); lia.
Qed.

(** A write of a file of the class [k] to its chunk, or its truncation ([op] is [None]). *)
Lemma modify_ok ts now id k op s c :
  chunks_ok s → room 4 s → nextchunkid s + 1 < 2 ^ 64 → ck_tab s !! id = Some c → 1 ≤ k ≤ 255 → 0 < files_of s id k →
  let modify n := modify_chunk sclasstab joiningtab MaxECRedundancyLevel ts now n id k op s in
  if total_of s id =? 1 then
    ∃ s', modify id = Some (MFS_STATUS_OK, id, s') ∧ chunks_ok s' ∧ (∀ j q, files_of s' j q = files_of s j q)
      ∧ ck_tab s' = <[id := set_lockedto (u32 (ts + LOCKTIMEOUT)) (if default true op then set_version (c_version c + 1) c else c)]> (ck_tab s)
  else
    ∃ s', modify (nextchunkid s) = Some (MFS_STATUS_OK, nextchunkid s, s') ∧ chunks_ok s' ∧ ck_tab s !! nextchunkid s = None
      ∧ (∀ q, files_of s' (nextchunkid s) q = if q =? k then 1 else 0) ∧ (∀ q, files_of s' id q = files_of s id q - if q =? k then 1 else 0)
      ∧ (∃ c', ck_tab s' !! nextchunkid s = Some c' ∧ c_version c' = 1)
      ∧ (∃ h k', ck_tab s' !! id = Some (set_sclass k' (set_fhead h c)))
      ∧ ∀ j, j ≠ id → j ≠ nextchunkid s → ck_tab s' !! j = ck_tab s !! j ∧ ∀ q, files_of s' j q = files_of s j q.
Proof.
  intros [L Hinv] Hroom Hnx Hc Hk Hpos modify. unfold modify, modify_chunk. clear modify.
  assert (Hid := ci_ids _ _ Hinv id ltac:(by eexists)).
  destruct (chunk_find_ok s L Hinv id) as (s1 & -> & Hinv1 & Ht1 & Hm1 & Hx1 & _). rewrite Hc. assert (Hf1 := files_of_same s s1 Ht1 Hm1).
  assert (Hc1 : ck_tab s1 !! id = Some c) by by rewrite Ht1. rewrite Hc1. cbn [mbind option_bind].
  destruct (total_fhead s L id c Hinv Hc) as [Hone _]. destruct (inv_list _ _ Hinv id c Hc) as (l & HL & _ & Hrep).
  destruct (Z.eqb_spec (total_of s id) 1) as [E|E].
  - apply Hone in E. rewrite E, !Z.eqb_refl. cbn [negb].
    set (c' := if default true op then set_version (c_version c + 1) c else c).
    assert (Hput : (if default true op then Some (put_chunk id (set_version (c_version c + 1) c) s1) else Some s1) = Some (put_chunk id c' s1)).
    { unfold c'. destruct (default true op); [done|]. by rewrite put_chunk_same. }
    rewrite Hput. cbn [mbind option_bind].
    assert (Hinv2 : chunks_inv (put_chunk id c' s1) L).
    { eapply plain_inv; [done|done|by destruct (default true op)| |by destruct (default true op)|by destruct (default true op)]. assert (H := ci_attrs _ _ Hinv1 _ _ Hc1). unfold c'. destruct (default true op); [by apply attrs_version|done]. }
    destruct (lock_ok _ _ id c' ts Hinv2 ltac:(cbn; apply lookup_insert_eq)) as (s3 & -> & Hinv3 & Hf3 & Ht3). cbn [mbind option_bind].
    exists s3. split; [done|]. split; [by eexists|]. split.
    + intros j q. rewrite Hf3, <-Hf1. eapply plain_files; [done|by unfold c'; destruct (default true op)].
    + rewrite Ht3. cbn. by rewrite insert_insert_eq, Ht1.
  - rewrite (proj2 (Z.eqb_neq (c_fhead c) FLISTONEFILEINDX)) by (intros H; by apply E, Hone).
    rewrite (inv_files _ _ Hinv id c l Hc HL) in Hpos. rewrite (proj2 (Z.eqb_neq _ _) (nonempty _ _ _ Hrep Hpos)). rewrite Hx1, Z.eqb_refl. cbn [negb].
    rewrite <-(inv_files _ _ Hinv id c l Hc HL) in Hpos.
    destruct (new_file_ok s1 L k Hinv1) as (Hnone & s2 & c2 & L2 & Hnew & Hinv2 & Hf2 & Ht2 & Hv2 & Hm2 & Hx2); [lia|]. rewrite Hx1 in *. rewrite Hnew. cbn [mbind option_bind].
    assert (Hroom2 : room 4 s2) by (unfold room in *; by rewrite Hm2, Hm1). set (n := nextchunkid s) in *.
    assert (Hne : id ≠ n) by (unfold n; lia). assert (Hc2 : ck_tab s2 !! id = Some c) by (by rewrite Ht2, lookup_insert_ne).
    destruct (delete_int_ok now s2 id c k ltac:(by eexists) Hc2) as (s3 & -> & Hok3 & H3); [unfold room in *; lia|done|by rewrite Hf2, Hf1|]. cbn [mbind option_bind].
    assert (Hn3 : ck_tab s3 !! n = Some c2) by (rewrite (fs_other _ _ _ _ H3), Ht2 by done; apply lookup_insert_eq).
    destruct (add_int_ok s3 n c2 k Hok3 Hn3) as (s4 & -> & Hok4 & H4); [assert (H := fs_room _ _ _ _ H3); unfold room in *; lia|done|]. cbn [mbind option_bind].
    destruct (fs_chunk _ _ _ _ H4 c2 Hn3) as (h & k' & Hn4). destruct Hok4 as [L4 Hinv4].
    destruct (lock_ok s4 L4 n _ ts Hinv4 Hn4) as (s5 & -> & Hinv5 & Hf5 & Ht5). cbn [mbind option_bind].
    assert (Hfiles : ∀ j q, files_of s5 j q = files_of s j q - (if j =? id then if q =? k then 1 else 0 else 0) + (if j =? n then if q =? k then 1 else 0 else 0)).
    { intros j q. rewrite Hf5, (fs_files _ _ _ _ H4), (fs_files _ _ _ _ H3), Hf2, Hf1. destruct (j =? id); lia. }
    exists s5. split; [done|]. split; [by eexists|]. split; [by rewrite <-Ht1|]. split; [|split; [|split; [|split]]].
    + intros q. rewrite Hfiles, Z.eqb_refl, (proj2 (Z.eqb_neq n id)) by done. unfold files_of. rewrite <-Ht1, Hnone. lia.
    + intros q. rewrite Hfiles, Z.eqb_refl, (proj2 (Z.eqb_neq id n)) by done. lia.
    + rewrite Ht5, lookup_insert_eq. by eexists.
    + destruct (fs_chunk _ _ _ _ H3 c Hc2) as (h' & k2 & Hid3). exists h', k2. by rewrite Ht5, lookup_insert_ne, (fs_other _ _ _ _ H4) by done.
    + intros j Hj Hjn. split.
      * by rewrite Ht5, lookup_insert_ne, (fs_other _ _ _ _ H4), (fs_other _ _ _ _ H3), Ht2, lookup_insert_ne, Ht1 by done.
      * intros q. rewrite Hfiles, (proj2 (Z.eqb_neq j id)), (proj2 (Z.eqb_neq j n)) by done. lia.
Qed.


(** ** Every call *)

(** The calls of the replay and of the tree. *)
Inductive chunk_op :=
| OpFile (o : file_op)
| OpNext (n : Z)
| OpAdd (ts id version lockedto : Z)
| OpDel (ts id version : Z)
| OpFlags (ts id : Z)
| OpIncrease (id : Z)
| OpVersion (id version : Z)
| OpUnlock (ts id : Z)
| OpArch (id : Z) (flag : bool)
| OpTrash (id : Z) (flag : bool)
| OpAuto (id archreftime : Z) (intrash : bool)
| OpModify (ts n id k : Z) (flag : bool)
| OpTruncate (ts n id k : Z).

Definition run_chunk_op (now : Z) (o : chunk_op) (s : chunks) : option (Z * chunks) :=
  match o with
  | OpFile o => run_file_op now o s
  | OpNext n => Some (chunk_mr_nextchunkid n s)
  | OpAdd ts id version lockedto => chunk_mr_chunkadd ts id version lockedto s
  | OpDel ts id version => chunk_mr_chunkdel ts id version s
  | OpFlags ts id => chunk_mr_flagsclr ts id s
  | OpIncrease id => chunk_mr_increase_version id s
  | OpVersion id version => chunk_mr_set_version id version s
  | OpUnlock ts id => chunk_mr_unlock ts id s
  | OpArch id flag => '(r, _, s) ← chunk_set_archflag id flag s; Some (r, s)
  | OpTrash id flag => chunk_set_trashflag id flag s
  | OpAuto id t intrash => '(r, _, _, s) ← chunk_set_autoarch id t intrash s; Some (r, s)
  | OpModify ts n id k flag => '(r, _, s) ← chunk_mr_multi_modify sclasstab joiningtab MaxECRedundancyLevel ts now n id k flag s; Some (r, s)
  | OpTruncate ts n id k => '(r, _, s) ← chunk_mr_multi_truncate sclasstab joiningtab MaxECRedundancyLevel ts now n id k s; Some (r, s)
  end.

(** Classes are classes, and a chunk with files has the file the call is for. *)
Definition op_allowed (o : chunk_op) (s : chunks) : Prop :=
  match o with
  | OpFile (AddFile _ k) => 1 ≤ k ≤ 255
  | OpFile (DeleteFile id k) => 1 ≤ k ≤ 255 ∧ (total_of s id ≠ 0 → 0 < files_of s id k)
  | OpFile (ChangeFile id prev new) => 1 ≤ prev ≤ 255 ∧ 1 ≤ new ≤ 255 ∧ (total_of s id ≠ 0 → 0 < files_of s id prev)
  | OpNext n => n < 2 ^ 64
  | OpAdd _ id _ lockedto => 0 < id < 2 ^ 64 - 1 ∧ is_u32 lockedto
  | OpModify _ _ id k _ => 1 ≤ k ≤ 255 ∧ (id ≠ 0 → total_of s id ≠ 0 → 0 < files_of s id k)
  | OpTruncate _ _ id k => 1 ≤ k ≤ 255 ∧ (total_of s id ≠ 0 → 0 < files_of s id k)
  | _ => True
  end.

Definition fine (r : option (Z * chunks)) : Prop := ∃ st s', r = Some (st, s') ∧ chunks_ok s'.

Lemma fine_same st s L : chunks_inv s L → fine (Some (st, s)).
Proof. intros H. exists st, s. split; [done|]. by exists L. Qed.

(** A call that looks its chunk up first. *)
Lemma fine_find id s L f : chunks_inv s L → (∀ s1, chunks_inv s1 L → ck_tab s1 = ck_tab s → ck_tab s1 !! id = None → fine (f s1 None)) →
  (∀ s1 c, chunks_inv s1 L → ck_tab s1 = ck_tab s → ck_tab s1 !! id = Some c → fine (f s1 (Some id))) →
  fine (let '(s1, found) := chunk_find id s in f s1 found).
Proof.
  intros Hinv Hn Hs. destruct (chunk_find_ok s L Hinv id) as (s1 & -> & Hinv1 & Ht & _). destruct (ck_tab s !! id) as [c|] eqn:Hc.
  - apply (Hs s1 c); [done|done|by rewrite Ht].
  - apply Hn; [done|done|by rewrite Ht].
Qed.

Lemma fine_plain id s L c c' : chunks_inv s L → ck_tab s !! id = Some c → same_files c c' → attrs_ok c' → key_of true c' = key_of true c →
  key_of false c' = key_of false c → fine (Some (MFS_STATUS_OK, put_chunk id c' s)).
Proof. intros Hinv Hc Hs Ha Ht Hf. eapply fine_same, plain_inv; done. Qed.

Lemma change_flags_inv id f s L c : chunks_inv s L → ck_tab s !! id = Some c → ∃ s', change_flags id f s = Some s' ∧ chunks_inv s' L.
Proof.
  intros Hinv Hc. unfold change_flags. rewrite Hc. cbn [mbind option_bind]. destruct (negb _); [|by eexists].
  destruct (flags_inv s L id c f Hinv Hc) as (s' & -> & Hinv' & _). cbn [mbind option_bind]. eexists. split; [done|]. by destruct Hinv'.
Qed.

(** The call looked its chunk up; where there is none it is over. *)
Local Ltac on_found id :=
  match goal with Hinv : chunks_inv ?s ?L |- _ =>
    apply (fine_find id s L (λ s' found, _)); [exact Hinv|intros; by eapply fine_same|];
    intros s1 c1 Hinv1 Ht1 Hc1; cbn iota; rewrite ?Hc1; cbn [mbind option_bind]
  end.

Lemma simple_op_fine now o s : chunks_ok s → nextchunkid s + 1 < 2 ^ 64 → op_allowed o s →
  match o with OpFile _ | OpModify _ _ _ _ _ | OpTruncate _ _ _ _ => True | _ => fine (run_chunk_op now o s) end.
Proof.
  intros [L Hinv] Hnx Hal. destruct o; cbn [run_chunk_op op_allowed] in *; try done.
  - unfold chunk_mr_nextchunkid. destruct (Z.ltb_spec (nextchunkid s) n); [|by eapply fine_same]. eapply fine_same, next_inv; [done|lia].
  - apply (fine_find id s L (λ s found, _)); [done| |intros; by eapply fine_same]. intros s1 Hinv1 _ Hnone.
    destruct (_ <? id); [by eapply fine_same|]. destruct (_ && _); [by eapply fine_same|]. set (s2 := if nextchunkid s1 <=? id then _ else _).
    assert (H2 : chunks_inv s2 L ∧ ck_tab s2 = ck_tab s1 ∧ id < nextchunkid s2).
    { assert (H1 := ci_next _ _ Hinv1). unfold s2. destruct (Z.leb_spec (nextchunkid s1) id); [|done]. unfold u64. rewrite Z.mod_small by lia.
      split; [apply next_inv; [done|lia]|]. cbn. split; [done|lia]. }
    destruct H2 as (Hinv2 & Ht2 & Hlt). destruct (new_inv s2 L id Hinv2) as (s3 & -> & Hinv3 & _ & Ht3 & _); [by rewrite Ht2|lia|]. cbn [mbind option_bind].
    set (c0 := mk_chunk _ _ _ _ _ _ _ _ _ _) in Ht3. assert (Hc3 : ck_tab s3 !! id = Some c0) by (rewrite Ht3; apply lookup_insert_eq). rewrite Hc3. cbn [mbind option_bind].
    eapply fine_plain; [done|done|done| |done|done]. apply attrs_lock, attrs_version; [apply Hal|]. by apply (ci_attrs _ _ Hinv3 id).
  - on_found id.
    destruct (negb _); [by eapply fine_same|]. destruct (Z.eqb_spec (c_fhead c1) FLISTNULLINDX) as [Hz|]; cbn [negb]; [|by eapply fine_same].
    destruct (c_copies c1) eqn:Hcp; [by eapply fine_same|]. destruct (_ <=? _); [by eapply fine_same|].
    destruct (chunk_drop_inv s1 L id c1 Hinv1 Hc1 Hz Hcp) as (s2 & -> & Hinv2 & _). cbn [mbind option_bind]. by eapply fine_same.
  - on_found id.
    destruct (_ <=? _); [by eapply fine_same|]. destruct (flags_inv s1 L id c1 0 Hinv1 Hc1) as (s2 & -> & Hinv2 & _). cbn [mbind option_bind]. by eapply fine_same.
  - on_found id.
    eapply fine_plain; [done|done|done| |done|done]. by apply attrs_version, (ci_attrs _ _ Hinv1 id).
  - on_found id.
    eapply fine_plain; [done|done|done| |done|done]. by apply attrs_version, attrs_zeros, (ci_attrs _ _ Hinv1 id).
  - on_found id.
    eapply fine_plain; [done|done|done| |done|done]. apply attrs_lock; [apply lock_u32|]. by apply (ci_attrs _ _ Hinv1 id).
  - unfold chunk_set_archflag. destruct (chunk_find_ok s L Hinv id) as (s1 & -> & Hinv1 & Ht & _). destruct (ck_tab s !! id) as [c|] eqn:Hc; [|by eapply fine_same].
    rewrite Ht, Hc. cbn [mbind option_bind]. destruct (change_flags_inv id (Z.lor (Z.land (c_flags c) FLAG_TRASH) (if flag then FLAG_ARCH else 0)) s1 L c Hinv1) as (s2 & -> & Hinv2);
      [by rewrite Ht|]. cbn [mbind option_bind]. by eapply fine_same.
  - on_found id.
    destruct (_ && _); [by eapply fine_same|]. destruct (change_flags_inv id (Z.lor (Z.land (c_flags c1) FLAG_ARCH) (if flag then FLAG_TRASH else 0)) s1 L c1 Hinv1 Hc1) as (s2 & -> & Hinv2).
    cbn [mbind option_bind]. by eapply fine_same.
  - unfold chunk_set_autoarch. destruct (chunk_find_ok s L Hinv id) as (s1 & -> & Hinv1 & Ht & _). destruct (ck_tab s !! id) as [c|] eqn:Hc; [|by eapply fine_same].
    rewrite Ht, Hc. cbn [mbind option_bind]. edestruct (change_flags_inv id) as (s2 & E & Hinv2); [exact Hinv1|by rewrite Ht|]. rewrite E. cbn [mbind option_bind]. by eapply fine_same.
Qed.

(** The chunk has files, or the call says that it is lost. *)
Lemma lost_or s L id c : chunks_inv s L → ck_tab s !! id = Some c → c_fhead c = FLISTNULLINDX ∨ c_fhead c ≠ FLISTNULLINDX ∧ total_of s id ≠ 0.
Proof.
  intros Hinv Hc. destruct (total_fhead s L id c Hinv Hc) as [_ Hz]. destruct (Z.eq_dec (c_fhead c) FLISTNULLINDX) as [E|E]; [by left|right].
  split; [done|]. intros H. by apply E, Hz.
Qed.

Lemma file_op_fine now o s : chunks_ok s → room 2 s → op_allowed (OpFile o) s → fine (run_file_op now o s).
Proof.
  intros [L Hinv] Hroom Hal. destruct (ck_tab s !! op_chunk o) as [c|] eqn:Hc.
  - assert (Hfit : op_fits o (files_of s) → fine (run_file_op now o s)).
    { intros Hfit. destruct (file_op_ok now o s ltac:(by eexists) Hroom ltac:(by eexists) Hfit) as (s' & -> & Hok & _). by exists MFS_STATUS_OK, s'. }
    destruct (lost_or s L _ c Hinv Hc) as [Hz|[_ Ht]].
    + destruct o as [id k|id k|id prev new]; [by apply Hfit| |]; cbn [run_file_op op_chunk] in *; unfold chunk_delete_file, chunk_change_file.
      * on_found id. unfold chunk_delete_file_int. rewrite Hc1. rewrite Ht1, Hc in Hc1. simplify_eq. cbn [mbind option_bind]. rewrite Hz. cbn. by eapply fine_same.
      * destruct (_ =? _); [by eapply fine_same|]. on_found id. rewrite Ht1, Hc in Hc1. simplify_eq. rewrite Hz. cbn. by eapply fine_same.
    + apply Hfit. destruct o as [id k|id k|id prev new]; cbn [op_allowed op_fits op_chunk] in *; [done| |].
      * destruct Hal as [Hk Hpos]. split; [done|]. by apply Hpos.
      * destruct Hal as (Hp & Hn & Hpos). split; [done|]. split; [done|]. by apply Hpos.
  - destruct (chunk_find_ok s L Hinv (op_chunk o)) as (s1 & Hf & Hinv1 & _). rewrite Hc in Hf.
    destruct o as [id k|id k|id prev new]; cbn [run_file_op op_chunk] in *; unfold chunk_add_file, chunk_delete_file, chunk_change_file; rewrite ?Hf; try by eapply fine_same.
    destruct (_ =? _); by eapply fine_same.
Qed.

Lemma modify_fine ts now n id k op s : chunks_ok s → room 4 s → nextchunkid s + 1 < 2 ^ 64 → 1 ≤ k ≤ 255 → (total_of s id ≠ 0 → 0 < files_of s id k) →
  fine ('(r, _, s) ← modify_chunk sclasstab joiningtab MaxECRedundancyLevel ts now n id k op s; Some (r, s)).
Proof.
  intros [L Hinv] Hroom Hnx Hk Hpos. destruct (ck_tab s !! id) as [c|] eqn:Hc.
  - destruct (total_fhead s L id c Hinv Hc) as [Hone Hnone]. destruct (lost_or s L id c Hinv Hc) as [Hz|[Hz Ht]].
    + unfold modify_chunk. destruct (chunk_find_ok s L Hinv id) as (s1 & -> & Hinv1 & Ht1 & _). rewrite Hc, Ht1, Hc. cbn [mbind option_bind]. rewrite Hz. by eapply fine_same.
    + assert (Hm := modify_ok ts now id k op s c ltac:(by eexists) Hroom Hnx Hc Hk (Hpos Ht)). cbn zeta in Hm.
      destruct (Z.eqb_spec (total_of s id) 1) as [E|E].
      * destruct Hm as (s' & Hm & Hok & _). destruct (Z.eq_dec n id) as [->|Hne]; [rewrite Hm; by exists MFS_STATUS_OK, s'|].
        unfold modify_chunk. destruct (chunk_find_ok s L Hinv id) as (s1 & -> & Hinv1 & Ht1 & _). rewrite Hc, Ht1, Hc. cbn [mbind option_bind].
        apply Hone in E. rewrite E, (proj2 (Z.eqb_neq n id) Hne). by eapply fine_same.
      * destruct Hm as (s' & Hm & Hok & _). destruct (Z.eq_dec n (nextchunkid s)) as [->|Hne]; [rewrite Hm; by exists MFS_STATUS_OK, s'|].
        unfold modify_chunk. destruct (chunk_find_ok s L Hinv id) as (s1 & -> & Hinv1 & Ht1 & _ & Hx1 & _). rewrite Hc, Ht1, Hc. cbn [mbind option_bind].
        rewrite (proj2 (Z.eqb_neq _ FLISTONEFILEINDX)), (proj2 (Z.eqb_neq _ _) Hz), Hx1, (proj2 (Z.eqb_neq n _) Hne) by (intros H; by apply E, Hone). by eapply fine_same.
  - unfold modify_chunk. destruct (chunk_find_ok s L Hinv id) as (s1 & -> & Hinv1 & _). rewrite Hc. by eapply fine_same.
Qed.

(** A file that had no chunk gets one. *)
Lemma first_chunk_fine ts now n k flag s : chunks_ok s → room 4 s → nextchunkid s + 1 < 2 ^ 64 → 1 ≤ k ≤ 255 →
  fine ('(r, _, s) ← chunk_mr_multi_modify sclasstab joiningtab MaxECRedundancyLevel ts now n 0 k flag s; Some (r, s)).
Proof.
  intros [L Hinv] Hroom Hnx Hk. unfold chunk_mr_multi_modify. rewrite Z.eqb_refl. destruct (negb _); [by eapply fine_same|].
  destruct (new_file_ok s L k Hinv Hnx) as (Hnone & s2 & c2 & L2 & -> & Hinv2 & Hf2 & Ht2 & Hv2 & Hm2 & Hx2). cbn [mbind option_bind].
  assert (Hc2 : ck_tab s2 !! nextchunkid s = Some c2) by (rewrite Ht2; apply lookup_insert_eq).
  destruct (add_int_ok s2 _ c2 k ltac:(by eexists) Hc2) as (s4 & -> & [L4 Hinv4] & H4); [unfold room in *; rewrite Hm2; lia|done|]. cbn [mbind option_bind].
  destruct (fs_chunk _ _ _ _ H4 c2 Hc2) as (h & k' & Hn4). destruct (lock_ok s4 L4 _ _ ts Hinv4 Hn4) as (s5 & -> & Hinv5 & _). cbn [mbind option_bind]. by eapply fine_same.
Qed.

Lemma calls_fine now o s : chunks_ok s → room 4 s → nextchunkid s + 1 < 2 ^ 64 → op_allowed o s → fine (run_chunk_op now o s).
Proof.
  intros Hok Hroom Hnx Hal.
  assert (Hs := simple_op_fine now o s Hok Hnx Hal). destruct o; try exact Hs; cbn [run_chunk_op op_allowed] in *.
  - apply file_op_fine; [done|unfold room in *; lia|done].
  - destruct Hal as [Hk Hpos]. destruct (Z.eq_dec id 0) as [->|Hid]; [by apply first_chunk_fine|]. unfold chunk_mr_multi_modify. rewrite (proj2 (Z.eqb_neq id 0)) by done.
    apply modify_fine; try done. by apply Hpos.
  - destruct Hal as [Hk Hpos]. by apply modify_fine.
Qed.

(** Calls in a row, each allowed where it is made. *)
Fixpoint run_calls (now : Z) (os : list chunk_op) (s : chunks) : option chunks :=
  match os with [] => Some s | o :: os => '(_, s) ← run_chunk_op now o s; run_calls now os s end.

Fixpoint calls_allowed (now : Z) (os : list chunk_op) (s : chunks) : Prop :=
  match os with
  | [] => True
  | o :: os => op_allowed o s ∧ room 4 s ∧ nextchunkid s + 1 < 2 ^ 64
      ∧ match run_chunk_op now o s with Some (_, s') => calls_allowed now os s' | None => True end
  end.

Lemma calls_ok now os : ∀ s, chunks_ok s → calls_allowed now os s → ∃ s', run_calls now os s = Some s' ∧ chunks_ok s'.
Proof.
  induction os as [|o os IH]; intros s Hok Hal; [by exists s|]. destruct Hal as (Hal & Hroom & Hnx & Hnext).
  destruct (calls_fine now o s Hok Hroom Hnx Hal) as (st & s' & Hrun & Hok'). cbn [run_calls]. rewrite Hrun in Hnext |- *. cbn [mbind option_bind]. by apply IH.
Qed.

(** C12: no call stops the master and none breaks the chunks.  From the empty state, any
    calls of the replay and of the tree in any order - a chunk is added or deleted, a file
    comes, goes or changes its class, a chunk is written, truncated, locked, flagged -
    each for a class of 1 to 255 that the chunk counts where it has files at all, end with
    a status and without a failed assertion or a read of a cell that is not there, and
    after them no cell is in two lists or both used and free, the counters of the classes
    are those of the chunks, and the table is whole. *)
Theorem chunk_calls_safe now os :
  calls_allowed now os chunk_newfs → ∃ s', run_calls now os chunk_newfs = Some s' ∧ chunks_ok s'.
Proof. apply calls_ok. exists ∅. apply newfs_inv. Qed.
End step.

(** ** The counters *)

Lemma keyed_range key c : 0 ≤ keyed key c ≤ 2.
Proof. unfold keyed. destruct (bool_decide _), (bool_decide _); cbn; lia. Qed.

Lemma count_nonzero s L key : chunks_inv s L → Z.of_nat (size (ck_tab s)) < 2 ^ 63 →
  counts_at (ck_counts s) key ≠ 0 ↔ ∃ id c, ck_tab s !! id = Some c ∧ (key_of true c = key ∨ key_of false c = key).
Proof.
  intros Hinv Hsize. rewrite (ci_counts _ _ Hinv key). assert (H0 := map_sum_nonneg (keyed key) (ck_tab s) (λ c, proj1 (keyed_range key c))).
  assert (Hb := map_sum_bound (keyed key) (ck_tab s) 2 (λ c, proj2 (keyed_range key c))). unfold u64. rewrite Z.mod_small by lia.
  assert (Hp := map_sum_pos (keyed key) (ck_tab s) (λ c, proj1 (keyed_range key c))). split.
  - intros H. destruct (proj1 Hp ltac:(lia)) as (id & c & Hc & Hk). exists id, c. split; [done|]. unfold keyed in Hk.
    destruct (bool_decide (key_of true c = key)) eqn:E1; [left; by apply bool_decide_eq_true in E1|].
    destruct (bool_decide (key_of false c = key)) eqn:E2; [right; by apply bool_decide_eq_true in E2|]. cbn in Hk. lia.
  - intros (id & c & Hc & Hk). assert (H : 0 < map_sum (keyed key) (ck_tab s)); [|lia]. apply Hp. exists id, c. split; [done|]. unfold keyed.
    destruct Hk as [Hk|Hk]; rewrite (bool_decide_true _ Hk); [destruct (bool_decide (_ = _))|destruct (bool_decide (key_of true c = key))]; cbn; lia.
Qed.

(** C14: the test made before a storage class is deleted is right: the counters of a
    class of 0 to 255 show a chunk exactly when some chunk is kept by this class,
    whatever its flags, its storage mode and its copies. *)
Theorem class_in_use_exact s k :
  chunks_ok s → 0 ≤ k < MAXSCLASS → Z.of_nat (size (ck_tab s)) < 2 ^ 63 →
  chunk_sclass_has_chunks k s = true ↔ ∃ id c, ck_tab s !! id = Some c ∧ c_sclassid c = k.
Proof.
  intros [L Hinv] Hk Hsize. unfold chunk_sclass_has_chunks, MAXSCLASS in *. split.
  - intros H. apply existsb_exists in H as (gr & Hgr & H). apply existsb_exists in H as (i & Hi & H). apply list_elem_of_In, elem_of_seqZ in Hgr.
    assert (Hex : ∃ mode, counts_at (ck_counts s) (true, mode, k + 256 * gr, i) ≠ 0).
    { apply negb_true_iff, Z.eqb_neq in H. rewrite !Z.lor_eq_0_iff in H. destruct (Z.eq_dec (counts_at (ck_counts s) (true, STORAGE_MODE_COPIES, k + 256 * gr, i)) 0);
        [|by eexists]. destruct (Z.eq_dec (counts_at (ck_counts s) (true, STORAGE_MODE_EC8, k + 256 * gr, i)) 0); [|by eexists]. exists STORAGE_MODE_EC4. intros E. by apply H. }
    destruct Hex as [mode Hm]. apply (count_nonzero s L _ Hinv Hsize) in Hm as (id & c & Hc & [E|E]); [|by inversion E].
    exists id, c. split; [done|]. assert (Hr := class_range s L id c Hinv Hc). injection E as _ E _. unfold sclass_indx, MAXSCLASS, FLAG_MASK in E.
    assert (Hl := land_3 (c_flags c)). lia.
  - intros (id & c & Hc & <-). destruct (ci_attrs _ _ Hinv id c Hc) as [Hm Hf _ _ [Hg _] _].
    assert (Hn := proj2 (count_nonzero s L (key_of true c) Hinv Hsize) ltac:(exists id, c; by split; [|left])).
    apply existsb_exists. exists (Z.land (c_flags c) 3). assert (Hl := land_3 (c_flags c)). split; [apply list_elem_of_In, elem_of_seqZ; lia|].
    apply existsb_exists. exists (at_most_10 (c_all_gequiv c)). split.
    { apply list_elem_of_In, elem_of_seqZ. unfold at_most_10. destruct (Z.ltb_spec 9 (c_all_gequiv c)); lia. }
    apply negb_true_iff, Z.eqb_neq. rewrite !Z.lor_eq_0_iff. intros [[H1 H2] H3]. apply Hn. unfold key_of, sclass_indx, MAXSCLASS, FLAG_MASK.
    unfold counted in Hm. apply orb_true_iff in Hm as [Hm|Hm]; [apply orb_true_iff in Hm as [Hm|Hm]|]; apply Z.eqb_eq in Hm; by rewrite Hm.
Qed.

(** ** Witnesses *)

Definition ex_classes (_ : Z) : storageclass := mk_storageclass (mk_storagemode 0 2) (mk_storagemode 0 2) 0 0 0.
Definition ex_joining (_ : Z) : joining := mk_joining 1 false false false 0.

(** Chunk 7 with three files of class 1 and one of class 2, chunk 8 with one file. *)
Definition ex_calls : list chunk_op :=
  [OpAdd 10 7 1 0; OpFile (AddFile 7 1); OpFile (AddFile 7 1); OpFile (AddFile 7 2); OpFile (AddFile 7 1); OpAdd 10 8 1 0; OpFile (AddFile 8 1)].

Definition ex_state : chunks := default chunk_newfs (run_calls ex_classes ex_joining 9 0 ex_calls chunk_newfs).

Lemma ex_allowed : calls_allowed ex_classes ex_joining 9 0 ex_calls chunk_newfs.
Proof. vm_compute. repeat split; discriminate. Qed.

Lemma ex_ok : chunks_ok ex_state.
Proof.
  destruct (calls_ok ex_classes ex_joining 9 0 ex_calls chunk_newfs) as (s' & Hr & Hok); [exists ∅; apply newfs_inv|exact ex_allowed|].
  unfold ex_state. by rewrite Hr.
Qed.

Lemma chunk_calls_safe_witness : calls_allowed ex_classes ex_joining 9 0 ex_calls chunk_newfs
  ∧ ∃ s', run_calls ex_classes ex_joining 9 0 ex_calls chunk_newfs = Some s' ∧ chunks_ok s'.
Proof. split; [exact ex_allowed|apply (chunk_calls_safe ex_classes ex_joining 9 0 ex_calls); exact ex_allowed]. Defined.

Lemma chunk_files_refine_witness : ∃ s', run_file_ops ex_classes ex_joining 9 0 [AddFile 7 2; ChangeFile 7 1 2; DeleteFile 8 1] ex_state = Some s' ∧ chunks_ok s'
  ∧ files_of s' 7 1 = 2 ∧ files_of s' 7 2 = 3 ∧ files_of s' 8 1 = 0.
Proof.
  destruct (chunk_files_refine ex_classes ex_joining 9 0 [AddFile 7 2; ChangeFile 7 1 2; DeleteFile 8 1] ex_state) as (s' & Hr & Hok & Hf & _).
  - exact ex_ok.
  - by vm_compute.
  - intros o Ho. repeat (apply elem_of_cons in Ho as [->|Ho]; [vm_compute; by eexists|]). by apply elem_of_nil in Ho.
  - vm_compute. repeat split; by discriminate.
  - exists s'. split; [exact Hr|]. split; [exact Hok|]. rewrite !Hf. vm_compute. repeat split; reflexivity.
Defined.


Lemma class_in_use_exact_witness : chunk_sclass_has_chunks 1 ex_state = true ∧ chunk_sclass_has_chunks 3 ex_state = false
  ∧ ∃ id c, ck_tab ex_state !! id = Some c ∧ c_sclassid c = 1.
Proof.
  split; [by vm_compute|]. split; [by vm_compute|]. apply (class_in_use_exact ex_state 1 ex_ok); [by vm_compute|by vm_compute|by vm_compute].
Defined.
