(* ===== verification/ChunkImages.v ===== *)
(** * The chunks in the metadata image

    What [chunk_store] writes [chunk_load] reads back: every chunk with its version, its
    lock, its flags and its class, and the number of its files of each class. *)

From S2P Require Import Prelude MapSum MfsComm DataPack StorageClass ChunkFiles ChunkLists ChunkInv ChunkProps.

#[global] Open Scope Z_scope.

(** ** Lists read from pairs *)

Lemma load_cells_ok pairs : ∀ m R, owned m FLISTNULLINDX [] R → flistfirstfree m + Z.of_nat (length pairs) < 2 ^ 32 →
  ∃ i m' l, load_cells pairs m = Some (i, m') ∧ owned m' i l R ∧ pairs_of l = pairs ∧ frame (Z.of_nat (length pairs)) R m m'.
Proof.
  induction pairs as [|[k n] pairs IH]; intros m R Ho Hroom; cbn [load_cells length] in *.
  { exists FLISTNULLINDX, m, []. split; [done|]. split; [done|]. split; [done|apply frame_refl]. }
  destruct (alloc_ok m R _ _ Ho ltac:(lia)) as (i & m1 & -> & Ho1 & _ & Hfr1). cbn [mbind option_bind].
  assert (HiR : i ∉ R) by (destruct Ho1 as [F [_ _ Hnd _ _]]; cbn in Hnd; apply NoDup_app in Hnd as (_ & _ & Hnd); by apply NoDup_cons in Hnd as [? _]).
  destruct (IH (flist_put i (mk_flist n k FLISTNULLINDX) m1) (i :: R)) as (next & m2 & l & -> & Ho2 & Hp & Hfr2).
  { by apply owned_put. }
  { destruct Hfr1. cbn. lia. }
  cbn [mbind option_bind]. assert (Hc : fl_cells m2 !! i = Some (mk_flist n k FLISTNULLINDX)) by (rewrite (frame_cell _ _ _ _ _ Hfr2); apply lookup_insert_eq).
  destruct (relink m2 R next l i n k _ Ho2 HiR Hc) as (m3 & -> & Ho3 & Hfr3). cbn [mbind option_bind].
  exists i, m3, ((i, n, k) :: l). split; [done|]. split; [done|]. split; [by rewrite <-Hp|].
  apply (frame_trans (1 + Z.of_nat (length pairs)) 0 _ R _ m2 _); [|exact Hfr3|lia].
  apply (frame_trans 1 (Z.of_nat (length pairs)) _ R _ m1 _ Hfr1); [|lia]. eapply frame_trans; [by apply (frame_put R m1 i)|by eapply frame_tail|lia].
Qed.

(** What the invariant says of a list it says of the pairs. *)
Lemma same_pairs_forall (Q : Z → Z → Prop) l l' : pairs_of l' = pairs_of l → Forall (λ e : cell, Q e.2 e.1.2) l → Forall (λ e : cell, Q e.2 e.1.2) l'.
Proof.
  intros E H. assert (Hp : Forall (λ p : Z * Z, Q p.1 p.2) (pairs_of l)) by by apply Forall_fmap. rewrite <-E in Hp. by apply Forall_fmap in Hp.
Qed.

Lemma same_pairs_ok l : ∀ l', pairs_of l' = pairs_of l → list_ok l → list_ok l'.
Proof.
  intros l' E [Hc Ho]. split; [by eapply (same_pairs_forall (λ k n, 1 ≤ n ≤ FLISTMAXFCOUNT ∧ 1 ≤ k ≤ 255))|]. clear Hc. revert l' E.
  induction l as [|[[i n] k] l IH]; intros [|[[i' n'] k'] l'] E; [done|done|done|]. injection E as -> -> E. destruct Ho as [Hf Ho].
  split; [by eapply (same_pairs_forall (λ k0 n0, k0 = k → n0 = FLISTMAXFCOUNT))|]. by apply IH.
Qed.

Lemma same_pairs_tally l l' k : pairs_of l' = pairs_of l → tally l' k = tally l k.
Proof. intros E. by rewrite <-!pairs_of_files, E. Qed.

Lemma length_pairs l : length (pairs_of l) = length l.
Proof. apply length_fmap. Qed.

Lemma same_pairs_rep c c' l l' : pairs_of l' = pairs_of l → rep c l → FLISTFIRSTINDX ≤ c_fhead c → FLISTFIRSTINDX ≤ c_fhead c' →
  c_sclassid c' = c_sclassid c → rep c' l'.
Proof.
  intros E Hrep Hb Hb' Hk. destruct (rp_big _ _ Hrep Hb) as (Hne & Hok & Hr & Hone). split; [lia|]. intros _.
  split; [intros ->; by destruct l|]. split; [by eapply same_pairs_ok|]. rewrite Hk. split; [done|]. intros i n k ->.
  destruct l as [|[[i0 n0] k0] [|]]; [done| |done]. injection E as -> ->. by apply (Hone i0).
Qed.

(** ** One chunk *)

(** The pairs of a chunk, and what else is stored of it. *)
Definition image_pairs (c : chunk) (l : list cell) : list (Z * Z) :=
  if c_fhead c =? FLISTNULLINDX then [] else if c_fhead c <? FLISTFIRSTINDX then [(c_sclassid c, c_fhead c)] else pairs_of l.

(** A chunk [c'] that was loaded for [c]: no copies are known yet. *)
Record loaded_as (c c' : chunk) : Prop := {
  la_version : c_version c' = c_version c;
  la_zeros : c_allowreadzeros c' = c_allowreadzeros c;
  la_class : c_sclassid c' = c_sclassid c;
  la_flags : c_flags c' = c_flags c;
  la_lock : c_lockedto c' = c_lockedto c;
  la_copies : c_copies c' = false }.

Lemma after_next id c n m s : nextchunkid (after id c n m s) = nextchunkid s.
Proof. done. Qed.

(** The cells and the class of a new chunk. *)
Lemma cells_loaded id s L c0 k b h m' l R : chunks_inv s L → ck_tab s !! id = Some c0 → R = all_idx (delete id L) →
  owned m' (lhead (set_sclass k (set_fhead h c0))) l R → frame (b) R (ck_mem s) m' → rep (set_sclass k (set_fhead h c0)) l →
  ∃ s', chunk_state_set_sclass id k (put_chunk id (set_fhead h c0) (with_mem m' s)) = Some s' ∧ chunks_inv s' (<[id := l]> L)
    ∧ ck_tab s' = <[id := set_sclass k (set_fhead h c0)]> (ck_tab s) ∧ nextchunkid s' = nextchunkid s
    ∧ flistfirstfree (ck_mem s') ≤ flistfirstfree (ck_mem s) + b.
Proof.
  intros Hinv Hc -> Ho Hfr Hrep. assert (Ha := ci_attrs _ _ Hinv id c0 Hc).
  destruct (sclass_ok id k h m' s c0 Hc (ci_counts _ _ Hinv) (at_mode _ Ha)) as (n & -> & Hn). eexists. split; [done|].
  split; [eapply after_inv; try done; by apply attrs_sclass|]. split; [done|]. split; [done|]. apply (frame_first _ _ _ _ Hfr).
Qed.

Lemma load_files_ok id s L c0 c l0 : chunks_inv s L → ck_tab s !! id = Some c0 → c_fhead c0 = FLISTNULLINDX → c_sclassid c0 = 0 → rep c l0 →
  flistfirstfree (ck_mem s) + Z.of_nat (length l0) < 2 ^ 32 → ∃ s' l h,
  load_files id (image_pairs c l0) (if 1 <? Z.of_nat (length (image_pairs c l0)) then c_sclassid c else 0) s = Some s'
  ∧ chunks_inv s' (<[id := l]> L) ∧ ck_tab s' = <[id := set_sclass (c_sclassid c) (set_fhead h c0)]> (ck_tab s) ∧ nextchunkid s' = nextchunkid s
  ∧ flistfirstfree (ck_mem s') ≤ flistfirstfree (ck_mem s) + Z.of_nat (length l0)
  ∧ ∀ k, files (set_sclass (c_sclassid c) (set_fhead h c0)) l k = files c l0 k.
Proof.
  intros Hinv Hc Hz Hk0 Hrep Hroom. destruct (inv_list _ _ Hinv id c0 Hc) as (l1 & HL & Ho & Hrep0).
  destruct (rp_small _ _ Hrep0 ltac:(by rewrite Hz)) as (_ & -> & _ & _). rewrite small_head in Ho by by rewrite Hz.
  unfold image_pairs, load_files. rewrite Hc. cbn [mbind option_bind].
  destruct (Z.ltb_spec (c_fhead c) FLISTFIRSTINDX) as [Hs|Hb].
  - destruct (rp_small _ _ Hrep Hs) as (Hge & -> & Hkz & Hkp). destruct (Z.eqb_spec (c_fhead c) FLISTNULLINDX) as [E|E].
    + specialize (Hkz E). exists s, [], 0. assert (Ec : set_sclass (c_sclassid c) (set_fhead 0 c0) = c0).
      { rewrite Hkz. clear Hc. destruct c0. cbn in *. by rewrite Hz, Hk0. }
      rewrite Ec, (insert_id L id []), (insert_id _ id c0) by done. split; [done|]. split; [done|]. split; [done|]. split; [done|]. split; [cbn; lia|].
      intros k. rewrite !files_small by (rewrite ?Hz, ?E; done). rewrite Hz, E. by destruct (k =? _), (k =? _).
    + cbn [length]. rewrite (proj2 (Z.ltb_lt _ _)) by done.
      destruct (cells_loaded id s L c0 (c_sclassid c) 0 (c_fhead c) (ck_mem s) [] _ Hinv Hc eq_refl) as (s' & Hset & Hinv' & Ht & Hx & Hf).
      { by rewrite small_head. }
      { apply frame_refl. }
      { split; cbn; [|lia]. intros _. split; [done|]. split; [done|]. split; [done|]. done. }
      rewrite with_mem_same in Hset. exists s', [], (c_fhead c). split; [done|]. split; [done|]. split; [done|]. split; [done|]. split; [done|].
      intros k. by rewrite !files_small.
  - destruct (rp_big _ _ Hrep Hb) as (Hne & Hok & Hkr & Hone). rewrite (proj2 (Z.eqb_neq (c_fhead c) FLISTNULLINDX)) by (unfold FLISTFIRSTINDX, FLISTNULLINDX in *; lia).
    destruct (load_cells_ok (pairs_of l0) (ck_mem s) _ Ho) as (i & m' & l & Hload & Ho' & Hp & Hfr); [by rewrite length_pairs|].
    assert (Hi : FLISTFIRSTINDX ≤ i) by (apply (owned_big (all_idx (delete id L)) i l m' Ho'); intros ->; by destruct l0).
    destruct (cells_loaded id s L c0 (c_sclassid c) (Z.of_nat (length l0)) i m' l _ Hinv Hc eq_refl) as (s' & Hset & Hinv' & Ht & Hx & Hf).
    { by rewrite big_head. }
    { by rewrite <-length_pairs. }
    { by eapply (same_pairs_rep c _ l0). }
    exists s', l, i. split; [|split; [done|split; [done|split; [done|split; [done|]]]]].
    + destruct l0 as [|[[i0 n0] k0] [|[[i1 n1] k1] l2]]; [done| |].
      * destruct (Hone i0 n0 k0 eq_refl) as [Hn0 Hk]. cbn [pairs_of fmap list_fmap fst snd] in Hload |- *. rewrite (proj2 (Z.ltb_ge _ _)) by done.
        rewrite Hload. cbn [mbind option_bind]. by rewrite Hk in Hset.
      * cbn [pairs_of fmap list_fmap fst snd length] in Hload |- *. rewrite Hload. cbn [mbind option_bind].
        rewrite (proj2 (Z.ltb_lt 1 _)) by (rewrite length_fmap; lia). done.
    + intros k. rewrite !files_big by done. by apply same_pairs_tally.
Qed.

(** ** The bytes *)

Lemma version_bits v (z : bool) : 0 ≤ v < 2 ^ 30 → let V := if z then Z.lor v 0x80000000 else v in
  V mod 2 ^ 32 = V ∧ Z.land V 0x3FFFFFFF = v ∧ negb (Z.land V 0x80000000 =? 0) = z.
Proof.
  intros Hv V. assert (Ho : Z.land v 0x80000000 = 0).
  { rewrite <-(Z.mod_small v (2 ^ 30)), <-Z.land_ones, <-Z.land_assoc by lia. apply Z.land_0_r. }
  unfold V. destruct z.
  - assert (E : Z.lor v 0x80000000 = v + 1 * 2 ^ 31) by by rewrite <-low_lor by lia.
    split; [rewrite E; apply Z.mod_small; lia|]. split.
    + rewrite E. change 0x3FFFFFFF with (Z.ones 30). rewrite Z.land_ones by lia. Z.to_euclidean_division_equations; lia.
    + by rewrite Z.land_lor_distr_l, Ho.
  - split; [apply Z.mod_small; lia|]. split; [|by rewrite Ho]. change 0x3FFFFFFF with (Z.ones 30). rewrite Z.land_ones by lia. by apply Z.mod_small.
Qed.

(** The flags carry the ninth bit of the number of pairs. *)
Lemma flags_bits f n : 0 ≤ f < 4 → 0 ≤ n ≤ 383 →
  let F := if 255 <? n then Z.lor f 0x80 else f in let N := if 255 <? n then Z.land n 0xFF else n in
  F mod 2 ^ 8 = F ∧ N mod 2 ^ 8 = N ∧ (if negb (Z.land F 0x80 =? 0) then (Z.land F 0x7F, Z.lor N 0x100) else (F, N)) = (f, n).
Proof.
  intros Hf Hn F N. assert (Hf' : f = 0 ∨ f = 1 ∨ f = 2 ∨ f = 3) by lia. unfold F, N. destruct (Z.ltb_spec 255 n) as [Hb|Hb].
  - assert (E : Z.land n 0xFF = n - 256) by (change 0xFF with (Z.ones 8); rewrite Z.land_ones by lia; Z.to_euclidean_division_equations; lia).
    assert (En : Z.lor (n - 256) 0x100 = n) by (change (Z.lor (n - 256) 0x100) with (Z.lor (n - 256) (Z.shiftl 1 8)); rewrite low_lor by lia; lia).
    rewrite E, En. split; [by destruct Hf' as [->|[->|[->| ->]]]|]. split; [apply Z.mod_small; lia|]. by destruct Hf' as [->|[->|[->| ->]]].
  - split; [apply Z.mod_small; lia|]. split; [apply Z.mod_small; lia|]. by destruct Hf' as [->|[->|[->| ->]]].
Qed.

Section image.
Context (bld bld' : build).

Lemma length_pair p : length (put_chunk_pair bld p) = 4%nat.
Proof. unfold put_chunk_pair. by rewrite put8bit_be, put24bit_be, length_app, !length_be_bytes. Qed.

Lemma length_dyn ps : length (concat (put_chunk_pair bld <$> ps)) = (4 * length ps)%nat.
Proof. induction ps as [|p ps IH]; [done|]. cbn [fmap list_fmap concat length]. rewrite length_app, length_pair, IH. lia. Qed.

Definition pair_ok (p : Z * Z) : Prop := is_u8 p.1 ∧ 0 ≤ p.2 < 2 ^ 24.

Lemma get_pairs_ok ps rest : Forall pair_ok ps → get_pairs bld' (length ps) (concat (put_chunk_pair bld <$> ps) ++ rest) = Some (ps, rest).
Proof.
  induction 1 as [|[k n] ps [Hk Hn] _ IH]; [done|]. cbn [fmap list_fmap concat length get_pairs]. unfold put_chunk_pair at 1. rewrite <-!app_assoc. cbn [fst snd] in *.
  rewrite get8_put8. cbn [mbind option_bind]. rewrite get24_put24. cbn [mbind option_bind]. rewrite IH. cbn [mbind option_bind]. by rewrite !Z.mod_small.
Qed.

(** What is stored of a chunk whose pairs are [ps]. *)
Definition chunk_record (id : Z) (c : chunk) (ps : list (Z * Z)) : list Z :=
  let n := Z.of_nat (length ps) in
  put64bit bld id ++ put32bit bld (if c_allowreadzeros c then Z.lor (c_version c) 0x80000000 else c_version c) ++ put32bit bld (c_lockedto c)
    ++ put8bit bld (if 255 <? n then Z.lor (c_flags c) 0x80 else c_flags c) ++ put8bit bld (if 255 <? n then Z.land n 0xFF else n)
    ++ concat (put_chunk_pair bld <$> ps) ++ (if 1 <? n then put8bit bld (c_sclassid c) else []).

Lemma store_chunk_ok id c m l R : owned m (lhead c) l R → rep c l → (length l ≤ CHUNKMAXPAIRS)%nat →
  store_chunk bld id c m = Some (chunk_record id c (image_pairs c l)).
Proof.
  intros Ho Hrep Hlen. unfold store_chunk, chunk_record, image_pairs. destruct (Z.eqb_spec (c_fhead c) FLISTNULLINDX) as [E|E]; [by rewrite E|].
  destruct (Z.ltb_spec (c_fhead c) FLISTFIRSTINDX) as [Hs|Hb].
  - cbn [mbind option_bind length]. by rewrite andb_false_r.
  - unfold lhead in Ho. rewrite (proj2 (Z.ltb_ge _ _)) in Ho by done. rewrite (store_pairs_ok l CHUNKMAXPAIRS m _ R Ho), take_ge by by rewrite length_pairs.
    cbn [mbind option_bind]. by rewrite (proj2 (Z.leb_le _ _)).
Qed.

Lemma image_pairs_ok c l : rep c l → Forall pair_ok (image_pairs c l).
Proof.
  intros Hrep. unfold image_pairs, pair_ok, is_u8. destruct (Z.eqb_spec (c_fhead c) FLISTNULLINDX) as [E|E]; [constructor|].
  destruct (Z.ltb_spec (c_fhead c) FLISTFIRSTINDX) as [Hs|Hb].
  - destruct (rp_small _ _ Hrep Hs) as (Hge & _ & _ & Hk). unfold FLISTNULLINDX, FLISTFIRSTINDX in *. repeat constructor; cbn; lia.
  - destruct (rp_big _ _ Hrep Hb) as (_ & [Hc _] & _). apply Forall_fmap. eapply Forall_impl; [exact Hc|]. intros [[i n] k] [Hn Hk].
    unfold FLISTMAXFCOUNT in Hn. cbn in *. lia.
Qed.

Lemma image_pairs_length c l : rep c l → (length l ≤ CHUNKMAXPAIRS)%nat → (length (image_pairs c l) ≤ CHUNKMAXPAIRS)%nat.
Proof.
  intros Hrep Hlen. unfold image_pairs. destruct (_ =? _); [cbn; unfold CHUNKMAXPAIRS; lia|].
  destruct (_ <? _); [cbn; unfold CHUNKMAXPAIRS; lia|by rewrite length_pairs].
Qed.

(** The fields of a record are read back. *)
Lemma record_read fuel mver ign id c l0 rest s : 0x12 ≤ mver → rep c l0 → 0 < id < 2 ^ 64 → attrs_ok c → 0 ≤ c_sclassid c ≤ 255 → (length l0 ≤ CHUNKMAXPAIRS)%nat →
  let ps := image_pairs c l0 in
  chunk_load_loop bld' (S fuel) mver ign (chunk_record id c ps ++ rest) s
  = let '(s, found) := chunk_find id s in
    match found with
    | Some _ => if ign then chunk_load_loop bld' fuel mver ign rest s else Some (-1, s)
    | None =>
        s ← chunk_new id s; c0 ← ck_tab s !! id;
        s ← load_files id ps (if 1 <? Z.of_nat (length ps) then c_sclassid c else 0)
              (put_chunk id (set_lockedto (c_lockedto c) (set_version (c_version c) (set_readzeros (c_allowreadzeros c) c0))) s);
        s ← chunk_state_set_flags id (c_flags c) s; chunk_load_loop bld' fuel mver ign rest s
    end.
Proof.
  intros Hmver Hrep Hid [Hmode Hf Hv Hl Hg Hcp] Hk Hlen ps.
  assert (Hps := image_pairs_ok c l0 Hrep). assert (Hpl := image_pairs_length c l0 Hrep Hlen). fold ps in Hps, Hpl.
  set (n := Z.of_nat (length ps)). assert (Hn : 0 ≤ n ≤ 383) by (unfold n, CHUNKMAXPAIRS in *; lia).
  destruct (version_bits (c_version c) (c_allowreadzeros c) Hv) as (HV & HV1 & HV2). destruct (flags_bits (c_flags c) n Hf Hn) as (HF & HN & HFN).
  cbn [chunk_load_loop]. rewrite (proj2 (Z.eqb_neq mver 0x10)), (proj2 (Z.eqb_neq mver 0x11)), (proj2 (Z.leb_gt mver 0x11)) by lia.
  assert (Hlong : (length (chunk_record id c ps ++ rest) <? CHUNKFSIZE)%nat = false).
  { apply Nat.ltb_ge. unfold chunk_record. rewrite !length_app, put64bit_be, !put32bit_be, !put8bit_be, !length_be_bytes. unfold CHUNKFSIZE. lia. }
  rewrite Hlong. clear Hlong. unfold chunk_record. fold n. rewrite <-!app_assoc.
  rewrite get64_put64. cbn [mbind option_bind]. rewrite get32_put32. cbn [mbind option_bind]. rewrite get32_put32. cbn [mbind option_bind].
  rewrite get8_put8. cbn [mbind option_bind]. rewrite get8_put8. cbn [mbind option_bind]. rewrite HF, HN, HFN, HV.
  rewrite (proj2 (Z.ltb_ge (Z.of_nat CHUNKMAXPAIRS) n)) by (unfold n; lia).
  assert (Hdyn : (Z.of_nat (length (concat (put_chunk_pair bld <$> ps) ++ (if 1 <? n then put8bit bld (c_sclassid c) else []) ++ rest))
    <? 4 * n + (if 1 <? n then 1 else 0)) = false).
  { apply Z.ltb_ge. rewrite !length_app, length_dyn. unfold n. destruct (1 <? _); cbn [length put8bit]; lia. }
  rewrite Hdyn. clear Hdyn. assert (En : Z.to_nat n = length ps) by (unfold n; lia). rewrite En, get_pairs_ok by done. cbn [mbind option_bind].
  assert (Hcl : (if 1 <? n then get8bit bld' ((if 1 <? n then put8bit bld (c_sclassid c) else []) ++ rest) else Some (0, (if 1 <? n then put8bit bld (c_sclassid c) else []) ++ rest))
    = Some (if 1 <? n then c_sclassid c else 0, rest)).
  { destruct (1 <? n); [|done]. rewrite get8_put8. by rewrite Z.mod_small by lia. }
  rewrite Hcl. clear Hcl. cbn [mbind option_bind]. rewrite (Z.mod_small id) by lia. rewrite (proj2 (Z.ltb_lt 0 id)) by lia.
  rewrite HV1, HV2, (Z.mod_small (c_lockedto c)) by done. done.
Qed.

(** One record is read. *)
Lemma record_loaded mver ign id c l0 s L : 0x12 ≤ mver → chunks_inv s L → ck_tab s !! id = None → 0 < id < nextchunkid s → rep c l0 → attrs_ok c →
  0 ≤ c_sclassid c ≤ 255 → (length l0 ≤ CHUNKMAXPAIRS)%nat → flistfirstfree (ck_mem s) + Z.of_nat (length l0) < 2 ^ 32 → ∃ s' l c',
  (∀ fuel rest, chunk_load_loop bld' (S fuel) mver ign (chunk_record id c (image_pairs c l0) ++ rest) s = chunk_load_loop bld' fuel mver ign rest s')
  ∧ chunks_inv s' (<[id := l]> L) ∧ ck_tab s' = <[id := c']> (ck_tab s) ∧ loaded_as c c' ∧ (∀ k, files c' l k = files c l0 k)
  ∧ nextchunkid s' = nextchunkid s ∧ flistfirstfree (ck_mem s') ≤ flistfirstfree (ck_mem s) + Z.of_nat (length l0).
Proof.
  intros Hmver Hinv Hnone Hid Hrep [Hmode Hf Hv Hl Hg Hcp] Hk Hlen Hroom. assert (Hnx := ci_next _ _ Hinv).
  destruct (version_bits (c_version c) (c_allowreadzeros c) Hv) as (HV & HV1 & HV2).
  destruct (chunk_find_ok s L Hinv id) as (s1 & Hfind & Hinv1 & Ht1 & Hm1 & Hx1 & _). rewrite Hnone in Hfind. rewrite <-Ht1 in Hnone.
  destruct (new_inv s1 L id Hinv1 Hnone) as (s2 & Hnew & Hinv2 & _ & Ht2 & Hm2 & Hx2); [by rewrite Hx1|].
  set (blank := mk_chunk _ _ _ _ _ _ _ _ _ _) in Ht2. assert (Hc2 : ck_tab s2 !! id = Some blank) by (rewrite Ht2; apply lookup_insert_eq).
  set (c0 := set_lockedto (c_lockedto c) (set_version (c_version c) (set_readzeros (c_allowreadzeros c) blank))).
  assert (Hinv3 : chunks_inv (put_chunk id c0 s2) (<[id:=[]]> L)).
  { eapply plain_inv; [done|done|done| |done|done]. unfold c0. apply attrs_lock; [done|]. by apply attrs_version, attrs_zeros, (ci_attrs _ _ Hinv2 id). }
  destruct (load_files_ok id (put_chunk id c0 s2) _ c0 c l0 Hinv3) as (s4 & l & h & Hload & Hinv4 & Ht4 & Hx4 & Hf4 & Hfl);
    [cbn; apply lookup_insert_eq|done|done|done|cbn; rewrite Hm2, Hm1; done|].
  assert (Hc4 : ck_tab s4 !! id = Some (set_sclass (c_sclassid c) (set_fhead h c0))) by (rewrite Ht4; apply lookup_insert_eq).
  destruct (flags_inv s4 _ id _ (c_flags c) Hinv4 Hc4) as (s5 & Hset & Hinv5 & _ & Ht5 & Hm5 & Hx5).
  assert (Hfl3 : Z.land (c_flags c) 3 = c_flags c) by (change 3 with (Z.ones 2); rewrite Z.land_ones by lia; by apply Z.mod_small).
  rewrite insert_insert_eq in Hinv5. exists s5, l, (set_flags (Z.land (c_flags c) 3) (set_sclass (c_sclassid c) (set_fhead h c0))).
  split; [|split; [done|split; [|split; [|split; [exact Hfl|split]]]]].
  - intros fuel rest. rewrite record_read; [|done|done|lia|by constructor|done|done]. cbv zeta. rewrite Hfind, Hnew. cbn [mbind option_bind]. rewrite Hc2. cbn [mbind option_bind].
    fold c0. rewrite Hload. cbn [mbind option_bind]. rewrite Hset. done.
  - rewrite Ht5, Ht4. cbn. by rewrite !insert_insert_eq, Ht2, insert_insert_eq, Ht1.
  - split; cbn; try done. by apply Z.mod_small.
  - rewrite Hx5, Hx4. cbn. by rewrite Hx2.
  - rewrite Hm5. cbn in Hf4. by rewrite Hm2, Hm1 in Hf4.
Qed.

(** ** All chunks *)

(** Cells are numbered one after the other, and no cell is in two lists. *)
Definition cells_of (L : lists) (ids : list Z) : Z := foldr (λ id t, Z.of_nat (length (default [] (L !! id))) + t) 0 ids.

Lemma cells_of_delete L id ids : id ∉ ids → cells_of (delete id L) ids = cells_of L ids.
Proof.
  induction ids as [|j ids IH]; intros Hid; [done|]. apply not_elem_of_cons in Hid as [Hne Hid]. unfold cells_of in *. cbn [foldr].
  rewrite IH by done. by rewrite lookup_delete_ne.
Qed.

Lemma cells_of_all ids : ∀ L, NoDup ids → cells_of L ids ≤ Z.of_nat (length (all_idx L)).
Proof.
  induction ids as [|id ids IH]; intros L Hnd; [cbn; lia|]. apply NoDup_cons in Hnd as [Hid Hnd]. specialize (IH (delete id L) Hnd).
  rewrite cells_of_delete in IH by done. unfold cells_of in *. cbn [foldr]. destruct (L !! id) as [l|] eqn:Hl; cbn [default from_option Datatypes.id].
  - rewrite (all_idx_delete L id l Hl), length_app. unfold idx at 1. rewrite length_fmap. lia.
  - rewrite delete_id in IH by done. cbn [length]. lia.
Qed.

Lemma cells_room s L ids : chunks_inv s L → NoDup ids → FLISTFIRSTINDX + cells_of L ids ≤ flistfirstfree (ck_mem s).
Proof.
  intros Hinv Hnd. assert (H := cells_of_all ids L Hnd). destruct (ci_mem _ _ Hinv) as [_ _ (F & _ & Hnd' & Hr) Hfirst].
  apply NoDup_app in Hnd' as (Hnd' & _ & _). apply Forall_app in Hr as [Hr _].
  assert (Hsize : (length (all_idx L) ≤ length (seqZ FLISTFIRSTINDX (flistfirstfree (ck_mem s) - FLISTFIRSTINDX)))%nat).
  { apply submseteq_length, NoDup_submseteq; [done|]. intros i Hi. rewrite Forall_forall in Hr. specialize (Hr i Hi). apply elem_of_seqZ. unfold in_use in Hr. lia. }
  rewrite length_seqZ in Hsize. lia.
Qed.

Section all.
Context (s : chunks) (L : lists) (Hinv : chunks_inv s L) (Htotal : ∀ id, total_of s id ≤ 2 ^ 31).

Lemma pairs_fit id c l : ck_tab s !! id = Some c → L !! id = Some l → (length l ≤ CHUNKMAXPAIRS)%nat.
Proof.
  intros Hc HL. destruct (inv_list _ _ Hinv id c Hc) as (l' & HL' & _ & Hrep). rewrite HL in HL'. injection HL' as <-. assert (Ht := Htotal id). rewrite (inv_total _ _ Hinv id c l Hc HL) in Ht.
  destruct (Z.ltb_spec (c_fhead c) FLISTFIRSTINDX) as [Hs|Hb].
  - destruct (rp_small _ _ Hrep Hs) as (_ & -> & _). cbn. lia.
  - destruct (rp_big _ _ Hrep Hb) as (_ & Hok & _). assert (Hcells := cells_bound l Hok). unfold FLISTMAXFCOUNT, CHUNKMAXPAIRS in *.
    Z.to_euclidean_division_equations; lia.
Qed.

(** The chunk [id] of [s] is in [s'] as an image keeps it. *)
Definition restored (id : Z) (s' : chunks) (L' : lists) : Prop :=
  ∃ c c' l l', ck_tab s !! id = Some c ∧ L !! id = Some l ∧ ck_tab s' !! id = Some c' ∧ L' !! id = Some l' ∧ loaded_as c c' ∧ ∀ k, files c' l' k = files c l k.

Lemma chunks_loaded mver ign ids : 0x12 ≤ mver → ∀ s1 L1, chunks_inv s1 L1 → NoDup ids → (∀ id, id ∈ ids → is_Some (ck_tab s !! id) ∧ ck_tab s1 !! id = None) →
  nextchunkid s1 = nextchunkid s → flistfirstfree (ck_mem s1) + cells_of L ids < 2 ^ 32 → ∃ body s2 L2,
  mapM (λ id, c ← ck_tab s !! id; store_chunk bld id c (ck_mem s)) ids = Some body ∧ (length ids ≤ length (concat body))%nat
  ∧ (∀ fuel rest, chunk_load_loop bld' (length ids + fuel) mver ign (concat body ++ rest) s1 = chunk_load_loop bld' fuel mver ign rest s2)
  ∧ chunks_inv s2 L2 ∧ nextchunkid s2 = nextchunkid s ∧ (∀ id, id ∈ ids → restored id s2 L2)
  ∧ ∀ id, id ∉ ids → ck_tab s2 !! id = ck_tab s1 !! id ∧ L2 !! id = L1 !! id.
Proof.
  intros Hmver. induction ids as [|id ids IH]; intros s1 L1 Hinv1 Hnd Hids Hx1 Hroom.
  { exists [], s1, L1. split; [done|]. split; [done|]. split; [done|]. split; [done|]. split; [done|]. split; [|done]. intros id Hid. by apply elem_of_nil in Hid. }
  apply NoDup_cons in Hnd as [Hid Hnd]. destruct (Hids id ltac:(by left)) as [[c Hc] Hnone].
  destruct (inv_list _ _ Hinv id c Hc) as (l & HL & Ho & Hrep). assert (Hlen := pairs_fit id c l Hc HL).
  unfold cells_of in Hroom. cbn [foldr] in Hroom. fold (cells_of L ids) in Hroom. rewrite HL in Hroom. cbn [default from_option Datatypes.id] in Hroom.
  assert (Hge : 0 ≤ cells_of L ids) by (clear; unfold cells_of; induction ids; cbn [foldr]; lia).
  assert (Hk := class_range s L id c Hinv Hc). assert (Ha := ci_attrs _ _ Hinv id c Hc). assert (Hr := ci_ids _ _ Hinv id ltac:(by eexists)).
  destruct (record_loaded mver ign id c l s1 L1 Hmver Hinv1 Hnone) as (s2 & l2 & c2 & Hload & Hinv2 & Ht2 & Hla & Hfl & Hx2 & Hf2); [by rewrite Hx1|done|done|done|done|lia|].
  destruct (IH s2 (<[id:=l2]> L1) Hinv2 Hnd) as (body & s3 & L3 & Hbody & Hlb & Hloop & Hinv3 & Hx3 & Hin & Hout); [|by rewrite Hx2|lia|].
  { intros j Hj. destruct (Hids j ltac:(by right)) as [Hs Hn]. split; [done|]. rewrite Ht2, lookup_insert_ne; [done|]. by intros ->. }
  exists (chunk_record id c (image_pairs c l) :: body), s3, L3.
  assert (Hrec := store_chunk_ok id c (ck_mem s) l _ Ho Hrep Hlen). split; [cbn [mapM]; rewrite Hc; cbn [mbind option_bind]; rewrite Hrec; cbn [mbind option_bind]; by rewrite Hbody|].
  split.
  { cbn [length concat]. rewrite length_app. unfold chunk_record. rewrite length_app, put64bit_be, length_be_bytes. lia. }
  split; [|split; [done|split; [done|split]]].
  - intros fuel rest. cbn [length concat Nat.add]. by rewrite <-app_assoc, Hload.
  - intros j Hj. apply elem_of_cons in Hj as [->|Hj]; [|by apply Hin]. destruct (Hout id Hid) as [Ht HL3].
    rewrite Ht2, lookup_insert_eq in Ht. rewrite lookup_insert_eq in HL3. by exists c, c2, l, l2.
  - intros j Hj. apply not_elem_of_cons in Hj as [Hne Hj]. destruct (Hout j Hj) as [-> ->]. by rewrite Ht2, !lookup_insert_ne.
Qed.
End all.

(** The record of zeros at the end. *)
Lemma last_record fuel mver ign s : 0x12 ≤ mver → chunk_load_loop bld' (S fuel) mver ign (replicate CHUNKFSIZE 0) s = Some (0, s).
Proof.
  intros Hmver. cbn [chunk_load_loop]. rewrite (proj2 (Z.eqb_neq mver 0x10)), (proj2 (Z.eqb_neq mver 0x11)), (proj2 (Z.leb_gt mver 0x11)) by lia.
  rewrite length_replicate, Nat.ltb_irrefl.
  assert (E : replicate CHUNKFSIZE 0 = put64bit bld' 0 ++ put32bit bld' 0 ++ put32bit bld' 0 ++ put8bit bld' 0 ++ put8bit bld' 0 ++ []) by by destruct bld'.
  rewrite E, get64_put64. cbn [mbind option_bind]. rewrite get32_put32. cbn [mbind option_bind]. rewrite get32_put32. cbn [mbind option_bind].
  rewrite get8_put8. cbn [mbind option_bind]. rewrite get8_put8. done.
Qed.

(** C13: the chunks survive the metadata image, whatever the order in which the table is
    stored and the builds of the packing functions that store and load: while no chunk
    has more than 2^31 files every list of counts fits the buffer of 383 pairs, and
    loading gives every chunk its version, class, flags and lock and the exact number of
    files of each class, in lists, counters and a table that are whole; no copy of a
    chunk is known yet. *)
Theorem chunk_image_roundtrip s order mver ign :
  chunks_ok s → NoDup order → (∀ id, id ∈ order ↔ is_Some (ck_tab s !! id)) → (∀ id, total_of s id ≤ 2 ^ 31) → 0x12 ≤ mver →
  ∃ image s', chunk_store bld order s = Some image ∧ chunk_load bld' mver ign image chunk_newfs = Some (0, s') ∧ chunks_ok s'
    ∧ nextchunkid s' = nextchunkid s ∧ (∀ id k, files_of s' id k = files_of s id k)
    ∧ ∀ id, match ck_tab s !! id, ck_tab s' !! id with Some c, Some c' => loaded_as c c' | None, None => True | _, _ => False end.
Proof.
  intros [L Hinv] Hnd Hord Htot Hmver. assert (Hnx := ci_next _ _ Hinv). set (s1 := with_next (nextchunkid s) chunk_newfs).
  assert (Hinv1 : chunks_inv s1 ∅) by (apply next_inv; [apply newfs_inv|cbn; lia]). assert (Hroom := cells_room s L order Hinv Hnd).
  destruct (chunks_loaded s L Hinv Htot mver ign order Hmver s1 ∅ Hinv1 Hnd) as (body & s2 & L2 & Hbody & Hlen & Hloop & Hinv2 & Hx2 & Hin & Hout).
  { intros id Hid. split; [by apply Hord|]. cbn. apply lookup_empty. }
  { done. }
  { assert (H := mo_first _ _ _ (ci_mem _ _ Hinv)). cbn. lia. }
  exists (put64bit bld (nextchunkid s) ++ concat body ++ replicate CHUNKFSIZE 0), s2. split; [unfold chunk_store; by rewrite Hbody|].
  split; [|split; [by exists L2|split; [done|]]].
  - unfold chunk_load. assert (Hlong : Nat.ltb (length (put64bit bld (nextchunkid s) ++ concat body ++ replicate CHUNKFSIZE 0)) 8 = false).
    { apply Nat.ltb_ge. rewrite length_app, put64bit_be, length_be_bytes. lia. }
    rewrite Hlong, get64_put64. cbn [mbind option_bind]. rewrite Z.mod_small by lia. change (with_number 0 chunk_newfs) with chunk_newfs. fold s1.
    rewrite !length_app, length_replicate, put64bit_be, length_be_bytes.
    replace (S (8 + (length (concat body) + CHUNKFSIZE)))%nat with (length order + S (8 + CHUNKFSIZE + (length (concat body) - length order)))%nat by lia.
    rewrite Hloop. by apply last_record.
  - assert (Hall : ∀ id, match ck_tab s !! id, ck_tab s2 !! id with Some c, Some c' => loaded_as c c' | None, None => True | _, _ => False end
      ∧ ∀ k, files_of s2 id k = files_of s id k).
    { intros id. destruct (ck_tab s !! id) as [c|] eqn:Hc.
      - destruct (Hin id ltac:(apply Hord; by eexists)) as (c1 & c' & l & l' & Hc1 & HL & Hc' & HL' & Hla & Hfl). rewrite Hc in Hc1. injection Hc1 as <-.
        rewrite Hc'. split; [done|]. intros k. by rewrite (inv_files _ _ Hinv2 id c' l' Hc' HL'), (inv_files _ _ Hinv id c l Hc HL).
      - destruct (Hout id) as [Ht _]; [intros H; apply Hord in H as [c H]; by rewrite Hc in H|]. cbn in Ht. rewrite lookup_empty in Ht. unfold files_of.
        by rewrite Ht, Hc. }
    split; intros id; apply Hall.
Qed.
End image.

(** ** Witness *)

Lemma ex_ids id : id ∈ [8; 7] ↔ is_Some (ck_tab ex_state !! id).
Proof.
  assert (E : (map_to_list (ck_tab ex_state)).*1 ≡ₚ [8; 7]) by (vm_compute; first [apply Permutation_refl|apply perm_swap]).
  rewrite <-E, list_elem_of_fmap. split.
  - intros ([j c] & -> & Hc). apply elem_of_map_to_list in Hc. by eexists.
  - intros [c Hc]. exists (id, c). split; [done|]. by apply elem_of_map_to_list.
Qed.

Lemma ex_totals id : total_of ex_state id ≤ 2 ^ 31.
Proof.
  destruct (decide (id ∈ [8; 7])) as [Hid|Hid].
  - repeat (apply elem_of_cons in Hid as [->|Hid]; [vm_compute; discriminate|]). by apply elem_of_nil in Hid.
  - unfold total_of. destruct (ck_tab ex_state !! id) as [c|] eqn:Hc; [|lia]. exfalso. apply Hid, ex_ids. by eexists.
Qed.

Lemma chunk_image_roundtrip_witness : ∃ image s', chunk_store FastBE [8; 7] ex_state = Some image ∧ chunk_load FastLE 0x12 false image chunk_newfs = Some (0, s')
  ∧ files_of s' 7 1 = 3 ∧ files_of s' 7 2 = 1.
Proof.
  destruct (chunk_image_roundtrip FastBE FastLE ex_state [8; 7] 0x12 false ex_ok) as (image & s' & Hs & Hl & _ & _ & Hf & _).
  - repeat constructor; rewrite ?list_elem_of_singleton, ?elem_of_nil; [discriminate|intros []].
  - exact ex_ids.
  - exact ex_totals.
  - lia.
  - exists image, s'. split; [exact Hs|]. split; [exact Hl|]. rewrite !Hf. split; vm_compute; reflexivity.
Defined.
